(* ===== verification/_CoqProject ===== *)
-Q . S2P
Prelude.v
JsString.v
JsNumber.v
JsonText.v
LogBuffer.v
RunLogChunks.v
LogStreams.v
Sql.v
Pool.v
Bytes.v
TunnelProtocol.v
TunnelMux.v
DockerFrames.v
KeyedLock.v
BoundedMap.v
Concurrency.v
Tar.v
Base64.v
MasterKey.v
SshProtocol.v
SshAgent.v
OAuthState.v
Credentials.v
Substitution.v
McpAccess.v
VaultCache.v
SplitRouting.v
NetGuard.v
Connectors.v
EgressProxy.v
PortAllocator.v
Calendar.v
Budget.v
UptimeLedger.v
ContainerHours.v
PoolTable.v
Admission.v
PoolLifecycle.v
PoolHistories.v
Wakeups.v
Paging.v
OAuthStore.v
TokenRefresh.v
Dependencies.v
TaskTree.v
RunRows.v
LogCompaction.v
Holds.v
TokenBudget.v
DispatchGuards.v
Orphans.v
Dispatcher.v
TaskWrites.v
Completion.v
