(* ===== verification/Prelude.v ===== *)
(** * Hezo server core: verification development

    Hezo runs teams of AI agents in containers. A task's wakeup is queued, a dispatcher
    claims it when the task's blockers are closed, no hold or budget stops the agent and the
    instance has room, the run gets a container from its project's pool, everything the
    container sends leaves through an egress proxy that substitutes secrets, and the
    container's hours are metered against a budget. Runs nothing drives any more are reaped
    and their work is put back. This development models the rules of those parts and proves what they promise.
    The language is TypeScript; a model is a function, or a step on an explicit state, whose
    text follows the source, under [packages/server/src] (server) and [packages/shared/src]
    (shared).

    ** Files

    - [Prelude.v]: this file; tactics, sums and counts over lists, ceiling division, the
      stable sort of the language, the hint database [hezo].
    - [JsString.v], [JsNumber.v], [Bytes.v], [Calendar.v]: strings, numerals, byte arrays and
      UTC dates of the language. [JsonText.v]: [JSON.parse] on UTF-16 code units, proved
      against the grammar of JSON.
    - [Pool.v]: which container a run takes and which idle ones are retired
      (server [services/sandbox/pool.ts]).
    - [Admission.v]: the memory and hours gate in front of the pool (server
      [services/run-concurrency.ts]), and the candidate query of a reclaim
      ([services/containers.ts]).
    - [PoolTable.v]: the table of pool members, its statements and the uptime interval each
      moves (server [services/sandbox/pool-db.ts]). [PoolLifecycle.v]: acquiring, provisioning,
      retiring, reconciling and destroying containers ([services/containers.ts]), on that
      table. [PoolHistories.v]: the lifecycle as steps, refined to histories of the table.
    - [TunnelProtocol.v], [TunnelMux.v]: the frame decoder and the stream multiplexer between
      server and container (server [services/sandbox/tunnel/protocol.ts], [mux.ts]).
    - [DockerFrames.v]: the two decoders of the daemon's multiplexed output (server
      [services/docker-frames.ts], [tunnel/docker-frames-binary.ts]).
    - [KeyedLock.v], [BoundedMap.v], [Concurrency.v], [Tar.v]: server [lib/keyed-lock.ts],
      [lib/bounded-map.ts], [lib/concurrency.ts], [services/sandbox/tar.ts].
    - [Credentials.v]: host scopes and secret placeholders (shared [credentials/]).
      [Substitution.v], [VaultCache.v]: substitution of secrets into a request and the cache
      of the vault (server [services/egress/substitution.ts]). [SplitRouting.v]: which hosts
      go through the proxy ([tunnel/split-routing.ts]). [McpAccess.v]: which tool calls an
      allowlist lets through (shared [mcp/method-access.ts], server
      [services/egress/mcp-method-guard.ts]). [Connectors.v]: the connectors of a run and the
      allowlists they bind to hosts (server [services/connectors/connections.ts]). [NetGuard.v]: which addresses it
      refuses to dial ([services/egress/net-guard.ts]). [PortAllocator.v]: the ports of its
      listeners ([services/egress/port-allocator.ts]). [EgressProxy.v]: the path of a request
      through the proxy ([services/egress/proxy.ts]), which composes these.
    - [Budget.v]: budget floors and the container-hours window (shared [budget.ts]).
      [UptimeLedger.v], [ContainerHours.v]: the ledger of running stretches and the figures
      read from it (server [services/sandbox/uptime-ledger.ts], [services/container-hours.ts]).
    - [Wakeups.v]: the wakeup table (server [services/wakeup.ts]). [Dependencies.v]: blockers,
      derived statuses and unblock wakeups (server [lib/dependencies.ts]). [TaskTree.v]: where a
      task may be nested (server [lib/task-relationships.ts]). [TaskWrites.v]: the writes of
      people and agents on tasks, their gates and what follows them (server [services/tasks.ts],
      [services/task-automation.ts], [routes/tasks.ts], the task tools of [mcp/tools.ts],
      [lib/assignment-hierarchy.ts], [lib/reassign-guard.ts], [lib/run-scope.ts]).
    - [Sql.v]: three-valued logic and aggregates. [RunRows.v]: rows of runs, comments and
      people. [Holds.v]: which wakeups a held task lets through, and what holds it (server
      [services/no-work-backoff.ts]). [TokenBudget.v]: the token gate and the pause of an agent
      (server [services/budget.ts], [services/agent-runtime-status.ts]).
    - [DispatchGuards.v]: the in-memory registries of the dispatcher. [Orphans.v]: reaping
      lost runs and healing what they leave (server [services/orphan-detector.ts],
      [services/run-handback.ts]). [Dispatcher.v]: the gates, the activation of an agent, the
      pass over the queue and Run now (server [services/job-manager.ts]), and the answer to a
      held task ([services/comment-wakeups.ts]); it composes the files above.
      [Completion.v]: what follows a run, and scheduled heartbeats (server
      [services/job-manager.ts], [services/heartbeat-schedule.ts]).
    - [Base64.v]: Base64 and its URL form. [MasterKey.v]: encrypted values and the manager of
      the unlock key (server [crypto/encryption.ts], [crypto/master-key.ts]). [OAuthState.v]:
      the signed state of an authorisation (server [services/oauth/state.ts]). [OAuthStore.v]:
      connections and their secrets ([services/oauth/connection-store.ts]). [TokenRefresh.v]:
      refreshing their tokens ([services/oauth/token-resolver.ts]).
    - [Paging.v]: cursors, pages of lists and windows on long texts (server [mcp/paging.ts],
      [lib/pagination.ts]), for columns that are instances of the class [SortColumn].
    - [SshProtocol.v], [SshAgent.v]: the messages of the SSH agent and the agent of each run
      (server [services/ssh-agent/protocol.ts], [server.ts], [registry.ts]).
    - [LogBuffer.v]: the lines of a run's output and the capped buffer they go to (server
      [services/log-format.ts], [services/log-buffer.ts]). [RunLogChunks.v]: the stored log
      ([db/run-log-chunks.ts]). [LogStreams.v]: live streams, which flush the buffer to the
      store and to subscribers ([services/log-stream-broker.ts]); it is proved against the
      class [LogSink] of a store. [LogCompaction.v]: trimming the logs of old runs
      ([services/log-compaction.ts]).

    ** How code becomes definitions

    A pure function is a function of the same name. A module or class with state is a record
    and one definition per operation. Where the source awaits, other code may run: locks, the
    multiplexer, the vault cache, the port allocator, the master key, token refreshes, log
    streams, the SSH agent, creations in the task tree and [mapConcurrent] are step functions over event sequences, and the statements of [createWakeup] are separated by arbitrary
    interference. A SQL statement is a function of the rows it reads; NULL is [None]. Numbers
    are [Z]: frame headers, tar fields and window credit at their widths, budget floors in
    double precision, memory in bytes, instants in milliseconds (JavaScript) or microseconds
    (SQL). Errors are values. Loops that are not structural carry fuel: the frame decoders one
    unit per byte, the recursive dependency query one per edge, a bucket grid one per bucket;
    each has a lemma that the fuel is enough.

    Code that is not in the repository is a parameter: name lookup, JSON parsing and text
    codecs, collation, number formatting, the time zone of a database session, fresh ids, the
    cipher, key derivation, keyed hash and signatures of the platform, a provider's answer to a
    refresh.

    ** What the theorems show

    - Secrets: what is sent to a host does not depend on any secret not allowed there, bodies
      need the opt-in, substitution is complete; a cached vault is current and never served
      locked; the proxy sees every host it must, and no spelling of a private address passes
      the guard. The whole request path keeps that: what it sends, answers and reports is
      independent of secrets of other hosts, and it dials an address the guard passed.
    - Connectors: the guard decides a request body message by message, a call of a tool that is
      not enabled being refused, and so is what it cannot read; an
      allowlist a run is handed is enforced on its host; no guess from a tool's name is too
      permissive; a stored configuration is well-formed; a refusal is reported once.
    - Containers: the pool's decision is the documented ladder, recycling converges, retiring
      strands nobody and destroys no unpushed work; a run is admitted exactly when it fits or
      the reclaim planner can make it fit. The pool's table keeps a container with the run
      that claimed it until an operation takes it back, and the ledger of hours follows the
      states of the table but for containers being stopped and writes of the ledger alone; an acquire hands out a claimed,
      current and running container, none that had to be started once the hours are spent; a
      reconcile reaches every member and brings it in line with the engine. Lifecycle
      operations in any order only reach states of the table's own histories.
    - Channel: frames survive any chunking of the bytes, buffers are bounded, flow control
      holds in every reachable state, a closed channel is final.
    - Work: a trigger always lands on a queued row, the first outcome of a wakeup stands, a
      hold releases at its pace; the cycle check is exact, [blocked] stays derived, a ready
      task wakes its agent.
    - Tasks: through any writes blockers stay acyclic, [blocked] stays derived and sub-tasks form
      trees of one team, within the cap where no move comes between the check and the insertion
      of a creation and one level below it otherwise; a parent is accepted exactly where it fits
      the whole tree. An agent closes only settled work, hands it only down, and never re-opens a
      task; closing the last sub-task wakes the parent's agent.
    - Dispatch: a wakeup becomes a run exactly when every gate is open; after any events the
      registries hold what is in flight, short of it by what late sweeps take twice; a task is
      held on the eighth handoff in a row that agents raised and not before, and agents cannot talk
      their way past a hold; the admin's word lifts the holds of their reply and wakes the task, and their
      Run now is never dropped; a reaped run's work is always carried on or asked about,
      retries end, and one healing pass is enough; the budget gate blocks on the first window
      over its limit and says so once.
    - Completion: what each way of not succeeding leaves - a row queued again, a continuation, a
      report, an item for a person, or none of these after a streak or a cancellation - is
      stated branch by branch; its lock, wakeup and agent are always released; the next ready task is
      woken; a heartbeat without work waits its interval.
    - Keys and connections: encrypted values read back; no interleaving replaces an enrolled
      key or unlocks with another; an accepted state was signed here and is not expired; a
      client secret leaves for no host and a deleted connection leaves no secret; refreshes of
      a connection are one at a time and present the token the provider last issued, and
      failing ones back off. The SSH agent answers a connection with the keys of its run's team
      alone, a TCP one only behind the run's token; requests survive any chunking, and a released
      run leaves nothing registered.
    - Logs: reading a buffer from an offset is slicing its text, and its text only grows at the
      end; whatever fails and interleaves, what the store took is what was emitted, once and in
      order, and so are the frames; stored logs read back as the characters the database took,
      by their tail and, in the basic plane, by windows; a
      compaction ends, keeps the end of each log it takes and touches no other.
    - Metering: no container's minute is billed twice, the series splits stretches without
      loss, meter and cap agree, windows tile time, floors are exact.
    - Paging: following the cursors of a list gives every row once and in order, following the
      offsets of a text gives the text, and a trimmed result fits.
    - Library: the keyed lock is exclusive and serves its waiters, the bounded map is bounded
      and fresh, concurrent mapping respects its limit, archives read back, ports are owned
      once.

    Theorems numbered C1 to C40 are the properties of the manifest; others support them or
    record behaviour that differs from its documentation ([untar_signed_size_diverges],
    [rejection_does_not_stop_others], [inflight_load_serves_stale],
    [concurrent_merges_lose_payload], [unblock_key_of_previous_assignee],
    [totals_prefilter_narrower_than_day], [totals_day_follows_session_zone],
    [concurrent_scan_misses_free_port], [adjacent_placeholders_merge],
    [reap_after_settle_releases_twice], [concurrent_dispatches_share_a_task],
    [lost_run_is_stamped_handed_back], [heal_fails_a_reclaimed_wakeup],
    [stale_lock_strands_wakeup], [over_budget_wakeup_comes_back],
    [run_now_reports_a_parked_wakeup], [nested_batch_passes],
    [shadowed_allowlist_not_enforced], [other_content_type_not_inspected],
    [ipv6_port_misread], [stale_release_frees_claim], [late_sync_bills_suspended],
    [held_outdated_member_starves], [sync_suspends_a_claimed_member],
    [long_runs_crowd_out_heartbeats], [chain_stops_at_archived_task],
    [countdown_shown_without_work], [reconnect_leaves_tokens],
    [parked_connections_fill_the_sweep], [window_drops_end_after_emoji],
    [tail_cut_unreported], [pair_cut_between_chunks], [nul_ends_the_stored_log], [short_log_cut_without_notice],
    [answers_overtake], [short_request_unanswered], [late_connection_outlives_release],
    [late_insert_exceeds_cap], [cancelled_parent_keeps_open_child],
    [reopened_task_nested_under_closed], [reopen_wakes_previous_assignee],
    [unowned_notice_answers_admin], [dependency_crosses_teams],
    [concurrent_blockers_close_a_cycle], [cursor_drops_microseconds],
    [null_cursor_starts_again], [narrow_window_never_advances]).

    ** Not modelled

    The web client, routes other than those of tasks, database drivers and migrations, container
    engines and providers, the agent runner and its CLI parsers, chat, Git and filesystem work,
    TLS and certificates, and the client's cryptography are input and output, or the behaviour of
    third parties. Of the dispatcher, the task-less runs of the Captain and the Coach are
    arguments, and the completion of a progress update is left out. Of the containers, what a
    provision runs inside, host ports and the scans for idle members are left out. Of the tasks,
    goals, comments other than status changes, worktrees and the termination of runs are left out.
    Of the SSH agent, the relay that carries it into a container is process handling. Tunnel port
    triples, allowance pacing, mentions, search terms and excerpts are rules of the program that
    stand apart from the parts above and are not modelled. *)
From Stdlib Require Import ZArith Lia List Permutation Sorted Bool.
From stdpp Require Import base list.

Open Scope Z_scope.

(** ** Results of fallible code

    A TypeScript function that may throw returns [result]; [Throw] carries a
    description of the error class raised by the source. *)
Inductive result (E A : Type) : Type :=
| Ok (a : A)
| Throw (e : E).
Arguments Ok {E A} a.
Arguments Throw {E A} e.

Definition bind_result {E A B} (r : result E A) (f : A -> result E B) : result E B :=
  match r with
  | Ok a => f a
  | Throw e => Throw e
  end.

Declare Scope hezo_scope.
Delimit Scope hezo_scope with hezo.
Notation "'let!' x ':=' r 'in' k" := (bind_result r (fun x => k))
  (at level 10, x name, r at level 100, k at level 200) : hezo_scope.
Open Scope hezo_scope.

(** ** Tactics of the development *)

(** Turn boolean tests in hypotheses and goal into propositions. *)
Ltac brefl :=
  repeat match goal with
  | H : context [andb _ _ = true] |- _ => setoid_rewrite andb_true_iff in H
  | H : context [orb _ _ = true] |- _ => setoid_rewrite orb_true_iff in H
  | H : context [andb _ _ = false] |- _ => setoid_rewrite andb_false_iff in H
  | H : context [orb _ _ = false] |- _ => setoid_rewrite orb_false_iff in H
  | H : context [negb _ = true] |- _ => setoid_rewrite negb_true_iff in H
  | H : context [negb _ = false] |- _ => setoid_rewrite negb_false_iff in H
  | H : context [(_ <? _) = true] |- _ => setoid_rewrite Z.ltb_lt in H
  | H : context [(_ <=? _) = true] |- _ => setoid_rewrite Z.leb_le in H
  | H : context [(_ =? _) = true] |- _ => setoid_rewrite Z.eqb_eq in H
  | H : context [(_ <? _) = false] |- _ => setoid_rewrite Z.ltb_ge in H
  | H : context [(_ <=? _) = false] |- _ => setoid_rewrite Z.leb_gt in H
  | H : context [(_ =? _) = false] |- _ => setoid_rewrite Z.eqb_neq in H
  | H : context [bool_decide _ = true] |- _ => setoid_rewrite bool_decide_eq_true in H
  | H : context [bool_decide _ = false] |- _ => setoid_rewrite bool_decide_eq_false in H
  | H : _ /\ _ |- _ => destruct H
  end.

(** Case on the scrutinee of some match or if of the goal, keeping the equation. *)
Ltac break_match :=
  match goal with
  | |- context [match ?x with _ => _ end] =>
      lazymatch x with
      | context [match _ with _ => _ end] => fail
      | _ => destruct x eqn:?
      end
  end.

(** The same for a hypothesis. *)
Ltac break_match_in H :=
  match type of H with
  | context [match ?x with _ => _ end] =>
      lazymatch x with
      | context [match _ with _ => _ end] => fail
      | _ => destruct x eqn:?
      end
  end.

(** ** Lists *)

Create HintDb hezo.

Section ListLemmas.
Context {A : Type}.
Implicit Types (f g : A -> bool) (l : list A).

Lemma filter_partition_perm f l :
  Permutation l (List.filter f l ++ List.filter (fun x => negb (f x)) l).
Proof.
  induction l as [|x l IH]; simpl; [constructor|].
  destruct (f x); simpl.
  - by constructor.
  - rewrite <- Permutation_middle. by constructor.
Qed.

Lemma filter_nil_iff f l :
  List.filter f l = [] <-> (forall x, In x l -> f x = false).
Proof.
  split.
  - intros Hf x Hx. destruct (f x) eqn:E; [|done].
    assert (In x (List.filter f l)) as Hin by (apply filter_In; done).
    rewrite Hf in Hin. destruct Hin.
  - induction l as [|x l IH]; intros H; simpl; [done|].
    rewrite (H x) by (left; done). apply IH. intros y Hy. apply H. by right.
Qed.

Lemma filter_filter_and f g l :
  List.filter f (List.filter g l) = List.filter (fun x => g x && f x) l.
Proof.
  induction l as [|x l IH]; simpl; [done|].
  destruct (g x) eqn:Eg; simpl; [destruct (f x); congruence | done].
Qed.

Lemma filter_ext_in' f g l :
  (forall x, In x l -> f x = g x) -> List.filter f l = List.filter g l.
Proof. apply filter_ext_in. Qed.

(** [Array.prototype.find]: the first element satisfying the predicate. *)
Lemma find_split f l x :
  List.find f l = Some x ->
  exists l1 l2, l = l1 ++ x :: l2 /\ f x = true /\ (forall y, In y l1 -> f y = false).
Proof.
  induction l as [|y l IH]; simpl; [done|].
  destruct (f y) eqn:Ef; intros H.
  - simplify_eq. exists [], l. by repeat split.
  - destruct (IH H) as (l1 & l2 & -> & Hx & Hl1).
    exists (y :: l1), l2. split_and!; [done|done|].
    intros z [->|Hz]; [done|by apply Hl1].
Qed.

Lemma find_none_iff f l :
  List.find f l = None <-> (forall x, In x l -> f x = false).
Proof.
  split; [intros H x; by apply (find_none f l H)|].
  induction l as [|y l IH]; intros H; simpl; [done|].
  rewrite (H y) by (by left). apply IH. intros x Hx. apply H. by right.
Qed.

Lemma existsb_false_iff f l :
  existsb f l = false <-> (forall x, In x l -> f x = false).
Proof.
  split.
  - intros H x Hx. destruct (f x) eqn:E; [|done].
    rewrite <- H. symmetry. apply existsb_exists. eauto.
  - intros H. apply not_true_iff_false. intros (x & Hx & E)%existsb_exists.
    by rewrite (H x Hx) in E.
Qed.

End ListLemmas.

Lemma Permutation_filter_bool {A} (p : A -> bool) l l' : Permutation l l' -> Permutation (List.filter p l) (List.filter p l').
Proof.
  induction 1 as [|x l l' H IH|x y l|l1 l2 l3 _ IH1 _ IH2]; cbn; [done| | |by etransitivity].
  - destruct (p x); [by constructor|done].
  - destruct (p x), (p y); try done. apply perm_swap.
Qed.

Lemma filter_all {A} (p : A -> bool) l : (forall x, In x l -> p x = true) -> List.filter p l = l.
Proof.
  induction l as [|x l IH]; intros H; [done|]. cbn. rewrite (H x (or_introl eq_refl)), IH; [done|]. intros y Hy. apply H. by right.
Qed.

Lemma map_insert_same {A B} (f : A -> B) l i x y : l !! i = Some x -> f y = f x -> List.map f (<[i := y]> l) = List.map f l.
Proof. revert i. induction l as [|z l IH]; intros [|i] H E; simplify_eq/=; [by rewrite E|]. by rewrite (IH i). Qed.

Lemma NoDup_map_filter {A B} (f : A -> B) (p : A -> bool) l : NoDup (List.map f l) -> NoDup (List.map f (List.filter p l)).
Proof.
  induction l as [|x l IH]; [done|]. simpl. inversion_clear 1 as [|? ? Hx Hnd]. destruct (p x); [|by apply IH].
  simpl. constructor; [|by apply IH]. intros Hin. apply Hx. apply list_elem_of_In, in_map_iff in Hin as (y & Hy & Hin).
  apply list_elem_of_In, in_map_iff. exists y. split; [done|]. by apply filter_In in Hin as [Hin _].
Qed.

Lemma NoDup_fmap_In {A B} (f : A -> B) l x y : NoDup (List.map f l) -> In x l -> In y l -> f x = f y -> x = y.
Proof.
  intros Hnd Hx Hy Hf. induction l as [|z l IH]; [done|]. cbn in Hnd. inversion_clear Hnd as [|? ? Hz Hnd'].
  assert (forall w, In w l -> f w <> f z) as Hne.
  { intros w Hw E. apply Hz. rewrite <- E. apply list_elem_of_In, in_map_iff. eauto. }
  destruct Hx as [-> |Hx], Hy as [-> |Hy]; [done| | |by apply (IH Hnd')].
  - exfalso. by apply (Hne y Hy).
  - exfalso. by apply (Hne x Hx).
Qed.

(** Sum of a numeric field, [xs.reduce((sum, x) => sum + f(x), 0)]. *)
Definition sumZ {A} (f : A -> Z) (l : list A) : Z := fold_right (fun x s => f x + s) 0 l.
Arguments sumZ : simpl never.

Section Sum.
Context {A : Type} (f : A -> Z).

Lemma sumZ_app l1 l2 : sumZ f (l1 ++ l2) = sumZ f l1 + sumZ f l2.
Proof. induction l1 as [|x l1 IH]; [done|]. unfold sumZ in *. simpl. lia. Qed.

Lemma sumZ_perm l1 l2 : Permutation l1 l2 -> sumZ f l1 = sumZ f l2.
Proof. unfold sumZ. induction 1; simpl; lia. Qed.

Lemma sumZ_nonneg l : (forall x, In x l -> 0 <= f x) -> 0 <= sumZ f l.
Proof.
  induction l as [|x l IH]; intros H; [done|].
  assert (0 <= f x) by (apply H; by left).
  assert (0 <= sumZ f l) by (apply IH; intros; apply H; by right).
  unfold sumZ in *. simpl. lia.
Qed.

Lemma sumZ_nil : sumZ f [] = 0.
Proof. done. Qed.

Lemma sumZ_cons x l : sumZ f (x :: l) = f x + sumZ f l.
Proof. done. Qed.
End Sum.

Lemma sumZ_map {A B} (f : B -> Z) (g : A -> B) l : sumZ f (List.map g l) = sumZ (fun x => f (g x)) l.
Proof. induction l as [|x l IH]; [done|]. cbn [List.map]. by rewrite !sumZ_cons, IH. Qed.

Lemma filter_map {A B} (p : B -> bool) (g : A -> B) l :
  List.filter p (List.map g l) = List.map g (List.filter (fun x => p (g x)) l).
Proof. induction l as [|x l IH]; [done|]. cbn. rewrite IH. by destruct (p (g x)). Qed.

(** Number of elements satisfying a boolean predicate, as an integer. *)
Definition countZ {A} (p : A -> bool) (l : list A) : Z := sumZ (fun x => if p x then 1 else 0) l.

Lemma countZ_app {A} (p : A -> bool) l1 l2 : countZ p (l1 ++ l2) = countZ p l1 + countZ p l2.
Proof. apply sumZ_app. Qed.

Lemma countZ_nil {A} (p : A -> bool) : countZ p [] = 0.
Proof. done. Qed.

Lemma countZ_cons {A} (p : A -> bool) x l : countZ p (x :: l) = (if p x then 1 else 0) + countZ p l.
Proof. done. Qed.

Lemma countZ_perm {A} (p : A -> bool) l1 l2 : Permutation l1 l2 -> countZ p l1 = countZ p l2.
Proof. apply sumZ_perm. Qed.

Lemma countZ_nonneg {A} (p : A -> bool) l : 0 <= countZ p l.
Proof. apply sumZ_nonneg. intros x _. destruct (p x); lia. Qed.

Lemma countZ_filter_le {A} (p q : A -> bool) l : countZ p (List.filter q l) <= countZ p l.
Proof.
  induction l as [|x l IH]; simpl; [done|].
  destruct (q x); rewrite ?countZ_cons; destruct (p x); lia.
Qed.

Lemma countZ_pos_in {A} (p : A -> bool) l x : In x l -> p x = true -> 0 < countZ p l.
Proof.
  induction l as [|y l IH]; simpl; [done|]. rewrite countZ_cons.
  pose proof (countZ_nonneg p l). intros [->|Hx] Hp; [rewrite Hp; lia|].
  specialize (IH Hx Hp). destruct (p y); lia.
Qed.

Lemma countZ_insert {A} (p : A -> bool) l i (x y : A) : l !! i = Some x ->
  countZ p (<[i := y]> l) = countZ p l - (if p x then 1 else 0) + (if p y then 1 else 0).
Proof.
  revert i. induction l as [|z l IH]; intros [|i] H; simplify_eq/=; rewrite !countZ_cons; [lia|]. rewrite (IH i) by done. lia.
Qed.

Lemma countZ_lookup {A} (p : A -> bool) l i x : l !! i = Some x -> p x = true -> 0 < countZ p l.
Proof. intros H Hp. eapply countZ_pos_in; [|exact Hp]. apply list_elem_of_In. by eapply list_elem_of_lookup_2. Qed.

(** The accumulator loop [for (const x of l) acc = acc + f x], folded from the
    left as the source runs it, is [sumZ]. *)
Lemma fold_left_sumZ {A} (f : A -> Z) l a :
  fold_left (fun s x => s + f x) l a = a + sumZ f l.
Proof.
  revert a. induction l as [|x l IH]; intros a; simpl; [unfold sumZ; simpl; lia|].
  rewrite IH, sumZ_cons. lia.
Qed.

(** Instants of the database are microseconds. *)
Definition US_PER_SEC : Z := 1000000.

(** [Math.ceil(a / b)] on integers. *)
Definition ceilDiv (a b : Z) : Z := - ((- a) / b).

Lemma ceilDiv_spec a b : 0 < b -> b * (ceilDiv a b - 1) < a <= b * ceilDiv a b.
Proof.
  intros Hb. unfold ceilDiv. pose proof (Z.div_mod (- a) b ltac:(lia)).
  pose proof (Z.mod_pos_bound (- a) b Hb). nia.
Qed.

Lemma ceilDiv_unique a b q : 0 < b -> b * (q - 1) < a <= b * q -> ceilDiv a b = q.
Proof. intros Hb H. pose proof (ceilDiv_spec a b Hb). nia. Qed.

(** ** [Array.prototype.sort] with a comparator

    The language promises a stable sort: a permutation ordered by the comparator
    in which elements that compare equal keep their relative order. Insertion
    sort computes that list for a consistent comparator. *)
Section Sort.
Context {A : Type} (cmp : A -> A -> Z).

Fixpoint insert_sorted (x : A) (l : list A) : list A :=
  match l with
  | [] => [x]
  | y :: l' => if cmp x y <=? 0 then x :: y :: l' else y :: insert_sorted x l'
  end.

Definition js_sort (l : list A) : list A := fold_right insert_sorted [] l.

Lemma insert_sorted_perm x l : Permutation (x :: l) (insert_sorted x l).
Proof.
  induction l as [|y l IH]; simpl; [done|].
  destruct (cmp x y <=? 0); [done|].
  rewrite perm_swap. by constructor.
Qed.

Lemma js_sort_perm l : Permutation l (js_sort l).
Proof.
  induction l as [|x l IH]; simpl; [done|].
  rewrite <- insert_sorted_perm. by constructor.
Qed.

Lemma js_sort_In l x : In x (js_sort l) <-> In x l.
Proof.
  split; apply Permutation_in; [symmetry|]; apply js_sort_perm.
Qed.

(** A list already in order is left as it is. *)
Lemma js_sort_id l : StronglySorted (fun a b => cmp a b <= 0) l -> js_sort l = l.
Proof.
  induction 1 as [|x l _ IH Hx]; [done|]. cbn [js_sort fold_right]. fold (js_sort l). rewrite IH.
  destruct Hx as [|y l Hy _]; [done|]. cbn [insert_sorted]. by rewrite (proj2 (Z.leb_le _ _) Hy).
Qed.

(** A comparator is consistent when its sign is antisymmetric and transitive. *)
Class Comparator : Prop := {
  cmp_total : forall x y, cmp x y <= 0 \/ cmp y x <= 0;
  cmp_trans : forall x y z, cmp x y <= 0 -> cmp y z <= 0 -> cmp x z <= 0;
}.

Lemma insert_sorted_HdRel `{!Comparator} x y l :
  cmp y x <= 0 -> HdRel (fun a b => cmp a b <= 0) y l ->
  HdRel (fun a b => cmp a b <= 0) y (insert_sorted x l).
Proof.
  intros Hyx Hl. destruct l as [|z l]; simpl; [by constructor|].
  inversion Hl; subst. destruct (cmp x z <=? 0); by constructor.
Qed.

Lemma insert_sorted_sorted `{!Comparator} x l :
  Sorted (fun a b => cmp a b <= 0) l -> Sorted (fun a b => cmp a b <= 0) (insert_sorted x l).
Proof.
  induction 1 as [|y l Hl IH Hd]; simpl; [repeat constructor|].
  destruct (Z.leb_spec (cmp x y) 0).
  - repeat constructor; done.
  - constructor; [done|]. apply insert_sorted_HdRel; [|done].
    destruct (cmp_total x y); lia.
Qed.

Lemma js_sort_sorted `{!Comparator} l :
  StronglySorted (fun a b => cmp a b <= 0) (js_sort l).
Proof.
  apply Sorted_StronglySorted; [intros x y z; apply cmp_trans|].
  induction l; simpl; [constructor|by apply insert_sorted_sorted].
Qed.

(** An element before all others goes to the front. *)
Lemma js_sort_front l x : (forall y, In y l -> 0 < cmp y x) -> js_sort (l ++ [x]) = x :: js_sort l.
Proof.
  induction l as [|y l IH]; intros H; [done|]. simpl.
  rewrite IH by (intros; apply H; by right). simpl.
  by rewrite (proj2 (Z.leb_gt _ _) (H y (or_introl eq_refl))).
Qed.

Lemma insert_sorted_filter `{!Comparator} (p : A -> bool) x l : StronglySorted (fun a b => cmp a b <= 0) l ->
  List.filter p (insert_sorted x l) = if p x then insert_sorted x (List.filter p l) else List.filter p l.
Proof.
  induction 1 as [|y l Hs IH Hy]; simpl; [by destruct (p x)|].
  destruct (Z.leb_spec (cmp x y) 0) as [Hxy|Hxy]; simpl.
  - destruct (p x) eqn:Hpx; [|done]. destruct (p y) eqn:Hpy; simpl; [by rewrite (proj2 (Z.leb_le _ _) Hxy)|].
    assert (forall z, In z (List.filter p l) -> cmp x z <= 0) as Hf.
    { intros z [Hz _]%filter_In. apply (cmp_trans x y z); [done|]. by apply (proj1 (List.Forall_forall _ _) Hy). }
    destruct (List.filter p l) as [|z l']; simpl; [done|].
    by rewrite (proj2 (Z.leb_le _ _) (Hf z (or_introl eq_refl))).
  - rewrite IH. destruct (p y) eqn:Hpy, (p x) eqn:Hpx; simpl; try done.
    by rewrite (proj2 (Z.leb_gt _ _) Hxy).
Qed.

Lemma js_sort_filter `{!Comparator} (p : A -> bool) l : js_sort (List.filter p l) = List.filter p (js_sort l).
Proof.
  induction l as [|x l IH]; [done|]. simpl. rewrite insert_sorted_filter by apply js_sort_sorted.
  destruct (p x); simpl; by rewrite IH.
Qed.

Lemma js_sort_map (f : A -> A) l : (forall x y, cmp (f x) (f y) = cmp x y) -> js_sort (List.map f l) = List.map f (js_sort l).
Proof.
  intros Hf. induction l as [|x l IH]; [done|]. simpl. rewrite IH. generalize (js_sort l) as s.
  induction s as [|y s IHs]; [done|]. simpl. rewrite Hf. destruct (cmp x y <=? 0); simpl; congruence.
Qed.
End Sort.

#[export] Hint Resolve js_sort_perm insert_sorted_perm filter_partition_perm : hezo.
