(* ===== verification/JsString.v ===== *)
(** * JavaScript strings

    The string operations of the language that the modelled code uses, on
    strings of Latin-1 code units: [ascii] is read as a code unit below 256, and
    on those [toLowerCase] and [trim] are exact. *)
From Stdlib Require Import ZArith Lia Ascii String Bool.
From stdpp Require Import base list strings.
From S2P Require Import Prelude.

Open Scope Z_scope.

Definition code (c : ascii) : Z := Z.of_nat (nat_of_ascii c).

(** A-Z, and U+00C0-U+00DE without the multiplication sign U+00D7. *)
Definition is_upper (c : ascii) : bool :=
  ((65 <=? code c) && (code c <=? 90))
  || ((192 <=? code c) && (code c <=? 222) && negb (code c =? 215)).

Definition lower_ascii (c : ascii) : ascii :=
  if is_upper c then ascii_of_nat (nat_of_ascii c + 32) else c.

Fixpoint toLowerCase (s : string) : string :=
  match s with
  | EmptyString => EmptyString
  | String c s' => String (lower_ascii c) (toLowerCase s')
  end.

(** White space and line terminators of the language below U+0100. *)
Definition is_space (c : ascii) : bool :=
  ((9 <=? code c) && (code c <=? 13)) || (code c =? 32) || (code c =? 160).

Fixpoint trimStart (s : string) : string :=
  match s with
  | EmptyString => EmptyString
  | String c s' => if is_space c then trimStart s' else s
  end.

Fixpoint trimEnd (s : string) : string :=
  match s with
  | EmptyString => EmptyString
  | String c s' =>
      match trimEnd s' with
      | EmptyString => if is_space c then EmptyString else String c EmptyString
      | t => String c t
      end
  end.

Definition trim (s : string) : string := trimEnd (trimStart s).

(** [s.slice(n)] for [n >= 0]. *)
Fixpoint slice_from (n : nat) (s : string) : string :=
  match n, s with
  | O, _ => s
  | S n', EmptyString => EmptyString
  | S n', String _ s' => slice_from n' s'
  end.

Fixpoint take_str (n : nat) (s : string) : string :=
  match n, s with
  | O, _ => EmptyString
  | S n', EmptyString => EmptyString
  | S n', String c s' => String c (take_str n' s')
  end.

Definition startsWith (s p : string) : bool := String.prefix p s.

(** [s.endsWith(p)]: the suffix of length [p.length] is [p]. *)
Definition endsWith (s p : string) : bool :=
  (String.length p <=? String.length s)%nat
  && String.eqb (slice_from (String.length s - String.length p) s) p.

(** [s.split(c)] for a one-character separator. *)
Fixpoint split_on (c : ascii) (s : string) : list string :=
  match s with
  | EmptyString => [EmptyString]
  | String x s' =>
      match split_on c s' with
      | [] => [EmptyString]
      | h :: t => if Ascii.eqb x c then EmptyString :: h :: t else String x h :: t
      end
  end.

(** [s.includes(p)]. *)
Fixpoint includes (s p : string) : bool :=
  startsWith s p ||
  match s with
  | EmptyString => false
  | String _ s' => includes s' p
  end.

Fixpoint everyChar (p : ascii -> bool) (s : string) : bool :=
  match s with
  | EmptyString => true
  | String c s => p c && everyChar p s
  end.

Fixpoint span (p : ascii -> bool) (s : string) : string * string :=
  match s with
  | EmptyString => (EmptyString, EmptyString)
  | String c s' => if p c then let '(a, b) := span p s' in (String c a, b) else (EmptyString, s)
  end.

Definition nonempty (s : string) : bool := negb (String.eqb s "").

(** A JavaScript string or null that is truthy. *)
Definition truthy (s : option string) : option string :=
  match s with Some EmptyString => None | _ => s end.

(** ** Lemmas *)

Lemma app_str_cons c (s t : string) : String c s +:+ t = String c (s +:+ t).
Proof. done. Qed.

Lemma lower_ascii_idemp c : lower_ascii (lower_ascii c) = lower_ascii c.
Proof. destruct c as [[] [] [] [] [] [] [] []]; reflexivity. Qed.

Lemma toLowerCase_idemp s : toLowerCase (toLowerCase s) = toLowerCase s.
Proof. induction s; simpl; [done|]. by rewrite lower_ascii_idemp, IHs. Qed.

Lemma is_space_lower c : is_space (lower_ascii c) = is_space c.
Proof. destruct c as [[] [] [] [] [] [] [] []]; reflexivity. Qed.

Lemma split_on_nonempty c s : exists h t, split_on c s = h :: t.
Proof.
  destruct s as [|x s]; simpl; [eauto|].
  destruct (split_on c s); [eauto|]. destruct (Ascii.eqb x c); eauto.
Qed.

Fixpoint has_char (c : ascii) (s : string) : bool :=
  match s with
  | EmptyString => false
  | String x s' => Ascii.eqb x c || has_char c s'
  end.

Lemma split_on_no_char c s : has_char c s = false -> split_on c s = [s].
Proof.
  induction s as [|x s IH]; simpl; [done|].
  intros [Hx Hs]%orb_false_iff. by rewrite (IH Hs), Hx.
Qed.

Lemma split_on_join c a b :
  has_char c a = false -> has_char c b = false ->
  split_on c (a +:+ String c b) = [a; b].
Proof.
  intros Ha Hb. induction a as [|x a IH]; simpl in *.
  - by rewrite (split_on_no_char _ _ Hb), Ascii.eqb_refl.
  - apply orb_false_iff in Ha as [Hx Ha]. by rewrite (IH Ha), Hx.
Qed.

Lemma string_app_nil_r (s : string) : s +:+ "" = s.
Proof. induction s as [|c s IH]; [done|]. rewrite app_str_cons. by rewrite IH. Qed.

Lemma has_char_app c a b : has_char c (a +:+ b) = has_char c a || has_char c b.
Proof. induction a as [|x a IH]; [done|]. rewrite app_str_cons. cbn. by rewrite IH, orb_assoc. Qed.

Lemma string_app_assoc (a b c : string) : (a +:+ b) +:+ c = a +:+ (b +:+ c).
Proof. induction a as [|x a IH]; [done|]. rewrite !app_str_cons. by rewrite IH. Qed.

Lemma startsWith_app p s : startsWith (p +:+ s) p = true.
Proof. unfold startsWith. induction p as [|c p IH]; [by destruct s|]. simpl. by destruct (ascii_dec c c). Qed.

Lemma startsWith_inv s p : startsWith s p = true -> exists r, s = p +:+ r.
Proof.
  unfold startsWith. revert s. induction p as [|c p IH]; intros s; [by exists s|]. destruct s as [|d s]; [done|].
  simpl. destruct (ascii_dec c d) as [->|]; [|done]. intros [r ->]%IH. by exists r.
Qed.

(** The text before the first occurrence of a character is determined. *)
Lemma first_char_inj c a b r s : has_char c a = false -> has_char c b = false ->
  a +:+ String c r = b +:+ String c s -> a = b /\ r = s.
Proof.
  revert b. induction a as [|x a IH]; intros [|y b]; simpl; intros Ha Hb H.
  - by injection H.
  - injection H as <- _. by rewrite Ascii.eqb_refl in Hb.
  - injection H as -> _. by rewrite Ascii.eqb_refl in Ha.
  - apply orb_false_iff in Ha as [_ Ha], Hb as [_ Hb]. injection H as -> H.
    destruct (IH b Ha Hb H) as [-> ->]. done.
Qed.

Lemma everyChar_no_char p c s : p c = false -> everyChar p s = true -> has_char c s = false.
Proof.
  intros Hp. induction s as [|x s IH]; [done|]. cbn. intros [Hx Hs]%andb_true_iff. rewrite (IH Hs), orb_false_r.
  destruct (Ascii.eqb_spec x c) as [-> |]; [congruence|done].
Qed.
