(* ===== verification/JsNumber.v ===== *)
(** * Numbers in text

    Digits in a base, and [Number(s)] of the language on a string. A finite value is kept as a
    decimal, exactly; its rounding to a double is not modelled. *)
From Stdlib Require Import ZArith Lia Ascii String List Bool.
From stdpp Require Import base list strings option.
From S2P Require Import Prelude JsString.

Open Scope string_scope.
Open Scope Z_scope.

Definition isDigit (c : ascii) : bool := (48 <=? code c) && (code c <=? 57).
Definition isLowerHex (c : ascii) : bool := isDigit c || ((97 <=? code c) && (code c <=? 102)).
Definition isHex (c : ascii) : bool := isLowerHex c || ((65 <=? code c) && (code c <=? 70)).

Definition digitValue (c : ascii) : Z :=
  if code c <=? 57 then code c - 48 else if code c <=? 70 then code c - 55 else code c - 87.

Fixpoint readDigits (base acc : Z) (s : string) : Z :=
  match s with
  | EmptyString => acc
  | String c s => readDigits base (acc * base + digitValue c) s
  end.

(** [Number(p)] for a run of decimal digits. *)
Definition Number (p : string) : option Z :=
  if nonempty p && everyChar isDigit p then Some (readDigits 10 0 p) else None.

Definition digitChar (d : Z) : ascii := ascii_of_nat (Z.to_nat (if d <? 10 then d + 48 else d + 87)).

Fixpoint printDigits (fuel : nat) (base n : Z) (acc : string) : string :=
  match fuel with
  | O => acc
  | S fuel =>
      let acc := String (digitChar (n mod base)) acc in
      if n / base =? 0 then acc else printDigits fuel base (n / base) acc
  end.

(** [n.toString(base)] of an integer below 2^16. *)
Definition toString (base n : Z) : string := printDigits 16 base n "".

(** ** [Number(s)] *)

(** [Finite m e] is [m * 10 ^ e]. *)
Inductive JsNumber := NaN | Infinite (negative : bool) | Finite (mantissa exponent : Z).

Definition signed (s : string) : bool * string :=
  match s with
  | String "+" r => (false, r)
  | String "-" r => (true, r)
  | _ => (false, s)
  end.

Definition isExponentMark (c : ascii) : bool := Ascii.eqb c "e" || Ascii.eqb c "E".

(** An unsigned decimal literal. *)
Definition readDecimal (s : string) : option (Z * Z) :=
  let '(whole, r) := span isDigit s in
  let '(fraction, r) := match r with String "." r' => span isDigit r' | _ => ("", r) end in
  if nonempty whole || nonempty fraction then
    let mantissa := readDigits 10 0 (whole +:+ fraction) in
    let shift := Z.of_nat (String.length fraction) in
    match r with
    | EmptyString => Some (mantissa, - shift)
    | String c r =>
        let '(negative, r) := signed r in
        if isExponentMark c && nonempty r && everyChar isDigit r
        then let e := readDigits 10 0 r in Some (mantissa, (if negative then - e else e) - shift) else None
    end
  else None.

(** The digits after a [0x], [0o] or [0b], in its base. *)
Definition readPrefixed (s : string) : option (option Z) :=
  match s with
  | String "0" (String p r) =>
      let read base ok := Some (if nonempty r && everyChar ok r then Some (readDigits base 0 r) else None) in
      if Ascii.eqb p "x" || Ascii.eqb p "X" then read 16 isHex
      else if Ascii.eqb p "o" || Ascii.eqb p "O" then read 8 (fun c => isDigit c && (code c <? 56))
      else if Ascii.eqb p "b" || Ascii.eqb p "B" then read 2 (fun c => isDigit c && (code c <? 50))
      else None
  | _ => None
  end.

Definition toNumber (s : string) : JsNumber :=
  let s := trim s in
  if String.eqb s "" then Finite 0 0
  else match readPrefixed s with
  | Some (Some n) => Finite n 0
  | Some None => NaN
  | None =>
      let '(negative, s) := signed s in
      if String.eqb s "Infinity" then Infinite negative
      else match readDecimal s with
           | Some (m, e) => Finite (if negative then - m else m) e
           | None => NaN
           end
  end.

(** [Number.isInteger(x)], with the integer. *)
Definition integerOf (x : JsNumber) : option Z :=
  match x with
  | Finite m e => if 0 <=? e then Some (m * 10 ^ e) else if m mod 10 ^ (- e) =? 0 then Some (m / 10 ^ (- e)) else None
  | _ => None
  end.

(** [Number.isFinite(x) && x > 0]. *)
Definition isPositiveFinite (x : JsNumber) : bool := match x with Finite m _ => 0 <? m | _ => false end.

(** ** Printing and reading digits *)

Lemma digitChar_hex d : 0 <= d < 16 -> digitValue (digitChar d) = d /\ isLowerHex (digitChar d) = true.
Proof.
  intros Hd. assert (d = 0 \/ d = 1 \/ d = 2 \/ d = 3 \/ d = 4 \/ d = 5 \/ d = 6 \/ d = 7 \/ d = 8 \/ d = 9 \/ d = 10
    \/ d = 11 \/ d = 12 \/ d = 13 \/ d = 14 \/ d = 15) as H by lia.
  repeat (destruct H as [-> |H]; [vm_compute; done|]). subst. vm_compute. done.
Qed.

Lemma print_read b : 2 <= b <= 16 -> forall fuel n acc, 0 <= n < b ^ Z.of_nat fuel ->
  (fuel <> O -> readDigits b 0 (printDigits fuel b n acc) = readDigits b n acc) /\
  (everyChar isLowerHex acc = true -> everyChar isLowerHex (printDigits fuel b n acc) = true) /\
  forall k, (k <> O)%nat -> (k <= fuel)%nat -> n < b ^ Z.of_nat k ->
    (String.length acc < String.length (printDigits fuel b n acc) <= k + String.length acc)%nat.
Proof.
  intros Hb. induction fuel as [|fuel IH]; intros n acc Hn; [split_and!; [done|done|lia]|]. cbn [printDigits].
  pose proof (Z.div_mod n b). pose proof (Z.mod_pos_bound n b).
  destruct (digitChar_hex (n mod b)) as [Hd Hh]; [lia|].
  rewrite Nat2Z.inj_succ, Z.pow_succ_r in Hn by lia.
  destruct (Z.eqb_spec (n / b) 0) as [E|E]; [|assert (n / b < b ^ Z.of_nat fuel) by (apply Z.div_lt_upper_bound; lia); assert (0 <= n / b) by (apply Z.div_pos; lia)].
  - split_and!.
    + intros _. cbn [readDigits]. rewrite Hd. f_equal. lia.
    + intros Ha. cbn. by rewrite Hh.
    + intros k Hk _ _. cbn. lia.
  - destruct (IH (n / b) (String (digitChar (n mod b)) acc)) as (R1 & R2 & R3); [lia|]. split_and!.
    + intros _. destruct fuel as [|fuel]; [change (b ^ Z.of_nat 0) with 1 in *; lia|]. rewrite R1 by done.
      cbn [readDigits]. rewrite Hd. f_equal. lia.
    + intros Ha. apply R2. cbn. by rewrite Hh.
    + intros k Hk Hkf Hnk. destruct k as [|k]; [done|]. rewrite Nat2Z.inj_succ, Z.pow_succ_r in Hnk by lia.
      assert (n / b < b ^ Z.of_nat k) by (apply Z.div_lt_upper_bound; lia).
      destruct k as [|k]; [change (b ^ Z.of_nat 0) with 1 in *; lia|]. specialize (R3 (S k)). cbn [String.length] in R3. lia.
Qed.

Lemma digits_of n : 0 <= n < 2 ^ 16 -> let s := toString 10 n in everyChar isLowerHex s = true /\ readDigits 10 0 s = n.
Proof.
  intros Hn s. subst s. unfold toString. destruct (print_read 10 (ltac:(lia)) 16 n "") as (H1 & H2 & _); [split; [lia|]; apply Z.lt_trans with (2 ^ 16); [lia|reflexivity]|].
  split; [by apply H2|]. by rewrite H1.
Qed.

(** The text before a port is determined by the whole. *)
Lemma host_port_inj a b m n : 0 <= m < 2 ^ 16 -> 0 <= n < 2 ^ 16 ->
  a +:+ ":" +:+ toString 10 m = b +:+ ":" +:+ toString 10 n -> a = b /\ m = n.
Proof.
  intros Hm Hn H. destruct (digits_of m Hm) as [Cm Rm], (digits_of n Hn) as [Cn Rn].
  enough (a = b /\ toString 10 m = toString 10 n) as [-> E] by (rewrite <- Rm, <- Rn, E; done).
  apply (everyChar_no_char _ ":") in Cm, Cn; [|done|done]. revert Cm Cn H. clear.
  generalize (toString 10 m) (toString 10 n). intros s t Hs Ht.
  change (":" +:+ s) with (String ":" s). change (":" +:+ t) with (String ":" t).
  revert b. induction a as [|c a IH]; intros [|d b]; rewrite ?app_str_cons; intros H.
  - by injection H.
  - injection H as <- ->. exfalso. rewrite has_char_app in Hs. cbn in Hs. by rewrite orb_true_r in Hs.
  - injection H as -> <-. exfalso. rewrite has_char_app in Ht. cbn in Ht. by rewrite orb_true_r in Ht.
  - injection H as -> H. by destruct (IH b H) as [-> ->].
Qed.
