(* ===== verification/JsonText.v ===== *)
(** * JSON texts

    [JSON.parse] of the language, on strings of UTF-16 code units: the values, the parser, and
    the grammar of JSON texts the parser decides exactly ([parse_exact]). An object keeps its
    members in the order of their first occurrence, and a repeated key takes its last value. *)
From Stdlib Require Import ZArith Lia Ascii String List Bool.
From stdpp Require Import base list strings option.
From S2P Require Import Prelude JsString.

Open Scope Z_scope.

Notation text := (list Z).

(** The code units of a literal. *)
Definition units (s : string) : text := List.map code (list_ascii_of_string s).

Inductive JsonValue :=
| VNull | VBool (b : bool) | VNumber (lexeme : text) | VString (s : text)
| VArray (l : list JsonValue) | VObject (members : list (text * JsonValue)).

(** [o[k]] and [o[k] = v] of an own property, insertion order kept. *)
Section Properties.
Context {K V : Type} `{!EqDecision K}.

Fixpoint field (k : K) (o : list (K * V)) : option V :=
  match o with
  | [] => None
  | (k', v) :: o => if bool_decide (k' = k) then Some v else field k o
  end.

Fixpoint assign (k : K) (v : V) (o : list (K * V)) : list (K * V) :=
  match o with
  | [] => [(k, v)]
  | (k', v') :: o => if bool_decide (k' = k) then (k, v) :: o else (k', v') :: assign k v o
  end.

Definition fromMembers (l : list (K * V)) : list (K * V) := fold_left (fun o kv => assign (fst kv) (snd kv) o) l [].
End Properties.

(** ** The parser *)

Definition isWs (c : Z) : bool := (c =? 9) || (c =? 10) || (c =? 13) || (c =? 32).
Definition isDigitUnit (c : Z) : bool := (48 <=? c) && (c <=? 57).
Arguments isWs : simpl never.
Arguments isDigitUnit : simpl never.

Fixpoint skipWs (s : text) : text :=
  match s with
  | [] => []
  | c :: r => if isWs c then skipWs r else s
  end.

Fixpoint spanDigits (s : text) : text * text :=
  match s with
  | [] => ([], [])
  | c :: r => if isDigitUnit c then let '(ds, r) := spanDigits r in (c :: ds, r) else ([], s)
  end.

Definition digits1 (s : text) : option (text * text) :=
  match spanDigits s with ([], _) => None | p => Some p end.

Definition parseSign (s : text) : text * text :=
  match s with c :: r => if c =? 45 then ([45], r) else ([], s) | [] => ([], []) end.

Definition parseInt (s : text) : option (text * text) :=
  match s with
  | c :: r => if c =? 48 then Some ([48], r)
              else if isDigitUnit c then Some (spanDigits s) else None
  | [] => None
  end.

Definition parseFraction (s : text) : option (text * text) :=
  match s with
  | c :: r => if c =? 46 then '(ds, r) ← digits1 r; Some (46 :: ds, r) else Some ([], s)
  | [] => Some ([], [])
  end.

Definition parseExpSign (s : text) : text * text :=
  match s with c :: r => if (c =? 43) || (c =? 45) then ([c], r) else ([], s) | [] => ([], []) end.

Definition parseExponent (s : text) : option (text * text) :=
  match s with
  | c :: r =>
      if (c =? 101) || (c =? 69) then
        let '(sg, r) := parseExpSign r in '(ds, r) ← digits1 r; Some (c :: sg ++ ds, r)
      else Some ([], s)
  | [] => Some ([], [])
  end.

Definition parseNumber (s : text) : option (text * text) :=
  let '(sg, r) := parseSign s in
  '(n, r) ← parseInt r; '(f, r) ← parseFraction r; '(e, r) ← parseExponent r;
  Some (sg ++ n ++ f ++ e, r).

Definition simpleEscape (e : Z) : option Z :=
  if (e =? 34) || (e =? 92) || (e =? 47) then Some e
  else if e =? 98 then Some 8 else if e =? 102 then Some 12 else if e =? 110 then Some 10
  else if e =? 114 then Some 13 else if e =? 116 then Some 9 else None.

Definition hexUnit (c : Z) : option Z :=
  if isDigitUnit c then Some (c - 48)
  else if (97 <=? c) && (c <=? 102) then Some (c - 87)
  else if (65 <=? c) && (c <=? 70) then Some (c - 55) else None.

Definition hex4 (a b c d : Z) : option Z :=
  x ← hexUnit a; y ← hexUnit b; z ← hexUnit c; w ← hexUnit d; Some (((x * 16 + y) * 16 + z) * 16 + w).

(** After the opening quote, up to the closing one. *)
Fixpoint parseString (s : text) : option (text * text) :=
  match s with
  | [] => None
  | c :: r =>
      if c =? 34 then Some ([], r)
      else if c =? 92 then
        match r with
        | [] => None
        | e :: r =>
            if e =? 117 then
              match r with
              | h1 :: h2 :: h3 :: h4 :: r =>
                  u ← hex4 h1 h2 h3 h4; '(v, rest) ← parseString r; Some (u :: v, rest)
              | _ => None
              end
            else u ← simpleEscape e; '(v, rest) ← parseString r; Some (u :: v, rest)
        end
      else if c <? 32 then None
      else '(v, rest) ← parseString r; Some (c :: v, rest)
  end.

(** [s] past the literal [w]. *)
Fixpoint strip (w s : text) : option text :=
  match w, s with
  | [], _ => Some s
  | c :: w, d :: s => if c =? d then strip w s else None
  | _ :: _, [] => None
  end.

Fixpoint parseValue (fuel : nat) (s : text) : option (JsonValue * text) :=
  match fuel with
  | O => None
  | S fuel =>
      match s with
      | [] => None
      | c :: r =>
          if c =? 34 then '(v, r) ← parseString r; Some (VString v, r)
          else if c =? 91 then
            match skipWs r with
            | d :: r' => if d =? 93 then Some (VArray [], r')
                         else '(l, r) ← parseElements fuel r; Some (VArray l, r)
            | [] => None
            end
          else if c =? 123 then
            match skipWs r with
            | d :: r' => if d =? 125 then Some (VObject [], r')
                         else '(l, r) ← parseMembers fuel r; Some (VObject (fromMembers l), r)
            | [] => None
            end
          else if c =? 110 then r ← strip (units "ull") r; Some (VNull, r)
          else if c =? 116 then r ← strip (units "rue") r; Some (VBool true, r)
          else if c =? 102 then r ← strip (units "alse") r; Some (VBool false, r)
          else '(n, r) ← parseNumber s; Some (VNumber n, r)
      end
  end
with parseElements (fuel : nat) (s : text) : option (list JsonValue * text) :=
  match fuel with
  | O => None
  | S fuel =>
      '(v, r) ← parseValue fuel (skipWs s);
      match skipWs r with
      | d :: r => if d =? 93 then Some ([v], r)
                  else if d =? 44 then '(l, r) ← parseElements fuel r; Some (v :: l, r) else None
      | [] => None
      end
  end
with parseMembers (fuel : nat) (s : text) : option (list (text * JsonValue) * text) :=
  match fuel with
  | O => None
  | S fuel =>
      match skipWs s with
      | q :: r =>
          if q =? 34 then
            '(k, r) ← parseString r;
            match skipWs r with
            | col :: r =>
                if col =? 58 then
                  '(v, r) ← parseValue fuel (skipWs r);
                  match skipWs r with
                  | d :: r => if d =? 125 then Some ([(k, v)], r)
                              else if d =? 44 then '(l, r) ← parseMembers fuel r; Some ((k, v) :: l, r) else None
                  | [] => None
                  end
                else None
            | [] => None
            end
          else None
      | [] => None
      end
  end.

(** [JSON.parse(s)]; [None] is the [SyntaxError]. Every turn of the parser drops a code unit, and
    a value nests two turns per unit at most, so the fuel is enough ([parse_exact]). *)
Definition JSON_parse (s : text) : option JsonValue :=
  '(v, r) ← parseValue (2 * length s + 2) (skipWs s);
  match skipWs r with [] => Some v | _ => None end.

(** ** The grammar *)

Definition Ws (w : text) : Prop := Forall (fun c => isWs c = true) w.
Definition Digits (ds : text) : Prop := Forall (fun c => isDigitUnit c = true) ds.

Inductive IntText : text -> Prop :=
| int_zero : IntText [48]
| int_positive c ds : isDigitUnit c = true -> c <> 48 -> Digits ds -> IntText (c :: ds).

Inductive FractionText : text -> Prop :=
| no_fraction : FractionText []
| fraction ds : Digits ds -> ds <> [] -> FractionText (46 :: ds).

Inductive ExponentText : text -> Prop :=
| no_exponent : ExponentText []
| exponent e sg ds : e = 101 \/ e = 69 -> sg = [] \/ sg = [43] \/ sg = [45] -> Digits ds -> ds <> [] ->
    ExponentText (e :: sg ++ ds).

Inductive NumberText : text -> Prop :=
| number sg i f e : sg = [] \/ sg = [45] -> IntText i -> FractionText f -> ExponentText e -> NumberText (sg ++ i ++ f ++ e).

(** [StringText raw s]: the units between the quotes, and the string they stand for. *)
Inductive StringText : text -> text -> Prop :=
| string_nil : StringText [] []
| string_unit c raw s : 32 <= c -> c <> 34 -> c <> 92 -> StringText raw s -> StringText (c :: raw) (c :: s)
| string_escape e u raw s : simpleEscape e = Some u -> StringText raw s -> StringText (92 :: e :: raw) (u :: s)
| string_unicode a b c d u raw s : hex4 a b c d = Some u -> StringText raw s ->
    StringText (92 :: 117 :: a :: b :: c :: d :: raw) (u :: s).

Inductive ValueText : text -> JsonValue -> Prop :=
| value_null : ValueText (units "null") VNull
| value_true : ValueText (units "true") (VBool true)
| value_false : ValueText (units "false") (VBool false)
| value_number n : NumberText n -> ValueText n (VNumber n)
| value_string raw s : StringText raw s -> ValueText (34 :: raw ++ [34]) (VString s)
| value_empty_array w : Ws w -> ValueText (91 :: w ++ [93]) (VArray [])
| value_array t l : ElementsText t l -> ValueText (91 :: t ++ [93]) (VArray l)
| value_empty_object w : Ws w -> ValueText (123 :: w ++ [125]) (VObject [])
| value_object t l : MembersText t l -> ValueText (123 :: t ++ [125]) (VObject (fromMembers l))
with ElementsText : text -> list JsonValue -> Prop :=
| elements_one a t v b : Ws a -> ValueText t v -> Ws b -> ElementsText (a ++ t ++ b) [v]
| elements_more a t v b ts l : Ws a -> ValueText t v -> Ws b -> ElementsText ts l ->
    ElementsText (a ++ t ++ b ++ 44 :: ts) (v :: l)
with MembersText : text -> list (text * JsonValue) -> Prop :=
| members_one a raw k b c t v d : Ws a -> StringText raw k -> Ws b -> Ws c -> ValueText t v -> Ws d ->
    MembersText (a ++ 34 :: raw ++ 34 :: b ++ 58 :: c ++ t ++ d) [(k, v)]
| members_more a raw k b c t v d ts l : Ws a -> StringText raw k -> Ws b -> Ws c -> ValueText t v -> Ws d ->
    MembersText ts l -> MembersText (a ++ 34 :: raw ++ 34 :: b ++ 58 :: c ++ t ++ d ++ 44 :: ts) ((k, v) :: l).

Inductive JsonText : text -> JsonValue -> Prop :=
| json_text a t v b : Ws a -> ValueText t v -> Ws b -> JsonText (a ++ t ++ b) v.

Scheme ValueText_mut := Induction for ValueText Sort Prop
  with ElementsText_mut := Induction for ElementsText Sort Prop
  with MembersText_mut := Induction for MembersText Sort Prop.
Combined Scheme texts_ind from ValueText_mut, ElementsText_mut, MembersText_mut.

(** ** The parser decides the grammar *)

Lemma skipWs_app w s : Ws w -> skipWs (w ++ s) = skipWs s.
Proof. induction 1 as [|c w Hc _ IH]; [done|]. cbn. by rewrite Hc. Qed.

Lemma skipWs_split s : exists w, Ws w /\ s = w ++ skipWs s.
Proof.
  induction s as [|c s (w & Hw & IH)]; [by exists []; split; [constructor|]|]. cbn.
  destruct (isWs c) eqn:E; [|by exists []; split; [constructor|]].
  exists (c :: w). split; [by constructor|]. cbn. by f_equal.
Qed.

Lemma spanDigits_app ds t : Digits ds -> match t with [] => True | c :: _ => isDigitUnit c = false end ->
  spanDigits (ds ++ t) = (ds, t).
Proof.
  intros Hds Ht. induction Hds as [|c ds Hc _ IH]; cbn; [|by rewrite Hc, IH].
  destruct t as [|c t]; [done|]. cbn. by rewrite Ht.
Qed.

Lemma spanDigits_sound s ds r : spanDigits s = (ds, r) -> s = ds ++ r /\ Digits ds.
Proof.
  revert ds r. induction s as [|c s IH]; intros ds r; cbn; [intros [= <- <-]; by split; [|constructor]|].
  destruct (isDigitUnit c) eqn:E; [|intros [= <- <-]; by split; [|constructor]]. destruct (spanDigits s) as [ds' r'].
  intros [= <- <-]. destruct (IH _ _ eq_refl) as [-> Hd]. split; [done|by constructor].
Qed.

Lemma digits1_app ds t : Digits ds -> ds <> [] -> match t with [] => True | c :: _ => isDigitUnit c = false end ->
  digits1 (ds ++ t) = Some (ds, t).
Proof. intros Hd Hne Ht. unfold digits1. rewrite spanDigits_app by done. by destruct ds. Qed.

Lemma digits1_sound s ds r : digits1 s = Some (ds, r) -> s = ds ++ r /\ Digits ds /\ ds <> [].
Proof.
  unfold digits1. destruct (spanDigits s) as [[|d ds'] r'] eqn:E; [done|]. intros [= <- <-].
  by destruct (spanDigits_sound _ _ _ E).
Qed.

(** What may follow a number. *)
Definition stops (t : text) : Prop :=
  match t with [] => True | c :: _ => isDigitUnit c = false /\ c <> 46 /\ c <> 101 /\ c <> 69 end.

Lemma parseExponent_app e t : ExponentText e -> stops t -> parseExponent (e ++ t) = Some (e, t).
Proof.
  intros He Ht. destruct He as [|e sg ds He Hsg Hd Hne].
  - destruct t as [|c t]; [done|]. destruct Ht as (_ & _ & ? & ?). cbn.
    rewrite !(proj2 (Z.eqb_neq _ _)) by done. done.
  - assert (match t with [] => True | c :: _ => isDigitUnit c = false end) as Ht' by (destruct t; [done|apply Ht]).
    cbn. replace ((e =? 101) || (e =? 69)) with true by (destruct He as [-> | ->]; done).
    rewrite <- app_assoc. assert (parseExpSign (sg ++ ds ++ t) = (sg, ds ++ t)) as ->.
    { destruct Hsg as [-> |[-> | ->]]; [|done|done]. destruct Hd as [|d ds Hd _]; [done|]. cbn.
      unfold isDigitUnit in Hd. rewrite !(proj2 (Z.eqb_neq _ _)) by lia. done. }
    by rewrite digits1_app.
Qed.

Lemma parseFraction_app f t : FractionText f -> match t with [] => True | c :: _ => isDigitUnit c = false /\ c <> 46 end ->
  parseFraction (f ++ t) = Some (f, t).
Proof.
  intros Hf Ht. destruct Hf as [|ds Hd Hne].
  - destruct t as [|c t]; [done|]. cbn. by rewrite (proj2 (Z.eqb_neq _ _)) by apply Ht.
  - cbn. rewrite digits1_app; [done|done|done|]. destruct t; [done|apply Ht].
Qed.

Lemma parseInt_app i t : IntText i -> match t with [] => True | c :: _ => isDigitUnit c = false end ->
  parseInt (i ++ t) = Some (i, t).
Proof.
  intros Hi Ht. destruct Hi as [|c ds Hc Hne Hd]; [done|]. cbn [app parseInt].
  rewrite (proj2 (Z.eqb_neq c 48)) by done. rewrite Hc. f_equal. apply (spanDigits_app (c :: ds)); [by constructor|done].
Qed.

Lemma parseNumber_app n t : NumberText n -> stops t -> parseNumber (n ++ t) = Some (n, t).
Proof.
  intros Hn Ht. destruct Hn as [sg i f e Hsg Hi Hf He]. rewrite <- !app_assoc. unfold parseNumber.
  assert (parseSign (sg ++ i ++ f ++ e ++ t) = (sg, i ++ f ++ e ++ t)) as ->.
  { destruct Hsg as [-> | ->]; [|done]. destruct Hi as [|c ds Hc _ _]; [done|]. cbn. unfold isDigitUnit in Hc.
    by rewrite (proj2 (Z.eqb_neq c 45)) by lia. }
  rewrite parseInt_app; [cbn [mbind option_bind]; rewrite parseFraction_app; [cbn [mbind option_bind]; by rewrite parseExponent_app|done|]|done|].
  - destruct He as [|e sg' ds [-> | ->]]; [|done|done]. destruct t; [done|]. split; apply Ht.
  - destruct Hf as [|ds]; [|done]. destruct He as [|e sg' ds [-> | ->]]; [|done|done]. destruct t; [done|apply Ht].
Qed.

Lemma parseExponent_sound s e r : parseExponent s = Some (e, r) -> s = e ++ r /\ ExponentText e.
Proof.
  destruct s as [|c s]; cbn; [intros [= <- <-]; by split; [|constructor]|].
  destruct ((c =? 101) || (c =? 69)) eqn:E; [|intros [= <- <-]; by split; [|constructor]].
  destruct (parseExpSign s) as [sg r0] eqn:Es. destruct (digits1 r0) as [[ds r1]|] eqn:Ed; [|done]. intros [= <- <-].
  destruct (digits1_sound _ _ _ Ed) as (-> & Hd & Hne).
  assert (s = sg ++ ds ++ r1 /\ (sg = [] \/ sg = [43] \/ sg = [45])) as [-> Hsg].
  { destruct s as [|x s]; cbn in Es; [injection Es as <- <-; auto|].
    destruct ((x =? 43) || (x =? 45)) eqn:Ex; injection Es as <- <-; [|auto].
    split; [done|]. apply orb_true_iff in Ex as [->%Z.eqb_eq | ->%Z.eqb_eq]; auto. }
  split; [cbn; by rewrite <- app_assoc|]. constructor; try done.
  apply orb_true_iff in E as [->%Z.eqb_eq | ->%Z.eqb_eq]; auto.
Qed.

Lemma parseFraction_sound s f r : parseFraction s = Some (f, r) -> s = f ++ r /\ FractionText f.
Proof.
  destruct s as [|c s]; cbn; [intros [= <- <-]; by split; [|constructor]|].
  destruct (c =? 46) eqn:E; [|intros [= <- <-]; by split; [|constructor]]. apply Z.eqb_eq in E as ->.
  destruct (digits1 s) as [[ds r1]|] eqn:Ed; [|done]. intros [= <- <-].
  destruct (digits1_sound _ _ _ Ed) as (-> & Hd & Hne). split; [done|by constructor].
Qed.

Lemma parseInt_sound s i r : parseInt s = Some (i, r) -> s = i ++ r /\ IntText i.
Proof.
  destruct s as [|c s]; [done|]. cbn [parseInt]. destruct (c =? 48) eqn:E0.
  { apply Z.eqb_eq in E0 as ->. intros [= <- <-]. by split; [|constructor]. }
  destruct (isDigitUnit c) eqn:Ec; [|done]. intros [= Es]. cbn in Es. rewrite Ec in Es.
  destruct (spanDigits s) as [ds r'] eqn:E. injection Es as <- <-. destruct (spanDigits_sound _ _ _ E) as [-> Hd].
  split; [done|]. constructor; [done|by apply Z.eqb_neq|done].
Qed.

Lemma parseNumber_sound s n r : parseNumber s = Some (n, r) -> s = n ++ r /\ NumberText n.
Proof.
  unfold parseNumber. destruct (parseSign s) as [sg r0] eqn:Es.
  destruct (parseInt r0) as [[i r1]|] eqn:Ei; [|done]. cbn. destruct (parseFraction r1) as [[f r2]|] eqn:Ef; [|done]. cbn.
  destruct (parseExponent r2) as [[e r3]|] eqn:Ee; [|done]. cbn. intros [= <- <-].
  apply parseInt_sound in Ei as [-> Hi]. apply parseFraction_sound in Ef as [-> Hf]. apply parseExponent_sound in Ee as [-> He].
  assert (s = sg ++ i ++ f ++ e ++ r3 /\ (sg = [] \/ sg = [45])) as [-> Hsg].
  { destruct s as [|c s]; cbn in Es; [injection Es as <- <-; auto|]. destruct (c =? 45) eqn:E; injection Es as <- <-; [|auto].
    apply Z.eqb_eq in E as ->. auto. }
  split; [by rewrite <- !app_assoc|by constructor].
Qed.

Lemma parseString_app raw s tail : StringText raw s -> parseString (raw ++ 34 :: tail) = Some (s, tail).
Proof.
  induction 1 as [|c raw s Hc H1 H2 _ IH|e u raw s He _ IH|a b c d u raw s Hu _ IH]; cbn [app parseString]; [done| | |].
  - rewrite !(proj2 (Z.eqb_neq _ _)) by done. rewrite (proj2 (Z.ltb_ge _ _)) by lia. by rewrite IH.
  - replace (e =? 117) with false; [cbn; by rewrite He, IH|]. symmetry. apply Z.eqb_neq. intros ->. done.
  - cbn. by rewrite Hu, IH.
Qed.

Lemma parseString_sound s v r : parseString s = Some (v, r) -> exists raw, s = raw ++ 34 :: r /\ StringText raw v.
Proof.
  remember (length s) as n eqn:Hn. revert s v r Hn. induction n as [n IH] using lt_wf_ind.
  intros [|c s] v r Hn; [done|]. cbn [parseString]. cbn in Hn.
  destruct (c =? 34) eqn:E34; [apply Z.eqb_eq in E34 as ->; intros [= <- <-]; exists []; by split; [|constructor]|].
  destruct (c =? 92) eqn:E92; [apply Z.eqb_eq in E92 as ->|].
  - destruct s as [|e s]; [done|]. destruct (e =? 117) eqn:E117; [apply Z.eqb_eq in E117 as ->|].
    + destruct s as [|h1 [|h2 [|h3 [|h4 s]]]]; try done. destruct (hex4 h1 h2 h3 h4) as [u|] eqn:Eu; [|done]. cbn [mbind option_bind].
      destruct (parseString s) as [[v' r']|] eqn:Es; [|done]. intros [= <- <-].
      eapply (IH (length s)) in Es as (raw & -> & Hraw); [|cbn in Hn; lia|done].
      exists (92 :: 117 :: h1 :: h2 :: h3 :: h4 :: raw). split; [done|by constructor].
    + destruct (simpleEscape e) as [u|] eqn:Eu; [|done]. cbn [mbind option_bind].
      destruct (parseString s) as [[v' r']|] eqn:Es; [|done]. intros [= <- <-].
      eapply (IH (length s)) in Es as (raw & -> & Hraw); [|cbn in Hn; lia|done].
      exists (92 :: e :: raw). split; [done|by constructor].
  - destruct (c <? 32) eqn:E32; [done|]. destruct (parseString s) as [[v' r']|] eqn:Es; [|done]. intros [= <- <-].
    eapply (IH (length s)) in Es as (raw & -> & Hraw); [|lia|done].
    apply Z.eqb_neq in E34, E92. apply Z.ltb_ge in E32. exists (c :: raw). split; [done|by constructor].
Qed.

Lemma strip_app w s : strip w (w ++ s) = Some s.
Proof. induction w as [|c w IH]; [done|]. cbn. by rewrite Z.eqb_refl. Qed.

Lemma strip_sound w s r : strip w s = Some r -> s = w ++ r.
Proof.
  revert s. induction w as [|c w IH]; intros [|d s]; cbn; try congruence. destruct (c =? d) eqn:E; [|done].
  intros H. apply Z.eqb_eq in E as ->. by rewrite (IH _ H).
Qed.

Lemma number_head n : NumberText n -> exists c r, n = c :: r /\ (c = 45 \/ isDigitUnit c = true).
Proof.
  intros [sg i f e [-> | ->] Hi _ _]; [|by eauto]. destruct Hi as [|c ds Hc _ _]; [exists 48, (f ++ e); auto|].
  exists c, (ds ++ f ++ e). auto.
Qed.

Lemma value_head t v : ValueText t v -> exists c r, t = c :: r /\ isWs c = false /\ c <> 93.
Proof.
  intros H. destruct H; try (by eexists _, _; split; [done|]).
  destruct (number_head n) as (c & r & -> & Hc); [done|]. exists c, r. unfold isWs, isDigitUnit in *. split; [done|]. lia.
Qed.

Lemma skipWs_value a t v s : Ws a -> ValueText t v -> skipWs (a ++ t ++ s) = t ++ s.
Proof. intros Ha (c & r & -> & Hc & _)%value_head. rewrite skipWs_app by done. cbn. by rewrite Hc. Qed.

Lemma skipWs_unit w c s : Ws w -> isWs c = false -> skipWs (w ++ c :: s) = c :: s.
Proof. intros Hw Hc. rewrite skipWs_app by done. cbn. by rewrite Hc. Qed.

Lemma stops_ws w c s : Ws w -> isDigitUnit c = false -> c <> 46 -> c <> 101 -> c <> 69 -> stops (w ++ c :: s).
Proof.
  intros Hw ?. destruct Hw as [|x w Hx _]; [done|]. intros _ _ _. unfold isWs in Hx. cbn. unfold isDigitUnit. lia.
Qed.

Definition reads (t : text) (v : JsonValue) : Prop :=
  forall fuel tail, stops tail -> (2 * length t <= fuel)%nat -> parseValue fuel (t ++ tail) = Some (v, tail).

Lemma parseNumber_value n : NumberText n -> reads n (VNumber n).
Proof.
  intros Hn [|fuel] tail Ht Hf; destruct (number_head n Hn) as (c & r & E & Hc); [rewrite E in Hf; cbn in Hf; lia|].
  rewrite E. cbn [app parseValue]. unfold isDigitUnit in Hc. rewrite !(proj2 (Z.eqb_neq c _)) by lia.
  change (c :: r ++ tail) with ((c :: r) ++ tail). rewrite <- E. by rewrite parseNumber_app.
Qed.

Lemma texts_complete :
  (forall t v, ValueText t v -> reads t v) /\
  (forall t l, ElementsText t l -> forall fuel tail, (2 * length t + 1 <= fuel)%nat ->
     parseElements fuel (t ++ 93 :: tail) = Some (l, tail)) /\
  (forall t l, MembersText t l -> forall fuel tail, (2 * length t + 1 <= fuel)%nat ->
     parseMembers fuel (t ++ 125 :: tail) = Some (l, tail)).
Proof.
  apply texts_ind; try by (intros [|fuel] tail _ Hf; [cbn in Hf; lia|]).
  - intros n. apply parseNumber_value.
  - intros raw s Hs [|fuel] tail _ Hf; [cbn in Hf; lia|].
    cbn [app parseValue]. rewrite <- app_assoc. cbn [app]. cbn [Z.eqb Pos.eqb]. by rewrite (parseString_app raw s).
  - intros w Hw [|fuel] tail _ Hf; [cbn in Hf; lia|].
    cbn [app parseValue]. rewrite <- app_assoc. cbn [app Z.eqb Pos.eqb]. by rewrite skipWs_unit.
  - intros t l Ht IH [|fuel] tail _ Hf; [cbn in Hf; lia|]. cbn [app parseValue]. rewrite <- app_assoc. cbn [app].
    assert (exists d r, skipWs (t ++ 93 :: tail) = d :: r /\ d <> 93) as (d & r & E & Hd).
    { destruct Ht as [a t v b Ha Hv|a t v b ts l Ha Hv]; rewrite <- app_assoc, (skipWs_app a), <- app_assoc by done;
        destruct (value_head _ _ Hv) as (c & r & -> & Hc & ?); cbn; rewrite Hc; eauto. }
    rewrite E. rewrite (proj2 (Z.eqb_neq d 93)) by done. rewrite IH; [done|]. cbn in Hf. rewrite length_app in Hf. cbn in Hf. lia.
  - intros w Hw [|fuel] tail _ Hf; [cbn in Hf; lia|].
    cbn [app parseValue]. rewrite <- app_assoc. cbn [app Z.eqb Pos.eqb]. by rewrite skipWs_unit.
  - intros t l Ht IH [|fuel] tail _ Hf; [cbn in Hf; lia|]. cbn [app parseValue]. rewrite <- app_assoc. cbn [app].
    assert (exists r, skipWs (t ++ 125 :: tail) = 34 :: r) as (r & E).
    { destruct Ht as [a raw k b c t v d Ha|a raw k b c t v d ts l Ha]; rewrite <- app_assoc, (skipWs_app a) by done; cbn; eauto. }
    rewrite E. rewrite IH; [done|]. cbn in Hf. rewrite length_app in Hf. cbn in Hf. lia.
  - intros a t v b Ha Ht IH Hb [|fuel] tail Hf; [lia|]. cbn [parseElements]. rewrite !length_app in Hf.
    rewrite <- !app_assoc, (skipWs_value a t v) by done. rewrite IH by (by apply stops_ws || lia). cbn [mbind option_bind].
    by rewrite skipWs_unit.
  - intros a t v b ts l Ha Ht IH Hb Hts IHs [|fuel] tail Hf; [lia|]. cbn [parseElements].
    rewrite !length_app in Hf. cbn [length] in Hf.
    rewrite <- !app_assoc, (skipWs_value a t v) by done. cbn [app]. rewrite IH by (by apply stops_ws || lia). cbn [mbind option_bind].
    rewrite skipWs_unit by done. cbn. rewrite IHs by lia. done.
  - intros a raw k b c t v d Ha Hk Hb Hc Ht IH Hd [|fuel] tail Hf; [lia|]. cbn [parseMembers].
    repeat (rewrite !length_app in Hf || cbn [length] in Hf). rewrite <- app_assoc. cbn [app]. rewrite <- app_assoc. cbn [app].
    rewrite (skipWs_unit a) by done. cbn [Z.eqb Pos.eqb]. rewrite (parseString_app raw k) by done. cbn [mbind option_bind].
    rewrite <- app_assoc. cbn [app]. rewrite (skipWs_unit b) by done. cbn [Z.eqb Pos.eqb]. rewrite <- !app_assoc, (skipWs_value c t v) by done.
    rewrite IH by (by apply stops_ws || lia). cbn [mbind option_bind]. by rewrite skipWs_unit.
  - intros a raw k b c t v d ts l Ha Hk Hb Hc Ht IH Hd Hts IHs [|fuel] tail Hf; [lia|]. cbn [parseMembers].
    repeat (rewrite !length_app in Hf || cbn [length] in Hf). rewrite <- app_assoc. cbn [app]. rewrite <- app_assoc. cbn [app].
    rewrite (skipWs_unit a) by done. cbn [Z.eqb Pos.eqb]. rewrite (parseString_app raw k) by done. cbn [mbind option_bind].
    rewrite <- app_assoc. cbn [app]. rewrite (skipWs_unit b) by done. cbn [Z.eqb Pos.eqb]. rewrite <- !app_assoc, (skipWs_value c t v) by done.
    cbn [app]. rewrite IH by (by apply stops_ws || lia). cbn [mbind option_bind]. rewrite skipWs_unit by done. cbn. by rewrite IHs by lia.
Qed.

Lemma texts_sound fuel :
  (forall s v r, parseValue fuel s = Some (v, r) -> exists t, s = t ++ r /\ ValueText t v) /\
  (forall s l r, parseElements fuel s = Some (l, r) -> exists t, s = t ++ 93 :: r /\ ElementsText t l) /\
  (forall s l r, parseMembers fuel s = Some (l, r) -> exists t, s = t ++ 125 :: r /\ MembersText t l).
Proof.
  induction fuel as [|fuel (IHv & IHe & IHm)]; [by split_and!|]. split_and!.
  - intros [|c s] v r; [done|]. cbn [parseValue].
    destruct (c =? 34) eqn:E; [apply Z.eqb_eq in E as ->|clear E].
    { destruct (parseString s) as [[v' r']|] eqn:Es; [|done]. intros [= <- <-]. apply parseString_sound in Es as (raw & -> & Hs).
      exists (34 :: raw ++ [34]). split; [cbn; by rewrite <- app_assoc|by constructor]. }
    destruct (c =? 91) eqn:E; [apply Z.eqb_eq in E as ->|clear E].
    { destruct (skipWs_split s) as (w & Hw & Es). destruct (skipWs s) as [|d r'] eqn:Ew; [done|].
      destruct (d =? 93) eqn:Ed; [apply Z.eqb_eq in Ed as ->|].
      - intros [= <- <-]. exists (91 :: w ++ [93]). split; [cbn; rewrite <- app_assoc; by rewrite Es|by constructor].
      - destruct (parseElements fuel s) as [[l r0]|] eqn:El; [|done]. intros [= <- <-]. apply IHe in El as (t & -> & Ht).
        exists (91 :: t ++ [93]). split; [cbn; by rewrite <- app_assoc|by constructor]. }
    destruct (c =? 123) eqn:E; [apply Z.eqb_eq in E as ->|clear E].
    { destruct (skipWs_split s) as (w & Hw & Es). destruct (skipWs s) as [|d r'] eqn:Ew; [done|].
      destruct (d =? 125) eqn:Ed; [apply Z.eqb_eq in Ed as ->|].
      - intros [= <- <-]. exists (123 :: w ++ [125]). split; [cbn; rewrite <- app_assoc; by rewrite Es|by constructor].
      - destruct (parseMembers fuel s) as [[l r0]|] eqn:El; [|done]. intros [= <- <-]. apply IHm in El as (t & -> & Ht).
        exists (123 :: t ++ [125]). split; [cbn; by rewrite <- app_assoc|by constructor]. }
    destruct (c =? 110) eqn:E; [apply Z.eqb_eq in E as ->|clear E].
    { destruct (strip _ s) as [r0|] eqn:Es; [|done]. intros [= <- <-]. apply strip_sound in Es as ->. by exists (units "null"); split; [|constructor]. }
    destruct (c =? 116) eqn:E; [apply Z.eqb_eq in E as ->|clear E].
    { destruct (strip _ s) as [r0|] eqn:Es; [|done]. intros [= <- <-]. apply strip_sound in Es as ->. by exists (units "true"); split; [|constructor]. }
    destruct (c =? 102) eqn:E; [apply Z.eqb_eq in E as ->|clear E].
    { destruct (strip _ s) as [r0|] eqn:Es; [|done]. intros [= <- <-]. apply strip_sound in Es as ->. by exists (units "false"); split; [|constructor]. }
    destruct (parseNumber (c :: s)) as [[n r0]|] eqn:En; [|done]. intros [= <- <-].
    apply parseNumber_sound in En as [-> Hn]. exists n. split; [done|by constructor].
  - intros s l r. cbn [parseElements]. destruct (skipWs_split s) as (a & Ha & Es).
    destruct (parseValue fuel (skipWs s)) as [[v r0]|] eqn:Ev; [|done]. cbn [mbind option_bind].
    apply IHv in Ev as (t & Et & Ht). destruct (skipWs_split r0) as (b & Hb & Eb). destruct (skipWs r0) as [|d r1]; [done|].
    rewrite Et, Eb in Es. destruct (d =? 93) eqn:E; [apply Z.eqb_eq in E as ->|].
    + intros [= <- <-]. exists (a ++ t ++ b). split; [by rewrite <- !app_assoc|by constructor].
    + destruct (d =? 44) eqn:E'; [apply Z.eqb_eq in E' as ->|done].
      destruct (parseElements fuel r1) as [[l' r2]|] eqn:El; [|done]. intros [= <- <-]. apply IHe in El as (ts & -> & Hts).
      exists (a ++ t ++ b ++ 44 :: ts). split; [rewrite Es; by rewrite <- !app_assoc|by constructor].
  - intros s l r. cbn [parseMembers]. destruct (skipWs_split s) as (a & Ha & Es). destruct (skipWs s) as [|q s1]; [done|].
    destruct (q =? 34) eqn:E; [apply Z.eqb_eq in E as ->|done].
    destruct (parseString s1) as [[k r0]|] eqn:Ek; [|done]. cbn [mbind option_bind]. apply parseString_sound in Ek as (raw & -> & Hk).
    destruct (skipWs_split r0) as (b & Hb & Eb). destruct (skipWs r0) as [|col r1]; [done|].
    destruct (col =? 58) eqn:E; [apply Z.eqb_eq in E as ->|done].
    destruct (skipWs_split r1) as (c & Hc & Ec). destruct (parseValue fuel (skipWs r1)) as [[v r2]|] eqn:Ev; [|done].
    cbn [mbind option_bind]. apply IHv in Ev as (t & Et & Ht). destruct (skipWs_split r2) as (d & Hd & Ed). destruct (skipWs r2) as [|x r3]; [done|].
    rewrite Et, Ed in Ec. rewrite Ec in Eb. rewrite Eb in Es. destruct (x =? 125) eqn:E; [apply Z.eqb_eq in E as ->|].
    + intros [= <- <-]. exists (a ++ 34 :: raw ++ 34 :: b ++ 58 :: c ++ t ++ d). split; [|by constructor].
      rewrite Es. repeat (rewrite <- app_assoc; cbn [app]). done.
    + destruct (x =? 44) eqn:E'; [apply Z.eqb_eq in E' as ->|done].
      destruct (parseMembers fuel r3) as [[l' r4]|] eqn:El; [|done]. intros [= <- <-]. apply IHm in El as (ts & -> & Hts).
      exists (a ++ 34 :: raw ++ 34 :: b ++ 58 :: c ++ t ++ d ++ 44 :: ts). split; [|by constructor].
      rewrite Es. repeat (rewrite <- app_assoc; cbn [app]). done.
Qed.

Lemma parse_exact s v : JSON_parse s = Some v <-> JsonText s v.
Proof.
  unfold JSON_parse. split.
  - destruct (skipWs_split s) as (a & Ha & Es). destruct (parseValue _ _) as [[v' r]|] eqn:Ev; [|done]. cbn [mbind option_bind].
    apply texts_sound in Ev as (t & Et & Ht). destruct (skipWs_split r) as (b & Hb & Eb). destruct (skipWs r); [|done].
    intros [= <-]. rewrite app_nil_r in Eb. subst r. rewrite Es, Et. by constructor.
  - intros [a t v' b Ha Ht Hb]. rewrite (skipWs_value a t v') by done.
    assert (reads t v') as -> by (by apply texts_complete).
    + cbn. rewrite <- (app_nil_r b). by rewrite skipWs_app.
    + destruct Hb as [|c b Hc _]; [done|]. unfold isWs in Hc. cbn. unfold isDigitUnit. lia.
    + rewrite !length_app. lia.
Qed.

(** ** Objects *)

Lemma field_assign {K V} `{!EqDecision K} (k k' : K) (v : V) o : field k' (assign k v o) = if bool_decide (k = k') then Some v else field k' o.
Proof.
  induction o as [|[k0 v0] o IH]; cbn; [done|]. destruct (bool_decide_reflect (k0 = k)) as [-> |H0]; cbn.
  - by repeat case_bool_decide.
  - rewrite IH. repeat case_bool_decide; congruence.
Qed.

(** A repeated key takes its last value. *)
Lemma field_last {K V} `{!EqDecision K} k (l : list (K * V)) : field k (fromMembers l) = snd <$> List.find (fun kv => bool_decide (fst kv = k)) (rev l).
Proof.
  unfold fromMembers. rewrite <- fold_left_rev_right. induction (rev l) as [|[k0 v0] l' IH]; cbn; [done|].
  rewrite field_assign, IH. by case_bool_decide.
Qed.

Lemma field_In {K V} `{!EqDecision K} (k : K) (v : V) o : field k o = Some v -> In (k, v) o.
Proof. induction o as [|[k' v'] o IH]; cbn; [done|]. case_bool_decide; [intros [= <-]; subst; by left|]. intros Hf. right. by apply IH. Qed.

Lemma field_None {K V} `{!EqDecision K} (k : K) (o : list (K * V)) : field k o = None <-> ~ In k (List.map fst o).
Proof.
  induction o as [|[k' v'] o IH]; cbn; [naive_solver|]. case_bool_decide; [naive_solver|]. rewrite IH. naive_solver.
Qed.

Lemma In_field {K V} `{!EqDecision K} (k : K) (v : V) o : NoDup (List.map fst o) -> In (k, v) o -> field k o = Some v.
Proof.
  induction o as [|[k' v'] o IH]; cbn; [done|]. intros Hnd [[= -> ->]|Hin]; [by rewrite bool_decide_true|].
  inversion_clear Hnd as [|? ? Hk Hnd']. rewrite bool_decide_false; [by apply IH|]. intros ->.
  apply Hk, list_elem_of_In. by apply (in_map fst) in Hin.
Qed.

Lemma assign_keys {K V} `{!EqDecision K} (k : K) (v : V) o :
  List.map fst (assign k v o) = if bool_decide (k ∈ List.map fst o) then List.map fst o else List.map fst o ++ [k].
Proof.
  induction o as [|[k' v'] o IH]; cbn; [done|]. destruct (decide (k' = k)) as [-> |Hne].
  - rewrite bool_decide_true by done. rewrite bool_decide_true by left. done.
  - rewrite (bool_decide_false (k' = k)) by done. cbn. rewrite IH. destruct (decide (k ∈ List.map fst o)).
    + rewrite !bool_decide_true by (done || by right). done.
    + rewrite !bool_decide_false; [done| |done]. intros [?|?]%elem_of_cons; congruence.
Qed.

Lemma assign_NoDup {K V} `{!EqDecision K} (k : K) (v : V) o : NoDup (List.map fst o) -> NoDup (List.map fst (assign k v o)).
Proof.
  intros H. rewrite assign_keys. case_bool_decide as Hk; [done|]. apply list.NoDup_app. split_and!; [done| |apply NoDup_singleton].
  intros x Hx ->%list_elem_of_singleton. done.
Qed.

Lemma fromMembers_NoDup {K V} `{!EqDecision K} (l : list (K * V)) : NoDup (List.map fst (fromMembers l)).
Proof.
  unfold fromMembers. rewrite <- fold_left_rev_right. induction (rev l) as [|[k v] r IH]; [constructor|]. cbn. by apply assign_NoDup.
Qed.
