(* ===== verification/LogBuffer.v ===== *)
(** * Lines of a run's log

    A model of [packages/server/src/services/log-format.ts] and [log-buffer.ts]: the lines of a
    raw chunk, and the capped buffer that is read by offset. Texts are UTF-16 code units. *)
From Stdlib Require Import ZArith Lia Ascii String List Bool.
From stdpp Require Import base list strings option.
From S2P Require Import Prelude JsString JsNumber JsonText.

Open Scope string_scope.
Open Scope list_scope.
Open Scope Z_scope.

Definition LF : Z := 10.
Definition CR : Z := 13.
Definition tlen (s : text) : Z := Z.of_nat (List.length s).
(** [s.slice(from)] for [from >= 0], and [s.slice(0, to)]. *)
Definition sliceOf (from : Z) (s : text) : text := drop (Z.to_nat from) s.
Definition headOf (to : Z) (s : text) : text := take (Z.to_nat to) s.

(** ** Splitting a chunk *)

(** [text.replace(/\r\n/g, '\n')]. *)
Fixpoint normalizeNewlines (s : text) : text :=
  match s with
  | [] => []
  | c :: r => match r with
              | d :: _ => if (c =? CR) && (d =? LF) then normalizeNewlines r else c :: normalizeNewlines r
              | [] => [c]
              end
  end.

(** [s.split(c)]. *)
Fixpoint splitUnits (c : Z) (s : text) : list text :=
  match s with
  | [] => [[]]
  | x :: r => if x =? c then [] :: splitUnits c r
              else match splitUnits c r with h :: t => (x :: h) :: t | [] => [[x]] end
  end.

(** [lines.join('\n')]. *)
Fixpoint joinLines (l : list text) : text :=
  match l with
  | [] => []
  | [s] => s
  | s :: l => s ++ LF :: joinLines l
  end.

Definition isEmptyText (s : text) : bool := match s with [] => true | _ => false end.

Definition lastNonEmptyFrame (line : text) : text :=
  if negb (existsb (Z.eqb CR) line) then line
  else default [] (List.find (fun f => negb (isEmptyText f)) (rev (splitUnits CR line))).

Definition splitLogLines (s : text) : list text :=
  List.filter (fun l => negb (isEmptyText l)) (List.map lastNonEmptyFrame (splitUnits LF (normalizeNewlines s))).

(** ** The buffer *)

Inductive LogStream := Stdout | Stderr.
#[export] Instance LogStream_eq_dec : EqDecision LogStream.
Proof. solve_decision. Defined.

Record CappedLogBuffer := mkBuffer {
  lb_cap : Z; lb_bytes : Z; lb_parts : list text; lb_offsets : list Z; lb_chars : Z; lb_truncated : option Z; lb_joined : option text
}.

Definition newBuffer (capBytes : Z) : CappedLogBuffer := mkBuffer capBytes 0 [] [] 0 None None.

Definition pushPart (part : text) (b : CappedLogBuffer) : CappedLogBuffer :=
  mkBuffer (lb_cap b) (lb_bytes b) (lb_parts b ++ [part]) (lb_offsets b ++ [lb_chars b]) (lb_chars b + tlen part) (lb_truncated b) (lb_joined b).

(** The line as it is stored. *)
Definition lineMarker (stream : LogStream) (s : text) : text :=
  match stream with Stderr => units "[stderr] " ++ s | Stdout => s end ++ [LF].

Definition setTruncated (b : CappedLogBuffer) : CappedLogBuffer :=
  mkBuffer (lb_cap b) (lb_bytes b) (lb_parts b) (lb_offsets b) (lb_chars b) (Some (lb_cap b)) (lb_joined b).
Definition setBytes (n : Z) (b : CappedLogBuffer) : CappedLogBuffer :=
  mkBuffer (lb_cap b) n (lb_parts b) (lb_offsets b) (lb_chars b) (lb_truncated b) (lb_joined b).
Definition setJoined (j : option text) (b : CappedLogBuffer) : CappedLogBuffer :=
  mkBuffer (lb_cap b) (lb_bytes b) (lb_parts b) (lb_offsets b) (lb_chars b) (lb_truncated b) j.

Definition append (stream : LogStream) (s : text) (b : CappedLogBuffer) : CappedLogBuffer :=
  match lb_truncated b with
  | Some _ => b
  | None =>
      let marker := lineMarker stream s in
      let remaining := lb_cap b - lb_bytes b in
      if remaining <=? 0 then setJoined None (setTruncated b)
      else if remaining <? tlen marker
      then setJoined None (setTruncated (setBytes (lb_cap b) (pushPart (headOf remaining marker) b)))
      else setJoined None (setBytes (lb_bytes b + tlen marker) (pushPart marker b))
  end.

(** The dash of the notice is one unit. *)
Definition truncationSuffix (b : CappedLogBuffer) : text :=
  match lb_truncated b with
  | None => []
  | Some n => LF :: units "...[truncated " ++ [8212] ++ units (" log capped at " +:+ JsNumber.toString 10 n +:+ " bytes]")
  end.

Definition bufferLength (b : CappedLogBuffer) : Z := lb_chars b + tlen (truncationSuffix b).

(** [toString] keeps what it joined. *)
Definition joinedParts (b : CappedLogBuffer) : text := match lb_joined b with Some j => j | None => List.concat (lb_parts b) end.
Definition bufferText (b : CappedLogBuffer) : text := joinedParts b ++ truncationSuffix b.
Definition memoize (b : CappedLogBuffer) : CappedLogBuffer := setJoined (Some (joinedParts b)) b.

(** The loop of [partIndexAt]: each turn halves [hi - lo]. *)
Fixpoint searchPart (fuel : nat) (offsets : list Z) (offset lo hi : Z) : Z :=
  match fuel with
  | O => lo
  | S fuel =>
      if lo <? hi then
        let mid := Z.shiftr (lo + hi + 1) 1 in
        if nth (Z.to_nat mid) offsets 0 <=? offset then searchPart fuel offsets offset mid hi else searchPart fuel offsets offset lo (mid - 1)
      else lo
  end.
Definition partIndexAt (offset : Z) (b : CappedLogBuffer) : Z :=
  searchPart (List.length (lb_parts b)) (lb_offsets b) offset 0 (Z.of_nat (List.length (lb_parts b)) - 1).

Definition sliceFrom (offset : Z) (b : CappedLogBuffer) : text :=
  let suffix := truncationSuffix b in
  if offset <=? 0 then bufferText b
  else if bufferLength b <=? offset then []
  else if lb_chars b <=? offset then sliceOf (offset - lb_chars b) suffix
  else
    let first := Z.to_nat (partIndexAt offset b) in
    let head := sliceOf (offset - nth first (lb_offsets b) 0) (nth first (lb_parts b) []) in
    if Nat.eqb first (List.length (lb_parts b) - 1) then head ++ suffix
    else head ++ List.concat (drop (S first) (lb_parts b)) ++ suffix.

(** ** What a buffer holds *)

Definition offsetsOf (parts : list text) : list Z := List.map (fun i => tlen (List.concat (take i parts))) (seq 0 (List.length parts)).
Arguments offsetsOf : simpl never.

Record buffer_inv (b : CappedLogBuffer) : Prop := {
  bi_offsets : lb_offsets b = offsetsOf (lb_parts b);
  bi_chars : lb_chars b = tlen (List.concat (lb_parts b));
  bi_bytes : lb_truncated b = None -> lb_bytes b = lb_chars b;
  bi_cap : lb_chars b <= Z.max 0 (lb_cap b);
  bi_full : forall n, lb_truncated b = Some n -> n = lb_cap b /\ lb_chars b = Z.max 0 (lb_cap b);
  bi_joined : forall j, lb_joined b = Some j -> j = List.concat (lb_parts b);
}.

Lemma tlen_app s t : tlen (s ++ t) = tlen s + tlen t.
Proof. unfold tlen. rewrite length_app. lia. Qed.
Lemma tlen_nonneg s : 0 <= tlen s.
Proof. unfold tlen. lia. Qed.
Lemma tlen_headOf n s : 0 <= n <= tlen s -> tlen (headOf n s) = n.
Proof. unfold tlen, headOf. intros H. rewrite length_take. lia. Qed.
#[export] Hint Resolve tlen_nonneg : hezo.

Lemma offsetsOf_snoc parts part : offsetsOf (parts ++ [part]) = offsetsOf parts ++ [tlen (List.concat parts)].
Proof.
  unfold offsetsOf. rewrite length_app, seq_app, List.map_app. cbn [List.length seq List.map Nat.add]. f_equal.
  - apply List.map_ext_in. intros i Hi%in_seq. rewrite take_app_le by lia. done.
  - by rewrite take_app_le, take_ge by lia.
Qed.

Lemma concat_snoc {A} (l : list (list A)) x : List.concat (l ++ [x]) = List.concat l ++ x.
Proof. rewrite List.concat_app. cbn. by rewrite app_nil_r. Qed.

Lemma newBuffer_inv cap : buffer_inv (newBuffer cap).
Proof. split; try done. cbn. lia. Qed.

Lemma append_inv stream s b : buffer_inv b -> buffer_inv (append stream s b).
Proof.
  intros [H1 H2 H3 H4 H5 H6]. unfold append. destruct (lb_truncated b) as [n|] eqn:Et; [split; try done; by rewrite Et|].
  specialize (H3 eq_refl). pose proof (tlen_nonneg (List.concat (lb_parts b))) as Hn.
  destruct (Z.leb_spec (lb_cap b - lb_bytes b) 0).
  - split; cbn; try done. intros n [= <-]. lia.
  - destruct (Z.ltb_spec (lb_cap b - lb_bytes b) (tlen (lineMarker stream s))) as [Hlt|Hge].
    + pose proof (tlen_headOf (lb_cap b - lb_bytes b) (lineMarker stream s) ltac:(lia)) as Hh.
      split; cbn; rewrite ?Hh, ?offsetsOf_snoc, ?concat_snoc, ?tlen_app, ?Hh; try done; try congruence; try lia; try (intros n [= <-]; lia).
    + split; cbn; rewrite ?offsetsOf_snoc, ?concat_snoc, ?tlen_app; try done; try congruence; try lia.
Qed.

Lemma memoize_inv b : buffer_inv b -> buffer_inv (memoize b).
Proof.
  intros [H1 H2 H3 H4 H5 H6]. split; cbn; try done. unfold joinedParts. intros j. destruct (lb_joined b) as [x|]; intros [= <-]; [by apply H6|done].
Qed.

Lemma joined_parts b : buffer_inv b -> joinedParts b = List.concat (lb_parts b).
Proof. intros H. unfold joinedParts. destruct (lb_joined b) as [j|] eqn:E; [by apply (bi_joined b H)|done]. Qed.

Lemma bufferText_parts b : buffer_inv b -> bufferText b = List.concat (lb_parts b) ++ truncationSuffix b.
Proof. intros H. unfold bufferText. by rewrite joined_parts. Qed.

Lemma bufferLength_spec b : buffer_inv b -> bufferLength b = tlen (bufferText b).
Proof. intros H. by rewrite bufferText_parts, tlen_app, <- (bi_chars b H). Qed.

(** ** Reading by offset *)

Lemma offsets_nth parts i : (i < List.length parts)%nat -> nth i (offsetsOf parts) 0 = tlen (List.concat (take i parts)).
Proof.
  intros H. unfold offsetsOf. rewrite (nth_indep _ 0 (tlen (List.concat (take 0 parts)))) by (by rewrite List.length_map, length_seq).
  rewrite (List.map_nth (fun i => tlen (List.concat (take i parts))) _ 0%nat). by rewrite seq_nth.
Qed.

(** A later part starts no earlier. *)
Lemma starts_mono parts i j : (i <= j)%nat -> tlen (List.concat (take i parts)) <= tlen (List.concat (take j parts)).
Proof.
  intros H. replace (take j parts) with (take i parts ++ take (j - i) (drop i parts)).
  - rewrite List.concat_app, tlen_app. pose proof (tlen_nonneg (List.concat (take (j - i) (drop i parts)))). lia.
  - rewrite take_take_drop. f_equal. lia.
Qed.

(** The search ends at the last part that starts at or before the offset. *)
Lemma search_spec parts offset fuel lo hi : 0 <= lo <= hi -> hi < Z.of_nat (List.length parts) -> hi - lo <= Z.of_nat fuel ->
  tlen (List.concat (take (Z.to_nat lo) parts)) <= offset ->
  (forall i, hi < i -> i < Z.of_nat (List.length parts) -> offset < tlen (List.concat (take (Z.to_nat i) parts))) ->
  let r := searchPart fuel (offsetsOf parts) offset lo hi in
  0 <= r < Z.of_nat (List.length parts) /\ tlen (List.concat (take (Z.to_nat r) parts)) <= offset /\
  (forall i, r < i -> i < Z.of_nat (List.length parts) -> offset < tlen (List.concat (take (Z.to_nat i) parts))).
Proof.
  revert lo hi. induction fuel as [|fuel IH]; intros lo hi Hlo Hhi Hf Hle Hgt; cbn [searchPart].
  - assert (hi = lo) as -> by lia. split_and!; [lia|lia|done|done].
  - destruct (Z.ltb_spec lo hi) as [Hlt|Hge]; [|assert (hi = lo) as -> by lia; split_and!; [lia|lia|done|done]].
    rewrite Z.shiftr_div_pow2 by lia. change (2 ^ 1) with 2. set (mid := (lo + hi + 1) / 2).
    assert (lo < mid <= hi) as Hmid by (unfold mid; pose proof (Z.div_mod (lo + hi + 1) 2); pose proof (Z.mod_pos_bound (lo + hi + 1) 2); lia).
    rewrite offsets_nth by lia. destruct (Z.leb_spec (tlen (List.concat (take (Z.to_nat mid) parts))) offset) as [Hm|Hm].
    + apply IH; [lia|done|lia|done|done].
    + apply IH; [lia|lia|lia|done|]. intros i Hi Hi'. destruct (Z.le_gt_cases mid i); [|lia].
      pose proof (starts_mono parts (Z.to_nat mid) (Z.to_nat i) ltac:(lia)). lia.
Qed.

(** The part an offset falls in: the text before it, and what is left from it on. *)
Lemma part_at b offset : buffer_inv b -> 0 <= offset < lb_chars b -> let i := Z.to_nat (partIndexAt offset b) in
  (i < List.length (lb_parts b))%nat /\
  tlen (List.concat (take i (lb_parts b))) <= offset < tlen (List.concat (take (S i) (lb_parts b))).
Proof.
  intros Hb Ho. assert (0 < Z.of_nat (List.length (lb_parts b))) as Hl.
  { pose proof (bi_chars b Hb) as E. destruct (lb_parts b); [change (tlen (List.concat [])) with 0 in E; lia|cbn; lia]. }
  unfold partIndexAt. rewrite (bi_offsets b Hb).
  destruct (search_spec (lb_parts b) offset (List.length (lb_parts b)) 0 (Z.of_nat (List.length (lb_parts b)) - 1)) as (H1 & H2 & H3);
    [lia|lia|lia|change (0 <= offset); lia|lia|].
  set (r := searchPart _ _ _ _ _) in *. split; [lia|]. split; [done|].
  destruct (Z.eq_dec (r + 1) (Z.of_nat (List.length (lb_parts b)))) as [E|E].
  - rewrite take_ge by lia. rewrite <- (bi_chars b Hb). lia.
  - specialize (H3 (r + 1) ltac:(lia) ltac:(lia)). by replace (Z.to_nat (r + 1)) with (S (Z.to_nat r)) in H3 by lia.
Qed.

Lemma sliceOf_app n s t : 0 <= n <= tlen s -> sliceOf n (s ++ t) = sliceOf n s ++ t.
Proof. unfold sliceOf, tlen. intros H. by rewrite drop_app_le by lia. Qed.
Lemma sliceOf_app_r n s t : tlen s <= n -> sliceOf n (s ++ t) = sliceOf (n - tlen s) t.
Proof. unfold sliceOf, tlen. intros H. rewrite drop_app_ge by lia. f_equal. lia. Qed.
Lemma sliceOf_all n s : tlen s <= n -> sliceOf n s = [].
Proof. unfold sliceOf, tlen. intros H. apply drop_ge. lia. Qed.
Lemma sliceOf_neg n s : n <= 0 -> sliceOf n s = s.
Proof. unfold sliceOf. intros H. by replace (Z.to_nat n) with 0%nat by lia. Qed.

Lemma slice_parts parts i n : (i < List.length parts)%nat ->
  tlen (List.concat (take i parts)) <= n < tlen (List.concat (take (S i) parts)) ->
  sliceOf n (List.concat parts) = sliceOf (n - tlen (List.concat (take i parts))) (nth i parts []) ++ List.concat (drop (S i) parts).
Proof.
  intros Hi [H1 H2]. assert (exists p, parts !! i = Some p) as [p Hp] by (apply lookup_lt_is_Some_2; lia).
  rewrite (nth_lookup_Some _ _ _ _ Hp). rewrite (take_S_r _ _ _ Hp), concat_snoc, tlen_app in H2.
  rewrite <- (take_drop_middle parts i p Hp) at 1. rewrite List.concat_app. cbn [List.concat].
  rewrite sliceOf_app_r by done. apply sliceOf_app. lia.
Qed.

Lemma sliceFrom_slices b offset : buffer_inv b -> sliceFrom offset b = sliceOf offset (bufferText b).
Proof.
  intros Hb. unfold sliceFrom. destruct (Z.leb_spec offset 0) as [H0|H0]; [by rewrite sliceOf_neg|].
  destruct (Z.leb_spec (bufferLength b) offset) as [H1|H1]; [by rewrite sliceOf_all by (rewrite <- bufferLength_spec; done)|].
  rewrite bufferText_parts by done. pose proof (bi_chars b Hb) as Hc.
  destruct (Z.leb_spec (lb_chars b) offset) as [H2|H2]; [by rewrite sliceOf_app_r, Hc by lia|].
  destruct (part_at b offset Hb ltac:(lia)) as [Hi Hpart]. cbv zeta in Hi, Hpart. set (i := Z.to_nat (partIndexAt offset b)) in *.
  rewrite sliceOf_app by lia. rewrite (slice_parts _ i) by done. rewrite (bi_offsets b Hb), offsets_nth by done.
  rewrite <- app_assoc. destruct (Nat.eqb_spec i (List.length (lb_parts b) - 1)) as [E|E]; [|done].
  by rewrite (drop_ge _ (S i)) by lia.
Qed.

(** ** Histories of a buffer *)

Inductive BufferOp := Append (stream : LogStream) (s : text) | ReadAll.
Definition bufferStep (b : CappedLogBuffer) (o : BufferOp) : CappedLogBuffer :=
  match o with Append stream s => append stream s b | ReadAll => memoize b end.

Lemma step_inv b o : buffer_inv b -> buffer_inv (bufferStep b o).
Proof. destruct o; [apply append_inv|apply memoize_inv]. Qed.
Lemma run_inv ops b : buffer_inv b -> buffer_inv (fold_left bufferStep ops b).
Proof. revert b. induction ops as [|o ops IH]; intros b Hb; [done|]. apply IH. by apply step_inv. Qed.

Lemma append_text stream s b : buffer_inv b -> bufferText b `prefix_of` bufferText (append stream s b).
Proof.
  intros Hb. rewrite bufferText_parts, bufferText_parts by (try apply append_inv; done). unfold append.
  destruct (lb_truncated b) as [n|] eqn:Et; [done|]. unfold truncationSuffix at 1. rewrite Et, app_nil_r.
  destruct (_ <=? 0); [by eexists|].
  destruct (_ <? _); cbn [setJoined setTruncated setBytes pushPart lb_parts]; rewrite concat_snoc, <- app_assoc; by eexists.
Qed.
Lemma step_text b o : buffer_inv b -> bufferText b `prefix_of` bufferText (bufferStep b o).
Proof.
  intros Hb. destruct o as [stream s|]; [by apply append_text|]. cbn [bufferStep].
  rewrite !bufferText_parts by (try apply memoize_inv; done). done.
Qed.
Lemma run_text ops b : buffer_inv b -> bufferText b `prefix_of` bufferText (fold_left bufferStep ops b).
Proof.
  revert b. induction ops as [|o ops IH]; intros b Hb; [done|]. etransitivity; [by apply (step_text b o)|].
  apply IH. by apply step_inv.
Qed.

(** Reading a log from an offset, by a binary search of its parts, gives what slicing the whole
    text would, whatever was appended and read before; and the length is the text's. *)
Theorem offset_read_is_slice cap ops offset : let b := fold_left bufferStep ops (newBuffer cap) in
  sliceFrom offset b = sliceOf offset (bufferText b) /\ bufferLength b = tlen (bufferText b).
Proof. intros b. assert (buffer_inv b) as Hb by (apply run_inv, newBuffer_inv). split; [by apply sliceFrom_slices|by apply bufferLength_spec]. Qed.

(** A log only ever grows at its end: an earlier text of the buffer is a prefix of every later
    one, its lines never exceed the cap, and once it is capped nothing changes any more. *)
Theorem log_is_prefix_stable cap ops more : let b := fold_left bufferStep ops (newBuffer cap) in let b' := fold_left bufferStep more b in
  bufferText b `prefix_of` bufferText b' /\ tlen (List.concat (lb_parts b')) <= Z.max 0 cap /\
  (lb_truncated b <> None -> bufferText b' = bufferText b).
Proof.
  intros b b'. assert (buffer_inv b) as Hb by (apply run_inv, newBuffer_inv). assert (buffer_inv b') as Hb' by (by apply run_inv).
  assert (forall ops x, lb_cap (fold_left bufferStep ops x) = lb_cap x) as Hcap.
  { induction ops0 as [|[stream s|] ops0 IH]; intros x; [done| |]; cbn [fold_left]; rewrite IH; [|done]. cbn [bufferStep]. unfold append.
    destruct (lb_truncated x); [done|]. destruct (_ <=? 0); [done|]. by destruct (_ <? _). }
  split_and!; [by apply run_text| |].
  - rewrite <- (bi_chars b' Hb'). pose proof (bi_cap b' Hb') as H. unfold b', b in H. by rewrite !Hcap in H.
  - intros Ht. unfold b'. clear Hb'. clearbody b. clear b'. revert b Hb Ht. induction more as [|o more IH]; intros b Hb Ht; [done|].
    cbn [fold_left]. assert (bufferText (bufferStep b o) = bufferText b /\ lb_truncated (bufferStep b o) = lb_truncated b) as [E1 E2].
    { destruct o as [stream s|]; cbn [bufferStep]; [unfold append; by destruct (lb_truncated b) eqn:Et|].
      split; [|done]. rewrite !bufferText_parts by (try apply memoize_inv; done). done. }
    rewrite IH; [done|by apply step_inv|by rewrite E2].
Qed.

(** *** Lines *)

Definition unbroken (s : text) : Prop := ~ In LF s /\ ~ In CR s.

Lemma split_no c s l : In l (splitUnits c s) -> ~ In c l.
Proof.
  revert l. induction s as [|x s IH]; intros l; cbn [splitUnits]; [by intros [<-|[]] []|].
  destruct (Z.eqb_spec x c) as [->|Hne]; [intros [<-|H]; [by intros []|exact (IH l H)]|].
  destruct (splitUnits c s) as [|h t]; [by intros [<-|[]] [?|[]]|]. intros [<-|H]; [|exact (IH l (or_intror H))].
  intros [?|H]; [congruence|]. exact (IH h (or_introl eq_refl) H).
Qed.
Lemma split_sub c s l x : In l (splitUnits c s) -> In x l -> In x s.
Proof.
  revert l. induction s as [|y s IH]; intros l; cbn [splitUnits]; [by intros [<-|[]]|].
  destruct (y =? c); [intros [<-|H] Hx; [done|right; by apply (IH l)]|].
  destruct (splitUnits c s) as [|h t]; [intros [<-|[]] [<-|[]]; by left|]. intros [<-|H] Hx; [|right; apply (IH l); [by right|done]].
  destruct Hx as [<-|Hx]; [by left|]. right. apply (IH h); [by left|done].
Qed.

Lemma frame_unbroken line : ~ In LF line -> unbroken (lastNonEmptyFrame line).
Proof.
  intros Hn. unfold lastNonEmptyFrame. destruct (existsb (Z.eqb CR) line) eqn:E; cbn [negb].
  - destruct (List.find _ _) as [f|] eqn:Ef; [|by split; intros []]. apply find_some in Ef as [Hf _]. rewrite <- in_rev in Hf. change (unbroken f).
    split; [intros H; exact (Hn (split_sub CR line f LF Hf H))|exact (split_no CR line f Hf)].
  - split; [done|]. intros H. rewrite (proj2 (existsb_exists _ _)) in E; [done|]. by exists CR.
Qed.

(** What is emitted as a line is one: it is not empty and holds no line break. *)
Lemma emitted_lines_unbroken s l : In l (splitLogLines s) -> l <> [] /\ unbroken l.
Proof.
  unfold splitLogLines. intros [(p & <- & Hp)%in_map_iff He]%filter_In. split; [by destruct (lastNonEmptyFrame p)|].
  apply frame_unbroken. exact (split_no LF _ p Hp).
Qed.

(** *** A concrete buffer *)

Definition demo_log : CappedLogBuffer :=
  fold_left bufferStep [Append Stdout (units "ab"); Append Stderr (units "c"); ReadAll; Append Stdout (units "defgh"); Append Stdout (units "x")] (newBuffer 16).

Lemma demo_log_text : bufferText demo_log = units "ab" ++ [LF] ++ units "[stderr] c" ++ [LF] ++ units "de" ++
    LF :: units "...[truncated " ++ [8212] ++ units " log capped at 16 bytes]" /\
  sliceFrom 5 demo_log = sliceOf 5 (bufferText demo_log) /\ partIndexAt 5 demo_log = 1.
Proof. vm_compute. done. Qed.

Lemma demo_log_lines : splitLogLines (units "Reading 5%" ++ [CR] ++ units "Reading 9%" ++ [CR; LF; LF] ++ units "done") = [units "Reading 9%"; units "done"].
Proof. vm_compute. done. Qed.
