(* ===== verification/RunLogChunks.v ===== *)
(** * The stored log of a run

    A model of [packages/server/src/db/run-log-chunks.ts] on the tables
    [heartbeat_run_log_chunks] and [heartbeat_runs]. The database keeps texts as code points
    and counts them with [length]; the server counts UTF-16 code units. A text the server
    sends has its unpaired surrogates replaced, and one with a NUL is refused. The theorems are
    of any texts, and name the texts that come back as they were written. The one-time reclaim
    of disk space is left out. *)
From Stdlib Require Import ZArith Lia Ascii String List Bool Permutation Sorted.
From stdpp Require Import base list strings gmap option.
From S2P Require Import Prelude JsString JsonText LogBuffer.

Open Scope string_scope.
Open Scope list_scope.
Open Scope Z_scope.

(** ** Texts of the database *)

Definition isHigh (u : Z) : bool := (55296 <=? u) && (u <=? 56319).
Definition isLow (u : Z) : bool := (56320 <=? u) && (u <=? 57343).
Definition REPLACEMENT : Z := 65533.

Fixpoint toCodePoints (s : text) : list Z :=
  match s with
  | [] => []
  | u :: r =>
      if isHigh u then
        match r with
        | v :: r' => if isLow v then (65536 + (u - 55296) * 1024 + (v - 56320)) :: toCodePoints r' else REPLACEMENT :: toCodePoints r
        | [] => [REPLACEMENT]
        end
      else (if isLow u then REPLACEMENT else u) :: toCodePoints r
  end.

Definition unitsOf (c : Z) : text := if c <? 65536 then [c] else [55296 + (c - 65536) / 1024; 56320 + (c - 65536) mod 1024].
Definition fromCodePoints (l : list Z) : text := List.concat (List.map unitsOf l).

Definition storable (l : list Z) : bool := negb (existsb (Z.eqb 0) l).

(** ** The tables *)

Definition MAX_RUN_LOG_CHUNK_CHARS : Z := 1000000.

Record ChunkRow := mkChunk { ck_run : string; ck_seq : Z; ck_content : list Z }.
Record RunUsage := mkUsage {
  us_input : option Z; us_output : option Z; us_cacheRead : option Z; us_cacheCreation : option Z; us_partial : bool
}.
Record LogDb := mkLogDb { lg_chunks : list ChunkRow; lg_usage : gmap string RunUsage }.

Record RunUsageSnapshot := mkSnapshot {
  sn_input : option Z; sn_output : option Z; sn_cacheRead : option Z; sn_cacheCreation : option Z
}.

Definition ofRun (run : string) (c : ChunkRow) : bool := String.eqb (ck_run c) run.
Definition bySeq (a b : ChunkRow) : Z := ck_seq a - ck_seq b.
(** The chunks of a run, [ORDER BY seq]. *)
Definition runChunks (run : string) (db : LogDb) : list ChunkRow := js_sort bySeq (List.filter (ofRun run) (lg_chunks db)).

(** [string_agg(content, '' ORDER BY seq)] and [SUM(length(content))]. *)
Definition storedText (run : string) (db : LogDb) : list Z := List.concat (List.map ck_content (runChunks run db)).
Definition runLogLength (run : string) (db : LogDb) : Z := sumZ (fun c => tlen (ck_content c)) (runChunks run db).

Definition readRunLogText (run : string) (db : LogDb) : text := fromCodePoints (storedText run db).

(** The slices of a text; with fuel for its length there are no more. *)
Fixpoint chunkFuel (fuel : nat) (s : text) : list text :=
  match fuel, s with
  | O, _ | _, [] => []
  | S fuel, _ => headOf MAX_RUN_LOG_CHUNK_CHARS s :: chunkFuel fuel (sliceOf MAX_RUN_LOG_CHUNK_CHARS s)
  end.
Definition splitChunks (s : text) : list text := chunkFuel (List.length s) s.

Fixpoint numberChunks (run : string) (start : Z) (contents : list (list Z)) : list ChunkRow :=
  match contents with
  | [] => []
  | c :: l => mkChunk run start c :: numberChunks run (start + 1) l
  end.

(** [COALESCE(MAX(seq), -1) + 1]. *)
Definition nextSeq (run : string) (db : LogDb) : Z :=
  fold_right (fun c n => Z.max (ck_seq c + 1) n) 0 (List.filter (ofRun run) (lg_chunks db)).

Definition orElse (a b : option Z) : option Z := match a with Some _ => a | None => b end.
(** The update of the usage, of a run that has a row. *)
Definition stampUsage (run : string) (u : RunUsageSnapshot) (db : LogDb) : LogDb :=
  mkLogDb (lg_chunks db)
    (match lg_usage db !! run with
     | None => lg_usage db
     | Some r => <[run := mkUsage (orElse (sn_input u) (us_input r)) (orElse (sn_output u) (us_output r))
                                  (orElse (sn_cacheRead u) (us_cacheRead r)) (orElse (sn_cacheCreation u) (us_cacheCreation r)) true]> (lg_usage db)
     end).

Definition insertChunks (run : string) (contents : list (list Z)) (db : LogDb) : option LogDb :=
  if forallb storable contents
  then Some (mkLogDb (lg_chunks db ++ numberChunks run (nextSeq run db) contents) (lg_usage db))
  else None.

(** One statement: [None] when it fails and nothing is written. *)
Definition appendRunLogChunks (run : string) (s : text) (usage : option RunUsageSnapshot) (db : LogDb) : option LogDb :=
  match splitChunks s, usage with
  | [], None => Some db
  | [], Some u => Some (stampUsage run u db)
  | chunks, Some u => stampUsage run u <$> insertChunks run (List.map toCodePoints chunks) db
  | chunks, None => insertChunks run (List.map toCodePoints chunks) db
  end.

(** ** Windows *)

Record LogWindow := mkWindow { wi_text : text; wi_length : Z; wi_offset : Z; wi_next : option Z }.

(** The chunks with the position each starts at. *)
Fixpoint positions (at_ : Z) (l : list ChunkRow) : list (Z * list Z) :=
  match l with
  | [] => []
  | c :: l => (at_, ck_content c) :: positions (at_ + tlen (ck_content c)) l
  end.

(** [s.slice(from, to)] for [0 <= from]. *)
Definition sliceUnits (from to : Z) (s : text) : text := headOf (to - from) (sliceOf from s).

Definition readRunLogWindow (run : string) (offsetChars maxChars : Z) (db : LogDb) : LogWindow :=
  let length := runLogLength run db in
  let start := Z.max 0 (Z.min offsetChars length) in
  if (length =? 0) || (maxChars <=? 0) || (length <=? start) then mkWindow [] length start None
  else
    let end_ := Z.min (start + maxChars) length in
    match List.filter (fun p => (start <? fst p + tlen (snd p)) && (fst p <? end_)) (positions 0 (runChunks run db)) with
    | [] => mkWindow [] length start None
    | (at_, c) :: l =>
        let joined := List.concat (List.map (fun p => fromCodePoints (snd p)) ((at_, c) :: l)) in
        mkWindow (sliceUnits (start - at_) (end_ - at_) joined) length start (if end_ <? length then Some end_ else None)
    end.

(** ** Tails *)

Record LogTail := mkTail { ta_text : text; ta_length : Z; ta_truncated : bool }.

(** The loop: [None] when the fuel runs out. *)
Fixpoint tailLoop (fuel : nat) (limit : Z) (maxChars length : Z) (newestFirst : list text) : option LogTail :=
  match fuel with
  | O => None
  | S fuel =>
      let rows := take (Z.to_nat limit) newestFirst in
      let read := sumZ tlen rows in
      let reachedStart := Z.of_nat (List.length rows) <? limit in
      if (maxChars <=? read) || reachedStart then
        let s := List.concat (rev rows) in
        Some (mkTail (if maxChars <? tlen s then sliceOf (tlen s - maxChars) s else s) length (maxChars <? length))
      else tailLoop fuel (limit * 4) maxChars length newestFirst
  end.

Definition readRunLogTail (run : string) (maxChars : Z) (db : LogDb) : option LogTail :=
  let length := runLogLength run db in
  if length =? 0 then Some (mkTail [] 0 false)
  else tailLoop (S (List.length (runChunks run db))) 32 maxChars length (rev (List.map (fun c => fromCodePoints (ck_content c)) (runChunks run db))).

(** ** Replacing a log *)

Definition replaceRunLog (run : string) (content : text) (db : LogDb) : option LogDb :=
  if storable (toCodePoints content)
  then Some (mkLogDb (List.filter (fun c => negb (ofRun run c)) (lg_chunks db) ++ [mkChunk run 0 (toCodePoints content)]) (lg_usage db))
  else None.

(** ** Plain texts *)

(** Neither surrogates nor NUL: a unit is a code point. *)
Definition plainUnit (u : Z) : Prop := 0 < u < 55296 \/ 57343 < u < 65536.
Definition plainText (s : text) : Prop := List.Forall plainUnit s.

Lemma plain_prefix s t : plainText s -> toCodePoints (s ++ t) = s ++ toCodePoints t.
Proof.
  induction 1 as [|u s Hu _ IH]; [done|]. cbn [toCodePoints app].
  assert (isHigh u = false) as -> by (unfold isHigh; destruct Hu; lia). assert (isLow u = false) as -> by (unfold isLow; destruct Hu; lia).
  by rewrite IH.
Qed.
Lemma plain_kept s : plainText s -> toCodePoints s = s.
Proof. intros Hs. pose proof (plain_prefix s [] Hs) as H. by rewrite !app_nil_r in H. Qed.
Lemma plain_units s : plainText s -> fromCodePoints s = s.
Proof.
  induction 1 as [|u s Hu _ IH]; [done|]. unfold fromCodePoints in *. cbn [List.map List.concat]. rewrite IH. unfold unitsOf.
  by rewrite (proj2 (Z.ltb_lt u 65536)) by (destruct Hu; lia).
Qed.
Lemma plain_storable s : plainText s -> storable s = true.
Proof.
  intros H. unfold storable. rewrite (proj2 (existsb_false_iff _ _)); [done|]. intros u Hu. apply Z.eqb_neq.
  unfold plainText in H. rewrite List.Forall_forall in H. specialize (H u Hu). destruct H; lia.
Qed.
Lemma plain_check s : forallb (fun u => ((0 <? u) && (u <? 55296)) || ((57343 <? u) && (u <? 65536))) s = true -> plainText s.
Proof. intros H. apply List.Forall_forall. intros u Hu. rewrite forallb_forall in H. specialize (H u Hu). unfold plainUnit. lia. Qed.

Lemma plain_app s t : plainText (s ++ t) <-> plainText s /\ plainText t.
Proof. apply List.Forall_app. Qed.
Lemma plain_slice n s : plainText s -> plainText (sliceOf n s).
Proof. intros H. unfold sliceOf. rewrite <- (take_drop (Z.to_nat n) s) in H. by apply plain_app in H as [_ H]. Qed.
Lemma plain_head n s : plainText s -> plainText (headOf n s).
Proof. intros H. unfold headOf. rewrite <- (take_drop (Z.to_nat n) s) in H. by apply plain_app in H as [H _]. Qed.

Lemma fromCodePoints_app s t : fromCodePoints (s ++ t) = fromCodePoints s ++ fromCodePoints t.
Proof. unfold fromCodePoints. by rewrite List.map_app, List.concat_app. Qed.
Lemma fromCodePoints_concat l : fromCodePoints (List.concat l) = List.concat (List.map fromCodePoints l).
Proof. induction l as [|s l IH]; [done|]. cbn [List.concat List.map]. by rewrite fromCodePoints_app, IH. Qed.

(** ** Chunks in order *)

Definition inOrder (l : list ChunkRow) : Prop := StronglySorted (fun a b => ck_seq a < ck_seq b) l.
Definition chunk_inv (db : LogDb) : Prop := forall run, inOrder (List.filter (ofRun run) (lg_chunks db)).

Lemma inOrder_sorted l : inOrder l -> js_sort bySeq l = l.
Proof.
  intros H. apply js_sort_id. induction H as [|c l _ IH Hc]; constructor; [done|]. eapply List.Forall_impl; [|exact Hc].
  intros d Hd. unfold bySeq. cbn in Hd. lia.
Qed.
Lemma runChunks_rows run db : chunk_inv db -> runChunks run db = List.filter (ofRun run) (lg_chunks db).
Proof. intros H. apply inOrder_sorted, H. Qed.

Lemma numberChunks_run run start l : List.filter (ofRun run) (numberChunks run start l) = numberChunks run start l.
Proof. revert start. induction l as [|c l IH]; intros start; [done|]. cbn. unfold ofRun at 1. cbn. by rewrite String.eqb_refl, IH. Qed.
Lemma numberChunks_other run other start l : other <> run -> List.filter (ofRun other) (numberChunks run start l) = [].
Proof.
  intros Hne. revert start. induction l as [|c l IH]; intros start; [done|]. cbn. unfold ofRun at 1. cbn.
  by rewrite (proj2 (String.eqb_neq run other) (not_eq_sym Hne)), IH.
Qed.
Lemma numberChunks_content run start l : List.map ck_content (numberChunks run start l) = l.
Proof. revert start. induction l as [|c l IH]; intros start; [done|]. cbn. by rewrite IH. Qed.
Lemma numberChunks_seq run start l c : In c (numberChunks run start l) -> start <= ck_seq c.
Proof. revert start. induction l as [|x l IH]; intros start; [done|]. intros [<-|H]; [cbn; lia|]. apply IH in H. lia. Qed.
Lemma numberChunks_order run start l : inOrder (numberChunks run start l).
Proof.
  revert start. induction l as [|x l IH]; intros start; [constructor|]. constructor; [apply IH|].
  apply List.Forall_forall. intros c Hc%numberChunks_seq. cbn. lia.
Qed.

Lemma nextSeq_above run db c : In c (List.filter (ofRun run) (lg_chunks db)) -> ck_seq c < nextSeq run db.
Proof.
  unfold nextSeq. induction (List.filter (ofRun run) (lg_chunks db)) as [|x l IH]; [done|]. cbn [fold_right].
  intros [->|H]; [lia|]. apply IH in H. lia.
Qed.

Lemma StronglySorted_app {A} (R : A -> A -> Prop) l l' : StronglySorted R l -> StronglySorted R l' ->
  (forall x y, In x l -> In y l' -> R x y) -> StronglySorted R (l ++ l').
Proof.
  intros Hl Hl' H. induction Hl as [|x l _ IH Hx]; [done|]. cbn. constructor.
  - apply IH. intros y z Hy. apply H. by right.
  - apply List.Forall_app. split; [done|]. apply List.Forall_forall. intros y Hy. apply H; [by left|done].
Qed.

Lemma insert_rows run contents db other :
  List.filter (ofRun other) (lg_chunks db ++ numberChunks run (nextSeq run db) contents) =
  List.filter (ofRun other) (lg_chunks db) ++ (if String.eqb other run then numberChunks run (nextSeq run db) contents else []).
Proof.
  rewrite List.filter_app. f_equal. destruct (String.eqb_spec other run) as [->|Hne]; [apply numberChunks_run|by apply numberChunks_other].
Qed.

Lemma insertChunks_spec run contents db : chunk_inv db -> forallb storable contents = true ->
  exists db', insertChunks run contents db = Some db' /\ chunk_inv db' /\ lg_usage db' = lg_usage db /\
  forall other, storedText other db' = storedText other db ++ (if String.eqb other run then List.concat contents else []).
Proof.
  intros Hinv Hs. unfold insertChunks. rewrite Hs. eexists. split; [reflexivity|].
  set (db' := mkLogDb _ _). assert (chunk_inv db') as Hinv'.
  { intros other. cbn [db' lg_chunks]. rewrite insert_rows. destruct (String.eqb_spec other run) as [->|_]; [|by rewrite app_nil_r].
    apply StronglySorted_app; [apply Hinv|apply numberChunks_order|]. intros x y Hx%nextSeq_above Hy%numberChunks_seq. lia. }
  split_and!; [done|done|]. intros other. unfold storedText. rewrite !runChunks_rows by done. cbn [db' lg_chunks].
  rewrite insert_rows, List.map_app, List.concat_app. f_equal. destruct (String.eqb other run); [by rewrite numberChunks_content|done].
Qed.

Lemma chunkFuel_concat fuel s : (List.length s <= fuel)%nat -> List.concat (chunkFuel fuel s) = s.
Proof.
  revert s. induction fuel as [|fuel IH]; intros s Hf; [destruct s; [done|cbn in Hf; lia]|].
  destruct s as [|u s]; [done|]. cbn [chunkFuel List.concat].
  rewrite IH; [apply take_drop|]. unfold sliceOf, MAX_RUN_LOG_CHUNK_CHARS. rewrite length_drop. cbn [List.length] in *. lia.
Qed.
Lemma splitChunks_concat s : List.concat (splitChunks s) = s.
Proof. by apply chunkFuel_concat. Qed.
Lemma chunkFuel_plain fuel s c : plainText s -> In c (chunkFuel fuel s) -> plainText c /\ tlen c <= MAX_RUN_LOG_CHUNK_CHARS.
Proof.
  revert s. induction fuel as [|fuel IH]; intros s Hs; [done|]. destruct s as [|u s]; [done|]. cbn [chunkFuel]. intros [<-|H].
  - split; [by apply plain_head|]. unfold tlen, headOf. rewrite length_take. unfold MAX_RUN_LOG_CHUNK_CHARS. lia.
  - apply (IH _ (plain_slice _ _ Hs) H).
Qed.

(** Appending, whatever units the text has. *)
Lemma append_spec run s usage db : chunk_inv db -> forallb storable (List.map toCodePoints (splitChunks s)) = true ->
  exists db', appendRunLogChunks run s usage db = Some db' /\ chunk_inv db' /\
  forall other, storedText other db' = storedText other db ++ (if String.eqb other run then List.concat (List.map toCodePoints (splitChunks s)) else []).
Proof.
  intros Hinv Hs. destruct (insertChunks_spec run _ db Hinv Hs) as (db' & Hi & Hinv' & _ & Htext). unfold appendRunLogChunks.
  destruct (splitChunks s) as [|c l].
  - exists (match usage with Some u => stampUsage run u db | None => db end). split; [by destruct usage|].
    split; [by destruct usage|]. intros other. destruct usage; cbn; by destruct (String.eqb other run); rewrite app_nil_r.
  - rewrite Hi. exists (match usage with Some u => stampUsage run u db' | None => db' end). split; [by destruct usage|].
    split; [by destruct usage|]. intros other. rewrite <- Htext. by destruct usage.
Qed.

(** The characters a text is sent as, and whether the database takes them. *)
Definition sent (s : text) : list Z := List.concat (List.map toCodePoints (splitChunks s)).
Definition accepted (s : text) : bool := forallb storable (List.map toCodePoints (splitChunks s)).

Lemma append_refused run s usage db : accepted s = false -> appendRunLogChunks run s usage db = None.
Proof.
  unfold accepted, appendRunLogChunks. intros H. destruct (splitChunks s) as [|c l]; [done|].
  assert (insertChunks run (List.map toCodePoints (c :: l)) db = None) as -> by (unfold insertChunks; by rewrite H). by destruct usage.
Qed.

Lemma splitChunks_plain s : plainText s -> List.map toCodePoints (splitChunks s) = splitChunks s.
Proof.
  intros Hs. rewrite <- (List.map_id (splitChunks s)) at 2. apply List.map_ext_in. intros c Hc. apply plain_kept. by eapply chunkFuel_plain.
Qed.
Lemma splitChunks_storable s : plainText s -> forallb storable (splitChunks s) = true.
Proof. intros Hs. apply forallb_forall. intros c Hc. apply plain_storable. by eapply chunkFuel_plain. Qed.

Lemma sent_plain s : plainText s -> sent s = s.
Proof. intros Hs. unfold sent. by rewrite splitChunks_plain, splitChunks_concat. Qed.
Lemma accepted_plain s : plainText s -> accepted s = true.
Proof. intros Hs. unfold accepted. rewrite splitChunks_plain by done. by apply splitChunks_storable. Qed.

(** ** Windows of a log of the basic plane *)

Definition basicText (l : list Z) : Prop := List.Forall (fun c => c < 65536) l.

Lemma basic_units l : basicText l -> fromCodePoints l = l.
Proof.
  induction 1 as [|c l Hc _ IH]; [done|]. unfold fromCodePoints in *. cbn [List.map List.concat]. rewrite IH. unfold unitsOf.
  by rewrite (proj2 (Z.ltb_lt c 65536) Hc).
Qed.
Lemma plain_basic s : plainText s -> basicText s.
Proof. apply List.Forall_impl. intros u. unfold plainUnit. lia. Qed.

Definition basicLog (run : string) (db : LogDb) : Prop := basicText (storedText run db).

Lemma basicLog_text run db : basicLog run db -> readRunLogText run db = storedText run db.
Proof. apply basic_units. Qed.

Lemma length_text run db : runLogLength run db = tlen (storedText run db).
Proof.
  unfold runLogLength, storedText. induction (runChunks run db) as [|c l IH]; [done|]. rewrite sumZ_cons. cbn [List.map List.concat].
  rewrite tlen_app. lia.
Qed.

Lemma headOf_app n s t : headOf n (s ++ t) = headOf n s ++ headOf (n - tlen s) t.
Proof. unfold headOf, tlen. rewrite take_app. do 2 f_equal. lia. Qed.
Lemma headOf_neg n s : n <= 0 -> headOf n s = [].
Proof. intros H. unfold headOf. by replace (Z.to_nat n) with 0%nat by lia. Qed.

(** The chunks that overlap a window. *)
Definition overlapping (from to : Z) (p : Z * list Z) : bool := (from <? fst p + tlen (snd p)) && (fst p <? to).

Lemma overlap_after from to l at_ : from < at_ ->
  headOf (to - at_) (List.concat (List.map snd (List.filter (overlapping from to) (positions at_ l)))) =
  headOf (to - at_) (List.concat (List.map ck_content l)).
Proof.
  revert at_. induction l as [|c l IH]; intros at_ H; [done|]. cbn [positions List.filter List.map List.concat].
  destruct (Z.le_gt_cases to at_) as [Hle|Hgt]; [by rewrite !headOf_neg by lia|].
  pose proof (tlen_nonneg (ck_content c)) as Hn.
  assert (overlapping from to (at_, ck_content c) = true) as -> by (unfold overlapping; cbn; lia).
  cbn [List.map List.concat snd]. rewrite !headOf_app. f_equal.
  replace (to - at_ - tlen (ck_content c)) with (to - (at_ + tlen (ck_content c))) by lia. apply IH. lia.
Qed.

(** They are consecutive and cover it. *)
Lemma overlap_spec from to l at_ : at_ <= from < to -> to <= at_ + tlen (List.concat (List.map ck_content l)) ->
  exists pos c rest, List.filter (overlapping from to) (positions at_ l) = (pos, c) :: rest /\ at_ <= pos <= from /\
  headOf (to - from) (sliceOf (from - pos) (List.concat (List.map snd ((pos, c) :: rest)))) =
  headOf (to - from) (sliceOf (from - at_) (List.concat (List.map ck_content l))).
Proof.
  revert at_. induction l as [|c l IH]; intros at_ H1 H2; [change (tlen _) with 0 in H2; lia|].
  cbn [positions List.filter List.map List.concat] in *. rewrite tlen_app in H2. pose proof (tlen_nonneg (ck_content c)) as Hn.
  destruct (Z.le_gt_cases (at_ + tlen (ck_content c)) from) as [Hle|Hgt].
  - assert (overlapping from to (at_, ck_content c) = false) as -> by (unfold overlapping; cbn; lia).
    destruct (IH (at_ + tlen (ck_content c)) ltac:(lia) ltac:(lia)) as (pos & d & rest & Hf & Hp & Ht).
    exists pos, d, rest. split_and!; [done|lia|lia|]. rewrite Ht, sliceOf_app_r by lia. do 2 f_equal. lia.
  - assert (overlapping from to (at_, ck_content c) = true) as -> by (unfold overlapping; cbn; lia).
    eexists at_, _, _. split_and!; [reflexivity|lia|lia|]. cbn [List.map List.concat snd]. rewrite !sliceOf_app by lia.
    rewrite !headOf_app. f_equal. assert (tlen (sliceOf (from - at_) (ck_content c)) = at_ + tlen (ck_content c) - from) as ->.
    { unfold tlen, sliceOf in *. rewrite length_drop. lia. }
    replace (to - from - (at_ + tlen (ck_content c) - from)) with (to - (at_ + tlen (ck_content c))) by lia. apply overlap_after. lia.
Qed.

Lemma positions_snd at_ l : List.map snd (positions at_ l) = List.map ck_content l.
Proof. revert at_. induction l as [|c l IH]; intros at_; [done|]. cbn. by rewrite IH. Qed.

(** What a window of such a log holds. *)
Definition windowSpec (s : text) (offsetChars maxChars : Z) : LogWindow :=
  let start := Z.max 0 (Z.min offsetChars (tlen s)) in
  if (maxChars <=? 0) || (tlen s <=? start) then mkWindow [] (tlen s) start None
  else let end_ := Z.min (start + maxChars) (tlen s) in
       mkWindow (sliceUnits start end_ s) (tlen s) start (if end_ <? tlen s then Some end_ else None).

Lemma window_spec run offsetChars maxChars db : basicLog run db ->
  readRunLogWindow run offsetChars maxChars db = windowSpec (readRunLogText run db) offsetChars maxChars.
Proof.
  intros Hp. rewrite basicLog_text by done. unfold readRunLogWindow, windowSpec. rewrite length_text. set (s := storedText run db).
  pose proof (tlen_nonneg s) as Hn. set (start := Z.max 0 (Z.min offsetChars (tlen s))).
  destruct (Z.eqb_spec (tlen s) 0) as [E|E]; cbn [orb]; [by rewrite (proj2 (Z.leb_le (tlen s) start)), orb_true_r by lia|].
  destruct (_ || _) eqn:Eb; [done|]. apply orb_false_iff in Eb as [Hm%Z.leb_gt Hs%Z.leb_gt].
  set (end_ := Z.min (start + maxChars) (tlen s)).
  destruct (overlap_spec start end_ (runChunks run db) 0) as (pos & c & rest & Hf & Hpos & Ht); [lia|fold (storedText run db); fold s; lia|].
  change (List.filter _ (positions 0 (runChunks run db))) with (List.filter (overlapping start end_) (positions 0 (runChunks run db))).
  rewrite Hf. fold (storedText run db) in Ht. fold s in Ht. rewrite Z.sub_0_r in Ht. f_equal.
  assert (List.map (fun p => fromCodePoints (snd p)) ((pos, c) :: rest) = List.map snd ((pos, c) :: rest)) as ->.
  { apply List.map_ext_in. intros p Hin. apply basic_units. rewrite <- Hf in Hin. apply filter_In in Hin as [Hin _].
    apply (in_map snd) in Hin. rewrite positions_snd in Hin. unfold basicLog, storedText, basicText in *. rewrite List.Forall_forall in *.
    intros u Hu. apply Hp. apply in_concat. by exists (snd p). }
  unfold sliceUnits. rewrite <- Ht. f_equal. lia.
Qed.

(** Reading on from where each window ends, until there is no more. *)
Fixpoint walkLog (fuel : nat) (run : string) (offset maxChars : Z) (db : LogDb) : option text :=
  match fuel with
  | O => None
  | S fuel => let w := readRunLogWindow run offset maxChars db in
              match wi_next w with
              | None => Some (wi_text w)
              | Some n => (fun t => wi_text w ++ t) <$> walkLog fuel run n maxChars db
              end
  end.

Lemma slice_split from to s : 0 <= from <= to -> sliceUnits from to s ++ sliceOf to s = sliceOf from s.
Proof.
  intros H. unfold sliceUnits, headOf, sliceOf. rewrite <- (take_drop (Z.to_nat (to - from)) (drop (Z.to_nat from) s)) at 2.
  f_equal. rewrite drop_drop. f_equal. lia.
Qed.

Lemma walk_spec fuel run offset maxChars db : basicLog run db -> 0 < maxChars -> 0 <= offset <= tlen (readRunLogText run db) ->
  tlen (readRunLogText run db) - offset < Z.of_nat fuel -> walkLog fuel run offset maxChars db = Some (sliceOf offset (readRunLogText run db)).
Proof.
  intros Hp Hm. revert offset. induction fuel as [|fuel IH]; intros offset Ho Hf; [lia|]. cbn [walkLog]. rewrite window_spec by done.
  set (s := readRunLogText run db) in *. unfold windowSpec. rewrite (proj2 (Z.leb_gt maxChars 0) Hm). cbn [orb].
  replace (Z.max 0 (Z.min offset (tlen s))) with offset by lia.
  destruct (Z.leb_spec (tlen s) offset) as [Hge|Hlt]; [cbn; by rewrite sliceOf_all|]. cbn [wi_next wi_text].
  destruct (Z.ltb_spec (Z.min (offset + maxChars) (tlen s)) (tlen s)) as [Hl|Hl].
  - replace (Z.min (offset + maxChars) (tlen s)) with (offset + maxChars) in * by lia. rewrite IH by lia. cbn. by rewrite slice_split by lia.
  - f_equal. replace (Z.min (offset + maxChars) (tlen s)) with (tlen s) by lia. rewrite <- (slice_split offset (tlen s) s) by lia.
    by rewrite (sliceOf_all (tlen s)), app_nil_r by lia.
Qed.

(** ** Tails *)

(** [s.length > n ? s.slice(s.length - n) : s]. *)
Definition lastOf (n : Z) (s : text) : text := if n <? tlen s then sliceOf (tlen s - n) s else s.

Lemma lastOf_app n s t : 0 <= n <= tlen t -> lastOf n (s ++ t) = lastOf n t.
Proof.
  intros H. unfold lastOf. rewrite tlen_app. pose proof (tlen_nonneg s).
  destruct (Z.ltb_spec n (tlen t)), (Z.ltb_spec n (tlen s + tlen t)); try lia.
  - rewrite sliceOf_app_r by lia. f_equal. lia.
  - rewrite sliceOf_app_r by lia. by rewrite sliceOf_neg by lia.
  - assert (tlen s = 0) as E by lia. unfold tlen in E. by destruct s.
Qed.

Lemma sumZ_tlen l : sumZ tlen l = tlen (List.concat (rev l)).
Proof.
  induction l as [|s l IH]; [done|]. cbn [rev]. rewrite sumZ_cons, concat_snoc, tlen_app. lia.
Qed.

Lemma tail_loop fuel limit maxChars length l : 0 < limit -> 0 <= maxChars -> Z.of_nat (List.length l) + 1 < limit + Z.of_nat fuel -> (0 < fuel)%nat ->
  tailLoop fuel limit maxChars length l = Some (mkTail (lastOf maxChars (List.concat (rev l))) length (maxChars <? length)).
Proof.
  revert limit. induction fuel as [|fuel IH]; intros limit Hl Hm Hf Hpos; [lia|]. cbn [tailLoop]. set (rows := take (Z.to_nat limit) l).
  assert (List.concat (rev l) = List.concat (rev (drop (Z.to_nat limit) l)) ++ List.concat (rev rows)) as Hcat.
  { unfold rows. rewrite <- List.concat_app, <- rev_app_distr. by rewrite take_drop. }
  destruct (Z.leb_spec maxChars (sumZ tlen rows)) as [Hr|Hr]; cbn [orb].
  - rewrite Hcat, lastOf_app by (rewrite <- sumZ_tlen; lia). done.
  - destruct (Z.ltb_spec (Z.of_nat (List.length rows)) limit) as [Hlt|Hge].
    + unfold rows in *. rewrite length_take in Hlt. rewrite take_ge by lia. done.
    + apply IH; [lia|done|lia|]. unfold rows in Hge. rewrite length_take in Hge. destruct fuel; lia.
Qed.

Lemma tail_any run maxChars db : 0 <= maxChars ->
  readRunLogTail run maxChars db = Some (mkTail (lastOf maxChars (readRunLogText run db)) (runLogLength run db) (maxChars <? runLogLength run db)).
Proof.
  intros Hm. unfold readRunLogTail. destruct (Z.eqb_spec (runLogLength run db) 0) as [E|E].
  - rewrite E, (proj2 (Z.ltb_ge maxChars 0)) by done. rewrite length_text in E.
    assert (storedText run db = []) as Hs by (unfold tlen in E; by destruct (storedText run db)).
    unfold readRunLogText. rewrite Hs. unfold lastOf. change (tlen (fromCodePoints [])) with 0. by rewrite (proj2 (Z.ltb_ge maxChars 0)).
  - rewrite tail_loop; [|lia|done|rewrite length_rev, List.length_map; lia|lia]. rewrite rev_involutive.
    unfold readRunLogText, storedText. by rewrite fromCodePoints_concat, List.map_map.
Qed.

(** ** What is stored reads back *)

Inductive LogWrite := WriteLog (run : string) (s : text) (usage : option RunUsageSnapshot) | ReplaceLog (run : string) (s : text).
Definition writeStep (w : LogWrite) (db : LogDb) : LogDb :=
  match w with
  | WriteLog run s usage => default db (appendRunLogChunks run s usage db)
  | ReplaceLog run s => default db (replaceRunLog run s db)
  end.
Definition writtenText (w : LogWrite) : text := match w with WriteLog _ s _ | ReplaceLog _ s => s end.

(** The characters of a run's log after a write: those the write sent, when the database took
    them, and else those there were. *)
Definition logAfter (run : string) (w : LogWrite) (l : list Z) : list Z :=
  match w with
  | WriteLog r t _ => if String.eqb run r && accepted t then l ++ sent t else l
  | ReplaceLog r t => if String.eqb run r && storable (toCodePoints t) then toCodePoints t else l
  end.

Lemma filter_other run other (l : list ChunkRow) : other <> run ->
  List.filter (ofRun other) (List.filter (fun c => negb (ofRun run c)) l) = List.filter (ofRun other) l.
Proof.
  intros Hne. rewrite filter_filter_and. apply List.filter_ext. intros c. unfold ofRun.
  destruct (String.eqb_spec (ck_run c) other), (String.eqb_spec (ck_run c) run); cbn; congruence.
Qed.
Lemma filter_gone run (l : list ChunkRow) : List.filter (ofRun run) (List.filter (fun c => negb (ofRun run c)) l) = [].
Proof. rewrite filter_filter_and. apply filter_nil_iff. intros c _. by destruct (ofRun run c). Qed.

Lemma replace_rows run c db other :
  List.filter (ofRun other) (List.filter (fun c => negb (ofRun run c)) (lg_chunks db) ++ [mkChunk run 0 c]) =
  if String.eqb other run then [mkChunk run 0 c] else List.filter (ofRun other) (lg_chunks db).
Proof.
  rewrite List.filter_app. destruct (String.eqb_spec other run) as [->|Hne].
  - rewrite filter_gone. cbn. unfold ofRun. cbn. by rewrite String.eqb_refl.
  - rewrite filter_other by done. cbn. unfold ofRun at 2. cbn. rewrite (proj2 (String.eqb_neq run other) (not_eq_sym Hne)). by rewrite app_nil_r.
Qed.

Lemma replace_any run s db : chunk_inv db -> storable (toCodePoints s) = true -> exists db', replaceRunLog run s db = Some db' /\ chunk_inv db' /\
  (forall other, other <> run -> runChunks other db' = runChunks other db) /\
  forall other, storedText other db' = if String.eqb other run then toCodePoints s else storedText other db.
Proof.
  intros Hinv Hs. unfold replaceRunLog. rewrite Hs. eexists. split; [reflexivity|]. set (db' := mkLogDb _ _).
  assert (chunk_inv db') as Hinv'.
  { intros other. cbn [db' lg_chunks]. rewrite replace_rows. destruct (String.eqb other run); [by repeat constructor|apply Hinv]. }
  assert (forall other, runChunks other db' = if String.eqb other run then [mkChunk run 0 (toCodePoints s)] else runChunks other db) as Hr.
  { intros other. rewrite !runChunks_rows by done. cbn [db' lg_chunks]. apply replace_rows. }
  split_and!; [done| |].
  - intros other Hne. rewrite Hr. by rewrite (proj2 (String.eqb_neq _ _) Hne).
  - intros other. unfold storedText. rewrite Hr. destruct (String.eqb other run); [cbn; by rewrite app_nil_r|done].
Qed.

Lemma write_spec w db : chunk_inv db -> chunk_inv (writeStep w db) /\
  forall run, storedText run (writeStep w db) = logAfter run w (storedText run db).
Proof.
  intros Hinv. destruct w as [r s usage|r s]; cbn [writeStep logAfter].
  - destruct (accepted s) eqn:Ea.
    + destruct (append_spec r s usage db Hinv Ea) as (db' & -> & Hinv' & Ht). split; [done|]. intros run. cbn [default id]. rewrite Ht.
      destruct (String.eqb run r); [done|]. by rewrite app_nil_r.
    + rewrite append_refused by done. split; [done|]. intros run. by rewrite andb_false_r.
  - destruct (storable (toCodePoints s)) eqn:Es.
    + destruct (replace_any r s db Hinv Es) as (db' & -> & Hinv' & _ & Ht). split; [done|]. intros run. cbn [default id]. rewrite Ht.
      by destruct (String.eqb run r).
    + unfold replaceRunLog. rewrite Es. split; [done|]. intros run. by rewrite andb_false_r.
Qed.

Lemma writes_spec ws db : chunk_inv db ->
  chunk_inv (fold_left (fun db w => writeStep w db) ws db) /\
  forall run, storedText run (fold_left (fun db w => writeStep w db) ws db) = fold_left (fun l w => logAfter run w l) ws (storedText run db).
Proof.
  revert db. induction ws as [|w ws IH]; intros db Hinv; [done|]. cbn [fold_left].
  destruct (write_spec w db Hinv) as [Hinv' Ht]. destruct (IH _ Hinv') as [H1 H2]. split; [done|]. intros run. by rewrite H2, Ht.
Qed.

(** *** Texts that are kept as they are *)

(** Units of 16 bits without NUL whose surrogates come in pairs. *)
Fixpoint paired (s : text) : bool :=
  match s with
  | [] => true
  | u :: r =>
      if isHigh u then match r with v :: r' => isLow v && paired r' | [] => false end
      else (0 <? u) && (u <? 65536) && negb (isLow u) && paired r
  end.
Definition keptText (s : text) : bool := paired s && (tlen s <=? MAX_RUN_LOG_CHUNK_CHARS).

Lemma pair_units u v : isHigh u = true -> isLow v = true -> unitsOf (65536 + (u - 55296) * 1024 + (v - 56320)) = [u; v].
Proof.
  unfold isHigh, isLow. intros Hu Hv. brefl. unfold unitsOf. rewrite (proj2 (Z.ltb_ge _ _)) by lia.
  replace (65536 + (u - 55296) * 1024 + (v - 56320) - 65536) with ((u - 55296) * 1024 + (v - 56320)) by lia.
  rewrite Z.div_add_l, Z.div_small by lia. rewrite (Z.add_comm ((u - 55296) * 1024)), Z.mod_add, Z.mod_small by lia. f_equal; [lia|]. f_equal. lia.
Qed.

Lemma paired_kept s : paired s = true -> fromCodePoints (toCodePoints s) = s /\ storable (toCodePoints s) = true.
Proof.
  assert (forall c l, storable (c :: l) = negb (0 =? c) && storable l) as Hst by (intros; unfold storable; cbn; by rewrite negb_orb).
  assert (forall c l, fromCodePoints (c :: l) = unitsOf c ++ fromCodePoints l) as Hfr by done.
  enough (forall n s, (List.length s < n)%nat -> paired s = true -> fromCodePoints (toCodePoints s) = s /\ storable (toCodePoints s) = true) as H by (apply (H (S (List.length s))); lia).
  induction n as [|n IH]; [lia|]. clear s. intros [|u r] Hl Hp; [done|]. cbn [toCodePoints paired List.length] in *. destruct (isHigh u) eqn:Hu.
  - destruct r as [|v r]; [done|]. apply andb_true_iff in Hp as [Hv Hp]. rewrite Hv, Hfr, Hst, pair_units by done.
    destruct (IH r ltac:(cbn in Hl; lia) Hp) as [-> ->]. split; [done|]. unfold isHigh, isLow in *. brefl. rewrite andb_true_r. apply negb_true_iff, Z.eqb_neq. lia.
  - destruct (isLow u); [by rewrite andb_false_r in Hp|]. rewrite andb_true_r in Hp. apply andb_true_iff in Hp as [Hr Hp].
    rewrite Hfr, Hst. destruct (IH r ltac:(lia) Hp) as [-> ->]. brefl.
    unfold unitsOf. rewrite (proj2 (Z.ltb_lt u 65536)) by lia. split; [done|]. rewrite andb_true_r. apply negb_true_iff, Z.eqb_neq. lia.
Qed.

Lemma short_chunks s : tlen s <= MAX_RUN_LOG_CHUNK_CHARS -> splitChunks s = match s with [] => [] | _ => [s] end.
Proof.
  intros H. unfold splitChunks. destruct s as [|u s]; [done|]. cbn [List.length chunkFuel].
  assert (headOf MAX_RUN_LOG_CHUNK_CHARS (u :: s) = u :: s) as -> by (unfold headOf; apply take_ge; unfold tlen in H; lia).
  assert (sliceOf MAX_RUN_LOG_CHUNK_CHARS (u :: s) = []) as -> by (unfold sliceOf; apply drop_ge; unfold tlen in H; lia). by destruct (List.length s).
Qed.

Lemma kept_sent s : keptText s = true -> accepted s = true /\ fromCodePoints (sent s) = s.
Proof.
  intros [Hp Hl%Z.leb_le]%andb_true_iff. destruct (paired_kept s Hp) as [H1 H2]. unfold accepted, sent. rewrite short_chunks by done.
  destruct s; [done|]. cbn [List.map List.concat forallb]. by rewrite app_nil_r, H2, H1.
Qed.

(** The text of a run's log after a write that is kept as it is. *)
Definition textAfter (run : string) (w : LogWrite) (s : text) : text :=
  match w with
  | WriteLog r t _ => if String.eqb run r then s ++ t else s
  | ReplaceLog r t => if String.eqb run r then t else s
  end.

Lemma kept_writes run ws l : List.Forall (fun w => keptText (writtenText w) = true) ws ->
  fromCodePoints (fold_left (fun l w => logAfter run w l) ws l) = fold_left (fun s w => textAfter run w s) ws (fromCodePoints l).
Proof.
  intros Hws. revert l. induction Hws as [|w ws Hw _ IH]; intros l; [done|]. cbn [fold_left]. rewrite IH. f_equal.
  destruct w as [r t u|r t]; cbn [logAfter textAfter writtenText] in *.
  - destruct (kept_sent t Hw) as [-> E]. rewrite andb_true_r. destruct (String.eqb run r); [|done]. by rewrite fromCodePoints_app, E.
  - apply andb_true_iff in Hw as [Hp _]. destruct (paired_kept t Hp) as [E ->]. rewrite andb_true_r. by destruct (String.eqb run r).
Qed.

Definition emptyLogs : LogDb := mkLogDb [] ∅.

(** C33. After any writes of any texts, a run's log reads back as the characters that the writes
    the database took sent, in their order: a text with a NUL is refused, and an unpaired
    surrogate is sent as a replacement. Its tail is the last units of that text, with a length
    counted in characters; and its windows followed from one to the next give all of it once,
    when it has no character beyond the basic plane. Where every text has its surrogates in
    pairs, no NUL and at most a million units, what reads back is what was written. *)
Theorem stored_log_reads_back ws run maxChars :
  let db := fold_left (fun db w => writeStep w db) ws emptyLogs in
  let l := fold_left (fun l w => logAfter run w l) ws [] in
  readRunLogText run db = fromCodePoints l /\ runLogLength run db = tlen l /\
  (0 <= maxChars -> readRunLogTail run maxChars db = Some (mkTail (lastOf maxChars (fromCodePoints l)) (tlen l) (maxChars <? tlen l))) /\
  (0 < maxChars -> List.Forall (fun c => c < 65536) l -> walkLog (S (List.length l)) run 0 maxChars db = Some (fromCodePoints l)) /\
  (List.Forall (fun w => keptText (writtenText w) = true) ws -> fromCodePoints l = fold_left (fun s w => textAfter run w s) ws []).
Proof.
  intros db l. destruct (writes_spec ws emptyLogs ltac:(intros r; constructor)) as [_ Ht]. specialize (Ht run). fold db in Ht.
  change (storedText run emptyLogs) with (@nil Z) in Ht. fold l in Ht.
  assert (readRunLogText run db = fromCodePoints l) as E by (unfold readRunLogText; by rewrite Ht).
  assert (runLogLength run db = tlen l) as El by (by rewrite length_text, Ht). split_and!; [done|done| | |].
  - intros Hm. by rewrite tail_any, E, El by done.
  - intros Hm Hb. assert (basicLog run db) as Hp by (unfold basicLog; by rewrite Ht). rewrite basic_units in E |- * by done.
    rewrite walk_spec; rewrite ?E; [done|done|done|split; [lia|apply tlen_nonneg]|unfold tlen; lia].
  - intros Hws. apply (kept_writes run ws [] Hws).
Qed.

(** *** Concrete logs *)

Lemma stored_log_reads_back_witness :
  let ws := [WriteLog "r1" (units "hello ") None; WriteLog "r2" (units "other") None; WriteLog "r1" (units "world") (Some (mkSnapshot (Some 1) None None None))] in
  let db := fold_left (fun db w => writeStep w db) ws emptyLogs in
  readRunLogText "r1" db = units "hello world" /\ readRunLogTail "r1" 4 db = Some (mkTail (units "orld") 11 true).
Proof.
  intros ws db. destruct (stored_log_reads_back ws "r1" 4) as (H1 & _ & H3 & _ & H5).
  split; [refine (eq_trans H1 (H5 _)); by repeat constructor|]. refine (eq_trans (H3 ltac:(discriminate)) _). vm_compute. reflexivity.
Defined.

(** Two faces and two letters: four characters, six units. *)
Definition demo_faces : text := [55357; 56832; 55357; 56832; 97; 98].
Definition demo_faces_db : LogDb := writeStep (WriteLog "r" demo_faces None) emptyLogs.

(** The window is measured in characters and cut in units: a log with characters beyond the
    basic plane is read as complete with its end missing. *)
Lemma window_drops_end_after_emoji :
  readRunLogText "r" demo_faces_db = demo_faces /\
  readRunLogWindow "r" 0 100 demo_faces_db = mkWindow [55357; 56832; 55357; 56832] 4 0 None.
Proof. vm_compute. done. Qed.

(** The tail is cut in units and its length counted in characters: what was cut is not
    reported as truncated. *)
Lemma tail_cut_unreported : readRunLogTail "r" 4 demo_faces_db = Some (mkTail [55357; 56832; 97; 98] 4 false).
Proof. vm_compute. done. Qed.

(** A NUL is refused by the database, so a delta that holds one is never written. *)
Lemma nul_refuses_delta s usage db : appendRunLogChunks "r" (0 :: s) usage db = None.
Proof.
  unfold appendRunLogChunks, splitChunks. cbn [List.length chunkFuel]. set (l := chunkFuel _ _).
  assert (insertChunks "r" (List.map toCodePoints (headOf MAX_RUN_LOG_CHUNK_CHARS (0 :: s) :: l)) db = None) as ->; [|by destruct usage].
  unfold insertChunks. cbn [List.map forallb]. replace (headOf MAX_RUN_LOG_CHUNK_CHARS (0 :: s)) with (0 :: headOf (MAX_RUN_LOG_CHUNK_CHARS - 1) s); [done|].
  unfold headOf. replace (Z.to_nat MAX_RUN_LOG_CHUNK_CHARS) with (S (Z.to_nat (MAX_RUN_LOG_CHUNK_CHARS - 1))) by (unfold MAX_RUN_LOG_CHUNK_CHARS; lia). done.
Qed.

(** The slices of a long text are cut at units: a pair that lies across the cut is stored as two
    replacements. *)
Lemma pair_cut_between_chunks a : plainText a -> tlen a = MAX_RUN_LOG_CHUNK_CHARS - 1 ->
  paired (a ++ [55357; 56832]) = true /\ sent (a ++ [55357; 56832]) = a ++ [REPLACEMENT; REPLACEMENT].
Proof.
  intros Ha Hl. split.
  - clear Hl. induction Ha as [|u a Hu _ IH]; [done|]. cbn [app paired].
    assert (isHigh u = false) as -> by (unfold isHigh; destruct Hu; lia). assert (isLow u = false) as -> by (unfold isLow; destruct Hu; lia).
    cbn [negb]. rewrite IH, !andb_true_r. destruct Hu; lia.
  - assert (sent (a ++ [55357; 56832]) = toCodePoints (a ++ [55357]) ++ [REPLACEMENT]) as ->.
    { unfold sent, splitChunks. rewrite length_app. cbn [List.length].
      assert (List.length a = Z.to_nat (MAX_RUN_LOG_CHUNK_CHARS - 1)) as El by (unfold tlen in Hl; lia).
      replace (List.length a + 2)%nat with (S (S (List.length a))) by lia. destruct (a ++ [55357; 56832]) as [|x r] eqn:Ea; [by destruct a|]. rewrite <- Ea. cbn [chunkFuel].
      rewrite Ea. rewrite <- Ea.
      assert (headOf MAX_RUN_LOG_CHUNK_CHARS (a ++ [55357; 56832]) = a ++ [55357]) as ->.
      { unfold headOf. rewrite take_app. rewrite take_ge by (unfold MAX_RUN_LOG_CHUNK_CHARS in *; lia).
        replace (Z.to_nat MAX_RUN_LOG_CHUNK_CHARS - List.length a)%nat with 1%nat by (unfold MAX_RUN_LOG_CHUNK_CHARS in *; lia). done. }
      assert (sliceOf MAX_RUN_LOG_CHUNK_CHARS (a ++ [55357; 56832]) = [56832]) as ->.
      { unfold sliceOf. rewrite drop_app. rewrite drop_ge by (unfold MAX_RUN_LOG_CHUNK_CHARS in *; lia).
        replace (Z.to_nat MAX_RUN_LOG_CHUNK_CHARS - List.length a)%nat with 1%nat by (unfold MAX_RUN_LOG_CHUNK_CHARS in *; lia). done. }
      destruct (List.length a); done. }
    rewrite (plain_prefix a [55357] Ha). by rewrite <- app_assoc.
Qed.
