(* ===== verification/LogStreams.v ===== *)
(** * Live log streams

    A model of [packages/server/src/services/log-stream-broker.ts] with the persistence callback
    of [agent-runner.ts], which appends the delta to the run's stored log ([RunLogChunks.v]).
    Entries live in a heap, since a replaced stream's callbacks keep the entry they closed over.
    A flush is cut where it waits: called, started, settled and its caller resumed; timers fire
    at any time. The frames sent to a room are kept in order, each with the entry it is of, and
    so are the texts the store took of each run, which no operation reads. The log lines of the
    server itself are left out. *)
From Stdlib Require Import ZArith Lia Ascii String List Bool.
From stdpp Require Import base list strings gmap option.
From S2P Require Import Prelude JsString JsNumber JsonText LogBuffer RunLogChunks.

Open Scope string_scope.
Open Scope list_scope.
Open Scope Z_scope.

Definition DEFAULT_CAP_BYTES : Z := 10000000.
Definition MAX_PENDING_BROADCAST_LINES : Z := 500.
Definition REPLAY_TAIL_CHARS : Z := 256 * 1024.
Definition REPLAY_TRIM_NOTICE : text :=
  units "...[earlier output trimmed " ++ [8212] ++ units " open the run to see the full log]".

(** ** Where deltas go *)

(** What a stream needs of the store it flushes to: a write adds the delta at the end of the
    stream's text, or fails and changes nothing. *)
Class LogSink (D : Type) := {
  sinkWrite : string -> text -> D -> option D;
  sinkText : string -> D -> text;
  sinkInv : D -> Prop;
}.
Class LogSinkLaws (D : Type) `{!LogSink D} : Prop := {
  sink_write : forall id s d d', sinkInv d -> sinkWrite id s d = Some d' ->
    sinkInv d' /\ forall other, sinkText other d' = if String.eqb other id then sinkText other d ++ s else sinkText other d;
}.

(** The stored logs of runs. A run reports its usage with its log when it moved since the last
    write: [ro_current] is the snapshot of each run that has one, [ro_last] the snapshot each
    run last stored. *)
Record RunOutput := mkRunOutput { ro_logs : LogDb; ro_current : gmap string RunUsageSnapshot; ro_last : gmap string (option RunUsageSnapshot) }.
#[export] Instance RunUsageSnapshot_eq_dec : EqDecision RunUsageSnapshot.
Proof. solve_decision. Defined.

Definition runOnFlush (run : string) (delta : text) (o : RunOutput) : option RunOutput :=
  let snapshot := ro_current o !! run in
  if isEmptyText delta && bool_decide (snapshot = None) then Some o
  else
    let moved := bool_decide (ro_last o !! run <> Some snapshot) in
    if isEmptyText delta && negb moved then Some o
    else
      db ← appendRunLogChunks run delta (if moved then snapshot else None) (ro_logs o);
      Some (mkRunOutput db (ro_current o) (if moved then <[run := snapshot]> (ro_last o) else ro_last o)).

(** The texts the store has taken of each run, in their order, beside the store itself. They are
    in no table: they say what was written whatever the database makes of its units. *)
Record TakenOutput := mkTaken { to_out : RunOutput; to_deltas : gmap string (list text) }.
Definition deltasOf (run : string) (o : TakenOutput) : list text := default [] (to_deltas o !! run).

#[export] Instance takenSink : LogSink TakenOutput := {|
  sinkWrite := fun (run : string) (delta : text) (o : TakenOutput) =>
    out ← runOnFlush run delta (to_out o);
    Some (mkTaken out (<[run := deltasOf run o ++ [delta]]> (to_deltas o)));
  sinkText := fun run o => List.concat (deltasOf run o);
  sinkInv := fun o => chunk_inv (ro_logs (to_out o)) /\
    forall run, storedText run (ro_logs (to_out o)) = List.concat (List.map sent (deltasOf run o));
|}.

Lemma runOnFlush_stored run s o o' : chunk_inv (ro_logs o) -> runOnFlush run s o = Some o' -> chunk_inv (ro_logs o') /\
  forall other, storedText other (ro_logs o') = storedText other (ro_logs o) ++ (if String.eqb other run then sent s else []).
Proof.
  intros Hd. assert (isEmptyText s = true -> chunk_inv (ro_logs o) /\ forall other, storedText other (ro_logs o) =
    storedText other (ro_logs o) ++ (if String.eqb other run then sent s else [])) as Hnil.
  { intros He. split; [done|]. intros other. destruct s; [|done]. by destruct (String.eqb other run); rewrite app_nil_r. }
  unfold runOnFlush. destruct (isEmptyText s && bool_decide (ro_current o !! run = None)) eqn:E1.
  { apply andb_true_iff in E1 as [E1 _]. intros [= <-]. auto. }
  destruct (isEmptyText s && negb (bool_decide (ro_last o !! run <> Some (ro_current o !! run)))) eqn:E2.
  { apply andb_true_iff in E2 as [E2 _]. intros [= <-]. auto. }
  set (usage := if bool_decide (ro_last o !! run <> Some (ro_current o !! run)) then ro_current o !! run else None).
  destruct (accepted s) eqn:Ea; [|by rewrite append_refused].
  destruct (append_spec run s usage _ Hd Ea) as (db & -> & Hinv & Ht). cbn [mbind option_bind]. intros [= <-]. by split.
Qed.

Lemma runOnFlush_accepts run s o : chunk_inv (ro_logs o) -> accepted s = true -> exists o', runOnFlush run s o = Some o'.
Proof.
  intros Hd Ha. unfold runOnFlush. destruct (_ && _); [eauto|]. destruct (_ && _); [eauto|].
  destruct (append_spec run s (if bool_decide (ro_last o !! run <> Some (ro_current o !! run)) then ro_current o !! run else None) _ Hd Ha)
    as (db & -> & _). cbn. eauto.
Qed.

#[export] Instance takenSink_laws : LogSinkLaws TakenOutput.
Proof.
  split; cbn. intros run s o o' [Hc Hs] Hw. destruct (runOnFlush run s (to_out o)) as [out|] eqn:E; [|done]. cbn in Hw. injection Hw as <-.
  destruct (runOnFlush_stored run s _ _ Hc E) as [Hc' Hs'].
  assert (forall other, deltasOf other (mkTaken out (<[run := deltasOf run o ++ [s]]> (to_deltas o))) =
    if String.eqb other run then deltasOf other o ++ [s] else deltasOf other o) as Hd.
  { intros other. unfold deltasOf at 1. cbn [to_deltas]. destruct (String.eqb_spec other run) as [->|Hne]; [by rewrite lookup_insert_eq|].
    by rewrite lookup_insert_ne. }
  split; [split; [done|]|]; intros other; rewrite Hd.
  - cbn [to_out]. rewrite Hs', Hs. destruct (String.eqb other run); [|by rewrite app_nil_r].
    by rewrite List.map_app, concat_app; cbn; rewrite app_nil_r.
  - destruct (String.eqb other run); [|done]. by rewrite concat_app; cbn; rewrite app_nil_r.
Qed.

(** ** The state *)

Record LogStreamConfig := mkConfig { cf_streamId : string; cf_room : string; cf_onFlush : bool; cf_cap : option Z }.

Inductive FlushCaller := ByTimer | ByEnd.

(** [fl_chain] are the calls whose turn has not come, [fl_running] the one that awaits its
    write, with its delta and the length it covers, [fl_resumes] the callers about to resume. *)
Record FlushState := mkFlush {
  fl_dirty : bool; fl_timer : bool; fl_persisted : Z; fl_chain : list FlushCaller; fl_running : option (FlushCaller * text * Z);
  fl_resumes : list FlushCaller
}.
Record CastState := mkCast { ca_pending : list (LogStream * list text); ca_lines : Z; ca_timer : bool }.
Record LogStreamEntry := mkEntry {
  en_config : LogStreamConfig; en_buffer : CappedLogBuffer; en_ended : bool; en_flush : FlushState; en_cast : CastState
}.

Definition setFlush (f : FlushState) (e : LogStreamEntry) : LogStreamEntry := mkEntry (en_config e) (en_buffer e) (en_ended e) f (en_cast e).
Definition setCast (c : CastState) (e : LogStreamEntry) : LogStreamEntry := mkEntry (en_config e) (en_buffer e) (en_ended e) (en_flush e) c.
Definition setBuffer (b : CappedLogBuffer) (e : LogStreamEntry) : LogStreamEntry := mkEntry (en_config e) b (en_ended e) (en_flush e) (en_cast e).

Definition newEntry (c : LogStreamConfig) : LogStreamEntry :=
  mkEntry c (newBuffer (default DEFAULT_CAP_BYTES (cf_cap c))) false (mkFlush false false 0 [] None []) (mkCast [] 0 false).

(** A frame: the entry it is of, its stream and its text. *)
Definition Frame : Type := nat * LogStream * text.

Section Broker.
Context {D : Type} `{!LogSink D}.

Record Broker := mkBroker {
  br_ws : bool; br_entries : list LogStreamEntry; br_streams : gmap string nat; br_rooms : gmap string (list string); br_sent : list Frame; br_db : D
}.

Definition setEntry (i : nat) (e : LogStreamEntry) (b : Broker) : Broker :=
  mkBroker (br_ws b) (<[i := e]> (br_entries b)) (br_streams b) (br_rooms b) (br_sent b) (br_db b).
Definition send (l : list Frame) (b : Broker) : Broker :=
  mkBroker (br_ws b) (br_entries b) (br_streams b) (br_rooms b) (br_sent b ++ l) (br_db b).
Definition setMaps (streams : gmap string nat) (rooms : gmap string (list string)) (b : Broker) : Broker :=
  mkBroker (br_ws b) (br_entries b) streams rooms (br_sent b) (br_db b).

Definition withoutStream (room streamId : string) (rooms : gmap string (list string)) : gmap string (list string) :=
  match rooms !! room with
  | None => rooms
  | Some l => let l' := List.filter (fun x => negb (String.eqb x streamId)) l in
              match l' with [] => delete room rooms | _ => <[room := l']> rooms end
  end.

(** ** Broadcasts *)

(** The frames of an entry's pending groups, and the entry without them. *)
Definition flushBroadcast (ws : bool) (i : nat) (e : LogStreamEntry) : LogStreamEntry * list Frame :=
  match ca_pending (en_cast e) with
  | [] => (setCast (mkCast [] (ca_lines (en_cast e)) false) e, [])
  | groups => (setCast (mkCast [] 0 false) e, if ws then List.map (fun g => (i, fst g, joinLines (snd g))) groups else [])
  end.

Definition addPending (stream : LogStream) (s : text) (groups : list (LogStream * list text)) : list (LogStream * list text) :=
  match rev groups with
  | (st, lines) :: before => if bool_decide (st = stream) then rev before ++ [(st, lines ++ [s])] else groups ++ [(stream, [s])]
  | [] => [(stream, [s])]
  end.

Definition queueBroadcast (ws : bool) (i : nat) (stream : LogStream) (s : text) (e : LogStreamEntry) : LogStreamEntry * list Frame :=
  if negb ws then (e, [])
  else
    let c := en_cast e in
    let lines := ca_lines c + 1 in
    let e := setCast (mkCast (addPending stream s (ca_pending c)) lines (ca_timer c)) e in
    if MAX_PENDING_BROADCAST_LINES <=? lines then flushBroadcast ws i e
    else (setCast (mkCast (ca_pending (en_cast e)) lines true) e, []).

(** ** Flushes *)

Definition scheduleFlush (e : LogStreamEntry) : LogStreamEntry :=
  let f := en_flush e in
  if fl_timer f || negb (cf_onFlush (en_config e)) then e
  else setFlush (mkFlush (fl_dirty f) true (fl_persisted f) (fl_chain f) (fl_running f) (fl_resumes f)) e.

Definition flushDelta (caller : FlushCaller) (e : LogStreamEntry) : LogStreamEntry :=
  let f := en_flush e in
  setFlush (mkFlush (fl_dirty f) (fl_timer f) (fl_persisted f) (fl_chain f ++ [caller]) (fl_running f) (fl_resumes f)) e.

(** The next call in the chain takes its turn. *)
Definition startFlush (e : LogStreamEntry) : LogStreamEntry :=
  let f := en_flush e in
  match fl_running f, fl_chain f with
  | None, caller :: chain =>
      if negb (fl_dirty f) || negb (cf_onFlush (en_config e))
      then setFlush (mkFlush (fl_dirty f) (fl_timer f) (fl_persisted f) chain None (fl_resumes f ++ [caller])) e
      else setFlush (mkFlush false (fl_timer f) (fl_persisted f) chain
                       (Some (caller, sliceFrom (fl_persisted f) (en_buffer e), bufferLength (en_buffer e))) (fl_resumes f)) e
  | _, _ => e
  end.

(** Its write ends. *)
Definition settleFlush (ok : bool) (i : nat) (e : LogStreamEntry) (b : Broker) : Broker :=
  let f := en_flush e in
  match fl_running f with
  | None => b
  | Some (caller, delta, length) =>
      match (if ok then sinkWrite (cf_streamId (en_config e)) delta (br_db b) else None) with
      | Some db =>
          let b := setEntry i (setFlush (mkFlush (fl_dirty f) (fl_timer f) length (fl_chain f) None (fl_resumes f ++ [caller])) e) b in
          mkBroker (br_ws b) (br_entries b) (br_streams b) (br_rooms b) (br_sent b) db
      | None => setEntry i (setFlush (mkFlush true (fl_timer f) (fl_persisted f) (fl_chain f) None (fl_resumes f ++ [caller])) e) b
      end
  end.

(** The caller that awaited it goes on. *)
Definition resumeCaller (i : nat) (e : LogStreamEntry) (b : Broker) : Broker :=
  let f := en_flush e in
  match fl_resumes f with
  | [] => b
  | caller :: rest =>
      let e := setFlush (mkFlush (fl_dirty f) (fl_timer f) (fl_persisted f) (fl_chain f) (fl_running f) rest) e in
      match caller with
      | ByTimer => setEntry i (if fl_dirty f && negb (en_ended e) then scheduleFlush e else e) b
      | ByEnd =>
          let c := en_config e in
          setMaps (delete (cf_streamId c) (br_streams b)) (withoutStream (cf_room c) (cf_streamId c) (br_rooms b)) (setEntry i e b)
      end
  end.

(** ** Operations *)

Definition clearTimers (e : LogStreamEntry) : LogStreamEntry :=
  let f := en_flush e in let c := en_cast e in
  setCast (mkCast (ca_pending c) (ca_lines c) false)
    (setFlush (mkFlush (fl_dirty f) false (fl_persisted f) (fl_chain f) (fl_running f) (fl_resumes f)) e).

Definition addStream (room streamId : string) (rooms : gmap string (list string)) : gmap string (list string) :=
  let l := default [] (rooms !! room) in
  <[room := if bool_decide (streamId ∈ l) then l else l ++ [streamId]]> rooms.

Definition begin (c : LogStreamConfig) (b : Broker) : Broker :=
  let b := match br_streams b !! cf_streamId c with
           | None => b
           | Some i => match br_entries b !! i with
                       | None => b
                       | Some e => setMaps (br_streams b) (withoutStream (cf_room (en_config e)) (cf_streamId c) (br_rooms b)) (setEntry i (clearTimers e) b)
                       end
           end in
  mkBroker (br_ws b) (br_entries b ++ [newEntry c]) (<[cf_streamId c := List.length (br_entries b)]> (br_streams b))
    (addStream (cf_room c) (cf_streamId c) (br_rooms b)) (br_sent b) (br_db b).

Fixpoint emitLines (ws : bool) (i : nat) (stream : LogStream) (lines : list text) (e : LogStreamEntry) : LogStreamEntry * list Frame :=
  match lines with
  | [] => (e, [])
  | s :: lines =>
      let wasTruncated := lb_truncated (en_buffer e) in
      let e := setBuffer (append stream s (en_buffer e)) e in
      let '(e, frames) := match wasTruncated with None => queueBroadcast ws i stream s e | Some _ => (e, []) end in
      let '(e, more) := emitLines ws i stream lines e in
      (e, frames ++ more)
  end.

Definition markDirty (e : LogStreamEntry) : LogStreamEntry :=
  if cf_onFlush (en_config e) then
    let f := en_flush e in
    scheduleFlush (setFlush (mkFlush true (fl_timer f) (fl_persisted f) (fl_chain f) (fl_running f) (fl_resumes f)) e)
  else e.

Definition withStream (streamId : string) (k : nat -> LogStreamEntry -> Broker -> Broker) (b : Broker) : Broker :=
  match br_streams b !! streamId with
  | None => b
  | Some i => match br_entries b !! i with Some e => k i e b | None => b end
  end.

Definition emit (streamId : string) (stream : LogStream) (s : text) (b : Broker) : Broker :=
  withStream streamId (fun i e b =>
    if en_ended e then b
    else match splitLogLines s with
         | [] => b
         | lines => let '(e, frames) := emitLines (br_ws b) i stream lines e in send frames (setEntry i (markDirty e) b)
         end) b.

Definition endStream (streamId : string) (b : Broker) : Broker :=
  withStream streamId (fun i e b =>
    let f := en_flush e in
    let e := mkEntry (en_config e) (en_buffer e) true (mkFlush (fl_dirty f) false (fl_persisted f) (fl_chain f) (fl_running f) (fl_resumes f)) (en_cast e) in
    let '(e, frames) := flushBroadcast (br_ws b) i e in
    send frames (setEntry i (flushDelta ByEnd e) b)) b.

(** [tail.indexOf('\n')]. *)
Fixpoint firstBreak (s : text) : option nat :=
  match s with
  | [] => None
  | c :: s => if c =? LF then Some O else S <$> firstBreak s
  end.

Definition snapshotText (e : LogStreamEntry) : text :=
  let total := bufferLength (en_buffer e) in
  if total <=? REPLAY_TAIL_CHARS then bufferText (en_buffer e)
  else
    let tail := sliceFrom (total - REPLAY_TAIL_CHARS) (en_buffer e) in
    REPLAY_TRIM_NOTICE ++ LF :: match firstBreak tail with None => tail | Some n => drop (S n) tail end.

(** A new subscriber of a room: what is queued goes out first, then a snapshot of each stream. *)
Fixpoint replayStreams (ids : list string) (b : Broker) : Broker * list (nat * text * bool) :=
  match ids with
  | [] => (b, [])
  | id :: ids =>
      match br_streams b !! id with
      | None => replayStreams ids b
      | Some i =>
          match br_entries b !! i with
          | None => replayStreams ids b
          | Some e =>
              let '(e, frames) := flushBroadcast (br_ws b) i e in
              let snapshot := (i, snapshotText e, REPLAY_TAIL_CHARS <? bufferLength (en_buffer e)) in
              let e := if bufferLength (en_buffer e) <=? REPLAY_TAIL_CHARS then setBuffer (memoize (en_buffer e)) e else e in
              let '(b, l) := replayStreams ids (send frames (setEntry i e b)) in
              (b, snapshot :: l)
          end
      end
  end.
Definition replay (room : string) (b : Broker) : Broker * list (nat * text * bool) := replayStreams (default [] (br_rooms b !! room)) b.

Definition getLogText (streamId : string) (b : Broker) : text :=
  match br_streams b !! streamId with
  | Some i => match br_entries b !! i with Some e => bufferText (en_buffer e) | None => [] end
  | None => []
  end.
Definition isActive (streamId : string) (b : Broker) : bool :=
  match br_streams b !! streamId with
  | Some i => match br_entries b !! i with Some e => negb (en_ended e) | None => false end
  | None => false
  end.

Inductive BrokerEvent :=
| Begin (c : LogStreamConfig)
| Emit (streamId : string) (stream : LogStream) (s : text)
| Replay (room : string)
| EndStream (streamId : string)
| FlushTimer (i : nat)
| CastTimer (i : nat)
| FlushStarts (i : nat)
| FlushSettles (i : nat) (ok : bool)
| CallerResumes (i : nat).

Definition onEntry (i : nat) (k : LogStreamEntry -> Broker -> Broker) (b : Broker) : Broker :=
  match br_entries b !! i with Some e => k e b | None => b end.

(** [performFlush], when its timer was not cleared. *)
Definition flushTimerFires (e : LogStreamEntry) : LogStreamEntry :=
  let f := en_flush e in
  if fl_timer f then
    let e := setFlush (mkFlush (fl_dirty f) false (fl_persisted f) (fl_chain f) (fl_running f) (fl_resumes f)) e in
    if en_ended e then e else flushDelta ByTimer e
  else e.

Definition brokerStep (b : Broker) (ev : BrokerEvent) : Broker :=
  match ev with
  | Begin c => begin c b
  | Emit id stream s => emit id stream s b
  | Replay room => fst (replay room b)
  | EndStream id => endStream id b
  | FlushTimer i => onEntry i (fun e => setEntry i (flushTimerFires e)) b
  | CastTimer i => onEntry i (fun e b => if ca_timer (en_cast e) then let '(e, frames) := flushBroadcast (br_ws b) i e in send frames (setEntry i e b) else b) b
  | FlushStarts i => onEntry i (fun e => setEntry i (startFlush e)) b
  | FlushSettles i ok => onEntry i (settleFlush ok i) b
  | CallerResumes i => onEntry i (resumeCaller i) b
  end.
End Broker.
Arguments Broker : clear implicits.

(** ** What is flushed *)

Section Flushing.
Context {D : Type} `{!LogSink D} `{!LogSinkLaws D}.

Definition entryText (e : LogStreamEntry) : text := bufferText (en_buffer e).
Definition entryId (e : LogStreamEntry) : string := cf_streamId (en_config e).
Definition flushes (e : LogStreamEntry) : bool := cf_onFlush (en_config e).

Record flush_inv (t stored : text) (on : bool) (f : FlushState) : Prop := {
  fi_stored : on = true -> stored = headOf (fl_persisted f) t;
  fi_range : 0 <= fl_persisted f <= tlen t;
  fi_running : forall c delta len, fl_running f = Some (c, delta, len) ->
    on = true /\ fl_persisted f <= len <= tlen t /\ delta = sliceUnits (fl_persisted f) len t;
  fi_clean : on = true -> fl_dirty f = false ->
    match fl_running f with None => fl_persisted f = tlen t | Some (_, _, len) => len = tlen t end;
}.

Record entry_inv (d : D) (e : LogStreamEntry) : Prop := {
  ei_buffer : buffer_inv (en_buffer e);
  ei_flush : flush_inv (entryText e) (sinkText (entryId e) d) (flushes e) (en_flush e);
}.

Lemma headOf_prefix n s t : s `prefix_of` t -> n <= tlen s -> headOf n t = headOf n s.
Proof. intros [k ->] H. rewrite headOf_app. rewrite (headOf_neg (n - tlen s)) by lia. apply app_nil_r. Qed.
Lemma sliceUnits_prefix from to s t : s `prefix_of` t -> 0 <= from <= to -> to <= tlen s -> sliceUnits from to t = sliceUnits from to s.
Proof.
  intros [k ->] H1 H2. unfold sliceUnits. rewrite sliceOf_app by lia. apply headOf_prefix; [by eexists|].
  unfold tlen, sliceOf in *. rewrite length_drop. lia.
Qed.
Lemma headOf_slice from to s : 0 <= from <= to -> headOf from s ++ sliceUnits from to s = headOf to s.
Proof.
  intros H. unfold sliceUnits, headOf, sliceOf. rewrite take_take_drop. f_equal. lia.
Qed.

(** The text grows: what was stored and what is being written stay what they were. *)
Lemma flush_grow t t' stored on f : t `prefix_of` t' -> flush_inv t stored on f ->
  flush_inv t' stored on (mkFlush true (fl_timer f) (fl_persisted f) (fl_chain f) (fl_running f) (fl_resumes f)).
Proof.
  intros Hp [H1 H2 H3 H4]. assert (tlen t <= tlen t') as Hlen by (destruct Hp as [k ->]; rewrite tlen_app; pose proof (tlen_nonneg k); lia).
  split; cbn [fl_dirty fl_persisted fl_running]; [|lia| |done].
  - intros Hon. rewrite (headOf_prefix _ t t') by (done || lia). by apply H1.
  - intros c delta len E. destruct (H3 c delta len E) as (Hon & Hr & ->). split_and!; [done|lia|lia|].
    symmetry. apply sliceUnits_prefix; [done|lia|lia].
Qed.

(** Steps that write neither the text nor what is persisted of it. *)
Lemma flush_same t stored on f f' : fl_dirty f' = fl_dirty f -> fl_persisted f' = fl_persisted f -> fl_running f' = fl_running f ->
  flush_inv t stored on f -> flush_inv t stored on f'.
Proof. intros E1 E2 E3 [H1 H2 H3 H4]. split; rewrite ?E1, ?E2, ?E3; done. Qed.

Lemma flush_start e d : entry_inv d e -> flush_inv (entryText e) (sinkText (entryId e) d) (flushes e) (en_flush (startFlush e)).
Proof.
  intros [Hb Hf]. unfold startFlush. destruct (fl_running (en_flush e)) as [r|] eqn:Er; [done|].
  destruct (fl_chain (en_flush e)) as [|caller chain]; [done|]. destruct (negb (fl_dirty _) || negb _) eqn:Eb.
  - eapply flush_same; [..|exact Hf]; cbn; congruence.
  - apply orb_false_iff in Eb as [Ed Eo]. apply negb_false_iff in Ed, Eo. destruct Hf as [H1 H2 H3 H4].
    split; cbn [setFlush en_flush fl_persisted fl_running fl_dirty]; [done|done| |].
    + intros c delta len [= _ <- <-]. rewrite bufferLength_spec, sliceFrom_slices by done. fold (entryText e). split_and!; [done|lia|lia|].
      unfold sliceUnits, headOf. symmetry. apply take_ge. unfold sliceOf, tlen. rewrite length_drop. lia.
    + intros _ _. by apply bufferLength_spec.
Qed.

Record broker_inv (b : Broker D) : Prop := {
  bk_db : sinkInv (br_db b);
  bk_entries : forall i e, br_entries b !! i = Some e -> entry_inv (br_db b) e;
  bk_owner : forall i j e e', br_entries b !! i = Some e -> br_entries b !! j = Some e' -> flushes e = true -> flushes e' = true ->
    entryId e = entryId e' -> i = j;
}.

(** A step that changes one entry, with its configuration kept. *)
Lemma broker_change i e e' b b' : broker_inv b -> br_entries b !! i = Some e -> en_config e' = en_config e -> br_entries b' = <[i := e']> (br_entries b) ->
  sinkInv (br_db b') -> entry_inv (br_db b') e' ->
  (forall id, (flushes e = true -> id <> entryId e) -> sinkText id (br_db b') = sinkText id (br_db b)) -> broker_inv b'.
Proof.
  intros [H1 H2 H3] Hi Hc He Hdb He' Hother. assert (forall j x, br_entries b' !! j = Some x -> exists y, br_entries b !! j = Some y /\ en_config x = en_config y) as Hold.
  { intros j x. rewrite He. intros [(<- & <- & _)|[_ Hj]]%list_lookup_insert_Some; [by exists e|by exists x]. }
  split; [done| |].
  - intros j x Hx. rewrite He in Hx. apply list_lookup_insert_Some in Hx as [(_ & <- & _)|[Hne Hx]]; [done|].
    destruct (H2 j x Hx) as [Hb Hf]. split; [done|]. destruct Hf as [F1 F2 F3 F4]. split; try done.
    intros Hon. rewrite Hother; [by apply F1|]. intros Hon' E. apply Hne. by apply (H3 i j e x).
  - intros j k x y Hj Hk Hx Hy E. destruct (Hold j x Hj) as (x' & Hj' & Ex). destruct (Hold k y Hk) as (y' & Hk' & Ey).
    apply (H3 j k x' y'); try done; unfold flushes, entryId in *; by rewrite <- ?Ex, <- ?Ey.
Qed.

Lemma broker_local i e e' b b' : broker_inv b -> br_entries b !! i = Some e -> en_config e' = en_config e ->
  br_entries b' = <[i := e']> (br_entries b) -> br_db b' = br_db b ->
  buffer_inv (en_buffer e') ->
  flush_inv (entryText e') (sinkText (entryId e) (br_db b)) (flushes e) (en_flush e') -> broker_inv b'.
Proof.
  intros Hb Hi Hc He Hdb H1 H3. apply (broker_change i e e' b b'); try done; rewrite ?Hdb; [apply Hb| |done].
  unfold entryId, flushes in H3. rewrite <- Hc in H3. by split.
Qed.

(** Entries that differ in what is to be broadcast only. *)
Definition sameLog (e e' : LogStreamEntry) : Prop := en_config e' = en_config e /\ en_buffer e' = en_buffer e /\ en_flush e' = en_flush e /\ en_ended e' = en_ended e.

Lemma flushBroadcast_keeps ws i e : sameLog e (fst (flushBroadcast ws i e)).
Proof. unfold flushBroadcast. by destruct (ca_pending (en_cast e)). Qed.
Lemma queueBroadcast_keeps ws i stream s e : sameLog e (fst (queueBroadcast ws i stream s e)).
Proof.
  unfold queueBroadcast. destruct (negb ws); [done|]. destruct (_ <=? _); [|done]. by destruct (flushBroadcast_keeps ws i
    (setCast (mkCast (addPending stream s (ca_pending (en_cast e))) (ca_lines (en_cast e) + 1) (ca_timer (en_cast e))) e)) as (? & ? & ? & ?).
Qed.

Lemma emitLines_spec ws i stream lines e : buffer_inv (en_buffer e) -> let e' := fst (emitLines ws i stream lines e) in
  en_config e' = en_config e /\ en_flush e' = en_flush e /\ en_ended e' = en_ended e /\ buffer_inv (en_buffer e') /\
  entryText e `prefix_of` entryText e'.
Proof.
  revert e. induction lines as [|s lines IH]; intros e Hb; [done|]. cbn [emitLines].
  set (e1 := setBuffer (append stream s (en_buffer e)) e). set (q := match lb_truncated (en_buffer e) with None => _ | Some _ => _ end).
  assert (sameLog e1 (fst q)) as (K1 & K2 & K3 & K4).
  { unfold q. destruct (lb_truncated (en_buffer e)); [done|]. apply queueBroadcast_keeps. }
  cbn [e1 setBuffer en_config en_buffer en_flush en_ended] in K1, K2, K3, K4. clearbody q.
  destruct q as [e2 frames]. cbn [fst] in *. specialize (IH e2). rewrite K2 in IH.
  destruct (IH (append_inv stream s _ Hb)) as (I1 & I2 & I3 & I4 & I6).
  destruct (emitLines ws i stream lines e2) as [e3 more]. cbn [fst] in *. split_and!; [congruence|congruence|congruence|done|].
  etransitivity; [|exact I6]. unfold entryText. rewrite K2. by apply append_text.
Qed.

(** A stream that is flushed has a log of its own, empty when it begins. *)
Definition freshStream (b : Broker D) (ev : BrokerEvent) : Prop :=
  match ev with
  | Begin c => cf_onFlush c = true -> sinkText (cf_streamId c) (br_db b) = [] /\
                 forall e, In e (br_entries b) -> flushes e = true -> entryId e <> cf_streamId c
  | _ => True
  end.

Lemma schedule_flush e : en_config (scheduleFlush e) = en_config e /\ en_buffer (scheduleFlush e) = en_buffer e /\
  fl_dirty (en_flush (scheduleFlush e)) = fl_dirty (en_flush e) /\ fl_persisted (en_flush (scheduleFlush e)) = fl_persisted (en_flush e) /\
  fl_running (en_flush (scheduleFlush e)) = fl_running (en_flush e).
Proof. unfold scheduleFlush. by destruct (_ || _). Qed.

Lemma emit_inv id stream s b : broker_inv b -> broker_inv (emit id stream s b).
Proof.
  intros Hb. unfold emit, withStream. destruct (br_streams b !! id) as [i|]; [|done]. destruct (br_entries b !! i) as [e|] eqn:Hi; [|done].
  destruct (en_ended e); [done|]. destruct (splitLogLines s) as [|l0 lines] eqn:El; [done|]. rewrite <- El.
  destruct (bk_entries b Hb i e Hi) as [H1 H3].
  destruct (emitLines_spec (br_ws b) i stream (splitLogLines s) e H1) as (E1 & E2 & E3 & E4 & E6).
  destruct (emitLines _ _ _ _ _) as [e' frames]. cbn [fst] in *.
  assert (en_config (markDirty e') = en_config e' /\ en_buffer (markDirty e') = en_buffer e' /\
    flush_inv (entryText e') (sinkText (entryId e) (br_db b)) (flushes e) (en_flush (markDirty e'))) as (M1 & M2 & M3).
  { unfold markDirty. destruct (cf_onFlush (en_config e')) eqn:Eo.
    - set (e2 := setFlush _ e'). destruct (schedule_flush e2) as (S1 & S2 & S3 & S4 & S5). split_and!; [done|done|].
      eapply flush_same; [exact S3|exact S4|exact S5|]. cbn [e2 setFlush en_flush]. rewrite E2. by apply (flush_grow (entryText e)).
    - split_and!; [done|done|]. rewrite E2. destruct (flush_grow _ _ _ _ _ E6 H3) as [F1 F2 F3 F4].
      unfold flushes in *. rewrite <- E1, Eo in *. by split. }
  apply (broker_local i e (markDirty e') b); try done; rewrite ?M1, ?M2; try done.
  unfold entryText. rewrite M2. done.
Qed.

(** An entry put back with its log as it was. *)
Lemma keep_inv i e e' b b' : broker_inv b -> br_entries b !! i = Some e -> br_entries b' = <[i := e']> (br_entries b) -> br_db b' = br_db b ->
  en_config e' = en_config e -> en_buffer e' = en_buffer e -> fl_dirty (en_flush e') = fl_dirty (en_flush e) ->
  fl_persisted (en_flush e') = fl_persisted (en_flush e) -> fl_running (en_flush e') = fl_running (en_flush e) -> broker_inv b'.
Proof.
  intros Hb Hi He Hdb Hc Hbu F1 F2 F3. destruct (bk_entries b Hb i e Hi) as [H1 H3].
  apply (broker_local i e e' b b'); try done; rewrite ?Hbu; try done. unfold entryText. rewrite Hbu. by eapply flush_same.
Qed.

Lemma begin_inv c b : broker_inv b -> freshStream b (Begin c) -> broker_inv (begin c b).
Proof.
  intros Hb Hf. unfold begin. set (b1 := match br_streams b !! _ with None => b | Some _ => _ end).
  assert (broker_inv b1 /\ br_db b1 = br_db b /\ List.map en_config (br_entries b1) = List.map en_config (br_entries b)) as (Hb1 & Hdb & Hcf).
  { unfold b1. destruct (br_streams b !! _) as [i|]; [|done]. destruct (br_entries b !! i) as [e|] eqn:Hi; [|done]. split_and!.
    - by apply (keep_inv i e (clearTimers e) b).
    - done.
    - cbn [setMaps setEntry br_entries]. by apply (map_insert_same _ _ i e). }
  clearbody b1. destruct Hb1 as [H1 H2 H3].
  assert (forall i e, (br_entries b1 ++ [newEntry c]) !! i = Some e -> br_entries b1 !! i = Some e \/ (i = List.length (br_entries b1) /\ e = newEntry c)) as Hcase.
  { intros i e [[_ H]|[-> <-]]%lookup_snoc_Some; [by left|by right]. }
  assert (forall i e, br_entries b1 !! i = Some e -> flushes e = true -> cf_onFlush c = true -> entryId e <> cf_streamId c) as Hold.
  { intros i e Hi He Hc. assert (In (en_config e) (List.map en_config (br_entries b))) as (e' & E & Hin)%in_map_iff.
    { rewrite <- Hcf. apply in_map. apply list_elem_of_In. by eapply list_elem_of_lookup_2. }
    destruct (Hf Hc) as [_ H]. unfold entryId, flushes in *. rewrite <- E in *. by apply H. }
  split; cbn [br_db br_entries]; [done| |].
  - intros i e [Hi|[-> ->]]%Hcase; [by apply (H2 i)|]. split; [apply newBuffer_inv|]. split; cbn [newEntry en_flush fl_persisted fl_running fl_dirty]; try done.
    intros Hc. rewrite Hdb. destruct (Hf Hc) as [E _]. exact E.
  - intros i j e e' [Hi|[-> ->]]%Hcase [Hj|[-> ->]]%Hcase He He' E; [by apply (H3 i j e e')| | |done].
    + by destruct (Hold i e Hi He He').
    + by destruct (Hold j e' Hj He' He).
Qed.

Lemma replay_inv ids b : broker_inv b -> broker_inv (fst (replayStreams ids b)).
Proof.
  revert b. induction ids as [|id ids IH]; intros b Hb; [done|]. cbn [replayStreams]. destruct (br_streams b !! id) as [i|]; [|by apply IH].
  destruct (br_entries b !! i) as [e|] eqn:Hi; [|by apply IH]. pose proof (flushBroadcast_keeps (br_ws b) i e) as (K1 & K2 & K3 & K4).
  destruct (flushBroadcast _ _ _) as [e1 frames]. cbn [fst] in *. set (e2 := if _ <=? _ then _ else _).
  specialize (IH (send frames (setEntry i e2 b))). destruct (replayStreams ids _) as [b' l]. apply IH.
  destruct (bk_entries b Hb i e Hi) as [H1 H3].
  assert (en_config e2 = en_config e /\ en_flush e2 = en_flush e /\ (en_buffer e2 = en_buffer e \/ en_buffer e2 = memoize (en_buffer e))) as (L1 & L2 & L3).
  { unfold e2. destruct (_ <=? _); cbn; rewrite ?K2; auto. }
  assert (buffer_inv (en_buffer e2) /\ lb_parts (en_buffer e2) = lb_parts (en_buffer e) /\ entryText e2 = entryText e) as (L4 & L5 & L6).
  { unfold entryText. destruct L3 as [-> | ->]; [done|]. split_and!; [by apply memoize_inv|done|].
    rewrite !bufferText_parts by (try apply memoize_inv; done). done. }
  apply (broker_local i e e2 b); try done. by rewrite L6, L2.
Qed.

Lemma settle_inv ok i e b : broker_inv b -> br_entries b !! i = Some e -> broker_inv (settleFlush ok i e b).
Proof.
  intros Hb Hi. unfold settleFlush. destruct (fl_running (en_flush e)) as [[[caller delta] len]|] eqn:Er; [|done].
  destruct (bk_entries b Hb i e Hi) as [H1 [F1 F2 F3 F4]].
  destruct (F3 caller delta len Er) as (Hon & Hr & ->).
  destruct (if ok then _ else _) as [db|] eqn:Ew.
  - destruct ok; [|done]. destruct (sink_write _ _ _ _ (bk_db b Hb) Ew) as [Hdb Ht].
    apply (broker_change i e (setFlush (mkFlush (fl_dirty (en_flush e)) (fl_timer (en_flush e)) len (fl_chain (en_flush e)) None
      (fl_resumes (en_flush e) ++ [caller])) e) b); try done.
    + split; [done|]. cbn [br_db setFlush en_flush]. change (entryText (setFlush _ e)) with (entryText e).
      change (entryId (setFlush _ e)) with (entryId e). change (flushes (setFlush _ e)) with (flushes e). rewrite Ht.
      unfold entryId in *. rewrite String.eqb_refl. split; cbn [fl_persisted fl_running fl_dirty]; [|lia|done|].
      * intros _. rewrite (F1 Hon). apply headOf_slice. lia.
      * intros _ Ed. specialize (F4 Hon Ed). by rewrite Er in F4.
    + intros id Hne. cbn [br_db]. rewrite Ht. rewrite (proj2 (String.eqb_neq _ _)); [done|]. apply Hne. exact Hon.
  - apply (broker_local i e (setFlush (mkFlush true (fl_timer (en_flush e)) (fl_persisted (en_flush e)) (fl_chain (en_flush e)) None
      (fl_resumes (en_flush e) ++ [caller])) e) b); done.
Qed.

Lemma resume_inv i e b : broker_inv b -> br_entries b !! i = Some e -> broker_inv (resumeCaller i e b).
Proof.
  intros Hb Hi. unfold resumeCaller. destruct (fl_resumes (en_flush e)) as [|caller rest]; [done|]. set (e1 := setFlush _ e). destruct caller.
  - apply (keep_inv i e (if fl_dirty (en_flush e) && negb (en_ended e1) then scheduleFlush e1 else e1) b); try done;
      (destruct (_ && _); [|done]); apply (schedule_flush e1).
  - by apply (keep_inv i e e1 b).
Qed.

Lemma brokerStep_inv b ev : broker_inv b -> freshStream b ev -> broker_inv (brokerStep b ev).
Proof.
  intros Hb Hf. destruct ev as [c|id stream s|room|id|i|i|i|i ok|i]; cbn [brokerStep]; unfold onEntry.
  - by apply begin_inv.
  - by apply emit_inv.
  - by apply replay_inv.
  - unfold endStream, withStream. destruct (br_streams b !! id) as [i|]; [|done]. destruct (br_entries b !! i) as [e|] eqn:Hi; [|done].
    set (e1 := mkEntry _ _ _ _ _). pose proof (flushBroadcast_keeps (br_ws b) i e1) as (K1 & K2 & K3 & K4).
    destruct (flushBroadcast _ _ _) as [e2 frames]. cbn [fst] in *. apply (keep_inv i e (flushDelta ByEnd e2) b); try done;
      cbn [flushDelta setFlush en_flush fl_dirty fl_persisted fl_running]; by rewrite K3.
  - destruct (br_entries b !! i) as [e|] eqn:Hi; [|done]. apply (keep_inv i e (flushTimerFires e) b); try done;
      unfold flushTimerFires; (destruct (fl_timer _); [|done]); by destruct (en_ended _).
  - destruct (br_entries b !! i) as [e|] eqn:Hi; [|done]. destruct (ca_timer _); [|done].
    pose proof (flushBroadcast_keeps (br_ws b) i e) as (K1 & K2 & K3 & K4). destruct (flushBroadcast _ _ _) as [e1 frames]. cbn [fst] in *.
    apply (keep_inv i e e1 b); try done; by rewrite K3.
  - destruct (br_entries b !! i) as [e|] eqn:Hi; [|done]. pose proof (bk_entries b Hb i e Hi) as He. pose proof (flush_start e _ He) as Hs.
    assert (en_config (startFlush e) = en_config e /\ en_buffer (startFlush e) = en_buffer e) as [E1 E2].
    { unfold startFlush. destruct (fl_running _); [done|]. destruct (fl_chain _); [done|]. by destruct (_ || _). }
    destruct He as [H1 _]. apply (broker_local i e (startFlush e) b); try done; [by rewrite E2|]. unfold entryText in *. by rewrite E2.
  - destruct (br_entries b !! i) as [e|] eqn:Hi; [|done]. by apply settle_inv.
  - destruct (br_entries b !! i) as [e|] eqn:Hi; [|done]. by apply resume_inv.
Qed.

Inductive broker_reach : Broker D -> Prop :=
| broker_start ws d : sinkInv d -> broker_reach (mkBroker ws [] ∅ ∅ [] d)
| broker_step b ev : broker_reach b -> freshStream b ev -> broker_reach (brokerStep b ev).

Lemma broker_reach_inv b : broker_reach b -> broker_inv b.
Proof. induction 1 as [ws d Hd|b ev _ IH Hf]; [by split|by apply brokerStep_inv]. Qed.

Lemma stored_all b i e : broker_inv b -> br_entries b !! i = Some e -> flushes e = true -> fl_dirty (en_flush e) = false ->
  fl_running (en_flush e) = None -> sinkText (entryId e) (br_db b) = entryText e.
Proof.
  intros Hb Hi Hon Hd Hr. destruct (bk_entries b Hb i e Hi) as [_ [F1 _ _ F4]]. rewrite (F1 Hon). specialize (F4 Hon Hd). rewrite Hr in F4.
  unfold headOf. apply take_ge. unfold tlen in F4. lia.
Qed.

(** The store takes whatever the stream may hand it of its text. *)
Definition takes (id : string) (t : text) : Prop :=
  forall from to d, sinkInv d -> exists d', sinkWrite id (sliceUnits from to t) d = Some d'.

(** A write that is let through ends the flush under way. *)
Lemma settle_ok b i e : broker_inv b -> br_entries b !! i = Some e -> takes (entryId e) (entryText e) ->
  exists e', br_entries (settleFlush true i e b) !! i = Some e' /\ en_config e' = en_config e /\ en_buffer e' = en_buffer e /\
  fl_running (en_flush e') = None /\ fl_chain (en_flush e') = fl_chain (en_flush e) /\ fl_dirty (en_flush e') = fl_dirty (en_flush e).
Proof.
  intros Hb Hi Htk. unfold settleFlush. destruct (fl_running (en_flush e)) as [[[caller delta] len]|] eqn:Er; [|by exists e].
  destruct (bk_entries b Hb i e Hi) as [_ [_ _ F3 _]]. destruct (F3 caller delta len Er) as (_ & _ & ->).
  destruct (Htk (fl_persisted (en_flush e)) len (br_db b) (bk_db b Hb)) as [d Hw]. unfold entryId in Hw.
  rewrite Hw. eexists. cbn [br_entries setEntry]. rewrite list_lookup_insert_eq by (by eapply lookup_lt_Some). by split_and!.
Qed.

Lemma end_entry (b : Broker D) i e id : br_streams b !! id = Some i -> br_entries b !! i = Some e ->
  exists e', br_entries (endStream id b) !! i = Some e' /\ en_config e' = en_config e /\ en_buffer e' = en_buffer e /\ fl_chain (en_flush e') <> [].
Proof.
  intros Hs Hi. unfold endStream, withStream. rewrite Hs, Hi. set (e1 := mkEntry _ _ _ _ _).
  pose proof (flushBroadcast_keeps (br_ws b) i e1) as (K1 & K2 & K3 & K4). destruct (flushBroadcast _ _ _) as [e2 frames]. cbn [fst] in *.
  exists (flushDelta ByEnd e2). cbn [send setEntry br_entries]. rewrite list_lookup_insert_eq by (by eapply lookup_lt_Some).
  split_and!; [done|done|done|]. cbn. by destruct (fl_chain (en_flush e2)).
Qed.

(** Once a stream has ended and the writes it waits for go through, the store has all of it. *)
Lemma end_stores_all b i e : broker_inv b -> br_entries b !! i = Some e -> flushes e = true -> br_streams b !! entryId e = Some i ->
  takes (entryId e) (entryText e) ->
  let b' := fold_left brokerStep [EndStream (entryId e); FlushSettles i true; FlushStarts i; FlushSettles i true] b in
  broker_inv b' /\ sinkText (entryId e) (br_db b') = entryText e.
Proof.
  intros Hb Hi Hon Hs Htk. cbv zeta. cbn [fold_left].
  destruct (end_entry b i e _ Hs Hi) as (e1 & Hi1 & C1 & B1 & Hch).
  pose proof (brokerStep_inv b (EndStream (entryId e)) Hb ltac:(done)) as Hb1. cbn [brokerStep] in Hb1 |- *.
  assert (forall x, en_config x = en_config e -> en_buffer x = en_buffer e -> takes (entryId x) (entryText x)) as Hx
    by (intros x C B; unfold entryId, entryText in *; by rewrite C, B).
  set (b1 := endStream (entryId e) b) in *. unfold onEntry at 3 6. rewrite Hi1.
  destruct (settle_ok b1 i e1 Hb1 Hi1 (Hx e1 C1 B1)) as (e2 & Hi2 & C2 & B2 & R2 & Ch2 & _). pose proof (settle_inv true i e1 b1 Hb1 Hi1) as Hb2.
  set (b2 := settleFlush true i e1 b1) in *. pose proof (brokerStep_inv b2 (FlushStarts i) Hb2 ltac:(done)) as Hb3.
  cbn [brokerStep] in Hb3. unfold onEntry in Hb3 |- *. rewrite Hi2 in Hb3 |- *. set (e3 := startFlush e2) in *. set (b3 := setEntry i e3 b2) in *.
  assert (br_entries b3 !! i = Some e3) as Hi3 by (cbn; by rewrite list_lookup_insert_eq by (by eapply lookup_lt_Some)). rewrite Hi3.
  assert (en_config e3 = en_config e2 /\ en_buffer e3 = en_buffer e2 /\ (cf_onFlush (en_config e2) = true -> fl_dirty (en_flush e3) = false)) as (C3 & B3 & D3).
  { unfold e3, startFlush. rewrite R2. destruct (fl_chain (en_flush e2)) as [|caller chain]; [congruence|].
    destruct (fl_dirty (en_flush e2)) eqn:Ed; cbn [negb orb]; [|by rewrite <- Ed]. split_and!; intros; by destruct (cf_onFlush (en_config e2)). }
  destruct (settle_ok b3 i e3 Hb3 Hi3 (Hx e3 ltac:(congruence) ltac:(congruence))) as (e4 & Hi4 & C4 & B4 & R4 & _ & D4).
  pose proof (settle_inv true i e3 b3 Hb3 Hi3) as Hb4. split; [done|].
  assert (en_config e4 = en_config e) as C by congruence. assert (en_buffer e4 = en_buffer e) as B by congruence.
  unfold entryId, entryText, flushes in *. rewrite <- C, <- B in *.
  apply (stored_all _ i e4 Hb4 Hi4); [done| |done]. rewrite D4. apply D3. congruence.
Qed.
End Flushing.

(** ** What is stored of a run *)

Lemma plain_takes id t : plainText t -> takes (D := TakenOutput) id t.
Proof.
  intros Ht from to d [Hc _]. assert (accepted (sliceUnits from to t) = true) as Ha by (apply accepted_plain; by apply plain_head, plain_slice).
  destruct (runOnFlush_accepts id _ (to_out d) Hc Ha) as [o Ho]. cbn. rewrite Ho. by eexists.
Qed.

Lemma plain_deltas l : plainText (List.concat l) -> List.concat (List.map sent l) = List.concat l.
Proof. induction l as [|s l IH]; [done|]. cbn. intros [H1 H2]%plain_app. by rewrite (sent_plain s H1), (IH H2). Qed.

(** C9. Each unit of a stream is written once and in its place. Whatever order lines of any text,
    flushes, writes that fail or are refused and the end of a stream come in, where a stream that
    is flushed begins under an id of its own with nothing stored: the texts the store has taken,
    one after the other, are at every moment the stream's text up to the persisted length, and
    the characters stored are those these texts were sent as; while nothing is dirty and no write
    is under way that is the whole text. When the stream ends and its writes go through, the log
    reads back as the whole text, if that has neither NUL nor surrogates. *)
Theorem log_stored_exactly_once (b : Broker TakenOutput) i e : broker_reach b -> br_entries b !! i = Some e -> flushes e = true ->
  let stored := ro_logs (to_out (br_db b)) in
  List.concat (deltasOf (entryId e) (br_db b)) = headOf (fl_persisted (en_flush e)) (entryText e) /\
  storedText (entryId e) stored = List.concat (List.map sent (deltasOf (entryId e) (br_db b))) /\
  (fl_dirty (en_flush e) = false -> fl_running (en_flush e) = None -> List.concat (deltasOf (entryId e) (br_db b)) = entryText e) /\
  (br_streams b !! entryId e = Some i -> plainText (entryText e) ->
   let b' := fold_left brokerStep [EndStream (entryId e); FlushSettles i true; FlushStarts i; FlushSettles i true] b in
   readRunLogText (entryId e) (ro_logs (to_out (br_db b'))) = entryText e).
Proof.
  intros Hr Hi Hon stored. pose proof (broker_reach_inv b Hr) as Hb. destruct (bk_db b Hb) as [Hc Hst].
  destruct (bk_entries b Hb i e Hi) as [_ [F1 _ _ _]]. split_and!; [exact (F1 Hon)|apply Hst|by apply (stored_all b i e Hb Hi)|].
  intros Hs Hp b'. destruct (end_stores_all b i e Hb Hi Hon Hs (plain_takes _ _ Hp)) as [Hb' Ht]. fold b' in Hb', Ht.
  destruct (bk_db b' Hb') as [_ Hst']. unfold readRunLogText. rewrite Hst'. change (List.concat (deltasOf (entryId e) (br_db b')) = entryText e) in Ht. rewrite plain_deltas by (by rewrite Ht).
  rewrite Ht. by apply plain_units.
Qed.

(** ** What subscribers see *)

Definition LogLine : Type := LogStream * text.
(** A client splits a frame back into lines. *)
Definition frameLines (f : Frame) : list LogLine := List.map (pair (snd (fst f))) (splitUnits LF (snd f)).
Definition frameOf (i : nat) (f : Frame) : bool := Nat.eqb (fst (fst f)) i.
Definition sentLines (i : nat) (sent : list Frame) : list LogLine := List.concat (List.map frameLines (List.filter (frameOf i) sent)).
Definition pendingLines (groups : list (LogStream * list text)) : list LogLine := List.concat (List.map (fun g => List.map (pair (fst g)) (snd g)) groups).
Definition renderLines (l : list LogLine) : text := List.concat (List.map (fun p => lineMarker (fst p) (snd p)) l).

Definition goodGroup (g : LogStream * list text) : Prop := snd g <> [] /\ List.Forall unbroken (snd g).

Record cast_inv (i : nat) (sent : list Frame) (e : LogStreamEntry) : Prop := {
  ca_groups : List.Forall goodGroup (ca_pending (en_cast e));
  ca_view : match lb_truncated (en_buffer e) with
            | None => renderLines (sentLines i sent ++ pendingLines (ca_pending (en_cast e))) = List.concat (lb_parts (en_buffer e))
            | Some _ => List.concat (lb_parts (en_buffer e)) `prefix_of` renderLines (sentLines i sent ++ pendingLines (ca_pending (en_cast e)))
            end;
}.

Lemma split_unbroken s : unbroken s -> splitUnits LF s = [s].
Proof.
  intros [H _]. induction s as [|c s IH]; [done|]. cbn [splitUnits]. destruct (Z.eqb_spec c LF) as [->|_]; [exfalso; apply H; by left|].
  rewrite IH; [done|]. intros Hin. apply H. by right.
Qed.
Lemma split_app s t : unbroken s -> splitUnits LF (s ++ LF :: t) = s :: splitUnits LF t.
Proof.
  intros [H _]. induction s as [|c s IH]; [done|]. cbn [splitUnits app]. destruct (Z.eqb_spec c LF) as [->|_]; [exfalso; apply H; by left|].
  rewrite IH; [done|]. intros Hin. apply H. by right.
Qed.
Lemma split_joined_lines l : l <> [] -> List.Forall unbroken l -> splitUnits LF (joinLines l) = l.
Proof.
  intros Hne Hl. induction Hl as [|s l Hs Hl IH]; [done|]. destruct l as [|t l]; [by apply split_unbroken|].
  change (joinLines (s :: t :: l)) with (s ++ LF :: joinLines (t :: l)). rewrite split_app by done. by rewrite IH.
Qed.

Lemma sentLines_app i l l' : sentLines i (l ++ l') = sentLines i l ++ sentLines i l'.
Proof. unfold sentLines. by rewrite List.filter_app, List.map_app, List.concat_app. Qed.
Lemma sentLines_other i j frames : List.Forall (fun f => fst (fst f) = j) frames -> i <> j -> sentLines i frames = [].
Proof.
  intros H Hne. unfold sentLines. rewrite (proj2 (filter_nil_iff _ _)); [done|]. intros f Hf. rewrite List.Forall_forall in H. unfold frameOf.
  rewrite (H f Hf). by apply Nat.eqb_neq.
Qed.
Lemma pendingLines_app l l' : pendingLines (l ++ l') = pendingLines l ++ pendingLines l'.
Proof. unfold pendingLines. by rewrite List.map_app, List.concat_app. Qed.

(** Sending the pending groups sends their lines. *)
Lemma frames_lines i groups : List.Forall goodGroup groups ->
  sentLines i (List.map (fun g => (i, fst g, joinLines (snd g))) groups) = pendingLines groups.
Proof.
  intros H. unfold sentLines, pendingLines. induction H as [|g groups [Hg1 Hg2] _ IH]; [done|]. cbn [List.map List.filter].
  unfold frameOf at 1. cbn [fst]. rewrite Nat.eqb_refl. cbn [List.map List.concat]. rewrite IH. f_equal.
  unfold frameLines. cbn [fst snd]. by rewrite split_joined_lines.
Qed.

Lemma addPending_lines stream s groups : pendingLines (addPending stream s groups) = pendingLines groups ++ [(stream, s)].
Proof.
  unfold addPending. destruct (rev groups) as [|[st lines] before] eqn:E.
  - assert (groups = []) as -> by (rewrite <- (rev_involutive groups), E; done). done.
  - assert (groups = rev before ++ [(st, lines)]) as -> by (rewrite <- (rev_involutive groups), E; done). case_bool_decide as Es.
    + subst st. rewrite !pendingLines_app, <- app_assoc. f_equal. unfold pendingLines. cbn. by rewrite !app_nil_r, List.map_app.
    + rewrite (pendingLines_app (_ ++ _)). done.
Qed.
Lemma Forall_one {A} (Q : A -> Prop) x : Q x -> List.Forall Q [x].
Proof. intros H. constructor; [done|constructor]. Qed.

Lemma addPending_groups stream s groups : unbroken s -> List.Forall goodGroup groups -> List.Forall goodGroup (addPending stream s groups).
Proof.
  intros Hs Hg. assert (goodGroup (stream, [s])) as H1 by (split; [done|by apply Forall_one]). unfold addPending.
  destruct (rev groups) as [|[st lines] before] eqn:E; [by apply Forall_one|].
  assert (groups = rev before ++ [(st, lines)]) as -> by (rewrite <- (rev_involutive groups), E; done).
  case_bool_decide; (apply List.Forall_app; split; [|apply Forall_one; try done]).
  - by apply List.Forall_app in Hg as [Hg _].
  - apply List.Forall_app in Hg as [_ Hg]. inversion_clear Hg as [|? ? [_ Hl] _]. split; [by destruct lines|].
    apply List.Forall_app. split; [done|by apply Forall_one].
  - done.
Qed.

Lemma renderLines_app l l' : renderLines (l ++ l') = renderLines l ++ renderLines l'.
Proof. unfold renderLines. by rewrite List.map_app, List.concat_app. Qed.

(** The lines an entry has broadcast or will. *)
Definition viewLines (i : nat) (sent : list Frame) (e : LogStreamEntry) : list LogLine := sentLines i sent ++ pendingLines (ca_pending (en_cast e)).

Lemma flush_view i sent e : List.Forall goodGroup (ca_pending (en_cast e)) -> let '(e', frames) := flushBroadcast true i e in
  viewLines i (sent ++ frames) e' = viewLines i sent e /\ List.Forall goodGroup (ca_pending (en_cast e')) /\ List.Forall (fun f => fst (fst f) = i) frames.
Proof.
  intros Hg. unfold flushBroadcast. destruct (ca_pending (en_cast e)) as [|g groups] eqn:Ep.
  - unfold viewLines. cbn. rewrite Ep, !app_nil_r. split_and!; [done|constructor|constructor].
  - unfold viewLines. cbn [setCast en_cast ca_pending]. rewrite Ep, sentLines_app, frames_lines by done. split_and!.
    + change (pendingLines []) with (@nil LogLine). by rewrite app_nil_r.
    + constructor.
    + apply List.Forall_forall. by intros f (x & <- & _)%in_map_iff.
Qed.

Lemma queue_view i sent stream s e : unbroken s -> List.Forall goodGroup (ca_pending (en_cast e)) -> let '(e', frames) := queueBroadcast true i stream s e in
  viewLines i (sent ++ frames) e' = viewLines i sent e ++ [(stream, s)] /\ List.Forall goodGroup (ca_pending (en_cast e')) /\
  List.Forall (fun f => fst (fst f) = i) frames.
Proof.
  intros Hs Hg. unfold queueBroadcast. cbn [negb]. set (e1 := setCast _ e).
  assert (List.Forall goodGroup (ca_pending (en_cast e1))) as Hg1 by (by apply addPending_groups).
  assert (viewLines i sent e1 = viewLines i sent e ++ [(stream, s)]) as Hv.
  { unfold viewLines. cbn [e1 setCast en_cast ca_pending]. by rewrite addPending_lines, app_assoc. }
  destruct (_ <=? _).
  - pose proof (flush_view i sent e1 Hg1) as H. destruct (flushBroadcast true i e1) as [e2 frames]. by rewrite <- Hv.
  - rewrite <- Hv, app_nil_r. split_and!; [done|done|constructor].
Qed.

(** A line that is appended while the log is not capped extends the view by itself. *)
Lemma append_view stream s b v : lb_truncated b = None -> v = List.concat (lb_parts b) ->
  match lb_truncated (append stream s b) with
  | None => v ++ lineMarker stream s = List.concat (lb_parts (append stream s b))
  | Some _ => List.concat (lb_parts (append stream s b)) `prefix_of` v ++ lineMarker stream s
  end.
Proof.
  intros Ht ->. unfold append. rewrite Ht. destruct (_ <=? 0); [by eexists|].
  destruct (_ <? _); cbn [setJoined setTruncated setBytes pushPart lb_parts lb_truncated]; [|by rewrite Ht, concat_snoc].
  rewrite concat_snoc. apply prefix_app. unfold headOf. exists (drop (Z.to_nat (lb_cap b - lb_bytes b)) (lineMarker stream s)). by rewrite take_drop.
Qed.

Lemma emit_view i stream lines : forall sent e, List.Forall unbroken lines -> cast_inv i sent e ->
  let '(e', frames) := emitLines true i stream lines e in
  cast_inv i (sent ++ frames) e' /\ List.Forall (fun f => fst (fst f) = i) frames.
Proof.
  induction lines as [|s lines IH]; intros sent e Hl [Hg Hv]; [cbn; rewrite app_nil_r; split; [by split|constructor]|]. cbn [emitLines].
  inversion_clear Hl as [|? ? Hs Hl']. set (e1 := setBuffer (append stream s (en_buffer e)) e).
  set (q := match lb_truncated (en_buffer e) with None => _ | Some _ => _ end).
  assert (cast_inv i (sent ++ snd q) (fst q) /\ List.Forall (fun f => fst (fst f) = i) (snd q)) as [Hc Hf].
  { unfold q. destruct (lb_truncated (en_buffer e)) as [n|] eqn:Et.
    - cbn [fst snd]. rewrite app_nil_r. split; [|constructor]. split; [done|]. cbn [e1 setBuffer en_buffer en_cast]. unfold append. rewrite Et.
      by rewrite Et.
    - pose proof (queue_view i sent stream s e1 Hs Hg) as H. pose proof (queueBroadcast_keeps true i stream s e1) as (_ & K & _).
      destruct (queueBroadcast true i stream s e1) as [e2 frames]. cbn [fst snd] in *. destruct H as (H1 & H2 & H3). split; [|done]. split; [done|].
      rewrite K. change (sentLines i (sent ++ frames) ++ pendingLines (ca_pending (en_cast e2))) with (viewLines i (sent ++ frames) e2).
      rewrite H1, renderLines_app. unfold renderLines at 2 4. cbn [List.map List.concat fst snd]. rewrite !app_nil_r.
      apply append_view; [done|exact Hv]. }
  destruct q as [e2 frames]. cbn [fst snd] in *. specialize (IH (sent ++ frames) e2 Hl' Hc). destruct (emitLines true i stream lines e2) as [e3 more].
  destruct IH as [H1 H2]. rewrite <- app_assoc in H1. split; [done|]. by apply List.Forall_app.
Qed.

Section Casting.
Context {D : Type} `{!LogSink D}.

Record casts_inv (b : Broker D) : Prop := {
  cs_ws : br_ws b = true;
  cs_entries : forall i e, br_entries b !! i = Some e -> cast_inv i (br_sent b) e;
  cs_sent : List.Forall (fun f => (fst (fst f) < List.length (br_entries b))%nat) (br_sent b);
}.

Lemma casts_change i e e' frames (b b' : Broker D) : casts_inv b -> br_entries b !! i = Some e -> br_ws b' = br_ws b ->
  br_entries b' = <[i := e']> (br_entries b) -> br_sent b' = br_sent b ++ frames -> List.Forall (fun f => fst (fst f) = i) frames ->
  cast_inv i (br_sent b ++ frames) e' -> casts_inv b'.
Proof.
  intros [H1 H2 H3] Hi Hws He Hs Hf Hc. split; [by rewrite Hws| |].
  - intros j x Hj. rewrite Hs. rewrite He in Hj. apply list_lookup_insert_Some in Hj as [(<- & <- & _)|[Hne Hj]]; [done|].
    destruct (H2 j x Hj) as [G V]. split; [done|]. by rewrite sentLines_app, (sentLines_other j i frames), app_nil_r by done.
  - rewrite Hs, He, length_insert. apply List.Forall_app. split; [done|]. eapply List.Forall_impl; [|exact Hf].
    intros f ->. by eapply lookup_lt_Some.
Qed.

(** A step that sends nothing and leaves the entry's log and groups. *)
Lemma casts_keep i e e' (b b' : Broker D) : casts_inv b -> br_entries b !! i = Some e -> br_ws b' = br_ws b ->
  br_entries b' = <[i := e']> (br_entries b) -> br_sent b' = br_sent b -> ca_pending (en_cast e') = ca_pending (en_cast e) ->
  lb_parts (en_buffer e') = lb_parts (en_buffer e) -> lb_truncated (en_buffer e') = lb_truncated (en_buffer e) -> casts_inv b'.
Proof.
  intros Hb Hi Hws He Hs E1 E2 E3. apply (casts_change i e e' [] b b'); try done; rewrite ?app_nil_r; [done|].
  destruct (cs_entries b Hb i e Hi) as [G V]. split; rewrite ?E1, ?E2, ?E3; done.
Qed.

Lemma casts_flush i e e1 (b : Broker D) : casts_inv b -> br_entries b !! i = Some e -> ca_pending (en_cast e1) = ca_pending (en_cast e) ->
  en_buffer e1 = en_buffer e -> let '(e2, frames) := flushBroadcast (br_ws b) i e1 in
  forall e3, en_buffer e3 = en_buffer e2 \/ en_buffer e3 = memoize (en_buffer e2) -> en_cast e3 = en_cast e2 -> casts_inv (send frames (setEntry i e3 b)).
Proof.
  intros Hb Hi Ep Eb. rewrite (cs_ws b Hb). destruct (cs_entries b Hb i e Hi) as [G V]. rewrite <- Ep in G.
  pose proof (flush_view i (br_sent b) e1 G) as H. pose proof (flushBroadcast_keeps true i e1) as (_ & K & _).
  destruct (flushBroadcast true i e1) as [e2 frames]. cbn [fst] in K. destruct H as (H1 & H2 & H3). intros e3 Hbuf Hcast.
  apply (casts_change i e e3 frames b); try done. split; rewrite Hcast; [done|].
  change (sentLines i (br_sent b ++ frames) ++ pendingLines (ca_pending (en_cast e2))) with (viewLines i (br_sent b ++ frames) e2). rewrite H1.
  unfold viewLines. rewrite Ep. destruct Hbuf as [-> | ->]; cbn [memoize setJoined lb_truncated lb_parts]; by rewrite K, Eb.
Qed.

Lemma casts_replay ids (b : Broker D) : casts_inv b -> casts_inv (fst (replayStreams ids b)).
Proof.
  revert b. induction ids as [|id ids IH]; intros b Hb; [done|]. cbn [replayStreams]. destruct (br_streams b !! id) as [i|]; [|by apply IH].
  destruct (br_entries b !! i) as [e|] eqn:Hi; [|by apply IH]. pose proof (casts_flush i e e b Hb Hi eq_refl eq_refl) as H.
  destruct (flushBroadcast _ _ _) as [e1 frames]. set (e2 := if _ <=? _ then _ else _).
  specialize (IH (send frames (setEntry i e2 b))). destruct (replayStreams ids _) as [b' l]. apply IH. apply H.
  - unfold e2. destruct (_ <=? _); [by right|by left].
  - unfold e2. by destruct (_ <=? _).
Qed.

Lemma casts_begin c (b : Broker D) : casts_inv b -> casts_inv (begin c b).
Proof.
  intros Hb. unfold begin. set (b1 := match br_streams b !! _ with None => b | Some _ => _ end).
  assert (casts_inv b1) as [H1 H2 H3].
  { unfold b1. destruct (br_streams b !! _) as [i|]; [|done]. destruct (br_entries b !! i) as [e|] eqn:Hi; [|done].
    by apply (casts_keep i e (clearTimers e) b). }
  clearbody b1. split; cbn [br_ws br_entries br_sent]; [done| |].
  - intros i e [[_ Hi]|[-> <-]]%lookup_snoc_Some; [by apply H2|]. split; [constructor|]. cbn [newEntry newBuffer en_buffer lb_truncated lb_parts].
    unfold sentLines. rewrite (proj2 (filter_nil_iff _ _)); [done|]. intros f Hf. rewrite List.Forall_forall in H3. specialize (H3 f Hf).
    unfold frameOf. apply Nat.eqb_neq. lia.
  - rewrite length_app. eapply List.Forall_impl; [|exact H3]. cbn. intros f Hf. lia.
Qed.

Lemma casts_step (b : Broker D) ev : casts_inv b -> casts_inv (brokerStep b ev).
Proof.
  intros Hb. destruct ev as [c|id stream s|room|id|i|i|i|i ok|i]; cbn [brokerStep]; unfold onEntry.
  - by apply casts_begin.
  - unfold emit, withStream. destruct (br_streams b !! id) as [i|]; [|done]. destruct (br_entries b !! i) as [e|] eqn:Hi; [|done].
    destruct (en_ended e); [done|]. destruct (splitLogLines s) as [|l0 lines] eqn:El; [done|]. rewrite <- El, (cs_ws b Hb).
    assert (List.Forall unbroken (splitLogLines s)) as Hl by (apply List.Forall_forall; intros l Hin; by apply (emitted_lines_unbroken s)).
    pose proof (emit_view i stream (splitLogLines s) (br_sent b) e Hl (cs_entries b Hb i e Hi)) as H.
    destruct (emitLines _ _ _ _ _) as [e' frames]. destruct H as [[G V] Hf]. apply (casts_change i e (markDirty e') frames b); try done.
    assert (en_cast (markDirty e') = en_cast e' /\ en_buffer (markDirty e') = en_buffer e') as [E1 E2].
    { unfold markDirty, scheduleFlush. destruct (cf_onFlush _); [|done]. by destruct (_ || _). }
    by split; rewrite ?E1, ?E2.
  - by apply casts_replay.
  - unfold endStream, withStream. destruct (br_streams b !! id) as [i|]; [|done]. destruct (br_entries b !! i) as [e|] eqn:Hi; [|done].
    set (e1 := mkEntry _ _ _ _ _). pose proof (casts_flush i e e1 b Hb Hi eq_refl eq_refl) as H. destruct (flushBroadcast _ _ _) as [e2 frames].
    apply H; [by left|done].
  - destruct (br_entries b !! i) as [e|] eqn:Hi; [|done]. apply (casts_keep i e (flushTimerFires e) b); try done;
      unfold flushTimerFires; (destruct (fl_timer _); [|done]); by destruct (en_ended _).
  - destruct (br_entries b !! i) as [e|] eqn:Hi; [|done]. destruct (ca_timer _); [|done].
    pose proof (casts_flush i e e b Hb Hi eq_refl eq_refl) as H. destruct (flushBroadcast _ _ _) as [e1 frames]. apply H; [by left|done].
  - destruct (br_entries b !! i) as [e|] eqn:Hi; [|done]. apply (casts_keep i e (startFlush e) b); try done;
      unfold startFlush; (destruct (fl_running _); [done|]); (destruct (fl_chain _); [done|]); by destruct (_ || _).
  - destruct (br_entries b !! i) as [e|] eqn:Hi; [|done]. unfold settleFlush. destruct (fl_running _) as [[[caller delta] len]|]; [|done].
    destruct (if ok then _ else _); by eapply (casts_keep i e _ b).
  - destruct (br_entries b !! i) as [e|] eqn:Hi; [|done]. unfold resumeCaller. destruct (fl_resumes _) as [|caller rest]; [done|].
    destruct caller; [|by eapply (casts_keep i e _ b)]. eapply (casts_keep i e _ b); try done; unfold scheduleFlush; destruct (_ && _); try done; by destruct (_ || _).
Qed.

Lemma casts_run evs (b : Broker D) : casts_inv b -> casts_inv (fold_left brokerStep evs b).
Proof. revert b. induction evs as [|ev evs IH]; intros b Hb; [done|]. apply IH. by apply casts_step. Qed.

(** What subscribers are sent, with what is queued to be sent, is the log: splitting the frames
    of a stream into lines gives the lines of its log in their order, across both streams,
    however broadcasts, subscriptions and flushes interleave; of a capped log, its stored lines
    are the first of them. *)
Theorem frames_are_the_log evs (d : D) i e : let b := fold_left brokerStep evs (mkBroker true [] ∅ ∅ [] d) in
  br_entries b !! i = Some e -> let seen := renderLines (sentLines i (br_sent b) ++ pendingLines (ca_pending (en_cast e))) in
  match lb_truncated (en_buffer e) with
  | None => seen = List.concat (lb_parts (en_buffer e))
  | Some _ => List.concat (lb_parts (en_buffer e)) `prefix_of` seen
  end.
Proof.
  intros b Hi seen. assert (casts_inv b) as Hb by (apply casts_run; split; [done|done|constructor]).
  exact (ca_view _ _ _ (cs_entries b Hb i e Hi)).
Qed.
End Casting.

(** A replayed snapshot is bounded. *)
Lemma snapshot_bounded e : buffer_inv (en_buffer e) -> tlen (snapshotText e) <= REPLAY_TAIL_CHARS + tlen REPLAY_TRIM_NOTICE + 1.
Proof.
  intros Hb. unfold snapshotText. destruct (Z.leb_spec (bufferLength (en_buffer e)) REPLAY_TAIL_CHARS) as [H|H].
  - rewrite <- bufferLength_spec by done. pose proof (tlen_nonneg REPLAY_TRIM_NOTICE). lia.
  - rewrite sliceFrom_slices by done. rewrite tlen_app. set (tail := sliceOf _ _).
    assert (tlen tail <= REPLAY_TAIL_CHARS) as Ht.
    { pose proof (bufferLength_spec _ Hb) as E. unfold tail, sliceOf, tlen, REPLAY_TAIL_CHARS in *. rewrite length_drop. lia. }
    assert (tlen (match firstBreak tail with Some n => drop (S n) tail | None => tail end) <= tlen tail) as Hl.
    { destruct (firstBreak tail); [|lia]. unfold tlen. rewrite length_drop. lia. }
    unfold tlen in *. cbn [List.length]. lia.
Qed.

(** ** Concrete streams *)

Definition noOutput : TakenOutput := mkTaken (mkRunOutput emptyLogs ∅ ∅) ∅.
Definition demo_cfg : LogStreamConfig := mkConfig "run-1" "project:1" true None.
Definition demo_flush : list BrokerEvent := [FlushTimer 0; FlushStarts 0; FlushSettles 0 true; CallerResumes 0].
Definition demo_events : list BrokerEvent :=
  [Begin demo_cfg; Emit "run-1" Stdout (units "one"); FlushTimer 0; FlushStarts 0; Emit "run-1" Stderr (units "two"); FlushSettles 0 false;
   CallerResumes 0; Emit "run-1" Stdout (units "three"); FlushTimer 0; FlushStarts 0; Emit "run-1" Stdout (units "four"); FlushSettles 0 true].
Definition demo_broker : Broker TakenOutput := fold_left brokerStep demo_events (mkBroker true [] ∅ ∅ [] noOutput).
Definition demo_entry : LogStreamEntry := nth 0 (br_entries demo_broker) (newEntry demo_cfg).

Lemma demo_broker_reach : broker_reach demo_broker.
Proof.
  assert (forall (b : Broker TakenOutput) ev, broker_reach b -> match ev with Begin _ => False | _ => True end ->
    broker_reach (brokerStep b ev)) as Hstep.
  { intros b ev Hb Hev. apply broker_step; [done|]. by destruct ev. }
  unfold demo_broker, demo_events. cbn [fold_left].
  repeat (apply Hstep; [|exact Logic.I]).
  apply broker_step; [|intros _; split; [reflexivity|by intros e []]]. apply broker_start. split; [intros r; constructor|done].
Qed.

Lemma log_stored_exactly_once_witness : entryId demo_entry = "run-1" /\
  let b' := fold_left brokerStep [EndStream (entryId demo_entry); FlushSettles 0 true; FlushStarts 0; FlushSettles 0 true] demo_broker in
  readRunLogText (entryId demo_entry) (ro_logs (to_out (br_db b'))) = entryText demo_entry.
Proof.
  split; [vm_compute; reflexivity|].
  assert (br_entries demo_broker !! 0%nat = Some demo_entry) as Hi by (vm_compute; reflexivity).
  assert (flushes demo_entry = true) as Hon by (vm_compute; reflexivity).
  assert (br_streams demo_broker !! entryId demo_entry = Some 0%nat) as Hs by (vm_compute; reflexivity).
  refine (proj2 (proj2 (proj2 (log_stored_exactly_once demo_broker 0%nat demo_entry demo_broker_reach Hi Hon))) Hs _).
  apply plain_check. vm_compute. reflexivity.
Defined.

Lemma frames_are_the_log_witness : let b := fold_left brokerStep demo_events (mkBroker true [] ∅ ∅ [] noOutput) in
  renderLines (sentLines 0 (br_sent b) ++ pendingLines (ca_pending (en_cast demo_entry))) = List.concat (lb_parts (en_buffer demo_entry)).
Proof.
  assert (br_entries (fold_left brokerStep demo_events (mkBroker true [] ∅ ∅ [] noOutput)) !! 0%nat = Some demo_entry) as Hi by (vm_compute; reflexivity).
  assert (lb_truncated (en_buffer demo_entry) = None) as Ht by (vm_compute; reflexivity).
  pose proof (frames_are_the_log demo_events noOutput 0%nat demo_entry Hi) as H. cbv zeta in H |- *. rewrite Ht in H. exact H.
Defined.

(** A line with a NUL is refused by the database at every attempt, and with it everything the
    run prints from then on: no later line is stored, and the end drops them. *)
Lemma nul_ends_the_stored_log :
  let before := fold_left brokerStep ([Begin demo_cfg; Emit "run-1" Stdout (units "one")] ++ demo_flush) (mkBroker true [] ∅ ∅ [] noOutput) in
  let after := fold_left brokerStep ([Emit "run-1" Stdout [97; 0; 98]] ++ demo_flush ++ [Emit "run-1" Stdout (units "two")] ++ demo_flush ++
                 [EndStream "run-1"; FlushStarts 0; FlushSettles 0 true; CallerResumes 0]) before in
  readRunLogText "run-1" (ro_logs (to_out (br_db before))) = units "one" ++ [LF] /\ readRunLogText "run-1" (ro_logs (to_out (br_db after))) = units "one" ++ [LF] /\
  isActive "run-1" after = false.
Proof. vm_compute. done. Qed.
