(* ===== verification/Sql.v ===== *)
(** * SQL expressions

    What the modelled statements use of the query language beyond filters: three-valued
    logic ([None] is NULL), comparisons and aggregates that meet NULL, [NULLIF], and the
    newest rows of a table by an instant. *)
From Stdlib Require Import ZArith Lia Ascii List Bool String Permutation Sorted.
From stdpp Require Import base list option strings.
From S2P Require Import Prelude.

Open Scope Z_scope.

(** ** Three-valued logic *)

Definition and3 (a b : option bool) : option bool :=
  match a, b with
  | Some false, _ | _, Some false => Some false
  | Some true, Some true => Some true
  | _, _ => None
  end.
Definition or3 (a b : option bool) : option bool :=
  match a, b with
  | Some true, _ | _, Some true => Some true
  | Some false, Some false => Some false
  | _, _ => None
  end.
Definition not3 (a : option bool) : option bool := negb <$> a.

(** A condition of [WHERE], [CASE] and [FILTER]: NULL is not true. *)
Definition isTrue (a : option bool) : bool := bool_decide (a = Some true).

(** [COALESCE(a, b)] for a condition. *)
Definition orElse (a : option bool) (b : bool) : bool := default b a.

(** [a > b] and [a <= b] where either side may be NULL. *)
Definition gt3 (a b : option Z) : option bool :=
  match a, b with Some x, Some y => Some (y <? x) | _, _ => None end.
Definition le3 (a b : option Z) : option bool :=
  match a, b with Some x, Some y => Some (x <=? y) | _, _ => None end.

Definition isNull {A} (a : option A) : bool := match a with None => true | Some _ => false end.
Definition notNull {A} (a : option A) : bool := negb (isNull a).

(** [NULLIF(x, '')]. *)
Definition nullIfEmpty (s : option string) : option string :=
  match s with Some "" => None | _ => s end.

(** [trim(both from s)] removes spaces, and only spaces. *)
Fixpoint ltrim (s : string) : string :=
  match s with String c s' => if Ascii.eqb c " "%char then ltrim s' else s | EmptyString => EmptyString end.
Fixpoint rtrim (s : string) : string :=
  match s with
  | EmptyString => EmptyString
  | String c s' => match rtrim s' with
                   | EmptyString => if Ascii.eqb c " "%char then EmptyString else String c EmptyString
                   | t => String c t
                   end
  end.
Definition btrim (s : string) : string := rtrim (ltrim s).

(** ** Stored JSON *)

Inductive Json :=
| JNull | JBool (b : bool) | JNum (n : Z) | JStr (s : string) | JArr (l : list Json) | JObj (l : list (string * Json)).

(** ** Instants with NULL *)

(** [GREATEST(a, b)]: NULL arguments are ignored. *)
Definition greatest (a b : option Z) : option Z :=
  match a, b with
  | Some x, Some y => Some (Z.max x y)
  | Some x, None => Some x
  | None, o => o
  end.

(** [max(...)] over the rows: NULLs are ignored, no value at all is NULL. *)
Definition maxO (l : list (option Z)) : option Z := fold_right greatest None l.
Arguments maxO : simpl never.

Lemma maxO_cons a l : maxO (a :: l) = greatest a (maxO l).
Proof. done. Qed.

(** [a > COALESCE(b, '-infinity')]. *)
Definition after (a : Z) (b : option Z) : bool := match b with None => true | Some y => y <? a end.

(** [COALESCE(a, '-infinity') < b]: [b] is later than an instant that may be unset. *)
Definition later (a : option Z) (b : option Z) : bool :=
  match b with None => false | Some y => after y a end.

Lemma greatest_spec a b m : greatest a b = Some m <->
  (a = Some m /\ (forall y, b = Some y -> y <= m)) \/ (b = Some m /\ (forall x, a = Some x -> x <= m)).
Proof.
  destruct a as [x|], b as [y|]; simpl; split.
  - intros [= <-]. destruct (Z.max_spec x y) as [[? ->]|[? ->]]; [right|left]; split; [done| |done|]; intros; simplify_eq; lia.
  - intros [[[= ->] H]|[[= ->] H]]; specialize (H _ eq_refl); f_equal; lia.
  - intros [= <-]. by left.
  - intros [[[= ->] _]|[? _]]; done.
  - intros [= <-]. by right.
  - intros [[? _]|[[= ->] _]]; done.
  - done.
  - intros [[? _]|[? _]]; done.
Qed.

Lemma maxO_some l m : maxO l = Some m -> In (Some m) l /\ (forall x, In (Some x) l -> x <= m).
Proof.
  revert m. induction l as [|a l IH]; simpl; intros m; [done|]. rewrite maxO_cons. intros [[-> H]|[Hm H]]%greatest_spec.
  - split; [by left|]. intros x [[= ->]|Hx]; [lia|].
    destruct (maxO l) as [y|] eqn:E; [|].
    + destruct (IH y eq_refl) as [_ Hy]. specialize (Hy x Hx). specialize (H y eq_refl). lia.
    + exfalso. clear -Hx E. induction l as [|b l IH]; [done|]. rewrite maxO_cons in E. destruct b as [b|], (maxO l); try done.
      destruct Hx as [?|Hx]; [done|auto].
  - destruct (IH m Hm) as [Hin Hle]. split; [by right|]. intros x [->|Hx]; auto.
Qed.

Lemma maxO_none l : maxO l = None <-> forall x, ~ In (Some x) l.
Proof.
  split.
  - induction l as [|a l IH]; simpl; [by intros _ x []|]. rewrite maxO_cons. intros H x [->|Hx]; [by destruct (maxO l)|].
    destruct a, (maxO l); try done. by apply (IH eq_refl x).
  - intros H. destruct (maxO l) as [m|] eqn:E; [|done]. apply maxO_some in E as [E _]. by destruct (H m).
Qed.

(** [x > max(rows)], [max] read as minus infinity over no rows: later than every one. *)
Lemma after_maxO x l : after x (maxO l) = true <-> forall y, In (Some y) l -> y < x.
Proof.
  unfold after. destruct (maxO l) as [m|] eqn:E.
  - apply maxO_some in E as [Hin Hle]. rewrite Z.ltb_lt. split; [|by intros H; apply H].
    intros H y Hy. specialize (Hle y Hy). lia.
  - rewrite maxO_none in E. split; [|done]. intros _ y Hy. by destruct (E y).
Qed.

Lemma maxO_lower l y : In (Some y) l -> exists m, maxO l = Some m /\ y <= m.
Proof.
  intros Hy. destruct (maxO l) as [m|] eqn:E.
  - exists m. split; [done|]. by apply maxO_some in E as [_ E]; apply E.
  - rewrite maxO_none in E. by destruct (E y).
Qed.

(** ** [ORDER BY at DESC LIMIT n] *)
Section Newest.
Context {A : Type} (at_ : A -> Z).

Definition descending (a b : A) : Z := at_ b - at_ a.
Definition newest (n : nat) (l : list A) : list A := take n (js_sort descending l).

#[export] Instance descending_comparator : Comparator descending.
Proof. split; unfold descending; intros; lia. Qed.

Lemma newest_In n l x : In x (newest n l) -> In x l.
Proof. intros H. apply (js_sort_In descending). unfold newest in H. apply list_elem_of_In in H. apply list_elem_of_In. rewrite <- (take_drop n). apply elem_of_app. by left. Qed.
End Newest.
