(* ===== verification/Pool.v ===== *)
(** * The container pool: which container a run gets

    Model of [packages/server/src/services/sandbox/pool.ts], the pure decision
    core of the sandbox pool: the acquisition ladder, the two idle-retirement
    planners, cross-project reclaim and the churn detector.

    Memory figures ([...Gb] in the source) are integers counted in bytes. Every
    figure the callers pass is a byte count divided by 1024^3 or a whole number of
    GB, sums of those are exact in a double, so no rounding is lost. Clock
    readings are integer milliseconds. *)
From Stdlib Require Import ZArith Lia List Permutation Sorted Bool Ascii String.
From stdpp Require Import base list gmap strings.
From S2P Require Import Prelude JsString.

Open Scope Z_scope.

(** ** Members, decisions, capacity *)

Inductive PoolMemberState := busy | idle | suspended.

#[export] Instance PoolMemberState_eq_dec : EqDecision PoolMemberState.
Proof. solve_decision. Defined.

Record PoolMember := mkPoolMember {
  member_id : string;
  state : PoolMemberState;
  lastTaskId : option string;
  hasUnpushedCommits : bool;
  atDiskCeiling : bool;
  memoryBytes : option Z;
  imageVersion : option string
}.

#[export] Instance PoolMember_eq_dec : EqDecision PoolMember.
Proof. solve_decision. Defined.

Inductive PoolDecision :=
| reuse (member : PoolMember)
| resume (member : PoolMember)
| recycle (members : list PoolMember)
| create
| reclaim (needGb : Z)
| queue.

Record PoolCapacity := mkPoolCapacity {
  usedMemoryGb : Z;
  budgetGb : Z;
  requestMemoryGb : Z;
  reclaimableMemoryGb : Z
}.

Definition is_state (s : PoolMemberState) (m : PoolMember) : bool := bool_decide (state m = s).

Definition usable (member : PoolMember) : bool :=
  negb (is_state busy member) && negb (atDiskCeiling member).

Definition fitsBudget (capacity : PoolCapacity) : bool :=
  usedMemoryGb capacity + requestMemoryGb capacity <=? budgetGb capacity.

Definition outdated (requiredMemoryBytes : Z) (requiredImageVersion : string)
    (m : PoolMember) : bool :=
  negb (bool_decide (memoryBytes m = Some requiredMemoryBytes))
  || negb (bool_decide (imageVersion m = Some requiredImageVersion)).

Definition shortfall (capacity : PoolCapacity) : Z :=
  usedMemoryGb capacity + requestMemoryGb capacity - budgetGb capacity.

Definition selectPoolMember (taskId : option string) (members : list PoolMember)
    (capacity : PoolCapacity) (requiredMemoryBytes : Z) (requiredImageVersion : string)
    : PoolDecision :=
  let outdated := outdated requiredMemoryBytes requiredImageVersion in
  let mismatched := List.filter
    (fun m => negb (is_state busy m) && negb (hasUnpushedCommits m) && outdated m) members in
  match mismatched with
  | _ :: _ => recycle mismatched
  | [] =>
      let available := List.filter (fun m => usable m && negb (outdated m)) members in
      let affine :=
        match taskId with
        | None => None
        | Some t => List.find
            (fun m => is_state idle m && bool_decide (lastTaskId m = Some t)) available
        end in
      match affine with
      | Some m => reuse m
      | None =>
          match List.find (is_state idle) available with
          | Some warm => reuse warm
          | None =>
              match List.find (is_state suspended) available, fitsBudget capacity with
              | Some m, true => resume m
              | _, true => create
              | _, false =>
                  let needGb := shortfall capacity in
                  if needGb <=? reclaimableMemoryGb capacity then reclaim needGb else queue
              end
          end
      end
  end.

(** ** Idle retirement *)

Record IdleRetirementPlan := mkIdleRetirementPlan {
  suspend : list PoolMember;
  destroy : list PoolMember
}.

Definition planIdleShutdown (members : list PoolMember) : IdleRetirementPlan :=
  let idles := List.filter (is_state idle) members in
  match idles with
  | [] => mkIdleRetirementPlan [] []
  | _ =>
      let pinned := List.filter hasUnpushedCommits idles in
      let disposable := List.filter (fun m => negb (hasUnpushedCommits m)) idles in
      match pinned with
      | _ :: _ => mkIdleRetirementPlan pinned disposable
      | [] =>
          if existsb (is_state suspended) members
          then mkIdleRetirementPlan [] disposable
          else match disposable with
               | first :: rest => mkIdleRetirementPlan [first] rest
               | [] => mkIdleRetirementPlan [] []
               end
      end
  end.

Definition is_stale (staleMemberIds : gset string) (m : PoolMember) : bool :=
  is_state idle m && bool_decide (member_id m ∈ staleMemberIds).

Definition planSurplusIdleRetirement (members : list PoolMember)
    (staleMemberIds : gset string) : IdleRetirementPlan :=
  let stale := List.filter (is_stale staleMemberIds) members in
  match stale with
  | [] => mkIdleRetirementPlan [] []
  | _ =>
      let pinned := List.filter hasUnpushedCommits stale in
      let disposable := List.filter (fun m => negb (hasUnpushedCommits m)) stale in
      let resumableAlready :=
        negb (bool_decide (pinned = []))
        || existsb (fun m => is_state busy m || is_state suspended m
             || (is_state idle m && negb (bool_decide (member_id m ∈ staleMemberIds)))) members in
      if resumableAlready then mkIdleRetirementPlan pinned disposable
      else match disposable with
           | keep :: rest => mkIdleRetirementPlan [keep] rest
           | [] => mkIdleRetirementPlan [] []
           end
  end.

(** ** Cross-project reclaim *)

Record ReclaimCandidate := mkReclaimCandidate {
  containerId : string;
  projectId : string;
  memoryGb : Z;
  idleForMs : Z;
  ageMs : option Z;
  projectResumableMembers : Z;
  rc_hasUnpushedCommits : bool
}.

Record ReclaimPlan := mkReclaimPlan {
  rp_suspend : list ReclaimCandidate;
  rp_destroy : list ReclaimCandidate;
  freedGb : Z
}.

Definition emptyReclaimPlan : ReclaimPlan := mkReclaimPlan [] [] 0.

(** [map.set(k, (map.get(k) ?? 0) + 1)]. *)
Definition incr (k : string) (m : gmap string Z) : gmap string Z :=
  <[k := default 0 (m !! k) + 1]> m.

Definition eligible (minIdleMs minAgeMs : Z) (c : ReclaimCandidate) : bool :=
  (minIdleMs <=? idleForMs c)
  && match ageMs c with None => true | Some a => minAgeMs <=? a end.

Definition heldBy (cs : list ReclaimCandidate) : gmap string Z :=
  fold_left (fun m c => incr (projectId c) m) cs ∅.

Section Reclaim.
(** [String.prototype.localeCompare]: the host's collation, a parameter. *)
Context (localeCompare : string -> string -> Z).

Definition reclaimOrder (held : gmap string Z) (a b : ReclaimCandidate) : Z :=
  let byHoard := default 0 (held !! projectId b) - default 0 (held !! projectId a) in
  if negb (byHoard =? 0) then byHoard
  else if negb (idleForMs b =? idleForMs a) then idleForMs b - idleForMs a
  else localeCompare (containerId a) (containerId b).

Definition reclaimStep (plan : ReclaimPlan) (taken : Z) (c : ReclaimCandidate) : ReclaimPlan :=
  let wouldStrandVictim := projectResumableMembers c <=? taken in
  if rc_hasUnpushedCommits c || wouldStrandVictim
  then mkReclaimPlan (rp_suspend plan ++ [c]) (rp_destroy plan) (freedGb plan + memoryGb c)
  else mkReclaimPlan (rp_suspend plan) (rp_destroy plan ++ [c]) (freedGb plan + memoryGb c).

Fixpoint reclaimLoop (needGb : Z) (ordered : list ReclaimCandidate)
    (takenFrom : gmap string Z) (plan : ReclaimPlan) : ReclaimPlan :=
  match ordered with
  | [] => plan
  | candidate :: rest =>
      if needGb <=? freedGb plan then plan
      else
        let taken := default 0 (takenFrom !! projectId candidate) + 1 in
        reclaimLoop needGb rest (<[projectId candidate := taken]> takenFrom)
          (reclaimStep plan taken candidate)
  end.

Definition planCrossProjectReclaim (candidates : list ReclaimCandidate)
    (needGb minIdleMs minAgeMs : Z) : ReclaimPlan :=
  if needGb <=? 0 then emptyReclaimPlan
  else
    let elig := List.filter (eligible minIdleMs minAgeMs) candidates in
    if fold_left (fun sum c => sum + memoryGb c) elig 0 <? needGb then emptyReclaimPlan
    else reclaimLoop needGb (js_sort (reclaimOrder (heldBy elig)) elig) ∅ emptyReclaimPlan.
End Reclaim.

(** ** Churn *)

Record ReclaimEvent := mkReclaimEvent {
  atMs : Z;
  requestingProjectId : string;
  victimProjectId : string;
  ev_freedGb : Z
}.

Record ChurnVerdict := mkChurnVerdict {
  churning : bool;
  reclaims : Z;
  reciprocal : option (string * string);
  cv_freedGb : Z
}.

Definition gt_char : Ascii.ascii := ">"%char.

Definition edge (from to : string) : string := from +:+ String gt_char to.

(** The distinct edges in first-insertion order, as a [Set] iterates. *)
Definition js_set (l : list string) : list string :=
  fold_left (fun acc x => if bool_decide (x ∈ acc) then acc else acc ++ [x]) l [].

(** The [for (const edge of took)] loop: the first edge whose reverse is in the set. *)
Fixpoint firstReciprocal (took : list string) (rest : list string) : option (string * string) :=
  match rest with
  | [] => None
  | e :: rest' =>
      match split_on gt_char e with
      | from :: to :: _ =>
          if bool_decide (edge to from ∈ took) then Some (from, to)
          else firstReciprocal took rest'
      | _ => firstReciprocal took rest'
      end
  end.

Definition detectReclaimChurn (events : list ReclaimEvent) (nowMs windowMs minReclaims : Z)
    : ChurnVerdict :=
  let recent := List.filter (fun e => nowMs - atMs e <=? windowMs) events in
  let freed := fold_left (fun s e => s + ev_freedGb e) recent 0 in
  let n := Z.of_nat (List.length recent) in
  if n <? minReclaims then mkChurnVerdict false n None freed
  else
    let took := js_set (List.map (fun e => edge (requestingProjectId e) (victimProjectId e)) recent) in
    match firstReciprocal took took with
    | Some p => mkChurnVerdict true n (Some p) freed
    | None => mkChurnVerdict (minReclaims <=? n) n None freed
    end.

(** ** The ladder as a declarative specification

    One constructor per rung of the documented ladder. [selectPoolMember] is
    proved to compute exactly this relation, so the rungs below are what may
    happen, with nothing else reachable. *)
Section Ladder.
Context (taskId : option string) (members : list PoolMember) (capacity : PoolCapacity)
  (requiredMemoryBytes : Z) (requiredImageVersion : string).

(** Provisioned to the current cap, from the current image. *)
Definition matches (m : PoolMember) : Prop :=
  memoryBytes m = Some requiredMemoryBytes /\ imageVersion m = Some requiredImageVersion.

(** Free to be destroyed for a mismatch: serves no run and holds no unpushed work. *)
Definition recyclable (m : PoolMember) : Prop :=
  state m <> busy /\ hasUnpushedCommits m = false /\ ~ matches m.

(** May serve a run. *)
Definition candidate (s : PoolMemberState) (m : PoolMember) : Prop :=
  state m = s /\ s <> busy /\ atDiskCeiling m = false /\ matches m.

Definition no_candidate (s : PoolMemberState) : Prop :=
  forall m, In m members -> ~ candidate s m.

(** [m] is the first member of the list satisfying [P]. *)
Definition first_of (P : PoolMember -> Prop) (m : PoolMember) : Prop :=
  exists l1 l2, members = l1 ++ m :: l2 /\ P m /\ forall x, In x l1 -> ~ P x.

Definition affine (m : PoolMember) : Prop :=
  candidate idle m /\ taskId <> None /\ lastTaskId m = taskId.

Inductive ladder : PoolDecision -> Prop :=
| rung_recycle ms :
    ms <> [] ->
    (exists p, ms = List.filter p members /\ forall m, In m members -> p m = true <-> recyclable m) ->
    ladder (recycle ms)
| rung_affine m :
    (forall x, In x members -> ~ recyclable x) ->
    first_of affine m -> ladder (reuse m)
| rung_warm m :
    (forall x, In x members -> ~ recyclable x) -> (forall x, In x members -> ~ affine x) ->
    first_of (candidate idle) m -> ladder (reuse m)
| rung_resume m :
    (forall x, In x members -> ~ recyclable x) -> no_candidate idle ->
    first_of (candidate suspended) m -> shortfall capacity <= 0 -> ladder (resume m)
| rung_create :
    (forall x, In x members -> ~ recyclable x) -> no_candidate idle -> no_candidate suspended ->
    shortfall capacity <= 0 -> ladder create
| rung_reclaim n :
    (forall x, In x members -> ~ recyclable x) -> no_candidate idle ->
    n = shortfall capacity -> 0 < n <= reclaimableMemoryGb capacity -> ladder (reclaim n)
| rung_queue :
    (forall x, In x members -> ~ recyclable x) -> no_candidate idle ->
    0 < shortfall capacity -> reclaimableMemoryGb capacity < shortfall capacity -> ladder queue.
End Ladder.

Section SelectLemmas.
Context (taskId : option string) (members : list PoolMember) (capacity : PoolCapacity)
  (mem : Z) (img : string).

Definition recyclableb (m : PoolMember) : bool :=
  negb (is_state busy m) && negb (hasUnpushedCommits m) && outdated mem img m.

Lemma outdated_spec m : outdated mem img m = true <-> ~ matches mem img m.
Proof.
  unfold outdated, matches. rewrite orb_true_iff, !negb_true_iff, !bool_decide_eq_false.
  destruct (decide (memoryBytes m = Some mem)), (decide (imageVersion m = Some img)); tauto.
Qed.

Lemma outdated_false_spec m : outdated mem img m = false <-> matches mem img m.
Proof.
  unfold outdated, matches. rewrite orb_false_iff, !negb_false_iff, !bool_decide_eq_true. done.
Qed.

Lemma recyclableb_spec m : recyclableb m = true <-> recyclable mem img m.
Proof.
  unfold recyclableb, recyclable, is_state.
  rewrite !andb_true_iff, !negb_true_iff, bool_decide_eq_false, outdated_spec. tauto.
Qed.

Definition availableb (m : PoolMember) : bool := usable m && negb (outdated mem img m).

Lemma candidateb_spec s m :
  s <> busy -> availableb m && is_state s m = true <-> candidate mem img s m.
Proof.
  intros Hs. unfold availableb, usable, candidate, is_state.
  rewrite !andb_true_iff, !negb_true_iff, bool_decide_eq_false, bool_decide_eq_true,
    outdated_false_spec.
  split; [naive_solver|]. intros (<- & ? & ? & ?). tauto.
Qed.

Lemma find_filter_first_of (p q : PoolMember -> bool) (P : PoolMember -> Prop) m :
  (forall x, p x && q x = true <-> P x) ->
  List.find q (List.filter p members) = Some m -> first_of members P m.
Proof.
  intros HP. unfold first_of. induction members as [|x l IH]; simpl; [done|].
  destruct (p x) eqn:Ep; simpl.
  - destruct (q x) eqn:Eq; intros H.
    + simplify_eq. exists [], l. split_and!; [done| |done]. apply HP. by rewrite Ep, Eq.
    + destruct (IH H) as (l1 & l2 & -> & Hm & Hl1). exists (x :: l1), l2.
      split_and!; [done|done|]. intros y [<-|Hy]; [|by apply Hl1].
      rewrite <- HP, Ep, Eq. done.
  - intros H. destruct (IH H) as (l1 & l2 & -> & Hm & Hl1). exists (x :: l1), l2.
    split_and!; [done|done|]. intros y [<-|Hy]; [|by apply Hl1].
    rewrite <- HP, Ep. done.
Qed.

Lemma find_filter_none (p q : PoolMember -> bool) (P : PoolMember -> Prop) :
  (forall x, p x && q x = true <-> P x) ->
  List.find q (List.filter p members) = None -> forall x, In x members -> ~ P x.
Proof.
  intros HP Hf x Hx Hpx. apply HP in Hpx. apply andb_true_iff in Hpx as [Hp Hq].
  rewrite find_none_iff in Hf. rewrite Hf in Hq; [done|]. by apply filter_In.
Qed.
End SelectLemmas.

Section SelectCorrect.
Context (taskId : option string) (members : list PoolMember) (capacity : PoolCapacity)
  (mem : Z) (img : string).

Lemma ladder_recycle ms :
  List.filter (recyclableb mem img) members = ms -> ms <> [] ->
  ladder taskId members capacity mem img (recycle ms).
Proof.
  intros <- Hne. constructor; [done|]. exists (recyclableb mem img). split; [done|].
  intros m _. apply recyclableb_spec.
Qed.

Lemma no_recyclable :
  List.filter (recyclableb mem img) members = [] ->
  forall x, In x members -> ~ recyclable mem img x.
Proof.
  rewrite filter_nil_iff. intros H x Hx. rewrite <- recyclableb_spec, (H x Hx). done.
Qed.

Lemma affineb_spec t m :
  availableb mem img m && (is_state idle m && bool_decide (lastTaskId m = Some t)) = true
  <-> affine (Some t) mem img m.
Proof.
  unfold affine. rewrite andb_assoc, andb_true_iff, candidateb_spec, bool_decide_eq_true by done.
  naive_solver.
Qed.

Lemma ladder_below_affine :
  List.filter (recyclableb mem img) members = [] ->
  (forall x, In x members -> ~ affine taskId mem img x) ->
  ladder taskId members capacity mem img
    (match List.find (is_state idle) (List.filter (availableb mem img) members) with
     | Some warm => reuse warm
     | None =>
         match List.find (is_state suspended) (List.filter (availableb mem img) members),
               fitsBudget capacity with
         | Some m, true => resume m
         | _, true => create
         | _, false =>
             if shortfall capacity <=? reclaimableMemoryGb capacity
             then reclaim (shortfall capacity) else queue
         end
     end).
Proof.
  intros Hr0 Ha. pose proof (no_recyclable Hr0) as Hr. unfold fitsBudget.
  assert (forall x, availableb mem img x && is_state idle x = true <-> candidate mem img idle x)
    as Hidle by (intros; by apply candidateb_spec).
  assert (forall x, availableb mem img x && is_state suspended x = true
    <-> candidate mem img suspended x) as Hsusp by (intros; by apply candidateb_spec).
  destruct (List.find (is_state idle) _) as [w|] eqn:Ew.
  { apply rung_warm; [done|done|]. eapply find_filter_first_of; eauto. }
  pose proof (find_filter_none members _ _ _ Hidle Ew) as Hni.
  destruct (Z.leb_spec (usedMemoryGb capacity + requestMemoryGb capacity) (budgetGb capacity));
    destruct (List.find (is_state suspended) _) as [sm|] eqn:Es;
    try (destruct (Z.leb_spec (shortfall capacity) (reclaimableMemoryGb capacity)));
    try pose proof (find_filter_none members _ _ _ Hsusp Es) as Hns;
    econstructor; eauto using find_filter_first_of; unfold shortfall in *; lia.
Qed.

End SelectCorrect.

Lemma selectPoolMember_sound taskId members capacity mem img :
  ladder taskId members capacity mem img (selectPoolMember taskId members capacity mem img).
Proof.
  unfold selectPoolMember. fold (recyclableb mem img). fold (availableb mem img).
  destruct (List.filter (recyclableb mem img) members) as [|r rs] eqn:Er;
    [|by apply ladder_recycle].
  destruct taskId as [t|]; [|apply ladder_below_affine; [done|unfold affine; naive_solver]].
  destruct (List.find _ (List.filter (availableb mem img) members)) as [m|] eqn:Ea.
  - apply rung_affine; [by apply no_recyclable|].
    eapply find_filter_first_of; [apply affineb_spec|done].
  - apply ladder_below_affine; [done|].
    eapply find_filter_none; [apply affineb_spec|done].
Qed.

(** The first element satisfying a predicate is unique. *)
Lemma first_of_unique members (P : PoolMember -> Prop) m1 m2 :
  first_of members P m1 -> first_of members P m2 -> m1 = m2.
Proof.
  intros (a1 & b1 & H1 & Hp1 & Hn1) (a2 & b2 & H2 & Hp2 & Hn2).
  subst members. revert a2 Hn2 H2. induction a1 as [|x a1 IH]; intros [|y a2] Hn2 H2; simplify_eq/=.
  - done.
  - exfalso. eapply Hn2; [by left|done].
  - exfalso. eapply Hn1; [by left|done].
  - apply (IH (fun z Hz => Hn1 z (or_intror Hz)) a2); [|done].
    intros z Hz. apply Hn2. by right.
Qed.

Lemma first_of_in members (P : PoolMember -> Prop) m :
  first_of members P m -> In m members /\ P m.
Proof. intros (l1 & l2 & -> & Hp & _). split; [|done]. apply in_app_iff. right. by left. Qed.

Lemma recycled_in members mem img (ms : list PoolMember) :
  ms <> [] ->
  (exists p, ms = List.filter p members /\
     forall m, In m members -> p m = true <-> recyclable mem img m) ->
  exists x, In x members /\ recyclable mem img x.
Proof.
  intros Hne (p & -> & Hp). destruct (List.filter p members) as [|x l] eqn:E; [done|].
  assert (In x (List.filter p members)) as Hx by (rewrite E; by left).
  apply filter_In in Hx as [? ?]. exists x. split; [done|]. by apply Hp.
Qed.

Lemma recycled_unique members mem img (ms1 ms2 : list PoolMember) :
  (exists p, ms1 = List.filter p members /\
     forall m, In m members -> p m = true <-> recyclable mem img m) ->
  (exists p, ms2 = List.filter p members /\
     forall m, In m members -> p m = true <-> recyclable mem img m) -> ms1 = ms2.
Proof.
  intros (p & -> & Hp) (q & -> & Hq). apply filter_ext_in. intros x Hx.
  specialize (Hp x Hx). specialize (Hq x Hx).
  destruct (p x), (q x); try done; exfalso; [assert (false = true) by tauto|
    assert (false = true) by tauto]; done.
Qed.

(** The rungs exclude each other. *)
Lemma ladder_det taskId members capacity mem img d1 d2 :
  ladder taskId members capacity mem img d1 -> ladder taskId members capacity mem img d2 -> d1 = d2.
Proof.
  intros H1 H2.
  destruct H1; destruct H2; subst;
    repeat match goal with
    | Hn : ?ms <> [], Hx : exists p, ?ms = List.filter p _ /\ _, Hr : forall x, In x _ -> ~ recyclable _ _ x |- _ =>
        exfalso; destruct (recycled_in _ _ _ _ Hn Hx) as (? & ? & ?); naive_solver
    | Hn : forall x, In x _ -> ~ affine _ _ _ x, Hf : first_of _ (affine _ _ _) _ |- _ =>
        exfalso; apply first_of_in in Hf as [? ?]; naive_solver
    | Hn : no_candidate _ _ _ ?s, Hf : first_of _ (candidate _ _ ?s) _ |- _ =>
        exfalso; apply first_of_in in Hf as [? ?]; eapply Hn; eauto
    | Hn : no_candidate _ _ _ idle, Hf : first_of _ (affine _ _ _) _ |- _ =>
        exfalso; apply first_of_in in Hf as [? [? ?]]; eapply Hn; eauto
    end; try lia; f_equal; eauto using first_of_unique, recycled_unique.
Qed.

(** C21. [selectPoolMember] computes the documented ladder and nothing else: a
    decision is returned exactly when its rung holds. In particular no rung hands
    out or recycles a busy container, a container holding unpushed commits is
    never recycled, a reused or resumed container was provisioned to the required
    cap from the required image and is below its disk ceiling, a resume or create
    fits the budget, and a reclaim asks for exactly the shortfall, which is
    positive and covered by what other projects hold idle. *)
Theorem selectPoolMember_refines_ladder taskId members capacity mem img d :
  selectPoolMember taskId members capacity mem img = d
  <-> ladder taskId members capacity mem img d.
Proof.
  split; [intros <-; apply selectPoolMember_sound|].
  intros H. eapply ladder_det; [apply selectPoolMember_sound|done].
Qed.

(** Recycling converges in one pass: once the members a [recycle] decision
    names are gone, deciding again over the remaining members never asks to
    recycle, and every member that was serving a run or holding unpushed commits
    is still there. *)
Theorem recycle_converges taskId members capacity mem img ms :
  selectPoolMember taskId members capacity mem img = recycle ms ->
  let rest := List.filter (fun m => negb (bool_decide (m ∈ ms))) members in
  (forall ms', selectPoolMember taskId rest capacity mem img <> recycle ms')
  /\ (forall m, In m members -> state m = busy \/ hasUnpushedCommits m = true -> In m rest).
Proof.
  intros H rest. pose proof (selectPoolMember_sound taskId members capacity mem img) as HL.
  rewrite H in HL. inversion HL as [? Hne Hex| | | | | |]; subst.
  destruct Hex as (p & Hms & Hp). split.
  - intros ms' H'. pose proof (selectPoolMember_sound taskId rest capacity mem img) as HL'.
    rewrite H' in HL'. inversion HL' as [? Hne' Hex'| | | | | |]; subst.
    destruct (recycled_in _ _ _ _ Hne' Hex') as (x & Hx & Hrx).
    apply filter_In in Hx as [Hx Hnot]. apply negb_true_iff, bool_decide_eq_false in Hnot.
    apply Hnot, list_elem_of_In, filter_In. split; [done|]. by apply Hp.
  - intros m Hm Hkeep. apply filter_In. split; [done|].
    apply negb_true_iff, bool_decide_eq_false. rewrite list_elem_of_In. intros Hin.
    rewrite Hms in Hin. apply filter_In in Hin as [_ Hpm]. apply Hp in Hpm; [|done].
    destruct Hpm as (? & ? & _). destruct Hkeep; congruence.
Qed.

(** ** Idle retirement: one invariant for both planners *)

(** What a retirement plan over [targets] promises the project's pool. *)
Record retirement_safe (members targets : list PoolMember) (plan : IdleRetirementPlan) : Prop := {
  (** every target is retired, once, and nothing else is *)
  rs_targets : Permutation (suspend plan ++ destroy plan) targets;
  (** work that reached no durable remote is never destroyed *)
  rs_unpushed : forall m, In m (destroy plan) -> hasUnpushedCommits m = false;
  (** the project keeps a way to serve its next run without a cold provision *)
  rs_warm : targets <> [] ->
    suspend plan <> [] \/ exists m, In m members /\ ~ In m targets;
  (** containers kept only for warmth: at most one suspended per project *)
  rs_one_suspended : (forall m, In m targets -> hasUnpushedCommits m = false) ->
    (length (suspend plan) + length (List.filter (is_state suspended) members)
     <= Nat.max 1 (length (List.filter (is_state suspended) members)))%nat
}.

Lemma not_idle_target (p : PoolMember -> bool) members m :
  (forall x, p x = true -> state x = idle) -> state m <> idle -> ~ In m (List.filter p members).
Proof. intros Hp Hm [_ Hin]%filter_In. by apply Hm, Hp. Qed.

Lemma pinned_empty_disposable (l : list PoolMember) :
  List.filter hasUnpushedCommits l = [] ->
  List.filter (fun m => negb (hasUnpushedCommits m)) l = l.
Proof.
  rewrite filter_nil_iff. induction l as [|x l IH]; intros H; simpl; [done|].
  rewrite (H x) by (by left). simpl. f_equal. apply IH. intros y Hy. apply H. by right.
Qed.

(** The shared arm: pinned members suspended, the rest destroyed. *)
Lemma retirement_safe_split members targets :
  (List.filter hasUnpushedCommits targets <> []
   \/ exists m, In m members /\ ~ In m targets) ->
  retirement_safe members targets
    (mkIdleRetirementPlan (List.filter hasUnpushedCommits targets)
       (List.filter (fun m => negb (hasUnpushedCommits m)) targets)).
Proof.
  intros Hwarm. constructor; simpl.
  - symmetry. apply filter_partition_perm.
  - intros m [_ H]%filter_In. by apply negb_true_iff.
  - done.
  - intros Hclean. assert (List.filter hasUnpushedCommits targets = []) as ->; [|simpl; lia].
    apply filter_nil_iff. done.
Qed.

(** The other shared arm: nothing pinned and nothing else resumable, so the first
    target is held back and suspended. *)
Lemma retirement_safe_keep members targets :
  List.filter hasUnpushedCommits targets = [] ->
  existsb (is_state suspended) members = false ->
  retirement_safe members targets
    match List.filter (fun m => negb (hasUnpushedCommits m)) targets with
    | first :: rest => mkIdleRetirementPlan [first] rest
    | [] => mkIdleRetirementPlan [] []
    end.
Proof.
  intros Hp Hs. rewrite (pinned_empty_disposable _ Hp).
  rewrite filter_nil_iff in Hp. rewrite existsb_false_iff, <- filter_nil_iff in Hs.
  destruct targets as [|t ts]; constructor; simpl; rewrite ?Hs; simpl; try done; try lia.
  - intros m Hm. apply Hp. by right.
  - by left.
Qed.

(** [planIdleShutdown] retires exactly the idle members, never destroys
    unpushed work, leaves the project a resumable container, and keeps at most
    one container suspended purely for warmth. *)
Theorem planIdleShutdown_safe members :
  retirement_safe members (List.filter (is_state idle) members) (planIdleShutdown members).
Proof.
  unfold planIdleShutdown.
  destruct (List.filter (is_state idle) members) as [|i rest] eqn:Ei.
  { constructor; simpl; try done; lia. }
  rewrite <- Ei. destruct (List.filter hasUnpushedCommits _) as [|p ps] eqn:Ep.
  - destruct (existsb (is_state suspended) members) eqn:Es; [|by apply retirement_safe_keep].
    rewrite <- Ep. apply retirement_safe_split. right.
    apply existsb_exists in Es as (m & Hm & Hs). apply bool_decide_eq_true in Hs.
    exists m. split; [done|].
    apply not_idle_target; [|congruence]. intros x. apply bool_decide_eq_true.
  - rewrite <- Ep. apply retirement_safe_split. left. by rewrite Ep.
Qed.

(** [planSurplusIdleRetirement] keeps the same promises over the stale idle
    members: two planners, one invariant. *)
Theorem planSurplusIdleRetirement_safe members staleMemberIds :
  retirement_safe members (List.filter (is_stale staleMemberIds) members)
    (planSurplusIdleRetirement members staleMemberIds).
Proof.
  unfold planSurplusIdleRetirement.
  destruct (List.filter (is_stale staleMemberIds) members) as [|i rest] eqn:Ei.
  { constructor; simpl; try done; lia. }
  rewrite <- Ei.
  destruct (negb (bool_decide (List.filter hasUnpushedCommits _ = [])) || _) eqn:Er.
  - apply retirement_safe_split. apply orb_true_iff in Er as [Er|Er].
    + left. by apply negb_true_iff, bool_decide_eq_false in Er.
    + right. apply existsb_exists in Er as (m & Hm & Hr). exists m. split; [done|].
      intros [_ Hst]%filter_In. unfold is_stale, is_state in *. brefl.
      destruct Hr as [[?|?]|[_ ?]]; congruence.
  - apply orb_false_iff in Er as [Ep Er]. apply negb_false_iff, bool_decide_eq_true in Ep.
    apply retirement_safe_keep; [done|]. rewrite existsb_false_iff in Er |- *.
    intros m Hm. specialize (Er m Hm). apply orb_false_iff in Er as [Er _].
    by apply orb_false_iff in Er as [_ ?].
Qed.

(** ** Cross-project reclaim: lemmas *)

Definition of_project (P : string) (c : ReclaimCandidate) : bool := bool_decide (projectId c = P).

(** The loop takes a prefix of the ordered candidates, stops as soon as the need
    is covered, and files each one it takes under exactly one of the two lists. *)
Lemma reclaimLoop_spec needGb ordered takenFrom plan :
  let p := reclaimLoop needGb ordered takenFrom plan in
  exists taken rest,
    ordered = taken ++ rest
    /\ Permutation (rp_suspend p ++ rp_destroy p) (rp_suspend plan ++ rp_destroy plan ++ taken)
    /\ freedGb p = freedGb plan + sumZ memoryGb taken
    /\ (needGb <= freedGb p \/ rest = [])
    /\ forall t1 c t2, taken = t1 ++ c :: t2 -> freedGb plan + sumZ memoryGb t1 < needGb.
Proof.
  revert takenFrom plan. induction ordered as [|c ordered IH]; intros takenFrom plan; simpl.
  { exists [], []. rewrite !app_nil_r, sumZ_nil. split_and!; try done; [lia|by right|].
    intros [] ?? ?; done. }
  destruct (Z.leb_spec needGb (freedGb plan)) as [Hle|Hlt].
  { exists [], (c :: ordered). rewrite app_nil_r, sumZ_nil. split_and!; try done; [lia|by left|].
    intros [] ?? ?; done. }
  destruct (IH (<[projectId c:=default 0 (takenFrom !! projectId c) + 1]> takenFrom)
    (reclaimStep plan (default 0 (takenFrom !! projectId c) + 1) c))
    as (taken & rest & -> & Hperm & Hfreed & Hstop & Hmin).
  assert (freedGb (reclaimStep plan (default 0 (takenFrom !! projectId c) + 1) c)
    = freedGb plan + memoryGb c) as Hstep by (unfold reclaimStep; by break_match).
  exists (c :: taken), rest. split_and!; [done| | | |].
  - rewrite Hperm. unfold reclaimStep. break_match; simpl.
    + rewrite <- app_assoc. apply Permutation_app_head. simpl. apply Permutation_middle.
    + rewrite <- app_assoc. done.
  - rewrite Hfreed, Hstep, sumZ_cons. lia.
  - done.
  - intros t1 c' t2 Heq. destruct t1 as [|x t1]; simplify_eq/=; [rewrite sumZ_nil; lia|].
    rewrite sumZ_cons. specialize (Hmin t1 c' t2 eq_refl). lia.
Qed.

(** The shape of a plan, shared by the theorems on reclaims. *)
Lemma reclaim_plan_shape lc candidates needGb minIdleMs minAgeMs :
  let elig := List.filter (eligible minIdleMs minAgeMs) candidates in
  let p := planCrossProjectReclaim lc candidates needGb minIdleMs minAgeMs in
  if (needGb <=? 0) || (sumZ memoryGb elig <? needGb) then p = emptyReclaimPlan
  else exists taken rest,
    js_sort (reclaimOrder lc (heldBy elig)) elig = taken ++ rest
    /\ Permutation (rp_suspend p ++ rp_destroy p) taken
    /\ freedGb p = sumZ memoryGb taken
    /\ needGb <= freedGb p
    /\ forall t1 c t2, taken = t1 ++ c :: t2 -> sumZ memoryGb t1 < needGb.
Proof.
  intros elig p. unfold p, planCrossProjectReclaim. fold elig. rewrite fold_left_sumZ, Z.add_0_l.
  destruct (Z.leb_spec needGb 0), (Z.ltb_spec (sumZ memoryGb elig) needGb); try done; simpl.
  set (ordered := js_sort _ elig).
  destruct (reclaimLoop_spec needGb ordered ∅ emptyReclaimPlan)
    as (taken & rest & Ho & Hperm & Hfreed & Hstop & Hmin).
  exists taken, rest. split_and!; [done|done|simpl in Hfreed; lia| |].
  - destruct Hstop as [ | ->]; [done|]. rewrite Hfreed. simpl.
    rewrite app_nil_r in Ho. rewrite <- Ho. unfold ordered.
    rewrite <- (sumZ_perm _ _ _ (js_sort_perm (reclaimOrder lc (heldBy elig)) elig)). lia.
  - intros t1 c t2 Ht. specialize (Hmin t1 c t2 Ht). simpl in Hmin. lia.
Qed.

(** A reclaim is all or nothing and never more than needed. When the eligible
    candidates cannot cover the need the plan is empty; otherwise the plan retires
    a prefix of the victim order that covers the need, its [freedGb] is what those
    containers hold, and every container in it was still needed when it was
    reached (dropping it and what follows leaves the need uncovered). *)
Theorem planCrossProjectReclaim_all_or_nothing lc candidates needGb minIdleMs minAgeMs :
  let elig := List.filter (eligible minIdleMs minAgeMs) candidates in
  let p := planCrossProjectReclaim lc candidates needGb minIdleMs minAgeMs in
  if (needGb <=? 0) || (sumZ memoryGb elig <? needGb) then p = emptyReclaimPlan
  else exists taken rest,
    js_sort (reclaimOrder lc (heldBy elig)) elig = taken ++ rest
    /\ Permutation (rp_suspend p ++ rp_destroy p) taken
    /\ freedGb p = sumZ memoryGb taken
    /\ needGb <= freedGb p
    /\ forall t1 c t2, taken = t1 ++ c :: t2 -> sumZ memoryGb t1 < needGb.
Proof. apply reclaim_plan_shape. Qed.

(** Victim accounting, as the loop maintains it for one project [P] that holds
    [n] resumable members. *)
Definition clean_suspended (P : string) (c : ReclaimCandidate) : bool :=
  of_project P c && negb (rc_hasUnpushedCommits c).

Record victim_inv (P : string) (n : Z) (takenFrom : gmap string Z) (plan : ReclaimPlan) : Prop := {
  vi_unpushed : forall c, In c (rp_destroy plan) -> rc_hasUnpushedCommits c = false;
  vi_destroyed : countZ (of_project P) (rp_destroy plan) <= default 0 (takenFrom !! P);
  vi_left : countZ (of_project P) (rp_destroy plan) = 0
            \/ countZ (of_project P) (rp_destroy plan) < n;
  vi_stranded : countZ (clean_suspended P) (rp_suspend plan)
            <= Z.max 0 (default 0 (takenFrom !! P) - n + 1)
}.

Lemma victim_inv_step P n takenFrom plan c :
  (projectId c = P -> projectResumableMembers c = n) ->
  victim_inv P n takenFrom plan ->
  let taken := default 0 (takenFrom !! projectId c) + 1 in
  victim_inv P n (<[projectId c := taken]> takenFrom) (reclaimStep plan taken c).
Proof.
  intros Hn [Hu Hd Hl Hs] taken.
  assert (default 0 (<[projectId c:=taken]> takenFrom !! P)
    = default 0 (takenFrom !! P) + (if of_project P c then 1 else 0)) as HT.
  { unfold of_project, taken. destruct (decide (projectId c = P)) as [<-|Hne].
    - rewrite lookup_insert_eq, bool_decide_eq_true_2 by done. simpl. lia.
    - rewrite lookup_insert_ne, bool_decide_eq_false_2 by done. simpl. lia. }
  assert (of_project P c = true -> taken = default 0 (takenFrom !! P) + 1
    /\ projectResumableMembers c = n) as Hof.
  { intros Hp%bool_decide_eq_true. unfold taken. rewrite Hp. split; [done|]. by apply Hn. }
  unfold reclaimStep.
  destruct (rc_hasUnpushedCommits c || (projectResumableMembers c <=? taken)) eqn:Eb;
    constructor; simpl; rewrite ?HT, ?countZ_app, ?countZ_cons, ?countZ_nil.
  - done.
  - destruct (of_project P c); lia.
  - done.
  - destruct (clean_suspended P c) eqn:Ec; [|destruct (of_project P c); lia].
    apply andb_true_iff in Ec as [Hp Hc]. rewrite Hp. destruct (Hof Hp) as [Ht Hm].
    apply negb_true_iff in Hc. rewrite Hc in Eb. apply Z.leb_le in Eb. lia.
  - intros x [Hx|[<-|[]]]%in_app_iff; [by apply Hu|]. by apply orb_false_iff in Eb as [? _].
  - destruct (of_project P c); lia.
  - apply orb_false_iff in Eb as [_ Eb%Z.leb_gt].
    destruct (of_project P c); [|destruct Hl; lia]. destruct (Hof eq_refl) as [Ht Hm].
    right. pose proof (countZ_nonneg (of_project P) (rp_destroy plan)). lia.
  - destruct (of_project P c); lia.
Qed.

Lemma reclaimLoop_victims P n needGb ordered takenFrom plan :
  (forall c, In c ordered -> projectId c = P -> projectResumableMembers c = n) ->
  victim_inv P n takenFrom plan ->
  exists takenFrom', victim_inv P n takenFrom' (reclaimLoop needGb ordered takenFrom plan)
    /\ default 0 (takenFrom' !! P) <= default 0 (takenFrom !! P) + countZ (of_project P) ordered.
Proof.
  revert takenFrom plan. induction ordered as [|c ordered IH]; intros takenFrom plan Hn Hinv; simpl.
  { exists takenFrom. split; [done|]. rewrite countZ_nil. lia. }
  pose proof (countZ_nonneg (of_project P) (c :: ordered)).
  destruct (needGb <=? freedGb plan); [exists takenFrom; split; [done|lia]|].
  destruct (IH _ _ (fun x Hx => Hn x (or_intror Hx))
    (victim_inv_step P n takenFrom plan c (Hn c (or_introl eq_refl)) Hinv)) as (T & HT & Hle).
  exists T. split; [done|]. rewrite countZ_cons. etrans; [apply Hle|].
  unfold of_project. destruct (decide (projectId c = P)) as [<-|Hne].
  - rewrite lookup_insert_eq, bool_decide_eq_true_2 by done. simpl. lia.
  - rewrite lookup_insert_ne, bool_decide_eq_false_2 by done. lia.
Qed.

(** Reclaim strands nobody and loses no work. With the resumable count of
    every project reported consistently and covering its own candidates, a plan
    destroys only candidates without unpushed commits, destroys fewer of a
    project's containers than the project has resumable ones, and suspends at
    most one container per project to keep it resumable. *)
Theorem planCrossProjectReclaim_strands_nobody lc candidates needGb minIdleMs minAgeMs P n :
  (forall c, In c candidates -> projectId c = P -> projectResumableMembers c = n) ->
  countZ (of_project P) candidates <= n ->
  let p := planCrossProjectReclaim lc candidates needGb minIdleMs minAgeMs in
  (forall c, In c (rp_destroy p) -> rc_hasUnpushedCommits c = false)
  /\ (countZ (of_project P) (rp_destroy p) = 0 \/ countZ (of_project P) (rp_destroy p) < n)
  /\ countZ (clean_suspended P) (rp_suspend p) <= 1.
Proof.
  intros Hn Hcnt p. unfold p, planCrossProjectReclaim.
  destruct (needGb <=? 0); [split_and!; [done|by left|done]|].
  destruct (_ <? needGb); [split_and!; [done|by left|done]|].
  set (elig := List.filter (eligible minIdleMs minAgeMs) candidates).
  set (ordered := js_sort (reclaimOrder lc (heldBy elig)) elig).
  destruct (reclaimLoop_victims P n needGb ordered ∅ emptyReclaimPlan) as (T & [Hu Hd Hl Hs] & HT).
  { intros c Hc. apply Hn. unfold ordered in Hc. apply js_sort_In in Hc.
    by apply filter_In in Hc as [? _]. }
  { constructor; simpl; [done|done|by left|]. rewrite lookup_empty, countZ_nil. simpl. lia. }
  rewrite lookup_empty in HT. simpl in HT.
  assert (countZ (of_project P) ordered <= n) as Hle.
  { unfold ordered. rewrite <- (countZ_perm _ _ _ (js_sort_perm _ elig)).
    etrans; [apply countZ_filter_le|done]. }
  split_and!; [done|done|lia].
Qed.

(** ** Victim order *)

Lemma heldBy_count_aux cs m P :
  default 0 (fold_left (fun m c => incr (projectId c) m) cs m !! P)
  = default 0 (m !! P) + countZ (of_project P) cs.
Proof.
  revert m. induction cs as [|c cs IH]; intros m; simpl; [rewrite countZ_nil; lia|].
  rewrite IH, countZ_cons. unfold incr, of_project.
  destruct (decide (projectId c = P)) as [<-|Hne].
  - rewrite lookup_insert_eq, bool_decide_eq_true_2 by done. simpl. lia.
  - rewrite lookup_insert_ne, bool_decide_eq_false_2 by done. lia.
Qed.

Lemma heldBy_count cs P : default 0 (heldBy cs !! P) = countZ (of_project P) cs.
Proof. unfold heldBy. rewrite heldBy_count_aux, lookup_empty. simpl. lia. Qed.

Lemma reclaimOrder_le lc held a b :
  reclaimOrder lc held a b <= 0 <->
  let h x := default 0 (held !! projectId x) in
  h b < h a \/ (h b = h a /\ (idleForMs b < idleForMs a
    \/ (idleForMs b = idleForMs a /\ lc (containerId a) (containerId b) <= 0))).
Proof.
  unfold reclaimOrder. simpl.
  destruct (Z.eqb_spec (default 0 (held !! projectId b) - default 0 (held !! projectId a)) 0);
    destruct (Z.eqb_spec (idleForMs b) (idleForMs a)); simpl; lia.
Qed.

#[export] Instance reclaimOrder_comparator lc held :
  Comparator lc -> Comparator (reclaimOrder lc held).
Proof.
  intros [Htot Htr]. split.
  - intros x y. rewrite !reclaimOrder_le. simpl. specialize (Htot (containerId x) (containerId y)). lia.
  - intros x y z. rewrite !reclaimOrder_le. simpl.
    specialize (Htr (containerId x) (containerId y) (containerId z)). lia.
Qed.

Lemma StronglySorted_app_le {A} (R : A -> A -> Prop) l1 l2 x y :
  StronglySorted R (l1 ++ l2) -> In x l1 -> In y l2 -> R x y.
Proof.
  induction l1 as [|z l1 IH]; simpl; [done|]. inversion 1 as [|? ? Hss Hall]; subst.
  intros [->|Hx] Hy; [|by apply IH].
  rewrite List.Forall_forall in Hall. apply Hall, in_app_iff. by right.
Qed.

(** Victims are taken from the project holding the most idle containers
    first, and longest-idle first among equals: no eligible candidate that the
    plan leaves alone outranks one it retires. *)
Theorem planCrossProjectReclaim_hoarder_first lc candidates needGb minIdleMs minAgeMs c c' :
  Comparator lc ->
  let elig := List.filter (eligible minIdleMs minAgeMs) candidates in
  let p := planCrossProjectReclaim lc candidates needGb minIdleMs minAgeMs in
  In c (rp_suspend p ++ rp_destroy p) ->
  In c' elig -> ~ In c' (rp_suspend p ++ rp_destroy p) ->
  let held x := countZ (of_project (projectId x)) elig in
  In c elig
  /\ (held c' < held c
      \/ (held c' = held c /\ (idleForMs c' < idleForMs c
          \/ (idleForMs c' = idleForMs c /\ lc (containerId c) (containerId c') <= 0)))).
Proof.
  intros Hlc elig p Hc Hc' Hn held.
  pose proof (reclaim_plan_shape lc candidates needGb minIdleMs minAgeMs) as Hspec.
  cbv zeta in Hspec. fold elig p in Hspec.
  destruct ((needGb <=? 0) || (sumZ memoryGb elig <? needGb)).
  { rewrite Hspec in Hc. destruct Hc. }
  destruct Hspec as (taken & rest & Ho & Hperm & _).
  pose proof (js_sort_sorted (reclaimOrder lc (heldBy elig)) elig) as Hsorted.
  assert (In c taken) as Ht by (by eapply Permutation_in).
  assert (~ In c' taken) as Hnt by (intros H; apply Hn; by eapply Permutation_in).
  assert (forall x, In x elig <-> In x taken \/ In x rest) as Hin.
  { intros x. by rewrite <- in_app_iff, <- Ho, js_sort_In. }
  split; [apply Hin; by left|]. rewrite Ho in Hsorted.
  apply Hin in Hc' as [?|Hc']; [done|].
  pose proof (StronglySorted_app_le _ _ _ _ _ Hsorted Ht Hc') as Hle.
  rewrite reclaimOrder_le in Hle. simpl in Hle. rewrite !heldBy_count in Hle. exact Hle.
Qed.

(** ** Churn *)

Lemma js_set_elem_aux (l acc : list string) (x : string) :
  x ∈ fold_left (fun acc y => if bool_decide (y ∈ acc) then acc else acc ++ [y]) l acc
  <-> x ∈ acc \/ x ∈ l.
Proof.
  revert acc. induction l as [|y l IH]; intros acc; simpl; [set_solver|].
  rewrite IH. case_bool_decide; set_solver.
Qed.

Lemma js_set_elem (l : list string) (x : string) : x ∈ js_set l <-> x ∈ l.
Proof. unfold js_set. rewrite js_set_elem_aux. set_solver. Qed.

Lemma firstReciprocal_spec took rest (E : list (string * string)) :
  (forall e, e ∈ rest -> exists a b, (a, b) ∈ E /\ e = edge a b) ->
  (forall a b, (a, b) ∈ E -> has_char gt_char a = false /\ has_char gt_char b = false) ->
  match firstReciprocal took rest with
  | Some (a, b) => (a, b) ∈ E /\ edge b a ∈ took
  | None => forall a b, (a, b) ∈ E -> edge a b ∈ rest -> ~ edge b a ∈ took
  end.
Proof.
  intros Hrest HE. induction rest as [|e rest IH]; simpl.
  { intros a b _ H. by apply not_elem_of_nil in H. }
  destruct (Hrest e) as (a & b & Hab & ->); [by left|].
  destruct (HE a b Hab) as [Ha Hb]. unfold edge at 1. rewrite split_on_join by done.
  case_bool_decide as Hrev; [done|].
  specialize (IH (fun e He => Hrest e (list_elem_of_further _ _ _ He))).
  destruct (firstReciprocal took rest) as [[x y]|]; [done|].
  intros x y Hxy [Heq|Hin]%elem_of_cons; [|by eapply IH].
  destruct (HE x y Hxy) as [Hx Hy].
  assert (split_on gt_char (edge x y) = split_on gt_char (edge a b)) as Hs by (by rewrite Heq).
  unfold edge in Hs. rewrite !split_on_join in Hs by done. by simplify_eq.
Qed.

Definition recentEvents (events : list ReclaimEvent) (nowMs windowMs : Z) : list ReclaimEvent :=
  List.filter (fun e => nowMs - atMs e <=? windowMs) events.

Definition took_from (events : list ReclaimEvent) (a b : string) : Prop :=
  exists e, In e events /\ requestingProjectId e = a /\ victimProjectId e = b.

(** The churn verdict: churning exactly when the window holds at least
    [minReclaims] reclaims; the pair it names really took from each other inside
    the window, and when it names none no such pair exists. *)
Theorem detectReclaimChurn_correct events nowMs windowMs minReclaims :
  (forall e, In e events -> has_char gt_char (requestingProjectId e) = false
                         /\ has_char gt_char (victimProjectId e) = false) ->
  let v := detectReclaimChurn events nowMs windowMs minReclaims in
  let recent := recentEvents events nowMs windowMs in
  reclaims v = Z.of_nat (length recent)
  /\ cv_freedGb v = sumZ ev_freedGb recent
  /\ (churning v = true <-> minReclaims <= Z.of_nat (length recent))
  /\ (forall a b, reciprocal v = Some (a, b) -> took_from recent a b /\ took_from recent b a)
  /\ (churning v = true -> reciprocal v = None ->
      forall a b, took_from recent a b -> ~ took_from recent b a).
Proof.
  intros Hids v recent. unfold v, detectReclaimChurn. fold recent. fold (recentEvents events nowMs windowMs) in *.
  fold recent. rewrite fold_left_sumZ, Z.add_0_l.
  destruct (Z.ltb_spec (Z.of_nat (length recent)) minReclaims); simpl.
  { split_and!; try done; lia. }
  set (E := List.map (fun e => (requestingProjectId e, victimProjectId e)) recent).
  assert (forall a b, (a, b) ∈ E <-> took_from recent a b) as HE.
  { intros a b. unfold E, took_from. rewrite list_elem_of_In, in_map_iff. naive_solver. }
  assert (forall a b, (a, b) ∈ E -> has_char gt_char a = false /\ has_char gt_char b = false) as Hno.
  { intros a b (e & He & <- & <-)%HE. apply Hids. by apply filter_In in He as [? _]. }
  set (took := js_set _).
  assert (forall e, e ∈ took <-> exists a b, (a, b) ∈ E /\ e = edge a b) as Htook.
  { intros e. unfold took. rewrite js_set_elem, list_elem_of_In, in_map_iff. unfold E.
    setoid_rewrite list_elem_of_In. setoid_rewrite in_map_iff. naive_solver. }
  assert (forall a b, edge a b ∈ took -> has_char gt_char a = false ->
    has_char gt_char b = false -> took_from recent a b) as Hback.
  { intros a b (x & y & Hxy & Heq)%Htook Ha Hb. destruct (Hno x y Hxy).
    assert (split_on gt_char (edge a b) = split_on gt_char (edge x y)) as Hs by (by rewrite Heq).
    unfold edge in Hs. rewrite !split_on_join in Hs by done. simplify_eq. by apply HE. }
  pose proof (firstReciprocal_spec took took E (fun e He => proj1 (Htook e) He) Hno) as Hr.
  destruct (firstReciprocal took took) as [[a b]|]; simpl.
  - split_and!; try done; try lia. intros a' b' [= <- <-].
    destruct Hr as [Hab Hba]. destruct (Hno a b Hab). split; [by apply HE|by apply Hback].
  - split_and!; try done; [rewrite Z.leb_le; lia|].
    intros _ _ a b Hab Hba. apply (Hr a b); [by apply HE| |]; apply Htook; eexists _, _; rewrite HE; eauto.
Qed.

(** ** Witnesses on concrete pools *)

Definition ex_old : PoolMember :=
  mkPoolMember "old" idle (Some "T1") false false (Some 2) (Some "v1").
Definition ex_busy : PoolMember :=
  mkPoolMember "busy" busy (Some "T2") false false (Some 2) (Some "v1").
Definition ex_capacity : PoolCapacity := mkPoolCapacity 4 8 2 0.

Lemma recycle_converges_witness :
  selectPoolMember (Some "T1") [ex_old; ex_busy] ex_capacity 2 "v2" = recycle [ex_old]
  /\ In ex_busy (List.filter (fun m => negb (bool_decide (m ∈ [ex_old]))) [ex_old; ex_busy]).
Proof.
  split; [reflexivity|].
  apply (recycle_converges (Some "T1") [ex_old; ex_busy] ex_capacity 2 "v2" [ex_old] eq_refl);
    [right; left; reflexivity|left; reflexivity].
Defined.

Definition ex_candidate (cid pid : string) (idleFor : Z) : ReclaimCandidate :=
  mkReclaimCandidate cid pid 2 idleFor (Some 600000) 2 false.
Definition ex_candidates : list ReclaimCandidate :=
  [ex_candidate "c1" "P" 90000; ex_candidate "c2" "Q" 95000; ex_candidate "c3" "P" 80000].

(** A consistent comparator standing in for the host collation. *)
Definition by_length (a b : string) : Z :=
  Z.of_nat (String.length a) - Z.of_nat (String.length b).

#[export] Instance by_length_comparator : Comparator by_length.
Proof. split; unfold by_length; intros; lia. Defined.

Lemma planCrossProjectReclaim_strands_nobody_witness :
  let p := planCrossProjectReclaim by_length ex_candidates 3 30000 60000 in
  List.map containerId (rp_destroy p) = ["c1"] /\ List.map containerId (rp_suspend p) = ["c3"]
  /\ countZ (of_project "P") (rp_destroy p) < 2.
Proof.
  intros p. split; [reflexivity|]. split; [reflexivity|].
  destruct (planCrossProjectReclaim_strands_nobody by_length ex_candidates 3 30000 60000 "P" 2)
    as (_ & [H|H] & _).
  - intros c [<-|[<-|[<-|[]]]] _; reflexivity.
  - vm_compute. discriminate.
  - fold p in H. rewrite H. reflexivity.
  - exact H.
Defined.

Lemma planCrossProjectReclaim_hoarder_first_witness :
  let p := planCrossProjectReclaim by_length ex_candidates 3 30000 60000 in
  In (ex_candidate "c3" "P" 80000) (rp_suspend p ++ rp_destroy p)
  /\ In (ex_candidate "c3" "P" 80000) (List.filter (eligible 30000 60000) ex_candidates).
Proof.
  intros p. split; [left; reflexivity|].
  apply (planCrossProjectReclaim_hoarder_first by_length ex_candidates 3 30000 60000
    (ex_candidate "c3" "P" 80000) (ex_candidate "c2" "Q" 95000)).
  - exact by_length_comparator.
  - left; reflexivity.
  - right; left; reflexivity.
  - vm_compute. intros [H|[H|[]]]; discriminate H.
Defined.

Lemma detectReclaimChurn_correct_witness :
  let evs := [mkReclaimEvent 10 "A" "B" 2; mkReclaimEvent 20 "B" "A" 2] in
  reciprocal (detectReclaimChurn evs 30 60 2) = Some ("A", "B")
  /\ took_from (recentEvents evs 30 60) "B" "A".
Proof.
  intros evs. split; [reflexivity|].
  apply (detectReclaimChurn_correct evs 30 60 2); [|reflexivity].
  intros e [<-|[<-|[]]]; split; reflexivity.
Defined.
