(* ===== verification/Bytes.v ===== *)
(** * Bytes and big-endian integers

    A [Uint8Array] is a list of integers in [0, 256); its length is an integer.
    [DataView.setUint32]/[getUint32] with [littleEndian = false], including the
    wrap to 32 bits. *)
From Stdlib Require Import ZArith Lia List.
From stdpp Require Import base list.
From S2P Require Import Prelude.

Open Scope Z_scope.

Definition is_byte (b : Z) : Prop := 0 <= b < 256.
Definition wf_bytes (l : list Z) : Prop := Forall is_byte l.

Definition blen (l : list Z) : Z := Z.of_nat (length l).

(** [buf.slice(from, to)] for [0 <= from <= to]: the bytes that exist of that range. *)
Definition bslice (l : list Z) (from to : Z) : list Z :=
  take (Z.to_nat (to - from)) (drop (Z.to_nat from) l).

(** [buf.slice(from)]. *)
Definition bdrop (from : Z) (l : list Z) : list Z := drop (Z.to_nat from) l.

(** [buf[i]], defaulting to 0 where the caller has already checked the length. *)
Definition byte_at (l : list Z) (i : nat) : Z := nth i l 0.

Definition u32 (n : Z) : Z := n mod 2 ^ 32.

Definition be32 (n : Z) : list Z :=
  [ u32 n / 2 ^ 24; (u32 n / 2 ^ 16) mod 256; (u32 n / 2 ^ 8) mod 256; u32 n mod 256 ].

Definition get_u32 (l : list Z) (i : nat) : Z :=
  byte_at l i * 2 ^ 24 + byte_at l (i + 1) * 2 ^ 16 + byte_at l (i + 2) * 2 ^ 8 + byte_at l (i + 3).

(** ** Lemmas *)

Lemma u32_range n : 0 <= u32 n < 2 ^ 32.
Proof. apply Z.mod_pos_bound. lia. Qed.

Lemma u32_small n : 0 <= n < 2 ^ 32 -> u32 n = n.
Proof. apply Z.mod_small. Qed.

Lemma length_be32 n : length (be32 n) = 4%nat.
Proof. done. Qed.

Lemma wf_be32 n : wf_bytes (be32 n).
Proof.
  pose proof (u32_range n). unfold be32, wf_bytes, is_byte.
  repeat constructor; try apply Z.mod_pos_bound; try lia;
    [apply Z.div_pos; lia|apply Z.div_lt_upper_bound; lia].
Qed.

(** Four bytes recombine to the number they were split from. *)
Lemma be32_value u : 0 <= u < 2 ^ 32 ->
  u / 2 ^ 24 * 2 ^ 24 + (u / 2 ^ 16) mod 256 * 2 ^ 16 + (u / 2 ^ 8) mod 256 * 2 ^ 8 + u mod 256 = u.
Proof.
  intros Hu. replace (2 ^ 24) with (2 ^ 16 * 256) by lia.
  replace (2 ^ 16) with (2 ^ 8 * 256) by lia. rewrite <- !Z.div_div by lia. change (2 ^ 8) with 256.
  pose proof (Z.div_mod u 256). pose proof (Z.div_mod (u / 256) 256).
  pose proof (Z.div_mod (u / 256 / 256) 256). lia.
Qed.

Lemma byte_at_app_r l1 l2 k : byte_at (l1 ++ l2) (length l1 + k) = byte_at l2 k.
Proof. unfold byte_at. rewrite app_nth2 by lia. f_equal. lia. Qed.

Lemma get_u32_be32 pre n rest :
  get_u32 (pre ++ be32 n ++ rest) (length pre) = u32 n.
Proof.
  unfold get_u32. rewrite <- (Nat.add_0_r (length pre)) at 1. rewrite !byte_at_app_r.
  simpl. apply be32_value, u32_range.
Qed.

Lemma get_u32_range l i : wf_bytes l -> 0 <= get_u32 l i < 2 ^ 32.
Proof.
  intros Hl. assert (forall k, 0 <= byte_at l k < 256) as Hb.
  { intros k. unfold byte_at. destruct (Nat.lt_ge_cases k (length l)) as [Hk|Hk].
    - apply (proj1 (List.Forall_forall _ _) Hl). by apply nth_In.
    - rewrite nth_overflow by done. lia. }
  pose proof (Hb i). pose proof (Hb (i + 1)%nat). pose proof (Hb (i + 2)%nat).
  pose proof (Hb (i + 3)%nat). unfold get_u32. lia.
Qed.

Lemma byte_at_app l1 l2 i : (i < length l1)%nat -> byte_at (l1 ++ l2) i = byte_at l1 i.
Proof. intros H. unfold byte_at. by rewrite app_nth1. Qed.

Lemma get_u32_app l1 l2 i : (i + 3 < length l1)%nat -> get_u32 (l1 ++ l2) i = get_u32 l1 i.
Proof. intros H. unfold get_u32. by rewrite !byte_at_app by lia. Qed.

Lemma blen_app l1 l2 : blen (l1 ++ l2) = blen l1 + blen l2.
Proof. unfold blen. rewrite length_app. lia. Qed.

Lemma blen_nonneg l : 0 <= blen l.
Proof. unfold blen. lia. Qed.

Lemma blen_bdrop n l : 0 <= n <= blen l -> blen (bdrop n l) = blen l - n.
Proof. unfold blen, bdrop. rewrite length_drop. lia. Qed.

Lemma bdrop_app n l1 l2 : n <= blen l1 -> bdrop n (l1 ++ l2) = bdrop n l1 ++ l2.
Proof. intros H. unfold bdrop, blen in *. apply drop_app_le. lia. Qed.

Lemma bslice_app from to l1 l2 :
  0 <= from -> to <= blen l1 -> bslice (l1 ++ l2) from to = bslice l1 from to.
Proof.
  intros Hf Ht. unfold bslice, blen in *.
  destruct (Z.le_gt_cases to from) as [Hle|Hlt].
  { replace (Z.to_nat (to - from)) with 0%nat by lia. done. }
  rewrite drop_app_le by lia. rewrite take_app_le; [done|]. rewrite length_drop. lia.
Qed.

Lemma wf_bytes_app l1 l2 : wf_bytes (l1 ++ l2) <-> wf_bytes l1 /\ wf_bytes l2.
Proof. apply Forall_app. Qed.

Lemma wf_bytes_bdrop n l : wf_bytes l -> wf_bytes (bdrop n l).
Proof. apply Forall_drop. Qed.

Definition wf_bytesb (l : list Z) : bool := forallb (fun b => (0 <=? b) && (b <? 256)) l.

Lemma wf_bytes_check l : wf_bytesb l = true -> wf_bytes l.
Proof.
  unfold wf_bytesb, wf_bytes, is_byte. rewrite forallb_forall, List.Forall_forall.
  intros H x Hx. specialize (H x Hx). lia.
Qed.

(** ** Writing into a buffer *)

(** [buf.set(chunk, at)] on a buffer with room for it. *)
Definition bset (buf : list Z) (at_ : Z) (chunk : list Z) : list Z :=
  take (Z.to_nat at_) buf ++ chunk ++ drop (Z.to_nat at_ + length chunk) buf.

Lemma bset_length b at_ c : 0 <= at_ -> at_ + blen c <= blen b -> blen (bset b at_ c) = blen b.
Proof.
  intros H0 H. unfold bset, blen in *. rewrite !length_app, length_take, length_drop. lia.
Qed.

Lemma wf_bset b at_ c : wf_bytes b -> wf_bytes c -> wf_bytes (bset b at_ c).
Proof.
  intros Hb Hc. unfold bset. rewrite !wf_bytes_app. split_and!; [by apply Forall_take|done|by apply Forall_drop].
Qed.

Lemma wf_zeros n : wf_bytes (repeat 0 n).
Proof. apply List.Forall_forall. intros x Hx%repeat_spec. subst. unfold is_byte. lia. Qed.

(** A write leaves what lies before it and after it. *)
Lemma bslice_bset_before b at_ c i j : 0 <= i -> j <= at_ -> at_ <= blen b ->
  bslice (bset b at_ c) i j = bslice b i j.
Proof.
  intros Hi Hj Ha. unfold bset. destruct (Z.le_gt_cases j i) as [Hle|Hlt].
  { unfold bslice. by replace (Z.to_nat (j - i)) with 0%nat by lia. }
  unfold bslice, blen in *. rewrite drop_app_le, take_app_le by (rewrite ?length_drop, length_take; lia).
  rewrite skipn_firstn_comm, take_take. f_equal. lia.
Qed.

Lemma bset_byte b at_ c (k : nat) : 0 <= at_ -> at_ + blen c <= blen b ->
  byte_at (bset b at_ c) k =
  if (at_ <=? Z.of_nat k) && (Z.of_nat k <? at_ + blen c)
  then byte_at c (k - Z.to_nat at_) else byte_at b k.
Proof.
  intros Ha Hc. unfold bset, byte_at, blen in *.
  destruct (Z.leb_spec at_ (Z.of_nat k)) as [H1|H1]; cbn [andb].
  - rewrite app_nth2 by (rewrite length_take; lia). rewrite length_take.
    destruct (Z.ltb_spec (Z.of_nat k) (at_ + Z.of_nat (length c))) as [H2|H2].
    + rewrite app_nth1 by lia. f_equal. lia.
    + rewrite app_nth2 by lia. rewrite nth_skipn. f_equal. lia.
  - rewrite app_nth1 by (rewrite length_take; lia). rewrite nth_firstn.
    destruct (Nat.ltb_spec k (Z.to_nat at_)); [done|lia].
Qed.

Lemma bslice_nth l i j (k : nat) : 0 <= i -> Z.of_nat k < j - i -> byte_at (bslice l i j) k = byte_at l (Z.to_nat i + k).
Proof.
  intros Hi Hk. unfold byte_at, bslice. rewrite nth_firstn.
  destruct (Nat.ltb_spec k (Z.to_nat (j - i))); [|lia]. by rewrite nth_skipn.
Qed.

Lemma blen_bslice l i j : 0 <= i <= j -> j <= blen l -> blen (bslice l i j) = j - i.
Proof. intros Hi Hj. unfold bslice, blen in *. rewrite length_take, length_drop. lia. Qed.

(** Byte strings of one length with the same bytes are equal. *)
Lemma bytes_ext l l' : blen l = blen l' -> (forall k, (k < length l)%nat -> byte_at l k = byte_at l' k) -> l = l'.
Proof. intros H Hk. apply (List.nth_ext l l' 0 0); [unfold blen in H; lia|done]. Qed.

Lemma bslice_bset_after b at_ c i j : 0 <= at_ -> at_ + blen c <= i -> i <= j -> j <= blen b ->
  bslice (bset b at_ c) i j = bslice b i j.
Proof.
  intros Ha Hi Hij Hj. pose proof (blen_nonneg c).
  apply bytes_ext; [rewrite !blen_bslice; rewrite ?bset_length; lia|].
  intros k Hk. assert (Z.of_nat k < j - i) as Hk'.
  { unfold bslice in Hk. rewrite length_take in Hk. lia. }
  rewrite !bslice_nth by lia. rewrite bset_byte by lia.
  destruct (Z.leb_spec at_ (Z.of_nat (Z.to_nat i + k))); [|done].
  by destruct (Z.ltb_spec (Z.of_nat (Z.to_nat i + k)) (at_ + blen c)); [lia|].
Qed.

Lemma bslice_bset_same b at_ c j : 0 <= at_ -> at_ + blen c <= j -> j <= blen b ->
  bslice (bset b at_ c) at_ j = c ++ bslice b (at_ + blen c) j.
Proof.
  intros Ha Hj Hb. pose proof (blen_nonneg c).
  apply bytes_ext; [rewrite blen_app, !blen_bslice; rewrite ?bset_length; lia|].
  intros k Hk. assert (Z.of_nat k < j - at_) as Hk'.
  { unfold bslice in Hk. rewrite length_take in Hk. lia. }
  rewrite bslice_nth by lia. rewrite bset_byte by lia.
  destruct (Z.leb_spec at_ (Z.of_nat (Z.to_nat at_ + k))); [|lia]. cbn [andb].
  destruct (Z.ltb_spec (Z.of_nat (Z.to_nat at_ + k)) (at_ + blen c)).
  - rewrite byte_at_app by (unfold blen in *; lia). f_equal. lia.
  - replace k with (length c + (k - length c))%nat at 2 by (unfold blen in *; lia).
    rewrite byte_at_app_r, bslice_nth by (unfold blen in *; lia). f_equal. unfold blen in *. lia.
Qed.

Lemma bslice_empty l i j : j <= i -> bslice l i j = [].
Proof. intros H. unfold bslice. by replace (Z.to_nat (j - i)) with 0%nat by lia. Qed.

Lemma bslice_split l i j k : 0 <= i <= j -> j <= k -> bslice l i j ++ bslice l j k = bslice l i k.
Proof.
  intros Hi Hj. unfold bslice. replace (Z.to_nat (k - i)) with (Z.to_nat (j - i) + Z.to_nat (k - j))%nat by lia.
  rewrite <- take_take_drop, drop_drop. do 3 f_equal. lia.
Qed.

Lemma bslice_zeros n i j : 0 <= i <= j -> j <= Z.of_nat n -> bslice (repeat 0 n) i j = repeat 0 (Z.to_nat (j - i)).
Proof.
  intros Hi Hj. apply bytes_ext.
  - rewrite blen_bslice; unfold blen; rewrite ?repeat_length; lia.
  - intros k Hk. assert (Z.of_nat k < j - i).
    { unfold bslice in Hk. rewrite length_take in Hk. lia. }
    rewrite bslice_nth by lia. unfold byte_at. by rewrite !nth_repeat.
Qed.

#[export] Hint Resolve wf_be32 wf_bytes_bdrop u32_range blen_nonneg : hezo.
