(* ===== verification/TunnelProtocol.v ===== *)
(** * The tunnel wire format

    Model of [packages/server/src/services/sandbox/tunnel/protocol.ts]: frame
    encoding, the incremental decoder with its preamble scan, and the credit
    payload. A thrown [Error] is a value of [ProtocolError]; [push] returns the
    decoder's state as it is left, thrown or not. *)
From Stdlib Require Import ZArith Lia List.
From stdpp Require Import base list.
From S2P Require Import Prelude Bytes.

Open Scope Z_scope.

(** ** Targets and frame types *)

Inductive TunnelTarget := target_proxy | target_mcp | target_ssh.

(** UTF-8 bytes of the target keys "proxy", "mcp" and "ssh". *)
Definition target_key (t : TunnelTarget) : list Z :=
  match t with
  | target_proxy => [112; 114; 111; 120; 121]
  | target_mcp => [109; 99; 112]
  | target_ssh => [115; 115; 104]
  end.

Definition TUNNEL_TARGETS : list TunnelTarget := [target_proxy; target_mcp; target_ssh].

(** [isTunnelTarget], returning the target it narrows to. *)
Definition isTunnelTarget (value : list Z) : option TunnelTarget :=
  List.find (fun t => bool_decide (target_key t = value)) TUNNEL_TARGETS.

Inductive FrameType := Open | Data | Close | Window.

Definition frame_code (t : FrameType) : Z :=
  match t with Open => 1 | Data => 2 | Close => 3 | Window => 4 end.

Definition isFrameType (value : Z) : option FrameType :=
  if value =? 1 then Some Open
  else if value =? 2 then Some Data
  else if value =? 3 then Some Close
  else if value =? 4 then Some Window
  else None.

(** NUL "HEZO-TUNNEL/1" NUL *)
Definition TUNNEL_PREAMBLE : list Z :=
  [0; 72; 69; 90; 79; 45; 84; 85; 78; 78; 69; 76; 47; 49; 0].

Definition MAX_PREAMBLE_SCAN_BYTES : Z := 64 * 1024.
Definition HEADER_BYTES : Z := 9.
Definition MAX_PAYLOAD_BYTES : Z := 64 * 1024.

Record Frame := mkFrame { ftype : FrameType; streamId : Z; payload : list Z }.

Inductive ProtocolError :=
| PayloadTooLong (n : Z)
| LengthTooLong (n : Z)
| UnknownFrameType (t : Z)
| NeverAnnounced
| BadWindowPayload (n : Z).

(** ** Encoding *)

Definition encodeFrame (t : FrameType) (sid : Z) (payload : list Z) : result ProtocolError (list Z) :=
  if MAX_PAYLOAD_BYTES <? blen payload then Throw (PayloadTooLong (blen payload))
  else Ok (frame_code t :: be32 sid ++ be32 (blen payload) ++ payload).

Definition encodeOpen (sid : Z) (target : TunnelTarget) : result ProtocolError (list Z) :=
  encodeFrame Open sid (target_key target).

Definition windowPayload (credit : Z) : list Z := be32 credit.

Definition encodeWindow (sid credit : Z) : result ProtocolError (list Z) :=
  encodeFrame Window sid (windowPayload credit).

Definition decodeWindowCredit (payload : list Z) : result ProtocolError Z :=
  if negb (blen payload =? 4) then Throw (BadWindowPayload (blen payload))
  else Ok (get_u32 payload 0).

(** ** The incremental decoder *)

Record FrameDecoder := mkFrameDecoder { buffer : list Z; synced : bool; scanned : Z }.

Definition newFrameDecoder (expectPreamble : bool) : FrameDecoder :=
  mkFrameDecoder [] (negb expectPreamble) 0.

Definition pending (d : FrameDecoder) : Z := blen (buffer d).

(** First index of [needle] in [haystack], [None] for -1. *)
Fixpoint indexOfSequence (haystack needle : list Z) : option nat :=
  if bool_decide (needle `prefix_of` haystack) then Some 0%nat
  else match haystack with
       | [] => None
       | _ :: haystack' => S <$> indexOfSequence haystack' needle
       end.

(** Discard everything up to and including the preamble; the boolean is the
    source's return value. *)
Definition trySync (d : FrameDecoder) : FrameDecoder * result ProtocolError bool :=
  match indexOfSequence (buffer d) TUNNEL_PREAMBLE with
  | Some at_ =>
      (mkFrameDecoder (bdrop (Z.of_nat at_ + blen TUNNEL_PREAMBLE) (buffer d)) true (scanned d),
       Ok true)
  | None =>
      if MAX_PREAMBLE_SCAN_BYTES <? scanned d then (d, Throw NeverAnnounced)
      else
        let keep := blen TUNNEL_PREAMBLE - 1 in
        let buffer' := if keep <? blen (buffer d)
                       then bdrop (blen (buffer d) - keep) (buffer d) else buffer d in
        (mkFrameDecoder buffer' (synced d) (scanned d), Ok false)
  end.

(** The [for (;;)] loop of [push]: the bytes left and the frames completed. Every
    frame consumes at least [HEADER_BYTES] bytes, so the buffer's length is
    enough fuel ([drain_unfold]). *)
Fixpoint drain_fuel (fuel : nat) (buf : list Z) : list Z * result ProtocolError (list Frame) :=
  match fuel with
  | O => (buf, Ok [])
  | S fuel' =>
      if blen buf <? HEADER_BYTES then (buf, Ok [])
      else
        let type := byte_at buf 0 in
        let sid := get_u32 buf 1 in
        let len := get_u32 buf 5 in
        if MAX_PAYLOAD_BYTES <? len then (buf, Throw (LengthTooLong len))
        else match isFrameType type with
             | None => (buf, Throw (UnknownFrameType type))
             | Some t =>
                 let total := HEADER_BYTES + len in
                 if blen buf <? total then (buf, Ok [])
                 else
                   let frame := mkFrame t sid (bslice buf HEADER_BYTES total) in
                   let '(rest, r) := drain_fuel fuel' (bdrop total buf) in
                   (rest, let! frames := r in Ok (frame :: frames))
             end
  end.

Definition drain (buf : list Z) : list Z * result ProtocolError (list Frame) :=
  drain_fuel (length buf) buf.

Definition push (d : FrameDecoder) (chunk : list Z)
    : FrameDecoder * result ProtocolError (list Frame) :=
  let d := mkFrameDecoder (buffer d ++ chunk) (synced d) (scanned d) in
  let '(d, go) :=
    if synced d then (d, Ok true)
    else trySync (mkFrameDecoder (buffer d) (synced d) (scanned d + blen chunk)) in
  match go with
  | Throw e => (d, Throw e)
  | Ok false => (d, Ok [])
  | Ok true =>
      let '(rest, frames) := drain (buffer d) in
      (mkFrameDecoder rest (synced d) (scanned d), frames)
  end.

(** Feeding the chunks of a channel one after the other, up to the first throw. *)
Fixpoint pushes (d : FrameDecoder) (chunks : list (list Z))
    : FrameDecoder * result ProtocolError (list Frame) :=
  match chunks with
  | [] => (d, Ok [])
  | c :: chunks' =>
      match push d c with
      | (d', Throw e) => (d', Throw e)
      | (d', Ok fs) =>
          let '(d'', r) := pushes d' chunks' in (d'', let! fs' := r in Ok (fs ++ fs'))
      end
  end.

(** ** The drain loop *)

Lemma isFrameType_code t : isFrameType (frame_code t) = Some t.
Proof. by destruct t. Qed.

Lemma drain_fuel_enough fuel1 fuel2 buf :
  (length buf <= fuel1)%nat -> (length buf <= fuel2)%nat ->
  wf_bytes buf -> drain_fuel fuel1 buf = drain_fuel fuel2 buf.
Proof.
  revert fuel2 buf. induction fuel1 as [|fuel1 IH]; intros fuel2 buf H1 H2 Hwf.
  { assert (buf = []) as -> by (destruct buf; simpl in *; [done|lia]). by destruct fuel2. }
  destruct fuel2 as [|fuel2].
  { assert (buf = []) as -> by (destruct buf; simpl in *; [done|lia]). done. }
  simpl. destruct (Z.ltb_spec (blen buf) HEADER_BYTES) as [|Hh]; [done|].
  destruct (MAX_PAYLOAD_BYTES <? get_u32 buf 5); [done|].
  destruct (isFrameType (byte_at buf 0)); [|done].
  destruct (Z.ltb_spec (blen buf) (HEADER_BYTES + get_u32 buf 5)) as [|Ht]; [done|].
  pose proof (get_u32_range buf 5 Hwf). unfold HEADER_BYTES, blen in *.
  assert (length (bdrop (9 + get_u32 buf 5) buf) < length buf)%nat as Hlt.
  { unfold bdrop. rewrite length_drop. lia. }
  rewrite (IH fuel2); [done|lia|lia|by apply wf_bytes_bdrop].
Qed.

Lemma drain_unfold buf : wf_bytes buf ->
  drain buf =
    if blen buf <? HEADER_BYTES then (buf, Ok [])
    else if MAX_PAYLOAD_BYTES <? get_u32 buf 5 then (buf, Throw (LengthTooLong (get_u32 buf 5)))
    else match isFrameType (byte_at buf 0) with
         | None => (buf, Throw (UnknownFrameType (byte_at buf 0)))
         | Some t =>
             if blen buf <? HEADER_BYTES + get_u32 buf 5 then (buf, Ok [])
             else
               let '(rest, r) := drain (bdrop (HEADER_BYTES + get_u32 buf 5) buf) in
               (rest, let! frames := r in
                 Ok (mkFrame t (get_u32 buf 1) (bslice buf HEADER_BYTES (HEADER_BYTES + get_u32 buf 5))
                     :: frames))
         end.
Proof.
  intros Hwf. unfold drain at 1. destruct (length buf) as [|n] eqn:El.
  { destruct buf; [done|discriminate]. }
  simpl. destruct (Z.ltb_spec (blen buf) HEADER_BYTES) as [|Hh]; [done|].
  destruct (MAX_PAYLOAD_BYTES <? get_u32 buf 5); [done|].
  destruct (isFrameType (byte_at buf 0)); [|done].
  destruct (Z.ltb_spec (blen buf) (HEADER_BYTES + get_u32 buf 5)) as [|Ht]; [done|].
  unfold drain. pose proof (get_u32_range buf 5 Hwf).
  rewrite (drain_fuel_enough n (length (bdrop (HEADER_BYTES + get_u32 buf 5) buf)));
    [done| |done|by apply wf_bytes_bdrop].
  unfold bdrop, HEADER_BYTES. rewrite length_drop. lia.
Qed.

(** Draining a prefix first changes nothing: what it leaves is drained together
    with the rest. *)
Lemma drain_app buf more rest fs :
  wf_bytes buf -> wf_bytes more -> drain buf = (rest, Ok fs) ->
  drain (buf ++ more) =
    let '(rest', r) := drain (rest ++ more) in (rest', let! fs' := r in Ok (fs ++ fs')).
Proof.
  remember (length buf) as n eqn:Hn. revert buf rest fs Hn.
  induction n as [n IH] using lt_wf_ind. intros buf rest fs Hn Hwf Hwm Hd.
  rewrite drain_unfold in Hd by done.
  assert (forall r : list Z * result ProtocolError (list Frame),
    r = let '(rest', x) := r in (rest', let! fs' := x in Ok ([] ++ fs'))) as Hnil
    by (by intros [? [|]]).
  destruct (Z.ltb_spec (blen buf) HEADER_BYTES) as [|Hh]; [simplify_eq; apply Hnil|].
  destruct (MAX_PAYLOAD_BYTES <? get_u32 buf 5) eqn:Em; [done|].
  destruct (isFrameType (byte_at buf 0)) as [t|] eqn:Et; [|done].
  destruct (Z.ltb_spec (blen buf) (HEADER_BYTES + get_u32 buf 5)) as [|Ht]; [simplify_eq; apply Hnil|].
  pose proof (get_u32_range buf 5 Hwf) as Hlen.
  set (total := HEADER_BYTES + get_u32 buf 5) in *.
  destruct (drain (bdrop total buf)) as [rest1 [fs1|e]] eqn:Ed; simplify_eq/=.
  unfold HEADER_BYTES, blen in *.
  rewrite (drain_unfold (buf ++ more)) by (by apply wf_bytes_app).
  rewrite blen_app, !get_u32_app, byte_at_app, Em, Et by lia. fold total.
  pose proof (blen_nonneg more). unfold HEADER_BYTES, blen in *.
  destruct (Z.ltb_spec (Z.of_nat (length buf) + Z.of_nat (length more)) 9); [lia|].
  replace (9 + get_u32 buf 5) with total by (unfold total; lia).
  destruct (Z.ltb_spec (Z.of_nat (length buf) + Z.of_nat (length more)) total); [lia|].
  rewrite bdrop_app, bslice_app by (unfold blen; lia).
  erewrite (IH (length (bdrop total buf))); [| |done| |done|exact Ed].
  - destruct (drain (rest ++ more)) as [r' [fs'|e']]; done.
  - unfold bdrop. rewrite length_drop. lia.
  - by apply wf_bytes_bdrop.
Qed.

(** ... and if a longer buffer drains without error, so does every prefix. *)
Lemma drain_prefix_ok buf more rest fs :
  wf_bytes buf -> wf_bytes more -> drain (buf ++ more) = (rest, Ok fs) ->
  exists rest1 fs1, drain buf = (rest1, Ok fs1).
Proof.
  remember (length buf) as n eqn:Hn. revert buf rest fs Hn.
  induction n as [n IH] using lt_wf_ind. intros buf rest fs Hn Hwf Hwm Hd.
  rewrite drain_unfold by done.
  destruct (Z.ltb_spec (blen buf) HEADER_BYTES) as [|Hh]; [eauto|].
  rewrite drain_unfold in Hd by (by apply wf_bytes_app).
  pose proof (get_u32_range buf 5 Hwf) as Hlen. pose proof (blen_nonneg more).
  unfold HEADER_BYTES in *.
  rewrite blen_app, !get_u32_app, byte_at_app in Hd by (unfold blen in *; lia).
  destruct (Z.ltb_spec (blen buf + blen more) 9); [lia|].
  destruct (MAX_PAYLOAD_BYTES <? get_u32 buf 5); [done|].
  destruct (isFrameType (byte_at buf 0)); [|done].
  destruct (Z.ltb_spec (blen buf) (9 + get_u32 buf 5)) as [|Ht]; [eauto|].
  destruct (Z.ltb_spec (blen buf + blen more) (9 + get_u32 buf 5)); [lia|].
  rewrite bdrop_app in Hd by lia.
  destruct (drain (bdrop (9 + get_u32 buf 5) buf ++ more)) as [r1 [fs1|]] eqn:Ed; [|done].
  edestruct (IH (length (bdrop (9 + get_u32 buf 5) buf))) as (r2 & fs2 & Hd2);
    [|done| |done|exact Ed|].
  - unfold bdrop, blen in *. rewrite length_drop. lia.
  - by apply wf_bytes_bdrop.
  - rewrite Hd2. eauto.
Qed.

(** ** Round trip *)

Definition wf_frame (f : Frame) : Prop :=
  0 <= streamId f < 2 ^ 32 /\ wf_bytes (payload f) /\ blen (payload f) <= MAX_PAYLOAD_BYTES.

Definition frame_bytes (f : Frame) : list Z :=
  frame_code (ftype f) :: be32 (streamId f) ++ be32 (blen (payload f)) ++ payload f.

Definition stream_bytes (fs : list Frame) : list Z := List.concat (List.map frame_bytes fs).

Lemma encodeFrame_bytes f : blen (payload f) <= MAX_PAYLOAD_BYTES ->
  encodeFrame (ftype f) (streamId f) (payload f) = Ok (frame_bytes f).
Proof.
  intros H. unfold encodeFrame. destruct (Z.ltb_spec MAX_PAYLOAD_BYTES (blen (payload f))); [lia|done].
Qed.

Lemma wf_frame_bytes f : wf_frame f -> wf_bytes (frame_bytes f).
Proof.
  intros (_ & Hp & _). unfold frame_bytes. constructor; [unfold is_byte; destruct (ftype f); simpl; lia|].
  rewrite !wf_bytes_app. eauto with hezo.
Qed.

Arguments frame_bytes : simpl never.

Lemma stream_bytes_cons f fs : stream_bytes (f :: fs) = frame_bytes f ++ stream_bytes fs.
Proof. done. Qed.

Lemma wf_stream_bytes fs : Forall wf_frame fs -> wf_bytes (stream_bytes fs).
Proof.
  induction 1; [constructor|]. rewrite stream_bytes_cons.
  apply wf_bytes_app. split; [by apply wf_frame_bytes|done].
Qed.

Lemma blen_frame_bytes f : blen (frame_bytes f) = HEADER_BYTES + blen (payload f).
Proof. unfold frame_bytes, blen, HEADER_BYTES. simpl. lia. Qed.

Lemma drain_frame f more : wf_frame f -> wf_bytes more ->
  drain (frame_bytes f ++ more) =
    let '(rest, r) := drain more in (rest, let! fs := r in Ok (f :: fs)).
Proof.
  intros Hf Hm. pose proof (wf_frame_bytes f Hf) as Hwf.
  pose proof (blen_frame_bytes f) as Hb. pose proof (blen_nonneg (payload f)).
  pose proof (blen_nonneg more). destruct Hf as (Hs & Hp & Hl).
  rewrite drain_unfold by (by apply wf_bytes_app). rewrite blen_app, Hb.
  unfold HEADER_BYTES, MAX_PAYLOAD_BYTES in *.
  assert (get_u32 (frame_bytes f ++ more) 5 = blen (payload f)) as ->.
  { etrans; [|apply (u32_small (blen (payload f))); lia].
    apply (get_u32_be32 (frame_code (ftype f) :: be32 (streamId f)) _ (payload f ++ more)). }
  assert (get_u32 (frame_bytes f ++ more) 1 = streamId f) as ->.
  { etrans; [|apply (u32_small (streamId f)); lia].
    apply (get_u32_be32 [frame_code (ftype f)] _ (be32 (blen (payload f)) ++ payload f ++ more)). }
  change (byte_at (frame_bytes f ++ more) 0) with (frame_code (ftype f)). rewrite isFrameType_code.
  destruct (Z.ltb_spec (9 + blen (payload f) + blen more) 9); [lia|].
  destruct (Z.ltb_spec (64 * 1024) (blen (payload f))); [lia|].
  destruct (Z.ltb_spec (9 + blen (payload f) + blen more) (9 + blen (payload f))); [lia|].
  rewrite bdrop_app, bslice_app by lia.
  assert (bdrop (9 + blen (payload f)) (frame_bytes f) = []) as ->.
  { unfold bdrop. apply drop_ge. unfold blen in *. lia. }
  assert (bslice (frame_bytes f) 9 (9 + blen (payload f)) = payload f) as ->.
  { unfold bslice. replace (9 + blen (payload f) - 9) with (blen (payload f)) by lia.
    unfold blen. rewrite Nat2Z.id. simpl. apply firstn_all. }
  simpl. by destruct f.
Qed.

Lemma drain_stream fs more : Forall wf_frame fs -> wf_bytes more ->
  drain (stream_bytes fs ++ more) =
    let '(rest, r) := drain more in (rest, let! fs' := r in Ok (fs ++ fs')).
Proof.
  intros Hfs Hm. induction Hfs as [|f fs Hf Hfs IH].
  { simpl. by destruct (drain more) as [? [|]]. }
  rewrite stream_bytes_cons, <- app_assoc.
  rewrite drain_frame; [|done|apply wf_bytes_app; split; [by apply wf_stream_bytes|done]].
  rewrite IH. by destruct (drain more) as [? [|]].
Qed.

(** ** Chunk boundaries are not frame boundaries *)

(** A decoder at rest: nothing more can be read from its buffer. *)
Definition quiescent (buf : list Z) : Prop := drain buf = (buf, Ok []).

Lemma drain_quiescent buf rest fs :
  wf_bytes buf -> drain buf = (rest, Ok fs) -> quiescent rest.
Proof.
  intros Hwf Hd. pose proof (drain_app buf [] rest fs Hwf ltac:(constructor) Hd) as Ha.
  rewrite !app_nil_r, Hd in Ha. unfold quiescent.
  destruct (drain rest) as [r [fs'|]]; simplify_eq/=.
  rename select (_ = fs ++ fs') into Hfs. rewrite <- (app_nil_r fs) in Hfs at 1.
  apply app_inv_head in Hfs. by subst.
Qed.

Lemma drain_wf buf rest r : wf_bytes buf -> drain buf = (rest, r) -> wf_bytes rest.
Proof.
  remember (length buf) as n eqn:Hn. revert buf rest r Hn.
  induction n as [n IH] using lt_wf_ind. intros buf rest r Hn Hwf Hd.
  rewrite drain_unfold in Hd by done.
  destruct (Z.ltb_spec (blen buf) HEADER_BYTES) as [|Hh]; [by simplify_eq|].
  destruct (MAX_PAYLOAD_BYTES <? get_u32 buf 5); [by simplify_eq|].
  destruct (isFrameType (byte_at buf 0)); [|by simplify_eq].
  destruct (Z.ltb_spec (blen buf) (HEADER_BYTES + get_u32 buf 5)); [by simplify_eq|].
  destruct (drain (bdrop (HEADER_BYTES + get_u32 buf 5) buf)) as [rest1 r1] eqn:Ed.
  injection Hd as -> _. pose proof (get_u32_range buf 5 Hwf).
  refine (IH _ _ _ rest r1 eq_refl _ Ed); [|by apply wf_bytes_bdrop].
  unfold bdrop, HEADER_BYTES, blen in *. rewrite length_drop. lia.
Qed.

Lemma push_synced buf sc chunk :
  push (mkFrameDecoder buf true sc) chunk =
    let '(rest, r) := drain (buf ++ chunk) in (mkFrameDecoder rest true sc, r).
Proof. done. Qed.

Lemma wf_bytes_concat cs : Forall wf_bytes cs -> wf_bytes (List.concat cs).
Proof. induction 1; simpl; [constructor|by apply wf_bytes_app]. Qed.

(** Pushing chunk by chunk and pushing the concatenation agree. *)
Lemma pushes_synced buf sc chunks rest fs :
  wf_bytes buf -> quiescent buf -> Forall wf_bytes chunks ->
  (pushes (mkFrameDecoder buf true sc) chunks = (mkFrameDecoder rest true sc, Ok fs)
   <-> drain (buf ++ List.concat chunks) = (rest, Ok fs)).
Proof.
  intros Hwf Hq Hcs. revert buf rest fs Hwf Hq.
  induction Hcs as [|c cs Hc Hcs IH]; intros buf rest fs Hwf Hq; simpl.
  { rewrite app_nil_r, Hq. split; intros H; inversion H; done. }
  assert (wf_bytes (buf ++ c)) as Hbc by (by apply wf_bytes_app).
  assert (wf_bytes (List.concat cs)) as Hcc by (by apply wf_bytes_concat).
  rewrite app_assoc, push_synced. destruct (drain (buf ++ c)) as [rest1 [fs1|e]] eqn:Ed.
  - rewrite (drain_app _ _ _ _ Hbc Hcc Ed).
    specialize (IH rest1). split.
    + destruct (pushes (mkFrameDecoder rest1 true sc) cs) as [d' [fs2|]] eqn:Ep; [|done]. intros ?; simplify_eq/=.
      rewrite (proj1 (IH rest fs2 (drain_wf _ _ _ Hbc Ed) (drain_quiescent _ _ _ Hbc Ed)) eq_refl). done.
    + destruct (drain (rest1 ++ _)) as [r2 [fs2|]] eqn:Ed2; [|done]. intros ?; simplify_eq/=.
      rewrite (proj2 (IH rest fs2 (drain_wf _ _ _ Hbc Ed) (drain_quiescent _ _ _ Hbc Ed)) eq_refl). done.
  - split; [done|]. intros Hd. destruct (drain_prefix_ok _ _ _ _ Hbc Hcc Hd) as (? & ? & ?). congruence.
Qed.

(** ** The preamble scan *)

Lemma indexOfSequence_Some h n i :
  indexOfSequence h n = Some i -> exists pre post, h = pre ++ n ++ post /\ length pre = i.
Proof.
  revert i. induction h as [|x h IH]; intros i; simpl; case_bool_decide as Hp.
  - intros [= <-]. destruct Hp as [post ->]. by exists [], post.
  - done.
  - intros [= <-]. destruct Hp as [post ->]. by exists [], post.
  - destruct (indexOfSequence h n) as [j|] eqn:E; simpl; [|done]. intros [= <-].
    destruct (IH j eq_refl) as (pre & post & -> & <-). by exists (x :: pre), post.
Qed.

Lemma indexOfSequence_first pre n post :
  (forall x l, n = x :: l -> ~ x ∈ pre) -> n <> [] ->
  indexOfSequence (pre ++ n ++ post) n = Some (length pre).
Proof.
  intros Hx Hn. induction pre as [|y pre IH]; simpl.
  - destruct (n ++ post) eqn:E; simpl; (case_bool_decide as Hp; [done|]);
      exfalso; apply Hp; rewrite <- E; by apply prefix_app_r.
  - case_bool_decide as Hp.
    + exfalso. destruct Hp as [k Hk]. destruct n as [|x l]; [done|]. simplify_eq/=.
      by apply (Hx x l eq_refl); left.
    + rewrite IH; [done|]. intros x l Hn' Hin. apply (Hx x l Hn'). by right.
Qed.

Local Notation P := TUNNEL_PREAMBLE.

Lemma blen_P : blen P = 15.
Proof. done. Qed.

Definition nul_free (l : list Z) : Prop := Forall (fun b => b <> 0) l.

(** While the preamble is not wholly received, it is not found. *)
Lemma preamble_not_yet noise body buf more :
  nul_free noise -> buf ++ more = noise ++ P ++ body -> blen buf < blen noise + blen P ->
  indexOfSequence buf P = None.
Proof.
  intros Hn Heq Hlt. destruct (indexOfSequence buf P) as [i|] eqn:E; [|done].
  apply indexOfSequence_Some in E as (pre & post & -> & <-).
  rewrite !blen_app in Hlt. exfalso.
  assert (length pre < length noise)%nat as Hp by (unfold blen in *; lia).
  assert (noise !! length pre = Some 0) as Hlk.
  { rewrite <- (lookup_app_l noise (P ++ body)) by done. rewrite <- Heq, <- !app_assoc.
    rewrite lookup_app_r by done. by rewrite Nat.sub_diag. }
  apply (Forall_lookup_1 _ _ _ _ Hn) in Hlk. by apply Hlk.
Qed.

(** Once it is, the bytes after it are what the decoder continues with. *)
Lemma preamble_found noise body :
  nul_free noise -> indexOfSequence (noise ++ P ++ body) P = Some (length noise).
Proof.
  intros Hn. apply indexOfSequence_first; [|done]. intros x l [= <- _] Hin.
  by apply (proj1 (Forall_forall _ _) Hn _ Hin).
Qed.

(** One push of an unsynced decoder that completes the preamble. *)
Lemma push_syncs noise body buf sc chunk :
  nul_free noise -> buf ++ chunk = noise ++ P ++ body ->
  push (mkFrameDecoder buf false sc) chunk =
    let '(rest, r) := drain body in (mkFrameDecoder rest true (sc + blen chunk), r).
Proof.
  intros Hn Heq. unfold push. simpl. unfold trySync. simpl. rewrite Heq, preamble_found by done.
  simpl. replace (bdrop _ (noise ++ P ++ body)) with body; [done|].
  unfold bdrop. rewrite blen_P, app_assoc, drop_app_length'; [done|]. rewrite length_app. simpl. lia.
Qed.

(** One push that does not: the noise is dropped up to what may start the marker. *)
Lemma push_waits noise body buf sc chunk more :
  nul_free noise -> (buf ++ chunk) ++ more = noise ++ P ++ body ->
  blen (buf ++ chunk) < blen noise + blen P -> sc + blen chunk <= MAX_PREAMBLE_SCAN_BYTES ->
  exists dropped buf',
    buf ++ chunk = dropped ++ buf' /\ blen dropped <= blen noise
    /\ push (mkFrameDecoder buf false sc) chunk
       = (mkFrameDecoder buf' false (sc + blen chunk), Ok []).
Proof.
  intros Hn Heq Hlt Hsc. unfold push. simpl. unfold trySync. simpl.
  rewrite (preamble_not_yet noise body _ more) by done.
  destruct (Z.ltb_spec MAX_PREAMBLE_SCAN_BYTES (sc + blen chunk)); [lia|].
  rewrite blen_P in *. destruct (Z.ltb_spec (15 - 1) (blen (buf ++ chunk))).
  - set (k := blen (buf ++ chunk) - (15 - 1)).
    exists (take (Z.to_nat k) (buf ++ chunk)), (bdrop k (buf ++ chunk)). split_and!; [|  |done].
    + unfold bdrop. by rewrite take_drop.
    + unfold blen in *. rewrite length_take. lia.
  - exists [], (buf ++ chunk). split_and!; [done| |done]. pose proof (blen_nonneg noise). done.
Qed.

Lemma pushes_preamble_aux body fs rest chunks noise buf sc :
  wf_bytes buf -> Forall wf_bytes chunks -> nul_free noise ->
  buf ++ List.concat chunks = noise ++ P ++ body ->
  sc + blen noise + blen P <= MAX_PREAMBLE_SCAN_BYTES + blen buf ->
  blen buf < blen noise + blen P ->
  drain body = (rest, Ok fs) ->
  exists sc', pushes (mkFrameDecoder buf false sc) chunks = (mkFrameDecoder rest true sc', Ok fs).
Proof.
  intros Hwf Hcs. revert noise buf sc Hwf.
  induction Hcs as [|c cs Hc Hcs IH]; intros noise buf sc Hwf Hn Heq Hsc Hlt Hd.
  { cbn [List.concat] in Heq. rewrite app_nil_r in Heq. rewrite Heq, !blen_app in Hlt.
    pose proof (blen_nonneg body). lia. }
  cbn [List.concat] in Heq. rewrite app_assoc in Heq.
  assert (wf_bytes (buf ++ c)) as Hbc by (by apply wf_bytes_app).
  destruct (Z.lt_ge_cases (blen (buf ++ c)) (blen noise + blen P)) as [Hw|Hs].
  - destruct (push_waits noise body buf sc c (List.concat cs)) as (dr & buf' & Hb & Hdr & Hp);
      [done|done|done|rewrite blen_app in Hw; lia|].
    simpl. rewrite Hp.
    assert (noise = dr ++ drop (length dr) noise) as Hns.
    { rewrite <- (take_drop (length dr) noise) at 1. f_equal.
      assert (take (length dr) (noise ++ P ++ body) = dr) as Ht.
      { rewrite <- Heq, Hb, <- app_assoc. by rewrite take_app_length. }
      rewrite take_app_le in Ht by (unfold blen in *; lia). done. }
    destruct (IH (drop (length dr) noise) buf' (sc + blen c)) as (sc' & ->).
    + rewrite Hb in Hbc. by apply wf_bytes_app in Hbc as [_ ?].
    + by apply Forall_drop.
    + rewrite Hb, Hns, <- !app_assoc in Heq. by apply app_inv_head in Heq.
    + pose proof (f_equal blen Hns) as Hl1. pose proof (f_equal blen Hb) as Hl2.
      rewrite !blen_app in *. lia.
    + pose proof (f_equal blen Hns) as Hl1. pose proof (f_equal blen Hb) as Hl2.
      rewrite !blen_app in *. lia.
    + done.
    + by exists sc'.
  - assert (exists body1, buf ++ c = noise ++ P ++ body1 /\ body = body1 ++ List.concat cs)
      as (body1 & Hb1 & Hb2).
    { exists (drop (length (noise ++ P)) (buf ++ c)).
      assert (length (noise ++ P) <= length (buf ++ c))%nat as Hle
        by (rewrite length_app; unfold blen in *; lia).
      rewrite !app_assoc in *. split.
      - rewrite <- (take_drop (length (noise ++ P)) (buf ++ c)) at 1. f_equal.
        rewrite <- (take_app_le (buf ++ c) (List.concat cs)), Heq, take_app_length by done. done.
      - rewrite <- drop_app_le, Heq, drop_app_length by done. done. }
    simpl. rewrite (push_syncs noise body1) by done.
    rewrite Hb1 in Hbc. apply wf_bytes_app in Hbc as [_ Hbc]. apply wf_bytes_app in Hbc as [_ Hbc].
    assert (wf_bytes (List.concat cs)) as Hcc by (by apply wf_bytes_concat).
    rewrite Hb2 in Hd. destruct (drain_prefix_ok _ _ _ _ Hbc Hcc Hd) as (r1 & fs1 & Hd1).
    rewrite Hd1. rewrite (drain_app _ _ _ _ Hbc Hcc Hd1) in Hd.
    destruct (drain (r1 ++ List.concat cs)) as [r2 [fs2|]] eqn:Hd2; simplify_eq/=.
    rewrite (proj2 (pushes_synced r1 (sc + blen c) cs rest fs2 (drain_wf _ _ _ Hbc Hd1)
      (drain_quiescent _ _ _ Hbc Hd1) Hcs) Hd2).
    eauto.
Qed.

Lemma wf_chunks chunks : wf_bytes (List.concat chunks) -> Forall wf_bytes chunks.
Proof.
  induction chunks as [|c cs IH]; simpl; [constructor|].
  intros [? ?]%wf_bytes_app. constructor; [done|by apply IH].
Qed.

Lemma drain_nil : drain [] = ([], Ok []).
Proof. done. Qed.

(** Every byte of a drained buffer is in a frame (header and payload) or left. *)
Lemma drain_accounts buf rest fs :
  wf_bytes buf -> drain buf = (rest, Ok fs) ->
  blen buf = sumZ (fun f => HEADER_BYTES + blen (payload f)) fs + blen rest
  /\ Forall (fun f => wf_bytes (payload f)) fs.
Proof.
  remember (length buf) as n eqn:Hn. revert buf rest fs Hn.
  induction n as [n IH] using lt_wf_ind. intros buf rest fs Hn Hwf Hd.
  rewrite drain_unfold in Hd by done.
  destruct (Z.ltb_spec (blen buf) HEADER_BYTES) as [|Hh]; [simplify_eq; rewrite sumZ_nil; split; [lia|constructor]|].
  destruct (MAX_PAYLOAD_BYTES <? get_u32 buf 5); [done|].
  destruct (isFrameType (byte_at buf 0)) as [t|]; [|done].
  destruct (Z.ltb_spec (blen buf) (HEADER_BYTES + get_u32 buf 5)) as [|Ht];
    [simplify_eq; rewrite sumZ_nil; split; [lia|constructor]|].
  pose proof (get_u32_range buf 5 Hwf) as Hlen.
  destruct (drain (bdrop (HEADER_BYTES + get_u32 buf 5) buf)) as [rest1 [fs1|]] eqn:Ed; simplify_eq/=.
  destruct (IH (length (bdrop (HEADER_BYTES + get_u32 buf 5) buf))
    ltac:(unfold bdrop, HEADER_BYTES, blen in *; rewrite length_drop; lia) _ rest fs1 eq_refl
    (wf_bytes_bdrop _ _ Hwf) Ed) as [Hacc Hps].
  rewrite blen_bdrop in Hacc by (unfold HEADER_BYTES in *; lia).
  rewrite sumZ_cons. simpl. split.
  - assert (blen (bslice buf HEADER_BYTES (HEADER_BYTES + get_u32 buf 5)) = get_u32 buf 5) as ->; [|lia].
    unfold bslice, blen, HEADER_BYTES in *. rewrite length_take, length_drop. lia.
  - constructor; [|done]. simpl. unfold bslice. by apply Forall_take, Forall_drop.
Qed.

(** The decoder keeps to bytes, and so do the frames it yields. *)
Lemma push_wf d chunk d' r :
  wf_bytes (buffer d) -> wf_bytes chunk -> push d chunk = (d', r) ->
  wf_bytes (buffer d')
  /\ (forall fs, r = Ok fs -> Forall (fun f => wf_bytes (payload f)) fs).
Proof.
  intros Hwb Hwc Hp. destruct d as [buf sy sc]. simpl in Hwb.
  assert (wf_bytes (buf ++ chunk)) as Hwf by (by apply wf_bytes_app).
  assert (forall b rest r', wf_bytes b -> drain b = (rest, r') -> wf_bytes rest
    /\ (forall fs, r' = Ok fs -> Forall (fun f => wf_bytes (payload f)) fs)) as Hdr.
  { intros b rest r' Hb Hd. split; [by eapply drain_wf|].
    intros fs ->. by eapply drain_accounts. }
  destruct sy.
  { rewrite push_synced in Hp. destruct (drain (buf ++ chunk)) as [rest r'] eqn:Ed.
    simplify_eq. by apply (Hdr (buf ++ chunk)). }
  unfold push, trySync in Hp. cbn [buffer synced scanned] in Hp.
  destruct (indexOfSequence _ _) as [i|].
  { cbn [buffer synced scanned] in Hp. destruct (drain _) as [rest r'] eqn:Ed. simplify_eq.
    eapply Hdr; [|exact Ed]. by apply wf_bytes_bdrop. }
  destruct (MAX_PREAMBLE_SCAN_BYTES <? sc + blen chunk); simplify_eq; simpl; [done|].
  split; [|intros fs [= <-]; constructor].
  destruct (_ <? blen (buf ++ chunk)); [by apply wf_bytes_bdrop|done].
Qed.

(** C31. Round trip under any chunking. However the byte channel cuts the encoded
    frames, and whatever NUL-free noise (a shell's echo and prompt) precedes the
    preamble within the scan bound, the decoder yields exactly the frames that
    were sent, in order, and holds no byte back. *)
Theorem decoder_roundtrip noise fs chunks :
  wf_bytes noise -> nul_free noise ->
  blen noise + blen TUNNEL_PREAMBLE <= MAX_PREAMBLE_SCAN_BYTES ->
  Forall wf_frame fs ->
  List.concat chunks = noise ++ TUNNEL_PREAMBLE ++ stream_bytes fs ->
  exists sc, pushes (newFrameDecoder true) chunks = (mkFrameDecoder [] true sc, Ok fs).
Proof.
  intros Hwn Hn Hb Hfs Hc. pose proof (wf_stream_bytes fs Hfs) as Hws.
  unfold newFrameDecoder. simpl. apply (pushes_preamble_aux (stream_bytes fs) fs [] chunks noise).
  - constructor.
  - apply wf_chunks. rewrite Hc, !wf_bytes_app. split_and!; [done| |done].
    unfold wf_bytes, TUNNEL_PREAMBLE, is_byte. repeat constructor; lia.
  - done.
  - done.
  - unfold blen at 3. simpl. lia.
  - pose proof (blen_nonneg noise). rewrite blen_P. unfold blen at 1. simpl. lia.
  - rewrite <- (app_nil_r (stream_bytes fs)), drain_stream by (done || constructor).
    rewrite drain_nil. simpl. by rewrite app_nil_r.
Qed.

Lemma decoder_roundtrip_witness :
  exists sc, pushes (newFrameDecoder true)
    [[115; 104; 32; 0; 72; 69; 90; 79; 45]; [84; 85; 78; 78; 69; 76; 47; 49; 0; 2; 0];
     [0; 0; 7; 0; 0; 0; 1]; [255; 3; 0; 0; 0; 7; 0; 0]; [0; 0]]
    = (mkFrameDecoder [] true sc, Ok [mkFrame Data 7 [255]; mkFrame Close 7 []]).
Proof.
  apply (decoder_roundtrip [115; 104; 32] [mkFrame Data 7 [255]; mkFrame Close 7 []]).
  - repeat constructor; unfold is_byte; lia.
  - repeat constructor; lia.
  - vm_compute. discriminate.
  - repeat constructor; unfold is_byte; simpl; try lia; try (vm_compute; discriminate).
  - reflexivity.
Defined.

(** Chunking is invisible: once synced and at rest, feeding any split of a
    byte string succeeds exactly when feeding it whole does, with the same frames
    and the same bytes held back. *)
Theorem push_chunking buf sc chunks rest fs :
  wf_bytes buf -> quiescent buf -> Forall wf_bytes chunks ->
  pushes (mkFrameDecoder buf true sc) chunks = (mkFrameDecoder rest true sc, Ok fs)
  <-> push (mkFrameDecoder buf true sc) (List.concat chunks) = (mkFrameDecoder rest true sc, Ok fs).
Proof.
  intros Hwf Hq Hcs. rewrite pushes_synced by done. rewrite push_synced.
  destruct (drain (buf ++ List.concat chunks)) as [r res].
  split; [intros [= -> ->]; done|intros [= -> ->]; done].
Qed.

Lemma push_chunking_witness :
  push (mkFrameDecoder [] true 0) [3; 0; 0; 0; 9; 0; 0; 0; 0]
    = (mkFrameDecoder [] true 0, Ok [mkFrame Close 9 []]).
Proof.
  apply (push_chunking [] 0 [[3; 0; 0]; [0; 9; 0; 0]; [0; 0]] [] [mkFrame Close 9 []]).
  - constructor.
  - reflexivity.
  - repeat constructor; unfold is_byte; lia.
  - vm_compute. reflexivity.
Defined.

Lemma drain_bounded buf rest fs :
  wf_bytes buf -> drain buf = (rest, Ok fs) -> blen rest < HEADER_BYTES + MAX_PAYLOAD_BYTES.
Proof.
  intros Hwf Hd. pose proof (drain_quiescent _ _ _ Hwf Hd) as Hq.
  pose proof (drain_wf _ _ _ Hwf Hd) as Hwr. unfold quiescent in Hq.
  rewrite drain_unfold in Hq by done. unfold HEADER_BYTES, MAX_PAYLOAD_BYTES in *.
  destruct (Z.ltb_spec (blen rest) 9); [lia|].
  destruct (Z.ltb_spec (64 * 1024) (get_u32 rest 5)); [done|].
  destruct (isFrameType (byte_at rest 0)); [|done].
  destruct (Z.ltb_spec (blen rest) (9 + get_u32 rest 5)); [lia|].
  destruct (drain (bdrop (9 + get_u32 rest 5) rest)) as [? [|]]; simplify_eq/=.
Qed.

(** The decoder's memory is bounded whatever the peer sends: after every
    push that does not throw it holds less than one header and one maximal
    payload, and before the preamble at most the 14 bytes that may start one. *)
Theorem push_bounded d chunk d' fs :
  wf_bytes (buffer d) -> wf_bytes chunk -> push d chunk = (d', Ok fs) ->
  pending d' < HEADER_BYTES + MAX_PAYLOAD_BYTES
  /\ (synced d' = false -> pending d' <= blen TUNNEL_PREAMBLE - 1).
Proof.
  intros Hwb Hwc Hp. destruct d as [buf sy sc]. simpl in Hwb.
  assert (wf_bytes (buf ++ chunk)) as Hwf by (by apply wf_bytes_app).
  destruct sy.
  { rewrite push_synced in Hp. destruct (drain (buf ++ chunk)) as [rest r] eqn:Ed. simplify_eq. unfold pending. cbn [buffer synced].
    split; [eapply drain_bounded; eauto|done]. }
  unfold push, trySync in Hp. cbn [buffer synced scanned] in Hp.
  destruct (indexOfSequence _ _) as [i|].
  { cbn [buffer synced scanned] in Hp. destruct (drain _) as [rest r] eqn:Ed. simplify_eq. unfold pending. cbn [buffer synced].
    split; [|done]. eapply drain_bounded; [|exact Ed]. by apply wf_bytes_bdrop. }
  destruct (MAX_PREAMBLE_SCAN_BYTES <? sc + blen chunk); [done|]. simplify_eq.
  unfold pending, HEADER_BYTES, MAX_PAYLOAD_BYTES. simpl. rewrite blen_P.
  destruct (Z.ltb_spec (15 - 1) (blen (buf ++ chunk))); [rewrite blen_bdrop by lia; lia|lia].
Qed.

Lemma push_bounded_witness :
  push (newFrameDecoder true) (repeat 65 40) = (mkFrameDecoder (repeat 65 14) false 40, Ok [])
  /\ pending (mkFrameDecoder (repeat 65 14) false 40) <= 14.
Proof.
  split; [reflexivity|].
  refine (proj2 (push_bounded (newFrameDecoder true) (repeat 65 40) _ [] _ _ eq_refl) eq_refl).
  - constructor.
  - repeat constructor; unfold is_byte; lia.
Defined.

(** Malformed input fails loudly and in place: after any number of well-formed
    frames, a header whose length exceeds the cap or whose type is unknown makes
    [push] throw that error, and the buffer is left starting at that header. *)
Theorem push_malformed sc fs bad :
  Forall wf_frame fs -> wf_bytes bad -> HEADER_BYTES <= blen bad ->
  MAX_PAYLOAD_BYTES < get_u32 bad 5 \/ isFrameType (byte_at bad 0) = None ->
  push (mkFrameDecoder [] true sc) (stream_bytes fs ++ bad)
  = (mkFrameDecoder bad true sc,
     Throw (if MAX_PAYLOAD_BYTES <? get_u32 bad 5 then LengthTooLong (get_u32 bad 5)
            else UnknownFrameType (byte_at bad 0))).
Proof.
  intros Hfs Hwf Hlen Hbad. rewrite push_synced. simpl. rewrite drain_stream by done.
  rewrite drain_unfold by done. destruct (Z.ltb_spec (blen bad) HEADER_BYTES); [lia|].
  destruct (Z.ltb_spec MAX_PAYLOAD_BYTES (get_u32 bad 5)); [done|].
  destruct Hbad as [?| ->]; [lia|done].
Qed.

Lemma push_malformed_witness :
  push (mkFrameDecoder [] true 0) (stream_bytes [mkFrame Close 1 []] ++ [9; 0; 0; 0; 0; 0; 0; 0; 0])
  = (mkFrameDecoder [9; 0; 0; 0; 0; 0; 0; 0; 0] true 0, Throw (UnknownFrameType 9)).
Proof.
  apply (push_malformed 0 [mkFrame Close 1 []] [9; 0; 0; 0; 0; 0; 0; 0; 0]).
  - repeat constructor; simpl; lia || (vm_compute; discriminate).
  - repeat constructor; unfold is_byte; lia.
  - vm_compute. discriminate.
  - right. reflexivity.
Defined.
