(* ===== verification/TunnelMux.v ===== *)
(** * The tunnel multiplexer

    Model of [packages/server/src/services/sandbox/tunnel/mux.ts], class
    [TunnelMux]: the Hezo-side end of the tunnel. The state holds the decoder, the
    stream objects and the counters; every handler is a function on it, and the
    effects on the channel and the sockets are appended to a trace.

    Stream objects are kept in a store apart from the [streams] map, because the
    socket callbacks capture the object and go on using it after the map entry is
    gone. A chunk is processed up to an [OPEN] that connects; the connection's
    outcome is a later event, other events may come in between, and chunks that
    arrive meanwhile wait in the queue, as [handleChunk]'s promise chain makes
    them wait. *)
From Stdlib Require Import ZArith Lia List.
From stdpp Require Import base list gmap.
From S2P Require Import Prelude Bytes TunnelProtocol.

Open Scope Z_scope.

Definition DEFAULT_WINDOW_BYTES : Z := 256 * 1024.
Definition STALL_WARN_MS : Z := 20000.

Record Stream := mkStream {
  s_id : Z;
  credit : Z;
  pausedForCredit : bool;
  awaitingDrain : bool;
  unacked : Z;
  s_closed : bool;
  blockedSince : option Z;
  blockReported : bool
}.

(** What the multiplexer does to the outside; sockets are named by the number of
    their stream object. *)
Inductive Effect :=
| ChannelWrite (f : Frame)
| ChannelClose
| SockWrite (o : nat) (data : list Z)
| SockPause (o : nat)
| SockResume (o : nat)
| SockEnd (o : nat)
| SockDestroy (o : nat)
| Connecting (t : TunnelTarget)
| LogStall (sid : Z).

Record Counters := mkCounters {
  framesIn : Z; framesOut : Z; payloadBytesIn : Z; payloadBytesOut : Z;
  socketBytesIn : Z; socketBytesOut : Z; creditStalls : Z; drainStalls : Z
}.

Record TunnelMux := mkMux {
  window : Z;
  decoder : FrameDecoder;
  objs : gmap nat Stream;
  streams : gmap Z nat;
  mclosed : bool;
  counters : Counters;
  nextObj : nat;
  (** an [OPEN] whose connect is awaited, and the frames of its chunk after it *)
  current : option (Z * list Frame);
  chunkQueue : list (list Z);
  trace : list Effect
}.

Definition zeroCounters : Counters := mkCounters 0 0 0 0 0 0 0 0.

Definition newTunnelMux (windowBytes : option Z) : TunnelMux :=
  mkMux (default DEFAULT_WINDOW_BYTES windowBytes) (newFrameDecoder true) ∅ ∅ false
    zeroCounters 0 None [] [].

(** ** Field updates *)

Definition set_decoder d m := mkMux (window m) d (objs m) (streams m) (mclosed m) (counters m)
  (nextObj m) (current m) (chunkQueue m) (trace m).
Definition set_objs os m := mkMux (window m) (decoder m) os (streams m) (mclosed m) (counters m)
  (nextObj m) (current m) (chunkQueue m) (trace m).
Definition set_streams ss m := mkMux (window m) (decoder m) (objs m) ss (mclosed m) (counters m)
  (nextObj m) (current m) (chunkQueue m) (trace m).
Definition set_closed b m := mkMux (window m) (decoder m) (objs m) (streams m) b (counters m)
  (nextObj m) (current m) (chunkQueue m) (trace m).
Definition set_counters c m := mkMux (window m) (decoder m) (objs m) (streams m) (mclosed m) c
  (nextObj m) (current m) (chunkQueue m) (trace m).
Definition set_nextObj n m := mkMux (window m) (decoder m) (objs m) (streams m) (mclosed m)
  (counters m) n (current m) (chunkQueue m) (trace m).
Definition set_current c m := mkMux (window m) (decoder m) (objs m) (streams m) (mclosed m)
  (counters m) (nextObj m) c (chunkQueue m) (trace m).
Definition set_queue q m := mkMux (window m) (decoder m) (objs m) (streams m) (mclosed m)
  (counters m) (nextObj m) (current m) q (trace m).
Definition emit e m := mkMux (window m) (decoder m) (objs m) (streams m) (mclosed m)
  (counters m) (nextObj m) (current m) (chunkQueue m) (trace m ++ [e]).
Definition put_obj (o : nat) (s : Stream) m := set_objs (<[o := s]> (objs m)) m.

Definition with_credit s c := mkStream (s_id s) c (pausedForCredit s) (awaitingDrain s)
  (unacked s) (s_closed s) (blockedSince s) (blockReported s).
Definition with_paused s b := mkStream (s_id s) (credit s) b (awaitingDrain s)
  (unacked s) (s_closed s) (blockedSince s) (blockReported s).
Definition with_drain s b := mkStream (s_id s) (credit s) (pausedForCredit s) b
  (unacked s) (s_closed s) (blockedSince s) (blockReported s).
Definition with_unacked s n := mkStream (s_id s) (credit s) (pausedForCredit s) (awaitingDrain s)
  n (s_closed s) (blockedSince s) (blockReported s).
Definition with_sclosed s b := mkStream (s_id s) (credit s) (pausedForCredit s) (awaitingDrain s)
  (unacked s) b (blockedSince s) (blockReported s).
Definition with_block s since rep := mkStream (s_id s) (credit s) (pausedForCredit s)
  (awaitingDrain s) (unacked s) (s_closed s) since rep.

(** ** Handlers *)

Definition count_out (c : Counters) (n : Z) : Counters :=
  mkCounters (framesIn c) (framesOut c + 1) (payloadBytesIn c) (payloadBytesOut c + n)
    (socketBytesIn c) (socketBytesOut c) (creditStalls c) (drainStalls c).
Definition count_in (c : Counters) (n : Z) : Counters :=
  mkCounters (framesIn c + 1) (framesOut c) (payloadBytesIn c + n) (payloadBytesOut c)
    (socketBytesIn c) (socketBytesOut c) (creditStalls c) (drainStalls c).
Definition count_sock_in (c : Counters) (n : Z) : Counters :=
  mkCounters (framesIn c) (framesOut c) (payloadBytesIn c) (payloadBytesOut c)
    (socketBytesIn c + n) (socketBytesOut c) (creditStalls c) (drainStalls c).
Definition count_sock_out (c : Counters) (n : Z) : Counters :=
  mkCounters (framesIn c) (framesOut c) (payloadBytesIn c) (payloadBytesOut c)
    (socketBytesIn c) (socketBytesOut c + n) (creditStalls c) (drainStalls c).
Definition count_credit_stall (c : Counters) : Counters :=
  mkCounters (framesIn c) (framesOut c) (payloadBytesIn c) (payloadBytesOut c)
    (socketBytesIn c) (socketBytesOut c) (creditStalls c + 1) (drainStalls c).
Definition count_drain_stall (c : Counters) : Counters :=
  mkCounters (framesIn c) (framesOut c) (payloadBytesIn c) (payloadBytesOut c)
    (socketBytesIn c) (socketBytesOut c) (creditStalls c) (drainStalls c + 1).

Definition send (t : FrameType) (sid : Z) (data : list Z) (m : TunnelMux) : TunnelMux :=
  if mclosed m then m
  else emit (ChannelWrite (mkFrame t sid data)) (set_counters (count_out (counters m) (blen data)) m).

Definition flushCredit (o : nat) (s : Stream) (m : TunnelMux) : TunnelMux :=
  if awaitingDrain s || s_closed s then m
  else if 2 * unacked s <? window m then m
  else put_obj o (with_unacked s 0) (send Window (s_id s) (windowPayload (unacked s)) m).

(** [data.slice(offset, offset + MAX_PAYLOAD_BYTES)] for each offset of the loop;
    [fuel] bounds the number of slices. *)
Fixpoint slices (fuel : nat) (data : list Z) : list (list Z) :=
  match fuel, data with
  | O, _ | _, [] => []
  | S fuel', _ => bslice data 0 MAX_PAYLOAD_BYTES :: slices fuel' (bdrop MAX_PAYLOAD_BYTES data)
  end.

Fixpoint send_slices (o : nat) (sid : Z) (sls : list (list Z)) (m : TunnelMux) : TunnelMux :=
  match sls with
  | [] => m
  | sl :: sls' =>
      let m1 := send Data sid sl m in
      let m2 := match objs m1 !! o with
                | Some s => put_obj o (with_credit s (credit s - blen sl)) m1
                | None => m1
                end in
      send_slices o sid sls' m2
  end.

Definition onLocalData (o : nat) (data : list Z) (m : TunnelMux) : TunnelMux :=
  match objs m !! o with
  | None => m
  | Some s =>
      if s_closed s then m
      else
        let m := set_counters (count_sock_out (counters m) (blen data)) m in
        let m := send_slices o (s_id s) (slices (length data) data) m in
        match objs m !! o with
        | None => m
        | Some s =>
            if (credit s <=? 0) && negb (pausedForCredit s)
            then emit (SockPause o)
                   (put_obj o (with_paused s true)
                     (set_counters (count_credit_stall (counters m)) m))
            else m
        end
  end.

Definition onLocalEnd (o : nat) (m : TunnelMux) : TunnelMux :=
  match objs m !! o with
  | None => m
  | Some s =>
      if s_closed s then m
      else send Close (s_id s) []
             (set_streams (delete (s_id s) (streams m)) (put_obj o (with_sclosed s true) m))
  end.

Definition onDrain (o : nat) (m : TunnelMux) : TunnelMux :=
  match objs m !! o with
  | None => m
  | Some s => flushCredit o (with_drain s false) (put_obj o (with_drain s false) m)
  end.

Definition onWindow (sid add : Z) (m : TunnelMux) : TunnelMux :=
  match streams m !! sid with
  | None => m
  | Some o =>
      match objs m !! o with
      | None => m
      | Some s =>
          if s_closed s then m
          else
            let s := with_credit s (credit s + add) in
            if pausedForCredit s && (0 <? credit s)
            then emit (SockResume o) (put_obj o (with_paused s false) m)
            else put_obj o s m
      end
  end.

Definition onRemoteClose (sid : Z) (m : TunnelMux) : TunnelMux :=
  match streams m !! sid with
  | None => m
  | Some o =>
      match objs m !! o with
      | None => m
      | Some s =>
          let m := put_obj o (with_paused (with_sclosed s true) false) m in
          let m := if pausedForCredit s then emit (SockResume o) m else m in
          set_streams (delete sid (streams m)) (emit (SockEnd o) m)
      end
  end.

Definition closeAll (m : TunnelMux) : TunnelMux :=
  if mclosed m then m
  else
    let m := set_closed true m in
    let m := fold_left (fun m o => emit (SockDestroy o) m) (List.map snd (map_to_list (streams m))) m in
    emit ChannelClose (set_streams ∅ m).

(** [new TextDecoder().decode(payload)] drops a leading byte order mark. *)
Definition decodeKey (data : list Z) : list Z :=
  match data with
  | 239 :: 187 :: 191 :: rest => rest
  | _ => data
  end.

Definition newStream (sid w : Z) : Stream := mkStream sid w false false 0 false None false.

(** [onOpen] up to its [await]; [true] means a connect is now awaited. *)
Definition onOpen (sid : Z) (targetKey : list Z) (m : TunnelMux) : TunnelMux * bool :=
  match streams m !! sid with
  | Some _ => (m, false)
  | None =>
      match isTunnelTarget targetKey with
      | None => (send Close sid [] m, false)
      | Some t => (emit (Connecting t) m, true)
      end
  end.

(** ... and after it, when the connect succeeded. *)
Definition onConnected (sid : Z) (m : TunnelMux) : TunnelMux :=
  let o := nextObj m in
  let m := set_nextObj (S o) m in
  if mclosed m then emit (SockDestroy o) m
  else
    let m := put_obj o (newStream sid (window m)) m in
    let m := set_streams (<[sid := o]> (streams m)) m in
    send Window sid (windowPayload (window m)) m.

Section Environment.
(** Whether a socket takes the bytes without filling its buffer: the answer of
    [socket.write] to the [n]-th effect on object [o]. *)
Context (accepts : nat -> nat -> bool).

Definition onData (sid : Z) (data : list Z) (m : TunnelMux) : TunnelMux :=
  match streams m !! sid with
  | None => m
  | Some o =>
      match objs m !! o with
      | None => m
      | Some s =>
          if s_closed s then m
          else
            let accepted := accepts o (length (trace m)) in
            let m := emit (SockWrite o data) m in
            let m := set_counters (count_sock_in (counters m) (blen data)) m in
            let s := with_unacked s (unacked s + blen data) in
            if negb accepted then
              let m := if awaitingDrain s then m
                       else set_counters (count_drain_stall (counters m)) m in
              put_obj o (with_drain s true) m
            else flushCredit o s (put_obj o s m)
      end
  end.

(** The [for (const frame of frames)] loop of [process], from the frames left. A
    throw tears the tunnel down. *)
Fixpoint dispatch (frames : list Frame) (m : TunnelMux) : TunnelMux :=
  match frames with
  | [] => m
  | f :: frames' =>
      let m := set_counters (count_in (counters m) (blen (payload f))) m in
      match ftype f with
      | Open =>
          let '(m, waits) := onOpen (streamId f) (decodeKey (payload f)) m in
          if waits then set_current (Some (streamId f, frames')) m else dispatch frames' m
      | Data => dispatch frames' (onData (streamId f) (payload f) m)
      | Close => dispatch frames' (onRemoteClose (streamId f) m)
      | Window =>
          match decodeWindowCredit (payload f) with
          | Ok c => dispatch frames' (onWindow (streamId f) c m)
          | Throw _ => closeAll m
          end
      end
  end.

Definition process (chunk : list Z) (m : TunnelMux) : TunnelMux :=
  if mclosed m then m
  else
    let '(d, r) := push (decoder m) chunk in
    let m := set_decoder d m in
    match r with
    | Ok frames => dispatch frames m
    | Throw _ => closeAll m
    end.

(** The promise chain: the queued chunks are processed in order while no connect
    is awaited. *)
Fixpoint pump (q : list (list Z)) (m : TunnelMux) : TunnelMux :=
  match q with
  | [] => set_queue [] m
  | c :: q' => match current m with
               | Some _ => set_queue q m
               | None => pump q' (process c m)
               end
  end.

Definition handleChunk (chunk : list Z) (m : TunnelMux) : TunnelMux :=
  pump (chunkQueue m ++ [chunk]) m.

(** The awaited connect settles; processing resumes where it stopped. *)
Definition connectSettled (ok : bool) (m : TunnelMux) : TunnelMux :=
  match current m with
  | None => m
  | Some (sid, frames) =>
      let m := set_current None m in
      let m := if ok then onConnected sid m else send Close sid [] m in
      let m := dispatch frames m in
      pump (chunkQueue m) m
  end.

(** The stall watchdog, for one stream. *)
Definition scanStream (now : Z) (o : nat) (m : TunnelMux) : TunnelMux :=
  match objs m !! o with
  | None => m
  | Some s =>
      let blocked := pausedForCredit s || awaitingDrain s in
      if negb blocked then put_obj o (with_block s None false) m
      else match blockedSince s with
           | None => put_obj o (with_block s (Some now) (blockReported s)) m
           | Some since =>
               if blockReported s || (now - since <? STALL_WARN_MS) then m
               else emit (LogStall (s_id s)) (put_obj o (with_block s (Some since) true) m)
           end
  end.

Definition reportStalledStreams (now : Z) (m : TunnelMux) : TunnelMux :=
  if mclosed m then m
  else fold_left (fun m o => scanStream now o m) (List.map snd (map_to_list (streams m))) m.

Inductive MuxEvent :=
| EvChunk (chunk : list Z)
| EvConnect (ok : bool)
| EvLocalData (o : nat) (data : list Z)
| EvLocalEnd (o : nat)
| EvDrain (o : nat)
| EvScan (now : Z)
| EvCloseAll.

Definition step (ev : MuxEvent) (m : TunnelMux) : TunnelMux :=
  match ev with
  | EvChunk c => handleChunk c m
  | EvConnect ok => connectSettled ok m
  | EvLocalData o data => onLocalData o data m
  | EvLocalEnd o => onLocalEnd o m
  | EvDrain o => onDrain o m
  | EvScan now => reportStalledStreams now m
  | EvCloseAll => closeAll m
  end.

Definition run (evs : list MuxEvent) (m : TunnelMux) : TunnelMux :=
  fold_left (fun m ev => step ev m) evs m.

(** Bytes on the wire are bytes. *)
Definition wf_event (ev : MuxEvent) : Prop :=
  match ev with EvChunk c => wf_bytes c | _ => True end.

(** ** The invariant *)

(** An open stream's flow control: its socket is paused exactly when its credit is
    spent, and unless its own socket is full it owes the peer less than half a
    window. *)
Record flow_ok (w : Z) (s : Stream) : Prop := {
  fo_paused : pausedForCredit s = true <-> credit s <= 0;
  fo_unacked : 0 <= unacked s;
  fo_owed : awaitingDrain s = false -> 2 * unacked s < w
}.

Record core_inv (w : Z) (os : gmap nat Stream) (ss : gmap Z nat) (cl : bool) (n : nat)
    (cur : option (Z * list Frame)) : Prop := {
  ci_window : 0 < w;
  ci_mapped : forall sid o, ss !! sid = Some o ->
    exists s, os !! o = Some s /\ s_id s = sid /\ s_closed s = false;
  ci_open : forall o s, os !! o = Some s -> cl = false -> s_closed s = false ->
    ss !! s_id s = Some o;
  ci_fresh : forall o s, os !! o = Some s -> (o < n)%nat;
  ci_flow : forall o s, os !! o = Some s -> s_closed s = false -> flow_ok w s;
  ci_closed : cl = true -> ss = ∅;
  ci_current : forall sid fs, cur = Some (sid, fs) -> ss !! sid = None
}.

Definition mux_inv (m : TunnelMux) : Prop :=
  core_inv (window m) (objs m) (streams m) (mclosed m) (nextObj m) (current m).

(** Replacing an object by an open one with the same id, or any object by a closed
    one that left the map. *)
Lemma core_put_open w os ss cl n cur o s s' :
  core_inv w os ss cl n cur -> os !! o = Some s -> s_closed s = false ->
  s_id s' = s_id s -> s_closed s' = false -> flow_ok w s' ->
  core_inv w (<[o := s']> os) ss cl n cur.
Proof.
  intros [Hw Hm Ho Hf Hfl Hc Hcur] Hs Hcl Hid Hcl' Hflow. constructor; try done.
  - intros sid o' Hss. destruct (Hm sid o' Hss) as (x & Hx & Hxi & Hxc).
    destruct (decide (o = o')) as [<-|Hne].
    + exists s'. rewrite lookup_insert_eq. split_and!; [done| |done]. congruence.
    + exists x. by rewrite lookup_insert_ne.
  - intros o' x Hx Hclf Hxc. destruct (decide (o = o')) as [<-|Hne].
    + rewrite lookup_insert_eq in Hx. simplify_eq. rewrite Hid. by apply Ho.
    + rewrite lookup_insert_ne in Hx by done. by apply Ho.
  - intros o' x Hx. destruct (decide (o = o')) as [<-|Hne]; [by apply (Hf o s)|].
    rewrite lookup_insert_ne in Hx by done. by eapply Hf.
  - intros o' x Hx Hxc. destruct (decide (o = o')) as [<-|Hne].
    + rewrite lookup_insert_eq in Hx. by simplify_eq.
    + rewrite lookup_insert_ne in Hx by done. by eapply Hfl.
Qed.

Lemma core_close w os ss cl n cur o s s' sid :
  core_inv w os ss cl n cur -> os !! o = Some s ->
  s_id s = sid -> (cl = false -> ss !! sid = Some o) -> s_closed s' = true ->
  core_inv w (<[o := s']> os) (delete sid ss) cl n cur.
Proof.
  intros [Hw Hm Ho Hf Hfl Hc Hcur] Hs Hid Hss Hcl'. constructor; try done.
  - intros sid' o' Hlk. apply lookup_delete_Some in Hlk as [Hne Hlk].
    destruct (Hm sid' o' Hlk) as (x & Hx & Hxi & Hxc).
    assert (o <> o') by (intros <-; congruence). exists x. by rewrite lookup_insert_ne.
  - intros o' x Hx Hclf Hxc. destruct (decide (o = o')) as [<-|Hne].
    + rewrite lookup_insert_eq in Hx. congruence.
    + rewrite lookup_insert_ne in Hx by done. pose proof (Ho _ _ Hx Hclf Hxc) as Hlk.
      apply lookup_delete_Some. split; [|done]. intros Heq. rewrite <- Heq, Hss in Hlk by done.
      congruence.
  - intros o' x Hx. destruct (decide (o = o')) as [<-|Hne]; [by apply (Hf o s)|].
    rewrite lookup_insert_ne in Hx by done. by eapply Hf.
  - intros o' x Hx Hxc. destruct (decide (o = o')) as [<-|Hne].
    + rewrite lookup_insert_eq in Hx. congruence.
    + rewrite lookup_insert_ne in Hx by done. by eapply Hfl.
  - intros Ht. rewrite (Hc Ht). apply delete_empty.
  - intros sid' fs Hcu. apply lookup_delete_None. right. by eapply Hcur.
Qed.

Lemma core_put_closed w os ss cl n cur o s s' :
  core_inv w os ss cl n cur -> os !! o = Some s -> s_closed s = true -> s_closed s' = true ->
  core_inv w (<[o := s']> os) ss cl n cur.
Proof.
  intros [Hw Hm Ho Hf Hfl Hc Hcur] Hs Hcl Hcl'. constructor; try done.
  - intros sid o' Hss. destruct (Hm sid o' Hss) as (x & Hx & Hxi & Hxc).
    assert (o <> o') by (intros <-; congruence). exists x. by rewrite lookup_insert_ne.
  - intros o' x Hx Hclf Hxc. destruct (decide (o = o')) as [<-|Hne].
    + rewrite lookup_insert_eq in Hx. congruence.
    + rewrite lookup_insert_ne in Hx by done. by apply Ho.
  - intros o' x Hx. destruct (decide (o = o')) as [<-|Hne]; [by apply (Hf o s)|].
    rewrite lookup_insert_ne in Hx by done. by eapply Hf.
  - intros o' x Hx Hxc. destruct (decide (o = o')) as [<-|Hne].
    + rewrite lookup_insert_eq in Hx. congruence.
    + rewrite lookup_insert_ne in Hx by done. by eapply Hfl.
Qed.

(** ** What the handlers leave alone *)

(** The part of the state the invariant reads, unchanged. *)
Record same_core (m m' : TunnelMux) : Prop := {
  sc_window : window m' = window m;
  sc_objs : objs m' = objs m;
  sc_streams : streams m' = streams m;
  sc_closed : mclosed m' = mclosed m;
  sc_next : nextObj m' = nextObj m;
  sc_current : current m' = current m
}.

Lemma same_core_inv m m' : same_core m m' -> mux_inv m -> mux_inv m'.
Proof. unfold mux_inv. intros [-> -> -> -> -> ->]. done. Qed.

Lemma send_same t sid d m : same_core m (send t sid d m).
Proof. unfold send. destruct (mclosed m) eqn:E; constructor; done. Qed.

Lemma mux_inv_put m m' o s s' :
  same_core m m' -> mux_inv m -> objs m !! o = Some s -> s_closed s = false ->
  s_id s' = s_id s -> s_closed s' = false -> flow_ok (window m) s' ->
  mux_inv (put_obj o s' m').
Proof.
  intros Hsame Hinv Ho Hc Hid Hc' Hf. unfold mux_inv. destruct Hsame as [Hw Hob Hst Hcl Hn Hcu].
  simpl. rewrite Hw, Hob, Hst, Hcl, Hn, Hcu. by eapply core_put_open.
Qed.

(** Returning credit after the object was updated to [s]. *)
Lemma flushCredit_inv m m' o s0 s :
  same_core m m' -> mux_inv m -> objs m !! o = Some s0 -> s_closed s0 = false ->
  s_id s = s_id s0 -> s_closed s = false -> awaitingDrain s = false -> 0 <= unacked s ->
  (pausedForCredit s = true <-> credit s <= 0) ->
  mux_inv (flushCredit o s (put_obj o s m')).
Proof.
  intros Hsame Hinv Ho Hc Hid Hc' Hd Hu Hp. unfold flushCredit. rewrite Hd, Hc'. simpl.
  pose proof (ci_window _ _ _ _ _ _ Hinv) as Hw. rewrite (sc_window _ _ Hsame).
  destruct (Z.ltb_spec (2 * unacked s) (window m)) as [Hlt|Hge].
  { eapply mux_inv_put; eauto. by constructor. }
  destruct (send_same Window (s_id s) (windowPayload (unacked s)) (put_obj o s m'))
    as [Sw So Ss Sc Sn Scu].
  unfold mux_inv. simpl. rewrite Sw, So, Ss, Sc, Sn, Scu. simpl. rewrite insert_insert_eq.
  destruct Hsame as [-> -> -> -> -> ->]. eapply core_put_open; eauto.
  constructor; simpl; [done|lia|lia].
Qed.

Lemma onData_inv sid data m : mux_inv m -> mux_inv (onData sid data m).
Proof.
  intros Hinv. unfold onData. destruct (streams m !! sid) as [o|] eqn:Ess; [|done].
  destruct (objs m !! o) as [s|] eqn:Eo; [|done]. destruct (s_closed s) eqn:Ec; [done|].
  destruct (ci_flow _ _ _ _ _ _ Hinv _ _ Eo Ec) as [Hp Hu Hd].
  pose proof (blen_nonneg data) as Hn. cbv zeta.
  destruct (negb (accepts o (length (trace m)))) eqn:Ea.
  - match goal with |- mux_inv (put_obj _ _ ?m') => assert (same_core m m') as Hs by
      (destruct (awaitingDrain _); constructor; done) end.
    eapply mux_inv_put; eauto. constructor; simpl; [done|lia|done].
  - destruct (awaitingDrain s) eqn:Ed.
    + unfold flushCredit. simpl. rewrite Ed. simpl.
      eapply mux_inv_put; [|exact Hinv|exact Eo|done|done|done|]; [by constructor|].
      constructor; simpl; [done|lia|congruence].
    + eapply flushCredit_inv; eauto; [constructor; done|simpl; lia].
Qed.

Lemma onWindow_inv sid add m : 0 <= add -> mux_inv m -> mux_inv (onWindow sid add m).
Proof.
  intros Ha Hinv. unfold onWindow. destruct (streams m !! sid) as [o|] eqn:Ess; [|done].
  destruct (objs m !! o) as [s|] eqn:Eo; [|done]. destruct (s_closed s) eqn:Ec; [done|].
  destruct (ci_flow _ _ _ _ _ _ Hinv _ _ Eo Ec) as [Hp Hu Hd]. simpl.
  destruct (pausedForCredit s && (0 <? credit s + add)) eqn:Eb.
  - apply andb_true_iff in Eb as [Eb1 Eb2%Z.ltb_lt].
    eapply same_core_inv; [|eapply (mux_inv_put m m o s (with_paused (with_credit s (credit s + add)) false));
      eauto; [constructor; done|constructor; simpl; [split; [done|lia]|lia|done]]].
    by constructor.
  - eapply mux_inv_put; eauto; [constructor; done|]. constructor; simpl; [|lia|done].
    destruct (pausedForCredit s); simpl in Eb; [apply Z.ltb_ge in Eb; split; [lia|done]|].
    split; [done|]. destruct Hp as [_ Hp]. intros Hle. apply Hp. lia.
Qed.

Lemma onRemoteClose_inv sid m : mux_inv m -> mux_inv (onRemoteClose sid m).
Proof.
  intros Hinv. unfold onRemoteClose. destruct (streams m !! sid) as [o|] eqn:Ess; [|done].
  destruct (objs m !! o) as [s|] eqn:Eo; [|done].
  destruct (ci_mapped _ _ _ _ _ _ Hinv _ _ Ess) as (x & Hx & Hxi & Hxc). simplify_eq.
  unfold mux_inv. destruct (pausedForCredit s); simpl; eapply core_close; eauto.
Qed.

Lemma onLocalEnd_inv o m : mux_inv m -> mux_inv (onLocalEnd o m).
Proof.
  intros Hinv. unfold onLocalEnd. destruct (objs m !! o) as [s|] eqn:Eo; [|done].
  destruct (s_closed s) eqn:Ec; [done|]. eapply same_core_inv; [apply send_same|].
  unfold mux_inv. simpl. eapply core_close; eauto. intros Hcl.
  by apply (ci_open _ _ _ _ _ _ Hinv).
Qed.

Lemma onDrain_inv o m : mux_inv m -> mux_inv (onDrain o m).
Proof.
  intros Hinv. unfold onDrain. destruct (objs m !! o) as [s|] eqn:Eo; [|done].
  destruct (s_closed s) eqn:Ec.
  - unfold flushCredit. simpl. rewrite Ec. unfold mux_inv. simpl. by eapply core_put_closed.
  - destruct (ci_flow _ _ _ _ _ _ Hinv _ _ Eo Ec) as [Hp Hu Hd].
    eapply flushCredit_inv; eauto. constructor; done.
Qed.

Lemma closeAll_inv m : mux_inv m -> mux_inv (closeAll m).
Proof.
  intros Hinv. unfold closeAll. destruct (mclosed m) eqn:Ec; [done|].
  assert (forall l m0, same_core m0 (fold_left (fun m o => emit (SockDestroy o) m) l m0)) as Hf.
  { induction l as [|o l IH]; intros m0; simpl; [by constructor|].
    destruct (IH (emit (SockDestroy o) m0)) as [? ? ? ? ? ?]. constructor; done. }
  destruct (Hf (List.map snd (map_to_list (streams (set_closed true m)))) (set_closed true m))
    as [Hw Ho Hs Hc Hn Hcu]. destruct Hinv as [Iw Im Io If Ifl Icl Icu].
  set (m1 := fold_left _ _ (set_closed true m)) in *.
  unfold mux_inv. simpl. rewrite Hw, Ho, Hc, Hn, Hcu. simpl.
  by constructor.
Qed.

(** Sending the slices of local data only moves the object's credit. *)
Lemma send_slices_core o sid sls m s :
  objs m !! o = Some s ->
  let m' := send_slices o sid sls m in
  window m' = window m
  /\ objs m' = <[o := with_credit s (credit s - sumZ blen sls)]> (objs m)
  /\ streams m' = streams m /\ mclosed m' = mclosed m /\ nextObj m' = nextObj m
  /\ current m' = current m.
Proof.
  revert m s. induction sls as [|sl sls IH]; intros m s Ho; simpl.
  - rewrite sumZ_nil, Z.sub_0_r. split_and!; try done. symmetry. apply insert_id.
    rewrite Ho. by destruct s.
  - destruct (send_same Data sid sl m) as [Sw So Ss Sc Sn Scu]. rewrite So, Ho.
    destruct (IH (put_obj o (with_credit s (credit s - blen sl)) (send Data sid sl m))
      (with_credit s (credit s - blen sl))) as (H1 & H2 & H3 & H4 & H5 & H6).
    { simpl. by rewrite lookup_insert_eq. }
    rewrite H1, H2, H3, H4, H5, H6. simpl. rewrite Sw, So, Ss, Sc, Sn, Scu, insert_insert_eq, sumZ_cons.
    split_and!; try done. f_equal. f_equal. lia.
Qed.

Lemma onLocalData_inv o data m : mux_inv m -> mux_inv (onLocalData o data m).
Proof.
  intros Hinv. unfold onLocalData. destruct (objs m !! o) as [s|] eqn:Eo; [|done].
  destruct (s_closed s) eqn:Ec; [done|]. cbv zeta.
  set (m1 := set_counters _ m). set (sls := slices _ data).
  destruct (send_slices_core o (s_id s) sls m1 s Eo) as (Hw & Ho & Hst & Hcl & Hn & Hcu).
  destruct (ci_flow _ _ _ _ _ _ Hinv _ _ Eo Ec) as [Hp Hu Hd].
  assert (0 <= sumZ blen sls) as Hsum by (apply sumZ_nonneg; eauto with hezo).
  rewrite Ho, lookup_insert_eq. simpl.
  destruct ((credit s - sumZ blen sls <=? 0) && negb (pausedForCredit s)) eqn:Eb.
  - apply andb_true_iff in Eb as [Eb1%Z.leb_le Eb2%negb_true_iff].
    unfold mux_inv. simpl. rewrite Hw, Ho, Hst, Hcl, Hn, Hcu, insert_insert_eq.
    eapply core_put_open; eauto. constructor; simpl; [done|lia|done].
  - unfold mux_inv. rewrite Hw, Ho, Hst, Hcl, Hn, Hcu.
    eapply core_put_open; eauto. constructor; simpl; [|lia|done].
    destruct (pausedForCredit s); simpl in Eb; [split; [|done]; intros _; destruct Hp; lia|].
    rewrite andb_true_r in Eb. apply Z.leb_gt in Eb. split; [done|lia].
Qed.

Lemma scanStream_inv now o m : mux_inv m -> mux_inv (scanStream now o m).
Proof.
  intros Hinv. unfold scanStream. destruct (objs m !! o) as [s|] eqn:Eo; [|done].
  assert (forall since rep, mux_inv (put_obj o (with_block s since rep) m)) as Hput.
  { intros since rep. unfold mux_inv. simpl. destruct (s_closed s) eqn:Ec.
    - by eapply core_put_closed.
    - destruct (ci_flow _ _ _ _ _ _ Hinv _ _ Eo Ec). eapply core_put_open; eauto. by constructor. }
  destruct (negb _); [apply Hput|]. destruct (blockedSince s); [|apply Hput].
  destruct (_ || _); [done|]. eapply same_core_inv; [|apply Hput]. by constructor.
Qed.

Lemma onConnected_inv sid m :
  streams m !! sid = None -> current m = None -> mux_inv m -> mux_inv (onConnected sid m).
Proof.
  intros Hss Hcu Hinv. unfold onConnected. destruct Hinv as [Iw Im Io If Ifl Icl Icu].
  simpl. destruct (mclosed m) eqn:Ec.
  { unfold mux_inv. simpl. rewrite Ec. constructor; try done. intros o s Hs. specialize (If o s Hs). lia. }
  eapply same_core_inv; [apply send_same|]. unfold mux_inv. simpl. rewrite Ec, Hcu.
  assert (objs m !! nextObj m = None) as Hfresh.
  { destruct (objs m !! nextObj m) eqn:E; [|done]. specialize (If _ _ E). lia. }
  constructor; try done.
  - intros sid' o Hlk. destruct (decide (sid = sid')) as [<-|Hne].
    + rewrite lookup_insert_eq in Hlk. simplify_eq. exists (newStream sid (window m)).
      by rewrite lookup_insert_eq.
    + rewrite lookup_insert_ne in Hlk by done. destruct (Im sid' o Hlk) as (s & Hs & ? & ?).
      exists s. rewrite lookup_insert_ne; [done|]. intros <-. congruence.
  - intros o s Hs _ Hc. destruct (decide (nextObj m = o)) as [<-|Hne].
    + rewrite lookup_insert_eq in Hs. simplify_eq. simpl. by rewrite lookup_insert_eq.
    + rewrite lookup_insert_ne in Hs by done. pose proof (Io o s Hs eq_refl Hc) as Hlk.
      rewrite lookup_insert_ne; [done|]. intros Heq. congruence.
  - intros o s Hs. destruct (decide (nextObj m = o)) as [<-|Hne]; [lia|].
    rewrite lookup_insert_ne in Hs by done. specialize (If o s Hs). lia.
  - intros o s Hs Hc. destruct (decide (nextObj m = o)) as [<-|Hne].
    + rewrite lookup_insert_eq in Hs. simplify_eq. constructor; simpl; [split; [done|lia]|lia|lia].
    + rewrite lookup_insert_ne in Hs by done. by eapply Ifl.
Qed.

(** ** Reachable states *)

Definition wf_frames (fs : list Frame) : Prop := Forall (fun f => wf_bytes (payload f)) fs.

(** Bytes stay bytes on their way in. *)
Record wire_inv (m : TunnelMux) : Prop := {
  wi_buffer : wf_bytes (buffer (decoder m));
  wi_queue : Forall wf_bytes (chunkQueue m);
  wi_current : forall sid fs, current m = Some (sid, fs) -> wf_frames fs
}.

(** A step that leaves decoder, queue and awaited frames alone. *)
Record same_wire (m m' : TunnelMux) : Prop := {
  sw_decoder : decoder m' = decoder m;
  sw_queue : chunkQueue m' = chunkQueue m;
  sw_current : current m' = current m
}.

#[local] Instance same_wire_preorder : PreOrder same_wire.
Proof. split; [by constructor|]. intros x y z [? ? ?] [? ? ?]. constructor; congruence. Qed.

Lemma same_wire_inv m m' : same_wire m m' -> wire_inv m -> wire_inv m'.
Proof. intros [Hd Hq Hc] [Wb Wq Wc]. constructor; [by rewrite Hd|by rewrite Hq|by rewrite Hc]. Qed.

Lemma send_wire t sid d m : same_wire m (send t sid d m).
Proof. unfold send. destruct (mclosed m); by constructor. Qed.

Lemma flushCredit_wire o s m : same_wire m (flushCredit o s m).
Proof.
  unfold flushCredit. repeat break_match; [reflexivity|reflexivity|].
  etrans; [apply send_wire|]. by constructor.
Qed.

Lemma closeAll_wire m : same_wire m (closeAll m).
Proof.
  unfold closeAll. destruct (mclosed m); [reflexivity|].
  assert (forall l m0, same_wire m0 (fold_left (fun m o => emit (SockDestroy o) m) l m0)) as Hf.
  { induction l as [|o l IH]; intros m0; simpl; [reflexivity|]. etrans; [|apply IH]. by constructor. }
  destruct (Hf (List.map snd (map_to_list (streams (set_closed true m)))) (set_closed true m)).
  by constructor.
Qed.

Lemma onData_wire sid d m : same_wire m (onData sid d m).
Proof.
  unfold onData. destruct (streams m !! sid) as [o|]; [|reflexivity].
  destruct (objs m !! o) as [s|]; [|reflexivity]. destruct (s_closed s); [reflexivity|]. cbv zeta.
  destruct (negb _); [destruct (awaitingDrain _); by constructor|].
  etrans; [|apply flushCredit_wire]. by constructor.
Qed.

Lemma onWindow_wire sid c m : same_wire m (onWindow sid c m).
Proof. unfold onWindow. repeat (break_match; try reflexivity); by constructor. Qed.

Lemma onRemoteClose_wire sid m : same_wire m (onRemoteClose sid m).
Proof. unfold onRemoteClose. repeat (break_match; try reflexivity); by constructor. Qed.

Lemma onConnected_wire sid m : same_wire m (onConnected sid m).
Proof.
  unfold onConnected. simpl. destruct (mclosed m); [by constructor|].
  etrans; [|apply send_wire]. by constructor.
Qed.

Definition good (m : TunnelMux) : Prop := mux_inv m /\ wire_inv m.

Lemma good_same m m' : same_core m m' -> same_wire m m' -> good m -> good m'.
Proof. intros Hc Hw [? ?]. split; [by eapply same_core_inv|by eapply same_wire_inv]. Qed.

Lemma dispatch_good frames m : wf_frames frames -> good m -> good (dispatch frames m).
Proof.
  intros Hwf. revert m. induction Hwf as [|f frames Hf Hwf IH]; intros m Hg; simpl; [done|].
  set (m1 := set_counters _ m).
  assert (good m1) as [Hi Hw] by (eapply (good_same m); [by constructor|by constructor|done]).
  destruct (ftype f).
  - unfold onOpen. destruct (streams m1 !! streamId f) eqn:Es; [by apply IH|].
    destruct (isTunnelTarget _) as [t|].
    + split.
      * unfold mux_inv in *. simpl in *. destruct Hi as [Iw Im Io If Ifl Icl Icu].
        constructor; try done. by intros sid fs [= <- <-].
      * destruct Hw as [Wb Wq Wc]. constructor; [done|done|]. by intros sid fs [= <- <-].
    + apply IH. eapply good_same; [apply send_same|apply send_wire|done].
  - apply IH. split; [by apply onData_inv|]. eapply same_wire_inv; [apply onData_wire|done].
  - apply IH. split; [by apply onRemoteClose_inv|]. eapply same_wire_inv; [apply onRemoteClose_wire|done].
  - destruct (decodeWindowCredit (payload f)) as [c|e] eqn:Ed.
    + apply IH. split; [|eapply same_wire_inv; [apply onWindow_wire|done]].
      apply onWindow_inv; [|done]. unfold decodeWindowCredit in Ed.
      destruct (negb (blen (payload f) =? 4)); [done|]. simplify_eq. by apply get_u32_range.
    + split; [by apply closeAll_inv|]. eapply same_wire_inv; [apply closeAll_wire|done].
Qed.

Lemma process_good chunk m : wf_bytes chunk -> good m -> good (process chunk m).
Proof.
  intros Hc [Hi [Wb Wq Wc]]. unfold process. destruct (mclosed m); [done|].
  destruct (push (decoder m) chunk) as [d r] eqn:Ep.
  destruct (push_wf _ _ _ _ Wb Hc Ep) as [Hd Hr].
  assert (good (set_decoder d m)) as Hg by (split; [done|by constructor]).
  destruct r as [frames|e]; [apply dispatch_good; [by apply Hr|done]|].
  destruct Hg. split; [by apply closeAll_inv|]. eapply same_wire_inv; [apply closeAll_wire|done].
Qed.

Lemma pump_good q m : Forall wf_bytes q -> good m -> good (pump q m).
Proof.
  intros Hq. revert m. induction Hq as [|c q Hc Hq IH]; intros m Hg; simpl.
  - destruct Hg as [Hi [Wb Wq Wc]]. split; [done|by constructor].
  - destruct (current m) eqn:Ecu.
    + destruct Hg as [Hi [Wb Wq Wc]]. split; [exact Hi|]. constructor; [exact Wb|by constructor|exact Wc].
    + apply IH. by apply process_good.
Qed.

Lemma connectSettled_good ok m : good m -> good (connectSettled ok m).
Proof.
  intros Hg. unfold connectSettled. destruct (current m) as [[sid frames]|] eqn:Ecu; [|done].
  destruct Hg as [Hi [Wb Wq Wc]].
  assert (streams m !! sid = None) as Hs by (by eapply (ci_current _ _ _ _ _ _ Hi)).
  assert (mux_inv (set_current None m)) as Hi1.
  { destruct Hi. constructor; done. }
  assert (wire_inv (set_current None m)) as Hw1 by (constructor; [exact Wb|exact Wq|done]).
  set (m1 := if ok then onConnected sid (set_current None m) else send Close sid [] (set_current None m)).
  assert (good m1) as Hg1.
  { unfold m1. destruct ok.
    - split; [by apply onConnected_inv|]. eapply same_wire_inv; [apply onConnected_wire|done].
    - eapply good_same; [apply send_same|apply send_wire|done]. }
  assert (good (dispatch frames m1)) as Hg2 by (apply dispatch_good; [by eapply Wc|done]).
  apply pump_good; [by destruct Hg2 as [_ []]|done].
Qed.

Lemma step_good ev m : wf_event ev -> good m -> good (step ev m).
Proof.
  intros Hev Hg. pose proof Hg as [Hi Hw]. destruct ev as [c|ok|o d|o|o|now|]; simpl.
  - apply pump_good; [|done]. apply Forall_app. split; [by destruct Hw|by constructor].
  - by apply connectSettled_good.
  - split; [by apply onLocalData_inv|]. eapply same_wire_inv; [|exact Hw].
    unfold onLocalData. destruct (objs m !! o) as [s|]; [|reflexivity].
    destruct (s_closed s); [reflexivity|]. cbv zeta.
    assert (forall sls m0, same_wire m0 (send_slices o (s_id s) sls m0)) as Hsl.
    { induction sls as [|sl sls IH]; intros m0; simpl; [reflexivity|].
      etrans; [apply (send_wire Data (s_id s) sl)|]. etrans; [|apply IH].
      destruct (objs _ !! o); [by constructor|reflexivity]. }
    match goal with |- context [send_slices o _ ?l ?m0] => specialize (Hsl l m0) end.
    destruct Hsl as [Sd Sq Sc]. repeat break_match; constructor; simpl; done.
  - split; [by apply onLocalEnd_inv|]. eapply same_wire_inv; [|exact Hw].
    unfold onLocalEnd. repeat (break_match; try reflexivity).
    etrans; [|apply send_wire]. by constructor.
  - split; [by apply onDrain_inv|]. eapply same_wire_inv; [|exact Hw].
    unfold onDrain. break_match; [|reflexivity]. etrans; [|apply flushCredit_wire]. by constructor.
  - unfold reportStalledStreams. destruct (mclosed m); [done|].
    generalize (List.map snd (map_to_list (streams m))) as l. intros l. revert m Hg Hi Hw.
    induction l as [|o l IH]; intros m Hg Hi Hw; simpl; [done|].
    assert (good (scanStream now o m)) as Hg'.
    { split; [by apply scanStream_inv|]. eapply same_wire_inv; [|exact Hw].
      unfold scanStream. repeat (break_match; try reflexivity); by constructor. }
    apply IH; [done|by destruct Hg'|by destruct Hg'].
  - split; [by apply closeAll_inv|]. eapply same_wire_inv; [apply closeAll_wire|done].
Qed.

Lemma newTunnelMux_good w : 0 < default DEFAULT_WINDOW_BYTES w -> good (newTunnelMux w).
Proof.
  intros Hw. split; constructor; simpl; try done; try (intros ? ?; rewrite lookup_empty; done).
  all: constructor.
Qed.

Lemma run_good evs m : Forall wf_event evs -> good m -> good (run evs m).
Proof.
  intros Hev. revert m. induction Hev as [|ev evs He Hevs IH]; intros m Hg; simpl; [done|].
  apply IH. by apply step_good.
Qed.

(** ** After a teardown *)

Definition not_write (e : Effect) : Prop := match e with ChannelWrite _ => False | _ => True end.

(** From a closed state, [m'] is closed too and wrote nothing more to the channel. *)
Definition quiet (m m' : TunnelMux) : Prop :=
  mclosed m = true -> mclosed m' = true /\ exists l, trace m' = trace m ++ l /\ Forall not_write l.

#[local] Instance quiet_preorder : PreOrder quiet.
Proof.
  split.
  - intros m Hm. split; [done|]. exists []. by rewrite app_nil_r.
  - intros x y z Hxy Hyz Hx. destruct (Hxy Hx) as (Hy & l1 & Ht1 & Hl1).
    destruct (Hyz Hy) as (Hz & l2 & Ht2 & Hl2). split; [done|].
    exists (l1 ++ l2). rewrite Ht2, Ht1, app_assoc. split; [done|]. by apply Forall_app.
Qed.

Lemma quiet_same m m' : mclosed m' = mclosed m -> trace m' = trace m -> quiet m m'.
Proof. intros Hc Ht Hm. split; [congruence|]. exists []. by rewrite app_nil_r. Qed.

Lemma quiet_emit m e m' : not_write e -> mclosed m' = mclosed m -> trace m' = trace m ++ [e] -> quiet m m'.
Proof. intros He Hc Ht Hm. split; [congruence|]. exists [e]. split; [done|by constructor]. Qed.

Lemma send_quiet t sid d m : quiet m (send t sid d m).
Proof. intros Hm. unfold send. rewrite Hm. by apply (reflexivity (R := quiet)). Qed.

Lemma send_slices_quiet o sid sls m : quiet m (send_slices o sid sls m).
Proof.
  revert m. induction sls as [|sl sls IH]; intros m; simpl; [reflexivity|].
  etrans; [apply (send_quiet Data sid sl)|]. etrans; [|apply IH].
  destruct (objs _ !! o); [by apply quiet_same|reflexivity].
Qed.

Lemma flushCredit_quiet o s m : quiet m (flushCredit o s m).
Proof.
  unfold flushCredit. repeat break_match; [reflexivity|reflexivity|].
  etrans; [apply send_quiet|by apply quiet_same].
Qed.

Lemma onData_quiet sid d m : quiet m (onData sid d m).
Proof.
  unfold onData. destruct (streams m !! sid) as [o|]; [|reflexivity].
  destruct (objs m !! o) as [s|]; [|reflexivity]. destruct (s_closed s); [reflexivity|]. cbv zeta.
  destruct (negb _); [destruct (awaitingDrain _); by eapply (quiet_emit _ (SockWrite o d))|].
  etrans; [|apply flushCredit_quiet]. by eapply (quiet_emit _ (SockWrite o d)).
Qed.

Lemma onWindow_quiet sid c m : quiet m (onWindow sid c m).
Proof.
  unfold onWindow. repeat (break_match; try reflexivity);
    [by eapply (quiet_emit _ (SockResume _))|by apply quiet_same].
Qed.

Lemma onRemoteClose_quiet sid m : quiet m (onRemoteClose sid m).
Proof.
  unfold onRemoteClose. destruct (streams m !! sid) as [o|]; [|reflexivity].
  destruct (objs m !! o) as [s|]; [|reflexivity]. destruct (pausedForCredit s).
  - etrans; [by apply (quiet_emit m (SockResume o) (emit (SockResume o)
      (put_obj o (with_paused (with_sclosed s true) false) m)))|].
    by eapply (quiet_emit _ (SockEnd o)).
  - by eapply (quiet_emit _ (SockEnd o)).
Qed.

Lemma closeAll_quiet m : quiet m (closeAll m).
Proof. intros Hm. unfold closeAll. rewrite Hm. by apply (reflexivity (R := quiet)). Qed.

Lemma onConnected_quiet sid m : quiet m (onConnected sid m).
Proof.
  intros Hm. unfold onConnected. simpl. rewrite Hm.
  by apply (quiet_emit _ (SockDestroy (nextObj m))).
Qed.

Lemma dispatch_quiet frames m : quiet m (dispatch frames m).
Proof.
  revert m. induction frames as [|f frames IH]; intros m; simpl; [reflexivity|].
  set (m1 := set_counters _ m). assert (quiet m m1) as Hq by (by apply quiet_same).
  etrans; [exact Hq|]. clearbody m1. destruct (ftype f).
  - unfold onOpen. destruct (streams m1 !! streamId f); [apply IH|].
    destruct (isTunnelTarget _) as [t|].
    + by apply (quiet_emit _ (Connecting t)).
    + etrans; [apply send_quiet|apply IH].
  - etrans; [apply onData_quiet|apply IH].
  - etrans; [apply onRemoteClose_quiet|apply IH].
  - destruct (decodeWindowCredit _); [etrans; [apply onWindow_quiet|apply IH]|apply closeAll_quiet].
Qed.

Lemma pump_quiet q m : quiet m (pump q m).
Proof.
  revert m. induction q as [|c q IH]; intros m; simpl; [by apply quiet_same|].
  destruct (current m); [by apply quiet_same|]. etrans; [|apply IH].
  intros Hm. unfold process. rewrite Hm. by apply (reflexivity (R := quiet)).
Qed.

Lemma step_quiet ev m : quiet m (step ev m).
Proof.
  destruct ev as [c|ok|o d|o|o|now|]; simpl.
  - apply pump_quiet.
  - unfold connectSettled. destruct (current m) as [[sid fs]|]; [|reflexivity].
    etrans; [|apply pump_quiet]. etrans; [|apply dispatch_quiet].
    etrans; [by apply (quiet_same m (set_current None m))|].
    destruct ok; [apply onConnected_quiet|apply send_quiet].
  - unfold onLocalData. destruct (objs m !! o) as [s|]; [|reflexivity].
    destruct (s_closed s); [reflexivity|]. cbv zeta.
    etrans; [by apply (quiet_same m (set_counters (count_sock_out (counters m) (blen d)) m))|].
    etrans; [apply (send_slices_quiet o (s_id s) (slices (length d) d))|].
    destruct (objs _ !! o); [|reflexivity].
    destruct (_ && _); [by eapply (quiet_emit _ (SockPause o))|reflexivity].
  - unfold onLocalEnd. repeat (break_match; try reflexivity).
    etrans; [|apply send_quiet]. by apply quiet_same.
  - unfold onDrain. break_match; [|reflexivity]. etrans; [|apply flushCredit_quiet]. by apply quiet_same.
  - intros Hm. unfold reportStalledStreams. rewrite Hm. by apply (reflexivity (R := quiet)).
  - apply closeAll_quiet.
Qed.
End Environment.

#[local] Existing Instance quiet_preorder.

(** C32. Flow control in every reachable state, whatever the container, the local
    sockets and the connects do: an open stream's local socket is paused exactly
    while its credit is spent, so the producing side is bounded by the window;
    unless its own socket is full, the credit still owed to the container is
    under half a window, so the container can always send; and the stream is the
    one registered under its id. *)
Theorem mux_flow_control accepts w evs o s :
  0 < default DEFAULT_WINDOW_BYTES w -> Forall wf_event evs ->
  let m := run accepts evs (newTunnelMux w) in
  objs m !! o = Some s -> s_closed s = false ->
  (pausedForCredit s = true <-> credit s <= 0)
  /\ 0 <= unacked s
  /\ (awaitingDrain s = false -> 2 * unacked s < window m)
  /\ (mclosed m = false -> streams m !! s_id s = Some o).
Proof.
  intros Hw Hev m Ho Hc.
  destruct (run_good accepts evs _ Hev (newTunnelMux_good w Hw)) as [Hi _]. fold m in Hi.
  destruct (ci_flow _ _ _ _ _ _ Hi _ _ Ho Hc). split_and!; try done.
  intros Hcl. by apply (ci_open _ _ _ _ _ _ Hi).
Qed.

Definition ex_open_and_data : list MuxEvent :=
  [EvChunk (TUNNEL_PREAMBLE ++ stream_bytes [mkFrame Open 1 (target_key target_mcp)]);
   EvConnect true; EvLocalData 0 (repeat 65 12);
   EvChunk (stream_bytes [mkFrame Data 1 [1; 2; 3]])].

Lemma mux_flow_control_witness :
  let m := run (fun _ _ => true) ex_open_and_data (newTunnelMux (Some 10)) in
  objs m !! 0%nat = Some (mkStream 1 (-2) true false 3 false None false)
  /\ streams m !! 1 = Some 0%nat.
Proof.
  intros m. split; [vm_compute; reflexivity|].
  refine (proj2 (proj2 (proj2 (mux_flow_control (fun _ _ => true) (Some 10) ex_open_and_data 0
    (mkStream 1 (-2) true false 3 false None false) _ _ _ _))) _).
  - vm_compute. reflexivity.
  - unfold ex_open_and_data.
    apply Forall_cons; split; [apply wf_bytes_check; vm_compute; reflexivity|].
    apply Forall_cons; split; [exact I|]. apply Forall_cons; split; [exact I|].
    apply Forall_cons; split; [apply wf_bytes_check; vm_compute; reflexivity|apply Forall_nil_2].
  - vm_compute. reflexivity.
  - reflexivity.
  - vm_compute. reflexivity.
Defined.

(** A teardown is final: once the tunnel is closed it stays closed, and no
    event makes it write another frame to the channel. *)
Theorem mux_closed_is_final accepts evs m :
  mclosed m = true ->
  mclosed (run accepts evs m) = true
  /\ exists l, trace (run accepts evs m) = trace m ++ l /\ Forall not_write l.
Proof.
  assert (quiet m (run accepts evs m)) as Hq; [|by apply Hq].
  revert m. induction evs as [|ev evs IH]; intros m; simpl; [reflexivity|].
  etrans; [apply step_quiet|apply IH].
Qed.

Lemma mux_closed_is_final_witness :
  let m := closeAll (run (fun _ _ => true) ex_open_and_data (newTunnelMux (Some 10))) in
  mclosed (run (fun _ _ => true) [EvLocalData 0 [1]; EvLocalEnd 0] m) = true.
Proof.
  intros m. apply (mux_closed_is_final (fun _ _ => true) [EvLocalData 0 [1]; EvLocalEnd 0] m).
  vm_compute. reflexivity.
Defined.

(** ** Bytes are conserved *)

Lemma slices_concat fuel data :
  (length data <= fuel)%nat -> List.concat (slices fuel data) = data.
Proof.
  revert data. induction fuel as [|fuel IH]; intros data Hl; simpl.
  { destruct data; [done|simpl in Hl; lia]. }
  destruct data as [|b data]; [done|]. cbn [List.concat]. rewrite IH.
  - unfold bslice, bdrop. rewrite Z.sub_0_r, drop_0. apply take_drop.
  - unfold bdrop. rewrite length_drop. unfold MAX_PAYLOAD_BYTES. lia.
Qed.

Lemma slices_bounded fuel data :
  Forall (fun sl => blen sl <= MAX_PAYLOAD_BYTES) (slices fuel data).
Proof.
  revert data. induction fuel as [|fuel IH]; intros [|b data]; simpl; try constructor; [|apply IH].
  unfold bslice, blen, MAX_PAYLOAD_BYTES. rewrite length_take. lia.
Qed.

Lemma sumZ_blen_concat ls : sumZ blen ls = blen (List.concat ls).
Proof. induction ls as [|l ls IH]; simpl; [done|]. rewrite sumZ_cons, blen_app, IH. done. Qed.

(** On an open tunnel the slices leave as DATA frames, in order. *)
Lemma send_slices_trace o sid sls m :
  mclosed m = false ->
  trace (send_slices o sid sls m)
  = trace m ++ List.map (fun sl => ChannelWrite (mkFrame Data sid sl)) sls.
Proof.
  revert m. induction sls as [|sl sls IH]; intros m Hc; simpl; [by rewrite app_nil_r|].
  unfold send. rewrite Hc. rewrite IH.
  - destruct (objs _ !! o); simpl; by rewrite <- app_assoc.
  - by destruct (objs _ !! o).
Qed.

(** Bytes from a local socket are forwarded whole: on an open tunnel they
    leave as DATA frames that each fit one frame and concatenate to exactly the
    bytes read, the stream's credit drops by their number, and the socket is
    paused once the credit is spent. *)
Theorem onLocalData_forwards o data m s :
  mclosed m = false -> objs m !! o = Some s -> s_closed s = false ->
  exists sls s',
    List.concat sls = data
    /\ Forall (fun sl => encodeFrame Data (s_id s) sl = Ok (frame_bytes (mkFrame Data (s_id s) sl))) sls
    /\ objs (onLocalData o data m) !! o = Some s'
    /\ credit s' = credit s - blen data
    /\ (credit s' <= 0 -> pausedForCredit s' = true)
    /\ trace (onLocalData o data m)
       = trace m ++ List.map (fun sl => ChannelWrite (mkFrame Data (s_id s) sl)) sls
         ++ (if (credit s' <=? 0) && negb (pausedForCredit s) then [SockPause o] else []).
Proof.
  intros Hcl Ho Hc. exists (slices (length data) data).
  pose proof (slices_concat (length data) data (le_n _)) as Hcat.
  unfold onLocalData. rewrite Ho, Hc. cbv zeta.
  set (m1 := set_counters _ m). set (sls := slices (length data) data) in *.
  destruct (send_slices_core o (s_id s) sls m1 s Ho) as (_ & Hob & _).
  pose proof (send_slices_trace o (s_id s) sls m1 Hcl) as Ht.
  rewrite sumZ_blen_concat, Hcat in Hob. rewrite Hob, lookup_insert_eq. simpl.
  assert (Forall (fun sl => encodeFrame Data (s_id s) sl
    = Ok (frame_bytes (mkFrame Data (s_id s) sl))) sls) as Henc.
  { eapply Forall_impl; [apply slices_bounded|]. intros sl Hsl. simpl in Hsl.
    by apply (encodeFrame_bytes (mkFrame Data (s_id s) sl)). }
  destruct ((credit s - blen data <=? 0) && negb (pausedForCredit s)) eqn:Eb; simpl.
  - eexists. rewrite lookup_insert_eq. split_and!; try done. simpl. rewrite Eb, Ht, <- app_assoc. done.
  - eexists. rewrite Hob, lookup_insert_eq. split_and!; try done; simpl.
    + intros Hle. apply Z.leb_le in Hle. rewrite Hle in Eb. simpl in Eb. by apply negb_false_iff.
    + rewrite Eb, Ht, !app_nil_r. done.
Qed.

Lemma onLocalData_forwards_witness :
  let m := run (fun _ _ => true) ex_open_and_data (newTunnelMux (Some 100)) in
  exists s', objs (onLocalData 0 [7; 8] m) !! 0%nat = Some s' /\ credit s' = 86.
Proof.
  intros m.
  destruct (onLocalData_forwards 0 [7; 8] m (mkStream 1 88 false false 3 false None false))
    as (sls & s' & _ & _ & Ho & Hc & _).
  - vm_compute. reflexivity.
  - vm_compute. reflexivity.
  - reflexivity.
  - exists s'. split; [exact Ho|]. rewrite Hc. reflexivity.
Defined.

(** Credit handed back to the container for a stream, as its WINDOW frames say. *)
Definition credit_in (sid : Z) (e : Effect) : Z :=
  match e with
  | ChannelWrite (mkFrame Window sid' p) =>
      if sid' =? sid then match decodeWindowCredit p with Ok c => c | Throw _ => 0 end else 0
  | _ => 0
  end.

Lemma decode_windowPayload c : decodeWindowCredit (windowPayload c) = Ok (u32 c).
Proof.
  unfold decodeWindowCredit, windowPayload. cbn -[get_u32 be32]. f_equal.
  exact (get_u32_be32 [] c []).
Qed.

(** Bytes from the container are acknowledged exactly once: delivering a DATA
    frame writes its payload to the stream's socket, and what is still owed plus
    what was credited back equals what was owed before plus the payload. *)
Theorem onData_acknowledges accepts sid data m o s :
  mclosed m = false -> streams m !! sid = Some o -> objs m !! o = Some s ->
  s_closed s = false -> s_id s = sid -> 0 <= unacked s -> unacked s + blen data < 2 ^ 32 ->
  exists s' l,
    objs (onData accepts sid data m) !! o = Some s'
    /\ trace (onData accepts sid data m) = trace m ++ SockWrite o data :: l
    /\ unacked s' + sumZ (credit_in sid) l = unacked s + blen data
    /\ credit s' = credit s.
Proof.
  intros Hcl Hss Ho Hc Hid Hu Hb. pose proof (blen_nonneg data).
  unfold onData. rewrite Hss, Ho, Hc. cbv zeta.
  destruct (negb (accepts o (length (trace m)))).
  - eexists _, []. simpl. rewrite lookup_insert_eq. split; [done|]. rewrite sumZ_nil. simpl.
    split_and!; [by destruct (awaitingDrain s)|lia|done].
  - unfold flushCredit. simpl. rewrite Hc. destruct (awaitingDrain s); simpl.
    { eexists _, []. rewrite lookup_insert_eq. split; [done|]. rewrite sumZ_nil. simpl.
      split_and!; [done|lia|done]. }
    destruct (Z.ltb_spec (2 * (unacked s + blen data)) (window m)).
    { eexists _, []. simpl. rewrite lookup_insert_eq. split; [done|]. rewrite sumZ_nil. simpl.
      split_and!; [done|lia|done]. }
    unfold send. simpl. rewrite Hcl. eexists _, [_]. cbn -[windowPayload sumZ credit_in]. rewrite lookup_insert_eq. split; [done|].
    rewrite <- app_assoc. split; [done|]. rewrite sumZ_cons, sumZ_nil. cbn [credit_in].
    rewrite Hid, Z.eqb_refl, decode_windowPayload, u32_small by lia. simpl. split; [lia|done].
Qed.

Lemma onData_acknowledges_witness :
  let m := run (fun _ _ => true) ex_open_and_data (newTunnelMux (Some 10)) in
  exists s' l, objs (onData (fun _ _ => true) 1 [9; 9; 9] m) !! 0%nat = Some s'
    /\ unacked s' + sumZ (credit_in 1) l = 6.
Proof.
  intros m.
  destruct (onData_acknowledges (fun _ _ => true) 1 [9; 9; 9] m 0
    (mkStream 1 (-2) true false 3 false None false)) as (s' & l & Ho & _ & Hs & _).
  - vm_compute. reflexivity.
  - vm_compute. reflexivity.
  - vm_compute. reflexivity.
  - reflexivity.
  - reflexivity.
  - vm_compute. discriminate.
  - vm_compute. reflexivity.
  - exists s', l. split; [exact Ho|exact Hs].
Defined.
