(* ===== verification/DockerFrames.v ===== *)
(** * Docker's multiplexed stream

    Models of [packages/server/src/services/docker-frames.ts] (the text decoder
    with its compacting buffer, used for logs) and
    [packages/server/src/services/sandbox/tunnel/docker-frames-binary.ts] (the
    byte decoder under the tunnel). The streaming [TextDecoder] of the platform is
    a parameter: a state and a function that consumes bytes and yields UTF-16
    code units. *)
From Stdlib Require Import ZArith Lia List.
From stdpp Require Import base list.
From S2P Require Import Prelude Bytes.

Open Scope Z_scope.

Inductive DockerStream := stdout | stderr.

#[export] Instance DockerStream_eq_dec : EqDecision DockerStream.
Proof. solve_decision. Defined.

Definition DF_HEADER_BYTES : Z := 8.
Definition INITIAL_CAPACITY : Z := 64 * 1024.

(** ** The framing as a relation

    [Splits cls p fs r]: the byte string [p] is the frames [fs] followed by [r],
    which holds no complete frame; [cls] reads the type byte. *)
Definition frame_total (p : list Z) : Z := DF_HEADER_BYTES + get_u32 p 4.

Definition complete (p : list Z) : bool :=
  (DF_HEADER_BYTES <=? blen p) && (frame_total p <=? blen p).

Inductive Splits (cls : Z -> DockerStream) : list Z -> list (DockerStream * list Z) -> list Z -> Prop :=
| Splits_done p : complete p = false -> Splits cls p [] p
| Splits_frame p fs r : complete p = true -> Splits cls (bdrop (frame_total p) p) fs r ->
    Splits cls p ((cls (byte_at p 0), bslice p DF_HEADER_BYTES (frame_total p)) :: fs) r.

(** What the daemon writes for one frame. *)
Definition stream_byte (s : DockerStream) : Z := match s with stdout => 1 | stderr => 2 end.

Definition encode_frame (f : DockerStream * list Z) : list Z :=
  [stream_byte (fst f); 0; 0; 0] ++ be32 (blen (snd f)) ++ snd f.

Definition encode_frames (fs : list (DockerStream * list Z)) : list Z := List.concat (List.map encode_frame fs).

(** ** The byte decoder *)

Record DockerBinaryFrame := mkBinFrame { bstream : DockerStream; bpayload : list Z }.

Definition bin_stream (b : Z) : DockerStream := if b =? 1 then stdout else stderr.

(** The loop of [DockerBinaryFrameDecoder.push]: bytes left, frames completed; a
    frame takes at least its header, so the length is enough fuel. *)
Fixpoint binDrain_fuel (fuel : nat) (buffer : list Z) : list Z * list DockerBinaryFrame :=
  match fuel with
  | O => (buffer, [])
  | S fuel' =>
      if blen buffer <? DF_HEADER_BYTES then (buffer, [])
      else
        let stream := bin_stream (byte_at buffer 0) in
        let total := DF_HEADER_BYTES + get_u32 buffer 4 in
        if blen buffer <? total then (buffer, [])
        else
          let '(rest, out) := binDrain_fuel fuel' (bdrop total buffer) in
          (rest, mkBinFrame stream (bslice buffer DF_HEADER_BYTES total) :: out)
  end.

Definition binPush (buffer chunk : list Z) : list Z * list DockerBinaryFrame :=
  let buffer := buffer ++ chunk in binDrain_fuel (length buffer) buffer.

Fixpoint binPushes (buffer : list Z) (chunks : list (list Z)) : list Z * list DockerBinaryFrame :=
  match chunks with
  | [] => (buffer, [])
  | c :: chunks' =>
      let '(b, out) := binPush buffer c in
      let '(b', out') := binPushes b chunks' in (b', out ++ out')
  end.

(** ** The text decoder *)

(** [nextCapacity]: doubling from the initial capacity; [fuel] doublings. *)
Fixpoint nextCapacity_fuel (fuel : nat) (capacity needed : Z) : Z :=
  match fuel with
  | O => capacity
  | S fuel' => if capacity <? needed then nextCapacity_fuel fuel' (capacity * 2) needed else capacity
  end.

(** As many doublings as the needed size has bits always suffice
    ([nextCapacity_enough]). *)
Definition nextCapacity (needed : Z) : Z :=
  nextCapacity_fuel (Z.to_nat (Z.log2_up needed)) INITIAL_CAPACITY needed.

(** [stripNulBytes] on code units. *)
Definition stripNulBytes (text : list Z) : list Z := List.filter (fun u => negb (u =? 0)) text.

Record DockerFrame := mkDockerFrame { fstream : DockerStream; ftext : list Z }.

Section Text.
Context {D : Type} (freshDecoder : D) (decode : D -> list Z -> D * list Z) (decodeEnd : D -> list Z).

Record DockerFrameDecoder := mkDec {
  buf : list Z;
  start : Z;
  end_ : Z;
  decoders : DockerStream -> D
}.

Definition newDockerFrameDecoder : DockerFrameDecoder :=
  mkDec (repeat 0 (Z.to_nat INITIAL_CAPACITY)) 0 0 (fun _ => freshDecoder).

Definition ensureRoom (d : DockerFrameDecoder) (incoming : Z) : DockerFrameDecoder :=
  if end_ d + incoming <=? blen (buf d) then d
  else
    let pending := end_ d - start d in
    let live := bslice (buf d) (start d) (end_ d) in
    if pending + incoming <=? blen (buf d)
    then mkDec (bset (buf d) 0 live) 0 pending (decoders d)
    else mkDec (bset (repeat 0 (Z.to_nat (nextCapacity (pending + incoming)))) 0 live) 0 pending
           (decoders d).

Definition dpush (d : DockerFrameDecoder) (chunk : list Z) : DockerFrameDecoder :=
  if blen chunk =? 0 then d
  else
    let d := ensureRoom d (blen chunk) in
    mkDec (bset (buf d) (end_ d) chunk) (start d) (end_ d + blen chunk) (decoders d).

Definition set_dec (f : DockerStream -> D) (s : DockerStream) (x : D) : DockerStream -> D :=
  fun s' => if bool_decide (s' = s) then x else f s'.

Definition text_stream (b : Z) : DockerStream := if b =? 2 then stderr else stdout.

(** [next]: every turn of its loop that does not return consumes a frame. *)
Fixpoint next_fuel (fuel : nat) (d : DockerFrameDecoder) : DockerFrameDecoder * option DockerFrame :=
  match fuel with
  | O => (d, None)
  | S fuel' =>
      if end_ d - start d <? DF_HEADER_BYTES then (d, None)
      else
        let head := start d in
        let size := get_u32 (buf d) (Z.to_nat (head + 4)) in
        if end_ d - start d <? DF_HEADER_BYTES + size then (d, None)
        else
          let stream := text_stream (byte_at (buf d) (Z.to_nat head)) in
          let payload := bslice (buf d) (head + DF_HEADER_BYTES) (head + DF_HEADER_BYTES + size) in
          let start' := start d + (DF_HEADER_BYTES + size) in
          let '(s2, e2) := if start' =? end_ d then (0, 0) else (start', end_ d) in
          let '(x, units) := decode (decoders d stream) payload in
          let text := stripNulBytes units in
          let d' := mkDec (buf d) s2 e2 (set_dec (decoders d) stream x) in
          match text with
          | [] => next_fuel fuel' d'
          | _ :: _ => (d', Some (mkDockerFrame stream text))
          end
  end.

Definition next (d : DockerFrameDecoder) : DockerFrameDecoder * option DockerFrame :=
  next_fuel (S (Z.to_nat (end_ d - start d))) d.

Definition flush (d : DockerFrameDecoder) : list DockerFrame :=
  List.concat (List.map (fun s =>
    match stripNulBytes (decodeEnd (decoders d s)) with
    | [] => []
    | t => [mkDockerFrame s t]
    end) [stdout; stderr]).

(** The callers' loop [for (f = next(); f !== null; f = next())]. *)
Fixpoint nexts_fuel (fuel : nat) (d : DockerFrameDecoder) : DockerFrameDecoder * list DockerFrame :=
  match fuel with
  | O => (d, [])
  | S fuel' =>
      match next d with
      | (d', None) => (d', [])
      | (d', Some f) => let '(d'', fs) := nexts_fuel fuel' d' in (d'', f :: fs)
      end
  end.

Definition nexts (d : DockerFrameDecoder) : DockerFrameDecoder * list DockerFrame :=
  nexts_fuel (S (Z.to_nat (end_ d - start d))) d.

Definition demuxDockerStream (raw : list Z) : list Z * list Z :=
  let '(d, frames) := nexts (dpush newDockerFrameDecoder raw) in
  let all := frames ++ flush d in
  let side s := List.concat (List.map ftext (List.filter (fun f => bool_decide (fstream f = s)) all)) in
  (side stdout, side stderr).

(** ** Reference: frame by frame *)

(** One streaming decode per frame, on the side the frame belongs to. *)
Fixpoint decode_frames (ds : DockerStream -> D) (fs : list (DockerStream * list Z))
    : (DockerStream -> D) * list DockerFrame :=
  match fs with
  | [] => (ds, [])
  | (s, p) :: fs' =>
      let '(x, units) := decode (ds s) p in
      let '(ds', out) := decode_frames (set_dec ds s x) fs' in
      (ds', match stripNulBytes units with [] => out | t => mkDockerFrame s t :: out end)
  end.

(** A follower of the stream: after every socket read, [push] and the [next] loop. *)
Fixpoint follow (d : DockerFrameDecoder) (chunks : list (list Z)) : DockerFrameDecoder * list DockerFrame :=
  match chunks with
  | [] => (d, [])
  | c :: chunks' =>
      let '(d1, out) := nexts (dpush d c) in
      let '(d2, out') := follow d1 chunks' in (d2, out ++ out')
  end.

(** The bytes of one side, in order, and what they decode to as one string. *)
Definition side_bytes (s : DockerStream) (fs : list (DockerStream * list Z)) : list Z :=
  List.concat (List.map snd (List.filter (fun f => bool_decide (fst f = s)) fs)).

Definition decodeAll (p : list Z) : list Z :=
  let '(x, units) := decode freshDecoder p in units ++ decodeEnd x.

(** The unconsumed bytes a decoder holds. *)
Definition view (d : DockerFrameDecoder) : list Z := bslice (buf d) (start d) (end_ d).

Record dec_inv (d : DockerFrameDecoder) : Prop := {
  di_range : 0 <= start d <= end_ d;
  di_cap : end_ d <= blen (buf d);
  di_wf : wf_bytes (buf d)
}.
End Text.

(** ** Proofs: the framing relation *)

Lemma complete_app p c : complete p = true ->
  complete (p ++ c) = true /\ frame_total (p ++ c) = frame_total p.
Proof.
  unfold complete, frame_total, DF_HEADER_BYTES. intros H. brefl.
  rewrite get_u32_app by (unfold blen in *; lia). rewrite blen_app.
  pose proof (blen_nonneg c). split; [|done].
  apply andb_true_iff; split; apply Z.leb_le; lia.
Qed.

Lemma frame_total_ge p : wf_bytes p -> DF_HEADER_BYTES <= frame_total p.
Proof. intros Hp. pose proof (get_u32_range p 4 Hp). unfold frame_total. lia. Qed.

Lemma Splits_app cls p fs r c fs' r' :
  wf_bytes p -> Splits cls p fs r -> Splits cls (r ++ c) fs' r' -> Splits cls (p ++ c) (fs ++ fs') r'.
Proof.
  intros Hp H. induction H as [p Hc|p fs r Hc H IH]; intros H'; [done|].
  destruct (complete_app p c Hc) as [Hc' Ht].
  assert (DF_HEADER_BYTES <= blen p /\ frame_total p <= blen p) as [H8 Hle].
  { unfold complete in Hc. by brefl. }
  pose proof (frame_total_ge p Hp). unfold DF_HEADER_BYTES in *.
  pose proof (Splits_frame cls (p ++ c) (fs ++ fs') r' Hc') as Hs. rewrite Ht in Hs.
  rewrite bdrop_app in Hs by lia. rewrite bslice_app in Hs by (unfold DF_HEADER_BYTES; lia).
  rewrite byte_at_app in Hs by (unfold blen in *; lia). apply Hs, IH; [|done].
  by apply wf_bytes_bdrop.
Qed.

Lemma Splits_det cls p fs r fs' r' : Splits cls p fs r -> Splits cls p fs' r' -> fs = fs' /\ r = r'.
Proof.
  intros H. revert fs' r'. induction H as [p Hc|p fs r Hc H IH]; intros fs' r' H'; inversion H'; subst;
    try congruence; [done|].
  edestruct IH as [-> ->]; done.
Qed.

Lemma Splits_wf cls p fs r : wf_bytes p -> Splits cls p fs r -> wf_bytes r.
Proof. intros Hp H. induction H; [done|]. by apply IHSplits, wf_bytes_bdrop. Qed.

(** Where the parts of an encoded frame lie. *)
Lemma encode_frame_parts f rest : wf_bytes (snd f) -> blen (snd f) < 2 ^ 32 ->
  frame_total (encode_frame f ++ rest) = DF_HEADER_BYTES + blen (snd f) /\
  complete (encode_frame f ++ rest) = true /\
  bslice (encode_frame f ++ rest) DF_HEADER_BYTES (DF_HEADER_BYTES + blen (snd f)) = snd f /\
  bdrop (DF_HEADER_BYTES + blen (snd f)) (encode_frame f ++ rest) = rest.
Proof.
  intros Hp Hl. destruct f as [s p]; cbn [fst snd] in *. pose proof (blen_nonneg p).
  set (h := [stream_byte s; 0; 0; 0] ++ be32 (blen p)).
  assert (length h = 8%nat) as Hh by done.
  assert (encode_frame (s, p) ++ rest = h ++ p ++ rest) as E.
  { unfold encode_frame, h. cbn [fst snd]. by rewrite <- !app_assoc. }
  assert (get_u32 (encode_frame (s, p) ++ rest) 4 = blen p) as Eg.
  { unfold encode_frame. cbn [fst snd]. rewrite <- !app_assoc.
    etransitivity; [exact (get_u32_be32 [stream_byte s; 0; 0; 0] (blen p) (p ++ rest))|].
    by apply u32_small. }
  unfold frame_total, complete, frame_total. rewrite Eg, E. unfold DF_HEADER_BYTES.
  split_and!; [done| | |].
  - rewrite !blen_app. pose proof (blen_nonneg rest). replace (blen h) with 8 by (unfold blen; lia).
    apply andb_true_iff; split; apply Z.leb_le; lia.
  - unfold bslice, blen. rewrite drop_app_length' by (rewrite Hh; lia).
    rewrite take_app_length' by lia. done.
  - unfold bdrop, blen. rewrite app_assoc. apply drop_app_length'. rewrite length_app, Hh. lia.
Qed.

Definition wf_frame (f : DockerStream * list Z) : Prop := wf_bytes (snd f) /\ blen (snd f) < 2 ^ 32.

Lemma Splits_encode cls fs tail : (forall s, cls (stream_byte s) = s) -> Forall wf_frame fs ->
  complete tail = false -> Splits cls (encode_frames fs ++ tail) fs tail.
Proof.
  intros Hcls Hfs Htail. induction Hfs as [|f fs [Hw Hl] Hfs IH]; [by apply Splits_done|].
  unfold encode_frames. cbn [List.map List.concat]. rewrite <- app_assoc.
  destruct (encode_frame_parts f (encode_frames fs ++ tail) Hw Hl) as (Ht & Hc & Hs & Hd).
  pose proof (Splits_frame cls (encode_frame f ++ encode_frames fs ++ tail) fs tail Hc) as H.
  rewrite Ht, Hs, Hd in H. specialize (H IH).
  replace (cls (byte_at _ 0), snd f) with f in H; [done|].
  destruct f as [s p]. cbn. by rewrite Hcls.
Qed.

Lemma wf_encode_frames fs : Forall wf_frame fs -> wf_bytes (encode_frames fs).
Proof.
  intros H. induction H as [|f fs [Hw Hl] Hfs IH]; [constructor|].
  unfold encode_frames. cbn [List.map List.concat]. apply wf_bytes_app. split; [|done].
  unfold encode_frame. rewrite !wf_bytes_app. split_and!; auto with hezo.
  destruct f as [[] ?]; cbn; repeat constructor; unfold is_byte; lia.
Qed.

(** ** Proofs: the byte decoder *)

Definition bin_pair (f : DockerBinaryFrame) : DockerStream * list Z := (bstream f, bpayload f).

Lemma binDrain_Splits fuel b : (length b <= fuel)%nat -> wf_bytes b ->
  Splits bin_stream b (List.map bin_pair (snd (binDrain_fuel fuel b))) (fst (binDrain_fuel fuel b)).
Proof.
  revert b. induction fuel as [|fuel IH]; intros b Hl Hw; cbn [binDrain_fuel].
  { destruct b; [|simpl in Hl; lia]. by apply Splits_done. }
  destruct (Z.ltb_spec (blen b) DF_HEADER_BYTES) as [H8|H8].
  { apply Splits_done. unfold complete. apply andb_false_iff. left. by apply Z.leb_gt. }
  fold (frame_total b). pose proof (frame_total_ge b Hw). unfold DF_HEADER_BYTES in *.
  destruct (Z.ltb_spec (blen b) (frame_total b)) as [Ht|Ht].
  { apply Splits_done. unfold complete. apply andb_false_iff. right. by apply Z.leb_gt. }
  specialize (IH (bdrop (frame_total b) b)).
  destruct (binDrain_fuel fuel (bdrop (frame_total b) b)) as [rest out]. cbn.
  apply (Splits_frame bin_stream).
  - unfold complete, DF_HEADER_BYTES. apply andb_true_iff; split; apply Z.leb_le; lia.
  - apply IH; [|by apply wf_bytes_bdrop]. unfold bdrop, blen in *. rewrite length_drop. lia.
Qed.

Lemma binPushes_Splits chunks b : wf_bytes b -> Forall wf_bytes chunks -> complete b = false ->
  Splits bin_stream (b ++ List.concat chunks) (List.map bin_pair (snd (binPushes b chunks)))
    (fst (binPushes b chunks)).
Proof.
  intros Hb Hcs. revert b Hb. induction Hcs as [|c chunks Hc Hcs IH]; intros b Hb Hn; cbn [binPushes List.concat].
  { rewrite app_nil_r. by apply Splits_done. }
  assert (wf_bytes (b ++ c)) as Hbc by (by apply wf_bytes_app).
  pose proof (binDrain_Splits (length (b ++ c)) (b ++ c) (Nat.le_refl _) Hbc) as Hd.
  unfold binPush. destruct (binDrain_fuel _ (b ++ c)) as [b' out]. cbn [fst snd] in Hd.
  assert (complete b' = false) as Hn'.
  { clear -Hd. remember (List.map bin_pair out) as l. clear Heql. induction Hd; done. }
  specialize (IH b' (Splits_wf _ _ _ _ Hbc Hd) Hn').
  destruct (binPushes b' chunks) as [b'' out']. cbn [fst snd] in *.
  rewrite map_app, app_assoc. by apply (Splits_app _ _ _ b').
Qed.

Lemma bin_pair_inj l l' : List.map bin_pair l = List.map bin_pair l' -> l = l'.
Proof.
  revert l'. induction l as [|[s p] l IH]; intros [|[s' p'] l'] H; simplify_eq/=; [done|].
  f_equal. by apply IH.
Qed.

(** The byte decoder under the tunnel loses nothing and invents nothing: however
    the daemon's bytes are cut into chunks, the frames delivered are exactly the frames
    written, payload for payload, and what is kept is the bytes of the unfinished frame. *)
Theorem binary_frames_roundtrip (fs : list (DockerStream * list Z)) (tail : list Z)
    (chunks : list (list Z)) :
  Forall wf_frame fs -> wf_bytes tail -> complete tail = false ->
  List.concat chunks = encode_frames fs ++ tail ->
  binPushes [] chunks = (tail, List.map (fun f => mkBinFrame (fst f) (snd f)) fs).
Proof.
  intros Hfs Ht Hn E.
  assert (Forall wf_bytes chunks) as Hcs.
  { apply Forall_concat. change (wf_bytes (List.concat chunks)). rewrite E. apply wf_bytes_app.
    by split; [apply wf_encode_frames|]. }
  pose proof (binPushes_Splits chunks [] ltac:(constructor) Hcs eq_refl) as H. cbn [app] in H.
  rewrite E in H.
  destruct (Splits_det _ _ _ _ _ _ H
    (Splits_encode bin_stream fs tail ltac:(by intros []) Hfs Hn)) as [Hf Hr].
  destruct (binPushes [] chunks) as [b out]. cbn [fst snd] in *. subst b. f_equal.
  apply bin_pair_inj. rewrite Hf, map_map. cbn. symmetry. etransitivity; [|apply map_id].
  by apply map_ext; intros [].
Qed.

Lemma binary_frames_roundtrip_witness :
  binPushes [] [[1; 0; 0]; [0; 0; 0; 0; 2; 104]; [105; 2; 0; 0; 0; 0; 0; 0; 1; 33; 1]]
  = ([1], [mkBinFrame stdout [104; 105]; mkBinFrame stderr [33]]).
Proof.
  apply (binary_frames_roundtrip [(stdout, [104; 105]); (stderr, [33])] [1]).
  - repeat constructor; cbn; unfold is_byte; lia.
  - by apply wf_bytes_check.
  - reflexivity.
  - reflexivity.
Defined.

(** ** Proofs: the text decoder's buffer *)

Lemma nextCapacity_fuel_ge fuel cap n :
  0 < cap -> n <= cap * 2 ^ Z.of_nat fuel -> n <= nextCapacity_fuel fuel cap n.
Proof.
  revert cap. induction fuel as [|fuel IH]; intros cap Hc H; cbn [nextCapacity_fuel].
  { simpl in H. lia. }
  destruct (Z.ltb_spec cap n); [|done]. apply IH; [lia|].
  replace (Z.of_nat (S fuel)) with (Z.of_nat fuel + 1) in H by lia.
  rewrite Z.pow_add_r in H by lia. lia.
Qed.

(** The doublings allowed are always enough for the size asked. *)
Lemma nextCapacity_enough n : n <= nextCapacity n.
Proof.
  unfold nextCapacity. apply nextCapacity_fuel_ge; [done|].
  rewrite Z2Nat.id by apply Z.log2_up_nonneg. destruct (Z.le_gt_cases n 1).
  - pose proof (Z.pow_pos_nonneg 2 (Z.log2_up n) ltac:(lia) (Z.log2_up_nonneg n)).
    unfold INITIAL_CAPACITY. nia.
  - pose proof (Z.log2_up_spec n ltac:(lia)). unfold INITIAL_CAPACITY. nia.
Qed.

(** Writing right after a range extends it. *)
Lemma bslice_bset_end b s e c : 0 <= s <= e -> e + blen c <= blen b ->
  bslice (bset b e c) s (e + blen c) = bslice b s e ++ c.
Proof.
  intros Hs He. unfold bslice, bset, blen in *.
  rewrite drop_app_le by (rewrite length_take; lia).
  rewrite app_assoc, take_app_le by (rewrite length_app, length_drop, length_take; lia).
  rewrite take_ge by (rewrite length_app, length_drop, length_take; lia).
  f_equal. rewrite skipn_firstn_comm. f_equal. lia.
Qed.

Lemma bslice_bset_0 b c : blen c <= blen b -> bslice (bset b 0 c) 0 (blen c) = c.
Proof.
  intros H. unfold bslice, bset, blen in *. change (Z.to_nat 0) with 0%nat. rewrite drop_0, take_0. cbn [app].
  rewrite take_app_length' by lia. done.
Qed.

Section TextProofs.
Context {D : Type} (freshDecoder : D) (decode : D -> list Z -> D * list Z) (decodeEnd : D -> list Z).
Notation Dec := (@DockerFrameDecoder D).

Lemma view_len (d : Dec) : dec_inv d -> blen (view d) = end_ d - start d.
Proof.
  intros [Hr Hc _]. unfold view, bslice, blen in *. rewrite length_take, length_drop. lia.
Qed.

Lemma wf_view (d : Dec) : dec_inv d -> wf_bytes (view d).
Proof. intros [_ _ H]. by apply Forall_take, Forall_drop. Qed.

Lemma new_inv : dec_inv (newDockerFrameDecoder freshDecoder) /\ view (newDockerFrameDecoder freshDecoder) = [].
Proof.
  split; [|done]. split; cbn [buf start end_ newDockerFrameDecoder]; [lia|apply blen_nonneg|apply wf_zeros].
Qed.

Lemma ensureRoom_inv (d : Dec) n : dec_inv d -> 0 <= n ->
  dec_inv (ensureRoom d n) /\ view (ensureRoom d n) = view d /\
  end_ (ensureRoom d n) + n <= blen (buf (ensureRoom d n)) /\ decoders (ensureRoom d n) = decoders d.
Proof.
  intros Hi Hn. pose proof (view_len d Hi) as Hv. pose proof (wf_view d Hi) as Hw.
  destruct Hi as [Hr Hc Hb]. unfold ensureRoom. fold (view d).
  destruct (Z.leb_spec (end_ d + n) (blen (buf d))); [by split_and!|].
  set (v := view d) in *. clearbody v.
  destruct (Z.leb_spec (end_ d - start d + n) (blen (buf d))) as [Hfit|Hgrow].
  - rewrite <- Hv in Hfit |- *. unfold view at 1. cbn [buf start end_ decoders].
    rewrite bslice_bset_0, bset_length by lia. split_and!; [|done|lia|done].
    split; cbn [buf start end_]; [lia|rewrite bset_length; lia|by apply wf_bset].
  - pose proof (nextCapacity_enough (end_ d - start d + n)) as Hcap. rewrite <- Hv in *.
    set (z := repeat 0 (Z.to_nat (nextCapacity (blen v + n)))).
    assert (blen z = nextCapacity (blen v + n)) as Hz.
    { unfold z, blen at 1. rewrite repeat_length. pose proof (blen_nonneg (view d)). lia. }
    unfold view at 1. cbn [buf start end_ decoders].
    rewrite bslice_bset_0, bset_length by lia. split_and!; [|done|lia|done].
    split; cbn [buf start end_]; [lia|rewrite bset_length; lia|apply wf_bset; [apply wf_zeros|done]].
Qed.

(** [push] appends the chunk to the unconsumed bytes, whichever way room was made. *)
Lemma dpush_inv (d : Dec) c : dec_inv d -> wf_bytes c ->
  dec_inv (dpush d c) /\ view (dpush d c) = view d ++ c /\ decoders (dpush d c) = decoders d.
Proof.
  intros Hi Hc. unfold dpush. destruct (Z.eqb_spec (blen c) 0) as [E|E].
  { destruct c; [|unfold blen in E; simpl in E; lia]. by rewrite app_nil_r. }
  destruct (ensureRoom_inv d (blen c) Hi (blen_nonneg c)) as (Hi' & Hv & Hroom & Hd).
  destruct Hi' as [Hr Hcap Hb]. pose proof (blen_nonneg c).
  unfold view at 1. cbn [buf start end_ decoders].
  rewrite bslice_bset_end by lia. fold (view (ensureRoom d (blen c))). rewrite Hv.
  split_and!; [|done|done].
  split; cbn [buf start end_]; [lia|rewrite bset_length; lia|by apply wf_bset].
Qed.

(** ** Proofs: reading frames *)

Lemma decode_frames_app ds fs fs' :
  decode_frames decode ds (fs ++ fs') =
  let '(ds1, out) := decode_frames decode ds fs in
  let '(ds2, out') := decode_frames decode ds1 fs' in (ds2, out ++ out').
Proof.
  revert ds. induction fs as [|[s p] fs IH]; intros ds; cbn [decode_frames app].
  - by destruct (decode_frames decode ds fs').
  - destruct (decode (ds s) p) as [x u]. rewrite IH.
    destruct (decode_frames decode (set_dec ds s x) fs) as [ds1 out].
    destruct (decode_frames decode ds1 fs') as [ds2 out'].
    by destruct (stripNulBytes u).
Qed.

(** Reading inside the live range is reading the view. *)
Lemma view_byte (d : Dec) (k : nat) : dec_inv d -> Z.of_nat k < end_ d - start d ->
  byte_at (buf d) (Z.to_nat (start d + Z.of_nat k)) = byte_at (view d) k.
Proof.
  intros [Hr Hc _] Hk. unfold byte_at, view, bslice, blen in *.
  rewrite nth_firstn. destruct (Nat.ltb_spec k (Z.to_nat (end_ d - start d))); [|lia].
  rewrite nth_skipn. f_equal. lia.
Qed.

Lemma view_u32 (d : Dec) : dec_inv d -> DF_HEADER_BYTES <= end_ d - start d ->
  get_u32 (buf d) (Z.to_nat (start d + 4)) = get_u32 (view d) 4.
Proof.
  intros Hi H. pose proof (di_range d Hi). unfold get_u32, DF_HEADER_BYTES in *.
  rewrite <- !(view_byte d) by (done || lia). repeat f_equal; lia.
Qed.

Lemma view_slice (d : Dec) a b : dec_inv d -> 0 <= a <= b -> b <= end_ d - start d ->
  bslice (buf d) (start d + a) (start d + b) = bslice (view d) a b.
Proof.
  intros [Hr Hc _] Ha Hb. unfold view, bslice, blen in *.
  rewrite skipn_firstn_comm, take_take, drop_drop. f_equal; [lia|]. f_equal. lia.
Qed.

(** The state after a frame of [total] bytes is consumed. *)
Lemma consume_inv (d : Dec) total (ds : DockerStream -> D) : dec_inv d -> 0 <= total <= end_ d - start d ->
  let '(s2, e2) := if start d + total =? end_ d then (0, 0) else (start d + total, end_ d) in
  let d' := mkDec (buf d) s2 e2 ds in
  dec_inv d' /\ view d' = bdrop total (view d) /\ end_ d' - start d' = end_ d - start d - total.
Proof.
  intros Hi Ht. pose proof (view_len d Hi) as Hl. destruct Hi as [Hr Hc Hb].
  destruct (Z.eqb_spec (start d + total) (end_ d)) as [E|E]; cbn [buf start end_].
  - split_and!; [split; cbn; [lia|apply blen_nonneg|done]| |lia].
    unfold view at 1, bslice, bdrop. cbn. symmetry. apply drop_ge. unfold blen in Hl. lia.
  - split_and!; [split; cbn; [lia|done|done]| |lia].
    unfold view, bslice, bdrop. cbn. rewrite skipn_firstn_comm, drop_drop. f_equal; [lia|]. f_equal. lia.
Qed.
(** What one call of [next] did: the frames [fs] it consumed, the state it left. *)
Definition consumed (d d' : Dec) (fs : list (DockerStream * list Z)) : Prop :=
  dec_inv d' /\ (forall fs' r, Splits text_stream (view d') fs' r -> Splits text_stream (view d) (fs ++ fs') r) /\
  end_ d' - start d' <= end_ d - start d.

Lemma consumed_trans d d1 d2 fs fs' : consumed d d1 fs -> consumed d1 d2 fs' -> consumed d d2 (fs ++ fs').
Proof.
  intros (H1 & H2 & H3) (G1 & G2 & G3). split_and!; [done| |lia].
  intros l r H. rewrite <- app_assoc. auto.
Qed.

(** One turn of the loop of [next], when the buffer holds a complete frame. *)
Lemma consume_frame (d : Dec) ds : dec_inv d -> complete (view d) = true ->
  let size := get_u32 (view d) 4 in
  let '(s2, e2) := if start d + (DF_HEADER_BYTES + size) =? end_ d then (0, 0)
                   else (start d + (DF_HEADER_BYTES + size), end_ d) in
  let d' := mkDec (buf d) s2 e2 ds in
  consumed d d' [(text_stream (byte_at (view d) 0),
                  bslice (view d) DF_HEADER_BYTES (DF_HEADER_BYTES + size))] /\
  end_ d' - start d' < end_ d - start d.
Proof.
  intros Hi Hc size. pose proof (frame_total_ge (view d) (wf_view d Hi)) as Hge.
  assert (frame_total (view d) = DF_HEADER_BYTES + size) as Ht by done.
  assert (DF_HEADER_BYTES + size <= end_ d - start d) as Hle.
  { pose proof (view_len d Hi). unfold complete in Hc. brefl. lia. }
  assert (0 < DF_HEADER_BYTES) by done.
  pose proof (consume_inv d (DF_HEADER_BYTES + size) ds Hi ltac:(lia)) as H'.
  destruct (if _ =? _ then _ else _) as [s2 e2]. destruct H' as (Hi' & Hv & Hl).
  split; [|lia]. split_and!; [done| |lia].
  intros fs' r Hs. rewrite Hv, <- Ht in Hs. rewrite <- Ht. by apply Splits_frame.
Qed.

Lemma next_fuel_spec fuel (d : Dec) : dec_inv d -> end_ d - start d < Z.of_nat fuel ->
  let '(d', o) := next_fuel decode fuel d in
  exists fs, consumed d d' fs /\
  match o with
  | None => complete (view d') = false /\ decode_frames decode (decoders d) fs = (decoders d', [])
  | Some f => end_ d' - start d' < end_ d - start d /\
              decode_frames decode (decoders d) fs = (decoders d', [f])
  end.
Proof.
  revert d. induction fuel as [|fuel IH]; intros d Hi Hf; [pose proof (di_range d Hi); lia|].
  pose proof (view_len d Hi) as Hl. cbn [next_fuel].
  assert (complete (view d) = false ->
    exists fs, consumed d d fs /\ complete (view d) = false /\
      decode_frames decode (decoders d) fs = (decoders d, [])) as Hstop.
  { intros Hc. exists []. split_and!; [|done|done]. split_and!; [done|done|lia]. }
  destruct (Z.ltb_spec (end_ d - start d) DF_HEADER_BYTES) as [H8|H8].
  { apply Hstop. unfold complete. apply andb_false_iff. left. apply Z.leb_gt. lia. }
  rewrite (view_u32 d Hi H8).
  destruct (Z.ltb_spec (end_ d - start d) (DF_HEADER_BYTES + get_u32 (view d) 4)) as [Ht|Ht].
  { apply Hstop. unfold complete, frame_total. apply andb_false_iff. right. apply Z.leb_gt. lia. }
  assert (complete (view d) = true) as Hc.
  { unfold complete, frame_total. apply andb_true_iff. split; apply Z.leb_le; lia. }
  pose proof (frame_total_ge (view d) (wf_view d Hi)) as Hge.
  unfold frame_total in Hge. assert (0 < DF_HEADER_BYTES) by done.
  assert (byte_at (buf d) (Z.to_nat (start d)) = byte_at (view d) 0) as ->.
  { rewrite <- (view_byte d 0 Hi) by lia. f_equal. lia. }
  rewrite <- (Z.add_assoc (start d)), (view_slice d) by (done || lia).
  set (s := text_stream _) in *. set (p := bslice (view d) _ _) in *.
  destruct (decode (decoders d s) p) as [x u] eqn:Ed.
  pose proof (consume_frame d (set_dec (decoders d) s x) Hi Hc) as Hcons. cbv zeta in Hcons.
  fold s p in Hcons. destruct (if _ =? _ then _ else _) as [s2 e2].
  destruct Hcons as [Hcons Hlt]. set (d1 := mkDec _ _ _ _) in *.
  destruct (stripNulBytes u) as [|c t] eqn:Eu.
  - specialize (IH d1 (proj1 Hcons) ltac:(lia)).
    destruct (next_fuel decode fuel d1) as [d' o]. destruct IH as (fs & Hfs & Ho).
    exists ([(s, p)] ++ fs). split; [by apply (consumed_trans d d1)|].
    destruct Hfs as (_ & _ & Hle). destruct o as [f|].
    + destruct Ho as [Hlt' Ho]. split; [lia|]. cbn [decode_frames app]. rewrite Ed.
      unfold d1 in Ho. cbn [decoders] in Ho. by rewrite Ho, Eu.
    + destruct Ho as [Hn Ho]. split; [done|]. cbn [decode_frames app]. rewrite Ed.
      unfold d1 in Ho. cbn [decoders] in Ho. by rewrite Ho, Eu.
  - exists [(s, p)]. split_and!; [done|done|]. cbn [decode_frames]. by rewrite Ed, Eu.
Qed.

Lemma nexts_fuel_spec fuel (d : Dec) : dec_inv d -> end_ d - start d < Z.of_nat fuel ->
  let '(d', out) := nexts_fuel decode fuel d in
  exists fs, consumed d d' fs /\ complete (view d') = false /\
  decode_frames decode (decoders d) fs = (decoders d', out).
Proof.
  revert d. induction fuel as [|fuel IH]; intros d Hi Hf; [pose proof (di_range d Hi); lia|].
  cbn [nexts_fuel]. pose proof (di_range d Hi).
  pose proof (next_fuel_spec (S (Z.to_nat (end_ d - start d))) d Hi ltac:(lia)) as Hn.
  unfold next. destruct (next_fuel decode _ d) as [d1 [f|]].
  - destruct Hn as (fs & Hc & Hlt & Hdec). specialize (IH d1 (proj1 Hc) ltac:(lia)).
    destruct (nexts_fuel decode fuel d1) as [d' out]. destruct IH as (fs' & Hc' & Hn & Hdec').
    exists (fs ++ fs'). split_and!; [by apply (consumed_trans d d1)|done|].
    by rewrite decode_frames_app, Hdec, Hdec'.
  - destruct Hn as (fs & Hc & Hn & Hdec). by exists fs.
Qed.

(** [push] then the [next] loop: the pending bytes and the chunk, split into frames. *)
Lemma nexts_spec (d : Dec) c : dec_inv d -> wf_bytes c ->
  let '(d', out) := nexts decode (dpush d c) in
  dec_inv d' /\ complete (view d') = false /\
  exists fs, Splits text_stream (view d ++ c) fs (view d') /\
             decode_frames decode (decoders d) fs = (decoders d', out).
Proof.
  intros Hi Hc. destruct (dpush_inv d c Hi Hc) as (Hi' & Hv & Hd). unfold nexts.
  pose proof (nexts_fuel_spec (S (Z.to_nat (end_ (dpush d c) - start (dpush d c)))) (dpush d c) Hi') as H.
  pose proof (di_range _ Hi'). specialize (H ltac:(lia)).
  destruct (nexts_fuel decode _ (dpush d c)) as [d' out]. destruct H as (fs & (Hi2 & Hs & _) & Hn & Hdec).
  split_and!; [done|done|]. exists fs. rewrite Hd in Hdec. split; [|done]. rewrite <- Hv.
  rewrite <- (app_nil_r fs). by apply Hs, Splits_done.
Qed.

Lemma follow_spec chunks (d : Dec) : dec_inv d -> complete (view d) = false -> Forall wf_bytes chunks ->
  let '(d', out) := follow decode d chunks in
  dec_inv d' /\ exists fs, Splits text_stream (view d ++ List.concat chunks) fs (view d') /\
                           decode_frames decode (decoders d) fs = (decoders d', out).
Proof.
  intros Hi Hn Hcs. revert d Hi Hn. induction Hcs as [|c cs Hc Hcs IH]; intros d Hi Hn; cbn [follow List.concat].
  { split; [done|]. exists []. rewrite app_nil_r. split; [by apply Splits_done|done]. }
  pose proof (nexts_spec d c Hi Hc) as H. destruct (nexts decode (dpush d c)) as [d1 out].
  destruct H as (Hi1 & Hn1 & fs & Hs & Hdec). specialize (IH d1 Hi1 Hn1).
  destruct (follow decode d1 cs) as [d2 out']. destruct IH as (Hi2 & fs' & Hs' & Hdec').
  split; [done|]. exists (fs ++ fs'). split.
  - rewrite app_assoc. apply (Splits_app _ _ _ (view d1)); [|done|done].
    apply wf_bytes_app. split; [by apply wf_view|done].
  - by rewrite decode_frames_app, Hdec, Hdec'.
Qed.
End TextProofs.

Section TextTheorems.
Context {D : Type} (freshDecoder : D) (decode : D -> list Z -> D * list Z) (decodeEnd : D -> list Z).

(** The offset-based, compacting, growing buffer of the log decoder is invisible:
    however the stream is cut into chunks, the frames a follower gets are those of
    decoding each written frame in order, the bytes kept are the unfinished frame, and no
    write ever falls outside the backing buffer ([dec_inv]). *)
Theorem follow_refines_frames (fs : list (DockerStream * list Z)) (tail : list Z) (chunks : list (list Z)) :
  Forall wf_frame fs -> wf_bytes tail -> complete tail = false ->
  List.concat chunks = encode_frames fs ++ tail ->
  let '(d, out) := follow decode (newDockerFrameDecoder freshDecoder) chunks in
  dec_inv d /\ view d = tail /\
  decode_frames decode (fun _ => freshDecoder) fs = (decoders d, out).
Proof.
  intros Hfs Ht Hn E. destruct (new_inv freshDecoder) as [Hi Hv].
  assert (Forall wf_bytes chunks) as Hcs.
  { apply Forall_concat. change (wf_bytes (List.concat chunks)). rewrite E. apply wf_bytes_app.
    by split; [apply wf_encode_frames|]. }
  pose proof (follow_spec decode chunks (newDockerFrameDecoder freshDecoder) Hi) as H.
  rewrite Hv in H. specialize (H eq_refl Hcs).
  destruct (follow decode (newDockerFrameDecoder freshDecoder) chunks) as [d out].
  destruct H as (Hd & fs' & Hs & Hdec). cbn [app] in Hs. rewrite E in Hs.
  destruct (Splits_det _ _ _ _ _ _ Hs
    (Splits_encode text_stream fs tail ltac:(by intros []) Hfs Hn)) as [-> ->]. done.
Qed.
(** What [TextDecoder] documents of [stream: true]: decoding a prefix and then the rest
    yields what decoding the whole yields. *)
Definition streaming : Prop := forall x p q,
  decode x (p ++ q) =
  let '(x1, u1) := decode x p in let '(x2, u2) := decode x1 q in (x2, u1 ++ u2).

Definition side_text (s : DockerStream) (fs : list DockerFrame) : list Z :=
  List.concat (List.map ftext (List.filter (fun f => bool_decide (fstream f = s)) fs)).

Lemma stripNulBytes_app a b : stripNulBytes (a ++ b) = stripNulBytes a ++ stripNulBytes b.
Proof. apply List.filter_app. Qed.

Lemma side_text_app s a b : side_text s (a ++ b) = side_text s a ++ side_text s b.
Proof. unfold side_text. by rewrite List.filter_app, map_app, concat_app. Qed.

Lemma side_text_opt s s' t0 (out : list DockerFrame) :
  side_text s (match t0 with [] => out | z :: t => mkDockerFrame s' (z :: t) :: out end) =
  (if bool_decide (s' = s) then t0 else []) ++ side_text s out.
Proof. unfold side_text. destruct t0; cbn; case_bool_decide; done. Qed.

(** Frame-wise decoding of a side is decoding that side's bytes at once. *)
Lemma decode_frames_side (Hst : streaming) (H0 : forall x, decode x [] = (x, [])) s fs ds :
  let '(ds', out) := decode_frames decode ds fs in
  exists u, decode (ds s) (side_bytes s fs) = (ds' s, u) /\ side_text s out = stripNulBytes u.
Proof.
  revert ds. induction fs as [|[s' p] fs IH]; intros ds; cbn [decode_frames].
  { exists []. split; [apply H0|done]. }
  destruct (decode (ds s') p) as [x u] eqn:Ed. specialize (IH (set_dec ds s' x)).
  destruct (decode_frames decode (set_dec ds s' x) fs) as [ds' out].
  destruct IH as (v & Hv & Ho). rewrite side_text_opt, Ho.
  unfold side_bytes, set_dec in *. cbn [List.filter fst].
  destruct (decide (s' = s)) as [->|Hne].
  - rewrite !bool_decide_true in * by done. cbn [List.map List.concat snd].
    exists (u ++ v). rewrite Hst, Ed, Hv. split; [done|]. by rewrite stripNulBytes_app.
  - rewrite !bool_decide_false in * by congruence. by exists v.
Qed.

Lemma flush_side (d : @DockerFrameDecoder D) s :
  side_text s (flush decodeEnd d) = stripNulBytes (decodeEnd (decoders d s)).
Proof.
  unfold flush. cbn [List.map List.concat]. rewrite app_nil_r, side_text_app.
  assert (forall s', side_text s (match stripNulBytes (decodeEnd (decoders d s')) with
     [] => [] | t => [mkDockerFrame s' t] end)
     = if bool_decide (s' = s) then stripNulBytes (decodeEnd (decoders d s')) else []) as E.
  { intros s'. unfold side_text. destruct (stripNulBytes _); cbn; case_bool_decide; cbn; rewrite ?app_nil_r; done. }
  etransitivity; [apply f_equal2; [apply (E stdout)|apply (E stderr)]|].
  destruct s; cbn; by rewrite ?app_nil_r.
Qed.

Lemma demux_sides raw : demuxDockerStream freshDecoder decode decodeEnd raw =
  let '(d, frames) := nexts decode (dpush (newDockerFrameDecoder freshDecoder) raw) in
  (side_text stdout (frames ++ flush decodeEnd d), side_text stderr (frames ++ flush decodeEnd d)).
Proof. done. Qed.

(** Demultiplexing a buffered stream gives, for each side, the text of that side's
    bytes decoded as one string and cleared of NULs: frame boundaries that fall inside a
    character and frames of the two sides that interleave change nothing. *)
Theorem demux_is_whole_text (fs : list (DockerStream * list Z)) (tail : list Z) :
  streaming -> (forall x, decode x [] = (x, [])) ->
  Forall wf_frame fs -> wf_bytes tail -> complete tail = false ->
  let text s := stripNulBytes (decodeAll freshDecoder decode decodeEnd (side_bytes s fs)) in
  demuxDockerStream freshDecoder decode decodeEnd (encode_frames fs ++ tail) = (text stdout, text stderr).
Proof.
  intros Hst H0 Hfs Ht Hn text. destruct (new_inv freshDecoder) as [Hi Hv]. rewrite demux_sides.
  pose proof (nexts_spec decode (newDockerFrameDecoder freshDecoder) (encode_frames fs ++ tail) Hi) as H.
  specialize (H ltac:(apply wf_bytes_app; by split; [apply wf_encode_frames|])).
  destruct (nexts decode _) as [d out]. destruct H as (_ & _ & fs' & Hs & Hdec).
  rewrite Hv in Hs. cbn [app] in Hs.
  destruct (Splits_det _ _ _ _ _ _ Hs
    (Splits_encode text_stream fs tail ltac:(by intros []) Hfs Hn)) as [-> _].
  assert (forall s, side_text s (out ++ flush decodeEnd d) = text s) as E.
  { intros s. rewrite side_text_app, flush_side.
    pose proof (decode_frames_side Hst H0 s fs (decoders (newDockerFrameDecoder freshDecoder))) as Hside.
    rewrite Hdec in Hside. destruct Hside as (u & Hu & Ho). cbn [decoders newDockerFrameDecoder] in Hu.
    unfold text, decodeAll. by rewrite Hu, stripNulBytes_app, Ho. }
  by rewrite !E.
Qed.
End TextTheorems.

(** ** Witnesses, with a byte-wise decoder of one- and two-byte UTF-8 sequences *)

Definition utf8_step (st : option Z * list Z) (b : Z) : option Z * list Z :=
  let '(lead, out) := st in
  match lead with
  | Some l => if (128 <=? b) && (b <? 192) then (None, out ++ [(l - 192) * 64 + (b - 128)])
              else (None, out ++ [65533])
  | None => if b <? 128 then (None, out ++ [b])
            else if (194 <=? b) && (b <? 224) then (Some b, out) else (None, out ++ [65533])
  end.

Definition utf8_decode (x : option Z) (p : list Z) : option Z * list Z := fold_left utf8_step p (x, []).
Definition utf8_end (x : option Z) : list Z := match x with Some _ => [65533] | None => [] end.

Lemma utf8_step_shift p x out : fold_left utf8_step p (x, out) =
  (fst (fold_left utf8_step p (x, [])), out ++ snd (fold_left utf8_step p (x, []))).
Proof.
  revert x out. induction p as [|b p IH]; intros x out; cbn [fold_left fst snd]; [by rewrite app_nil_r|].
  assert (utf8_step (x, out) b = (fst (utf8_step (x, []) b), out ++ snd (utf8_step (x, []) b))) as ->.
  { unfold utf8_step. repeat case_match; cbn; by rewrite ?app_nil_r. }
  rewrite IH, (surjective_pairing (utf8_step (x, []) b)), (IH _ (snd _)). cbn. by rewrite <- app_assoc.
Qed.

Lemma utf8_streaming : streaming utf8_decode.
Proof.
  intros x p q. unfold utf8_decode. rewrite fold_left_app.
  destruct (fold_left utf8_step p (x, [])) as [x1 u1]. rewrite utf8_step_shift.
  by destruct (fold_left utf8_step q (x1, [])).
Qed.

Lemma follow_refines_frames_witness :
  let '(d, out) := follow utf8_decode (newDockerFrameDecoder None)
    [[1; 0; 0; 0; 0]; [0; 0; 2; 104; 195; 1; 0; 0; 0; 0; 0; 0; 1]; [169; 2; 0]] in
  dec_inv d /\ view d = [2; 0] /\ out = [mkDockerFrame stdout [104]; mkDockerFrame stdout [233]].
Proof.
  pose proof (follow_refines_frames None utf8_decode [(stdout, [104; 195]); (stdout, [169])] [2; 0]
    [[1; 0; 0; 0; 0]; [0; 0; 2; 104; 195; 1; 0; 0; 0; 0; 0; 0; 1]; [169; 2; 0]]) as H.
  destruct (follow _ _ _) as [d out].
  destruct H as (Hi & Hv & Hd).
  - repeat constructor; cbn; unfold is_byte; lia.
  - by apply wf_bytes_check.
  - reflexivity.
  - reflexivity.
  - split_and!; [done|done|]. by injection Hd.
Defined.

Lemma demux_is_whole_text_witness :
  demuxDockerStream None utf8_decode utf8_end
    (encode_frames [(stdout, [104; 195]); (stderr, [0; 33]); (stdout, [169])] ++ [2])
  = ([104; 233], [33]).
Proof.
  apply (demux_is_whole_text None utf8_decode utf8_end
    [(stdout, [104; 195]); (stderr, [0; 33]); (stdout, [169])] [2]).
  - exact utf8_streaming.
  - done.
  - repeat constructor; cbn; unfold is_byte; lia.
  - by apply wf_bytes_check.
  - reflexivity.
Defined.
