(* ===== verification/KeyedLock.v ===== *)
(** * The keyed mutex

    A model of [packages/server/src/lib/keyed-lock.ts]. An acquire call is a
    ticket, numbered in call order; its promise is pending, fulfilled with a
    release function (with that function's [released] flag) or rejected. Waiter
    objects live in a store of their own because the queue and the closures of an
    acquire share them. Timers, abort events and calls of a release function are
    events that arrive in any order. *)
From Stdlib Require Import ZArith Lia List Sorted.
From stdpp Require Import base list gmap strings.
From S2P Require Import Prelude.

Open Scope Z_scope.

Inductive LockOwner := OwnerName (s : string) | OwnerRecord (label : string).

Definition lockOwnerLabel (o : option LockOwner) : option string :=
  match o with
  | None => None
  | Some (OwnerName s) => Some s
  | Some (OwnerRecord l) => Some l
  end.

(** [grant] is the non-null test of the closure; [timer] and [listening] are what
    [settle] clears. *)
Record Waiter := mkWaiter {
  grant : bool;
  w_owner : option LockOwner;
  priority : bool;
  timer : option Z;
  listening : bool
}.

Record LockState := mkLockState { owner : option LockOwner; queue : list nat }.

Inductive LockError :=
| KeyedLockTimeoutError (key : string) (timeoutMs : Z) (held_by : option string)
| AbortReason.

Inductive Outcome := Pending | Granted (released : bool) | Rejected (e : LockError).

Record Ticket := mkTicket { t_key : string; t_outcome : Outcome }.

Record AcquireOptions := mkOptions {
  o_owner : option LockOwner;
  o_priority : bool;
  (** the signal, if any, and whether it has already fired *)
  o_signal : option bool;
  o_timeoutMs : option Z
}.

Record LockSys := mkSys {
  registry : gmap string LockState;
  waiters : gmap nat Waiter;
  tickets : gmap nat Ticket;
  nextTicket : nat
}.

Definition emptySys : LockSys := mkSys ∅ ∅ ∅ 0.

Definition currentOwner (s : LockSys) (key : string) : option LockOwner :=
  match registry s !! key with
  | Some st => owner st
  | None => None
  end.

(** [settle]: the waiter answers to nothing any more. *)
Definition settle (w : Waiter) : Waiter := mkWaiter false (w_owner w) (priority w) None false.

Definition is_priority (ws : gmap nat Waiter) (i : nat) : bool :=
  match ws !! i with
  | Some w => priority w
  | None => false
  end.

(** [queue.findIndex((w) => !w.priority)]. *)
Fixpoint firstPlain (ws : gmap nat Waiter) (q : list nat) : option nat :=
  match q with
  | [] => None
  | i :: q' => if is_priority ws i then S <$> firstPlain ws q' else Some 0%nat
  end.

Definition enqueue (ws : gmap nat Waiter) (q : list nat) (i : nat) (prio : bool) : list nat :=
  if prio then
    match firstPlain ws q with
    | None => q ++ [i]
    | Some at_ => take at_ q ++ i :: drop at_ q
    end
  else q ++ [i].

Definition acquireKeyedLock (key : string) (opts : AcquireOptions) (s : LockSys) : LockSys :=
  let i := nextTicket s in
  match registry s !! key with
  | None =>
      mkSys (<[key := mkLockState (o_owner opts) []]> (registry s)) (waiters s)
        (<[i := mkTicket key (Granted false)]> (tickets s)) (S i)
  | Some existing =>
      match o_signal opts with
      | Some true =>
          mkSys (registry s) (<[i := mkWaiter false (o_owner opts) (o_priority opts) None false]> (waiters s))
            (<[i := mkTicket key (Rejected AbortReason)]> (tickets s)) (S i)
      | sig =>
          let w := mkWaiter true (o_owner opts) (o_priority opts) (o_timeoutMs opts)
                     (match sig with Some _ => true | None => false end) in
          mkSys (<[key := mkLockState (owner existing)
                            (enqueue (waiters s) (queue existing) i (o_priority opts))]> (registry s))
            (<[i := w]> (waiters s)) (<[i := mkTicket key Pending]> (tickets s)) (S i)
      end
  end.

(** [queue.indexOf(waiter)] then [splice(at, 1)]. *)
Fixpoint removeFirst (i : nat) (q : list nat) : list nat :=
  match q with
  | [] => []
  | j :: q' => if Nat.eqb i j then q' else j :: removeFirst i q'
  end.

Definition giveUp (key : string) (i : nat) (w : Waiter) (e : LockError) (s : LockSys) : LockSys :=
  if negb (grant w) then s
  else
    let reg := match registry s !! key with
               | Some st => <[key := mkLockState (owner st) (removeFirst i (queue st))]> (registry s)
               | None => registry s
               end in
    mkSys reg (<[i := settle w]> (waiters s)) (<[i := mkTicket key (Rejected e)]> (tickets s)) (nextTicket s).

(** The timer of acquire [i] fires; a cleared timer does not. *)
Definition timerFires (i : nat) (s : LockSys) : LockSys :=
  match tickets s !! i, waiters s !! i with
  | Some t, Some w =>
      match timer w with
      | Some ms => giveUp (t_key t) i w
                     (KeyedLockTimeoutError (t_key t) ms (lockOwnerLabel (currentOwner s (t_key t)))) s
      | None => s
      end
  | _, _ => s
  end.

Definition signalAborts (i : nat) (s : LockSys) : LockSys :=
  match tickets s !! i, waiters s !! i with
  | Some t, Some w => if listening w then giveUp (t_key t) i w AbortReason s else s
  | _, _ => s
  end.

(** The loop of a release function: shift waiters until one can be granted. *)
Fixpoint handOver (key : string) (q : list nat) (s : LockSys) : LockSys :=
  match q with
  | [] => mkSys (delete key (registry s)) (waiters s) (tickets s) (nextTicket s)
  | i :: q' =>
      match waiters s !! i with
      | Some w =>
          if grant w then
            mkSys (<[key := mkLockState (w_owner w) q']> (registry s)) (<[i := settle w]> (waiters s))
              (<[i := mkTicket key (Granted false)]> (tickets s)) (nextTicket s)
          else handOver key q' s
      | None => handOver key q' s
      end
  end.

(** A call of the release function that acquire [i] resolved to. *)
Definition release (i : nat) (s : LockSys) : LockSys :=
  match tickets s !! i with
  | Some (mkTicket key (Granted false)) =>
      let s := mkSys (registry s) (waiters s) (<[i := mkTicket key (Granted true)]> (tickets s)) (nextTicket s) in
      match registry s !! key with
      | None => s
      | Some st => handOver key (queue st) s
      end
  | _ => s
  end.

Inductive LockEvent :=
| Acquire (key : string) (opts : AcquireOptions)
| TimerFires (i : nat)
| SignalAborts (i : nat)
| Release (i : nat).

Definition lockStep (s : LockSys) (e : LockEvent) : LockSys :=
  match e with
  | Acquire key opts => acquireKeyedLock key opts s
  | TimerFires i => timerFires i s
  | SignalAborts i => signalAborts i s
  | Release i => release i s
  end.

Definition lockRun (evs : list LockEvent) : LockSys := fold_left lockStep evs emptySys.

(** ** What the lock promises, on tickets alone *)

Definition holds (s : LockSys) (key : string) (i : nat) : Prop :=
  tickets s !! i = Some (mkTicket key (Granted false)).
Definition pending (s : LockSys) (key : string) (i : nat) : Prop :=
  tickets s !! i = Some (mkTicket key Pending).

(** Service order: priority first, arrival order within a class. *)
Definition served_before (p : nat -> bool) (i j : nat) : Prop :=
  (p i = true /\ p j = false) \/ (p i = p j /\ (i < j)%nat).

Record lock_inv (s : LockSys) : Prop := {
  li_fresh : forall i, (nextTicket s <= i)%nat -> tickets s !! i = None /\ waiters s !! i = None;
  li_free : forall k, registry s !! k = None -> forall i, ~ holds s k i /\ ~ pending s k i;
  li_held : forall k st, registry s !! k = Some st -> exists h, forall i, holds s k i <-> i = h;
  li_queue : forall k st, registry s !! k = Some st -> forall i, In i (queue st) <-> pending s k i;
  li_sorted : forall k st, registry s !! k = Some st ->
    StronglySorted (served_before (is_priority (waiters s))) (queue st);
  li_waiter : forall k i, pending s k i -> exists w, waiters s !! i = Some w /\ grant w = true;
  li_live : forall i w, waiters s !! i = Some w -> grant w = true -> exists k, pending s k i
}.

(** ** The queue *)

Lemma StronglySorted_snoc {A} (R : A -> A -> Prop) l x :
  StronglySorted R l -> (forall y, In y l -> R y x) -> StronglySorted R (l ++ [x]).
Proof.
  induction 1 as [|y l Hs IH Hf]; intros H; simpl; [repeat constructor|].
  constructor; [apply IH; intros z Hz; apply H; by right|].
  apply List.Forall_forall. intros z [Hz|[<-|[]]]%in_app_iff; [by eapply List.Forall_forall in Hf|].
  apply H. by left.
Qed.

Lemma StronglySorted_ext_in {A} (R R' : A -> A -> Prop) l :
  (forall x y, In x l -> In y l -> R x y -> R' x y) -> StronglySorted R l -> StronglySorted R' l.
Proof.
  intros H Hs. induction Hs as [|x l Hs IH Hf]; constructor.
  - apply IH. intros a b Ha Hb. apply H; by right.
  - apply List.Forall_forall. intros y Hy. apply H; [by left|by right|]. by eapply List.Forall_forall in Hf.
Qed.

(** [enqueue] as one recursive insertion. *)
Fixpoint insert_before_plain (p : nat -> bool) (i : nat) (q : list nat) : list nat :=
  match q with
  | [] => [i]
  | j :: q' => if p j then j :: insert_before_plain p i q' else i :: j :: q'
  end.

Lemma enqueue_priority ws q i : enqueue ws q i true = insert_before_plain (is_priority ws) i q.
Proof.
  unfold enqueue. induction q as [|j q IH]; simpl; [done|].
  destruct (is_priority ws j); [|done]. rewrite <- IH. by destruct (firstPlain ws q).
Qed.

Lemma insert_before_plain_In p i q x : In x (insert_before_plain p i q) <-> x = i \/ In x q.
Proof.
  induction q as [|j q IH]; simpl; [intuition congruence|].
  destruct (p j); simpl; rewrite ?IH; intuition congruence.
Qed.

Lemma enqueue_In ws q i b x : In x (enqueue ws q i b) <-> x = i \/ In x q.
Proof.
  destruct b; [rewrite enqueue_priority; apply insert_before_plain_In|].
  unfold enqueue. rewrite in_app_iff. simpl. intuition congruence.
Qed.

(** A queue in service order stays so when a later ticket joins. *)
Lemma enqueue_sorted ws q i b w : (forall j, In j q -> (j < i)%nat) -> priority w = b ->
  StronglySorted (served_before (is_priority ws)) q ->
  StronglySorted (served_before (is_priority (<[i := w]> ws))) (enqueue ws q i b).
Proof.
  intros Hlt Hb Hs. set (p' := is_priority (<[i := w]> ws)).
  assert (p' i = b) as Hi by (unfold p', is_priority; by rewrite lookup_insert_eq).
  assert (forall j, In j q -> p' j = is_priority ws j) as Hj.
  { intros j Hin. unfold p', is_priority. by rewrite lookup_insert_ne by (specialize (Hlt j Hin); lia). }
  assert (StronglySorted (served_before p') q) as Hs'.
  { eapply StronglySorted_ext_in; [|exact Hs]. intros x y Hx Hy. unfold served_before. by rewrite !Hj. }
  destruct b.
  - rewrite enqueue_priority. clear Hs. induction Hs' as [|j q Hs IH Hf]; simpl; [repeat constructor|].
    rewrite <- (Hj j) by (by left). destruct (p' j) eqn:Epj.
    + constructor; [apply IH; intros k Hk; [apply Hlt|apply Hj]; by right|].
      apply List.Forall_forall. intros x [->|Hx]%insert_before_plain_In.
      * right. rewrite Epj, Hi. split; [done|]. apply Hlt. by left.
      * by eapply List.Forall_forall in Hf.
    + constructor; [by constructor|]. apply List.Forall_forall. intros x Hx. left. split; [done|].
      destruct Hx as [<-|Hx]; [done|]. eapply List.Forall_forall in Hf; [|exact Hx].
      destruct Hf as [[? _]|[? _]]; congruence.
  - unfold enqueue. apply StronglySorted_snoc; [done|]. intros j Hin. unfold served_before.
    rewrite Hi. destruct (p' j); [by left|]. right. split; [done|]. by apply Hlt.
Qed.

Lemma removeFirst_sorted R i q : StronglySorted R q -> StronglySorted R (removeFirst i q).
Proof.
  induction 1 as [|j q Hs IH Hf]; simpl; [constructor|].
  destruct (Nat.eqb i j); [done|]. constructor; [done|]. apply List.Forall_forall. intros x Hx.
  eapply List.Forall_forall in Hf; [done|]. clear -Hx. induction q as [|k q IH]; simpl in *; [done|].
  destruct (Nat.eqb i k); [by right|]. destruct Hx; [by left|right; auto].
Qed.

Lemma served_before_irrefl p i : ~ served_before p i i.
Proof. intros [[? ?]|[_ ?]]; [congruence|lia]. Qed.

Lemma removeFirst_In p i q x : StronglySorted (served_before p) q ->
  In x (removeFirst i q) <-> In x q /\ x <> i.
Proof.
  induction 1 as [|j q Hs IH Hf]; simpl; [tauto|].
  destruct (Nat.eqb_spec i j) as [->|Hne]; simpl.
  - split; [intros Hx|intros [[->|Hx] Hn]; done]. split; [by right|]. intros ->.
    eapply List.Forall_forall in Hf; [|exact Hx]. by apply served_before_irrefl in Hf.
  - rewrite IH. intuition congruence.
Qed.

(** Settling a waiter changes no priority. *)
Lemma is_priority_settle ws i w j : ws !! i = Some w -> is_priority (<[i := settle w]> ws) j = is_priority ws j.
Proof.
  intros Hw. unfold is_priority. destruct (decide (i = j)) as [->|Hne].
  - by rewrite lookup_insert_eq, Hw.
  - by rewrite lookup_insert_ne.
Qed.

Lemma settle_sorted ws i w q : ws !! i = Some w ->
  StronglySorted (served_before (is_priority ws)) q ->
  StronglySorted (served_before (is_priority (<[i := settle w]> ws))) q.
Proof.
  intros Hw. apply StronglySorted_ext_in. intros x y _ _. unfold served_before. by rewrite !is_priority_settle.
Qed.

(** ** The invariant is preserved *)

(** Case on a lookup in an updated map. *)
Ltac lookups :=
  repeat match goal with
  | H : <[_ := _]> _ !! _ = Some _ |- _ => apply lookup_insert_Some in H
  | H : <[_ := _]> _ !! _ = None |- _ => apply lookup_insert_None in H
  | H : delete _ _ !! _ = Some _ |- _ => apply lookup_delete_Some in H
  | H : delete _ _ !! _ = None |- _ => apply lookup_delete_None in H
  end.

Lemma lock_inv_empty : lock_inv emptySys.
Proof. split; intros; unfold holds, pending in *; simpl in *; rewrite ?lookup_empty in *; done. Qed.

(** Writing the ticket of [i] leaves every other ticket, and a ticket that is neither
    pending nor held matters to no key. *)
Lemma tickets_other reg ws ts n i t k o j : i <> j ->
  tickets (mkSys reg ws (<[i := t]> ts) n) !! j = Some (mkTicket k o) <-> ts !! j = Some (mkTicket k o).
Proof. intros H. simpl. by rewrite lookup_insert_ne. Qed.

Section Preservation.
Context (s : LockSys) (Hinv : lock_inv s).

Lemma live_lt k i : holds s k i \/ pending s k i -> (i < nextTicket s)%nat.
Proof.
  intros H. destruct (Nat.lt_ge_cases i (nextTicket s)) as [?|Hge]; [done|].
  apply (li_fresh s Hinv) in Hge as [Hn _]. unfold holds, pending in H. rewrite Hn in H. by destruct H.
Qed.

Lemma acquire_free_inv key opts : registry s !! key = None -> lock_inv (acquireKeyedLock key opts s).
Proof.
  intros E. unfold acquireKeyedLock. rewrite E. set (i := nextTicket s).
  destruct (li_fresh s Hinv i (Nat.le_refl _)) as [Ht Hw].
  destruct (li_free s Hinv key E i) as [_ _].
  split; unfold holds, pending; simpl.
  - intros j Hj. rewrite lookup_insert_ne by lia. apply (li_fresh s Hinv). lia.
  - intros k Hk j. lookups. destruct Hk as [Hk Hne].
    destruct (li_free s Hinv k Hk j) as [H1 H2]. unfold holds, pending in *.
    split; intros H; lookups; naive_solver.
  - intros k st Hk. lookups. destruct Hk as [[<- <-]|[Hne Hk]].
    + exists i. intros j. rewrite lookup_insert_Some.
      destruct (li_free s Hinv key E j) as [H1 _]. unfold holds in H1. naive_solver.
    + destruct (li_held s Hinv k st Hk) as [h Hh]. exists h. intros j. rewrite <- Hh. unfold holds.
      rewrite lookup_insert_Some. split; [naive_solver|]. intros H. right. split; [congruence|done].
  - intros k st Hk j. rewrite lookup_insert_Some. lookups. destruct Hk as [[<- <-]|[Hne Hk]]; simpl.
    + destruct (li_free s Hinv key E j) as [_ H2]. unfold pending in H2. naive_solver.
    + rewrite (li_queue s Hinv k st Hk). unfold pending. split; [|naive_solver].
      intros H. right. split; [congruence|done].
  - intros k st Hk. lookups. destruct Hk as [[<- <-]|[Hne Hk]]; [constructor|].
    by apply (li_sorted s Hinv k).
  - intros k j H. lookups. destruct H as [[_ ?]|[Hne H]]; [congruence|].
    by apply (li_waiter s Hinv k).
  - intros j w Hj Hg. destruct (li_live s Hinv j w Hj Hg) as [k Hk]. exists k.
    rewrite lookup_insert_ne; [done|congruence].
Qed.

Lemma acquire_aborted_inv key opts st : registry s !! key = Some st -> o_signal opts = Some true ->
  lock_inv (acquireKeyedLock key opts s).
Proof.
  intros E Es. unfold acquireKeyedLock. rewrite E, Es. set (i := nextTicket s).
  destruct (li_fresh s Hinv i (Nat.le_refl _)) as [Ht Hw].
  assert (forall k o j, o <> Rejected AbortReason ->
    <[i := mkTicket key (Rejected AbortReason)]> (tickets s) !! j = Some (mkTicket k o)
    <-> tickets s !! j = Some (mkTicket k o)) as Hsame.
  { intros k o j Ho. rewrite lookup_insert_Some. split; [naive_solver|].
    intros H. right. split; [congruence|done]. }
  split; unfold holds, pending; simpl.
  - intros j Hj. rewrite !lookup_insert_ne by lia. apply (li_fresh s Hinv). lia.
  - intros k Hk j. rewrite !Hsame by done. by apply (li_free s Hinv).
  - intros k st' Hk. setoid_rewrite Hsame; [|done]. by apply (li_held s Hinv k st').
  - intros k st' Hk j. rewrite Hsame by done. by apply (li_queue s Hinv k st').
  - intros k st' Hk. eapply StronglySorted_ext_in; [|by apply (li_sorted s Hinv k)].
    assert (forall x, In x (queue st') -> is_priority (<[i := mkWaiter false (o_owner opts) (o_priority opts) None false]> (waiters s)) x
              = is_priority (waiters s) x) as Hp.
    { intros x Hx. apply (li_queue s Hinv k st' Hk) in Hx. unfold is_priority.
      rewrite lookup_insert_ne; [done|]. pose proof (live_lt k x (or_intror Hx)). lia. }
    intros x y Hx Hy. unfold served_before. by rewrite !Hp.
  - intros k j H. rewrite Hsame in H by done. pose proof (live_lt k j (or_intror H)).
    rewrite lookup_insert_ne by lia. by apply (li_waiter s Hinv k).
  - intros j w Hj Hg. lookups. destruct Hj as [[_ <-]|[Hne Hj]]; [done|].
    destruct (li_live s Hinv j w Hj Hg) as [k Hk]. exists k. by rewrite Hsame.
Qed.

Lemma acquire_queued_inv key opts st : registry s !! key = Some st -> o_signal opts <> Some true ->
  lock_inv (acquireKeyedLock key opts s).
Proof.
  intros E Es. unfold acquireKeyedLock. rewrite E. set (i := nextTicket s).
  destruct (li_fresh s Hinv i (Nat.le_refl _)) as [Ht Hw].
  set (w b := mkWaiter true (o_owner opts) (o_priority opts) (o_timeoutMs opts) b).
  set (s' b := mkSys (<[key := mkLockState (owner st)
                  (enqueue (waiters s) (queue st) i (o_priority opts))]> (registry s))
            (<[i := w b]> (waiters s)) (<[i := mkTicket key Pending]> (tickets s)) (S i)).
  assert (forall b, lock_inv (s' b)) as H; [|destruct (o_signal opts) as [[]|]; [done|apply (H true)|apply (H false)]].
  intros b. split; unfold holds, pending, s'; simpl.
  - intros j Hj. rewrite !lookup_insert_ne by lia. apply (li_fresh s Hinv). lia.
  - intros k Hk j. lookups. destruct Hk as [Hk Hne].
    destruct (li_free s Hinv k Hk j) as [H1 H2]. unfold holds, pending in *.
    split; intros H; lookups; naive_solver.
  - intros k st' Hk. assert (exists st0, registry s !! k = Some st0) as [st0 Hk0].
    { lookups. naive_solver. }
    destruct (li_held s Hinv k st0 Hk0) as [h Hh]. exists h. intros j. rewrite <- Hh. unfold holds.
    rewrite lookup_insert_Some. split; [naive_solver|]. intros H. right. split; [congruence|done].
  - intros k st' Hk j. rewrite lookup_insert_Some. lookups. destruct Hk as [[<- <-]|[Hne Hk]]; simpl.
    + rewrite enqueue_In, (li_queue s Hinv key st E). unfold pending. split.
      * intros [->|H]; [by left|]. right. split; [congruence|done].
      * naive_solver.
    + rewrite (li_queue s Hinv k st' Hk). unfold pending. split; [|naive_solver].
      intros H. right. split; [congruence|done].
  - assert (forall k q, registry s !! k = Some q -> forall j, In j (queue q) -> (j < i)%nat) as Hlt.
    { intros k q Hq j Hj. apply (li_queue s Hinv k q Hq) in Hj. apply (live_lt k). by right. }
    intros k st' Hk. lookups. destruct Hk as [[<- <-]|[Hne Hk]]; simpl.
    + apply enqueue_sorted; [by apply (Hlt key)|done|by apply (li_sorted s Hinv key)].
    + eapply StronglySorted_ext_in; [|by apply (li_sorted s Hinv k)].
      intros x y Hx Hy. pose proof (Hlt k st' Hk x Hx). pose proof (Hlt k st' Hk y Hy).
      unfold served_before, is_priority. by rewrite !lookup_insert_ne by lia.
  - intros k j H. lookups. destruct H as [[<- _]|[Hne H]].
    + rewrite lookup_insert_eq. eauto.
    + rewrite lookup_insert_ne by done. by apply (li_waiter s Hinv k).
  - intros j w' Hj Hg. lookups. destruct Hj as [[<- _]|[Hne Hj]]; [exists key; by rewrite lookup_insert_eq|].
    destruct (li_live s Hinv j w' Hj Hg) as [k Hk]. exists k. by rewrite lookup_insert_ne.
Qed.

Lemma acquire_inv key opts : lock_inv (acquireKeyedLock key opts s).
Proof.
  destruct (registry s !! key) as [st|] eqn:E; [|by apply acquire_free_inv].
  destruct (decide (o_signal opts = Some true)); [by eapply acquire_aborted_inv|by eapply acquire_queued_inv].
Qed.

Lemma giveUp_inv key i w e : tickets s !! i = Some (mkTicket key Pending) -> waiters s !! i = Some w ->
  lock_inv (giveUp key i w e s).
Proof.
  intros Ht Hw. unfold giveUp. destruct (grant w); simpl; [|done].
  destruct (registry s !! key) as [st|] eqn:E; [|by destruct (li_free s Hinv key E i)].
  split; unfold holds, pending; simpl.
  - intros j Hj. pose proof (live_lt key i (or_intror Ht)).
    rewrite !lookup_insert_ne by lia. by apply (li_fresh s Hinv).
  - intros k Hk j. lookups. destruct Hk as [Hk Hne].
    destruct (li_free s Hinv k Hk j) as [H1 H2]. unfold holds, pending in *.
    split; intros H; lookups; naive_solver.
  - intros k st' Hk. assert (exists st0, registry s !! k = Some st0) as [st0 Hk0] by (lookups; naive_solver).
    destruct (li_held s Hinv k st0 Hk0) as [h Hh]. exists h. intros j. rewrite <- Hh. unfold holds.
    rewrite lookup_insert_Some. split; [naive_solver|]. intros H. right. split; [congruence|done].
  - intros k st' Hk j. rewrite lookup_insert_Some. lookups. destruct Hk as [[<- <-]|[Hne Hk]]; simpl.
    + rewrite (removeFirst_In _ _ _ _ (li_sorted s Hinv key st E)), (li_queue s Hinv key st E).
      unfold pending. naive_solver.
    + rewrite (li_queue s Hinv k st' Hk). unfold pending. split; [|naive_solver].
      intros H. right. split; [congruence|done].
  - intros k st' Hk. apply settle_sorted; [done|]. lookups. destruct Hk as [[<- <-]|[Hne Hk]]; simpl.
    + apply removeFirst_sorted. by apply (li_sorted s Hinv key).
    + by apply (li_sorted s Hinv k).
  - intros k j H. lookups. destruct H as [[_ ?]|[Hne H]]; [congruence|].
    rewrite lookup_insert_ne by done. by apply (li_waiter s Hinv k).
  - intros j w' Hj Hg. lookups. destruct Hj as [[_ <-]|[Hne Hj]]; [done|].
    destruct (li_live s Hinv j w' Hj Hg) as [k Hk]. exists k. by rewrite lookup_insert_ne.
Qed.

(** The head of the queue of a held key can always be granted, so the loop of a release
    stops at it. *)
Lemma handOver_head key st ts n :
  registry s !! key = Some st ->
  handOver key (queue st) (mkSys (registry s) (waiters s) ts n) =
  match queue st with
  | [] => mkSys (delete key (registry s)) (waiters s) ts n
  | i :: q' =>
      match waiters s !! i with
      | Some w => mkSys (<[key := mkLockState (w_owner w) q']> (registry s)) (<[i := settle w]> (waiters s))
                    (<[i := mkTicket key (Granted false)]> ts) n
      | None => mkSys (registry s) (waiters s) ts n
      end
  end.
Proof.
  intros E. destruct (queue st) as [|i q] eqn:Eq; [done|].
  assert (pending s key i) as Hp by (apply (li_queue s Hinv key st E); rewrite Eq; by left).
  destruct (li_waiter s Hinv key i Hp) as (w & Hw & Hg). simpl. by rewrite Hw, Hg.
Qed.

(** Freeing a key nobody waits for. *)
Lemma release_last_inv key i st : holds s key i -> registry s !! key = Some st -> queue st = [] ->
  lock_inv (mkSys (delete key (registry s)) (waiters s)
    (<[i := mkTicket key (Granted true)]> (tickets s)) (nextTicket s)).
Proof.
  intros Ht E Eq. pose proof (live_lt key i (or_introl Ht)) as Hlt. unfold holds in Ht.
  destruct (li_held s Hinv key st E) as [h Hh]. assert (i = h) as <- by (by apply Hh).
  pose proof (li_queue s Hinv key st E) as Hq. rewrite Eq in Hq.
  split; unfold holds, pending; simpl.
  - intros j Hj. rewrite lookup_insert_ne by lia. by apply (li_fresh s Hinv).
  - intros k Hk j. rewrite !lookup_insert_Some. lookups. destruct Hk as [<-|Hk].
    + split; [|specialize (Hq j); unfold pending in Hq; simpl in Hq; naive_solver].
      intros [[_ ?]|[Hne H]]; [congruence|]. apply Hh in H. done.
    + destruct (li_free s Hinv k Hk j) as [H1 H2]. unfold holds, pending in *. naive_solver.
  - intros k st' Hk. lookups. destruct Hk as [Hne Hk].
    destruct (li_held s Hinv k st' Hk) as [h Hh']. exists h. intros j. rewrite <- Hh'. unfold holds.
    rewrite lookup_insert_Some. split; [naive_solver|]. intros H. right. split; [congruence|done].
  - intros k st' Hk j. lookups. destruct Hk as [Hne Hk]. rewrite (li_queue s Hinv k st' Hk). unfold pending.
    rewrite lookup_insert_Some. split; [|naive_solver]. intros H. right. split; [congruence|done].
  - intros k st' Hk. lookups. destruct Hk as [Hne Hk]. by apply (li_sorted s Hinv k).
  - intros k j H. lookups. destruct H as [[_ ?]|[Hne H]]; [congruence|]. by apply (li_waiter s Hinv k).
  - intros j w Hj Hg. destruct (li_live s Hinv j w Hj Hg) as [k Hk]. exists k.
    rewrite lookup_insert_ne; [done|]. unfold pending in Hk. congruence.
Qed.

(** Passing a key to the head of its queue. *)
Lemma release_next_inv key i st j q w : holds s key i -> registry s !! key = Some st -> queue st = j :: q ->
  waiters s !! j = Some w ->
  lock_inv (mkSys (<[key := mkLockState (w_owner w) q]> (registry s)) (<[j := settle w]> (waiters s))
    (<[j := mkTicket key (Granted false)]> (<[i := mkTicket key (Granted true)]> (tickets s)))
    (nextTicket s)).
Proof.
  intros Ht E Eq Hw. pose proof (live_lt key i (or_introl Ht)) as Hlt. unfold holds in Ht.
  destruct (li_held s Hinv key st E) as [h Hh]. assert (i = h) as <- by (by apply Hh).
  pose proof (li_queue s Hinv key st E) as Hq. pose proof (li_sorted s Hinv key st E) as Hs.
  rewrite Eq in Hq, Hs. assert (pending s key j) as Hj by (apply Hq; by left).
  pose proof (live_lt key j (or_intror Hj)) as Hltj. inversion Hs as [|? ? Hs' Hf]; subst.
  split; unfold holds, pending in *; simpl.
  - intros l Hl. rewrite !lookup_insert_ne by lia. by apply (li_fresh s Hinv).
  - intros k Hk l. rewrite !lookup_insert_Some. lookups. destruct Hk as [Hk Hne].
    destruct (li_free s Hinv k Hk l) as [H1 H2]. unfold holds, pending in *. naive_solver.
  - intros k st' Hk. lookups. destruct Hk as [[<- <-]|[Hne Hk]].
    + exists j. intros l. rewrite !lookup_insert_Some. split; [|naive_solver].
      intros [[? _]|[Hn [[_ ?]|[Hn' H]]]]; [done|congruence|]. apply Hh in H. done.
    + destruct (li_held s Hinv k st' Hk) as [h Hh']. exists h. intros l. rewrite <- Hh'. unfold holds.
      rewrite !lookup_insert_Some. split; [naive_solver|].
      intros H. right. split; [congruence|]. right. split; [congruence|done].
  - intros k st' Hk l. rewrite !lookup_insert_Some. lookups. destruct Hk as [[<- <-]|[Hne Hk]]; simpl.
    + specialize (Hq l). simpl in Hq. split.
      * intros Hl. right. split.
        -- intros ->. eapply List.Forall_forall in Hf; [|exact Hl]. by apply served_before_irrefl in Hf.
        -- right. assert (tickets s !! l = Some (mkTicket key Pending)) by (apply Hq; by right).
           split; [congruence|done].
      * intros [[_ ?]|[Hn [[_ ?]|[Hn' H]]]]; [congruence|congruence|]. apply Hq in H as [?|?]; done.
    + rewrite (li_queue s Hinv k st' Hk). unfold pending. split; [|naive_solver].
      intros H. right. split; [congruence|]. right. split; [congruence|done].
  - intros k st' Hk. apply settle_sorted; [done|]. lookups. destruct Hk as [[<- <-]|[Hne Hk]]; [done|].
    by apply (li_sorted s Hinv k).
  - intros k l H. lookups. destruct H as [[_ ?]|[Hn H]]; [congruence|]. lookups.
    destruct H as [[_ ?]|[Hn' H]]; [congruence|]. rewrite lookup_insert_ne by done.
    by apply (li_waiter s Hinv k).
  - intros l w' Hl Hg. lookups. destruct Hl as [[_ <-]|[Hn Hl]]; [done|].
    destruct (li_live s Hinv l w' Hl Hg) as [k Hk]. exists k. unfold pending in Hk.
    rewrite !lookup_insert_ne by congruence. done.
Qed.

Lemma release_inv i : lock_inv (release i s).
Proof.
  unfold release. destruct (tickets s !! i) as [[key []]|] eqn:Ht; try done.
  destruct released; [done|]. simpl.
  destruct (registry s !! key) as [st|] eqn:E; [|by destruct (li_free s Hinv key E i)].
  rewrite handOver_head by done. destruct (queue st) as [|j q] eqn:Eq; [by eapply release_last_inv|].
  assert (pending s key j) as Hj by (apply (li_queue s Hinv key st E); rewrite Eq; by left).
  destruct (li_waiter s Hinv key j Hj) as (w & Hw & _). rewrite Hw. by eapply release_next_inv.
Qed.

Lemma expire_inv i t w e : tickets s !! i = Some t -> waiters s !! i = Some w ->
  lock_inv (giveUp (t_key t) i w e s).
Proof.
  intros Ht Hw. destruct (grant w) eqn:Hg; [|unfold giveUp; by rewrite Hg].
  destruct (li_live s Hinv i w Hw Hg) as [k Hk]. unfold pending in Hk. simplify_eq. by apply giveUp_inv.
Qed.

Lemma lockStep_inv e : lock_inv (lockStep s e).
Proof.
  destruct e; simpl; [by apply acquire_inv| | |by apply release_inv].
  - unfold timerFires. repeat case_match; try done. by apply expire_inv.
  - unfold signalAborts. repeat case_match; try done. by apply expire_inv.
Qed.
End Preservation.

Lemma lockRun_inv evs : lock_inv (lockRun evs).
Proof.
  unfold lockRun. generalize lock_inv_empty. generalize emptySys.
  induction evs as [|e evs IH]; intros s Hs; simpl; [done|]. by apply IH, lockStep_inv.
Qed.

(** ** Theorems *)

(** C27. Mutual exclusion and no stranded waiter: whatever acquires, timeouts, aborts and
    releases have happened, two calls never hold one key together; a key someone waits for
    is held, so a release that serves the waiter is still to come; and the registry keeps
    an entry exactly for the keys that are held, so it does not grow. *)
Theorem lock_exclusive (evs : list LockEvent) (key : string) :
  let s := lockRun evs in
  (forall i j, holds s key i -> holds s key j -> i = j) /\
  ((exists i, pending s key i) -> exists h, holds s key h) /\
  (is_Some (registry s !! key) <-> exists h, holds s key h).
Proof.
  intros s. pose proof (lockRun_inv evs) as Hi. fold s in Hi.
  destruct (registry s !! key) as [st|] eqn:E.
  - destruct (li_held s Hi key st E) as [h Hh]. split_and!.
    + intros i j H1%Hh H2%Hh. congruence.
    + intros _. exists h. by apply Hh.
    + split; [|eauto]. intros _. exists h. by apply Hh.
  - pose proof (li_free s Hi key E) as Hf. split_and!.
    + intros i j H. by destruct (Hf i).
    + intros [i H]. by destruct (Hf i).
    + split; [by intros [? ?]|]. intros [h H]. by destruct (Hf h).
Qed.

(** What a release does when its caller holds the key. *)
Lemma release_spec s i key : lock_inv s -> holds s key i ->
  (forall k j, pending (release i s) k j <-> pending s k j /\ ~ holds (release i s) k j) /\
  (((forall j, ~ pending s key j) /\ registry (release i s) !! key = None) \/
   exists j w, pending s key j /\ waiters s !! j = Some w /\ holds (release i s) key j /\
     currentOwner (release i s) key = w_owner w /\
     forall j', pending s key j' -> j' = j \/ served_before (is_priority (waiters s)) j j').
Proof.
  intros Hi Ht. unfold release. unfold holds in Ht. rewrite Ht. simpl.
  destruct (registry s !! key) as [st|] eqn:E; [|by destruct (li_free s Hi key E i)].
  rewrite (handOver_head s Hi) by done.
  pose proof (li_queue s Hi key st E) as Hq. pose proof (li_sorted s Hi key st E) as Hs.
  destruct (queue st) as [|j q] eqn:Eq.
  - split.
    + intros k j. unfold pending, holds. simpl. rewrite !lookup_insert_Some.
      split; [|naive_solver]. intros [[_ ?]|[Hn H]]; [congruence|]. split; [done|]. naive_solver.
    + left. split; [|simpl; apply lookup_delete_eq]. intros j Hj. by apply Hq in Hj.
  - assert (pending s key j) as Hj by (apply Hq; by left).
    destruct (li_waiter s Hi key j Hj) as (w & Hw & _). rewrite Hw. split.
    + intros k l. unfold pending, holds in *. simpl. rewrite !lookup_insert_Some. split.
      * intros [[_ ?]|[Hn [[_ ?]|[Hn' H]]]]; [congruence|congruence|]. split; [done|]. naive_solver.
      * intros [Hp Hnh]. right. destruct (decide (j = l)) as [->|Hn].
        { destruct Hnh. left. split; [done|]. congruence. }
        split; [done|]. right. split; [congruence|done].
    + right. exists j, w. split_and!; [done|done| | |].
      * unfold holds. simpl. by rewrite lookup_insert_eq.
      * unfold currentOwner. simpl. by rewrite lookup_insert_eq.
      * intros j' Hj'%Hq. inversion Hs as [|? ? _ Hf]; subst. destruct Hj' as [->|Hj']; [by left|].
        right. by eapply List.Forall_forall in Hf.
Qed.

(** A release hands the key to the right waiter: to the earliest priority waiter if
    there is one, else to the earliest plain one, whose label becomes the owner's; only
    that waiter stops waiting; and the key is dropped when nobody waits. *)
Theorem release_hands_over (evs : list LockEvent) (key : string) (i : nat) :
  let s := lockRun evs in holds s key i ->
  let s' := release i s in
  (forall k j, pending s' k j <-> pending s k j /\ ~ holds s' k j) /\
  (((forall j, ~ pending s key j) /\ registry s' !! key = None) \/
   exists j w, pending s key j /\ waiters s !! j = Some w /\ holds s' key j /\
     currentOwner s' key = w_owner w /\
     forall j', pending s key j' -> j' = j \/ served_before (is_priority (waiters s)) j j').
Proof. intros s H. apply release_spec; [apply lockRun_inv|done]. Qed.

Lemma lockStep_settled s e i k o : lock_inv s -> tickets s !! i = Some (mkTicket k o) -> o <> Pending ->
  tickets (lockStep s e) !! i = Some (mkTicket k o) \/
  (o = Granted false /\ e = Release i /\ tickets (lockStep s e) !! i = Some (mkTicket k (Granted true))).
Proof.
  intros Hi Ht Ho.
  assert (forall j t w er, tickets s !! j = Some t -> waiters s !! j = Some w ->
    tickets (giveUp (t_key t) j w er s) !! i = Some (mkTicket k o)) as Hgive.
  { intros j t w er Hj Hw. unfold giveUp. destruct (grant w) eqn:Hg; simpl; [|done].
    destruct (li_live s Hi j w Hw Hg) as [k' Hk']. unfold pending in Hk'.
    rewrite lookup_insert_ne; [done|congruence]. }
  destruct e as [key opts|j|j|j]; simpl.
  - left. destruct (li_fresh s Hi (nextTicket s) (Nat.le_refl _)) as [Hf _].
    unfold acquireKeyedLock. repeat case_match; simpl; (rewrite lookup_insert_ne; [done|congruence]).
  - left. unfold timerFires. repeat case_match; try done. by apply Hgive.
  - left. unfold signalAborts. repeat case_match; try done. by apply Hgive.
  - unfold release. destruct (tickets s !! j) as [[key []]|] eqn:Hj; try by left.
    destruct released; [by left|]. simpl.
    destruct (registry s !! key) as [st|] eqn:E; [|by destruct (li_free s Hi key E j)].
    rewrite (handOver_head s Hi) by done.
    assert (<[j := mkTicket key (Granted true)]> (tickets s) !! i = Some (mkTicket k o) \/
      o = Granted false /\ Release j = Release i /\
      <[j := mkTicket key (Granted true)]> (tickets s) !! i = Some (mkTicket k (Granted true))) as H.
    { destruct (decide (j = i)) as [->|Hn]; [|left; by rewrite lookup_insert_ne].
      right. rewrite lookup_insert_eq. naive_solver. }
    destruct (queue st) as [|l q] eqn:Eq; [done|].
    assert (pending s key l) as Hl by (apply (li_queue s Hi key st E); rewrite Eq; by left).
    destruct (li_waiter s Hi key l Hl) as (w & Hw & _). rewrite Hw. simpl. unfold pending in Hl.
    rewrite lookup_insert_ne by congruence. done.
Qed.

(** A promise settles once: a waiter that timed out or aborted is never given the
    lock later, a granted call stays granted, and a release function that was called once
    does nothing the second time, whoever holds the key by then. *)
Theorem settled_is_final (evs evs' : list LockEvent) (i : nat) (k : string) (o : Outcome) :
  tickets (lockRun evs) !! i = Some (mkTicket k o) -> o <> Pending ->
  let s' := fold_left lockStep evs' (lockRun evs) in
  (tickets s' !! i = Some (mkTicket k o) \/
   (o = Granted false /\ In (Release i) evs' /\ tickets s' !! i = Some (mkTicket k (Granted true)))) /\
  (o = Granted true -> release i s' = s').
Proof.
  intros Ht Ho s'.
  assert (tickets s' !! i = Some (mkTicket k o) \/
   (o = Granted false /\ In (Release i) evs' /\ tickets s' !! i = Some (mkTicket k (Granted true)))) as H.
  { unfold s'. clear s'. pose proof (lockRun_inv evs) as Hi. revert Hi Ht Ho. generalize (lockRun evs), o. clear.
    induction evs' as [|e evs' IH]; intros s o Hi Ht Ho; simpl; [by left|].
    pose proof (lockStep_inv s Hi e) as Hi'.
    destruct (lockStep_settled s e i k o Hi Ht Ho) as [H|(-> & -> & H)].
    - destruct (IH _ o Hi' H Ho) as [?|(? & ? & ?)]; [by left|right]. split_and!; [done|by right|done].
    - right. split_and!; [done|by left|]. destruct (IH _ (Granted true) Hi' H) as [?|(? & _)]; done. }
  split; [done|]. intros ->. destruct H as [H|(? & _)]; [|done]. unfold release. by rewrite H.
Qed.

(** ** Liveness *)

(** Whoever holds the key now releases it. *)
Definition releases_holder (key : string) (s s' : LockSys) : Prop :=
  exists h, holds s key h /\ s' = release h s.

Lemma release_queue s h key j st : lock_inv s -> holds s key h -> registry s !! key = Some st ->
  pending s key j ->
  holds (release h s) key j \/
  (pending (release h s) key j /\ exists st', registry (release h s) !! key = Some st' /\
     S (length (queue st')) = length (queue st)).
Proof.
  intros Hi Hh E Hj. destruct (release_spec s h key Hi Hh) as [Hp Hcase].
  destruct Hcase as [[Hn _]|(j0 & w & Hj0 & Hw & Hh' & _ & _)]; [by destruct (Hn j)|].
  destruct (decide (j0 = j)) as [->|Hne]; [by left|]. right.
  assert (~ holds (release h s) key j) as Hnj.
  { intros Hx. pose proof (release_inv s Hi h) as Hi'.
    destruct (registry (release h s) !! key) as [st'|] eqn:E'; [|by destruct (li_free _ Hi' key E' j)].
    destruct (li_held _ Hi' key st' E') as [h' Hh1]. apply Hh1 in Hx. apply Hh1 in Hh'. congruence. }
  split; [apply Hp; done|]. unfold release. unfold holds in Hh. rewrite Hh. simpl. rewrite E.
  rewrite (handOver_head s Hi) by done.
  pose proof (li_queue s Hi key st E j) as Hq. destruct (queue st) as [|l q] eqn:Eq; [by apply Hq in Hj|].
  assert (pending s key l) as Hl by (apply (li_queue s Hi key st E); rewrite Eq; by left).
  destruct (li_waiter s Hi key l Hl) as (w' & Hw' & _). rewrite Hw'. simpl. rewrite lookup_insert_eq. eauto.
Qed.

(** Every waiter is served: if holders keep releasing, a call that waits for a key
    holds it after at most as many releases as there are calls in its queue. *)
Theorem waiter_served (evs : list LockEvent) (key : string) (j : nat) (st : LockState) :
  registry (lockRun evs) !! key = Some st -> pending (lockRun evs) key j ->
  exists n s', (n <= length (queue st))%nat /\ nsteps (releases_holder key) n (lockRun evs) s' /\
    holds s' key j.
Proof.
  generalize (lockRun_inv evs). generalize (lockRun evs). intros s Hi E Hj. clear evs.
  remember (length (queue st)) as n eqn:En. revert s st Hi E Hj En.
  induction n as [|n IH]; intros s st Hi E Hj En.
  { apply (li_queue s Hi key st E) in Hj. destruct (queue st); [done|]. simpl in En. lia. }
  destruct (li_held s Hi key st E) as [h Hh]. assert (holds s key h) as Hhold by (by apply Hh).
  destruct (release_queue s h key j st Hi Hhold E Hj) as [Hdone|(Hp & st' & E' & Hlen)].
  - exists 1%nat, (release h s). split; [lia|]. split; [|done]. apply nsteps_once. by exists h.
  - destruct (IH (release h s) st') as (m & s' & Hm & Hsteps & Hfin); [by apply release_inv|done|done|lia|].
    exists (S m), s'. split; [lia|]. split; [|done]. econstructor; [|exact Hsteps]. by exists h.
Qed.

(** ** Witnesses *)

Definition plainOpts : AcquireOptions := mkOptions None false None None.
Definition urgentOpts : AcquireOptions := mkOptions (Some (OwnerName "person")) true None (Some 500).

Definition ex_contended : list LockEvent :=
  [Acquire "repo" plainOpts; Acquire "repo" plainOpts; Acquire "repo" urgentOpts].

Lemma release_hands_over_witness :
  holds (release 0 (lockRun ex_contended)) "repo" 2 /\
  currentOwner (release 0 (lockRun ex_contended)) "repo" = Some (OwnerName "person").
Proof.
  destruct (release_hands_over ex_contended "repo" 0 eq_refl) as [_ [[Hn _]|(j & w & Hj & Hw & Hh & Ho & Hb)]].
  - destruct (Hn 2%nat). reflexivity.
  - destruct (Hb 2%nat eq_refl) as [<-|Hs].
    + split; [done|]. rewrite Ho. vm_compute in Hw. by injection Hw as <-.
    + exfalso. destruct Hs as [[_ Hs]|[Hs Hlt]]; [by vm_compute in Hs|].
      assert (j = 0 \/ j = 1)%nat as [-> | ->] by lia; [by vm_compute in Hj|by vm_compute in Hs].
Defined.

Lemma settled_is_final_witness :
  tickets (fold_left lockStep [Release 0; Release 1] (lockRun (ex_contended ++ [TimerFires 2]))) !! 2%nat
  = Some (mkTicket "repo" (Rejected (KeyedLockTimeoutError "repo" 500 None))).
Proof.
  destruct (settled_is_final (ex_contended ++ [TimerFires 2]) [Release 0; Release 1] 2 "repo"
    (Rejected (KeyedLockTimeoutError "repo" 500 None)) eq_refl) as [[H|(? & _)] _]; done.
Defined.

Lemma waiter_served_witness :
  exists n s', (n <= 2)%nat /\ nsteps (releases_holder "repo") n (lockRun ex_contended) s' /\ holds s' "repo" 1.
Proof.
  exact (waiter_served ex_contended "repo" 1 (mkLockState None [2; 1]%nat) eq_refl eq_refl).
Defined.
