(* ===== verification/BoundedMap.v ===== *)
(** * The size-bounded map

    A model of [packages/server/src/lib/bounded-map.ts]. A JavaScript [Map] is its
    list of entries in insertion order; a stored [undefined] is the value [None]. *)
From Stdlib Require Import ZArith Lia List.
From stdpp Require Import base list.
From S2P Require Import Prelude.

Open Scope Z_scope.

Section BoundedMap.
Context {K V : Type} `{!EqDecision K}.

(** ** The language's [Map] *)

Definition Entries := list (K * option V).

Fixpoint jsGet (key : K) (m : Entries) : option (option V) :=
  match m with
  | [] => None
  | (k, v) :: m' => if bool_decide (k = key) then Some v else jsGet key m'
  end.

Definition jsHas (key : K) (m : Entries) : bool :=
  match jsGet key m with Some _ => true | None => false end.

Definition jsDelete (key : K) (m : Entries) : Entries :=
  List.filter (fun e => negb (bool_decide (fst e = key))) m.

Fixpoint jsSet (key : K) (value : option V) (m : Entries) : Entries :=
  match m with
  | [] => [(key, value)]
  | (k, v) :: m' => if bool_decide (k = key) then (k, value) :: m' else (k, v) :: jsSet key value m'
  end.

Definition keys (m : Entries) : list K := List.map fst m.

(** ** [BoundedMap] *)

Inductive BoundedMapError := RequiresPositiveSize.

Record BMap := mkBMap { maxSize : Z; entries : Entries }.

Definition newBoundedMap (max : Z) : result BoundedMapError BMap :=
  if max <? 1 then Throw RequiresPositiveSize else Ok (mkBMap max []).

Definition bget (key : K) (b : BMap) : BMap * option V :=
  match jsGet key (entries b) with
  | None | Some None => (b, None)
  | Some (Some value) =>
      (mkBMap (maxSize b) (jsSet key (Some value) (jsDelete key (entries b))), Some value)
  end.

Definition bhas (key : K) (b : BMap) : bool := jsHas key (entries b).

(** [while (entries.size > maxSize) entries.delete(first key)]: every turn drops the first
    entry, so the list itself is the fuel. *)
Fixpoint evict (max : Z) (m : Entries) : Entries :=
  match m with
  | [] => []
  | _ :: m' => if Z.of_nat (length m) >? max then evict max m' else m
  end.

Definition bset (key : K) (value : option V) (b : BMap) : BMap :=
  let m := if jsHas key (entries b) then jsDelete key (entries b) else entries b in
  mkBMap (maxSize b) (evict (maxSize b) (jsSet key value m)).

Definition bdelete (key : K) (b : BMap) : BMap * bool :=
  (mkBMap (maxSize b) (jsDelete key (entries b)), jsHas key (entries b)).

Definition bclear (b : BMap) : BMap := mkBMap (maxSize b) [].

Definition bsize (b : BMap) : Z := Z.of_nat (length (entries b)).

Inductive BOp := OGet (k : K) | OSet (k : K) (v : option V) | ODelete (k : K) | OClear.

Definition bstep (b : BMap) (o : BOp) : BMap :=
  match o with
  | OGet k => fst (bget k b)
  | OSet k v => bset k v b
  | ODelete k => fst (bdelete k b)
  | OClear => bclear b
  end.

Definition brun (max : Z) (ops : list BOp) : BMap := fold_left bstep ops (mkBMap max []).

(** ** Specification: the value last written, if nothing removed it since *)

Definition written (key : K) (acc : option (option V)) (o : BOp) : option (option V) :=
  match o with
  | OGet _ => acc
  | OSet k v => if bool_decide (k = key) then Some v else acc
  | ODelete k => if bool_decide (k = key) then None else acc
  | OClear => None
  end.

Definition lastWritten (key : K) (ops : list BOp) : option (option V) :=
  fold_left (written key) ops None.

(** The keys a sequence of operations can make more recent. *)
Definition touches (o : BOp) : list K :=
  match o with
  | OGet k | OSet k _ => [k]
  | _ => []
  end.

Definition spares (key : K) (o : BOp) : bool :=
  match o with
  | OGet _ => true
  | OSet k _ | ODelete k => negb (bool_decide (k = key))
  | OClear => false
  end.

(** ** Lemmas *)

Lemma jsGet_In key m v : jsGet key m = Some v -> In (key, v) m.
Proof.
  induction m as [|[k w] m IH]; simpl; [done|]. case_bool_decide; [|auto]. intros [= ->]. subst. by left.
Qed.

Lemma jsGet_not_In key m : ~ In key (keys m) -> jsGet key m = None.
Proof.
  induction m as [|[k w] m IH]; simpl; [done|]. intros H. rewrite bool_decide_false by tauto. apply IH. tauto.
Qed.

Lemma jsSet_fresh key v m : ~ In key (keys m) -> jsSet key v m = m ++ [(key, v)].
Proof.
  induction m as [|[k w] m IH]; simpl; [done|]. intros H. rewrite bool_decide_false by tauto.
  f_equal. apply IH. tauto.
Qed.

Lemma jsDelete_keys key m x : In x (keys (jsDelete key m)) <-> In x (keys m) /\ x <> key.
Proof.
  unfold keys, jsDelete. rewrite !in_map_iff. split.
  - intros ([k v] & <- & [Hin Hb]%filter_In). simpl in *. apply negb_true_iff, bool_decide_eq_false in Hb.
    split; [by exists (k, v)|done].
  - intros [([k v] & <- & Hin) Hne]. exists (k, v). split; [done|]. apply filter_In. split; [done|].
    by apply negb_true_iff, bool_decide_eq_false.
Qed.

Lemma jsDelete_absent key m : ~ In key (keys m) -> jsDelete key m = m.
Proof.
  induction m as [|[k v] m IH]; simpl; [done|]. intros H.
  rewrite bool_decide_false by tauto. simpl. f_equal. apply IH. tauto.
Qed.

Lemma jsDelete_length key m : (length (jsDelete key m) <= length m)%nat.
Proof. apply filter_length_le. Qed.

Lemma jsDelete_present_length key m : In key (keys m) -> (length (jsDelete key m) < length m)%nat.
Proof.
  induction m as [|[k v] m IH]; simpl; [done|]. case_bool_decide as E; simpl.
  - intros _. pose proof (jsDelete_length key m). unfold jsDelete in *. lia.
  - intros [?|H]; [done|]. apply IH in H. unfold jsDelete in *. lia.
Qed.

Lemma jsDelete_get key m k : k <> key -> jsGet k (jsDelete key m) = jsGet k m.
Proof.
  intros Hne. induction m as [|[k' v] m IH]; simpl; [done|].
  destruct (decide (k' = key)) as [->|Hk]; simpl.
  - rewrite bool_decide_true by done. simpl. rewrite bool_decide_false by congruence. done.
  - rewrite bool_decide_false by done. simpl. by case_bool_decide.
Qed.

Lemma NoDup_jsDelete key m : List.NoDup (keys m) -> List.NoDup (keys (jsDelete key m)).
Proof.
  induction m as [|[k v] m IH]; simpl; [done|]. intros Hnd. inversion Hnd as [|? ? Hn Hd]; subst.
  destruct (negb (bool_decide (k = key))); simpl; [|by apply IH].
  constructor; [|by apply IH]. intros H. by apply jsDelete_keys in H as [H _].
Qed.

(** Both writes are: remove the key, put it last, evict. *)
Definition refreshed (key : K) (v : option V) (m : Entries) : Entries := jsDelete key m ++ [(key, v)].

Lemma bset_entries key v b : entries (bset key v b) = evict (maxSize b) (refreshed key v (entries b)).
Proof.
  unfold bset, refreshed, jsHas. simpl.
  destruct (jsGet key (entries b)) as [w|] eqn:E.
  - rewrite jsSet_fresh; [done|]. intros H. by apply jsDelete_keys in H as [_ H].
  - assert (~ In key (keys (entries b))) as Hn.
    { intros H. clear -E H. induction (entries b) as [|[k w] m IH]; simpl in *; [done|].
      case_bool_decide; [done|]. destruct H; [done|auto]. }
    rewrite jsSet_fresh, jsDelete_absent by done. done.
Qed.

Lemma bget_entries key b :
  entries (fst (bget key b)) = match jsGet key (entries b) with
                               | Some (Some v) => refreshed key (Some v) (entries b)
                               | _ => entries b
                               end.
Proof.
  unfold bget, refreshed. destruct (jsGet key (entries b)) as [[v|]|]; simpl; try done.
  rewrite jsSet_fresh; [done|]. intros H. by apply jsDelete_keys in H as [_ H].
Qed.

Lemma refreshed_NoDup key v m : List.NoDup (keys m) -> List.NoDup (keys (refreshed key v m)).
Proof.
  intros H. unfold refreshed, keys. rewrite map_app. simpl. apply List.NoDup_app.
  - by apply NoDup_jsDelete.
  - repeat constructor. by intros [].
  - intros x Hx [<-|[]]. by apply jsDelete_keys in Hx as [_ ?].
Qed.

Lemma refreshed_get key v m k :
  jsGet k (refreshed key v m) = if bool_decide (key = k) then Some v else jsGet k m.
Proof.
  unfold refreshed. assert (forall m', ~ In key (keys m') ->
    jsGet k (m' ++ [(key, v)]) = if bool_decide (key = k) then Some v else jsGet k m') as Happ.
  { intros m'. induction m' as [|[k' w] m' IH]; simpl; intros Hn; [done|].
    rewrite IH by tauto. repeat case_bool_decide; try done. subst. tauto. }
  rewrite Happ by (intros H; by apply jsDelete_keys in H as [_ ?]).
  case_bool_decide; [done|]. by apply jsDelete_get.
Qed.

(** The eviction loop in closed form: keep the last [max] entries. *)
Lemma evict_drop max m : 0 <= max -> evict max m = drop (length m - Z.to_nat max) m.
Proof.
  intros H. induction m as [|e m IH]; [by rewrite drop_nil|]. cbn [evict].
  destruct (Z.gtb_spec (Z.of_nat (length (e :: m))) max) as [Hgt|Hle]; cbn [length] in *.
  - rewrite IH. replace (S (length m) - Z.to_nat max)%nat with (S (length m - Z.to_nat max)) by lia. done.
  - by replace (S (length m) - Z.to_nat max)%nat with 0%nat by lia.
Qed.

Lemma evict_get max m k v : 0 <= max -> List.NoDup (keys m) ->
  jsGet k (evict max m) = Some v -> jsGet k m = Some v.
Proof.
  intros H Hnd. rewrite evict_drop by done. generalize (length m - Z.to_nat max)%nat. intros n.
  revert n. induction m as [|[k' w] m IH]; intros [|n]; simpl; try done.
  inversion Hnd as [|? ? Hn Hd]; subst. intros Hg. case_bool_decide as Ek; [|by eapply IH].
  subst. destruct Hn. apply jsGet_In in Hg. apply (in_map fst) in Hg. simpl in Hg. unfold keys.
  clear -Hg. rewrite <- (take_drop n m), map_app, in_app_iff. by right.
Qed.

Record bm_inv (b : BMap) : Prop := {
  bi_max : 1 <= maxSize b;
  bi_size : bsize b <= maxSize b;
  bi_nodup : List.NoDup (keys (entries b))
}.

Lemma NoDup_drop_keys n (m : Entries) : List.NoDup (keys m) -> List.NoDup (keys (drop n m)).
Proof.
  intros H. rewrite <- (take_drop n m) in H. unfold keys in *. rewrite map_app in H.
  by apply List.NoDup_app_remove_l in H.
Qed.

Lemma bstep_inv b o : bm_inv b -> bm_inv (bstep b o).
Proof.
  intros [Hm Hs Hd]. unfold bsize in Hs. destruct o as [k|k v|k|]; simpl.
  - split; [by unfold bget; case_match; [case_match|]| |].
    + unfold bsize. rewrite bget_entries.
      assert (maxSize (fst (bget k b)) = maxSize b) as -> by (unfold bget; by repeat case_match).
      destruct (jsGet k (entries b)) as [[v|]|] eqn:E; try done. unfold refreshed. rewrite length_app. simpl.
      apply jsGet_In, (in_map fst), jsDelete_present_length in E. simpl in E. lia.
    + rewrite bget_entries. repeat case_match; try done. by apply refreshed_NoDup.
  - split; [done| |].
    + unfold bsize. rewrite bset_entries. simpl. rewrite evict_drop, length_drop by lia. lia.
    + rewrite bset_entries, evict_drop by lia. by apply NoDup_drop_keys, refreshed_NoDup.
  - split; simpl; [done| |by apply NoDup_jsDelete]. unfold bsize. simpl.
    pose proof (jsDelete_length k (entries b)). lia.
  - split; simpl; [done|unfold bsize; simpl; lia|constructor].
Qed.

Lemma brun_inv max ops : 1 <= max -> bm_inv (brun max ops).
Proof.
  intros H. unfold brun. assert (bm_inv (mkBMap max [])) as Hi.
  { split; simpl; [done|unfold bsize; simpl; lia|constructor]. }
  revert Hi. generalize (mkBMap max []). induction ops as [|o ops IH]; intros b Hb; simpl; [done|].
  by apply IH, bstep_inv.
Qed.

Lemma brun_maxSize max ops : maxSize (brun max ops) = max.
Proof.
  unfold brun. change max with (maxSize (mkBMap max [])) at 2. generalize (mkBMap max []).
  induction ops as [|o ops IH]; intros b; simpl; [done|]. rewrite IH.
  destruct o; simpl; try done. unfold bget. by repeat case_match.
Qed.

(** One step never shows a value other than the one written last. *)
Lemma bstep_fresh b o key (acc : option (option V)) : bm_inv b ->
  (forall v, jsGet key (entries b) = Some v -> acc = Some v) ->
  forall v, jsGet key (entries (bstep b o)) = Some v -> written key acc o = Some v.
Proof.
  intros [Hm Hs Hd] Hacc v. destruct o as [k|k w|k|]; cbn [bstep written].
  - rewrite bget_entries. destruct (jsGet k (entries b)) as [[u|]|] eqn:E; try apply Hacc.
    rewrite refreshed_get. case_bool_decide; [|apply Hacc]. subst. intros [= <-]. by apply Hacc.
  - rewrite bset_entries. intros H. apply evict_get in H; [|lia|by apply refreshed_NoDup].
    rewrite refreshed_get in H. case_bool_decide; [congruence|by apply Hacc].
  - simpl. intros H. destruct (decide (k = key)) as [->|Hne].
    + exfalso. apply jsGet_In, (in_map fst) in H. by apply jsDelete_keys in H as [_ ?].
    + rewrite bool_decide_false by done. apply Hacc. by rewrite jsDelete_get in H by done.
  - done.
Qed.

(** The map never holds more than [maxSize] entries, never two for one key, and a
    hit is always the value last written under that key: an entry that was deleted,
    cleared or overwritten is never read again. *)
Theorem bounded_and_fresh (max : Z) (ops : list BOp) (key : K) :
  1 <= max ->
  let b := brun max ops in
  bsize b <= max /\ List.NoDup (keys (entries b)) /\
  (forall v, snd (bget key b) = Some v -> lastWritten key ops = Some (Some v)) /\
  (bhas key b = true -> lastWritten key ops <> None).
Proof.
  intros Hmax b. pose proof (brun_inv max ops Hmax) as Hi. fold b in Hi.
  assert (forall v, jsGet key (entries b) = Some v -> lastWritten key ops = Some v) as Hf.
  { unfold b, brun, lastWritten. clear b Hi. assert (bm_inv (mkBMap max [])) as H0 by exact (brun_inv max [] Hmax).
    assert (forall v, jsGet key (entries (mkBMap max [])) = Some v -> (None : option (option V)) = Some v) as H1 by done.
    revert H0 H1. generalize (mkBMap max []), (None : option (option V)).
    induction ops as [|o ops IH]; intros b0 acc H0 H1; cbn [fold_left]; [done|].
    apply IH; [by apply bstep_inv|]. by apply bstep_fresh. }
  split_and!.
  - unfold b in *. rewrite <- (brun_maxSize max ops) at 2. by apply bi_size.
  - by apply bi_nodup.
  - intros v. unfold bget. destruct (jsGet key (entries b)) as [[w|]|]; simpl; try done.
    intros [= <-]. by apply Hf.
  - unfold bhas, jsHas. destruct (jsGet key (entries b)) as [w|]; [|done]. by rewrite (Hf w eq_refl).
Qed.

(** ** Retention *)

(** The entry of [key] is there, and everything more recent than it was touched since. *)
Definition retained (key : K) (v : V) (touched : list K) (m : Entries) : Prop :=
  exists l1 l2, m = l1 ++ (key, Some v) :: l2 /\ forall x, In x (keys l2) -> In x touched.

Lemma jsDelete_app key l1 l2 : jsDelete key (l1 ++ l2) = jsDelete key l1 ++ jsDelete key l2.
Proof. apply List.filter_app. Qed.

Lemma retained_refresh key v T m k w : k <> key -> retained key v T m ->
  retained key v (T ++ [k]) (refreshed k w m).
Proof.
  intros Hne (l1 & l2 & -> & HT). unfold refreshed. rewrite jsDelete_app. simpl.
  rewrite bool_decide_false by congruence. simpl. exists (jsDelete k l1), (jsDelete k l2 ++ [(k, w)]).
  split; [by rewrite <- app_assoc|]. intros x. unfold keys. rewrite map_app, !in_app_iff. simpl.
  intros [Hx|[<-|[]]]; [|tauto]. left. by apply jsDelete_keys in Hx as [Hx _]; auto.
Qed.

Lemma retained_get key v T m : List.NoDup (keys m) -> retained key v T m -> jsGet key m = Some (Some v).
Proof.
  intros Hnd (l1 & l2 & -> & _). unfold keys in Hnd. rewrite map_app in Hnd. simpl in Hnd.
  apply NoDup_remove_2 in Hnd. rewrite in_app_iff in Hnd. clear -Hnd.
  induction l1 as [|[k w] l1 IH]; simpl in *; [by rewrite bool_decide_true|].
  rewrite bool_decide_false by tauto. apply IH. tauto.
Qed.

(** How many keys other than [key] a list mentions. *)
Definition others (key : K) (T : list K) : Z :=
  Z.of_nat (length (nodup (fun x y => decide (x = y))
    (List.filter (fun x => negb (bool_decide (x = key))) T))).

Lemma others_mono key T T' : incl T T' -> others key T <= others key T'.
Proof.
  intros H. unfold others. apply inj_le, NoDup_incl_length; [apply NoDup_nodup|].
  intros x. rewrite !nodup_In, !filter_In. naive_solver.
Qed.

(** Eviction passes the entry over while fewer than [max] other keys were touched. *)
Lemma retained_evict key v T m max : 1 <= max -> List.NoDup (keys m) ->
  others key T < max ->
  retained key v T m -> retained key v T (evict max m).
Proof.
  intros Hm Hnd Hfew (l1 & l2 & -> & HT). rewrite evict_drop by lia.
  unfold others in Hfew. set (D := nodup _ _) in *.
  assert (length l2 <= length D)%nat as Hl.
  { rewrite <- (length_map fst). apply NoDup_incl_length.
    - unfold keys in Hnd. rewrite map_app in Hnd. apply List.NoDup_app_remove_l in Hnd. simpl in Hnd. by inversion Hnd.
    - intros x Hx. apply nodup_In, filter_In. split; [by apply HT|].
      apply negb_true_iff, bool_decide_eq_false. intros ->.
      unfold keys in Hnd. rewrite map_app in Hnd. simpl in Hnd. apply NoDup_remove_2 in Hnd.
      apply Hnd, in_app_iff. by right. }
  rewrite length_app. simpl. exists (drop (length l1 + S (length l2) - Z.to_nat max) l1), l2.
  split; [|done]. rewrite drop_app_le by lia. done.
Qed.
Lemma retained_weaken key v T T' m : incl T T' -> retained key v T m -> retained key v T' m.
Proof. intros H (l1 & l2 & -> & HT). exists l1, l2. split; [done|]. auto. Qed.

Lemma retained_delete key v T m k : k <> key -> retained key v T m -> retained key v T (jsDelete k m).
Proof.
  intros Hne (l1 & l2 & -> & HT). rewrite jsDelete_app. simpl. rewrite bool_decide_false by congruence. simpl.
  exists (jsDelete k l1), (jsDelete k l2). split; [done|]. intros x [Hx _]%jsDelete_keys. auto.
Qed.

Lemma bstep_retained key v T b o : bm_inv b -> spares key o = true ->
  others key (T ++ touches o) < maxSize b ->
  retained key v T (entries b) -> retained key v (T ++ touches o) (entries (bstep b o)).
Proof.
  intros Hi Hsp Hfew Hr. pose proof (bi_max b Hi). destruct o as [k|k w|k|]; cbn [bstep touches] in *.
  - rewrite bget_entries. destruct (decide (k = key)) as [->|Hne].
    + rewrite (retained_get key v T) by (done || by apply bi_nodup). exists (jsDelete key (entries b)), [].
      split; [done|]. by intros x [].
    + destruct (jsGet k (entries b)) as [[u|]|]; [by apply retained_refresh| |];
        (eapply retained_weaken; [|exact Hr]; intros x Hx; apply in_app_iff; by left).
  - simpl in Hsp. apply negb_true_iff, bool_decide_eq_false in Hsp. rewrite bset_entries.
    apply retained_evict; [done|by apply refreshed_NoDup, bi_nodup|done|by apply retained_refresh].
  - simpl in *. apply negb_true_iff, bool_decide_eq_false in Hsp. rewrite app_nil_r.
    by apply retained_delete.
  - done.
Qed.

Lemma bstep_maxSize b o : maxSize (bstep b o) = maxSize b.
Proof. destruct o; simpl; try done. unfold bget. by repeat case_match. Qed.

(** Eviction is least-recently-used: a value once written is still there as long as
    it was not overwritten, deleted or cleared and fewer than [maxSize] other keys were
    read or written since, however many operations that took. *)
Theorem lru_retention (max : Z) (ops ops' : list BOp) (key : K) (v : V) :
  1 <= max -> forallb (spares key) ops' = true ->
  others key (List.concat (List.map touches ops')) < max ->
  snd (bget key (brun max (ops ++ OSet key (Some v) :: ops'))) = Some v.
Proof.
  intros Hmax Hsp Hfew. unfold brun. rewrite fold_left_app. fold (brun max ops). cbn [fold_left].
  set (b := bstep (brun max ops) (OSet key (Some v))).
  assert (bm_inv b) as Hi by (by apply bstep_inv, brun_inv).
  assert (maxSize b = max) as Em by (unfold b; rewrite bstep_maxSize; apply brun_maxSize).
  assert (retained key v [] (entries b)) as Hr.
  { unfold b. cbn [bstep]. rewrite bset_entries, brun_maxSize.
    apply retained_evict; [done|apply refreshed_NoDup, bi_nodup; by apply brun_inv|unfold others; simpl; lia|].
    by exists (jsDelete key (entries (brun max ops))), []. }
  clearbody b. clear ops. change (List.concat _) with ([] ++ List.concat (List.map touches ops')) in Hfew.
  revert b Hi Em Hr Hfew. generalize (@nil K).
  induction ops' as [|o ops' IH]; intros T b Hi Em Hr Hfew; cbn [fold_left].
  { unfold bget. by rewrite (retained_get key v T) by (done || by apply bi_nodup). }
  simpl in Hsp. apply andb_true_iff in Hsp as [Ho Hsp]. cbn [List.map List.concat] in Hfew.
  apply (IH Hsp (T ++ touches o)); [by apply bstep_inv|by rewrite bstep_maxSize| |by rewrite <- app_assoc].
  apply bstep_retained; [done|done| |done]. rewrite Em.
  eapply Z.le_lt_trans; [|exact Hfew]. apply others_mono. intros x. rewrite !in_app_iff. tauto.
Qed.
End BoundedMap.

Arguments BOp : clear implicits.

Lemma bounded_and_fresh_witness :
  bsize (brun 2 [OSet 1 (Some 10); OSet 2 (Some 20); OGet 1; OSet 3 (Some 30)]) <= 2.
Proof. apply (bounded_and_fresh (K := Z) (V := Z) 2 _ 1). lia. Defined.

Lemma lru_retention_witness :
  snd (bget 1 (brun 2 [OSet 1 (Some 10); OSet 2 (Some 20); OGet 1; OSet 2 (Some 21)])) = Some 10.
Proof. apply (lru_retention (K := Z) (V := Z) 2 [] [OSet 2 (Some 20); OGet 1; OSet 2 (Some 21)] 1 10); vm_compute; congruence. Defined.
