(* ===== verification/Concurrency.v ===== *)
(** * Bounded fan-out

    A model of [packages/server/src/lib/concurrency.ts]. The workers of
    [mapConcurrent] are cooperative: each runs from one [await] to the next, so an
    execution is the order in which the calls of [fn] in flight settle. [fn] is a
    parameter: the outcome of the call for each index. *)
From Stdlib Require Import ZArith Lia List.
From stdpp Require Import base list relations strings.
From S2P Require Import Prelude.

Open Scope Z_scope.

Section MapConcurrent.
Context {R E : Type} (fn : nat -> result E R) (n : nat) (limit : Z).

(** Where a worker is: awaiting the call for an index, returned, or rejected. *)
Inductive Worker := Awaiting (index : nat) | Returned | Failed (index : nat) (e : E).

Record Fan := mkFan {
  next : nat;
  workers : list Worker;
  results : list (option R);
  (** the indices [fn] was called with, in call order *)
  started : list nat
}.

Definition workerCount : nat := Z.to_nat (Z.max 1 (Z.min limit (Z.of_nat n))).

(** The head of a worker's loop: [index = next++], return or call [fn]. *)
Definition takeNext (s : Fan) : Worker * Fan :=
  let index := next s in
  let s1 := mkFan (S index) (workers s) (results s) (started s) in
  if (n <=? index)%nat then (Returned, s1)
  else (Awaiting index, mkFan (S index) (workers s) (results s) (started s ++ [index])).

(** [workers.push((async () => ...)())]. *)
Definition spawn (s : Fan) : Fan :=
  let '(w, s) := takeNext s in mkFan (next s) (workers s ++ [w]) (results s) (started s).

Definition startAll : Fan := Nat.iter workerCount spawn (mkFan 0 [] (repeat None n) []).

(** The call worker [w] awaits settles. *)
Definition settleCall (w : nat) (s : Fan) : Fan :=
  match workers s !! w with
  | Some (Awaiting i) =>
      match fn i with
      | Throw e => mkFan (next s) (<[w := Failed i e]> (workers s)) (results s) (started s)
      | Ok r =>
          let '(w', s') := takeNext (mkFan (next s) (workers s) (<[i := Some r]> (results s)) (started s)) in
          mkFan (next s') (<[w := w']> (workers s')) (results s') (started s')
      end
  | _ => s
  end.

(** [await Promise.all(workers)]: the results, the first rejection, or still pending. *)
Definition firstFailure (ws : list Worker) : option E :=
  match List.find (fun w => match w with Failed _ _ => true | _ => false end) ws with
  | Some (Failed _ e) => Some e
  | _ => None
  end.

Definition returned (w : Worker) : bool := match w with Returned => true | _ => false end.
Definition inFlight (w : Worker) : bool := match w with Awaiting _ => true | _ => false end.

(** One settled call. *)
Definition settles (s s' : Fan) : Prop :=
  exists w i, workers s !! w = Some (Awaiting i) /\ s' = settleCall w s.

(** ** The invariant *)

Record fan_inv (s : Fan) : Prop := {
  fi_len : length (results s) = n;
  fi_started : started s = seq 0 (Nat.min (next s) n);
  fi_range : forall w i, workers s !! w = Some (Awaiting i) -> (i < Nat.min (next s) n)%nat;
  fi_unique : forall w w' i, workers s !! w = Some (Awaiting i) -> workers s !! w' = Some (Awaiting i) -> w = w';
  fi_returned : In Returned (workers s) -> (n <= next s)%nat;
  fi_failed : forall i e, In (Failed i e) (workers s) -> fn i = Throw e;
  fi_cases : forall i, (i < Nat.min (next s) n)%nat ->
    (exists r, fn i = Ok r /\ results s !! i = Some (Some r)) \/
    In (Awaiting i) (workers s) \/ exists e, fn i = Throw e /\ In (Failed i e) (workers s)
}.

Lemma takeNext_cases s : let '(w, s') := takeNext s in
  next s' = S (next s) /\ workers s' = workers s /\ results s' = results s /\
  ((n <= next s)%nat /\ w = Returned /\ started s' = started s \/
   (next s < n)%nat /\ w = Awaiting (next s) /\ started s' = started s ++ [next s]).
Proof. unfold takeNext. destruct (Nat.leb_spec n (next s)); simpl; split_and!; auto. Qed.

Lemma started_snoc k : (k < n)%nat -> seq 0 (Nat.min k n) ++ [k] = seq 0 (Nat.min (S k) n).
Proof.
  intros H. replace (Nat.min (S k) n) with (S (Nat.min k n)) by lia. rewrite seq_S. simpl. do 2 f_equal. lia.
Qed.

Lemma spawn_inv s : fan_inv s -> fan_inv (spawn s).
Proof.
  intros Hi. unfold spawn. pose proof (takeNext_cases s) as H. destruct (takeNext s) as [w s'].
  destruct H as (Hn & Hw & Hr & Hc). destruct s' as [n' ws rs st]. cbn [next workers results started] in *. subst n' ws rs.
  assert (forall k i, (workers s ++ [w]) !! k = Some (Awaiting i) ->
    workers s !! k = Some (Awaiting i) \/ (k = length (workers s) /\ w = Awaiting i)) as Hlk.
  { intros k i [H|[H1 H2]]%lookup_app_Some; [by left|]. apply list_lookup_singleton_Some in H2 as [? ?]. right. split; [lia|done]. }
  split; cbn [next workers results started].
  - apply Hi.
  - rewrite (fi_started s Hi) in Hc. destruct Hc as [(Hle & _ & ->)|(Hlt & _ & ->)]; [f_equal; lia|].
    by apply started_snoc.
  - intros k i [H|[_ ->]]%Hlk; [apply (fi_range s Hi) in H; lia|].
    destruct Hc as [(_ & ? & _)|(Hlt & [= ->] & _)]; [done|lia].
  - assert (forall k i, workers s !! k = Some (Awaiting i) -> w = Awaiting i -> False) as Hx.
    { intros k i H ->. apply (fi_range s Hi) in H. destruct Hc as [(_ & ? & _)|(_ & [= ->] & _)]; [done|lia]. }
    intros k k' i [H|[-> Hw]]%Hlk [H'|[-> Hw']]%Hlk; [by apply (fi_unique s Hi k k' i)|by destruct (Hx k i)|by destruct (Hx k' i)|done].
  - intros [H|[->|[]]]%in_app_iff; [apply (fi_returned s Hi) in H; lia|].
    destruct Hc as [(Hle & _)|(_ & ? & _)]; [lia|done].
  - intros i e [H|[->|[]]]%in_app_iff; [by apply (fi_failed s Hi)|].
    by destruct Hc as [(_ & ? & _)|(_ & ? & _)].
  - intros i Hlt. destruct (Nat.lt_ge_cases i (Nat.min (next s) n)) as [Hold|Hnew].
    + destruct (fi_cases s Hi i Hold) as [?|[?|(e & ? & ?)]]; [by left|right; left|right; right];
        [apply in_app_iff; by left|exists e; split; [done|apply in_app_iff; by left]].
    + destruct Hc as [(Hle & _)|(_ & -> & _)]; [lia|]. right. left. apply in_app_iff. right. left. f_equal. lia.
Qed.

Lemma spawn_length s : length (workers (spawn s)) = S (length (workers s)).
Proof.
  unfold spawn. pose proof (takeNext_cases s) as H. destruct (takeNext s) as [w s'].
  destruct H as (_ & Hw & _). simpl. rewrite length_app, Hw. simpl. lia.
Qed.

Lemma startAll_inv : fan_inv startAll /\ length (workers startAll) = workerCount.
Proof.
  unfold startAll. induction workerCount as [|k [IH Hl]]; rewrite ?Nat.iter_succ.
  { split; [|done]. split; simpl; try done; [by rewrite repeat_length|]. intros i H. lia. }
  split; [by apply spawn_inv|]. rewrite spawn_length, Hl. done.
Qed.

(** Replacing the worker at [w] moves no other worker. *)
Lemma insert_In (ws : list Worker) w x y old : ws !! w = Some old -> In y ws -> y <> old -> In y (<[w := x]> ws).
Proof.
  intros Hw Hy Hne. apply list_elem_of_In, list_elem_of_lookup in Hy as [k Hk].
  apply list_elem_of_In, list_elem_of_lookup. exists k. rewrite list_lookup_insert_ne; [done|congruence].
Qed.

Lemma insert_In_inv (ws : list Worker) w x y : In y (<[w := x]> ws) -> y = x \/ In y ws.
Proof.
  intros Hy. apply list_elem_of_In, list_elem_of_lookup in Hy as [k Hk].
  apply list_lookup_insert_Some in Hk as [(_ & -> & _)|[_ Hk]]; [by left|right].
  apply list_elem_of_In, list_elem_of_lookup. by exists k.
Qed.

Lemma settle_fail_inv s w i e : fan_inv s -> workers s !! w = Some (Awaiting i) -> fn i = Throw e ->
  fan_inv (mkFan (next s) (<[w := Failed i e]> (workers s)) (results s) (started s)).
Proof.
  intros Hi Hw Hf.
  assert (forall k j, <[w := Failed i e]> (workers s) !! k = Some (Awaiting j) ->
    workers s !! k = Some (Awaiting j)) as Hlk.
  { intros k j H. apply list_lookup_insert_Some in H as [(_ & ? & _)|[_ H]]; done. }
  split; cbn [next workers results started]; try apply Hi.
  - intros k j H%Hlk. by apply (fi_range s Hi) in H.
  - intros k k' j H%Hlk H'%Hlk. by apply (fi_unique s Hi k k' j).
  - intros H. apply insert_In_inv in H as [?|H]; [done|by apply (fi_returned s Hi)].
  - intros j e' H. apply insert_In_inv in H as [[= -> ->]|H]; [done|by apply (fi_failed s Hi)].
  - intros j Hj. assert (w < length (workers s))%nat as Hlen by (by eapply lookup_lt_Some).
    assert (In (Failed i e) (<[w := Failed i e]> (workers s))) as Hin.
    { apply list_elem_of_In, list_elem_of_lookup. exists w. by apply list_lookup_insert_eq. }
    destruct (fi_cases s Hi j Hj) as [?|[H|(e' & ? & H)]]; [by left| |].
    + destruct (decide (j = i)) as [->|Hne]; [right; right; by exists e|].
      right. left. eapply insert_In; [exact Hw|done|congruence].
    + right. right. exists e'. split; [done|]. by eapply insert_In.
Qed.

Lemma settle_ok_inv s w i r : fan_inv s -> workers s !! w = Some (Awaiting i) -> fn i = Ok r ->
  fan_inv (settleCall w s).
Proof.
  intros Hi Hw Hf. unfold settleCall. rewrite Hw, Hf.
  pose proof (takeNext_cases (mkFan (next s) (workers s) (<[i := Some r]> (results s)) (started s))) as H.
  destruct (takeNext _) as [w' s']. destruct H as (Hn & Hws & Hr & Hc).
  destruct s' as [n' ws rs st]. cbn [next workers results started] in *. subst n' ws rs.
  pose proof (fi_range s Hi w i Hw) as Hrange.
  assert (w < length (workers s))%nat as Hlen by (by eapply lookup_lt_Some).
  assert (In w' (<[w := w']> (workers s))) as Hin.
  { apply list_elem_of_In, list_elem_of_lookup. exists w. by apply list_lookup_insert_eq. }
  assert (forall k j, <[w := w']> (workers s) !! k = Some (Awaiting j) ->
    (k = w /\ w' = Awaiting j) \/ (k <> w /\ workers s !! k = Some (Awaiting j))) as Hlk.
  { intros k j H. apply list_lookup_insert_Some in H as [(-> & -> & _)|[? H]]; auto. }
  split; cbn [next workers results started].
  - rewrite length_insert. apply Hi.
  - rewrite (fi_started s Hi) in Hc. destruct Hc as [(Hle & _ & ->)|(Hlt & _ & ->)]; [f_equal; lia|].
    by apply started_snoc.
  - intros k j [[_ ->]|[_ H]]%Hlk; [|apply (fi_range s Hi) in H; lia].
    destruct Hc as [(_ & ? & _)|(Hlt & [= ->] & _)]; [done|lia].
  - assert (forall k j, workers s !! k = Some (Awaiting j) -> w' = Awaiting j -> False) as Hx.
    { intros k j H ->. apply (fi_range s Hi) in H. destruct Hc as [(_ & ? & _)|(_ & [= ->] & _)]; [done|lia]. }
    intros k k' j [[-> H1]|[Hk H1]]%Hlk [[-> H2]|[Hk' H2]]%Hlk;
      [done|by destruct (Hx k' j)|by destruct (Hx k j)|by apply (fi_unique s Hi k k' j)].
  - intros H. apply insert_In_inv in H as [<-|H]; [|apply (fi_returned s Hi) in H; lia].
    destruct Hc as [(Hle & _)|(_ & ? & _)]; [lia|done].
  - intros j e H. apply insert_In_inv in H as [<-|H]; [|by apply (fi_failed s Hi)].
    by destruct Hc as [(_ & ? & _)|(_ & ? & _)].
  - intros j Hj. destruct (Nat.lt_ge_cases j (Nat.min (next s) n)) as [Hold|Hnew].
    + destruct (decide (j = i)) as [->|Hne].
      { left. exists r. split; [done|]. apply list_lookup_insert_eq. rewrite (fi_len s Hi). lia. }
      destruct (fi_cases s Hi j Hold) as [(r' & ? & ?)|[H|(e & ? & H)]].
      * left. exists r'. split; [done|]. by rewrite list_lookup_insert_ne.
      * right. left. eapply insert_In; [exact Hw|done|congruence].
      * right. right. exists e. split; [done|]. by eapply insert_In.
    + destruct Hc as [(Hle & _)|(_ & -> & _)]; [lia|]. right. left. replace j with (next s) by lia. done.
Qed.

Lemma settles_inv s s' : fan_inv s -> settles s s' -> fan_inv s' /\ length (workers s') = length (workers s).
Proof.
  intros Hi (w & i & Hw & ->). destruct (fn i) as [r|e] eqn:Hf.
  - split; [by eapply settle_ok_inv|]. unfold settleCall. rewrite Hw, Hf.
    pose proof (takeNext_cases (mkFan (next s) (workers s) (<[i := Some r]> (results s)) (started s))) as H.
    destruct (takeNext _) as [w' s']. destruct H as (_ & H & _). simpl in *. by rewrite length_insert, H.
  - unfold settleCall. rewrite Hw, Hf. split; [by apply settle_fail_inv|]. simpl. apply length_insert.
Qed.
(** ** Theorems *)

Lemma steps_inv k s : nsteps settles k startAll s -> fan_inv s /\ length (workers s) = workerCount.
Proof.
  intros H. destruct startAll_inv as [Hi Hl]. revert Hi Hl. induction H as [|k s0 s1 s2 H1 H2 IH]; intros Hi Hl; [done|].
  destruct (settles_inv s0 s1 Hi H1) as [Hi' Hl']. apply IH; [done|congruence].
Qed.

(** The work left: indices not taken yet and calls in flight. *)
Definition workLeft (s : Fan) : Z := (Z.of_nat n - Z.of_nat (Nat.min (next s) n)) + countZ inFlight (workers s).

Lemma settles_workLeft s s' : settles s s' -> workLeft s' = workLeft s - 1.
Proof.
  intros (w & i & Hw & ->). unfold settleCall, workLeft. rewrite Hw. destruct (fn i) as [r|e].
  - pose proof (takeNext_cases (mkFan (next s) (workers s) (<[i := Some r]> (results s)) (started s))) as H.
    destruct (takeNext _) as [w' s']. destruct H as (Hn & Hws & _ & Hc). cbn [next workers] in *.
    rewrite (countZ_insert _ _ w (Awaiting i) w'), Hn, Hws by (by rewrite Hws).
    destruct Hc as [(? & -> & _)|(? & -> & _)]; cbn [inFlight]; lia.
  - simpl. rewrite (countZ_insert _ _ w (Awaiting i)) by done. simpl. lia.
Qed.

Lemma startAll_workLeft : workLeft startAll = Z.of_nat n.
Proof.
  unfold startAll. induction workerCount as [|k IH]; rewrite ?Nat.iter_succ; [unfold workLeft; cbn [Nat.iter nat_rect next workers]; rewrite countZ_nil; lia|].
  rewrite <- IH. generalize (Nat.iter k spawn (mkFan 0 [] (repeat None n) [])). intros s. unfold workLeft, spawn.
  pose proof (takeNext_cases s) as H. destruct (takeNext s) as [w s']. destruct H as (Hn & Hws & _ & Hc).
  cbn [next workers]. rewrite Hn, Hws, countZ_app, countZ_cons, countZ_nil.
  destruct Hc as [(? & -> & _)|(? & -> & _)]; cbn [inFlight]; lia.
Qed.

(** However the calls settle, at most [max(1, min(limit, n))] are in flight, every
    index is called at most once and in input order, and once every worker has returned
    the result array holds, at each index, the value of that index's call. *)
Theorem mapConcurrent_correct (k : nat) (s : Fan) :
  nsteps settles k startAll s ->
  countZ inFlight (workers s) <= Z.max 1 (Z.min limit (Z.of_nat n)) /\
  started s = seq 0 (length (started s)) /\ (length (started s) <= n)%nat /\
  (forallb returned (workers s) = true ->
   length (results s) = n /\
   forall i, (i < n)%nat -> exists r, fn i = Ok r /\ results s !! i = Some (Some r)).
Proof.
  intros H. destruct (steps_inv k s H) as [Hi Hl]. split_and!.
  - assert (countZ inFlight (workers s) <= Z.of_nat (length (workers s))) as Hc.
    { clear. induction (workers s) as [|w ws IH]; [done|]. rewrite countZ_cons. simpl. destruct (inFlight w); lia. }
    rewrite Hl in Hc. unfold workerCount in Hc. lia.
  - rewrite (fi_started s Hi), length_seq. done.
  - rewrite (fi_started s Hi), length_seq. lia.
  - intros Hall. rewrite forallb_forall in Hall. split; [apply Hi|]. intros i Hlt.
    assert (n <= next s)%nat as Hn.
    { apply (fi_returned s Hi). destruct (workers s) as [|w ws] eqn:Ews.
      - simpl in Hl. unfold workerCount in Hl. lia.
      - assert (returned w = true) as Hr by (apply Hall; by left). destruct w; try done. by left. }
    destruct (fi_cases s Hi i) as [?|[H'|(e & _ & H')]]; [lia|done|by apply Hall in H'|by apply Hall in H'].
Qed.

(** The fan-out ends: at most [n] calls ever settle, and when none is in flight any
    more every worker has returned or was rejected by a call that failed. *)
Theorem mapConcurrent_terminates (k : nat) (s : Fan) :
  nsteps settles k startAll s ->
  (k <= n)%nat /\
  ((forall s', ~ settles s s') ->
   forallb returned (workers s) = true \/ exists i e, In (Failed i e) (workers s) /\ fn i = Throw e).
Proof.
  intros H. destruct (steps_inv k s H) as [Hi Hl]. split.
  - assert (workLeft s = Z.of_nat n - Z.of_nat k) as Hwl.
    { rewrite <- startAll_workLeft. clear -H. induction H as [|k s0 s1 s2 H1 H2 IH]; [lia|].
      apply settles_workLeft in H1. lia. }
    pose proof (countZ_nonneg inFlight (workers s)). unfold workLeft in Hwl. lia.
  - intros Hstuck. destruct (forallb returned (workers s)) eqn:Hall; [by left|right].
    apply not_true_iff_false in Hall. rewrite forallb_forall in Hall.
    destruct (List.find (fun w => negb (returned w)) (workers s)) as [w|] eqn:Ef.
    + apply find_some in Ef as [Hin Hr]. destruct w as [i| |i e]; [| done |].
      * exfalso. apply list_elem_of_In, list_elem_of_lookup in Hin as [w Hw].
        apply (Hstuck (settleCall w s)). by exists w, i.
      * exists i, e. split; [done|]. by apply (fi_failed s Hi).
    + exfalso. apply Hall. intros x Hx. rewrite find_none_iff in Ef. specialize (Ef x Hx).
      by apply negb_false_iff in Ef.
Qed.
End MapConcurrent.

(** A call that fails does not stop the others from starting new ones: the worker of a
    call that settles after a rejection takes the next index all the same. *)
Theorem rejection_does_not_stop_others {R E} (fn : nat -> result E R) (n : nat) (s : @Fan R E) (w i : nat) (r : R)
    (j : nat) (e : E) :
  In (Failed j e) (workers s) -> workers s !! w = Some (Awaiting i) -> fn i = Ok r -> (next s < n)%nat ->
  started (settleCall fn n w s) = started s ++ [next s].
Proof.
  intros _ Hw Hf Hn. unfold settleCall. rewrite Hw, Hf. unfold takeNext. cbn [next workers results started].
  destruct (Nat.leb_spec n (next s)); [lia|done].
Qed.

(** ** Witnesses *)

Definition ex_fn (i : nat) : result string Z := if Nat.eqb i 1 then Throw "boom" else Ok (10 * Z.of_nat i).
Definition ex_ok (i : nat) : result string Z := Ok (10 * Z.of_nat i).

Lemma ex_steps : nsteps (settles ex_ok 3) 3 (startAll 3 2)
  (settleCall ex_ok 3 1 (settleCall ex_ok 3 0 (settleCall ex_ok 3 1 (startAll 3 2)))).
Proof.
  eapply nsteps_l; [exists 1%nat, 1%nat; split; reflexivity|].
  eapply nsteps_l; [exists 0%nat, 0%nat; split; reflexivity|].
  eapply nsteps_l; [exists 1%nat, 2%nat; split; reflexivity|]. constructor.
Qed.

Lemma mapConcurrent_correct_witness :
  let s := settleCall ex_ok 3 1 (settleCall ex_ok 3 0 (settleCall ex_ok 3 1 (startAll 3 2))) in
  results s = [Some 0; Some 10; Some 20] /\ countZ inFlight (workers s) <= 2.
Proof.
  intros s. destruct (mapConcurrent_correct ex_ok 3 2 3 s ex_steps) as (Hc & _ & _ & _).
  split; [reflexivity|exact Hc].
Defined.

Lemma mapConcurrent_terminates_witness :
  let s := settleCall ex_ok 3 1 (settleCall ex_ok 3 0 (settleCall ex_ok 3 1 (startAll 3 2))) in
  forallb returned (workers s) = true \/ exists i e, In (Failed i e) (workers s) /\ ex_ok i = Throw e.
Proof.
  intros s. destruct (mapConcurrent_terminates ex_ok 3 2 3 s ex_steps) as [_ H].
  apply H. intros s' (w & i & Hw & _). destruct w as [|[|w]]; done.
Defined.

Lemma rejection_does_not_stop_others_witness :
  started (settleCall ex_fn 3 0 (settleCall ex_fn 3 1 (startAll 3 2))) = [0; 1; 2]%nat.
Proof.
  apply (rejection_does_not_stop_others ex_fn 3 (settleCall ex_fn 3 1 (startAll 3 2)) 0 0 0 1 "boom").
  - by right; left.
  - reflexivity.
  - reflexivity.
  - vm_compute. lia.
Defined.
