(* ===== verification/Tar.v ===== *)
(** * The single-file tar writer and reader

    A model of [packages/server/src/services/sandbox/tar.ts]. A string is a list of
    UTF-16 code units; the platform's [TextEncoder] and [TextDecoder] are
    parameters of the functions that call them. [Uint8Array.subarray] is written
    out with the language's treatment of negative and out-of-range indices. *)
From Stdlib Require Import ZArith Lia List.
From stdpp Require Import base list.
From S2P Require Import Prelude Bytes.

Open Scope Z_scope.

Definition BLOCK : Z := 512.
Definition NAME_MAX : Z := 100.

Inductive TarError := FieldTooLong (got max : Z) | NameTooLong.

(** ** Language helpers *)

(** [value.toString(8)] of a natural number: at most [log2 + 1] digits. *)
Fixpoint toOctal_fuel (fuel : nat) (n : Z) : list Z :=
  match fuel with
  | O => []
  | S fuel' => if n <? 8 then [48 + n] else toOctal_fuel fuel' (n / 8) ++ [48 + n mod 8]
  end.

Definition toOctal (n : Z) : list Z := toOctal_fuel (S (Z.to_nat (Z.log2 n))) n.

Definition padStart (text : list Z) (len : Z) (fill : Z) : list Z :=
  repeat fill (Z.to_nat (len - blen text)) ++ text.

(** [arr.subarray(begin, end)]. *)
Definition clampIndex (len i : Z) : Z := if i <? 0 then Z.max 0 (len + i) else Z.min i len.
Definition subarray (l : list Z) (from to : Z) : list Z :=
  bslice l (clampIndex (blen l) from) (Z.max (clampIndex (blen l) from) (clampIndex (blen l) to)).

Definition is_ws (u : Z) : bool :=
  ((9 <=? u) && (u <=? 13)) || existsb (Z.eqb u) [32; 160; 5760; 8232; 8233; 8239; 8287; 12288; 65279]
  || ((8192 <=? u) && (u <=? 8202)).

Fixpoint dropWs (l : list Z) : list Z :=
  match l with
  | [] => []
  | u :: l' => if is_ws u then dropWs l' else l
  end.
Definition trimUnits (l : list Z) : list Z := rev (dropWs (rev (dropWs l))).

Definition is_line_end (u : Z) : bool := existsb (Z.eqb u) [10; 13; 8232; 8233].

(** [s.replace(/\0.*$/, '')]: cut at the first NUL that no line terminator follows. *)
Fixpoint cutAtNul (l : list Z) : list Z :=
  match l with
  | [] => []
  | u :: l' => if (u =? 0) && negb (existsb is_line_end l') then [] else u :: cutAtNul l'
  end.

Definition is_octal (u : Z) : bool := (48 <=? u) && (u <=? 55).
Fixpoint octalPrefix (acc : Z) (l : list Z) : Z :=
  match l with
  | u :: l' => if is_octal u then octalPrefix (acc * 8 + (u - 48)) l' else acc
  | [] => acc
  end.

(** [Number.parseInt(s, 8) || 0]: NaN, when no digit follows the sign, reads as 0. *)
Definition parseOctal (l : list Z) : Z :=
  match dropWs l with
  | [] => 0
  | u :: l' =>
      if u =? 45 then - octalPrefix 0 l'
      else if u =? 43 then octalPrefix 0 l'
      else octalPrefix 0 (u :: l')
  end.

(** ** The source's functions *)

Section Codec.
Context (encodeText decodeText : list Z -> list Z).

Definition writeString (block : list Z) (offset : Z) (value : list Z) (length : Z) : result TarError (list Z) :=
  let bytes := encodeText value in
  if blen bytes >? length then Throw (FieldTooLong (blen bytes) length) else Ok (bset block offset bytes).

Definition writeOctal (block : list Z) (offset value length : Z) : result TarError (list Z) :=
  writeString block offset (padStart (toOctal value) (length - 1) 48) (length - 1).

Definition ustar : list Z := [117; 115; 116; 97; 114].

(** The header before its checksum, the checksum field filled with spaces. *)
Definition tarHeaderBlank (name : list Z) (size mode : Z) : result TarError (list Z) :=
  let! h := writeString (repeat 0 (Z.to_nat BLOCK)) 0 name NAME_MAX in
  let! h := writeOctal h 100 (Z.land mode 4095) 8 in
  let! h := writeOctal h 108 0 8 in
  let! h := writeOctal h 116 0 8 in
  let! h := writeOctal h 124 size 12 in
  let! h := writeOctal h 136 0 12 in
  let h := bset h 156 [48] in
  let! h := writeString h 257 ustar 6 in
  let h := bset h 263 [48] in
  let h := bset h 264 [48] in
  Ok (bset h 148 (repeat 32 8)).

Definition checksum (header : list Z) : Z := sumZ (fun b => b) header.

Definition tarHeader (name : list Z) (size mode : Z) : result TarError (list Z) :=
  let! h := tarHeaderBlank name size mode in
  let sum := checksum h in
  let! h := writeString h 148 (padStart (toOctal sum) 6 48) 6 in
  let h := bset h 154 [0] in
  Ok (bset h 155 [32]).

Definition tarSingleFile (name contents : list Z) (mode : Z) : result TarError (list Z) :=
  if blen (encodeText name) >? NAME_MAX then Throw NameTooLong
  else
    let! header := tarHeader name (blen contents) mode in
    let padded := ceilDiv (blen contents) BLOCK * BLOCK in
    let out := repeat 0 (Z.to_nat (BLOCK + padded + BLOCK * 2)) in
    Ok (bset (bset out 0 header) BLOCK contents).

(** [rawName] up to its first NUL. *)
Fixpoint untilNul (l : list Z) : list Z :=
  match l with
  | [] => []
  | b :: l' => if b =? 0 then [] else b :: untilNul l'
  end.

Definition headerSize (header : list Z) : Z :=
  parseOctal (trimUnits (cutAtNul (decodeText (subarray header 124 136)))).

(** The loop of [untarFirstFile] from [offset]; the outer [None] is fuel run out. *)
Fixpoint untar_fuel (fuel : nat) (archive : list Z) (offset : Z) : option (option (list Z * list Z)) :=
  match fuel with
  | O => None
  | S fuel' =>
      if blen archive <? offset + BLOCK then Some None
      else
        let header := subarray archive offset (offset + BLOCK) in
        if forallb (Z.eqb 0) header then Some None
        else
          let name := decodeText (untilNul (subarray header 0 NAME_MAX)) in
          let size := headerSize header in
          let dataStart := offset + BLOCK in
          match header !! 156%nat with
          | Some 48 | Some 0 => Some (Some (name, subarray archive dataStart (dataStart + size)))
          | _ => untar_fuel fuel' archive (dataStart + ceilDiv size BLOCK * BLOCK)
          end
  end.

(** While the sizes read are not negative every turn advances by a block, so the number
    of blocks and one more is enough ([untar_total]). *)
Definition untarFirstFile (archive : list Z) : option (option (list Z * list Z)) :=
  untar_fuel (S (Z.to_nat (blen archive / BLOCK))) archive 0.

(** What the platform documents of its codecs: bytes come out, ASCII is unchanged. *)
Definition ascii_units (l : list Z) : Prop := Forall (fun u => 0 <= u < 128) l.
Record ascii_codec : Prop := {
  encode_bytes : forall l, wf_bytes (encodeText l);
  encode_ascii : forall l, ascii_units l -> encodeText l = l;
  decode_ascii : forall l, ascii_units l -> decodeText l = l
}.
End Codec.

(** ** Octal fields *)

Definition octal_digits (l : list Z) : Prop := Forall (fun u => 48 <= u <= 55) l.

Lemma toOctal_fuel_digits fuel n : 0 <= n -> octal_digits (toOctal_fuel fuel n).
Proof.
  revert n. induction fuel as [|fuel IH]; intros n Hn; cbn [toOctal_fuel]; [constructor|].
  destruct (Z.ltb_spec n 8); [repeat constructor; lia|]. apply Forall_app. split.
  - apply IH. apply Z.div_pos; lia.
  - pose proof (Z.mod_pos_bound n 8). repeat constructor; lia.
Qed.

Lemma octalPrefix_app acc l l' : octal_digits l -> octalPrefix acc (l ++ l') = octalPrefix (octalPrefix acc l) l'.
Proof.
  intros H. revert acc. induction H as [|u l Hu Hl IH]; intros acc; [done|]. cbn [octalPrefix app].
  unfold is_octal. replace ((48 <=? u) && (u <=? 55)) with true by (symmetry; apply andb_true_iff; lia). apply IH.
Qed.

Lemma octalPrefix_toOctal fuel n : 0 <= n < 8 ^ Z.of_nat fuel -> octalPrefix 0 (toOctal_fuel fuel n) = n.
Proof.
  revert n. induction fuel as [|fuel IH]; intros n Hn; cbn [toOctal_fuel]; [simpl in *; lia|].
  rewrite Nat2Z.inj_succ, Z.pow_succ_r in Hn by lia.
  destruct (Z.ltb_spec n 8); cbn [octalPrefix].
  - unfold is_octal. replace ((48 <=? 48 + n) && (48 + n <=? 55)) with true by (symmetry; apply andb_true_iff; lia). lia.
  - pose proof (Z.div_mod n 8 ltac:(lia)). pose proof (Z.mod_pos_bound n 8 ltac:(lia)).
    rewrite octalPrefix_app by (apply toOctal_fuel_digits, Z.div_pos; lia).
    rewrite IH by (split; [apply Z.div_pos; lia|apply Z.div_lt_upper_bound; lia]). cbn [octalPrefix].
    unfold is_octal. replace ((48 <=? 48 + n mod 8) && (48 + n mod 8 <=? 55)) with true by (symmetry; apply andb_true_iff; lia).
    lia.
Qed.

Lemma toOctal_value n : 0 <= n -> octal_digits (toOctal n) /\ octalPrefix 0 (toOctal n) = n.
Proof.
  intros Hn. split; [by apply toOctal_fuel_digits|]. apply octalPrefix_toOctal. split; [done|].
  rewrite Nat2Z.inj_succ, Z2Nat.id by apply Z.log2_nonneg. destruct (Z.eq_dec n 0) as [->|]; [done|].
  pose proof (Z.log2_spec n ltac:(lia)) as [_ H]. pose proof (Z.log2_nonneg n).
  eapply Z.lt_le_trans; [exact H|]. apply Z.pow_le_mono_l. lia.
Qed.

Lemma toOctal_fuel_length fuel n k : 0 <= n < 8 ^ k -> 1 <= k -> blen (toOctal_fuel fuel n) <= k.
Proof.
  revert n k. induction fuel as [|fuel IH]; intros n k Hn Hk; cbn [toOctal_fuel]; [unfold blen; simpl; lia|].
  destruct (Z.ltb_spec n 8); [unfold blen; simpl; lia|]. rewrite blen_app.
  assert (2 <= k) as Hk2.
  { destruct (Z.eq_dec k 1) as [->|]; [simpl in Hn; lia|lia]. }
  specialize (IH (n / 8) (k - 1)). assert (8 ^ k = 8 * 8 ^ (k - 1)) as E by (rewrite <- Z.pow_succ_r by lia; f_equal; lia).
  unfold blen at 2. simpl length. assert (blen (toOctal_fuel fuel (n / 8)) <= k - 1); [|lia].
  apply IH; [|lia]. split; [apply Z.div_pos; lia|apply Z.div_lt_upper_bound; lia].
Qed.

(** A number that needs more than [k] digits gets them. *)
Lemma toOctal_length_lower n k : 0 <= k -> 8 ^ k <= n -> k < blen (toOctal n).
Proof.
  intros Hk Hn. assert (0 < 8 ^ k) by lia. destruct (toOctal_value n ltac:(lia)) as [Hd Hv].
  destruct (Z.lt_ge_cases k (blen (toOctal n))) as [?|Hle]; [done|]. exfalso.
  assert (forall l acc, octal_digits l -> 0 <= acc -> octalPrefix acc l < (acc + 1) * 8 ^ blen l) as Hb.
  { clear. intros l acc H. revert acc. induction H as [|u l Hu Hl IH]; intros acc Ha; cbn [octalPrefix].
    - unfold blen. simpl. lia.
    - unfold is_octal. replace ((48 <=? u) && (u <=? 55)) with true by (symmetry; apply andb_true_iff; lia).
      specialize (IH (acc * 8 + (u - 48)) ltac:(lia)). replace (blen (u :: l)) with (1 + blen l) by (unfold blen; simpl length; lia).
      rewrite Z.pow_add_r by (pose proof (blen_nonneg l); lia).
      assert (0 < 8 ^ blen l) by (apply Z.pow_pos_nonneg; [lia|apply blen_nonneg]). nia. }
  specialize (Hb (toOctal n) 0 Hd ltac:(lia)). rewrite Hv in Hb.
  pose proof (Z.pow_le_mono_r 8 _ _ ltac:(lia) Hle). lia.
Qed.

Lemma pad_digits n len : 0 <= n -> octal_digits (padStart (toOctal n) len 48) /\
  octalPrefix 0 (padStart (toOctal n) len 48) = n.
Proof.
  intros Hn. destruct (toOctal_value n Hn) as [Hd Hv]. unfold padStart.
  assert (octal_digits (repeat 48 (Z.to_nat (len - blen (toOctal n))))) as Hz.
  { apply List.Forall_forall. intros x ->%repeat_spec. lia. }
  split; [by apply Forall_app|]. rewrite octalPrefix_app by done.
  assert (forall k, octalPrefix 0 (repeat 48 k) = 0) as -> by (induction k; done). done.
Qed.

Lemma pad_length l len fill : blen (padStart l len fill) = Z.max len (blen l).
Proof. unfold padStart. rewrite blen_app. unfold blen at 1. rewrite repeat_length. pose proof (blen_nonneg l). lia. Qed.

Lemma digits_ascii l : octal_digits l -> ascii_units l.
Proof. intros H. eapply Forall_impl; [exact H|]. cbn. intros; lia. Qed.

(** ** The header *)

Section Header.
Context (encodeText decodeText : list Z -> list Z) (Hcodec : ascii_codec encodeText decodeText).

Lemma writeString_ascii b off l len : ascii_units l ->
  writeString encodeText b off l len = if blen l >? len then Throw (FieldTooLong (blen l) len) else Ok (bset b off l).
Proof. intros H. unfold writeString. by rewrite (encode_ascii _ _ Hcodec) by done. Qed.

(** A numeric field takes every value that fits its digits, in exactly [len - 1] bytes. *)
Lemma writeOctal_ok b off v len : 0 <= v < 8 ^ (len - 1) -> 2 <= len ->
  writeOctal encodeText b off v len = Ok (bset b off (padStart (toOctal v) (len - 1) 48)) /\
  blen (padStart (toOctal v) (len - 1) 48) = len - 1.
Proof.
  intros Hv Hl. assert (blen (padStart (toOctal v) (len - 1) 48) = len - 1) as E.
  { rewrite pad_length. pose proof (toOctal_fuel_length (S (Z.to_nat (Z.log2 v))) v (len - 1) Hv ltac:(lia)).
    unfold toOctal. lia. }
  split; [|done]. unfold writeOctal.
  rewrite writeString_ascii by (apply digits_ascii, pad_digits; lia). rewrite E.
  by destruct (Z.gtb_spec (len - 1) (len - 1)); [lia|].
Qed.

Lemma writeOctal_overflow b off v len : 8 ^ (len - 1) <= v -> 1 <= len ->
  exists got, writeOctal encodeText b off v len = Throw (FieldTooLong got (len - 1)).
Proof.
  intros Hv Hl. pose proof (toOctal_length_lower v (len - 1) ltac:(lia) Hv) as Hlen. unfold writeOctal.
  assert (0 < 8 ^ (len - 1)) by (apply Z.pow_pos_nonneg; lia).
  rewrite writeString_ascii by (apply digits_ascii, pad_digits; lia). rewrite pad_length.
  destruct (Z.gtb_spec (Z.max (len - 1) (blen (toOctal v))) (len - 1)); [eauto|lia].
Qed.

Lemma bset512 b at_ c : blen b = 512 -> 0 <= at_ -> at_ + blen c <= 512 -> blen (bset b at_ c) = 512.
Proof. intros Hb H0 H. by rewrite bset_length by lia. Qed.

Lemma slice_before512 b at_ c i j : blen b = 512 -> 0 <= i -> j <= at_ -> at_ <= 512 ->
  bslice (bset b at_ c) i j = bslice b i j.
Proof. intros Hb Hi Hj Ha. apply bslice_bset_before; lia. Qed.

Lemma slice_after512 b at_ c i j : blen b = 512 -> 0 <= at_ -> at_ + blen c <= i -> i <= j -> j <= 512 ->
  bslice (bset b at_ c) i j = bslice b i j.
Proof. intros Hb Ha Hi Hij Hj. apply bslice_bset_after; lia. Qed.

Lemma slice_same512 b at_ c j : blen b = 512 -> 0 <= at_ -> at_ + blen c <= j -> j <= 512 ->
  bslice (bset b at_ c) at_ j = c ++ bslice b (at_ + blen c) j.
Proof. intros Hb Ha Hj H. apply bslice_bset_same; lia. Qed.

(** The fields written, as one nest of writes. *)
Definition blankFields (nameb modeb zero8 sizeb zero12 : list Z) : list Z :=
  bset (bset (bset (bset (bset (bset (bset (bset (bset (bset
    (repeat 0 (Z.to_nat BLOCK)) 0 nameb) 100 modeb) 108 zero8) 116 zero8) 124 sizeb) 136 zero12)
    156 [48]) 257 ustar) 263 [48]) 264 [48].

Definition fullFields (blank sumb : list Z) : list Z :=
  bset (bset (bset (bset blank 148 (repeat 32 8)) 148 sumb) 154 [0]) 155 [32].

Lemma land_mode mode : 0 <= Z.land mode 4095 < 8 ^ (8 - 1).
Proof.
  change 4095 with (Z.ones 12). rewrite Z.land_ones by lia.
  pose proof (Z.mod_pos_bound mode (2 ^ 12) ltac:(lia)). lia.
Qed.

Definition field (v len : Z) : list Z := padStart (toOctal v) (len - 1) 48.

Lemma blank_shape name size mode : blen (encodeText name) <= NAME_MAX -> 0 <= size < 8 ^ 11 ->
  tarHeaderBlank encodeText name size mode =
  Ok (bset (blankFields (encodeText name) (field (Z.land mode 4095) 8) (field 0 8) (field size 12) (field 0 12))
        148 (repeat 32 8)).
Proof.
  intros Hn Hs. unfold tarHeaderBlank, blankFields, field.
  unfold writeString at 1. destruct (Z.gtb_spec (blen (encodeText name)) NAME_MAX); [lia|]. cbn [bind_result].
  assert (forall b, writeOctal encodeText b 100 (Z.land mode 4095) 8 = Ok (bset b 100 (padStart (toOctal (Z.land mode 4095)) (8 - 1) 48))) as E1
    by (intros; apply writeOctal_ok; [apply land_mode|lia]).
  assert (forall b o, writeOctal encodeText b o 0 8 = Ok (bset b o (padStart (toOctal 0) (8 - 1) 48))) as E2
    by (intros; apply writeOctal_ok; lia).
  assert (forall b, writeOctal encodeText b 124 size 12 = Ok (bset b 124 (padStart (toOctal size) (12 - 1) 48))) as E3
    by (intros; apply writeOctal_ok; lia).
  assert (forall b, writeOctal encodeText b 136 0 12 = Ok (bset b 136 (padStart (toOctal 0) (12 - 1) 48))) as E4
    by (intros; apply writeOctal_ok; lia).
  rewrite E1. cbn [bind_result]. rewrite E2. cbn [bind_result]. rewrite E2. cbn [bind_result].
  rewrite E3. cbn [bind_result]. rewrite E4. cbn [bind_result].
  rewrite writeString_ascii by (repeat constructor; lia). done.
Qed.

Lemma field_len v len : 0 <= v < 8 ^ (len - 1) -> 2 <= len -> blen (field v len) = len - 1.
Proof. intros Hv Hl. by apply (writeOctal_ok [] 0). Qed.

Section Layout.
Context (nameb modeb zero8 sizeb zero12 sumb : list Z).
Context (Hname : blen nameb <= 100) (Hmode : blen modeb = 7) (Hz8 : blen zero8 = 7)
        (Hsize : blen sizeb = 11) (Hz12 : blen zero12 = 11) (Hsum : blen sumb = 6).

Ltac sz := repeat apply bset512; unfold BLOCK; rewrite ?Hmode, ?Hz8, ?Hsize, ?Hz12, ?Hsum; try reflexivity;
  change (blen (repeat 32 8)) with 8; change (blen [48]) with 1; change (blen [0]) with 1;
  change (blen [32]) with 1; change (blen ustar) with 5; try lia.

Lemma blankFields_len : blen (blankFields nameb modeb zero8 sizeb zero12) = 512.
Proof. unfold blankFields. sz. Qed.

Lemma fullFields_len : blen (fullFields (blankFields nameb modeb zero8 sizeb zero12) sumb) = 512.
Proof. unfold fullFields. repeat apply bset512; try apply blankFields_len; sz. Qed.

(** Skip the writes that do not reach a range. *)
Ltac skip_writes := repeat first [rewrite slice_before512 by sz | rewrite slice_after512 by sz].

Lemma full_name : bslice (fullFields (blankFields nameb modeb zero8 sizeb zero12) sumb) 0 100
  = nameb ++ repeat 0 (Z.to_nat (100 - blen nameb)).
Proof.
  pose proof (blen_nonneg nameb). unfold fullFields, blankFields. skip_writes.
  rewrite slice_same512 by sz.
  rewrite bslice_zeros by (change (Z.of_nat (Z.to_nat BLOCK)) with 512; lia). done.
Qed.

Lemma full_size : bslice (fullFields (blankFields nameb modeb zero8 sizeb zero12) sumb) 124 136 = sizeb ++ [0].
Proof.
  unfold fullFields, blankFields. skip_writes. rewrite slice_same512 by sz. rewrite Hsize. skip_writes.
  by rewrite bslice_zeros by (change (Z.of_nat (Z.to_nat BLOCK)) with 512; lia).
Qed.

Lemma full_type : bslice (fullFields (blankFields nameb modeb zero8 sizeb zero12) sumb) 156 157 = [48].
Proof.
  unfold fullFields, blankFields. skip_writes. rewrite slice_same512 by sz. by rewrite bslice_empty by done.
Qed.

Lemma full_sum : bslice (fullFields (blankFields nameb modeb zero8 sizeb zero12) sumb) 148 156 = sumb ++ [0; 32].
Proof.
  unfold fullFields. set (blank := blankFields _ _ _ _ _).
  assert (blen blank = 512) as Hb by apply blankFields_len.
  rewrite <- (bslice_split _ 148 154 156), <- (bslice_split _ 154 155 156) by lia.
  rewrite (slice_before512 _ 155) by (sz; done). rewrite (slice_before512 _ 154) by (sz; done).
  rewrite (slice_same512 _ 148 sumb) by (sz; done). rewrite Hsum, bslice_empty, app_nil_r by done.
  rewrite (slice_before512 _ 155) by (sz; done). rewrite (slice_same512 _ 154 [0]) by (sz; done).
  rewrite bslice_empty by done. rewrite (slice_same512 _ 155 [32]) by (sz; done). by rewrite bslice_empty by done.
Qed.

(** Reading the checksum field as spaces undoes the last three writes. *)
Lemma full_respaced blank : blen blank = 512 ->
  bset (fullFields blank sumb) 148 (repeat 32 8) = bset blank 148 (repeat 32 8).
Proof.
  intros Hb. assert (blen (repeat 32 8) = 8) as H8 by done. apply bytes_ext.
  { unfold fullFields. transitivity 512; [|symmetry]; sz. }
  intros k _. unfold fullFields.
  rewrite !bset_byte by (rewrite ?bset512; rewrite ?H8, ?Hsum; change (blen [0]) with 1; change (blen [32]) with 1; sz; lia).
  rewrite H8, Hsum. change (blen [0]) with 1. change (blen [32]) with 1.
  destruct (Z.leb_spec 148 (Z.of_nat k)); cbn [andb]; [destruct (Z.ltb_spec (Z.of_nat k) (148 + 8)); [done|]|];
    repeat match goal with |- context [?a <=? ?b] => destruct (Z.leb_spec a b) | |- context [?a <? ?b] => destruct (Z.ltb_spec a b) end;
    cbn [andb]; try done; lia.
Qed.
End Layout.

(** ** Writing and reading back *)

Lemma subarray_in l a b : 0 <= a <= b -> b <= blen l -> subarray l a b = bslice l a b.
Proof.
  intros Ha Hb. unfold subarray, clampIndex.
  destruct (Z.ltb_spec a 0), (Z.ltb_spec b 0); try lia. f_equal; lia.
Qed.

Lemma digit_not_ws u : 48 <= u <= 55 -> is_ws u = false.
Proof.
  intros Hu. assert (u = 48 \/ u = 49 \/ u = 50 \/ u = 51 \/ u = 52 \/ u = 53 \/ u = 54 \/ u = 55) as H by lia.
  by destruct H as [->|[->|[->|[->|[->|[->|[->| ->]]]]]]].
Qed.

Lemma dropWs_digits l : octal_digits l -> dropWs l = l.
Proof. intros [|u l' Hu Hl]; [done|]. cbn [dropWs]. by rewrite (digit_not_ws u Hu). Qed.

Lemma trim_digits l : octal_digits l -> trimUnits l = l.
Proof.
  intros H. unfold trimUnits. rewrite (dropWs_digits l) by done.
  rewrite (dropWs_digits (rev l)) by (by apply Forall_rev). apply rev_involutive.
Qed.

Lemma cutAtNul_digits l : octal_digits l -> cutAtNul (l ++ [0]) = l.
Proof.
  induction 1 as [|u l Hu Hl IH]; [done|]. simpl. destruct (Z.eqb_spec u 0); [lia|]. cbn [andb]. by rewrite IH.
Qed.

Lemma parseOctal_digits l : octal_digits l -> parseOctal l = octalPrefix 0 l.
Proof.
  intros H. unfold parseOctal. rewrite dropWs_digits by done. destruct H as [|u l Hu Hl]; [done|].
  by destruct (Z.eqb_spec u 45), (Z.eqb_spec u 43); try lia.
Qed.

(** Reading a numeric field gives the number written into it. *)
Lemma field_reads size : 0 <= size -> parseOctal (trimUnits (cutAtNul (decodeText (field size 12 ++ [0])))) = size.
Proof.
  intros Hs. destruct (pad_digits size (12 - 1) Hs) as [Hd Hv]. fold (field size 12) in *.
  rewrite (decode_ascii _ _ Hcodec).
  - rewrite cutAtNul_digits, trim_digits, parseOctal_digits by done. done.
  - apply Forall_app. split; [by apply digits_ascii|]. repeat constructor; lia.
Qed.

Lemma untilNul_zeros l k : Forall (fun b => b <> 0) l -> untilNul (l ++ repeat 0 k) = l.
Proof.
  induction 1 as [|b l Hb Hl IH]; simpl; [by destruct k|]. destruct (Z.eqb_spec b 0); [done|]. by rewrite IH.
Qed.

Lemma sum_bound (h : list Z) : wf_bytes h -> 0 <= checksum h <= 255 * blen h.
Proof.
  unfold checksum. induction 1 as [|b l Hb Hl IH]; [rewrite sumZ_nil; unfold blen; simpl; lia|].
  rewrite sumZ_cons. unfold is_byte in Hb. replace (blen (b :: l)) with (1 + blen l) by (unfold blen; simpl length; lia). lia.
Qed.

Lemma digits_wf l : octal_digits l -> wf_bytes l.
Proof. intros H. eapply Forall_impl; [exact H|]. cbn. unfold is_byte. intros; lia. Qed.

(** The whole header, as the writer leaves it. *)
Lemma header_shape name size mode : blen (encodeText name) <= NAME_MAX -> 0 <= size < 8 ^ 11 ->
  let blank := blankFields (encodeText name) (field (Z.land mode 4095) 8) (field 0 8) (field size 12) (field 0 12) in
  let sum := checksum (bset blank 148 (repeat 32 8)) in
  tarHeader encodeText name size mode = Ok (fullFields blank (field sum 7)) /\ 0 <= sum < 8 ^ 6.
Proof.
  intros Hn Hs blank sum.
  pose proof (field_len (Z.land mode 4095) 8 (land_mode mode) ltac:(lia)) as Hmode.
  pose proof (field_len 0 8 ltac:(lia) ltac:(lia)) as Hz8. pose proof (field_len size 12 ltac:(lia) ltac:(lia)) as Hsz.
  pose proof (field_len 0 12 ltac:(lia) ltac:(lia)) as Hz12.
  pose proof (blankFields_len (encodeText name) _ _ _ _ Hn Hmode Hz8 Hsz Hz12) as Hlen. fold blank in Hlen.
  assert (wf_bytes blank) as Hwf.
  { unfold blank, blankFields. repeat apply wf_bset; try apply wf_zeros; try apply (encode_bytes _ _ Hcodec);
      try (apply digits_wf, pad_digits; try apply land_mode; lia); repeat constructor; unfold is_byte; lia. }
  assert (0 <= sum < 8 ^ 6) as Hsum.
  { assert (wf_bytes (repeat 32 8)) by (repeat constructor; unfold is_byte; lia).
    pose proof (sum_bound (bset blank 148 (repeat 32 8)) (wf_bset _ _ _ Hwf ltac:(done))) as Hb.
    rewrite bset512 in Hb by (done || lia). unfold sum. lia. }
  split; [|done]. unfold tarHeader. rewrite blank_shape by done. cbn [bind_result]. fold blank sum.
  destruct (pad_digits sum 6 (proj1 Hsum)) as [Hd _].
  rewrite writeString_ascii by (by apply digits_ascii).
  pose proof (field_len sum 7 ltac:(lia) ltac:(lia)) as Hl. unfold field in Hl. change (7 - 1) with 6 in Hl. rewrite Hl.
  done.
Qed.

(** The archive: header, contents, then zeros to two blocks past the padded contents. *)
Lemma archive_parts header contents : blen header = 512 ->
  let padded := ceilDiv (blen contents) BLOCK * BLOCK in
  let a := bset (bset (repeat 0 (Z.to_nat (BLOCK + padded + BLOCK * 2))) 0 header) BLOCK contents in
  blen contents <= padded < blen contents + BLOCK /\ blen a = BLOCK + padded + BLOCK * 2 /\
  bslice a 0 BLOCK = header /\ bslice a BLOCK (BLOCK + blen contents) = contents /\
  bslice a (BLOCK + blen contents) (blen a) = repeat 0 (Z.to_nat (blen a - BLOCK - blen contents)).
Proof.
  intros Hh padded a. pose proof (blen_nonneg contents).
  assert (blen contents <= padded < blen contents + BLOCK) as Hp.
  { unfold padded, ceilDiv, BLOCK. pose proof (Z.div_mod (- blen contents) 512 ltac:(lia)).
    pose proof (Z.mod_pos_bound (- blen contents) 512 ltac:(lia)). lia. }
  unfold BLOCK in *. set (z := repeat 0 _) in *.
  assert (blen z = 512 + padded + 512 * 2) as Hz by (unfold z, blen; rewrite repeat_length; lia).
  assert (blen a = 512 + padded + 512 * 2) as Ha by (unfold a; rewrite !bset_length; rewrite ?bset_length; lia).
  split_and!; [lia|lia|done| | |]; unfold a.
  - rewrite bslice_bset_before by (rewrite ?bset_length; lia).
    rewrite bslice_bset_same by lia. rewrite Hh, bslice_empty, app_nil_r by lia. done.
  - rewrite bslice_bset_same by (rewrite ?bset_length; lia). rewrite bslice_empty, app_nil_r by lia. done.
  - fold a. rewrite Ha. unfold a. rewrite !bslice_bset_after by (rewrite ?bset_length; lia).
    unfold z. rewrite bslice_zeros by lia. f_equal. lia.
Qed.

(** The reader on an archive whose first header is that of a regular file. *)
Lemma untar_first a h nm size : blen h = 512 -> 512 <= blen a -> bslice a 0 BLOCK = h ->
  bslice h 0 100 = nm ++ repeat 0 (Z.to_nat (100 - blen nm)) -> Forall (fun b => b <> 0) nm ->
  bslice h 124 136 = field size 12 ++ [0] -> 0 <= size -> bslice h 156 157 = [48] ->
  untarFirstFile decodeText a = Some (Some (decodeText nm, subarray a BLOCK (BLOCK + size))).
Proof.
  intros Hlen Ha Hhead Hname Hnul Hsize Hs Htype. unfold untarFirstFile. cbn [untar_fuel]. rewrite Z.add_0_l.
  destruct (Z.ltb_spec (blen a) BLOCK); [unfold BLOCK in *; lia|].
  rewrite (subarray_in a 0) by (unfold BLOCK in *; lia). rewrite Hhead.
  assert (h !! 156%nat = Some 48) as Hty.
  { unfold bslice in Htype. change (Z.to_nat (157 - 156)) with 1%nat in Htype. change (Z.to_nat 156) with 156%nat in Htype.
    destruct (drop 156 h) as [|x l] eqn:E; [done|]. simpl in Htype. injection Htype as [= ->].
    rewrite <- (Nat.add_0_r 156), <- lookup_drop, E. done. }
  assert (forallb (Z.eqb 0) h = false) as Hnz.
  { apply not_true_iff_false. rewrite forallb_forall. intros Hall. pose proof Hty as Hty'.
    apply list_elem_of_lookup_2, list_elem_of_In in Hty'. by apply Hall in Hty'. }
  rewrite Hnz, Hty. unfold headerSize, NAME_MAX.
  rewrite (subarray_in h 0), (subarray_in h 124) by lia. rewrite Hname, Hsize.
  by rewrite untilNul_zeros, field_reads by done.
Qed.

(** The fields of the header the writer makes. *)
Lemma header_fields name size mode h : blen (encodeText name) <= NAME_MAX -> 0 <= size < 8 ^ 11 ->
  tarHeader encodeText name size mode = Ok h ->
  blen h = 512 /\ bslice h 0 100 = encodeText name ++ repeat 0 (Z.to_nat (100 - blen (encodeText name))) /\
  bslice h 124 136 = field size 12 ++ [0] /\ bslice h 156 157 = [48] /\
  bslice h 148 156 = field (checksum (bset h 148 (repeat 32 8))) 7 ++ [0; 32].
Proof.
  intros Hn Hs Hh. pose proof (header_shape name size mode Hn Hs) as [E Hsum]. rewrite E in Hh. injection Hh as <-.
  pose proof (field_len (Z.land mode 4095) 8 (land_mode mode) ltac:(lia)) as Hmode.
  pose proof (field_len 0 8 ltac:(lia) ltac:(lia)) as Hz8. pose proof (field_len size 12 ltac:(lia) ltac:(lia)) as Hsz.
  pose proof (field_len 0 12 ltac:(lia) ltac:(lia)) as Hz12. pose proof (field_len _ 7 Hsum ltac:(lia)) as Hs6.
  split_and!; [by apply fullFields_len|by apply full_name|by apply full_size|by apply full_type|].
  rewrite full_respaced by (done || by apply blankFields_len). by apply full_sum.
Qed.

Lemma header_total name size mode : blen (encodeText name) <= NAME_MAX -> 0 <= size < 8 ^ 11 ->
  exists h, tarHeader encodeText name size mode = Ok h.
Proof. intros Hn Hs. eexists. exact (proj1 (header_shape name size mode Hn Hs)). Qed.

(** The writer on an input it accepts. *)
Lemma tar_shape name contents mode : blen (encodeText name) <= NAME_MAX -> blen contents < 8 ^ 11 ->
  exists h, tarHeader encodeText name (blen contents) mode = Ok h /\
    tarSingleFile encodeText name contents mode =
    Ok (bset (bset (repeat 0 (Z.to_nat (BLOCK + ceilDiv (blen contents) BLOCK * BLOCK + BLOCK * 2))) 0 h) BLOCK contents).
Proof.
  intros Hn Hc. pose proof (blen_nonneg contents).
  destruct (header_total name (blen contents) mode Hn ltac:(lia)) as [h Hh]. exists h. split; [done|].
  unfold tarSingleFile. destruct (Z.gtb_spec (blen (encodeText name)) NAME_MAX); [lia|]. by rewrite Hh.
Qed.

(** What is packed comes out: for a name of at most 100 bytes without NUL and
    contents below eight gibibytes, the archive the writer makes reads back as that name
    and exactly those contents, whatever bytes they are. *)
Theorem tar_roundtrip (name contents : list Z) (mode : Z) :
  blen (encodeText name) <= NAME_MAX -> Forall (fun b => b <> 0) (encodeText name) ->
  blen contents < 8 ^ 11 ->
  exists archive, tarSingleFile encodeText name contents mode = Ok archive /\
    untarFirstFile decodeText archive = Some (Some (decodeText (encodeText name), contents)).
Proof.
  intros Hn Hnul Hc. pose proof (blen_nonneg contents).
  destruct (tar_shape name contents mode Hn Hc) as (h & Hh & Ht). eexists. split; [exact Ht|]. clear Ht.
  destruct (header_fields name (blen contents) mode h Hn ltac:(lia) Hh) as (Hlen & Hname & Hsize & Htype & _).
  destruct (archive_parts h contents Hlen) as (Hp & Ha & Hhead & Hbody & _).
  rewrite (untar_first _ h (encodeText name) (blen contents)); try done; [|unfold BLOCK in *; lia].
  rewrite subarray_in by (unfold BLOCK in *; lia). by rewrite Hbody.
Qed.

(** The archive is one every reader accepts: its length is a whole number of blocks,
    the header's checksum field holds, as six octal digits, NUL and space, the sum of the
    header's bytes with that field read as spaces, and after the contents come only zeros,
    at least two blocks of them. *)
Theorem tar_well_formed (name contents archive : list Z) (mode : Z) :
  tarSingleFile encodeText name contents mode = Ok archive -> blen contents < 8 ^ 11 ->
  let h := bslice archive 0 BLOCK in
  blen archive mod BLOCK = 0 /\ blen h = BLOCK /\
  bslice h 148 156 = field (checksum (bset h 148 (repeat 32 8))) 7 ++ [0; 32] /\
  octalPrefix 0 (bslice h 148 156) = checksum (bset h 148 (repeat 32 8)) /\
  bslice archive (BLOCK + blen contents) (blen archive)
    = repeat 0 (Z.to_nat (blen archive - BLOCK - blen contents)) /\
  BLOCK * 2 <= blen archive - BLOCK - blen contents.
Proof.
  intros Ht Hc. pose proof (blen_nonneg contents).
  assert (blen (encodeText name) <= NAME_MAX) as Hn.
  { unfold tarSingleFile in Ht. by destruct (Z.gtb_spec (blen (encodeText name)) NAME_MAX). }
  destruct (tar_shape name contents mode Hn Hc) as (h & Hh & Ht'). rewrite Ht in Ht'. injection Ht' as ->.
  destruct (header_fields name (blen contents) mode h Hn ltac:(lia) Hh) as (Hlen & _ & _ & _ & Hsum).
  destruct (archive_parts h contents Hlen) as (Hp & Ha & Hhead & _ & Hzero). cbv zeta in *. rewrite Hhead.
  assert (0 <= checksum (bset h 148 (repeat 32 8))) as Hpos.
  { pose proof (header_shape name (blen contents) mode Hn ltac:(lia)) as [E Hb]. cbv zeta in Hb. rewrite E in Hh. injection Hh as <-.
    rewrite full_respaced; [exact (proj1 Hb)|apply field_len; [exact Hb|lia]|].
    apply blankFields_len; [done|..]; apply field_len; try apply land_mode; lia. }
  split_and!; [|done|done| |done|rewrite Ha; unfold BLOCK in *; lia].
  - rewrite Ha. unfold BLOCK. replace (512 + ceilDiv (blen contents) 512 * 512 + 512 * 2)
      with ((3 + ceilDiv (blen contents) 512) * 512) by lia. apply Z_mod_mult.
  - rewrite Hsum. destruct (pad_digits _ (7 - 1) Hpos) as [Hd Hv]. fold (field (checksum (bset h 148 (repeat 32 8))) 7) in *.
    rewrite octalPrefix_app, Hv by done. done.
Qed.

(** The writer refuses exactly the inputs its format has no room for. *)
Theorem tar_refuses (name contents : list Z) (mode : Z) (e : TarError) :
  tarSingleFile encodeText name contents mode = Throw e ->
  (NAME_MAX < blen (encodeText name) /\ e = NameTooLong) \/
  (8 ^ 11 <= blen contents /\ exists got, e = FieldTooLong got 11).
Proof.
  intros Ht. destruct (Z.lt_ge_cases NAME_MAX (blen (encodeText name))) as [Hn|Hn].
  { left. split; [done|]. unfold tarSingleFile in Ht.
    destruct (Z.gtb_spec (blen (encodeText name)) NAME_MAX); [congruence|lia]. }
  right. destruct (Z.lt_ge_cases (blen contents) (8 ^ 11)) as [Hc|Hc].
  { destruct (tar_shape name contents mode Hn Hc) as (h & _ & Ht'). congruence. }
  split; [done|]. unfold tarSingleFile in Ht. destruct (Z.gtb_spec (blen (encodeText name)) NAME_MAX); [lia|].
  unfold tarHeader, tarHeaderBlank in Ht. unfold writeString at 1 in Ht.
  destruct (Z.gtb_spec (blen (encodeText name)) NAME_MAX); [lia|]. cbn [bind_result] in Ht.
  rewrite (proj1 (writeOctal_ok _ 100 _ 8 (land_mode mode) ltac:(lia))) in Ht. cbn [bind_result] in Ht.
  rewrite (proj1 (writeOctal_ok _ 108 0 8 ltac:(lia) ltac:(lia))) in Ht. cbn [bind_result] in Ht.
  rewrite (proj1 (writeOctal_ok _ 116 0 8 ltac:(lia) ltac:(lia))) in Ht. cbn [bind_result] in Ht.
  match type of Ht with context [writeOctal _ ?b 124 _ _] =>
    destruct (writeOctal_overflow b 124 (blen contents) 12 ltac:(lia) ltac:(lia)) as [got Eg] end.
  rewrite Eg in Ht. cbn [bind_result] in Ht. exists got. by injection Ht as <-.
Qed.

(** ** Reading any archive *)

Lemma untar_total_from archive offset fuel : 0 <= offset ->
  (forall o, 0 <= o -> 0 <= headerSize decodeText (subarray archive o (o + BLOCK))) ->
  (0 < fuel)%nat -> blen archive < offset + BLOCK * Z.of_nat fuel -> untar_fuel decodeText fuel archive offset <> None.
Proof.
  intros Ho Hsz. revert offset Ho. induction fuel as [|fuel IH]; intros offset Ho Hpos Hf; [lia|].
  cbn [untar_fuel]. destruct (Z.ltb_spec (blen archive) (offset + BLOCK)); [done|].
  destruct (forallb _ _); [done|]. specialize (Hsz offset Ho).
  assert (0 <= ceilDiv (headerSize decodeText (subarray archive offset (offset + BLOCK))) BLOCK) as Hc.
  { unfold ceilDiv, BLOCK in *. pose proof (Z.div_le_upper_bound (- headerSize decodeText (subarray archive offset (offset + 512))) 512 0). lia. }
  assert (untar_fuel decodeText fuel archive (offset + BLOCK +
    ceilDiv (headerSize decodeText (subarray archive offset (offset + BLOCK))) BLOCK * BLOCK) <> None) as Hrec.
  { apply IH; unfold BLOCK in *; lia. }
  destruct (subarray archive offset (offset + BLOCK) !! 156%nat) as [[|p|p]|]; try done.
  repeat (destruct p as [p|p|]; try done).
Qed.

(** The reader returns on every archive whose size fields are not negative, even a
    truncated or otherwise malformed one. *)
Theorem untar_total (archive : list Z) :
  (forall o, 0 <= o -> 0 <= headerSize decodeText (subarray archive o (o + BLOCK))) ->
  untarFirstFile decodeText archive <> None.
Proof.
  intros H. apply untar_total_from; [done|done|lia|]. unfold BLOCK. pose proof (Z.div_mod (blen archive) 512 ltac:(lia)).
  pose proof (Z.mod_pos_bound (blen archive) 512 ltac:(lia)).
  pose proof (Z.div_pos (blen archive) 512 (blen_nonneg _) ltac:(lia)). lia.
Qed.
End Header.

(** A size field may carry a sign: a directory entry of size -1000 (octal, -512) makes the
    reader compute the offset it is already at, and it never returns. *)
Definition signedHeader : list Z :=
  bset (bset (bset (repeat 0 512) 0 [120]) 124 [45; 49; 48; 48; 48]) 156 [53].

Theorem untar_signed_size_diverges (fuel : nat) : untar_fuel (fun l => l) fuel signedHeader 0 = None.
Proof. 
  induction fuel as [|fuel IH]; [done|].
  cbn [untar_fuel].
  assert (blen signedHeader <? 0 + BLOCK = false) as -> by (vm_compute; reflexivity).
  assert (subarray signedHeader 0 (0 + BLOCK) = signedHeader) as -> by (vm_compute; reflexivity).
  assert (forallb (Z.eqb 0) signedHeader = false) as -> by (vm_compute; reflexivity).
  assert (signedHeader !! 156%nat = Some 53) as -> by (vm_compute; reflexivity).
  assert (headerSize (fun l => l) signedHeader = -512) as -> by (vm_compute; reflexivity). exact IH.
Qed.

(** ** Witnesses *)

(** A codec that keeps ASCII and writes every other unit as a question mark. *)
Definition asciiEncode (l : list Z) : list Z := List.map (fun u => if (0 <=? u) && (u <? 128) then u else 63) l.

Lemma ascii_codec_ex : ascii_codec asciiEncode (fun l => l).
Proof.
  split; [| |done].
  - intros l. unfold asciiEncode, wf_bytes. apply List.Forall_map, List.Forall_forall. intros u _. unfold is_byte.
    destruct (Z.leb_spec 0 u), (Z.ltb_spec u 128); cbn [andb]; lia.
  - intros l H. unfold asciiEncode. induction H as [|u l Hu Hl IH]; [done|]. cbn [List.map]. rewrite IH.
    destruct (Z.leb_spec 0 u), (Z.ltb_spec u 128); cbn [andb]; try lia. done.
Qed.

Lemma tar_roundtrip_witness :
  exists archive, tarSingleFile asciiEncode [97; 46; 115; 104] [1; 0; 255] 493 = Ok archive /\
    untarFirstFile (fun l => l) archive = Some (Some ([97; 46; 115; 104], [1; 0; 255])).
Proof.
  apply (tar_roundtrip asciiEncode (fun l => l) ascii_codec_ex [97; 46; 115; 104] [1; 0; 255] 493).
  - vm_compute. congruence.
  - repeat constructor; vm_compute; congruence.
  - vm_compute. congruence.
Defined.

Definition ex_archive : list Z :=
  match tarSingleFile asciiEncode [97] [7] 420 with Ok a => a | Throw _ => [] end.

Lemma tar_well_formed_witness :
  octalPrefix 0 (bslice (bslice ex_archive 0 BLOCK) 148 156)
  = checksum (bset (bslice ex_archive 0 BLOCK) 148 (repeat 32 8)).
Proof.
  apply (tar_well_formed asciiEncode (fun l => l) ascii_codec_ex [97] [7] ex_archive 420).
  - vm_compute. reflexivity.
  - vm_compute. reflexivity.
Defined.
