(* ===== verification/Base64.v ===== *)
(** * Base64 text

    [Buffer.toString('base64')] as the alphabet and padding of RFC 4648, and the URL-safe
    form without padding that [packages/server/src/services/oauth/state.ts] writes
    ([base64url], [base64urlDecode]). The platform's decoder is a parameter of which only
    that it reads what the encoder wrote is used; [readBase64] is one such decoder. *)
From Stdlib Require Import ZArith Lia Ascii String List Bool.
From stdpp Require Import base list strings option.
From S2P Require Import Prelude JsString Bytes.

Open Scope string_scope.
Open Scope list_scope.
Open Scope Z_scope.

Definition BASE64_ALPHABET : string := "ABCDEFGHIJKLMNOPQRSTUVWXYZabcdefghijklmnopqrstuvwxyz0123456789+/".

(** The character of a number below 64. *)
Definition sextetChar (n : Z) : ascii := default "A"%char (String.get (Z.to_nat n) BASE64_ALPHABET).
Definition text4 (a b c d : ascii) (s : string) : string := String a (String b (String c (String d s))).

Fixpoint toBase64 (l : list Z) : string :=
  match l with
  | [] => ""
  | [a] => text4 (sextetChar (a / 4)) (sextetChar (a mod 4 * 16)) "=" "=" ""
  | [a; b] => text4 (sextetChar (a / 4)) (sextetChar (a mod 4 * 16 + b / 16)) (sextetChar (b mod 16 * 4)) "=" ""
  | a :: b :: c :: l =>
      text4 (sextetChar (a / 4)) (sextetChar (a mod 4 * 16 + b / 16)) (sextetChar (b mod 16 * 4 + c / 64)) (sextetChar (c mod 64))
        (toBase64 l)
  end.

(** [s.replace(/=+$/, '')]. *)
Fixpoint stripPadding (s : string) : string :=
  match s with
  | EmptyString => EmptyString
  | String c s' => match stripPadding s' with
                   | EmptyString => if Ascii.eqb c "=" then EmptyString else String c EmptyString
                   | t => String c t
                   end
  end.

(** [s.replace(/a/g, b)] for one-character [a] and [b]. *)
Fixpoint replaceChar (a b : ascii) (s : string) : string :=
  match s with
  | EmptyString => EmptyString
  | String c s => String (if Ascii.eqb c a then b else c) (replaceChar a b s)
  end.

Definition base64url (l : list Z) : string := replaceChar "/" "_" (replaceChar "+" "-" (stripPadding (toBase64 l))).

(** [c.repeat(n)]. *)
Fixpoint repeatChar (c : ascii) (n : nat) : string := match n with O => EmptyString | S n => String c (repeatChar c n) end.

Definition padded (s : string) : string :=
  replaceChar "_" "/" (replaceChar "-" "+" s) +:+ repeatChar "=" ((4 - String.length s mod 4) mod 4).

Section Decoder.
Variable fromBase64 : string -> list Z.
Definition base64urlDecode (s : string) : list Z := fromBase64 (padded s).
End Decoder.

(** What a decoder promises: it reads what the encoder wrote. *)
Class Base64Decoder (fromBase64 : string -> list Z) : Prop := {
  decodes : forall l, wf_bytes l -> fromBase64 (toBase64 l) = l;
}.

(** ** A decoder *)

Definition charSextet (c : ascii) : option Z :=
  let n := code c in
  if (65 <=? n) && (n <=? 90) then Some (n - 65)
  else if (97 <=? n) && (n <=? 122) then Some (n - 71)
  else if (48 <=? n) && (n <=? 57) then Some (n + 4)
  else if (n =? 43) || (n =? 45) then Some 62
  else if (n =? 47) || (n =? 95) then Some 63 else None.

(** The numbers of the alphabet's characters, up to the padding; others are skipped. *)
Fixpoint sextets (s : string) : list Z :=
  match s with
  | EmptyString => []
  | String c s => if Ascii.eqb c "=" then [] else match charSextet c with Some n => n :: sextets s | None => sextets s end
  end.
Fixpoint octets (l : list Z) : list Z :=
  match l with
  | a :: b :: c :: d :: l => (a * 4 + b / 16) :: (b mod 16 * 16 + c / 4) :: (c mod 4 * 64 + d) :: octets l
  | [a; b; c] => [a * 4 + b / 16; b mod 16 * 16 + c / 4]
  | [a; b] => [a * 4 + b / 16]
  | _ => []
  end.
Definition readBase64 (s : string) : list Z := octets (sextets s).

(** ** Lemmas *)

Definition in_alphabet (c : ascii) : bool := match charSextet c with Some _ => negb (Ascii.eqb c "-" || Ascii.eqb c "_") | None => false end.

Fixpoint sextetsFrom (k : nat) (n : Z) : list Z := match k with O => [] | S k => n :: sextetsFrom k (n + 1) end.

Lemma sextet_cases (P : Z -> Prop) : Forall P (sextetsFrom 64 0) -> forall n, 0 <= n < 64 -> P n.
Proof.
  assert (forall k m, Forall P (sextetsFrom k m) -> forall n, m <= n < m + Z.of_nat k -> P n) as H.
  { induction k as [|k IH]; intros m Hf n Hn; [lia|]. cbn in Hf. apply list.Forall_cons in Hf as [Hm Hf].
    destruct (decide (n = m)) as [->|]; [done|]. apply (IH (m + 1)); [done|lia]. }
  intros Hf n Hn. apply (H 64%nat 0); [done|lia].
Qed.

Lemma sextetChar_alphabet n : 0 <= n < 64 -> charSextet (sextetChar n) = Some n /\ in_alphabet (sextetChar n) = true.
Proof.
  revert n. apply sextet_cases. cbn [sextetsFrom]. repeat (apply list.Forall_cons; split; [by split|]). by apply list.Forall_nil.
Qed.

Lemma in_alphabet_not c : in_alphabet c = true -> Ascii.eqb c "=" = false /\ Ascii.eqb c "-" = false /\ Ascii.eqb c "_" = false.
Proof. destruct c as [[] [] [] [] [] [] [] []]; by cbn. Qed.

(** Three bytes are read back from four characters. *)
Lemma group_split a b c : is_byte a -> is_byte b -> is_byte c ->
  0 <= a / 4 < 64 /\ 0 <= a mod 4 * 16 + b / 16 < 64 /\ 0 <= b mod 16 * 4 + c / 64 < 64 /\ 0 <= c mod 64 < 64 /\
  a / 4 * 4 + (a mod 4 * 16 + b / 16) / 16 = a /\
  (a mod 4 * 16 + b / 16) mod 16 * 16 + (b mod 16 * 4 + c / 64) / 4 = b /\
  (b mod 16 * 4 + c / 64) mod 4 * 64 + c mod 64 = c.
Proof. unfold is_byte. intros Ha Hb Hc. Z.div_mod_to_equations. lia. Qed.

Definition byte_text (s : string) : Prop := everyChar in_alphabet s = true.

(** The text of a byte sequence: characters of the alphabet, then the padding that makes its
    length a multiple of four. *)
Lemma toBase64_shape l : wf_bytes l -> exists s k, toBase64 l = s +:+ repeatChar "=" k /\ byte_text s /\ (k <= 2)%nat /\
  ((String.length s + k) mod 4 = 0)%nat /\ octets (sextets s) = l.
Proof.
  revert l. fix IH 1. intros [|a [|b [|c l]]] Hl; cbn [toBase64].
  - exists "", 0%nat. split_and!; [done|done|lia|done|done].
  - apply list.Forall_cons in Hl as [Ha _]. pose proof (group_split a 0 0 Ha ltac:(done) ltac:(done)) as (H1 & H2 & _ & _ & H3 & _).
    change (0 / 16) with 0 in *. rewrite Z.add_0_r in H2, H3.
    exists (String (sextetChar (a / 4)) (String (sextetChar (a mod 4 * 16)) "")), 2%nat.
    destruct (sextetChar_alphabet _ H1) as [E1 A1], (sextetChar_alphabet _ H2) as [E2 A2].
    split_and!; [done|unfold byte_text; cbn [everyChar]; by rewrite A1, A2|lia|done|].
    cbn [sextets]. destruct (in_alphabet_not _ A1) as [-> _], (in_alphabet_not _ A2) as [-> _]. rewrite E1, E2. cbn [octets]. by rewrite H3.
  - apply list.Forall_cons in Hl as [Ha [Hb _]%list.Forall_cons].
    pose proof (group_split a b 0 Ha Hb ltac:(done)) as (H1 & H2 & H3 & _ & H4 & H5 & _).
    change (0 / 64) with 0 in *. rewrite Z.add_0_r in H3, H5.
    exists (String (sextetChar (a / 4)) (String (sextetChar (a mod 4 * 16 + b / 16)) (String (sextetChar (b mod 16 * 4)) ""))), 1%nat.
    destruct (sextetChar_alphabet _ H1) as [E1 A1], (sextetChar_alphabet _ H2) as [E2 A2], (sextetChar_alphabet _ H3) as [E3 A3].
    split_and!; [done|unfold byte_text; cbn [everyChar]; by rewrite A1, A2, A3|lia|done|].
    cbn [sextets]. destruct (in_alphabet_not _ A1) as [-> _], (in_alphabet_not _ A2) as [-> _], (in_alphabet_not _ A3) as [-> _].
    rewrite E1, E2, E3. cbn [octets]. by rewrite H4, H5.
  - apply list.Forall_cons in Hl as [Ha [Hb [Hc Hl]%list.Forall_cons]%list.Forall_cons].
    pose proof (group_split a b c Ha Hb Hc) as (H1 & H2 & H3 & H4 & H5 & H6 & H7).
    destruct (IH l Hl) as (s & k & Es & Ht & Hk & Hm & Ho).
    destruct (sextetChar_alphabet _ H1) as [E1 A1], (sextetChar_alphabet _ H2) as [E2 A2], (sextetChar_alphabet _ H3) as [E3 A3],
      (sextetChar_alphabet _ H4) as [E4 A4].
    exists (text4 (sextetChar (a / 4)) (sextetChar (a mod 4 * 16 + b / 16)) (sextetChar (b mod 16 * 4 + c / 64)) (sextetChar (c mod 64)) s), k.
    split_and!.
    + by rewrite Es.
    + unfold byte_text, text4. cbn [everyChar]. by rewrite A1, A2, A3, A4.
    + done.
    + unfold text4. cbn [String.length]. replace (S (S (S (S (String.length s)))) + k)%nat with (String.length s + k + 1 * 4)%nat by lia.
      rewrite Nat.Div0.mod_add. exact Hm.
    + unfold text4. cbn [sextets].
      destruct (in_alphabet_not _ A1) as [-> _], (in_alphabet_not _ A2) as [-> _], (in_alphabet_not _ A3) as [-> _], (in_alphabet_not _ A4) as [-> _].
      rewrite E1, E2, E3, E4. cbn [octets]. by rewrite H5, H6, H7, Ho.
Qed.

Lemma sextets_pad s k : sextets (s +:+ repeatChar "=" k) = sextets s.
Proof.
  induction s as [|c s IH]; [by destruct k|]. rewrite app_str_cons. cbn [sextets]. destruct (Ascii.eqb c "="); [done|].
  by rewrite IH.
Qed.

#[local] Instance readBase64_decodes : Base64Decoder readBase64.
Proof. split. intros l (s & k & -> & _ & _ & _ & H)%toBase64_shape. unfold readBase64. by rewrite sextets_pad. Qed.

Lemma strip_pad s k : byte_text s -> stripPadding (s +:+ repeatChar "=" k) = s.
Proof.
  unfold byte_text. induction s as [|c s IH]; intros H.
  - change (stripPadding (repeatChar "=" k) = ""). induction k as [|k IHk]; [done|]. cbn [repeatChar stripPadding]. by rewrite IHk.
  - rewrite app_str_cons. cbn [everyChar] in H. cbn [stripPadding]. apply andb_true_iff in H as [Hc Hs]. rewrite (IH Hs).
    destruct s; [|done]. by destruct (in_alphabet_not c Hc) as [-> _].
Qed.

(** The URL-safe letters are put back. *)
Lemma url_letters s : byte_text s -> replaceChar "_" "/" (replaceChar "-" "+" (replaceChar "/" "_" (replaceChar "+" "-" s))) = s.
Proof.
  unfold byte_text. induction s as [|c s IH]; [done|]. cbn [everyChar]. intros [Hc Hs]%andb_true_iff. cbn [replaceChar].
  rewrite (IH Hs). f_equal. clear -Hc. destruct c as [[] [] [] [] [] [] [] []]; by cbn in *.
Qed.

Lemma replace_length a b s : String.length (replaceChar a b s) = String.length s.
Proof. induction s as [|c s IH]; [done|]. cbn. by rewrite IH. Qed.

Lemma padding_back n k : (k <= 2)%nat -> ((n + k) mod 4 = 0)%nat -> ((4 - n mod 4) mod 4 = k)%nat.
Proof.
  intros Hk H. pose proof (Nat.mod_upper_bound n 4 ltac:(lia)). rewrite <- Nat.Div0.add_mod_idemp_l in H.
  destruct k as [|[|[|k]]]; [| | |lia]; destruct (n mod 4)%nat as [|[|[|[|m]]]]; by cbn in *; try lia.
Qed.

(** Every byte sequence survives the URL-safe form. *)
Lemma base64url_roundtrip fromBase64 `{!Base64Decoder fromBase64} l : wf_bytes l -> base64urlDecode fromBase64 (base64url l) = l.
Proof.
  intros Hl. destruct (toBase64_shape l Hl) as (s & k & Es & Ht & Hk & Hm & _). unfold base64urlDecode, padded, base64url.
  rewrite Es, (strip_pad s k Ht), !replace_length, (url_letters s Ht), (padding_back _ k Hk Hm), <- Es. by apply decodes.
Qed.

Lemma replace_has a b d s : Ascii.eqb b d = false -> has_char d s = false -> has_char d (replaceChar a b s) = false.
Proof.
  intros Hb. induction s as [|c s IH]; [done|]. cbn. intros [Hc Hs]%orb_false_iff. rewrite (IH Hs), orb_false_r.
  by destruct (Ascii.eqb c a).
Qed.

(** The URL-safe form has no full stop. *)
Lemma base64url_no_dot l : wf_bytes l -> has_char "." (base64url l) = false.
Proof.
  intros Hl. destruct (toBase64_shape l Hl) as (s & k & Es & Ht & _). unfold base64url. rewrite Es, (strip_pad s k Ht).
  apply replace_has; [done|]. apply replace_has; [done|]. by apply (everyChar_no_char in_alphabet).
Qed.

Lemma base64url_nonempty l : wf_bytes l -> l <> [] -> base64url l <> "".
Proof.
  intros Hl Hn H. destruct (toBase64_shape l Hl) as (s & k & Es & Ht & _ & _ & Ho). unfold base64url in H. rewrite Es, (strip_pad s k Ht) in H.
  destruct s; [by subst l|done].
Qed.
