(* ===== verification/MasterKey.v ===== *)
(** * Encryption and the master key

    A model of [packages/server/src/crypto/encryption.ts] and [master-key.ts]: the format of an
    encrypted value, and the manager that enrols, checks and holds the unlock key. The
    platform's cipher, key derivation and text codec are parameters ([Platform]) with the laws
    it documents. The manager's asynchronous operations are cut at their awaits: an operation
    that waits is a [Stage], and steps of different operations interleave in any order.
    [initialize], which runs before anything else, is one function. *)
From Stdlib Require Import ZArith Lia Ascii String List Bool.
From stdpp Require Import base list strings gmap option.
From S2P Require Import Prelude JsString Bytes Tar Base64.

Open Scope string_scope.
Open Scope list_scope.
Open Scope Z_scope.

Definition Key : Type := list Z.

Definition IV_LENGTH : Z := 12.
Definition AUTH_TAG_LENGTH : Z := 16.
Definition CANARY_PLAINTEXT : string := "CANARY".
Definition CANARY_PURPOSE : string := "master-key-canary".
Definition CANARY_META : string := "master_key_canary".
Definition AUTH_PUBLIC_KEY_META : string := "auth_public_key".

(** AES-256-GCM, HKDF-SHA256, UTF-8 and the decoder of Base64. *)
Record Platform := mkPlatform {
  seal : Key -> list Z -> list Z -> list Z * list Z;
  unseal : Key -> list Z -> list Z -> list Z -> option (list Z);
  hkdf : string -> list Z -> list Z -> Key;
  utf8 : string -> list Z;
  fromUtf8 : list Z -> string;
  fromBase64 : string -> list Z;
  verifies : string -> string -> string -> bool
}.

Class PlatformLaws (P : Platform) : Prop := {
  seal_bytes : forall k iv p, wf_bytes p -> wf_bytes (fst (seal P k iv p)) /\ wf_bytes (snd (seal P k iv p));
  seal_tag : forall k iv p, blen (snd (seal P k iv p)) = AUTH_TAG_LENGTH;
  seal_unseal : forall k iv p, wf_bytes p -> blen iv = IV_LENGTH ->
    unseal P k iv (snd (seal P k iv p)) (fst (seal P k iv p)) = Some p;
  utf8_bytes : forall s, wf_bytes (utf8 P s);
  utf8_text : forall s, fromUtf8 P (utf8 P s) = s;
  platform_base64 : Base64Decoder (fromBase64 P);
}.
#[export] Existing Instance platform_base64.

Section Encryption.
Variable P : Platform.

Definition encrypt (iv : list Z) (plaintext : string) (key : Key) : string :=
  let '(encrypted, authTag) := seal P key iv (utf8 P plaintext) in toBase64 (iv ++ encrypted ++ authTag).

Inductive CryptoError := AuthenticationFailed.

Definition decrypt (ciphertext : string) (key : Key) : result CryptoError string :=
  let data := fromBase64 P ciphertext in
  let iv := subarray data 0 IV_LENGTH in
  let authTag := subarray data (blen data - AUTH_TAG_LENGTH) (blen data) in
  let encrypted := subarray data IV_LENGTH (blen data - AUTH_TAG_LENGTH) in
  match unseal P key iv authTag encrypted with
  | Some p => Ok (fromUtf8 P p)
  | None => Throw AuthenticationFailed
  end.

Definition deriveKey (masterKey purpose : string) : Key := hkdf P masterKey (utf8 P purpose) (utf8 P "hezo").

(** ** The manager *)

Inductive MasterKeyState := Unset_ | Locked | Unlocked.

(** [mk_deriving] maps a purpose to the promise of its derivation; [mk_fired] counts the times
    the unlock callbacks ran. *)
Record Manager := mkManager {
  mk_key : option Key; mk_derived : gmap string Key; mk_deriving : gmap string nat; mk_unlock : option string;
  mk_auth : option string; mk_state : MasterKeyState; mk_fired : nat
}.

(** An operation between two of its awaits. *)
Inductive Stage :=
| SetupDerived (u pk : string)
| SetupStored (u pk : string)
| UnlockCalled (u : string)
| UnlockChecking (u : string) (canary : option string)
| Unlocking (u : string)
| AwaitingKey (purpose : string) (promise : nat)
| Finished.

(** [sy_promises] are the derivations started, each with the key it resolves to; [sy_served]
    the keys handed to callers of [getDerivedKey]; [sy_meta] the table [system_meta]. *)
Record System := mkSystem {
  sy_mgr : Manager; sy_meta : gmap string string; sy_ops : list Stage; sy_promises : list Key; sy_served : list (string * Key)
}.

Definition setMgr (f : Manager -> Manager) (s : System) : System :=
  mkSystem (f (sy_mgr s)) (sy_meta s) (sy_ops s) (sy_promises s) (sy_served s).
Definition setMeta (m : gmap string string) (s : System) : System :=
  mkSystem (sy_mgr s) m (sy_ops s) (sy_promises s) (sy_served s).
Definition setOps (l : list Stage) (s : System) : System :=
  mkSystem (sy_mgr s) (sy_meta s) l (sy_promises s) (sy_served s).
Definition pushStage (o : Stage) (s : System) : System := setOps (sy_ops s ++ [o]) s.
Definition serve (purpose : string) (k : Key) (s : System) : System :=
  mkSystem (sy_mgr s) (sy_meta s) (sy_ops s) (sy_promises s) (sy_served s ++ [(purpose, k)]).

Definition loadCanary (meta : gmap string string) : option string := meta !! CANARY_META.

Definition checkCanary (encryptedCanary unlockKeyHex : string) : bool :=
  match decrypt encryptedCanary (deriveKey unlockKeyHex CANARY_PURPOSE) with
  | Ok text => String.eqb text CANARY_PLAINTEXT
  | Throw _ => false
  end.

(** [setUnlocked], up to its await. *)
Definition beginUnlocked (u : string) (m : Manager) : Manager :=
  mkManager (mk_key m) ∅ ∅ (Some u) (mk_auth m) (mk_state m) (mk_fired m).
(** ... and after it. *)
Definition endUnlocked (u : string) (m : Manager) : Manager :=
  mkManager (Some (deriveKey u "encryption")) (mk_derived m) (mk_deriving m) (mk_unlock m) (mk_auth m) Unlocked
    (match mk_state m with Unlocked => mk_fired m | _ => S (mk_fired m) end).

Definition setAuth (pk : string) (m : Manager) : Manager :=
  mkManager (mk_key m) (mk_derived m) (mk_deriving m) (mk_unlock m) (Some pk) (mk_state m) (mk_fired m).

(** The calls. *)
Definition setup (u pk : string) (s : System) : System :=
  match mk_state (sy_mgr s) with Unset_ => pushStage (SetupDerived u pk) s | _ => s end.
Definition unlock (u : string) (s : System) : System := pushStage (UnlockCalled u) s.

Definition startDerivation (purpose u : string) (s : System) : System :=
  let m := sy_mgr s in let n := List.length (sy_promises s) in
  pushStage (AwaitingKey purpose n)
    (mkSystem (mkManager (mk_key m) (mk_derived m) (<[purpose := n]> (mk_deriving m)) (mk_unlock m) (mk_auth m) (mk_state m) (mk_fired m))
       (sy_meta s) (sy_ops s) (sy_promises s ++ [deriveKey u purpose]) (sy_served s)).

(** [None] when it throws. *)
Definition getDerivedKey (purpose : string) (s : System) : option System :=
  let m := sy_mgr s in
  match mk_derived m !! purpose with
  | Some k => Some (serve purpose k s)
  | None =>
      match truthy (mk_unlock m) with
      | None => None
      | Some u => Some (match mk_deriving m !! purpose with
                        | Some n => pushStage (AwaitingKey purpose n) s
                        | None => startDerivation purpose u s
                        end)
      end
  end.

(** The transaction of [setup]. [None] when a canary is already stored. *)
Definition enrol (iv : list Z) (u pk : string) (meta : gmap string string) : option (gmap string string) :=
  match meta !! CANARY_META with
  | Some _ => None
  | None => Some (<[AUTH_PUBLIC_KEY_META := pk]> (<[CANARY_META := encrypt iv CANARY_PLAINTEXT (deriveKey u CANARY_PURPOSE)]> meta))
  end.

(** An operation resumes. *)
Definition advance (iv : list Z) (o : Stage) (s : System) : Stage * System :=
  match o with
  | SetupDerived u pk =>
      match enrol iv u pk (sy_meta s) with
      | None => (Finished, s)
      | Some meta => (SetupStored u pk, setMeta meta s)
      end
  | SetupStored u pk => (Unlocking u, setMgr (fun m => beginUnlocked u (setAuth pk m)) s)
  | UnlockCalled u => (UnlockChecking u (loadCanary (sy_meta s)), s)
  | UnlockChecking u canary =>
      match truthy canary with
      | Some c => if checkCanary c u then (Unlocking u, setMgr (beginUnlocked u) s) else (Finished, s)
      | None => (Finished, s)
      end
  | Unlocking u => (Finished, setMgr (endUnlocked u) s)
  | AwaitingKey purpose n =>
      match sy_promises s !! n with
      | Some k =>
          (Finished, serve purpose k (setMgr (fun m =>
             mkManager (mk_key m) (<[purpose := k]> (mk_derived m)) (mk_deriving m) (mk_unlock m) (mk_auth m) (mk_state m) (mk_fired m)) s))
      | None => (Finished, s)
      end
  | Finished => (Finished, s)
  end.

Inductive KeyEvent :=
| CallSetup (u pk : string)
| CallUnlock (u : string)
| CallDerived (purpose : string)
| Resume (i : nat) (iv : list Z)
| DerivationSettled (purpose : string).

Definition keyStep (s : System) (e : KeyEvent) : System :=
  match e with
  | CallSetup u pk => setup u pk s
  | CallUnlock u => unlock u s
  | CallDerived purpose => default s (getDerivedKey purpose s)
  | Resume i iv =>
      match sy_ops s !! i with
      | None => s
      | Some o => let '(o', s') := advance iv o s in setOps (<[i := o']> (sy_ops s')) s'
      end
  | DerivationSettled purpose =>
      setMgr (fun m => mkManager (mk_key m) (mk_derived m) (delete purpose (mk_deriving m)) (mk_unlock m) (mk_auth m) (mk_state m) (mk_fired m)) s
  end.

(** ** Boot *)

Definition fresh_manager : Manager := mkManager None ∅ ∅ None None Unset_ 0.
Definition lockManager (m : Manager) : Manager :=
  mkManager (mk_key m) (mk_derived m) (mk_deriving m) (mk_unlock m) (mk_auth m) Locked (mk_fired m).
Definition setUnlocked (u : string) (m : Manager) : Manager := endUnlocked u (beginUnlocked u m).

Definition getAuthPublicKeyHex (meta : gmap string string) (m : Manager) : option string :=
  match truthy (mk_auth m) with Some k => Some k | None => meta !! AUTH_PUBLIC_KEY_META end.
Definition ensureAuthPublicKey (pk : string) (meta : gmap string string) : gmap string string :=
  if bool_decide (meta !! AUTH_PUBLIC_KEY_META = Some pk) then meta else <[AUTH_PUBLIC_KEY_META := pk]> meta.

Definition initialize (iv : list Z) (unlockKeyHex publicKeyHex : option string) (meta : gmap string string) : Manager * gmap string string :=
  match truthy (loadCanary meta) with
  | Some canary =>
      match truthy unlockKeyHex with
      | Some u =>
          if checkCanary canary u then
            match truthy publicKeyHex with
            | Some pk => (setUnlocked u (setAuth pk fresh_manager), ensureAuthPublicKey pk meta)
            | None => (setUnlocked u fresh_manager, meta)
            end
          else (lockManager fresh_manager, meta)
      | None => (lockManager fresh_manager, meta)
      end
  | None =>
      match truthy unlockKeyHex, truthy publicKeyHex with
      | Some u, Some pk =>
          match enrol iv u pk meta with
          | Some meta => (setUnlocked u (setAuth pk fresh_manager), meta)
          | None => (fresh_manager, meta)
          end
      | Some u, None =>
          (setUnlocked u fresh_manager, <[CANARY_META := encrypt iv CANARY_PLAINTEXT (deriveKey u CANARY_PURPOSE)]> meta)
      | None, _ => (fresh_manager, meta)
      end
  end.

Definition booted (r : Manager * gmap string string) : System := mkSystem (fst r) (snd r) [] [] [].

Definition verifySignature (message signatureHex : string) (s : System) : bool :=
  match truthy (getAuthPublicKeyHex (sy_meta s) (sy_mgr s)) with
  | Some pk => verifies P pk message signatureHex
  | None => false
  end.
End Encryption.

(** ** Encrypted values read back *)

Section Roundtrip.
Context (P : Platform) `{!PlatformLaws P}.

Lemma subarray_parts a b c : let data := a ++ b ++ c in
  subarray data 0 (blen a) = a /\ subarray data (blen a) (blen data - blen c) = b /\ subarray data (blen data - blen c) (blen data) = c.
Proof.
  intros data. assert (blen data = blen a + blen b + blen c) as Hlen by (unfold data; rewrite !blen_app; lia).
  pose proof (blen_nonneg a). pose proof (blen_nonneg b). pose proof (blen_nonneg c).
  assert (forall i, 0 <= i <= blen data -> clampIndex (blen data) i = i) as Hc.
  { intros i Hi. unfold clampIndex. rewrite (proj2 (Z.ltb_ge i 0)) by lia. lia. }
  unfold subarray. rewrite !Hc by lia. rewrite !Z.max_r by lia. unfold bslice, data, blen in *. rewrite !length_app in *.
  split_and!.
  - rewrite Z.sub_0_r, Nat2Z.id. change (Z.to_nat 0) with 0%nat. rewrite drop_0. apply take_app_length.
  - rewrite Nat2Z.id, drop_app_length. replace (Z.to_nat _) with (length b) by lia. apply take_app_length.
  - replace (Z.to_nat (Z.of_nat (length a + (length b + length c)) - Z.of_nat (length c))) with (length (a ++ b)) by (rewrite length_app; lia).
    rewrite app_assoc, drop_app_length. apply take_ge. lia.
Qed.

Lemma decrypt_encrypt iv text key : blen iv = IV_LENGTH -> wf_bytes iv -> decrypt P (encrypt P iv text key) key = Ok text.
Proof.
  intros Hiv Hwf. unfold encrypt. destruct (seal P key iv (utf8 P text)) as [enc tag] eqn:E.
  pose proof (utf8_bytes text) as Hu. pose proof (seal_bytes key iv _ Hu) as [He Ht]. pose proof (seal_tag key iv (utf8 P text)) as Hlen.
  pose proof (seal_unseal key iv _ Hu Hiv) as Hun. rewrite E in He, Ht, Hlen, Hun. cbn [fst snd] in *.
  unfold decrypt. rewrite decodes by (rewrite !wf_bytes_app; done).
  destruct (subarray_parts iv enc tag) as (H1 & H2 & H3). rewrite <- Hiv, <- Hlen. cbv zeta in *. rewrite H1, H2, H3, Hun.
  by rewrite utf8_text.
Qed.
End Roundtrip.

(** ** The enrolled key is the only key *)

Section Enrolment.
Context (P : Platform) `{!PlatformLaws P}.

(** The key opens the stored canary. *)
Definition opens (meta : gmap string string) (u : string) : Prop :=
  exists c, meta !! CANARY_META = Some c /\ checkCanary P c u = true.

(** A key derived from an enrolled one. *)
Definition derivedFrom (meta : gmap string string) (purpose : string) (k : Key) : Prop :=
  exists u, opens meta u /\ k = deriveKey P u purpose.

Definition stage_ok (meta : gmap string string) (promises : list Key) (o : Stage) : Prop :=
  match o with
  | SetupStored u _ | Unlocking u => opens meta u
  | UnlockChecking _ (Some c) => meta !! CANARY_META = Some c
  | AwaitingKey purpose n => exists k, promises !! n = Some k /\ derivedFrom meta purpose k
  | _ => True
  end.

Record key_inv (s : System) : Prop := {
  inv_unlock : forall u, mk_unlock (sy_mgr s) = Some u -> opens (sy_meta s) u;
  inv_key : forall k, mk_key (sy_mgr s) = Some k -> derivedFrom (sy_meta s) "encryption" k;
  inv_derived : forall p k, mk_derived (sy_mgr s) !! p = Some k -> derivedFrom (sy_meta s) p k;
  inv_deriving : forall p n, mk_deriving (sy_mgr s) !! p = Some n -> stage_ok (sy_meta s) (sy_promises s) (AwaitingKey p n);
  inv_ops : Forall (stage_ok (sy_meta s) (sy_promises s)) (sy_ops s);
  inv_served : forall p k, In (p, k) (sy_served s) -> derivedFrom (sy_meta s) p k;
  inv_state : mk_state (sy_mgr s) = Unlocked -> is_Some (mk_key (sy_mgr s));
}.

(** What a step may do to the stored canary and to the promises. *)
Definition grows (meta meta' : gmap string string) (ps ps' : list Key) : Prop :=
  (forall c, meta !! CANARY_META = Some c -> meta' !! CANARY_META = Some c) /\ exists more, ps' = ps ++ more.

Lemma grows_opens meta meta' ps ps' u : grows meta meta' ps ps' -> opens meta u -> opens meta' u.
Proof. intros [H _] (c & Hc & Ho). exists c. auto. Qed.

Lemma grows_derived meta meta' ps ps' p k : grows meta meta' ps ps' -> derivedFrom meta p k -> derivedFrom meta' p k.
Proof. intros Hg (u & Hu & ->). exists u. split; [by eapply grows_opens|done]. Qed.

Lemma grows_stage meta meta' ps ps' o : grows meta meta' ps ps' -> stage_ok meta ps o -> stage_ok meta' ps' o.
Proof.
  intros Hg. pose proof Hg as [Hc (more & ->)].
  destruct o as [u pk|u pk|u|u [c|]|u|p n|]; cbn; try done; try (by eapply grows_opens); [by apply Hc|].
  intros (k & Hk & Hd). exists k. split; [by apply lookup_app_l_Some|by eapply grows_derived].
Qed.

Lemma grows_refl meta ps : grows meta meta ps ps.
Proof. split; [done|]. exists []. by rewrite app_nil_r. Qed.

Lemma enrol_grows iv u pk meta meta' ps : enrol P iv u pk meta = Some meta' -> grows meta meta' ps ps.
Proof.
  unfold enrol. destruct (meta !! CANARY_META) eqn:E; [done|]. intros [= <-]. split; [by rewrite E|].
  exists []. by rewrite app_nil_r.
Qed.

Lemma checkCanary_fresh iv u : blen iv = IV_LENGTH -> wf_bytes iv ->
  checkCanary P (encrypt P iv CANARY_PLAINTEXT (deriveKey P u CANARY_PURPOSE)) u = true.
Proof. intros H1 H2. unfold checkCanary. by rewrite decrypt_encrypt. Qed.

Lemma enrol_opens iv u pk meta meta' : blen iv = IV_LENGTH -> wf_bytes iv -> enrol P iv u pk meta = Some meta' -> opens meta' u.
Proof.
  intros H1 H2. unfold enrol. destruct (meta !! CANARY_META); [done|]. intros [= <-]. eexists.
  split; [|by apply checkCanary_fresh]. by rewrite lookup_insert_ne, lookup_insert_eq.
Qed.

Lemma inv_grows s meta' : grows (sy_meta s) meta' (sy_promises s) (sy_promises s) -> key_inv s -> key_inv (setMeta meta' s).
Proof.
  intros Hg [H1 H2 H3 H4 H5 H6 H7]. split; cbn [setMeta sy_mgr sy_meta sy_promises sy_ops sy_served]; eauto using grows_opens, grows_derived.
  - intros p n H. eapply (grows_stage _ _ _ _ (AwaitingKey p n)); eauto.
  - eapply list.Forall_impl; [exact H5|]. intros o. by apply grows_stage.
Qed.

Lemma push_inv o s : stage_ok (sy_meta s) (sy_promises s) o -> key_inv s -> key_inv (pushStage o s).
Proof.
  intros Ho [H1 H2 H3 H4 H5 H6 H7]. split; cbn [pushStage setOps sy_mgr sy_meta sy_promises sy_ops sy_served]; auto.
  apply list.Forall_app. split; [done|]. by apply list.Forall_cons.
Qed.

Lemma serve_inv p k s : derivedFrom (sy_meta s) p k -> key_inv s -> key_inv (serve p k s).
Proof.
  intros Hd [H1 H2 H3 H4 H5 H6 H7]. split; auto. intros p' k' [Hin|[[= <- <-]|[]]]%in_app_iff; auto.
Qed.

Lemma beginUnlocked_inv u s : opens (sy_meta s) u -> key_inv s -> key_inv (setMgr (beginUnlocked u) s).
Proof.
  intros Hu [H1 H2 H3 H4 H5 H6 H7]. split; cbn [setMgr beginUnlocked sy_mgr sy_meta mk_unlock mk_key mk_derived mk_deriving mk_state]; auto.
  - by intros ? [= <-].
  - by intros p k ?%lookup_empty_Some.
  - by intros p n ?%lookup_empty_Some.
Qed.

Lemma setAuth_inv pk s : key_inv s -> key_inv (setMgr (setAuth pk) s).
Proof. intros [H1 H2 H3 H4 H5 H6 H7]. split; auto. Qed.

Lemma endUnlocked_inv u s : opens (sy_meta s) u -> key_inv s -> key_inv (setMgr (endUnlocked P u) s).
Proof.
  intros Hu [H1 H2 H3 H4 H5 H6 H7]. split; auto; cbn. intros k [= <-]. by exists u.
Qed.

Lemma startDerivation_inv p u s : opens (sy_meta s) u -> key_inv s -> key_inv (startDerivation P p u s).
Proof.
  intros Hu Hinv. unfold startDerivation. apply push_inv.
  - cbn. exists (deriveKey P u p). split; [by apply list_lookup_middle|by exists u].
  - assert (grows (sy_meta s) (sy_meta s) (sy_promises s) (sy_promises s ++ [deriveKey P u p])) as Hg by (split; eauto).
    destruct Hinv as [H1 H2 H3 H4 H5 H6 H7]. split; cbn [sy_mgr sy_meta sy_promises sy_ops sy_served mk_unlock mk_key mk_derived mk_deriving mk_state]; auto.
    + intros p' n [[<- <-]|[_ H]]%lookup_insert_Some.
      * cbn. exists (deriveKey P u p). split; [by apply list_lookup_middle|by exists u].
      * eapply grows_stage; [exact Hg|by apply H4].
    + eapply list.Forall_impl; [exact H5|]. intros o. by apply grows_stage.
Qed.

Lemma advance_inv iv o s : blen iv = IV_LENGTH -> wf_bytes iv -> stage_ok (sy_meta s) (sy_promises s) o -> key_inv s ->
  let '(o', s') := advance P iv o s in
  key_inv s' /\ stage_ok (sy_meta s') (sy_promises s') o' /\ grows (sy_meta s) (sy_meta s') (sy_promises s) (sy_promises s') /\ sy_ops s' = sy_ops s.
Proof.
  intros Hiv Hwf Ho Hinv. destruct o as [u pk|u pk|u|u canary|u|p n|]; cbn [advance].
  - destruct (enrol P iv u pk (sy_meta s)) as [meta|] eqn:E; [|by split_and!; [..|apply grows_refl|]].
    split_and!; [by apply inv_grows; [apply (enrol_grows _ _ _ _ _ _ E)|]|by eapply enrol_opens|by apply (enrol_grows _ _ _ _ _ _ E)|done].
  - split_and!; [|exact Ho|apply grows_refl|done].
    apply (beginUnlocked_inv u (setMgr (setAuth pk) s)); [done|by apply setAuth_inv].
  - split_and!; [done| |apply grows_refl|done]. cbn. unfold loadCanary. by destruct (_ !! _) eqn:E.
  - destruct canary as [c|]; [|by split_and!; [..|apply grows_refl|]].
    unfold truthy. destruct c as [|x c]; [by split_and!; [..|apply grows_refl|]|].
    destruct (checkCanary P _ u) eqn:E; [|by split_and!; [..|apply grows_refl|]].
    assert (opens (sy_meta s) u) as Hu by (by eexists). split_and!; [by apply beginUnlocked_inv|done|apply grows_refl|done].
  - split_and!; [by apply endUnlocked_inv|done|apply grows_refl|done].
  - destruct Ho as (k & Hk & Hd). rewrite Hk. split_and!; [|done|apply grows_refl|done]. apply serve_inv; [done|].
    destruct Hinv as [H1 H2 H3 H4 H5 H6 H7]. split; cbn; auto. intros p' k' [[<- <-]|[_ H]]%lookup_insert_Some; auto.
  - by split_and!; [..|apply grows_refl|].
Qed.

(** The initialization vectors of the cipher have their length. *)
Definition valid_event (e : KeyEvent) : Prop := match e with Resume _ iv => blen iv = IV_LENGTH /\ wf_bytes iv | _ => True end.

Lemma keyStep_inv s e : valid_event e -> key_inv s ->
  key_inv (keyStep P s e) /\ grows (sy_meta s) (sy_meta (keyStep P s e)) (sy_promises s) (sy_promises (keyStep P s e)).
Proof.
  intros Hv Hinv. destruct e as [u pk|u|p|i iv|p]; cbn [keyStep].
  - unfold setup. destruct (mk_state (sy_mgr s)); (split; [|apply grows_refl]); try done. by apply push_inv.
  - split; [by apply push_inv|apply grows_refl].
  - unfold getDerivedKey. destruct (mk_derived (sy_mgr s) !! p) as [k|] eqn:Ek.
    { split; [|apply grows_refl]. apply serve_inv; [by apply (inv_derived s Hinv)|done]. }
    destruct (truthy (mk_unlock (sy_mgr s))) as [u|] eqn:Eu; [|split; [done|apply grows_refl]]. cbn [default].
    assert (opens (sy_meta s) u) as Hu.
    { apply (inv_unlock s Hinv). by destruct (mk_unlock (sy_mgr s)) as [[|]|]. }
    destruct (mk_deriving (sy_mgr s) !! p) as [n|] eqn:En.
    + split; [|apply grows_refl]. apply push_inv; [by apply (inv_deriving s Hinv)|done].
    + split; [by apply startDerivation_inv|]. split; [done|]. by eexists.
  - destruct (sy_ops s !! i) as [o|] eqn:Eo; [|split; [done|apply grows_refl]]. destruct Hv as [Hiv Hwf].
    pose proof (list.Forall_lookup_1 _ _ _ _ (inv_ops s Hinv) Eo) as Ho.
    pose proof (advance_inv iv o s Hiv Hwf Ho Hinv) as H. destruct (advance P iv o s) as [o' s']. destruct H as (H1 & H2 & H3 & H4).
    split; [|exact H3]. destruct H1 as [K1 K2 K3 K4 K5 K6 K7]. split; auto. cbn. rewrite H4 in *. by apply Forall_insert.
  - split; [|apply grows_refl]. destruct Hinv as [H1 H2 H3 H4 H5 H6 H7]. split; cbn; auto.
    intros p' n [_ H]%lookup_delete_Some. by apply (H4 p').
Qed.

Lemma keyRun_inv es : forall s, Forall valid_event es -> key_inv s ->
  key_inv (fold_left (keyStep P) es s) /\
  forall c, sy_meta s !! CANARY_META = Some c -> sy_meta (fold_left (keyStep P) es s) !! CANARY_META = Some c.
Proof.
  induction es as [|e es IH]; intros s Hv Hinv; [done|]. apply list.Forall_cons in Hv as [He Hv].
  destruct (keyStep_inv s e He Hinv) as [H1 [H2 _]]. destruct (IH _ Hv H1) as [H3 H4]. cbn [fold_left]. split; [done|]. auto.
Qed.

Lemma fresh_inv meta : key_inv (booted (fresh_manager, meta)).
Proof. by split; cbn. Qed.

Lemma unlocked_inv u meta m : opens meta u -> m = fresh_manager \/ (exists pk, m = setAuth pk fresh_manager) ->
  key_inv (booted (setUnlocked P u m, meta)).
Proof. intros Hu Hm. split; destruct Hm as [->|[pk ->]]; cbn; try done; try (by eexists); intros ? [= <-]; first [done|by exists u]. Qed.

Lemma initialize_inv iv u pk meta : blen iv = IV_LENGTH -> wf_bytes iv -> key_inv (booted (initialize P iv u pk meta)).
Proof.
  intros Hiv Hwf. unfold initialize. destruct (truthy (loadCanary meta)) as [c|] eqn:Ec.
  - assert (meta !! CANARY_META = Some c) as Hc by (unfold loadCanary in Ec; by destruct (meta !! CANARY_META) as [[|]|]).
    destruct (truthy u) as [k|]; [|by split; cbn]. destruct (checkCanary P c k) eqn:E; [|by split; cbn].
    assert (opens meta k) as Ho by (by exists c).
    destruct (truthy pk) as [x|]; [|apply unlocked_inv; [done|by left]]. apply unlocked_inv; [|right; by eexists].
    unfold ensureAuthPublicKey. destruct (bool_decide _); [done|]. exists c. by rewrite lookup_insert_ne.
  - destruct (truthy u) as [k|], (truthy pk) as [x|]; try apply fresh_inv.
    + destruct (enrol P iv k x meta) as [meta'|] eqn:E; [|apply fresh_inv].
      apply unlocked_inv; [by eapply enrol_opens|right; by eexists].
    + apply unlocked_inv; [|by left]. eexists. split; [by apply lookup_insert_eq|by apply checkCanary_fresh].
Qed.

(** C14. However setups, unlocks and key derivations of a running server interleave, a stored
    canary is never replaced, and the server only ever holds keys that open it: the unlock
    key, the encryption key, and every key it hands out are those of an enrolled key. *)
Theorem enrolment_is_permanent iv u pk meta es : blen iv = IV_LENGTH -> wf_bytes iv -> Forall valid_event es ->
  let s0 := booted (initialize P iv u pk meta) in
  let s := fold_left (keyStep P) es s0 in
  (forall c, sy_meta s0 !! CANARY_META = Some c -> sy_meta s !! CANARY_META = Some c) /\
  (forall k, mk_unlock (sy_mgr s) = Some k -> opens (sy_meta s) k) /\
  (mk_state (sy_mgr s) = Unlocked -> exists k, mk_key (sy_mgr s) = Some k /\ derivedFrom (sy_meta s) "encryption" k) /\
  (forall purpose k, In (purpose, k) (sy_served s) -> derivedFrom (sy_meta s) purpose k).
Proof.
  intros Hiv Hwf Hv s0 s. destruct (keyRun_inv es s0 Hv (initialize_inv iv u pk meta Hiv Hwf)) as [Hinv Hc].
  split_and!; [done|by apply inv_unlock| |by apply inv_served].
  intros [k Hk]%(inv_state s Hinv). exists k. split; [done|by apply (inv_key s Hinv)].
Qed.
End Enrolment.

(** What the server encrypts under a key it decrypts to the same text under that key. *)
Theorem encryption_roundtrip (P : Platform) `{!PlatformLaws P} iv text key :
  blen iv = IV_LENGTH -> wf_bytes iv -> decrypt P (encrypt P iv text key) key = Ok text.
Proof. exact (decrypt_encrypt P iv text key). Qed.

(** ** A concrete platform *)

(** One byte per character, a cipher that adds the key to a byte and whose tag repeats the
    key, and a derivation that joins its inputs. *)
Definition demo_bytes (s : string) : list Z := List.map code (list_ascii_of_string s).
Definition demo_text (l : list Z) : string := string_of_list_ascii (List.map (fun n => ascii_of_nat (Z.to_nat n)) l).
Definition demo_tag (k : Key) : list Z := take 16 (List.map (fun n => n mod 256) k ++ List.repeat 0 16).
Definition demo_platform : Platform :=
  mkPlatform (fun k iv p => (p, demo_tag k)) (fun k iv tag enc => if bool_decide (tag = demo_tag k) then Some enc else None)
    (fun master salt info => demo_bytes master ++ salt) demo_bytes demo_text readBase64 (fun pk m sig => String.eqb sig (pk +:+ m)).

Lemma demo_bytes_wf s : wf_bytes (demo_bytes s).
Proof.
  unfold wf_bytes, demo_bytes. apply List.Forall_forall. intros n (c & <- & _)%in_map_iff. unfold is_byte, code.
  pose proof (nat_ascii_bounded c). lia.
Qed.

#[local] Instance demo_platform_laws : PlatformLaws demo_platform.
Proof.
  split; cbn.
  - intros k iv p Hp. split; [done|]. unfold demo_tag, wf_bytes. apply list.Forall_take, list.Forall_app. split.
    + apply List.Forall_forall. intros n (m & <- & _)%in_map_iff. unfold is_byte. pose proof (Z.mod_pos_bound m 256). lia.
    + repeat constructor; lia.
  - intros k iv p. unfold blen, demo_tag, AUTH_TAG_LENGTH. rewrite length_take, length_app, List.repeat_length. lia.
  - intros k iv p _ _. by rewrite bool_decide_true.
  - apply demo_bytes_wf.
  - intros s. unfold demo_text, demo_bytes. rewrite List.map_map. rewrite (List.map_ext _ id); [|].
    + by rewrite List.map_id, string_of_list_ascii_of_string.
    + intros c. unfold code. by rewrite Nat2Z.id, ascii_nat_embedding.
  - exact readBase64_decodes.
Qed.

Definition demo_iv : list Z := List.repeat 7 12.
Definition demo_race : list KeyEvent :=
  [CallSetup "key1" "pub1"; CallSetup "key2" "pub2"; Resume 1 demo_iv; Resume 0 demo_iv; Resume 1 demo_iv; Resume 1 demo_iv;
   CallDerived "jwt"; CallUnlock "key1"; CallUnlock "key2"; Resume 3 demo_iv; Resume 4 demo_iv; Resume 3 demo_iv; Resume 4 demo_iv;
   Resume 2 demo_iv; Resume 4 demo_iv].

Lemma enrolment_is_permanent_witness :
  let s := fold_left (keyStep demo_platform) demo_race (booted (initialize demo_platform demo_iv None None ∅)) in
  mk_unlock (sy_mgr s) = Some "key2" /\ opens demo_platform (sy_meta s) "key2" /\ List.map fst (sy_served s) = ["jwt"] /\
  exists k, mk_key (sy_mgr s) = Some k /\ derivedFrom demo_platform (sy_meta s) "encryption" k.
Proof.
  intros s. assert (blen demo_iv = IV_LENGTH) as Hiv by reflexivity.
  assert (wf_bytes demo_iv) as Hwf by (apply (bool_decide_unpack _); vm_compute; exact I).
  assert (mk_unlock (sy_mgr s) = Some "key2") as Hu by (vm_compute; reflexivity).
  assert (mk_state (sy_mgr s) = Unlocked) as Hs by (vm_compute; reflexivity).
  assert (List.map fst (sy_served s) = ["jwt"]) as Hl by (vm_compute; reflexivity).
  assert (forall i, valid_event (Resume i demo_iv)) as Hr by (intros i; split; assumption).
  assert (Forall valid_event demo_race) as Hv.
  { unfold demo_race. repeat (apply list.Forall_cons; split; [first [exact I|apply Hr]|]). by apply list.Forall_nil. }
  destruct (enrolment_is_permanent demo_platform demo_iv None None ∅ demo_race Hiv Hwf Hv) as (_ & H2 & H3 & _).
  fold s in H2, H3. split; [exact Hu|]. split; [exact (H2 _ Hu)|]. split; [exact Hl|exact (H3 Hs)].
Defined.

Lemma encryption_roundtrip_witness : decrypt demo_platform (encrypt demo_platform demo_iv "token" [1; 2]) [1; 2] = Ok "token".
Proof. apply (encryption_roundtrip demo_platform); [reflexivity|]. apply (bool_decide_unpack _); vm_compute; exact I. Defined.
