(* ===== verification/SshProtocol.v ===== *)
(** * The wire format of the SSH agent

    A model of [packages/server/src/services/ssh-agent/protocol.ts]: strings with a length in
    front, framed messages, the reader that cuts the bytes of a connection into frames, and the
    decoding of requests. A buffer is a list of bytes shorter than 2^32; a read past the end
    throws. *)
From Stdlib Require Import ZArith Lia Ascii String List Bool.
From stdpp Require Import base list strings option.
From S2P Require Import Prelude JsString Bytes.

Open Scope string_scope.
Open Scope list_scope.
Open Scope Z_scope.

Definition MSG_FAILURE : Z := 5.
Definition MSG_REQUEST_IDENTITIES : Z := 11.
Definition MSG_IDENTITIES_ANSWER : Z := 12.
Definition MSG_SIGN_REQUEST : Z := 13.
Definition MSG_SIGN_RESPONSE : Z := 14.

Record AgentIdentity := mkIdentity { ai_keyBlob : list Z; ai_comment : string }.
Record SignRequest := mkSignRequest { rq_keyBlob : list Z; rq_data : list Z; rq_flags : Z }.
Inductive AgentMessage := RequestIdentities | Sign (req : SignRequest) | Unsupported.

(** ** Encoding *)

Definition encodeString (value : list Z) : list Z := be32 (blen value) ++ value.
Definition frameMessage (type : Z) (payload : list Z) : list Z := be32 (1 + blen payload) ++ type :: payload.

(** [asciiBytes] is [Buffer.from] of an ASCII literal. *)
Definition asciiBytes (s : string) : list Z := List.map code (list_ascii_of_string s).

Section Encoding.
Variable utf8 : string -> list Z.
Definition encodeIdentitiesAnswer (identities : list AgentIdentity) : list Z :=
  frameMessage MSG_IDENTITIES_ANSWER
    (be32 (Z.of_nat (List.length identities)) ++
     List.concat (List.map (fun i => encodeString (ai_keyBlob i) ++ encodeString (utf8 (ai_comment i))) identities)).
End Encoding.
Definition encodeSignResponse (signatureBlob : list Z) : list Z := frameMessage MSG_SIGN_RESPONSE (encodeString signatureBlob).
Definition encodeFailure : list Z := frameMessage MSG_FAILURE [].

Definition ed25519PublicKeyBlob (rawPublicKey : list Z) : list Z := encodeString (asciiBytes "ssh-ed25519") ++ encodeString rawPublicKey.
(** [sign] is the platform's signature with a private key. *)
Definition ed25519SignatureBlob {PrivateKey} (sign : PrivateKey -> list Z -> list Z) (privateKey : PrivateKey) (data : list Z) : list Z :=
  encodeString (asciiBytes "ssh-ed25519") ++ encodeString (sign privateKey data).

(** ** Decoding *)

Inductive ReadError := OutOfRange.

Definition readUInt32BE (buf : list Z) (offset : Z) : result ReadError Z :=
  if offset + 4 <=? blen buf then Ok (get_u32 buf (Z.to_nat offset)) else Throw OutOfRange.

(** The methods of [Reader], which hand back the offset they leave. *)
Definition readString (buf : list Z) (offset : Z) : result ReadError (list Z * Z) :=
  let! length := readUInt32BE buf offset in
  Ok (bslice buf (offset + 4) (offset + 4 + length), offset + 4 + length).
Definition readUInt32 (buf : list Z) (offset : Z) : result ReadError (Z * Z) :=
  let! value := readUInt32BE buf offset in
  Ok (value, offset + 4).

Definition decodeMessage (payload : list Z) : result ReadError AgentMessage :=
  match payload with
  | [] => Ok Unsupported
  | type :: rest =>
      if type =? MSG_REQUEST_IDENTITIES then Ok RequestIdentities
      else if type =? MSG_SIGN_REQUEST then
        let! keyBlob := readString rest 0 in
        let! data := readString rest (snd keyBlob) in
        let! flags := readUInt32 rest (snd data) in
        Ok (Sign (mkSignRequest (fst keyBlob) (fst data) (fst flags)))
      else Ok Unsupported
  end.

(** ** The frame reader *)

(** The state of a [FrameReader] is its buffer. *)
Definition pushChunk (chunk buffer : list Z) : list Z := if blen buffer =? 0 then chunk else buffer ++ chunk.
Definition nextFrame (buffer : list Z) : option (list Z * list Z) :=
  if blen buffer <? 4 then None
  else
    let length := get_u32 buffer 0 in
    if blen buffer <? 4 + length then None
    else Some (bslice buffer 4 (4 + length), bdrop (4 + length) buffer).

(** ** Laws *)

Lemma pushChunk_app chunk buffer : pushChunk chunk buffer = buffer ++ chunk.
Proof. unfold pushChunk, blen. destruct buffer; [done|]. cbn [List.length]. by rewrite (proj2 (Z.eqb_neq _ 0)) by lia. Qed.

Definition framed (payload : list Z) : list Z := be32 (blen payload) ++ payload.
Definition small (l : list Z) : Prop := blen l < 2 ^ 32.

Lemma get_u32_front n rest : get_u32 (be32 n ++ rest) 0 = u32 n.
Proof. exact (get_u32_be32 [] n rest). Qed.

Lemma frameMessage_framed type payload : frameMessage type payload = framed (type :: payload).
Proof. unfold frameMessage, framed, blen. cbn [List.length]. do 2 f_equal. lia. Qed.

Lemma bslice_middle a b c : bslice (a ++ b ++ c) (blen a) (blen a + blen b) = b.
Proof.
  unfold bslice, blen. rewrite Z.add_simpl_l, !Nat2Z.id, drop_app_length. apply take_app_length.
Qed.

(** A complete frame is handed out as its payload, and the reader keeps what follows it. *)
Lemma nextFrame_framed payload rest : small payload -> nextFrame (framed payload ++ rest) = Some (payload, rest).
Proof.
  intros Hs. unfold nextFrame, framed. rewrite <- app_assoc, !blen_app. change (blen (be32 (blen payload))) with 4.
  pose proof (blen_nonneg payload). pose proof (blen_nonneg rest).
  rewrite get_u32_front, u32_small by (unfold small in Hs; lia).
  rewrite (proj2 (Z.ltb_ge _ 4)), (proj2 (Z.ltb_ge _ (4 + blen payload))) by lia. do 2 f_equal.
  - exact (bslice_middle (be32 (blen payload)) payload rest).
  - unfold bdrop. rewrite (app_assoc _ payload). replace (Z.to_nat (4 + blen payload)) with (List.length (be32 (blen payload) ++ payload)).
    + apply drop_app_length.
    + rewrite length_app, length_be32. unfold blen. lia.
Qed.

(** More bytes behind a complete frame do not change it. *)
Lemma nextFrame_more buffer chunk payload rest : wf_bytes buffer -> nextFrame buffer = Some (payload, rest) ->
  nextFrame (buffer ++ chunk) = Some (payload, rest ++ chunk).
Proof.
  intros Hb. unfold nextFrame. destruct (Z.ltb_spec (blen buffer) 4) as [|H4]; [done|].
  destruct (Z.ltb_spec (blen buffer) (4 + get_u32 buffer 0)) as [|Hl]; [done|]. intros [= <- <-].
  pose proof (get_u32_range buffer 0 Hb) as Hr. pose proof (blen_nonneg chunk).
  rewrite get_u32_app by (unfold blen in H4; lia). rewrite blen_app, (proj2 (Z.ltb_ge _ 4)), (proj2 (Z.ltb_ge _ (4 + _))) by lia.
  rewrite bslice_app, bdrop_app by lia. done.
Qed.

Lemma nextFrame_shrinks buffer payload rest : wf_bytes buffer -> nextFrame buffer = Some (payload, rest) ->
  wf_bytes rest /\ (List.length rest + 4 <= List.length buffer)%nat.
Proof.
  intros Hb. unfold nextFrame. destruct (Z.ltb_spec (blen buffer) 4) as [|H4]; [done|].
  destruct (Z.ltb_spec (blen buffer) (4 + get_u32 buffer 0)) as [|Hl]; [done|]. intros [= <- <-].
  pose proof (get_u32_range buffer 0 Hb) as Hr. split; [by apply wf_bytes_bdrop|].
  pose proof (blen_bdrop (4 + get_u32 buffer 0) buffer). unfold blen in *. lia.
Qed.

(** Every complete frame of a buffer, and what is left; a unit of fuel per byte is enough. *)
Fixpoint readFrames (fuel : nat) (buffer : list Z) : list (list Z) * list Z :=
  match fuel with
  | O => ([], buffer)
  | S fuel =>
      match nextFrame buffer with
      | None => ([], buffer)
      | Some (payload, rest) => let '(l, rest) := readFrames fuel rest in (payload :: l, rest)
      end
  end.
Definition readAll (buffer : list Z) : list (list Z) * list Z := readFrames (List.length buffer) buffer.

Lemma readFrames_fuel fuel : forall fuel' buffer, wf_bytes buffer -> (List.length buffer <= fuel)%nat -> (List.length buffer <= fuel')%nat ->
  readFrames fuel buffer = readFrames fuel' buffer.
Proof.
  induction fuel as [|fuel IH]; intros [|fuel'] buffer Hb H1 H2; try (destruct buffer; [|cbn in *; lia]).
  - done.
  - by destruct fuel'.
  - done.
  - cbn [readFrames]. destruct (nextFrame buffer) as [[payload rest]|] eqn:E; [|done].
    destruct (nextFrame_shrinks buffer payload rest Hb E) as [Hr Hl]. by rewrite (IH fuel' rest) by (done || lia).
Qed.

Lemma readAll_next buffer payload rest : wf_bytes buffer -> nextFrame buffer = Some (payload, rest) ->
  readAll buffer = (payload :: fst (readAll rest), snd (readAll rest)).
Proof.
  intros Hb E. destruct (nextFrame_shrinks buffer payload rest Hb E) as [Hr Hl]. unfold readAll at 1.
  destruct (List.length buffer) as [|n] eqn:En; [lia|]. cbn [readFrames]. rewrite E.
  rewrite (readFrames_fuel n (List.length rest) rest Hr) by lia. fold (readAll rest). by destruct (readAll rest).
Qed.
Lemma readAll_none buffer : nextFrame buffer = None -> readAll buffer = ([], buffer).
Proof. intros E. unfold readAll. destruct (List.length buffer) as [|n]; [done|]. cbn [readFrames]. by rewrite E. Qed.

(** Frames read from the first bytes of a stream are the first frames of the stream. *)
Lemma readAll_app buffer chunk : wf_bytes buffer -> wf_bytes chunk ->
  readAll (buffer ++ chunk) = (fst (readAll buffer) ++ fst (readAll (snd (readAll buffer) ++ chunk)), snd (readAll (snd (readAll buffer) ++ chunk))) /\
  wf_bytes (snd (readAll buffer)).
Proof.
  intros Hb Hc. remember (List.length buffer) as n eqn:En. revert buffer Hb En.
  induction n as [n IH] using lt_wf_ind. intros buffer Hb ->. destruct (nextFrame buffer) as [[payload rest]|] eqn:E.
  - destruct (nextFrame_shrinks buffer payload rest Hb E) as [Hr Hl].
    destruct (IH (List.length rest) ltac:(lia) rest Hr eq_refl) as [H1 H2].
    rewrite (readAll_next buffer payload rest Hb E). cbn [fst snd]. split; [|done].
    rewrite (readAll_next (buffer ++ chunk) payload (rest ++ chunk)); [|by apply wf_bytes_app|by apply nextFrame_more]. by rewrite H1.
  - rewrite (readAll_none buffer E). cbn [fst snd]. rewrite app_nil_l. split; [by destruct (readAll (buffer ++ chunk))|done].
Qed.

Lemma readAll_framed payloads : Forall wf_bytes payloads -> Forall small payloads -> readAll (List.concat (List.map framed payloads)) = (payloads, []).
Proof.
  induction payloads as [|p l IH]; intros Hw Hs; [done|]. apply list.Forall_cons in Hw as [Hp Hw]. apply list.Forall_cons in Hs as [Hps Hs].
  cbn [List.map List.concat]. rewrite (readAll_next _ p (List.concat (List.map framed l))).
  - by rewrite IH.
  - apply wf_bytes_app. split; [apply wf_bytes_app; split; [apply wf_be32|done]|]. clear IH Hs Hp Hps.
    induction Hw as [|q l Hq Hw IH]; [constructor|]. cbn [List.map List.concat]. apply wf_bytes_app.
    split; [apply wf_bytes_app; split; [apply wf_be32|done]|done].
  - by apply nextFrame_framed.
Qed.

(** A reader fed chunk by chunk, emptied after each. *)
Definition feed (st : list (list Z) * list Z) (chunk : list Z) : list (list Z) * list Z :=
  let '(l, rest) := readAll (pushChunk chunk (snd st)) in (fst st ++ l, rest).

Lemma feed_all chunks : forall out buffer, wf_bytes buffer -> readAll buffer = ([], buffer) -> Forall wf_bytes chunks ->
  fold_left feed chunks (out, buffer) = (out ++ fst (readAll (buffer ++ List.concat chunks)), snd (readAll (buffer ++ List.concat chunks))).
Proof.
  induction chunks as [|c chunks IH]; intros out buffer Hb Hr Hc.
  { cbn [fold_left List.concat]. by rewrite app_nil_r, Hr, app_nil_r. }
  apply list.Forall_cons in Hc as [Hc Hcs]. cbn [fold_left List.concat].
  assert (wf_bytes (List.concat chunks)) as Hcc.
  { clear IH. induction Hcs; [constructor|]. cbn [List.concat]. by apply wf_bytes_app. }
  destruct (readAll_app (buffer ++ c) (List.concat chunks)) as [E Hw]; [by apply wf_bytes_app|done|].
  unfold feed at 2. cbn [fst snd]. rewrite pushChunk_app. destruct (readAll (buffer ++ c)) as [l rest] eqn:El. cbn [fst snd] in *.
  rewrite IH; [|done| |done].
  - rewrite (app_assoc buffer c), E. cbn [fst snd]. by rewrite app_assoc.
  - destruct (readAll_app (buffer ++ c) []) as [E0 _]; [by apply wf_bytes_app|constructor|]. rewrite El in E0. cbn [fst snd] in E0.
    rewrite !app_nil_r, El in E0. destruct (readAll rest) as [l' rest'] eqn:Er. cbn [fst snd] in E0. injection E0 as E1 E2.
    assert (l' = []) as ->; [|by rewrite E2]. apply (f_equal List.length) in E1. rewrite length_app in E1. destruct l'; [done|cbn in E1; lia].
Qed.

(** ** Requests *)

Lemma readUInt32BE_at pre n rest : readUInt32BE (pre ++ be32 n ++ rest) (blen pre) = Ok (u32 n).
Proof.
  unfold readUInt32BE. rewrite !blen_app. change (blen (be32 n)) with 4. pose proof (blen_nonneg rest).
  rewrite (proj2 (Z.leb_le _ _)) by lia. unfold blen. by rewrite Nat2Z.id, get_u32_be32.
Qed.

Lemma readString_at pre v rest : small v -> readString (pre ++ encodeString v ++ rest) (blen pre) = Ok (v, blen (pre ++ encodeString v)).
Proof.
  intros Hv. pose proof (blen_nonneg v). unfold readString, encodeString. rewrite <- app_assoc, readUInt32BE_at. cbn [bind_result].
  rewrite u32_small by (unfold small in Hv; lia). do 2 f_equal.
  - rewrite (app_assoc pre). replace (blen pre + 4) with (blen (pre ++ be32 (blen v))) by (rewrite blen_app; done). apply bslice_middle.
  - rewrite !blen_app. change (blen (be32 (blen v))) with 4. lia.
Qed.

(** How a client writes a request. *)
Definition requestPayload (m : AgentMessage) : list Z :=
  match m with
  | RequestIdentities => [MSG_REQUEST_IDENTITIES]
  | Sign r => MSG_SIGN_REQUEST :: encodeString (rq_keyBlob r) ++ encodeString (rq_data r) ++ be32 (rq_flags r)
  | Unsupported => []
  end.
Record request_ok (m : AgentMessage) : Prop := {
  ro_bytes : wf_bytes (requestPayload m);
  ro_small : small (requestPayload m);
  ro_flags : match m with Sign r => 0 <= rq_flags r < 2 ^ 32 | _ => True end;
}.

Lemma decode_request m rest : request_ok m -> m <> Unsupported -> decodeMessage (requestPayload m ++ rest) = Ok m.
Proof.
  intros [Hw Hs Hf] Hm. destruct m as [|[k d f]|]; [done| |done]. cbn [requestPayload rq_keyBlob rq_data rq_flags] in *.
  rewrite <- app_comm_cons, <- !app_assoc. unfold decodeMessage. change (MSG_SIGN_REQUEST =? MSG_REQUEST_IDENTITIES) with false.
  change (MSG_SIGN_REQUEST =? MSG_SIGN_REQUEST) with true. cbv iota.
  assert (small k /\ small d) as [Hk Hd].
  { unfold small, blen, encodeString in *. cbn [List.length] in Hs. rewrite !length_app in Hs. lia. }
  rewrite (readString_at [] k _ Hk : readString (encodeString k ++ _) 0 = _). cbn [bind_result fst snd app].
  rewrite (readString_at (encodeString k) d _ Hd). cbn [bind_result fst snd].
  rewrite app_assoc. unfold readUInt32. rewrite readUInt32BE_at. cbn [bind_result fst]. by rewrite u32_small.
Qed.

(** Requests a client writes are the requests the agent acts on, whatever chunks their bytes
    arrive in, and nothing is left in the reader. *)
Theorem ssh_requests_survive_chunking msgs chunks : Forall request_ok msgs -> Unsupported ∉ msgs -> Forall wf_bytes chunks ->
  List.concat chunks = List.concat (List.map (fun m => framed (requestPayload m)) msgs) ->
  let '(payloads, rest) := fold_left feed chunks ([], []) in List.map decodeMessage payloads = List.map Ok msgs /\ rest = [].
Proof.
  intros Hm Hu Hc E. rewrite feed_all by (done || constructor). cbn [app]. rewrite E.
  rewrite <- (List.map_map requestPayload framed), readAll_framed; cbn [fst snd].
  - split; [|done]. rewrite List.map_map. apply map_ext_in. intros m Hin.
    rewrite <- (app_nil_r (requestPayload m)). apply decode_request; [by apply (proj1 (List.Forall_forall _ _) Hm)|].
    intros ->. by apply Hu, list_elem_of_In.
  - apply List.Forall_map. eapply list.Forall_impl; [done|]. by intros m [? _ _].
  - apply List.Forall_map. eapply list.Forall_impl; [done|]. by intros m [_ ? _].
Qed.

Lemma ssh_requests_survive_chunking_witness :
  let r := mkSignRequest [1; 2; 3] [104; 105] 0 in
  List.map decodeMessage (fst (fold_left feed [[0; 0; 0; 1; 11; 0]; [0; 0; 18; 13; 0; 0; 0; 3; 1; 2; 3; 0; 0]; [0; 2; 104; 105; 0; 0; 0; 0]] ([], []))) =
  [Ok RequestIdentities; Ok (Sign r)].
Proof.
  cbv zeta. pose proof (ssh_requests_survive_chunking [RequestIdentities; Sign (mkSignRequest [1; 2; 3] [104; 105] 0)]
    [[0; 0; 0; 1; 11; 0]; [0; 0; 18; 13; 0; 0; 0; 3; 1; 2; 3; 0; 0]; [0; 2; 104; 105; 0; 0; 0; 0]]) as H.
  destruct (fold_left feed _ _) as [payloads rest] in *. cbn [fst]. apply H.
  - repeat constructor; cbn; (try apply wf_bytes_check; done || lia).
  - intros H0. apply list_elem_of_In in H0 as [|[|[]]]; done.
  - apply list.Forall_cons; split; [by apply wf_bytes_check|]. apply list.Forall_cons; split; [by apply wf_bytes_check|]. apply list.Forall_singleton. by apply wf_bytes_check.
  - reflexivity.
Defined.

Lemma be32_of_bytes a b c d : is_byte a -> is_byte b -> is_byte c -> is_byte d ->
  be32 (a * 2 ^ 24 + b * 2 ^ 16 + c * 2 ^ 8 + d) = [a; b; c; d].
Proof.
  unfold is_byte. intros Ha Hb Hc Hd. set (v := a * 2 ^ 24 + b * 2 ^ 16 + c * 2 ^ 8 + d). unfold be32. rewrite u32_small by (subst v; lia).
  assert (v / 2 ^ 24 = a) as -> by (symmetry; apply (Z.div_unique _ _ _ (b * 2 ^ 16 + c * 2 ^ 8 + d)); subst v; lia).
  assert (v / 2 ^ 16 = a * 256 + b) as -> by (symmetry; apply (Z.div_unique _ _ _ (c * 2 ^ 8 + d)); subst v; lia).
  assert (v / 2 ^ 8 = (a * 256 + b) * 256 + c) as -> by (symmetry; apply (Z.div_unique _ _ _ d); subst v; lia).
  assert (v mod 256 = d) as -> by (symmetry; apply (Z.mod_unique _ _ ((a * 256 + b) * 256 + c)); subst v; lia).
  repeat f_equal; symmetry; [apply (Z.mod_unique _ _ a); lia|apply (Z.mod_unique _ _ (a * 256 + b)); lia].
Qed.

Lemma bdrop_bdrop i j buf : 0 <= i -> 0 <= j -> bdrop (i + j) buf = bdrop j (bdrop i buf).
Proof. intros. unfold bdrop. rewrite drop_drop. f_equal. lia. Qed.

Lemma readUInt32BE_inv buf offset n : wf_bytes buf -> 0 <= offset -> readUInt32BE buf offset = Ok n ->
  0 <= n < 2 ^ 32 /\ offset + 4 <= blen buf /\ bdrop offset buf = be32 n ++ bdrop (offset + 4) buf.
Proof.
  intros Hb Ho. unfold readUInt32BE. destruct (Z.leb_spec (offset + 4) (blen buf)) as [Hl|]; [|done]. intros [= <-].
  split; [by apply get_u32_range|]. split; [done|]. rewrite bdrop_bdrop by lia.
  assert (get_u32 buf (Z.to_nat offset) = get_u32 (bdrop offset buf) 0) as ->.
  { unfold get_u32, byte_at, bdrop. by rewrite !nth_skipn, Nat.add_0_r. }
  pose proof (wf_bytes_bdrop offset buf Hb) as Hw. pose proof (blen_bdrop offset buf ltac:(lia)) as Hlen.
  destruct (bdrop offset buf) as [|a [|b [|c [|d l]]]]; try (unfold blen in *; cbn [List.length] in *; lia).
  unfold wf_bytes in Hw. rewrite !list.Forall_cons in Hw. destruct Hw as (Ha & Hb' & Hc & Hd & _).
  unfold get_u32, byte_at. cbn [nth Nat.add]. by rewrite be32_of_bytes.
Qed.

Lemma readString_inv buf offset v offset' : wf_bytes buf -> 0 <= offset -> readString buf offset = Ok (v, offset') -> offset' <= blen buf ->
  0 <= offset' /\ bdrop offset buf = encodeString v ++ bdrop offset' buf.
Proof.
  intros Hb Ho. unfold readString. destruct (readUInt32BE buf offset) as [n|] eqn:En; [|done]. cbn [bind_result].
  destruct (readUInt32BE_inv buf offset n Hb Ho En) as (Hn & Hl & Hd). intros [= <- <-] Hle. split; [lia|]. rewrite Hd. unfold encodeString.
  rewrite <- app_assoc. rewrite blen_bslice by lia. replace (offset + 4 + n - (offset + 4)) with n by lia. f_equal.
  rewrite (bdrop_bdrop (offset + 4)) by lia. unfold bslice, bdrop. replace (offset + 4 + n - (offset + 4)) with n by lia. by rewrite take_drop.
Qed.

(** What is signed is what the frame says: a payload read as a sign request starts with the
    request as a client writes it. *)
Lemma decoded_sign_exact payload r : wf_bytes payload -> decodeMessage payload = Ok (Sign r) -> exists rest, payload = requestPayload (Sign r) ++ rest.
Proof.
  intros Hw. destruct payload as [|type buf]; [done|]. unfold decodeMessage. apply list.Forall_cons in Hw as [_ Hw].
  destruct (type =? MSG_REQUEST_IDENTITIES); [done|]. destruct (Z.eqb_spec type MSG_SIGN_REQUEST) as [->|]; [|done].
  destruct (readString buf 0) as [[k o1]|] eqn:E1; [|done]. cbn [bind_result snd fst].
  destruct (readString buf o1) as [[d o2]|] eqn:E2; [|done]. cbn [bind_result snd fst].
  unfold readUInt32. destruct (readUInt32BE buf o2) as [f|] eqn:E3; [|done]. cbn [bind_result fst]. intros [= <-].
  assert (forall o v o', readString buf o = Ok (v, o') -> o + 4 <= blen buf /\ o + 4 <= o') as Hs.
  { intros o v o'. unfold readString, readUInt32BE. destruct (Z.leb_spec (o + 4) (blen buf)); [|done]. cbn [bind_result]. intros [= _ <-].
    pose proof (get_u32_range buf (Z.to_nat o) Hw). lia. }
  destruct (Hs _ _ _ E1) as [_ H1]. destruct (Hs _ _ _ E2) as [H2 H3].
  destruct (readString_inv buf 0 k o1 Hw ltac:(lia) E1 ltac:(lia)) as [_ D1].
  destruct (readUInt32BE_inv buf o2 f Hw ltac:(lia) E3) as (_ & H4 & D3).
  destruct (readString_inv buf o1 d o2 Hw ltac:(lia) E2 ltac:(lia)) as [_ D2].
  exists (bdrop (o2 + 4) buf). change buf with (bdrop 0 buf) at 1. rewrite D1, D2, D3. cbn [requestPayload rq_keyBlob rq_data rq_flags].
  rewrite <- app_comm_cons, <- !app_assoc. done.
Qed.
