(* ===== verification/SshAgent.v ===== *)
(** * The SSH agent of a run

    A model of [packages/server/src/services/ssh-agent/server.ts] and [registry.ts]: the Unix
    and TCP listeners of each run, the token a TCP connection presents, the requests of a
    connection and the keys they are answered with. Listeners and connections live in heaps,
    since callbacks keep the object they closed over. Binding, closing and the lookup of keys
    are awaited: what waits is an [Op] or a worker of its connection, and events of the runs,
    the connections and the key table come in any order. A listener accepts from the moment its
    bind is reported until its close begins. The directory of a socket, deadlines and log lines
    are left out; the cipher, PEM parsing and signatures are parameters. *)
From Stdlib Require Import ZArith Lia Ascii String List Bool.
From stdpp Require Import base list strings gmap option.
From S2P Require Import Prelude JsString Bytes Tar Base64 MasterKey SshProtocol.

Open Scope string_scope.
Open Scope list_scope.
Open Scope Z_scope.

Definition TCP_TOKEN_BYTES : Z := 16.

(** ** The state *)

Record RunIdentity := mkRunIdentity { ri_runId : string; ri_teamId : string; ri_agentId : string; ri_label : option string }.
Record RegistryEntry := mkEntry { re_identity : RunIdentity; re_socketHostPath : string }.

Inductive Via := ViaUnix | ViaTcp.
#[export] Instance Via_eq_dec : EqDecision Via.
Proof. solve_decision. Defined.

Record Listener := mkListener { li_run : string; li_via : Via; li_listening : bool }.

(** [co_workers] are the calls of [processFrames] that wait for keys, each with its request and
    the encryption key it read. [co_token] are the bytes collected before authentication. *)
Record Connection := mkConnection {
  co_run : string; co_via : Via; co_team : string; co_expected : list Z; co_open : bool; co_token : list Z; co_authenticated : bool;
  co_buffer : list Z; co_workers : list (AgentMessage * option Key); co_written : list (list Z)
}.

(** What waits: a bind, a close, or the removal of a socket file; [next] are the runs that are
    released after this one. *)
Inductive Op :=
| BindingUnix (run : string) (listener : nat)
| BindingTcp (run : string) (listener : nat)
| ClosingUnix (run : string) (next : list string)
| ClosingTcp (run : string) (next : list string)
| RemovingFile (run : string) (next : list string).

Record SshAgentServer := mkServer {
  ag_registry : gmap string RegistryEntry; ag_tokens : gmap string (list Z);
  ag_listeners : gmap string nat; ag_tcpListeners : gmap string nat; ag_connections : gmap string (list nat);
  ag_servers : list Listener; ag_sockets : list Connection; ag_ops : list Op
}.
Definition newServer : SshAgentServer := mkServer ∅ ∅ ∅ ∅ ∅ [] [] [].

(** A row of [team_ssh_keys]. *)
Record KeyRow := mkKeyRow { kr_team : string; kr_publicKey : string; kr_privateKeyEncrypted : string }.

(** ** Keys *)

Inductive KeyError := MasterKeyNotAvailable | QueryFailed | InvalidPublicKey | DecryptionFailed | InvalidPem.

(** [split(/\s+/)]. *)
Fixpoint splitSpaces (inRun : bool) (s : string) : list string :=
  match s with
  | EmptyString => [""]
  | String c s =>
      if is_space c then if inRun then splitSpaces true s else "" :: splitSpaces true s
      else match splitSpaces false s with h :: t => String c h :: t | [] => [String c ""] end
  end.

Section Agent.
Context {PrivateKey : Type}.
Variable P : Platform.
Variable createPrivateKey : string -> option PrivateKey.
Variable sign : PrivateKey -> list Z -> list Z.

Record KeyEntry := mkKeyEntry { ke_keyBlob : list Z; ke_comment : string; ke_privateKey : PrivateKey }.

Definition sshPublicKeyToBlob (sshPublicKey : string) : result KeyError (list Z) :=
  match splitSpaces false (trim sshPublicKey) with
  | kind :: base64 :: _ =>
      let blob := fromBase64 P base64 in
      Ok (if String.eqb kind "ssh-ed25519" then ed25519PublicKeyBlob (subarray blob (blen blob - 32) (blen blob)) else blob)
  | _ => Throw InvalidPublicKey
  end.

Definition loadKey (teamId : string) (encryptionKey : Key) (row : KeyRow) : result KeyError KeyEntry :=
  let! blob := sshPublicKeyToBlob (kr_publicKey row) in
  match decrypt P (kr_privateKeyEncrypted row) encryptionKey with
  | Throw _ => Throw DecryptionFailed
  | Ok pem =>
      match createPrivateKey pem with
      | None => Throw InvalidPem
      | Some privateKey => Ok (mkKeyEntry blob ("hezo:" +:+ teamId) privateKey)
      end
  end.

Fixpoint loadRows (teamId : string) (encryptionKey : Key) (rows : list KeyRow) : result KeyError (list KeyEntry) :=
  match rows with
  | [] => Ok []
  | row :: rows => let! k := loadKey teamId encryptionKey row in let! l := loadRows teamId encryptionKey rows in Ok (k :: l)
  end.

(** [encryptionKey] is what the master key manager held when the call began; [rows] is [None]
    when the query fails. *)
Definition loadKeysForTeam (teamId : string) (encryptionKey : option Key) (rows : option (list KeyRow)) : result KeyError (list KeyEntry) :=
  match encryptionKey, rows with
  | None, _ => Throw MasterKeyNotAvailable
  | Some _, None => Throw QueryFailed
  | Some k, Some rows => loadRows teamId k (List.filter (fun r => String.eqb (kr_team r) teamId) rows)
  end.

Fixpoint signWithMatchingKey (keys : list KeyEntry) (req : SignRequest) : option (list Z) :=
  match keys with
  | [] => None
  | key :: keys =>
      if bool_decide (ke_keyBlob key = rq_keyBlob req) then Some (ed25519SignatureBlob sign (ke_privateKey key) (rq_data req))
      else signWithMatchingKey keys req
  end.

(** ** A connection *)

Definition setToken (t : list Z) (auth : bool) (c : Connection) : Connection :=
  mkConnection (co_run c) (co_via c) (co_team c) (co_expected c) (co_open c) t auth (co_buffer c) (co_workers c) (co_written c).
Definition setReader (b : list Z) (c : Connection) : Connection :=
  mkConnection (co_run c) (co_via c) (co_team c) (co_expected c) (co_open c) (co_token c) (co_authenticated c) b (co_workers c) (co_written c).
Definition setWorkers (w : list (AgentMessage * option Key)) (c : Connection) : Connection :=
  mkConnection (co_run c) (co_via c) (co_team c) (co_expected c) (co_open c) (co_token c) (co_authenticated c) (co_buffer c) w (co_written c).
(** Nothing is sent on a destroyed socket. *)
Definition writeFrame (f : list Z) (c : Connection) : Connection :=
  if co_open c then
    mkConnection (co_run c) (co_via c) (co_team c) (co_expected c) (co_open c) (co_token c) (co_authenticated c) (co_buffer c) (co_workers c)
      (co_written c ++ [f])
  else c.
Definition destroy (c : Connection) : Connection :=
  mkConnection (co_run c) (co_via c) (co_team c) (co_expected c) false (co_token c) (co_authenticated c) (co_buffer c) (co_workers c) (co_written c).

(** The answer to a request once its keys are there, the [catch] included. *)
Definition answer (m : AgentMessage) (keys : result KeyError (list KeyEntry)) : list Z :=
  match keys, m with
  | Ok keys, RequestIdentities => encodeIdentitiesAnswer (utf8 P) (List.map (fun k => mkIdentity (ke_keyBlob k) (ke_comment k)) keys)
  | Ok keys, Sign req => match signWithMatchingKey keys req with Some blob => encodeSignResponse blob | None => encodeFailure end
  | _, _ => encodeFailure
  end.

(** The frames one call takes until it waits for keys, the buffer is empty, or a request cannot
    be decoded, which ends the call. A unit of fuel per byte is enough. *)
Fixpoint takeFrames (fuel : nat) (master : option Key) (c : Connection) : Connection :=
  match fuel with
  | O => c
  | S fuel =>
      match nextFrame (co_buffer c) with
      | None => c
      | Some (payload, rest) =>
          let c := setReader rest c in
          match decodeMessage payload with
          | Throw _ => c
          | Ok Unsupported => takeFrames fuel master (writeFrame encodeFailure c)
          | Ok m => setWorkers (co_workers c ++ [(m, master)]) c
          end
      end
  end.
Definition processFrames (master : option Key) (c : Connection) : Connection := takeFrames (S (List.length (co_buffer c))) master c.

(** A worker whose keys are there answers and goes on with the frames that arrived meanwhile. *)
Definition resumeWorker (j : nat) (rows : option (list KeyRow)) (master : option Key) (c : Connection) : Connection :=
  match co_workers c !! j with
  | None => c
  | Some (m, key) => processFrames master (writeFrame (answer m (loadKeysForTeam (co_team c) key rows)) (setWorkers (delete j (co_workers c)) c))
  end.

(** The ['data'] handlers of both kinds of connection. *)
Definition onData (master : option Key) (chunk : list Z) (c : Connection) : Connection :=
  if co_authenticated c then processFrames master (setReader (pushChunk chunk (co_buffer c)) c)
  else
    let all := co_token c ++ chunk in
    if blen all <? TCP_TOKEN_BYTES then setToken all false c
    else
      let candidate := subarray all 0 TCP_TOKEN_BYTES in
      let remainder := subarray all TCP_TOKEN_BYTES (blen all) in
      if negb (blen candidate =? blen (co_expected c)) || negb (bool_decide (candidate = co_expected c))
      then destroy (writeFrame encodeFailure (setToken all false c))
      else
        let c := setToken all true c in
        if blen remainder >? 0 then processFrames master (setReader (pushChunk remainder (co_buffer c)) c) else c.

(** ** The server *)

Definition setSockets (l : list Connection) (s : SshAgentServer) : SshAgentServer :=
  mkServer (ag_registry s) (ag_tokens s) (ag_listeners s) (ag_tcpListeners s) (ag_connections s) (ag_servers s) l (ag_ops s).
Definition setConnections (m : gmap string (list nat)) (s : SshAgentServer) : SshAgentServer :=
  mkServer (ag_registry s) (ag_tokens s) (ag_listeners s) (ag_tcpListeners s) m (ag_servers s) (ag_sockets s) (ag_ops s).
Definition setServers (l : list Listener) (s : SshAgentServer) : SshAgentServer :=
  mkServer (ag_registry s) (ag_tokens s) (ag_listeners s) (ag_tcpListeners s) (ag_connections s) l (ag_sockets s) (ag_ops s).
Definition setAwaits (l : list Op) (s : SshAgentServer) : SshAgentServer :=
  mkServer (ag_registry s) (ag_tokens s) (ag_listeners s) (ag_tcpListeners s) (ag_connections s) (ag_servers s) (ag_sockets s) l.
Definition setRegistry (r : gmap string RegistryEntry) (t : gmap string (list Z)) (s : SshAgentServer) : SshAgentServer :=
  mkServer r t (ag_listeners s) (ag_tcpListeners s) (ag_connections s) (ag_servers s) (ag_sockets s) (ag_ops s).
Definition setListeners (u t : gmap string nat) (s : SshAgentServer) : SshAgentServer :=
  mkServer (ag_registry s) (ag_tokens s) u t (ag_connections s) (ag_servers s) (ag_sockets s) (ag_ops s).
Definition pushOp (o : Op) (s : SshAgentServer) : SshAgentServer := setAwaits (ag_ops s ++ [o]) s.
Definition setListening (i : nat) (b : bool) (s : SshAgentServer) : SshAgentServer :=
  setServers (alter (fun l => mkListener (li_run l) (li_via l) b) i (ag_servers s)) s.
Definition onSocket (i : nat) (f : Connection -> Connection) (s : SshAgentServer) : SshAgentServer := setSockets (alter f i (ag_sockets s)) s.

(** [trackConnection] and its ['close'] handler. *)
Definition trackConnection (run : string) (i : nat) (s : SshAgentServer) : SshAgentServer :=
  setConnections (<[run := default [] (ag_connections s !! run) ++ [i]]> (ag_connections s)) s.
Definition untrackConnection (run : string) (i : nat) (s : SshAgentServer) : SshAgentServer :=
  match ag_connections s !! run with
  | None => s
  | Some live =>
      match List.filter (fun j => negb (Nat.eqb i j)) live with
      | [] => setConnections (delete run (ag_connections s)) s
      | live => setConnections (<[run := live]> (ag_connections s)) s
      end
  end.

(** [allocateRunSocket] up to the bind of its Unix listener, and up to that of its TCP one. *)
Definition allocateRunSocket (run team agent : string) (label : option string) (path : string) (token : list Z) (s : SshAgentServer) : SshAgentServer :=
  let s := setRegistry (<[run := mkEntry (mkRunIdentity run team agent label) path]> (ag_registry s)) (<[run := token]> (ag_tokens s)) s in
  let i := List.length (ag_servers s) in
  pushOp (BindingUnix run i) (setServers (ag_servers s ++ [mkListener run ViaUnix false]) s).
Definition unixBound (run : string) (listener : nat) (s : SshAgentServer) : SshAgentServer :=
  let s := setListening listener true s in
  let s := setListeners (<[run := listener]> (ag_listeners s)) (ag_tcpListeners s) s in
  let i := List.length (ag_servers s) in
  pushOp (BindingTcp run i) (setServers (ag_servers s ++ [mkListener run ViaTcp false]) s).
Definition tcpBound (run : string) (listener : nat) (s : SshAgentServer) : SshAgentServer :=
  let s := setListening listener true s in
  setListeners (ag_listeners s) (<[run := listener]> (ag_tcpListeners s)) s.

(** [releaseRunSocket], by what it does between its awaits, from the last to the first; [k]
    releases the runs that follow. *)
Definition forget (k : SshAgentServer -> SshAgentServer) (run : string) (next : list string) (s : SshAgentServer) : SshAgentServer :=
  let s := setRegistry (ag_registry s) (delete run (ag_tokens s)) s in
  match ag_registry s !! run with
  | Some _ => pushOp (RemovingFile run next) s
  | None => k s
  end.
Definition closeTcp (k : SshAgentServer -> SshAgentServer) (run : string) (next : list string) (s : SshAgentServer) : SshAgentServer :=
  match ag_tcpListeners s !! run with
  | Some t => pushOp (ClosingTcp run next) (setListening t false s)
  | None => forget k run next s
  end.
Definition sever (run : string) (s : SshAgentServer) : SshAgentServer :=
  let s := fold_left (fun s i => onSocket i destroy s) (default [] (ag_connections s !! run)) s in
  setConnections (delete run (ag_connections s)) s.
Fixpoint releaseRuns (runs : list string) (s : SshAgentServer) : SshAgentServer :=
  match runs with
  | [] => s
  | run :: next =>
      let s := sever run s in
      match ag_listeners s !! run with
      | Some u => pushOp (ClosingUnix run next) (setListening u false s)
      | None => closeTcp (releaseRuns next) run next s
      end
  end.
Definition releaseRunSocket (run : string) (s : SshAgentServer) : SshAgentServer := releaseRuns [run] s.
Definition releaseAll (s : SshAgentServer) : SshAgentServer :=
  let unix := List.map fst (map_to_list (ag_listeners s)) in
  let tcp := List.map fst (map_to_list (ag_tcpListeners s)) in
  releaseRuns (unix ++ List.filter (fun run => negb (bool_decide (run ∈ unix))) tcp) s.

(** What follows an await; [ok] is the outcome of a bind. *)
Definition resumeAwait (o : Op) (ok : bool) (s : SshAgentServer) : SshAgentServer :=
  match o with
  | BindingUnix run i => if ok then unixBound run i s else releaseRunSocket run s
  | BindingTcp run i => if ok then tcpBound run i s else releaseRunSocket run s
  | ClosingUnix run next => closeTcp (releaseRuns next) run next (setListeners (delete run (ag_listeners s)) (ag_tcpListeners s) s)
  | ClosingTcp run next => forget (releaseRuns next) run next (setListeners (ag_listeners s) (delete run (ag_tcpListeners s)) s)
  | RemovingFile run next => releaseRuns next (setRegistry (delete run (ag_registry s)) (ag_tokens s) s)
  end.

(** [handleAuthenticatedConnection] and [handleTcpConnection]: the connection of a run that is
    not registered is destroyed at once. *)
Definition accept (i : nat) (s : SshAgentServer) : SshAgentServer :=
  match ag_servers s !! i with
  | Some (mkListener run via true) =>
      let c := List.length (ag_sockets s) in
      let add c0 := trackConnection run c (setSockets (ag_sockets s ++ [c0]) s) in
      match ag_registry s !! run, via, ag_tokens s !! run with
      | Some e, ViaUnix, _ => add (mkConnection run via (ri_teamId (re_identity e)) [] true [] true [] [] [])
      | Some e, ViaTcp, Some token => add (mkConnection run via (ri_teamId (re_identity e)) token true [] false [] [] [])
      | _, _, _ => add (mkConnection run via "" [] false [] false [] [] [])
      end
  | _ => s
  end.

(** ** Events *)

Record World := mkWorld { wo_agent : SshAgentServer; wo_rows : list KeyRow; wo_master : option Key }.

Inductive AgentEvent :=
| Allocate (run team agent : string) (label : option string) (path : string) (token : list Z)
| Release (run : string)
| ReleaseAll
| OpResumes (k : nat) (ok : bool)
| Connects (listener : nat)
| DataArrives (c : nat) (chunk : list Z)
| KeysLoad (c j : nat) (ok : bool)
| PeerCloses (c : nat)
| KeysChange (rows : list KeyRow)
| MasterKeyChange (key : option Key).

Definition agentStep (w : World) (e : AgentEvent) : World :=
  let s := wo_agent w in
  let on s := mkWorld s (wo_rows w) (wo_master w) in
  match e with
  | Allocate run team agent label path token => on (allocateRunSocket run team agent label path token s)
  | Release run => on (releaseRunSocket run s)
  | ReleaseAll => on (releaseAll s)
  | OpResumes k ok =>
      match ag_ops s !! k with
      | Some o => on (resumeAwait o ok (setAwaits (delete k (ag_ops s)) s))
      | None => w
      end
  | Connects i => on (accept i s)
  | DataArrives c chunk => on (onSocket c (fun x => if co_open x then onData (wo_master w) chunk x else x) s)
  | KeysLoad c j ok => on (onSocket c (resumeWorker j (if ok then Some (wo_rows w) else None) (wo_master w)) s)
  | PeerCloses c =>
      match ag_sockets s !! c with
      | Some x => on (untrackConnection (co_run x) c (onSocket c destroy s))
      | None => w
      end
  | KeysChange rows => mkWorld s rows (wo_master w)
  | MasterKeyChange key => mkWorld s (wo_rows w) key
  end.
Definition runAgent (rows : list KeyRow) (master : option Key) (evs : list AgentEvent) : World :=
  fold_left agentStep evs (mkWorld newServer rows master).
End Agent.

(** ** Predicates a release keeps *)

Record Stable (I : SshAgentServer -> Prop) : Prop := {
  st_sever : forall run s, I s -> I (sever run s);
  st_token : forall run s, I s -> I (setRegistry (ag_registry s) (delete run (ag_tokens s)) s);
  st_entry : forall run s, I s -> I (setRegistry (delete run (ag_registry s)) (ag_tokens s) s);
  st_listeners : forall u t s, I s -> I (setListeners u t s);
  st_servers : forall l s, I s -> I (setServers l s);
  st_awaits : forall l s, I s -> I (setAwaits l s);
}.

Section Stability.
Context (I : SshAgentServer -> Prop) (HI : Stable I).

Lemma forget_stable k run next s : (forall s, I s -> I (k s)) -> I s -> I (forget k run next s).
Proof. intros Hk H. unfold forget. pose proof (st_token I HI run s H) as Ht. destruct (_ !! run); [by apply (st_awaits I HI)|by apply Hk]. Qed.
Lemma closeTcp_stable k run next s : (forall s, I s -> I (k s)) -> I s -> I (closeTcp k run next s).
Proof. intros Hk H. unfold closeTcp. destruct (_ !! run); [by apply (st_awaits I HI), (st_servers I HI)|by apply forget_stable]. Qed.
Lemma releaseRuns_stable runs : forall s, I s -> I (releaseRuns runs s).
Proof.
  induction runs as [|run next IH]; intros s H; [done|]. cbn [releaseRuns]. pose proof (st_sever I HI run s H) as Hs.
  destruct (_ !! run); [by apply (st_awaits I HI), (st_servers I HI)|by apply closeTcp_stable].
Qed.
Lemma resumeAwait_stable o ok s : I s -> I (resumeAwait o ok s).
Proof.
  intros H. destruct o as [run i|run i|run next|run next|run next]; cbn [resumeAwait].
  - destruct ok; [|by apply releaseRuns_stable]. unfold unixBound. by apply (st_awaits I HI), (st_servers I HI), (st_listeners I HI), (st_servers I HI).
  - destruct ok; [|by apply releaseRuns_stable]. by apply (st_listeners I HI), (st_servers I HI).
  - apply closeTcp_stable; [apply releaseRuns_stable|by apply (st_listeners I HI)].
  - apply forget_stable; [apply releaseRuns_stable|by apply (st_listeners I HI)].
  - by apply releaseRuns_stable, (st_entry I HI).
Qed.
End Stability.

(** ** What a connection can obtain *)

Section Laws.
Context {PrivateKey : Type} (P : Platform) (createPrivateKey : string -> option PrivateKey) (sign : PrivateKey -> list Z -> list Z).
Local Notation loadKeysForTeam := (loadKeysForTeam P createPrivateKey).
Local Notation answer := (answer P sign).

Section Connections.
(** The runs allocated so far with their team and token, and the key rows and the encryption
    keys there have been. *)
Variable allocated : string -> string -> list Z -> Prop.
Variable rowsSeen : list KeyRow -> Prop.
Variable keySeen : Key -> Prop.

Definition fromTeamKeys (team : string) (f : list Z) : Prop :=
  exists rows k m keys, rowsSeen rows /\ keySeen k /\ loadKeysForTeam team (Some k) (Some rows) = Ok keys /\ f = answer m (Ok keys).
Definition worker_ok (w : AgentMessage * option Key) : Prop := forall k, snd w = Some k -> keySeen k.

Record conn_ok (c : Connection) : Prop := {
  ok_allocated : co_open c = true \/ co_authenticated c = true ->
    match co_via c with ViaUnix => exists t, allocated (co_run c) (co_team c) t | ViaTcp => allocated (co_run c) (co_team c) (co_expected c) end;
  ok_token : co_via c = ViaTcp -> co_authenticated c = true -> subarray (co_token c) 0 TCP_TOKEN_BYTES = co_expected c;
  ok_workers : co_workers c <> [] -> co_authenticated c = true;
  ok_keys : Forall worker_ok (co_workers c);
  ok_written : forall f, f ∈ co_written c -> f = encodeFailure \/ co_authenticated c = true /\ fromTeamKeys (co_team c) f;
}.

Lemma write_ok f c : conn_ok c -> f = encodeFailure \/ co_authenticated c = true /\ fromTeamKeys (co_team c) f -> conn_ok (writeFrame f c).
Proof.
  intros Hc Hf. unfold writeFrame. destruct (co_open c) eqn:E; [|done]. destruct Hc as [H1 H2 H3 H4 H5]. split; cbn; try assumption.
  { intros _. apply H1. by left. }
  intros g [Hg| ->%list_elem_of_singleton]%elem_of_app; [by apply H5|done].
Qed.
Lemma write_static f c : co_authenticated (writeFrame f c) = co_authenticated c /\ co_buffer (writeFrame f c) = co_buffer c /\
  co_workers (writeFrame f c) = co_workers c /\ co_team (writeFrame f c) = co_team c.
Proof. unfold writeFrame. by destruct (co_open c). Qed.

Lemma reader_ok b c : conn_ok c -> conn_ok (setReader b c).
Proof. intros [H1 H2 H3 H4 H5]. by constructor. Qed.
Lemma destroy_ok c : conn_ok c -> conn_ok (destroy c).
Proof. intros [H1 H2 H3 H4 H5]. split; cbn; try done. intros [?|?]; [done|]. apply H1. by right. Qed.

Lemma takeFrames_ok fuel : forall master c, co_authenticated c = true -> (forall k, master = Some k -> keySeen k) -> conn_ok c ->
  conn_ok (takeFrames fuel master c).
Proof.
  induction fuel as [|fuel IH]; intros master c Ha Hm Hc; [done|]. cbn [takeFrames]. destruct (nextFrame (co_buffer c)) as [[payload rest]|]; [|done].
  assert (forall m, conn_ok (setWorkers (co_workers (setReader rest c) ++ [(m, master)]) (setReader rest c))) as Hw.
  { intros m. destruct Hc as [H1 H2 H3 H4 H5]. split; cbn; try done. apply list.Forall_app. split; [done|]. by apply list.Forall_singleton. }
  destruct (decodeMessage payload) as [[|req|]|e]; [apply Hw|apply Hw| |by apply reader_ok].
  apply IH; [by rewrite (proj1 (write_static _ _))|done|]. apply write_ok; [by apply reader_ok|by left].
Qed.

Lemma resumeWorker_ok j rows master c : (forall r, rows = Some r -> rowsSeen r) -> (forall k, master = Some k -> keySeen k) -> conn_ok c ->
  conn_ok (resumeWorker P createPrivateKey sign j rows master c).
Proof.
  intros Hr Hm Hc. unfold resumeWorker. destruct (co_workers c !! j) as [[m key]|] eqn:Ej; [|done].
  assert (co_authenticated c = true) as Ha by (apply (ok_workers c Hc); intros E; by rewrite E in Ej).
  assert (forall k, key = Some k -> keySeen k) as Hk by (by apply (proj1 (list.Forall_lookup _ _) (ok_keys c Hc) j (m, key) Ej)).
  assert (conn_ok (setWorkers (delete j (co_workers c)) c)) as Hc'.
  { destruct Hc as [H1 H2 H3 H4 H5]. split; cbn; try done. by apply list.Forall_delete. }
  apply takeFrames_ok; [by rewrite (proj1 (write_static _ _))|done|]. apply write_ok; [done|].
  cbn [setWorkers co_authenticated co_team]. destruct (loadKeysForTeam (co_team c) key rows) as [keys|e] eqn:El; [|by left].
  right. split; [done|]. destruct key as [k|]; [|done]. destruct rows as [rows|]; [|done].
  exists rows, k, m, keys. auto.
Qed.

Lemma onData_ok master chunk c : (forall k, master = Some k -> keySeen k) -> conn_ok c -> co_open c = true -> conn_ok (onData master chunk c).
Proof.
  intros Hm Hc Ho. unfold onData. destruct (co_authenticated c) eqn:Ha.
  { apply takeFrames_ok; [done|done|by apply reader_ok]. }
  assert (forall t, conn_ok (setToken t false c)) as Hf.
  { intros t. destruct Hc as [H1 H2 H3 H4 H5]. split; cbn; try done.
    - intros _. apply H1. by left.
    - intros Hn. specialize (H3 Hn). congruence.
    - intros f Hin. destruct (H5 f Hin) as [|[? _]]; [by left|congruence]. }
  destruct (_ <? _); [apply Hf|]. destruct (_ || _) eqn:E; [apply destroy_ok, write_ok; [apply Hf|by left]|].
  apply orb_false_iff in E as [_ E]. apply negb_false_iff, bool_decide_eq_true in E.
  assert (conn_ok (setToken (co_token c ++ chunk) true c)) as Ht.
  { destruct Hc as [H1 H2 H3 H4 H5]. split; cbn; try done.
    - intros _. apply H1. by left.
    - intros f Hin. destruct (H5 f Hin) as [|[? _]]; [by left|congruence]. }
  destruct (_ >? 0); [|done]. apply takeFrames_ok; [done|done|by apply reader_ok].
Qed.

Definition registry_ok (r : gmap string RegistryEntry) (t : gmap string (list Z)) : Prop := forall run e, r !! run = Some e ->
  (exists token, allocated run (ri_teamId (re_identity e)) token) /\ forall token, t !! run = Some token -> allocated run (ri_teamId (re_identity e)) token.
Definition agent_inv (s : SshAgentServer) : Prop := Forall conn_ok (ag_sockets s) /\ registry_ok (ag_registry s) (ag_tokens s).

Lemma onSocket_inv i f s : (forall c, ag_sockets s !! i = Some c -> conn_ok c -> conn_ok (f c)) -> agent_inv s -> agent_inv (onSocket i f s).
Proof.
  intros Hf [H1 H2]. split; [|exact H2]. by apply list.Forall_alter.
Qed.

Lemma sever_inv run s : agent_inv s -> agent_inv (sever run s).
Proof.
  intros H. unfold sever. enough (agent_inv (fold_left (fun s i => onSocket i destroy s) (default [] (ag_connections s !! run)) s)) as H' by exact H'.
  generalize (default [] (ag_connections s !! run)). intros l. revert s H. induction l as [|i l IH]; intros s H; [done|].
  cbn [fold_left]. apply IH. apply onSocket_inv; [|done]. intros c _. apply destroy_ok.
Qed.

Lemma registry_shrinks r t r' t' : r' ⊆ r -> t' ⊆ t -> registry_ok r t -> registry_ok r' t'.
Proof.
  intros Hr Ht H run e He. destruct (H run e) as [H1 H2]; [by eapply lookup_weaken|]. split; [done|].
  intros token Hk. apply H2. by eapply lookup_weaken.
Qed.
Lemma agent_inv_stable : Stable agent_inv.
Proof.
  split; try by intros.
  - apply sever_inv.
  - intros run s [H1 H2]. split; [exact H1|]. by apply (registry_shrinks (ag_registry s) (ag_tokens s)); [|apply delete_subseteq|].
  - intros run s [H1 H2]. split; [exact H1|]. by apply (registry_shrinks (ag_registry s) (ag_tokens s)); [apply delete_subseteq| |].
Qed.
Lemma accept_inv i s : agent_inv s -> agent_inv (accept i s).
Proof.
  intros [H1 H2]. unfold accept. destruct (ag_servers s !! i) as [[run via []]|]; [|done|done].
  assert (forall c, conn_ok c -> agent_inv (trackConnection run (List.length (ag_sockets s)) (setSockets (ag_sockets s ++ [c]) s))) as Hadd.
  { intros c Hc. split; [|exact H2]. apply list.Forall_app. split; [done|]. by apply list.Forall_singleton. }
  assert (agent_inv (trackConnection run (List.length (ag_sockets s)) (setSockets (ag_sockets s ++ [mkConnection run via "" [] false [] false [] [] []]) s))) as Hdead.
  { apply Hadd. split; cbn; [by intros [|]|done|done|constructor|by intros f []%elem_of_nil]. }
  destruct (ag_registry s !! run) as [e|] eqn:Ee; [|done]. destruct (H2 run e Ee) as [Ha Ht].
  destruct via; [|destruct (ag_tokens s !! run) as [token|] eqn:Et; [|exact Hdead]].
  - apply Hadd. split; cbn; [done|done|done|constructor|by intros f []%elem_of_nil].
  - apply Hadd. split; cbn; [intros _; by apply Ht|done|done|constructor|by intros f []%elem_of_nil].
Qed.
Lemma allocate_inv run team agent label path token s : allocated run team token -> agent_inv s ->
  agent_inv (allocateRunSocket run team agent label path token s).
Proof.
  intros Ha [H1 H2]. split; [exact H1|]. cbn. intros r e He. destruct (decide (r = run)) as [->|Hn].
  - rewrite lookup_insert_eq in He. injection He as <-. cbn. split; [by exists token|]. rewrite lookup_insert_eq. by intros t [= <-].
  - rewrite lookup_insert_ne in He by done. rewrite lookup_insert_ne by done. by apply H2.
Qed.
Lemma untrack_inv run i s : agent_inv s -> agent_inv (untrackConnection run i s).
Proof. intros H. unfold untrackConnection. destruct (_ !! run) as [l|]; [|done]. by destruct (List.filter _ l). Qed.
End Connections.

(** *** Histories *)

Variable rows0 : list KeyRow.
Variable master0 : option Key.
Local Notation runAgent := (runAgent P createPrivateKey sign rows0 master0).

Definition allocatedIn (evs : list AgentEvent) (run team : string) (token : list Z) : Prop :=
  exists agent label path, In (Allocate run team agent label path token) evs.
Definition rowsSeenIn (evs : list AgentEvent) (rows : list KeyRow) : Prop := exists n, wo_rows (runAgent (take n evs)) = rows.
Definition keySeenIn (evs : list AgentEvent) (k : Key) : Prop := exists n, wo_master (runAgent (take n evs)) = Some k.

Lemma take_snoc_ex {A} n (l : list A) x : exists m, take m (l ++ [x]) = take n l.
Proof.
  exists (Nat.min n (List.length l)). rewrite take_app_le by lia. destruct (Nat.le_gt_cases n (List.length l)); [by rewrite Nat.min_l by lia|].
  rewrite Nat.min_r by lia. by rewrite !take_ge by lia.
Qed.

Lemma conn_ok_mono (A A' : string -> string -> list Z -> Prop) (R R' : list KeyRow -> Prop) (K K' : Key -> Prop) c :
  (forall r t k, A r t k -> A' r t k) -> (forall r, R r -> R' r) -> (forall k, K k -> K' k) -> conn_ok A R K c -> conn_ok A' R' K' c.
Proof.
  intros HA HR HK [H1 H2 H3 H4 H5]. split; [|done|done| |].
  - intros Ho. specialize (H1 Ho). destruct (co_via c); [|by apply HA]. destruct H1 as [t Ht]. exists t. by apply HA.
  - eapply list.Forall_impl; [done|]. intros w Hw k Hk. by apply HK, Hw.
  - intros f Hf. destruct (H5 f Hf) as [|[Ha (rows & k & m & keys & Hr & Hk & Hl & E)]]; [by left|]. right. split; [done|].
    exists rows, k, m, keys. auto.
Qed.

Lemma agent_history evs : agent_inv (allocatedIn evs) (rowsSeenIn evs) (keySeenIn evs) (wo_agent (runAgent evs)).
Proof.
  induction evs as [|e evs IH] using rev_ind.
  { split; [constructor|]. by intros run x Hx. }
  assert (agent_inv (allocatedIn (evs ++ [e])) (rowsSeenIn (evs ++ [e])) (keySeenIn (evs ++ [e])) (wo_agent (runAgent evs))) as H.
  { destruct IH as [H1 H2]. split.
    - eapply list.Forall_impl; [exact H1|]. intros c. apply conn_ok_mono.
      + intros r t k (a & l & p & Hin). exists a, l, p. apply in_or_app. by left.
      + intros r [n Hn]. destruct (take_snoc_ex n evs e) as [m Hm]. exists m. by rewrite Hm.
      + intros r [n Hn]. destruct (take_snoc_ex n evs e) as [m Hm]. exists m. by rewrite Hm.
    - intros run x Hx. destruct (H2 run x Hx) as [(t & a & l & p & Hin) Ht]. split.
      + exists t, a, l, p. apply in_or_app. by left.
      + intros t' Ht'. destruct (Ht t' Ht') as (a' & l' & p' & Hin'). exists a', l', p'. apply in_or_app. by left. }
  assert (rowsSeenIn (evs ++ [e]) (wo_rows (runAgent evs))) as Hrow.
  { exists (List.length evs). by rewrite take_app_length. }
  assert (forall k, wo_master (runAgent evs) = Some k -> keySeenIn (evs ++ [e]) k) as Hkey.
  { intros k Hk. exists (List.length evs). by rewrite take_app_length. }
  unfold SshAgent.runAgent at 1. rewrite fold_left_app. cbn [fold_left]. fold (runAgent evs). set (w := runAgent evs) in *.
  destruct e as [run team agent label path token|run| |k ok|i|c chunk|c j ok|c|rows|key]; cbn [agentStep wo_agent].
  - apply allocate_inv; [|done]. exists agent, label, path. apply in_or_app. right. by left.
  - by apply (releaseRuns_stable _ (agent_inv_stable _ _ _)).
  - by apply (releaseRuns_stable _ (agent_inv_stable _ _ _)).
  - destruct (ag_ops (wo_agent w) !! k) as [o|]; [|done]. by apply (resumeAwait_stable _ (agent_inv_stable _ _ _)).
  - by apply accept_inv.
  - apply onSocket_inv; [|done]. intros x _ Hx. destruct (co_open x) eqn:Eo; [|done]. by apply onData_ok.
  - apply onSocket_inv; [|done]. intros x _ Hx. apply resumeWorker_ok; [|done|done]. destruct ok; [|done]. by intros r [= <-].
  - destruct (ag_sockets (wo_agent w) !! c) as [x|]; [|done]. apply untrack_inv, onSocket_inv; [|done]. intros y _. apply destroy_ok.
  - done.
  - done.
Qed.

Lemma loadRows_in team k rows : forall keys key, loadRows P createPrivateKey team k rows = Ok keys -> In key keys ->
  exists row pem, In row rows /\ sshPublicKeyToBlob P (kr_publicKey row) = Ok (ke_keyBlob key) /\
    decrypt P (kr_privateKeyEncrypted row) k = Ok pem /\ createPrivateKey pem = Some (ke_privateKey key).
Proof.
  induction rows as [|row rows IH]; intros keys key; cbn [loadRows]; [by intros [= <-]|].
  destruct (loadKey P createPrivateKey team k row) as [x|] eqn:Ex; [|done]. cbn [bind_result].
  destruct (loadRows P createPrivateKey team k rows) as [l|] eqn:El; [|done]. cbn [bind_result]. intros [= <-] [->|Hin].
  - unfold loadKey in Ex. destruct (sshPublicKeyToBlob P (kr_publicKey row)) as [blob|] eqn:Eb; [|done]. cbn [bind_result] in Ex.
    destruct (decrypt P (kr_privateKeyEncrypted row) k) as [pem|] eqn:Ed; [|done].
    destruct (createPrivateKey pem) as [pk|] eqn:Ep; [|done]. injection Ex as <-. exists row, pem. cbn. split_and!; [by left|done..].
  - destruct (IH l key eq_refl Hin) as (r & pem & H1 & H2). exists r, pem. split; [by right|done].
Qed.

Lemma sign_matches keys req blob : signWithMatchingKey sign keys req = Some blob ->
  exists key, In key keys /\ ke_keyBlob key = rq_keyBlob req /\ blob = ed25519SignatureBlob sign (ke_privateKey key) (rq_data req).
Proof.
  induction keys as [|key keys IH]; [done|]. cbn [signWithMatchingKey]. case_bool_decide as E.
  - intros [= <-]. exists key. split; [by left|done].
  - intros H. destruct (IH H) as (k & Hin & Hk). exists k. split; [by right|done].
Qed.

(** C17. Whatever the runs, the connections and the key table do, a connection obtains more than a
    failure only under a run that was allocated, over TCP only after presenting the token of
    that run, and what it obtains are the identities of its own team's keys or a signature
    with the private key, stored for its team, that belongs to the key it named. *)
Theorem ssh_agent_signs_for_its_team evs c conn f : ag_sockets (wo_agent (runAgent evs)) !! c = Some conn -> f ∈ co_written conn -> f <> encodeFailure ->
  (exists token, allocatedIn evs (co_run conn) (co_team conn) token /\ (co_via conn = ViaTcp -> subarray (co_token conn) 0 TCP_TOKEN_BYTES = token)) /\
  exists rows k keys, rowsSeenIn evs rows /\ keySeenIn evs k /\ loadKeysForTeam (co_team conn) (Some k) (Some rows) = Ok keys /\
  (f = encodeIdentitiesAnswer (utf8 P) (List.map (fun x => mkIdentity (ke_keyBlob x) (ke_comment x)) keys) \/
   exists req row pem privateKey, In row rows /\ kr_team row = co_team conn /\ sshPublicKeyToBlob P (kr_publicKey row) = Ok (rq_keyBlob req) /\
     decrypt P (kr_privateKeyEncrypted row) k = Ok pem /\ createPrivateKey pem = Some privateKey /\
     f = encodeSignResponse (ed25519SignatureBlob sign privateKey (rq_data req))).
Proof.
  intros Hc Hf Hn. pose proof (proj1 (list.Forall_lookup _ _) (proj1 (agent_history evs)) c conn Hc) as [H1 H2 _ _ H5].
  destruct (H5 f Hf) as [|[Ha (rows & k & m & keys & Hr & Hk & Hl & ->)]]; [done|]. specialize (H1 (or_intror Ha)). split.
  - destruct (co_via conn); [destruct H1 as [t Ht]; by exists t|]. exists (co_expected conn). split; [done|]. intros _. by apply H2.
  - exists rows, k, keys. split_and!; [done..|]. destruct m as [|req|]; [by left| |by destruct Hn].
    cbn [SshAgent.answer] in Hn |- *. destruct (signWithMatchingKey sign keys req) as [blob|] eqn:Es; [|done].
    destruct (sign_matches keys req blob Es) as (key & Hin & Hblob & ->). cbn [SshAgent.loadKeysForTeam] in Hl.
    destruct (loadRows_in _ _ _ keys key Hl Hin) as (row & pem & Hrow & Hpub & Hdec & Hpk). right.
    apply filter_In in Hrow as [Hrow Hteam%String.eqb_eq]. rewrite Hblob in Hpub. exists req, row, pem, (ke_privateKey key). done.
Qed.

(** *** Releasing a run *)

Definition tracked (s : SshAgentServer) : Prop := forall i c, ag_sockets s !! i = Some c -> co_open c = true ->
  exists live, ag_connections s !! co_run c = Some live /\ In i live.
(** What a step may do to a connection. *)
Definition same_run (c c' : Connection) : Prop := co_run c' = co_run c /\ (co_open c' = true -> co_open c = true).

Lemma write_same f c : same_run c (writeFrame f c).
Proof. unfold writeFrame. destruct (co_open c) eqn:E; by split. Qed.
Lemma same_trans a b c : same_run a b -> same_run b c -> same_run a c.
Proof. intros [H1 H2] [H3 H4]. split; [congruence|auto]. Qed.
Lemma takeFrames_same fuel : forall master c, same_run c (takeFrames fuel master c).
Proof.
  induction fuel as [|fuel IH]; intros master c; [by split|]. cbn [takeFrames]. destruct (nextFrame (co_buffer c)) as [[payload rest]|]; [|by split].
  destruct (decodeMessage payload) as [[|req|]|e]; [by split|by split| |by split].
  eapply same_trans; [|apply IH]. exact (write_same encodeFailure (setReader rest c)).
Qed.
Lemma resumeWorker_same j rows master c : same_run c (resumeWorker P createPrivateKey sign j rows master c).
Proof.
  unfold resumeWorker. destruct (co_workers c !! j) as [[m key]|]; [|by split]. eapply same_trans; [|apply takeFrames_same].
  exact (write_same _ (setWorkers (delete j (co_workers c)) c)).
Qed.
Lemma onData_same master chunk c : same_run c (onData master chunk c).
Proof.
  unfold onData, processFrames. destruct (co_authenticated c); [exact (takeFrames_same _ master (setReader _ c))|].
  destruct (_ <? _); [by split|]. destruct (_ || _).
  - eapply same_trans; [exact (write_same encodeFailure (setToken (co_token c ++ chunk) false c))|]. by split.
  - destruct (_ >? 0); [|by split]. exact (takeFrames_same _ master (setReader _ (setToken _ true c))).
Qed.

Lemma onSocket_tracked i f s : (forall c, same_run c (f c)) -> tracked s -> tracked (onSocket i f s).
Proof.
  intros Hf H j c. cbn [onSocket setSockets ag_sockets ag_connections]. rewrite list_lookup_alter. case_decide as E; [subst j|apply H].
  destruct (ag_sockets s !! i) as [d|] eqn:Ed; [|done]. intros [= <-] Ho. destruct (Hf d) as [-> H2]. by apply (H i d Ed), H2.
Qed.

Lemma destroy_all l : forall s, let s' := fold_left (fun s i => onSocket i destroy s) l s in
  ag_connections s' = ag_connections s /\
  forall i c', ag_sockets s' !! i = Some c' -> exists c, ag_sockets s !! i = Some c /\ same_run c c' /\ (In i l -> co_open c' = false).
Proof.
  induction l as [|j l IH]; intros s; cbn [fold_left].
  { split; [done|]. intros i c' Hc. exists c'. by split_and!. }
  destruct (IH (onSocket j destroy s)) as [H1 H2]. split; [done|]. intros i c' Hc. destruct (H2 i c' Hc) as (d & Hd & Hs & Hin).
  cbn [onSocket setSockets ag_sockets] in Hd. rewrite list_lookup_alter in Hd. case_decide as E; [subst j|].
  - destruct (ag_sockets s !! i) as [c|] eqn:Ec; [|done]. injection Hd as <-. exists c. split_and!; [done|eapply same_trans; [|exact Hs]; by split|].
    intros _. destruct (co_open c') eqn:Eo; [|done]. by destruct (proj2 Hs Eo).
  - exists d. split_and!; [done|done|]. intros [->|Hi]; [done|by apply Hin].
Qed.

Lemma sever_closes run s : tracked s -> tracked (sever run s) /\ (forall i c, ag_sockets (sever run s) !! i = Some c -> co_run c = run -> co_open c = false).
Proof.
  intros Ht. destruct (destroy_all (default [] (ag_connections s !! run)) s) as [H1 H2]. unfold sever.
  set (s' := fold_left _ _ s) in *.
  assert (forall i c, ag_sockets s' !! i = Some c -> co_run c = run -> co_open c = false) as Hclosed.
  { intros i c' Hc Hr. destruct (co_open c') eqn:Eo; [|done]. destruct (H2 i c' Hc) as (c & Hc0 & [Hsr Hso] & Hin).
    destruct (Ht i c Hc0 (Hso Eo)) as (live & Hl & Hi). rewrite <- Hsr, Hr in Hl. rewrite Hl in Hin. rewrite <- Eo. by apply Hin. }
  split; [|exact Hclosed]. intros i c' Hc Ho. cbn [setConnections ag_sockets ag_connections] in *.
  destruct (H2 i c' Hc) as (c & Hc0 & [Hsr Hso] & _). destruct (Ht i c Hc0 (Hso Ho)) as (live & Hl & Hi).
  destruct (decide (co_run c' = run)) as [E|E]; [by rewrite (Hclosed i c' Hc E) in Ho|].
  exists live. rewrite H1, lookup_delete_ne, Hsr by done. done.
Qed.

Lemma tracked_stable : Stable tracked.
Proof. split; try by intros. intros run s H. by apply sever_closes. Qed.

Lemma accept_tracked i s : tracked s -> tracked (accept i s).
Proof.
  intros Ht. unfold accept. destruct (ag_servers s !! i) as [[run via []]|]; [|done|done].
  assert (forall c, co_run c = run -> tracked (trackConnection run (List.length (ag_sockets s)) (setSockets (ag_sockets s ++ [c]) s))) as Hadd.
  { intros c Hr j d. cbn [trackConnection setConnections setSockets ag_sockets ag_connections]. intros Hd Ho.
    apply lookup_app_Some in Hd as [Hd|[Hj Hd]].
    - destruct (Ht j d Hd Ho) as (live & Hl & Hi). destruct (decide (co_run d = run)) as [E|E].
      + rewrite E in *. rewrite lookup_insert_eq, Hl. eexists. split; [done|]. apply in_or_app. by left.
      + rewrite lookup_insert_ne by done. by exists live.
    - apply list_lookup_singleton_Some in Hd as [Hz <-]. rewrite Hr, lookup_insert_eq. eexists. split; [done|]. apply in_or_app. right. left. lia. }
  destruct (ag_registry s !! run); [|by apply Hadd]. destruct via; [by apply Hadd|]. destruct (ag_tokens s !! run); by apply Hadd.
Qed.

Lemma untrack_tracked run i s : (forall c, ag_sockets s !! i = Some c -> co_open c = false) -> tracked s -> tracked (untrackConnection run i s).
Proof.
  intros Hi Ht. unfold untrackConnection. destruct (ag_connections s !! run) as [live|] eqn:El; [|done].
  assert (forall j c, ag_sockets s !! j = Some c -> co_open c = true -> co_run c = run -> In j (List.filter (fun j => negb (Nat.eqb i j)) live)) as Hj.
  { intros j c Hc Ho Hr. destruct (Ht j c Hc Ho) as (live' & Hl & Hin). rewrite Hr, El in Hl. injection Hl as <-. apply filter_In. split; [done|].
    apply negb_true_iff, Nat.eqb_neq. intros ->. by rewrite (Hi c Hc) in Ho. }
  destruct (List.filter _ live) as [|x l]; intros j c Hc Ho; cbn [setConnections ag_sockets ag_connections] in *;
    (destruct (decide (co_run c = run)) as [E|E];
      [specialize (Hj j c Hc Ho E)|destruct (Ht j c Hc Ho) as (live' & Hl & Hin); exists live'; rewrite ?lookup_delete_ne, ?lookup_insert_ne by done; done]).
  - done.
  - rewrite E, lookup_insert_eq. by exists (x :: l).
Qed.

Lemma runAgent_tracked evs : tracked (wo_agent (runAgent evs)).
Proof.
  induction evs as [|e evs IH] using rev_ind; [done|]. unfold SshAgent.runAgent. rewrite fold_left_app. cbn [fold_left]. fold (runAgent evs).
  set (w := runAgent evs) in *. destruct e as [run team agent label path token|run| |k ok|i|c chunk|c j ok|c|rows|key]; cbn [agentStep wo_agent]; try done.
  - by apply (releaseRuns_stable _ tracked_stable).
  - by apply (releaseRuns_stable _ tracked_stable).
  - destruct (ag_ops (wo_agent w) !! k) as [o|]; [|done]. by apply (resumeAwait_stable _ tracked_stable).
  - by apply accept_tracked.
  - apply onSocket_tracked; [|done]. intros x. destruct (co_open x); [apply onData_same|by split].
  - apply onSocket_tracked; [|done]. intros x. apply resumeWorker_same.
  - destruct (ag_sockets (wo_agent w) !! c) as [x|]; [|done]. apply untrack_tracked; [|apply onSocket_tracked; [by split|done]].
    intros y. cbn [onSocket setSockets ag_sockets]. rewrite list_lookup_alter_eq. destruct (ag_sockets (wo_agent w) !! c); [|done]. by intros [= <-].
Qed.

Local Notation agentStep := (agentStep P createPrivateKey sign).

Lemma resume_last w o : forall ops, ag_ops (wo_agent w) = ops ++ [o] ->
  agentStep w (OpResumes (List.length ops) true) = mkWorld (resumeAwait o true (setAwaits ops (wo_agent w))) (wo_rows w) (wo_master w).
Proof.
  intros ops E. cbn [SshAgent.agentStep]. rewrite E, lookup_app_r, Nat.sub_diag by lia. cbn [lookup list_lookup].
  by rewrite delete_middle, app_nil_r.
Qed.
Lemma resume_none w n : (List.length (ag_ops (wo_agent w)) <= n)%nat -> agentStep w (OpResumes n true) = w.
Proof. intros H. cbn [SshAgent.agentStep]. by rewrite lookup_ge_None_2. Qed.

(** The state a release that nothing interrupts leaves. *)
Definition stopAt (o : option nat) (l : list Listener) : list Listener :=
  match o with Some i => alter (fun l => mkListener (li_run l) (li_via l) false) i l | None => l end.
Definition releasedState (run : string) (s : SshAgentServer) : SshAgentServer :=
  mkServer (delete run (ag_registry s)) (delete run (ag_tokens s)) (delete run (ag_listeners s)) (delete run (ag_tcpListeners s)) (ag_connections s)
    (stopAt (ag_tcpListeners s !! run) (stopAt (ag_listeners s !! run) (ag_servers s))) (ag_sockets s) (ag_ops s).
Definition releaseEvents (run : string) (n : nat) : list AgentEvent := [Release run; OpResumes n true; OpResumes n true; OpResumes n true].

Lemma release_run w run : let n := List.length (ag_ops (sever run (wo_agent w))) in
  fold_left agentStep (releaseEvents run n) w = mkWorld (releasedState run (sever run (wo_agent w))) (wo_rows w) (wo_master w).
Proof.
  intros n. unfold releaseEvents. cbn [fold_left].
  assert (agentStep w (Release run) = mkWorld (releaseRunSocket run (wo_agent w)) (wo_rows w) (wo_master w)) as -> by done.
  unfold releaseRunSocket. cbn [releaseRuns]. subst n. set (s := sever run (wo_agent w)). destruct s as [reg tok li tc conns srv socks ops] eqn:Es. clear Es.
  unfold releasedState, closeTcp, forget. cbn [ag_listeners ag_tcpListeners ag_registry ag_tokens ag_ops ag_servers ag_sockets ag_connections setRegistry].
  destruct (li !! run) as [u|] eqn:Eu, (tc !! run) as [t|] eqn:Et, (reg !! run) as [r|] eqn:Er;
    repeat (cbv [resumeAwait releaseRuns closeTcp forget setListening setListeners setRegistry setServers setAwaits pushOp ag_listeners ag_tcpListeners ag_registry ag_tokens ag_ops
           ag_servers ag_sockets ag_connections wo_agent wo_rows wo_master]; rewrite ?Et, ?Er;
      first [ rewrite (resume_last (mkWorld (mkServer _ _ _ _ _ _ _ (ops ++ [_])) _ _) _ ops eq_refl)
            | rewrite (resume_none (mkWorld (mkServer _ _ _ _ _ _ _ ops) _ _)) by (cbn; lia) ]);
    cbn [stopAt]; do 2 f_equal; symmetry; by apply delete_id.
Qed.

Lemma sever_rest run s : ag_registry (sever run s) = ag_registry s /\ ag_tokens (sever run s) = ag_tokens s /\ ag_listeners (sever run s) = ag_listeners s /\
  ag_tcpListeners (sever run s) = ag_tcpListeners s /\ ag_servers (sever run s) = ag_servers s /\ ag_ops (sever run s) = ag_ops s.
Proof.
  unfold sever. generalize (default [] (ag_connections s !! run)). intros l. revert s. induction l as [|i l IH]; intros s; [done|].
  cbn [fold_left]. apply (IH (onSocket i destroy s)).
Qed.
Lemma stopAt_stops o l i x : o = Some i -> stopAt o l !! i = Some x -> li_listening x = false.
Proof. intros ->. cbn [stopAt]. rewrite list_lookup_alter_eq. destruct (l !! i); [|done]. by intros [= <-]. Qed.
Lemma stopAt_keeps o l i x : (forall y, l !! i = Some y -> li_listening y = false) -> stopAt o l !! i = Some x -> li_listening x = false.
Proof.
  intros H. destruct o as [j|]; [|apply H]. cbn [stopAt]. rewrite list_lookup_alter. case_decide; [subst|apply H].
  destruct (l !! i) as [y|]; [|done]. by intros [= <-].
Qed.

(** A release that is not interrupted takes everything of its run away, whatever happened
    before: its registration, its token, its listeners and every connection accepted for it;
    other runs keep theirs. *)
Theorem released_run_is_gone evs run : let s := wo_agent (runAgent evs) in
  let s' := wo_agent (runAgent (evs ++ releaseEvents run (List.length (ag_ops s)))) in
  (ag_registry s' !! run = None /\ ag_tokens s' !! run = None /\ ag_listeners s' !! run = None /\ ag_tcpListeners s' !! run = None) /\
  (forall i c, ag_sockets s' !! i = Some c -> co_run c = run -> co_open c = false) /\
  (forall i x, ag_listeners s !! run = Some i \/ ag_tcpListeners s !! run = Some i -> ag_servers s' !! i = Some x -> li_listening x = false) /\
  (forall other, other <> run -> ag_registry s' !! other = ag_registry s !! other /\ ag_tokens s' !! other = ag_tokens s !! other /\
     ag_listeners s' !! other = ag_listeners s !! other /\ ag_tcpListeners s' !! other = ag_tcpListeners s !! other) /\
  ag_ops s' = ag_ops s.
Proof.
  intros s s'. subst s'. unfold SshAgent.runAgent. rewrite fold_left_app. fold (runAgent evs). destruct (sever_rest run s) as (E1 & E2 & E3 & E4 & E5 & E6).
  pose proof (release_run (runAgent evs) run) as H. cbv zeta in H. fold s in H. rewrite E6 in H. rewrite H. clear H. cbn [wo_agent].
  unfold releasedState. cbn [ag_registry ag_tokens ag_listeners ag_tcpListeners ag_servers ag_sockets ag_ops]. rewrite E1, E2, E3, E4, E5, E6.
  split_and!; try apply lookup_delete_eq; [apply (sever_closes run s (runAgent_tracked evs))| | |done].
  - intros i x [Hi|Hi] Hx; [|by apply (stopAt_stops _ _ i x Hi Hx)]. eapply stopAt_keeps; [|exact Hx]. intros y. by apply stopAt_stops.
  - intros other Hn. by rewrite !lookup_delete_ne by done.
Qed.
End Laws.

(** ** Concrete runs *)

(** A private key is its PEM text, and a signature repeats it. *)
Definition demo_ssh_sign (pem : string) (data : list Z) : list Z := demo_bytes pem ++ data.
Definition demo_ssh_master : Key := demo_bytes "master".
Definition demo_ssh_raw (n : Z) : list Z := List.repeat n 32.
Definition demo_ssh_row (team pem : string) (n : Z) : KeyRow :=
  mkKeyRow team ("ssh-ed25519 " +:+ toBase64 (ed25519PublicKeyBlob (demo_ssh_raw n)) +:+ " hezo")
    (encrypt demo_platform (List.repeat 0 12) pem demo_ssh_master).
Definition demo_ssh_rows : list KeyRow := [demo_ssh_row "team-a" "pem-a" 1; demo_ssh_row "team-b" "pem-b" 2].
Definition demo_ssh (evs : list AgentEvent) : World := runAgent demo_platform Some demo_ssh_sign demo_ssh_rows (Some demo_ssh_master) evs.
Definition demo_ssh_token : list Z := List.repeat 7 16.
Definition demo_ssh_up : list AgentEvent := [Allocate "run-1" "team-a" "agent" None "/run/1.sock" demo_ssh_token; OpResumes 0 true; OpResumes 0 true].
Definition demo_ssh_request (n : Z) : AgentMessage := Sign (mkSignRequest (ed25519PublicKeyBlob (demo_ssh_raw n)) [104; 105] 0).
Definition demo_ssh_events : list AgentEvent :=
  demo_ssh_up ++ [Connects 1; DataArrives 0 (demo_ssh_token ++ framed (requestPayload (demo_ssh_request 1))); KeysLoad 0 0 true].
Definition demo_ssh_conn : Connection := nth 0 (ag_sockets (wo_agent (demo_ssh demo_ssh_events))) (mkConnection "" ViaUnix "" [] false [] false [] [] []).

Lemma ssh_agent_signs_for_its_team_witness :
  co_written demo_ssh_conn = [encodeSignResponse (ed25519SignatureBlob demo_ssh_sign "pem-a" [104; 105])] /\
  exists token, allocatedIn demo_ssh_events (co_run demo_ssh_conn) (co_team demo_ssh_conn) token.
Proof.
  assert (co_written demo_ssh_conn = [encodeSignResponse (ed25519SignatureBlob demo_ssh_sign "pem-a" [104; 105])]) as Hw by (vm_compute; reflexivity).
  split; [exact Hw|].
  assert (ag_sockets (wo_agent (demo_ssh demo_ssh_events)) !! 0%nat = Some demo_ssh_conn) as Hc by (vm_compute; reflexivity).
  destruct (ssh_agent_signs_for_its_team demo_platform Some demo_ssh_sign demo_ssh_rows (Some demo_ssh_master) demo_ssh_events 0 demo_ssh_conn
    (encodeSignResponse (ed25519SignatureBlob demo_ssh_sign "pem-a" [104; 105])) Hc) as [(t & Ht & _) _].
  - rewrite Hw. by apply list_elem_of_singleton.
  - vm_compute. done.
  - by exists t.
Defined.

(** A key of another team is refused. *)
Example other_team_refused :
  List.map co_written (ag_sockets (wo_agent (demo_ssh (demo_ssh_up ++ [Connects 0; DataArrives 0 (framed (requestPayload (demo_ssh_request 2))); KeysLoad 0 0 true]))))
  = [[encodeFailure]].
Proof. vm_compute. reflexivity. Qed.

(** Each chunk starts a reading of its own: a message that needs no keys is answered while the
    request before it waits for them, so the two answers come in the wrong order. *)
Lemma answers_overtake :
  List.map co_written (ag_sockets (wo_agent (demo_ssh (demo_ssh_up ++
    [Connects 0; DataArrives 0 (framed (requestPayload (demo_ssh_request 1))); DataArrives 0 (framed [99]); KeysLoad 0 0 true]))))
  = [[encodeFailure; encodeSignResponse (ed25519SignatureBlob demo_ssh_sign "pem-a" [104; 105])]].
Proof. vm_compute. reflexivity. Qed.

(** A sign request cut short throws before the handler that answers failures, so it is never
    answered, and a complete request behind it in the same chunk waits for more bytes. *)
Lemma short_request_unanswered :
  let c := nth 0 (ag_sockets (wo_agent (demo_ssh (demo_ssh_up ++
    [Connects 0; DataArrives 0 (framed [MSG_SIGN_REQUEST; 0; 0] ++ framed (requestPayload (demo_ssh_request 1)))])))) demo_ssh_conn in
  co_written c = [] /\ co_workers c = [] /\ co_buffer c = framed (requestPayload (demo_ssh_request 1)).
Proof. vm_compute. done. Qed.

(** A connection accepted by the TCP listener while the release waits for the Unix one to close
    is never destroyed: after the release it still obtains signatures. *)
Lemma late_connection_outlives_release :
  let w := demo_ssh (demo_ssh_up ++ [Release "run-1"; Connects 1; OpResumes 0 true; OpResumes 0 true; OpResumes 0 true;
    DataArrives 0 (demo_ssh_token ++ framed (requestPayload (demo_ssh_request 1))); KeysLoad 0 0 true]) in
  ag_registry (wo_agent w) = ∅ /\ ag_tokens (wo_agent w) = ∅ /\ ag_ops (wo_agent w) = [] /\
  List.map co_written (ag_sockets (wo_agent w)) = [[encodeSignResponse (ed25519SignatureBlob demo_ssh_sign "pem-a" [104; 105])]].
Proof. vm_compute. done. Qed.
