(* ===== verification/OAuthState.v ===== *)
(** * The state parameter of an OAuth flow

    A model of [packages/server/src/services/oauth/state.ts]: the signed text that carries a
    flow through a provider's redirect, and its check. HMAC-SHA256, SHA-256 and [JSON] are
    parameters with the laws the platform documents; randomness is an argument. *)
From Stdlib Require Import ZArith Lia Ascii String List Bool.
From stdpp Require Import base list strings gmap option.
From S2P Require Import Prelude JsString Bytes Base64 MasterKey.

Open Scope string_scope.
Open Scope list_scope.
Open Scope Z_scope.

Definition STATE_PURPOSE : string := "oauth_state".
Definition STATE_TTL_MS : Z := 15 * 60 * 1000.

Record ManualOAuthConfig := mkManualConfig {
  mo_authorize : string; mo_token : string; mo_client : string; mo_secret : option string; mo_scopes : list string
}.

Record NewStateInput := mkNewState {
  ns_team : option string; ns_project : option string; ns_provider : string; ns_redirect : string; ns_return : string;
  ns_connection : option string; ns_connectionName : option string; ns_manual : option ManualOAuthConfig; ns_resource : option string
}.

(** [expiresAt] in milliseconds. *)
Record StatePayload := mkState {
  sp_input : NewStateInput; sp_nonce : string; sp_codeVerifier : string; sp_expiresAt : Z
}.

(** The digests of the platform, its [JSON] on payloads, and the hexadecimal form of bytes. *)
Record StatePlatform := mkStatePlatform {
  st_platform :> Platform;
  hmacSha256 : Key -> string -> list Z;
  sha256 : string -> list Z;
  stringify : StatePayload -> string;
  parsePayload : string -> option StatePayload;
  toHex : list Z -> string
}.

Class StateLaws (P : StatePlatform) : Prop := {
  state_platform : PlatformLaws P;
  hmac_bytes : forall k s, wf_bytes (hmacSha256 P k s) /\ hmacSha256 P k s <> [];
  json_roundtrip : forall p, parsePayload P (stringify P p) = Some p;
  json_nonempty : forall p, utf8 P (stringify P p) <> [];
}.
#[export] Existing Instance state_platform.

Section State.
Variable P : StatePlatform.

Definition hmac (masterHex input : string) : list Z := hmacSha256 P (deriveKey P masterHex STATE_PURPOSE) input.

Record SignedState := mkSigned { sg_state : string; sg_codeVerifier : string; sg_codeChallenge : string }.

Definition payloadOf (now : Z) (verifierBytes nonceBytes : list Z) (input : NewStateInput) : StatePayload :=
  mkState input (toHex P nonceBytes) (base64url verifierBytes) (now + STATE_TTL_MS).
Definition payloadText (p : StatePayload) : string := base64url (utf8 P (stringify P p)).
Definition signedState (masterHex : string) (p : StatePayload) : string :=
  payloadText p +:+ String "." (base64url (hmac masterHex (payloadText p))).

(** [verifierBytes] and [nonceBytes] are the random bytes drawn. [None]: the master key is locked. *)
Definition signState (unlockKeyHex : option string) (now : Z) (verifierBytes nonceBytes : list Z) (input : NewStateInput)
    : option SignedState :=
  match truthy unlockKeyHex with
  | None => None
  | Some masterHex =>
      let codeVerifier := base64url verifierBytes in
      let payload := payloadOf now verifierBytes nonceBytes input in
      Some (mkSigned (signedState masterHex payload) codeVerifier (base64url (sha256 P codeVerifier)))
  end.

Definition verifyState (unlockKeyHex : option string) (now : Z) (state : string) : option StatePayload :=
  match truthy unlockKeyHex with
  | None => None
  | Some masterHex =>
      match split_on "." state with
      | payloadB64 :: sigB64 :: _ =>
          if String.eqb payloadB64 "" || String.eqb sigB64 "" then None
          else
            let expectedSig := hmac masterHex payloadB64 in
            let providedSig := base64urlDecode (fromBase64 P) sigB64 in
            if negb (List.length expectedSig =? List.length providedSig)%nat then None
            else if negb (bool_decide (expectedSig = providedSig)) then None
            else match parsePayload P (fromUtf8 P (base64urlDecode (fromBase64 P) payloadB64)) with
                 | None => None
                 | Some payload => if sp_expiresAt payload <? now then None else Some payload
                 end
      | _ => None
      end
  end.
End State.

(** ** A signed state reads back until it expires *)

Section StateTheorems.
Context (P : StatePlatform) `{!StateLaws P}.

Lemma payloadText_shape p : has_char "." (payloadText P p) = false /\ payloadText P p <> "" /\
  fromUtf8 P (base64urlDecode (fromBase64 P) (payloadText P p)) = stringify P p.
Proof.
  pose proof (utf8_bytes (P := P) (stringify P p)) as Hwf. unfold payloadText. split_and!.
  - by apply base64url_no_dot.
  - by apply base64url_nonempty; [|apply json_nonempty].
  - rewrite (base64url_roundtrip (fromBase64 P)) by done. apply utf8_text.
Qed.

Lemma signed_split masterHex p : split_on "." (signedState P masterHex p) = [payloadText P p; base64url (hmac P masterHex (payloadText P p))].
Proof.
  destruct (payloadText_shape p) as (Hdot & _). destruct (hmac_bytes (deriveKey P masterHex STATE_PURPOSE) (payloadText P p)) as [Hwf _].
  unfold signedState, hmac. apply split_on_join; [done|by apply base64url_no_dot].
Qed.

(** A state the server signed is unforged. *)
Lemma signed_unforged masterHex p issued text sig rest : In p issued -> split_on "." (signedState P masterHex p) = text :: sig :: rest ->
  In text (List.map (payloadText P) issued).
Proof. intros Hin. rewrite signed_split. intros [= <- _ _]. by apply in_map. Qed.

Lemma verify_signed masterHex p now : masterHex <> "" ->
  verifyState P (Some masterHex) now (signedState P masterHex p) = if sp_expiresAt p <? now then None else Some p.
Proof.
  intros Hm. destruct (payloadText_shape p) as (Hdot & Hne & Hback).
  destruct (hmac_bytes (deriveKey P masterHex STATE_PURPOSE) (payloadText P p)) as [Hwf Hnn].
  unfold verifyState. destruct masterHex as [|x m]; [done|]. cbn [truthy]. rewrite signed_split. unfold hmac.
  rewrite (proj2 (String.eqb_neq _ _) Hne), (proj2 (String.eqb_neq _ _) (base64url_nonempty _ Hwf Hnn)). cbn [orb].
  rewrite (base64url_roundtrip (fromBase64 P)) by done. rewrite Nat.eqb_refl, bool_decide_true by done. cbn [negb]. rewrite Hback, json_roundtrip. done.
Qed.

(** A flow's state comes back as the payload that was signed for exactly the fifteen minutes
    it is valid, with the verifier whose challenge the provider was given; a locked server
    neither signs nor accepts. *)
Theorem oauth_state_roundtrip masterHex now verifier nonce input signedAt : masterHex <> "" ->
  signState P (Some masterHex) signedAt verifier nonce input =
    Some (mkSigned (signedState P masterHex (payloadOf P signedAt verifier nonce input)) (base64url verifier) (base64url (sha256 P (base64url verifier)))) /\
  verifyState P (Some masterHex) now (signedState P masterHex (payloadOf P signedAt verifier nonce input)) =
    (if now <=? signedAt + STATE_TTL_MS then Some (payloadOf P signedAt verifier nonce input) else None) /\
  signState P None signedAt verifier nonce input = None /\ forall s, verifyState P None now s = None.
Proof.
  intros Hm. split_and!; try done.
  - unfold signState. by destruct masterHex.
  - rewrite verify_signed by done. cbn [payloadOf sp_expiresAt].
    destruct (Z.ltb_spec (signedAt + STATE_TTL_MS) now), (Z.leb_spec now (signedAt + STATE_TTL_MS)); try done; lia.
Qed.

(** C16. A state the server accepts is one it issued and that has not expired, as long as who
    presents it cannot produce the digest of a text the server never signed: the team, the
    project, the verifier and the place it returns to cannot be changed on the way. *)
Theorem accepted_state_was_issued masterHex now state p (issued : list StatePayload) :
  (forall text sig rest, split_on "." state = text :: sig :: rest -> base64urlDecode (fromBase64 P) sig = hmac P masterHex text ->
     In text (List.map (payloadText P) issued)) ->
  verifyState P (Some masterHex) now state = Some p -> In p issued /\ now <= sp_expiresAt p.
Proof.
  intros Hunforged. unfold verifyState. destruct masterHex as [|x m]; [done|]. cbn [truthy].
  destruct (split_on "." state) as [|text [|sig rest]]; [done|done|]. destruct (String.eqb text "" || _); [done|].
  destruct (negb (_ =? _)%nat); [done|]. destruct (bool_decide _) eqn:E; [|done]. cbn [negb].
  apply bool_decide_eq_true in E. symmetry in E.
  destruct (in_map_iff (payloadText P) issued text) as [Himp _].
  destruct (Himp (Hunforged text sig rest eq_refl E)) as (q & <- & Hq).
  destruct (payloadText_shape q) as (_ & _ & ->). rewrite json_roundtrip.
  destruct (Z.ltb_spec (sp_expiresAt q) now); [done|]. intros [= <-]. split; [done|lia].
Qed.
End StateTheorems.

(** ** A concrete flow *)

(** Payloads as text, through their code as a positive number in binary. *)
#[local] Instance manual_eq_dec : EqDecision ManualOAuthConfig.
Proof. solve_decision. Defined.
#[local] Instance input_eq_dec : EqDecision NewStateInput.
Proof. solve_decision. Defined.
#[local] Instance payload_eq_dec : EqDecision StatePayload.
Proof. solve_decision. Defined.
#[local] Instance manual_countable : Countable ManualOAuthConfig.
Proof.
  refine (inj_countable (fun m => (mo_authorize m, mo_token m, mo_client m, mo_secret m, mo_scopes m))
            (fun x => let '(a, b, c, d, e) := x in Some (mkManualConfig a b c d e)) _). by intros [].
Defined.
#[local] Instance input_countable : Countable NewStateInput.
Proof.
  refine (inj_countable (fun n => (ns_team n, ns_project n, ns_provider n, ns_redirect n, ns_return n, ns_connection n, ns_connectionName n,
                                   ns_manual n, ns_resource n))
            (fun x => let '(a, b, c, d, e, f, g, h, i) := x in Some (mkNewState a b c d e f g h i)) _). by intros [].
Defined.
#[local] Instance payload_countable : Countable StatePayload.
Proof.
  refine (inj_countable (fun p => (sp_input p, sp_nonce p, sp_codeVerifier p, sp_expiresAt p))
            (fun x => let '(a, b, c, d) := x in Some (mkState a b c d)) _). by intros [].
Defined.

Fixpoint binary (p : positive) : string :=
  match p with xH => "1" | xO p => String "0" (binary p) | xI p => String "1" (binary p) end.
Fixpoint readBinary (s : string) : option positive :=
  match s with
  | EmptyString => None
  | String c EmptyString => Some xH
  | String c s => (if Ascii.eqb c "0" then xO else xI) <$> readBinary s
  end.
Lemma binary_roundtrip p : readBinary (binary p) = Some p.
Proof.
  induction p as [p IH|p IH|]; [| |done]; cbn [binary readBinary].
  - destruct (binary p) eqn:E; [by destruct p|]. by rewrite IH.
  - destruct (binary p) eqn:E; [by destruct p|]. by rewrite IH.
Qed.

Definition demo_statePlatform : StatePlatform :=
  mkStatePlatform demo_platform (fun k s => 1 :: List.map (fun n => n mod 256) (k ++ demo_bytes s)) demo_bytes
    (fun p => binary (encode p)) (fun s => readBinary s ≫= decode) (fun _ => "07").

Lemma demo_state_laws : StateLaws demo_statePlatform.
Proof.
  split; cbn.
  - exact demo_platform_laws.
  - intros k s. split; [|done]. apply list.Forall_cons. split; [done|]. apply List.Forall_forall.
    intros n (m & <- & _)%in_map_iff. unfold is_byte. pose proof (Z.mod_pos_bound m 256). lia.
  - intros p. rewrite binary_roundtrip. cbn. apply decode_encode.
  - intros p. by destruct (encode p).
Qed.

Definition demo_input : NewStateInput := mkNewState (Some "team") None "github" "https://hezo/cb" "/" None None None None.
Definition demo_payload : StatePayload := payloadOf demo_statePlatform 1000 [1; 2; 3] [7] demo_input.

Lemma oauth_state_roundtrip_witness :
  verifyState demo_statePlatform (Some "key") (1000 + STATE_TTL_MS) (signedState demo_statePlatform "key" demo_payload) = Some demo_payload.
Proof.
  pose proof (@oauth_state_roundtrip demo_statePlatform demo_state_laws "key" (1000 + STATE_TTL_MS) [1; 2; 3] [7] demo_input 1000
                ltac:(discriminate)) as (_ & H & _).
  rewrite Z.leb_refl in H. exact H.
Defined.

Lemma accepted_state_was_issued_witness :
  verifyState demo_statePlatform (Some "key") 1000 (signedState demo_statePlatform "key" demo_payload) = Some demo_payload /\
  In demo_payload [demo_payload].
Proof.
  assert (verifyState demo_statePlatform (Some "key") 1000 (signedState demo_statePlatform "key" demo_payload) = Some demo_payload) as Hv.
  { rewrite (@verify_signed demo_statePlatform demo_state_laws) by discriminate. reflexivity. }
  split; [exact Hv|].
  refine (proj1 (@accepted_state_was_issued demo_statePlatform demo_state_laws "key" 1000 (signedState demo_statePlatform "key" demo_payload)
                   demo_payload [demo_payload] _ Hv)).
  intros text sig rest Hsplit _. exact (@signed_unforged demo_statePlatform demo_state_laws "key" demo_payload [demo_payload] text sig rest
    (or_introl eq_refl) Hsplit).
Defined.
