(* ===== verification/Credentials.v ===== *)
(** * Credential placeholders and host scopes

    Models of [packages/shared/src/credentials/host-match.ts] and
    [packages/shared/src/credentials/placeholder.ts]. The regular expression
    [__HEZO_SECRET_([A-Z][A-Z0-9_]{0,63})__] is a matcher that tries the longest
    name first and backtracks, as the language's engine does. *)
From Stdlib Require Import ZArith Lia Ascii String List Bool.
From stdpp Require Import base list strings.
From S2P Require Import Prelude JsString.

Open Scope string_scope.
Open Scope Z_scope.

(** ** [hostMatchesAllowedHosts] *)

(** One entry of [allowed_hosts] against a normalised host. *)
Definition entryMatches (target raw : string) : bool :=
  let entry := toLowerCase (trim raw) in
  if String.eqb entry "" then false
  else if startsWith entry "*." then endsWith target (slice_from 1 entry)
  else String.eqb target entry.

(** The loop over [allowedHosts], with its early return. *)
Fixpoint matchLoop (target : string) (allowedHosts : list string) : bool :=
  match allowedHosts with
  | [] => false
  | raw :: rest => if entryMatches target raw then true else matchLoop target rest
  end.

Definition hostMatchesAllowedHosts (host : string) (allowedHosts : list string) : bool :=
  let target := toLowerCase (trim host) in
  if String.eqb target "" then false else matchLoop target allowedHosts.

(** ** Placeholders *)

Definition is_upper_letter (c : ascii) : bool := (65 <=? code c) && (code c <=? 90).
Definition is_name_char (c : ascii) : bool :=
  is_upper_letter c || ((48 <=? code c) && (code c <=? 57)) || (code c =? 95).

Definition PLACEHOLDER_PROBE : string := "__HEZO_SECRET_".

(** [[A-Z0-9_]{0,budget}__]: the name's tail and what follows the placeholder. *)
Fixpoint matchTail (budget : nat) (s : string) : option (string * string) :=
  let stop := if startsWith s "__" then Some ("", slice_from 2 s) else None in
  match budget, s with
  | S budget', String c s' =>
      if is_name_char c then
        match matchTail budget' s' with
        | Some (name, rest) => Some (String c name, rest)
        | None => stop
        end
      else stop
  | _, _ => stop
  end.

(** The whole pattern at the start of [s]: the captured name and the rest. *)
Definition matchPlaceholder (s : string) : option (string * string) :=
  if startsWith s PLACEHOLDER_PROBE then
    match slice_from (String.length PLACEHOLDER_PROBE) s with
    | String c s' =>
        if is_upper_letter c then
          match matchTail 63 s' with
          | Some (name, rest) => Some (String c name, rest)
          | None => None
          end
        else None
    | EmptyString => None
    end
  else None.

(** [SECRET_NAME_PATTERN.test]. *)
Definition isSecretName (s : string) : bool :=
  match s with
  | String c s' => is_upper_letter c && everyChar is_name_char s' && (String.length s' <=? 63)%nat
  | EmptyString => false
  end.

Definition credentialPlaceholder (name : string) : string := PLACEHOLDER_PROBE +:+ name +:+ "__".

Fixpoint containsCredentialPlaceholder (value : string) : bool :=
  match matchPlaceholder value with
  | Some _ => true
  | None => match value with
            | EmptyString => false
            | String _ value' => containsCredentialPlaceholder value'
            end
  end.

(** [connectorHasPlaceholderHeader] on the string values of the headers, if any. *)
Definition connectorHasPlaceholderHeader (headers : option (list (string * option string))) : bool :=
  match headers with
  | None => false
  | Some hs => existsb (fun h => match snd h with
                                 | Some v => containsCredentialPlaceholder v
                                 | None => false
                                 end) hs
  end.

(** ** Normalisation *)

Lemma trimStart_idemp s : trimStart (trimStart s) = trimStart s.
Proof. induction s as [|c s IH]; [done|]. simpl. destruct (is_space c) eqn:E; [done|]. simpl. by rewrite E. Qed.

Lemma trimEnd_nonempty_start c s : is_space c = false -> exists t, trimEnd (String c s) = String c t.
Proof. intros H. simpl. rewrite H. destruct (trimEnd s); eauto. Qed.

Lemma trimEnd_idemp s : trimEnd (trimEnd s) = trimEnd s.
Proof.
  induction s as [|c s IH]; [done|]. simpl. destruct (trimEnd s) as [|d t] eqn:E.
  - destruct (is_space c) eqn:Ec; [done|]. simpl. by rewrite Ec.
  - simpl in *. by rewrite IH.
Qed.

Lemma trimStart_trimEnd s : trimStart (trimEnd (trimStart s)) = trimEnd (trimStart s).
Proof.
  assert (forall u, (forall c u', u = String c u' -> is_space c = false) -> trimStart (trimEnd u) = trimEnd u) as H.
  { intros [|c u] Hu; [done|]. destruct (trimEnd_nonempty_start c u (Hu c u eq_refl)) as [t ->].
    simpl. by rewrite (Hu c u eq_refl). }
  apply H. intros c u. induction s as [|d s IH]; simpl; [done|].
  destruct (is_space d) eqn:E; [done|]. by intros [= <- <-].
Qed.

Lemma trim_idemp s : trim (trim s) = trim s.
Proof. unfold trim. by rewrite trimStart_trimEnd, trimEnd_idemp. Qed.

Lemma trimStart_lower s : trimStart (toLowerCase s) = toLowerCase (trimStart s).
Proof. induction s as [|c s IH]; [done|]. simpl. rewrite is_space_lower. by destruct (is_space c). Qed.

Lemma trimEnd_lower s : trimEnd (toLowerCase s) = toLowerCase (trimEnd s).
Proof.
  induction s as [|c s IH]; [done|]. simpl. rewrite IH, is_space_lower.
  destruct (trimEnd s); simpl; [|done]. by destruct (is_space c).
Qed.

Lemma trim_lower s : trim (toLowerCase s) = toLowerCase (trim s).
Proof. unfold trim. by rewrite trimStart_lower, trimEnd_lower. Qed.

(** A normalised host or entry is its own normal form. *)
Lemma normal_idemp s : toLowerCase (trim (toLowerCase (trim s))) = toLowerCase (trim s).
Proof. by rewrite trim_lower, trim_idemp, toLowerCase_idemp. Qed.

(** ** Matching, entry by entry *)

Lemma matchLoop_existsb target l : matchLoop target l = existsb (entryMatches target) l.
Proof. induction l as [|r l IH]; [done|]. simpl. rewrite IH. by destruct (entryMatches target r). Qed.

Lemma hostMatches_iff host l : hostMatchesAllowedHosts host l = true <->
  toLowerCase (trim host) <> "" /\ exists raw, In raw l /\ entryMatches (toLowerCase (trim host)) raw = true.
Proof.
  unfold hostMatchesAllowedHosts. rewrite matchLoop_existsb.
  destruct (String.eqb_spec (toLowerCase (trim host)) "") as [E|E].
  - split; [done|]. intros [? _]. done.
  - rewrite existsb_exists. naive_solver.
Qed.

Lemma entryMatches_normal target raw : entryMatches target (toLowerCase (trim raw)) = entryMatches target raw.
Proof. unfold entryMatches. by rewrite normal_idemp. Qed.

Lemma slice_from_all n s : (String.length s <= n)%nat -> slice_from n s = "".
Proof. revert n. induction s; intros [|n] H; simpl in *; try done; try lia. apply IHs. lia. Qed.

Lemma slice_from_app a b : slice_from (String.length a) (a +:+ b) = b.
Proof. induction a; [done|]. by rewrite app_str_cons. Qed.

Lemma take_slice n s : s = take_str n s +:+ slice_from n s.
Proof. revert n. induction s; intros [|n]; simpl; rewrite ?app_str_cons; try done. by rewrite <- IHs. Qed.

Lemma length_app_str (a b : string) : String.length (a +:+ b) = (String.length a + String.length b)%nat.
Proof. induction a; [done|]. rewrite app_str_cons. simpl. lia. Qed.

Lemma endsWith_iff s p : endsWith s p = true <-> exists q, s = q +:+ p.
Proof.
  unfold endsWith. rewrite andb_true_iff, Nat.leb_le, String.eqb_eq. split.
  - intros [_ H]. exists (take_str (String.length s - String.length p) s). rewrite <- H at 2. apply take_slice.
  - intros [q ->]. rewrite length_app_str. split; [lia|].
    replace (String.length q + String.length p - String.length p)%nat with (String.length q) by lia.
    apply slice_from_app.
Qed.

(** The documented rule for one entry. *)
Inductive entry_covers (target entry : string) : Prop :=
| covers_exact : startsWith entry "*." = false -> target = entry -> entry_covers target entry
| covers_sub sub domain : entry = "*." +:+ domain -> target = sub +:+ "." +:+ domain -> entry_covers target entry.

(** A prefix test gives back what follows the prefix. *)
Lemma prefix_app p s : String.prefix p s = true -> exists t, s = p +:+ t.
Proof.
  revert s. induction p as [|c p IH]; intros s H; [by exists s|].
  destruct s as [|d s]; [done|]. simpl in H. destruct (ascii_dec c d) as [->|]; [|done].
  destruct (IH s H) as [t ->]. exists t. done.
Qed.

Lemma startsWith_star e : startsWith e "*." = true -> exists d, e = "*." +:+ d.
Proof.
  unfold startsWith. intros H. apply prefix_app in H. done.
Qed.

Lemma entryMatches_covers target raw : target <> "" ->
  entryMatches target raw = true <-> entry_covers target (toLowerCase (trim raw)).
Proof.
  intros Ht. unfold entryMatches. set (e := toLowerCase (trim raw)).
  destruct (String.eqb_spec e "") as [E|E].
  { rewrite E. split; [done|]. intros [_ ?|sub d H _]; [done|]. done. }
  destruct (startsWith e "*.") eqn:Es.
  - destruct (startsWith_star e Es) as [d Hd]. rewrite Hd. simpl slice_from. rewrite endsWith_iff. split.
    + intros [q Hq]. eapply covers_sub; [done|exact Hq].
    + intros [H _|sub d' H Hq]; [rewrite Hd in Es; congruence|]. simplify_eq/=. eauto.
  - rewrite String.eqb_eq. split; [by constructor|]. intros [_ ?|sub d He _]; [done|]. by rewrite He, startsWith_app in Es.
Qed.

(** A host is inside a secret's [allowed_hosts] exactly by the documented rule: after
    trimming and case folding an exact entry names it, or it ends in [.domain] for an
    entry [*.domain]; the bare domain, blank entries and the blank host
    match nothing. *)
Theorem hostMatches_documented (host : string) (allowedHosts : list string) :
  hostMatchesAllowedHosts host allowedHosts = true <->
  toLowerCase (trim host) <> "" /\
  exists raw, In raw allowedHosts /\ entry_covers (toLowerCase (trim host)) (toLowerCase (trim raw)).
Proof.
  rewrite hostMatches_iff. split; intros [Hne (raw & Hin & H)]; (split; [done|]); exists raw;
    (split; [done|]); by apply entryMatches_covers.
Qed.

(** ** The placeholder grammar *)

Lemma slice_startsWith s p : startsWith s p = true -> s = p +:+ slice_from (String.length p) s.
Proof. intros H. destruct (prefix_app p s H) as [t ->]. by rewrite slice_from_app. Qed.

Lemma app_str_assoc (a b c : string) : (a +:+ b) +:+ c = a +:+ (b +:+ c).
Proof. induction a as [|x a IH]; [done|]. by rewrite !app_str_cons, IH. Qed.

Lemma matchTail_sound n s name rest : matchTail n s = Some (name, rest) ->
  s = name +:+ "__" +:+ rest /\ everyChar is_name_char name = true /\ (String.length name <= n)%nat.
Proof.
  assert (forall s0, (if startsWith s0 "__" then Some ("", slice_from 2 s0) else None) = Some (name, rest) ->
    s0 = name +:+ "__" +:+ rest /\ everyChar is_name_char name = true /\ String.length name = 0%nat) as Hstop.
  { intros s0 H. destruct (startsWith s0 "__") eqn:E; [|done]. injection H as <- <-.
    split_and!; [|done|done]. apply (slice_startsWith s0 "__" E). }
  revert s name rest Hstop. induction n as [|n IH]; intros s name rest Hstop H; cbn [matchTail] in H.
  { apply Hstop in H as (? & ? & Hl). rewrite Hl. by split_and!. }
  destruct s as [|c s]; [apply Hstop in H as (? & ? & Hl); split_and!; [done|done|lia]|].
  destruct (is_name_char c) eqn:Ec; [|apply Hstop in H as (? & ? & Hl); split_and!; [done|done|lia]].
  destruct (matchTail n s) as [[nm r]|] eqn:Et; [|apply Hstop in H as (? & ? & Hl); split_and!; [done|done|lia]].
  injection H as <- <-. destruct (IH s nm r) as (-> & Hall & Hlen); [|done|].
  - intros s0 H. destruct (startsWith s0 "__") eqn:E; [|done]. injection H as <- <-.
    split_and!; [|done|done]. apply (slice_startsWith s0 "__" E).
  - split_and!; [done|simpl; by rewrite Ec|simpl; lia].
Qed.

(** Longest first: a name followed by its closing underscores and then by something that
    cannot extend it is matched whole. *)
Lemma matchTail_complete n name rest : everyChar is_name_char name = true -> (String.length name <= n)%nat ->
  (forall c r, rest = String c r -> is_name_char c = false) ->
  matchTail n (name +:+ "__" +:+ rest) = Some (name, rest).
Proof.
  intros Hall Hlen Hrest.
  assert (forall m s, (forall c r, s = String c r -> is_name_char c = false) -> matchTail m s = None) as Hno.
  { intros m s Hs. destruct s as [|c s]; [by destruct m|]. specialize (Hs c s eq_refl).
    assert (startsWith (String c s) "__" = false) as Hw.
    { unfold startsWith. cbn [String.prefix]. destruct (ascii_dec "_" c) as [Hc|Hc]; [|reflexivity]. subst c. discriminate Hs. }
    destruct m; cbn [matchTail]; rewrite ?Hs, Hw; done. }
  assert (forall m, matchTail m (String "_" rest) = None) as Hone.
  { intros m. assert (startsWith (String "_" rest) "__" = false) as Hw.
    { unfold startsWith. destruct rest as [|c r]; [reflexivity|]. cbn [String.prefix].
      destruct (ascii_dec "_" "_"); [|done]. destruct (ascii_dec "_" c) as [Hc|Hc]; [|reflexivity].
      subst c. specialize (Hrest _ _ eq_refl). discriminate Hrest. }
    destruct m; cbn [matchTail]; rewrite Hw; [done|]. by rewrite Hno. }
  revert n Hlen. induction name as [|c name IH]; intros n Hlen.
  - assert (startsWith ("__" +:+ rest) "__" = true) as Hw by apply startsWith_app.
    change ("" +:+ "__" +:+ rest) with (String "_" (String "_" rest)) in *.
    change ("__" +:+ rest) with (String "_" (String "_" rest)) in Hw.
    destruct n; cbn [matchTail]; rewrite Hw; [done|]. by rewrite Hone.
  - simpl in Hall, Hlen. apply andb_true_iff in Hall as [Hc Hall]. destruct n as [|n]; [lia|].
    rewrite app_str_cons. cbn [matchTail]. rewrite Hc, IH by (done || lia). done.
Qed.

(** The placeholder grammar and the name grammar agree: whatever the substitution
    matches is the placeholder of a valid secret name, and the placeholder of every valid
    name is matched as exactly that name wherever it ends at a character that cannot
    extend it, so no stored secret is out of reach. *)
Theorem placeholder_grammar (s name rest : string) :
  (matchPlaceholder s = Some (name, rest) -> isSecretName name = true /\ s = credentialPlaceholder name +:+ rest) /\
  (isSecretName name = true -> (forall c r, rest = String c r -> is_name_char c = false) ->
   matchPlaceholder (credentialPlaceholder name +:+ rest) = Some (name, rest)).
Proof.
  split.
  - unfold matchPlaceholder. destruct (startsWith s PLACEHOLDER_PROBE) eqn:Es; [|done].
    apply slice_startsWith in Es. destruct (slice_from _ s) as [|c s']; [done|].
    destruct (is_upper_letter c) eqn:Ec; [|done]. destruct (matchTail 63 s') as [[nm r]|] eqn:Et; [|done].
    intros [= <- <-]. apply matchTail_sound in Et as (-> & Hall & Hlen). split.
    + simpl. rewrite Ec, Hall. cbn [andb]. by apply Nat.leb_le.
    + rewrite Es. unfold credentialPlaceholder. by rewrite !app_str_assoc, !app_str_cons.
  - intros Hn Hrest. destruct name as [|c name]; [done|]. cbn [isSecretName] in Hn.
    apply andb_true_iff in Hn as [Hn Hlen]. apply andb_true_iff in Hn as [Hc Hall]. apply Nat.leb_le in Hlen.
    unfold matchPlaceholder, credentialPlaceholder. rewrite !app_str_assoc, startsWith_app, slice_from_app.
    rewrite (app_str_cons c name), Hc, matchTail_complete by done. done.
Qed.

(** Two placeholders written side by side are read as one longer name. *)
Example adjacent_placeholders_merge :
  matchPlaceholder (credentialPlaceholder "A" +:+ credentialPlaceholder "B")
  = Some ("A____HEZO_SECRET_B", "").
Proof. reflexivity. Qed.

Lemma placeholder_grammar_witness :
  matchPlaceholder "__HEZO_SECRET_GITHUB_TOKEN__@github.com" = Some ("GITHUB_TOKEN", "@github.com").
Proof.
  apply (proj2 (placeholder_grammar "" "GITHUB_TOKEN" "@github.com")); [reflexivity|].
  intros c r [= <- <-]. reflexivity.
Defined.
