(* ===== verification/Substitution.v ===== *)
(** * Secret substitution in the egress proxy

    A model of [packages/server/src/services/egress/substitution.ts]: placeholder
    substitution in headers, URL and body with its access checks, and the cache of
    the decrypted vault as a state machine over its interleavings. The platform's
    base64 and UTF-8 codecs and [JSON.parse] are parameters. *)
From Stdlib Require Import ZArith Lia Ascii String List Bool.
From stdpp Require Import base list gmap strings.
From S2P Require Import Prelude JsString Credentials.

Open Scope string_scope.
Open Scope list_scope.
Open Scope Z_scope.

Record ResolvedSecret := mkSecret {
  s_name : string;
  value : string;
  allowedHosts : list string;
  allowAllHosts : bool;
  allowBodySubstitution : bool
}.

Inductive SubstitutionFailure :=
| unknown_secret (name : string)
| secret_not_allowed_for_host (name host : string)
| secret_not_allowed_in_body (name : string) (bodyPaths : list string) (byteOffsets : list Z)
| secrets_unavailable.

Inductive AccessVerdict := substitute | forward_literal | refuse (f : SubstitutionFailure).

Inductive HeaderValue := One (v : string) | Many (vs : list string) | Undefined.

Record RequestInputs := mkInputs {
  url : string;
  headers : list (string * HeaderValue);
  host : string;
  body : option string
}.

Record SubstitutionResult := mkResult {
  r_headers : list (string * HeaderValue);
  r_url : string;
  r_body : option string;
  headersChanged : bool;
  urlChanged : bool;
  bodyChanged : bool;
  secretsUsed : gset string;
  failure : option SubstitutionFailure
}.

Definition Vault := gmap string ResolvedSecret.

(** [failure ??= f]. *)
Definition orFailure (old new : option SubstitutionFailure) : option SubstitutionFailure :=
  match old with Some _ => old | None => new end.

Definition hostMatchesAllowlist (host : string) (allowed : list string) : bool :=
  hostMatchesAllowedHosts host allowed.

(** The host gate of [checkAccess]. *)
Definition permitted (host : string) (s : ResolvedSecret) : bool :=
  allowAllHosts s ||
  negb ((length (allowedHosts s) =? 0)%nat || negb (hostMatchesAllowlist host (allowedHosts s))).

Definition checkAccess (host : string) (secrets : Vault) (name : string) : AccessVerdict :=
  match secrets !! name with
  | None => refuse (unknown_secret name)
  | Some s => if permitted host s then substitute else refuse (secret_not_allowed_for_host name host)
  end.

Definition checkBodyAccess (host : string) (secrets : Vault) (used : gset string) (name : string) : AccessVerdict :=
  match checkAccess host secrets name with
  | substitute =>
      match secrets !! name with
      | Some s =>
          if allowBodySubstitution s then substitute
          else if bool_decide (name ∈ used) then forward_literal
          else refuse (secret_not_allowed_in_body name [] [])
      | None => if bool_decide (name ∈ used) then forward_literal
                else refuse (secret_not_allowed_in_body name [] [])
      end
  | v => v
  end.

Record ApplyResult := mkApply {
  a_value : string;
  changed : bool;
  a_failure : option SubstitutionFailure
}.

Section Apply.
Context (secrets : Vault) (check : gset string -> string -> AccessVerdict).

(** [input.replace(createPlaceholderRegex(), callback)], left to right; the callback's
    state is the set of secrets used and the first failure. Every turn consumes a
    character, so the length is enough fuel. *)
Fixpoint replace_fuel (fuel : nat) (used : gset string) (fail_ : option SubstitutionFailure) (s : string)
    : string * gset string * option SubstitutionFailure :=
  match fuel with
  | O => (s, used, fail_)
  | S fuel' =>
      match matchPlaceholder s with
      | Some (name, rest) =>
          let literal := credentialPlaceholder name in
          let '(text, used, fail_) :=
            match check used name with
            | forward_literal => (literal, used, fail_)
            | refuse f => (literal, used, orFailure fail_ (Some f))
            | substitute =>
                match secrets !! name with
                | None => (literal, used, orFailure fail_ (Some (unknown_secret name)))
                | Some sec => (value sec, used ∪ {[name]}, fail_)
                end
            end in
          let '(out, used, fail_) := replace_fuel fuel' used fail_ rest in
          (text +:+ out, used, fail_)
      | None =>
          match s with
          | EmptyString => (EmptyString, used, fail_)
          | String c s' =>
              let '(out, used, fail_) := replace_fuel fuel' used fail_ s' in
              (String c out, used, fail_)
          end
      end
  end.

Definition applyToString (input : string) (used : gset string) : ApplyResult * gset string :=
  if negb (includes input PLACEHOLDER_PROBE) then (mkApply input false None, used)
  else
    let '(result, used, fail_) := replace_fuel (S (String.length input)) used None input in
    (mkApply result (negb (String.eqb result input)) fail_, used).
End Apply.

(** ** Basic credentials *)

Definition is_b64 (c : ascii) : bool :=
  ((65 <=? code c) && (code c <=? 90)) || ((97 <=? code c) && (code c <=? 122))
  || ((48 <=? code c) && (code c <=? 57)) || (code c =? 43) || (code c =? 47) || (code c =? 61).

(** [/^(\s*Basic\s+)([A-Za-z0-9+/=]+)\s*$/i]: prefix and base64 text. The classes of
    neighbouring parts are disjoint, so there is nothing to backtrack into. *)
Definition matchBasic (raw : string) : option (string * string) :=
  let '(ws0, s) := span is_space raw in
  let word := take_str 5 s in
  if String.eqb (toLowerCase word) "basic" then
    let '(ws1, s) := span is_space (slice_from 5 s) in
    let '(b64, s) := span is_b64 s in
    let '(_, s) := span is_space s in
    if nonempty ws1 && nonempty b64 && String.eqb s "" then Some (ws0 +:+ word +:+ ws1, b64) else None
  else None.

(** JSON values, as far as [locatePlaceholder] looks at them. *)
Inductive Json := JString (s : string) | JArray (l : list Json) | JObject (l : list (string * Json)) | JOther.

Section Platform.
Context (decodeBase64 encodeBase64 : string -> string) (parseJson : string -> option Json)
        (showIndex : nat -> string).

Definition decodeBasicCredential (raw : string) : option (string * string) :=
  match matchBasic raw with
  | None => None
  | Some (prefix, b64) =>
      let decoded := decodeBase64 b64 in
      if includes decoded PLACEHOLDER_PROBE then Some (prefix, decoded) else None
  end.

Definition headerValueCarriesPlaceholder (name v : string) : bool :=
  if includes v PLACEHOLDER_PROBE then true
  else String.eqb (toLowerCase name) "authorization"
       && match decodeBasicCredential v with Some _ => true | None => false end.

Definition applyToAuthorization (secrets : Vault) (check : gset string -> string -> AccessVerdict)
    (raw : string) (used : gset string) : ApplyResult * gset string :=
  match decodeBasicCredential raw with
  | None => applyToString secrets check raw used
  | Some (prefix, decoded) =>
      let '(out, used) := applyToString secrets check decoded used in
      if negb (changed out) then (mkApply raw false (a_failure out), used)
      else (mkApply (prefix +:+ encodeBase64 (a_value out)) true (a_failure out), used)
  end.

(** ** Locating a refused placeholder *)

Definition utf8Length (s : string) : Z :=
  sumZ (fun c => if code c <? 128 then 1 else 2) (list_ascii_of_string s).

(** [for (i = body.indexOf(needle); i !== -1; i = body.indexOf(needle, i + 1))]. *)
Fixpoint occurrences (needle before s : string) : list Z :=
  let here := if startsWith s needle then [utf8Length before] else [] in
  match s with
  | EmptyString => here
  | String c s' => here ++ occurrences needle (before +:+ String c "") s'
  end.

Fixpoint walk (needle : string) (path : string) (node : Json) : list string :=
  match node with
  | JString s => if includes s needle then [if String.eqb path "" then "(root)" else path] else []
  | JArray l =>
      (fix items (i : nat) (l : list Json) : list string :=
         match l with
         | [] => []
         | x :: l' => walk needle (path +:+ "[" +:+ showIndex i +:+ "]") x ++ items (S i) l'
         end) 0%nat l
  | JObject l =>
      (fix fields (l : list (string * Json)) : list string :=
         match l with
         | [] => []
         | (k, x) :: l' =>
             walk needle (if String.eqb path "" then k else path +:+ "." +:+ k) x ++ fields l'
         end) l
  | JOther => []
  end.

Definition locatePlaceholder (body name : string) : list string * list Z :=
  let needle := credentialPlaceholder name in
  let byteOffsets := occurrences needle "" body in
  match parseJson body with
  | None => ([], byteOffsets)
  | Some parsed => (walk needle "" parsed, byteOffsets)
  end.

(** ** [substituteRequest] *)

Section Request.
Context (secrets : Vault) (h : string).

Definition accessCheck (_ : gset string) (name : string) : AccessVerdict := checkAccess h secrets name.
Definition bodyCheck (used : gset string) (name : string) : AccessVerdict := checkBodyAccess h secrets used name.

Record HeaderState := mkHS {
  hs_out : list (string * HeaderValue);
  hs_changed : bool;
  hs_used : gset string;
  hs_failure : option SubstitutionFailure
}.

(** The loop over the values of a repeated header. *)
Fixpoint applyMany (vs : list string) (st : HeaderState) : list string * HeaderState :=
  match vs with
  | [] => ([], st)
  | v :: vs' =>
      let '(out, used) := applyToString secrets accessCheck v (hs_used st) in
      let st := mkHS (hs_out st) (changed out || hs_changed st) used (orFailure (hs_failure st) (a_failure out)) in
      let '(rest, st) := applyMany vs' st in (a_value out :: rest, st)
  end.

Definition applyHeader (st : HeaderState) (hdr : string * HeaderValue) : HeaderState :=
  match hdr with
  | (_, Undefined) => st
  | (name, Many vs) =>
      let '(vs', st) := applyMany vs st in
      mkHS (hs_out st ++ [(name, Many vs')]) (hs_changed st) (hs_used st) (hs_failure st)
  | (name, One raw) =>
      let '(out, used) :=
        if String.eqb (toLowerCase name) "authorization"
        then applyToAuthorization secrets accessCheck raw (hs_used st)
        else applyToString secrets accessCheck raw (hs_used st) in
      mkHS (hs_out st ++ [(name, One (a_value out))]) (changed out || hs_changed st) used
        (orFailure (hs_failure st) (a_failure out))
  end.

Definition locateFailure (text : string) (f : SubstitutionFailure) : SubstitutionFailure :=
  match f with
  | secret_not_allowed_in_body name _ _ =>
      let '(paths, offsets) := locatePlaceholder text name in secret_not_allowed_in_body name paths offsets
  | _ => f
  end.
End Request.

Definition substituteRequest (input : RequestInputs) (secrets : Vault) : SubstitutionResult :=
  let st := fold_left (applyHeader secrets (host input)) (headers input) (mkHS [] false ∅ None) in
  let '(urlOut, used) := applyToString secrets (accessCheck secrets (host input)) (url input) (hs_used st) in
  let failure := orFailure (hs_failure st) (a_failure urlOut) in
  match body input with
  | None =>
      mkResult (hs_out st) (a_value urlOut) None (hs_changed st) (changed urlOut) false used failure
  | Some text =>
      let '(bodyOut, used) := applyToString secrets (bodyCheck secrets (host input)) text used in
      mkResult (hs_out st) (a_value urlOut) (Some (a_value bodyOut)) (hs_changed st) (changed urlOut)
        (changed bodyOut) used (orFailure failure (option_map (locateFailure text) (a_failure bodyOut)))
  end.
End Platform.

(** ** Confinement

    Two vaults look alike to a host when they have the same names and the same secrets
    that may go there; the other secrets may differ in everything but in being refused. *)
Inductive alike (h : string) : option ResolvedSecret -> option ResolvedSecret -> Prop :=
| alike_same o : alike h o o
| alike_refused s1 s2 : permitted h s1 = false -> permitted h s2 = false -> alike h (Some s1) (Some s2).

Definition vaults_alike (h : string) (v1 v2 : Vault) : Prop := forall name, alike h (v1 !! name) (v2 !! name).

Lemma checkAccess_alike h v1 v2 name : vaults_alike h v1 v2 -> checkAccess h v1 name = checkAccess h v2 name.
Proof. intros H. unfold checkAccess. destruct (H name) as [o|s1 s2 H1 H2]; [done|]. by rewrite H1, H2. Qed.

Lemma checkAccess_granted h v name : checkAccess h v name = substitute ->
  exists s, v !! name = Some s /\ permitted h s = true.
Proof. unfold checkAccess. destruct (v !! name) as [s|]; [|done]. destruct (permitted h s) eqn:E; [eauto|done]. Qed.

(** A name both checks let through is the same secret in both vaults. *)
Lemma granted_same h v1 v2 name : vaults_alike h v1 v2 -> checkAccess h v1 name = substitute -> v1 !! name = v2 !! name.
Proof.
  intros H Hc. apply checkAccess_granted in Hc as (s & Hs & Hp). destruct (H name) as [o|s1 s2 H1 H2]; [done|]. congruence.
Qed.

(** A check that only lets permitted names through. *)
Definition guarded (h : string) (v : Vault) (check : gset string -> string -> AccessVerdict) : Prop :=
  forall used name, check used name = substitute -> checkAccess h v name = substitute.

Lemma replace_alike h v1 v2 c1 c2 fuel used f s : vaults_alike h v1 v2 -> guarded h v1 c1 ->
  (forall u n, c1 u n = c2 u n) -> replace_fuel v1 c1 fuel used f s = replace_fuel v2 c2 fuel used f s.
Proof.
  intros Ha Hg Hc. revert used f s. induction fuel as [|fuel IH]; intros used f s; cbn [replace_fuel]; [done|].
  destruct (matchPlaceholder s) as [[name rest]|].
  - rewrite <- Hc. destruct (c1 used name) eqn:E; [|by rewrite IH|by rewrite IH].
    rewrite <- (granted_same h v1 v2 name Ha (Hg _ _ E)). destruct (v1 !! name); by rewrite IH.
  - destruct s; [done|]. by rewrite IH.
Qed.

Lemma applyToString_alike h v1 v2 c1 c2 s used : vaults_alike h v1 v2 -> guarded h v1 c1 ->
  (forall u n, c1 u n = c2 u n) -> applyToString v1 c1 s used = applyToString v2 c2 s used.
Proof. intros Ha Hg Hc. unfold applyToString. by rewrite (replace_alike h v1 v2 c1 c2) by done. Qed.

Lemma access_guarded v h : guarded h v (accessCheck v h).
Proof. by intros used name. Qed.

Lemma body_guarded v h : guarded h v (bodyCheck v h).
Proof. intros used name. unfold bodyCheck, checkBodyAccess. by destruct (checkAccess h v name). Qed.

Lemma body_alike h v1 v2 u n : vaults_alike h v1 v2 -> bodyCheck v1 h u n = bodyCheck v2 h u n.
Proof.
  intros Ha. unfold bodyCheck, checkBodyAccess. rewrite <- (checkAccess_alike h v1 v2 n Ha).
  destruct (checkAccess h v1 n) eqn:E; try done. by rewrite (granted_same h v1 v2 n Ha E).
Qed.

Section Confinement.
Context (decodeBase64 encodeBase64 : string -> string) (parseJson : string -> option Json)
        (showIndex : nat -> string).

Lemma applyHeader_alike h v1 v2 st hdr : vaults_alike h v1 v2 ->
  applyHeader decodeBase64 encodeBase64 v1 h st hdr = applyHeader decodeBase64 encodeBase64 v2 h st hdr.
Proof.
  intros Ha.
  assert (forall s used, applyToString v1 (accessCheck v1 h) s used = applyToString v2 (accessCheck v2 h) s used) as E.
  { intros s used. apply (applyToString_alike h); [done|apply access_guarded|].
    intros u n. by apply checkAccess_alike. }
  destruct hdr as [name [raw|vs|]]; simpl; [| |done].
  - unfold applyToAuthorization. destruct (decodeBasicCredential decodeBase64 raw) as [[p d]|]; by rewrite !E.
  - assert (forall st, applyMany v1 h vs st = applyMany v2 h vs st) as Em; [|by rewrite Em].
    clear st. induction vs as [|x vs IH]; intros st; cbn [applyMany]; [done|]. rewrite E.
    destruct (applyToString v2 _ x _) as [out used]. by rewrite IH.
Qed.

Lemma headers_alike h v1 v2 hs st : vaults_alike h v1 v2 ->
  fold_left (applyHeader decodeBase64 encodeBase64 v1 h) hs st = fold_left (applyHeader decodeBase64 encodeBase64 v2 h) hs st.
Proof.
  intros Ha. revert st. induction hs as [|x hs IH]; intros st; cbn [fold_left]; [done|].
  by rewrite (applyHeader_alike h v1 v2) by done.
Qed.

Lemma substituteRequest_alike (input : RequestInputs) (v1 v2 : Vault) :
  vaults_alike (host input) v1 v2 ->
  substituteRequest decodeBase64 encodeBase64 parseJson showIndex input v1 =
  substituteRequest decodeBase64 encodeBase64 parseJson showIndex input v2.
Proof.
  intros Ha. unfold substituteRequest. rewrite (headers_alike (host input) v1 v2) by done.
  rewrite (applyToString_alike (host input) v1 v2 _ (accessCheck v2 (host input)))
    by (done || apply access_guarded || (intros u n; by apply checkAccess_alike)).
  destruct (applyToString v2 _ (url input) _) as [urlOut used]. destruct (body input) as [text|]; [|done].
  rewrite (applyToString_alike (host input) v1 v2 _ (bodyCheck v2 (host input)))
    by (done || apply body_guarded || (intros u n; by apply body_alike)). done.
Qed.
(** C1. A secret is confined to its hosts: what leaves for a host, whatever the request
    holds and wherever its placeholders sit, does not depend on any secret that may not go
    there. Two vaults that differ only in secrets refused for the host produce the same
    request, the same report of secrets used and the same failure. *)
Theorem secrets_confined (input : RequestInputs) (v1 v2 : Vault) :
  vaults_alike (host input) v1 v2 ->
  substituteRequest decodeBase64 encodeBase64 parseJson showIndex input v1 =
  substituteRequest decodeBase64 encodeBase64 parseJson showIndex input v2.
Proof. apply substituteRequest_alike. Qed.
End Confinement.

(** ** The body gate *)

(** Vaults that differ at most in the values of secrets without the body opt-in. *)
Inductive body_same : option ResolvedSecret -> option ResolvedSecret -> Prop :=
| body_same_eq o : body_same o o
| body_same_value s1 s2 : allowBodySubstitution s1 = false -> allowBodySubstitution s2 = false ->
    allowedHosts s1 = allowedHosts s2 -> allowAllHosts s1 = allowAllHosts s2 -> body_same (Some s1) (Some s2).

Definition bodies_same (v1 v2 : Vault) : Prop := forall name, body_same (v1 !! name) (v2 !! name).

Lemma checkAccess_body h v1 v2 name : bodies_same v1 v2 -> checkAccess h v1 name = checkAccess h v2 name.
Proof.
  intros H. unfold checkAccess. destruct (H name) as [o|s1 s2 _ _ Hh Ha]; [done|].
  unfold permitted. by rewrite Hh, Ha.
Qed.

Lemma bodyCheck_body h v1 v2 u n : bodies_same v1 v2 -> bodyCheck v1 h u n = bodyCheck v2 h u n.
Proof.
  intros H. unfold bodyCheck, checkBodyAccess. rewrite (checkAccess_body h v1 v2 n H).
  destruct (checkAccess h v2 n); try done. destruct (H n) as [o|s1 s2 H1 H2 _ _]; [done|]. by rewrite H1, H2.
Qed.

(** Which secrets are used and what fails never depends on a value. *)
Lemma replace_accounting v1 v2 c1 c2 fuel used f s : bodies_same v1 v2 -> (forall u n, c1 u n = c2 u n) ->
  snd (fst (replace_fuel v1 c1 fuel used f s)) = snd (fst (replace_fuel v2 c2 fuel used f s)) /\
  snd (replace_fuel v1 c1 fuel used f s) = snd (replace_fuel v2 c2 fuel used f s).
Proof.
  intros Hb Hc. revert used f s. induction fuel as [|fuel IH]; intros used f s; cbn [replace_fuel]; [done|].
  assert (forall t1 t2 u g r,
    snd (fst (let '(o, u', g') := replace_fuel v1 c1 fuel u g r in (t1 o, u', g'))) =
    snd (fst (let '(o, u', g') := replace_fuel v2 c2 fuel u g r in (t2 o, u', g'))) /\
    snd (let '(o, u', g') := replace_fuel v1 c1 fuel u g r in (t1 o : string, u', g')) =
    snd (let '(o, u', g') := replace_fuel v2 c2 fuel u g r in (t2 o : string, u', g'))) as Hk.
  { intros t1 t2 u g r. specialize (IH u g r).
    destruct (replace_fuel v1 c1 fuel u g r) as [[o1 u1] g1], (replace_fuel v2 c2 fuel u g r) as [[o2 u2] g2]. done. }
  destruct (matchPlaceholder s) as [[name rest]|].
  - rewrite <- Hc. destruct (c1 used name); [|apply Hk|apply Hk].
    destruct (Hb name) as [[sec|]|s1 s2 _ _ _ _]; apply Hk.
  - destruct s as [|c s]; [done|]. apply (Hk (String c) (String c)).
Qed.

Lemma bodyCheck_opted_in v h used name : bodyCheck v h used name = substitute ->
  exists s, v !! name = Some s /\ allowBodySubstitution s = true.
Proof.
  unfold bodyCheck, checkBodyAccess. destruct (checkAccess h v name); try done.
  destruct (v !! name) as [s|]; [|by destruct (bool_decide _)].
  destruct (allowBodySubstitution s) eqn:E; [eauto|by destruct (bool_decide _)].
Qed.

(** In a body only opted-in secrets are written, and those are the same. *)
Lemma replace_body v1 v2 h fuel used f s : bodies_same v1 v2 ->
  replace_fuel v1 (bodyCheck v1 h) fuel used f s = replace_fuel v2 (bodyCheck v2 h) fuel used f s.
Proof.
  intros Hb. revert used f s. induction fuel as [|fuel IH]; intros used f s; cbn [replace_fuel]; [done|].
  destruct (matchPlaceholder s) as [[name rest]|]; [|destruct s; [done|by rewrite IH]].
  rewrite <- (bodyCheck_body h v1 v2) by done. destruct (bodyCheck v1 h used name) eqn:E; [|by rewrite IH|by rewrite IH].
  assert (v1 !! name = v2 !! name) as <-; [|destruct (v1 !! name); by rewrite IH].
  apply bodyCheck_opted_in in E as (s0 & Hs0 & Ho). destruct (Hb name) as [o|s1 s2 H1 _ _ _]; [done|]. congruence.
Qed.

Section BodyGate.
Context (decodeBase64 encodeBase64 : string -> string) (parseJson : string -> option Json)
        (showIndex : nat -> string).

Lemma apply_accounting v1 v2 c1 c2 s used : bodies_same v1 v2 -> (forall u n, c1 u n = c2 u n) ->
  snd (applyToString v1 c1 s used) = snd (applyToString v2 c2 s used) /\
  a_failure (fst (applyToString v1 c1 s used)) = a_failure (fst (applyToString v2 c2 s used)).
Proof.
  intros Hb Hc. unfold applyToString. destruct (negb _); [done|].
  pose proof (replace_accounting v1 v2 c1 c2 (S (String.length s)) used None s Hb Hc) as [H1 H2]. revert H1 H2.
  destruct (replace_fuel v1 c1 _ used None s) as [[o1 u1] f1], (replace_fuel v2 c2 _ used None s) as [[o2 u2] f2]. done.
Qed.

Lemma header_accounting v1 v2 h st1 st2 hdr : bodies_same v1 v2 ->
  hs_used st1 = hs_used st2 -> hs_failure st1 = hs_failure st2 ->
  hs_used (applyHeader decodeBase64 encodeBase64 v1 h st1 hdr) = hs_used (applyHeader decodeBase64 encodeBase64 v2 h st2 hdr) /\
  hs_failure (applyHeader decodeBase64 encodeBase64 v1 h st1 hdr) = hs_failure (applyHeader decodeBase64 encodeBase64 v2 h st2 hdr).
Proof.
  intros Hb Hu Hf.
  assert (forall u n, accessCheck v1 h u n = accessCheck v2 h u n) as Hc by (intros; by apply checkAccess_body).
  destruct hdr as [name [raw|vs|]]; cbn [applyHeader]; [| |done].
  - rewrite Hu. assert (forall x, let f v := applyToString v (accessCheck v h) x (hs_used st2) in
      snd (f v1) = snd (f v2) /\ a_failure (fst (f v1)) = a_failure (fst (f v2))) as Hx.
    { intros x. by apply apply_accounting. }
    unfold applyToAuthorization. pose proof (Hx raw) as Hraw. cbv beta zeta in Hraw.
    destruct (String.eqb (toLowerCase name) "authorization"),
      (decodeBasicCredential decodeBase64 raw) as [[p d]|].
    + specialize (Hx d). cbv beta zeta in Hx. revert Hx.
      destruct (applyToString v1 _ d _) as [o1 u1], (applyToString v2 _ d _) as [o2 u2]. intros [Hx1 Hx2]. simpl in *.
      destruct (negb (changed o1)), (negb (changed o2)); simpl; by rewrite Hf, Hx2.
    + revert Hraw. destruct (applyToString v1 _ raw _), (applyToString v2 _ raw _). intros [? E]. simpl in *. by rewrite Hf, E.
    + revert Hraw. destruct (applyToString v1 _ raw _), (applyToString v2 _ raw _). intros [? E]. simpl in *. by rewrite Hf, E.
    + revert Hraw. destruct (applyToString v1 _ raw _), (applyToString v2 _ raw _). intros [? E]. simpl in *. by rewrite Hf, E.
  - assert (forall s1 s2, hs_used s1 = hs_used s2 -> hs_failure s1 = hs_failure s2 ->
      hs_used (snd (applyMany v1 h vs s1)) = hs_used (snd (applyMany v2 h vs s2)) /\
      hs_failure (snd (applyMany v1 h vs s1)) = hs_failure (snd (applyMany v2 h vs s2))) as Hm.
    { clear st1 st2 Hu Hf. induction vs as [|x vs IH]; intros s1 s2 Hu Hf; cbn [applyMany]; [done|]. rewrite Hu.
      pose proof (apply_accounting v1 v2 _ _ x (hs_used s2) Hb Hc) as [H1 H2].
      revert H1 H2. destruct (applyToString v1 _ x _) as [o1 u1], (applyToString v2 _ x _) as [o2 u2]. simpl. intros -> H2.
      specialize (IH (mkHS (hs_out s1) (changed o1 || hs_changed s1) u2 (orFailure (hs_failure s1) (a_failure o1)))
        (mkHS (hs_out s2) (changed o2 || hs_changed s2) u2 (orFailure (hs_failure s2) (a_failure o2)))).
      simpl in IH. rewrite Hf, H2 in IH |- *. specialize (IH eq_refl eq_refl). revert IH.
      by destruct (applyMany v1 h vs _) as [r1 t1], (applyMany v2 h vs _) as [r2 t2]. }
    specialize (Hm st1 st2 Hu Hf). revert Hm. by destruct (applyMany v1 h vs st1), (applyMany v2 h vs st2).
Qed.

(** Bodies need the opt-in: the body sent does not depend on the value of any secret
    without [allow_body_substitution], nor do the report of secrets used and the failure,
    even when the same secret is substituted into a header of the same request. *)
Theorem body_needs_opt_in (input : RequestInputs) (v1 v2 : Vault) :
  bodies_same v1 v2 ->
  let r1 := substituteRequest decodeBase64 encodeBase64 parseJson showIndex input v1 in
  let r2 := substituteRequest decodeBase64 encodeBase64 parseJson showIndex input v2 in
  r_body r1 = r_body r2 /\ secretsUsed r1 = secretsUsed r2 /\ failure r1 = failure r2.
Proof.
  intros Hb. cbv zeta. unfold substituteRequest. set (h := host input).
  assert (forall hs s1 s2, hs_used s1 = hs_used s2 -> hs_failure s1 = hs_failure s2 ->
    let f v := fold_left (applyHeader decodeBase64 encodeBase64 v h) hs in
    hs_used (f v1 s1) = hs_used (f v2 s2) /\ hs_failure (f v1 s1) = hs_failure (f v2 s2)) as Hhs.
  { induction hs as [|x hs IH]; intros s1 s2 Hu Hf; cbn [fold_left]; [done|].
    destruct (header_accounting v1 v2 h s1 s2 x Hb Hu Hf). by apply IH. }
  destruct (Hhs (headers input) (mkHS [] false ∅ None) (mkHS [] false ∅ None) eq_refl eq_refl) as [Hu Hf]. clear Hhs.
  revert Hu Hf. generalize (fold_left (applyHeader decodeBase64 encodeBase64 v1 h) (headers input) (mkHS [] false ∅ None)).
  generalize (fold_left (applyHeader decodeBase64 encodeBase64 v2 h) (headers input) (mkHS [] false ∅ None)).
  intros s2 s1 Hu Hf. rewrite Hu.
  pose proof (apply_accounting v1 v2 (accessCheck v1 h) (accessCheck v2 h) (url input) (hs_used s2) Hb
    ltac:(intros; by apply checkAccess_body)) as [H1 H2].
  revert H1 H2. destruct (applyToString v1 _ (url input) _) as [o1 u1], (applyToString v2 _ (url input) _) as [o2 u2].
  simpl. intros -> H2.
  destruct (body input) as [text|]; [|by rewrite Hf, H2].
  assert (applyToString v1 (bodyCheck v1 h) text u2 = applyToString v2 (bodyCheck v2 h) text u2) as ->.
  { unfold applyToString. by rewrite (replace_body v1 v2) by done. }
  destruct (applyToString v2 _ text u2). simpl. by rewrite Hf, H2.
Qed.
End BodyGate.

(** ** Nothing refused goes unreported *)

(** The names the substitution finds in a string, in order. *)
Fixpoint placeholders_fuel (fuel : nat) (s : string) : list string :=
  match fuel with
  | O => []
  | S fuel' =>
      match matchPlaceholder s with
      | Some (name, rest) => name :: placeholders_fuel fuel' rest
      | None => match s with EmptyString => [] | String _ s' => placeholders_fuel fuel' s' end
      end
  end.

Definition placeholders (s : string) : list string := placeholders_fuel (S (String.length s)) s.

Lemma matchPlaceholder_probe s r : matchPlaceholder s = Some r -> startsWith s PLACEHOLDER_PROBE = true.
Proof. unfold matchPlaceholder. by destruct (startsWith s PLACEHOLDER_PROBE). Qed.

Lemma no_probe_no_placeholders fuel s : includes s PLACEHOLDER_PROBE = false -> placeholders_fuel fuel s = [].
Proof.
  revert s. induction fuel as [|fuel IH]; intros s H; [done|]. cbn [placeholders_fuel].
  assert (startsWith s PLACEHOLDER_PROBE = false) as Hs.
  { destruct s; cbn [includes] in H; by apply orb_false_iff in H as [H _]. }
  destruct (matchPlaceholder s) as [r|] eqn:E; [by rewrite (matchPlaceholder_probe _ _ E) in Hs|].
  destruct s; [done|]. apply IH. cbn [includes] in H. by apply orb_false_iff in H as [_ H].
Qed.

Lemma orFailure_None a b : orFailure a b = None <-> a = None /\ b = None.
Proof. destruct a; simpl; naive_solver. Qed.

Section Accounting.
Context (v : Vault) (h : string).

Definition allowed (name : string) : Prop := checkAccess h v name = substitute.

Lemma replace_account fuel used f s :
  let '(_, used', f') := replace_fuel v (accessCheck v h) fuel used f s in
  (f' = None <-> f = None /\ Forall allowed (placeholders_fuel fuel s)) /\
  (forall n, n ∈ used' <-> n ∈ used \/ (In n (placeholders_fuel fuel s) /\ allowed n)).
Proof.
  revert used f s. induction fuel as [|fuel IH]; intros used f s; cbn [replace_fuel placeholders_fuel].
  { simpl. rewrite List.Forall_nil_iff. naive_solver. }
  destruct (matchPlaceholder s) as [[name rest]|].
  - unfold accessCheck at 1. destruct (checkAccess h v name) as [| |f0] eqn:E.
    + destruct (checkAccess_granted h v name E) as (sec & Hs & _). rewrite Hs.
      specialize (IH (used ∪ {[name]}) f rest). destruct (replace_fuel _ _ fuel _ f rest) as [[o u'] f'].
      destruct IH as [H1 H2]. rewrite List.Forall_cons_iff. unfold allowed in *. simpl. split; [tauto|].
      intros n. rewrite H2, elem_of_union, elem_of_singleton. split.
      * intros [[?| ->]|[? ?]]; auto.
      * intros [?|[[->|?] ?]]; auto.
    + unfold checkAccess in E. repeat case_match; done.
    + specialize (IH used (orFailure f (Some f0)) rest). destruct (replace_fuel _ _ fuel _ _ rest) as [[o u'] f'].
      destruct IH as [H1 H2]. rewrite List.Forall_cons_iff, H1, orFailure_None. unfold allowed in *. simpl.
      split; [split; [by intros [[_ ?] _]|intros (_ & Hx & _); congruence]|].
      intros n. rewrite H2. split; [intros [?|[? ?]]; auto|]. intros [?|[[->|?] ?]]; auto; congruence.
  - destruct s as [|c s]; [rewrite List.Forall_nil_iff; simpl; naive_solver|].
    specialize (IH used f s). by destruct (replace_fuel _ _ fuel used f s) as [[o u'] f'].
Qed.

Lemma apply_account s used :
  let '(out, used') := applyToString v (accessCheck v h) s used in
  (a_failure out = None <-> Forall allowed (placeholders s)) /\
  (forall n, n ∈ used' <-> n ∈ used \/ (In n (placeholders s) /\ allowed n)).
Proof.
  unfold applyToString. destruct (includes s PLACEHOLDER_PROBE) eqn:Ep; cbn [negb].
  - pose proof (replace_account (S (String.length s)) used None s) as H.
    destruct (replace_fuel _ _ _ used None s) as [[o u'] f']. destruct H as [H1 H2]. fold (placeholders s) in *.
    simpl. split; [rewrite H1; naive_solver|done].
  - unfold placeholders. rewrite no_probe_no_placeholders by done. rewrite List.Forall_nil_iff. simpl. naive_solver.
Qed.
End Accounting.

Section Reported.
Context (decodeBase64 encodeBase64 : string -> string) (parseJson : string -> option Json)
        (showIndex : nat -> string).

(** The texts the proxy scans in a request's headers: the decoded credential of a Basic
    [Authorization] header, every other value as it stands. *)
Definition headerTexts (hdr : string * HeaderValue) : list string :=
  match hdr with
  | (_, Undefined) => []
  | (_, Many vs) => vs
  | (name, One raw) =>
      if String.eqb (toLowerCase name) "authorization" then
        match decodeBasicCredential decodeBase64 raw with
        | Some (_, decoded) => [decoded]
        | None => [raw]
        end
      else [raw]
  end.

Definition accounted (v : Vault) (h : string) (texts : list string) (st st' : HeaderState) : Prop :=
  (hs_failure st' = None <-> hs_failure st = None /\ Forall (fun t => Forall (allowed v h) (placeholders t)) texts) /\
  (forall n, n ∈ hs_used st' <-> n ∈ hs_used st \/ exists t, In t texts /\ In n (placeholders t) /\ allowed v h n).

Lemma accounted_trans v h t1 t2 s1 s2 s3 : accounted v h t1 s1 s2 -> accounted v h t2 s2 s3 ->
  accounted v h (t1 ++ t2) s1 s3.
Proof.
  intros [A1 A2] [B1 B2]. split.
  - rewrite B1, A1, Forall_app. tauto.
  - intros n. rewrite B2, A2. setoid_rewrite in_app_iff. naive_solver.
Qed.

Lemma accounted_one v h text st st' out used' : applyToString v (accessCheck v h) text (hs_used st) = (out, used') ->
  hs_used st' = used' -> hs_failure st' = orFailure (hs_failure st) (a_failure out) -> accounted v h [text] st st'.
Proof.
  intros E Hu Hf. pose proof (apply_account v h text (hs_used st)) as H. rewrite E in H. destruct H as [H1 H2].
  split.
  - rewrite Hf, orFailure_None, H1, List.Forall_cons_iff, List.Forall_nil_iff. tauto.
  - intros n. rewrite Hu, H2. simpl. naive_solver.
Qed.

Lemma applyMany_account v h vs st : accounted v h vs st (snd (applyMany v h vs st)).
Proof.
  revert st. induction vs as [|x vs IH]; intros st; cbn [applyMany].
  { split; [rewrite List.Forall_nil_iff; naive_solver|]. simpl. naive_solver. }
  destruct (applyToString v (accessCheck v h) x (hs_used st)) as [out used] eqn:E.
  set (st1 := mkHS (hs_out st) (changed out || hs_changed st) used (orFailure (hs_failure st) (a_failure out))).
  specialize (IH st1). destruct (applyMany v h vs st1) as [r st2]. simpl in *.
  apply (accounted_trans v h [x] vs st st1); [|done]. by eapply accounted_one.
Qed.

Lemma applyHeader_account v h st hdr :
  accounted v h (headerTexts hdr) st (applyHeader decodeBase64 encodeBase64 v h st hdr).
Proof.
  destruct hdr as [name [raw|vs|]]; cbn [applyHeader headerTexts].
  - unfold applyToAuthorization.
    destruct (String.eqb (toLowerCase name) "authorization"); [destruct (decodeBasicCredential decodeBase64 raw) as [[p d]|]|].
    + destruct (applyToString v (accessCheck v h) d (hs_used st)) as [out used] eqn:E.
      destruct (negb (changed out)); by eapply accounted_one.
    + destruct (applyToString v (accessCheck v h) raw (hs_used st)) as [out used] eqn:E. by eapply accounted_one.
    + destruct (applyToString v (accessCheck v h) raw (hs_used st)) as [out used] eqn:E. by eapply accounted_one.
  - pose proof (applyMany_account v h vs st) as H. destruct (applyMany v h vs st) as [r st']. exact H.
  - split; [rewrite List.Forall_nil_iff; naive_solver|]. simpl. naive_solver.
Qed.

Lemma headers_account v h hs st :
  accounted v h (List.concat (List.map headerTexts hs)) st
    (fold_left (applyHeader decodeBase64 encodeBase64 v h) hs st).
Proof.
  revert st. induction hs as [|x hs IH]; intros st; cbn [fold_left List.map List.concat].
  { split; [rewrite List.Forall_nil_iff; naive_solver|]. simpl. naive_solver. }
  eapply accounted_trans; [apply applyHeader_account|apply IH].
Qed.

(** Substitution is all or an error: for a request whose body is not inspected, no
    failure is reported exactly when every placeholder in its headers (those inside a
    Basic credential included) and its URL names a stored secret that may go to the host,
    and the secrets reported as used are exactly those. *)
Theorem substitution_complete (input : RequestInputs) (v : Vault) :
  body input = None ->
  let texts := List.concat (List.map headerTexts (headers input)) ++ [url input] in
  let r := substituteRequest decodeBase64 encodeBase64 parseJson showIndex input v in
  let ok name := exists s, v !! name = Some s /\ permitted (host input) s = true in
  (failure r = None <-> forall t name, In t texts -> In name (placeholders t) -> ok name) /\
  (forall name, name ∈ secretsUsed r <-> exists t, In t texts /\ In name (placeholders t) /\ ok name).
Proof.
  intros Hb texts r ok. pose proof (headers_account v (host input) (headers input) (mkHS [] false ∅ None)) as Hh.
  unfold r, substituteRequest. rewrite Hb.
  set (st := fold_left _ (headers input) _) in *.
  destruct (applyToString v (accessCheck v (host input)) (url input) (hs_used st)) as [out used] eqn:E. simpl.
  set (st' := mkHS (hs_out st) false used (orFailure (hs_failure st) (a_failure out))).
  assert (accounted v (host input) [url input] st st') as Hu by (by eapply accounted_one).
  pose proof (accounted_trans _ _ _ _ _ _ _ Hh Hu) as [H1 H2]. fold texts in H1, H2. simpl in H1, H2.
  assert (forall name, allowed v (host input) name <-> ok name) as Hok.
  { intros name. unfold allowed, ok. split; [apply checkAccess_granted|].
    intros (s & Hs & Hp). unfold checkAccess. by rewrite Hs, Hp. }
  split.
  - rewrite H1, List.Forall_forall. setoid_rewrite List.Forall_forall. setoid_rewrite Hok. naive_solver.
  - intros name. rewrite H2. setoid_rewrite Hok. set_solver.
Qed.
End Reported.

(** ** Witnesses *)

Definition ex_vault (v : string) : Vault :=
  <["GITHUB" := mkSecret "GITHUB" "ghp_real" ["github.com"] false false]>
    (<["STRIPE" := mkSecret "STRIPE" v ["api.stripe.com"] false false]> (∅ : gmap string ResolvedSecret)).

Definition ex_input : RequestInputs :=
  mkInputs "https://github.com/x" [("Authorization", One "token __HEZO_SECRET_GITHUB__");
    ("X-Try", One "__HEZO_SECRET_STRIPE__")] "github.com" (Some "quoting __HEZO_SECRET_GITHUB__").

Lemma ex_vault_alike : vaults_alike "github.com" (ex_vault "a") (ex_vault "b").
Proof.
  intros name. unfold ex_vault, Vault. destruct (decide (name = "GITHUB")) as [->|H1]; [vm_compute; apply alike_same|].
  destruct (decide (name = "STRIPE")) as [->|H2]; [by apply alike_refused|].
  rewrite !lookup_insert_ne by congruence. apply alike_same.
Qed.

Lemma secrets_confined_witness :
  substituteRequest (fun s => s) (fun s => s) (fun _ => None) (fun _ => "0") ex_input (ex_vault "a") =
  substituteRequest (fun s => s) (fun s => s) (fun _ => None) (fun _ => "0") ex_input (ex_vault "b").
Proof. apply (secrets_confined (fun s => s) (fun s => s) (fun _ => None) (fun _ => "0") ex_input). exact ex_vault_alike. Defined.

Lemma body_needs_opt_in_witness :
  r_body (substituteRequest (fun s => s) (fun s => s) (fun _ => None) (fun _ => "0") ex_input (ex_vault "a")) =
  r_body (substituteRequest (fun s => s) (fun s => s) (fun _ => None) (fun _ => "0") ex_input (ex_vault "b")).
Proof.
  apply (body_needs_opt_in (fun s => s) (fun s => s) (fun _ => None) (fun _ => "0") ex_input (ex_vault "a") (ex_vault "b")).
  intros name. unfold ex_vault, Vault. destruct (decide (name = "GITHUB")) as [->|H1]; [vm_compute; apply body_same_eq|].
  destruct (decide (name = "STRIPE")) as [->|H2]; [by apply body_same_value|].
  rewrite !lookup_insert_ne by congruence. apply body_same_eq.
Defined.

Lemma substitution_complete_witness :
  "GITHUB" ∈ secretsUsed (substituteRequest (fun s => s) (fun s => s) (fun _ => None) (fun _ => "0")
    (mkInputs "https://github.com/x" [("Authorization", One "token __HEZO_SECRET_GITHUB__")] "github.com" None)
    (ex_vault "a")).
Proof.
  apply (substitution_complete (fun s => s) (fun s => s) (fun _ => None) (fun _ => "0")
    (mkInputs "https://github.com/x" [("Authorization", One "token __HEZO_SECRET_GITHUB__")] "github.com" None)
    (ex_vault "a") eq_refl).
  exists "token __HEZO_SECRET_GITHUB__". split; [vm_compute; by left|]. split; [vm_compute; by left|].
  exists (mkSecret "GITHUB" "ghp_real" ["github.com"] false false). split; vm_compute; reflexivity.
Defined.

(** A credential inside a Basic header is substituted, a body occurrence of a secret
    already delivered is forwarded as text. *)
Example substituted_request :
  let r := substituteRequest (fun s => s) (fun s => s) (fun _ => None) (fun _ => "0") ex_input (ex_vault "a") in
  r_headers r = [("Authorization", One "token ghp_real"); ("X-Try", One "__HEZO_SECRET_STRIPE__")] /\
  r_body r = Some "quoting __HEZO_SECRET_GITHUB__" /\
  failure r = Some (secret_not_allowed_for_host "STRIPE" "github.com").
Proof. vm_compute. done. Qed.
