(* ===== verification/McpAccess.v ===== *)
(** * Access to the methods of a connector

    Models of [packages/shared/src/mcp/method-access.ts] (which methods only read, and the
    counts of an allowlist) and of [packages/server/src/services/egress/mcp-method-guard.ts]
    (which request bodies may go to a server with an allowlist). A stored allowlist of [None]
    is the source's [null]: no restriction. *)
From Stdlib Require Import ZArith Lia Ascii String List Bool.
From stdpp Require Import base list strings option.
From S2P Require Import Prelude JsString JsonText.

Open Scope string_scope.
Open Scope list_scope.
Open Scope Z_scope.

(** ** Classification *)

Record McpToolDescriptor := mkTool {
  td_name : string; td_description : option string; td_readOnlyHint : option bool
}.

Record McpMethodInfo := mkMethod {
  mi_name : string; mi_description : option string; mi_readOnly : bool; mi_inferred : bool
}.

Definition READ_ONLY_PREFIXES : list string :=
  ["get"; "list"; "search"; "read"; "fetch"; "find"; "query"; "describe"; "view"; "show"; "count"; "check"; "inspect";
   "preview"; "export"; "download"].

Definition WRITE_VERB_PREFIXES : list string :=
  ["create"; "update"; "delete"; "remove"; "set"; "add"; "put"; "patch"; "post"; "write"; "send"; "reset"; "clear"; "drop";
   "insert"; "upsert"; "move"; "rename"; "archive"; "publish"; "cancel"; "run"; "execute"; "start"; "stop"].

Definition isSeparator (c : ascii) : bool :=
  Ascii.eqb c "_" || Ascii.eqb c "-" || Ascii.eqb c "." || is_space c.
Definition isAsciiLower (c : ascii) : bool := (97 <=? code c) && (code c <=? 122).
Definition isAsciiUpper (c : ascii) : bool := (65 <=? code c) && (code c <=? 90).
Definition isAsciiDigit (c : ascii) : bool := (48 <=? code c) && (code c <=? 57).

(** [s.replace(/[_\-.\s]+/g, ' ')]; [run]: the unit before was a separator. *)
Fixpoint collapse (run : bool) (s : string) : string :=
  match s with
  | EmptyString => EmptyString
  | String c s =>
      if isSeparator c then (if run then collapse true s else String " " (collapse true s))
      else String c (collapse false s)
  end.

(** [s.replace(/([a-z0-9])([A-Z])/g, '$1 $2')]. A unit of the first class is not of the second, so
    the matches never overlap; [low]: the unit before is of the first class. *)
Fixpoint splitCamel (low : bool) (s : string) : string :=
  match s with
  | EmptyString => EmptyString
  | String c s =>
      let rest := String c (splitCamel (isAsciiLower c || isAsciiDigit c) s) in
      if low && isAsciiUpper c then String " " rest else rest
  end.

Definition splitWords (name : string) : list string :=
  List.map toLowerCase (List.filter nonempty (split_on " " (trim (splitCamel false (collapse false name))))).

Definition includesWord (l : list string) (w : string) : bool := existsb (String.eqb w) l.

(** The loop of [sharedVendorPrefix]; [None] when it returns early. *)
Fixpoint sharedLoop (shared : option string) (tools : list McpToolDescriptor) : option (option string) :=
  match tools with
  | [] => Some shared
  | tool :: tools =>
      let words := splitWords (td_name tool) in
      if (length words <? 2)%nat then None
      else
        let first := hd "" words in
        match shared with
        | None => sharedLoop (Some first) tools
        | Some s => if String.eqb s first then sharedLoop shared tools else None
        end
  end.

Definition sharedVendorPrefix (tools : list McpToolDescriptor) : option string :=
  match tools with
  | [] => None
  | _ =>
      match sharedLoop None tools with
      | Some (Some shared) =>
          if includesWord READ_ONLY_PREFIXES shared then None
          else if includesWord WRITE_VERB_PREFIXES shared then None
          else Some shared
      | _ => None
      end
  end.

(** [namespace && words[0] === namespace ? words[1] : words[0]], or the empty string. *)
Definition verbOf (namespace : option string) (words : list string) : string :=
  match namespace with
  | Some ns => if nonempty ns && bool_decide (head words = Some ns) then nth 1 words "" else nth 0 words ""
  | None => nth 0 words ""
  end.

Definition classifyMcpMethod (tool : McpToolDescriptor) (namespace : option string) : McpMethodInfo :=
  let description := match td_description tool with Some d => if nonempty d then Some d else None | None => None end in
  match td_readOnlyHint tool with
  | Some declared => mkMethod (td_name tool) description declared false
  | None => mkMethod (td_name tool) description (includesWord READ_ONLY_PREFIXES (verbOf namespace (splitWords (td_name tool)))) true
  end.

Definition classifyMcpMethods (tools : list McpToolDescriptor) : list McpMethodInfo :=
  List.map (fun tool => classifyMcpMethod tool (sharedVendorPrefix tools)) tools.

(** ** Counts *)

Inductive MethodAccessMode := AllMethods | Restricted.

Record MethodAccessSummary := mkSummary {
  ms_mode : MethodAccessMode; ms_total : Z; ms_enabled : Z; ms_readOnlyTotal : Z; ms_readOnlyEnabled : Z;
  ms_writeTotal : Z; ms_writeEnabled : Z; ms_writeDisabled : Z
}.

Definition isOn (enabled : option (list string)) (m : McpMethodInfo) : bool :=
  match enabled with None => true | Some names => includesWord names (mi_name m) end.

Definition lengthZ {A} (l : list A) : Z := Z.of_nat (length l).

Definition summarizeMethodAccess (catalog : list McpMethodInfo) (enabled : option (list string)) : MethodAccessSummary :=
  let readOnly := List.filter mi_readOnly catalog in
  let write := List.filter (fun m => negb (mi_readOnly m)) catalog in
  let readOnlyEnabled := lengthZ (List.filter (isOn enabled) readOnly) in
  let writeEnabled := lengthZ (List.filter (isOn enabled) write) in
  mkSummary (match enabled with None => AllMethods | Some _ => Restricted end) (lengthZ catalog)
    (readOnlyEnabled + writeEnabled) (lengthZ readOnly) readOnlyEnabled (lengthZ write) writeEnabled
    (lengthZ write - writeEnabled).

Definition readOnlyMethodNames (catalog : list McpMethodInfo) : list string :=
  List.map mi_name (List.filter mi_readOnly catalog).

Definition isReadOnlyRestricted (catalog : list McpMethodInfo) (enabled : option (list string)) : bool :=
  match enabled with
  | None => false
  | Some _ => let s := summarizeMethodAccess catalog enabled in (ms_writeTotal s >? 0) && (ms_writeEnabled s =? 0)
  end.

(** ** The guard *)

Definition TOOLS_CALL : text := units "tools/call".

Inductive McpGuardVerdict := Passes | NotEnabled (method : text) | Unparseable.

(** [typeof v === 'object' && v !== null]. *)
Definition isRecord (v : JsonValue) : bool := match v with VArray _ | VObject _ => true | _ => false end.

(** [v[k]] of a value from [JSON.parse], for a [k] that no prototype has. *)
Definition propOf (v : JsonValue) (k : string) : option JsonValue :=
  match v with VObject o => field (units k) o | _ => None end.

Definition isToolsCall (message : JsonValue) : bool :=
  match propOf message "method" with Some (VString m) => bool_decide (m = TOOLS_CALL) | _ => false end.

Definition callName (message : JsonValue) : option text :=
  match propOf message "params" with
  | Some params => if isRecord params then match propOf params "name" with Some (VString n) => Some n | _ => None end else None
  | None => None
  end.

Fixpoint checkMessages (enabled : list text) (messages : list JsonValue) : McpGuardVerdict :=
  match messages with
  | [] => Passes
  | message :: messages =>
      if negb (isRecord message) then Unparseable
      else if negb (isToolsCall message) then checkMessages enabled messages
      else match callName message with
           | None => Unparseable
           | Some name => if bool_decide (name ∈ enabled) then checkMessages enabled messages else NotEnabled name
           end
  end.

Definition messagesOf (parsed : JsonValue) : list JsonValue := match parsed with VArray l => l | _ => [parsed] end.

Definition shouldBlockMcpRequest (bodyText : text) (enabled : list text) : McpGuardVerdict :=
  match JSON_parse bodyText with
  | None => Unparseable
  | Some parsed => checkMessages enabled (messagesOf parsed)
  end.

(** ** The guard decides on the grammar *)

(** What may be forwarded: a record that is no call, or a call of an enabled method. *)
Definition forwardable (enabled : list text) (message : JsonValue) : Prop :=
  isRecord message = true /\ (isToolsCall message = true -> exists name, callName message = Some name /\ name ∈ enabled).

Lemma checkMessages_passes enabled l : checkMessages enabled l = Passes <-> Forall (forwardable enabled) l.
Proof.
  induction l as [|m l IH]; cbn [checkMessages]; [by split|]. rewrite List.Forall_cons_iff, <- IH. unfold forwardable.
  destruct (isRecord m); cbn [negb]; [|by split; [|intros [[? _] _]]].
  destruct (isToolsCall m); cbn [negb]; [|by split; [|intros [_ ?]]].
  destruct (callName m) as [n|]; [|by split; [|intros [[_ (? & [=] & _)] _]]].
  case_bool_decide as Hn; split; try done.
  - intros H. by split; [split; [done|intros _; exists n]|].
  - by intros [_ ?].
  - intros [[_ H] _]. destruct (H eq_refl) as (? & [= <-] & ?). done.
Qed.

(** The last member of a name, as the text has them. *)
Definition lastMember (k : string) (l : list (text * JsonValue)) : option JsonValue :=
  snd <$> List.find (fun kv => bool_decide (fst kv = units k)) (rev l).

(** [Calls s name]: the text [s] is a message or a batch with a call of the tool [name] in it. *)
Inductive Calls (s name : text) : Prop :=
| calls v l pl : JsonText s v -> In (VObject (fromMembers l)) (messagesOf v) ->
    lastMember "method" l = Some (VString TOOLS_CALL) -> lastMember "params" l = Some (VObject (fromMembers pl)) ->
    lastMember "name" pl = Some (VString name) -> Calls s name.

Lemma json_text_det s v v' : JsonText s v -> JsonText s v' -> v = v'.
Proof. rewrite <- !parse_exact. congruence. Qed.

Lemma guard_passes_iff s enabled : shouldBlockMcpRequest s enabled = Passes <->
  exists v, JsonText s v /\ Forall (forwardable enabled) (messagesOf v).
Proof.
  unfold shouldBlockMcpRequest. destruct (JSON_parse s) as [v|] eqn:E.
  - rewrite checkMessages_passes. apply parse_exact in E. split; [eauto|].
    intros (v' & Hv & H). by rewrite (json_text_det s v v').
  - split; [done|]. intros (v & Hv%parse_exact & _). congruence.
Qed.

Lemma passed_calls_enabled s enabled name : shouldBlockMcpRequest s enabled = Passes -> Calls s name -> name ∈ enabled.
Proof.
  intros (v & Hv & Hall)%guard_passes_iff [v' l pl Hv' Hin Hm Hp Hn].
  rewrite (json_text_det s v' v) in Hin by done. rewrite List.Forall_forall in Hall.
  destruct (Hall _ Hin) as [_ Hc]. unfold isToolsCall, callName, propOf in Hc.
  rewrite (field_last (units "method")), (field_last (units "params")) in Hc. unfold lastMember in Hm, Hp, Hn.
  rewrite Hm, Hp in Hc. cbn [isRecord] in Hc. rewrite field_last, Hn in Hc.
  destruct Hc as (? & [= <-] & ?); [by apply bool_decide_eq_true|done].
Qed.

(** What the guard lets stand as a message: an array, which it does not look into, and an object
    that is no call, or a call that names an enabled tool. *)
Inductive may_pass (enabled : list text) : JsonValue -> Prop :=
| pass_array l : may_pass enabled (VArray l)
| pass_other o : field (units "method") o <> Some (VString TOOLS_CALL) -> may_pass enabled (VObject o)
| pass_call o po name : field (units "method") o = Some (VString TOOLS_CALL) -> field (units "params") o = Some (VObject po) ->
    field (units "name") po = Some (VString name) -> name ∈ enabled -> may_pass enabled (VObject o).

(** A message that calls the tool [name]. *)
Definition calls_tool (m : JsonValue) (name : text) : Prop :=
  exists o po, m = VObject o /\ field (units "method") o = Some (VString TOOLS_CALL) /\ field (units "params") o = Some (VObject po)
    /\ field (units "name") po = Some (VString name).

Lemma isToolsCall_spec m : isToolsCall m = true <-> exists o, m = VObject o /\ field (units "method") o = Some (VString TOOLS_CALL).
Proof.
  unfold isToolsCall, propOf. destruct m as [| | | | |o]; try (split; [done|by intros (? & [=] & _)]).
  split; [|by intros (? & [= <-] & ->); apply bool_decide_eq_true].
  destruct (field _ o) as [[]|] eqn:E; try done. intros H%bool_decide_eq_true. exists o. by rewrite E, H.
Qed.

Lemma calls_tool_spec m name : calls_tool m name <-> isToolsCall m = true /\ callName m = Some name.
Proof.
  rewrite isToolsCall_spec. split.
  - intros (o & po & -> & Hm & Hp & Hn). split; [eauto|]. unfold callName, propOf. by rewrite Hp; cbn [isRecord]; rewrite Hn.
  - intros [(o & -> & Hm) Hc]. unfold callName, propOf in Hc. destruct (field (units "params") o) as [[| | | | |po]|] eqn:Ep; try done.
    cbn [isRecord] in Hc. destruct (field (units "name") po) as [[]|] eqn:En; try done. injection Hc as ->. by exists o, po.
Qed.

Lemma may_pass_spec enabled m : may_pass enabled m <-> forwardable enabled m.
Proof.
  unfold forwardable. split.
  - destruct 1 as [l|o Hm|o po name Hm Hp Hn Hin]; (split; [done|]).
    + by rewrite isToolsCall_spec; intros (? & [=] & _).
    + rewrite isToolsCall_spec. by intros (? & [= <-] & ?).
    + intros _. exists name. split; [|done]. apply calls_tool_spec. by exists o, po.
  - intros [Hr Hc]. destruct m as [| | | |l|o]; try done; [constructor|].
    destruct (isToolsCall (VObject o)) eqn:Et.
    + destruct (Hc eq_refl) as (name & Hn & Hin). destruct (proj2 (calls_tool_spec (VObject o) name) (conj Et Hn)) as (o' & po & [= <-] & H1 & H2 & H3).
      by eapply pass_call.
    + apply pass_other. intros Hm. assert (isToolsCall (VObject o) = true); [|congruence]. apply isToolsCall_spec. eauto.
Qed.

Lemma checkMessages_named enabled l name : checkMessages enabled l = NotEnabled name <->
  exists l1 m l2, l = l1 ++ m :: l2 /\ Forall (forwardable enabled) l1 /\ isToolsCall m = true /\ callName m = Some name /\ name ∉ enabled.
Proof.
  split.
  - induction l as [|m l IH]; cbn [checkMessages]; [done|]. destruct (isRecord m) eqn:Er; [|done]. cbn [negb].
    assert (forwardable enabled m -> checkMessages enabled l = NotEnabled name -> exists l1 m' l2, m :: l = l1 ++ m' :: l2
      /\ Forall (forwardable enabled) l1 /\ isToolsCall m' = true /\ callName m' = Some name /\ name ∉ enabled) as Hskip.
    { intros Hf (l1 & m' & l2 & -> & Hl & H)%IH. exists (m :: l1), m', l2. split; [done|]. split; [by constructor|done]. }
    destruct (isToolsCall m) eqn:Ec; cbn [negb]; [|apply Hskip; split; [done|congruence]].
    destruct (callName m) as [n|] eqn:En; [|done]. case_bool_decide as Hn.
    + apply Hskip. split; [done|]. eauto.
    + intros [= <-]. by exists [], m, l.
  - intros (l1 & m & l2 & -> & Hl & Hc & Hn & Hno). induction Hl as [|x l1 [Hr Hx] _ IH].
    + cbn [app checkMessages]. assert (isRecord m = true) as -> by (apply isToolsCall_spec in Hc as (? & -> & _); done).
      rewrite Hc, Hn. cbn [negb]. by rewrite bool_decide_false.
    + cbn [app checkMessages]. rewrite Hr. cbn [negb]. destruct (isToolsCall x); [|done]. destruct (Hx eq_refl) as (n & -> & Hin).
      cbn [negb]. by rewrite bool_decide_true.
Qed.


(** ** Classification is never too permissive *)

Lemma includesWord_In l w : includesWord l w = true <-> In w l.
Proof.
  unfold includesWord. rewrite existsb_exists. split; [intros (x & ? & ->%String.eqb_eq); done|].
  intros H. exists w. by rewrite String.eqb_refl.
Qed.

Lemma verbs_disjoint w : In w WRITE_VERB_PREFIXES -> includesWord READ_ONLY_PREFIXES w = false.
Proof. intros H. cbn in H. repeat (destruct H as [<-|H]; [done|]). done. Qed.

Lemma sharedLoop_spec tools s0 ns : sharedLoop s0 tools = Some (Some ns) ->
  (s0 = Some ns \/ s0 = None) /\
  forall tool, In tool tools -> exists v rest, splitWords (td_name tool) = ns :: v :: rest.
Proof.
  revert s0. induction tools as [|tool tools IH]; intros s0; cbn [sharedLoop]; [intros [= ->]; split; [by left|intros ? []]|].
  destruct (splitWords (td_name tool)) as [|w [|v rest]] eqn:Ew; [done|done|]. cbn [length Nat.ltb Nat.leb hd].
  destruct s0 as [s|].
  - destruct (String.eqb s w) eqn:E; [|done]. apply String.eqb_eq in E as ->. intros Hs. destruct (IH _ Hs) as [[[= ->]|[=]] Hall].
    split; [auto|]. intros t [<-|Ht]; eauto.
  - intros Hs. destruct (IH _ Hs) as [[[= ->]|[=]] Hall]. split; [auto|]. intros t [<-|Ht]; eauto.
Qed.

Lemma sharedVendorPrefix_spec tools ns : sharedVendorPrefix tools = Some ns ->
  ~ In ns READ_ONLY_PREFIXES /\ ~ In ns WRITE_VERB_PREFIXES /\
  forall tool, In tool tools -> exists v rest, splitWords (td_name tool) = ns :: v :: rest.
Proof.
  unfold sharedVendorPrefix. destruct tools as [|t0 tools]; [done|]. destruct (sharedLoop None _) as [[s|]|] eqn:E; [|done|done].
  destruct (includesWord READ_ONLY_PREFIXES s) eqn:E1; [done|]. destruct (includesWord WRITE_VERB_PREFIXES s) eqn:E2; [done|].
  intros [= <-]. apply sharedLoop_spec in E as [_ H].
  split_and!; [by intros ?%includesWord_In; congruence|by intros ?%includesWord_In; congruence|done].
Qed.

(** A guess never hands out a write. A tool of a catalog that declares nothing is taken to
    read only when its name starts with a reading verb, or with a name space that all tools of
    the catalog share, that is neither a reading nor a writing verb, and that a reading verb
    follows; so one whose name starts with a writing verb is taken to write, in every catalog. *)
Theorem guess_never_permissive tools tool :
  In tool tools -> td_readOnlyHint tool = None ->
  let info := classifyMcpMethod tool (sharedVendorPrefix tools) in
  let words := splitWords (td_name tool) in
  In info (classifyMcpMethods tools) /\ mi_inferred info = true /\
  (mi_readOnly info = true ->
     (exists verb rest, words = verb :: rest /\ In verb READ_ONLY_PREFIXES) \/
     (exists ns verb rest, words = ns :: verb :: rest /\ In verb READ_ONLY_PREFIXES /\
        ~ In ns READ_ONLY_PREFIXES /\ ~ In ns WRITE_VERB_PREFIXES /\
        forall t, In t tools -> exists v rest, splitWords (td_name t) = ns :: v :: rest)) /\
  (forall verb rest, words = verb :: rest -> In verb WRITE_VERB_PREFIXES -> mi_readOnly info = false).
Proof.
  intros Hin Hhint info words. subst info words. split_and!.
  - unfold classifyMcpMethods. apply in_map_iff. eauto.
  - unfold classifyMcpMethod. by rewrite Hhint.
  - unfold classifyMcpMethod. rewrite Hhint. cbn [mi_readOnly]. destruct (sharedVendorPrefix tools) as [ns|] eqn:Es.
    + destruct (sharedVendorPrefix_spec _ _ Es) as (Hr & Hw & Hall). destruct (Hall tool Hin) as (v & rest & ->).
      unfold verbOf. destruct (nonempty ns); cbn [andb]; [rewrite bool_decide_true by done|]; cbn [nth]; intros H%includesWord_In.
      * right. exists ns, v, rest. auto.
      * left. eauto.
    + unfold verbOf. destruct (splitWords (td_name tool)) as [|w rest]; [done|]. intros H%includesWord_In. left. eauto.
  - intros verb rest Hwords Hverb. unfold classifyMcpMethod. rewrite Hhint. cbn [mi_readOnly]. rewrite Hwords.
    destruct (sharedVendorPrefix tools) as [ns|] eqn:Es; [|by apply verbs_disjoint].
    destruct (sharedVendorPrefix_spec _ _ Es) as (Hr & Hw & Hall). destruct (Hall tool Hin) as (v & rest' & E).
    rewrite Hwords in E. injection E as -> ->. done.
Qed.

(** ** Spellings of a name *)

Definition wordUnit (c : ascii) : bool := isAsciiLower c || isAsciiDigit c.
Definition plainWord (w : string) : bool := nonempty w && everyChar wordUnit w.
(** A word that can be capitalised, and still ends in a unit of a word. *)
Definition camelWord (w : string) : bool :=
  plainWord w && match w with String c (String _ _) => isAsciiLower c | _ => false end.

Definition capital (w : string) : string :=
  match w with String c s => String (ascii_of_nat (nat_of_ascii c - 32)) s | EmptyString => EmptyString end.

Inductive Style := Joined (sep : ascii) | CamelCase | PascalCase.

Fixpoint joined (sep : ascii) (ws : list string) : string :=
  match ws with
  | [] => ""
  | w :: ws => match ws with [] => w | _ => w +:+ String sep (joined sep ws) end
  end.

Fixpoint glued (ws : list string) : string := match ws with [] => "" | w :: ws => w +:+ glued ws end.

Definition spell (st : Style) (ws : list string) : string :=
  match st, ws with
  | Joined sep, _ => joined sep ws
  | CamelCase, w :: ws => w +:+ glued (List.map capital ws)
  | CamelCase, [] => ""
  | PascalCase, _ => glued (List.map capital ws)
  end.

Definition spellable (st : Style) (w : string) : bool :=
  match st with Joined sep => isSeparator sep && plainWord w | _ => camelWord w end.

Lemma wordUnit_facts c : wordUnit c = true ->
  isSeparator c = false /\ is_space c = false /\ Ascii.eqb c " " = false /\ isAsciiUpper c = false /\ lower_ascii c = c.
Proof. destruct c as [[] [] [] [] [] [] [] []]; vm_compute; intros H; (discriminate H || by split_and!). Qed.

Lemma capital_facts c : isAsciiLower c = true ->
  let u := ascii_of_nat (nat_of_ascii c - 32) in
  isSeparator u = false /\ is_space u = false /\ Ascii.eqb u " " = false /\ isAsciiUpper u = true /\ lower_ascii u = c.
Proof. destruct c as [[] [] [] [] [] [] [] []]; vm_compute; intros H; (discriminate H || by split_and!). Qed.

Lemma plainWord_inv w : plainWord w = true -> exists c s, w = String c s /\ wordUnit c = true /\ everyChar wordUnit s = true.
Proof. unfold plainWord. destruct w as [|c s]; [done|]. cbn. intros [? ?]%andb_true_iff. eauto. Qed.

Lemma trimEnd_app a b : trimEnd b = b -> b <> "" -> trimEnd (a +:+ b) = a +:+ b.
Proof.
  intros Hb Hne. induction a as [|c a IH]; [done|]. rewrite app_str_cons. cbn [trimEnd]. rewrite IH.
  destruct a as [|x a]; [by destruct b|done].
Qed.

Lemma trimEnd_unspaced s : everyChar (fun c => negb (is_space c)) s = true -> trimEnd s = s.
Proof.
  induction s as [|c s IH]; [done|]. cbn. intros [Hc Hs]%andb_true_iff. rewrite IH by done.
  destruct s; [|done]. by destruct (is_space c).
Qed.

Lemma everyChar_impl p q s : (forall c, p c = true -> q c = true) -> everyChar p s = true -> everyChar q s = true.
Proof. intros H. induction s as [|c s IH]; [done|]. cbn. rewrite !andb_true_iff. intuition. Qed.

(** A piece: not blank, and without white space in it. *)
Definition piece (p : string) : bool := nonempty p && everyChar (fun c => negb (is_space c)) p.

Lemma piece_no_blank p : piece p = true -> has_char " " p = false.
Proof.
  unfold piece. intros [_ H]%andb_true_iff. induction p as [|c p IH]; [done|]. cbn in *. apply andb_true_iff in H as [Hc Hp].
  rewrite IH by done. rewrite orb_false_r. destruct (Ascii.eqb c " ") eqn:E; [|done]. apply Ascii.eqb_eq in E as ->. done.
Qed.

Lemma joined_trimmed ps : forallb piece ps = true -> trim (joined " " ps) = joined " " ps.
Proof.
  intros H. unfold trim. assert (trimStart (joined " " ps) = joined " " ps) as ->.
  { destruct ps as [|p ps]; [done|]. cbn in H. apply andb_true_iff in H as [Hp _]. unfold piece in Hp.
    destruct p as [|c p]; [done|]. cbn in Hp. apply andb_true_iff in Hp as [Hc%negb_true_iff _].
    destruct ps; cbn [joined]; rewrite ?app_str_cons; cbn [trimStart]; by rewrite Hc. }
  induction ps as [|p ps IH]; [done|]. cbn [forallb] in H. apply andb_true_iff in H as [Hp Hps]. cbn [joined].
  destruct ps as [|q ps]; [apply trimEnd_unspaced; by apply andb_true_iff in Hp as [_ ?]|].
  change (String " " (joined " " (q :: ps))) with (" " +:+ joined " " (q :: ps)). rewrite <- string_app_assoc.
  apply trimEnd_app; [by apply IH|]. cbn [forallb] in Hps. apply andb_true_iff in Hps as [Hq _]. unfold piece in Hq.
  destruct q; [done|]. by destruct ps.
Qed.

Lemma split_joined ps : ps <> [] -> forallb piece ps = true -> split_on " " (joined " " ps) = ps.
Proof.
  induction ps as [|p ps IH]; [done|]. intros _ H. cbn [forallb] in H. apply andb_true_iff in H as [Hp Hps]. cbn [joined].
  apply piece_no_blank in Hp. destruct ps as [|q ps]; [by apply split_on_no_char|].
  specialize (IH (ltac:(done)) Hps). revert IH. generalize (joined " " (q :: ps)) as r. intros r Hr.
  induction p as [|c p IHp]; cbn [split_on].
  - change ("" +:+ String " " r) with (String " " r). cbn [split_on]. by rewrite Hr.
  - cbn in Hp. apply orb_false_iff in Hp as [Hc Hp]. rewrite app_str_cons. cbn [split_on]. rewrite IHp by done. by rewrite Hc.
Qed.

Lemma splitWords_pieces name ps : splitCamel false (collapse false name) = joined " " ps -> forallb piece ps = true ->
  splitWords name = List.map toLowerCase ps.
Proof.
  intros H Hps. unfold splitWords. rewrite H, joined_trimmed by done. destruct ps as [|p ps]; [done|]. rewrite split_joined by done.
  f_equal. apply forallb_filter_id. apply forallb_forall. intros x Hx. rewrite forallb_forall in Hps.
  specialize (Hps x Hx). by apply andb_true_iff in Hps as [? _].
Qed.

Lemma lower_word w : everyChar wordUnit w = true -> toLowerCase w = w.
Proof.
  induction w as [|c w IH]; [done|]. cbn. intros [Hc Hw]%andb_true_iff. rewrite IH by done. by rewrite (proj2 (proj2 (proj2 (proj2 (wordUnit_facts c Hc))))).
Qed.

Lemma word_piece w : plainWord w = true -> piece w = true.
Proof.
  unfold plainWord, piece. rewrite !andb_true_iff. intros [? H]. split; [done|]. eapply everyChar_impl; [|exact H].
  intros c Hc. cbn. by rewrite (proj1 (proj2 (wordUnit_facts c Hc))).
Qed.

Lemma collapse_word r w rest : plainWord w = true -> collapse r (w +:+ rest) = w +:+ collapse false rest.
Proof.
  intros (c & s & -> & Hc & Hs)%plainWord_inv. rewrite !app_str_cons. cbn [collapse].
  rewrite (proj1 (wordUnit_facts c Hc)). f_equal. clear Hc c. induction s as [|c s IH]; [done|]. cbn in Hs. apply andb_true_iff in Hs as [Hc Hs].
  rewrite !app_str_cons. cbn [collapse]. rewrite (proj1 (wordUnit_facts c Hc)). f_equal. by apply IH.
Qed.

Lemma splitCamel_units low s rest : everyChar wordUnit s = true ->
  splitCamel low (s +:+ rest) = s +:+ splitCamel (match s with EmptyString => low | _ => true end) rest.
Proof.
  revert low. induction s as [|c s IH]; intros low; [done|]. cbn [everyChar]. intros [Hc Hs]%andb_true_iff.
  rewrite !app_str_cons. cbn [splitCamel]. destruct (wordUnit_facts c Hc) as (_ & _ & _ & -> & _). rewrite andb_false_r.
  change (isAsciiLower c || isAsciiDigit c) with (wordUnit c). rewrite Hc, (IH true) by done. by destruct s.
Qed.

Lemma spell_joined sep ws : forallb (spellable (Joined sep)) ws = true ->
  splitCamel false (collapse false (joined sep ws)) = joined " " ws.
Proof.
  intros H. assert (collapse false (joined sep ws) = joined " " ws) as ->.
  { induction ws as [|w ws IH]; [done|]. cbn [forallb] in H. apply andb_true_iff in H as [[Hsep Hw]%andb_true_iff Hws].
    cbn [joined]. destruct ws as [|v ws].
    - rewrite <- (string_app_nil_r w) at 1. rewrite collapse_word by done. by rewrite string_app_nil_r.
    - rewrite collapse_word by done. f_equal. cbn [collapse]. rewrite Hsep. f_equal. rewrite <- IH by done.
      cbn [forallb] in Hws. apply andb_true_iff in Hws as [[_ Hv]%andb_true_iff _]. cbn [joined].
      destruct ws; [rewrite <- (string_app_nil_r v)|]; by rewrite !collapse_word. }
  enough (forall low, splitCamel low (joined " " ws) = joined " " ws) by done.
  induction ws as [|w ws IH]; intros low; [done|]. cbn [forallb] in H. apply andb_true_iff in H as [[Hsep Hw]%andb_true_iff Hws].
  apply andb_true_iff in Hw as [_ Hu]. cbn [joined]. destruct ws as [|v ws].
  - rewrite <- (string_app_nil_r w) at 1. rewrite splitCamel_units by done. by rewrite string_app_nil_r.
  - rewrite splitCamel_units by done. f_equal. cbn [splitCamel]. rewrite andb_false_r. f_equal. by apply IH.
Qed.

Lemma everyChar_app p a b : everyChar p (a +:+ b) = everyChar p a && everyChar p b.
Proof. induction a as [|c a IH]; [done|]. rewrite app_str_cons. cbn. by rewrite IH, andb_assoc. Qed.

Lemma collapse_none r s : everyChar (fun c => negb (isSeparator c)) s = true -> collapse r s = s.
Proof.
  revert r. induction s as [|c s IH]; intros r; [done|]. cbn. intros [Hc%negb_true_iff Hs]%andb_true_iff. rewrite Hc. by rewrite IH.
Qed.

Lemma camelWord_inv w : camelWord w = true -> exists c d s, w = String c (String d s) /\ isAsciiLower c = true /\
  wordUnit c = true /\ everyChar wordUnit (String d s) = true.
Proof.
  unfold camelWord. intros [(c & s & -> & Hc & Hs)%plainWord_inv H]%andb_true_iff. destruct s as [|d s]; [done|].
  by exists c, d, s.
Qed.

Lemma splitCamel_capital low w rest : camelWord w = true ->
  splitCamel low (capital w +:+ rest) = (if low then String " " (capital w) else capital w) +:+ splitCamel true rest.
Proof.
  intros (c & d & s & -> & Hl & Hc & Hs)%camelWord_inv. cbn [capital]. rewrite app_str_cons. cbn [splitCamel].
  destruct (capital_facts c Hl) as (_ & _ & _ & -> & _). rewrite andb_true_r.
  rewrite splitCamel_units by done. destruct low; done.
Qed.

Lemma capital_unsep w : camelWord w = true -> everyChar (fun c => negb (isSeparator c)) (capital w) = true.
Proof.
  intros (c & d & s & -> & Hl & Hc & Hs)%camelWord_inv. cbn [capital everyChar].
  destruct (capital_facts c Hl) as (-> & _). cbn [negb andb].
  apply (everyChar_impl wordUnit (fun c => negb (isSeparator c)) (String d s)); [|exact Hs].
  intros x Hx. by rewrite (proj1 (wordUnit_facts x Hx)).
Qed.

Lemma capital_piece w : camelWord w = true -> piece (capital w) = true /\ toLowerCase (capital w) = w.
Proof.
  intros (c & d & s & -> & Hl & Hc & Hs)%camelWord_inv. unfold piece. cbn [capital everyChar nonempty toLowerCase].
  destruct (capital_facts c Hl) as (_ & -> & _ & _ & ->). split; [|f_equal; by apply (lower_word (String d s))].
  cbn [negb andb]. apply (everyChar_impl wordUnit (fun c => negb (is_space c)) (String d s)); [|exact Hs]. intros x Hx.
  by rewrite (proj1 (proj2 (wordUnit_facts x Hx))).
Qed.

Lemma joined_glued p ps : joined " " (p :: ps) = p +:+ glued (List.map (String " ") ps).
Proof.
  revert p. induction ps as [|q ps IH]; intros p; [cbn; by rewrite string_app_nil_r|].
  change (joined " " (p :: q :: ps)) with (p +:+ String " " (joined " " (q :: ps))). rewrite IH. done.
Qed.

Lemma splitCamel_glued ws : forallb camelWord ws = true ->
  splitCamel true (glued (List.map capital ws)) = glued (List.map (String " ") (List.map capital ws)).
Proof.
  induction ws as [|w ws IH]; [done|]. cbn [forallb List.map glued]. intros [Hw Hws]%andb_true_iff.
  rewrite splitCamel_capital by done. by rewrite IH.
Qed.

Lemma glued_unsep ws : forallb camelWord ws = true -> everyChar (fun c => negb (isSeparator c)) (glued (List.map capital ws)) = true.
Proof.
  induction ws as [|w ws IH]; [done|]. cbn [forallb List.map glued]. intros [Hw Hws]%andb_true_iff.
  rewrite everyChar_app, IH, andb_true_r by done. by apply capital_unsep.
Qed.

Lemma capitals_pieces ws : forallb camelWord ws = true ->
  forallb piece (List.map capital ws) = true /\ List.map toLowerCase (List.map capital ws) = ws.
Proof.
  induction ws as [|w ws IH]; [done|]. cbn [forallb List.map]. intros [[-> ->]%capital_piece [-> ->]%IH]%andb_true_iff. done.
Qed.

Lemma splitWords_spell st ws : forallb (spellable st) ws = true -> splitWords (spell st ws) = ws.
Proof.
  intros H. destruct st as [sep| |]; cbn [spell].
  - rewrite (splitWords_pieces _ ws) by (by apply spell_joined ||
      (apply forallb_forall; rewrite forallb_forall in H; intros x [_ Hx]%H%andb_true_iff; by apply word_piece)).
    rewrite <- (List.map_id ws) at 2. apply map_ext_in. intros w Hw. rewrite forallb_forall in H.
    apply H, andb_true_iff in Hw as [_ [_ Hw]%andb_true_iff]. by apply lower_word.
  - destruct ws as [|w ws]; [done|]. cbn [forallb spellable] in H. apply andb_true_iff in H as [Hw Hws].
    assert (plainWord w = true) as Hp by (by apply andb_true_iff in Hw as [? _]).
    destruct (capitals_pieces ws Hws) as [Hpc Hlow]. rewrite (splitWords_pieces _ (w :: List.map capital ws)).
    + cbn [List.map]. rewrite Hlow. f_equal. apply lower_word. by apply andb_true_iff in Hp as [_ ?].
    + rewrite collapse_word, (collapse_none _ (glued _)) by (done || by apply glued_unsep).
      pose proof Hp as [_ Hu]%andb_true_iff. rewrite splitCamel_units by done. rewrite joined_glued. f_equal.
      destruct w; [done|]. by apply splitCamel_glued.
    + cbn [forallb]. by rewrite word_piece.
  - destruct (capitals_pieces ws H) as [Hpc Hlow]. rewrite (splitWords_pieces _ (List.map capital ws)); [done| |done].
    rewrite collapse_none by (by apply glued_unsep). destruct ws as [|w ws]; [done|]. cbn [forallb spellable] in H.
    apply andb_true_iff in H as [Hw Hws]. cbn [List.map]. rewrite joined_glued. cbn [glued].
    rewrite splitCamel_capital by done. f_equal. by apply splitCamel_glued.
Qed.

(** The convention a name is written in does not matter: written from the same words with
    any of the separators, in camel case or in Pascal case, the name yields those words, and a
    tool that declares nothing gets the same class under every name space. *)
Theorem spelling_is_immaterial st st' ws ns d d' :
  forallb (spellable st) ws = true -> forallb (spellable st') ws = true ->
  splitWords (spell st ws) = ws /\
  mi_readOnly (classifyMcpMethod (mkTool (spell st ws) d None) ns) = mi_readOnly (classifyMcpMethod (mkTool (spell st' ws) d' None) ns).
Proof. intros H H'. split; [by apply splitWords_spell|].
  cbn [classifyMcpMethod td_readOnlyHint td_name mi_readOnly]. by rewrite !splitWords_spell. Qed.

(** ** Counts of an allowlist *)

Lemma lengthZ_countZ {A} (p : A -> bool) l : lengthZ (List.filter p l) = countZ p l.
Proof. induction l as [|x l IH]; [done|]. cbn [List.filter]. rewrite countZ_cons. destruct (p x); unfold lengthZ in *; cbn [length]; lia. Qed.

Lemma countZ_le_lengthZ {A} (p : A -> bool) l : countZ p l <= lengthZ l.
Proof. unfold lengthZ. induction l as [|x l IH]; [done|]. rewrite countZ_cons. cbn [length]. destruct (p x); lia. Qed.

Lemma isOn_readOnly catalog m : NoDup (List.map mi_name catalog) -> In m catalog ->
  isOn (Some (readOnlyMethodNames catalog)) m = mi_readOnly m.
Proof.
  intros Hnd Hin. unfold isOn, readOnlyMethodNames. apply eq_true_iff_eq. rewrite includesWord_In, in_map_iff. split.
  - intros (x & Hx & [Hc Hr]%filter_In). by rewrite <- (NoDup_fmap_In mi_name catalog x m).
  - intros Hr. exists m. split; [done|]. by apply filter_In.
Qed.

(** A connector asked for reading only shows as such. The allowlist a request for reading
    resolves to turns on every method that reads and none that writes, so the badge shows
    exactly when the catalog has a method that writes; and for every allowlist the counts are
    those of the catalog, split in two. *)
Theorem read_request_is_read_only catalog enabled :
  NoDup (List.map mi_name catalog) ->
  let granted := summarizeMethodAccess catalog (Some (readOnlyMethodNames catalog)) in
  let s := summarizeMethodAccess catalog enabled in
  ms_readOnlyEnabled granted = ms_readOnlyTotal granted /\ ms_writeEnabled granted = 0 /\
  (isReadOnlyRestricted catalog (Some (readOnlyMethodNames catalog)) = true <-> exists m, In m catalog /\ mi_readOnly m = false) /\
  ms_enabled s = countZ (isOn enabled) catalog /\ ms_readOnlyTotal s + ms_writeTotal s = ms_total s /\
  ms_writeEnabled s + ms_writeDisabled s = ms_writeTotal s /\ 0 <= ms_writeDisabled s.
Proof.
  intros Hnd granted s. subst granted s. unfold isReadOnlyRestricted. cbn [summarizeMethodAccess ms_readOnlyEnabled ms_readOnlyTotal ms_writeEnabled
    ms_writeTotal ms_enabled ms_total ms_writeDisabled].
  assert (Hro : List.filter (isOn (Some (readOnlyMethodNames catalog))) (List.filter mi_readOnly catalog) = List.filter mi_readOnly catalog).
  { apply forallb_filter_id, forallb_forall. intros m [Hin Hm]%filter_In. by rewrite (isOn_readOnly catalog). }
  assert (Hw : List.filter (isOn (Some (readOnlyMethodNames catalog))) (List.filter (fun m => negb (mi_readOnly m)) catalog) = []).
  { apply filter_nil_iff. intros m [Hin Hm]%filter_In. rewrite (isOn_readOnly catalog) by done. by apply negb_true_iff in Hm. }
  rewrite Hro, Hw. cbn [lengthZ length Z.of_nat]. split_and!; try done.
  - rewrite andb_true_r, Z.gtb_lt, lengthZ_countZ. split.
    + intros H. destruct (List.filter (fun m => negb (mi_readOnly m)) catalog) as [|m l] eqn:E.
      * rewrite <- lengthZ_countZ, E in H. done.
      * exists m. assert (In m (m :: l)) as Hin by (by left). rewrite <- E in Hin. apply filter_In in Hin as [? ?%negb_true_iff]. done.
    + intros (m & Hin & Hm). apply (countZ_pos_in _ _ m); [done|]. by rewrite Hm.
  - rewrite !lengthZ_countZ. clear. induction catalog as [|m l IH]; [done|]. cbn [List.filter].
    destruct (mi_readOnly m); cbn [negb List.filter]; rewrite !countZ_cons; lia.
  - rewrite !lengthZ_countZ. unfold lengthZ. clear. induction catalog as [|m l IH]; [done|]. rewrite !countZ_cons. cbn [length].
    destruct (mi_readOnly m); cbn [negb]; lia.
  - lia.
  - rewrite !lengthZ_countZ. pose proof (countZ_le_lengthZ (isOn enabled) (List.filter (fun m => negb (mi_readOnly m)) catalog)) as H.
    rewrite lengthZ_countZ in H. lia.
Qed.

(** ** Concrete bodies and catalogs *)

(** The units of a text written with apostrophes for its quotes. *)
Definition quoted (s : string) : text := List.map (fun c => if c =? 39 then 34 else c) (units s).

Definition demo_call (name : string) : text :=
  quoted ("{'jsonrpc':'2.0','id':1,'method':'tools/call','params':{'name':'" +:+ name +:+ "','arguments':{}}}").

Example enabled_call_passes : shouldBlockMcpRequest (demo_call "list_issues") [units "list_issues"] = Passes.
Proof. vm_compute. done. Qed.
Example withheld_call_blocked : shouldBlockMcpRequest (demo_call "delete_repo") [units "list_issues"] = NotEnabled (units "delete_repo").
Proof. vm_compute. done. Qed.
Example repeated_key_blocked :
  shouldBlockMcpRequest (quoted "[{'method':'ping','method':'tools/call','params':{'name':'a','name':'b'}}]") [units "a"] = NotEnabled (units "b").
Proof. vm_compute. done. Qed.
Example truncated_body_blocked : shouldBlockMcpRequest (quoted "{'method':'tools/call'") [] = Unparseable.
Proof. vm_compute. done. Qed.

(** A batch inside a batch is an array, which [isRecord] takes for a record without a method: the
    guard passes it whatever it calls. *)
Lemma nested_batch_passes : shouldBlockMcpRequest ([91] ++ [91] ++ demo_call "delete_repo" ++ [93] ++ [93]) [] = Passes.
Proof. vm_compute. done. Qed.

Definition demo_tools : list McpToolDescriptor :=
  [mkTool "typefully_list_drafts" None None; mkTool "typefully_delete_draft" (Some "Deletes") None].

Lemma guess_never_permissive_witness :
  let tool := mkTool "typefully_list_drafts" None None in
  sharedVendorPrefix demo_tools = Some "typefully" /\
  exists ns verb rest, splitWords (td_name tool) = ns :: verb :: rest /\ In verb READ_ONLY_PREFIXES.
Proof.
  split; [vm_compute; done|].
  destruct (guess_never_permissive demo_tools (mkTool "typefully_list_drafts" None None) (or_introl eq_refl) eq_refl) as (_ & _ & H & _).
  destruct H as [(verb & rest & E & Hv)|(ns & verb & rest & E & Hv & _)]; [vm_compute; done| |by exists ns, verb, rest].
  exfalso. vm_compute in E. injection E as <- _. cbn in Hv. repeat (destruct Hv as [Hv|Hv]; [discriminate Hv|]). done.
Defined.

Lemma spelling_is_immaterial_witness :
  spell CamelCase ["list"; "issues"] = "listIssues" /\ spell (Joined "-") ["list"; "issues"] = "list-issues" /\
  splitWords "listIssues" = ["list"; "issues"].
Proof.
  split_and!; [done|done|].
  exact (proj1 (spelling_is_immaterial CamelCase (Joined "-") ["list"; "issues"] None None None eq_refl eq_refl)).
Defined.

Lemma read_request_is_read_only_witness :
  isReadOnlyRestricted (classifyMcpMethods demo_tools) (Some (readOnlyMethodNames (classifyMcpMethods demo_tools))) = true.
Proof.
  apply (read_request_is_read_only (classifyMcpMethods demo_tools) None).
  - vm_compute. repeat constructor; rewrite ?list_elem_of_In; cbn; intuition discriminate.
  - eexists. split; [right; left; reflexivity|]. vm_compute. done.
Defined.
