(* ===== verification/VaultCache.v ===== *)
(** * The decrypted-vault cache

    A model of the module state of
    [packages/server/src/services/egress/substitution.ts] ([vaultCache],
    [vaultInflight], [vaultGeneration]) and of [loadAllSecrets] with the await in
    its middle: requests, the read of the table, the settling of a load, writes to
    the table and locking arrive in any order. A snapshot is what decrypting the
    table's rows yields; [db] is the one its current rows would yield. *)
From Stdlib Require Import ZArith Lia List.
From stdpp Require Import base list.
From S2P Require Import Prelude.

Open Scope Z_scope.

Definition VAULT_CACHE_TTL_MS : Z := 5000.

Section Vault.
Context {S : Type}.

(** A load in flight: the generation captured before it, what its query read. *)
Record Load := mkLoad { l_generation : Z; l_read : option S }.

Inductive Reply := Secrets (s : S) | MasterKeyLocked | LoadFailed.

Record VaultState := mkVault {
  db : S;
  unlocked : bool;
  vaultCache : option (S * Z);
  vaultInflight : option Load;
  vaultGeneration : Z;
  (** requests awaiting the load in flight, and the replies given so far *)
  waiting : list nat;
  replies : list (nat * Reply)
}.

Definition initVault (s : S) : VaultState := mkVault s false None None 0 [] [].

Definition invalidateSecretsVault (v : VaultState) : VaultState :=
  mkVault (db v) (unlocked v) None (vaultInflight v) (vaultGeneration v + 1) (waiting v) (replies v).

Definition reply (r : nat) (a : Reply) (v : VaultState) : VaultState :=
  mkVault (db v) (unlocked v) (vaultCache v) (vaultInflight v) (vaultGeneration v) (waiting v) (replies v ++ [(r, a)]).

Definition await (r : nat) (l : Load) (v : VaultState) : VaultState :=
  mkVault (db v) (unlocked v) (vaultCache v) (Some l) (vaultGeneration v) (waiting v ++ [r]) (replies v).

(** [loadAllSecrets] up to its await, for request [r] at time [now]. *)
Definition loadAllSecrets (r : nat) (now : Z) (v : VaultState) : VaultState :=
  if negb (unlocked v) then reply r MasterKeyLocked (invalidateSecretsVault v)
  else
    let miss :=
      match vaultInflight v with
      | Some l => await r l v
      | None => await r (mkLoad (vaultGeneration v) None) v
      end in
    match vaultCache v with
    | Some (secrets, loadedAt) => if now - loadedAt <? VAULT_CACHE_TTL_MS then reply r (Secrets secrets) v else miss
    | None => miss
    end.

(** The query of the load in flight runs. *)
Definition readVault (v : VaultState) : VaultState :=
  match vaultInflight v with
  | Some l => match l_read l with
              | None => mkVault (db v) (unlocked v) (vaultCache v) (Some (mkLoad (l_generation l) (Some (db v))))
                          (vaultGeneration v) (waiting v) (replies v)
              | Some _ => v
              end
  | None => v
  end.

(** ... the load settles: commit if nothing invalidated it, answer who waits. *)
Definition loadSettled (now : Z) (v : VaultState) : VaultState :=
  match vaultInflight v with
  | Some (mkLoad g (Some secrets)) =>
      mkVault (db v) (unlocked v)
        (if g =? vaultGeneration v then Some (secrets, now) else vaultCache v)
        None (vaultGeneration v) [] (replies v ++ List.map (fun r => (r, Secrets secrets)) (waiting v))
  | _ => v
  end.

Definition loadRejected (v : VaultState) : VaultState :=
  match vaultInflight v with
  | Some _ => mkVault (db v) (unlocked v) (vaultCache v) None (vaultGeneration v) []
                (replies v ++ List.map (fun r => (r, LoadFailed)) (waiting v))
  | None => v
  end.

Inductive VaultEvent :=
| Request (r : nat) (now : Z)
| ReadVault
| LoadSettled (now : Z)
| LoadRejected
(** a write to the [secrets] table with the invalidation every such path makes *)
| WriteSecrets (s : S)
| Lock
(** [bindSecretsVaultToMasterKey]: every unlock invalidates *)
| Unlock.

Definition vaultStep (v : VaultState) (e : VaultEvent) : VaultState :=
  match e with
  | Request r now => loadAllSecrets r now v
  | ReadVault => readVault v
  | LoadSettled now => loadSettled now v
  | LoadRejected => loadRejected v
  | WriteSecrets s =>
      invalidateSecretsVault (mkVault s (unlocked v) (vaultCache v) (vaultInflight v) (vaultGeneration v)
        (waiting v) (replies v))
  | Lock => mkVault (db v) false (vaultCache v) (vaultInflight v) (vaultGeneration v) (waiting v) (replies v)
  | Unlock =>
      invalidateSecretsVault (mkVault (db v) true (vaultCache v) (vaultInflight v) (vaultGeneration v)
        (waiting v) (replies v))
  end.

Definition vaultRun (s : S) (evs : list VaultEvent) : VaultState := fold_left vaultStep evs (initVault s).

(** ** Invariant: what is cached, or about to be, is the table as it is *)

Record vault_inv (v : VaultState) : Prop := {
  vi_cache : forall s t, vaultCache v = Some (s, t) -> s = db v;
  vi_load : forall g s, vaultInflight v = Some (mkLoad g (Some s)) -> g = vaultGeneration v -> s = db v;
  vi_gen : forall l, vaultInflight v = Some l -> l_generation l <= vaultGeneration v
}.

Lemma invalidate_inv v s : vault_inv v ->
  vault_inv (invalidateSecretsVault (mkVault s (unlocked v) (vaultCache v) (vaultInflight v) (vaultGeneration v)
    (waiting v) (replies v))).
Proof.
  intros [Hc Hl Hg]. split; simpl; [done| |].
  - intros g s' E ->. specialize (Hg _ E). simpl in Hg. lia.
  - intros l E. specialize (Hg l E). lia.
Qed.

Lemma vaultStep_inv v e : vault_inv v -> vault_inv (vaultStep v e).
Proof.
  intros Hi. pose proof Hi as [Hc Hl Hg]. destruct e as [r now| |now| |s| |]; simpl.
  - unfold loadAllSecrets. destruct (unlocked v) eqn:Eu; simpl.
    + assert (vault_inv (match vaultInflight v with
        | Some l => await r l v | None => await r (mkLoad (vaultGeneration v) None) v end)) as Hm.
      { destruct (vaultInflight v) as [l|] eqn:El; split; simpl; try done.
        intros l [= <-]. simpl. lia. }
      destruct (vaultCache v) as [[s t]|] eqn:Ec; [|done]. destruct (_ <? _); [|done].
      split; simpl; [rewrite Ec; apply Hc|done|done].
    + destruct (invalidate_inv v (db v) Hi) as [A B C]. split; simpl in *; done.
  - unfold readVault. destruct (vaultInflight v) as [[g [s|]]|] eqn:El; simpl; try done.
    split; simpl; [done| |]; [intros ? ? [= <- <-]; done|]. intros l [= <-]. simpl. by apply (Hg _ eq_refl).
  - unfold loadSettled. destruct (vaultInflight v) as [[g [s|]]|] eqn:El; simpl; try done.
    split; simpl; [|done|done]. intros s' t. destruct (Z.eqb_spec g (vaultGeneration v)); [|apply Hc].
    intros [= <- _]. by apply (Hl g s).
  - unfold loadRejected. destruct (vaultInflight v); [|done]. by split; simpl.
  - by apply invalidate_inv.
  - by split; simpl.
  - destruct (invalidate_inv v (db v) Hi) as [A B C]. split; simpl in *; done.
Qed.

Lemma vaultRun_inv s evs : vault_inv (vaultRun s evs).
Proof.
  unfold vaultRun. assert (vault_inv (initVault s)) as Hi by (by split). revert Hi. generalize (initVault s).
  induction evs as [|e evs IH]; intros v Hv; simpl; [done|]. by apply IH, vaultStep_inv.
Qed.

(** The cache never publishes a stale vault: as long as every write to the table
    invalidates, whatever loads, reads and invalidations interleave, what is cached is
    what the table holds now, so a request answered from the cache gets the current
    secrets, within the time to live, and never while the master key is locked. *)
Theorem cached_vault_current (s : S) (evs : list VaultEvent) (r : nat) (now : Z) (a : Reply) :
  let v := vaultRun s evs in
  replies (loadAllSecrets r now v) = replies v ++ [(r, a)] ->
  (a = MasterKeyLocked /\ unlocked v = false /\ vaultCache (loadAllSecrets r now v) = None) \/
  (a = Secrets (db v) /\ unlocked v = true /\
   exists loadedAt, vaultCache v = Some (db v, loadedAt) /\ now - loadedAt < VAULT_CACHE_TTL_MS).
Proof.
  intros v. pose proof (vaultRun_inv s evs) as Hi. fold v in Hi. unfold loadAllSecrets.
  destruct (unlocked v) eqn:Eu; simpl.
  - assert (forall l, replies (await r l v) = replies v ++ [(r, a)] -> False) as Hno.
    { intros l H. simpl in H. apply (f_equal (@length _)) in H. rewrite length_app in H. simpl in H. lia. }
    destruct (vaultCache v) as [[s' t]|] eqn:Ec; [|destruct (vaultInflight v); intros H; by apply Hno in H].
    pose proof (vi_cache v Hi s' t Ec) as ->. destruct (Z.ltb_spec (now - t) VAULT_CACHE_TTL_MS).
    + simpl. intros [= <-]%app_inv_head. right. split_and!; [done|done|eauto].
    + destruct (vaultInflight v); intros H'; by apply Hno in H'.
  - intros [= <-]%app_inv_head. by left.
Qed.
End Vault.

(** A request made after a write can still be answered with the table from before it: it
    joins a load whose query already ran. *)
Example inflight_load_serves_stale :
  let v := vaultRun 1 [Unlock; Request 0 100; ReadVault; WriteSecrets 2; Request 1 101; LoadSettled 102] in
  replies v = [(0%nat, Secrets 1); (1%nat, Secrets 1)] /\ db v = 2 /\ vaultCache v = None.
Proof. vm_compute. done. Qed.

Lemma cached_vault_current_witness :
  let v := vaultRun 1 [Unlock; Request 0 100; ReadVault; LoadSettled 102] in
  exists loadedAt, vaultCache v = Some (db v, loadedAt) /\ 110 - loadedAt < VAULT_CACHE_TTL_MS.
Proof.
  destruct (cached_vault_current 1 [Unlock; Request 0 100; ReadVault; LoadSettled 102] 1 110 (Secrets 1) eq_refl)
    as [(? & _)|(_ & _ & H)]; [done|exact H].
Defined.
