(* ===== verification/SplitRouting.v ===== *)
(** * Split routing through the tunnel

    A model of [packages/server/src/services/sandbox/tunnel/split-routing.ts]: which
    hosts a container must reach through the egress proxy. The rows of the
    [secrets] table and the run's descriptors are arguments; parsing a URL is the
    platform's and a parameter. *)
From Stdlib Require Import ZArith Lia String List Bool.
From stdpp Require Import base list gmap strings.
From S2P Require Import Prelude JsString Credentials Substitution.

Open Scope string_scope.
Open Scope list_scope.
Open Scope Z_scope.

Record TunnelHostPolicy := mkPolicy { proxiedHosts : list string; proxyEverything : bool }.

Record SecretRow := mkRow { allowed_hosts : option (list string); allow_all_hosts : bool }.

Inductive McpDescriptor := HttpDescriptor (url : string) | StdioDescriptor.

Section Routing.
(** [new URL(url).hostname]; [None] when it throws. *)
Context (urlHostname : string -> option string).

(** [into.add(host)] on a set in insertion order. *)
Definition addHost (into : list string) (raw : string) : list string :=
  let host := toLowerCase (trim raw) in
  if (String.length host =? 0)%nat then into
  else if bool_decide (host ∈ into) then into else into ++ [host].

Definition addRow (into : list string) (row : SecretRow) : list string :=
  fold_left addHost (default [] (allowed_hosts row)) into.

Definition addDescriptor (into : list string) (d : McpDescriptor) : list string :=
  match d with
  | StdioDescriptor => into
  | HttpDescriptor u => match urlHostname u with Some h => addHost into h | None => into end
  end.

(** [Array.prototype.sort()] compares code units. *)
Definition unitOrder (a b : string) : Z :=
  match String.compare a b with Lt => -1 | Eq => 0 | Gt => 1 end.

Definition buildTunnelHostPolicy (secrets : list SecretRow) (descriptors : list McpDescriptor) : TunnelHostPolicy :=
  if existsb allow_all_hosts secrets then mkPolicy [] true
  else
    let hosts := fold_left addRow secrets [] in
    let hosts := fold_left addDescriptor descriptors hosts in
    mkPolicy (js_sort unitOrder hosts) false.

Definition hostNeedsProxy (policy : TunnelHostPolicy) (host : string) : bool :=
  if proxyEverything policy then true else hostMatchesAllowedHosts host (proxiedHosts policy).

(** ** The hosts collected *)

Lemma addHost_In into raw x :
  In x (addHost into raw) <-> In x into \/ (x = toLowerCase (trim raw) /\ x <> "").
Proof.
  unfold addHost. destruct (Nat.eqb_spec (String.length (toLowerCase (trim raw))) 0) as [E|E].
  - split; [auto|]. intros [?|[-> H]]; [done|]. destruct (toLowerCase (trim raw)); [done|]. simpl in E. lia.
  - assert (toLowerCase (trim raw) <> "") as Hne by (intros H; rewrite H in E; done).
    case_bool_decide as Hin; [rewrite list_elem_of_In in Hin|rewrite in_app_iff; simpl].
    + split; [auto|]. intros [?|[-> _]]; done.
    + split; [intros [?|[<-|[]]]; auto|]. intros [?|[-> _]]; auto.
Qed.

Lemma addRow_In into row x : In x (addRow into row) <->
  In x into \/ exists raw, In raw (default [] (allowed_hosts row)) /\ x = toLowerCase (trim raw) /\ x <> "".
Proof.
  unfold addRow. revert into. induction (default [] (allowed_hosts row)) as [|raw l IH]; intros into; cbn [fold_left].
  { simpl. naive_solver. }
  rewrite IH, addHost_In. simpl. naive_solver.
Qed.

Lemma addDescriptor_In into d x : In x (addDescriptor into d) <->
  In x into \/ exists u h, d = HttpDescriptor u /\ urlHostname u = Some h /\ x = toLowerCase (trim h) /\ x <> "".
Proof.
  destruct d as [u|]; simpl; [|naive_solver]. destruct (urlHostname u) as [h|] eqn:E; [rewrite addHost_In|]; naive_solver.
Qed.

Lemma fold_In {A} (add : list string -> A -> list string) (P : A -> string -> Prop) l into x :
  (forall into a x, In x (add into a) <-> In x into \/ P a x) ->
  In x (fold_left add l into) <-> In x into \/ exists a, In a l /\ P a x.
Proof.
  intros H. revert into. induction l as [|a l IH]; intros into; cbn [fold_left]; [simpl; naive_solver|].
  rewrite IH, H. simpl. naive_solver.
Qed.

(** Everything the policy can be asked to match against, before normalisation. *)
Definition policySource (secrets : list SecretRow) (descriptors : list McpDescriptor) (raw : string) : Prop :=
  (exists row, In row secrets /\ In raw (default [] (allowed_hosts row))) \/
  (exists u, In (HttpDescriptor u) descriptors /\ urlHostname u = Some raw).

Lemma proxiedHosts_In secrets descriptors x : existsb allow_all_hosts secrets = false ->
  In x (proxiedHosts (buildTunnelHostPolicy secrets descriptors)) <->
  exists raw, policySource secrets descriptors raw /\ x = toLowerCase (trim raw) /\ x <> "".
Proof.
  intros E. unfold buildTunnelHostPolicy. rewrite E. simpl. rewrite js_sort_In.
  rewrite (fold_In _ _ _ _ _ addDescriptor_In), (fold_In _ _ _ _ _ addRow_In). unfold policySource. simpl.
  naive_solver.
Qed.

Lemma entryMatches_blank target raw : toLowerCase (trim raw) = "" -> entryMatches target raw = false.
Proof. intros H. unfold entryMatches. by rewrite H. Qed.

Lemma hostNeedsProxy_iff (secrets : list SecretRow) (descriptors : list McpDescriptor) (h : string) :
  hostNeedsProxy (buildTunnelHostPolicy secrets descriptors) h = true <->
  (exists row, In row secrets /\ allow_all_hosts row = true) \/
  (exists row, In row secrets /\ hostMatchesAllowedHosts h (default [] (allowed_hosts row)) = true) \/
  (exists u hn, In (HttpDescriptor u) descriptors /\ urlHostname u = Some hn /\
     hostMatchesAllowedHosts h [hn] = true).
Proof.
  unfold hostNeedsProxy. destruct (existsb allow_all_hosts secrets) eqn:Ea.
  - assert (proxyEverything (buildTunnelHostPolicy secrets descriptors) = true) as ->
      by (unfold buildTunnelHostPolicy; by rewrite Ea).
    apply existsb_exists in Ea. split; [auto|done].
  - assert (proxyEverything (buildTunnelHostPolicy secrets descriptors) = false) as ->
      by (unfold buildTunnelHostPolicy; by rewrite Ea).
    rewrite existsb_false_iff in Ea. setoid_rewrite hostMatches_iff.
    setoid_rewrite proxiedHosts_In; [|by rewrite existsb_false_iff]. set (t := toLowerCase (trim h)). split.
    + intros [Hne (x & (raw & Hsrc & -> & Hx) & Hm)]. rewrite entryMatches_normal in Hm. right.
      destruct Hsrc as [(row & Hr & Hin)|(u & Hu & Hh)]; [left|right].
      * exists row. split; [done|]. split; [done|]. by exists raw.
      * exists u, raw. split_and!; [done|done|done|]. exists raw. split; [by left|done].
    + assert (forall raw, policySource secrets descriptors raw -> entryMatches t raw = true ->
        exists x, (exists raw0, policySource secrets descriptors raw0 /\ x = toLowerCase (trim raw0) /\ x <> "") /\
                  entryMatches t x = true) as Hx.
      { intros raw Hs Hm. exists (toLowerCase (trim raw)). rewrite entryMatches_normal. split; [|done].
        exists raw. split_and!; [done|done|]. intros Hb. by rewrite entryMatches_blank in Hm. }
      intros [(row & Hr & Hall)|[(row & Hr & Hne & raw & Hin & Hm)|(u & hn & Hu & Hh & Hne & raw & [<-|[]] & Hm)]].
      * by rewrite (Ea row Hr) in Hall.
      * split; [done|]. apply (Hx raw); [left; eauto|done].
      * split; [done|]. apply (Hx hn); [right; eauto|done].
Qed.

(** "Must this host be proxied" and "may a secret be sent to this host" are one
    question: a host is proxied exactly when some secret is open to all hosts, or its
    [allowed_hosts] cover the host by the very rule the proxy substitutes by, or the host
    is that of a connector whose method policy the proxy enforces. *)
Theorem proxied_iff_checked (secrets : list SecretRow) (descriptors : list McpDescriptor) (h : string) :
  hostNeedsProxy (buildTunnelHostPolicy secrets descriptors) h = true <->
  (exists row, In row secrets /\ allow_all_hosts row = true) \/
  (exists row, In row secrets /\ hostMatchesAllowedHosts h (default [] (allowed_hosts row)) = true) \/
  (exists u hn, In (HttpDescriptor u) descriptors /\ urlHostname u = Some hn /\
     hostMatchesAllowedHosts h [hn] = true).
Proof. apply hostNeedsProxy_iff. Qed.

(** The rows of the vault, as the policy's query reads them. *)
Definition vaultRows (v : Vault) : list SecretRow :=
  List.map (fun kv => mkRow (Some (allowedHosts (snd kv))) (allowAllHosts (snd kv))) (map_to_list v).

(** No secret is lost to direct routing: a host the proxy would send some stored
    secret to is routed through the proxy, whatever connectors the run has. *)
Theorem substitutable_host_is_proxied (v : Vault) (descriptors : list McpDescriptor) (name h : string) :
  checkAccess h v name = substitute ->
  hostNeedsProxy (buildTunnelHostPolicy (vaultRows v) descriptors) h = true.
Proof.
  intros Hc. apply checkAccess_granted in Hc as (s & Hs & Hp).
  assert (In (mkRow (Some (allowedHosts s)) (allowAllHosts s)) (vaultRows v)) as Hrow.
  { apply in_map_iff. exists (name, s). split; [done|]. apply list_elem_of_In. by apply elem_of_map_to_list. }
  unfold permitted in Hp. apply orb_true_iff in Hp as [Ha|Hm].
  - unfold hostNeedsProxy, buildTunnelHostPolicy.
    assert (existsb allow_all_hosts (vaultRows v) = true) as ->; [|done]. apply existsb_exists. eauto.
  - apply negb_true_iff, orb_false_iff in Hm as [_ Hm]. apply negb_false_iff in Hm.
    apply hostNeedsProxy_iff. right. left. eauto.
Qed.
End Routing.

Lemma substitutable_host_is_proxied_witness :
  hostNeedsProxy (buildTunnelHostPolicy (fun u => Some u)
    (vaultRows {["TOKEN" := mkSecret "TOKEN" "v" [" *.Sentry.io "] false false]}) [StdioDescriptor]) "api.sentry.io" = true.
Proof.
  apply (substitutable_host_is_proxied (fun u => Some u)
    {["TOKEN" := mkSecret "TOKEN" "v" [" *.Sentry.io "] false false]} [StdioDescriptor] "TOKEN" "api.sentry.io").
  vm_compute. reflexivity.
Defined.
