(* ===== verification/NetGuard.v ===== *)
(** * The destination guard of the egress proxy

    A model of [packages/server/src/services/egress/net-guard.ts]. [isIP] of the platform is
    modelled by the textual grammar of IPv4 and IPv6 addresses, with an optional zone; the
    name lookup of [resolveGuardedAddress] is a parameter. [Number] is applied by the code to
    runs of decimal digits only, and is modelled on those. *)
From Stdlib Require Import ZArith Lia Ascii String List Bool.
From stdpp Require Import base list strings option.
From S2P Require Import Prelude JsString JsNumber.

Open Scope string_scope.
Open Scope list_scope.
Open Scope Z_scope.

Definition isZoneChar (c : ascii) : bool :=
  isDigit c || ((97 <=? code c) && (code c <=? 122)) || ((65 <=? code c) && (code c <=? 90))
  || (code c =? 45) || (code c =? 46) || (code c =? 58).

(** ** isIP *)

Definition isOctet (p : string) : bool :=
  nonempty p && everyChar isDigit p && (String.length p <=? 3)%nat && (readDigits 10 0 p <=? 255)
  && ((String.length p =? 1)%nat || negb (startsWith p "0")).

Definition isIPv4 (s : string) : bool :=
  let parts := split_on "." s in (length parts =? 4)%nat && forallb isOctet parts.

(** [s.split('::')]. *)
Fixpoint splitDouble (s : string) : list string :=
  match s with
  | EmptyString => [""]
  | String c s1 =>
      match s1 with
      | String d s2 =>
          if Ascii.eqb c ":" && Ascii.eqb d ":" then "" :: splitDouble s2
          else match splitDouble s1 with [] => [] | h :: t => String c h :: t end
      | EmptyString => match splitDouble s1 with [] => [] | h :: t => String c h :: t end
      end
  end.

Definition isGroup (p : string) : bool := nonempty p && (String.length p <=? 4)%nat && everyChar isHex p.

(** How many 16-bit groups a run of colon-separated tokens stands for. *)
Fixpoint countTokens (quadAllowed : bool) (ts : list string) : option Z :=
  match ts with
  | [] => Some 0
  | [t] => if isGroup t then Some 1 else if quadAllowed && isIPv4 t then Some 2 else None
  | t :: ts => if isGroup t then n ← countTokens quadAllowed ts; Some (n + 1) else None
  end.

Definition countPart (quadAllowed : bool) (part : string) : option Z :=
  if String.eqb part "" then Some 0 else countTokens quadAllowed (split_on ":" part).

Definition isIPv6Body (s : string) : bool :=
  match splitDouble s with
  | [h] => match countPart true h with Some n => n =? 8 | None => false end
  | [h; t] => match countPart false h, countPart true t with Some n, Some m => n + m <=? 7 | _, _ => false end
  | _ => false
  end.

Definition isIPv6 (s : string) : bool :=
  match split_on "%" s with
  | [body] => isIPv6Body body
  | [body; zone] => isIPv6Body body && nonempty zone && everyChar isZoneChar zone
  | _ => false
  end.

Definition isIP (s : string) : Z := if isIPv4 s then 4 else if isIPv6 s then 6 else 0.

(** ** The guard *)

Definition ipv4Octets (address : string) : option (Z * Z * Z * Z) :=
  match split_on "." address with
  | [p0; p1; p2; p3] =>
      match Number p0, Number p1, Number p2, Number p3 with
      | Some a, Some b, Some c, Some d =>
          if existsb (fun n => (n <? 0) || (n >? 255)) [a; b; c; d] then None else Some (a, b, c, d)
      | _, _, _, _ => None
      end
  | _ => None
  end.

(** The text up to and with the last colon, and the rest. *)
Fixpoint splitLastColon (s : string) : option (string * string) :=
  match s with
  | EmptyString => None
  | String c s =>
      match splitLastColon s with
      | Some (p, r) => Some (String c p, r)
      | None => if Ascii.eqb c ":" then Some (":", s) else None
      end
  end.

(** [/^(.*:)(\d+\.\d+\.\d+\.\d+)$/]. *)
Definition matchDotted (s : string) : option (string * string) :=
  match splitLastColon s with
  | Some (p, r) =>
      let parts := split_on "." r in
      if (length parts =? 4)%nat && forallb (fun x => nonempty x && everyChar isDigit x) parts then Some (p, r) else None
  | None => None
  end.

Definition parseGroup (h : string) : option Z :=
  if nonempty h && (String.length h <=? 4)%nat && everyChar isLowerHex h then Some (readDigits 16 0 h) else None.

(** The groups of one side of [::]; [None] when one is not a number. *)
Definition groups (part : string) : option (list Z) :=
  if String.eqb part "" then Some [] else mapM parseGroup (split_on ":" part).

(** A trailing dotted quad folded into two groups. *)
Definition foldQuad (address : string) : option string :=
  match matchDotted address with
  | Some (prefix, quad) =>
      o ← ipv4Octets quad;
      let '(a, b, c, d) := o in
      Some (prefix +:+ toString 16 (Z.lor (Z.shiftl a 8) b) +:+ ":" +:+ toString 16 (Z.lor (Z.shiftl c 8) d))
  | None => Some address
  end.

(** [::] expanded. *)
Definition expand (v6 : string) : option (list Z) :=
  match splitDouble v6 with
  | [h] => head ← groups h; if (8 - Z.of_nat (length head)) =? 0 then Some head else None
  | [h; t] =>
      head ← groups h;
      tail ← groups t;
      let zeros := 8 - Z.of_nat (length head) - Z.of_nat (length tail) in
      if zeros <? 1 then None else Some (head ++ replicate (Z.to_nat zeros) 0 ++ tail)
  | _ => None
  end.

Definition ipv6Hextets (address : string) : option (list Z) := v6 ← foldQuad address; expand v6.

Definition hextet (h : list Z) (i : nat) : Z := nth i h 0.

Definition embeddedIpv4 (h : list Z) : string :=
  toString 10 (Z.shiftr (hextet h 6) 8) +:+ "." +:+ toString 10 (Z.land (hextet h 6) 255) +:+ "."
  +:+ toString 10 (Z.shiftr (hextet h 7) 8) +:+ "." +:+ toString 10 (Z.land (hextet h 7) 255).

Definition zeroUpTo (h : list Z) (n : nat) : bool := forallb (fun g => g =? 0) (take n h).

Definition carriesIpv4 (h : list Z) : bool :=
  (zeroUpTo h 5 && ((hextet h 5 =? 65535) || (hextet h 5 =? 0)))
  || (zeroUpTo h 4 && (hextet h 4 =? 65535) && (hextet h 5 =? 0))
  || ((hextet h 0 =? 100) && (hextet h 1 =? 65435) && forallb (fun g => g =? 0) (take 4 (drop 2 h))).

Definition blockedOctets (o : Z * Z * Z * Z) : bool :=
  let '(a, b, _, _) := o in
  if a =? 0 then true
  else if a =? 127 then true
  else if a =? 10 then true
  else if (a =? 172) && (b >=? 16) && (b <=? 31) then true
  else if (a =? 192) && (b =? 168) then true
  else if (a =? 169) && (b =? 254) then true
  else if (a =? 100) && (b >=? 64) && (b <=? 127) then true
  else false.

Definition beforeZone (address : string) : string := hd "" (split_on "%" (toLowerCase address)).

(** The call for an embedded address is on a dotted quad, which makes no further call: two
    levels are all there are. *)
Fixpoint blockedAt (depth : nat) (address : string) : bool :=
  match depth with
  | O => false
  | S depth =>
      if isIP address =? 0 then false
      else if isIP address =? 6 then
        match ipv6Hextets (beforeZone address) with
        | None => true
        | Some h =>
            if zeroUpTo h 7 && ((hextet h 7 =? 0) || (hextet h 7 =? 1)) then true
            else if carriesIpv4 h then blockedAt depth (embeddedIpv4 h)
            else if Z.land (hextet h 0) 65472 =? 65152 then true
            else if Z.land (hextet h 0) 65024 =? 64512 then true
            else false
        end
      else match ipv4Octets address with None => false | Some o => blockedOctets o end
  end.

Definition isBlockedEgressAddress (address : string) : bool := blockedAt 2 address.

Definition bareHost (host : string) : string :=
  if startsWith host "[" && endsWith host "]" then take_str (String.length host - 2) (slice_from 1 host) else host.

(** [s.replace(/\.$/, '')]. *)
Definition dropTrailingDot (s : string) : string :=
  if endsWith s "." then take_str (String.length s - 1) s else s.

Inductive GuardOutcome := Dial (address : string) | BlockedTarget (host address : string) | LookupFailed.

(** [lookup] is the platform's name lookup. *)
Definition resolveGuardedAddress (lookup : string -> option string) (isBlocked : string -> bool) (host : string) : GuardOutcome :=
  let bare := bareHost host in
  if negb (isIP bare =? 0) then
    if isBlocked bare then BlockedTarget host bare else Dial bare
  else match lookup bare with
       | None => LookupFailed
       | Some address => if isBlocked address then BlockedTarget host address else Dial address
       end.

Definition isBlockedEgressHost (host : string) : bool :=
  let bare := bareHost host in
  if negb (isIP bare =? 0) then isBlockedEgressAddress bare
  else
    let lower := dropTrailingDot (toLowerCase bare) in
    String.eqb lower "localhost" || endsWith lower ".localhost".

Record SelfEndpoint := mkSelf { self_host : string; self_port : Z }.

Definition isSelfEndpoint (host : string) (port : Z) (self : option SelfEndpoint) : bool :=
  match self with
  | None => false
  | Some s =>
      if negb (port =? self_port s) then false
      else String.eqb (dropTrailingDot (toLowerCase host)) (dropTrailingDot (toLowerCase (self_host s)))
  end.

Example guard_metadata :
  List.map isBlockedEgressAddress ["169.254.169.254"; "8.8.8.8"; "::ffff:127.0.0.1"; "::FFFF:7f00:1"; "0:0:0:0:0:ffff:8.8.8.8";
    "fe80::1%eth0"; "2606:4700::1111"; "64:ff9b::10.0.0.1"; "::1"; "not-an-ip"]
  = [true; false; true; true; false; true; false; true; true; false].
Proof. vm_compute. reflexivity. Qed.

(** ** Text lemmas *)

Lemma lower_app a b : toLowerCase (a +:+ b) = toLowerCase a +:+ toLowerCase b.
Proof. induction a as [|x a IH]; [done|]. rewrite !app_str_cons. cbn. rewrite IH. done. Qed.

Fixpoint joinOn (c : ascii) (ts : list string) : string :=
  match ts with
  | [] => ""
  | [t] => t
  | t :: ts => t +:+ String c (joinOn c ts)
  end.

Lemma split_on_app c a b : has_char c a = false -> split_on c (a +:+ String c b) = a :: split_on c b.
Proof.
  induction a as [|x a IH]; cbn [has_char].
  - intros _. change ("" +:+ String c b) with (String c b). cbn [split_on].
    destruct (split_on_nonempty c b) as (h & t & ->). by rewrite Ascii.eqb_refl.
  - intros [Hx Ha]%orb_false_iff. rewrite app_str_cons. cbn [split_on]. by rewrite (IH Ha), Hx.
Qed.

Lemma split_join c ts : ts <> [] -> Forall (fun t => has_char c t = false) ts -> split_on c (joinOn c ts) = ts.
Proof.
  intros Hne H. induction H as [|t ts Ht H IH]; [done|]. destruct ts as [|t' ts]; [exact (split_on_no_char c t Ht)|].
  change (joinOn c (t :: t' :: ts)) with (t +:+ String c (joinOn c (t' :: ts))).
  rewrite split_on_app by done. f_equal. by apply IH.
Qed.

(** No [::] inside and no colon at the end. *)
Fixpoint single (s : string) : bool :=
  match s with
  | EmptyString => true
  | String c s1 =>
      if Ascii.eqb c ":" then match s1 with String d _ => negb (Ascii.eqb d ":") && single s1 | EmptyString => false end
      else single s1
  end.

Lemma splitDouble_nonempty s : exists h t, splitDouble s = h :: t.
Proof.
  induction s as [|c s IH]; [by eexists _, _|]. destruct s as [|d s]; [by eexists _, _|].
  cbn [splitDouble]. destruct (Ascii.eqb c ":" && Ascii.eqb d ":"); [by eexists _, _|].
  destruct IH as (h & t & E). cbn [splitDouble] in E. rewrite E. by eexists _, _.
Qed.

Lemma splitDouble_step c s : (forall d s', s = String d s' -> Ascii.eqb c ":" && Ascii.eqb d ":" = false) ->
  forall h t, splitDouble s = h :: t -> splitDouble (String c s) = String c h :: t.
Proof.
  intros Hc h t E. destruct s as [|d s].
  - cbn in *. by injection E as <- <-.
  - cbn [splitDouble] in *. rewrite (Hc d s eq_refl), E. done.
Qed.

Lemma splitDouble_single s : single s = true -> splitDouble s = [s].
Proof.
  induction s as [|c s IH]; [done|]. cbn [single]. intros H. apply splitDouble_step.
  - intros d s' ->. destruct (Ascii.eqb c ":"); [|done]. apply andb_true_iff in H as [H _]. by apply negb_true_iff in H.
  - apply IH. destruct (Ascii.eqb c ":"); [|done]. destruct s; [done|]. by apply andb_true_iff in H as [_ H].
Qed.

Lemma splitDouble_app s t : single s = true -> splitDouble (s +:+ "::" +:+ t) = s :: splitDouble t.
Proof.
  induction s as [|c s IH]; [done|]. cbn [single]. intros H. rewrite app_str_cons. apply splitDouble_step.
  - intros d s' E. destruct s as [|d' s].
    + injection E as <- _. destruct (Ascii.eqb c ":"); done.
    + rewrite app_str_cons in E. injection E as <- _. destruct (Ascii.eqb c ":"); [|done].
      apply andb_true_iff in H as [H _]. by apply negb_true_iff in H.
  - apply IH. destruct (Ascii.eqb c ":"); [|done]. destruct s; [done|]. by apply andb_true_iff in H as [_ H].
Qed.

(** A token between colons. *)
Definition token (t : string) : Prop := nonempty t = true /\ has_char ":" t = false.

Lemma single_token t s : token t -> (s = "" \/ exists s', s = String ":" s' /\ single s = true) -> single (t +:+ s) = true.
Proof.
  intros [Hn Hc] Hs. induction t as [|x t IH]; [done|]. cbn in Hc. apply orb_false_iff in Hc as [Hx Hc].
  rewrite app_str_cons. cbn [single]. rewrite Hx. destruct t as [|y t]; [destruct Hs as [-> |(s' & _ & H)]; done|]. by apply IH.
Qed.

Lemma joinOn_nonempty ts : ts <> [] -> Forall token ts -> exists x s, joinOn ":" ts = String x s /\ Ascii.eqb x ":" = false.
Proof.
  intros Hne H. destruct H as [|t ts [Hn Hc] _]; [done|]. destruct t as [|x t]; [done|].
  cbn in Hc. apply orb_false_iff in Hc as [Hx _]. destruct ts; cbn [joinOn]; rewrite ?app_str_cons; eauto.
Qed.

Lemma single_join ts : Forall token ts -> single (joinOn ":" ts) = true.
Proof.
  intros H. induction H as [|t ts Ht H IH]; [done|]. destruct ts as [|t' ts].
  - cbn. rewrite <- (string_app_nil_r t). apply single_token; [done|by left].
  - change (joinOn ":" (t :: t' :: ts)) with (t +:+ String ":" (joinOn ":" (t' :: ts))).
    apply single_token; [done|]. right. eexists. split; [done|].
    destruct (joinOn_nonempty (t' :: ts)) as (x & s & E & Hx); [done|done|]. rewrite E in *.
    change (negb (Ascii.eqb x ":") && single (String x s) = true). by rewrite Hx, IH.
Qed.

(** ** Tokens *)

Lemma hex_lower c : isHex c = true -> isLowerHex (lower_ascii c) = true /\ digitValue (lower_ascii c) = digitValue c.
Proof. destruct c as [[] [] [] [] [] [] [] []]; vm_compute; intros H; try discriminate H; done. Qed.

Lemma digit_lower c : isDigit c = true -> lower_ascii c = c.
Proof. destruct c as [[] [] [] [] [] [] [] []]; vm_compute; intros H; try discriminate H; done. Qed.

Lemma length_lower s : String.length (toLowerCase s) = String.length s.
Proof. induction s; cbn; [done|]. by f_equal. Qed.

Lemma group_lower g : everyChar isHex g = true ->
  everyChar isLowerHex (toLowerCase g) = true /\ forall acc, readDigits 16 acc (toLowerCase g) = readDigits 16 acc g.
Proof.
  induction g as [|c g IH]; [done|]. cbn. intros [Hc Hg]%andb_true_iff. destruct (hex_lower c Hc) as [H1 H2].
  destruct (IH Hg) as [H3 H4]. split; [by rewrite H1|]. intros acc. by rewrite H2, H4.
Qed.

Lemma isGroup_spec g : isGroup g = true ->
  token g /\ has_char "." g = false /\ has_char "%" g = false /\ parseGroup (toLowerCase g) = Some (readDigits 16 0 g).
Proof.
  unfold isGroup. rewrite !andb_true_iff. intros ((Hn & Hl) & Hh). destruct (group_lower g Hh) as [H1 H2].
  split_and!; [split; [done|]| | |]; try (by apply (everyChar_no_char isHex)).
  unfold parseGroup. rewrite length_lower, Hl, H1, H2. destruct g; done.
Qed.

Lemma token_lower g : token g -> token (toLowerCase g).
Proof.
  intros [Hn Hc]. split; [destruct g; done|]. clear Hn. induction g as [|c g IH]; [done|]. cbn in *.
  apply orb_false_iff in Hc as [Hc Hg]. rewrite (IH Hg), orb_false_r.
  revert Hc. clear. destruct c as [[] [] [] [] [] [] [] []]; done.
Qed.

(** Facts about small numbers, by enumeration. *)
Fixpoint below (k : nat) (start : Z) (f : Z -> bool) : bool :=
  match k with O => true | S k => f start && below k (start + 1) f end.

Lemma below_spec k f : forall start, below k start f = true -> forall n, start <= n < start + Z.of_nat k -> f n = true.
Proof.
  induction k as [|k IH]; intros start H n Hn; [lia|]. cbn [below] in H. apply andb_true_iff in H as [H1 H2].
  destruct (Z.eq_dec n start) as [-> |]; [done|]. apply (IH (start + 1)); [done|lia].
Qed.

Definition octetFacts (n : Z) : bool :=
  let s := toString 10 n in
  isOctet s && everyChar isDigit s && nonempty s && (match Number s with Some m => m =? n | None => false end).

Lemma octet_facts n : 0 <= n <= 255 -> octetFacts n = true.
Proof.
  intros Hn. apply (below_spec (Z.to_nat 256) octetFacts 0); [vm_compute; reflexivity|]. rewrite Z2Nat.id; lia.
Qed.

Lemma octet_spec n : 0 <= n <= 255 -> let s := toString 10 n in
  isOctet s = true /\ everyChar isDigit s = true /\ nonempty s = true /\ Number s = Some n.
Proof.
  intros Hn. pose proof (octet_facts n Hn) as H. unfold octetFacts in H. rewrite !andb_true_iff in H.
  destruct H as (((H1 & H2) & H3) & H4). split_and!; [done|done|done|].
  destruct (Number (toString 10 n)) as [m|]; [|done]. apply Z.eqb_eq in H4. by rewrite H4.
Qed.

(** ** Hexadecimal round trip *)

Lemma toString16_spec n : 0 <= n < 65536 ->
  token (toString 16 n) /\ parseGroup (toString 16 n) = Some n.
Proof.
  intros Hn. unfold toString. destruct (print_read 16 (ltac:(lia)) 16 n "") as (H1 & H2 & H3); [change (16 ^ Z.of_nat 16) with (2^64); lia|].
  specialize (H1 ltac:(done)). specialize (H2 eq_refl). specialize (H3 4%nat ltac:(done) ltac:(lia) ltac:(change (16 ^ Z.of_nat 4) with 65536; lia)).
  set (s := printDigits 16 16 n "") in *. clearbody s. cbn in H3.
  assert (nonempty s = true) as Hne by (destruct s; [cbn in H3; lia|done]).
  split; [split; [done|by apply (everyChar_no_char isLowerHex)]|].
  unfold parseGroup. rewrite Hne, H2. destruct (Nat.leb_spec (String.length s) 4); [|lia]. cbn. by rewrite H1.
Qed.

(** ** Bit operations as arithmetic *)

Lemma lor_bytes a b : 0 <= a -> 0 <= b < 256 -> Z.lor (Z.shiftl a 8) b = a * 256 + b.
Proof.
  intros Ha Hb. rewrite Z.shiftl_mul_pow2 by lia. change (2 ^ 8) with 256.
  rewrite <- Z.lxor_lor, <- Z.add_nocarry_lxor; [done| |];
    apply Z.bits_inj'; intros i Hi; rewrite Z.land_spec, Z.bits_0; change 256 with (2 ^ 8);
    (destruct (Z.lt_ge_cases i 8); [rewrite Z.mul_pow2_bits_low by lia; done|]);
    rewrite (Z.bits_above_log2 b i), ?andb_false_r; try done; try lia;
    (destruct (Z.eq_dec b 0) as [-> |]; [cbn; lia|apply Z.log2_lt_pow2; [lia|]];
     apply Z.lt_le_trans with (2 ^ 8); [lia|apply Z.pow_le_mono_r; lia]).
Qed.

Lemma land_high mask k n : mask = Z.ldiff (Z.ones 16) (Z.ones k) -> 0 <= k -> 0 <= n < 65536 ->
  Z.land n mask = n / 2 ^ k * 2 ^ k.
Proof.
  intros -> Hk Hn. transitivity (Z.ldiff (Z.land n (Z.ones 16)) (Z.ones k)).
  - apply Z.bits_inj'. intros i _. rewrite !Z.land_spec, !Z.ldiff_spec, Z.land_spec. by rewrite andb_assoc.
  - rewrite Z.land_ones, Z.mod_small, Z.ldiff_ones_r by (try lia; change (2 ^ 16) with 65536; lia).
    by rewrite Z.shiftl_mul_pow2, Z.shiftr_div_pow2.
Qed.

Lemma linkLocal_prefix n : 0 <= n < 65536 -> (Z.land n 65472 =? 65152) = (n / 64 =? 1018).
Proof.
  intros Hn. rewrite (land_high 65472 6) by (reflexivity || lia). change (2 ^ 6) with 64.
  destruct (Z.eqb_spec (n / 64 * 64) 65152), (Z.eqb_spec (n / 64) 1018); done || lia.
Qed.

Lemma uniqueLocal_prefix n : 0 <= n < 65536 -> (Z.land n 65024 =? 64512) = (n / 512 =? 126).
Proof.
  intros Hn. rewrite (land_high 65024 9) by (reflexivity || lia). change (2 ^ 9) with 512.
  destruct (Z.eqb_spec (n / 512 * 512) 64512), (Z.eqb_spec (n / 512) 126); done || lia.
Qed.

Ltac forall_inv :=
  repeat match goal with
  | H : Forall _ (_ :: _) |- _ => inversion_clear H
  | H : Forall _ [] |- _ => clear H
  | H : _ /\ _ |- _ => destruct H
  end.

(** ** Dotted quads *)

Definition Quad : Type := Z * Z * Z * Z.
Definition octets (q : Quad) : list Z := let '(a, b, c, d) := q in [a; b; c; d].
Definition quad_ok (q : Quad) : Prop := Forall (fun n => 0 <= n <= 255) (octets q).
Definition quadText (q : Quad) : string := joinOn "." (List.map (toString 10) (octets q)).

Lemma quad_tokens q : quad_ok q -> Forall (fun s => isOctet s = true /\ everyChar isDigit s = true /\ nonempty s = true)
  (List.map (toString 10) (octets q)).
Proof.
  intros H. apply Forall_map. eapply List.Forall_impl; [|exact H]. intros n Hn. cbn. destruct (octet_spec n Hn) as (? & ? & ? & _). done.
Qed.

Lemma quad_split q : quad_ok q -> split_on "." (quadText q) = List.map (toString 10) (octets q).
Proof.
  intros Hq. apply split_join; [by destruct q as [[[]]]|]. eapply List.Forall_impl; [|by apply quad_tokens].
  intros s (_ & Hd & _). by apply (everyChar_no_char isDigit).
Qed.

Lemma quad_isIPv4 q : quad_ok q -> isIPv4 (quadText q) = true.
Proof.
  intros Hq. unfold isIPv4. rewrite quad_split by done. pose proof (quad_tokens q Hq) as H.
  destruct q as [[[a b] c] d].
  cbn [octets List.map length forallb Nat.eqb] in *. forall_inv.
  repeat match goal with E : isOctet _ = true |- _ => rewrite E; clear E end. done.
Qed.

Lemma quad_octets q : quad_ok q -> ipv4Octets (quadText q) = Some q.
Proof.
  intros Hq. unfold ipv4Octets. rewrite quad_split by done. destruct q as [[[a b] c] d]. cbn [List.map octets].
  unfold quad_ok in Hq. cbn in Hq. forall_inv.
  rewrite !(fun n Hn => proj2 (proj2 (proj2 (octet_spec n Hn)))) by done.
  destruct (existsb _ _) eqn:E; [|done]. exfalso. cbn in E.
  repeat (apply orb_true_iff in E as [E|E]); try done;
    first [apply Z.ltb_lt in E; lia | rewrite Z.gtb_ltb in E; apply Z.ltb_lt in E; lia].
Qed.

Lemma has_char_join c d ts : c <> d -> Forall (fun t => has_char c t = false) ts -> has_char c (joinOn d ts) = false.
Proof.
  intros Hne H. induction H as [|t ts Ht H IH]; [done|]. destruct ts as [|t' ts]; [exact Ht|].
  change (joinOn d (t :: t' :: ts)) with (t +:+ String d (joinOn d (t' :: ts))). rewrite has_char_app, Ht. cbn [has_char orb].
  rewrite IH, orb_false_r. by apply Ascii.eqb_neq.
Qed.

Lemma quad_no_char c q : quad_ok q -> isDigit c = false -> c <> "."%char -> has_char c (quadText q) = false.
Proof.
  intros Hq Hc Hne. apply has_char_join; [done|]. eapply List.Forall_impl; [|by apply quad_tokens].
  intros s (_ & Hd & _). by apply (everyChar_no_char isDigit).
Qed.

Lemma quad_token q : quad_ok q -> token (quadText q).
Proof.
  intros Hq. split; [|by apply quad_no_char]. pose proof (quad_tokens q Hq) as H. destruct q as [[[a b] c] d].
  unfold quadText. cbn [octets List.map joinOn] in *. forall_inv.
  by destruct (toString 10 a).
Qed.

Lemma digits_lower s : everyChar isDigit s = true -> toLowerCase s = s.
Proof. induction s as [|c s IH]; [done|]. cbn. intros [Hc Hs]%andb_true_iff. by rewrite (digit_lower c Hc), (IH Hs). Qed.

Lemma join_lower c ts : lower_ascii c = c -> toLowerCase (joinOn c ts) = joinOn c (List.map toLowerCase ts).
Proof.
  intros Hc. induction ts as [|t ts IH]; [done|]. destruct ts as [|t' ts]; [done|].
  change (joinOn c (t :: t' :: ts)) with (t +:+ String c (joinOn c (t' :: ts))).
  rewrite lower_app. cbn [toLowerCase]. rewrite Hc, IH. done.
Qed.

Lemma quad_lower q : quad_ok q -> toLowerCase (quadText q) = quadText q.
Proof.
  intros Hq. unfold quadText. rewrite join_lower by done. f_equal. rewrite <- (List.map_id (List.map (toString 10) _)) at 2.
  apply List.map_ext_in. intros s Hin. pose proof (quad_tokens q Hq) as H. rewrite List.Forall_forall in H.
  destruct (H s Hin) as (_ & Hd & _). by apply digits_lower.
Qed.

(** ** Spellings of an IPv6 address *)

(** Groups before [::], groups after it if it is there, an optional dotted quad at the end,
    an optional zone. *)
Record Spelling := mkSpelling {
  before : list string; after : option (list string); quad : option Quad; zone : option string
}.

Definition quadTokens (s : Spelling) : list string := match quad s with Some q => [quadText q] | None => [] end.
Definition quadValue (s : Spelling) : list Z :=
  match quad s with Some (a, b, c, d) => [a * 256 + b; c * 256 + d] | None => [] end.
Definition body (s : Spelling) : string :=
  match after s with
  | None => joinOn ":" (before s ++ quadTokens s)
  | Some a => joinOn ":" (before s) +:+ "::" +:+ joinOn ":" (a ++ quadTokens s)
  end.
Definition spelled (s : Spelling) : string :=
  match zone s with None => body s | Some z => body s +:+ String "%" z end.

Definition hexValue (g : string) : Z := readDigits 16 0 g.
Definition given (s : Spelling) : list Z := List.map hexValue (default [] (after s)) ++ quadValue s.
Definition hextetsOf (s : Spelling) : list Z :=
  List.map hexValue (before s)
  ++ (match after s with Some _ => replicate (8 - length (before s) - length (given s)) 0 | None => [] end) ++ given s.

Record spelling_ok (s : Spelling) : Prop := {
  so_before : Forall (fun g => isGroup g = true) (before s);
  so_after : Forall (fun g => isGroup g = true) (default [] (after s));
  so_quad : forall q, quad s = Some q -> quad_ok q;
  so_count : match after s with
             | None => length (before s) + length (given s) = 8
             | Some _ => length (before s) + length (given s) <= 7
             end%nat;
  so_zone : forall z, zone s = Some z -> nonempty z = true /\ everyChar isZoneChar z = true
}.

Lemma groups_join ts vs : Forall token ts -> Forall2 (fun t v => parseGroup t = Some v) ts vs -> groups (joinOn ":" ts) = Some vs.
Proof.
  intros Ht Hv. unfold groups. destruct Hv as [|t v ts vs Hv H]; [done|].
  destruct (joinOn_nonempty (t :: ts) ltac:(done) Ht) as (x & s & E & _). rewrite E. cbn [String.eqb]. rewrite <- E.
  rewrite split_join; [|done|eapply List.Forall_impl; [|exact Ht]; by intros u [_ ?]].
  clear E Ht. cbn [mapM]. rewrite Hv. cbn. induction H as [|t' v' ts vs Hv' H IH]; cbn [mapM]; [done|].
  rewrite Hv'. cbn. destruct (mapM parseGroup ts); cbn in *; [by injection IH as <-|done].
Qed.

Lemma expand_plain ts vs : Forall token ts -> Forall2 (fun t v => parseGroup t = Some v) ts vs -> length vs = 8%nat ->
  expand (joinOn ":" ts) = Some vs.
Proof.
  intros Ht Hv Hl. unfold expand. rewrite splitDouble_single by (by apply single_join). rewrite (groups_join ts vs) by done.
  cbn. by rewrite Hl.
Qed.

Lemma expand_gap ts vs ts' vs' : Forall token ts -> Forall token ts' ->
  Forall2 (fun t v => parseGroup t = Some v) ts vs -> Forall2 (fun t v => parseGroup t = Some v) ts' vs' ->
  (length vs + length vs' <= 7)%nat ->
  expand (joinOn ":" ts +:+ "::" +:+ joinOn ":" ts') = Some (vs ++ replicate (8 - length vs - length vs') 0 ++ vs').
Proof.
  intros Ht Ht' Hv Hv' Hl. unfold expand. rewrite splitDouble_app by (by apply single_join).
  rewrite splitDouble_single by (by apply single_join). rewrite (groups_join ts vs), (groups_join ts' vs') by done. cbn.
  destruct (Z.ltb_spec (8 - Z.of_nat (length vs) - Z.of_nat (length vs')) 1); [lia|]. do 4 f_equal. lia.
Qed.

Lemma splitLastColon_none r : has_char ":" r = false -> splitLastColon r = None.
Proof. induction r as [|c r IH]; [done|]. cbn. intros [Hc Hr]%orb_false_iff. by rewrite (IH Hr), Hc. Qed.

Lemma splitLastColon_app p r : has_char ":" r = false -> splitLastColon (p +:+ String ":" r) = Some (p +:+ ":", r).
Proof.
  intros Hr. induction p as [|c p IH].
  - change ("" +:+ String ":" r) with (String ":" r). cbn. by rewrite splitLastColon_none.
  - rewrite !app_str_cons. cbn. by rewrite IH.
Qed.

Lemma joinOn_app ts us : ts <> [] -> us <> [] -> joinOn ":" (ts ++ us) = joinOn ":" ts +:+ String ":" (joinOn ":" us).
Proof.
  intros Hts Hus. induction ts as [|u ts IH]; [done|]. destruct ts as [|u' ts].
  - destruct us; [done|]. done.
  - change (joinOn ":" ((u :: u' :: ts) ++ us)) with (u +:+ String ":" (joinOn ":" ((u' :: ts) ++ us))).
    rewrite IH by done. change (joinOn ":" (u :: u' :: ts)) with (u +:+ String ":" (joinOn ":" (u' :: ts))).
    by rewrite string_app_assoc, app_str_cons.
Qed.

(** The body with other tokens at its end. *)
Definition bodyWith (b : list string) (a : option (list string)) (extra : list string) : string :=
  match a with
  | None => joinOn ":" (b ++ extra)
  | Some a => joinOn ":" b +:+ "::" +:+ joinOn ":" (a ++ extra)
  end.

(** All that precedes the last tokens of a body. *)
Lemma bodyWith_prefix b a : (a = None -> b <> []) ->
  exists p, forall extra, extra <> [] -> bodyWith b a extra = p +:+ String ":" (joinOn ":" extra).
Proof.
  intros Hb. destruct a as [[|g a]|]; cbn [bodyWith].
  - exists (joinOn ":" b +:+ ":"). intros extra _. rewrite string_app_assoc. done.
  - exists (joinOn ":" b +:+ "::" +:+ joinOn ":" (g :: a)). intros extra He. rewrite joinOn_app by done.
    by rewrite !string_app_assoc.
  - exists (joinOn ":" b). intros extra He. rewrite joinOn_app; [done|by apply Hb|done].
Qed.

Lemma foldQuad_quad b a q : (a = None -> b <> []) -> quad_ok q ->
  let '(w, x, y, z) := q in
  foldQuad (bodyWith b a [quadText q]) = Some (bodyWith b a [toString 16 (w * 256 + x); toString 16 (y * 256 + z)]).
Proof.
  intros Hb Hq. destruct (bodyWith_prefix b a Hb) as (p & Hp). destruct q as [[[w x] y] z] eqn:Eq. rewrite <- Eq in *.
  rewrite !Hp by done. cbn [joinOn]. unfold foldQuad, matchDotted.
  rewrite splitLastColon_app by (by apply quad_token). rewrite quad_split by done.
  assert (forallb (fun x => nonempty x && everyChar isDigit x) (List.map (toString 10) (octets q)) = true) as ->.
  { apply forallb_forall. intros s Hin. pose proof (quad_tokens q Hq) as H. rewrite List.Forall_forall in H.
    destruct (H s Hin) as (_ & -> & ->). done. }
  rewrite length_map. assert (length (octets q) = 4%nat) as -> by (by rewrite Eq). cbn [Nat.eqb andb].
  rewrite quad_octets, Eq by done. cbn. unfold quad_ok in Hq. rewrite Eq in Hq. cbn in Hq. forall_inv.
  rewrite !lor_bytes by lia. by rewrite string_app_assoc.
Qed.

Lemma foldQuad_plain b a : Forall token b -> Forall token (default [] a) ->
  Forall (fun t => has_char "." t = false) b -> Forall (fun t => has_char "." t = false) (default [] a) ->
  foldQuad (bodyWith b a []) = Some (bodyWith b a []).
Proof.
  intros Hb Ha Db Da. unfold foldQuad, matchDotted. destruct (splitLastColon (bodyWith b a [])) as [[p r]|] eqn:E; [|done].
  assert (has_char "." (bodyWith b a []) = false) as Hno.
  { destruct a as [a|]; cbn [bodyWith default] in *; rewrite ?app_nil_r; [rewrite !has_char_app|]; rewrite !has_char_join by done; done. }
  rewrite (split_on_no_char "." r); [done|]. revert p E Hno. generalize (bodyWith b a []). clear.
  induction s as [|c s IH]; [done|]. cbn. intros p E [_ Hs]%orb_false_iff.
  destruct (splitLastColon s) as [[p' r']|].
  - injection E as _ <-. by eapply IH.
  - destruct (Ascii.eqb c ":"); [|done]. by injection E as _ <-.
Qed.

Lemma expand_bodyWith b a extra vb va ve :
  Forall token b -> Forall token (default [] a) -> Forall token extra ->
  Forall2 (fun t v => parseGroup t = Some v) b vb -> Forall2 (fun t v => parseGroup t = Some v) (default [] a) va ->
  Forall2 (fun t v => parseGroup t = Some v) extra ve ->
  match a with None => (length vb + length (va ++ ve) = 8)%nat | Some _ => (length vb + length (va ++ ve) <= 7)%nat end ->
  expand (bodyWith b a extra) =
  Some (vb ++ (match a with Some _ => replicate (8 - length vb - length (va ++ ve)) 0 | None => [] end) ++ va ++ ve).
Proof.
  intros Tb Ta Te Vb Va Ve Hc. destruct a as [a|]; cbn [bodyWith default] in *.
  - apply expand_gap; [done|by apply Forall_app|done|by apply Forall2_app|done].
  - inversion Va; subst va. apply expand_plain; [by apply Forall_app|by apply Forall2_app|].
    rewrite length_app. exact Hc.
Qed.

Lemma groups_lower gs : Forall (fun g => isGroup g = true) gs ->
  Forall token (List.map toLowerCase gs) /\ Forall (fun t => has_char "." t = false) (List.map toLowerCase gs) /\
  Forall2 (fun t v => parseGroup t = Some v) (List.map toLowerCase gs) (List.map hexValue gs).
Proof.
  induction 1 as [|g gs Hg H IH]; cbn [List.map]; [repeat split; constructor|].
  destruct IH as (I1 & I2 & I3). destruct (isGroup_spec g Hg) as (Ht & _ & _ & Hp).
  split_and!; constructor; try done; [by apply token_lower|].
  unfold isGroup in Hg. rewrite !andb_true_iff in Hg. destruct (group_lower g) as [Hl _]; [tauto|].
  by apply (everyChar_no_char isLowerHex).
Qed.

Lemma body_lower s : spelling_ok s -> toLowerCase (body s) =
  bodyWith (List.map toLowerCase (before s)) (List.map toLowerCase <$> after s) (quadTokens s).
Proof.
  intros Hs. assert (List.map toLowerCase (quadTokens s) = quadTokens s) as Hq.
  { unfold quadTokens. destruct (quad s) as [q|] eqn:E; [|done]. cbn. f_equal. apply quad_lower. by eapply so_quad. }
  unfold body, bodyWith. destruct (after s) as [a|]; cbn.
  - rewrite lower_app, join_lower by done. f_equal. change (toLowerCase ("::" +:+ ?x)) with ("::" +:+ toLowerCase x).
    by rewrite join_lower, map_app, Hq by done.
  - rewrite join_lower by done. by rewrite map_app, Hq.
Qed.

Lemma default_map a : default [] (List.map toLowerCase <$> a) = List.map toLowerCase (default [] a).
Proof. by destruct a. Qed.

Lemma octet_pair w x : 0 <= w <= 255 -> 0 <= x <= 255 -> 0 <= w * 256 + x < 65536.
Proof. lia. Qed.

Lemma hextets_body s : spelling_ok s -> ipv6Hextets (toLowerCase (body s)) = Some (hextetsOf s).
Proof.
  intros Hs. rewrite body_lower by done. destruct Hs as [Hb Ha Hq Hc _]. unfold ipv6Hextets, quadTokens.
  destruct (groups_lower _ Hb) as (Tb & Db & Vb), (groups_lower _ Ha) as (Ta & Da & Va).
  rewrite <- default_map in Ta, Da, Va.
  assert (forall ve, length ve = length (quadValue s) ->
    match (List.map toLowerCase <$> after s) with
    | None => (length (List.map hexValue (before s)) + length (List.map hexValue (default [] (after s)) ++ ve) = 8)%nat
    | Some _ => (length (List.map hexValue (before s)) + length (List.map hexValue (default [] (after s)) ++ ve) <= 7)%nat
    end) as Hcount.
  { intros ve Hve. unfold given in Hc. rewrite !length_app, !length_map in *. destruct (after s); cbn in *; rewrite Hve; exact Hc. }
  unfold hextetsOf, given, quadValue in *. destruct (quad s) as [[[[w x] y] z]|] eqn:E; cbn beta iota in *.
  - specialize (Hq _ eq_refl). pose proof Hq as Hq'. unfold quad_ok in Hq'. cbn in Hq'. forall_inv.
    assert ((List.map toLowerCase <$> after s) = None -> List.map toLowerCase (before s) <> []) as Hne.
    { intros En Eb. destruct (after s); [done|]. apply map_eq_nil in Eb. rewrite Eb in Hc. cbn in Hc. lia. }
    pose proof (foldQuad_quad _ _ _ Hne Hq) as Hf. cbn beta iota in Hf. rewrite Hf. cbn [mbind option_bind].
    destruct (toString16_spec (w * 256 + x)) as [T1 P1]; [by apply octet_pair|].
    destruct (toString16_spec (y * 256 + z)) as [T2 P2]; [by apply octet_pair|].
    rewrite (expand_bodyWith _ _ [toString 16 (w * 256 + x); toString 16 (y * 256 + z)] _ _ [w * 256 + x; y * 256 + z]
      Tb Ta (Forall_cons _ _ _ T1 (Forall_cons _ _ _ T2 (Forall_nil _))) Vb Va); [|by repeat constructor|by apply Hcount].
    rewrite !length_map. by destruct (after s).
  - rewrite foldQuad_plain by done. cbn [mbind option_bind].
    rewrite (expand_bodyWith _ _ [] _ _ [] Tb Ta ltac:(constructor) Vb Va); [|constructor|by apply Hcount].
    rewrite !length_map. by destruct (after s).
Qed.

(** ** A spelling is an address to the platform *)

Lemma countTokens_groups qa gs : Forall (fun g => isGroup g = true) gs -> countTokens qa gs = Some (Z.of_nat (length gs)).
Proof.
  induction 1 as [|g gs Hg H IH]; [done|]. destruct gs as [|g' gs]; cbn [countTokens]; rewrite Hg; [done|].
  cbn [countTokens] in IH. rewrite IH. cbn [mbind option_bind length]. f_equal. lia.
Qed.

Lemma not_group_quad q : quad_ok q -> isGroup (quadText q) = false.
Proof.
  intros Hq. destruct (isGroup (quadText q)) eqn:E; [|done]. apply isGroup_spec in E as (_ & E & _).
  apply split_on_no_char in E. rewrite quad_split in E by done. destruct q as [[[]]]. discriminate E.
Qed.

Lemma countTokens_quad gs q : Forall (fun g => isGroup g = true) gs -> quad_ok q ->
  countTokens true (gs ++ [quadText q]) = Some (Z.of_nat (length gs) + 2).
Proof.
  intros H Hq. induction H as [|g gs Hg H IH].
  - cbn [app countTokens]. rewrite not_group_quad, quad_isIPv4 by done. done.
  - destruct gs as [|g' gs]; cbn [app countTokens] in *; rewrite Hg, IH; cbn [mbind option_bind length]; f_equal; lia.
Qed.

Lemma isGroup_tokens gs : Forall (fun g => isGroup g = true) gs -> Forall token gs.
Proof. apply List.Forall_impl. intros g Hg. apply (isGroup_spec g Hg). Qed.

Lemma countPart_join qa ts n : Forall token ts -> countTokens qa ts = Some n -> countPart qa (joinOn ":" ts) = Some n.
Proof.
  intros Ht Hn. unfold countPart. destruct ts as [|t ts]; [done|].
  destruct (joinOn_nonempty (t :: ts) ltac:(done) Ht) as (x & s & E & _). rewrite E. cbn [String.eqb]. rewrite <- E.
  rewrite split_join; [done|done|]. eapply List.Forall_impl; [|exact Ht]. by intros u [_ ?].
Qed.

(** The groups that a side with the quad counts for. *)
Lemma tail_count s gs : spelling_ok s -> Forall (fun g => isGroup g = true) gs ->
  Forall token (gs ++ quadTokens s) /\
  countTokens true (gs ++ quadTokens s) = Some (Z.of_nat (length gs + length (quadValue s))).
Proof.
  intros Hs Hg. unfold quadTokens, quadValue. destruct (quad s) as [q|] eqn:E.
  - pose proof (so_quad _ Hs q E) as Hq. split.
    + apply Forall_app. split; [by apply isGroup_tokens|]. repeat constructor; by apply quad_token.
    + rewrite countTokens_quad by done. destruct q as [[[w x] y] z]. cbn [length]. f_equal. lia.
  - rewrite app_nil_r. split; [by apply isGroup_tokens|]. rewrite countTokens_groups by done. f_equal. cbn. lia.
Qed.

Lemma body_isIPv6 s : spelling_ok s -> isIPv6Body (body s) = true.
Proof.
  intros Hs. pose proof Hs as [Hb Ha _ Hc _]. unfold isIPv6Body, body, given in *.
  destruct (after s) as [a|]; cbn [default id] in *; rewrite length_app, length_map in Hc.
  - destruct (tail_count s a Hs Ha) as [Ht Hn]. rewrite splitDouble_app, splitDouble_single
      by (apply single_join; first [done | by apply isGroup_tokens]).
    rewrite (countPart_join false (before s) (Z.of_nat (length (before s)))), (countPart_join true _ _ Ht Hn)
      by first [done | by apply isGroup_tokens | by apply countTokens_groups]. apply Z.leb_le. lia.
  - destruct (tail_count s (before s) Hs Hb) as [Ht Hn]. rewrite splitDouble_single by (by apply single_join).
    rewrite (countPart_join true _ _ Ht Hn). apply Z.eqb_eq. cbn in Hc. lia.
Qed.

Lemma body_no_percent s : spelling_ok s -> has_char "%" (body s) = false.
Proof.
  intros Hs. pose proof Hs as [Hb Ha Hq _ _].
  assert (forall gs, Forall (fun g => isGroup g = true) gs -> Forall (fun t => has_char "%" t = false) gs) as Hg.
  { intros gs. apply List.Forall_impl. intros g Hg. apply (isGroup_spec g Hg). }
  assert (Forall (fun t => has_char "%" t = false) (quadTokens s)) as Ht.
  { unfold quadTokens. destruct (quad s) as [q|]; [|constructor]. repeat constructor. by apply quad_no_char; [apply Hq|..]. }
  unfold body. destruct (after s) as [a|]; cbn [default id] in *; rewrite ?has_char_app;
    rewrite !has_char_join; try done; try (by apply Hg); apply Forall_app; split; try done; by apply Hg.
Qed.

Lemma lower_percent s : has_char "%" (toLowerCase s) = has_char "%" s.
Proof.
  induction s as [|c s IH]; [done|]. cbn. rewrite IH. f_equal. destruct c as [[] [] [] [] [] [] [] []]; reflexivity.
Qed.

Lemma spelled_zone s : spelling_ok s -> isIPv6 (spelled s) = true /\ beforeZone (spelled s) = toLowerCase (body s).
Proof.
  intros Hs. pose proof (body_no_percent s Hs) as Hb. pose proof (body_isIPv6 s Hs) as Hi.
  unfold isIPv6, beforeZone, spelled. destruct (zone s) as [z|] eqn:E.
  - destruct (so_zone _ Hs z E) as [Hz1 Hz2]. rewrite split_on_app by done.
    rewrite (split_on_no_char "%" z) by (by apply (everyChar_no_char isZoneChar)). rewrite Hi, Hz1, Hz2. split; [done|].
    rewrite lower_app. cbn [toLowerCase]. change (lower_ascii "%") with "%"%char. rewrite split_on_app by (by rewrite lower_percent). done.
  - rewrite !split_on_no_char by (by rewrite ?lower_percent). done.
Qed.

Lemma split_parts_chars p s : forallb (everyChar p) (split_on "." s) = true -> everyChar (fun c => p c || Ascii.eqb c ".") s = true.
Proof.
  induction s as [|c s IH]; [done|]. cbn. destruct (split_on_nonempty "." s) as (h & t & E). rewrite E in *. cbn in IH.
  destruct (Ascii.eqb c ".") eqn:Ec; cbn; rewrite ?orb_true_r, ?orb_false_r; [done|].
  intros H. apply andb_true_iff in H as [H1 H2]. apply andb_true_iff in H1 as [-> H1]. cbn. apply IH. by rewrite H1.
Qed.

Lemma isIPv4_no_colon s : isIPv4 s = true -> has_char ":" s = false.
Proof.
  unfold isIPv4. intros [_ H]%andb_true_iff. apply (everyChar_no_char (fun c => isDigit c || Ascii.eqb c ".")); [done|].
  apply split_parts_chars. rewrite forallb_forall in *. intros x Hx. specialize (H x Hx). unfold isOctet in H.
  rewrite !andb_true_iff in H. tauto.
Qed.

Lemma spelled_colon s : spelling_ok s -> has_char ":" (spelled s) = true.
Proof.
  intros Hs. assert (has_char ":" (body s) = true) as Hb.
  { unfold body. pose proof (so_count _ Hs) as Hc. unfold given in Hc. destruct (after s) as [a|]; cbn [default id] in *.
    - rewrite has_char_app, (has_char_app _ "::"). by rewrite orb_true_r.
    - unfold quadTokens, quadValue in *. destruct (before s) as [|g [|g' gs]];
        [destruct (quad s) as [[[[]]]|]; cbn in Hc; lia|destruct (quad s) as [[[[]]]|]; cbn in Hc; lia|].
      cbn [app joinOn]. rewrite has_char_app. cbn. by rewrite orb_true_r. }
  unfold spelled. destruct (zone s); [by rewrite has_char_app, Hb|done].
Qed.

Lemma spelled_isIP s : spelling_ok s -> isIP (spelled s) = 6.
Proof.
  intros Hs. unfold isIP. destruct (isIPv4 (spelled s)) eqn:E.
  - apply isIPv4_no_colon in E. by rewrite spelled_colon in E.
  - by rewrite (proj1 (spelled_zone s Hs)).
Qed.

(** ** The blocked ranges, as prefixes of the address's number *)

(** A prefix is its value and its length in bits. *)
Definition inPrefix (bits n : Z) (p : Z * Z) : bool := n / 2 ^ (bits - snd p) =? fst p.

(** 0/8, 127/8, 10/8, 172.16/12, 192.168/16, 169.254/16, 100.64/10. *)
Definition BLOCKED_V4 : list (Z * Z) :=
  [(0, 8); (127, 8); (10, 8); (172 * 16 + 1, 12); (192 * 256 + 168, 16); (169 * 256 + 254, 16); (100 * 4 + 1, 10)].
(** ::ffff:0:0/96, ::/96, ::ffff:0:0:0/96 and 64:ff9b::/96, whose low 32 bits are an IPv4 address. *)
Definition IPV4_CARRIERS : list (Z * Z) := [(65535, 96); (0, 96); (65535 * 65536, 96); (100 * 2 ^ 80 + 65435 * 2 ^ 64, 96)].
(** ::/127 (:: and ::1), fe80::/10, fc00::/7. *)
Definition LOOPBACK_V6 : Z * Z := (0, 127).
Definition LINK_LOCAL_V6 : Z * Z := (1018, 10).
Definition UNIQUE_LOCAL_V6 : Z * Z := (126, 7).

Definition blockedV4 (n : Z) : bool := existsb (inPrefix 32 n) BLOCKED_V4.
Definition blockedV6 (n : Z) : bool :=
  inPrefix 128 n LOOPBACK_V6
  || (if existsb (inPrefix 128 n) IPV4_CARRIERS then blockedV4 (n mod 2 ^ 32)
      else inPrefix 128 n LINK_LOCAL_V6 || inPrefix 128 n UNIQUE_LOCAL_V6).

Definition addressV4 (q : Quad) : Z := fold_left (fun acc n => acc * 256 + n) (octets q) 0.
Definition addressV6 (h : list Z) : Z := fold_left (fun acc g => acc * 65536 + g) h 0.

Lemma blockedOctets_prefixes q : quad_ok q -> blockedOctets q = blockedV4 (addressV4 q).
Proof.
  intros Hq. destruct q as [[[a b] c] d]. unfold quad_ok in Hq. cbn in Hq. forall_inv.
  unfold blockedV4, BLOCKED_V4, inPrefix, addressV4. cbn [existsb fold_left octets fst snd].
  set (n := (((0 * 256 + a) * 256 + b) * 256 + c) * 256 + d).
  assert (n / 2 ^ (32 - 8) = a) as -> by (change (2 ^ (32 - 8)) with 16777216; subst n; symmetry; apply (Z.div_unique_pos _ _ _ (b * 65536 + c * 256 + d)); lia).
  assert (n / 2 ^ (32 - 16) = a * 256 + b) as -> by (change (2 ^ (32 - 16)) with 65536; subst n; symmetry; apply (Z.div_unique_pos _ _ _ (c * 256 + d)); lia).
  pose proof (Z.div_mod b 16). pose proof (Z.mod_pos_bound b 16). pose proof (Z.div_mod b 64). pose proof (Z.mod_pos_bound b 64).
  assert (n / 2 ^ (32 - 12) = a * 16 + b / 16) as -> by (change (2 ^ (32 - 12)) with 1048576; subst n; symmetry; apply (Z.div_unique_pos _ _ _ (b mod 16 * 65536 + c * 256 + d)); lia).
  assert (n / 2 ^ (32 - 10) = a * 4 + b / 64) as -> by (change (2 ^ (32 - 10)) with 4194304; subst n; symmetry; apply (Z.div_unique_pos _ _ _ (b mod 64 * 65536 + c * 256 + d)); lia).
  assert ((a =? 172) && (b >=? 16) && (b <=? 31) = (a * 16 + b / 16 =? 172 * 16 + 1)) as E1.
  { rewrite Z.geb_leb. destruct (Z.eqb_spec a 172), (Z.leb_spec 16 b), (Z.leb_spec b 31), (Z.eqb_spec (a * 16 + b / 16) (172 * 16 + 1)); cbn; lia. }
  assert ((a =? 100) && (b >=? 64) && (b <=? 127) = (a * 4 + b / 64 =? 100 * 4 + 1)) as E2.
  { rewrite Z.geb_leb. destruct (Z.eqb_spec a 100), (Z.leb_spec 64 b), (Z.leb_spec b 127), (Z.eqb_spec (a * 4 + b / 64) (100 * 4 + 1)); cbn; lia. }
  assert ((a =? 192) && (b =? 168) = (a * 256 + b =? 192 * 256 + 168)) as E3.
  { destruct (Z.eqb_spec a 192), (Z.eqb_spec b 168), (Z.eqb_spec (a * 256 + b) (192 * 256 + 168)); cbn; lia. }
  assert ((a =? 169) && (b =? 254) = (a * 256 + b =? 169 * 256 + 254)) as E4.
  { destruct (Z.eqb_spec a 169), (Z.eqb_spec b 254), (Z.eqb_spec (a * 256 + b) (169 * 256 + 254)); cbn; lia. }
  unfold blockedOctets. rewrite E1, E2, E3, E4. reflexivity.
Qed.

Definition hextets_ok (h : list Z) : Prop := length h = 8%nat /\ Forall (fun g => 0 <= g < 65536) h.

Lemma list8 (h : list Z) : length h = 8%nat -> exists a b c d e f g i, h = [a; b; c; d; e; f; g; i].
Proof. intros H. do 8 (destruct h as [|? h]; [done|]). destruct h; [|done]. by repeat eexists. Qed.

Lemma eqb_digit x y X Y : 0 <= y < 65536 -> 0 <= Y < 65536 -> (x * 65536 + y =? X * 65536 + Y) = (x =? X) && (y =? Y).
Proof. intros. destruct (Z.eqb_spec x X), (Z.eqb_spec y Y), (Z.eqb_spec (x * 65536 + y) (X * 65536 + Y)); cbn; lia. Qed.

(** The number of six or seven groups against a constant written in groups. *)
Lemma eqb_number6 a b c d e f A B C D E F :
  Forall (fun g => 0 <= g < 65536) [b; c; d; e; f; B; C; D; E; F] ->
  (addressV6 [a; b; c; d; e; f] =? addressV6 [A; B; C; D; E; F])
  = (a =? A) && (b =? B) && (c =? C) && (d =? D) && (e =? E) && (f =? F).
Proof.
  intros H. forall_inv. unfold addressV6. cbn [fold_left]. rewrite !eqb_digit by done. cbn. done.
Qed.

Lemma loopback_prefix a b c d e f g i : Forall (fun g => 0 <= g < 65536) [a; b; c; d; e; f; g; i] ->
  inPrefix 128 (addressV6 [a; b; c; d; e; f; g; i]) LOOPBACK_V6
  = zeroUpTo [a; b; c; d; e; f; g; i] 7 && ((i =? 0) || (i =? 1)).
Proof.
  intros H. forall_inv. unfold inPrefix, LOOPBACK_V6, zeroUpTo. cbn [fst snd take forallb].
  change (2 ^ (128 - 127)) with 2. set (m := addressV6 [a; b; c; d; e; f]).
  assert (addressV6 [a; b; c; d; e; f; g; i] = (m * 65536 + g) * 65536 + i) as -> by done.
  assert (0 <= m) as Hm by (subst m; unfold addressV6; cbn [fold_left]; lia).
  transitivity ((m =? addressV6 [0; 0; 0; 0; 0; 0]) && (g =? 0) && ((i =? 0) || (i =? 1))).
  - change (addressV6 [0; 0; 0; 0; 0; 0]) with 0.
    pose proof (Z.div_mod ((m * 65536 + g) * 65536 + i) 2). pose proof (Z.mod_pos_bound ((m * 65536 + g) * 65536 + i) 2).
    set (q := ((m * 65536 + g) * 65536 + i) / 2) in *. clearbody m q.
    destruct (Z.eqb_spec q 0), (Z.eqb_spec m 0), (Z.eqb_spec g 0), (Z.eqb_spec i 0), (Z.eqb_spec i 1); cbn; lia.
  - subst m. rewrite eqb_number6 by (repeat constructor; lia). by rewrite !andb_assoc, ?andb_true_r.
Qed.

Lemma carrier_prefix a b c d e f g i : Forall (fun g => 0 <= g < 65536) [a; b; c; d; e; f; g; i] ->
  existsb (inPrefix 128 (addressV6 [a; b; c; d; e; f; g; i])) IPV4_CARRIERS = carriesIpv4 [a; b; c; d; e; f; g; i].
Proof.
  intros H. forall_inv. unfold IPV4_CARRIERS, inPrefix, carriesIpv4, zeroUpTo, hextet.
  cbn [existsb fst snd take drop forallb nth]. set (top := addressV6 [a; b; c; d; e; f]).
  assert (addressV6 [a; b; c; d; e; f; g; i] / 2 ^ (128 - 96) = top) as ->.
  { symmetry. apply (Z.div_unique_pos _ _ _ (g * 65536 + i)); change (2 ^ (128 - 96)) with (65536 * 65536); [lia|].
    change (addressV6 [a; b; c; d; e; f; g; i]) with ((top * 65536 + g) * 65536 + i). lia. }
  change 65535 with (addressV6 [0; 0; 0; 0; 0; 65535]) at 1.
  change (65535 * 65536) with (addressV6 [0; 0; 0; 0; 65535; 0]).
  change (100 * 2 ^ 80 + 65435 * 2 ^ 64) with (addressV6 [100; 65435; 0; 0; 0; 0]).
  assert ((top =? 0) = (top =? addressV6 [0; 0; 0; 0; 0; 0])) as -> by done.
  subst top. rewrite !eqb_number6 by (repeat constructor; lia).
  destruct (a =? 0), (b =? 0), (c =? 0), (d =? 0), (e =? 0), (f =? 0), (f =? 65535), (e =? 65535), (a =? 100), (b =? 65435); reflexivity.
Qed.

Lemma first_group_prefix a b c d e f g i (k v : Z) : Forall (fun g => 0 <= g < 65536) [a; b; c; d; e; f; g; i] -> 0 <= k <= 16 ->
  inPrefix 128 (addressV6 [a; b; c; d; e; f; g; i]) (v, k) = (a / 2 ^ (16 - k) =? v).
Proof.
  intros H Hk. forall_inv. unfold inPrefix. cbn [fst snd]. f_equal. set (n := addressV6 _).
  assert (n / 2 ^ 112 = a) as E112.
  { symmetry. apply (Z.div_unique_pos _ _ _ (n - a * 2 ^ 112)); [|lia]. subst n. unfold addressV6. cbn [fold_left]. lia. }
  rewrite <- E112. pose proof (Z.pow_pos_nonneg 2 (16 - k)). rewrite Z.div_div by lia. rewrite <- Z.pow_add_r by lia.
  f_equal. f_equal. lia.
Qed.

Lemma low_quad a b c d e f g i : Forall (fun g => 0 <= g < 65536) [a; b; c; d; e; f; g; i] ->
  addressV6 [a; b; c; d; e; f; g; i] mod 2 ^ 32 = g * 65536 + i.
Proof.
  intros H. forall_inv.
  assert (addressV6 [a; b; c; d; e; f; g; i] = (g * 65536 + i) + addressV6 [a; b; c; d; e; f] * 2 ^ 32) as ->
    by (unfold addressV6; cbn [fold_left]; lia).
  rewrite Z_mod_plus_full, Z.mod_small; lia.
Qed.

(** ** The guard decides on the number *)

Lemma embedded_quad h : hextets_ok h ->
  let q := (hextet h 6 / 256, hextet h 6 mod 256, hextet h 7 / 256, hextet h 7 mod 256) in
  quad_ok q /\ embeddedIpv4 h = quadText q /\ addressV4 q = hextet h 6 * 65536 + hextet h 7.
Proof.
  intros [Hl Hr]. destruct (list8 h Hl) as (a & b & c & d & e & f & g & i & ->). forall_inv.
  unfold embeddedIpv4, quadText, hextet. cbn [nth octets List.map joinOn].
  pose proof (Z.div_mod g 256). pose proof (Z.mod_pos_bound g 256). pose proof (Z.div_mod i 256). pose proof (Z.mod_pos_bound i 256).
  split_and!.
  - repeat constructor; lia.
  - change 255 with (Z.ones 8). rewrite !Z.land_ones, !Z.shiftr_div_pow2 by lia. done.
  - unfold addressV4. cbn [octets fold_left]. lia.
Qed.

Lemma blockedAt_quad n q : quad_ok q -> blockedAt (S n) (quadText q) = blockedV4 (addressV4 q).
Proof.
  intros Hq. cbn [blockedAt]. unfold isIP. rewrite quad_isIPv4, quad_octets by done. by apply blockedOctets_prefixes.
Qed.

Lemma blockedAt_groups depth address h : isIP address = 6 -> ipv6Hextets (beforeZone address) = Some h ->
  blockedAt (S depth) address =
  if zeroUpTo h 7 && ((hextet h 7 =? 0) || (hextet h 7 =? 1)) then true
  else if carriesIpv4 h then blockedAt depth (embeddedIpv4 h)
  else if Z.land (hextet h 0) 65472 =? 65152 then true
  else if Z.land (hextet h 0) 65024 =? 64512 then true else false.
Proof. intros Hi Hh. cbn [blockedAt]. by rewrite Hi, Hh. Qed.

Lemma blockedAt_v6 address h : isIP address = 6 -> ipv6Hextets (beforeZone address) = Some h -> hextets_ok h ->
  isBlockedEgressAddress address = blockedV6 (addressV6 h).
Proof.
  intros Hi Hh Hok. unfold isBlockedEgressAddress. rewrite (blockedAt_groups 1 address h) by done.
  destruct (embedded_quad h Hok) as (Hq & -> & Ha). rewrite blockedAt_quad, Ha by done.
  destruct Hok as [Hl Hr]. destruct (list8 h Hl) as (a & b & c & d & e & f & g & i & ->).
  unfold blockedV6, LINK_LOCAL_V6, UNIQUE_LOCAL_V6. rewrite loopback_prefix, carrier_prefix, !first_group_prefix, low_quad by done || lia.
  unfold hextet. cbn [nth]. change (2 ^ (16 - 10)) with 64. change (2 ^ (16 - 7)) with 512.
  rewrite linkLocal_prefix, uniqueLocal_prefix by (forall_inv; done).
  by destruct (zeroUpTo _ 7 && _), (carriesIpv4 _), (a / 64 =? 1018), (a / 512 =? 126).
Qed.

Lemma hexValue_range g : isGroup g = true -> 0 <= hexValue g < 65536.
Proof.
  unfold isGroup, hexValue. rewrite !andb_true_iff, Nat.leb_le. intros ((_ & Hl) & Hh).
  assert (forall s acc, everyChar isHex s = true -> 0 <= acc ->
    0 <= readDigits 16 acc s < (acc + 1) * 16 ^ Z.of_nat (String.length s)) as H.
  { induction s as [|c s IH]; intros acc Hs Ha; cbn [readDigits String.length]; [change (16 ^ Z.of_nat 0) with 1; lia|].
    cbn in Hs. apply andb_true_iff in Hs as [Hc Hs].
    assert (0 <= digitValue c < 16) as Hd by (revert Hc; clear; destruct c as [[] [] [] [] [] [] [] []]; vm_compute; intros E; try discriminate E; split; discriminate || reflexivity).
    destruct (IH (acc * 16 + digitValue c) Hs) as [H1 H2]; [lia|]. rewrite Nat2Z.inj_succ, Z.pow_succ_r by lia.
    pose proof (Z.pow_pos_nonneg 16 (Z.of_nat (String.length s))). nia. }
  destruct (H g 0 Hh) as [H1 H2]; [lia|]. split; [done|].
  assert (16 ^ Z.of_nat (String.length g) <= 16 ^ 4) by (apply Z.pow_le_mono_r; lia). change (16 ^ 4) with 65536 in *. lia.
Qed.

Lemma hextetsOf_ok s : spelling_ok s -> hextets_ok (hextetsOf s).
Proof.
  intros Hs. pose proof Hs as [Hb Ha Hq Hc _].
  assert (forall gs, Forall (fun g => isGroup g = true) gs -> Forall (fun g => 0 <= g < 65536) (List.map hexValue gs)) as Hg.
  { intros gs H. apply Forall_map. eapply List.Forall_impl; [|exact H]. apply hexValue_range. }
  split.
  - unfold hextetsOf. destruct (after s); rewrite !length_app, ?length_replicate, length_map; cbn [length]; lia.
  - unfold hextetsOf, given. repeat (apply Forall_app; split); [by apply Hg| |by apply Hg|].
    + destruct (after s); [|constructor]. apply List.Forall_forall. intros x Hx. apply list_elem_of_In, elem_of_replicate in Hx. lia.
    + unfold quadValue. destruct (quad s) as [q|]; [|constructor]. specialize (Hq q eq_refl).
      destruct q as [[[w x] y] z]. unfold quad_ok in Hq. cbn in Hq. forall_inv. repeat constructor; lia.
Qed.

(** C20. The guard decides on the address, never on its spelling: for a dotted quad it is
    blocked exactly when its number lies in a blocked IPv4 prefix, and every spelling of an
    IPv6 address - groups in either case with or without leading zeros, [::] anywhere or
    nowhere, the last two groups as a dotted quad, with a zone - is blocked exactly when the
    number it stands for lies in a blocked prefix, or carries a blocked IPv4 address in any
    of the four forms. *)
Theorem guard_decides_on_number :
  (forall q, quad_ok q -> isBlockedEgressAddress (quadText q) = blockedV4 (addressV4 q)) /\
  (forall s, spelling_ok s -> isIP (spelled s) = 6 /\
     isBlockedEgressAddress (spelled s) = blockedV6 (addressV6 (hextetsOf s))).
Proof.
  split; [intros q Hq; by apply blockedAt_quad|]. intros s Hs. split; [by apply spelled_isIP|].
  apply blockedAt_v6; [by apply spelled_isIP| |by apply hextetsOf_ok].
  rewrite (proj2 (spelled_zone s Hs)). by apply hextets_body.
Qed.

Lemma guard_decides_on_number_witness :
  let s := mkSpelling [] (Some ["FFFF"]) (Some (127, 0, 0, 1)) (Some "eth0") in
  let s' := mkSpelling ["0"; "0"; "0"; "0"; "0"; "ffff"; "7F00"; "0001"] None None None in
  spelled s = "::FFFF:127.0.0.1%eth0" /\ spelled s' = "0:0:0:0:0:ffff:7F00:0001" /\
  isBlockedEgressAddress (spelled s) = true /\ isBlockedEgressAddress (spelled s') = true.
Proof.
  destruct guard_decides_on_number as [_ H].
  split; [reflexivity|]. split; [reflexivity|]. split.
  - destruct (H (mkSpelling [] (Some ["FFFF"]) (Some (127, 0, 0, 1)) (Some "eth0"))) as [_ ->]; [|vm_compute; reflexivity].
    split; cbn; [constructor|by repeat constructor|intros q [= <-]; repeat constructor; lia|lia|by intros z [= <-]].
  - destruct (H (mkSpelling ["0"; "0"; "0"; "0"; "0"; "ffff"; "7F00"; "0001"] None None None)) as [_ ->]; [|vm_compute; reflexivity].
    split; cbn; [by repeat constructor|constructor|done|done|done].
Defined.

(** The address that is dialled is the one that was checked. *)
Lemma dialled_is_checked lookup isBlocked host a :
  resolveGuardedAddress lookup isBlocked host = Dial a -> isBlocked a = false /\
  (a = bareHost host /\ isIP a <> 0 \/ lookup (bareHost host) = Some a).
Proof.
  unfold resolveGuardedAddress. destruct (Z.eqb_spec (isIP (bareHost host)) 0) as [E|E]; cbn [negb].
  - destruct (lookup (bareHost host)) as [b|]; [|done]. destruct (isBlocked b) eqn:Eb; [done|]. intros [= <-]. auto.
  - destruct (isBlocked (bareHost host)) eqn:Eb; [done|]. intros [= <-]. auto.
Qed.
