(* ===== verification/EgressProxy.v ===== *)
(** * The egress proxy

    A model of the request path of [RunProxyInstance] in
    [packages/server/src/services/egress/proxy.ts]: who may use a run's proxy, where a request
    goes, what of it is checked and replaced on the way, and what is reported of a connector that
    refuses. A request is its line, its headers and the chunks of its body; what becomes of it is
    the answer of the proxy, or the request the platform is asked to send.

    The platform's parts are parameters: its URL parser, name lookup, base64 and UTF-8 codecs and
    the text of a number. The sockets, the certificates and the logs are not modelled. *)
From Stdlib Require Import ZArith Lia Ascii String List Bool.
From stdpp Require Import base list strings gmap option.
From S2P Require Import Prelude JsString JsNumber JsonText Bytes Credentials NetGuard Substitution McpAccess Connectors.

Open Scope string_scope.
Open Scope list_scope.
Open Scope Z_scope.

Notation Headers := (list (string * HeaderValue)).

Definition HOP_BY_HOP_HEADERS : list string := ["connection"; "keep-alive"; "upgrade"].
Definition MAX_BODY_SUBSTITUTION_BYTES : Z := 8192.
Definition MAX_MCP_INSPECTION_BYTES : Z := 262144.

(** ** Headers *)

Definition isProxyHeader (name : string) : bool := startsWith (toLowerCase name) "proxy-".
Definition isHopByHop (name : string) : bool := includesWord HOP_BY_HOP_HEADERS (toLowerCase name).

(** [headers[name]]; the platform gives header names in lower case. *)
Definition headerValue (headers : Headers) (name : string) : option string :=
  match field name headers with
  | Some (One v) => Some v
  | Some (Many (v :: _)) => Some v
  | _ => None
  end.

Definition dropHeader (name : string) (headers : Headers) : Headers := List.filter (fun h => negb (String.eqb (fst h) name)) headers.

(** [/^\s*application\/json\b/i]. *)
Definition isWordChar (c : ascii) : bool :=
  isDigit c || ((97 <=? code c) && (code c <=? 122)) || ((65 <=? code c) && (code c <=? 90)) || (code c =? 95).
Definition isJsonContentType (v : string) : bool :=
  let s := trimStart v in
  startsWith (toLowerCase s) "application/json"
  && match slice_from 16 s with String c _ => negb (isWordChar c) | EmptyString => true end.

(** [method.toUpperCase()] is one of the three; none has a letter another one maps to. *)
Definition hasBody (method : string) : bool := includesWord ["post"; "put"; "patch"] (toLowerCase method).

Definition isBodySubstitutionEligible (method : string) (headers : Headers) : bool :=
  hasBody method
  && match truthyText (headerValue headers "content-type") with Some t => isJsonContentType t | None => false end
  && match truthyText (headerValue headers "content-encoding") with Some _ => false | None => true end
  && match headerValue headers "content-length" with
     | None => false
     | Some raw => match integerOf (toNumber raw) with
                   | Some len => (0 <=? len) && (len <=? MAX_BODY_SUBSTITUTION_BYTES)
                   | None => false
                   end
     end.

Definition mayCarryJsonRpc (method : string) (headers : Headers) : bool :=
  hasBody method
  && match truthyText (headerValue headers "content-type") with Some t => isJsonContentType t | None => true end.

Definition relayedResponseHeaders (headers : Headers) : Headers :=
  assign "connection" (One "close") (List.filter (fun h => negb (isHopByHop (fst h))) headers).

(** ** The body *)

(** A body arrives in chunks; the stream then ends, or fails. *)
Record BodyStream := mkBody { bs_chunks : list (list Z); bs_ends : bool }.

Inductive ReadBody := TooLarge | BodyRead (buffer : list Z) | ReadFailed.

Fixpoint readChunks (cap total : Z) (acc : list Z) (chunks : list (list Z)) (ends : bool) : ReadBody :=
  match chunks with
  | [] => if ends then BodyRead acc else ReadFailed
  | chunk :: chunks =>
      let total := total + blen chunk in
      if total >? cap then TooLarge else readChunks cap total (acc ++ chunk) chunks ends
  end.

Definition readBodyCapped (b : BodyStream) (cap : Z) : ReadBody := readChunks cap 0 [] (bs_chunks b) (bs_ends b).

(** ** Authentication *)

(** [/^Basic\s+(.+)$/i] on a trimmed text; a dot matches no line terminator. *)
Definition isLineEnd (c : ascii) : bool := (code c =? 10) || (code c =? 13).
Definition matchBasicScheme (s : string) : option string :=
  if String.eqb (toLowerCase (take_str 5 s)) "basic" then
    let '(ws, rest) := JsString.span is_space (slice_from 5 s) in
    if nonempty ws && nonempty rest && everyChar (fun c => negb (isLineEnd c)) rest then Some rest else None
  else None.

(** [Buffer.from(s, 'hex')]: pairs of hexadecimal digits, up to the first that is none. *)
Fixpoint hexBytes (s : string) : list Z :=
  match s with
  | String a (String b r) => if isHex a && isHex b then (digitValue a * 16 + digitValue b) :: hexBytes r else []
  | _ => []
  end.

(** [s.indexOf(':')], as the text after it. *)
Fixpoint afterColon (s : string) : option string :=
  match s with
  | EmptyString => None
  | String c s => if Ascii.eqb c ":" then Some s else afterColon s
  end.

(** ** Targets *)

(** The headers are the platform's: a [host] header is one string. *)
Record ProxyRequest := mkRequest {
  rq_url : option string; rq_method : option string; rq_headers : Headers; rq_body : BodyStream
}.

Record TargetAddress := mkTarget { ta_host : string; ta_port : JsNumber; ta_path : string }.

Definition integerPort (port : JsNumber) : option Z :=
  match integerOf port with Some n => if (0 <=? n) && (n <? 65536) then Some n else None | None => None end.

Inductive RejectionKind := UpstreamRejected | SubstitutionFailed | UpstreamUnreachable.
#[export] Instance RejectionKind_eq_dec : EqDecision RejectionKind.
Proof. solve_decision. Defined.

(** What is reported: the connector, the kind, the status, the reason and whether a credential went out. *)
Record ConnectorRunRejection := mkRejection {
  cj_connectorId : string; cj_connectorName : string; cj_credentialed : bool; cj_kind : RejectionKind; cj_status : Z;
  cj_reason : string; cj_credentialSent : bool
}.

Inductive SecretStore := StoreLocked | StoreFailed | StoreOpen (v : Vault).

(** The configuration of a run's proxy. *)
Record RunProxyConfig := mkProxyConfig {
  pc_token : option (list Z); pc_mcpBindings : list (string * McpHostBinding); pc_allowPrivateTargets : bool;
  pc_selfEndpoint : option SelfEndpoint; pc_reports : bool
}.

Inductive OutBody := Buffered (bytes : list Z) | Streamed (b : BodyStream).

(** The request the platform is asked to send. *)
Record Upstream := mkUpstream {
  up_ssl : bool; up_host : string; up_dialHost : string; up_port : JsNumber; up_method : string; up_path : string;
  up_headers : Headers; up_body : OutBody; up_logPath : string; up_observer : option (McpHostConnector * bool)
}.

Inductive Outcome := Responded (status : Z) (error : string) | Forwarded (up : Upstream) | HandlerFailed.

(** [describeFailure]: the status and the code. *)
Definition describeFailure (f : SubstitutionFailure) : Z * string :=
  match f with
  | unknown_secret _ => (400, "unknown_secret")
  | secret_not_allowed_for_host _ _ => (403, "secret_not_allowed_for_host")
  | secret_not_allowed_in_body _ _ _ => (403, "secret_not_allowed_in_body")
  | secrets_unavailable => (503, "secrets_unavailable")
  end.

(** The refusals already reported, by connector, kind and credential; whether the proxy is closed;
    and the reports its caller got. *)
Record ProxyState := mkProxyState {
  ps_reported : list (string * RejectionKind * bool); ps_closed : bool; ps_reports : list ConnectorRunRejection
}.

Section Proxy.
Context (URL : string -> option Url) (lookup : string -> option string)
  (decodeBase64 encodeBase64 : string -> string) (parseJson : string -> option Substitution.Json) (showIndex : nat -> string)
  (decodeUtf8 : list Z -> string) (encodeUtf8 : string -> list Z) (showNumber : JsNumber -> string).

(** [isAuthorized]; the comparison in constant time is an equality. *)
Definition isAuthorized (cfg : RunProxyConfig) (header : option string) : bool :=
  match pc_token cfg with
  | None => true
  | Some expected =>
      match truthyText header with
      | None => false
      | Some h =>
          match matchBasicScheme (trim h) with
          | None => false
          | Some b64 =>
              match afterColon (decodeBase64 b64) with
              | None => false
              | Some password =>
                  let candidate := hexBytes password in
                  if negb (length candidate =? length expected)%nat then false else bool_decide (candidate = expected)
              end
          end
      end
  end.

Definition resolveTarget (isSSL : bool) (connectHost : option string) (req : ProxyRequest) : TargetAddress :=
  let hostHeader := default "" (headerValue (rq_headers req) "host") in
  let parts := split_on ":" hostHeader in
  if isSSL then
    let portFromHeader := match parts with _ :: p :: _ => toNumber p | _ => NaN end in
    mkTarget (default (hd "" parts) connectHost) (if isPositiveFinite portFromHeader then portFromHeader else Finite 443 0)
      (default "/" (rq_url req))
  else
    let rawUrl := default "/" (rq_url req) in
    match URL (if startsWith rawUrl "http" then rawUrl else "http://" +:+ hostHeader +:+ rawUrl) with
    | Some u => mkTarget (toLowerCase (url_hostname u)) (if nonempty (url_port u) then toNumber (url_port u) else Finite 80 0)
                  (url_pathname u +:+ url_search u)
    | None => mkTarget (hd "" parts) (Finite 80 0) rawUrl
    end.

Definition isSelf (cfg : RunProxyConfig) (host : string) (port : JsNumber) : bool :=
  match integerOf port with Some n => isSelfEndpoint host n (pc_selfEndpoint cfg) | None => false end.

Definition guardsTarget (cfg : RunProxyConfig) (host : string) (port : JsNumber) : bool :=
  negb (pc_allowPrivateTargets cfg) && negb (isSelf cfg host port).

(** The destination check of [forward]: the answer, or the address to dial. *)
Definition checkTarget (cfg : RunProxyConfig) (host : string) (port : JsNumber) : Outcome + string :=
  if guardsTarget cfg host port then
    if isBlockedEgressHost host then inl (Responded 403 "target_not_allowed")
    else match resolveGuardedAddress lookup isBlockedEgressAddress host with
         | Dial address => inr address
         | BlockedTarget _ _ => inl (Responded 403 "target_not_allowed")
         | LookupFailed => inl (Responded 502 "dns_failed")
         end
  else inr host.

(** What [onConnect] does with a tunnel: [true] sets it up. *)
Inductive ConnectOutcome := ProxyAuthRequired | ConnectForbidden | Bridged (host : string).

Fixpoint lastColon (s : string) : option (string * string) :=
  match s with
  | EmptyString => None
  | String c r =>
      match lastColon r with
      | Some (h, p) => Some (String c h, p)
      | None => if Ascii.eqb c ":" then Some ("", r) else None
      end
  end.

Definition onConnect (cfg : RunProxyConfig) (req : ProxyRequest) : ConnectOutcome :=
  let target := default "" (rq_url req) in
  let '(host, portText) := match lastColon target with Some p => p | None => (target, target) end in
  let host := toLowerCase host in
  if negb (isAuthorized cfg (headerValue (rq_headers req) "proxy-authorization")) then ProxyAuthRequired
  else
    let port := toNumber portText in
    let connectPort := match port with NaN | Finite 0 _ => Finite 443 0 | _ => port end in
    if guardsTarget cfg host connectPort && isBlockedEgressHost host then ConnectForbidden else Bridged host.

(** The headers to send, before substitution. *)
Definition portIs (port : JsNumber) (n : Z) : bool := bool_decide (integerOf port = Some n).

Definition hostWithPort (isSSL : bool) (host : string) (port : JsNumber) : string :=
  if portIs port (if isSSL then 443 else 80) then host
  else host +:+ ":" +:+ match integerPort port with Some n => toString 10 n | None => showNumber port end.

Definition outgoingHeaders (isSSL : bool) (host dialHost : string) (port : JsNumber) (headers : Headers) : Headers :=
  let headers := List.filter (fun h => negb (isProxyHeader (fst h) || isHopByHop (fst h))) headers in
  let headers := if isSSL then dropHeader "Host" (dropHeader "host" headers) else headers in
  if String.eqb dialHost host then headers else assign "host" (One (hostWithPort isSSL host port)) headers.

Definition headersContainProbe (headers : Headers) : bool :=
  existsb (fun h => match snd h with
                    | One v => headerValueCarriesPlaceholder decodeBase64 (fst h) v
                    | Many vs => existsb (headerValueCarriesPlaceholder decodeBase64 (fst h)) vs
                    | Undefined => false
                    end) headers.

(** The binding of the host and port, if the port is one a key can name. *)
Definition bindingFor (cfg : RunProxyConfig) (host : string) (port : JsNumber) : option McpHostBinding :=
  n ← integerPort port; field (mcpRestrictionKey host n) (pc_mcpBindings cfg).

Definition inspected (cfg : RunProxyConfig) (host : string) (port : JsNumber) (method : string) (headers : Headers)
    : option McpHostRestriction :=
  if mayCarryJsonRpc method headers then bindingFor cfg host port ≫= mb_restriction else None.

(** The shared read of the body, and the method guard on it. *)
Definition readAndInspect (restriction : option McpHostRestriction) (eligible : bool) (b : BodyStream) : Outcome + option (list Z) :=
  match restriction with
  | Some r =>
      match readBodyCapped b MAX_MCP_INSPECTION_BYTES with
      | TooLarge => inl (Responded 403 "mcp_method_not_enabled")
      | ReadFailed => inl HandlerFailed
      | BodyRead buffer =>
          match shouldBlockMcpRequest (units (decodeUtf8 buffer)) (List.map units (re_enabled r)) with
          | Passes => inr (Some buffer)
          | _ => inl (Responded 403 "mcp_method_not_enabled")
          end
      end
  | None =>
      if eligible then
        match readBodyCapped b MAX_BODY_SUBSTITUTION_BYTES with
        | TooLarge => inl (Responded 413 "body_too_large")
        | ReadFailed => inl HandlerFailed
        | BodyRead buffer => inr (Some buffer)
        end
      else inr None
  end.

(** [reportRejection]. *)
Definition reportRejection (cfg : RunProxyConfig) (c : McpHostConnector) (kind : RejectionKind) (status : Z) (reason : string)
    (credentialSent : bool) (st : ProxyState) : ProxyState :=
  if negb (pc_reports cfg) || ps_closed st then st
  else if bool_decide ((hc_id c, kind, credentialSent) ∈ ps_reported st) then st
  else mkProxyState ((hc_id c, kind, credentialSent) :: ps_reported st) (ps_closed st)
         (ps_reports st ++ [mkRejection (hc_id c) (hc_name c) (hc_credentialed c) kind status reason credentialSent]).

Definition reportFor (cfg : RunProxyConfig) (connector : option McpHostConnector) (reason : string) (st : ProxyState) : ProxyState :=
  match connector with Some c => reportRejection cfg c SubstitutionFailed 0 reason true st | None => st end.

(** [pipeUpstream] and [forwardBuffered]: the request handed to the platform. *)
Definition send (isSSL : bool) (host dialHost : string) (port : JsNumber) (method path : string) (headers : Headers)
    (buffered : option (list Z)) (b : BodyStream) (logPath : string) (observer : option (McpHostConnector * bool)) : Outcome :=
  match buffered with
  | Some bytes =>
      let out := assign "content-length" (One (showNumber (Finite (blen bytes) 0))) headers in
      Forwarded (mkUpstream isSSL host dialHost port method path (dropHeader "transfer-encoding" out) (Buffered bytes) logPath observer)
  | None => Forwarded (mkUpstream isSSL host dialHost port method path headers (Streamed b) logPath observer)
  end.

Definition forward (cfg : RunProxyConfig) (store : SecretStore) (isSSL : bool) (connectHost : option string) (req : ProxyRequest)
    (st : ProxyState) : ProxyState * Outcome :=
  let '(mkTarget host port path) := resolveTarget isSSL connectHost req in
  match checkTarget cfg host port with
  | inl answer => (st, answer)
  | inr dialHost =>
      let method := default "GET" (rq_method req) in
      let headers := outgoingHeaders isSSL host dialHost port (rq_headers req) in
      let url := (if isSSL then "https" else "http") +:+ "://" +:+ host +:+ path in
      let probeInUrlOrHeaders := includes path PLACEHOLDER_PROBE || headersContainProbe headers in
      let eligible := isBodySubstitutionEligible method headers in
      let connector := b ← bindingFor cfg host port; connectorForPath b path in
      let observer := (fun c => (c, probeInUrlOrHeaders)) <$> connector in
      match readAndInspect (inspected cfg host port method headers) eligible (rq_body req) with
      | inl answer => (st, answer)
      | inr buffered =>
          let probeInBody := match buffered with Some b => includes (decodeUtf8 b) PLACEHOLDER_PROBE | None => false end in
          if probeInUrlOrHeaders || probeInBody then
            match store with
            | StoreLocked => (reportFor cfg connector "secrets_unavailable" st, Responded 503 "secrets_unavailable")
            | StoreFailed => (st, HandlerFailed)
            | StoreOpen secrets =>
                let result := substituteRequest decodeBase64 encodeBase64 parseJson showIndex
                                (mkInputs url headers host (decodeUtf8 <$> buffered)) secrets in
                match failure result with
                | Some f => let '(status, error) := describeFailure f in
                            (reportFor cfg connector error st, Responded status error)
                | None =>
                    let headers := if headersChanged result
                                   then fold_left (fun hs h => assign (fst h) (snd h) hs) (r_headers result) headers else headers in
                    let upstreamPath := if urlChanged result
                                        then match URL (r_url result) with Some u => url_pathname u +:+ url_search u | None => path end
                                        else path in
                    let outBody := match r_body result with
                                   | Some text => if bodyChanged result then Some (encodeUtf8 text) else buffered
                                   | None => buffered
                                   end in
                    (st, send isSSL host dialHost port method upstreamPath headers outBody (rq_body req) path observer)
                end
            end
          else (st, send isSSL host dialHost port method path headers buffered (rq_body req) path observer)
      end
  end.

(** The front server's handler of a plain request, and the per-host server's of a decrypted one. *)
Definition onRequest (cfg : RunProxyConfig) (store : SecretStore) (req : ProxyRequest) (st : ProxyState) : ProxyState * Outcome :=
  if negb (isAuthorized cfg (headerValue (rq_headers req) "proxy-authorization")) then (st, Responded 407 "proxy_auth_required")
  else forward cfg store false None req st.

(** ** What is reported of an answer *)

Inductive ProxyEvent :=
| Request (store : SecretStore) (isSSL : bool) (connectHost : option string) (req : ProxyRequest)
| UpstreamAnswered (observer : McpHostConnector * bool) (status : Z)
| UpstreamFailed (observer : McpHostConnector * bool) (headersSent : bool) (reason : string)
| ResetRejections
| CloseProxy.

Definition proxyStep (cfg : RunProxyConfig) (st : ProxyState) (e : ProxyEvent) : ProxyState :=
  match e with
  | Request store isSSL connectHost req => fst (forward cfg store isSSL connectHost req st)
  | UpstreamAnswered (c, sent) status =>
      if (status =? 401) || (status =? 403)
      then reportRejection cfg c UpstreamRejected status ("http_" +:+ toString 10 status) sent st else st
  | UpstreamFailed (c, sent) headersSent reason =>
      if negb headersSent && negb (ps_closed st) then reportRejection cfg c UpstreamUnreachable 0 reason sent st else st
  | ResetRejections => mkProxyState [] (ps_closed st) (ps_reports st)
  | CloseProxy => mkProxyState (ps_reported st) true (ps_reports st)
  end.
End Proxy.

(** ** Facts of the parts *)

Lemma field_filter {V} (p : string -> bool) k (o : list (string * V)) : p k = true ->
  field k (List.filter (fun h => p (fst h)) o) = field k o.
Proof.
  intros Hp. induction o as [|[k' v] o IH]; [done|]. cbn. destruct (p k') eqn:E; cbn; [by rewrite IH|].
  case_bool_decide; [congruence|done].
Qed.

Lemma outgoing_field showNumber k isSSL host dialHost port headers : toLowerCase k = k ->
  isProxyHeader k = false -> isHopByHop k = false -> k <> "host" -> k <> "Host" ->
  field k (outgoingHeaders showNumber isSSL host dialHost port headers) = field k headers.
Proof.
  intros _ Hp Hh H1 H2. unfold outgoingHeaders.
  set (hs := List.filter (fun h => negb (isProxyHeader (fst h) || isHopByHop (fst h))) headers).
  assert (field k hs = field k headers) as <-.
  { apply (field_filter (fun k => negb (isProxyHeader k || isHopByHop k))). by rewrite Hp, Hh. }
  assert (field k (if isSSL then dropHeader "Host" (dropHeader "host" hs) else hs) = field k hs) as <-.
  { destruct isSSL; [|done]. unfold dropHeader.
    rewrite (field_filter (fun k => negb (String.eqb k "Host"))), (field_filter (fun k => negb (String.eqb k "host")));
      [done|by apply negb_true_iff, String.eqb_neq|by apply negb_true_iff, String.eqb_neq]. }
  destruct (String.eqb dialHost host); [done|]. rewrite field_assign. by rewrite bool_decide_false by congruence.
Qed.

Lemma mayCarry_outgoing showNumber isSSL host dialHost port method headers :
  mayCarryJsonRpc method (outgoingHeaders showNumber isSSL host dialHost port headers) = mayCarryJsonRpc method headers.
Proof. unfold mayCarryJsonRpc, headerValue. by rewrite outgoing_field. Qed.

Lemma readChunks_spec cap chunks total acc ends buffer : readChunks cap total acc chunks ends = BodyRead buffer -> total = blen acc -> total <= cap ->
  ends = true /\ buffer = acc ++ concat chunks /\ blen buffer <= cap.
Proof.
  revert total acc. induction chunks as [|c chunks IH]; intros total acc; cbn [readChunks].
  - destruct ends; [|done]. intros [= <-] -> H. cbn. by rewrite app_nil_r.
  - destruct (Z.gtb_spec (total + blen c) cap) as [|Hle]; [done|]. intros H -> _.
    apply IH in H as (? & -> & ?); [|by rewrite blen_app|done]. cbn [concat]. rewrite app_assoc. done.
Qed.

Lemma readBodyCapped_spec b cap buffer : readBodyCapped b cap = BodyRead buffer -> 0 <= cap ->
  bs_ends b = true /\ buffer = concat (bs_chunks b) /\ blen buffer <= cap.
Proof. intros H Hc. by apply (readChunks_spec cap (bs_chunks b) 0 []). Qed.

(** Names of headers the proxy may send. *)
Definition relayable (headers : Headers) : Prop := forall n, In n (List.map fst headers) -> isProxyHeader n = false /\ isHopByHop n = false.

Lemma relayable_assign n v hs : isProxyHeader n = false -> isHopByHop n = false -> relayable hs -> relayable (assign n v hs).
Proof.
  intros H1 H2 H x. rewrite assign_keys. case_bool_decide; [apply H|]. rewrite in_app_iff. intros [Hx|[<-|[]]]; [by apply H|done].
Qed.

Lemma relayable_filter p hs : relayable hs -> relayable (List.filter p hs).
Proof. intros H n (h & <- & [Hin _]%filter_In)%in_map_iff. apply H. by apply in_map. Qed.

Lemma relayable_assigns l hs : relayable l -> relayable hs -> relayable (fold_left (fun hs h => assign (fst h) (snd h) hs) l hs).
Proof.
  revert hs. induction l as [|h l IH]; intros hs Hl Hhs; [done|]. cbn. destruct (Hl (fst h)) as [? ?]; [by left|].
  apply IH; [intros n Hn; apply Hl; by right|by apply relayable_assign].
Qed.

Lemma outgoing_relayable showNumber isSSL host dialHost port headers : relayable (outgoingHeaders showNumber isSSL host dialHost port headers).
Proof.
  unfold outgoingHeaders. set (hs := List.filter _ headers).
  assert (relayable hs) as H0. { intros n (h & <- & [_ H]%filter_In)%in_map_iff. by apply negb_true_iff, orb_false_iff in H. }
  assert (relayable (if isSSL then dropHeader "Host" (dropHeader "host" hs) else hs)) as H1
    by (destruct isSSL; [by do 2 apply relayable_filter|done]).
  destruct (String.eqb dialHost host); [done|]. by apply relayable_assign.
Qed.

(** Substitution keeps the names of the headers. *)
Lemma applyHeader_names decodeBase64 encodeBase64 v h hs st :
  incl (List.map fst (hs_out (fold_left (applyHeader decodeBase64 encodeBase64 v h) hs st))) (List.map fst (hs_out st) ++ List.map fst hs).
Proof.
  revert st. induction hs as [|[n val] hs IH]; intros st; cbn [fold_left List.map]; [rewrite app_nil_r; apply incl_refl|].
  intros x Hx%IH. rewrite in_app_iff in *. destruct Hx as [Hx|Hx]; [|right; by right].
  enough (In x (List.map fst (hs_out st) ++ [n])) as [?|[<-|[]]]%in_app_iff by (solve [by left] || (right; by left)). revert Hx. clear.
  destruct val as [raw|vs|]; cbn [applyHeader].
  - destruct (if String.eqb _ _ then _ else _) as [out used]. cbn [hs_out]. by rewrite List.map_app.
  - assert (forall st, hs_out (snd (applyMany v h vs st)) = hs_out st) as Hm.
    { clear. induction vs as [|y vs IH]; intros st; [done|]. cbn [applyMany]. destruct (applyToString _ _ y _) as [out used].
      specialize (IH (mkHS (hs_out st) (changed out || hs_changed st) used (orFailure (hs_failure st) (a_failure out)))).
      destruct (applyMany v h vs _) as [rest st']. exact IH. }
    specialize (Hm st). destruct (applyMany v h vs st) as [vs' st']. cbn [hs_out snd] in *. rewrite List.map_app, Hm. done.
  - intros H. apply in_app_iff. by left.
Qed.

Lemma substituted_names decodeBase64 encodeBase64 parseJson showIndex input v :
  incl (List.map fst (r_headers (substituteRequest decodeBase64 encodeBase64 parseJson showIndex input v))) (List.map fst (headers input)).
Proof.
  unfold substituteRequest. pose proof (applyHeader_names decodeBase64 encodeBase64 v (Substitution.host input) (headers input) (mkHS [] false ∅ None)) as H.
  destruct (applyToString _ _ (url input) _) as [urlOut used]. destruct (Substitution.body input) as [text|]; [|exact H].
  destruct (applyToString _ _ text _) as [bodyOut used']. exact H.
Qed.

(** ** What is forwarded *)

Section Forwarding.
Context (URL : string -> option Url) (lookup : string -> option string)
  (decodeBase64 encodeBase64 : string -> string) (parseJson : string -> option Substitution.Json) (showIndex : nat -> string)
  (decodeUtf8 : list Z -> string) (encodeUtf8 : string -> list Z) (showNumber : JsNumber -> string).

Notation forward := (forward URL lookup decodeBase64 encodeBase64 parseJson showIndex decodeUtf8 encodeUtf8 showNumber).
Notation resolveTarget := (resolveTarget URL).

(** Everything a forwarded request went through. *)
Record went_through (cfg : RunProxyConfig) (isSSL : bool) (connectHost : option string) (req : ProxyRequest) (up : Upstream)
    (buffered : option (list Z)) : Prop := {
  wt_host : up_host up = ta_host (resolveTarget isSSL connectHost req);
  wt_port : up_port up = ta_port (resolveTarget isSSL connectHost req);
  wt_target : checkTarget lookup cfg (up_host up) (up_port up) = inr (up_dialHost up);
  wt_method : up_method up = default "GET" (rq_method req);
  wt_log : up_logPath up = ta_path (resolveTarget isSSL connectHost req);
  wt_body : readAndInspect decodeUtf8
      (inspected cfg (up_host up) (up_port up) (up_method up)
         (outgoingHeaders showNumber isSSL (up_host up) (up_dialHost up) (up_port up) (rq_headers req)))
      (isBodySubstitutionEligible (up_method up)
         (outgoingHeaders showNumber isSSL (up_host up) (up_dialHost up) (up_port up) (rq_headers req))) (rq_body req) = inr buffered;
  wt_sent : match buffered with
            | Some bytes => up_body up = Buffered bytes \/ (includes (decodeUtf8 bytes) PLACEHOLDER_PROBE = true /\ exists text, up_body up = Buffered (encodeUtf8 text))
            | None => up_body up = Streamed (rq_body req)
            end;
  wt_headers : relayable (up_headers up)
}.

Lemma body_unprobed input v text : Substitution.body input = Some text -> includes text PLACEHOLDER_PROBE = false ->
  bodyChanged (substituteRequest decodeBase64 encodeBase64 parseJson showIndex input v) = false.
Proof.
  intros Hb Hp. unfold substituteRequest. destruct (applyToString _ _ (url input) _) as [urlOut used]. rewrite Hb.
  unfold applyToString. rewrite Hp. done.
Qed.

Lemma no_body input v : Substitution.body input = None -> r_body (substituteRequest decodeBase64 encodeBase64 parseJson showIndex input v) = None.
Proof. intros Hb. unfold substituteRequest. destruct (applyToString _ _ (url input) _) as [urlOut used]. by rewrite Hb. Qed.

Lemma send_shape isSSL host dialHost port method path hs buffered b logPath observer up :
  send showNumber isSSL host dialHost port method path hs buffered b logPath observer = Forwarded up ->
  up_host up = host /\ up_port up = port /\ up_dialHost up = dialHost /\ up_method up = method /\ up_logPath up = logPath /\
  up_body up = match buffered with Some bytes => Buffered bytes | None => Streamed b end /\
  (relayable hs -> relayable (up_headers up)).
Proof.
  unfold send. destruct buffered; intros [= <-]; split_and!; try done. intros H. cbn. by apply relayable_filter, relayable_assign.
Qed.

Lemma forward_went_through cfg store isSSL connectHost req st st' up :
  forward cfg store isSSL connectHost req st = (st', Forwarded up) -> exists buffered, went_through cfg isSSL connectHost req up buffered.
Proof.
  unfold EgressProxy.forward. destruct (resolveTarget isSSL connectHost req) as [host port path] eqn:Et.
  destruct (checkTarget lookup cfg host port) as [answer|dialHost] eqn:Ec.
  { unfold checkTarget in Ec. destruct (guardsTarget _ _ _); [|done]. destruct (isBlockedEgressHost host); [by injection Ec as <-|].
    destruct (resolveGuardedAddress _ _ _); [done|by injection Ec as <-|by injection Ec as <-]. }
  set (hs := outgoingHeaders showNumber isSSL host dialHost port (rq_headers req)).
  destruct (readAndInspect _ _ _ _) as [answer|buffered] eqn:Er.
  { intros [= _ ->]. unfold readAndInspect in Er. destruct (inspected _ _ _ _ _).
    - destruct (readBodyCapped _ _); [done| |done]. by destruct (shouldBlockMcpRequest _ _).
    - destruct (isBodySubstitutionEligible _ _); [|done]. by destruct (readBodyCapped _ _). }
  assert (Hrel : relayable hs) by apply outgoing_relayable.
  assert (Hmk : forall hs' path' out observer, (relayable hs -> relayable hs') ->
    (match buffered with
     | Some bytes => out = Some bytes \/ (includes (decodeUtf8 bytes) PLACEHOLDER_PROBE = true /\ exists text, out = Some (encodeUtf8 text))
     | None => out = None
     end) -> send showNumber isSSL host dialHost port (default "GET" (rq_method req)) path' hs' out (rq_body req) path observer = Forwarded up ->
    went_through cfg isSSL connectHost req up buffered).
  { intros hs' path' out observer Hhs Hout (Hh & Hp & Hd & Hm & Hl & Hb & Hr)%send_shape.
    constructor; rewrite ?Et, ?Hh, ?Hp, ?Hd, ?Hm; try done; [|by apply Hr, Hhs].
    destruct buffered as [bytes|]; [|by rewrite Hb, Hout]. destruct Hout as [-> |(Hpr & text & ->)]; rewrite Hb; [by left|right; eauto]. }
  clearbody hs. intros Hf. exists buffered. revert Hf. destruct (_ || match buffered with Some b => _ | None => false end).
  - destruct store as [| |v]; [done|done|]. destruct (failure _) as [f|]; [destruct (describeFailure f); done|].
    intros [= _ Hs]. revert Hs. apply Hmk.
    + intros _. destruct (headersChanged _); [|done]. apply relayable_assigns; [|done]. intros n Hn%substituted_names. by apply Hrel.
    + destruct buffered as [bytes|]; [|by rewrite no_body]. destruct (r_body _) as [text|]; [|by left].
      destruct (bodyChanged _) eqn:Eb; [|by left]. right. destruct (includes (decodeUtf8 bytes) PLACEHOLDER_PROBE) eqn:Ei; [eauto|].
      rewrite (body_unprobed _ _ (decodeUtf8 bytes)) in Eb; done.
  - intros [= _ Hs]. revert Hs. apply Hmk; [done|]. destruct buffered; [by left|done].
Qed.

(** C2. Confinement holds at the proxy: what it does with a request, the request it sends on or
    the answer it gives, and what it reports, does not depend on any secret that may not go to
    the host of the request. *)
Theorem proxy_confines_secrets cfg v1 v2 isSSL connectHost req st :
  vaults_alike (ta_host (resolveTarget isSSL connectHost req)) v1 v2 ->
  forward cfg (StoreOpen v1) isSSL connectHost req st = forward cfg (StoreOpen v2) isSSL connectHost req st.
Proof.
  intros Ha. unfold EgressProxy.forward. destruct (resolveTarget isSSL connectHost req) as [host port path].
  destruct (checkTarget _ _ _ _); [done|]. destruct (readAndInspect _ _ _ _) as [|buffered]; [done|].
  by rewrite (substituteRequest_alike decodeBase64 encodeBase64 parseJson showIndex _ v1 v2).
Qed.

(** C30. What leaves the proxy was checked. A request is sent to the host it named, at an address
    that passed the guard (unless private targets are allowed or the host is the server's own
    endpoint): the host is not refused by name, the address dialled is not refused, and it is the
    literal or what the lookup gave. No header of a hop and no proxy header is sent on, in
    particular not the credentials of the proxy; and the path a failure logs is the one of the
    request, before substitution. *)
Theorem forwarded_is_checked cfg store isSSL connectHost req st st' up :
  forward cfg store isSSL connectHost req st = (st', Forwarded up) ->
  let target := resolveTarget isSSL connectHost req in
  up_host up = ta_host target /\ up_port up = ta_port target /\ up_logPath up = ta_path target /\
  (pc_allowPrivateTargets cfg = true \/ isSelf cfg (up_host up) (up_port up) = true \/
     (isBlockedEgressHost (up_host up) = false /\ isBlockedEgressAddress (up_dialHost up) = false /\
      (up_dialHost up = bareHost (up_host up) \/ lookup (bareHost (up_host up)) = Some (up_dialHost up)))) /\
  (forall n v, In (n, v) (up_headers up) -> isProxyHeader n = false /\ isHopByHop n = false).
Proof.
  intros (buffered & [Hh Hp Ht _ Hl _ _ Hr])%forward_went_through. cbn zeta. split_and!; [done|done|done| |].
  - unfold checkTarget, guardsTarget in Ht. destruct (pc_allowPrivateTargets cfg); [by left|]. destruct (isSelf _ _ _); [by right; left|].
    cbn [negb andb] in Ht. destruct (isBlockedEgressHost (up_host up)); [done|]. right. right. split; [done|].
    unfold resolveGuardedAddress in Ht. destruct (negb _).
    + destruct (isBlockedEgressAddress (bareHost _)) eqn:E; [done|]. injection Ht as <-. auto.
    + destruct (lookup _) as [a|]; [|done]. destruct (isBlockedEgressAddress a) eqn:E; [done|]. injection Ht as <-. auto.
  - intros n v Hin. apply Hr. by apply (in_map fst) in Hin.
Qed.

(** C4. A restricted server is called only for what an operator enabled. When the host and port
    of a forwarded request back connectors of the run of which one has an allowlist, and the
    request may carry JSON, the proxy read the whole body, at most 256 KiB of it, and every tool
    that body calls is enabled by some connector in scope on that host and port; what is sent is
    that body, unless it held a placeholder. *)
Theorem restricted_calls_enabled nameOrder projectId table cfg store isSSL connectHost req st st' up b r :
  pc_mcpBindings cfg = loadMcpHostBindings nameOrder URL projectId table ->
  forward cfg store isSSL connectHost req st = (st', Forwarded up) ->
  bindingFor cfg (up_host up) (up_port up) = Some b -> mb_restriction b = Some r ->
  mayCarryJsonRpc (default "GET" (rq_method req)) (rq_headers req) = true ->
  let bytes := concat (bs_chunks (rq_body req)) in
  blen bytes <= 262144 /\
  (forall called, Calls (units (decodeUtf8 bytes)) called ->
     exists row u ms m, In row (loadConnectorsInScope nameOrder projectId table) /\ boundUrl URL row = Some u /\
       Some (urlKey u) = (mcpRestrictionKey (up_host up) <$> integerPort (up_port up)) /\ cr_enabled row = Some ms /\ m ∈ ms /\ called = units m) /\
  (includes (decodeUtf8 bytes) PLACEHOLDER_PROBE = false -> up_body up = Buffered bytes).
Proof.
  intros Hcfg Hf Hb Hr Hm. apply forward_went_through in Hf as (buffered & [Hh Hp _ Hmeth _ Hbody Hsent _]).
  unfold inspected in Hbody. rewrite mayCarry_outgoing, Hmeth, Hm, Hb in Hbody. cbn [mbind option_bind] in Hbody. rewrite Hr in Hbody.
  cbn [readAndInspect] in Hbody. destruct (readBodyCapped _ _) as [|buffer|] eqn:Eread; [done| |done].
  apply readBodyCapped_spec in Eread as (_ & -> & Hlen); [|done]. cbn zeta. set (bytes := concat _) in *.
  destruct (shouldBlockMcpRequest _ _) eqn:Eg; [|done|done]. injection Hbody as <-. split_and!; [done| |].
  - intros called Hc. pose proof (passed_calls_enabled _ _ _ Eg Hc) as (m & Hcm & Hin)%list_elem_of_In%in_map_iff.
    unfold bindingFor in Hb. destruct (integerPort (up_port up)) as [n|]; [|done]. cbn [mbind option_bind] in Hb. rewrite Hcfg, binding_at in Hb.
    destruct (List.filter _ _) as [|x l] eqn:El; [done|]. rewrite <- El in *. injection Hb as <-. cbn [mb_restriction] in Hr.
    apply list_elem_of_In, (proj2 (restrictAll_spec _ None) r Hr) in Hin as [(? & ? & _)|(row & ms & Hrow & He & Hm')]; [done|].
    apply boundAt_spec in Hrow as (Hrow & u & Hu & Hk). exists row, u, ms, m. split_and!; try done. cbn. by rewrite Hk.
  - intros Hnp. destruct Hsent as [? |[Hpr _]]; [done|congruence].
Qed.
End Forwarding.

(** ** Reports *)

Section Reports.
Context (URL : string -> option Url) (lookup : string -> option string)
  (decodeBase64 encodeBase64 : string -> string) (parseJson : string -> option Substitution.Json) (showIndex : nat -> string)
  (decodeUtf8 : list Z -> string) (encodeUtf8 : string -> list Z) (showNumber : JsNumber -> string) (cfg : RunProxyConfig).

Notation step := (proxyStep URL lookup decodeBase64 encodeBase64 parseJson showIndex decodeUtf8 encodeUtf8 showNumber cfg).

Definition reportKey (r : ConnectorRunRejection) : string * RejectionKind * bool := (cj_connectorId r, cj_kind r, cj_credentialSent r).

(** One step without a reset: the same, closed, or one report of a kind not reported yet. *)
Definition report_step (st st' : ProxyState) : Prop :=
  (ps_reported st' = ps_reported st /\ ps_reports st' = ps_reports st /\ (ps_closed st = true -> ps_closed st' = true)) \/
  (ps_closed st = false /\ exists r, reportKey r ∉ ps_reported st /\ ps_reported st' = reportKey r :: ps_reported st /\
     ps_reports st' = ps_reports st ++ [r]).

Lemma reportRejection_step c kind status reason sent st : report_step st (reportRejection cfg c kind status reason sent st).
Proof.
  unfold reportRejection. destruct (negb (pc_reports cfg)); [by left|]. destruct (ps_closed st) eqn:E; cbn [orb]; [by left|].
  case_bool_decide as Hin; [by left|]. right. split; [done|]. exists (mkRejection (hc_id c) (hc_name c) (hc_credentialed c) kind status reason sent). by split_and!.
Qed.

Lemma report_step_refl st : report_step st st.
Proof. by left. Qed.

Lemma step_reports st e : e <> ResetRejections -> report_step st (step st e).
Proof.
  intros He. destruct e as [store isSSL connectHost req|[c sent] status|[c sent] hsent reason| |]; cbn [proxyStep]; [| | |done|by left].
  - unfold forward. destruct (resolveTarget _ _ _ _) as [host port path]. destruct (checkTarget _ _ _ _); [apply report_step_refl|].
    set (connector := _ ≫= _). clearbody connector.
    destruct (readAndInspect _ _ _ _); [apply report_step_refl|]. destruct (_ || match _ with Some _ => _ | None => false end); [|apply report_step_refl].
    destruct store as [| |v]; [|apply report_step_refl|].
    + unfold reportFor. destruct connector; [apply reportRejection_step|apply report_step_refl].
    + destruct (failure _) as [f|]; [|apply report_step_refl]. destruct (describeFailure f). unfold reportFor.
      destruct connector; [apply reportRejection_step|apply report_step_refl].
  - destruct (_ || _); [apply reportRejection_step|apply report_step_refl].
  - destruct (_ && _); [apply reportRejection_step|apply report_step_refl].
Qed.

(** Reports since a state with nothing reported. *)
Lemma reports_distinct es st : (forall e, In e es -> e <> ResetRejections) -> forall old new, ps_reports st = old ++ new ->
  ps_reported st = rev (List.map reportKey new) -> NoDup (List.map reportKey new) ->
  exists new', ps_reports (fold_left step es st) = old ++ new' /\ NoDup (List.map reportKey new').
Proof.
  revert st. induction es as [|e es IH]; intros st Hes old new Hr Hk Hnd; [by exists new|]. cbn [fold_left].
  destruct (step_reports st e (Hes e (or_introl eq_refl))) as [(E1 & E2 & _)|(_ & r & Hnot & E1 & E2)].
  - apply (IH _ (fun x Hx => Hes x (or_intror Hx)) old new); congruence.
  - apply (IH _ (fun x Hx => Hes x (or_intror Hx)) old (new ++ [r])).
    + rewrite E2, Hr. by rewrite app_assoc.
    + rewrite E1, Hk, List.map_app, rev_app_distr. done.
    + rewrite List.map_app. apply list.NoDup_app. split_and!; [done| |apply NoDup_singleton].
      intros x Hx ->%list_elem_of_singleton. apply Hnot. rewrite Hk, list_elem_of_In, <- in_rev, <- list_elem_of_In. done.
Qed.

(** A connector's refusal is reported once. Over any requests and answers, between two
    resets no connector is reported twice for the same kind of refusal and the same use of a
    credential; an upstream that answers 401 or 403 has been reported, once it answered; and a
    closed proxy reports nothing. *)
Theorem rejections_reported_once es st :
  (ps_reported st = [] -> (forall e, In e es -> e <> ResetRejections) ->
     exists new, ps_reports (fold_left step es st) = ps_reports st ++ new /\ NoDup (List.map reportKey new)) /\
  (forall c sent status, pc_reports cfg = true -> ps_closed st = false -> status = 401 \/ status = 403 ->
     (hc_id c, UpstreamRejected, sent) ∈ ps_reported (step st (UpstreamAnswered (c, sent) status))) /\
  (ps_closed st = true -> ps_reports (fold_left step es st) = ps_reports st).
Proof.
  split_and!.
  - intros H0 Hes. apply (reports_distinct es st Hes (ps_reports st) []); [by rewrite app_nil_r|done|constructor].
  - intros c sent status Hrep Hopen Hs. cbn [proxyStep]. assert ((status =? 401) || (status =? 403) = true) as -> by (destruct Hs; subst; done).
    unfold reportRejection. rewrite Hrep, Hopen. cbn [negb orb]. case_bool_decide; [done|]. cbn. left.
  - revert st. induction es as [|e es IH]; intros st Hc; [done|]. cbn [fold_left].
    assert (ps_reports (step st e) = ps_reports st /\ ps_closed (step st e) = true) as [E1 E2]; [|by rewrite IH].
    assert (e = ResetRejections \/ e <> ResetRejections) as [-> |He] by (destruct e; auto; by right); [done|].
    destruct (step_reports st e He) as [(_ & ? & ?)|(? & _)]; [auto|congruence].
Qed.
End Reports.

(** ** Authentication *)

(** [token.toString('hex')]. *)
Definition hexByte (b : Z) : string := String (digitChar (b / 16)) (String (digitChar (b mod 16)) "").
Fixpoint hexText (l : list Z) : string := match l with [] => "" | b :: l => hexByte b +:+ hexText l end.

Definition PROXY_AUTH_USERNAME : string := "run".

Definition formatEgressProxyUrl (host : string) (port : Z) (token : option string) : string :=
  match truthyText token with
  | None => "http://" +:+ host +:+ ":" +:+ toString 10 port
  | Some t => "http://" +:+ PROXY_AUTH_USERNAME +:+ ":" +:+ t +:+ "@" +:+ host +:+ ":" +:+ toString 10 port
  end.

Lemma hexBytes_hexText l r : wf_bytes l -> hexBytes (hexText l +:+ r) = l ++ hexBytes r.
Proof.
  induction 1 as [|b l Hb _ IH]; [done|]. unfold is_byte in Hb. cbn [hexText]. unfold hexByte. rewrite !app_str_cons.
  change ("" +:+ hexText l) with (hexText l). cbn [hexBytes].
  destruct (digitChar_hex (b / 16)) as [D1 H1]; [split; [apply Z.div_pos; lia|apply Z.div_lt_upper_bound; lia]|].
  destruct (digitChar_hex (b mod 16)) as [D2 H2]; [apply Z.mod_pos_bound; lia|].
  unfold isHex. rewrite H1, H2, D1, D2, IH. cbn [orb andb app]. f_equal. pose proof (Z.div_mod b 16). lia.
Qed.

Lemma b64_facts c : is_b64 c = true -> is_space c = false /\ isLineEnd c = false.
Proof. destruct c as [[] [] [] [] [] [] [] []]; vm_compute; intros H; (discriminate H || by split). Qed.

Lemma basic_header scheme b64 : toLowerCase scheme = "basic" -> b64 <> "" -> everyChar is_b64 b64 = true ->
  truthyText (Some (scheme +:+ " " +:+ b64)) = Some (scheme +:+ " " +:+ b64) /\
  matchBasicScheme (trim (scheme +:+ " " +:+ b64)) = Some b64.
Proof.
  intros Hs Hne Hb.
  destruct scheme as [|c1 [|c2 [|c3 [|c4 [|c5 [|c6 s]]]]]]; try discriminate Hs. pose proof Hs as [= H1 H2 H3 H4 H5].
  assert (everyChar (fun c => negb (is_space c)) b64 = true) as Hsp.
  { eapply everyChar_impl; [|exact Hb]. intros c Hc. by rewrite (proj1 (b64_facts c Hc)). }
  assert (is_space c1 = false) as Hc1 by (rewrite <- is_space_lower, H1; done). split; [done|].
  assert (trim (String c1 (String c2 (String c3 (String c4 (String c5 "")))) +:+ " " +:+ b64)
          = String c1 (String c2 (String c3 (String c4 (String c5 (String " " b64)))))) as ->.
  { unfold trim. assert (trimStart (String c1 (String c2 (String c3 (String c4 (String c5 "")))) +:+ " " +:+ b64) =
      String c1 (String c2 (String c3 (String c4 (String c5 (String " " ""))))) +:+ b64) as -> by (rewrite app_str_cons; cbn [trimStart]; by rewrite Hc1).
    rewrite trimEnd_app by (done || by apply trimEnd_unspaced). done. }
  unfold matchBasicScheme. change (take_str 5 (String c1 (String c2 (String c3 (String c4 (String c5 (String " " b64)))))))
    with (String c1 (String c2 (String c3 (String c4 (String c5 ""))))).
  rewrite Hs. cbn [String.eqb Ascii.eqb Bool.eqb]. cbn [slice_from]. unfold JsString.span at 1; fold JsString.span. change (is_space " ") with true. cbn iota.
  assert (JsString.span is_space b64 = ("", b64)) as ->.
  { destruct b64 as [|x b64]; [done|]. cbn [everyChar] in Hsp. cbn [JsString.span]. apply andb_true_iff in Hsp as [Hx%negb_true_iff _]. by rewrite Hx. }
  cbn iota beta. change (nonempty (String " " "")) with true. assert (nonempty b64 = true) as -> by (by apply nonempty_neq).
  assert (everyChar (fun c => negb (isLineEnd c)) b64 = true) as ->; [|done].
  eapply everyChar_impl; [|exact Hb]. intros c Hc. by rewrite (proj2 (b64_facts c Hc)).
Qed.

(** The credentials a run is given, and only those, open its proxy. A client that makes
    basic credentials of the user information of the proxy's URL is let in, whatever the case of
    the scheme; and a header that is let in carries a password that decodes to the bytes of the
    token. The codec is the platform's: what it encodes is text without white space that it
    decodes again. *)
Theorem proxy_token_authenticates (decodeBase64 encodeBase64 : string -> string) cfg token :
  pc_token cfg = Some token -> wf_bytes token ->
  (forall s, s <> "" -> decodeBase64 (encodeBase64 s) = s /\ encodeBase64 s <> "" /\ everyChar is_b64 (encodeBase64 s) = true) ->
  (forall scheme, toLowerCase scheme = "basic" ->
     isAuthorized decodeBase64 cfg (Some (scheme +:+ " " +:+ encodeBase64 (PROXY_AUTH_USERNAME +:+ ":" +:+ hexText token))) = true) /\
  (forall header, isAuthorized decodeBase64 cfg header = true ->
     exists h b64 password, header = Some h /\ matchBasicScheme (trim h) = Some b64 /\
       afterColon (decodeBase64 b64) = Some password /\ hexBytes password = token).
Proof.
  intros Ht Hwf Hcodec. unfold isAuthorized. rewrite Ht. split.
  - intros scheme Hs. set (secret := PROXY_AUTH_USERNAME +:+ ":" +:+ hexText token).
    destruct (Hcodec secret) as (Hd & Hne & Hb); [done|]. set (b64 := encodeBase64 secret) in *.
    destruct (basic_header scheme b64 Hs Hne Hb) as [-> ->]. rewrite Hd. change (afterColon secret) with (Some (hexText token)).
    cbn zeta. rewrite <- (string_app_nil_r (hexText token)), (hexBytes_hexText token "") by done. cbn [hexBytes]. rewrite app_nil_r.
    rewrite Nat.eqb_refl. cbn [negb]. by apply bool_decide_eq_true.
  - intros [h|]; [|done]. cbn [truthyText]. destruct (nonempty h); [|done]. destruct (matchBasicScheme (trim h)) as [b64|] eqn:Em; [|done].
    destruct (afterColon (decodeBase64 b64)) as [password|] eqn:Ep; [|done]. destruct (negb _); [done|]. rewrite bool_decide_eq_true.
    intros Hx. exists h, b64, password. by split_and!.
Qed.

(** ** Concrete requests *)

Definition demo_lookup (h : string) : option string := if String.eqb h "mcp.example.com" then Some "93.184.216.34" else None.
Definition demo_text (l : list Z) : string := string_of_list_ascii (List.map (fun c => ascii_of_nat (Z.to_nat c)) l).
Definition demo_show (x : JsNumber) : string := match integerOf x with Some n => toString 10 n | None => "NaN" end.
Definition demo_cfg : RunProxyConfig :=
  mkProxyConfig None (loadMcpHostBindings lengthOrder demo_url None [demo_global]) false None true.
Definition demo_state : ProxyState := mkProxyState [] false [].
Definition demo_post (contentType : string) (call : string) : ProxyRequest :=
  mkRequest (Some "/v1/mcp") (Some "POST")
    [("host", One "mcp.example.com"); ("content-type", One contentType); ("proxy-authorization", One "Basic x");
     ("authorization", One "Bearer __HEZO_SECRET_GITHUB__")]
    (mkBody [demo_call call] true).
Definition demo_secret (v : string) : Vault := {["GITHUB" := mkSecret "GITHUB" v ["mcp.example.com"] false false]}.
Definition demo_forward (contentType call : string) : ProxyState * Outcome :=
  forward demo_url demo_lookup (fun s => s) (fun s => s) (fun _ => None) (fun _ => "0") demo_text units demo_show demo_cfg
    (StoreOpen (demo_secret "tok")) true (Some "mcp.example.com") (demo_post contentType call) demo_state.

Example withheld_tool_refused : demo_forward "application/json" "delete_repo" = (demo_state, Responded 403 "mcp_method_not_enabled").
Proof. vm_compute. done. Qed.

Lemma restricted_calls_enabled_witness :
  exists up, demo_forward "application/json; charset=utf-8" "list_issues" = (demo_state, Forwarded up) /\
    up_dialHost up = "93.184.216.34" /\ field "authorization" (up_headers up) = Some (One "Bearer tok") /\
    field "proxy-authorization" (up_headers up) = None /\ up_body up = Buffered (demo_call "list_issues").
Proof.
  eexists. split; [vm_compute; reflexivity|]. split; [reflexivity|]. split; [vm_compute; reflexivity|]. split; [vm_compute; reflexivity|].
  refine (proj2 (proj2 (restricted_calls_enabled demo_url demo_lookup (fun s => s) (fun s => s) (fun _ => None) (fun _ => "0") demo_text units demo_show
    lengthOrder None [demo_global] demo_cfg (StoreOpen (demo_secret "tok")) true (Some "mcp.example.com")
    (demo_post "application/json; charset=utf-8" "list_issues") demo_state demo_state _ _ _ eq_refl _ _ _ _)) _); vm_compute; reflexivity.
Defined.

Lemma forwarded_is_checked_witness :
  exists up, demo_forward "application/json" "list_issues" = (demo_state, Forwarded up) /\
    (forall n v, In (n, v) (up_headers up) -> isProxyHeader n = false /\ isHopByHop n = false).
Proof.
  eexists. split; [vm_compute; reflexivity|].
  refine (proj2 (proj2 (proj2 (proj2 (forwarded_is_checked demo_url demo_lookup (fun s => s) (fun s => s) (fun _ => None) (fun _ => "0") demo_text units
    demo_show demo_cfg (StoreOpen (demo_secret "tok")) true (Some "mcp.example.com") (demo_post "application/json" "list_issues") demo_state demo_state _ _))))).
  vm_compute. reflexivity.
Defined.

Definition demo_vault (s : string) : Vault :=
  <["OTHER" := mkSecret "OTHER" s ["elsewhere.example.com"] false true]> (demo_secret "tok" : gmap string ResolvedSecret).

Lemma demo_vault_alike : vaults_alike "mcp.example.com" (demo_vault "one") (demo_vault "two").
Proof.
  intros name. unfold demo_vault, Vault. destruct (decide (name = "OTHER")) as [-> |Hne]; [by apply alike_refused|].
  rewrite !lookup_insert_ne by done. apply alike_same.
Qed.

Lemma proxy_confines_secrets_witness :
  let go v := forward demo_url demo_lookup (fun s => s) (fun s => s) (fun _ => None) (fun _ => "0") demo_text units demo_show demo_cfg
    (StoreOpen v) true (Some "mcp.example.com") (demo_post "application/json" "list_issues") demo_state in
  go (demo_vault "one") = go (demo_vault "two").
Proof. intros go. apply (proxy_confines_secrets demo_url). exact demo_vault_alike. Defined.

(** A codec with the laws of base64: hexadecimal. *)
Definition demo_hex (s : string) : string := hexText (units s).
Definition demo_unhex (s : string) : string := demo_text (hexBytes s).

Lemma units_bytes s : wf_bytes (units s).
Proof.
  unfold units. induction s as [|c s IH]; constructor; [|done]. unfold is_byte, code. pose proof (nat_ascii_bounded c). lia.
Qed.

Lemma demo_text_units s : demo_text (units s) = s.
Proof.
  unfold demo_text, units. rewrite List.map_map. rewrite <- (string_of_list_ascii_of_string s) at 2. f_equal.
  rewrite <- (List.map_id (list_ascii_of_string s)) at 2. apply List.map_ext. intros c. unfold code. by rewrite Nat2Z.id, ascii_nat_embedding.
Qed.

Lemma hexText_b64 l : wf_bytes l -> everyChar is_b64 (hexText l) = true.
Proof.
  assert (forall d, 0 <= d < 16 -> is_b64 (digitChar d) = true) as Hd.
  { intros d Hd. assert (d = 0 \/ d = 1 \/ d = 2 \/ d = 3 \/ d = 4 \/ d = 5 \/ d = 6 \/ d = 7 \/ d = 8 \/ d = 9 \/ d = 10
      \/ d = 11 \/ d = 12 \/ d = 13 \/ d = 14 \/ d = 15) as H by lia. repeat (destruct H as [-> |H]; [vm_compute; done|]). subst. vm_compute. done. }
  induction 1 as [|b l Hb _ IH]; [done|]. unfold is_byte in Hb. cbn [hexText]. unfold hexByte. rewrite !app_str_cons. cbn [everyChar].
  rewrite !Hd by (split; [(apply Z.div_pos || apply Z.mod_pos_bound); lia|(apply Z.div_lt_upper_bound || apply Z.mod_pos_bound); lia]).
  exact IH.
Qed.

Lemma demo_codec s : s <> "" -> demo_unhex (demo_hex s) = s /\ demo_hex s <> "" /\ everyChar is_b64 (demo_hex s) = true.
Proof.
  intros Hs. unfold demo_unhex, demo_hex. split_and!.
  - rewrite <- (string_app_nil_r (hexText _)), hexBytes_hexText by apply units_bytes. cbn. rewrite app_nil_r. apply demo_text_units.
  - by destruct s.
  - apply hexText_b64, units_bytes.
Qed.

Lemma proxy_token_authenticates_witness :
  let cfg := mkProxyConfig (Some [202; 254]) [] false None true in
  hexText [202; 254] = "cafe" /\
  isAuthorized demo_unhex cfg (Some ("BASIC" +:+ " " +:+ demo_hex (PROXY_AUTH_USERNAME +:+ ":" +:+ hexText [202; 254]))) = true.
Proof.
  split; [vm_compute; reflexivity|].
  apply (proxy_token_authenticates demo_unhex demo_hex (mkProxyConfig (Some [202; 254]) [] false None true) [202; 254]);
    [reflexivity|repeat constructor; vm_compute; congruence|apply demo_codec|reflexivity].
Defined.

(** A tool call in a body of another content type is not inspected: it is streamed to the
    restricted host. *)
Lemma other_content_type_not_inspected :
  exists up, demo_forward "text/plain" "delete_repo" = (demo_state, Forwarded up) /\
    up_body up = Streamed (mkBody [demo_call "delete_repo"] true).
Proof. eexists. split; vm_compute; reflexivity. Qed.

(** The port of an IPv6 literal is read from its second group. *)
Lemma ipv6_port_misread :
  ta_port (resolveTarget (fun _ => None) true (Some "[2001:10::1]")
             (mkRequest (Some "/") (Some "GET") [("host", One "[2001:10::1]:443")] (mkBody [] true))) = Finite 10 0.
Proof. vm_compute. done. Qed.
