(* ===== verification/PortAllocator.v ===== *)
(** * Egress port allocation

    A model of [PortAllocator] in [packages/server/src/services/egress/port-allocator.ts].
    [allocate] awaits a probe of the machine after claiming each candidate, so calls
    interleave: the state holds every call by number, with the candidate it is probing, and
    an event starts a call, delivers a probe's answer or releases a port. *)
From Stdlib Require Import ZArith Lia String List Bool.
From stdpp Require Import base list strings gmap option.
From S2P Require Import Prelude.

Open Scope Z_scope.

Definition EGRESS_PORT_RANGE_START : Z := 20000.
Definition EGRESS_PORT_RANGE_END : Z := 29999.
Definition EGRESS_HOST_PORT_RANGE_START : Z := 30000.
Definition EGRESS_HOST_PORT_RANGE_END : Z := 39999.

Record PortAllocator := mkAllocator { inUse : gset Z; cursor : Z; lastForAgent : gmap string Z }.

(** Where a call of [allocate] is: probing the agent's previous port, probing the [i]-th
    candidate of its scan, holding a port, or rejected. *)
Inductive Call :=
| ProbingPrevious (agent : string) (port : Z)
| ProbingScan (agent : option string) (i port : Z)
| Holding (port : Z)
| NoFreePort.

Record System := mkSystem { alloc : PortAllocator; calls : gmap nat Call }.

Inductive PortEvent :=
| Allocate (call : nat) (agentId : option string)
| Probed (call : nat) (free : bool)
| Release (call : nat).

Section Allocator.
Variables rangeStart rangeEnd : Z.

Definition span : Z := rangeEnd - rangeStart + 1.

Definition truthyAgent (agentId : option string) : option string :=
  match agentId with Some EmptyString => None | _ => agentId end.

Definition claim (port : Z) (a : PortAllocator) : PortAllocator :=
  mkAllocator ({[port]} ∪ inUse a) (cursor a) (lastForAgent a).
Definition release (port : Z) (a : PortAllocator) : PortAllocator :=
  mkAllocator (inUse a ∖ {[port]}) (cursor a) (lastForAgent a).

Definition candidate (a : PortAllocator) (i : Z) : Z := rangeStart + (cursor a + i) mod span.

(** The loop from its [i]-th iteration up to the next await: [n] iterations are left. *)
Fixpoint scanFrom (n : nat) (agent : option string) (i : Z) (a : PortAllocator) : PortAllocator * Call :=
  match n with
  | O => (a, NoFreePort)
  | S n =>
      let port := candidate a i in
      if bool_decide (port ∈ inUse a) then scanFrom n agent (i + 1) a
      else (claim port a, ProbingScan agent i port)
  end.

Definition scan (agent : option string) (i : Z) (a : PortAllocator) : PortAllocator * Call :=
  scanFrom (Z.to_nat (span - i)) agent i a.

(** [allocate] up to its first await. *)
Definition allocateStart (agentId : option string) (a : PortAllocator) : PortAllocator * Call :=
  match truthyAgent agentId with
  | Some agent =>
      match lastForAgent a !! agent with
      | Some previous =>
          if bool_decide (previous ∈ inUse a) then scan (Some agent) 0 a
          else (claim previous a, ProbingPrevious agent previous)
      | None => scan (Some agent) 0 a
      end
  | None => scan None 0 a
  end.

(** [allocate] after a probe answered, up to its next await. *)
Definition allocateResume (c : Call) (free : bool) (a : PortAllocator) : PortAllocator * Call :=
  match c with
  | ProbingPrevious agent port =>
      if free then (a, Holding port) else scan (Some agent) 0 (release port a)
  | ProbingScan agent i port =>
      if free then
        (mkAllocator (inUse a) ((port - rangeStart + 1) mod span)
           (match agent with Some g => <[g := port]> (lastForAgent a) | None => lastForAgent a end), Holding port)
      else scan agent (i + 1) (release port a)
  | c => (a, c)
  end.

Definition portStep (s : System) (e : PortEvent) : System :=
  match e with
  | Allocate c agentId =>
      match calls s !! c with
      | Some _ => s
      | None => let '(a, call) := allocateStart agentId (alloc s) in mkSystem a (<[c := call]> (calls s))
      end
  | Probed c free =>
      match calls s !! c with
      | Some call => let '(a, call) := allocateResume call free (alloc s) in mkSystem a (<[c := call]> (calls s))
      | None => s
      end
  | Release c =>
      match calls s !! c with
      | Some (Holding port) => mkSystem (release port (alloc s)) (delete c (calls s))
      | _ => s
      end
  end.

Definition initial : System := mkSystem (mkAllocator ∅ 0 ∅) ∅.
Definition runPorts (es : list PortEvent) : System := fold_left portStep es initial.

(** One call with nobody else about: probes answer by [free]. *)
Fixpoint scanAlone (n : nat) (free : Z -> bool) (agent : option string) (i : Z) (a : PortAllocator)
    : PortAllocator * option Z :=
  match n with
  | O => (a, None)
  | S n =>
      let port := candidate a i in
      if bool_decide (port ∈ inUse a) then scanAlone n free agent (i + 1) a
      else if free port then (fst (allocateResume (ProbingScan agent i port) true (claim port a)), Some port)
      else scanAlone n free agent (i + 1) (release port (claim port a))
  end.

(** ** Exclusive ownership *)

Definition owns (c : Call) : option Z :=
  match c with
  | ProbingPrevious _ p | ProbingScan _ _ p | Holding p => Some p
  | NoFreePort => None
  end.

Definition in_range (p : Z) : Prop := rangeStart <= p <= rangeEnd.

Record port_inv (s : System) : Prop := {
  pi_excl : forall c c' x x' p, calls s !! c = Some x -> calls s !! c' = Some x' ->
    owns x = Some p -> owns x' = Some p -> c = c';
  pi_used : forall p, p ∈ inUse (alloc s) <-> exists c x, calls s !! c = Some x /\ owns x = Some p;
  pi_range : forall c x p, calls s !! c = Some x -> owns x = Some p -> in_range p;
  pi_last : forall g p, lastForAgent (alloc s) !! g = Some p -> in_range p
}.

Hypothesis Hrange : rangeStart <= rangeEnd.

Lemma candidate_range a i : in_range (candidate a i).
Proof.
  unfold candidate, in_range, span. pose proof (Z.mod_pos_bound (cursor a + i) (rangeEnd - rangeStart + 1)). lia.
Qed.

(** What a call leaves behind: a fresh claim in range, or nothing. *)
Definition claimed (a : PortAllocator) (r : PortAllocator * Call) : Prop :=
  lastForAgent (fst r) = lastForAgent a /\
  match owns (snd r) with
  | Some p => p ∉ inUse a /\ inUse (fst r) = {[p]} ∪ inUse a /\ in_range p
  | None => inUse (fst r) = inUse a
  end.

Lemma scanFrom_claimed n agent i a : claimed a (scanFrom n agent i a).
Proof.
  revert i. induction n as [|n IH]; intros i; cbn; [done|].
  destruct (bool_decide_reflect (candidate a i ∈ inUse a)); [apply IH|]. split; [done|]. cbn.
  split_and!; [done|done|apply candidate_range].
Qed.

Lemma allocateStart_claimed agentId a : (forall g p, lastForAgent a !! g = Some p -> in_range p) ->
  claimed a (allocateStart agentId a).
Proof.
  intros Hl. unfold allocateStart. destruct (truthyAgent agentId) as [g|]; [|apply scanFrom_claimed].
  destruct (lastForAgent a !! g) as [p|] eqn:E; [|apply scanFrom_claimed].
  destruct (bool_decide_reflect (p ∈ inUse a)); [apply scanFrom_claimed|]. split; [done|]. cbn. split_and!; try done. eauto.
Qed.

(** A call that makes a fresh claim for a number that owned nothing keeps the invariant. *)
Lemma claimed_inv s c r : port_inv s -> (forall x, calls s !! c = Some x -> owns x = None) -> claimed (alloc s) r ->
  port_inv (mkSystem (fst r) (<[c := snd r]> (calls s))).
Proof.
  intros [He Hu Hr Hl] Hc [Hla Hcl]. destruct r as [a call]. cbn in *.
  assert (forall c' x p, <[c:=call]> (calls s) !! c' = Some x -> owns x = Some p ->
    (c' = c /\ owns call = Some p) \/ (c' <> c /\ calls s !! c' = Some x)) as Hcase.
  { intros c' x p Hx Ho. destruct (decide (c' = c)) as [-> |Hne].
    - rewrite lookup_insert_eq in Hx. injection Hx as ->. by left.
    - rewrite lookup_insert_ne in Hx by done. by right. }
  assert (forall p, owns call = Some p -> forall c' x, calls s !! c' = Some x -> owns x = Some p -> False) as Hfresh.
  { intros p Hp c' x Hx Ho. rewrite Hp in Hcl. destruct Hcl as (Hn & _). apply Hn, Hu. eauto. }
  split; cbn.
  - intros c1 c2 x1 x2 p H1 H2 O1 O2.
    destruct (Hcase c1 x1 p H1 O1) as [[-> P1]|[N1 C1]], (Hcase c2 x2 p H2 O2) as [[-> P2]|[N2 C2]]; [done| | |by eapply He].
    + exfalso. by eapply (Hfresh p P1 c2).
    + exfalso. by eapply (Hfresh p P2 c1).
  - intros p. split.
    + intros Hp. destruct (owns call) as [q|] eqn:Eq.
      * destruct Hcl as (_ & Hin & _). rewrite Hin in Hp. apply elem_of_union in Hp as [->%elem_of_singleton|Hp].
        -- exists c, call. by rewrite lookup_insert_eq.
        -- apply Hu in Hp as (c' & x & Hx & Ho). exists c', x. split; [|done]. rewrite lookup_insert_ne; [done|].
           intros <-. by rewrite (Hc x) in Ho.
      * rewrite Hcl in Hp. apply Hu in Hp as (c' & x & Hx & Ho). exists c', x. split; [|done].
        rewrite lookup_insert_ne; [done|]. intros <-. by rewrite (Hc x) in Ho.
    + intros (c' & x & Hx & Ho). destruct (Hcase c' x p Hx Ho) as [[_ Hp]|[_ Hx']].
      * rewrite Hp in Hcl. destruct Hcl as (_ & -> & _). set_solver.
      * assert (p ∈ inUse (alloc s)) by (apply Hu; eauto). destruct (owns call); [destruct Hcl as (_ & -> & _)|rewrite Hcl]; set_solver.
  - intros c' x p Hx Ho. destruct (Hcase c' x p Hx Ho) as [[_ Hp]|[_ Hx']]; [|by eapply Hr].
    rewrite Hp in Hcl. apply Hcl.
  - intros g p. rewrite Hla. apply Hl.
Qed.

(** Giving up what a call owns. *)
Lemma released_inv s c x p : port_inv s -> calls s !! c = Some x -> owns x = Some p ->
  port_inv (mkSystem (release p (alloc s)) (delete c (calls s))).
Proof.
  intros [He Hu Hr Hl] Hx Ho.
  assert (forall c' y, delete c (calls s) !! c' = Some y -> c' <> c /\ calls s !! c' = Some y) as Hd.
  { intros c' y Hy. by apply lookup_delete_Some in Hy as [? ?]. }
  split; cbn.
  - intros c1 c2 x1 x2 q [_ H1]%Hd [_ H2]%Hd. by eapply He.
  - intros q. rewrite elem_of_difference, not_elem_of_singleton, Hu. split.
    + intros [(c' & y & Hy & Hq) Hne]. exists c', y. split; [|done]. apply lookup_delete_Some. split; [|done].
      intros <-. congruence.
    + intros (c' & y & [Hne Hy]%Hd & Hq). split; [eauto|]. intros ->. by apply Hne, (He c' c y x p).
  - intros c' y q [_ Hy]%Hd. by eapply Hr.
  - apply Hl.
Qed.

(** A call moving on with the port it owns. *)
Lemma kept_inv s c x y cur last : port_inv s -> calls s !! c = Some x -> owns y = owns x ->
  (forall g p, last !! g = Some p -> in_range p) ->
  port_inv (mkSystem (mkAllocator (inUse (alloc s)) cur last) (<[c := y]> (calls s))).
Proof.
  intros [He Hu Hr _] Hx Hy Hlast.
  assert (forall c' z, <[c:=y]> (calls s) !! c' = Some z -> exists z', calls s !! c' = Some z' /\ owns z' = owns z) as Hb.
  { intros c' z Hz. destruct (decide (c' = c)) as [-> |Hne].
    - rewrite lookup_insert_eq in Hz. injection Hz as <-. eauto.
    - rewrite lookup_insert_ne in Hz by done. eauto. }
  split; cbn; [| | |done].
  - intros c1 c2 x1 x2 p (z1 & Hz1 & <-)%Hb (z2 & Hz2 & <-)%Hb. by eapply He.
  - intros p. rewrite Hu. split; intros (c' & z & Hz & Ho).
    + destruct (decide (c' = c)) as [-> |Hne].
      * exists c, y. rewrite lookup_insert_eq. split; [done|]. congruence.
      * exists c', z. by rewrite lookup_insert_ne.
    + apply Hb in Hz as (z' & Hz' & Ez). exists c', z'. by rewrite Ez.
  - intros c' z p (z' & Hz' & <-)%Hb. by eapply Hr.
Qed.

Lemma resumed_inv s c x p r : port_inv s -> calls s !! c = Some x -> owns x = Some p ->
  claimed (release p (alloc s)) r -> port_inv (mkSystem (fst r) (<[c := snd r]> (calls s))).
Proof.
  intros Hi Hx Ho Hr. pose proof (claimed_inv (mkSystem (release p (alloc s)) (delete c (calls s))) c r) as H. cbn [alloc calls] in H.
  rewrite insert_delete_eq in H. apply H; [by eapply released_inv| |done]. intros y. by rewrite lookup_delete_eq.
Qed.

Lemma portStep_inv s e : port_inv s -> port_inv (portStep s e).
Proof.
  intros Hi. pose proof Hi as [_ _ Hr Hl]. destruct e as [c agentId|c free|c]; cbn [portStep].
  - destruct (calls s !! c) as [x|] eqn:Ec; [done|]. pose proof (allocateStart_claimed agentId (alloc s) Hl) as Hc.
    destruct (allocateStart agentId (alloc s)) as [a call].
    apply (claimed_inv s c (a, call)); [done| |done]. intros x. by rewrite Ec.
  - destruct (calls s !! c) as [x|] eqn:Ec; [|done]. destruct x as [g p|g i p|p|]; cbn [allocateResume].
    + destruct free.
      * destruct s as [[u cur last] cs]. by eapply (kept_inv (mkSystem (mkAllocator u cur last) cs)).
      * pose proof (scanFrom_claimed (Z.to_nat (span - 0)) (Some g) 0 (release p (alloc s))) as Hc. unfold scan.
        destruct (scanFrom _ _ _ _) as [a call]. by eapply (resumed_inv s c _ p (a, call)).
    + destruct free.
      * eapply kept_inv; [done|done|done|]. intros g' q. destruct g as [g|]; [|apply Hl].
        intros [[_ <-]|[_ Hq]]%lookup_insert_Some; [by eapply Hr|by eapply Hl].
      * unfold scan. pose proof (scanFrom_claimed (Z.to_nat (span - (i + 1))) g (i + 1) (release p (alloc s))) as Hc.
        destruct (scanFrom _ _ _ _) as [a call]. by eapply (resumed_inv s c _ p (a, call)).
    + rewrite insert_id by done. by destruct s.
    + rewrite insert_id by done. by destruct s.
  - destruct (calls s !! c) as [[]|] eqn:Ec; try done. by eapply released_inv.
Qed.

Lemma runPorts_inv es : port_inv (runPorts es).
Proof.
  unfold runPorts. assert (port_inv initial) as H.
  { split; cbn; try (intros *; rewrite lookup_empty; done). intros p. split; [set_solver|].
    intros (c & x & Hx & _). by rewrite lookup_empty in Hx. }
  revert H. generalize initial. induction es as [|e es IH]; intros s Hs; cbn; [done|]. apply IH. by apply portStep_inv.
Qed.

(** ** A call alone finds a free port whenever there is one *)

Lemma release_claim p a : p ∉ inUse a -> release p (claim p a) = a.
Proof. intros Hp. unfold release, claim. destruct a as [u cur l]. cbn in *. f_equal. set_solver. Qed.

Lemma scanAlone_finds free agent a j : candidate a j ∉ inUse a -> free (candidate a j) = true ->
  forall n i, i <= j < i + Z.of_nat n -> exists p, snd (scanAlone n free agent i a) = Some p /\ free p = true /\ p ∉ inUse a.
Proof.
  intros Hj Hf. induction n as [|n IH]; intros i Hij; [lia|]. cbn [scanAlone].
  destruct (decide (i = j)) as [-> |Hne].
  - rewrite bool_decide_false by done. rewrite Hf. cbn. eauto.
  - destruct (bool_decide_reflect (candidate a i ∈ inUse a)) as [_|Hi]; [apply IH; lia|].
    destruct (free (candidate a i)) eqn:Ef; [cbn; eauto|]. rewrite release_claim by done. apply IH. lia.
Qed.

Lemma alone_finds free agent a q : in_range q -> q ∉ inUse a -> free q = true ->
  exists p, snd (scanAlone (Z.to_nat span) free agent 0 a) = Some p /\ free p = true /\ p ∉ inUse a.
Proof.
  intros Hq Hn Hf. unfold in_range in Hq. set (j := (q - rangeStart - cursor a) mod span).
  assert (candidate a j = q) as E.
  { unfold candidate, j. rewrite Zplus_mod_idemp_r. replace (cursor a + (q - rangeStart - cursor a)) with (q - rangeStart) by lia.
    rewrite Z.mod_small; unfold span; lia. }
  apply (scanAlone_finds free agent a j); [by rewrite E|by rewrite E|].
  pose proof (Z.mod_pos_bound (q - rangeStart - cursor a) span). unfold span in *. lia.
Qed.
End Allocator.

(** However calls interleave with their probes and with releases, no two of them hold
    or probe one port, every port held lies in the range, and the set of ports in use is
    exactly those the calls own: none leaks, and none is free while a run holds it. *)
Theorem ports_exclusive rangeStart rangeEnd es : rangeStart <= rangeEnd ->
  let s := runPorts rangeStart rangeEnd es in
  (forall c c' x x' p, calls s !! c = Some x -> calls s !! c' = Some x' -> owns x = Some p -> owns x' = Some p -> c = c') /\
  (forall c p, calls s !! c = Some (Holding p) -> rangeStart <= p <= rangeEnd) /\
  (forall p, p ∈ inUse (alloc s) <-> exists c x, calls s !! c = Some x /\ owns x = Some p).
Proof.
  intros Hr s. destruct (runPorts_inv rangeStart rangeEnd Hr es) as [He Hu Hrg _]. split; [exact He|].
  split; [|exact Hu]. intros c p Hc. by eapply (Hrg c (Holding p)).
Qed.

Lemma ports_exclusive_witness :
  let es := [Allocate 1 (Some "ada"%string); Allocate 2 None; Probed 1 true; Probed 2 false; Probed 2 true; Release 1; Allocate 3 (Some "ada"%string)] in
  let s := runPorts 20000 20003 es in
  calls s !! 2%nat = Some (Holding 20003) /\ calls s !! 3%nat = Some (ProbingPrevious "ada" 20000) /\
  (forall c p, calls s !! c = Some (Holding p) -> 20000 <= p <= 20003).
Proof.
  split; [vm_compute; reflexivity|]. split; [vm_compute; reflexivity|].
  apply (ports_exclusive 20000 20003 [Allocate 1 (Some "ada"%string); Allocate 2 None; Probed 1 true; Probed 2 false;
           Probed 2 true; Release 1; Allocate 3 (Some "ada"%string)]). lia.
Defined.

(** A scan reads the cursor again after every probe, and a call that finishes meanwhile has
    moved it. Of three ports the first is taken on the machine; while call 1 probes it, call 2
    takes the second and moves the cursor to the third; call 1 then looks at the first again
    and at the second, and is rejected though the third is free and was never probed. *)
Example concurrent_scan_misses_free_port :
  let s := runPorts 20000 20002 [Allocate 1 None; Allocate 2 None; Probed 2 true; Probed 1 false; Probed 1 false] in
  calls s !! 1%nat = Some NoFreePort /\ calls s !! 2%nat = Some (Holding 20001) /\ 20002 ∉ inUse (alloc s).
Proof. vm_compute. split_and!; [reflexivity|reflexivity|]. intros H. discriminate H. Qed.
