(* ===== verification/Calendar.v ===== *)
(** * UTC dates

    The date arithmetic of the language that the modelled code uses, by the
    definitions of its specification ([Day], [DayFromYear], [YearFromTime],
    [MonthFromTime], [DateFromTime], [MakeDay], [Date.UTC]) on instants in whole
    milliseconds, which is what a [Date] holds. *)
From Stdlib Require Import ZArith Lia List.
From stdpp Require Import base list.
From S2P Require Import Prelude.

Open Scope Z_scope.

Definition MS_PER_DAY : Z := 86400000.

Definition Day (t : Z) : Z := t / MS_PER_DAY.

Definition DayFromYear (y : Z) : Z :=
  365 * (y - 1970) + (y - 1969) / 4 - (y - 1901) / 100 + (y - 1601) / 400.

Definition isLeap (y : Z) : bool :=
  (y mod 4 =? 0) && (negb (y mod 100 =? 0) || (y mod 400 =? 0)).

(** The year whose first day is the last not after day [d]: an estimate from the mean
    length of a year is at most one off. *)
Definition YearFromDay (d : Z) : Z :=
  let est := 1970 + d * 400 / 146097 in
  if DayFromYear (est + 1) <=? d then est + 1
  else if DayFromYear est <=? d then est
  else est - 1.

(** Days before month [m] (0-11) in a year. *)
Definition cumDays (leap : bool) (m : Z) : Z :=
  let l := if leap then 1 else 0 in
  match m with
  | 0 => 0 | 1 => 31 | 2 => 59 + l | 3 => 90 + l | 4 => 120 + l | 5 => 151 + l
  | 6 => 181 + l | 7 => 212 + l | 8 => 243 + l | 9 => 273 + l | 10 => 304 + l
  | 11 => 334 + l | _ => 365 + l
  end.

(** The month holding day [k] of a year. *)
Definition monthOfYearDay (leap : bool) (k : Z) : Z :=
  let cum := cumDays leap in
  if k <? cum 1 then 0 else if k <? cum 2 then 1 else if k <? cum 3 then 2 else if k <? cum 4 then 3
  else if k <? cum 5 then 4 else if k <? cum 6 then 5 else if k <? cum 7 then 6 else if k <? cum 8 then 7
  else if k <? cum 9 then 8 else if k <? cum 10 then 9 else if k <? cum 11 then 10 else 11.

Definition getUTCFullYear (t : Z) : Z := YearFromDay (Day t).
Definition getUTCMonth (t : Z) : Z :=
  let y := YearFromDay (Day t) in monthOfYearDay (isLeap y) (Day t - DayFromYear y).

(** [MakeDay] of the first of a month; months outside 0-11 carry into the year. *)
Definition firstOfMonth (year month : Z) : Z :=
  let y := year + month / 12 in DayFromYear y + cumDays (isLeap y) (month mod 12).

Definition getUTCDate (t : Z) : Z := Day t - firstOfMonth (getUTCFullYear t) (getUTCMonth t) + 1.

(** [Date.UTC(year, month, date)] for years from 100 on. *)
Definition dateUTC (year month date : Z) : Z := (firstOfMonth year month + date - 1) * MS_PER_DAY.

(** ** Months by number

    Month [M] is month [M mod 12] of year [M / 12]. *)
Definition monthStart (M : Z) : Z := firstOfMonth 0 M.
Definition monthOf (t : Z) : Z := 12 * getUTCFullYear t + getUTCMonth t.

Lemma firstOfMonth_start y m : firstOfMonth y m = monthStart (12 * y + m).
Proof.
  unfold monthStart, firstOfMonth. replace (12 * y + m) with (m + y * 12) by lia.
  rewrite Z_div_plus_full, Z_mod_plus_full by lia. replace (0 + (m / 12 + y)) with (y + m / 12) by lia. done.
Qed.

Lemma div_step a n : 0 < n -> (a + 1) / n = a / n + (if (a + 1) mod n =? 0 then 1 else 0).
Proof.
  intros Hn. pose proof (Z.div_mod a n ltac:(lia)). pose proof (Z.div_mod (a + 1) n ltac:(lia)).
  pose proof (Z.mod_pos_bound a n Hn). pose proof (Z.mod_pos_bound (a + 1) n Hn).
  destruct (Z.eqb_spec ((a + 1) mod n) 0); nia.
Qed.

Lemma mod_shift y k n : 0 < n -> ((y - k) mod n =? 0) = (y mod n =? k mod n).
Proof.
  intros Hn. rewrite Zminus_mod. pose proof (Z.mod_pos_bound y n Hn). pose proof (Z.mod_pos_bound k n Hn).
  destruct (Z.eqb_spec (y mod n) (k mod n)) as [->|Hne]; [by rewrite Z.sub_diag|].
  apply Z.eqb_neq. intros H1. apply Z.mod_divide in H1 as [q Hq]; [|lia].
  assert (q = 0) by nia. lia.
Qed.

(** A year has 365 or 366 days, by the leap rule. *)
Lemma year_length y : DayFromYear (y + 1) - DayFromYear y = 365 + (if isLeap y then 1 else 0).
Proof.
  unfold DayFromYear, isLeap.
  replace (y + 1 - 1969) with (y - 1969 + 1) by lia. replace (y + 1 - 1901) with (y - 1901 + 1) by lia.
  replace (y + 1 - 1601) with (y - 1601 + 1) by lia. rewrite !div_step by lia.
  replace (y - 1969 + 1) with (y - 1968) by lia. replace (y - 1901 + 1) with (y - 1900) by lia.
  replace (y - 1601 + 1) with (y - 1600) by lia. rewrite !mod_shift by lia.
  change (1968 mod 4) with 0. change (1900 mod 100) with 0. change (1600 mod 400) with 0.
  assert (y mod 400 = 0 -> y mod 100 = 0) as H1.
  { intros H. apply Z.mod_divide in H as [q ->]; [|lia]. apply Z.mod_divide; [lia|]. exists (4 * q). lia. }
  assert (y mod 100 = 0 -> y mod 4 = 0) as H2.
  { intros H. apply Z.mod_divide in H as [q ->]; [|lia]. apply Z.mod_divide; [lia|]. exists (25 * q). lia. }
  destruct (Z.eqb_spec (y mod 4) 0), (Z.eqb_spec (y mod 100) 0), (Z.eqb_spec (y mod 400) 0); cbn [andb orb negb]; lia.
Qed.

Lemma year_mono y k : 0 <= k -> DayFromYear y + 365 * k <= DayFromYear (y + k).
Proof.
  intros Hk. revert k Hk. apply natlike_ind; [replace (y + 0) with y by lia; lia|].
  intros k Hk IH. pose proof (year_length (y + k)). replace (y + Z.succ k) with (y + k + 1) by lia.
  destruct (isLeap (y + k)); lia.
Qed.

(** The estimate is within a year either way. *)
Lemma DayFromYear_bounds y :
  146097 * (y - 1970) - 506 <= 400 * DayFromYear y <= 146097 * (y - 1970) + 589.
Proof.
  unfold DayFromYear.
  pose proof (Z.div_mod (y - 1969) 4 ltac:(lia)). pose proof (Z.mod_pos_bound (y - 1969) 4 ltac:(lia)).
  pose proof (Z.div_mod (y - 1901) 100 ltac:(lia)). pose proof (Z.mod_pos_bound (y - 1901) 100 ltac:(lia)).
  pose proof (Z.div_mod (y - 1601) 400 ltac:(lia)). pose proof (Z.mod_pos_bound (y - 1601) 400 ltac:(lia)).
  lia.
Qed.

Lemma YearFromDay_spec d : DayFromYear (YearFromDay d) <= d < DayFromYear (YearFromDay d + 1).
Proof.
  unfold YearFromDay. set (x := d * 400 / 146097).
  pose proof (Z.div_mod (d * 400) 146097 ltac:(lia)) as Hd. fold x in Hd.
  pose proof (Z.mod_pos_bound (d * 400) 146097 ltac:(lia)).
  pose proof (DayFromYear_bounds (1970 + x + 2)). pose proof (DayFromYear_bounds (1970 + x - 1)).
  destruct (Z.leb_spec (DayFromYear (1970 + x + 1)) d).
  - replace (1970 + x + 1 + 1) with (1970 + x + 2) by lia. lia.
  - destruct (Z.leb_spec (DayFromYear (1970 + x)) d); [lia|].
    replace (1970 + x - 1 + 1) with (1970 + x) by lia. lia.
Qed.

Lemma cumDays_bounds leap m : 0 <= m <= 11 -> 28 <= cumDays leap (m + 1) - cumDays leap m <= 31.
Proof.
  intros Hm. assert (m = 0 \/ m = 1 \/ m = 2 \/ m = 3 \/ m = 4 \/ m = 5 \/ m = 6 \/ m = 7 \/ m = 8 \/ m = 9
    \/ m = 10 \/ m = 11) as H by lia.
  destruct leap; destruct_or! H; subst m; split; vm_compute; discriminate.
Qed.

Lemma monthOfYearDay_spec (leap : bool) k : 0 <= k < 365 + (if leap then 1 else 0) ->
  let m := monthOfYearDay leap k in 0 <= m <= 11 /\ cumDays leap m <= k < cumDays leap (m + 1).
Proof.
  intros Hk. unfold monthOfYearDay.
  destruct leap; cbn [cumDays] in *;
    repeat match goal with |- context [k <? ?n] => destruct (Z.ltb_spec k n) end;
    (split; [lia|]);
    repeat match goal with |- context [cumDays ?l ?m] =>
      let v := eval vm_compute in (cumDays l m) in change (cumDays l m) with v end; lia.
Qed.

(** Consecutive months: the next one starts 28 to 31 days later. *)
Lemma month_length M : 28 <= monthStart (M + 1) - monthStart M <= 31.
Proof.
  pose proof (Z.div_mod M 12 ltac:(lia)) as HM. pose proof (Z.mod_pos_bound M 12 ltac:(lia)).
  set (y := M / 12) in *. set (m := M mod 12) in *.
  rewrite HM, <- Z.add_assoc, <- !firstOfMonth_start. unfold firstOfMonth.
  rewrite (Z.div_small m), (Z.mod_small m) by lia. replace (y + 0) with y by lia.
  pose proof (cumDays_bounds (isLeap y) m ltac:(lia)). destruct (Z.eq_dec m 11) as [->|].
  - change ((11 + 1) / 12) with 1. change ((11 + 1) mod 12) with 0. cbn [cumDays].
    pose proof (year_length y). cbn in *. destruct (isLeap y); lia.
  - rewrite (Z.div_small (m + 1)), (Z.mod_small (m + 1)) by lia. replace (y + 0) with y by lia. lia.
Qed.

(** The month of an instant is the one whose days hold it. *)
Lemma monthOf_spec t : monthStart (monthOf t) <= Day t < monthStart (monthOf t + 1).
Proof.
  unfold monthOf, getUTCFullYear, getUTCMonth. pose proof (YearFromDay_spec (Day t)) as Hy.
  set (y := YearFromDay (Day t)) in *. pose proof (year_length y).
  destruct (monthOfYearDay_spec (isLeap y) (Day t - DayFromYear y) ltac:(lia)) as [Hm Hc].
  set (m := monthOfYearDay _ _) in *. rewrite <- Z.add_assoc, <- !firstOfMonth_start. unfold firstOfMonth.
  rewrite (Z.div_small m), (Z.mod_small m) by lia. replace (y + 0) with y by lia.
  destruct (Z.eq_dec m 11) as [E|].
  - rewrite E in *. change ((11 + 1) / 12) with 1. change ((11 + 1) mod 12) with 0. cbn [cumDays] in *.
    change (11 + 1) with 12 in Hc. cbn in Hc. destruct (isLeap y); lia.
  - rewrite (Z.div_small (m + 1)), (Z.mod_small (m + 1)) by lia. replace (y + 0) with y by lia. lia.
Qed.

Lemma monthStart_mono M k : 0 <= k -> monthStart M + 28 * k <= monthStart (M + k).
Proof.
  intros Hk. revert k Hk. apply natlike_ind; [replace (M + 0) with M by lia; lia|].
  intros k Hk IH. pose proof (month_length (M + k)). replace (M + Z.succ k) with (M + k + 1) by lia. lia.
Qed.

Lemma monthOf_unique t M : monthStart M <= Day t < monthStart (M + 1) -> monthOf t = M.
Proof.
  intros H. pose proof (monthOf_spec t) as H'. destruct (Z.lt_trichotomy (monthOf t) M) as [Hl|[?|Hg]]; [|done|].
  - pose proof (monthStart_mono (monthOf t + 1) (M - (monthOf t + 1)) ltac:(lia)) as Hm.
    replace (monthOf t + 1 + (M - (monthOf t + 1))) with M in Hm by lia. lia.
  - pose proof (monthStart_mono (M + 1) (monthOf t - (M + 1)) ltac:(lia)) as Hm.
    replace (M + 1 + (monthOf t - (M + 1))) with (monthOf t) in Hm by lia. lia.
Qed.

Lemma Day_spec t : Day t * MS_PER_DAY <= t < (Day t + 1) * MS_PER_DAY.
Proof.
  unfold Day, MS_PER_DAY. pose proof (Z.div_mod t 86400000 ltac:(lia)).
  pose proof (Z.mod_pos_bound t 86400000 ltac:(lia)). lia.
Qed.

Lemma Day_of_day d : Day (d * MS_PER_DAY) = d.
Proof. unfold Day, MS_PER_DAY. apply Z_div_mult. lia. Qed.

Lemma Day_mono t t' : t <= t' -> Day t <= Day t'.
Proof. intros H. unfold Day, MS_PER_DAY. by apply Z.div_le_mono. Qed.

(** The first instant of a month by its number. *)
Lemma monthOf_start M : monthOf (monthStart M * MS_PER_DAY) = M.
Proof. apply monthOf_unique. rewrite Day_of_day. pose proof (month_length M). lia. Qed.
