(* ===== verification/Budget.v ===== *)
(** * Budget windows and the container-hours period

    A model of [packages/shared/src/budget.ts]. Limits are whole numbers. The
    factors [365 / 12] and [52 / 12] and the products with them are binary64
    values: a factor is its 53-bit significand over a power of two, a product is
    rounded to nearest, ties to even. *)
From Stdlib Require Import ZArith Lia Ascii String List Bool.
From stdpp Require Import base list strings.
From S2P Require Import Prelude JsString Calendar.

Open Scope string_scope.
Open Scope list_scope.
Open Scope Z_scope.

(** ** Binary64 products *)

(** A positive integer rounded to 53 significant bits. *)
Definition ulp53 (p : Z) : Z := 2 ^ Z.max 0 (Z.log2 p - 52).

Definition round53 (p : Z) : Z :=
  let u := ulp53 p in
  let q := p / u in
  let r := p mod u in
  (if 2 * r <? u then q else if u <? 2 * r then q + 1 else if Z.even q then q else q + 1) * u.

(** [Math.ceil(n * (m / 2^k))] for a positive integer [n] and a significand [m]. *)
Definition ceilMul (n m k : Z) : Z := ceilDiv (round53 (n * m)) (2 ^ k).

Definition DAYS_PER_WEEK : Z := 7.
(** [365 / 12] and [52 / 12]: significands of the nearest doubles. *)
Definition DAYS_PER_MONTH : Z * Z := (8561530541615787, 48).
Definition WEEKS_PER_MONTH : Z * Z := (4878899596318037, 50).

(** ** Windows *)

Record BudgetWindows := mkWindows { daily : Z; weekly : Z; monthly : Z }.

Definition isEnabled (limit : Z) : bool := limit >? 0.

Definition minWeeklyLimit (d : Z) : Z := if isEnabled d then d * DAYS_PER_WEEK else 0.

Definition dailyImplied (d : Z) : Z := ceilMul d (fst DAYS_PER_MONTH) (snd DAYS_PER_MONTH).
Definition weeklyImplied (w : Z) : Z := ceilMul w (fst WEEKS_PER_MONTH) (snd WEEKS_PER_MONTH).

Definition minMonthlyLimit (d w : Z) : Z :=
  let min := 0 in
  let min := if isEnabled d then Z.max min (dailyImplied d) else min in
  let min := if isEnabled w then Z.max min (weeklyImplied w) else min in
  min.

Definition minWeeklyTokens (dailyTokens : Z) : Z := minWeeklyLimit dailyTokens.
Definition minMonthlyTokens (dailyTokens weeklyTokens : Z) : Z := minMonthlyLimit dailyTokens weeklyTokens.

Inductive FloorBasis := weekFromDay | monthFromDay | monthFromWeek.
Inductive LongWindow := WeeklyWindow | MonthlyWindow.

Record WindowViolation := mkViolation { v_window : LongWindow; v_min : Z; v_basis : FloorBasis }.

Definition windowViolations (w : BudgetWindows) : list WindowViolation :=
  let weeklyFloor := minWeeklyLimit (daily w) in
  (if isEnabled (weekly w) && (weekly w <? weeklyFloor)
   then [mkViolation WeeklyWindow weeklyFloor weekFromDay] else []) ++
  let monthlyFloor := minMonthlyLimit (daily w) (weekly w) in
  if isEnabled (monthly w) && (monthly w <? monthlyFloor) then
    let di := if isEnabled (daily w) then dailyImplied (daily w) else 0 in
    let wi := if isEnabled (weekly w) then weeklyImplied (weekly w) else 0 in
    [mkViolation MonthlyWindow monthlyFloor (if di >=? wi then monthFromDay else monthFromWeek)]
  else [].

Definition normalizeWindowsUp (w : BudgetWindows) : BudgetWindows :=
  let wk := if isEnabled (weekly w) then Z.max (weekly w) (minWeeklyLimit (daily w)) else weekly w in
  let mo := if isEnabled (monthly w) then Z.max (monthly w) (minMonthlyLimit (daily w) wk) else monthly w in
  mkWindows (daily w) wk mo.

(** ** Named budgets and their refusals *)

Record BudgetWindowsTokens := mkTokens {
  daily_budget_tokens : Z; weekly_budget_tokens : Z; monthly_budget_tokens : Z
}.

Definition tokenWindows (w : BudgetWindowsTokens) : BudgetWindows :=
  mkWindows (daily_budget_tokens w) (weekly_budget_tokens w) (monthly_budget_tokens w).

Definition normalizeBudgetWindowsUp (w : BudgetWindowsTokens) : BudgetWindowsTokens :=
  let n := normalizeWindowsUp (tokenWindows w) in mkTokens (daily n) (weekly n) (monthly n).

Record BudgetWindowsContainerSeconds := mkSeconds {
  daily_budget_container_seconds : Z; weekly_budget_container_seconds : Z; monthly_budget_container_seconds : Z
}.

Definition containerSecondsWindows (w : BudgetWindowsContainerSeconds) : BudgetWindows :=
  mkWindows (daily_budget_container_seconds w) (weekly_budget_container_seconds w)
    (monthly_budget_container_seconds w).

Definition SECONDS_PER_HOUR : Z := 3600.

(** Hours in hundredths: [Math.ceil(seconds / 36)], of which the source shows a hundredth.
    A quotient that is not whole is at least a thirty-sixth from a whole number, so below
    2^47 its rounding never crosses one. *)
Definition containerSecondsToHours (seconds : Z) : Z := ceilDiv seconds (SECONDS_PER_HOUR / 100).

Section Messages.
(** [englishCount] of the formatting module, and the printing of hundredths of hours. *)
Context (englishCount showHours showSeconds : Z -> string).

(** The multiplication sign, U+00D7. *)
Definition times : string := String "215"%char "".

Definition VIOLATION_BASIS (b : FloorBasis) : string :=
  match b with
  | weekFromDay => "daily budget (daily " +:+ times +:+ " 7)"
  | monthFromDay => "daily budget (daily " +:+ times +:+ " 365/12)"
  | monthFromWeek => "weekly budget (weekly " +:+ times +:+ " 52/12)"
  end.

Definition VIOLATION_WINDOW (w : LongWindow) : string :=
  match w with WeeklyWindow => "Weekly" | MonthlyWindow => "Monthly" end.

Definition windowName (w : LongWindow) : string :=
  match w with WeeklyWindow => "weekly" | MonthlyWindow => "monthly" end.

Record BudgetViolation := mkRefusal { field : string; minUnits : Z; message : string }.

Definition validateBudgetWindows (w : BudgetWindowsTokens) : list BudgetViolation :=
  List.map (fun v => mkRefusal (windowName (v_window v) +:+ "_budget_tokens") (v_min v)
    (VIOLATION_WINDOW (v_window v) +:+ " budget must be at least " +:+ englishCount (v_min v)
     +:+ " tokens to cover the " +:+ VIOLATION_BASIS (v_basis v) +:+ "."))
    (windowViolations (tokenWindows w)).

Definition validateContainerHoursBudgetWindows (w : BudgetWindowsContainerSeconds) : list BudgetViolation :=
  List.map (fun v => mkRefusal (windowName (v_window v) +:+ "_budget_container_seconds") (v_min v)
    (VIOLATION_WINDOW (v_window v) +:+ " hours budget must be at least "
     +:+ showHours (containerSecondsToHours (v_min v)) +:+ " hours (" +:+ showSeconds (v_min v)
     +:+ " seconds) to cover the " +:+ VIOLATION_BASIS (v_basis v) +:+ "."))
    (windowViolations (containerSecondsWindows w)).

Definition describeTokenBudget (tokens : Z) : string :=
  if tokens >? 0 then englishCount tokens +:+ " tokens" else "unlimited".
End Messages.

Definition RETIRED_BUDGET_FIELDS : list (string * string) :=
  [("daily_budget_cents", "daily_budget_tokens"); ("weekly_budget_cents", "weekly_budget_tokens");
   ("monthly_budget_cents", "monthly_budget_tokens")].

Fixpoint joinComma (l : list string) : string :=
  match l with
  | [] => ""
  | [x] => x
  | x :: l' => x +:+ ", " +:+ joinComma l'
  end.

Definition retiredBudgetFieldMessage (fields : list (string * string)) : string :=
  "Budgets are counted in tokens, not dollars. Send "
  +:+ joinComma (List.map (fun f => fst f +:+ " -> " +:+ snd f) fields) +:+ " instead.".

(** [body] is the list of its property names, [None] when it is not an object. *)
Definition retiredBudgetFieldError (body : option (list string)) : option string :=
  match body with
  | None => None
  | Some names =>
      match List.filter (fun f => bool_decide (fst f ∈ names)) RETIRED_BUDGET_FIELDS with
      | [] => None
      | found => Some (retiredBudgetFieldMessage found)
      end
  end.

(** ** The container-hours window *)

Definition CONTAINER_HOURS_ANCHOR_MIN_DAY : Z := 1.
Definition CONTAINER_HOURS_ANCHOR_MAX_DAY : Z := 31.
Definition MONTH_STRIDE_DAYS : Z := 32.
Definition DAY_MS : Z := 24 * 60 * 60 * 1000.

Definition occurrenceInMonth (year month day : Z) : Z :=
  let lastDay := getUTCDate (dateUTC year (month + 1) 0) in
  dateUTC year month (Z.min day lastDay).

Definition anchoredWindowStart (anchorDay : option Z) (now : Z) : Z :=
  let year := getUTCFullYear now in
  let month := getUTCMonth now in
  match anchorDay with
  | None => dateUTC year month 1
  | Some a =>
      let day := Z.min (Z.max a CONTAINER_HOURS_ANCHOR_MIN_DAY) CONTAINER_HOURS_ANCHOR_MAX_DAY in
      let thisMonth := occurrenceInMonth year month day in
      if thisMonth <=? now then thisMonth else occurrenceInMonth year (month - 1) day
  end.

Definition containerHoursWindowStart (anchorDay : option Z) (now : Z) (since : option Z) : Z :=
  let natural := anchoredWindowStart anchorDay now in
  match since with
  | Some s => if s >? natural then s else natural
  | None => natural
  end.

Definition containerHoursWindow (anchorDay : option Z) (now : Z) (since : option Z) : Z * Z :=
  let anchored := anchoredWindowStart anchorDay now in
  (containerHoursWindowStart anchorDay now since,
   anchoredWindowStart anchorDay (anchored + MONTH_STRIDE_DAYS * DAY_MS)).

Definition previousContainerHoursWindowStart (anchorDay : option Z) (now : Z) (since : option Z) : Z :=
  let start := containerHoursWindowStart anchorDay now since in
  let previous := containerHoursWindowStart anchorDay (anchoredWindowStart anchorDay now - 1) since in
  if previous <? start then previous else start.

(** ** Rounding *)

Lemma ulp53_pos p : 0 < ulp53 p.
Proof. unfold ulp53. apply Z.pow_pos_nonneg; lia. Qed.

(** One unit in the last place is at most 2^-52 of the number, and more than 2^-53 of it
    unless the number is exact. *)
Lemma ulp53_bounds p : 0 < p -> (ulp53 p = 1 \/ 2 ^ 52 * ulp53 p <= p) /\ p < 2 ^ 53 * ulp53 p.
Proof.
  intros Hp. unfold ulp53. pose proof (Z.log2_spec p Hp) as [H1 H2]. pose proof (Z.log2_nonneg p).
  destruct (Z.le_gt_cases (Z.log2 p) 52) as [Hle|Hgt].
  - rewrite Z.max_l by lia. change (2 ^ 0) with 1. split; [by left|].
    eapply Z.lt_le_trans; [exact H2|]. rewrite Z.mul_1_r. apply Z.pow_le_mono_r; lia.
  - rewrite Z.max_r by lia. rewrite <- !Z.pow_add_r by lia. replace (52 + (Z.log2 p - 52)) with (Z.log2 p) by lia.
    replace (53 + (Z.log2 p - 52)) with (Z.succ (Z.log2 p)) by lia. split; [by right|done].
Qed.

(** Rounding moves a number by at most half a unit, to a multiple of the unit. *)
Lemma round53_near p : 0 < p -> 2 * Z.abs (round53 p - p) <= ulp53 p /\ exists q, round53 p = q * ulp53 p.
Proof.
  intros Hp. unfold round53. pose proof (ulp53_pos p). set (u := ulp53 p) in *.
  pose proof (Z.div_mod p u ltac:(lia)) as Hd. pose proof (Z.mod_pos_bound p u ltac:(lia)).
  set (q := p / u) in *. set (r := p mod u) in *.
  assert (q * u - p = - r) as E1 by lia. assert ((q + 1) * u - p = u - r) as E2 by lia.
  split; [|eauto].
  destruct (Z.ltb_spec (2 * r) u); [rewrite E1; lia|].
  destruct (Z.ltb_spec u (2 * r)); [rewrite E2; lia|].
  destruct (Z.even q); [rewrite E1; lia|rewrite E2; lia].
Qed.

Lemma round53_error p : 0 < p -> 2 ^ 53 * Z.abs (round53 p - p) <= p.
Proof.
  intros Hp. destruct (round53_near p Hp) as [H _]. destruct (ulp53_bounds p Hp) as [[Hu|Hu] _]; [|lia].
  rewrite Hu in H. assert (Z.abs (round53 p - p) = 0) by lia. lia.
Qed.

(** Nothing representable is jumped over. *)
Lemma round53_le p g : 0 < p -> p <= g * ulp53 p -> round53 p <= g * ulp53 p.
Proof.
  intros Hp Hg. destruct (round53_near p Hp) as [Hn (q & Hq)]. pose proof (ulp53_pos p).
  set (u := ulp53 p) in *. rewrite Hq in *. destruct (Z.le_gt_cases q g); [nia|].
  assert ((g + 1) * u <= q * u) by nia. lia.
Qed.

Lemma ulp53_divides p k : 0 < p < 2 ^ (53 + k) -> 0 <= k -> exists c, 2 ^ k = c * ulp53 p.
Proof.
  intros [Hp Hlt] Hk. unfold ulp53. set (e := Z.max 0 (Z.log2 p - 52)). assert (0 <= e <= k) as He.
  { apply Z.log2_lt_pow2 in Hlt; lia. }
  exists (2 ^ (k - e)). rewrite <- Z.pow_add_r by lia. f_equal. lia.
Qed.

Lemma small_multiple x u : 0 < u -> Z.abs (12 * (x * u)) < 12 * u -> x = 0.
Proof. intros Hu H. destruct (Z.lt_trichotomy x 0) as [?|[?|?]]; nia. Qed.

(** ** The floors are the documented ones *)

Lemma dailyImplied_exact n : 0 < n < 2 ^ 43 -> dailyImplied n = ceilDiv (365 * n) 12.
Proof.
  intros Hn. unfold dailyImplied, ceilMul, DAYS_PER_MONTH. cbn [fst snd].
  set (p := n * 8561530541615787). assert (12 * p = 365 * n * 2 ^ 48 + 4 * n) as Hp12 by (unfold p; lia).
  assert (0 < p) as Hp by (unfold p; lia). pose proof (round53_error p Hp) as Herr.
  pose proof (ceilDiv_spec (365 * n) 12 ltac:(lia)) as Hc. set (I := ceilDiv (365 * n) 12) in *.
  apply ceilDiv_unique; [lia|]. destruct (Z.eq_dec (365 * n) (12 * I)) as [Heq|Hne].
  - assert (12 * p = 12 * (I * 2 ^ 48) + 4 * n) as Hpi by lia.
    assert (round53 p = I * 2 ^ 48) as ->; [|lia].
    destruct (round53_near p Hp) as [Hnear (q & Hq)]. destruct (ulp53_bounds p Hp) as [_ Hub].
    destruct (ulp53_divides p 48 ltac:(lia) ltac:(lia)) as [c Hcu]. pose proof (ulp53_pos p).
    set (u := ulp53 p) in *. rewrite Hcu in *. rewrite Hq in *.
    assert (q = I * c) as ->; [|lia].
    assert (12 * (q * u - I * (c * u)) = 12 * (q * u - p) + 4 * n) as Hdiff by lia.
    assert (p < 2 ^ 53 * u) as Hub' by done.
    assert (Z.abs (12 * ((q - I * c) * u)) < 12 * u) as Hsmall.
    { replace ((q - I * c) * u) with (q * u - I * (c * u)) by lia. lia. }
    apply small_multiple in Hsmall; lia.
  - lia.
Qed.

Lemma weeklyImplied_exact n : 0 < n < 2 ^ 43 -> weeklyImplied n = ceilDiv (52 * n) 12.
Proof.
  intros Hn. unfold weeklyImplied, ceilMul, WEEKS_PER_MONTH. cbn [fst snd].
  set (p := n * 4878899596318037). assert (12 * p = 52 * n * 2 ^ 50 - 4 * n) as Hp12 by (unfold p; lia).
  assert (0 < p) as Hp by (unfold p; lia). pose proof (round53_error p Hp) as Herr.
  pose proof (ceilDiv_spec (52 * n) 12 ltac:(lia)) as Hc. set (I := ceilDiv (52 * n) 12) in *.
  apply ceilDiv_unique; [lia|]. split; [lia|].
  destruct (ulp53_divides p 50 ltac:(lia) ltac:(lia)) as [c Hcu].
  rewrite Hcu. rewrite (Z.mul_comm _ I), Z.mul_assoc. apply round53_le; [done|]. rewrite <- Z.mul_assoc, <- Hcu. lia.
Qed.

(** The floors computed in floating point are exactly the documented ones: for limits
    up to 2^43 the weekly floor is seven daily limits and the monthly floor is the larger
    of 365/12 of the daily and 52/12 of the weekly limit, each rounded up to the next
    whole unit and never one more. *)
Theorem floors_exact (d w : Z) :
  0 <= d < 2 ^ 43 -> 0 <= w < 2 ^ 43 ->
  minWeeklyLimit d = 7 * d /\ minMonthlyLimit d w = Z.max (ceilDiv (365 * d) 12) (ceilDiv (52 * w) 12).
Proof.
  intros Hd Hw. unfold minWeeklyLimit, minMonthlyLimit, isEnabled, DAYS_PER_WEEK.
  pose proof (ceilDiv_spec (365 * d) 12 ltac:(lia)). pose proof (ceilDiv_spec (52 * w) 12 ltac:(lia)).
  destruct (Z.gtb_spec d 0), (Z.gtb_spec w 0); rewrite ?dailyImplied_exact, ?weeklyImplied_exact by lia; lia.
Qed.

(** Raising windows makes any budget coherent and changes nothing else: the result has
    no violations, no window is lowered, a window that is off stays off, the daily limit is
    kept, and a budget that was coherent already comes back unchanged. *)
Theorem normalize_coherent (w : BudgetWindows) :
  let n := normalizeWindowsUp w in
  windowViolations n = [] /\ daily n = daily w /\ weekly w <= weekly n /\ monthly w <= monthly n /\
  (weekly w <= 0 -> weekly n = weekly w) /\ (monthly w <= 0 -> monthly n = monthly w) /\
  (windowViolations w = [] <-> n = w).
Proof.
  cbv zeta. destruct w as [d k mo]. unfold normalizeWindowsUp, windowViolations, isEnabled. cbn [daily weekly monthly].
  set (fw := minWeeklyLimit d). set (k' := if k >? 0 then Z.max k fw else k).
  assert (k <= k' /\ (0 < k -> fw <= k') /\ (k <= 0 -> k' = k) /\ (0 < k -> fw <= k -> k' = k) /\ (k' = k -> 0 < k -> fw <= k)) as Hk.
  { unfold k'. destruct (Z.gtb_spec k 0); lia. }
  set (m' := if mo >? 0 then Z.max mo (minMonthlyLimit d k') else mo).
  assert (mo <= m' /\ (0 < mo -> minMonthlyLimit d k' <= m') /\ (mo <= 0 -> m' = mo) /\
    (0 < mo -> minMonthlyLimit d k' <= mo -> m' = mo) /\ (m' = mo -> 0 < mo -> minMonthlyLimit d k' <= mo)) as Hm.
  { unfold m'. destruct (Z.gtb_spec mo 0); lia. }
  clearbody k' m'.
  assert (forall kk mm, ((if (kk >? 0) && (kk <? fw) then [mkViolation WeeklyWindow fw weekFromDay] else []) ++
     (if (mm >? 0) && (mm <? minMonthlyLimit d kk) then
        [mkViolation MonthlyWindow (minMonthlyLimit d kk)
           (if (if d >? 0 then dailyImplied d else 0) >=? (if kk >? 0 then weeklyImplied kk else 0)
            then monthFromDay else monthFromWeek)] else []) = []) <->
     (0 < kk -> fw <= kk) /\ (0 < mm -> minMonthlyLimit d kk <= mm)) as Hv.
  { intros kk mm. destruct (Z.gtb_spec kk 0), (Z.ltb_spec kk fw), (Z.gtb_spec mm 0), (Z.ltb_spec mm (minMonthlyLimit d kk));
      cbn [andb app]; (split; [intros Hx; try done; lia|intros [? ?]; try done; exfalso; lia]). }
  rewrite !Hv. split_and!; try lia.
  split.
  - intros [H1 H2]. assert (k' = k) as ->; [destruct (Z.le_gt_cases k 0); [lia|]; apply Hk; lia|].
    f_equal. destruct (Z.le_gt_cases mo 0); [lia|]. apply Hm; lia.
  - intros [= -> ->]. lia.
Qed.

(** ** Container-hours windows *)

Definition monthLen (M : Z) : Z := monthStart (M + 1) - monthStart M.

(** The anchor day as it falls in month [M]. *)
Definition occ (day M : Z) : Z := (monthStart M + Z.min day (monthLen M) - 1) * MS_PER_DAY.

Definition clampDay (anchorDay : option Z) : Z :=
  match anchorDay with
  | None => 1
  | Some a => Z.min (Z.max a CONTAINER_HOURS_ANCHOR_MIN_DAY) CONTAINER_HOURS_ANCHOR_MAX_DAY
  end.

Lemma clampDay_range a : 1 <= clampDay a <= 31.
Proof. destruct a; cbn; unfold CONTAINER_HOURS_ANCHOR_MIN_DAY, CONTAINER_HOURS_ANCHOR_MAX_DAY; lia. Qed.

Lemma getUTCDate_start t : getUTCDate t = Day t - monthStart (monthOf t) + 1.
Proof. unfold getUTCDate, monthOf. by rewrite firstOfMonth_start. Qed.

Lemma lastDay_spec y m : getUTCDate (dateUTC y (m + 1) 0) = monthLen (12 * y + m).
Proof.
  set (M := 12 * y + m). unfold dateUTC. rewrite firstOfMonth_start. replace (12 * y + (m + 1)) with (M + 1) by lia.
  replace (monthStart (M + 1) + 0 - 1) with (monthStart (M + 1) - 1) by lia.
  pose proof (month_length M). rewrite getUTCDate_start, Day_of_day.
  assert (monthOf ((monthStart (M + 1) - 1) * MS_PER_DAY) = M) as ->; [|unfold monthLen; lia].
  apply monthOf_unique. rewrite Day_of_day. lia.
Qed.

Lemma occurrence_occ y m day : occurrenceInMonth y m day = occ day (12 * y + m).
Proof. unfold occurrenceInMonth, occ. rewrite lastDay_spec. unfold dateUTC. by rewrite firstOfMonth_start. Qed.

Lemma occ_day day M : 1 <= day -> monthOf (occ day M) = M /\ getUTCDate (occ day M) = Z.min day (monthLen M).
Proof.
  intros Hd. pose proof (month_length M). unfold occ, monthLen in *.
  assert (monthOf ((monthStart M + Z.min day (monthStart (M + 1) - monthStart M) - 1) * MS_PER_DAY) = M) as E.
  { apply monthOf_unique. rewrite Day_of_day. lia. }
  split; [done|]. rewrite getUTCDate_start, E, Day_of_day. lia.
Qed.

(** Consecutive occurrences are 28 to 31 days apart. *)
Lemma occ_step day M : 1 <= day <= 31 ->
  occ day M + 28 * MS_PER_DAY <= occ day (M + 1) <= occ day M + 31 * MS_PER_DAY.
Proof.
  intros Hd. pose proof (month_length M). pose proof (month_length (M + 1)).
  unfold occ, monthLen, MS_PER_DAY in *. lia.
Qed.

Lemma occ_mono day M k : 1 <= day <= 31 -> 0 <= k -> occ day M + 28 * k * MS_PER_DAY <= occ day (M + k).
Proof.
  intros Hd Hk. revert k Hk. apply natlike_ind; [replace (M + 0) with M by lia; lia|].
  intros k Hk IH. pose proof (occ_step day (M + k) Hd). replace (M + Z.succ k) with (M + k + 1) by lia.
  unfold MS_PER_DAY in *. lia.
Qed.

(** The anchored start is the last occurrence of the anchor not after the instant. *)
Lemma anchored_spec a t : exists M, anchoredWindowStart a t = occ (clampDay a) M /\
  occ (clampDay a) M <= t < occ (clampDay a) (M + 1).
Proof.
  pose proof (clampDay_range a) as Hd. pose proof (monthOf_spec t) as Ht. pose proof (Day_spec t) as HD.
  set (M := monthOf t) in *. set (day := clampDay a) in *.
  pose proof (month_length M). pose proof (month_length (M + 1)). pose proof (month_length (M - 1)).
  replace (M - 1 + 1) with M in * by lia.
  assert (occ day M <= t -> t < occ day (M + 1)) as Hnext by (intros; unfold occ, monthLen, MS_PER_DAY in *; lia).
  assert (occ day (M - 1) <= t) as Hprev.
  { unfold occ, monthLen, MS_PER_DAY in *. replace (M - 1 + 1) with M by lia. lia. }
  unfold anchoredWindowStart. destruct a as [a|].
  - fold (clampDay (Some a)). fold day. rewrite !occurrence_occ. fold (monthOf t). fold M.
    replace (12 * getUTCFullYear t + (getUTCMonth t - 1)) with (M - 1) by (unfold M, monthOf; lia).
    destruct (Z.leb_spec (occ day M) t).
    + exists M. split; [done|]. split; [done|by apply Hnext].
    + exists (M - 1). split; [done|]. replace (M - 1 + 1) with M by lia. lia.
  - exists M. assert (dateUTC (getUTCFullYear t) (getUTCMonth t) 1 = occ day M) as E.
    { unfold dateUTC, occ. rewrite firstOfMonth_start. fold (monthOf t). fold M. change day with 1.
      unfold monthLen. f_equal. lia. }
    rewrite E. split; [done|].
    assert (occ day M <= t); [|auto]. rewrite <- E. unfold dateUTC. rewrite firstOfMonth_start.
    fold (monthOf t). fold M. unfold MS_PER_DAY in *. lia.
Qed.

Lemma occ_lt_inv day M M' : 1 <= day <= 31 -> occ day M < occ day (M' + 1) -> M <= M'.
Proof.
  intros Hd H. destruct (Z.le_gt_cases M M'); [done|].
  pose proof (occ_mono day (M' + 1) (M - (M' + 1)) Hd ltac:(lia)) as Hm.
  replace (M' + 1 + (M - (M' + 1))) with M in Hm by lia. unfold MS_PER_DAY in *. lia.
Qed.

Lemma anchored_unique a t M : occ (clampDay a) M <= t < occ (clampDay a) (M + 1) ->
  anchoredWindowStart a t = occ (clampDay a) M.
Proof.
  intros Ht. destruct (anchored_spec a t) as (M' & -> & Ht'). pose proof (clampDay_range a) as Hd.
  f_equal. pose proof (occ_lt_inv _ M M' Hd ltac:(lia)). pose proof (occ_lt_inv _ M' M Hd ltac:(lia)). lia.
Qed.

(** The window of an instant between two occurrences. *)
Lemma window_between a t M : occ (clampDay a) M <= t < occ (clampDay a) (M + 1) ->
  containerHoursWindow a t None = (occ (clampDay a) M, occ (clampDay a) (M + 1)).
Proof.
  intros Ht. pose proof (clampDay_range a) as Hd. unfold containerHoursWindow, containerHoursWindowStart.
  rewrite (anchored_unique a t M Ht). f_equal. apply anchored_unique.
  pose proof (occ_step _ M Hd). pose proof (occ_step _ (M + 1) Hd). unfold MONTH_STRIDE_DAYS, DAY_MS, MS_PER_DAY in *. lia.
Qed.

(** Container-hours windows tile time without drifting: the window of an instant holds
    it, every instant of a window has that same window, the next window opens exactly where
    it ends, the window before the next one is this one, and every window opens on the
    anchor day itself, or on the last day of a month too short for it, whatever earlier
    windows were clamped to. *)
Theorem hours_windows_tile (anchorDay : option Z) (now : Z) :
  let '(s, e) := containerHoursWindow anchorDay now None in
  s <= now < e /\
  (forall t, s <= t < e -> containerHoursWindow anchorDay t None = (s, e)) /\
  fst (containerHoursWindow anchorDay e None) = e /\
  previousContainerHoursWindowStart anchorDay e None = s /\
  getUTCDate s = Z.min (clampDay anchorDay) (monthLen (monthOf s)).
Proof.
  destruct (anchored_spec anchorDay now) as (M & _ & Ht). pose proof (clampDay_range anchorDay) as Hd.
  rewrite (window_between _ _ M Ht). pose proof (occ_step _ M Hd). pose proof (occ_step _ (M + 1) Hd).
  destruct (occ_day (clampDay anchorDay) M ltac:(lia)) as [Hm Hday]. unfold MS_PER_DAY in *.
  split_and!; [lia|lia| | | |].
  - intros t Hin. by apply window_between.
  - rewrite (window_between _ _ (M + 1)); [done|lia].
  - unfold previousContainerHoursWindowStart, containerHoursWindowStart.
    rewrite (anchored_unique anchorDay (occ (clampDay anchorDay) (M + 1)) (M + 1)) by lia.
    rewrite (anchored_unique anchorDay (occ (clampDay anchorDay) (M + 1) - 1) M) by lia.
    destruct (Z.ltb_spec (occ (clampDay anchorDay) M) (occ (clampDay anchorDay) (M + 1))); [done|lia].
  - by rewrite Hday, Hm.
Qed.

(** Counting from an instant moves a window's start and never its end. *)
Lemma window_since anchorDay now since :
  containerHoursWindow anchorDay now (Some since) =
  (Z.max since (fst (containerHoursWindow anchorDay now None)), snd (containerHoursWindow anchorDay now None)).
Proof.
  unfold containerHoursWindow, containerHoursWindowStart. cbn [fst snd]. f_equal.
  destruct (Z.gtb_spec since (anchoredWindowStart anchorDay now)); lia.
Qed.

(** Anchored on the 31st, February's window opens on its last day and March's on the 31st. *)
Example anchor_does_not_drift :
  let feb := anchoredWindowStart (Some 31) (dateUTC 2026 2 10) in
  let mar := snd (containerHoursWindow (Some 31) (dateUTC 2026 2 10) None) in
  (getUTCMonth feb, getUTCDate feb, getUTCMonth mar, getUTCDate mar) = (1, 28, 2, 31).
Proof. vm_compute. reflexivity. Qed.

Lemma floors_exact_witness : minMonthlyLimit 12 100 = 434 /\ minWeeklyLimit 12 = 84.
Proof.
  destruct (floors_exact 12 100) as [H1 H2]; [lia|lia|]. split; [rewrite H2|rewrite H1]; reflexivity.
Defined.

(** A floor rounded up to hundredths of an hour still covers the seconds it names. *)
Lemma containerSecondsToHours_covers seconds :
  seconds <= 36 * containerSecondsToHours seconds < seconds + 36.
Proof.
  unfold containerSecondsToHours. change (SECONDS_PER_HOUR / 100) with 36.
  pose proof (ceilDiv_spec seconds 36 ltac:(lia)). lia.
Qed.
