(* ===== verification/UptimeLedger.v ===== *)
(** * The container-hours ledger

    A model of [packages/server/src/services/sandbox/uptime-ledger.ts]: the table
    [container_uptime_entries] as a list of rows, each statement as a function of
    the rows, the pool members and the database clock ([now()], an instant).
    [ON CONFLICT (container_id) WHERE ended_at IS NULL DO NOTHING] is the test of
    the unique partial index. *)
From Stdlib Require Import ZArith Lia Ascii String List Bool Permutation.
From stdpp Require Import base list strings.
From S2P Require Import Prelude JsString.

Open Scope string_scope.
Open Scope list_scope.
Open Scope Z_scope.

Record Entry := mkEntry {
  project_id : option string;
  container_id : string;
  memory_bytes : option Z;
  disk_ceiling_bytes : Z;
  backend : string;
  started_at : Z;
  ended_at : option Z;
  end_reason : option string
}.

Record Member := mkMember {
  m_project : option string; m_container : string; m_memory : option Z; m_disk : Z
}.

Definition Ledger := list Entry.

Definition is_open (e : Entry) : bool := match ended_at e with None => true | Some _ => false end.
Definition of_container (id : string) (e : Entry) : bool := String.eqb (container_id e) id.
Definition open_of (id : string) (e : Entry) : bool := of_container id e && is_open e.

(** [INSERT ... ON CONFLICT ... DO NOTHING]. *)
Definition insertEntry (l : Ledger) (e : Entry) : Ledger :=
  if existsb (open_of (container_id e)) l then l else l ++ [e].

(** [GREATEST] and [max], which skip NULLs. *)
Definition greatest (a : Z) (b : option Z) : Z := match b with Some b => Z.max a b | None => a end.
Definition maxEnded (id : string) (l : Ledger) : option Z :=
  fold_right (fun e acc => if of_container id e then
                             match ended_at e, acc with
                             | Some x, Some y => Some (Z.max x y)
                             | Some x, None => Some x
                             | None, _ => acc
                             end
                           else acc) None l.

Definition openUptimeInterval (now : Z) (backend : string) (members : list Member) (id : string)
    (startedAt : option Z) (l : Ledger) : Ledger :=
  let start := greatest (default now startedAt) (maxEnded id l) in
  fold_left (fun l m =>
      insertEntry l (mkEntry (m_project m) (m_container m) (m_memory m) (m_disk m) backend start None None))
    (List.filter (fun m => String.eqb (m_container m) id) members) l.

Definition PROVISIONAL_KEY_PREFIX : string := "provisioning:".
Definition provisionalContainerKey (containerName : string) : string := PROVISIONAL_KEY_PREFIX +:+ containerName.
Definition containerNameFromProvisionalKey (key : string) : string :=
  slice_from (String.length PROVISIONAL_KEY_PREFIX) key.

Definition openProvisionalInterval (backend containerName : string) (projectId : string) (memory disk startedAt : Z)
    (l : Ledger) : Ledger :=
  insertEntry l (mkEntry (Some projectId) (provisionalContainerKey containerName) (Some memory) disk backend startedAt None None).

Definition rekey (id : string) (e : Entry) : Entry :=
  mkEntry (project_id e) id (memory_bytes e) (disk_ceiling_bytes e) (backend e) (started_at e) (ended_at e) (end_reason e).

Definition adoptProvisionalInterval (containerName containerId : string) (l : Ledger) : Ledger * bool :=
  let key := provisionalContainerKey containerName in
  let l := if existsb (open_of containerId) l then List.filter (fun e => negb (open_of key e)) l else l in
  (List.map (fun e => if open_of key e then rekey containerId e else e) l, existsb (open_of key) l).

Definition discardProvisionalInterval (containerName : string) (l : Ledger) : Ledger :=
  List.filter (fun e => negb (open_of (provisionalContainerKey containerName) e)) l.

Definition close (now : Z) (reason : string) (e : Entry) : Entry :=
  mkEntry (project_id e) (container_id e) (memory_bytes e) (disk_ceiling_bytes e) (backend e) (started_at e)
    (Some now) (Some reason).

Definition closeUptimeInterval (now : Z) (id reason : string) (l : Ledger) : Ledger :=
  List.map (fun e => if open_of id e then close now reason e else e) l.

Definition is_member (members : list Member) (e : Entry) : bool :=
  existsb (fun m => String.eqb (m_container m) (container_id e)) members.

Definition closeUptimeIntervalsForMembers (now : Z) (reason : string) (members : list Member) (l : Ledger) : Ledger :=
  List.map (fun e => if is_open e && is_member members e then close now reason e else e) l.

Record UnsettledInterval := mkUnsettled { u_container : string; provisional : bool }.

Definition byStart (a b : Entry) : Z := started_at a - started_at b.

Definition listUnsettledIntervals (now minAge : Z) (limit : nat) (members : list Member) (l : Ledger)
    : list UnsettledInterval :=
  let rows := List.filter (fun e => is_open e && (started_at e <? now - minAge) && negb (is_member members e)) l in
  List.map (fun e => mkUnsettled (container_id e) (startsWith (container_id e) PROVISIONAL_KEY_PREFIX))
    (take limit (js_sort byStart rows)).

(** ** Runs of the ledger *)

Inductive LedgerEvent :=
| OpenInterval (backend id : string) (members : list Member) (startedAt : option Z)
| OpenProvisional (backend name project : string) (memory disk startedAt : Z)
| Adopt (name id : string)
| Discard (name : string)
| CloseInterval (id reason : string)
| CloseForMembers (reason : string) (members : list Member).

Definition ledgerStep (now : Z) (l : Ledger) (e : LedgerEvent) : Ledger :=
  match e with
  | OpenInterval b id members startedAt => openUptimeInterval now b members id startedAt l
  | OpenProvisional b name project memory disk startedAt =>
      openProvisionalInterval b name project memory disk startedAt l
  | Adopt name id => fst (adoptProvisionalInterval name id l)
  | Discard name => discardProvisionalInterval name l
  | CloseInterval id reason => closeUptimeInterval now id reason l
  | CloseForMembers reason members => closeUptimeIntervalsForMembers now reason members l
  end.

(** ** Disjointness *)

(** Two stretches of one container do not overlap: one ended before the other began. *)
Definition apart (a b : Entry) : Prop :=
  container_id a = container_id b ->
  (exists x, ended_at a = Some x /\ x <= started_at b) \/ (exists y, ended_at b = Some y /\ y <= started_at a).

Definition sane (now : Z) (e : Entry) : Prop :=
  started_at e <= now /\ forall x, ended_at e = Some x -> started_at e <= x <= now.

Inductive pairwise {A} (R : A -> A -> Prop) : list A -> Prop :=
| pw_nil : pairwise R []
| pw_cons x l : Forall (R x) l -> pairwise R l -> pairwise R (x :: l).

Record ledger_inv (now : Z) (l : Ledger) : Prop := {
  li_sane : Forall (sane now) l;
  li_apart : pairwise apart l
}.

(** What the events of the server satisfy: an interval starts no later than the clock, and
    a provisional row is adopted for a container whose earlier stretches ended before the
    create request. *)
Definition event_ok (now : Z) (l : Ledger) (e : LedgerEvent) : Prop :=
  match e with
  | OpenInterval _ _ _ (Some t) => t <= now
  | OpenProvisional _ name _ _ _ t =>
      t <= now /\ forall e x, In e l -> container_id e = provisionalContainerKey name -> ended_at e = Some x -> x <= t
  | Adopt name id => forall e e' x, In e l -> In e' l -> open_of (provisionalContainerKey name) e = true ->
      container_id e' = id -> ended_at e' = Some x -> x <= started_at e
  | _ => True
  end.

Lemma apart_sym a b : apart a b -> apart b a.
Proof. intros H E. destruct (H (eq_sym E)) as [?|?]; [by right|by left]. Qed.

Lemma pairwise_snoc {A} (R : A -> A -> Prop) l x : (forall y, In y l -> R y x) -> pairwise R l -> pairwise R (l ++ [x]).
Proof.
  intros Hx H. induction H as [|y l Hy H IH]; simpl; [repeat constructor|]. constructor.
  - apply Forall_app. split; [done|]. repeat constructor. apply Hx. by left.
  - apply IH. intros z Hz. apply Hx. by right.
Qed.

Lemma pairwise_filter {A} (R : A -> A -> Prop) f l : pairwise R l -> pairwise R (List.filter f l).
Proof.
  induction 1 as [|x l Hx H IH]; simpl; [constructor|]. destruct (f x); [|done]. constructor; [|done].
  apply List.Forall_forall. intros y [Hy _]%filter_In. by eapply List.Forall_forall in Hx.
Qed.

Lemma pairwise_map {A} (R : A -> A -> Prop) f l : (forall x y, In x l -> In y l -> R x y -> R (f x) (f y)) ->
  pairwise R l -> pairwise R (List.map f l).
Proof.
  intros Hf H. induction H as [|x l Hx H IH]; simpl; constructor.
  - apply List.Forall_forall. intros y (z & <- & Hz)%in_map_iff. apply Hf; [by left|by right|].
    by eapply List.Forall_forall in Hx.
  - apply IH. intros a b Ha Hb. apply Hf; by right.
Qed.

Lemma open_of_spec id e : open_of id e = true <-> container_id e = id /\ ended_at e = None.
Proof.
  unfold open_of, of_container, is_open. rewrite andb_true_iff, String.eqb_eq. destruct (ended_at e); naive_solver.
Qed.

Lemma maxEnded_le id l x e : In e l -> container_id e = id -> ended_at e = Some x ->
  exists m, maxEnded id l = Some m /\ x <= m.
Proof.
  revert e. induction l as [|e0 l IH]; [done|]. intros e [<-|He] Hc Hx; simpl.
  - unfold of_container. rewrite Hc, String.eqb_refl, Hx. fold (maxEnded id l).
    destruct (maxEnded id l); eexists; (split; [reflexivity|]); lia.
  - destruct (IH e He Hc Hx) as (m & Hm & Hle). fold (maxEnded id l). rewrite Hm.
    destruct (of_container id e0); [|eauto]. destruct (ended_at e0); eexists; (split; [reflexivity|]); lia.
Qed.

Lemma maxEnded_bound id l now : Forall (sane now) l -> forall m, maxEnded id l = Some m -> m <= now.
Proof.
  induction 1 as [|e l [_ He] H IH]; simpl; [done|]. intros m. fold (maxEnded id l).
  destruct (of_container id e); [|apply IH]. destruct (ended_at e) as [x|]; [|apply IH].
  specialize (He x eq_refl). destruct (maxEnded id l) as [y|]; [specialize (IH y eq_refl)|]; intros [= <-]; lia.
Qed.

(** Adding a stretch that starts after every finished one of its container. *)
Lemma insert_inv now l e : ledger_inv now l -> ended_at e = None -> started_at e <= now ->
  (forall e' x, In e' l -> container_id e' = container_id e -> ended_at e' = Some x -> x <= started_at e) ->
  ledger_inv now (insertEntry l e).
Proof.
  intros [Hs Ha] He Hn Hx. unfold insertEntry. destruct (existsb (open_of (container_id e)) l) eqn:E; [done|].
  rewrite existsb_false_iff in E. split.
  - apply Forall_app. split; [done|]. constructor; [|constructor]. split; [done|]. by rewrite He.
  - apply pairwise_snoc; [|done]. intros e' Hin Hc. left.
    destruct (ended_at e') as [x|] eqn:Ee; [eauto|]. specialize (E e' Hin).
    rewrite (proj2 (open_of_spec _ _)) in E; done.
Qed.

Lemma close_apart now reason (p : Entry -> bool) l : (forall e, p e = true -> is_open e = true) ->
  ledger_inv now l -> ledger_inv now (List.map (fun e => if p e then close now reason e else e) l).
Proof.
  intros Hp [Hs Ha]. split.
  - apply Forall_map. eapply Forall_impl; [exact Hs|]. intros e [H1 H2]. cbn. destruct (p e); [|done].
    split; simpl; [done|]. intros x [= <-]. lia.
  - apply pairwise_map; [|done]. intros a b Hina Hinb Hab.
    assert (forall e, ended_at e <> None -> p e = false) as Hcl.
    { intros e He. destruct (p e) eqn:E; [|done]. apply Hp in E. unfold is_open in E. by destruct (ended_at e). }
    unfold apart in *. intros Hc. assert (container_id a = container_id b) as Hc'
      by (revert Hc; destruct (p a), (p b); done).
    destruct (Hab Hc') as [(x & Hx & Hle)|(y & Hy & Hle)].
    + left. exists x. rewrite (Hcl a) by congruence. destruct (p b); done.
    + right. exists y. rewrite (Hcl b) by congruence. destruct (p a); done.
Qed.

Lemma open_inv now b members id t l : (forall t', t = Some t' -> t' <= now) ->
  ledger_inv now l -> ledger_inv now (openUptimeInterval now b members id t l).
Proof.
  intros Ht Hl. unfold openUptimeInterval. set (start := greatest _ _).
  assert (start <= now) as Hstart.
  { subst start. unfold greatest. destruct (maxEnded id l) as [m|] eqn:Em.
    - pose proof (maxEnded_bound id l now (li_sane _ _ Hl) m Em). destruct t as [t|]; cbn; [specialize (Ht t eq_refl)|]; lia.
    - destruct t as [t|]; cbn; [by apply Ht|lia]. }
  assert (forall e x, In e l -> container_id e = id -> ended_at e = Some x -> x <= start) as Hend.
  { intros e x Hin Hc Hx. destruct (maxEnded_le id l x e Hin Hc Hx) as (m & Hm & Hle).
    subst start. rewrite Hm. cbn. lia. }
  clearbody start. clear Ht.
  induction members as [|m ms IH] in l, Hl, Hend |- *; [done|]. cbn [List.filter].
  destruct (String.eqb_spec (m_container m) id) as [Hm|]; [|by apply IH]. cbn [fold_left]. apply IH.
  - apply insert_inv; try done. intros e' x Hin Hc Hx. cbn in *. eapply Hend; [done|congruence|done].
  - intros e x Hin Hc Hx. unfold insertEntry in Hin. destruct (existsb _ _); [by eapply Hend|].
    apply in_app_iff in Hin as [Hin|[<-|[]]]; [by eapply Hend|done].
Qed.

Lemma filter_inv now f l : ledger_inv now l -> ledger_inv now (List.filter f l).
Proof.
  intros [Hs Ha]. split; [|by apply pairwise_filter]. apply List.Forall_forall.
  intros e [He _]%filter_In. by eapply List.Forall_forall in Hs.
Qed.

Lemma adopt_inv now name id l : event_ok now l (Adopt name id) -> ledger_inv now l ->
  ledger_inv now (fst (adoptProvisionalInterval name id l)).
Proof.
  intros Hok Hl. unfold adoptProvisionalInterval. set (key := provisionalContainerKey name) in *. cbn [fst].
  set (l' := if existsb (open_of id) l then List.filter (fun e => negb (open_of key e)) l else l).
  assert (ledger_inv now l') as Hl' by (subst l'; destruct (existsb _ l); [by apply filter_inv|done]).
  assert (forall e, In e l' -> In e l) as Hsub.
  { subst l'. intros e. destruct (existsb _ l); [|done]. by intros [? _]%filter_In. }
  assert (forall e e', In e l' -> In e' l' -> open_of key e = true -> open_of id e' = true -> False) as Hone.
  { subst l'. intros e e'. destruct (existsb (open_of id) l) eqn:E.
    - intros [_ H]%filter_In _ H' _. by rewrite H' in H.
    - intros _ Hin _ H. rewrite existsb_false_iff in E. specialize (E e' Hin). congruence. }
  clearbody l'. destruct Hl' as [Hs Ha]. split.
  - apply Forall_map. eapply Forall_impl; [exact Hs|]. intros e He. cbn. by destruct (open_of key e).
  - assert (forall a b, In a l' -> In b l' -> open_of key a = true -> open_of key b = false ->
       container_id b = id -> exists y, ended_at b = Some y /\ y <= started_at a) as Hmix.
    { intros a b Hina Hinb Hka _ Hc. destruct (ended_at b) as [y|] eqn:Ey.
      - exists y. split; [done|]. by eapply (Hok a b); eauto.
      - exfalso. eapply (Hone a b); eauto. by apply open_of_spec. }
    apply pairwise_map; [|done]. intros a b Hina Hinb Hab.
    destruct (open_of key a) eqn:Ka, (open_of key b) eqn:Kb; unfold apart; cbn; intros Hc.
    + apply open_of_spec in Ka as [Ka Ea], Kb as [Kb Eb]. exfalso.
      destruct (Hab (eq_trans Ka (eq_sym Kb))) as [(x & Hx & _)|(x & Hx & _)]; congruence.
    + right. by apply Hmix.
    + left. by apply Hmix.
    + by apply Hab.
Qed.

Lemma clock_inv now now' l : now <= now' -> ledger_inv now l -> ledger_inv now' l.
Proof.
  intros Hle [Hs Ha]. split; [|done]. eapply Forall_impl; [exact Hs|]. intros e [H1 H2].
  split; [lia|]. intros x Hx. specialize (H2 x Hx). lia.
Qed.

Lemma ledgerStep_inv now l e : event_ok now l e -> ledger_inv now l -> ledger_inv now (ledgerStep now l e).
Proof.
  intros Hok Hl. destruct e as [b id ms t|b name p mem disk t|name id|name|id r|r ms]; cbn [ledgerStep].
  - apply open_inv; [|done]. intros t' ->. exact Hok.
  - destruct Hok as [Ht Hx]. apply insert_inv; try done.
  - by apply adopt_inv.
  - by apply filter_inv.
  - apply close_apart; [|done]. intros e. unfold open_of. by intros [_ ?]%andb_true_iff.
  - apply close_apart; [|done]. intros e. by intros [? _]%andb_true_iff.
Qed.

(** A history: events at instants of a clock that never runs backwards. *)
Inductive ledger_reach : Z -> Ledger -> Prop :=
| reach_empty now : ledger_reach now []
| reach_step now now' l e : ledger_reach now l -> now <= now' -> event_ok now' l e ->
    ledger_reach now' (ledgerStep now' l e).

Lemma ledger_reach_inv now l : ledger_reach now l -> ledger_inv now l.
Proof.
  induction 1 as [now|now now' l e H IH Hle Hok]; [split; constructor|].
  apply ledgerStep_inv; [done|]. by eapply clock_inv.
Qed.

(** Closing twice keeps the first instant and reason. *)
Lemma close_idempotent now now' id r r' l :
  closeUptimeInterval now' id r' (closeUptimeInterval now id r l) = closeUptimeInterval now id r l.
Proof.
  unfold closeUptimeInterval. rewrite List.map_map. apply List.map_ext. intros e.
  destruct (open_of id e) eqn:E; [|by rewrite E]. unfold open_of, is_open. cbn. by rewrite andb_false_r.
Qed.
