(* ===== verification/ContainerHours.v ===== *)
(** * Reading the container-hours ledger

    A model of [packages/server/src/services/container-hours.ts] (and of
    [utcWindowStartSql] of [lib/sql.ts]) over the rows of [UptimeLedger.v]. Instants are
    microseconds, the resolution of [timestamptz]; a JavaScript [Date] is milliseconds.
    SQL's NULL is [None]: a [LEFT JOIN] without a match yields one row whose ledger columns
    are all NULL, [SUM] skips NULLs, [GREATEST] and [LEAST] skip them too. A cast [::int]
    rounds half away from zero and fails outside 32 bits.

    [session] reads a wall-clock [timestamp] as an instant in the session's time zone, which
    is what comparing a [timestamp] with a [timestamptz] does. *)
From Stdlib Require Import ZArith Lia Ascii String List Bool Permutation Sorted.
From stdpp Require Import base list strings option.
From S2P Require Import Prelude JsString Calendar Budget UptimeLedger.

Open Scope string_scope.
Open Scope list_scope.
Open Scope Z_scope.

Definition US_PER_MS : Z := 1000.
Definition US_PER_DAY : Z := MS_PER_DAY * US_PER_MS.

(** ** SQL values *)

Definition toInt (us : Z) : option Z :=
  let s := Z.sgn us * ((Z.abs us + 500000) / 1000000) in
  if (-(2 ^ 31) <=? s) && (s <? 2 ^ 31) then Some s else None.

Definition sqlSum (l : list (option Z)) : option Z :=
  fold_right (fun x acc => match x, acc with
                           | Some a, Some b => Some (a + b)
                           | Some a, None => Some a
                           | None, _ => acc
                           end) None l.

(** ** Clipping *)

(** The row of a join: [None] when the ledger side did not match. *)
Definition clippedSeconds (now : Z) (e : option Entry) (from to : Z) : option Z :=
  match e with
  | None => None
  | Some e => Some (Z.max (Z.min (default now (ended_at e)) to - Z.max (started_at e) from) 0)
  end.

Definition overlapsWindow (now : Z) (e : Entry) (from to : Z) : bool :=
  (started_at e <? to) && (default now (ended_at e) >? from).

Definition sumClipped (now : Z) (rows : list (option Entry)) (from to : Z) : Z :=
  default 0 (sqlSum (List.map (fun e => clippedSeconds now e from to) rows)).

(** ** Windows *)

Definition currentContainerHoursWindow (anchorDay : option Z) (countedSince : option Z) (now : Z) : Z * Z :=
  containerHoursWindow anchorDay now countedSince.

Inductive HoursBucket := Day_ | Week_ | Month_.

Definition HOURS_BUCKET_SPAN (b : HoursBucket) : Z :=
  match b with Day_ => 30 | Week_ => 12 | Month_ => 12 end.

(** [date_trunc] on a wall-clock value; weeks open on Monday. *)
Definition dateTrunc (b : HoursBucket) (t : Z) : Z :=
  let d := t / US_PER_DAY in
  match b with
  | Day_ => d * US_PER_DAY
  | Week_ => (d - (d + 3) mod 7) * US_PER_DAY
  | Month_ => monthStart (monthOf (t / US_PER_MS)) * US_PER_DAY
  end.

(** [t + k * interval '1 <bucket>'] on a wall-clock value: months keep the day of the month
    up to the month's length. *)
Definition addInterval (b : HoursBucket) (t k : Z) : Z :=
  match b with
  | Day_ => t + k * US_PER_DAY
  | Week_ => t + 7 * k * US_PER_DAY
  | Month_ =>
      let M := monthOf (t / US_PER_MS) + k in
      (monthStart M + Z.min (getUTCDate (t / US_PER_MS)) (monthLen M) - 1) * US_PER_DAY + t mod US_PER_DAY
  end.

Definition utcWindowStartSql (b : HoursBucket) (now : Z) : Z := dateTrunc b now.

Fixpoint generate_series (b : HoursBucket) (fuel : nat) (cur stop : Z) : list Z :=
  match fuel with
  | O => []
  | S fuel => if cur <=? stop then cur :: generate_series b fuel (addInterval b cur 1) stop else []
  end.

Definition bucketGridSql (b : HoursBucket) (span : Z) (now : Z) : list (Z * Z) :=
  let top := dateTrunc b now in
  List.map (fun gs => (gs, addInterval b gs 1))
    (generate_series b (Z.to_nat (span + 1)) (addInterval b top (- (span - 1))) top).

(** ** Reads *)

Section Reads.
Variable session : Z -> Z.

Definition inScope (projectId : option string) (e : Entry) : bool :=
  match projectId with None => true | Some p => bool_decide (project_id e = Some p) end.

Definition leftJoin (rows : list Entry) : list (option Entry) :=
  match rows with [] => [None] | _ => List.map Some rows end.

Definition bucketRows (now : Z) (p : Entry -> bool) (b : Z * Z) (l : Ledger) : list Entry :=
  List.filter (fun e => overlapsWindow now e (session (fst b)) (session (snd b)) && p e) l.

Definition bucketMicros (now : Z) (rows : list (option Entry)) (b : Z * Z) : Z :=
  sumClipped now rows (session (fst b)) (session (snd b)).

Record ContainerHoursBucket := mkBucket { bucket : Z; seconds : Z }.

Definition containerHoursSeries (now : Z) (unit : HoursBucket) (projectId : option string) (l : Ledger)
    : option (list ContainerHoursBucket) :=
  mapM (fun b => s ← toInt (bucketMicros now (leftJoin (bucketRows now (inScope projectId) b l)) b);
                 Some (mkBucket (fst b / US_PER_DAY) s))
    (bucketGridSql unit (HOURS_BUCKET_SPAN unit) now).

Record Project := mkProject { p_id : string; p_name : string; p_slug : string }.
Record ContainerHoursProjectBucket := mkProjectBucket {
  pb_bucket : Z; pb_project_id : option string; project_name : string; project_slug : option string; pb_seconds : Z
}.

Definition bySecondsDesc (a b : ContainerHoursProjectBucket) : Z := pb_seconds b - pb_seconds a.

(** The groups of one bucket: the distinct owners of its rows. *)
Definition groups (rows : list Entry) : list (option string) := remove_dups (List.map project_id rows).
Definition groupRows (p : option string) (rows : list Entry) : list Entry :=
  List.filter (fun e => bool_decide (project_id e = p)) rows.

Definition projectOf (projects : list Project) (p : option string) : option Project :=
  match p with None => None | Some id => List.find (fun q => String.eqb (p_id q) id) projects end.

Definition containerHoursByProject (now : Z) (unit : HoursBucket) (projects : list Project) (l : Ledger)
    : option (list ContainerHoursProjectBucket) :=
  bs ← mapM (fun b =>
      let rows := bucketRows now (fun _ => true) b l in
      gs ← mapM (fun p =>
          s ← toInt (bucketMicros now (List.map Some (groupRows p rows)) b);
          let proj := projectOf projects p in
          Some (mkProjectBucket (fst b / US_PER_DAY) p (default "Deleted projects" (p_name <$> proj)) (p_slug <$> proj) s))
        (groups rows);
      Some (js_sort bySecondsDesc gs))
    (bucketGridSql unit (HOURS_BUCKET_SPAN unit) now);
  Some (concat bs).

Record ContainerHoursTotals := mkTotals {
  today_seconds : Z; week_seconds : Z; window_seconds : Z; prev_window_seconds : Z; open_intervals : Z;
  window_start : Z; window_end : Z
}.

(** [jsNow] is the process clock in milliseconds, [now] the database's. *)
Definition containerHoursTotals (now jsNow : Z) (anchorDay since : option Z) (projectId : option string) (l : Ledger)
    : option ContainerHoursTotals :=
  let '(start, end_) := currentContainerHoursWindow anchorDay since jsNow in
  let prevStart := previousContainerHoursWindowStart anchorDay jsNow since in
  let day := session (dateTrunc Day_ now) in
  let week := session (dateTrunc Week_ now) in
  let from := start * US_PER_MS in
  let prevFrom := prevStart * US_PER_MS in
  let rows := List.filter (fun e => overlapsWindow now e prevFrom now && inScope projectId e) l in
  let jrows := List.map Some rows in
  today ← toInt (sumClipped now jrows day now);
  wk ← toInt (sumClipped now jrows week now);
  win ← toInt (sumClipped now jrows from now);
  prev ← toInt (sumClipped now jrows prevFrom from);
  Some (mkTotals today wk win prev (countZ is_open rows) start end_).

Definition currentWindowContainerSeconds (now jsNow : Z) (anchorDay since : option Z) (l : Ledger) : option Z :=
  let start := fst (currentContainerHoursWindow anchorDay since jsNow) * US_PER_MS in
  toInt (sumClipped now (List.map Some (List.filter (fun e => overlapsWindow now e start now) l)) start now).

Record ProjectBudgetWindowSeconds := mkBudgetWindow { daily : Z; weekly : Z; monthly : Z; bw_monthStart : Z }.

Definition projectBudgetWindowSeconds (now jsNow : Z) (anchorDay since : option Z) (projectId : string) (l : Ledger)
    : option ProjectBudgetWindowSeconds :=
  let start := fst (currentContainerHoursWindow anchorDay since jsNow) in
  let day := utcWindowStartSql Day_ now in
  let week := utcWindowStartSql Week_ now in
  let month := start * US_PER_MS in
  let least := Z.min day (Z.min week month) in
  let rows := List.map Some (List.filter (fun e => bool_decide (project_id e = Some projectId)
                && (match ended_at e with None => true | Some x => x >? least end)
                && overlapsWindow now e least now) l) in
  d ← toInt (sumClipped now rows day now);
  w ← toInt (sumClipped now rows week now);
  m ← toInt (sumClipped now rows month now);
  Some (mkBudgetWindow d w m start).
End Reads.

Record HoursProject := mkHoursProject { monthly_budget_container_seconds : Z; archived_at : option Z }.

Definition projectHoursLimitsTotal (ps : list HoursProject) : Z * Z :=
  let rows := List.filter (fun p => (monthly_budget_container_seconds p >? 0)
                && match archived_at p with None => true | Some _ => false end) ps in
  (Z.of_nat (length rows), sumZ monthly_budget_container_seconds rows).

(** ** Clipping lemmas *)

(** The part of one stretch inside a window. *)
Definition clip (now : Z) (e : Entry) (from to : Z) : Z :=
  Z.max (Z.min (default now (ended_at e)) to - Z.max (started_at e) from) 0.

Lemma sumClipped_some now rows from to :
  sumClipped now (List.map Some rows) from to = sumZ (fun e => clip now e from to) rows.
Proof.
  unfold sumClipped. rewrite List.map_map. induction rows as [|e rows IH]; [done|]. rewrite sumZ_cons, <- IH.
  cbn [List.map sqlSum fold_right]. unfold sqlSum, clip.
  destruct (fold_right _ None (List.map _ rows)) as [x|]; cbn; lia.
Qed.

Lemma sumClipped_leftJoin now rows from to :
  sumClipped now (leftJoin rows) from to = sumZ (fun e => clip now e from to) rows.
Proof. destruct rows; [done|]. cbn [leftJoin]. apply sumClipped_some. Qed.

Lemma clip_split now e a b c : a <= b <= c -> clip now e a c = clip now e a b + clip now e b c.
Proof. unfold clip. lia. Qed.

Lemma clip_nonneg now e a b : 0 <= clip now e a b.
Proof. unfold clip. lia. Qed.

Lemma clip_outside now e a b : overlapsWindow now e a b = false -> clip now e a b = 0.
Proof. unfold overlapsWindow, clip. rewrite andb_false_iff, Z.ltb_ge, Z.gtb_ltb, Z.ltb_ge. lia. Qed.

Lemma overlaps_wider now e a b a' b' : a' <= a -> b <= b' ->
  overlapsWindow now e a b = true -> overlapsWindow now e a' b' = true.
Proof. unfold overlapsWindow. rewrite !andb_true_iff, !Z.gtb_ltb, !Z.ltb_lt. lia. Qed.

Lemma sumZ_filter {A} (f : A -> Z) p l : (forall x, In x l -> p x = false -> f x = 0) ->
  sumZ f (List.filter p l) = sumZ f l.
Proof.
  intros H. induction l as [|x l IH]; [done|]. cbn [List.filter]. rewrite sumZ_cons.
  assert (sumZ f (List.filter p l) = sumZ f l) as IH' by (apply IH; intros; apply H; [by right|done]).
  destruct (p x) eqn:E; [rewrite sumZ_cons; lia|]. rewrite (H x); [lia|by left|done].
Qed.

Lemma sumZ_add {A} (f g : A -> Z) l : sumZ (fun x => f x + g x) l = sumZ f l + sumZ g l.
Proof. induction l as [|x l IH]; [done|]. rewrite !sumZ_cons. lia. Qed.

Lemma sumZ_le {A} (f g : A -> Z) l : (forall x, In x l -> f x <= g x) -> sumZ f l <= sumZ g l.
Proof.
  induction l as [|x l IH]; intros H; [done|]. rewrite !sumZ_cons. pose proof (H x (or_introl eq_refl)).
  specialize (IH (fun y Hy => H y (or_intror Hy))). lia.
Qed.

(** Rows a prefilter drops contribute nothing when it only drops rows outside the window. *)
Lemma prefilter_sum now (p q : Entry -> bool) l a b :
  (forall e, In e l -> p e = true -> overlapsWindow now e a b = true -> q e = true) ->
  sumZ (fun e => clip now e a b) (List.filter (fun e => q e && p e) l)
  = sumZ (fun e => clip now e a b) (List.filter p l).
Proof.
  intros H. transitivity (sumZ (fun e => clip now e a b) (List.filter q (List.filter p l))).
  - f_equal. rewrite filter_filter_and. apply filter_ext_in'. intros e _. apply andb_comm.
  - apply sumZ_filter. intros e [Hin Hp]%filter_In Hq. apply clip_outside.
    destruct (overlapsWindow now e a b) eqn:E; [|done]. rewrite (H e Hin Hp E) in Hq. done.
Qed.

(** ** One container is billed once *)

Lemma apart_clip now e e' a b : container_id e = container_id e' -> sane now e -> sane now e' -> apart e e' ->
  clip now e' a b <= clip now e' a (Z.min (started_at e) b) + clip now e' (Z.max (default now (ended_at e)) a) b.
Proof.
  intros Hc [H1 H2] [H1' H2'] Ha. unfold clip.
  destruct (Ha Hc) as [(x & Hx & Hle)|(y & Hy & Hle)].
  - rewrite Hx. cbn. lia.
  - rewrite Hy. cbn. lia.
Qed.

Lemma billed_bound now id l : (forall e, In e l -> container_id e = id) -> Forall (sane now) l -> pairwise apart l ->
  forall a b, sumZ (fun e => clip now e a b) l <= Z.max (b - a) 0.
Proof.
  intros Hid Hs Ha. induction Ha as [|e l He Ha IH]; intros a b; [rewrite sumZ_nil; lia|].
  inversion_clear Hs as [|? ? Hse Hs']. rename Hs' into Hs. rewrite sumZ_cons.
  assert (forall e', In e' l -> container_id e' = id) as Hid' by (intros; apply Hid; by right).
  specialize (IH Hid' Hs).
  assert (sumZ (fun e => clip now e a b) l
          <= sumZ (fun e' => clip now e' a (Z.min (started_at e) b) + clip now e' (Z.max (default now (ended_at e)) a) b) l)
    as Hsplit.
  { apply sumZ_le. intros e' Hin. apply apart_clip; [|done| |].
    - rewrite (Hid e), (Hid e'); [done|by right|by left].
    - by eapply List.Forall_forall in Hs.
    - by eapply List.Forall_forall in He. }
  rewrite sumZ_add in Hsplit. pose proof (IH a (Z.min (started_at e) b)).
  pose proof (IH (Z.max (default now (ended_at e)) a) b). destruct Hse as [H1 H2]. unfold clip at 1.
  destruct (ended_at e) as [x|]; cbn in *; [specialize (H2 x eq_refl)|]; lia.
Qed.

(** C37. No minute of a container is billed twice: whatever sequence of opens, provisional
    opens, adoptions, discards and closes the ledger went through, the ledger's time for one
    container inside any window is at most the width of that window. *)
Theorem container_billed_once now l id a b : ledger_reach now l -> a <= b ->
  sumClipped now (List.map Some (List.filter (of_container id) l)) a b <= b - a.
Proof.
  intros [Hs Ha]%ledger_reach_inv Hab. rewrite sumClipped_some.
  transitivity (Z.max (b - a) 0); [|lia]. apply (billed_bound now id).
  - intros e [_ He]%filter_In. by apply String.eqb_eq in He.
  - apply List.Forall_forall. intros e [He _]%filter_In. by eapply List.Forall_forall in Hs.
  - by apply pairwise_filter.
Qed.

(** A container resumed while its last stop was still completing: the second stretch, asked
    for at 40, starts where the first ended. *)
Definition demo_member : Member := mkMember (Some "p") "c" (Some 1) 1.
Definition demo_ledger : Ledger :=
  ledgerStep 60 (ledgerStep 50 (ledgerStep 10 [] (OpenInterval "docker" "c" [demo_member] None))
    (CloseInterval "c" "stopped")) (OpenInterval "docker" "c" [demo_member] (Some 40)).

Lemma demo_reach : ledger_reach 60 demo_ledger.
Proof.
  unfold demo_ledger. eapply (reach_step 50); [|lia|cbn; lia].
  eapply (reach_step 10); [|lia|done]. eapply (reach_step 0); [constructor|lia|done].
Qed.

Lemma container_billed_once_witness :
  sumClipped 60 (List.map Some (List.filter (of_container "c") demo_ledger)) 0 60 = 50 /\
  sumClipped 60 (List.map Some (List.filter (of_container "c") demo_ledger)) 0 60 <= 60 - 0.
Proof. split; [reflexivity|apply (container_billed_once 60 demo_ledger "c" 0 60); [exact demo_reach|lia]]. Defined.

(** ** The bucket grid *)

(** Where the [i]-th bucket of a unit starts, and the bucket of an instant. *)
Definition bstart (b : HoursBucket) (i : Z) : Z :=
  match b with
  | Day_ => i * US_PER_DAY
  | Week_ => (7 * i - 3) * US_PER_DAY
  | Month_ => monthStart i * US_PER_DAY
  end.

Definition bindex (b : HoursBucket) (t : Z) : Z :=
  match b with
  | Day_ => t / US_PER_DAY
  | Week_ => (t / US_PER_DAY + 3) / 7
  | Month_ => monthOf (t / US_PER_MS)
  end.

Lemma dateTrunc_bstart b t : dateTrunc b t = bstart b (bindex b t).
Proof.
  destruct b; cbn; [done| |done]. f_equal. pose proof (Z.div_mod (t / US_PER_DAY + 3) 7). lia.
Qed.

Lemma bindex_spec b t : bstart b (bindex b t) <= t < bstart b (bindex b t + 1).
Proof.
  destruct b; cbn.
  - pose proof (Z.div_mod t US_PER_DAY). pose proof (Z.mod_pos_bound t US_PER_DAY). unfold US_PER_DAY, MS_PER_DAY, US_PER_MS in *. lia.
  - pose proof (Z.div_mod t US_PER_DAY). pose proof (Z.mod_pos_bound t US_PER_DAY).
    set (d := t / US_PER_DAY) in *. pose proof (Z.div_mod (d + 3) 7). pose proof (Z.mod_pos_bound (d + 3) 7).
    unfold US_PER_DAY, MS_PER_DAY, US_PER_MS in *. lia.
  - pose proof (monthOf_spec (t / US_PER_MS)) as H. set (M := monthOf _) in *.
    pose proof (Day_spec (t / US_PER_MS)). unfold US_PER_DAY, MS_PER_DAY, US_PER_MS in *.
    pose proof (Z.div_mod t 1000). pose proof (Z.mod_pos_bound t 1000). lia.
Qed.

Lemma bstart_step b i : bstart b i < bstart b (i + 1).
Proof.
  destruct b; cbn; unfold US_PER_DAY, MS_PER_DAY, US_PER_MS; try lia. pose proof (month_length i). lia.
Qed.

Lemma bstart_mono b i k : 0 <= k -> bstart b i + k <= bstart b (i + k).
Proof.
  intros Hk. pattern k. apply natlike_ind; [rewrite !Z.add_0_r; lia| |done].
  intros j Hj IH. pose proof (bstart_step b (i + j)). replace (i + Z.succ j) with (i + j + 1) by lia. lia.
Qed.

Lemma getUTCDate_monthOf t : getUTCDate t = Day t - monthStart (monthOf t) + 1.
Proof. unfold getUTCDate. by rewrite firstOfMonth_start. Qed.

Lemma addInterval_bstart b i k : addInterval b (bstart b i) k = bstart b (i + k).
Proof.
  destruct b; cbn; [lia|lia|].
  replace (monthStart i * US_PER_DAY / US_PER_MS) with (monthStart i * MS_PER_DAY).
  2:{ unfold US_PER_DAY. rewrite Z.mul_assoc, Z.div_mul; done. }
  assert (getUTCDate (monthStart i * MS_PER_DAY) = 1) as ->.
  { rewrite getUTCDate_monthOf, monthOf_start, Day_of_day. lia. }
  rewrite monthOf_start, Z.mod_mul by done. pose proof (month_length (i + k)). unfold monthLen.
  rewrite Z.min_l by lia. lia.
Qed.

Lemma series_bstart b n i : forall fuel, (n < fuel)%nat ->
  generate_series b fuel (bstart b i) (bstart b (i + Z.of_nat n - 1)) =
  List.map (fun k => bstart b (i + Z.of_nat k)) (List.seq 0 n).
Proof.
  revert i. induction n as [|n IH]; intros i [|fuel] Hf; try lia; cbn [generate_series].
  - pose proof (bstart_step b (i - 1)). replace (i - 1 + 1) with i in * by lia.
    destruct (Z.leb_spec (bstart b i) (bstart b (i + Z.of_nat 0 - 1))) as [H'|]; [|done].
    replace (i + Z.of_nat 0 - 1) with (i - 1) in H' by lia. lia.
  - pose proof (bstart_mono b i (Z.of_nat n) ltac:(lia)). replace (i + Z.of_nat (S n) - 1) with (i + Z.of_nat n) by lia.
    destruct (Z.leb_spec (bstart b i) (bstart b (i + Z.of_nat n))); [|lia].
    cbn [List.seq List.map]. rewrite Z.add_0_r. f_equal. rewrite addInterval_bstart.
    replace (i + Z.of_nat n) with (i + 1 + Z.of_nat n - 1) by lia. rewrite IH by lia.
    rewrite <- seq_shift, List.map_map. apply List.map_ext. intros k. f_equal. lia.
Qed.

(** The grid is the last [span] buckets, ending with the current one. *)
Lemma grid_bstart b (n : nat) now : bucketGridSql b (Z.of_nat n) now =
  List.map (fun k => let i := bindex b now - Z.of_nat n + 1 + Z.of_nat k in (bstart b i, bstart b (i + 1))) (List.seq 0 n).
Proof.
  unfold bucketGridSql. rewrite dateTrunc_bstart, addInterval_bstart.
  set (i := bindex b now + - (Z.of_nat n - 1)).
  replace (bindex b now) with (i + Z.of_nat n - 1) at 1 by lia. rewrite series_bstart by lia.
  rewrite List.map_map. apply List.map_ext. intros k. cbn zeta. rewrite addInterval_bstart.
  subst i. f_equal; f_equal; lia.
Qed.

(** ** The series *)

Lemma toInt_spec us s : 0 <= us -> toInt us = Some s -> -500000 <= 1000000 * s - us <= 500000.
Proof.
  intros Hp. unfold toInt. destruct (_ && _); [|done]. intros [= <-].
  rewrite Z.abs_eq by done. pose proof (Z.div_mod (us + 500000) 1000000). pose proof (Z.mod_pos_bound (us + 500000) 1000000).
  destruct us as [|q|q]; [done| |lia]. cbn [Z.sgn]. lia.
Qed.

Lemma sumZ_zero {A} (f : A -> Z) l : (forall x, In x l -> f x = 0) -> sumZ f l = 0.
Proof.
  induction l as [|x l IH]; intros H; [done|]. rewrite sumZ_cons, (H x), IH; [done| |by left].
  intros y Hy. apply H. by right.
Qed.

Lemma sumZ_swap {A B} (f : A -> B -> Z) la lb :
  sumZ (fun a => sumZ (f a) lb) la = sumZ (fun b => sumZ (fun a => f a b) la) lb.
Proof.
  induction la as [|a la IH]; [symmetry; by apply sumZ_zero|]. rewrite sumZ_cons, IH, <- sumZ_add.
  f_equal.
Qed.

Lemma sumZ_ext {A} (f g : A -> Z) l : (forall x, In x l -> f x = g x) -> sumZ f l = sumZ g l.
Proof.
  induction l as [|x l IH]; intros H; [done|]. rewrite !sumZ_cons, (H x), IH; [done| |by left].
  intros y Hy. apply H. by right.
Qed.

(** Consecutive windows add up to the window they cover. *)
Lemma clip_tiles now e (s : nat -> Z) n : (forall k, s k <= s (S k)) ->
  sumZ (fun k => clip now e (s k) (s (S k))) (List.seq 0 n) = clip now e (s O) (s n).
Proof.
  intros Hs. assert (forall k, s O <= s k) as H0 by (induction k as [|k IH]; [lia|specialize (Hs k); lia]).
  induction n as [|n IH]; [cbn [List.seq]; rewrite sumZ_nil; unfold clip; lia|].
  rewrite seq_S, sumZ_app, IH, sumZ_cons, sumZ_nil. cbn.
  rewrite (clip_split now e (s O) (s n) (s (S n))); [lia|split; [apply H0|apply Hs]].
Qed.

Section Series.
Variable session : Z -> Z.

Lemma bucketMicros_series now p b l :
  bucketMicros session now (leftJoin (bucketRows session now p b l)) b
  = sumZ (fun e => clip now e (session (fst b)) (session (snd b))) (List.filter p l).
Proof.
  unfold bucketMicros, bucketRows. rewrite sumClipped_leftJoin. by apply prefilter_sum.
Qed.

Lemma mapM_rounded {A B} (f : A -> Z) (g : A -> Z -> B) (h : B -> Z) l bs :
  (forall x, 0 <= f x) -> (forall x s, h (g x s) = s) ->
  mapM (fun x => s ← toInt (f x); Some (g x s)) l = Some bs ->
  length bs = length l /\
  - (500000 * Z.of_nat (length l)) <= 1000000 * sumZ h bs - sumZ f l <= 500000 * Z.of_nat (length l).
Proof.
  intros Hf Hg. revert bs. induction l as [|x l IH]; cbn [mapM]; intros bs H.
  - injection H as <-. rewrite !sumZ_nil. cbn. lia.
  - apply bind_Some in H as (b & Hb & H). apply bind_Some in H as (bs' & Hbs & [= <-]).
    apply bind_Some in Hb as (s & Hs & [= <-]). destruct (IH bs' Hbs) as [Hlen Hb].
    pose proof (toInt_spec _ _ (Hf x) Hs). rewrite !sumZ_cons, Hg. cbn [length]. lia.
Qed.

Lemma sumClipped_nonneg now rows a b : 0 <= sumZ (fun e => clip now e a b) rows.
Proof. apply sumZ_nonneg. intros. apply clip_nonneg. Qed.

(** The exact time of every bucket of the grid adds up to the time in the span. *)
Lemma grid_micros now unit (n : nat) rows :
  (forall i, session (bstart unit i) <= session (bstart unit (i + 1))) ->
  sumZ (fun b => sumZ (fun e => clip now e (session (fst b)) (session (snd b))) rows) (bucketGridSql unit (Z.of_nat n) now)
  = sumZ (fun e => clip now e (session (bstart unit (bindex unit now + 1 - Z.of_nat n)))
                     (session (bstart unit (bindex unit now + 1)))) rows.
Proof.
  intros Hs. rewrite grid_bstart, sumZ_swap. apply sumZ_ext. intros e _.
  set (i := bindex unit now). set (s := fun k : nat => session (bstart unit (i + 1 - Z.of_nat n + Z.of_nat k))).
  transitivity (sumZ (fun k => clip now e (s k) (s (S k))) (List.seq 0 n)).
  - induction (List.seq 0 n) as [|k ks IH]; [done|]. cbn [List.map]. rewrite !sumZ_cons. f_equal; [|exact IH]. cbn [fst snd].
    subst s. cbn. f_equal; do 2 f_equal; lia.
  - rewrite clip_tiles.
    + subst s. cbn. f_equal; do 2 f_equal; lia.
    + intros k. subst s. cbn. etransitivity; [apply Hs|]. apply Z.eq_le_incl. do 2 f_equal. lia.
Qed.

Lemma span_nat unit : HOURS_BUCKET_SPAN unit = Z.of_nat (Z.to_nat (HOURS_BUCKET_SPAN unit)).
Proof. by destruct unit. Qed.
End Series.

(** The hours series splits every stretch across the buckets it touches and loses
    nothing: it has one bucket per unit of the span, the last one the unit of now, and its
    seconds add up to the scope's time between the first bucket's start and the last one's
    end, within the half second each bucket is rounded by. *)
Theorem series_splits_exactly session now unit projectId l bs :
  (forall i, session (bstart unit i) <= session (bstart unit (i + 1))) ->
  containerHoursSeries session now unit projectId l = Some bs ->
  let span := HOURS_BUCKET_SPAN unit in
  let from := bstart unit (bindex unit now + 1 - span) in
  let to := bstart unit (bindex unit now + 1) in
  dateTrunc unit now <= now < to /\ Z.of_nat (length bs) = span /\
  Z.abs (1000000 * sumZ seconds bs
         - sumClipped now (List.map Some (List.filter (inScope projectId) l)) (session from) (session to))
  <= 500000 * span.
Proof.
  intros Hs H. cbn zeta. unfold containerHoursSeries in H.
  assert (length (bucketGridSql unit (HOURS_BUCKET_SPAN unit) now) = Z.to_nat (HOURS_BUCKET_SPAN unit)) as Hlen
    by (rewrite span_nat, grid_bstart, length_map, length_seq, <- span_nat; done).
  apply (mapM_rounded _ (fun b s => mkBucket (fst b / US_PER_DAY) s) seconds) in H as [Hl H]; [| |done].
  2:{ intros b. rewrite bucketMicros_series. apply sumClipped_nonneg. }
  rewrite (sumZ_ext _ _ _ (fun b _ => bucketMicros_series session now _ b l)) in H.
  rewrite span_nat, grid_micros, <- !span_nat, Hlen in H by done. rewrite sumClipped_some.
  pose proof (bindex_spec unit now). rewrite dateTrunc_bstart. rewrite Hl, Hlen, <- span_nat. rewrite <- span_nat in H.
  split; [done|]. split; [done|]. lia.
Qed.

Lemma series_splits_exactly_witness :
  containerHoursSeries (fun t => t) 100000000 Day_ None
    [mkEntry None "c" (Some 1) 1 "docker" 10000000 (Some 40000000) None; mkEntry None "d" (Some 1) 1 "docker" 90000000 None None]
    <> None /\
  forall bs, containerHoursSeries (fun t => t) 100000000 Day_ None
    [mkEntry None "c" (Some 1) 1 "docker" 10000000 (Some 40000000) None; mkEntry None "d" (Some 1) 1 "docker" 90000000 None None]
    = Some bs -> sumZ seconds bs = 40 /\ Z.of_nat (length bs) = 30.
Proof.
  split; [vm_compute; discriminate|]. intros bs H.
  destruct (series_splits_exactly (fun t => t) 100000000 Day_ None _ bs (fun i => Z.lt_le_incl _ _ (bstart_step Day_ i)) H)
    as (_ & Hl & _).
  split; [|exact Hl]. vm_compute in H. injection H as <-. reflexivity.
Defined.

(** ** The meter and the gate *)

Lemma previous_le_start anchorDay now since :
  previousContainerHoursWindowStart anchorDay now since <= fst (currentContainerHoursWindow anchorDay since now).
Proof.
  unfold previousContainerHoursWindowStart, currentContainerHoursWindow, containerHoursWindow. cbn [fst].
  destruct (Z.ltb_spec (containerHoursWindowStart anchorDay (anchoredWindowStart anchorDay now - 1) since)
    (containerHoursWindowStart anchorDay now since)); lia.
Qed.

(** The sum of one column behind a prefilter no narrower than its window. *)
Lemma column_exact now p a lo l : lo <= a ->
  sumClipped now (List.map Some (List.filter (fun e => overlapsWindow now e lo now && p e) l)) a now
  = sumZ (fun e => clip now e a now) (List.filter p l).
Proof.
  intros Hle. rewrite sumClipped_some. apply prefilter_sum. intros e _ _ H. by eapply overlaps_wider; [exact Hle|done|].
Qed.

Lemma budget_column_exact now projectId a lo l : lo <= a ->
  sumClipped now (List.map Some (List.filter (fun e => bool_decide (project_id e = Some projectId)
                && (match ended_at e with None => true | Some x => x >? lo end)
                && overlapsWindow now e lo now) l)) a now
  = sumZ (fun e => clip now e a now) (List.filter (inScope (Some projectId)) l).
Proof.
  intros Hle. rewrite sumClipped_some.
  rewrite <- (prefilter_sum now (inScope (Some projectId)) (fun e => overlapsWindow now e lo now)).
  - f_equal. apply filter_ext_in'. intros e _. unfold inScope, overlapsWindow.
    destruct (bool_decide _), (started_at e <? now), (ended_at e) as [x|]; cbn; try done;
      try (by destruct (x >? lo)); by destruct (now >? lo).
  - intros e _ _ H. by eapply overlaps_wider; [exact Hle|done|].
Qed.

Lemma week_le_day t : dateTrunc Week_ t <= dateTrunc Day_ t.
Proof. cbn. pose proof (Z.mod_pos_bound (t / US_PER_DAY + 3) 7). unfold US_PER_DAY, MS_PER_DAY, US_PER_MS in *. lia. Qed.

Ltac bind_inv :=
  repeat match goal with
  | H : mbind _ _ = Some _ |- _ => apply bind_Some in H as (? & ? & H)
  | H : Some _ = Some _ |- _ => injection H as <-
  end.

(** The meter and the cap agree: the window figure the Budget page shows instance-wide
    is the figure the admission check enforces, the one shown for a project is the monthly
    figure its own budget is checked on, over the same window; and in a session whose zone is
    UTC the day and week figures agree too, as long as the previous window opened no later
    than this week. *)
Theorem meter_matches_gate session now jsNow anchorDay since l t :
  containerHoursTotals session now jsNow anchorDay since None l = Some t ->
  currentWindowContainerSeconds now jsNow anchorDay since l = Some (window_seconds t) /\
  forall projectId tp b,
    containerHoursTotals session now jsNow anchorDay since (Some projectId) l = Some tp ->
    projectBudgetWindowSeconds now jsNow anchorDay since projectId l = Some b ->
    monthly b = window_seconds tp /\ bw_monthStart b = window_start tp /\
    ((forall x, session x = x) ->
     previousContainerHoursWindowStart anchorDay jsNow since * US_PER_MS <= dateTrunc Week_ now ->
     daily b = today_seconds tp /\ weekly b = week_seconds tp).
Proof.
  intros H. pose proof (previous_le_start anchorDay jsNow since) as Hprev.
  pose proof (week_le_day now) as Hwd.
  unfold containerHoursTotals, currentWindowContainerSeconds, projectBudgetWindowSeconds in *.
  destruct (currentContainerHoursWindow anchorDay since jsNow) as [start end_]. cbn [fst] in *.
  assert (previousContainerHoursWindowStart anchorDay jsNow since * US_PER_MS <= start * US_PER_MS) as Hp
    by (unfold US_PER_MS; lia). split.
  - bind_inv. cbn [window_seconds]. rewrite <- H2. f_equal. rewrite column_exact by done.
    rewrite sumClipped_some. rewrite sumZ_filter by (intros e _; apply clip_outside).
    symmetry. apply sumZ_filter. done.
  - clear H. intros projectId tp b Ht Hb. unfold utcWindowStartSql in *. bind_inv.
    cbn [monthly weekly daily bw_monthStart window_seconds today_seconds week_seconds window_start].
    rewrite budget_column_exact in H, H0, H1 by lia. rewrite column_exact in H4 by done.
    split; [congruence|]. split; [done|]. intros Hs Hw. rewrite !Hs in *.
    rewrite column_exact in H2, H3 by lia. split; congruence.
Qed.

(** 2026-03-18 12:00 UTC, a Wednesday: a container up 09:00-10:00 and one up since 11:00. *)
Definition demo_now_ms : Z := dateUTC 2026 2 18 + 12 * 3600000.
Definition demo_at (h : Z) : Z := (dateUTC 2026 2 18 + h * 3600000) * US_PER_MS.
Definition demo_day : Ledger :=
  [mkEntry (Some "p") "c" (Some 1) 1 "docker" (demo_at 9) (Some (demo_at 10)) None;
   mkEntry (Some "p") "d" (Some 1) 1 "docker" (demo_at 11) None None].

Lemma meter_matches_gate_witness :
  exists t, containerHoursTotals (fun x => x) (demo_at 12) demo_now_ms None None None demo_day = Some t /\
  currentWindowContainerSeconds (demo_at 12) demo_now_ms None None demo_day = Some (window_seconds t) /\
  window_seconds t = 7200.
Proof.
  eexists. split; [vm_compute; reflexivity|]. split; [|reflexivity].
  apply (meter_matches_gate (fun x => x) (demo_at 12) demo_now_ms None None demo_day). vm_compute. reflexivity.
Defined.

(** Counting pinned to start at 10:30 narrows the prefilter of [containerHoursTotals] below
    its day column: the hour already finished today is missing from the meter (3600 s) while
    the project's daily budget is charged for it (7200 s). *)
Example totals_prefilter_narrower_than_day :
  let since := Some (demo_now_ms - 90 * 60000) in
  (today_seconds <$> containerHoursTotals (fun x => x) (demo_at 12) demo_now_ms None since (Some "p") demo_day,
   daily <$> projectBudgetWindowSeconds (demo_at 12) demo_now_ms None since "p" demo_day)
  = (Some 3600, Some 7200).
Proof. vm_compute. reflexivity. Qed.

(** In a session whose zone is ten hours behind UTC the meter's day opens at 10:00 UTC. *)
Example totals_day_follows_session_zone :
  (today_seconds <$> containerHoursTotals (fun x => x + 10 * 3600000000) (demo_at 12) demo_now_ms None None (Some "p") demo_day,
   daily <$> projectBudgetWindowSeconds (demo_at 12) demo_now_ms None None "p" demo_day)
  = (Some 3600, Some 7200).
Proof. vm_compute. reflexivity. Qed.
