(* ===== verification/PoolTable.v ===== *)
(** * The table of pool members

    A model of [packages/server/src/services/sandbox/pool-db.ts]: the rows of
    [container_pool_members], every statement that reads or writes them, and the move of the
    container's uptime interval that goes with a write of its state ([UptimeLedger.v]). The
    decision a run is given is the ladder of [Pool.v] over the rows loaded here.

    A statement is a function of the rows at an instant ([now()], microseconds). The unique
    index on [container_id] makes an insert of a known container an update. *)
From Stdlib Require Import ZArith Lia Ascii String List Bool Permutation Sorted.
From stdpp Require Import base list strings option sorting countable.
From S2P Require Import Prelude JsString Sql Pool UptimeLedger.

Open Scope string_scope.
Open Scope list_scope.
Open Scope Z_scope.

(** ** Rows *)

Inductive MemberState := creating | midle | mbusy | msuspended | merror.

#[export] Instance MemberState_eq_dec : EqDecision MemberState.
Proof. solve_decision. Defined.

Record MemberRow := mkMemberRow {
  mr_project : string; mr_container : string; mr_state : MemberState; mr_memory : option Z;
  disk_used : Z; disk_ceiling : Z; last_released : option Z; created : Z; mr_unpushed : bool;
  last_task : option string; image_version : option string; chat_released : option Z;
  updated : Z; last_error : option string; last_logs : option string
}.

Definition Members := list MemberRow.

Definition hasContainer (id : string) (m : MemberRow) : bool := String.eqb (mr_container m) id.
Definition inState (s : MemberState) (m : MemberRow) : bool := bool_decide (mr_state m = s).

(** [UPDATE ... WHERE container_id = id AND p], and whether [RETURNING] gives a row. *)
Definition updateMember (id : string) (p : MemberRow -> bool) (f : MemberRow -> MemberRow) (t : Members) : Members :=
  List.map (fun m => if hasContainer id m && p m then f m else m) t.
Definition matchesMember (id : string) (p : MemberRow -> bool) (t : Members) : bool :=
  existsb (fun m => hasContainer id m && p m) t.

Definition anyMember (m : MemberRow) : bool := true.

(** Assignments of the statements. Each of them stamps [updated_at]. *)
Definition withState (now : Z) (s : MemberState) (m : MemberRow) : MemberRow :=
  mkMemberRow (mr_project m) (mr_container m) s (mr_memory m) (disk_used m) (disk_ceiling m) (last_released m) (created m)
    (mr_unpushed m) (last_task m) (image_version m) (chat_released m) now (last_error m) (last_logs m).

Definition withTask (task : option string) (m : MemberRow) : MemberRow :=
  mkMemberRow (mr_project m) (mr_container m) (mr_state m) (mr_memory m) (disk_used m) (disk_ceiling m) (last_released m)
    (created m) (mr_unpushed m) (match task with Some _ => task | None => last_task m end) (image_version m) (chat_released m)
    (updated m) (last_error m) (last_logs m).

Definition withRelease (released chatReleased : option Z) (m : MemberRow) : MemberRow :=
  mkMemberRow (mr_project m) (mr_container m) (mr_state m) (mr_memory m) (disk_used m) (disk_ceiling m) released (created m)
    (mr_unpushed m) (last_task m) (image_version m) chatReleased (updated m) (last_error m) (last_logs m).

Definition withUnpushed (now : Z) (flag : bool) (m : MemberRow) : MemberRow :=
  mkMemberRow (mr_project m) (mr_container m) (mr_state m) (mr_memory m) (disk_used m) (disk_ceiling m) (last_released m)
    (created m) flag (last_task m) (image_version m) (chat_released m) now (last_error m) (last_logs m).

Definition withMemory (now : Z) (memory : option Z) (m : MemberRow) : MemberRow :=
  mkMemberRow (mr_project m) (mr_container m) (mr_state m) memory (disk_used m) (disk_ceiling m) (last_released m)
    (created m) (mr_unpushed m) (last_task m) (image_version m) (chat_released m) now (last_error m) (last_logs m).

Definition withDiskUsed (now bytes : Z) (m : MemberRow) : MemberRow :=
  mkMemberRow (mr_project m) (mr_container m) (mr_state m) (mr_memory m) bytes (disk_ceiling m) (last_released m)
    (created m) (mr_unpushed m) (last_task m) (image_version m) (chat_released m) now (last_error m) (last_logs m).

Definition withOutcome (now : Z) (logs error : option string) (m : MemberRow) : MemberRow :=
  mkMemberRow (mr_project m) (mr_container m) (mr_state m) (mr_memory m) (disk_used m) (disk_ceiling m) (last_released m)
    (created m) (mr_unpushed m) (last_task m) (image_version m) (chat_released m) now error
    (match logs with Some _ => logs | None => last_logs m end).

(** ** The two tables a write of a state moves together *)

Record PoolDb := mkPoolDb { pd_members : Members; pd_ledger : Ledger }.

Definition setMembers (t : Members) (db : PoolDb) : PoolDb := mkPoolDb t (pd_ledger db).
Definition setLedger (l : Ledger) (db : PoolDb) : PoolDb := mkPoolDb (pd_members db) l.

(** What the ledger reads off a row. *)
Definition asMember (m : MemberRow) : Member := mkMember (Some (mr_project m)) (mr_container m) (mr_memory m) (disk_ceiling m).

Inductive EndReason := Stopped | SuspendedForOther | Destroyed | Reconciled.
Definition endReasonText (r : EndReason) : string :=
  match r with Stopped => "stopped" | SuspendedForOther => "suspended" | Destroyed => "destroyed" | Reconciled => "reconciled" end.

(** [poolDiskCeilingBytes], for a whole number of GB. [Math.round] is exact: half a GB is 2^29 bytes. *)
Definition POOL_DISK_HEADROOM_GB : Z := 1.
Definition DEFAULT_CONTAINER_DISK_GB : Z := 5.
Definition poolDiskCeilingBytes (diskGb : Z) : Z :=
  Z.max (diskGb * 2 ^ 29) ((diskGb - POOL_DISK_HEADROOM_GB) * 2 ^ 30).

Section Operations.
(** The clock of the statement and the configured backend. *)
Variables (now : Z) (backend : string).

Definition openInterval (id : string) (upSince : option Z) (db : PoolDb) : PoolDb :=
  setLedger (openUptimeInterval now backend (List.map asMember (pd_members db)) id upSince (pd_ledger db)) db.
Definition closeInterval (id : string) (reason : EndReason) (db : PoolDb) : PoolDb :=
  setLedger (closeUptimeInterval now id (endReasonText reason) (pd_ledger db)) db.

Definition syncUptimeForState (id : string) (s : MemberState) (endReason : option EndReason) (upSince : option Z) (db : PoolDb)
    : PoolDb :=
  match s with
  | msuspended => closeInterval id (default Stopped endReason) db
  | merror => db
  | creating | midle | mbusy => openInterval id upSince db
  end.

Definition ensurePoolMemberUptimeOpen (id : string) (db : PoolDb) : PoolDb := openInterval id None db.

(** A create request, metered before the engine has named the container. *)
Definition openCreateRequestUptime (containerName projectId : string) (memory diskGb requestedAt : Z) (db : PoolDb) : PoolDb :=
  setLedger (openProvisionalInterval backend containerName projectId memory (poolDiskCeilingBytes diskGb) requestedAt (pd_ledger db)) db.

Definition adoptCreateRequestUptime (containerName containerId : string) (db : PoolDb) : PoolDb :=
  setLedger (fst (adoptProvisionalInterval containerName containerId (pd_ledger db))) db.

Definition settleCreateRequestUptime (containerName : string) (createdId : option string) (db : PoolDb) : PoolDb :=
  match createdId with
  | None => setLedger (discardProvisionalInterval containerName (pd_ledger db)) db
  | Some id => adoptCreateRequestUptime containerName id db
  end.

Definition closeContainerUptime (id : string) (reason : EndReason) (db : PoolDb) : PoolDb := closeInterval id reason db.

Definition listUnsettledUptime (minAgeSec : Z) (limit : nat) (db : PoolDb) : list UnsettledInterval :=
  listUnsettledIntervals now (minAgeSec * US_PER_SEC) limit (List.map asMember (pd_members db)) (pd_ledger db).

(** The container's names, the first adopted one ending the loop; a leading slash is dropped. *)
Definition dropSlash (name : string) : string := match name with String "/" s => s | _ => name end.
Fixpoint adoptFirst (id : string) (names : list string) (l : Ledger) : Ledger :=
  match names with
  | [] => l
  | name :: names =>
      let '(l, adopted) := adoptProvisionalInterval (dropSlash name) id l in
      if adopted then l else adoptFirst id names l
  end.
Definition settleReapedContainerUptime (id : string) (names : list string) (db : PoolDb) : PoolDb :=
  closeInterval id Destroyed (setLedger (adoptFirst id names (pd_ledger db)) db).

(** A stop that has been asked for: the interval stays open until the engine confirms. *)
Definition beginPoolMemberStop (id : string) (db : PoolDb) : PoolDb * bool :=
  let t := pd_members db in
  (setMembers (updateMember id (inState midle) (withState now msuspended) t) db,
   matchesMember id (inState midle) t || negb (matchesMember id anyMember t)).

Definition setPoolMemberUnpushedFlag (id : string) (flag : option bool) (db : PoolDb) : PoolDb :=
  match flag with
  | None => db
  | Some f => setMembers (updateMember id (fun m => negb (Bool.eqb (mr_unpushed m) f)) (withUnpushed now f) (pd_members db)) db
  end.

(** [INSERT ... ON CONFLICT (container_id) DO UPDATE ... WHERE ...]. *)
Record Allocation := mkAllocation { al_diskGb : option Z; al_memory : option Z; al_image : option string }.
Definition noAllocation : Allocation := mkAllocation None None None.

Definition insertedMember (projectId id : string) (s : MemberState) (a : Allocation) : MemberRow :=
  mkMemberRow projectId id s (al_memory a) 0
    (poolDiskCeilingBytes (default DEFAULT_CONTAINER_DISK_GB (al_diskGb a))) (Some now) now false None (al_image a) None now None None.

Definition coalesce {A} (a b : option A) : option A := match a with Some _ => a | None => b end.

Definition upsertedMember (projectId : string) (s : MemberState) (a : Allocation) (m : MemberRow) : MemberRow :=
  mkMemberRow projectId (mr_container m) s (coalesce (al_memory a) (mr_memory m)) (disk_used m)
    (default (disk_ceiling m) (poolDiskCeilingBytes <$> al_diskGb a)) (last_released m) (created m) (mr_unpushed m) (last_task m)
    (coalesce (al_image a) (image_version m)) (chat_released m) now (last_error m) (last_logs m).

Definition upsertMoves (projectId : string) (s : MemberState) (a : Allocation) (m : MemberRow) : bool :=
  let u := upsertedMember projectId s a m in
  negb (bool_decide (mr_state m = s /\ mr_project m = projectId /\ disk_ceiling m = disk_ceiling u
                     /\ mr_memory m = mr_memory u /\ image_version m = image_version u)).

Definition upsertPoolMember (projectId id : string) (s : MemberState) (a : Allocation) (upSince : option Z) (db : PoolDb) : PoolDb :=
  let t := pd_members db in
  let t := if matchesMember id anyMember t
           then updateMember id (upsertMoves projectId s a) (upsertedMember projectId s a) t
           else t ++ [insertedMember projectId id s a] in
  syncUptimeForState id s None upSince (setMembers t db).

Definition claimPoolMember (id : string) (lastTaskId : option string) (db : PoolDb) : PoolDb * bool :=
  let t := pd_members db in
  if matchesMember id (inState midle) t
  then (syncUptimeForState id mbusy None None
          (setMembers (updateMember id (inState midle)
             (fun m => withRelease (last_released m) None (withTask lastTaskId (withState now mbusy m))) t) db), true)
  else (db, false).

Record ContainerAllocation := mkContainerAllocation { ca_memory : option Z; ca_diskCeiling : Z }.
Definition readPoolMemberAllocation (id : string) (db : PoolDb) : option ContainerAllocation :=
  (fun m => mkContainerAllocation (mr_memory m) (disk_ceiling m)) <$> List.find (hasContainer id) (pd_members db).

Definition releasePoolMember (id : string) (lastTaskId : option string) (releasedByChat : bool) (db : PoolDb) : PoolDb :=
  let t := pd_members db in
  let p := fun m => negb (inState msuspended m) in
  if matchesMember id p t
  then syncUptimeForState id midle None None
         (setMembers (updateMember id p
            (fun m => withRelease (Some now) (if releasedByChat then Some now else None) (withTask lastTaskId (withState now midle m))) t) db)
  else db.

Definition setPoolMemberState (id : string) (s : MemberState) (endReason : option EndReason) (upSince : option Z) (db : PoolDb) : PoolDb :=
  syncUptimeForState id s endReason upSince
    (setMembers (updateMember id (fun m => negb (inState s m)) (withState now s) (pd_members db)) db).

Definition forgetPoolMember (id : string) (db : PoolDb) : PoolDb :=
  setMembers (List.filter (fun m => negb (hasContainer id m)) (pd_members db)) db.

Definition removePoolMember (id : string) (db : PoolDb) : PoolDb := forgetPoolMember id (closeInterval id Destroyed db).

Definition clearAllPoolMembers (db : PoolDb) : PoolDb * Z :=
  (mkPoolDb [] (closeUptimeIntervalsForMembers now (endReasonText Destroyed) (List.map asMember (pd_members db)) (pd_ledger db)),
   Z.of_nat (length (pd_members db))).

Definition markPoolMemberRunning (id : string) (upSince : option Z) (db : PoolDb) : PoolDb * bool :=
  let t := pd_members db in
  if matchesMember id (inState msuspended) t
  then (syncUptimeForState id midle None upSince
          (setMembers (updateMember id (inState msuspended) (withState now midle) t) db), true)
  else (db, false).

(** Boot: every claim is of a process that is gone, and so is every provision. *)
Definition reclaimBusyPoolMembers (db : PoolDb) : PoolDb * list string :=
  let t := pd_members db in
  let ids := List.map mr_container (List.filter (inState mbusy) t) in
  let t := List.map (fun m => if inState mbusy m
                              then withRelease (Some now) (chat_released m) (withState now midle m) else m) t in
  (fold_left (fun db id => syncUptimeForState id midle None None db) ids (setMembers t db), ids).

Definition INTERRUPTED_PROVISION_ERROR : string :=
  "Provisioning did not finish. The container was never handed to a run; Hezo starts a fresh one when the next run needs it.".

Definition failInterruptedProvisions (db : PoolDb) : PoolDb * list string :=
  let t := pd_members db in
  let ids := List.map mr_container (List.filter (inState creating) t) in
  let fail m := withOutcome now None (Some INTERRUPTED_PROVISION_ERROR) (withState now merror m) in
  let t := List.map (fun m => if inState creating m then fail m else m) t in
  (fold_left (fun db id => syncUptimeForState id merror None None db) ids (setMembers t db), ids).

Definition setPoolMemberOutcome (id : string) (lastLogs lastError : option string) (db : PoolDb) : PoolDb :=
  setMembers (updateMember id (fun m => negb (bool_decide (last_logs m = coalesce lastLogs (last_logs m) /\ last_error m = lastError)))
                (withOutcome now lastLogs lastError) (pd_members db)) db.

Definition failWedgedProvision (id : string) (db : PoolDb) : PoolDb :=
  setPoolMemberOutcome id None (Some INTERRUPTED_PROVISION_ERROR) (setPoolMemberState id merror None None db).

(** [runningOn]: the containers the rows of running runs name. *)
Definition releaseClaimIfRunGone (runningOn : list string) (id : string) (db : PoolDb) : PoolDb * bool :=
  let p := fun m => inState mbusy m && negb (bool_decide (mr_container m ∈ runningOn)) in
  let t := pd_members db in
  if matchesMember id p t
  then (syncUptimeForState id msuspended None None (setMembers (updateMember id p (withState now msuspended) t) db), true)
  else (db, false).

Definition setPoolMemberDiskUsage (id : string) (bytes : Z) (db : PoolDb) : PoolDb :=
  setMembers (updateMember id (fun m => negb (disk_used m =? bytes)) (withDiskUsed now bytes) (pd_members db)) db.

Definition recordPoolMemberMemoryIfUnknown (id : string) (memory : option Z) (db : PoolDb) : PoolDb :=
  match memory with
  | None => db
  | Some _ => setMembers (updateMember id (fun m => isNull (mr_memory m)) (withMemory now memory) (pd_members db)) db
  end.
End Operations.

(** ** Reads *)

(** Rows in the shape the ladder reads: [creating] and [error] have no place in it. *)
Definition ladderState (s : MemberState) : option PoolMemberState :=
  match s with midle => Some idle | mbusy => Some busy | msuspended => Some suspended | creating | merror => None end.

Definition byCreation (a b : MemberRow) : Z := created a - created b.

#[export] Instance byCreation_comparator : Comparator byCreation.
Proof. split; unfold byCreation; intros; lia. Qed.

Definition toPoolMember (m : MemberRow) : option PoolMember :=
  s ← ladderState (mr_state m);
  Some (mkPoolMember (mr_container m) s (last_task m) (mr_unpushed m) (disk_ceiling m <=? disk_used m) (mr_memory m) (image_version m)).

Definition loadPoolMembers (projectId : string) (t : Members) : list PoolMember :=
  omap toPoolMember (js_sort byCreation (List.filter (fun m => String.eqb (mr_project m) projectId) t)).

(** [imageVersion]: the agent image this build of the server runs. *)
Definition decidePoolAcquisition (currentImage : string) (projectId : string) (taskId : option string) (capacity : PoolCapacity)
    (requiredMemoryBytes : Z) (t : Members) : PoolDecision :=
  selectPoolMember taskId (loadPoolMembers projectId t) capacity requiredMemoryBytes currentImage.

Definition listPoolContainerIds (projectId : string) (t : Members) : list string :=
  List.map mr_container (List.filter (fun m => String.eqb (mr_project m) projectId) t).

Definition projectHasStrandedCommits (projectId : string) (t : Members) : bool :=
  existsb (fun m => String.eqb (mr_project m) projectId && mr_unpushed m) t.

(** *** One page of members to check against the engine *)
Section Pages.
(** [container_id > $3] and [ORDER BY container_id]: the database's collation. *)
Variable collate : string -> string -> Z.

Definition byContainer (a b : MemberRow) : Z := collate (mr_container a) (mr_container b).

Definition aged (now minAgeSeconds : Z) (m : MemberRow) : bool := updated m <? now - minAgeSeconds * US_PER_SEC.
Definition afterCursor (after : option string) (m : MemberRow) : bool :=
  match after with None => true | Some id => 0 <? collate (mr_container m) id end.

Definition listPoolMembersForReconcile (now minAgeSeconds : Z) (limit : nat) (after : option string) (t : Members) : list MemberRow :=
  take limit (js_sort byContainer (List.filter (fun m => aged now minAgeSeconds m && afterCursor after m) t)).

(** [poolReconcileCursor] after the page. *)
Definition nextCursor (limit : nat) (page : list MemberRow) : option string :=
  if (length page <? limit)%nat then None else mr_container <$> list.last page.
End Pages.

(** *** The Containers page *)

Inductive ContainerStatus := StatusCreating | StatusRunning | StatusStopping | StatusStopped | StatusError.
#[export] Instance ContainerStatus_eq_dec : EqDecision ContainerStatus.
Proof. solve_decision. Defined.

(** The columns of [projects] that name a container. *)
Record ProjectContainer := mkProjectContainer {
  pc_id : string; pc_name : string; pc_slug : string; pc_container : option string; pc_status : option ContainerStatus;
  pc_error : option string; pc_logs : option string
}.

Definition listReferencedContainerIds (ps : list ProjectContainer) (t : Members) : list string :=
  remove_dups (omap pc_container ps ++ List.map mr_container t).

Definition containerCountsTowardBudget (s : MemberState) : bool :=
  match s with creating | midle | mbusy => true | msuspended | merror => false end.

Definition awaitsId (t : Members) (p : ProjectContainer) : bool :=
  bool_decide (pc_status p = Some StatusCreating) && isNull (pc_container p)
  && negb (existsb (fun m => String.eqb (mr_project m) (pc_id p) && inState creating m) t).

Definition listedPairs (ps : list ProjectContainer) (t : Members) : list (string * string) :=
  remove_dups (omap (fun p => (fun c => (c, pc_id p)) <$> pc_container p) ps
               ++ List.map (fun m => (mr_container m, mr_project m)) t
               ++ List.map (fun p => ("provisioning:" +:+ pc_id p, pc_id p)) (List.filter (awaitsId t) ps)).

Record ContainerListing := mkContainerListing {
  cl_container : string; cl_project : string; cl_state : MemberState; cl_unpushed : bool; cl_diskUsed : Z; cl_diskCeiling : Z;
  cl_memory : option Z; cl_counts : bool; cl_lastTask : option string; cl_run : option string;
  cl_error : option string; cl_logs : option string
}.

Definition statusState (s : option ContainerStatus) : MemberState :=
  match s with Some StatusCreating => creating | Some StatusError => merror | Some StatusRunning => midle | _ => msuspended end.

(** [runOn]: the newest running run on a container. *)
Definition toContainerListing (runOn : string -> option string) (id : string) (p : ProjectContainer) (m : option MemberRow) : ContainerListing :=
  let s := match m with Some m => mr_state m | None => statusState (pc_status p) end in
  mkContainerListing id (pc_id p) s
    (match m with Some m => mr_unpushed m | None => false end)
    (match m with Some m => disk_used m | None => 0 end)
    (match m with Some m => disk_ceiling m | None => poolDiskCeilingBytes DEFAULT_CONTAINER_DISK_GB end)
    (m ≫= mr_memory) (containerCountsTowardBudget s) (m ≫= last_task) (runOn id)
    (match m with None => pc_error p | Some m => last_error m end)
    (match m with None => pc_logs p | Some m => last_logs m end).

Definition CONTAINER_LISTING (runOn : string -> option string) (ps : list ProjectContainer) (t : Members) : list ContainerListing :=
  flat_map (fun cp => List.map (fun p => toContainerListing runOn (fst cp) p (List.find (hasContainer (fst cp)) t))
                        (List.filter (fun p => String.eqb (pc_id p) (snd cp)) ps)) (listedPairs ps t).

Definition getContainerListing (runOn : string -> option string) (ps : list ProjectContainer) (t : Members) (id : string)
    : option ContainerListing :=
  List.find (fun c => String.eqb (cl_container c) id) (CONTAINER_LISTING runOn ps t).

Definition clearProjectContainerIfNamed (projectId id : string) (ps : list ProjectContainer) : list ProjectContainer :=
  List.map (fun p => if String.eqb (pc_id p) projectId && bool_decide (pc_container p = Some id)
                     then mkProjectContainer (pc_id p) (pc_name p) (pc_slug p) None None None None else p) ps.

(** ** Facts of the table *)

Definition ids (t : Members) : list string := List.map mr_container t.

Lemma hasContainer_spec id m : hasContainer id m = true <-> mr_container m = id.
Proof. apply String.eqb_eq. Qed.

Lemma inState_spec s m : inState s m = true <-> mr_state m = s.
Proof. apply bool_decide_eq_true. Qed.

Lemma updateMember_ids id p f t : (forall m, mr_container (f m) = mr_container m) -> ids (updateMember id p f t) = ids t.
Proof. intros Hf. unfold ids, updateMember. rewrite List.map_map. apply List.map_ext. intros m. by destruct (_ && _). Qed.

Lemma In_updateMember id p f t m : In m (updateMember id p f t) ->
  exists m0, In m0 t /\ m = (if hasContainer id m0 && p m0 then f m0 else m0).
Proof. intros (m0 & <- & Hin)%in_map_iff. eauto. Qed.

(** A row of another container is as it was. *)
Lemma updateMember_other id p f t m : (forall m, mr_container (f m) = mr_container m) ->
  In m (updateMember id p f t) -> mr_container m <> id -> In m t.
Proof.
  intros Hf (m0 & Hin & ->)%In_updateMember Hne. destruct (hasContainer id m0) eqn:E; simpl in *; [|done].
  apply hasContainer_spec in E. destruct (p m0); [|done]. by rewrite Hf in Hne.
Qed.

Lemma find_member t m : NoDup (ids t) -> In m t -> List.find (hasContainer (mr_container m)) t = Some m.
Proof.
  intros Hn Hm. destruct (List.find _ t) as [m'|] eqn:Ef.
  - apply find_some in Ef as [Hin Hc%hasContainer_spec]. f_equal. by eapply (NoDup_fmap_In mr_container).
  - pose proof (find_none _ _ Ef m Hm) as Hc. unfold hasContainer in Hc. by rewrite String.eqb_refl in Hc.
Qed.

(** A row that the condition misses already has what the assignment would give. *)
Lemma update_state_missed id p f t s m : (forall m, mr_state (f m) = s) -> (forall m, p m = false -> mr_state m = s) ->
  In m (updateMember id p f t) -> mr_container m = id -> mr_state m = s.
Proof.
  intros Hf Hp (m0 & Hin & ->)%In_updateMember Hc. destruct (hasContainer id m0) eqn:E; simpl in *.
  - destruct (p m0) eqn:Ep; auto.
  - apply hasContainer_spec in Hc. congruence.
Qed.

(** The one row of a container moved, when the statement returned a row. *)
Lemma update_state_moved id p f t s m : NoDup (ids t) -> (forall m, mr_state (f m) = s) ->
  matchesMember id p t = true -> In m (updateMember id p f t) -> mr_container m = id -> mr_state m = s.
Proof.
  intros Hnd Hf (m1 & Hin1 & [Hc1 Hp1]%andb_true_iff)%existsb_exists (m0 & Hin & ->)%In_updateMember Hc.
  destruct (hasContainer id m0) eqn:E; simpl in *; [|apply hasContainer_spec in Hc; congruence].
  apply hasContainer_spec in Hc1, E.
  assert (m0 = m1) as -> by (eapply (NoDup_fmap_In mr_container); [exact Hnd|done|done|congruence]). by rewrite Hp1.
Qed.

Lemma updateMember_keeps (P : MemberRow -> Prop) id p f t : (forall m, P m -> P (f m)) ->
  (forall m, In m t -> P m) -> forall m, In m (updateMember id p f t) -> P m.
Proof. intros Hf Ht m (m0 & Hin & ->)%In_updateMember. destruct (_ && _); auto. Qed.

(** ** Facts of the ledger *)

Definition hasOpen (id : string) (l : Ledger) : bool := existsb (open_of id) l.

Lemma hasOpen_insert id l e : hasOpen id (insertEntry l e) =
  hasOpen id l || (negb (hasOpen (container_id e) l) && open_of id e).
Proof.
  unfold insertEntry, hasOpen. destruct (existsb (open_of (container_id e)) l); simpl; [by rewrite orb_false_r|].
  rewrite existsb_app. simpl. by rewrite orb_false_r.
Qed.

Lemma hasOpen_opened now b ms id up l m : In m ms -> m_container m = id -> hasOpen id (openUptimeInterval now b ms id up l) = true.
Proof.
  intros Hin Hc. unfold openUptimeInterval. set (start := greatest _ _). clearbody start.
  assert (In m (List.filter (fun m => String.eqb (m_container m) id) ms)) as Hin'
    by (apply filter_In; rewrite String.eqb_eq; done).
  assert (forall l, hasOpen id l = true -> forall ms, hasOpen id (fold_left (fun l m => insertEntry l
    (mkEntry (m_project m) (m_container m) (m_memory m) (m_disk m) b start None None)) ms l) = true) as Hmono.
  { intros l0 H0 ms0. revert l0 H0. induction ms0 as [|m0 ms0 IH]; intros l0 H0; [done|]. apply IH. by rewrite hasOpen_insert, H0. }
  revert l. induction (List.filter _ ms) as [|m0 ms0 IH]; [done|]. intros l. destruct Hin' as [->|Hin']; [|by apply IH].
  cbn [fold_left]. apply Hmono. rewrite hasOpen_insert. cbn [container_id]. rewrite Hc.
  destruct (hasOpen id l); [done|]. apply open_of_spec. done.
Qed.

Lemma hasOpen_open_other now b ms id id' up l : id' <> id -> hasOpen id' (openUptimeInterval now b ms id up l) = hasOpen id' l.
Proof.
  intros Hne. unfold openUptimeInterval. set (start := greatest _ _). clearbody start. revert l.
  induction ms as [|m ms IH]; intros l; [done|]. cbn [List.filter].
  destruct (String.eqb_spec (m_container m) id) as [Hm|]; [|apply IH]. cbn [fold_left]. rewrite IH, hasOpen_insert.
  destruct (open_of id' _) eqn:E; [|by rewrite andb_false_r, orb_false_r].
  apply open_of_spec in E as [E _]. cbn in E. congruence.
Qed.

Lemma hasOpen_map id f l : (forall e, open_of id (f e) = open_of id e) -> hasOpen id (List.map f l) = hasOpen id l.
Proof. intros Hf. unfold hasOpen. induction l as [|e l IH]; [done|]. simpl. by rewrite Hf, IH. Qed.

Lemma hasOpen_filter id p l : (forall e, open_of id e = true -> p e = true) -> hasOpen id (List.filter p l) = hasOpen id l.
Proof.
  intros Hp. unfold hasOpen. induction l as [|e l IH]; [done|]. simpl. destruct (p e) eqn:E; simpl; rewrite IH; [done|].
  destruct (open_of id e) eqn:Eo; [|done]. rewrite (Hp e Eo) in E. done.
Qed.

Lemma hasOpen_closed now id r l : hasOpen id (closeUptimeInterval now id r l) = false.
Proof.
  apply existsb_false_iff. intros e (e0 & <- & Hin)%in_map_iff. destruct (open_of id e0) eqn:E; [|done].
  unfold open_of, is_open. cbn. apply andb_false_r.
Qed.

Lemma open_of_ne id id' e : id <> id' -> open_of id e = true -> open_of id' e = false.
Proof. intros Hne [H _]%open_of_spec. destruct (open_of id' e) eqn:E; [|done]. apply open_of_spec in E as [E _]. congruence. Qed.

Lemma hasOpen_close_other now id id' r l : id' <> id -> hasOpen id' (closeUptimeInterval now id r l) = hasOpen id' l.
Proof.
  intros Hne. apply hasOpen_map. intros e. destruct (open_of id e) eqn:E; [|done]. rewrite (open_of_ne id id' e) by done.
  unfold open_of, is_open. cbn. apply andb_false_r.
Qed.

(** An id that is neither the container nor the request's key is not touched by an adoption. *)
Lemma hasOpen_adopt_other name id id' l : id' <> id -> id' <> provisionalContainerKey name ->
  hasOpen id' (fst (adoptProvisionalInterval name id l)) = hasOpen id' l.
Proof.
  intros Hne Hkey. unfold adoptProvisionalInterval. cbn [fst]. rewrite hasOpen_map.
  - destruct (existsb _ l); [|done]. apply hasOpen_filter. intros e He.
    by rewrite (open_of_ne id' _ e Hkey He).
  - intros e. destruct (open_of (provisionalContainerKey name) e) eqn:E; [|done].
    rewrite (open_of_ne _ id' e (not_eq_sym Hkey) E). destruct (open_of id' (rekey id e)) eqn:E'; [|done].
    apply open_of_spec in E' as [E' _]. cbn in E'. congruence.
Qed.

(** An adoption never ends a stretch. *)
Lemma hasOpen_adopt_same name id l : id <> provisionalContainerKey name ->
  hasOpen id l = true -> hasOpen id (fst (adoptProvisionalInterval name id l)) = true.
Proof.
  intros Hne (e & Hin & He)%existsb_exists. unfold adoptProvisionalInterval. cbn [fst].
  apply existsb_exists. exists e. split; [|done]. apply in_map_iff. exists e.
  rewrite (open_of_ne id _ e Hne He). split; [done|]. destruct (existsb _ l); [|done].
  apply filter_In. by rewrite (open_of_ne id _ e Hne He).
Qed.

(** ** Histories of the pool *)

Inductive PoolEvent :=
| Upsert (projectId id : string) (s : MemberState) (a : Allocation) (upSince : option Z)
| Claim (id : string) (task : option string)
| Release (id : string) (task : option string) (byChat : bool)
| SetState (id : string) (s : MemberState) (reason : option EndReason) (upSince : option Z)
| BeginStop (id : string)
| MarkRunning (id : string) (upSince : option Z)
| ReleaseIfGone (runningOn : list string) (id : string)
| Remove (id : string)
| Forget (id : string)
| ClearAll
| ReclaimBusy
| FailInterrupted
| FailWedged (id : string)
| EnsureOpen (id : string)
| OpenCreate (name projectId : string) (memory diskGb requestedAt : Z)
| SettleCreate (name : string) (createdId : option string)
| CloseUptime (id : string) (reason : EndReason)
| SettleReaped (id : string) (names : list string)
| SetUnpushed (id : string) (flag : option bool)
| SetOutcome (id : string) (logs error : option string)
| SetDiskUsage (id : string) (bytes : Z)
| RecordMemory (id : string) (memory : option Z).

Definition poolStep (now : Z) (backend : string) (db : PoolDb) (e : PoolEvent) : PoolDb :=
  match e with
  | Upsert p id s a up => upsertPoolMember now backend p id s a up db
  | Claim id task => fst (claimPoolMember now backend id task db)
  | Release id task chat => releasePoolMember now backend id task chat db
  | SetState id s r up => setPoolMemberState now backend id s r up db
  | BeginStop id => fst (beginPoolMemberStop now id db)
  | MarkRunning id up => fst (markPoolMemberRunning now backend id up db)
  | ReleaseIfGone on id => fst (releaseClaimIfRunGone now backend on id db)
  | Remove id => removePoolMember now id db
  | Forget id => forgetPoolMember id db
  | ClearAll => fst (clearAllPoolMembers now db)
  | ReclaimBusy => fst (reclaimBusyPoolMembers now backend db)
  | FailInterrupted => fst (failInterruptedProvisions now backend db)
  | FailWedged id => failWedgedProvision now backend id db
  | EnsureOpen id => ensurePoolMemberUptimeOpen now backend id db
  | OpenCreate name p mem disk at_ => openCreateRequestUptime backend name p mem disk at_ db
  | SettleCreate name created => settleCreateRequestUptime name created db
  | CloseUptime id r => closeContainerUptime now id r db
  | SettleReaped id names => settleReapedContainerUptime now id names db
  | SetUnpushed id f => setPoolMemberUnpushedFlag now id f db
  | SetOutcome id logs err => setPoolMemberOutcome now id logs err db
  | SetDiskUsage id b => setPoolMemberDiskUsage now id b db
  | RecordMemory id mem => recordPoolMemberMemoryIfUnknown now id mem db
  end.

(** Stops that were asked for and whose interval has not been closed since. *)
Definition stopsPending (stopping : list string) (e : PoolEvent) : list string :=
  let settled id := List.filter (fun x => negb (String.eqb x id)) stopping in
  match e with
  | BeginStop id => id :: stopping
  | SetState id msuspended _ _ | Upsert _ id msuspended _ _ | CloseUptime id _ | Remove id => settled id
  | _ => stopping
  end.

(** An engine's id is not a create request's key. *)
Definition engineId (id : string) : Prop := startsWith id PROVISIONAL_KEY_PREFIX = false.

(** How the callers use the operations that write the ledger alone: a stretch is closed by
    hand for a container the pool does not believe is up, and opened by hand, or handed over
    from a create request, for one it does not believe is down. *)
Definition poolEvent_ok (db : PoolDb) (e : PoolEvent) : Prop :=
  let rowsOf id := fun (P : MemberState -> Prop) => forall m, In m (pd_members db) -> mr_container m = id -> P (mr_state m) in
  match e with
  | Upsert _ id _ _ _ => engineId id
  | CloseUptime id _ | SettleReaped id _ => rowsOf id (fun s => containerCountsTowardBudget s = false)
  | EnsureOpen id | SettleCreate _ (Some id) => rowsOf id (fun s => s <> msuspended)
  | _ => True
  end.

(** ** The ledger follows the state *)

Definition billed (stopping : list string) (l : Ledger) (m : MemberRow) : Prop :=
  match mr_state m with
  | creating | midle | mbusy => hasOpen (mr_container m) l = true
  | msuspended => hasOpen (mr_container m) l = true -> In (mr_container m) stopping
  | merror => True
  end.

Record pool_inv (stopping : list string) (db : PoolDb) : Prop := {
  pi_unique : NoDup (ids (pd_members db));
  pi_engine : forall m, In m (pd_members db) -> engineId (mr_container m);
  pi_billed : forall m, In m (pd_members db) -> billed stopping (pd_ledger db) m
}.

Lemma billed_ledger stopping l l' m : hasOpen (mr_container m) l' = hasOpen (mr_container m) l -> billed stopping l m -> billed stopping l' m.
Proof. unfold billed. by intros ->. Qed.

Lemma sync_members now b id s r up db : pd_members (syncUptimeForState now b id s r up db) = pd_members db.
Proof. by destruct s. Qed.

Lemma sync_other now b id s r up db id' : id' <> id ->
  hasOpen id' (pd_ledger (syncUptimeForState now b id s r up db)) = hasOpen id' (pd_ledger db).
Proof.
  intros Hne. destruct s; cbn -[hasOpen]; try done; by (apply hasOpen_open_other || apply hasOpen_close_other).
Qed.

(** Settling a container whose rows have the state makes them billed as they should. *)
Lemma sync_billed now b id s r up stopping db :
  (forall m, In m (pd_members db) -> mr_container m = id -> mr_state m = s) ->
  (forall m, In m (pd_members db) -> mr_container m <> id -> billed stopping (pd_ledger db) m) ->
  forall m, In m (pd_members db) -> billed stopping (pd_ledger (syncUptimeForState now b id s r up db)) m.
Proof.
  intros Hs Ho m Hin. destruct (decide (mr_container m = id)) as [Hc|Hc].
  - unfold billed. rewrite (Hs m Hin Hc), Hc.
    assert (hasOpen id (openUptimeInterval now b (List.map asMember (pd_members db)) id up (pd_ledger db)) = true) as Hop
      by (eapply (hasOpen_opened _ _ _ _ _ _ (asMember m)); [by apply in_map|done]).
    destruct s; cbn -[hasOpen]; try done. by rewrite hasOpen_closed.
  - eapply billed_ledger; [by apply sync_other|]. auto.
Qed.

(** A write of a state and the move of its interval. *)
Lemma write_inv now b id s r up stopping t' db : pool_inv stopping db -> NoDup (ids t') ->
  (forall m, In m t' -> engineId (mr_container m)) -> (forall m, In m t' -> mr_container m = id -> mr_state m = s) ->
  (forall m, In m t' -> mr_container m <> id -> In m (pd_members db)) ->
  pool_inv stopping (syncUptimeForState now b id s r up (setMembers t' db)).
Proof.
  intros Hdb Hnd He Hs Ho. split.
  - by rewrite sync_members.
  - by rewrite sync_members.
  - intros m. rewrite sync_members. intros Hin. apply sync_billed; [done| |done].
    intros m' Hin' Hne. by apply Hdb, Ho.
Qed.

Lemma update_engine id p f t : (forall m, mr_container (f m) = mr_container m) -> (forall m, In m t -> engineId (mr_container m)) ->
  forall m, In m (updateMember id p f t) -> engineId (mr_container m).
Proof. intros Hf Ht. apply updateMember_keeps; [|done]. intros m. by rewrite Hf. Qed.

(** ... by an [UPDATE] of the container's row. *)
Lemma update_inv now b id p f s r up stopping db : pool_inv stopping db -> (forall m, mr_container (f m) = mr_container m) ->
  (forall m, In m (updateMember id p f (pd_members db)) -> mr_container m = id -> mr_state m = s) ->
  pool_inv stopping (syncUptimeForState now b id s r up (setMembers (updateMember id p f (pd_members db)) db)).
Proof.
  intros Hdb Hf Hs. apply write_inv; [done| |by apply update_engine, Hdb|done|].
  - rewrite updateMember_ids by done. apply Hdb.
  - intros m Hin Hne. by eapply updateMember_other.
Qed.

(** A write that moves neither the state nor the container. *)
Lemma annotate_inv id p f stopping db : (forall m, mr_container (f m) = mr_container m) -> (forall m, mr_state (f m) = mr_state m) ->
  pool_inv stopping db -> pool_inv stopping (setMembers (updateMember id p f (pd_members db)) db).
Proof.
  intros Hc Hs Hdb. split; cbn.
  - rewrite updateMember_ids by done. apply Hdb.
  - by apply update_engine, Hdb.
  - apply (updateMember_keeps (billed stopping (pd_ledger db))); [|apply Hdb]. intros m. unfold billed. by rewrite Hc, Hs.
Qed.

(** A write of the ledger that leaves the members' stretches. *)
Lemma ledger_inv_members l stopping db : pool_inv stopping db ->
  (forall m, In m (pd_members db) -> billed stopping (pd_ledger db) m -> billed stopping l m) ->
  pool_inv stopping (setLedger l db).
Proof. intros [Hn He Hb] Hl. split; cbn; auto. Qed.

(** A stop is no longer pending once its interval is closed. *)
Lemma settled_inv id stopping db : hasOpen id (pd_ledger db) = false -> pool_inv stopping db ->
  pool_inv (List.filter (fun x => negb (String.eqb x id)) stopping) db.
Proof.
  intros Hno [Hn He Hb]. split; [done|done|]. intros m Hin. specialize (Hb m Hin). unfold billed in *.
  destruct (mr_state m); try done. intros Hop. apply filter_In. split; [auto|].
  apply negb_true_iff, String.eqb_neq. intros Heq. congruence.
Qed.

Lemma pending_inv id stopping db : pool_inv stopping db -> pool_inv (id :: stopping) db.
Proof. intros [Hn He Hb]. split; [done|done|]. intros m Hin. specialize (Hb m Hin). unfold billed in *. destruct (mr_state m); try done. by right; apply Hb. Qed.

Lemma forget_inv id stopping db : pool_inv stopping db -> pool_inv stopping (forgetPoolMember id db).
Proof.
  intros [Hn He Hb]. split; cbn.
  - by apply NoDup_map_filter.
  - intros m [Hin _]%filter_In. auto.
  - intros m [Hin _]%filter_In. auto.
Qed.

Lemma close_inv now id r stopping db : poolEvent_ok db (CloseUptime id r) -> pool_inv stopping db ->
  pool_inv (List.filter (fun x => negb (String.eqb x id)) stopping) (closeInterval now id r db).
Proof.
  intros Hok Hdb. apply settled_inv; [apply hasOpen_closed|]. apply ledger_inv_members; [done|].
  intros m Hin Hb. destruct (decide (mr_container m = id)) as [Hc|Hc].
  - specialize (Hok m Hin Hc). unfold billed. rewrite Hc, hasOpen_closed. by destruct (mr_state m).
  - eapply billed_ledger; [|done]. by apply hasOpen_close_other.
Qed.

Lemma remove_inv now id stopping db : pool_inv stopping db ->
  pool_inv (List.filter (fun x => negb (String.eqb x id)) stopping) (removePoolMember now id db).
Proof.
  intros Hdb. unfold removePoolMember.
  change (forgetPoolMember id (closeInterval now id Destroyed db)) with (closeInterval now id Destroyed (forgetPoolMember id db)).
  apply close_inv; [|by apply forget_inv]. intros m [_ Hne]%filter_In Hc. apply hasContainer_spec in Hc. by rewrite Hc in Hne.
Qed.

Lemma engineId_key id name : engineId id -> id <> provisionalContainerKey name.
Proof. intros H ->. unfold engineId, provisionalContainerKey in H. by rewrite startsWith_app in H. Qed.

Lemma adopt_billed name id stopping db m : pool_inv stopping db -> In m (pd_members db) ->
  (mr_container m = id -> mr_state m <> msuspended) -> forall l, (forall id', engineId id' -> hasOpen id' l = hasOpen id' (pd_ledger db)) ->
  billed stopping (fst (adoptProvisionalInterval name id l)) m.
Proof.
  intros Hdb Hin Hns l Hl. pose proof (pi_engine _ _ Hdb m Hin) as He. pose proof (pi_billed _ _ Hdb m Hin) as Hb.
  destruct (decide (mr_container m = id)) as [<-|Hc].
  - specialize (Hns eq_refl). unfold billed in *. destruct (mr_state m); try done.
    all: apply hasOpen_adopt_same; [by apply engineId_key|]; by rewrite Hl.
  - eapply billed_ledger; [|exact Hb]. rewrite hasOpen_adopt_other by (done || by apply engineId_key). by apply Hl.
Qed.

Lemma adoptFirst_other id id' names l : engineId id' -> id' <> id -> hasOpen id' (adoptFirst id names l) = hasOpen id' l.
Proof.
  intros He Hne. revert l. induction names as [|n names IH]; intros l; [done|]. cbn [adoptFirst].
  pose proof (hasOpen_adopt_other (dropSlash n) id id' l Hne (engineId_key _ _ He)) as H.
  destruct (adoptProvisionalInterval _ _ _) as [l' []]; cbn [fst] in H; [done|]. by rewrite IH.
Qed.

Lemma reaped_inv now id names stopping db : poolEvent_ok db (SettleReaped id names) -> pool_inv stopping db ->
  pool_inv stopping (settleReapedContainerUptime now id names db).
Proof.
  intros Hok Hdb. change (pool_inv stopping (setLedger (closeUptimeInterval now id (endReasonText Destroyed) (adoptFirst id names (pd_ledger db))) db)).
  apply ledger_inv_members; [done|]. intros m Hin Hb. destruct (decide (mr_container m = id)) as [Hc|Hc].
  - specialize (Hok m Hin Hc). unfold billed. rewrite Hc, hasOpen_closed. by destruct (mr_state m).
  - eapply billed_ledger; [|exact Hb]. rewrite hasOpen_close_other by done.
    apply adoptFirst_other; [|done]. by apply (pi_engine _ _ Hdb).
Qed.

(** A pass that settles several containers one after the other. *)
Lemma fold_sync_inv now b s cs stopping db : NoDup (ids (pd_members db)) -> (forall m, In m (pd_members db) -> engineId (mr_container m)) ->
  (forall m, In m (pd_members db) -> In (mr_container m) cs -> mr_state m = s) ->
  (forall m, In m (pd_members db) -> ~ In (mr_container m) cs -> billed stopping (pd_ledger db) m) ->
  pool_inv stopping (fold_left (fun db id => syncUptimeForState now b id s None None db) cs db).
Proof.
  revert db. induction cs as [|id cs IH]; intros db Hn He Hs Ho; cbn [fold_left].
  - split; [done|done|]. intros m Hin. apply Ho; [done|by intros []].
  - apply IH; rewrite ?sync_members; [done|done| |].
    + intros m Hin Hi. apply Hs; [done|by right].
    + intros m Hin Hi. destruct (decide (mr_container m = id)) as [Hc|Hc].
      * revert m Hin Hi Hc. intros m Hin Hi <-.
        pose proof (Hs m Hin (or_introl eq_refl)) as Hst. unfold billed. rewrite Hst.
        assert (hasOpen (mr_container m) (openUptimeInterval now b (List.map asMember (pd_members db)) (mr_container m) None (pd_ledger db)) = true) as Hop
          by (eapply (hasOpen_opened _ _ _ _ _ _ (asMember m)); [by apply in_map|done]).
        destruct s; cbn -[hasOpen]; try done. by rewrite hasOpen_closed.
      * eapply billed_ledger; [by apply sync_other|]. apply Ho; [done|]. intros [Heq|Hi']; [by apply Hc|by apply Hi].
Qed.

(** Boot moves every row in one state to another and settles them. *)
Lemma boot_inv now b from s f stopping db : (forall m, mr_container (f m) = mr_container m) -> (forall m, mr_state (f m) = s) ->
  pool_inv stopping db ->
  pool_inv stopping (fold_left (fun db id => syncUptimeForState now b id s None None db)
    (List.map mr_container (List.filter (inState from) (pd_members db)))
    (setMembers (List.map (fun m => if inState from m then f m else m) (pd_members db)) db)).
Proof.
  intros Hc Hs Hdb.
  assert (forall m, In m (List.map (fun m => if inState from m then f m else m) (pd_members db)) ->
    exists m0, In m0 (pd_members db) /\ mr_container m = mr_container m0 /\ m = if inState from m0 then f m0 else m0) as Hin.
  { intros m (m0 & <- & H0)%in_map_iff. exists m0. split_and!; [done| |done]. by destruct (inState from m0). }
  apply fold_sync_inv; cbn.
  - replace (ids _) with (ids (pd_members db)); [apply Hdb|]. unfold ids. rewrite List.map_map. apply List.map_ext.
    intros m. by destruct (inState from m).
  - intros m (m0 & H0 & -> & _)%Hin. by apply (pi_engine _ _ Hdb).
  - intros m (m0 & H0 & Hid & ->)%Hin (m1 & Heq & [H1 Hf]%filter_In)%in_map_iff.
    assert (m0 = m1) as -> by (eapply (NoDup_fmap_In mr_container); [apply Hdb|done|done|congruence]). by rewrite Hf.
  - intros m (m0 & H0 & Hid & ->)%Hin Hno. destruct (inState from m0) eqn:E; [|by apply (pi_billed _ _ Hdb)].
    destruct Hno. rewrite Hid. apply in_map, filter_In. done.
Qed.

Lemma unmatched id t m : matchesMember id anyMember t = false -> In m t -> mr_container m <> id.
Proof.
  unfold matchesMember. rewrite existsb_false_iff. intros Hm Hin Hc. specialize (Hm m Hin).
  apply hasContainer_spec in Hc. by rewrite Hc in Hm.
Qed.

(** An insert that meets no conflict keeps the index. *)
Lemma insert_unique id t m : matchesMember id anyMember t = false -> mr_container m = id -> NoDup (ids t) -> NoDup (ids (t ++ [m])).
Proof.
  intros Hm Hid Hn. unfold ids. rewrite List.map_app. apply list.NoDup_app. split_and!; [done| |apply NoDup_singleton].
  intros x Hx ->%list_elem_of_singleton. apply list_elem_of_In, in_map_iff in Hx as (m0 & Hc & Hin).
  apply (unmatched id t m0 Hm Hin). congruence.
Qed.

Lemma upsert_inv now b p id s a up stopping db : engineId id -> pool_inv stopping db ->
  pool_inv stopping (upsertPoolMember now b p id s a up db).
Proof.
  intros Hid Hdb. unfold upsertPoolMember. destruct (matchesMember id anyMember (pd_members db)) eqn:Hm.
  - apply update_inv; [done|done|]. intros m. apply update_state_missed; [done|]. intros m0.
    unfold upsertMoves. rewrite negb_false_iff, bool_decide_eq_true. tauto.
  - pose proof (fun m => unmatched id _ m Hm) as Hno.
    apply write_inv; [done| | | |].
    + eapply insert_unique; [done|done|apply Hdb].
    + intros m [Hin|[<-|[]]]%in_app_iff; [by apply (pi_engine _ _ Hdb)|done].
    + intros m [Hin|[<-|[]]]%in_app_iff Hc; [by destruct (Hno m Hin)|done].
    + intros m [Hin|[<-|[]]]%in_app_iff Hc; [done|by destruct Hc].
Qed.

Lemma poolStep_inv now b stopping db e : poolEvent_ok db e -> pool_inv stopping db ->
  pool_inv (stopsPending stopping e) (poolStep now b db e).
Proof.
  intros Hok Hdb. destruct e as [p id s a up|id task|id task chat|id s r up|id|id up|on id|id|id| | | |id|id|name p mem disk at_|name created_|id r|id names|id f|id logs err|id bytes|id mem];
    cbn [poolStep].
  - pose proof (upsert_inv now b p id s a up stopping db Hok Hdb) as H. destruct s; try exact H.
    apply settled_inv; [apply hasOpen_closed|done].
  - unfold claimPoolMember. destruct (matchesMember _ _ _) eqn:Hm; [|done]. apply update_inv; [done|done|].
    intros m. apply update_state_moved; [apply Hdb|done|done].
  - unfold releasePoolMember. destruct (matchesMember _ _ _) eqn:Hm; [|done]. apply update_inv; [done|done|].
    intros m. apply update_state_moved; [apply Hdb|done|done].
  - assert (pool_inv stopping (setPoolMemberState now b id s r up db)) as H.
    { apply update_inv; [done|done|]. intros m. apply update_state_missed; [done|].
      intros m0. rewrite negb_false_iff. apply inState_spec. }
    destruct s; try exact H. apply settled_inv; [apply hasOpen_closed|done].
  - cbn. split; cbn.
    + rewrite updateMember_ids by done. apply Hdb.
    + apply update_engine; [done|apply Hdb].
    + intros m (m0 & Hin & ->)%In_updateMember. destruct (hasContainer id m0) eqn:Ec; cbn [andb].
      * apply hasContainer_spec in Ec. destruct (inState midle m0); [by left|]. by apply (pending_inv id) in Hdb; apply Hdb.
      * by apply (pending_inv id) in Hdb; apply Hdb.
  - unfold markPoolMemberRunning. destruct (matchesMember _ _ _) eqn:Hm; [|done]. apply update_inv; [done|done|].
    intros m. apply update_state_moved; [apply Hdb|done|done].
  - unfold releaseClaimIfRunGone. destruct (matchesMember _ _ _) eqn:Hm; [|done]. apply update_inv; [done|done|].
    intros m. apply update_state_moved; [apply Hdb|done|done].
  - by apply remove_inv.
  - by apply forget_inv.
  - by split; [constructor| |].
  - by apply (boot_inv now b mbusy midle).
  - by apply (boot_inv now b creating merror).
  - apply annotate_inv; [done|done|]. apply update_inv; [done|done|]. intros m. apply update_state_missed; [done|].
    intros m0. rewrite negb_false_iff. apply inState_spec.
  - apply ledger_inv_members; [done|]. intros m Hin Hb. destruct (decide (mr_container m = id)) as [Hc|Hc].
    + specialize (Hok m Hin Hc). unfold billed.
      rewrite Hc, (hasOpen_opened _ _ _ _ _ _ (asMember m)); [by destruct (mr_state m)|by apply in_map|done].
    + eapply billed_ledger; [|done]. by apply hasOpen_open_other.
  - apply ledger_inv_members; [done|]. intros m Hin Hb. eapply billed_ledger; [|done].
    unfold openProvisionalInterval. rewrite hasOpen_insert. destruct (open_of _ _) eqn:E; [|by rewrite andb_false_r, orb_false_r].
    apply open_of_spec in E as [E _]. cbn in E. destruct (engineId_key (mr_container m) name); [|done]. by apply Hdb.
  - destruct created_ as [id|]; cbn.
    + apply ledger_inv_members; [done|]. intros m Hin _. eapply adopt_billed; [done|done| |done]. by intros Hc; apply Hok.
    + apply ledger_inv_members; [done|]. intros m Hin Hb. eapply billed_ledger; [|done]. apply hasOpen_filter.
      intros e He. rewrite (open_of_ne (mr_container m) _ e); [done| |done]. by apply engineId_key, Hdb.
  - by apply close_inv.
  - by apply reaped_inv.
  - destruct f as [f|]; [|done]. by apply annotate_inv.
  - by apply annotate_inv.
  - by apply annotate_inv.
  - destruct mem as [mem|]; [|done]. by apply annotate_inv.
Qed.

(** A history of the pool from an empty instance; the clock may read anything. *)
Inductive pool_reach : list string -> PoolDb -> Prop :=
| pool_empty : pool_reach [] (mkPoolDb [] [])
| pool_event stopping db now b e : pool_reach stopping db -> poolEvent_ok db e ->
    pool_reach (stopsPending stopping e) (poolStep now b db e).

Lemma pool_reach_inv stopping db : pool_reach stopping db -> pool_inv stopping db.
Proof. induction 1; [split; [constructor|done|done]|by apply poolStep_inv]. Qed.

Lemma fold_sync_members now b s cs db :
  pd_members (fold_left (fun db id => syncUptimeForState now b id s None None db) cs db) = pd_members db.
Proof. revert db. induction cs as [|c cs IH]; intros db; [done|]. cbn [fold_left]. by rewrite IH, sync_members. Qed.

Lemma map_ids f t : (forall m, mr_container (f m) = mr_container m) -> ids (List.map f t) = ids t.
Proof. intros Hf. unfold ids. rewrite List.map_map. by apply List.map_ext. Qed.

Lemma pd_setMembers t db : pd_members (setMembers t db) = t.
Proof. done. Qed.

(** The index on [container_id] holds after every operation. *)
Lemma poolStep_unique now b db e : NoDup (ids (pd_members db)) -> NoDup (ids (pd_members (poolStep now b db e))).
Proof.
  intros Hn. destruct e as [p id s a up|id task|id task chat|id s r up|id|id up|on id|id|id| | | |id|id|name p mem disk at_|name [c|]|id r|id names|id [f|]|id logs err|id bytes|id [mem|]];
    cbn [poolStep]; try exact Hn.
  - unfold upsertPoolMember. rewrite sync_members. cbn. destruct (matchesMember id anyMember (pd_members db)) eqn:Hm;
      [by rewrite updateMember_ids|].
    by eapply insert_unique.
  - unfold claimPoolMember. destruct (matchesMember _ _ _); cbn [fst]; rewrite ?sync_members; cbn; [by rewrite updateMember_ids|done].
  - unfold releasePoolMember. destruct (matchesMember _ _ _); rewrite ?sync_members; cbn; [by rewrite updateMember_ids|done].
  - unfold setPoolMemberState. rewrite sync_members. cbn. by rewrite updateMember_ids.
  - cbn. by rewrite updateMember_ids.
  - unfold markPoolMemberRunning. destruct (matchesMember _ _ _); cbn [fst]; rewrite ?sync_members; cbn; [by rewrite updateMember_ids|done].
  - unfold releaseClaimIfRunGone. destruct (matchesMember _ _ _); cbn [fst]; rewrite ?sync_members; cbn; [by rewrite updateMember_ids|done].
  - cbn. by apply NoDup_map_filter.
  - cbn. by apply NoDup_map_filter.
  - constructor.
  - unfold reclaimBusyPoolMembers. cbn [fst]. rewrite fold_sync_members. cbn. rewrite map_ids; [done|]. intros m. by destruct (inState _ m).
  - unfold failInterruptedProvisions. cbn [fst]. rewrite fold_sync_members. cbn. rewrite map_ids; [done|]. intros m. by destruct (inState _ m).
  - unfold failWedgedProvision, setPoolMemberOutcome, setPoolMemberState. cbn [setMembers pd_members].
    rewrite updateMember_ids, sync_members by done. cbn [setMembers pd_members]. by rewrite updateMember_ids.
  - cbn. by rewrite updateMember_ids.
  - cbn. by rewrite updateMember_ids.
  - cbn. by rewrite updateMember_ids.
  - cbn. by rewrite updateMember_ids.
Qed.

(** ** Rows keep their container and project *)

Definition rowsFrom (t' t : Members) : Prop :=
  forall m, In m t' -> exists m0, In m0 t /\ mr_container m0 = mr_container m /\ mr_project m0 = mr_project m.

Lemma rowsFrom_refl t : rowsFrom t t.
Proof. intros m Hin. eauto. Qed.

Lemma rowsFrom_trans t1 t2 t3 : rowsFrom t1 t2 -> rowsFrom t2 t3 -> rowsFrom t1 t3.
Proof. intros H1 H2 m Hm. destruct (H1 m Hm) as (m1 & Hin1 & <- & <-). auto. Qed.

Lemma rowsFrom_update id p f t : (forall m, mr_container (f m) = mr_container m) -> (forall m, mr_project (f m) = mr_project m) ->
  rowsFrom (updateMember id p f t) t.
Proof. intros Hc Hp m (m0 & Hin & ->)%In_updateMember. exists m0. destruct (_ && _); by rewrite ?Hc, ?Hp. Qed.

Lemma rowsFrom_map (p : MemberRow -> bool) f t : (forall m, mr_container (f m) = mr_container m) -> (forall m, mr_project (f m) = mr_project m) ->
  rowsFrom (List.map (fun m => if p m then f m else m) t) t.
Proof. intros Hc Hp m (m0 & <- & Hin)%in_map_iff. exists m0. destruct (p m0); by rewrite ?Hc, ?Hp. Qed.

Lemma rowsFrom_filter p t : rowsFrom (List.filter p t) t.
Proof. intros m [Hin _]%filter_In. eauto. Qed.

Definition isUpsert (e : PoolEvent) : bool := match e with Upsert _ _ _ _ _ => true | _ => false end.

Lemma poolStep_rows now b db e : isUpsert e = false -> rowsFrom (pd_members (poolStep now b db e)) (pd_members db).
Proof.
  destruct e as [p id s a up|id task|id task chat|id s r up|id|id up|on id|id|id| | | |id|id|name p mem disk at_|name [c|]|id r|id names|id [f|]|id logs err|id bytes|id [mem|]];
    cbn [poolStep isUpsert]; try done; intros _; try apply rowsFrom_refl; try by apply rowsFrom_update.
  - unfold claimPoolMember. destruct (matchesMember _ _ _); cbn [fst]; rewrite ?sync_members; [by apply rowsFrom_update|apply rowsFrom_refl].
  - unfold releasePoolMember. destruct (matchesMember _ _ _); rewrite ?sync_members; [by apply rowsFrom_update|apply rowsFrom_refl].
  - unfold setPoolMemberState. rewrite sync_members. by apply rowsFrom_update.
  - unfold markPoolMemberRunning. destruct (matchesMember _ _ _); cbn [fst]; rewrite ?sync_members; [by apply rowsFrom_update|apply rowsFrom_refl].
  - unfold releaseClaimIfRunGone. destruct (matchesMember _ _ _); cbn [fst]; rewrite ?sync_members; [by apply rowsFrom_update|apply rowsFrom_refl].
  - apply rowsFrom_filter.
  - apply rowsFrom_filter.
  - by intros m [].
  - unfold reclaimBusyPoolMembers. cbn [fst]. rewrite fold_sync_members. by apply rowsFrom_map.
  - unfold failInterruptedProvisions. cbn [fst]. rewrite fold_sync_members. by apply rowsFrom_map.
  - eapply rowsFrom_trans; [by apply rowsFrom_update|]. unfold setPoolMemberState. rewrite sync_members. by apply rowsFrom_update.
Qed.

Lemma upsert_rows now b p id s a up db m : In m (pd_members (upsertPoolMember now b p id s a up db)) ->
  (mr_container m = id /\ mr_project m = p) \/ (mr_container m <> id /\ In m (pd_members db)).
Proof.
  unfold upsertPoolMember. rewrite sync_members, pd_setMembers. destruct (matchesMember id anyMember (pd_members db)) eqn:Hm.
  - intros Hin. destruct (decide (mr_container m = id)) as [Hc|Hc]; [left|right; split; [done|]; eapply updateMember_other; [|exact Hin|done]; done].
    split; [done|]. apply In_updateMember in Hin as (m0 & Hin & ->).
    destruct (hasContainer id m0) eqn:Ec; cbn [andb] in *; [|apply hasContainer_spec in Hc; congruence].
    destruct (upsertMoves now p s a m0) eqn:Em; [done|]. unfold upsertMoves in Em.
    rewrite negb_false_iff, bool_decide_eq_true in Em. tauto.
  - intros [Hin|[<-|[]]]%in_app_iff; [|by left]. right. split; [by eapply unmatched|done].
Qed.

(** ** Any history of the table *)

(** A statement of the table with the clock it ran at and the backend configured then. *)
Definition PoolTrace := list (Z * string * PoolEvent).
Definition traceStep (db : PoolDb) (x : Z * string * PoolEvent) : PoolDb := let '(now, b, e) := x in poolStep now b db e.
Definition runPool (tr : PoolTrace) (db : PoolDb) : PoolDb := fold_left traceStep tr db.
Definition emptyPool : PoolDb := mkPoolDb [] [].

(** Containers whose stretch may differ from their row. A stop that has been asked for leaves
    the stretch open until the engine confirms it; an operation that writes the ledger alone
    may close the stretch of a row that is up, or open that of a suspended one. The next write
    of the row's state puts the two in step again, and so does a write of the ledger that
    agrees with the row. *)
Definition offBooks (db : PoolDb) (off : list string) (e : PoolEvent) : list string :=
  let t := pd_members db in
  let settled id := List.filter (fun x => negb (String.eqb x id)) off in
  let disagrees id p := if matchesMember id p t then id :: off else settled id in
  match e with
  | BeginStop id => if matchesMember id (inState midle) t then id :: off else off
  | CloseUptime id _ | SettleReaped id _ => disagrees id (fun m => containerCountsTowardBudget (mr_state m))
  | EnsureOpen id => disagrees id (inState msuspended)
  | SettleCreate _ (Some id) => if matchesMember id (inState msuspended) t then id :: off else off
  | Upsert _ id _ _ _ | SetState id _ _ _ | FailWedged id | Remove id | Forget id => settled id
  | Claim id _ => if matchesMember id (inState midle) t then settled id else off
  | Release id _ _ => if matchesMember id (fun m => negb (inState msuspended m)) t then settled id else off
  | MarkRunning id _ => if matchesMember id (inState msuspended) t then settled id else off
  | ClearAll => []
  | _ => off
  end.
Fixpoint offTheBooks (tr : PoolTrace) (db : PoolDb) (off : list string) : list string :=
  match tr with
  | [] => off
  | x :: tr => offTheBooks tr (traceStep db x) (offBooks db off (snd x))
  end.

Definition engineUpsert (x : Z * string * PoolEvent) : Prop := match snd x with Upsert _ id _ _ _ => engineId id | _ => True end.

(** A row in step with the ledger; a failed one keeps whatever stretch it had. *)
Definition inStep (l : Ledger) (m : MemberRow) : Prop :=
  match mr_state m with
  | creating | midle | mbusy => hasOpen (mr_container m) l = true
  | msuspended => hasOpen (mr_container m) l = false
  | merror => True
  end.

(** The rows of one container are in step. *)
Definition booked (c : string) (db : PoolDb) : Prop :=
  forall m, In m (pd_members db) -> mr_container m = c -> inStep (pd_ledger db) m.

Record table_inv (db : PoolDb) : Prop := {
  ti_unique : NoDup (ids (pd_members db));
  ti_engine : forall m, In m (pd_members db) -> engineId (mr_container m)
}.

Lemma inStep_ledger l l' m : hasOpen (mr_container m) l' = hasOpen (mr_container m) l -> inStep l m -> inStep l' m.
Proof. unfold inStep. by intros ->. Qed.

Lemma sync_booked now b id s r up db c :
  (c = id -> forall m, In m (pd_members db) -> mr_container m = id -> mr_state m = s) -> (c <> id -> booked c db) ->
  booked c (syncUptimeForState now b id s r up db).
Proof.
  intros Hs Ho m. rewrite sync_members. intros Hin Hc. destruct (decide (c = id)) as [->|Hne].
  - unfold inStep. rewrite (Hs eq_refl m Hin Hc), Hc.
    assert (hasOpen id (openUptimeInterval now b (List.map asMember (pd_members db)) id up (pd_ledger db)) = true) as Hop
      by (eapply (hasOpen_opened _ _ _ _ _ _ (asMember m)); [by apply in_map|done]).
    destruct s; cbn -[hasOpen]; try done. apply hasOpen_closed.
  - eapply inStep_ledger; [apply sync_other; congruence|]. by apply (Ho Hne).
Qed.

(** An [UPDATE] of a row's state and the move of its interval: it settles its container and
    leaves the others. *)
Lemma update_booked now b id p f s r up db c : (forall m, mr_container (f m) = mr_container m) ->
  (forall m, In m (updateMember id p f (pd_members db)) -> mr_container m = id -> mr_state m = s) ->
  (c <> id -> booked c db) ->
  booked c (syncUptimeForState now b id s r up (setMembers (updateMember id p f (pd_members db)) db)).
Proof.
  intros Hf Hs Ho. apply sync_booked; [by intros _|]. intros Hne m Hin Hc. apply Ho; [done| |done].
  eapply updateMember_other; [exact Hf|exact Hin|congruence].
Qed.

Lemma annotate_booked id p f db c : (forall m, mr_container (f m) = mr_container m) -> (forall m, mr_state (f m) = mr_state m) ->
  booked c db -> booked c (setMembers (updateMember id p f (pd_members db)) db).
Proof.
  intros Hc Hs Hdb. unfold booked. cbn. apply (updateMember_keeps (fun m => mr_container m = c -> inStep (pd_ledger db) m)); [|exact Hdb].
  intros m. unfold inStep. by rewrite Hc, Hs.
Qed.

Lemma fold_sync_booked now b s cs c db : (In c cs -> forall m, In m (pd_members db) -> mr_container m = c -> mr_state m = s) ->
  (~ In c cs -> booked c db) -> booked c (fold_left (fun db id => syncUptimeForState now b id s None None db) cs db).
Proof.
  revert db. induction cs as [|id cs IH]; intros db Hs Ho; cbn [fold_left]; [apply Ho; by intros []|].
  apply IH; [rewrite sync_members; intros Hin; apply Hs; by right|]. intros Hno. apply sync_booked.
  - intros <-. apply Hs. by left.
  - intros Hne. apply Ho. intros [->|Hin]; [by apply Hne|by apply Hno].
Qed.

Lemma boot_booked now b from s f db c : (forall m, mr_container (f m) = mr_container m) -> (forall m, mr_state (f m) = s) ->
  NoDup (ids (pd_members db)) -> booked c db ->
  booked c (fold_left (fun db id => syncUptimeForState now b id s None None db)
    (List.map mr_container (List.filter (inState from) (pd_members db)))
    (setMembers (List.map (fun m => if inState from m then f m else m) (pd_members db)) db)).
Proof.
  intros Hc Hs Hn Hdb. apply fold_sync_booked; cbn [setMembers pd_members pd_ledger].
  - intros (m1 & Heq & [H1 Hf]%filter_In)%in_map_iff m (m0 & <- & H0)%in_map_iff Hm.
    assert (m0 = m1) as -> by (eapply (NoDup_fmap_In mr_container); [exact Hn|done|done|]; destruct (inState from m0); rewrite ?Hc in Hm; congruence).
    by rewrite Hf.
  - intros Hno m (m0 & <- & H0)%in_map_iff Hm. destruct (inState from m0) eqn:E; [|by apply Hdb].
    destruct Hno. rewrite Hc in Hm. rewrite <- Hm. apply in_map, filter_In. done.
Qed.

Lemma ledger_booked l db c : (forall m, In m (pd_members db) -> mr_container m = c -> hasOpen c l = hasOpen c (pd_ledger db)) ->
  booked c db -> booked c (setLedger l db).
Proof. intros Hl Hdb m Hin Hc. eapply inStep_ledger; [rewrite Hc; by apply (Hl m)|by apply Hdb]. Qed.

Lemma upsert_booked now b p id s a up db c : (c <> id -> booked c db) -> booked c (upsertPoolMember now b p id s a up db).
Proof.
  intros Ho. unfold upsertPoolMember. destruct (matchesMember id anyMember (pd_members db)) eqn:Hm.
  - apply update_booked; [done| |done]. intros m. apply update_state_missed; [done|]. intros m0.
    unfold upsertMoves. rewrite negb_false_iff, bool_decide_eq_true. tauto.
  - pose proof (fun m => unmatched id _ m Hm) as Hno. apply sync_booked.
    + intros _ m [Hin|[<-|[]]]%in_app_iff Hc; [by destruct (Hno m Hin)|done].
    + intros Hne m [Hin|[<-|[]]]%in_app_iff Hc; [by apply Ho|]. cbn in Hc. congruence.
Qed.

Lemma closed_booked now id r db c : (matchesMember id (fun m => containerCountsTowardBudget (mr_state m)) (pd_members db) = false \/ c <> id) ->
  (c <> id -> booked c db) -> forall l, (c <> id -> forall m, In m (pd_members db) -> mr_container m = c -> hasOpen c l = hasOpen c (pd_ledger db)) ->
  booked c (setLedger (closeUptimeInterval now id r l) db).
Proof.
  intros Hor Ho l Hl. destruct (decide (c = id)) as [->|Hne].
  - destruct Hor as [Hno|]; [|done]. intros m Hin Hc. unfold inStep. cbn [pd_ledger setLedger]. rewrite Hc, hasOpen_closed.
    unfold matchesMember in Hno. rewrite existsb_false_iff in Hno. specialize (Hno m Hin). apply hasContainer_spec in Hc. rewrite Hc in Hno.
    by destruct (mr_state m).
  - apply ledger_booked; [|by apply Ho]. intros m Hin Hc. rewrite hasOpen_close_other by done. by apply (Hl Hne m).
Qed.

Lemma not_settled c id off : ~ In c (List.filter (fun x => negb (String.eqb x id)) off) -> c = id \/ ~ In c off.
Proof.
  intros Hno. destruct (decide (c = id)) as [->|Hne]; [by left|right]. intros Hin. apply Hno, filter_In. split; [done|].
  by apply negb_true_iff, String.eqb_neq.
Qed.


Lemma poolStep_booked now b db off e c : table_inv db -> (~ In c off -> booked c db) ->
  ~ In c (offBooks db off e) -> booked c (poolStep now b db e).
Proof.
  intros [Hn He] Hb.
  assert (forall id, ~ In c (List.filter (fun x => negb (String.eqb x id)) off) -> c <> id -> booked c db) as Hset
    by (intros id [->|Hno]%not_settled Hne; [done|by apply Hb]).
  assert (forall id, ~ In c (id :: off) -> c <> id /\ booked c db) as Hcons
    by (intros id Hno; split; [intros ->; apply Hno; by left|apply Hb; intros Hin; apply Hno; by right]).
  destruct e as [p id s a up|id task|id task chat|id s r up|id|id up|on id|id|id| | | |id|id|name p mem disk at_|name [id|]|id r|id names|id [f|]|id logs err|id bytes|id [mem|]];
    cbn [poolStep offBooks]; intros Hoff.
  - apply upsert_booked. by apply Hset.
  - unfold claimPoolMember. destruct (matchesMember _ _ _) eqn:Hm; [|by apply Hb]. apply update_booked; [done| |by apply Hset].
    intros m. by apply update_state_moved.
  - unfold releasePoolMember. destruct (matchesMember _ _ _) eqn:Hm; [|by apply Hb]. apply update_booked; [done| |by apply Hset].
    intros m. by apply update_state_moved.
  - apply update_booked; [done| |by apply Hset]. intros m. apply update_state_missed; [done|].
    intros m0. rewrite negb_false_iff. apply inState_spec.
  - cbn. destruct (matchesMember _ _ _) eqn:Hm.
    + destruct (Hcons id Hoff) as [Hne Hc]. intros m Hin Hid. apply Hc; [|done]. eapply (updateMember_other id); [|exact Hin|congruence]; done.
    + intros m (m0 & Hin & ->)%In_updateMember. unfold matchesMember in Hm. rewrite existsb_false_iff in Hm.
      rewrite (Hm m0 Hin). by apply Hb.
  - unfold markPoolMemberRunning. destruct (matchesMember _ _ _) eqn:Hm; [|by apply Hb]. apply update_booked; [done| |by apply Hset].
    intros m. by apply update_state_moved.
  - unfold releaseClaimIfRunGone. destruct (matchesMember _ _ _) eqn:Hm; [|by apply Hb]. apply update_booked; [done| |by intros _; apply Hb].
    intros m. by apply update_state_moved.
  - intros m [Hin Hne]%filter_In Hc. destruct (decide (c = id)) as [->|Hid]; [apply hasContainer_spec in Hc; by rewrite Hc in Hne|].
    eapply inStep_ledger; [|by eapply (Hset id Hoff Hid m)]. rewrite Hc. by apply hasOpen_close_other.
  - intros m [Hin Hne]%filter_In Hc. destruct (decide (c = id)) as [->|Hid]; [apply hasContainer_spec in Hc; by rewrite Hc in Hne|].
    by apply (Hset id Hoff Hid).
  - by intros m [].
  - apply (boot_booked now b mbusy midle); [done|done|done|by apply Hb].
  - apply (boot_booked now b creating merror); [done|done|done|by apply Hb].
  - apply annotate_booked; [done|done|]. apply update_booked; [done| |by apply Hset]. intros m. apply update_state_missed; [done|].
    intros m0. rewrite negb_false_iff. apply inState_spec.
  - destruct (matchesMember _ _ _) eqn:Hm.
    + destruct (Hcons id Hoff) as [Hne Hc]. apply ledger_booked; [|done]. intros m _ _. by apply hasOpen_open_other.
    + destruct (decide (c = id)) as [->|Hne]; [|apply ledger_booked; [intros m _ _; by apply hasOpen_open_other|by apply (Hset id)]].
      intros m Hin Hc. unfold inStep. cbn [pd_ledger setLedger openInterval ensurePoolMemberUptimeOpen].
      rewrite Hc, (hasOpen_opened _ _ _ _ _ _ (asMember m)); [|by apply in_map|done].
      unfold matchesMember in Hm. rewrite existsb_false_iff in Hm. specialize (Hm m Hin). apply hasContainer_spec in Hc. rewrite Hc in Hm.
      destruct (mr_state m) eqn:Es; try done. unfold inState in Hm. rewrite Es in Hm. done.
  - apply ledger_booked; [|by apply Hb]. intros m Hin Hc.
    unfold openProvisionalInterval. rewrite hasOpen_insert. destruct (open_of _ _) eqn:E; [|by rewrite andb_false_r, orb_false_r].
    apply open_of_spec in E as [E _]. cbn in E. destruct (engineId_key (mr_container m) name); [by apply He|congruence].
  - destruct (matchesMember _ _ _) eqn:Hm.
    + destruct (Hcons id Hoff) as [Hne Hc]. apply ledger_booked; [|done]. intros m Hin Hid.
      apply hasOpen_adopt_other; [done|]. rewrite <- Hid. by apply engineId_key, He.
    + destruct (decide (c = id)) as [->|Hne].
      * intros m Hin Hc. specialize (Hb Hoff m Hin Hc). unfold inStep in *. cbn [pd_ledger setLedger adoptCreateRequestUptime settleCreateRequestUptime].
        unfold matchesMember in Hm. rewrite existsb_false_iff in Hm. specialize (Hm m Hin). pose proof Hc as Hc'. apply hasContainer_spec in Hc'. rewrite Hc' in Hm.
        destruct (mr_state m) eqn:Es; try done; try (rewrite <- Hc in *; apply hasOpen_adopt_same; [by apply engineId_key, He|done]).
        unfold inState in Hm. by rewrite Es in Hm.
      * apply ledger_booked; [|by apply Hb]. intros m Hin Hid.
        apply hasOpen_adopt_other; [done|]. rewrite <- Hid. by apply engineId_key, He.
  - apply ledger_booked; [|by apply Hb]. intros m Hin Hc. apply hasOpen_filter. intros e Ho. rewrite (open_of_ne c _ e); [done| |done].
    rewrite <- Hc. by apply engineId_key, He.
  - destruct (matchesMember _ _ _) eqn:Hm; (apply closed_booked; [|intros Hne|done]).
    + right. by apply (Hcons id).
    + by apply (Hcons id).
    + by left.
    + by apply (Hset id).
  - change (booked c (setLedger (closeUptimeInterval now id (endReasonText Destroyed) (adoptFirst id names (pd_ledger db))) db)).
    assert (c <> id -> forall m, In m (pd_members db) -> mr_container m = c -> hasOpen c (adoptFirst id names (pd_ledger db)) = hasOpen c (pd_ledger db)) as Ha
      by (intros Hne m Hin Hc; apply adoptFirst_other; [rewrite <- Hc; by apply He|done]).
    destruct (matchesMember _ _ _) eqn:Hm; (apply closed_booked; [|intros Hne|done]).
    + right. by apply (Hcons id).
    + by apply (Hcons id).
    + by left.
    + by apply (Hset id).
  - apply annotate_booked; [done|done|by apply Hb].
  - by apply Hb.
  - apply annotate_booked; [done|done|by apply Hb].
  - apply annotate_booked; [done|done|by apply Hb].
  - apply annotate_booked; [done|done|by apply Hb].
  - by apply Hb.
Qed.

Lemma poolStep_table now b db e : table_inv db -> (match e with Upsert _ id _ _ _ => engineId id | _ => True end) ->
  table_inv (poolStep now b db e).
Proof.
  intros [Hn He] Hid. split; [by apply poolStep_unique|]. intros m Hin. destruct (isUpsert e) eqn:Eu.
  - destruct e; try done. apply upsert_rows in Hin as [[-> _]|[_ Hin]]; [done|by apply He].
  - destruct (poolStep_rows now b db e Eu m Hin) as (m0 & Hin0 & <- & _). by apply He.
Qed.

Lemma trace_booked tr : forall db off, Forall engineUpsert tr -> table_inv db -> (forall c, ~ In c off -> booked c db) ->
  forall c, ~ In c (offTheBooks tr db off) -> booked c (runPool tr db).
Proof.
  induction tr as [|[[now b] e] tr IH]; intros db off Hf Ht Hb c; cbn [offTheBooks runPool fold_left]; [by apply Hb|].
  inversion Hf as [|x l He Hf']; subst. apply IH; [done|by apply poolStep_table|]. intros c' Hc'. cbn [traceStep].
  eapply poolStep_booked; [done|apply Hb|exact Hc'].
Qed.

(** C11. The ledger follows the table after any history of the operations on it, each taken as
    one step: a member that is creating, idle or busy has an open stretch and a suspended one
    has none, unless its container is off the books - a stop of it was asked for, or the ledger
    alone was written against its row, and neither a write of the row's state nor one of the
    ledger that agrees with it came since. Containers are recorded under ids that an engine
    gave. Nothing is said of a failed member, which keeps the stretch it had. *)
Theorem billing_follows_state tr m : Forall engineUpsert tr -> let db := runPool tr emptyPool in
  In m (pd_members db) -> ~ In (mr_container m) (offTheBooks tr emptyPool []) ->
  (containerCountsTowardBudget (mr_state m) = true -> hasOpen (mr_container m) (pd_ledger db) = true) /\
  (mr_state m = msuspended -> hasOpen (mr_container m) (pd_ledger db) = false).
Proof.
  intros Hf db Hin Hoff.
  assert (inStep (pd_ledger db) m) as Hs.
  { apply (trace_booked tr emptyPool [] Hf) with (mr_container m); [split; [apply base.NoDup_nil_2|by intros ? []]|by intros c _ ? []|done|done|done]. }
  unfold inStep in Hs. split; [by destruct (mr_state m)|by intros Hst; rewrite Hst in Hs].
Qed.

(** A container that is provisioned, claimed, given back and stopped. *)
Definition ex_alloc : Allocation := mkAllocation (Some 5) (Some (4 * 2 ^ 30)) (Some "v1").
Definition ex_lifecycle : PoolTrace := List.map (fun e => (0, "docker", e))
  [OpenCreate "n" "p" (4 * 2 ^ 30) 5 0; SettleCreate "n" (Some "c"); Upsert "p" "c" creating ex_alloc None;
   Upsert "p" "c" midle ex_alloc None; Claim "c" (Some "t"); Release "c" (Some "t") false; BeginStop "c";
   SetState "c" msuspended None None].

Lemma billing_follows_state_witness :
  List.map mr_state (pd_members (runPool ex_lifecycle emptyPool)) = [msuspended] /\
  forall m, In m (pd_members (runPool ex_lifecycle emptyPool)) -> hasOpen (mr_container m) (pd_ledger (runPool ex_lifecycle emptyPool)) = false.
Proof.
  split; [vm_compute; reflexivity|]. intros m Hin. refine (proj2 (billing_follows_state ex_lifecycle m _ Hin _) _).
  - repeat constructor.
  - assert (offTheBooks ex_lifecycle emptyPool [] = []) as -> by (vm_compute; reflexivity). by intros [].
  - assert (List.map mr_state (pd_members (runPool ex_lifecycle emptyPool)) = [msuspended]) as E by (vm_compute; reflexivity).
    apply (in_map mr_state) in Hin. rewrite E in Hin. by destruct Hin as [<-|[]].
Defined.

(** Between the request of a stop and its confirmation the container is off the books, and a
    close by hand of a container that is up puts it there. *)
Lemma off_the_books_examples :
  offTheBooks (List.firstn 7 ex_lifecycle) emptyPool [] = ["c"] /\
  offTheBooks (List.firstn 4 ex_lifecycle ++ [(0, "docker", CloseUptime "c" Reconciled)]) emptyPool [] = ["c"].
Proof. vm_compute. done. Qed.

(** ** One run per container *)

(** What takes a claimed container back: a release, by whichever run it is asked for, a state
    written over the claim, a removal, the boot pass, and the release of a claim whose run is
    not among those running. *)
Definition takesBack (id : string) (e : PoolEvent) : bool :=
  match e with
  | Release c _ _ | Upsert _ c _ _ _ | SetState c _ _ _ | Remove c | Forget c | FailWedged c => String.eqb c id
  | ReleaseIfGone on c => String.eqb c id && negb (bool_decide (id ∈ on))
  | ClearAll | ReclaimBusy => true
  | _ => false
  end.

(** The row of a claimed container: busy, with the task the claim names. *)
Definition claimedRow (id : string) (task : option string) (t : Members) : Prop :=
  exists m, In m t /\ mr_container m = id /\ mr_state m = mbusy /\ (task = None \/ last_task m = task).

Lemma update_claimed id c p f task t : (forall m, mr_container (f m) = mr_container m) ->
  (id <> c \/ (forall m, mr_state m = mbusy -> mr_container m = id -> p m = false)
   \/ (forall m, mr_state (f m) = mr_state m /\ last_task (f m) = last_task m)) ->
  claimedRow id task t -> claimedRow id task (updateMember c p f t).
Proof.
  intros Hc Hor (m & Hin & Hid & Hs & Ht). exists (if hasContainer c m && p m then f m else m). split; [apply in_map_iff; eauto|].
  destruct (hasContainer c m && p m) eqn:E; [|done]. apply andb_true_iff in E as [E Hp]. apply hasContainer_spec in E.
  destruct Hor as [Hne|[Hno|Hf]]; [congruence|by rewrite Hno in Hp|]. rewrite Hc. by destruct (Hf m) as [-> ->].
Qed.

Lemma filter_claimed id c task t : id <> c -> claimedRow id task t -> claimedRow id task (List.filter (fun m => negb (hasContainer c m)) t).
Proof.
  intros Hne (m & Hin & Hid & Hs). exists m. split; [|done]. apply filter_In. split; [done|].
  apply negb_true_iff, not_true_iff_false. rewrite hasContainer_spec. congruence.
Qed.

Lemma map_claimed from f id task t : from <> mbusy -> claimedRow id task t ->
  claimedRow id task (List.map (fun m => if inState from m then f m else m) t).
Proof.
  intros Hne (m & Hin & Hid & Hs & Ht). exists m. split; [|done]. apply in_map_iff. exists m. split; [|done].
  destruct (inState from m) eqn:E; [|done]. apply inState_spec in E. congruence.
Qed.

(** An operation of another state does not match a busy row. *)
Lemma busy_unmatched id s task t : NoDup (ids t) -> s <> mbusy -> claimedRow id task t -> matchesMember id (inState s) t = false.
Proof.
  intros Hn Hs (m & Hin & Hid & Hb & _). apply existsb_false_iff. intros m' Hin'. apply not_true_iff_false.
  intros [Hc%hasContainer_spec Hs'%inState_spec]%andb_true_iff.
  assert (m = m') as -> by (eapply (NoDup_fmap_In mr_container); [exact Hn|done|done|congruence]). congruence.
Qed.

(** A claim survives every operation but those that take it back. *)
Lemma poolStep_claimed now b db e id task : takesBack id e = false -> claimedRow id task (pd_members db) ->
  claimedRow id task (pd_members (poolStep now b db e)).
Proof.
  intros Hno Hb.
  destruct e as [p c s a up|c task'|c task' chat|c s r up|c|c up|on c|c|c| | | |c|c|name p mem disk at_|name [c|]|c r|c names|c [f|]|c logs err|c bytes|c [mem|]];
    cbn [poolStep]; cbn [takesBack] in Hno; try exact Hb; try done;
    try (apply String.eqb_neq, not_eq_sym in Hno).
  - unfold upsertPoolMember. rewrite sync_members. cbn. destruct (matchesMember _ _ _); [apply update_claimed; auto|].
    destruct Hb as (m & Hm & Hid & Hs). exists m. split; [|done]. apply in_app_iff. by left.
  - unfold claimPoolMember. destruct (matchesMember _ _ _); cbn [fst]; rewrite ?sync_members; [|done].
    apply update_claimed; [done| |done]. right; left. intros m Hs _. unfold inState. by rewrite Hs.
  - unfold releasePoolMember. destruct (matchesMember _ _ _); rewrite ?sync_members; [|done]. apply update_claimed; auto.
  - unfold setPoolMemberState. rewrite sync_members. apply update_claimed; auto.
  - apply update_claimed; [done| |done]. right; left. intros m Hs _. unfold inState. by rewrite Hs.
  - unfold markPoolMemberRunning. destruct (matchesMember _ _ _); cbn [fst]; rewrite ?sync_members; [|done].
    apply update_claimed; [done| |done]. right; left. intros m Hs _. unfold inState. by rewrite Hs.
  - unfold releaseClaimIfRunGone. destruct (matchesMember _ _ _); cbn [fst]; rewrite ?sync_members; [|done].
    apply update_claimed; [done| |done]. destruct (String.eqb_spec c id) as [->|Hne]; [|left; congruence]. right; left. intros m Hs Hc.
    apply negb_false_iff in Hno. by rewrite Hc, Hno, andb_false_r.
  - apply filter_claimed; auto.
  - apply filter_claimed; auto.
  - unfold failInterruptedProvisions. cbn [fst]. rewrite fold_sync_members. by apply map_claimed.
  - unfold failWedgedProvision, setPoolMemberOutcome, setPoolMemberState. rewrite pd_setMembers, sync_members.
    apply update_claimed; auto. apply update_claimed; auto.
  - apply update_claimed; auto.
  - apply update_claimed; auto.
  - apply update_claimed; auto.
  - apply update_claimed; auto.
Qed.

Lemma trace_claimed tr id task : forall db, forallb (fun x => negb (takesBack id (snd x))) tr = true ->
  claimedRow id task (pd_members db) -> claimedRow id task (pd_members (runPool tr db)).
Proof.
  induction tr as [|[[now b] e] tr IH]; intros db; [done|]. cbn [forallb snd runPool fold_left]. intros [He Htr]%andb_true_iff Hb.
  apply IH; [done|]. apply poolStep_claimed; [by apply negb_true_iff|done].
Qed.

Lemma trace_unique tr : forall db, NoDup (ids (pd_members db)) -> NoDup (ids (pd_members (runPool tr db))).
Proof. induction tr as [|[[now b] e] tr IH]; intros db Hn; [done|]. apply IH. by apply poolStep_unique. Qed.

(** A claim succeeds on an idle row only. *)
Lemma claim_idle now b id task db db' : claimPoolMember now b id task db = (db', true) ->
  exists m, In m (pd_members db) /\ mr_container m = id /\ mr_state m = midle.
Proof.
  unfold claimPoolMember. destruct (matchesMember id (inState midle) (pd_members db)) eqn:Hm; [|done]. intros _.
  apply existsb_exists in Hm as (m & Hin & [Hc%hasContainer_spec Hs%inState_spec]%andb_true_iff). eauto.
Qed.

Lemma claim_holds now b id task db : snd (claimPoolMember now b id task db) = true ->
  claimedRow id task (pd_members (fst (claimPoolMember now b id task db))).
Proof.
  unfold claimPoolMember. destruct (matchesMember id (inState midle) (pd_members db)) eqn:Hm; [|done]. intros _. cbn [fst].
  apply existsb_exists in Hm as (m & Hin & [Hc Hs]%andb_true_iff). rewrite sync_members.
  exists (withRelease (last_released m) None (withTask task (withState now mbusy m))). split; [|split; [by apply hasContainer_spec|]].
  - apply in_map_iff. exists m. by rewrite Hc, Hs.
  - split; [done|]. destruct task; [by right|by left].
Qed.

(** C12. A container serves one run at a time. After any history, once a claim of a container
    has succeeded, then until an operation that takes the container back - a release of it, a
    state written over it, its removal, the boot pass, or the release of a claim whose run is
    gone - its row stays busy with the task the claim named, and every other claim, every
    retirement and every resume of it is refused, whatever other operations come in between. *)
Theorem one_run_per_container before between now b now' b' id task task' up :
  let db := runPool before emptyPool in
  snd (claimPoolMember now b id task db) = true ->
  forallb (fun x => negb (takesBack id (snd x))) between = true ->
  let db' := runPool between (fst (claimPoolMember now b id task db)) in
  (exists m, In m (pd_members db') /\ mr_container m = id /\ mr_state m = mbusy /\ (task = None \/ last_task m = task)) /\
  snd (claimPoolMember now' b' id task' db') = false /\
  snd (beginPoolMemberStop now' id db') = false /\
  snd (markPoolMemberRunning now' b' id up db') = false.
Proof.
  intros db Hc Hb db'. assert (NoDup (ids (pd_members db'))) as Hn.
  { apply trace_unique, (poolStep_unique now b db (Claim id task)), trace_unique. apply base.NoDup_nil_2. }
  assert (claimedRow id task (pd_members db')) as Hrow by (by apply trace_claimed, claim_holds).
  split; [exact Hrow|]. unfold claimPoolMember, beginPoolMemberStop, markPoolMemberRunning.
  rewrite !(busy_unmatched id _ task) by done. split_and!; [done| |done]. cbn [snd]. apply negb_false_iff.
  destruct Hrow as (m & Hin & Hid & _). apply existsb_exists. exists m. split; [done|]. apply hasContainer_spec in Hid. by rewrite Hid.
Qed.

Definition ex_idle (id : string) : MemberRow :=
  mkMemberRow "p" id midle (Some (4 * 2 ^ 30)) 0 (poolDiskCeilingBytes 5) (Some 0) 0 false None (Some "v1") None 0 None None.
Definition ex_pool : PoolDb := mkPoolDb [ex_idle "c"; ex_idle "d"] [].

Lemma one_run_per_container_witness :
  let db := fst (claimPoolMember 1 "docker" "c" (Some "t") (runPool (List.firstn 4 ex_lifecycle) emptyPool)) in
  let db' := runPool [(2, "docker", BeginStop "c"); (3, "docker", ReleaseIfGone ["c"] "c"); (4, "docker", Release "d" None false)] db in
  snd (claimPoolMember 5 "docker" "c" (Some "u") db') = false.
Proof.
  refine (proj1 (proj2 (one_run_per_container (List.firstn 4 ex_lifecycle)
    [(2, "docker", BeginStop "c"); (3, "docker", ReleaseIfGone ["c"] "c"); (4, "docker", Release "d" None false)]
    1 "docker" 5 "docker" "c" (Some "t") (Some "u") None _ _))); vm_compute; reflexivity.
Defined.

(** Not every operation that takes a container back is of the run that holds it: the pass that
    ends the runs of a stopped container releases the claim while its run is still to give it
    back. The late release then frees the claim of the run that resumed the container, and a
    third run claims it while the second still holds it. *)
Lemma stale_release_frees_claim :
  let db := runPool (List.map (fun e => (0, "docker", e)) [Claim "c" (Some "A"); ReleaseIfGone [] "c"; SetState "c" midle None None]) ex_pool in
  let resumed := claimPoolMember 0 "docker" "c" (Some "B") db in
  snd resumed = true /\
  snd (claimPoolMember 0 "docker" "c" (Some "C") (fst resumed)) = false /\
  snd (claimPoolMember 0 "docker" "c" (Some "C") (releasePoolMember 0 "docker" "c" (Some "A") false (fst resumed))) = true.
Proof. vm_compute. done. Qed.

(** A write of a state and its interval are two statements. A stop that is asked for and
    confirmed between those of a release leaves a suspended container with an open stretch,
    until the reconcile sees it at rest. *)
Lemma late_sync_bills_suspended :
  let db := fst (claimPoolMember 0 "docker" "c" None ex_pool) in
  let released := setMembers (updateMember "c" anyMember (withState 10 midle) (pd_members db)) db in
  let stopped := setPoolMemberState 30 "docker" "c" msuspended None None (fst (beginPoolMemberStop 20 "c" released)) in
  let late := syncUptimeForState 40 "docker" "c" midle None None stopped in
  List.map mr_state (List.filter (hasContainer "c") (pd_members late)) = [msuspended] /\ hasOpen "c" (pd_ledger late) = true.
Proof. vm_compute. done. Qed.

(** ** Boot *)

(** The two boot passes leave no claim and no provision standing; a member that was
    suspended, idle or failed keeps its state, and each keeps its container and project. *)
Lemma boot_clears_claims now b db :
  let db' := fst (failInterruptedProvisions now b (fst (reclaimBusyPoolMembers now b db))) in
  List.map (fun m => (mr_container m, mr_project m, mr_state m)) (pd_members db') =
  List.map (fun m => (mr_container m, mr_project m, match mr_state m with mbusy => midle | creating => merror | s => s end)) (pd_members db).
Proof.
  cbn zeta. unfold failInterruptedProvisions. cbn [fst]. rewrite fold_sync_members, pd_setMembers.
  unfold reclaimBusyPoolMembers. cbn [fst]. rewrite fold_sync_members, pd_setMembers, !List.map_map.
  apply List.map_ext. intros m. destruct m as [p c s]. by destruct s.
Qed.

(** ** Paging *)
Section Paging.
Context (collate : string -> string -> Z) `{!Comparator collate}.
Hypothesis collate_deterministic : forall a b, collate a b <= 0 -> collate b a <= 0 -> a = b.
Context (now minAge : Z) (limit : nat) (t : Members).
Hypotheses (Hunique : NoDup (ids t)) (Hlimit : (0 < limit)%nat).

#[local] Instance byContainer_comparator : Comparator (byContainer collate).
Proof.
  split; unfold byContainer.
  - intros x y. apply (cmp_total collate).
  - intros x y z. apply (cmp_trans collate).
Qed.

(** The pages of passes from a cursor until it starts over. *)
Fixpoint reconcilePages (fuel : nat) (after : option string) : list (list MemberRow) :=
  match fuel with
  | O => []
  | S fuel =>
      let page := listPoolMembersForReconcile collate now minAge limit after t in
      page :: match nextCursor limit page with None => [] | after => reconcilePages fuel after end
  end.

Definition agedRows : list MemberRow := js_sort (byContainer collate) (List.filter (aged now minAge) t).

Lemma page_spec after : listPoolMembersForReconcile collate now minAge limit after t =
  take limit (List.filter (afterCursor collate after) agedRows).
Proof.
  unfold listPoolMembersForReconcile, agedRows. f_equal. by rewrite <- (js_sort_filter (byContainer collate)), filter_filter_and.
Qed.

(** The rows after a row of a sorted list are its tail. *)
Lemma after_tail pre m post : StronglySorted (fun a b => byContainer collate a b <= 0) (pre ++ m :: post) ->
  NoDup (ids (pre ++ m :: post)) ->
  List.filter (afterCursor collate (Some (mr_container m))) (pre ++ m :: post) = post.
Proof.
  intros Hs Hn. rewrite List.filter_app. cbn [List.filter afterCursor].
  assert (collate (mr_container m) (mr_container m) <= 0) as Hrefl by (destruct (cmp_total collate (mr_container m) (mr_container m)); done).
  rewrite (proj2 (Z.ltb_ge _ _) Hrefl).
  replace (List.filter _ pre) with (@nil MemberRow).
  - apply List.forallb_filter_id, List.forallb_forall. intros x Hx. apply Z.ltb_lt.
    apply Znot_ge_lt. intros Hge%Z.ge_le. unfold ids in Hn. rewrite List.map_app in Hn. apply list.NoDup_app in Hn as (_ & _ & Hn).
    cbn in Hn. apply list.NoDup_cons in Hn as [Hn _]. apply Hn. apply list_elem_of_In, in_map_iff. exists x. split; [|done].
    apply collate_deterministic; [done|].
    apply StronglySorted_app_1_r in Hs. inversion_clear Hs as [|? ? _ Hall]. by apply (proj1 (List.Forall_forall _ _) Hall).
  - symmetry. apply filter_nil_iff. intros x Hx. apply Z.ltb_ge. clear Hn.
    induction pre as [|y pre IH]; [done|]. inversion_clear Hs as [|? ? Hs' Hall]. destruct Hx as [->|Hx]; [|by apply IH].
    apply (proj1 (List.Forall_forall _ _) Hall). apply in_app_iff. right. by left.
Qed.

Lemma agedRows_unique : NoDup (ids agedRows).
Proof.
  unfold agedRows, ids. rewrite <- (Permutation_map mr_container (js_sort_perm (byContainer collate) _)). by apply NoDup_map_filter.
Qed.

Lemma pages_from fuel after pre post : agedRows = pre ++ post ->
  List.filter (afterCursor collate after) agedRows = post -> (length post < fuel)%nat -> concat (reconcilePages fuel after) = post.
Proof.
  revert after pre post. induction fuel as [|fuel IH]; intros after pre post Hsplit Hpost Hfuel; [lia|].
  cbn [reconcilePages concat]. rewrite page_spec, Hpost. unfold nextCursor.
  destruct (Nat.ltb_spec (length (take limit post)) limit) as [Hlt|Hge]; rewrite length_take in *.
  - cbn. rewrite app_nil_r. apply take_ge. lia.
  - destruct (list.last (take limit post)) as [m|] eqn:El; [|apply last_None, (f_equal length) in El; rewrite length_take in El; cbn in El; lia].
    apply last_Some in El as [front Hfront]. cbn [fmap option_fmap option_map].
    rewrite (IH (Some (mr_container m)) (pre ++ take limit post) (drop limit post)); [apply take_drop| | |].
    + by rewrite <- app_assoc, take_drop.
    + assert (agedRows = (pre ++ front) ++ m :: drop limit post) as Heq.
      { rewrite Hsplit, <- app_assoc. f_equal. transitivity (take limit post ++ drop limit post); [by rewrite take_drop|].
        by rewrite Hfront, <- app_assoc. }
      rewrite Heq. apply after_tail; rewrite <- Heq; [apply js_sort_sorted, _|apply agedRows_unique].
    + rewrite length_drop. lia.
Qed.
End Paging.

(** The reconcile visits every member in turn: from the start, the passes' pages up to the
    one after which the cursor starts over are the members old enough to check, each exactly
    once and in order, however many there are and whatever the page size. *)
Theorem reconcile_visits_every_member collate `{!Comparator collate} now minAge limit t :
  (forall a b, collate a b <= 0 -> collate b a <= 0 -> a = b) -> NoDup (ids t) -> (0 < limit)%nat ->
  concat (reconcilePages collate now minAge limit t (S (length t)) None) =
  js_sort (byContainer collate) (List.filter (aged now minAge) t).
Proof.
  intros Hdet Hn Hl. apply (pages_from collate Hdet now minAge limit t Hn Hl _ None []); [done| |].
  - apply List.forallb_filter_id, List.forallb_forall. done.
  - unfold agedRows. rewrite <- (Permutation_length (js_sort_perm _ _)). pose proof (List.filter_length_le (aged now minAge) t). lia.
Qed.

(** A deterministic collation: the order of the codes of strings. *)
Definition byCode (a b : string) : Z := Z.pos (encode a) - Z.pos (encode b).

#[export] Instance byCode_comparator : Comparator byCode.
Proof. split; unfold byCode; intros; lia. Qed.

Lemma byCode_deterministic a b : byCode a b <= 0 -> byCode b a <= 0 -> a = b.
Proof. unfold byCode. intros H1 H2. apply (inj encode). lia. Qed.

Lemma reconcile_visits_every_member_witness :
  let t := [ex_idle "e"; ex_idle "c"; ex_idle "d"] in
  List.map (List.map mr_container) (reconcilePages byCode (100 * US_PER_SEC) 60 2 t 4 None) = [["c"; "d"]; ["e"]] /\
  concat (reconcilePages byCode (100 * US_PER_SEC) 60 2 t 4 None) = js_sort (byContainer byCode) (List.filter (aged (100 * US_PER_SEC) 60) t).
Proof.
  intros t. split; [vm_compute; reflexivity|].
  apply (reconcile_visits_every_member byCode (100 * US_PER_SEC) 60 2 t byCode_deterministic); [|lia].
  apply (bool_decide_unpack _). vm_compute. exact I.
Defined.

(** ** The Containers page *)

Lemma listed_In runOn ps t row : In row (CONTAINER_LISTING runOn ps t) <->
  exists id p, In (id, pc_id p) (listedPairs ps t) /\ In p ps /\ row = toContainerListing runOn id p (List.find (hasContainer id) t).
Proof.
  unfold CONTAINER_LISTING. rewrite in_flat_map. split.
  - intros ([id pid] & Hin & (p & <- & [Hp Hid%String.eqb_eq]%filter_In)%in_map_iff). cbn in Hid. subst pid. eauto.
  - intros (id & p & Hin & Hp & ->). exists (id, pc_id p). split; [done|]. apply in_map_iff. exists p. split; [done|].
    apply filter_In. by rewrite String.eqb_refl.
Qed.

Lemma listedPairs_In ps t id pid : In (id, pid) (listedPairs ps t) <->
  (exists p, In p ps /\ pc_container p = Some id /\ pc_id p = pid) \/
  (exists m, In m t /\ mr_container m = id /\ mr_project m = pid) \/
  (exists p, In p ps /\ awaitsId t p = true /\ id = "provisioning:" +:+ pc_id p /\ pc_id p = pid).
Proof.
  unfold listedPairs. rewrite <- list_elem_of_In, elem_of_remove_dups, !elem_of_app, list_elem_of_omap.
  setoid_rewrite list_elem_of_In. split.
  - intros [(p & Hp & Heq)|[(m & [= <- <-] & Hm)%in_map_iff|(p & [= <- <-] & [Hp Ha]%filter_In)%in_map_iff]].
    + left. destruct (pc_container p) as [c|] eqn:Ec; simplify_eq/=. eauto.
    + right; left. eauto.
    + right; right. eauto 6.
  - intros [(p & Hp & Hc & <-)|[(m & Hm & <- & <-)|(p & Hp & Ha & -> & <-)]].
    + left. exists p. by rewrite Hc.
    + right; left. apply in_map_iff. eauto.
    + right; right. apply in_map_iff. exists p. split; [done|]. by apply filter_In.
Qed.

(** The Containers page shows every container the instance references and nothing else:
    each member of a project's pool is listed with the state its row has, each container a
    project names is listed, and every row is of a container the orphan sweep spares or stands
    for a provision that has no container yet. A row counts towards the budget exactly when
    its state does. *)
Theorem listing_exact runOn ps t : NoDup (ids t) ->
  (forall m p, In m t -> In p ps -> pc_id p = mr_project m ->
     exists row, In row (CONTAINER_LISTING runOn ps t) /\ cl_container row = mr_container m /\ cl_project row = mr_project m
                 /\ cl_state row = mr_state m /\ cl_memory row = mr_memory m /\ cl_error row = last_error m) /\
  (forall p c, In p ps -> pc_container p = Some c ->
     exists row, In row (CONTAINER_LISTING runOn ps t) /\ cl_container row = c /\ cl_project row = pc_id p) /\
  (forall row, In row (CONTAINER_LISTING runOn ps t) ->
     cl_counts row = containerCountsTowardBudget (cl_state row) /\
     (cl_container row ∈ listReferencedContainerIds ps t \/
      exists p, In p ps /\ awaitsId t p = true /\ cl_container row = "provisioning:" +:+ pc_id p)).
Proof.
  intros Hn. split_and!.
  - intros m p Hm Hp Hpid. exists (toContainerListing runOn (mr_container m) p (Some m)). split; [|done].
    apply listed_In. exists (mr_container m), p. split_and!; [|done|by rewrite find_member].
    apply listedPairs_In. right; left. eauto.
  - intros p c Hp Hc. eexists. split; [apply listed_In; exists c, p; split_and!; [|done|done]; apply listedPairs_In; left; eauto|done].
  - intros row (id & p & Hin & Hp & ->)%listed_In. split; [done|]. cbn.
    apply listedPairs_In in Hin as [(p' & Hp' & Hc & _)|[(m & Hm & Hc & _)|(p' & Hp' & Ha & Hid & _)]].
    + left. unfold listReferencedContainerIds. rewrite elem_of_remove_dups, elem_of_app, list_elem_of_omap. left.
      exists p'. split; [by apply list_elem_of_In|done].
    + left. unfold listReferencedContainerIds. rewrite elem_of_remove_dups, elem_of_app. right.
      apply list_elem_of_In, in_map_iff. eauto.
    + right. eauto.
Qed.

Lemma listing_exact_witness :
  let ps := [mkProjectContainer "p" "P" "p" (Some "x") (Some StatusRunning) None None; mkProjectContainer "q" "Q" "q" None (Some StatusCreating) None None] in
  let rows := CONTAINER_LISTING (fun _ => None) ps [ex_idle "c"] in
  List.map (fun r => (cl_container r, cl_state r, cl_counts r)) rows = [("x", midle, true); ("c", midle, true); ("provisioning:q", creating, true)] /\
  exists row, In row rows /\ cl_container row = "c" /\ cl_state row = midle.
Proof.
  intros ps rows. split; [vm_compute; reflexivity|].
  destruct (proj1 (listing_exact (fun _ => None) ps [ex_idle "c"] (NoDup_singleton _)) (ex_idle "c") (mkProjectContainer "p" "P" "p" (Some "x") (Some StatusRunning) None None))
    as (row & Hin & Hc & _ & Hs & _); [by left|by left|done|]. by exists row.
Defined.
