(* ===== verification/Admission.v ===== *)
(** * The container admission gate

    A model of [packages/server/src/services/run-concurrency.ts], with
    [projectContainerFigure] of [lib/system-meta.ts], the budget arithmetic of the shared
    constants, and the candidate query of [reclaimIdleCapacityForProject]
    ([services/containers.ts]), whose planner is modelled in [Pool.v].

    Memory figures are integers in bytes: the code divides by 2^30, which is exact on the
    doubles it uses, so sums and comparisons in GB are these. Instants are microseconds. *)
From Stdlib Require Import ZArith Lia Ascii String List Bool Permutation.
From stdpp Require Import base list strings gmap option.
From S2P Require Import Prelude Calendar Budget UptimeLedger ContainerHours Pool PoolTable.

Open Scope list_scope.
Open Scope Z_scope.

Definition GIB : Z := 1024 ^ 3.
Definition CONTAINER_RECLAIM_MIN_IDLE_SEC : Z := 30.
Definition CONTAINER_RECLAIM_MIN_AGE_SEC : Z := 300.

Record ProjectRow := mkProjectRow {
  pr_id : string; pr_team : string; pr_container : option string; pr_running : bool; memory_limit : option Z
}.

Record RunRow := mkRunRow { run_member : string; run_task : option string; run_team : string; run_active : bool }.

(** The settings and tables the gate reads. *)
Record Instance_ := mkInstance {
  projects : list ProjectRow; members : list MemberRow; runs : list RunRow; taskProject : list (string * string);
  configuredBudget : Z; defaultCap : Z; capPinned : bool; ledger : Ledger;
  monthlyContainerHours : Z; anchorDay : option Z; countedSince : option Z
}.

Definition isTaskBusyInDb (I : Instance_) (taskId : string) : bool :=
  existsb (fun r => bool_decide (run_task r = Some taskId) && run_active r) (runs I).

(** ** Figures *)

Definition projectContainerFigure (override : option Z) (instanceFigure : Z) (pinned : bool) : Z :=
  match override with
  | None => instanceFigure
  | Some o => if pinned then Z.min o instanceFigure else o
  end.

Definition chatContainerReservationGb (ramCap : Z) : Z := Z.max GIB ramCap.
Definition taskContainerMemoryBudgetGb (configured ramCap : Z) : Z := configured - chatContainerReservationGb ramCap.
Definition minTotalContainerMemoryGb (ramCap : Z) : Z := chatContainerReservationGb ramCap + Z.max GIB ramCap.

(** The map of overrides, read at one project. *)
Definition memoryCapOf (I : Instance_) (projectId : string) : option Z :=
  match List.find (fun p => String.eqb (pr_id p) projectId) (projects I) with
  | Some p => memory_limit p
  | None => None
  end.

Definition projectContainerMemoryGb (I : Instance_) (projectId : string) : Z :=
  projectContainerFigure (memoryCapOf I projectId) (defaultCap I) (capPinned I).

Definition sumProjectContainerMemoryGb (I : Instance_) (projectIds : list string) : Z :=
  fold_left (fun total id => total + projectContainerFigure (memoryCapOf I id) (defaultCap I) (capPinned I)) projectIds 0.

Definition rowMemory (I : Instance_) (projectId : string) (memory : option Z) : Z :=
  match memory with
  | None => projectContainerFigure (memoryCapOf I projectId) (defaultCap I) (capPinned I)
  | Some b => b
  end.

(** ** What is running *)

Definition isRunningState (s : MemberState) : bool := match s with creating | midle | mbusy => true | msuspended | merror => false end.
Definition isIdleState (s : MemberState) : bool := match s with midle => true | _ => false end.

(** The [UNION] of both representations, each pair once. *)
Definition runningPairs (I : Instance_) : list (string * string) :=
  remove_dups (
    omap (fun p => if pr_running p then (fun c => (pr_id p, c)) <$> pr_container p else None) (projects I)
    ++ List.map (fun m => (mr_project m, mr_container m)) (List.filter (fun m => isRunningState (mr_state m)) (members I))).

(** The [LEFT JOIN] of the recorded allocation. *)
Definition allocations (I : Instance_) (containerId : string) : list (option Z) :=
  match List.filter (fun m => String.eqb (mr_container m) containerId) (members I) with
  | [] => [None]
  | ms => List.map mr_memory ms
  end.

Definition runningRows (I : Instance_) : list (string * option Z) :=
  flat_map (fun pc => List.map (fun a => (fst pc, a)) (allocations I (snd pc))) (runningPairs I).

Definition spareProjects (I : Instance_) : list string :=
  List.map mr_project (List.filter (fun m => isIdleState (mr_state m) && (disk_used m <? disk_ceiling m)) (members I))
  ++ List.map pr_id (List.filter (fun p => pr_running p
        && negb (existsb (fun m => String.eqb (mr_project m) (pr_id p)) (members I))) (projects I)).

Definition reclaimableRow (now : Z) (m : MemberRow) : bool :=
  isIdleState (mr_state m)
  && match last_released m with Some r => r <=? now - CONTAINER_RECLAIM_MIN_IDLE_SEC * US_PER_SEC | None => false end
  && (created m <=? now - CONTAINER_RECLAIM_MIN_AGE_SEC * US_PER_SEC).

Record ActiveContainers := mkActive {
  budgetGb : Z; totalBudgetGb : Z; usedMemoryGb : Z; projectsWithSpareContainer : list string;
  reclaimableMemoryGbByProject : gmap string Z; hoursExhausted : bool
}.

Definition hoursQuotaExhausted (I : Instance_) (now jsNow : Z) : option bool :=
  if monthlyContainerHours I <=? 0 then Some false
  else s ← currentWindowContainerSeconds now jsNow (anchorDay I) (countedSince I) (ledger I);
       Some (monthlyContainerHours I * 3600 <=? s).

Definition addReclaimable (I : Instance_) (m : gmap string Z) (row : MemberRow) : gmap string Z :=
  <[mr_project row := default 0 (m !! mr_project row) + rowMemory I (mr_project row) (mr_memory row)]> m.

(** [None] when a query fails. *)
Definition getActiveContainers (I : Instance_) (now jsNow : Z) : option ActiveContainers :=
  exhausted ← hoursQuotaExhausted I now jsNow;
  Some (mkActive
    (taskContainerMemoryBudgetGb (configuredBudget I) (defaultCap I))
    (configuredBudget I)
    (fold_left (fun used row => used + rowMemory I (fst row) (snd row)) (runningRows I) 0)
    (spareProjects I)
    (fold_left (addReclaimable I) (List.filter (reclaimableRow now) (members I)) ∅)
    exhausted).

Definition reclaimableForOthers (active : ActiveContainers) (projectId : option string) : Z :=
  fold_left (fun total e => if bool_decide (Some (fst e) = projectId) then total else total + snd e)
    (map_to_list (reclaimableMemoryGbByProject active)) 0.

Record Verdict := mkVerdict { v_blocked : bool; v_hoursExhausted : bool }.

Definition containerCapacityVerdictInDb (I : Instance_) (now jsNow : Z) (projectId : string) : option Verdict :=
  active ← getActiveContainers I now jsNow;
  if bool_decide (projectId ∈ projectsWithSpareContainer active) then Some (mkVerdict false false)
  else if hoursExhausted active then Some (mkVerdict true true)
  else
    let headroomGb := budgetGb active + reclaimableForOthers active (Some projectId) in
    Some (mkVerdict (headroomGb <? usedMemoryGb active + projectContainerMemoryGb I projectId) false).

Definition isContainerCapacityBlockedInDb (I : Instance_) (now jsNow : Z) (projectId : string) : option bool :=
  v ← containerCapacityVerdictInDb I now jsNow projectId; Some (v_blocked v).

(** ** Runs of a project *)

Definition runInProjectSql (I : Instance_) (projectId : string) (r : RunRow) : bool :=
  match run_task r with
  | Some t => existsb (fun tp => String.eqb (fst tp) t && String.eqb (snd tp) projectId) (taskProject I)
  | None => existsb (fun p => String.eqb (pr_id p) projectId && String.eqb (pr_team p) (run_team r)) (projects I)
  end.

Definition countActiveRunsInProject (I : Instance_) (projectId : string) : Z :=
  countZ (fun r => runInProjectSql I projectId r && run_active r) (runs I).

Definition getBusyAgentIdsInProject (I : Instance_) (projectId : string) : list string :=
  remove_dups (List.map run_member (List.filter (fun r => runInProjectSql I projectId r && run_active r) (runs I))).

(** ** The reclaim that has to keep the gate's promise *)

Definition resumableCount (I : Instance_) (projectId : string) : Z :=
  countZ (fun s => String.eqb (mr_project s) projectId
                   && match mr_state s with midle | mbusy | msuspended => true | creating | merror => false end) (members I).

Definition candidateRow (I : Instance_) (requesting : string) (m : MemberRow) : bool :=
  isIdleState (mr_state m) && negb (String.eqb (mr_project m) requesting)
  && existsb (fun p => String.eqb (pr_id p) (mr_project m)) (projects I).

(** [Number(null)] is 0: a member never released has not been idle. Times in microseconds. *)
Definition toCandidate (I : Instance_) (now : Z) (m : MemberRow) : ReclaimCandidate :=
  mkReclaimCandidate (mr_container m) (mr_project m) (rowMemory I (mr_project m) (mr_memory m))
    (match last_released m with Some r => now - r | None => 0 end) (Some (now - created m))
    (resumableCount I (mr_project m)) (mr_unpushed m).

Definition byRelease (a b : MemberRow) : Z :=
  match last_released a, last_released b with
  | Some x, Some y => x - y
  | Some _, None => -1
  | None, Some _ => 1
  | None, None => 0
  end.

Definition reclaimCandidates (I : Instance_) (now : Z) (requesting : string) : list ReclaimCandidate :=
  List.map (toCandidate I now) (js_sort byRelease (List.filter (candidateRow I requesting) (members I))).

Definition planReclaimFor (lc : string -> string -> Z) (I : Instance_) (now : Z) (requesting : string) (need : Z) : ReclaimPlan :=
  planCrossProjectReclaim lc (reclaimCandidates I now requesting) need
    (CONTAINER_RECLAIM_MIN_IDLE_SEC * US_PER_SEC) (CONTAINER_RECLAIM_MIN_AGE_SEC * US_PER_SEC).

(** ** Reclaimable memory *)

Lemma bool_decide_string (a b : string) : bool_decide (a = b) = String.eqb a b.
Proof. destruct (bool_decide_reflect (a = b)), (String.eqb_spec a b); done. Qed.

(** What the map holds for projects other than [p]. *)
Definition heldByOthers (p : string) (m : gmap string Z) : Z :=
  sumZ (fun e => if bool_decide (fst e = p) then 0 else snd e) (map_to_list m).

Lemma reclaimableForOthers_sum active p :
  reclaimableForOthers active (Some p) = heldByOthers p (reclaimableMemoryGbByProject active).
Proof.
  unfold reclaimableForOthers, heldByOthers. set (l := map_to_list _). clearbody l.
  enough (forall z, fold_left (fun total e => if bool_decide (Some (fst e) = Some p) then total else total + snd e) l z
    = z + sumZ (fun e => if bool_decide (fst e = p) then 0 else snd e) l) as H by apply H.
  induction l as [|[k v] l IH]; intros z; [rewrite sumZ_nil; cbn; lia|]. cbn [fold_left]. rewrite IH, sumZ_cons. cbn [fst snd].
  destruct (bool_decide_reflect (Some k = Some p)), (bool_decide_reflect (k = p)); try congruence; lia.
Qed.

Lemma heldByOthers_insert p k v m : m !! k = None ->
  heldByOthers p (<[k := v]> m) = (if bool_decide (k = p) then 0 else v) + heldByOthers p m.
Proof.
  intros Hk. unfold heldByOthers. rewrite (sumZ_perm _ _ _ (map_to_list_insert m k v Hk)). by rewrite sumZ_cons.
Qed.

Lemma heldByOthers_add I p m row : heldByOthers p (addReclaimable I m row)
  = (if bool_decide (mr_project row = p) then 0 else rowMemory I (mr_project row) (mr_memory row)) + heldByOthers p m.
Proof.
  unfold addReclaimable. set (k := mr_project row). set (v := rowMemory _ _ _). destruct (m !! k) as [x|] eqn:E; cbn [default].
  - assert (heldByOthers p m = (if bool_decide (k = p) then 0 else x) + heldByOthers p (delete k m)) as Hm.
    { rewrite <- (heldByOthers_insert p k x (delete k m)) by apply lookup_delete_eq. by rewrite insert_delete_id. }
    assert (forall y, heldByOthers p (<[k := y]> m) = (if bool_decide (k = p) then 0 else y) + heldByOthers p (delete k m)) as Hy.
    { intros y. rewrite <- (heldByOthers_insert p k y (delete k m)) by apply lookup_delete_eq. by rewrite insert_delete_eq. }
    rewrite Hy, Hm. destruct (bool_decide (k = p)); cbn; lia.
  - rewrite heldByOthers_insert by done. done.
Qed.

Lemma heldByOthers_rows I p rows m :
  heldByOthers p (fold_left (addReclaimable I) rows m)
  = sumZ (fun r => if bool_decide (mr_project r = p) then 0 else rowMemory I (mr_project r) (mr_memory r)) rows + heldByOthers p m.
Proof.
  revert m. induction rows as [|r rows IH]; intros m; [done|]. cbn [fold_left]. rewrite IH, heldByOthers_add, sumZ_cons. lia.
Qed.

(** The planner's eligible candidates are the rows the gate counted, for the other projects. *)
Lemma eligible_is_reclaimable I now p m : (exists pr, In pr (projects I) /\ pr_id pr = mr_project m) ->
  candidateRow I p m && eligible (CONTAINER_RECLAIM_MIN_IDLE_SEC * US_PER_SEC) (CONTAINER_RECLAIM_MIN_AGE_SEC * US_PER_SEC)
    (toCandidate I now m)
  = reclaimableRow now m && negb (bool_decide (mr_project m = p)).
Proof.
  intros (pr & Hin & Hid). unfold candidateRow, reclaimableRow, eligible, toCandidate. cbn [idleForMs ageMs].
  assert (existsb (fun p0 => String.eqb (pr_id p0) (mr_project m)) (projects I) = true) as ->.
  { apply existsb_exists. exists pr. split; [done|]. rewrite Hid. apply String.eqb_refl. }
  rewrite bool_decide_string. unfold CONTAINER_RECLAIM_MIN_IDLE_SEC, CONTAINER_RECLAIM_MIN_AGE_SEC, US_PER_SEC.
  replace (300 * 1000000 <=? now - created m) with (created m <=? now - 300 * 1000000)
    by (destruct (Z.leb_spec (created m) (now - 300 * 1000000)), (Z.leb_spec (300 * 1000000) (now - created m)); lia).
  destruct (isIdleState (mr_state m)), (String.eqb (mr_project m) p), (last_released m) as [r|]; cbn [negb andb];
    rewrite ?andb_false_r, ?andb_true_r; try done.
  f_equal. destruct (Z.leb_spec (30 * 1000000) (now - r)), (Z.leb_spec r (now - 30 * 1000000)); lia.
Qed.

Lemma candidates_cover I now p : (forall m, In m (members I) -> exists pr, In pr (projects I) /\ pr_id pr = mr_project m) ->
  sumZ memoryGb (List.filter (eligible (CONTAINER_RECLAIM_MIN_IDLE_SEC * US_PER_SEC) (CONTAINER_RECLAIM_MIN_AGE_SEC * US_PER_SEC))
                   (reclaimCandidates I now p))
  = heldByOthers p (fold_left (addReclaimable I) (List.filter (reclaimableRow now) (members I)) ∅).
Proof.
  intros Hfk. rewrite heldByOthers_rows. change (heldByOthers p ∅) with 0. rewrite Z.add_0_r.
  unfold reclaimCandidates. rewrite filter_map, sumZ_map. cbn [memoryGb toCandidate].
  set (q := fun x => eligible _ _ (toCandidate I now x)).
  assert (Permutation (List.filter q (js_sort byRelease (List.filter (candidateRow I p) (members I))))
            (List.filter q (List.filter (candidateRow I p) (members I)))) as Hp.
  { apply Permutation_filter_bool. symmetry. apply js_sort_perm. }
  rewrite (sumZ_perm _ _ _ Hp). clear Hp. induction (members I) as [|m ms IH]; [done|].
  assert (forall m0, In m0 ms -> exists pr, In pr (projects I) /\ pr_id pr = mr_project m0) as Hfk'
    by (intros; apply Hfk; by right). specialize (IH Hfk').
  pose proof (eligible_is_reclaimable I now p m (Hfk m (or_introl eq_refl))) as E. fold (q m) in E. cbn [List.filter].
  destruct (candidateRow I p m); cbn [List.filter andb] in *; [destruct (q m)|];
    destruct (reclaimableRow now m); cbn in E; rewrite ?sumZ_cons, IH;
    destruct (bool_decide (mr_project m = p)); try discriminate E; cbn; lia.
Qed.

Lemma candidates_nonneg I now p q : (forall m, In m (members I) -> 0 <= rowMemory I (mr_project m) (mr_memory m)) ->
  0 <= sumZ memoryGb (List.filter q (reclaimCandidates I now p)).
Proof.
  intros Hnn. apply sumZ_nonneg. intros c [Hc _]%filter_In. apply in_map_iff in Hc as (m & <- & Hm). apply Hnn.
  by apply js_sort_In, filter_In in Hm as [? _].
Qed.

(** C35. The gate promises exactly what the reclaim can deliver. For a project without a
    container free to take its run, an admission means the run fits under the task ceiling
    with the chat lane still whole, or that the planner, given the same instance, retires
    enough of the other projects' idle containers to cover the shortfall; a refusal on memory
    means the shortfall is real and the planner would retire nothing; a refusal on hours means
    the allowance is set and spent. *)
Theorem gate_matches_reclaim lc I now jsNow p v :
  (forall m, In m (members I) -> exists pr, In pr (projects I) /\ pr_id pr = mr_project m) ->
  (forall m, In m (members I) -> 0 <= rowMemory I (mr_project m) (mr_memory m)) ->
  p ∉ spareProjects I -> containerCapacityVerdictInDb I now jsNow p = Some v ->
  exists active, getActiveContainers I now jsNow = Some active /\
  let need := usedMemoryGb active + projectContainerMemoryGb I p - budgetGb active in
  let plan := planReclaimFor lc I now p need in
  if v_blocked v then
    if v_hoursExhausted v
    then 0 < monthlyContainerHours I /\ hoursQuotaExhausted I now jsNow = Some true
    else 0 < need /\ plan = emptyReclaimPlan
  else (need <= 0 /\ usedMemoryGb active + projectContainerMemoryGb I p + chatContainerReservationGb (defaultCap I)
                     <= totalBudgetGb active)
       \/ (0 < need /\ need <= freedGb plan).
Proof.
  intros Hfk Hnn Hsp Hv. unfold containerCapacityVerdictInDb in Hv. apply bind_Some in Hv as (active & Ha & Hv).
  exists active. split; [done|]. cbn zeta. unfold getActiveContainers in Ha. apply bind_Some in Ha as (ex & Hex & [= <-]).
  cbn [projectsWithSpareContainer hoursExhausted] in Hv. rewrite bool_decide_false in Hv by done. destruct ex.
  - injection Hv as <-. cbn. split; [|done]. unfold hoursQuotaExhausted in Hex.
    destruct (Z.leb_spec (monthlyContainerHours I) 0); [done|lia].
  - rewrite reclaimableForOthers_sum in Hv. cbn [usedMemoryGb budgetGb totalBudgetGb reclaimableMemoryGbByProject] in *.
    set (used := fold_left _ (runningRows I) 0) in *. set (req := projectContainerMemoryGb I p) in *.
    set (budget := taskContainerMemoryBudgetGb (configuredBudget I) (defaultCap I)) in *.
    rewrite <- (candidates_cover I now p Hfk) in Hv. injection Hv as <-. cbn [v_blocked v_hoursExhausted].
    pose proof (reclaim_plan_shape lc (reclaimCandidates I now p) (used + req - budget)
      (CONTAINER_RECLAIM_MIN_IDLE_SEC * US_PER_SEC) (CONTAINER_RECLAIM_MIN_AGE_SEC * US_PER_SEC)) as Hplan. cbn zeta in Hplan.
    fold (planReclaimFor lc I now p (used + req - budget)) in Hplan.
    set (elig := List.filter _ (reclaimCandidates I now p)) in *.
    assert (budget + chatContainerReservationGb (defaultCap I) = configuredBudget I) as Hlane
      by (subst budget; unfold taskContainerMemoryBudgetGb; lia).
    assert (0 <= sumZ memoryGb elig) as Hpos by (by apply candidates_nonneg).
    destruct (Z.leb_spec (used + req - budget) 0), (Z.ltb_spec (sumZ memoryGb elig) (used + req - budget)),
      (Z.ltb_spec (budget + sumZ memoryGb elig) (used + req)); cbn [orb] in Hplan; try lia.
    + by split.
    + right. destruct Hplan as (taken & rest & _ & _ & _ & Hn & _). split; [lia|done].
Qed.

(** A 12 GB budget with 4 GB containers: one project holds two, one of them idle. *)
Definition demo_instance : Instance_ :=
  mkInstance [mkProjectRow "p" "t1" None false None; mkProjectRow "q" "t2" None false None]
    [mkMemberRow "p" "c1" mbusy (Some (4 * GIB)) 0 10 None 0 false None None None 0 None None;
     mkMemberRow "p" "c2" midle (Some (4 * GIB)) 0 10 (Some 0) 0 false None None None 0 None None]
    [] [] (12 * GIB) (4 * GIB) false [] 0 None None.

Lemma gate_matches_reclaim_witness :
  containerCapacityVerdictInDb demo_instance 600000000 600000 "q" = Some (mkVerdict false false) /\
  exists active, getActiveContainers demo_instance 600000000 600000 = Some active /\
  ((usedMemoryGb active + projectContainerMemoryGb demo_instance "q" - budgetGb active <= 0 /\
    usedMemoryGb active + projectContainerMemoryGb demo_instance "q" + chatContainerReservationGb (defaultCap demo_instance)
      <= totalBudgetGb active) \/
   (0 < usedMemoryGb active + projectContainerMemoryGb demo_instance "q" - budgetGb active /\
    usedMemoryGb active + projectContainerMemoryGb demo_instance "q" - budgetGb active
      <= freedGb (planReclaimFor (fun _ _ => 0) demo_instance 600000000 "q"
           (usedMemoryGb active + projectContainerMemoryGb demo_instance "q" - budgetGb active)))).
Proof.
  split; [vm_compute; reflexivity|].
  apply (gate_matches_reclaim (fun _ _ => 0) demo_instance 600000000 600000 "q" (mkVerdict false false)).
  - intros m [<-|[<-|[]]]; exists (mkProjectRow "p" "t1" None false None); split; [by left|done|by left|done].
  - intros m [<-|[<-|[]]]; vm_compute; discriminate.
  - apply (bool_decide_eq_false ("q" ∈ spareProjects demo_instance)). vm_compute. reflexivity.
  - vm_compute. reflexivity.
Defined.
