(* ===== verification/PoolLifecycle.v ===== *)
(** * The life of a project's containers

    A model of the container lifecycle of [packages/server/src/services/containers.ts]: the
    acquire of a container for a run, provisioning, retirement and its background half, the
    status sync, the liveness reconcile and the settling of open intervals, over the table and
    ledger of [PoolTable.v], the ladder of [Pool.v] and the figures of [Admission.v].

    The engine is input: an operation is given the answers of the engine calls it makes. What
    an operation does between two waits for other code is one step; an engine call that
    finishes in the background is a step of its own. Log lines, streams, broadcasts and the
    ends of runs are left out. *)
From Stdlib Require Import ZArith Lia Ascii String List Bool Permutation.
From stdpp Require Import base list strings gmap option.
From S2P Require Import Prelude JsString JsNumber Sql Pool UptimeLedger ContainerHours PoolTable Admission.

Open Scope string_scope.
Open Scope list_scope.
Open Scope Z_scope.

(** ** State *)

(** The columns of [projects] the lifecycle reads and writes. *)
Record ProjectW := mkProjectW {
  wp_container : ProjectContainer; wp_team : string; wp_memoryLimit : option Z; wp_diskGb : Z; wp_archived : bool
}.
Definition wp_id (p : ProjectW) : string := pc_id (wp_container p).

Inductive LifecycleCall :=
| RemovalCall
| StopCall (projectId : string) (endReason : option EndReason).

(** [lifecycleCallsInFlight] names the newest call of a container; an older one may still run. *)
Record World := mkWorld {
  w_pool : PoolDb; w_projects : list ProjectW; w_holds : list string;
  w_pending : list (nat * string * LifecycleCall); w_inFlight : gmap string nat; w_nextCall : nat
}.

Definition setPool (db : PoolDb) (w : World) : World :=
  mkWorld db (w_projects w) (w_holds w) (w_pending w) (w_inFlight w) (w_nextCall w).
Definition setProjects (ps : list ProjectW) (w : World) : World :=
  mkWorld (w_pool w) ps (w_holds w) (w_pending w) (w_inFlight w) (w_nextCall w).
Definition onPool (f : PoolDb -> PoolDb) (w : World) : World := setPool (f (w_pool w)) w.

(** [UPDATE projects SET ... WHERE id = $1 AND p]. *)
Definition updateProject (id : string) (p : ProjectContainer -> bool) (f : ProjectContainer -> ProjectContainer) (w : World) : World :=
  setProjects (List.map (fun q => if String.eqb (wp_id q) id && p (wp_container q)
    then mkProjectW (f (wp_container q)) (wp_team q) (wp_memoryLimit q) (wp_diskGb q) (wp_archived q) else q) (w_projects w)) w.

Definition anyProject (p : ProjectContainer) : bool := true.
Definition names (id : string) (p : ProjectContainer) : bool := bool_decide (pc_container p = Some id).

Definition withStatus (s : option ContainerStatus) (p : ProjectContainer) : ProjectContainer :=
  mkProjectContainer (pc_id p) (pc_name p) (pc_slug p) (pc_container p) s (pc_error p) (pc_logs p).
Definition withContainer (c : option string) (p : ProjectContainer) : ProjectContainer :=
  mkProjectContainer (pc_id p) (pc_name p) (pc_slug p) c (pc_status p) (pc_error p) (pc_logs p).
Definition withError (e : option string) (p : ProjectContainer) : ProjectContainer :=
  mkProjectContainer (pc_id p) (pc_name p) (pc_slug p) (pc_container p) (pc_status p) e (pc_logs p).
Definition withLogs (l : option string) (p : ProjectContainer) : ProjectContainer :=
  mkProjectContainer (pc_id p) (pc_name p) (pc_slug p) (pc_container p) (pc_status p) (pc_error p) (coalesce l (pc_logs p)).

Definition project (id : string) (w : World) : option ProjectW := List.find (fun p => String.eqb (wp_id p) id) (w_projects w).

(** [clearProjectContainerIfNamed]. *)
Definition clearNamed (projectId id : string) (w : World) : World :=
  updateProject projectId (names id) (fun p => mkProjectContainer (pc_id p) (pc_name p) (pc_slug p) None None None None) w.

(** ** Engine calls in flight *)

Definition trackLifecycleCall (id : string) (call : LifecycleCall) (w : World) : World :=
  mkWorld (w_pool w) (w_projects w) (w_holds w) (w_pending w ++ [(w_nextCall w, id, call)])
    (<[id := w_nextCall w]> (w_inFlight w)) (S (w_nextCall w)).

(** The call has settled: its entry goes unless a newer call took the key. *)
Definition settleCall (n : nat) (id : string) (w : World) : World :=
  mkWorld (w_pool w) (w_projects w) (w_holds w) (List.filter (fun c => negb (Nat.eqb (fst (fst c)) n)) (w_pending w))
    (if bool_decide (w_inFlight w !! id = Some n) then delete id (w_inFlight w) else w_inFlight w) (w_nextCall w).

Definition callInFlight (id : string) (w : World) : bool := bool_decide (is_Some (w_inFlight w !! id)).

(** ** Answers of the engine *)

Record ContainerInfo := mkInfo { in_running : bool; in_transitioning : bool; in_exitCode : Z; in_status : string; in_memory : option Z }.

(** A call that failed says nothing; [NotFound] is a definite answer. *)
Inductive InspectAnswer := Unanswered | NotFound | Found (info : ContainerInfo).

Inductive LifecycleError :=
| ProjectArchived
| ProjectNotFound
| PoolCapacity
| PoolHoursExhausted
| EngineFailed
| QueryFailed.

Section Lifecycle.
(** The clock, the configured backend, the agent image of this build. *)
Variables (now : Z) (backend currentImage : string).

(** ** Provisioning *)

(** The engine's part of a provision: the name chosen, a failure of the steps before the
    create, the answer of the create, a failure of the start, and a failure of the setup
    after the project row names the container. *)
Record ProvisionRun := mkProvisionRun {
  pv_name : string; pv_prepare : option string; pv_created : result string string;
  pv_start : option string; pv_setup : option string
}.

Definition provisionBegun (projectId : string) (w : World) : World :=
  updateProject projectId anyProject (withStatus (Some StatusCreating)) w.

Definition provisionRequested (projectId name : string) (memory diskGb : Z) (w : World) : World :=
  onPool (openCreateRequestUptime backend name projectId memory diskGb now) w.

Definition allocationOf (memory diskGb : Z) : Allocation := mkAllocation (Some diskGb) (Some memory) (Some currentImage).

Definition provisionCreated (projectId name id : string) (memory diskGb : Z) (w : World) : World :=
  onPool (fun db => upsertPoolMember now backend projectId id creating (allocationOf memory diskGb) None
                      (adoptCreateRequestUptime name id db)) w.

Definition provisionStarted (projectId id : string) (w : World) : World :=
  updateProject projectId anyProject (fun p => withError None (withStatus (Some StatusRunning) (withContainer (Some id) p))) w.

Definition provisionReady (projectId id : string) (memory diskGb : Z) (w : World) : World :=
  onPool (upsertPoolMember now backend projectId id midle (allocationOf memory diskGb) None) w.

Definition provisionFailed (projectId : string) (created : option string) (message : string) (w : World) : World :=
  let w := match created with
           | Some id => onPool (fun db => setPoolMemberOutcome now id None (Some message) (setPoolMemberState now backend id merror None None db)) w
           | None => w
           end in
  updateProject projectId anyProject (fun p => withError (Some message) (withStatus (Some StatusError) p)) w.

Definition provisionContainer (projectId : string) (memory diskGb : Z) (o : ProvisionRun) (w : World) : World * result LifecycleError string :=
  let w := provisionBegun projectId w in
  match pv_prepare o with
  | Some message => (provisionFailed projectId None message w, Throw EngineFailed)
  | None =>
      let w := provisionRequested projectId (pv_name o) memory diskGb w in
      match pv_created o with
      | Throw message => (provisionFailed projectId None message w, Throw EngineFailed)
      | Ok id =>
          let w := provisionCreated projectId (pv_name o) id memory diskGb w in
          match pv_start o with
          | Some message => (provisionFailed projectId (Some id) message w, Throw EngineFailed)
          | None =>
              let w := provisionStarted projectId id w in
              match pv_setup o with
              | Some message => (provisionFailed projectId (Some id) message w, Throw EngineFailed)
              | None => (provisionReady projectId id memory diskGb w, Ok id)
              end
          end
      end
  end.

(** [settleFailedCreate]: the lookup by name and the removal of what it found. *)
Inductive LookupAnswer := LookupFailed | LookupNone | LookupFound (id : string).
Definition settleFailedCreate (name : string) (found : LookupAnswer) (removed : bool) (w : World) : World :=
  match found with
  | LookupFailed => w
  | LookupNone => onPool (settleCreateRequestUptime name None) w
  | LookupFound id =>
      let w := onPool (settleCreateRequestUptime name (Some id)) w in
      if removed then onPool (closeContainerUptime now id Destroyed) w else w
  end.

(** ** Retirement *)

Definition retireOne (projectId : string) (st : World * Z) (id : string) : World * Z :=
  let '(w, retired) := st in
  if bool_decide (id ∈ w_holds w) then st
  else (trackLifecycleCall id RemovalCall (clearNamed projectId id (onPool (forgetPoolMember id) w)), retired + 1).

Definition suspendOne (projectId : string) (endReason : option EndReason) (st : World * Z) (id : string) : World * Z :=
  let '(w, retired) := st in
  if bool_decide (id ∈ w_holds w) then st
  else
    let '(db, take) := beginPoolMemberStop now id (w_pool w) in
    if take then (trackLifecycleCall id (StopCall projectId endReason) (setPool db w), retired + 1) else (setPool db w, retired).

Definition executeRetirementPlan (projectId : string) (suspends destroys : list string) (endReason : option EndReason) (w : World)
    : World * Z :=
  fold_left (suspendOne projectId endReason) suspends (fold_left (retireOne projectId) destroys (w, 0)).

(** The background halves, with whether the engine confirmed. *)
Definition finishRemoval (id : string) (confirmed : bool) (w : World) : World :=
  if confirmed then onPool (closeContainerUptime now id Destroyed) w else w.

Definition stopContainerGracefully (projectId id : string) (endReason : option EndReason) (logs : option string)
    (failure : option string) (w : World) : World :=
  match failure with
  | None =>
      onPool (fun db => setPoolMemberState now backend id msuspended endReason None (setPoolMemberOutcome now id logs None db))
        (updateProject projectId (names id) (fun p => withError None (withLogs logs (withStatus (Some StatusStopped) p))) w)
  | Some message =>
      onPool (setPoolMemberOutcome now id logs (Some message))
        (updateProject projectId (names id) (fun p => withError (Some message) (withLogs logs (withStatus (Some StatusError) p))) w)
  end.

(** [removeFromEngine] and [dropRemovedMember], for an operator's Remove and a teardown. *)
Definition dropRemovedMember (id : string) (confirmed : bool) (w : World) : World :=
  onPool (if confirmed then removePoolMember now id else forgetPoolMember id) w.

Definition destroyContainer (projectId id : string) (logs : option string) (confirmed : bool) (w : World) : World :=
  clearNamed projectId id (dropRemovedMember id confirmed (onPool (setPoolMemberOutcome now id logs None) w)).

Definition teardownContainer (projectId : string) (confirmed : string -> bool) (w : World) : World :=
  let poolIds := listPoolContainerIds projectId (pd_members (w_pool w)) in
  let named := project projectId w ≫= (fun p => pc_container (wp_container p)) in
  let toRemove := remove_dups (poolIds ++ match named with Some c => if String.eqb c "" then [] else [c] | None => [] end) in
  updateProject projectId anyProject (fun p => withStatus None (withContainer None p))
    (fold_left (fun w id => dropRemovedMember id (confirmed id) w) toRemove w).

(** ** Acquiring a container for a run *)

Inductive Workload := TaskRun | ChatTurn.

(** The settings and other tables come with [I]; the pool, its ledger and the projects are the world's. *)
Definition toProjectRow (p : ProjectW) : ProjectRow :=
  mkProjectRow (wp_id p) (wp_team p) (pc_container (wp_container p)) (bool_decide (pc_status (wp_container p) = Some StatusRunning))
    (wp_memoryLimit p).
Definition instanceOf (I : Instance_) (w : World) : Instance_ :=
  mkInstance (List.map toProjectRow (w_projects w)) (pd_members (w_pool w)) (runs I) (taskProject I) (configuredBudget I)
    (defaultCap I) (capPinned I) (pd_ledger (w_pool w)) (monthlyContainerHours I) (anchorDay I) (countedSince I).

Definition assertProjectNotArchived (projectId : string) (w : World) : bool :=
  match project projectId w with Some p => wp_archived p | None => false end.

Definition adoptUnpooledContainer (projectId : string) (inspect : string -> InspectAnswer) (w : World) : World :=
  match project projectId w ≫= (fun p => pc_container (wp_container p)) with
  | Some c =>
      if matchesMember c anyMember (pd_members (w_pool w)) || String.eqb c "" then w
      else match inspect c with
           | Found info => onPool (upsertPoolMember now backend projectId c (if in_running info then midle else msuspended) noAllocation None) w
           | NotFound | Unanswered => w
           end
  | None => w
  end.

Definition markProjectContainerStarted (projectId id : string) (w : World) : World :=
  updateProject projectId anyProject (fun p => withError None (withStatus (Some StatusRunning) (withContainer (Some id) p))) w.

(** What an attempt meets: the answers of the engine, the JavaScript clock, and what other code
    does while a resume waits for a stop in flight. *)
Record AttemptRun := mkAttemptRun {
  at_inspect : string -> InspectAnswer; at_start : string -> bool; at_provision : ProvisionRun; at_jsNow : Z; at_wait : World -> World
}.

Inductive AcquireStep := AcquiredStep (id : string) | RetryStep | ReclaimStep (needGb : Z) | FailedStep (e : LifecycleError).

Definition claimFor (id : string) (taskId : option string) (w : World) : World * AcquireStep :=
  let '(db, claimed) := claimPoolMember now backend id taskId (w_pool w) in
  (setPool db w, if claimed then AcquiredStep id else RetryStep).

Definition opensUptime (d : PoolDecision) : bool := match d with create | resume _ | reclaim _ => true | _ => false end.

(** The rungs that act, on the decision and the project's cap. *)
Definition carryOut (projectId : string) (taskId : option string) (o : AttemptRun) (memory : Z) (d : PoolDecision) (w : World)
    : World * AcquireStep :=
  match d with
  | queue => (w, FailedStep PoolCapacity)
  | reclaim needGb => (w, ReclaimStep needGb)
  | recycle stale =>
      match project projectId w with
      | None => (w, FailedStep ProjectNotFound)
      | Some _ => (fst (executeRetirementPlan projectId [] (List.map member_id stale) None w), RetryStep)
      end
  | create =>
      match project projectId w with
      | None => (w, FailedStep ProjectNotFound)
      | Some p =>
          match provisionContainer projectId memory (wp_diskGb p) (at_provision o) w with
          | (w, Ok id) => claimFor id taskId w
          | (w, Throw e) => (w, FailedStep e)
          end
      end
  | reuse member =>
      match at_inspect o (member_id member) with
      | Unanswered => (w, FailedStep EngineFailed)
      | NotFound => (onPool (removePoolMember now (member_id member)) w, RetryStep)
      | Found info =>
          if in_running info then claimFor (member_id member) taskId w
          else (onPool (setPoolMemberState now backend (member_id member) msuspended None None) w, RetryStep)
      end
  | resume member =>
      let w := at_wait o w in
      if at_start o (member_id member) then
        claimFor (member_id member) taskId
          (markProjectContainerStarted projectId (member_id member)
             (onPool (setPoolMemberState now backend (member_id member) midle None (Some now)) w))
      else match at_inspect o (member_id member) with
           | NotFound => (onPool (removePoolMember now (member_id member)) w, RetryStep)
           | Unanswered | Found _ => (w, FailedStep EngineFailed)
           end
  end.

Definition attemptAcquire (I : Instance_) (projectId : string) (taskId : option string) (workload : Workload) (bootstrapped : bool)
    (o : AttemptRun) (w : World) : World * AcquireStep :=
  let w := if bootstrapped then w else adoptUnpooledContainer projectId (at_inspect o) w in
  let I := instanceOf I w in
  match getActiveContainers I now (at_jsNow o) with
  | None => (w, FailedStep QueryFailed)
  | Some active =>
      let request := projectContainerMemoryGb I projectId in
      let capacity := mkPoolCapacity (Admission.usedMemoryGb active)
        (match workload with TaskRun => Admission.budgetGb active | ChatTurn => totalBudgetGb active end)
        request (reclaimableForOthers active (Some projectId)) in
      let decision := decidePoolAcquisition currentImage projectId taskId capacity request (pd_members (w_pool w)) in
      match decision with
      | queue => (w, FailedStep PoolCapacity)
      | _ => if hoursExhausted active && opensUptime decision then (w, FailedStep PoolHoursExhausted)
             else carryOut projectId taskId o request decision w
      end
  end.

(** ** Taking idle containers of other projects *)
Section Reclaim.
(** [String.prototype.localeCompare]. *)
Variable localeCompare : string -> string -> Z.

Definition victimIds (victim : string) (l : list ReclaimCandidate) : list string :=
  List.map containerId (List.filter (fun c => String.eqb (projectId c) victim) l).

(** One victim, under its lifecycle lock. [between]: what ran before the lock was granted. *)
Definition reclaimFrom (between : string -> World -> World) (plan : ReclaimPlan) (st : World * bool) (victim : string) : World * bool :=
  let '(w, reclaimedAny) := st in
  let w := between victim w in
  let stillIdle id := existsb (fun m => hasContainer id m && inState midle m && String.eqb (mr_project m) victim) (pd_members (w_pool w)) in
  let suspends := List.filter stillIdle (victimIds victim (rp_suspend plan)) in
  let destroys := List.filter stillIdle (victimIds victim (rp_destroy plan)) in
  match suspends ++ destroys with
  | [] => (w, reclaimedAny)
  | _ => let '(w, retired) := executeRetirementPlan victim suspends destroys (Some SuspendedForOther) w in
         (w, reclaimedAny || (0 <? retired))
  end.

Definition reclaimIdleCapacityForProject (I : Instance_) (between : string -> World -> World) (requesting : string) (needGb : Z) (w : World)
    : World * bool :=
  let plan := planReclaimFor localeCompare (instanceOf I w) now requesting needGb in
  if freedGb plan =? 0 then (w, false)
  else fold_left (reclaimFrom between plan) (js_set (List.map projectId (rp_suspend plan ++ rp_destroy plan))) (w, false).

(** ** The acquire loop *)

Definition MAX_ACQUIRE_ATTEMPTS : nat := 8.

(** What one round of the loop meets: the attempt, what other code did before it, and what ran
    before each victim's lock. *)
Record Round := mkRound { rd_attempt : AttemptRun; rd_before : World -> World; rd_between : string -> World -> World }.

Fixpoint acquireLoop (I : Instance_) (projectId : string) (taskId : option string) (workload : Workload) (bootstrapped : bool)
    (rounds : list Round) (w : World) : World * result LifecycleError string :=
  match rounds with
  | [] => (w, Throw PoolCapacity)
  | r :: rounds =>
      match attemptAcquire I projectId taskId workload bootstrapped (rd_attempt r) (rd_before r w) with
      | (w, AcquiredStep id) => (w, Ok id)
      | (w, RetryStep) => acquireLoop I projectId taskId workload true rounds w
      | (w, FailedStep e) => (w, Throw e)
      | (w, ReclaimStep needGb) =>
          match project projectId w with
          | None => (w, Throw ProjectNotFound)
          | Some _ =>
              let '(w, reclaimed) := reclaimIdleCapacityForProject I (rd_between r) projectId needGb w in
              if reclaimed then acquireLoop I projectId taskId workload true rounds w else (w, Throw PoolCapacity)
          end
      end
  end.

Definition acquireRunContainer (I : Instance_) (projectId : string) (taskId : option string) (workload : Workload) (rounds : list Round)
    (w : World) : World * result LifecycleError string :=
  if assertProjectNotArchived projectId w then (w, Throw ProjectArchived)
  else acquireLoop I projectId taskId workload false (take MAX_ACQUIRE_ATTEMPTS rounds) w.
End Reclaim.

(** ** The liveness reconcile *)

Definition POOL_RECONCILE_MIN_AGE_SECONDS : Z := 60.
Definition POOL_RECONCILE_LIMIT : nat := 50.
Definition POOL_LIVENESS_CHECK_INTERVAL_MS : Z := 15000.
Definition POOL_LIVENESS_STAMP_TTL_MS : Z := POOL_LIVENESS_CHECK_INTERVAL_MS * 20.
Definition PROVISION_WEDGED_AFTER_MS : Z := 15 * 60000.

(** [(extract(epoch from t) * 1000)::bigint]. *)
Definition toMillis (t : Z) : Z := Z.sgn t * ((Z.abs t + 500) / 1000).

Record ContainerTransition := mkTransition { tr_project : string; tr_container : string; tr_newStatus : ContainerStatus }.

Record ReconcileResult := mkReconcile { rr_dropped : Z; rr_wedged : Z; rr_transitions : list ContainerTransition }.

Definition dueForPoolLivenessCheck (id : string) (jsNow intervalMs : Z) (stamps : gmap string Z) : gmap string Z * bool :=
  if jsNow - default 0 (stamps !! id) <? intervalMs then (stamps, false) else (<[id := jsNow]> stamps, true).

(** One member of the page, as it was listed. *)
Definition reconcileMember (jsNow : Z) (inspect : string -> InspectAnswer) (m : MemberRow) (st : World * ReconcileResult) : World * ReconcileResult :=
  let '(w, r) := st in
  let id := mr_container m in
  if callInFlight id w then st
  else if inState creating m && (PROVISION_WEDGED_AFTER_MS <? jsNow - toMillis (updated m)) then
    (onPool (failWedgedProvision now backend id) w, mkReconcile (rr_dropped r) (rr_wedged r + 1) (rr_transitions r))
  else
    match inspect id with
    | Unanswered => st
    | NotFound => (onPool (removePoolMember now id) w, mkReconcile (rr_dropped r + 1) (rr_wedged r) (rr_transitions r))
    | Found info =>
        let w := match mr_memory m with
                 | None => onPool (recordPoolMemberMemoryIfUnknown now id (in_memory info)) w
                 | Some _ => w
                 end in
        if in_running info then
          match mr_state m with
          | midle | mbusy => (onPool (ensurePoolMemberUptimeOpen now backend id) w, r)
          | msuspended => (onPool (fun db => fst (markPoolMemberRunning now backend id None db)) w, r)
          | creating | merror => (w, r)
          end
        else if in_transitioning info then (w, r)
        else
          let transition := mkTransition (mr_project m) id (if in_exitCode info =? 0 then StatusStopped else StatusError) in
          let outcome := if in_exitCode info =? 0 then "Container stopped (" +:+ in_status info +:+ ")."
                         else "Container exited with code " +:+ toString 10 (in_exitCode info) +:+ " (" +:+ in_status info +:+ ")." in
          match mr_state m with
          | msuspended | merror => (onPool (closeContainerUptime now id Reconciled) w, r)
          | creating => (w, r)
          | mbusy => (onPool (setPoolMemberOutcome now id None (Some outcome)) w,
                      mkReconcile (rr_dropped r) (rr_wedged r) (rr_transitions r ++ [transition]))
          | midle => (onPool (fun db => setPoolMemberState now backend id msuspended None None (setPoolMemberOutcome now id None (Some outcome) db)) w,
                      mkReconcile (rr_dropped r) (rr_wedged r) (rr_transitions r ++ [transition]))
          end
    end.

(** Open intervals no member accounts for. *)
Definition settleInterval (inspect : string -> InspectAnswer) (lookup : string -> LookupAnswer) (w : World) (u : UnsettledInterval) : World :=
  let id := u_container u in
  if callInFlight id w then w
  else if provisional u then
    let name := containerNameFromProvisionalKey id in
    match lookup name with
    | LookupFailed => w
    | LookupNone => onPool (settleCreateRequestUptime name None) w
    | LookupFound found => onPool (settleCreateRequestUptime name (Some found)) w
    end
  else
    match inspect id with
    | Unanswered => w
    | NotFound => onPool (closeContainerUptime now id Destroyed) w
    | Found info => if negb (in_running info) && negb (in_transitioning info) then onPool (closeContainerUptime now id Reconciled) w else w
    end.

Definition settleUnaccountedUptime (inspect : string -> InspectAnswer) (lookup : string -> LookupAnswer) (w : World) : World :=
  fold_left (settleInterval inspect lookup)
    (listUnsettledUptime now POOL_RECONCILE_MIN_AGE_SECONDS POOL_RECONCILE_LIMIT (w_pool w)) w.

(** The registers of the pass that outlive it. *)
Record ReconcileState := mkReconcileState { rs_cursor : option string; rs_stamps : gmap string Z }.

Fixpoint reconcileMembers (jsNow intervalMs : Z) (inspect : string -> InspectAnswer) (page : list MemberRow) (stamps : gmap string Z)
    (st : World * ReconcileResult) : gmap string Z * (World * ReconcileResult) :=
  match page with
  | [] => (stamps, st)
  | m :: page =>
      let '(stamps, due) := dueForPoolLivenessCheck (mr_container m) jsNow intervalMs stamps in
      reconcileMembers jsNow intervalMs inspect page stamps (if due then reconcileMember jsNow inspect m st else st)
  end.

Definition reconcilePoolMembers (collate : string -> string -> Z) (jsNow intervalMs : Z) (inspect : string -> InspectAnswer)
    (lookup : string -> LookupAnswer) (rs : ReconcileState) (w : World) : ReconcileState * (World * ReconcileResult) :=
  let stamps := filter (fun e => snd e >= jsNow - POOL_LIVENESS_STAMP_TTL_MS) (rs_stamps rs) in
  let page := listPoolMembersForReconcile collate now POOL_RECONCILE_MIN_AGE_SECONDS POOL_RECONCILE_LIMIT (rs_cursor rs) (pd_members (w_pool w)) in
  let w := settleUnaccountedUptime inspect lookup w in
  let '(stamps, st) := reconcileMembers jsNow intervalMs inspect page stamps (w, mkReconcile 0 0 []) in
  (mkReconcileState (nextCursor POOL_RECONCILE_LIMIT page) stamps, st).

(** ** The status sync of the project's named container *)

Definition syncContainerStatus (projectId id : string) (answer : InspectAnswer) (previous : option ContainerStatus) (logs : option string)
    (message : string) (w : World) : World * option ContainerStatus :=
  match answer with
  | Unanswered => (w, None)
  | NotFound =>
      (updateProject projectId anyProject
         (fun p => withError (coalesce (pc_error p) (Some "Container no longer exists in Docker (removed externally)."))
                     (withContainer None (withStatus (Some StatusError) p))) w, Some StatusError)
  | Found info =>
      if negb (in_running info) && in_transitioning info then (w, previous)
      else
        let status := if in_running info then StatusRunning else StatusStopped in
        if bool_decide (previous = Some StatusRunning) && negb (in_running info) then
          (onPool (fun db => setPoolMemberState now backend id msuspended None None (setPoolMemberOutcome now id logs (Some message) db))
             (updateProject projectId anyProject (fun p => withError (Some message) (withLogs logs (withStatus (Some status) p))) w), Some status)
        else (updateProject projectId anyProject (withStatus (Some status)) w, Some status)
  end.
End Lifecycle.

(** ** Facts of the table under the operations *)

(** The state a container's row has, if it has one. *)
Definition stateOf (id : string) (t : Members) : option MemberState := mr_state <$> List.find (hasContainer id) t.

Lemma find_updateMember id p f t id' : (forall m, mr_container (f m) = mr_container m) ->
  List.find (hasContainer id') (updateMember id p f t) =
  (fun m => if hasContainer id m && p m then f m else m) <$> List.find (hasContainer id') t.
Proof.
  intros Hf. induction t as [|m t IH]; [done|]. cbn [updateMember List.map List.find].
  replace (hasContainer id' (if hasContainer id m && p m then f m else m)) with (hasContainer id' m)
    by (unfold hasContainer; destruct (_ && _); by rewrite ?Hf).
  destruct (hasContainer id' m); [done|apply IH].
Qed.

Lemma find_is id t m : List.find (hasContainer id) t = Some m -> mr_container m = id /\ In m t.
Proof. intros [Hin Hc%hasContainer_spec]%find_some. done. Qed.

Lemma stateOf_update id p f t id' : (forall m, mr_container (f m) = mr_container m) ->
  stateOf id' (updateMember id p f t) =
  (fun m => mr_state (if hasContainer id m && p m then f m else m)) <$> List.find (hasContainer id') t.
Proof. intros Hf. unfold stateOf. rewrite find_updateMember by done. by destruct (List.find _ t). Qed.

Lemma stateOf_other id p f t id' : (forall m, mr_container (f m) = mr_container m) -> id' <> id ->
  stateOf id' (updateMember id p f t) = stateOf id' t.
Proof.
  intros Hf Hne. rewrite stateOf_update by done. unfold stateOf. destruct (List.find _ t) as [m|] eqn:E; [|done].
  apply find_is in E as [Hc _]. cbn. destruct (hasContainer id m) eqn:Ei; [|done]. apply hasContainer_spec in Ei. congruence.
Qed.

Lemma stateOf_annotate id p f t id' : (forall m, mr_container (f m) = mr_container m) -> (forall m, mr_state (f m) = mr_state m) ->
  stateOf id' (updateMember id p f t) = stateOf id' t.
Proof.
  intros Hf Hs. rewrite stateOf_update by done. unfold stateOf. destruct (List.find _ t) as [m|]; [|done]. cbn.
  destruct (_ && _); by rewrite ?Hs.
Qed.

Lemma stateOf_forget id id' t : stateOf id' (List.filter (fun m => negb (hasContainer id m)) t) = if String.eqb id' id then None else stateOf id' t.
Proof.
  unfold stateOf. induction t as [|m t IH]; [by destruct (String.eqb _ _)|]. cbn [List.filter List.find].
  destruct (hasContainer id m) eqn:E; cbn [negb List.find].
  - rewrite IH. apply hasContainer_spec in E. destruct (String.eqb_spec id' id) as [|Hne]; [done|].
    unfold hasContainer at 2. destruct (String.eqb_spec (mr_container m) id'); [congruence|done].
  - destruct (hasContainer id' m) eqn:E'; [|by rewrite IH]. destruct (String.eqb_spec id' id) as [->|]; [congruence|done].
Qed.

Lemma stateOf_In t m : NoDup (ids t) -> In m t -> stateOf (mr_container m) t = Some (mr_state m).
Proof. intros Hn Hin. unfold stateOf. by rewrite find_member. Qed.

(** ** The reconcile *)

Definition poolOf (st : World * ReconcileResult) : PoolDb := w_pool (fst st).
Definition openOf (id : string) (db : PoolDb) : bool := hasOpen id (pd_ledger db).

(** What a visit may change: the row and the stretches of its own container. *)
Definition onlyTouches (id : string) (db db' : PoolDb) : Prop :=
  forall id', id' <> id -> stateOf id' (pd_members db') = stateOf id' (pd_members db) /\ openOf id' db' = openOf id' db.

Lemma onlyTouches_refl id db : onlyTouches id db db.
Proof. by intros id' _. Qed.

Lemma onlyTouches_trans id db1 db2 db3 : onlyTouches id db1 db2 -> onlyTouches id db2 db3 -> onlyTouches id db1 db3.
Proof. intros H1 H2 id' Hne. destruct (H2 id' Hne) as [-> ->]. by apply H1. Qed.

Lemma onlyTouches_update id p f db : (forall m, mr_container (f m) = mr_container m) ->
  onlyTouches id db (setMembers (updateMember id p f (pd_members db)) db).
Proof. intros Hf id' Hne. split; [|done]. by apply stateOf_other. Qed.

Lemma onlyTouches_sync now b id s r up db : onlyTouches id db (syncUptimeForState now b id s r up db).
Proof. intros id' Hne. rewrite sync_members. split; [done|]. by apply sync_other. Qed.

Lemma onlyTouches_write now b id s r up p f db : (forall m, mr_container (f m) = mr_container m) ->
  onlyTouches id db (syncUptimeForState now b id s r up (setMembers (updateMember id p f (pd_members db)) db)).
Proof. intros Hf. eapply onlyTouches_trans; [by apply (onlyTouches_update id p f)|apply onlyTouches_sync]. Qed.

Lemma onlyTouches_remove now id db : onlyTouches id db (removePoolMember now id db).
Proof.
  intros id' Hne. unfold removePoolMember, forgetPoolMember. rewrite pd_setMembers, stateOf_forget. apply String.eqb_neq in Hne as Hne'. rewrite Hne'. split; [done|]. by apply hasOpen_close_other.
Qed.

Lemma onlyTouches_close now id r db : onlyTouches id db (closeContainerUptime now id r db).
Proof. intros id' Hne. split; [done|]. by apply hasOpen_close_other. Qed.

Lemma setState_spec now b id s r up db s0 : stateOf id (pd_members db) = Some s0 ->
  stateOf id (pd_members (setPoolMemberState now b id s r up db)) = Some s.
Proof.
  unfold setPoolMemberState. rewrite sync_members, pd_setMembers, stateOf_update by done. unfold stateOf.
  destruct (List.find _ _) as [m|] eqn:E; [|done]. intros _. apply find_is in E as [Hc%hasContainer_spec _]. cbn. rewrite Hc. cbn.
  destruct (inState s m) eqn:Es; [|done]. apply inState_spec in Es. cbn. congruence.
Qed.

Lemma markRunning_spec now b up db m : NoDup (ids (pd_members db)) -> In m (pd_members db) -> mr_state m = msuspended ->
  let db' := fst (markPoolMemberRunning now b (mr_container m) up db) in
  stateOf (mr_container m) (pd_members db') = Some midle /\ openOf (mr_container m) db' = true.
Proof.
  intros Hn Hin Hs. unfold markPoolMemberRunning.
  assert (matchesMember (mr_container m) (inState msuspended) (pd_members db) = true) as ->.
  { apply existsb_exists. exists m. split; [done|]. unfold hasContainer. rewrite String.eqb_refl. by apply inState_spec. }
  set (t := updateMember _ _ _ _).
  assert (stateOf (mr_container m) t = Some midle) as Ht.
  { subst t. rewrite stateOf_update, find_member by done. cbn. unfold hasContainer, inState. by rewrite String.eqb_refl, Hs. }
  split; [done|]. unfold stateOf in Ht. destruct (List.find _ t) as [m'|] eqn:Ef; [|done]. apply find_is in Ef as [Hc Hm'].
  eapply (hasOpen_opened _ _ _ _ _ _ (asMember m')); [by apply in_map|done].
Qed.

Lemma open_spec now b id up db m : In m (pd_members db) -> mr_container m = id -> openOf id (openInterval now b id up db) = true.
Proof. intros Hin Hc. by eapply (hasOpen_opened _ _ _ _ _ _ (asMember m)); [apply in_map|]. Qed.

Lemma learned_spec now m info w : let w' := match mr_memory m with
    | None => onPool (recordPoolMemberMemoryIfUnknown now (mr_container m) (in_memory info)) w | Some _ => w end in
  (forall id, stateOf id (pd_members (w_pool w')) = stateOf id (pd_members (w_pool w))) /\
  ids (pd_members (w_pool w')) = ids (pd_members (w_pool w)) /\ pd_ledger (w_pool w') = pd_ledger (w_pool w).
Proof.
  cbn zeta. destruct (mr_memory m); [done|]. destruct (in_memory info); [|done]. split_and!; [|by apply updateMember_ids|done].
  intros id. by apply stateOf_annotate.
Qed.

Lemma stateOf_row id t s : stateOf id t = Some s -> exists m, In m t /\ mr_container m = id /\ mr_state m = s.
Proof. unfold stateOf. destruct (List.find _ t) as [m|] eqn:E; [|done]. intros [= <-]. apply find_is in E as [Hc Hin]. eauto. Qed.

(** A visit of the reconcile brings a member in line with the engine. A container that is gone
    loses its row and its open stretch; one that is up is recorded up and billed; one at rest
    is recorded down and not billed, unless a run still holds it, which is then reported to
    the pass that ends runs and keeps its claim. No answer changes nothing, and no other
    container is touched. *)
Theorem reconcile_settles_member now b jsNow inspect m w r :
  NoDup (ids (pd_members (w_pool w))) -> In m (pd_members (w_pool w)) -> callInFlight (mr_container m) w = false ->
  (mr_state m = creating -> jsNow - toMillis (updated m) <= PROVISION_WEDGED_AFTER_MS) ->
  let id := mr_container m in
  let st := reconcileMember now b jsNow inspect m (w, r) in
  let state' := stateOf id (pd_members (poolOf st)) in
  (inspect id = NotFound -> state' = None /\ openOf id (poolOf st) = false) /\
  (forall i, inspect id = Found i -> in_running i = true -> In (mr_state m) [midle; mbusy; msuspended] ->
     state' = Some (match mr_state m with mbusy => mbusy | _ => midle end) /\ openOf id (poolOf st) = true) /\
  (forall i, inspect id = Found i -> in_running i = false -> in_transitioning i = false -> In (mr_state m) [midle; msuspended; merror] ->
     state' = Some (match mr_state m with merror => merror | _ => msuspended end) /\ openOf id (poolOf st) = false) /\
  (forall i, inspect id = Found i -> in_running i = false -> in_transitioning i = false -> mr_state m = mbusy ->
     state' = Some mbusy /\ In id (List.map tr_container (rr_transitions (snd st)))) /\
  (inspect id = Unanswered -> st = (w, r)) /\
  onlyTouches id (w_pool w) (poolOf st).
Proof.
  intros Hn Hin Hcall Hw id st state'.
  assert (inState creating m && (PROVISION_WEDGED_AFTER_MS <? jsNow - toMillis (updated m)) = false) as Hwedge.
  { destruct (inState creating m) eqn:E; [|done]. apply inState_spec in E. cbn. apply Z.ltb_ge. auto. }
  pose proof (stateOf_In _ _ Hn Hin) as Hs.
  subst st state' id. unfold reconcileMember, poolOf. rewrite Hcall, Hwedge. destruct (inspect (mr_container m)) as [| |info] eqn:Ea.
  - split_and!; done.
  - split_and!; try done.
    + intros _. cbn [fst onPool setPool w_pool]. unfold removePoolMember, forgetPoolMember.
      rewrite pd_setMembers, stateOf_forget, String.eqb_refl. split; [done|]. apply hasOpen_closed.
    + apply onlyTouches_remove.
  - pose proof (learned_spec now m info w) as (Hst & Hids & Hled). cbn zeta in *.
    set (w1 := match mr_memory m with None => _ | Some _ => w end) in *. clearbody w1.
    rewrite <- Hst in Hs. rewrite <- Hids in Hn. destruct (stateOf_row _ _ _ Hs) as (m1 & Hin1 & Hc1 & Hs1).
    assert (onlyTouches (mr_container m) (w_pool w) (w_pool w1)) as Hlearn.
    { intros id' _. unfold openOf. by rewrite Hst, Hled. }
    split_and!; try done.
    + intros i [= <-] Hrun Hup. rewrite Hrun. destruct (mr_state m) eqn:Es; cbn in Hup; try (by destruct Hup as [?|[?|[?|[]]]]).
      * split; [exact Hs|]. by eapply open_spec.
      * split; [exact Hs|]. by eapply open_spec.
      * rewrite <- Hc1. by apply markRunning_spec.
    + intros i [= <-] Hrun Htr Hdown. rewrite Hrun, Htr. destruct (mr_state m) eqn:Es; cbn in Hdown; try (by destruct Hdown as [?|[?|[?|[]]]]).
      * split; [|apply hasOpen_closed]. cbn [fst onPool setPool w_pool]. unfold setPoolMemberOutcome.
        eapply setState_spec. rewrite pd_setMembers. by rewrite stateOf_annotate.
      * split; [exact Hs|apply hasOpen_closed].
      * split; [exact Hs|apply hasOpen_closed].
    + intros i [= <-] Hrun Htr Hbusy. rewrite Hrun, Htr, Hbusy.
      cbn [fst snd onPool setPool w_pool rr_transitions]. unfold setPoolMemberOutcome. rewrite pd_setMembers.
      split; [by rewrite stateOf_annotate, Hs, Hbusy|].
      rewrite List.map_app. apply in_app_iff. right. by left.
    + eapply onlyTouches_trans; [exact Hlearn|]. destruct (in_running info); [|destruct (in_transitioning info)].
      * destruct (mr_state m); try apply onlyTouches_refl; try apply (onlyTouches_sync now b _ midle None None).
        cbn [fst onPool setPool w_pool]. unfold markPoolMemberRunning. destruct (matchesMember _ _ _); [|apply onlyTouches_refl].
        by apply onlyTouches_write.
      * apply onlyTouches_refl.
      * destruct (mr_state m); try apply onlyTouches_refl; try apply onlyTouches_close; try by apply onlyTouches_update.
        cbn [fst onPool setPool w_pool]. set (outcome := if _ =? 0 then _ else _). clearbody outcome.
        apply (onlyTouches_trans _ _ (setPoolMemberOutcome now (mr_container m) None (Some outcome) (w_pool w1)));
          [by apply onlyTouches_update|by apply onlyTouches_write].
Qed.

(** ** What an acquire hands out *)

Lemma outdated_false mem image m : outdated mem image m = false -> memoryBytes m = Some mem /\ imageVersion m = Some image.
Proof. unfold outdated. intros [H1 H2]%orb_false_iff. rewrite negb_false_iff, bool_decide_eq_true in H1, H2. done. Qed.

(** The member of a rung that hands one out. *)
Definition chosen (d : PoolDecision) : option PoolMember := match d with reuse m | resume m => Some m | _ => None end.

Lemma select_chosen task ms cap mem image m : chosen (selectPoolMember task ms cap mem image) = Some m ->
  In m ms /\ memoryBytes m = Some mem /\ imageVersion m = Some image /\ atDiskCeiling m = false.
Proof.
  assert (forall p, List.find p (List.filter (fun m => usable m && negb (outdated mem image m)) ms) = Some m ->
    In m ms /\ memoryBytes m = Some mem /\ imageVersion m = Some image /\ atDiskCeiling m = false) as Hf.
  { intros p [[Hin [Hu Ho]%andb_true_iff]%filter_In _]%find_some. apply negb_true_iff, outdated_false in Ho as [? ?].
    unfold usable in Hu. apply andb_true_iff in Hu as [_ Hd%negb_true_iff]. done. }
  unfold selectPoolMember. cbn zeta. match goal with |- chosen (match ?x with _ => _ end) = _ -> _ => destruct x; [|done] end.
  destruct (match task with None => None | Some t => _ end) as [a|] eqn:Ea; [intros [= <-]; destruct task; [by eapply Hf|done]|].
  destruct (List.find (is_state idle) _) as [warm|] eqn:Ew; [intros [= <-]; by eapply Hf|].
  destruct (List.find (is_state suspended) _) as [s|] eqn:Es; destruct (fitsBudget cap); try done; try (by destruct (_ <=? _)).
  intros [= <-]. by eapply Hf.
Qed.

Lemma load_In projectId t pm : In pm (loadPoolMembers projectId t) ->
  exists m, In m t /\ mr_project m = projectId /\ mr_container m = member_id pm /\ mr_memory m = memoryBytes pm
            /\ image_version m = imageVersion pm /\ atDiskCeiling pm = (disk_ceiling m <=? disk_used m).
Proof.
  unfold loadPoolMembers. rewrite <- list_elem_of_In, list_elem_of_omap. setoid_rewrite list_elem_of_In.
  intros (m & [Hin Hp%String.eqb_eq]%(js_sort_In byCreation)%filter_In & Hm). exists m.
  unfold toPoolMember in Hm. destruct (ladderState (mr_state m)); [|done]. injection Hm as <-. done.
Qed.

(** A row fit for a run of the project. *)
Definition fit (projectId image : string) (mem : Z) (m : MemberRow) : Prop :=
  mr_project m = projectId /\ mr_memory m = Some mem /\ image_version m = Some image.

Lemma claim_fit now b id task db db' projectId image mem : NoDup (ids (pd_members db)) ->
  (exists m, In m (pd_members db) /\ mr_container m = id /\ fit projectId image mem m) ->
  claimPoolMember now b id task db = (db', true) ->
  exists m, In m (pd_members db') /\ mr_container m = id /\ mr_state m = mbusy /\ fit projectId image mem m /\ openOf id db' = true.
Proof.
  intros Hn (m & Hin & Hc & Hfit). unfold claimPoolMember.
  destruct (matchesMember id (inState midle) (pd_members db)) eqn:Hm; [|done]. intros E. apply (f_equal fst) in E. cbn [fst] in E. subst db'.
  apply existsb_exists in Hm as (m' & Hin' & [Hc' Hs]%andb_true_iff). pose proof Hc' as Hc''%hasContainer_spec.
  assert (m' = m) as -> by (eapply (NoDup_fmap_In mr_container); [exact Hn|done|done|congruence]).
  set (m1 := withRelease (last_released m) None (withTask task (withState now mbusy m))).
  assert (In m1 (updateMember id (inState midle) (fun m => withRelease (last_released m) None (withTask task (withState now mbusy m))) (pd_members db))) as H1.
  { apply in_map_iff. exists m. by rewrite Hc', Hs. }
  exists m1. rewrite sync_members. split_and!; [done|done|done|done|]. eapply open_spec; [exact H1|done].
Qed.

Lemma upsert_fit now b projectId id s image mem disk up db : NoDup (ids (pd_members db)) ->
  exists m, In m (pd_members (upsertPoolMember now b projectId id s (mkAllocation (Some disk) (Some mem) (Some image)) up db))
            /\ mr_container m = id /\ fit projectId image mem m.
Proof.
  intros Hn. unfold upsertPoolMember. rewrite sync_members, pd_setMembers. destruct (matchesMember id anyMember (pd_members db)) eqn:Hm.
  - apply existsb_exists in Hm as (m & Hin & [Hc _]%andb_true_iff). pose proof Hc as Hc'%hasContainer_spec.
    set (a := mkAllocation _ _ _). exists (if upsertMoves now projectId s a m then upsertedMember now projectId s a m else m).
    split; [apply in_map_iff; exists m; by rewrite Hc|].
    destruct (upsertMoves now projectId s a m) eqn:Em; [done|]. unfold upsertMoves in Em.
    rewrite negb_false_iff, bool_decide_eq_true in Em. destruct Em as (_ & Hp & _ & Hmem & Him). done.
  - eexists. split; [apply in_app_iff; right; by left|done].
Qed.

(** The index of the table, which every operation keeps. *)
Definition worldUnique (w : World) : Prop := NoDup (ids (pd_members (w_pool w))).

Lemma poolStep_world now b e f w : (forall db, f db = poolStep now b db e) -> worldUnique w -> worldUnique (onPool f w).
Proof. intros Hf Hu. unfold worldUnique, onPool, setPool. cbn [w_pool]. rewrite Hf. by apply poolStep_unique. Qed.

Lemma retire_unique now projectId s d r w : worldUnique w -> worldUnique (fst (executeRetirementPlan now projectId s d r w)).
Proof.
  intros Hu. unfold executeRetirementPlan.
  assert (worldUnique (fst (fold_left (retireOne projectId) d (w, 0)))) as H1.
  { assert (worldUnique (fst (w, 0))) as H0 by done. revert H0. generalize (w, 0) as st. clear Hu w.
    induction d as [|id d IH]; intros [w n] H0; [done|]. cbn [fold_left]. apply IH. unfold retireOne.
    case_bool_decide; [done|]. exact (poolStep_unique 0 "" _ (Forget id) H0). }
  revert H1. generalize (fold_left (retireOne projectId) d (w, 0)) as st. induction s as [|id s IH]; intros [w1 n] H0; [done|].
  cbn [fold_left]. apply IH. unfold suspendOne. case_bool_decide; [done|].
  pose proof (poolStep_unique now "" _ (BeginStop id) H0) as H1. cbn [poolStep fst] in H1.
  destruct (beginPoolMemberStop now id (w_pool w1)) as [db []]; exact H1.
Qed.

(** Engine calls and waits in a round leave the index, and a wait under the project's lock the
    allocation of the rows. *)
Definition quietRound (r : Round) : Prop :=
  (forall w, worldUnique w -> worldUnique (rd_before r w)) /\
  (forall v w, worldUnique w -> worldUnique (rd_between r v w)) /\
  (forall w, worldUnique w -> worldUnique (at_wait (rd_attempt r) w)) /\
  (forall w m, In m (pd_members (w_pool (at_wait (rd_attempt r) w))) ->
     exists m0, In m0 (pd_members (w_pool w)) /\ mr_container m0 = mr_container m /\ mr_project m0 = mr_project m
                /\ mr_memory m0 = mr_memory m /\ image_version m0 = image_version m).

Lemma adopt_unique now b projectId inspect w : worldUnique w -> worldUnique (adoptUnpooledContainer now b projectId inspect w).
Proof.
  intros Hu. unfold adoptUnpooledContainer. destruct (project projectId w ≫= _) as [c|]; [|done]. destruct (_ || _); [done|].
  destruct (inspect c) as [| |i]; [done|done|].
  eapply (poolStep_world now b (Upsert projectId c (if in_running i then midle else msuspended) noAllocation None)); done.
Qed.

Lemma claim_unique now b id task w w' st : worldUnique w -> claimFor now b id task w = (w', st) -> worldUnique w'.
Proof.
  intros Hu. unfold claimFor. pose proof (poolStep_unique now b _ (Claim id task) Hu) as H. cbn [poolStep] in H.
  destruct (claimPoolMember _ _ _ _ _) as [db c]. by intros [= <- _].
Qed.

Lemma provision_unique now b image projectId mem disk o w : worldUnique w ->
  worldUnique (fst (provisionContainer now b image projectId mem disk o w)).
Proof.
  intros Hu. unfold provisionContainer. destruct (pv_prepare o); [done|]. destruct (pv_created o) as [id|e]; [|done].
  assert (worldUnique (provisionCreated now b image projectId (pv_name o) id mem disk
    (provisionRequested now b projectId (pv_name o) mem disk (provisionBegun projectId w)))) as H1.
  { unfold provisionCreated, worldUnique, onPool, setPool. cbn [w_pool].
    exact (poolStep_unique now b (adoptCreateRequestUptime (pv_name o) id _) (Upsert projectId id creating _ None) Hu). }
  assert (forall msg w1, worldUnique w1 -> worldUnique (provisionFailed now b projectId (Some id) msg w1)) as Hf.
  { intros msg w1 H2. unfold provisionFailed, worldUnique, onPool, setPool. cbn [w_pool updateProject setProjects].
    exact (poolStep_unique now b _ (SetOutcome id None (Some msg)) (poolStep_unique now b _ (SetState id merror None None) H2)). }
  destruct (pv_start o) as [msg|]; [by apply Hf|]. destruct (pv_setup o) as [msg|]; cbn [fst]; [by apply Hf|].
  unfold provisionReady, worldUnique, onPool, setPool. cbn [w_pool].
  exact (poolStep_unique now b _ (Upsert projectId id midle _ None) H1).
Qed.

Lemma carryOut_unique now b image projectId task r mem d w : quietRound r -> worldUnique w ->
  worldUnique (fst (carryOut now b image projectId task (rd_attempt r) mem d w)).
Proof.
  intros (_ & _ & Hw & _) Hu. destruct d as [m|m|ms| |n|]; cbn [carryOut]; try done.
  - destruct (at_inspect _ _) as [| |i]; [done|exact (poolStep_unique now b _ (Remove (member_id m)) Hu)|].
    destruct (in_running i); [|exact (poolStep_unique now b _ (SetState (member_id m) msuspended None None) Hu)].
    destruct (claimFor _ _ _ _ _) eqn:E. by eapply claim_unique.
  - specialize (Hw w Hu). destruct (at_start _ _).
    + destruct (claimFor _ _ _ _ _) as [w' st] eqn:E. eapply claim_unique; [|exact E].
      exact (poolStep_unique now b _ (SetState (member_id m) midle None (Some now)) Hw).
    + destruct (at_inspect _ _) as [| |i]; [done|exact (poolStep_unique now b _ (Remove (member_id m)) Hw)|done].
  - destruct (project projectId w); [|done]. cbn [fst]. by apply retire_unique.
  - destruct (project projectId w) as [p|]; [|done].
    pose proof (provision_unique now b image projectId mem (wp_diskGb p) (at_provision (rd_attempt r)) w Hu) as Hp.
    destruct (provisionContainer _ _ _ _ _ _ _ _) as [w1 [id|e]]; [|done]. cbn [fst] in Hp.
    destruct (claimFor _ _ _ _ _) as [w' st] eqn:E. by eapply claim_unique.
Qed.

Lemma attempt_unique now b image I projectId task wl bs r w : quietRound r -> worldUnique w ->
  worldUnique (fst (attemptAcquire now b image I projectId task wl bs (rd_attempt r) w)).
Proof.
  intros Hr Hu. unfold attemptAcquire. set (w0 := if bs then w else _).
  assert (worldUnique w0) as H0 by (subst w0; destruct bs; [done|by apply adopt_unique]). clearbody w0.
  destruct (getActiveContainers _ _ _) as [active|]; [|done]. cbv zeta.
  destruct (decidePoolAcquisition _ _ _ _ _ _) as [m|m|ms| |n|]; try destruct (_ && _); try done; by apply carryOut_unique.
Qed.

(** The engine's word that the container is up. *)
Definition seenRunning (o : AttemptRun) (id : string) : Prop :=
  (exists i, at_inspect o id = Found i /\ in_running i = true) \/ at_start o id = true \/
  (pv_created (at_provision o) = Ok id /\ pv_start (at_provision o) = None /\ pv_setup (at_provision o) = None).

(** A container as the run finds it. *)
Definition handedOut (projectId image : string) (mem : Z) (id : string) (db : PoolDb) : Prop :=
  exists m, In m (pd_members db) /\ mr_container m = id /\ mr_state m = mbusy /\ fit projectId image mem m /\ openOf id db = true.

Lemma claimed_fit now b id task projectId image mem w w' id' : worldUnique w ->
  (exists m, In m (pd_members (w_pool w)) /\ mr_container m = id /\ fit projectId image mem m) ->
  claimFor now b id task w = (w', AcquiredStep id') -> id' = id /\ handedOut projectId image mem id (w_pool w').
Proof.
  intros Hu Hm. unfold claimFor. destruct (claimPoolMember now b id task (w_pool w)) as [db []] eqn:E; [|done].
  intros [= <- <-]. split; [done|]. by eapply claim_fit.
Qed.

Lemma carryOut_ready now b image projectId task r mem d w w' id : quietRound r -> worldUnique w ->
  (forall pm, chosen d = Some pm -> exists m, In m (pd_members (w_pool w)) /\ mr_container m = member_id pm /\ fit projectId image mem m) ->
  carryOut now b image projectId task (rd_attempt r) mem d w = (w', AcquiredStep id) ->
  handedOut projectId image mem id (w_pool w') /\ seenRunning (rd_attempt r) id.
Proof.
  intros (_ & _ & Hwu & Hwait) Hu Hfit. destruct d as [pm|pm|ms| |n|]; cbn [carryOut]; try done.
  - destruct (at_inspect _ _) as [| |i] eqn:Ei; try done. destruct (in_running i) eqn:Er; [|done]. intros H.
    apply claimed_fit with (projectId := projectId) (image := image) (mem := mem) in H as [-> H]; [|done|by apply Hfit].
    split; [done|]. left. eauto.
  - destruct (at_start _ _) eqn:Es; [|by destruct (at_inspect _ _)]. specialize (Hwu w Hu). intros H.
    set (w2 := markProjectContainerStarted _ _ _) in H.
    assert (worldUnique w2) as Hu2 by exact (poolStep_unique now b _ (SetState (member_id pm) midle None (Some now)) Hwu).
    destruct (Hfit pm eq_refl) as (m & Hin & Hc & Hm).
    apply claimed_fit with (projectId := projectId) (image := image) (mem := mem) in H as [-> H]; [by split; [|right; left]|done|].
    unfold claimFor in H. destruct (claimPoolMember now b (member_id pm) task (w_pool w2)) as [db []] eqn:Ec; [|done].
    destruct (claim_idle _ _ _ _ _ _ Ec) as (m2 & Hin2 & Hc2 & _). exists m2. split_and!; [done|done|].
    change (pd_members (w_pool w2)) with (pd_members (setPoolMemberState now b (member_id pm) midle None (Some now) (w_pool (at_wait (rd_attempt r) w)))) in Hin2.
    unfold setPoolMemberState in Hin2. rewrite sync_members, pd_setMembers in Hin2. apply In_updateMember in Hin2 as (m3 & Hin3 & Heq).
    assert (fit projectId image mem m3 /\ mr_container m3 = mr_container m2) as [Hf3 _].
    { assert (mr_container m3 = mr_container m2) as Hc3 by (subst m2; by destruct (_ && _)). split; [|done].
      destruct (Hwait w m3 Hin3) as (m0 & Hin0 & Hc0 & Hp0 & Hm0 & Hi0).
      assert (m0 = m) as -> by (eapply (NoDup_fmap_In mr_container); [exact Hu|done|done|congruence]).
      unfold fit in *. by rewrite <- Hp0, <- Hm0, <- Hi0. }
    subst m2. by destruct (_ && _).
  - by destruct (project projectId w).
  - destruct (project projectId w) as [p|]; [|done].
    pose proof (provision_unique now b image projectId mem (wp_diskGb p) (at_provision (rd_attempt r)) w Hu) as Hp.
    unfold provisionContainer in *. destruct (pv_prepare _); [done|]. destruct (pv_created _) as [c|e] eqn:Ec; [|done].
    destruct (pv_start _) eqn:Et; [done|]. destruct (pv_setup _) eqn:Es; [done|]. cbn [fst] in Hp. intros H.
    apply claimed_fit with (projectId := projectId) (image := image) (mem := mem) in H as [-> H]; [by split; [|right; right]|done|].
    apply upsert_fit. exact (poolStep_unique now b (adoptCreateRequestUptime (pv_name (at_provision (rd_attempt r))) c _) (Upsert projectId c creating _ None) Hu).
Qed.

Lemma decide_fit image projectId task cap mem t pm : chosen (decidePoolAcquisition image projectId task cap mem t) = Some pm ->
  exists m, In m t /\ mr_container m = member_id pm /\ fit projectId image mem m.
Proof.
  intros (Hin & Hmem & Him & _)%select_chosen. apply load_In in Hin as (m & Hm & Hp & Hc & Hm' & Hi' & _).
  exists m. split_and!; [done|done|]. unfold fit. by rewrite Hm', Hi'.
Qed.

Lemma attempt_ready now b image I projectId task wl bs r w w' id : quietRound r -> worldUnique w ->
  attemptAcquire now b image I projectId task wl bs (rd_attempt r) w = (w', AcquiredStep id) ->
  handedOut projectId image (projectContainerMemoryGb (instanceOf I w) projectId) id (w_pool w') /\ seenRunning (rd_attempt r) id.
Proof.
  intros Hr Hu. unfold attemptAcquire. set (w0 := if bs then w else _).
  assert (worldUnique w0) as H0 by (subst w0; destruct bs; [done|by apply adopt_unique]).
  assert (projectContainerMemoryGb (instanceOf I w0) projectId = projectContainerMemoryGb (instanceOf I w) projectId) as Hcap.
  { subst w0. destruct bs; [done|]. unfold adoptUnpooledContainer. destruct (project projectId w ≫= _); [|done].
    destruct (_ || _); [done|]. by destruct (at_inspect _ _). }
  clearbody w0. rewrite <- Hcap. destruct (getActiveContainers _ _ _) as [active|]; [|done]. cbv zeta.
  set (mem := projectContainerMemoryGb _ _). set (d := decidePoolAcquisition _ _ _ _ _ _).
  assert (forall pm, chosen d = Some pm -> exists m, In m (pd_members (w_pool w0)) /\ mr_container m = member_id pm /\ fit projectId image mem m)
    as Hd by (intros pm; apply decide_fit).
  clearbody d. intros H. eapply carryOut_ready; [done|exact H0|exact Hd|].
  destruct d; try destruct (_ && _) in H; try done; exact H.
Qed.

Lemma between_unique now between plan vs st : (forall v w, worldUnique w -> worldUnique (between v w)) -> worldUnique (fst st) ->
  worldUnique (fst (fold_left (reclaimFrom now between plan) vs st)).
Proof.
  intros Hb. revert st. induction vs as [|v vs IH]; intros [w any] Hu; [done|]. cbn [fold_left]. apply IH. unfold reclaimFrom.
  specialize (Hb v w Hu). set (su := List.filter _ (victimIds v (rp_suspend plan))). set (de := List.filter _ (victimIds v (rp_destroy plan))).
  destruct (su ++ de); [done|].
  pose proof (retire_unique now v su de (Some SuspendedForOther) _ Hb) as H.
  by destruct (executeRetirementPlan _ _ _ _ _ _).
Qed.

(** The container of an acquire is that of one of its attempts. *)
Lemma loop_attempt now b image lc I projectId task wl rounds bs w w' id : Forall quietRound rounds -> worldUnique w ->
  acquireLoop now b image lc I projectId task wl bs rounds w = (w', Ok id) ->
  exists r bs' w1, In r rounds /\ quietRound r /\ worldUnique w1 /\
    attemptAcquire now b image I projectId task wl bs' (rd_attempt r) w1 = (w', AcquiredStep id).
Proof.
  intros Hq. revert bs w. induction Hq as [|r rounds Hr Hq IH]; intros bs w Hu; [done|]. cbn [acquireLoop].
  assert (worldUnique (rd_before r w)) as Hb by by apply Hr.
  pose proof (attempt_unique now b image I projectId task wl bs r _ Hr Hb) as Hn.
  destruct (attemptAcquire _ _ _ _ _ _ _ _ _ _) as [w1 [c| |n|e]] eqn:E; cbn [fst] in Hn.
  - intros [= <- <-]. exists r, bs, (rd_before r w). split_and!; [by left|done|done|done].
  - intros H. destruct (IH _ _ Hn H) as (r' & bs' & w2 & Hin & ?). exists r', bs', w2. split; [by right|done].
  - destruct (project projectId w1); [|done]. unfold reclaimIdleCapacityForProject. cbv zeta.
    destruct (freedGb _ =? 0); [done|].
    pose proof (between_unique now (rd_between r) (planReclaimFor lc (instanceOf I w1) now projectId n)
      (js_set (List.map Pool.projectId (rp_suspend (planReclaimFor lc (instanceOf I w1) now projectId n) ++ rp_destroy (planReclaimFor lc (instanceOf I w1) now projectId n))))
      (w1, false) (proj1 (proj2 Hr)) Hn) as Hn2.
    destruct (fold_left _ _ _) as [w2 []]; [|done]. intros H.
    destruct (IH _ _ Hn2 H) as (r' & bs' & w3 & Hin & ?). exists r', bs', w3. split; [by right|done].
  - done.
Qed.

(** C6. A run gets a container that is ready for it: what an acquire returns is, at that
    moment, a row of the run's project that the acquire itself moved from idle to busy, built
    for exactly the project's memory cap and from the current agent image, with its hours
    being billed, and the engine has said it is up. It holds for every workload, whatever the
    other code of the server does between the attempts. *)
Theorem acquired_container_ready now b image lc I projectId task wl rounds w w' id : Forall quietRound rounds ->
  NoDup (ids (pd_members (w_pool w))) ->
  acquireRunContainer now b image lc I projectId task wl rounds w = (w', Ok id) ->
  exists r bs w1 m, In r rounds /\ attemptAcquire now b image I projectId task wl bs (rd_attempt r) w1 = (w', AcquiredStep id) /\
    seenRunning (rd_attempt r) id /\
    In m (pd_members (w_pool w')) /\ mr_container m = id /\ mr_project m = projectId /\ mr_state m = mbusy /\
    mr_memory m = Some (projectContainerMemoryGb (instanceOf I w1) projectId) /\ image_version m = Some image /\
    hasOpen id (pd_ledger (w_pool w')) = true.
Proof.
  intros Hq Hu. unfold acquireRunContainer. destruct (assertProjectNotArchived projectId w); [done|]. intros H.
  apply loop_attempt in H as (r & bs & w1 & Hin & Hr & Hu1 & H); [|by apply Forall_take|done].
  destruct (attempt_ready _ _ _ _ _ _ _ _ _ _ _ _ Hr Hu1 H) as [(m & Hm & Hc & Hs & (Hp & Hmem & Him) & Ho) Hseen].
  exists r, bs, w1, m. split_and!; try done. rewrite <- (take_drop MAX_ACQUIRE_ATTEMPTS rounds). apply in_app_iff. by left.
Qed.

Definition ex_settings : Instance_ := mkInstance [] [] [] [] (16 * GIB) (4 * GIB) false [] 0 None None.
Definition ex_project : ProjectW :=
  mkProjectW (mkProjectContainer "p" "P" "p" (Some "c") (Some StatusRunning) None None) "team" None 5 false.
Definition ex_world (holds : list string) (rows : Members) : World := mkWorld (mkPoolDb rows []) [ex_project] holds [] ∅ 0.
Definition ex_running : ContainerInfo := mkInfo true false 0 "running" (Some (4 * GIB)).
Definition ex_attempt : AttemptRun :=
  mkAttemptRun (fun _ => Found ex_running) (fun _ => true) (mkProvisionRun "n" None (Ok "new") None None) 0 (fun w => w).
Definition ex_round : Round := mkRound ex_attempt (fun w => w) (fun _ w => w).

Lemma ex_quiet : quietRound ex_round.
Proof. split_and!; try done. intros w m Hin. by exists m. Qed.

Lemma acquired_container_ready_witness :
  let r := acquireRunContainer 1000 "docker" "v1" byCode ex_settings "p" (Some "t") TaskRun [ex_round] (ex_world [] [ex_idle "c"]) in
  snd r = Ok "c" /\ exists m, In m (pd_members (w_pool (fst r))) /\ mr_container m = "c" /\ mr_state m = mbusy.
Proof.
  intros r. assert (snd r = Ok "c") as Hr by (vm_compute; reflexivity). split; [exact Hr|].
  destruct (acquired_container_ready 1000 "docker" "v1" byCode ex_settings "p" (Some "t") TaskRun [ex_round] (ex_world [] [ex_idle "c"]) (fst r) "c")
    as (_ & _ & _ & m & _ & _ & _ & Hin & Hc & _ & Hs & _).
  - repeat constructor; apply ex_quiet.
  - apply NoDup_singleton.
  - exact (eq_trans (surjective_pairing r) (f_equal (pair (fst r)) Hr)).
  - by exists m.
Defined.

(** Spent hours start nothing: in an attempt that finds the allowance spent, no container is
    provisioned, resumed or reclaimed for. The run gets a container only if the pool had it
    idle and the engine says it is up already. *)
Theorem spent_hours_start_nothing now b image I projectId task wl o w active w' id :
  getActiveContainers (instanceOf I w) now (at_jsNow o) = Some active -> hoursExhausted active = true ->
  attemptAcquire now b image I projectId task wl true o w = (w', AcquiredStep id) ->
  (exists i, at_inspect o id = Found i /\ in_running i = true) /\
  (exists m, In m (pd_members (w_pool w)) /\ mr_container m = id /\ mr_state m = midle) /\ w_projects w' = w_projects w.
Proof.
  intros Ha Hx. unfold attemptAcquire. rewrite Ha. cbv zeta.
  destruct (decidePoolAcquisition _ _ _ _ _ _) as [pm|pm|ms| |n|]; cbn [opensUptime]; rewrite ?Hx; cbn [andb carryOut]; try done.
  - destruct (at_inspect o (member_id pm)) as [| |i] eqn:Ei; try done. destruct (in_running i) eqn:Er; [|done].
    unfold claimFor. destruct (claimPoolMember _ _ _ _ _) as [db []] eqn:Ec; [|done]. intros [= <- <-].
    pose proof (claim_idle _ _ _ _ _ _ Ec) as Hm. split_and!; [eauto|done|done].
  - by destruct (project projectId w).
Qed.

(** An instance whose allowance of one hour is spent, with a container idle and up. *)
Definition ex_spent : Instance_ := mkInstance [] [] [] [] (16 * GIB) (4 * GIB) false [] 1 None None.
Definition ex_spent_world : World :=
  mkWorld (mkPoolDb [ex_idle "c"] [mkEntry (Some "p") "c" None 1 "docker" 0 None None]) [ex_project] [] [] ∅ 0.
Lemma spent_hours_start_nothing_witness :
  let now := 7200 * US_PER_SEC in
  exists active w', getActiveContainers (instanceOf ex_spent ex_spent_world) now (at_jsNow ex_attempt) = Some active /\
    hoursExhausted active = true /\
    attemptAcquire now "docker" "v1" ex_spent "p" None TaskRun true ex_attempt ex_spent_world = (w', AcquiredStep "c") /\
    w_projects w' = w_projects ex_spent_world.
Proof.
  intros now.
  assert (hoursExhausted <$> getActiveContainers (instanceOf ex_spent ex_spent_world) now (at_jsNow ex_attempt) = Some true) as Hs by (vm_compute; reflexivity).
  destruct (getActiveContainers (instanceOf ex_spent ex_spent_world) now (at_jsNow ex_attempt)) as [active|] eqn:Ea; [|done].
  destruct (attemptAcquire now "docker" "v1" ex_spent "p" None TaskRun true ex_attempt ex_spent_world) as [w' st] eqn:Et.
  assert (st = AcquiredStep "c") as -> by (apply (f_equal snd) in Et; vm_compute in Et; congruence).
  assert (hoursExhausted active = true) as Hx by (by injection Hs).
  exists active, w'. split_and!; [done|done|done|].
  apply (spent_hours_start_nothing now "docker" "v1" ex_spent "p" None TaskRun ex_attempt ex_spent_world active w' "c" Ea Hx Et).
Defined.

(** An outdated container something outside a run works in is never retired, so every attempt
    decides to replace it again: all attempts pass without a claim, a removal or freed
    memory, and the run is told there is no room although the budget has it. *)
Lemma held_outdated_member_starves :
  let w := ex_world ["c"] [ex_idle "c"] in
  let r := acquireRunContainer 1000 "docker" "v2" byCode ex_settings "p" None TaskRun (repeat ex_round 8) w in
  snd r = Throw PoolCapacity /\ pd_members (w_pool (fst r)) = pd_members (w_pool w) /\
  snd (acquireRunContainer 1000 "docker" "v2" byCode ex_settings "p" None TaskRun (repeat ex_round 8) (ex_world [] [ex_idle "c"])) = Ok "new".
Proof. vm_compute. done. Qed.

(** The status sync suspends the named container of a project without looking whether a run
    holds it, which the reconcile refuses to do. *)
Lemma sync_suspends_a_claimed_member :
  let w := setPool (fst (claimPoolMember 0 "docker" "c" None (w_pool (ex_world [] [ex_idle "c"])))) (ex_world [] [ex_idle "c"]) in
  let stopped := Found (mkInfo false false 137 "exited" None) in
  stateOf "c" (pd_members (w_pool w)) = Some mbusy /\
  stateOf "c" (pd_members (w_pool (fst (syncContainerStatus 0 "docker" "p" "c" stopped (Some StatusRunning) None "gone" w)))) = Some msuspended /\
  (forall m, In m (pd_members (w_pool w)) -> stateOf "c" (pd_members (poolOf (reconcileMember 0 "docker" 0 (fun _ => stopped) m (w, mkReconcile 0 0 [])))) = Some mbusy).
Proof. vm_compute. split_and!; try done. by intros m [<-|[]]. Qed.

Lemma reconcile_settles_member_witness :
  let w := ex_world [] [ex_idle "c"] in
  let st := reconcileMember 0 "docker" 0 (fun _ => Found ex_running) (ex_idle "c") (w, mkReconcile 0 0 []) in
  stateOf "c" (pd_members (poolOf st)) = Some midle /\ openOf "c" (poolOf st) = true.
Proof.
  intros w st. apply (proj1 (proj2 (reconcile_settles_member 0 "docker" 0 (fun _ => Found ex_running) (ex_idle "c") w (mkReconcile 0 0 [])
    (NoDup_singleton _) (or_introl eq_refl) eq_refl ltac:(discriminate))) ex_running); [done|done|by left].
Defined.
