(* ===== verification/PoolHistories.v ===== *)
(** * Histories of the container lifecycle

    The operations of [PoolLifecycle.v] in any order, with the engine calls they leave in
    flight finishing whenever they do. Every state they reach is one that a history of
    [PoolTable.v] reaches, so what is proved there of the table and the ledger holds of the
    server: the conditions those histories put on their callers are discharged here. *)
From Stdlib Require Import ZArith Lia Ascii String List Bool Permutation.
From stdpp Require Import base list strings gmap option.
From S2P Require Import Prelude JsString JsNumber Sql Pool UptimeLedger ContainerHours PoolTable Admission PoolLifecycle.

Open Scope string_scope.
Open Scope list_scope.
Open Scope Z_scope.

(** ** Events *)

Inductive LifeEvent :=
| EvAttempt (J : Instance_) (projectId : string) (task : option string) (wl : Workload) (bootstrapped : bool) (o : AttemptRun)
| EvRelease (id : string) (task : option string) (byChat : bool)
| EvRetire (projectId : string) (suspends destroys : list string) (reason : option EndReason)
| EvCallDone (n : nat) (logs failure : option string)
| EvReconcile (m : MemberRow) (jsNow : Z) (inspect : string -> InspectAnswer)
| EvSettle (u : UnsettledInterval) (inspect : string -> InspectAnswer) (lookup : string -> LookupAnswer)
| EvFailedCreate (name : string) (found : LookupAnswer) (removed : bool)
| EvSync (projectId id : string) (answer : InspectAnswer) (previous : option ContainerStatus) (logs : option string) (message : string)
| EvDestroy (projectId id : string) (logs : option string) (confirmed : bool)
| EvTeardown (projectId : string) (confirmed : string -> bool)
| EvRunGone (runningOn : list string) (id : string)
| EvBoot
| EvProvisionRequested (projectId name : string) (memory diskGb : Z)
| EvProvisionCreated (projectId name id : string) (memory diskGb : Z)
| EvProvisionStarted (projectId id : string)
| EvProvisionReady (projectId id : string) (memory diskGb : Z)
| EvProvisionFailed (projectId : string) (created : option string) (message : string).

(** A background call that has finished: a removal, or a stop. *)
Definition callDone (now : Z) (b : string) (n : nat) (logs failure : option string) (w : World) : World :=
  match List.find (fun c => Nat.eqb (fst (fst c)) n) (w_pending w) with
  | None => w
  | Some (_, id, RemovalCall) => settleCall n id (finishRemoval now id (isNull failure) w)
  | Some (_, id, StopCall projectId reason) => settleCall n id (stopContainerGracefully now b projectId id reason logs failure w)
  end.

Definition lifeStep (now : Z) (b image : string) (w : World) (e : LifeEvent) : World :=
  match e with
  | EvAttempt J p task wl bs o => fst (attemptAcquire now b image J p task wl bs o w)
  | EvRelease id task chat => onPool (releasePoolMember now b id task chat) w
  | EvRetire p s d r => fst (executeRetirementPlan now p s d r w)
  | EvCallDone n logs failure => callDone now b n logs failure w
  | EvReconcile m jsNow inspect => fst (reconcileMember now b jsNow inspect m (w, mkReconcile 0 0 []))
  | EvSettle u inspect lookup => settleInterval now inspect lookup w u
  | EvFailedCreate name found removed => settleFailedCreate now name found removed w
  | EvSync p id a prev logs msg => fst (syncContainerStatus now b p id a prev logs msg w)
  | EvDestroy p id logs confirmed => destroyContainer now p id logs confirmed w
  | EvTeardown p confirmed => teardownContainer now p confirmed w
  | EvRunGone on id => onPool (fun db => fst (releaseClaimIfRunGone now b on id db)) w
  | EvBoot => onPool (fun db => fst (failInterruptedProvisions now b (fst (reclaimBusyPoolMembers now b db)))) w
  | EvProvisionRequested p name mem disk => provisionRequested now b p name mem disk (provisionBegun p w)
  | EvProvisionCreated p name id mem disk => provisionCreated now b image p name id mem disk w
  | EvProvisionStarted p id => provisionStarted p id w
  | EvProvisionReady p id mem disk => provisionReady now b image p id mem disk w
  | EvProvisionFailed p created msg => provisionFailed now b p created msg w
  end.

Definition rowOf (id : string) (w : World) : Prop := exists m, In m (pd_members (w_pool w)) /\ mr_container m = id.
Definition namedBy (id : string) (w : World) : Prop := exists p, In p (w_projects w) /\ pc_container (wp_container p) = Some id.
Definition rowIn (projectId id : string) (w : World) : Prop :=
  exists m, In m (pd_members (w_pool w)) /\ mr_container m = id /\ mr_project m = projectId.

(** A new container's id: the engine does not name it like a create request, and nothing knows it. *)
Definition freshId (id : string) (w : World) : Prop :=
  engineId id /\ ~ rowOf id w /\ ~ namedBy id w /\ forall n c, ~ In (n, id, c) (w_pending w).

(** What the engine and the callers promise. A create returns a new container and a lookup by
    the name of a failed create finds one nothing names; a retirement plan is of the project's
    own members; the reconcile visits a row as it is; a wait for a call in flight is a step of
    that call. *)
Definition lifeEvent_ok (now : Z) (w : World) (e : LifeEvent) : Prop :=
  match e with
  | EvAttempt _ _ _ _ _ o => (forall w, at_wait o w = w) /\ (forall id, pv_created (at_provision o) = Ok id -> freshId id w)
  | EvRetire p _ d _ => forall id, id ∈ d -> rowIn p id w
  | EvReconcile m _ _ => In m (pd_members (w_pool w))
  | EvSettle u _ lookup => In u (listUnsettledUptime now POOL_RECONCILE_MIN_AGE_SECONDS POOL_RECONCILE_LIMIT (w_pool w)) /\
      forall name id, lookup name = LookupFound id -> ~ rowOf id w
  | EvFailedCreate _ (LookupFound id) _ => ~ rowOf id w
  | EvProvisionCreated _ _ id _ _ => freshId id w
  | EvProvisionStarted p id | EvProvisionReady p id _ _ => rowIn p id w
  | _ => True
  end.

Inductive life_reach : World -> Prop :=
| life_start ps holds : (forall p, In p ps -> pc_container (wp_container p) = None) -> life_reach (mkWorld (mkPoolDb [] []) ps holds [] ∅ 0)
| life_event w now b image e : life_reach w -> lifeEvent_ok now w e -> life_reach (lifeStep now b image w e).

(** ** What the lifecycle keeps *)

(** A project names only a container that is its own; what is being removed has no row and no
    project that names it. *)
Record life_inv (w : World) : Prop := {
  lv_pool : exists stopping, pool_reach stopping (w_pool w);
  lv_engine : forall id, namedBy id w -> engineId id;
  lv_own : forall p id m, In p (w_projects w) -> pc_container (wp_container p) = Some id ->
    In m (pd_members (w_pool w)) -> mr_container m = id -> mr_project m = wp_id p;
  lv_one : forall p p' id, In p (w_projects w) -> In p' (w_projects w) ->
    pc_container (wp_container p) = Some id -> pc_container (wp_container p') = Some id -> wp_id p = wp_id p';
  lv_removed : forall n id, In (n, id, RemovalCall) (w_pending w) -> ~ rowOf id w /\ ~ namedBy id w
}.

Lemma life_pool_inv w : life_inv w -> exists stopping, pool_inv stopping (w_pool w).
Proof. intros [[st H] _ _ _ _]. exists st. by apply pool_reach_inv. Qed.

Lemma life_unique w : life_inv w -> NoDup (ids (pd_members (w_pool w))).
Proof. intros [st H]%life_pool_inv. apply H. Qed.

(** An event of the table that inserts no row. *)
Lemma event_inv now b e w : isUpsert e = false -> poolEvent_ok (w_pool w) e -> life_inv w ->
  life_inv (setPool (poolStep now b (w_pool w) e) w).
Proof.
  intros He Hok [[st Hr] Heng Hown Hone Hrem]. pose proof (poolStep_rows now b (w_pool w) e He) as Hrows. split.
  - exists (stopsPending st e). by constructor.
  - done.
  - intros p id m Hp Hc Hm Hid. destruct (Hrows m Hm) as (m0 & Hin0 & Hc0 & <-). eapply Hown; [done|done|done|congruence].
  - done.
  - intros n id Hin. destruct (Hrem n id Hin) as [Hno Hna]. split; [|done].
    intros (m & Hm & Hid). destruct (Hrows m Hm) as (m0 & Hin0 & Hc0 & _). apply Hno. exists m0. split; [done|congruence].
Qed.

Lemma upsertEvent_inv now b p id s a up w : engineId id -> (forall q, In q (w_projects w) -> pc_container (wp_container q) = Some id -> wp_id q = p) ->
  (forall n, ~ In (n, id, RemovalCall) (w_pending w)) -> life_inv w -> life_inv (onPool (upsertPoolMember now b p id s a up) w).
Proof.
  intros He Hq Hn [[st Hr] Heng Hown Hone Hrem]. split.
  - exists (stopsPending st (Upsert p id s a up)). exact (pool_event st _ now b (Upsert p id s a up) Hr He).
  - done.
  - intros q c m Hin Hc Hm Hid. cbn [w_pool onPool setPool] in Hm. apply upsert_rows in Hm as [[Hc' <-]|[_ Hm]]; [|by eapply Hown].
    symmetry. apply Hq; [done|congruence].
  - done.
  - intros n c Hin. destruct (Hrem n c Hin) as [Hno Hna]. split; [|done].
    intros (m & Hm & Hid). cbn [w_pool onPool setPool] in Hm. apply upsert_rows in Hm as [[Hc' _]|[_ Hm]].
    + assert (c = id) as -> by congruence. by apply (Hn n).
    + apply Hno. by exists m.
Qed.

Lemma In_updateProject id p f w q : (forall x, pc_id (f x) = pc_id x) -> In q (w_projects (updateProject id p f w)) ->
  exists q0, In q0 (w_projects w) /\ wp_id q = wp_id q0 /\
    (pc_container (wp_container q) = pc_container (wp_container q0) \/
     (wp_id q0 = id /\ pc_container (wp_container q) = pc_container (f (wp_container q0)))).
Proof.
  intros Hf (q0 & <- & Hin)%in_map_iff. exists q0. split; [done|].
  destruct (String.eqb_spec (wp_id q0) id) as [Hid|]; cbn [andb]; [|by auto]. destruct (p (wp_container q0)); [|by auto].
  split; [apply Hf|by right].
Qed.

(** Columns other than the container, or no container. *)
Lemma project_inv id p f w : (forall x, pc_id (f x) = pc_id x) -> (forall x, pc_container (f x) = pc_container x \/ pc_container (f x) = None) ->
  life_inv w -> life_inv (updateProject id p f w).
Proof.
  intros Hf Hc [Hr Heng Hown Hone Hrem].
  assert (forall q c, In q (w_projects (updateProject id p f w)) -> pc_container (wp_container q) = Some c ->
    exists q0, In q0 (w_projects w) /\ wp_id q = wp_id q0 /\ pc_container (wp_container q0) = Some c) as Hq.
  { intros q c (q0 & Hin & Hid & Hor)%In_updateProject Hsome; [|done]. exists q0. split_and!; [done|done|].
    destruct Hor as [<-|[_ Hor]]; [done|]. destruct (Hc (wp_container q0)); congruence. }
  split.
  - done.
  - intros c (q & Hin & Hs). destruct (Hq q c Hin Hs) as (q0 & Hin0 & _ & Hs0). apply Heng. by exists q0.
  - intros q c m Hin Hs Hm Hid. destruct (Hq q c Hin Hs) as (q0 & Hin0 & -> & Hs0). by eapply Hown.
  - intros q q' c Hin Hin' Hs Hs'. destruct (Hq q c Hin Hs) as (q0 & Hin0 & -> & Hs0).
    destruct (Hq q' c Hin' Hs') as (q0' & Hin0' & -> & Hs0'). by eapply Hone.
  - intros n c Hp. destruct (Hrem n c Hp) as [Hno Hna]. split; [done|]. intros (q & Hin & Hs).
    destruct (Hq q c Hin Hs) as (q0 & Hin0 & _ & Hs0). apply Hna. by exists q0.
Qed.

(** A project starts naming a container that has a row of its own. *)
Lemma name_inv projectId id f w : (forall x, pc_id (f x) = pc_id x) -> (forall x, pc_container (f x) = Some id) ->
  rowIn projectId id w -> life_inv w -> life_inv (updateProject projectId anyProject f w).
Proof.
  intros Hf Hc (m0 & Hm0 & Hid0 & Hp0) Hinv. pose proof (life_pool_inv w Hinv) as [st Hpi]. pose proof (life_unique w Hinv) as Hn.
  destruct Hinv as [Hr Heng Hown Hone Hrem].
  assert (forall q c, In q (w_projects (updateProject projectId anyProject f w)) -> pc_container (wp_container q) = Some c ->
    (exists q0, In q0 (w_projects w) /\ wp_id q = wp_id q0 /\ pc_container (wp_container q0) = Some c) \/ (c = id /\ wp_id q = projectId)) as Hq.
  { intros q c (q0 & Hin & Hid & Hor)%In_updateProject Hsome; [|done].
    destruct Hor as [Heq|[Hp Heq]]; [left; exists q0; split_and!; [done|done|congruence]|right]. rewrite Hc in Heq. split; congruence. }
  assert (forall q, In q (w_projects w) -> pc_container (wp_container q) = Some id -> wp_id q = projectId) as Hids.
  { intros q Hin Hs. rewrite <- Hp0. symmetry. by eapply Hown. }
  split.
  - done.
  - intros c (q & Hin & Hs). destruct (Hq q c Hin Hs) as [(q0 & Hin0 & _ & Hs0)|[-> _]]; [apply Heng; by exists q0|].
    rewrite <- Hid0. by apply Hpi.
  - intros q c m Hin Hs Hm Hid. destruct (Hq q c Hin Hs) as [(q0 & Hin0 & -> & Hs0)|[-> ->]]; [by eapply Hown|].
    assert (m = m0) as -> by (eapply (NoDup_fmap_In mr_container); [exact Hn|done|done|congruence]). done.
  - intros q q' c Hin Hin' Hs Hs'. destruct (Hq q c Hin Hs) as [(q0 & Hin0 & -> & Hs0)|[-> ->]];
      destruct (Hq q' _ Hin' Hs') as [(q0' & Hin0' & -> & Hs0')|[Hc' ->]]; subst; [by eapply Hone|by apply Hids|by symmetry; apply Hids|done].
  - intros n c Hp. destruct (Hrem n c Hp) as [Hno Hna]. split; [done|]. intros (q & Hin & Hs).
    destruct (Hq q c Hin Hs) as [(q0 & Hin0 & _ & Hs0)|[-> _]]; [apply Hna; by exists q0|]. apply Hno. by exists m0.
Qed.

Lemma settleCall_inv n id w : life_inv w -> life_inv (settleCall n id w).
Proof. intros [Hr Heng Hown Hone Hrem]. split; try done. intros k c [Hin _]%filter_In. by apply (Hrem k). Qed.

Lemma trackStop_inv id p r w : life_inv w -> life_inv (trackLifecycleCall id (StopCall p r) w).
Proof. intros [Hr Heng Hown Hone Hrem]. split; try done. intros k c [Hin|[[=]|[]]]%in_app_iff. by apply (Hrem k). Qed.

Lemma trackRemoval_inv id w : ~ rowOf id w -> ~ namedBy id w -> life_inv w -> life_inv (trackLifecycleCall id RemovalCall w).
Proof.
  intros H1 H2 [Hr Heng Hown Hone Hrem]. split; try done. intros k c [Hin|[[= _ <-]|[]]]%in_app_iff; [|done]. by apply (Hrem k).
Qed.

Lemma project_find id w p : project id w = Some p -> In p (w_projects w) /\ wp_id p = id.
Proof. intros [Hin Hid%String.eqb_eq]%find_some. done. Qed.

(** *** Retirement *)

(** A container of the plan is the project's, or gone already. *)
Definition retirable (p id : string) (w : World) : Prop := rowIn p id w \/ (~ rowOf id w /\ ~ namedBy id w).

Lemma forgotten_row id w : ~ rowOf id (onPool (forgetPoolMember id) w).
Proof. intros (m & [_ Hne]%filter_In & Hc%hasContainer_spec). by rewrite Hc in Hne. Qed.

Lemma cleared_name p id w : (forall q, In q (w_projects w) -> pc_container (wp_container q) = Some id -> wp_id q = p) ->
  ~ namedBy id (clearNamed p id w).
Proof.
  intros Hq (q & (q0 & <- & Hin)%in_map_iff & Hc). destruct (String.eqb_spec (wp_id q0) p) as [Hp|Hp]; cbn [andb] in Hc.
  - unfold names in Hc. case_bool_decide; [done|]. by apply H.
  - by apply Hp, Hq.
Qed.

Lemma namedBy_clear p c id w : namedBy id (clearNamed p c w) -> namedBy id w.
Proof.
  intros (q & (q0 & <- & Hin)%in_map_iff & Hc). exists q0. split; [done|].
  destruct (String.eqb (wp_id q0) p && names c (wp_container q0)); done.
Qed.

Lemma retireOne_inv p st id : retirable p id (fst st) -> life_inv (fst st) ->
  life_inv (fst (retireOne p st id)) /\ forall c, retirable p c (fst st) -> retirable p c (fst (retireOne p st id)).
Proof.
  destruct st as [w n]. cbn [fst]. intros Hret Hinv. unfold retireOne. case_bool_decide; [done|]. cbn [fst].
  assert (forall q, In q (w_projects w) -> pc_container (wp_container q) = Some id -> wp_id q = p) as Hq.
  { intros q Hin Hs. destruct Hret as [(m & Hm & Hc & <-)|[_ Hna]]; [symmetry; by eapply Hinv|]. destruct Hna. by exists q. }
  pose proof (event_inv 0 "" (Forget id) w eq_refl I Hinv) as Hf.
  assert (~ rowOf id (onPool (forgetPoolMember id) w)) as Hno by apply forgotten_row.
  split.
  - apply trackRemoval_inv; [exact Hno|by apply cleared_name|]. apply project_inv; [done|by right|exact Hf].
  - intros c Hc. destruct (decide (c = id)) as [->|Hne]; [right; split; [exact Hno|by apply cleared_name]|].
    destruct Hc as [(m & Hm & Hmc & Hmp)|[Hnr Hnn]]; [left|right].
    + exists m. split; [|done]. apply filter_In. split; [done|]. apply negb_true_iff, not_true_iff_false. rewrite hasContainer_spec. congruence.
    + split; [intros (m & [Hm _]%filter_In & Hmc); apply Hnr; by exists m|by intros Hx%namedBy_clear].
Qed.

Lemma retire_inv now p s d r w : (forall id, id ∈ d -> retirable p id w) -> life_inv w ->
  life_inv (fst (executeRetirementPlan now p s d r w)).
Proof.
  intros Hd Hinv. unfold executeRetirementPlan.
  assert (life_inv (fst (fold_left (retireOne p) d (w, 0)))) as H1.
  { assert (life_inv (fst (w, 0))) as H0 by done. assert (forall id, id ∈ d -> retirable p id (fst (w, 0))) as Hd0 by done.
    revert H0 Hd0. generalize (w, 0) as st. clear Hd Hinv. induction d as [|id d IH]; intros st H0 Hd0; [done|]. cbn [fold_left].
    destruct (retireOne_inv p st id) as [Hi Hr]; [apply Hd0; by left|done|]. apply IH; [done|].
    intros c Hc. apply Hr, Hd0. by right. }
  revert H1. generalize (fold_left (retireOne p) d (w, 0)) as st. induction s as [|id s IH]; intros [w1 n] H0; [done|].
  cbn [fold_left]. apply IH. unfold suspendOne. case_bool_decide; [done|].
  pose proof (event_inv now "" (BeginStop id) w1 eq_refl I H0) as H1. cbn [poolStep fst] in H1.
  destruct (beginPoolMemberStop now id (w_pool w1)) as [db []]; cbn [fst] in *; [by apply trackStop_inv|done].
Qed.

(** *** The acquire *)

Lemma select_recycle task ms cap mem image l : selectPoolMember task ms cap mem image = recycle l -> forall m, In m l -> In m ms.
Proof.
  unfold selectPoolMember. cbn zeta. match goal with |- match ?x with _ => _ end = _ -> _ => destruct x eqn:E end.
  - intros H. exfalso. revert H. repeat (break_match; try done).
  - intros [= <-] m Hm. rewrite <- E in Hm. by apply filter_In in Hm as [Hm _].
Qed.

Lemma adoptUnpooled_inv now b p inspect w : life_inv w -> life_inv (adoptUnpooledContainer now b p inspect w).
Proof.
  intros Hinv. unfold adoptUnpooledContainer. destruct (project p w) as [q|] eqn:Eq; [|done]. cbn [mbind option_bind].
  destruct (pc_container (wp_container q)) as [c|] eqn:Ec; [|done]. destruct (_ || _); [done|].
  apply project_find in Eq as [Hin Hid]. assert (namedBy c w) as Hna by by exists q.
  destruct (inspect c) as [| |i]; [done|done|]. apply upsertEvent_inv; [by apply Hinv| | |done].
  - intros q' Hin' Hc'. rewrite <- Hid. by eapply (lv_one w Hinv).
  - intros n Hn. by apply (lv_removed w Hinv n c Hn).
Qed.

Lemma adopt_fresh now b p inspect w id : freshId id w -> freshId id (adoptUnpooledContainer now b p inspect w).
Proof.
  intros (He & Hno & Hna & Hpe). unfold adoptUnpooledContainer. destruct (project p w) as [q|] eqn:Eq; [|done]. cbn [mbind option_bind].
  destruct (pc_container (wp_container q)) as [c|] eqn:Ec; [|done]. destruct (_ || _); [done|]. destruct (inspect c) as [| |i]; [done|done|].
  split_and!; [done| |done|done]. intros (m & Hm & Hid). apply upsert_rows in Hm as [[Hc _]|[_ Hm]].
  - apply Hna. exists q. apply project_find in Eq as [Hin _]. split; [done|congruence].
  - apply Hno. by exists m.
Qed.

Lemma rowIn_upsert now b p id s a up w : rowIn p id (onPool (upsertPoolMember now b p id s a up) w).
Proof.
  unfold rowIn. cbn [w_pool onPool setPool].
  destruct (matchesMember id anyMember (pd_members (w_pool w))) eqn:Hm.
  - apply existsb_exists in Hm as (m & Hin & [Hc _]%andb_true_iff).
    assert (In (if upsertMoves now p s a m then upsertedMember now p s a m else m) (pd_members (upsertPoolMember now b p id s a up (w_pool w)))) as H1.
    { unfold upsertPoolMember. rewrite sync_members, pd_setMembers. replace (matchesMember id anyMember _) with true.
      - apply in_map_iff. exists m. by rewrite Hc.
      - symmetry. apply existsb_exists. exists m. by rewrite Hc. }
    apply hasContainer_spec in Hc. eexists. split; [exact H1|].
    apply upsert_rows in H1 as [?|[Hne _]]; [done|]. destruct Hne. by destruct (upsertMoves _ _ _ _ _).
  - unfold upsertPoolMember. rewrite sync_members, pd_setMembers, Hm. eexists. split; [apply in_app_iff; right; by left|done].
Qed.

Lemma requested_inv now b p name mem disk w : life_inv w -> life_inv (provisionRequested now b p name mem disk (provisionBegun p w)).
Proof.
  intros Hinv. apply (event_inv now b (OpenCreate name p mem disk now)); [done|done|]. apply project_inv; [done|by left|done].
Qed.

Lemma created_inv now b image p name id mem disk w : freshId id w -> life_inv w -> life_inv (provisionCreated now b image p name id mem disk w).
Proof.
  intros (He & Hno & Hna & Hpe) Hinv.
  apply (upsertEvent_inv now b p id creating (allocationOf image mem disk) None (onPool (adoptCreateRequestUptime name id) w)); [done| | |].
  - intros q Hin Hc. destruct Hna. by exists q.
  - intros n. apply Hpe.
  - apply (event_inv now b (SettleCreate name (Some id))); [done| |done]. intros m Hm Hc. destruct Hno. by exists m.
Qed.

Lemma ready_inv now b image p id mem disk w : rowIn p id w -> life_inv w -> life_inv (provisionReady now b image p id mem disk w).
Proof.
  intros (m & Hm & Hc & Hp) Hinv. destruct (life_pool_inv w Hinv) as [st Hpi]. apply upsertEvent_inv; [rewrite <- Hc; by apply Hpi| | |done].
  - intros q Hin Hs. rewrite <- Hp. symmetry. by eapply Hinv.
  - intros n Hn. destruct (lv_removed w Hinv n id Hn) as [Hno _]. apply Hno. by exists m.
Qed.

Lemma failed_inv now b p c msg w : life_inv w -> life_inv (provisionFailed now b p c msg w).
Proof.
  intros Hinv. unfold provisionFailed. apply project_inv; [done|by left|]. destruct c as [id|]; [|done].
  apply (event_inv now b (SetOutcome id None (Some msg)) (onPool (setPoolMemberState now b id merror None None) w)); [done|done|].
  by apply (event_inv now b (SetState id merror None None)).
Qed.

Lemma provision_inv now b image p mem disk o w : (forall id, pv_created o = Ok id -> freshId id w) -> life_inv w ->
  life_inv (fst (provisionContainer now b image p mem disk o w)).
Proof.
  intros Hfresh Hinv. unfold provisionContainer. destruct (pv_prepare o).
  { apply failed_inv. apply project_inv; [done|by left|done]. }
  pose proof (requested_inv now b p (pv_name o) mem disk w Hinv) as Hreq.
  destruct (pv_created o) as [id|e]; [|by apply failed_inv].
  assert (freshId id (provisionRequested now b p (pv_name o) mem disk (provisionBegun p w))) as Hf.
  { destruct (Hfresh id eq_refl) as (He & Hno & Hna & Hpe). split_and!; [done|done| |done].
    intros (q & (q0 & Hin & _ & Hor)%In_updateProject & Hc); [|done]. apply Hna. exists q0. split; [done|]. destruct Hor as [<-|[_ Hor]]; [done|].
    cbn in Hor. congruence. }
  pose proof (created_inv now b image p (pv_name o) id mem disk _ Hf Hreq) as Hcr.
  destruct (pv_start o); [by apply failed_inv|].
  assert (rowIn p id (provisionCreated now b image p (pv_name o) id mem disk (provisionRequested now b p (pv_name o) mem disk (provisionBegun p w)))) as Hrow
    by exact (rowIn_upsert now b p id creating (allocationOf image mem disk) None
                (onPool (adoptCreateRequestUptime (pv_name o) id) (provisionRequested now b p (pv_name o) mem disk (provisionBegun p w)))).
  destruct (pv_setup o); [apply failed_inv|apply ready_inv; [exact Hrow|]]; by apply name_inv with (id := id).
Qed.

Lemma claimFor_inv now b id task w : life_inv w -> life_inv (fst (claimFor now b id task w)).
Proof.
  intros Hinv. unfold claimFor. pose proof (event_inv now b (Claim id task) w eq_refl I Hinv) as H. cbn [poolStep] in H.
  by destruct (claimPoolMember _ _ _ _ _).
Qed.

Lemma rowIn_setState now b id s r up p c w : rowIn p c w -> rowIn p c (onPool (setPoolMemberState now b id s r up) w).
Proof.
  intros (m & Hm & Hc & Hp). unfold rowIn. cbn [w_pool onPool setPool]. unfold setPoolMemberState. rewrite sync_members, pd_setMembers.
  exists (if hasContainer id m && negb (inState s m) then withState now s m else m). split; [apply in_map_iff; by exists m|]. by destruct (_ && _).
Qed.

Lemma carryOut_inv now b image p task o mem d w : (forall w, at_wait o w = w) -> (forall id, pv_created (at_provision o) = Ok id -> freshId id w) ->
  (forall pm, chosen d = Some pm -> rowIn p (member_id pm) w) -> (forall l pm, d = recycle l -> In pm l -> rowIn p (member_id pm) w) ->
  life_inv w -> life_inv (fst (carryOut now b image p task o mem d w)).
Proof.
  intros Hwait Hfresh Hch Hrec Hinv. destruct d as [pm|pm|ms| |n|]; cbn [carryOut]; try done.
  - destruct (at_inspect _ _) as [| |i]; [done|by apply (event_inv now b (Remove (member_id pm)))|].
    destruct (in_running i); [by apply claimFor_inv|by apply (event_inv now b (SetState (member_id pm) msuspended None None))].
  - rewrite Hwait. destruct (at_start _ _).
    + apply claimFor_inv. apply name_inv with (id := member_id pm); [done|done| |].
      * apply rowIn_setState. by apply Hch.
      * by apply (event_inv now b (SetState (member_id pm) midle None (Some now))).
    + destruct (at_inspect _ _) as [| |i]; [done|by apply (event_inv now b (Remove (member_id pm)))|done].
  - destruct (project p w); [|done]. cbn [fst]. apply retire_inv; [|done]. intros id Hid. left.
    apply list_elem_of_In, in_map_iff in Hid as (pm & <- & Hpm). by eapply Hrec.
  - destruct (project p w) as [q|]; [|done].
    pose proof (provision_inv now b image p mem (wp_diskGb q) (at_provision o) w Hfresh Hinv) as Hp.
    destruct (provisionContainer _ _ _ _ _ _ _ _) as [w1 [id|e]]; [by apply claimFor_inv|done].
Qed.

Lemma attempt_inv now b image J p task wl bs o w : lifeEvent_ok now w (EvAttempt J p task wl bs o) -> life_inv w ->
  life_inv (fst (attemptAcquire now b image J p task wl bs o w)).
Proof.
  intros [Hwait Hfresh] Hinv. unfold attemptAcquire. set (w0 := if bs then w else _).
  assert (life_inv w0) as H0 by (subst w0; destruct bs; [done|by apply adoptUnpooled_inv]).
  assert (forall id, pv_created (at_provision o) = Ok id -> freshId id w0) as Hf0.
  { intros id Hid. subst w0. destruct bs; [by apply Hfresh|]. by apply adopt_fresh, Hfresh. }
  clearbody w0. destruct (getActiveContainers _ _ _) as [active|]; [|done]. cbv zeta. set (d := decidePoolAcquisition _ _ _ _ _ _).
  assert (life_inv (fst (carryOut now b image p task o (projectContainerMemoryGb (instanceOf J w0) p) d w0))) as Hc.
  { apply carryOut_inv; [done|done| | |done].
    - intros pm (m & Hm & Hc & Hp & _)%decide_fit. by exists m.
    - intros l pm Hd Hpm. eapply select_recycle in Hd; [|exact Hpm]. apply load_In in Hd as (m & Hm & Hp & Hc & _). by exists m. }
  clearbody d. destruct d; try destruct (_ && _); try done; exact Hc.
Qed.

(** *** The reconcile and the rest *)

Lemma reconcile_inv now b jsNow inspect m w r : In m (pd_members (w_pool w)) -> life_inv w ->
  life_inv (fst (reconcileMember now b jsNow inspect m (w, r))).
Proof.
  intros Hm Hinv. pose proof (stateOf_In _ _ (life_unique w Hinv) Hm) as Hs. unfold reconcileMember.
  destruct (callInFlight _ _); [done|]. destruct (_ && _); [by apply (event_inv now b (FailWedged (mr_container m)))|].
  destruct (inspect (mr_container m)) as [| |i]; [done|by apply (event_inv now b (Remove (mr_container m)))|].
  pose proof (learned_spec now m i w) as (Hst & _ & _). cbn zeta in *. set (w1 := match mr_memory m with None => _ | Some _ => w end) in *.
  assert (life_inv w1) as H1.
  { subst w1. destruct (mr_memory m); [done|]. by apply (event_inv now b (RecordMemory (mr_container m) (in_memory i))). }
  clearbody w1. rewrite <- Hst in Hs.
  assert (forall m', In m' (pd_members (w_pool w1)) -> mr_container m' = mr_container m -> mr_state m' = mr_state m) as Hrow.
  { intros m' Hm' Hc. pose proof (stateOf_In _ _ (life_unique w1 H1) Hm') as Hs'. rewrite Hc in Hs'. congruence. }
  destruct (in_running i); [|destruct (in_transitioning i); [done|]]; destruct (mr_state m) eqn:Es; try done.
  1,2: apply (event_inv now b (EnsureOpen (mr_container m))); [done|intros m' Hm' Hc; by rewrite (Hrow m' Hm' Hc)|done].
  - by apply (event_inv now b (MarkRunning (mr_container m) None)).
  - set (out := if _ =? 0 then _ else _). clearbody out.
    apply (event_inv now b (SetState (mr_container m) msuspended None None) (onPool (setPoolMemberOutcome now (mr_container m) None (Some out)) w1));
      [done|done|]. by apply (event_inv now b (SetOutcome (mr_container m) None (Some out))).
  - set (out := if _ =? 0 then _ else _). clearbody out. by apply (event_inv now b (SetOutcome (mr_container m) None (Some out))).
  - apply (event_inv now b (CloseUptime (mr_container m) Reconciled)); [done|intros m' Hm' Hc; by rewrite (Hrow m' Hm' Hc)|done].
  - apply (event_inv now b (CloseUptime (mr_container m) Reconciled)); [done|intros m' Hm' Hc; by rewrite (Hrow m' Hm' Hc)|done].
Qed.

Lemma close_gone_inv now id r w : ~ rowOf id w -> life_inv w -> life_inv (onPool (closeContainerUptime now id r) w).
Proof. intros Hno. apply (event_inv now "" (CloseUptime id r)); [done|]. intros m Hm Hc. destruct Hno. by exists m. Qed.

Lemma adoptGone_inv name id w : ~ rowOf id w -> life_inv w -> life_inv (onPool (settleCreateRequestUptime name (Some id)) w).
Proof. intros Hno. apply (event_inv 0 "" (SettleCreate name (Some id))); [done|]. intros m Hm Hc. destruct Hno. by exists m. Qed.

Lemma unsettled_no_row now minAge limit u w : In u (listUnsettledUptime now minAge limit (w_pool w)) -> ~ rowOf (u_container u) w.
Proof.
  unfold listUnsettledUptime, listUnsettledIntervals. intros (e & <- & He)%in_map_iff (m & Hm & Hc). cbn in Hc.
  apply list_elem_of_In, elem_of_take in He as (i & Hi & _). apply list_elem_of_lookup_2, list_elem_of_In in Hi.
  apply (js_sort_In byStart), filter_In in Hi as [_ [_ Hno]%andb_true_iff]. apply negb_true_iff in Hno. unfold is_member in Hno.
  rewrite existsb_false_iff in Hno. specialize (Hno (asMember m) (in_map _ _ _ Hm)). cbn in Hno. by rewrite Hc, String.eqb_refl in Hno.
Qed.

Lemma settleInterval_inv now inspect lookup w u : lifeEvent_ok now w (EvSettle u inspect lookup) -> life_inv w ->
  life_inv (settleInterval now inspect lookup w u).
Proof.
  intros [Hu Hl] Hinv. apply unsettled_no_row in Hu. unfold settleInterval. destruct (callInFlight _ _); [done|].
  destruct (provisional u).
  - destruct (lookup _) as [| |id] eqn:E; [done| |eapply adoptGone_inv; [by eapply Hl|done]].
    by apply (event_inv now "" (SettleCreate (containerNameFromProvisionalKey (u_container u)) None)).
  - destruct (inspect _) as [| |i]; [done|by apply (close_gone_inv now)|]. destruct (_ && _); [by apply (close_gone_inv now)|done].
Qed.

Lemma drop_inv now id c w : life_inv w -> life_inv (dropRemovedMember now id c w).
Proof. intros Hinv. unfold dropRemovedMember. destruct c; [by apply (event_inv now "" (Remove id))|by apply (event_inv now "" (Forget id))]. Qed.

Lemma stop_inv now b p id r logs f w : life_inv w -> life_inv (stopContainerGracefully now b p id r logs f w).
Proof.
  intros Hinv. unfold stopContainerGracefully. destruct f as [msg|].
  - apply (event_inv now b (SetOutcome id logs (Some msg))); [done|done|]. apply project_inv; [done|by left|done].
  - set (w1 := updateProject _ _ _ _). assert (life_inv w1) as H1 by (apply project_inv; [done|by left|done]).
    apply (event_inv now b (SetState id msuspended r None) (onPool (setPoolMemberOutcome now id logs None) w1)); [done|done|].
    by apply (event_inv now b (SetOutcome id logs None)).
Qed.

Lemma callDone_inv now b n logs f w : life_inv w -> life_inv (callDone now b n logs f w).
Proof.
  intros Hinv. unfold callDone. destruct (List.find _ _) as [[[k id] [|p r]]|] eqn:E; [| |done].
  - apply settleCall_inv. unfold finishRemoval. destruct (isNull f); [|done]. apply (close_gone_inv now); [|done].
    apply find_some in E as [Hin _]. by apply (lv_removed w Hinv k id Hin).
  - apply settleCall_inv. by apply stop_inv.
Qed.

Lemma sync_inv now b p id a prev logs msg w : life_inv w -> life_inv (fst (syncContainerStatus now b p id a prev logs msg w)).
Proof.
  intros Hinv. unfold syncContainerStatus. destruct a as [| |i]; [done| |].
  - apply project_inv; [done|by right|done].
  - destruct (_ && _); [done|]. cbv zeta. destruct (_ && _); cbn [fst]; [|apply project_inv; [done|by left|done]].
    set (w1 := updateProject _ _ _ _). assert (life_inv w1) as H1 by (apply project_inv; [done|by left|done]).
    apply (event_inv now b (SetState id msuspended None None) (onPool (setPoolMemberOutcome now id logs (Some msg)) w1)); [done|done|].
    by apply (event_inv now b (SetOutcome id logs (Some msg))).
Qed.

Lemma lifeStep_inv now b image w e : lifeEvent_ok now w e -> life_inv w -> life_inv (lifeStep now b image w e).
Proof.
  intros Hok Hinv. destruct e; cbn [lifeStep]; cbn [lifeEvent_ok] in Hok.
  - by apply attempt_inv.
  - by apply (event_inv now b (Release id task byChat)).
  - apply retire_inv; [|done]. intros id Hid. left. by apply Hok.
  - by apply callDone_inv.
  - by apply reconcile_inv.
  - by apply settleInterval_inv.
  - destruct found as [| |id]; cbn [settleFailedCreate]; [done|by apply (event_inv now b (SettleCreate name None))|].
    pose proof (adoptGone_inv name id w Hok Hinv) as H1. destruct removed; [|done]. by apply (close_gone_inv now).
  - by apply sync_inv.
  - unfold destroyContainer. apply project_inv; [done|by right|]. apply drop_inv. by apply (event_inv now b (SetOutcome id logs None)).
  - unfold teardownContainer. apply project_inv; [done|by right|]. generalize (remove_dups (listPoolContainerIds projectId (pd_members (w_pool w)) ++
      match project projectId w ≫= (fun p => pc_container (wp_container p)) with Some c => if String.eqb c "" then [] else [c] | None => [] end)) as l.
    intros l. revert w Hok Hinv. induction l as [|id l IH]; intros w Hok Hinv; [done|]. cbn [fold_left]. apply IH; [done|by apply drop_inv].
  - by apply (event_inv now b (ReleaseIfGone runningOn id)).
  - apply (event_inv now b FailInterrupted (onPool (fun db => fst (reclaimBusyPoolMembers now b db)) w)); [done|done|].
    by apply (event_inv now b ReclaimBusy).
  - by apply requested_inv.
  - by apply created_inv.
  - by apply name_inv with (id := id).
  - by apply ready_inv.
  - by apply failed_inv.
Qed.

Lemma life_reach_inv w : life_reach w -> life_inv w.
Proof.
  induction 1 as [ps holds Hps|w now b image e Hr IH Hok]; [|by apply lifeStep_inv].
  split; cbn; try done.
  - exists []. constructor.
  - intros id (p & Hp & Hc). rewrite (Hps p Hp) in Hc. done.
  - intros p p' id Hp _ Hc. rewrite (Hps p Hp) in Hc. done.
Qed.

(** C5. The lifecycle refines the pool: acquires, provisions, retirements and the engine calls
    they leave in flight, reconciles, syncs, removals and boots, in any order, only reach
    states a history of the pool reaches. So each row that counts towards the memory budget
    has its hours billed; no container being removed has a row or a project that could hand it
    to a run; and a container a project names is that project's. *)
Theorem lifecycle_refines_pool w : life_reach w ->
  (exists stopping, pool_reach stopping (w_pool w)) /\
  (forall m, In m (pd_members (w_pool w)) -> containerCountsTowardBudget (mr_state m) = true ->
     hasOpen (mr_container m) (pd_ledger (w_pool w)) = true) /\
  (forall n id, In (n, id, RemovalCall) (w_pending w) -> ~ rowOf id w /\ ~ namedBy id w) /\
  (forall p id m, In p (w_projects w) -> pc_container (wp_container p) = Some id -> In m (pd_members (w_pool w)) ->
     mr_container m = id -> mr_project m = wp_id p).
Proof.
  intros Hinv%life_reach_inv. split_and!; [apply Hinv| |apply Hinv|apply Hinv].
  intros m Hin Hc. destruct (life_pool_inv w Hinv) as [st Hpi]. pose proof (pi_billed _ _ Hpi m Hin) as Hb. unfold billed in Hb.
  by destruct (mr_state m).
Qed.

(** A project without a container provisions one for a run. *)
Definition ex_empty : World :=
  mkWorld (mkPoolDb [] []) [mkProjectW (mkProjectContainer "p" "P" "p" None None None None) "team" None 5 false] [] [] ∅ 0.

Lemma lifecycle_refines_pool_witness :
  let w := lifeStep 1000 "docker" "v1" ex_empty (EvAttempt ex_settings "p" None TaskRun false ex_attempt) in
  List.map (fun m => (mr_container m, mr_state m)) (pd_members (w_pool w)) = [("new", mbusy)] /\
  hasOpen "new" (pd_ledger (w_pool w)) = true.
Proof.
  intros w. assert (List.map (fun m => (mr_container m, mr_state m)) (pd_members (w_pool w)) = [("new", mbusy)]) as Hm
    by (vm_compute; reflexivity).
  split; [exact Hm|].
  assert (life_reach w) as Hr.
  { constructor; [constructor; by intros p [<-|[]]|]. split; [done|]. intros id [= <-]. split_and!; [done| | |by intros n c []].
    - by intros (m & [] & _).
    - intros (p & [<-|[]] & [=]). }
  clearbody w. destruct (lifecycle_refines_pool w Hr) as (_ & Hb & _).
  destruct (pd_members (w_pool w)) as [|m [|]] eqn:E; try done. cbn in Hm. injection Hm as Hc Hs.
  rewrite <- Hc. apply Hb; [by left|]. by rewrite Hs.
Defined.
