(* ===== verification/Wakeups.v ===== *)
(** * Wakeup requests

    A model of [packages/server/src/services/wakeup.ts]: the table
    [agent_wakeup_requests] as a list of rows, and each function as the statements it runs.
    [createWakeup] awaits between its statements, so other writers may change the table
    there: what they do is an argument, one function per gap.

    A stored payload is a finite map of JSON values; a payload an operation is called with
    may also hold [undefined], which [JSON.stringify] drops. [render] is the text of a JSON
    value that is neither a string nor null under [->>]. *)
From Stdlib Require Import ZArith Lia Ascii String List Bool Permutation Sorted.
From stdpp Require Import base list strings gmap option.
From S2P Require Import Prelude JsString Sql.

Open Scope string_scope.
Open Scope list_scope.
Open Scope Z_scope.

Inductive WakeupSource :=
| Timer | Assignment | OnDemand | Mention | Automation | CredentialProvided | AssetDeletionResolved
| ApprovalResolved | Comment | Reply | Heartbeat.

Inductive WakeupStatus := Queued | Claimed | Completed | Failed | Skipped | Coalesced | Deferred | Cancelled.

#[export] Instance WakeupSource_eq_dec : EqDecision WakeupSource.
Proof. solve_decision. Defined.
#[export] Instance WakeupStatus_eq_dec : EqDecision WakeupStatus.
Proof. solve_decision. Defined.

Definition TERMINAL_WAKEUP_STATUSES : list WakeupStatus := [Completed; Failed; Skipped; Coalesced; Cancelled].

Definition DISPATCH_SUPPRESSION_EXEMPT_SOURCES : list WakeupSource :=
  [Mention; Comment; Reply; OnDemand; CredentialProvided; AssetDeletionResolved; ApprovalResolved].

Definition exempt (s : WakeupSource) : bool := bool_decide (s ∈ DISPATCH_SUPPRESSION_EXEMPT_SOURCES).
Definition terminal (s : WakeupStatus) : bool := bool_decide (s ∈ TERMINAL_WAKEUP_STATUSES).

Notation Payload := (gmap string Json).
Notation JsPayload := (gmap string (option Json)).

Record Wakeup := mkWakeup {
  w_id : string; w_member : string; w_team : string; w_source : WakeupSource; w_payload : Payload;
  w_status : WakeupStatus; w_key : option string; w_run : option string; w_created : Z; w_count : Z;
  w_claimed : option Z; w_skipped : option Z; w_reason : option string; w_not_before : option Z;
  w_held : option string; w_completed : option Z
}.

Notation Table := (list Wakeup).

Definition isQueued (w : Wakeup) : bool := bool_decide (w_status w = Queued).
Definition hasId (id : string) (w : Wakeup) : bool := String.eqb (w_id w) id.

(** [UPDATE ... SET f WHERE p]. *)
Definition update (p : Wakeup -> bool) (f : Wakeup -> Wakeup) (t : Table) : Table :=
  List.map (fun w => if p w then f w else w) t.

Definition coalesce {A} (a b : option A) : option A := match a with Some _ => a | None => b end.

Section Wakeups.
Variable render : Json -> string.

(** [payload->>'key']. *)
Definition text (p : Payload) (key : string) : option string :=
  match p !! key with
  | None | Some JNull => None
  | Some (JStr s) => Some s
  | Some j => Some (render j)
  end.

Definition stringify (p : JsPayload) : Payload := omap id p.

(** The keys are independent, so the loop is a merge of the two maps. *)
Definition mergeValue (e : option Json) (i : option (option Json)) : option Json :=
  match e, i with
  | Some (JArr a), Some (Some (JArr b)) => Some (JArr (a ++ b))
  | _, Some (Some v) => Some v
  | _, _ => e
  end.
Definition mergePayloads (existing : Payload) (incoming : JsPayload) : Payload := merge mergeValue existing incoming.

(** What other writers do to the table in each gap of [createWakeup]. *)
Record Interference := mkInterference {
  after_lookup : Table -> Table; after_select : Table -> Table; after_merge : Table -> Table
}.
Definition quiet : Interference := mkInterference (fun t => t) (fun t => t) (fun t => t).

Definition credit (run : option string) (w : Wakeup) : Wakeup :=
  mkWakeup (w_id w) (w_member w) (w_team w) (w_source w) (w_payload w) (w_status w) (w_key w) run (w_created w)
    (w_count w) (w_claimed w) (w_skipped w) (w_reason w) (w_not_before w) (w_held w) (w_completed w).

Definition payloadTask (p : JsPayload) : option string :=
  match p !! "task_id" with Some (Some (JStr s)) => Some s | _ => None end.

Definition coalescable (memberId : string) (taskId : option string) (w : Wakeup) : bool :=
  String.eqb (w_member w) memberId && isQueued w
  && bool_decide (text (w_payload w) "trigger" = None)
  && match taskId with
     | None => bool_decide (text (w_payload w) "task_id" = None)
     | Some s => bool_decide (text (w_payload w) "task_id" = Some s)
     end.

Definition newestFirst (a b : Wakeup) : Z := w_created b - w_created a.

Definition promoteSource (source stored : WakeupSource) : bool := exempt source && negb (exempt stored).

Definition absorb (p : Payload) (promote : bool) (source : WakeupSource) (run : option string) (w : Wakeup) : Wakeup :=
  mkWakeup (w_id w) (w_member w) (w_team w) (if promote then source else w_source w) p (w_status w) (w_key w)
    (coalesce run (w_run w)) (w_created w) (w_count w + 1) (w_claimed w) (w_skipped w) (w_reason w) (w_not_before w)
    (w_held w) (w_completed w).

Definition insertWakeup (now : Z) (newId memberId teamId : string) (source : WakeupSource) (payload : JsPayload)
    (key run : option string) (t : Table) : Table * string :=
  (t ++ [mkWakeup newId memberId teamId source (stringify payload) Queued key run now 0 None None None None None None],
   newId).

Definition mergedPayload (existing : Wakeup) (payload : JsPayload) (run : option string) : Payload :=
  let merged := mergePayloads (w_payload existing) payload in
  match truthy run with Some _ => delete "triggered_by" merged | None => merged end.

Definition createWakeup (env : Interference) (now : Z) (newId memberId teamId : string) (source : WakeupSource)
    (payload : JsPayload) (idempotencyKey createdByRunId : option string) (t : Table) : Table * string :=
  let existing := match truthy idempotencyKey with
                  | None => None
                  | Some k => List.find (fun w => bool_decide (w_key w = Some k) && isQueued w) t
                  end in
  match existing with
  | Some e =>
      match truthy createdByRunId with
      | Some run => (update (hasId (w_id e)) (credit (Some run)) (after_lookup env t), w_id e)
      | None => (t, w_id e)
      end
  | None =>
      let t := after_lookup env t in
      match js_sort newestFirst (List.filter (coalescable memberId (payloadTask payload)) t) with
      | [] => insertWakeup now newId memberId teamId source payload idempotencyKey createdByRunId (after_select env t)
      | e :: _ =>
          let t := after_select env t in
          let hit := fun w => hasId (w_id e) w && isQueued w in
          if existsb hit t then
            (update hit (absorb (mergedPayload e payload createdByRunId) (promoteSource source (w_source e)) source
                           createdByRunId) t, w_id e)
          else insertWakeup now newId memberId teamId source payload idempotencyKey createdByRunId (after_merge env t)
      end
  end.

Definition createProgressUpdateWakeup (gap : Table -> Table) (now : Z) (newId captain teamId projectId : string)
    (source : WakeupSource) (sourceName : string) (triggeredBy : option Json) (t : Table) : Table * string :=
  match List.find (fun w => String.eqb (w_member w) captain && isQueued w
                    && bool_decide (text (w_payload w) "trigger" = Some "progress_update_now")) t with
  | Some e => (t, w_id e)
  | None =>
      let base : JsPayload := <["project_id" := Some (JStr projectId)]>
        (<["trigger" := Some (JStr "progress_update_now")]> (<["source" := Some (JStr sourceName)]> ∅)) in
      let payload := match triggeredBy with Some j => <["triggered_by" := Some j]> base | None => base end in
      insertWakeup now newId captain teamId source payload (Some ("progress_update_now:" +:+ captain)) None (gap t)
  end.

Definition setStatus (s : WakeupStatus) (w : Wakeup) : Wakeup :=
  mkWakeup (w_id w) (w_member w) (w_team w) (w_source w) (w_payload w) s (w_key w) (w_run w) (w_created w)
    (w_count w) (w_claimed w) (w_skipped w) (w_reason w) (w_not_before w) (w_held w) (w_completed w).

Definition absorbable (memberId taskId exceptId : string) (w : Wakeup) : bool :=
  String.eqb (w_member w) memberId && isQueued w && bool_decide (text (w_payload w) "task_id" = Some taskId)
  && negb (hasId exceptId w).

Definition absorbQueuedTaskWakeups (memberId taskId exceptWakeupId : string) (t : Table) : Table * list string :=
  let p := absorbable memberId taskId exceptWakeupId in
  (update p (setStatus Coalesced) t, List.map w_id (List.filter p t)).

Record RunRow := mkRun { r_member : string; r_task : string; r_status : string; r_started : option Z }.

Definition assignmentWakeupAlreadyServed (memberId taskId : string) (wakeupCreatedAt : Z) (runs : list RunRow) : bool :=
  existsb (fun r => String.eqb (r_member r) memberId && String.eqb (r_task r) taskId
                    && String.eqb (r_status r) "succeeded"
                    && match r_started r with Some s => wakeupCreatedAt <=? s | None => false end) runs.

Definition wakeAgentIfAssigned (agents : list string) (env : Interference) (now : Z) (newId : string)
    (assigneeId : option string) (teamId taskId : string) (source : WakeupSource) (extraPayload : JsPayload)
    (createdByRunId : option string) (t : Table) : Table :=
  match truthy assigneeId with
  | None => t
  | Some a =>
      if bool_decide (a ∈ agents) then
        fst (createWakeup env now newId a teamId source (extraPayload ∪ {["task_id" := Some (JStr taskId)]}) None
               createdByRunId t)
      else t
  end.
End Wakeups.

(** ** Settlement *)

Inductive HandbackCause :=
| CredentialHold (usage : bool) (notBefore : Z) (heldConfigId : string)
| OtherHold (reason : string) (notBefore : option Z).

Definition causeReason (c : HandbackCause) : string :=
  match c with
  | CredentialHold true _ _ => "provider_usage_limit"
  | CredentialHold false _ _ => "provider_allowance_pace"
  | OtherHold r _ => r
  end.
Definition causeNotBefore (c : HandbackCause) : option Z :=
  match c with CredentialHold _ n _ => Some n | OtherHold _ n => n end.
Definition causeHeld (c : HandbackCause) : option string :=
  match c with CredentialHold _ _ h => Some h | OtherHold _ _ => None end.

Inductive SettlementIntent := Handback (c : HandbackCause) | Complete | Fail_ | Withdraw.
Inductive WakeupSettlement := Requeued | HandbackFailed | TerminalAt (s : WakeupStatus) | NothingToSettle.

Definition SETTLEMENT_TERMINAL_STATUS (i : SettlementIntent) : WakeupStatus :=
  match i with Complete => Completed | Fail_ => Failed | _ => Cancelled end.

Definition handBack (now : Z) (c : HandbackCause) (w : Wakeup) : Wakeup :=
  mkWakeup (w_id w) (w_member w) (w_team w) (w_source w) (w_payload w) Queued (w_key w) (w_run w) (w_created w)
    (w_count w) None (Some now) (Some (causeReason c)) (causeNotBefore c) (causeHeld c) (w_completed w).

Definition finish (now : Z) (s : WakeupStatus) (w : Wakeup) : Wakeup :=
  mkWakeup (w_id w) (w_member w) (w_team w) (w_source w) (w_payload w) s (w_key w) (w_run w) (w_created w)
    (w_count w) (w_claimed w) (w_skipped w) (w_reason w) (w_not_before w) (w_held w) (Some now).

Definition settleWakeupForRun (now : Z) (wakeupId : option string) (intent : SettlementIntent) (t : Table)
    : Table * WakeupSettlement :=
  match truthy wakeupId with
  | None => (t, NothingToSettle)
  | Some id =>
      match intent with
      | Handback c =>
          let p := fun w => hasId id w && bool_decide (w_status w = Claimed) in
          (update p (handBack now c) t, if existsb p t then Requeued else HandbackFailed)
      | _ =>
          let status := SETTLEMENT_TERMINAL_STATUS intent in
          let p := fun w => hasId id w && negb (terminal (w_status w)) in
          if existsb p t then (update p (finish now status) t, TerminalAt status)
          else (t, match List.find (hasId id) t with Some w => TerminalAt (w_status w) | None => NothingToSettle end)
      end
  end.

(** ** Releasing held wakeups *)

Definition holdElapsed (now : Z) (w : Wakeup) : bool :=
  match w_not_before w with None => true | Some n => n <=? now end.

Definition USAGE_HOLD_RELEASE_SPACING_SEC : Z := 30.

Definition usageHeld (now : Z) (configId : string) (w : Wakeup) : bool :=
  isQueued w && bool_decide (w_reason w = Some "provider_usage_limit")
  && match w_not_before w with Some n => now <? n | None => false end
  && match w_held w with None => true | Some h => String.eqb h configId end.

(** [ORDER BY created_at, id]. *)
Definition stringCompare (a b : string) : Z :=
  match String.compare a b with Lt => -1 | Eq => 0 | Gt => 1 end.
Definition oldestFirst (a b : Wakeup) : Z :=
  if w_created a =? w_created b then stringCompare (w_id a) (w_id b) else w_created a - w_created b.

Definition release (now : Z) (position : nat) (w : Wakeup) : Wakeup :=
  mkWakeup (w_id w) (w_member w) (w_team w) (w_source w) (w_payload w) (w_status w) (w_key w) (w_run w) (w_created w)
    (w_count w) (w_claimed w) (w_skipped w) (w_reason w)
    (Some (now + Z.of_nat position * (USAGE_HOLD_RELEASE_SPACING_SEC * US_PER_SEC))) (w_held w) (w_completed w).

Fixpoint positionOf (id : string) (l : Table) : option nat :=
  match l with
  | [] => None
  | w :: l => if hasId id w then Some O else S <$> positionOf id l
  end.

Definition releaseUsageHeldWakeups (now : Z) (configId : string) (t : Table) : Table * Z :=
  let held := js_sort oldestFirst (List.filter (usageHeld now configId) t) in
  (List.map (fun w => match positionOf (w_id w) held with Some i => release now i w | None => w end) t,
   countZ (fun w => match positionOf (w_id w) held with Some _ => true | None => false end) t).

(** ** Creating a wakeup *)

(** What every writer of the table guarantees: a row keeps its agent, and a source exempt
    from dispatch suppression is never replaced by one that is not. *)
Definition kept (t t' : Table) : Prop :=
  forall w w', In w t -> In w' t' -> w_id w = w_id w' ->
    w_member w' = w_member w /\ (exempt (w_source w) = true -> exempt (w_source w') = true).
Definition guarantees (f : Table -> Table) : Prop := forall t, NoDup (List.map w_id t) -> kept t (f t).

(** A stored value that holds an incoming one: the value, or an array that ends with it. *)
Definition holds (stored v : Json) : Prop := stored = v \/ exists a b, v = JArr b /\ stored = JArr (a ++ b).

Definition carries (payload : JsPayload) (run : option string) (w : Wakeup) : Prop :=
  forall k v, payload !! k = Some (Some v) -> (k = "triggered_by" -> truthy run = None) ->
    exists stored, w_payload w !! k = Some stored /\ holds stored v.

Lemma update_In p f t w : In w t -> p w = true -> In (f w) (update p f t).
Proof. intros Hin Hp. unfold update. apply in_map_iff. exists w. by rewrite Hp. Qed.

Lemma merge_holds existing incoming k v : incoming !! k = Some (Some v) ->
  exists stored, mergePayloads existing incoming !! k = Some stored /\ holds stored v.
Proof.
  intros Hk. unfold mergePayloads. rewrite lookup_merge, Hk. unfold diag_None.
  destruct (existing !! k) as [[| | | |a|]|]; cbn;
    try (eexists; split; [reflexivity|by left]).
  destruct v; (eexists; split; [reflexivity|]); try (by left). right. eauto.
Qed.

Lemma mergedPayload_carries e payload run w :
  w_payload w = mergedPayload e payload run -> carries payload run w.
Proof.
  intros Hw k v Hk Ht. destruct (merge_holds (w_payload e) payload k v Hk) as (s & Hs & Hh). exists s. split; [|done].
  rewrite Hw. unfold mergedPayload. destruct (truthy run) eqn:E; [|done].
  rewrite lookup_delete_ne; [done|]. intros <-. specialize (Ht eq_refl). congruence.
Qed.

Lemma stringify_carries payload run w : w_payload w = stringify payload -> carries payload run w.
Proof.
  intros Hw k v Hk _. exists v. split; [|by left]. rewrite Hw. unfold stringify. by rewrite lookup_omap, Hk.
Qed.

Lemma coalescable_spec render m task w : coalescable render m task w = true ->
  w_member w = m /\ w_status w = Queued /\ text render (w_payload w) "task_id" = task.
Proof.
  unfold coalescable, isQueued. rewrite !andb_true_iff, String.eqb_eq, !bool_decide_eq_true.
  intros (((H1 & H2) & _) & H3). split; [done|]. split; [done|]. destruct task; by apply bool_decide_eq_true in H3.
Qed.

Lemma sort_head_in {A} (cmp : A -> A -> Z) l e rest : js_sort cmp l = e :: rest -> In e l.
Proof. intros H. apply (js_sort_In cmp). rewrite H. by left. Qed.

Section Create.
Variable render : Json -> string.

(** The row a call leaves the trigger on. *)
Lemma createWakeup_row env now newId memberId teamId source payload key run t :
  guarantees (after_select env) -> NoDup (List.map w_id (after_lookup env t)) ->
  let '(t', id) := createWakeup render env now newId memberId teamId source payload key run t in
  (exists k w, truthy key = Some k /\ In w t /\ w_key w = Some k /\ w_status w = Queued /\ w_id w = id /\
     (t' = t \/ exists r, t' = update (hasId id) (credit r) (after_lookup env t))) \/
  (exists w, In w t' /\ w_id w = id /\ w_status w = Queued /\ w_member w = memberId /\
     (exempt source = true -> exempt (w_source w) = true) /\ carries payload run w).
Proof.
  intros Henv Hids. unfold createWakeup.
  assert (forall k run t, exists w, In w (fst (insertWakeup now newId memberId teamId source payload k run t)) /\
    w_id w = newId /\ w_status w = Queued /\ w_member w = memberId /\
    (exempt source = true -> exempt (w_source w) = true) /\ carries payload run w) as Hins.
  { intros k r t0. eexists. split; [apply in_app_iff; right; by left|]. split_and!; try done. by apply stringify_carries. }
  destruct (match truthy key with None => None | Some k => _ end) as [e|] eqn:Ee.
  - destruct (truthy key) as [k|] eqn:Ek; [|done]. apply find_some in Ee as [Hin He].
    apply andb_true_iff in He as [Hk Hq]. unfold isQueued in Hq. apply bool_decide_eq_true in Hk, Hq.
    destruct (truthy run); left; exists k, e; split_and!; eauto.
  - clear Ee. set (t1 := after_lookup env t). destruct (js_sort _ _) as [|e rest] eqn:Es.
    + unfold insertWakeup. right. apply (Hins key run).
    + apply sort_head_in, filter_In in Es as [Hin Hc]. apply coalescable_spec in Hc as (Hm & _ & _).
      destruct (existsb _ _) eqn:Ex; [|unfold insertWakeup; right; apply (Hins key run)].
      apply existsb_exists in Ex as (w & Hw & Hhit). right. eexists. split; [apply update_In; [exact Hw|exact Hhit]|].
      apply andb_true_iff in Hhit as [Hid Hq]. unfold hasId in Hid. apply String.eqb_eq in Hid.
      unfold isQueued in Hq. apply bool_decide_eq_true in Hq.
      destruct (Henv t1 Hids e w Hin Hw (eq_sym Hid)) as [Hmem Hex].
      split_and!; cbn; [done|done|congruence| |by apply (mergedPayload_carries e)].
      unfold promoteSource. intros Hs. rewrite Hs. cbn. destruct (exempt (w_source e)); cbn; auto.
Qed.

(** Where the row comes from: a new one, when there is none to fold the trigger into, or the
    newest that there is. *)
Lemma createWakeup_origin now newId m team source payload key run t :
  NoDup (List.map w_id t) -> (forall w k, In w t -> key = Some k -> w_key w <> Some k) ->
  let t' := fst (createWakeup render quiet now newId m team source payload key run t) in
  exists w, In w t' /\ w_status w = Queued /\ w_member w = m /\
    ((w_source w = source /\ w_payload w = stringify payload) \/
     exists e, In e t /\ coalescable render m (payloadTask payload) e = true /\
       w_source w = (if promoteSource source (w_source e) then source else w_source e) /\ w_payload w = mergedPayload e payload run).
Proof.
  intros Hnd Hkey. unfold createWakeup.
  destruct (match truthy key with None => None | Some k => _ end) as [e|] eqn:Ee.
  { exfalso. destruct key as [[|c k]|]; try done. cbn [truthy] in Ee. apply find_some in Ee as [Hin He].
    apply andb_true_iff in He as [He _]. apply bool_decide_eq_true in He. by apply (Hkey e _ Hin eq_refl). }
  clear Ee. cbn [after_lookup after_select after_merge quiet]. destruct (js_sort _ _) as [|e rest] eqn:Es.
  - eexists. split; [apply in_app_iff; right; by left|]. split_and!; try done. left. by split.
  - apply sort_head_in, filter_In in Es as [Hin Hc]. pose proof (coalescable_spec _ _ _ _ Hc) as (Hm & Hq & _).
    assert (hasId (w_id e) e && isQueued e = true) as Hhit by (unfold hasId, isQueued; rewrite String.eqb_refl; by apply bool_decide_eq_true).
    assert (existsb (fun w => hasId (w_id e) w && isQueued w) t = true) as -> by (apply existsb_exists; eauto).
    eexists. split; [apply update_In; [exact Hin|exact Hhit]|]. split_and!; [done|done|]. right. by exists e.
Qed.

(** The promise [createWakeup_queues] relies on is one [createWakeup] keeps. *)
Lemma update_kept p f t : NoDup (List.map w_id t) -> (forall w, w_id (f w) = w_id w /\ w_member (f w) = w_member w /\
    (exempt (w_source w) = true -> exempt (w_source (f w)) = true)) -> kept t (update p f t).
Proof.
  intros Hnd Hf w w' Hin (w0 & <- & Hin0)%in_map_iff Hid.
  assert (w_id w = w_id w0) as Hid0 by (rewrite Hid; destruct (p w0); [apply Hf|done]).
  assert (w = w0) as -> by (eapply NoDup_fmap_In; eauto).
  destruct (p w0); [|done]. destruct (Hf w0) as (_ & ? & ?). done.
Qed.

Lemma insert_kept now newId m team source payload key run t : NoDup (List.map w_id t) -> ~ In newId (List.map w_id t) ->
  kept t (fst (insertWakeup now newId m team source payload key run t)).
Proof.
  intros Hnd Hnew w w' Hin [Hin'|[<-|[]]]%in_app_iff Hid.
  - assert (w = w') as -> by (eapply NoDup_fmap_In; eauto). done.
  - exfalso. apply Hnew. apply in_map_iff. eauto.
Qed.

Lemma createWakeup_kept now newId m team source payload key run t :
  NoDup (List.map w_id t) -> ~ In newId (List.map w_id t) ->
  kept t (fst (createWakeup render quiet now newId m team source payload key run t)).
Proof.
  intros Hnd Hnew. assert (kept t t) as Hrefl.
  { intros w w' Hin Hin' Hid. assert (w = w') as -> by (eapply NoDup_fmap_In; eauto). done. }
  unfold createWakeup. destruct (match truthy key with None => None | Some k => _ end) as [e|].
  - destruct (truthy run); [|done]. cbn. by apply update_kept.
  - cbn [quiet after_lookup after_select after_merge].
    destruct (js_sort _ _) as [|e rest]; [by apply insert_kept|].
    destruct (existsb _ _); [|by apply insert_kept]. cbn [fst]. apply update_kept; [done|].
    intros w. split; [done|]. split; [done|]. cbn. unfold promoteSource.
    destruct (exempt source) eqn:E, (exempt (w_source e)); cbn; done.
Qed.

(** A payload names a task by its text, or names none. *)
Definition names_task (payload : JsPayload) (task : option string) : Prop :=
  payload !! "task_id" = (fun s => Some (JStr s)) <$> task.

Lemma names_payloadTask payload task : names_task payload task -> payloadTask payload = task.
Proof. unfold names_task, payloadTask. intros ->. by destruct task. Qed.

Lemma mergedPayload_task e payload task run : names_task payload task -> text render (w_payload e) "task_id" = task ->
  text render (mergedPayload e payload run) "task_id" = task.
Proof.
  unfold names_task, mergedPayload, text, mergePayloads. intros Hp He.
  set (merged := merge mergeValue (w_payload e) payload).
  assert (merged !! "task_id" = default (w_payload e !! "task_id") ((fun s => Some (JStr s)) <$> task)) as Hm.
  { subst merged. rewrite lookup_merge, Hp. destruct task; simpl; destruct (w_payload e !! "task_id") as [[]|]; done. }
  assert (forall p : Payload, p !! "task_id" = merged !! "task_id" -> text render p "task_id" = task) as H.
  { intros p Hpp. unfold text. rewrite Hpp, Hm. by destruct task. }
  destruct (truthy run); [|by apply H]. apply H. by rewrite lookup_delete_ne.
Qed.

(** A queued row stays queued, for the same agent and the same task, whatever is folded into it. *)
Lemma createWakeup_keeps now newId m team source payload task run t w : names_task payload task ->
  NoDup (List.map w_id t) -> In w t -> w_status w = Queued ->
  exists w', In w' (fst (createWakeup render quiet now newId m team source payload None run t)) /\ w_id w' = w_id w /\
    w_status w' = Queued /\ w_member w' = w_member w /\
    text render (w_payload w') "task_id" = text render (w_payload w) "task_id".
Proof.
  intros Hp Hnd Hin Hq. unfold createWakeup. cbn [truthy quiet after_lookup after_select after_merge].
  rewrite (names_payloadTask payload task) by done.
  assert (forall r, In w (t ++ [r])) as Hold by (intros r; apply in_app_iff; by left).
  destruct (js_sort _ _) as [|e rest] eqn:Es; [exists w; split_and!; try done; apply Hold|].
  apply sort_head_in, filter_In in Es as [Hin' Hc]. apply coalescable_spec in Hc as (Hm & _ & Ht).
  destruct (existsb _ _); [|exists w; split_and!; try done; apply Hold]. cbn [fst].
  destruct (hasId (w_id e) w) eqn:Hid.
  - eexists. split; [apply update_In; [exact Hin|]; rewrite Hid; unfold isQueued; by rewrite bool_decide_true|].
    apply String.eqb_eq in Hid. assert (w = e) as -> by (by apply (NoDup_fmap_In w_id t)).
    split_and!; try done. cbn. rewrite Ht. by apply mergedPayload_task.
  - exists w. split_and!; try done. apply in_map_iff. exists w. by rewrite Hid.
Qed.

(** Ids stay distinct when the new one is fresh. *)
Lemma createWakeup_ids now newId m team source payload run t : NoDup (List.map w_id t) -> ~ In newId (List.map w_id t) ->
  NoDup (List.map w_id (fst (createWakeup render quiet now newId m team source payload None run t))).
Proof.
  intros Hnd Hnew. unfold createWakeup. cbn [truthy quiet after_lookup after_select after_merge].
  assert (forall r, w_id r = newId -> NoDup (List.map w_id (t ++ [r]))) as Hadd.
  { intros r Hr. rewrite List.map_app. apply list.NoDup_app. split_and!; [done| |by repeat constructor; set_solver].
    intros x Hx%list_elem_of_In Hx'. cbn in Hx'. apply list_elem_of_singleton in Hx' as ->. congruence. }
  destruct (js_sort _ _) as [|e rest]; [by apply Hadd|]. destruct (existsb _ _); [|by apply Hadd].
  cbn [fst]. unfold update. rewrite List.map_map. erewrite List.map_ext; [exact Hnd|].
  intros w. by destruct (hasId _ w && _).
Qed.
(** The row a call with no key leaves the trigger on is queued for the agent and its task. *)
Lemma createWakeup_target now newId m team source payload task run t : names_task payload task ->
  exists w, In w (fst (createWakeup render quiet now newId m team source payload None run t)) /\ w_status w = Queued /\
    w_member w = m /\ text render (w_payload w) "task_id" = task.
Proof.
  intros Hp. unfold createWakeup. cbn [truthy quiet after_lookup after_select after_merge].
  rewrite (names_payloadTask payload task) by done.
  assert (forall t, exists w, In w (fst (insertWakeup now newId m team source payload None run t)) /\ w_status w = Queued /\
    w_member w = m /\ text render (w_payload w) "task_id" = task) as Hins.
  { intros t0. eexists. split; [apply in_app_iff; right; by left|]. split_and!; try done.
    unfold names_task in Hp. unfold text, stringify. cbn [w_payload]. rewrite lookup_omap, Hp. by destruct task. }
  destruct (js_sort _ _) as [|e rest] eqn:Es; [apply Hins|].
  apply sort_head_in, filter_In in Es as [Hin' Hc]. apply coalescable_spec in Hc as (Hm & Hq & Ht).
  assert (hasId (w_id e) e && isQueued e = true) as Hhit.
  { unfold hasId, isQueued. by rewrite String.eqb_refl, bool_decide_true. }
  destruct (existsb _ _) eqn:Ex; [|apply Hins]. cbn [fst].
  eexists. split; [apply update_In; [exact Hin'|exact Hhit]|]. split_and!; try done. cbn. by apply mergedPayload_task.
Qed.
End Create.

(** A trigger is never lost to the queue: whatever other writers do between the
    statements of [createWakeup], the row it returns was already queued under the caller's
    idempotency key, or is a queued row of that agent that carries every value of the
    caller's payload (appended, where both hold arrays; a person's [triggered_by] aside when
    a run writes), and that no dispatch suppression applies to if the source is exempt. *)
Theorem createWakeup_queues render env now newId memberId teamId source payload key run t :
  guarantees (after_select env) -> NoDup (List.map w_id (after_lookup env t)) ->
  let '(t', id) := createWakeup render env now newId memberId teamId source payload key run t in
  (exists k w, truthy key = Some k /\ In w t /\ w_key w = Some k /\ w_status w = Queued /\ w_id w = id) \/
  (exists w, In w t' /\ w_id w = id /\ w_status w = Queued /\ w_member w = memberId /\
     (exempt source = true -> exempt (w_source w) = true) /\ carries payload run w).
Proof.
  intros Henv Hids. pose proof (createWakeup_row render env now newId memberId teamId source payload key run t Henv Hids) as H.
  destruct (createWakeup _ _ _ _ _ _ _ _ _ _ _) as [t' id]. destruct H as [(k & w & H)|H]; [left; exists k, w; tauto|by right].
Qed.

(** A comment wake folded into a queued assignment: the row is promoted and carries both. *)
Definition demo_row : Wakeup :=
  mkWakeup "w1" "agent" "team" Assignment (<["task_id" := JStr "T"]> ∅) Queued None None 5 0 None None None None None None.
Definition demo_payload : JsPayload := <["task_id" := Some (JStr "T")]> (<["comment_id" := Some (JStr "c9")]> ∅).

Lemma createWakeup_queues_witness :
  let '(t', id) := createWakeup (fun _ => "") quiet 9 "w2" "agent" "team" Comment demo_payload None None [demo_row] in
  id = "w1" /\
  ((exists k w, truthy None = Some k /\ In w [demo_row] /\ w_key w = Some k /\ w_status w = Queued /\ w_id w = id) \/
   (exists w, In w t' /\ w_id w = id /\ w_status w = Queued /\ w_member w = "agent" /\
     (exempt Comment = true -> exempt (w_source w) = true) /\ carries demo_payload None w)).
Proof.
  split; [reflexivity|].
  apply (createWakeup_queues (fun _ => "") quiet 9 "w2" "agent" "team" Comment demo_payload None None [demo_row]).
  - intros t Hnd w w' Hin Hin' Hid. rewrite (NoDup_fmap_In w_id t w w' Hnd Hin Hin' Hid). split; auto.
  - repeat constructor. set_solver.
Defined.

(** Two triggers that coalesce onto one row at once: each merges into the payload it read,
    and the later write discards the values of the earlier one. *)
Example concurrent_merges_lose_payload :
  let other := fun t => fst (createWakeup (fun _ => "") quiet 9 "w3" "agent" "team" Mention
                               (<["task_id" := Some (JStr "T")]> (<["mention_id" := Some (JStr "m1")]> ∅)) None None t) in
  let env := mkInterference (fun t => t) other (fun t => t) in
  List.map (fun w => (w_payload w !! "comment_id", w_payload w !! "mention_id", w_count w))
    (fst (createWakeup (fun _ => "") env 9 "w2" "agent" "team" Comment demo_payload None None [demo_row]))
  = [(Some (JStr "c9"), None, 2)].
Proof. vm_compute. reflexivity. Qed.

(** ** Settlement *)

Lemma update_none p f t : existsb p t = false -> update p f t = t.
Proof.
  rewrite existsb_false_iff. intros H. unfold update. rewrite <- (List.map_id t) at 2. apply List.map_ext_in.
  intros w Hw. by rewrite (H w Hw).
Qed.

Lemma update_other p f t w : In w t -> p w = false -> In w (update p f t).
Proof. intros Hin Hp. apply in_map_iff. exists w. by rewrite Hp. Qed.

Lemma only_row t w id (q : Wakeup -> bool) : NoDup (List.map w_id t) -> In w t -> w_id w = id ->
  existsb (fun w => hasId id w && q w) t = q w.
Proof.
  intros Hnd Hin Hid. destruct (q w) eqn:E.
  - apply existsb_exists. exists w. unfold hasId. by rewrite Hid, String.eqb_refl, E.
  - apply existsb_false_iff. intros w' Hin'. unfold hasId. destruct (String.eqb_spec (w_id w') id) as [Hid'|]; [|done].
    assert (w' = w) as -> by (eapply NoDup_fmap_In; [done..|congruence]). done.
Qed.

Lemma find_row t w id : NoDup (List.map w_id t) -> In w t -> w_id w = id -> List.find (hasId id) t = Some w.
Proof.
  intros Hnd Hin Hid. destruct (List.find (hasId id) t) as [w'|] eqn:E.
  - apply find_some in E as [Hin' Hid']. unfold hasId in Hid'. apply String.eqb_eq in Hid'. f_equal.
    eapply NoDup_fmap_In; [done..|congruence].
  - apply (find_none _ _ E) in Hin. unfold hasId in Hin. by rewrite Hid, String.eqb_refl in Hin.
Qed.

Lemma update_ids p f t : (forall w, w_id (f w) = w_id w) -> List.map w_id (update p f t) = List.map w_id t.
Proof. intros Hf. unfold update. rewrite List.map_map. apply List.map_ext. intros w. destruct (p w); auto. Qed.

(** One settlement of a row, by its status. *)
Lemma settle_spec now id intent t w : NoDup (List.map w_id t) -> In w t -> w_id w = id -> id <> "" ->
  settleWakeupForRun now (Some id) intent t =
  match intent with
  | Handback c =>
      (update (fun w => hasId id w && bool_decide (w_status w = Claimed)) (handBack now c) t,
       if bool_decide (w_status w = Claimed) then Requeued else HandbackFailed)
  | _ => if terminal (w_status w) then (t, TerminalAt (w_status w))
         else (update (fun w => hasId id w && negb (terminal (w_status w))) (finish now (SETTLEMENT_TERMINAL_STATUS intent)) t,
               TerminalAt (SETTLEMENT_TERMINAL_STATUS intent))
  end.
Proof.
  intros Hnd Hin Hid Hne. unfold settleWakeupForRun.
  assert (truthy (Some id) = Some id) as -> by (destruct id; done).
  rewrite (only_row t w id (fun w => bool_decide (w_status w = Claimed))) by done.
  rewrite (only_row t w id (fun w => negb (terminal (w_status w)))) by done.
  rewrite (find_row t w id) by done. by destruct intent, (terminal (w_status w)).
Qed.

Lemma settle_terminal now id intent t w : NoDup (List.map w_id t) -> In w t -> w_id w = id -> id <> "" ->
  terminal (w_status w) = true -> fst (settleWakeupForRun now (Some id) intent t) = t.
Proof.
  intros Hnd Hin Hid Hne Ht. rewrite (settle_spec now id intent t w) by done.
  destruct intent; rewrite ?Ht; cbn; try done. apply update_none.
  rewrite (only_row t w id (fun w => bool_decide (w_status w = Claimed))) by done.
  destruct (bool_decide_reflect (w_status w = Claimed)) as [E|]; [|done]. by rewrite E in Ht.
Qed.

Definition settleAll (id : string) (ops : list (Z * SettlementIntent)) (t : Table) : Table :=
  fold_left (fun t op => fst (settleWakeupForRun (fst op) (Some id) (snd op) t)) ops t.

Lemma settleAll_terminal id ops t w : NoDup (List.map w_id t) -> In w t -> w_id w = id -> id <> "" ->
  terminal (w_status w) = true -> settleAll id ops t = t.
Proof.
  intros Hnd Hin Hid Hne Ht. induction ops as [|op ops IH]; [done|]. unfold settleAll. cbn [fold_left].
  by rewrite (settle_terminal _ _ _ _ w).
Qed.

Lemma finished_row now id s ops t w : NoDup (List.map w_id t) -> In w t -> w_id w = id -> id <> "" ->
  terminal (w_status w) = false -> terminal s = true ->
  let t' := update (fun w => hasId id w && negb (terminal (w_status w))) (finish now s) t in
  (exists w', In w' t' /\ w_id w' = id /\ w_status w' = s) /\ settleAll id ops t' = t'.
Proof.
  intros Hnd Hin Hid Hne Ht Hs t'. assert (In (finish now s w) t') as Hin'.
  { apply update_In; [done|]. unfold hasId. by rewrite Hid, String.eqb_refl, Ht. }
  split; [by eexists|]. eapply settleAll_terminal; [|exact Hin'|done|done|done].
  subst t'. by rewrite update_ids.
Qed.

(** The first outcome of a wakeup stands: settling an unsettled row as complete, failed
    or withdrawn gives it that terminal status and reports it, settling a row that already
    has one changes nothing and reports the one that stands, and after either no later
    settlement or handback of that row changes the table; a handback returns exactly a
    claimed row to the queue, with its reason, hold and credential, and says so. *)
Theorem first_settlement_stands now id intent ops t w :
  NoDup (List.map w_id t) -> In w t -> w_id w = id -> id <> "" ->
  let '(t', r) := settleWakeupForRun now (Some id) intent t in
  (forall w', In w' t -> w_id w' <> id -> In w' t') /\
  match intent with
  | Handback c => if bool_decide (w_status w = Claimed) then r = Requeued /\ In (handBack now c w) t'
                  else r = HandbackFailed /\ t' = t
  | _ => exists s, s = (if terminal (w_status w) then w_status w else SETTLEMENT_TERMINAL_STATUS intent) /\
           r = TerminalAt s /\ (exists w', In w' t' /\ w_id w' = id /\ w_status w' = s) /\ settleAll id ops t' = t'
  end.
Proof.
  intros Hnd Hin Hid Hne. rewrite (settle_spec now id intent t w) by done.
  assert (forall q f w', In w' t -> w_id w' <> id -> In w' (update (fun w => hasId id w && q w) f t)) as Hother.
  { intros q f w' Hin' Hne'. apply update_other; [done|]. unfold hasId. by destruct (String.eqb_spec (w_id w') id). }
  assert (hasId id w = true) as Hw by (unfold hasId; by rewrite Hid, String.eqb_refl).
  destruct intent as [c| | |].
  1:{ split; [by apply Hother|]. destruct (bool_decide (w_status w = Claimed)) eqn:E.
      - split; [done|]. apply update_In; [done|]. by rewrite Hw, E.
      - split; [done|]. apply update_none. by rewrite (only_row t w id (fun w => bool_decide (w_status w = Claimed))). }
  all: destruct (terminal (w_status w)) eqn:Et; (split; [by intros; auto|]); eexists; (split; [done|]); (split; [done|]).
  - split; [by exists w|by apply (settleAll_terminal _ _ _ w)].
  - by apply (finished_row now id _ ops t w).
  - split; [by exists w|by apply (settleAll_terminal _ _ _ w)].
  - by apply (finished_row now id _ ops t w).
  - split; [by exists w|by apply (settleAll_terminal _ _ _ w)].
  - by apply (finished_row now id _ ops t w).
Qed.

Lemma first_settlement_stands_witness :
  let claimed := setStatus Claimed demo_row in
  let '(t', r) := settleWakeupForRun 20 (Some "w1") Withdraw [claimed] in
  r = TerminalAt Cancelled /\ settleAll "w1" [(25, Fail_); (30, Handback (OtherHold "task_busy" None))] t' = t'.
Proof.
  pose proof (first_settlement_stands 20 "w1" Withdraw [(25, Fail_); (30, Handback (OtherHold "task_busy" None))]
    [setStatus Claimed demo_row] (setStatus Claimed demo_row)) as H.
  destruct H as (_ & s & Hs & Hr & _ & Hall); [repeat constructor; set_solver|by left|done|done|].
  split; [reflexivity|exact Hall].
Defined.

(** ** Releasing held wakeups *)

Lemma stringCompare_le a b : stringCompare a b <= 0 <-> String.le a b.
Proof.
  unfold stringCompare, String.le, String.leb. destruct (a ?= b)%string; cbn; split; try done; lia.
Qed.

#[export] Instance oldestFirst_comparator : Comparator oldestFirst.
Proof.
  assert (forall a b, oldestFirst a b <= 0 <->
            w_created a < w_created b \/ (w_created a = w_created b /\ String.le (w_id a) (w_id b))) as Hle.
  { intros a b. unfold oldestFirst. rewrite <- stringCompare_le.
    destruct (Z.eqb_spec (w_created a) (w_created b)); lia. }
  split.
  - intros x y. rewrite !Hle. destruct (Z.lt_total (w_created x) (w_created y)) as [?|[E|?]]; [tauto| |tauto].
    destruct (total String.le (w_id x) (w_id y)); [left|right]; right; done.
  - intros x y z. rewrite !Hle. intros [H|[E H]] [H'|[E' H']]; try (left; lia). right. split; [lia|by etransitivity].
Qed.

Lemma positionOf_nth l i w : NoDup (List.map w_id l) -> nth_error l i = Some w -> positionOf (w_id w) l = Some i.
Proof.
  revert i. induction l as [|x l IH]; intros [|i] Hnd H; try done; cbn in *.
  - injection H as ->. unfold hasId. by rewrite String.eqb_refl.
  - inversion_clear Hnd as [|? ? Hx Hnd']. unfold hasId. destruct (String.eqb_spec (w_id x) (w_id w)) as [E|_].
    + exfalso. apply Hx. rewrite E. apply list_elem_of_In, in_map_iff. exists w. split; [done|]. by eapply nth_error_In.
    + by rewrite (IH i).
Qed.

Lemma positionOf_some id l i : positionOf id l = Some i -> exists w, nth_error l i = Some w /\ w_id w = id.
Proof.
  revert i. induction l as [|x l IH]; intros i H; cbn in H; [done|]. unfold hasId in H.
  destruct (String.eqb_spec (w_id x) id) as [E|_].
  - injection H as <-. by exists x.
  - destruct (positionOf id l) as [j|]; [|done]. injection H as <-. apply (IH j eq_refl).
Qed.

Lemma countZ_length {A} (p : A -> bool) t : countZ p t = Z.of_nat (length (List.filter p t)).
Proof. induction t as [|x t IH]; [done|]. rewrite countZ_cons, IH. cbn. destruct (p x); cbn; lia. Qed.

Lemma countZ_ext {A} (p q : A -> bool) t : (forall x, In x t -> p x = q x) -> countZ p t = countZ q t.
Proof. intros H. rewrite !countZ_length. by rewrite (filter_ext_in' p q t H). Qed.

(** Lifting a usage hold releases its wakeups one at a time: every wakeup held on that
    credential (or on none recorded) becomes claimable [30 * i] seconds from now, [i] its
    position oldest first, so no two become claimable closer than the spacing; every other
    wakeup, held on another credential or for another reason, is untouched, and the count
    returned is how many were released. *)
Theorem release_is_paced now configId t : NoDup (List.map w_id t) ->
  let held := List.filter (usageHeld now configId) t in
  let order := js_sort oldestFirst held in
  let '(t', n) := releaseUsageHeldWakeups now configId t in
  Permutation held order /\ StronglySorted (fun a b => oldestFirst a b <= 0) order /\
  n = Z.of_nat (length held) /\
  (forall i w, nth_error order i = Some w ->
     exists w', In w' t' /\ w_id w' = w_id w /\ w_not_before w' = Some (now + 30 * US_PER_SEC * Z.of_nat i)) /\
  (forall w, In w t -> usageHeld now configId w = false -> In w t').
Proof.
  intros Hnd held order. cbn. fold held. fold order. pose proof (js_sort_perm oldestFirst held) as Hperm. fold order in Hperm.
  assert (NoDup (List.map w_id order)) as Hnd'.
  { rewrite <- (Permutation_map w_id Hperm). by apply NoDup_map_filter. }
  assert (forall w, In w t -> (exists i, positionOf (w_id w) order = Some i) <-> usageHeld now configId w = true) as Hpos.
  { intros w Hin. split.
    - intros (i & (w' & Hn & Hid)%positionOf_some). apply nth_error_In in Hn.
      apply (Permutation_in _ (Permutation_sym Hperm)), filter_In in Hn as [Hin' Hh].
      assert (w' = w) as -> by (by apply (NoDup_fmap_In w_id t)). done.
    - intros Hh. assert (In w order) as Ho by (apply (Permutation_in _ Hperm), filter_In; done).
      apply In_nth_error in Ho as [i Hi]. exists i. by apply positionOf_nth. }
  split_and!; [done|apply js_sort_sorted; apply _| | |].
  - subst held. rewrite <- countZ_length. apply countZ_ext. intros w Hin.
    specialize (Hpos w Hin). destruct (positionOf (w_id w) order), (usageHeld now configId w); naive_solver.
  - intros i w Hi. pose proof (nth_error_In _ _ Hi) as Hin.
    apply (Permutation_in _ (Permutation_sym Hperm)), filter_In in Hin as [Hin _].
    exists (release now i w). split_and!; [|done|cbn; unfold USAGE_HOLD_RELEASE_SPACING_SEC; f_equal; lia].
    apply in_map_iff. exists w. by rewrite (positionOf_nth order i w).
  - intros w Hin Hh. apply in_map_iff. exists w. destruct (positionOf (w_id w) order) as [i|] eqn:E; [|done].
    exfalso. rewrite (proj1 (Hpos w Hin)) in Hh; [done|eauto].
Qed.

(** Three wakeups held on one credential and one on another. *)
Definition demo_held (id : string) (created : Z) (config : option string) : Wakeup :=
  mkWakeup id "agent" "team" Assignment ∅ Queued None None created 0 None (Some 1) (Some "provider_usage_limit")
    (Some 500) config None.

Lemma release_is_paced_witness :
  let t := [demo_held "a" 7 (Some "k1"); demo_held "b" 3 (Some "k1"); demo_held "c" 1 (Some "k2"); demo_held "d" 5 None] in
  List.map w_not_before (fst (releaseUsageHeldWakeups 100 "k1" t)) = [Some 60000100; Some 100; Some 500; Some 30000100] /\
  snd (releaseUsageHeldWakeups 100 "k1" t) = 3.
Proof.
  assert (NoDup (List.map w_id [demo_held "a" 7 (Some "k1"); demo_held "b" 3 (Some "k1"); demo_held "c" 1 (Some "k2");
            demo_held "d" 5 None])) as Hnd by (repeat constructor; set_solver).
  destruct (release_is_paced 100 "k1" _ Hnd) as (_ & _ & Hn & _). split; [reflexivity|]. exact Hn.
Defined.

(** Absorbing a task's queue leaves only the driving wakeup queued, and parked ones alone. *)
Lemma absorb_leaves_driver render m task keep t w : In w (fst (absorbQueuedTaskWakeups render m task keep t)) ->
  (w_member w = m -> w_status w = Queued -> text render (w_payload w) "task_id" = Some task -> w_id w = keep) /\
  (w_status w = Deferred -> In w t).
Proof.
  cbn. intros (w0 & <- & Hin)%in_map_iff. destruct (absorbable render m task keep w0) eqn:E; [done|].
  split; [|done]. intros Hm Hq Ht. unfold absorbable, isQueued, hasId in E.
  rewrite Hm, String.eqb_refl, Hq, Ht, !bool_decide_true in E by done. cbn in E. apply negb_false_iff in E.
  by apply String.eqb_eq.
Qed.
