(* ===== verification/Paging.v ===== *)
(** * Paging

    A model of [packages/server/src/mcp/paging.ts] and of the cursors of [lib/pagination.ts]: lists
    that continue after a cursor, and windows on a long text. A list sorts by a column and the id;
    what the database and the platform do with a column - compare its values, print one into a
    cursor and cast it back - is a class, with an instance for timestamps, which the language
    holds in milliseconds and the database in microseconds, and one for text. The size of a result
    once it is wrapped and serialized is a parameter. Excerpts are left out. *)
From Stdlib Require Import ZArith Lia Ascii String List Bool Sorted.
From stdpp Require Import base list strings option.
From S2P Require Import Prelude JsString JsNumber Bytes Tar Wakeups.

Open Scope string_scope.
Open Scope list_scope.
Open Scope Z_scope.

Definition DEFAULT_LIST_LIMIT : Z := 50.
Definition MAX_LIST_LIMIT : Z := 200.

(** ** Cursors *)

Definition encodeCursor (value id : string) : string := value +:+ "|" +:+ id.

(** The two sides of the last separator. *)
Fixpoint lastBar (s : string) : option (string * string) :=
  match s with
  | EmptyString => None
  | String c r =>
      match lastBar r with
      | Some (a, b) => Some (String c a, b)
      | None => if Ascii.eqb c "|" then Some ("", r) else None
      end
  end.
Definition decodeCursor (raw : option string) : option (string * string) :=
  match truthy raw with
  | None => None
  | Some raw => match lastBar raw with Some (String c a, String d b) => Some (String c a, String d b) | _ => None end
  end.

(** ** Lists *)

(** What a sort column does. *)
Class SortColumn (V : Type) := { compareV : V -> V -> Z; showV : V -> string; castV : string -> option V }.

Record KeysetRow (V : Type) := mkRow { rw_value : option V; rw_id : string }.
Arguments mkRow {V} _ _.
Arguments rw_value {V} _.
Arguments rw_id {V} _.
Record PagedList (V : Type) := mkPage { pg_items : list (KeysetRow V); pg_next : option string; pg_more : bool }.
Arguments mkPage {V} _ _ _.
Arguments pg_items {V} _.
Arguments pg_next {V} _.
Arguments pg_more {V} _.
Inductive Direction := Asc | Desc.

Section Lists.
Context {V : Type} `{!SortColumn V}.

(** [(value, id)] as SQL compares it, NULL last. *)
Definition compareKey (a b : KeysetRow V) : Z :=
  match rw_value a, rw_value b with
  | Some x, Some y => if compareV x y =? 0 then stringCompare (rw_id a) (rw_id b) else compareV x y
  | None, None => stringCompare (rw_id a) (rw_id b)
  | None, Some _ => 1
  | Some _, None => -1
  end.
Definition keysetOrderBy (dir : Direction) (a b : KeysetRow V) : Z := match dir with Asc => compareKey a b | Desc => compareKey b a end.

(** A row comparison with NULL in it is not true. *)
Definition keysetPredicate (dir : Direction) (cursor : option (V * string)) (row : KeysetRow V) : bool :=
  match cursor, rw_value row with
  | None, _ => true
  | Some _, None => false
  | Some (v, id), Some _ => keysetOrderBy dir (mkRow (Some v) id) row <? 0
  end.

Definition parseListLimit (limit : option Z) : Z := match limit with None => DEFAULT_LIST_LIMIT | Some n => Z.max 1 (Z.min n MAX_LIST_LIMIT) end.

Definition rowCursor (row : KeysetRow V) : string := encodeCursor (match rw_value row with Some v => showV v | None => "" end) (rw_id row).
Definition buildCursorPage (rows : list (KeysetRow V)) (limit : nat) : PagedList V :=
  let hasMore := Nat.ltb limit (List.length rows) in
  let data := if hasMore then take limit rows else rows in
  mkPage data (match hasMore, data !! pred (List.length data) with true, Some row => Some (rowCursor row) | _, _ => None end) hasMore.
Definition pagedList (rows : list (KeysetRow V)) (limit : nat) : PagedList V := buildCursorPage rows limit.

(** A list tool: its rows after the cursor, one more than the page; [None] when the cast of the
    cursor fails. *)
Definition listPage (dir : Direction) (limit : nat) (cursor : option string) (table : list (KeysetRow V)) : option (PagedList V) :=
  let run c := Some (pagedList (take (S limit) (js_sort (keysetOrderBy dir) (List.filter (keysetPredicate dir c) table))) limit) in
  match decodeCursor cursor with
  | None => run None
  | Some (value, id) => match castV value with Some v => run (Some (v, id)) | None => None end
  end.

(** A reader that follows [next_cursor] to the end. *)
Fixpoint walk (fuel : nat) (dir : Direction) (limit : nat) (table : list (KeysetRow V)) (cursor : option string) : option (list (KeysetRow V)) :=
  match fuel with
  | O => None
  | S fuel =>
      match listPage dir limit cursor table with
      | None => None
      | Some page => if pg_more page then app (pg_items page) <$> walk fuel dir limit table (pg_next page) else Some (pg_items page)
      end
  end.
End Lists.

Section Columns.
(** The ISO text of a millisecond, and a text as microseconds; the collation of the database. *)
Variable toISOString : Z -> string.
Variable castTimestamp : string -> option Z.
Variable collate : string -> string -> Z.

Definition timestampColumn : SortColumn Z := {| compareV := Z.sub; showV := fun us => toISOString (us / 1000); castV := castTimestamp |}.
Definition textColumn : SortColumn string := {| compareV := collate; showV := fun s => s; castV := Some |}.
End Columns.

(** ** Windows *)

Definition isContinuation (byte : Z) : bool := Z.land byte 192 =? 128.
Fixpoint floorFrom (buf : list Z) (e : nat) : nat :=
  match e with
  | O => O
  | S e' => match nth_error buf e with Some x => if isContinuation x then floorFrom buf e' else e | None => e end
  end.
Definition utf8FloorBoundary (buf : list Z) (end_ : Z) : Z := Z.of_nat (floorFrom buf (Z.to_nat (Z.max 0 (Z.min end_ (blen buf))))).

Record ContentWindow := mkWindow { cw_content : list Z; cw_offset : Z; cw_returned : Z; cw_total : Z; cw_next : option Z; cw_truncated : bool }.

Section Windows.
Variable size : ContentWindow -> Z.

Definition shape (buf : list Z) (start e : Z) : ContentWindow :=
  mkWindow (subarray buf start e) start (e - start) (blen buf) (if e <? blen buf then Some e else None) ((0 <? start) || (e <? blen buf)).
(** [Math.max(0, Math.floor(budget * 0.9) - 1)]. *)
Definition shrink (budget : Z) : Z := Z.max 0 (9 * budget / 10 - 1).

Fixpoint fitWindow (fuel : nat) (buf : list Z) (limit start budget : Z) : option ContentWindow :=
  match fuel with
  | O => None
  | S fuel =>
      let e := utf8FloorBoundary buf (start + budget) in
      if (start <? e) && (limit <? size (shape buf start e)) then fitWindow fuel buf limit start (shrink budget) else Some (shape buf start e)
  end.
(** The budget shrinks by one at least, so a unit of fuel per byte of it is enough. *)
Definition windowContent (buf : list Z) (offset maxBytes : option Z) (limit reserve : Z) : option ContentWindow :=
  let start := utf8FloorBoundary buf (Z.max 0 (Z.min (default 0 offset) (blen buf))) in
  let budget := Z.min (default limit maxBytes) (limit - reserve) in
  fitWindow (S (Z.to_nat budget)) buf limit start budget.

(** A reader that follows [next_offset] to the end. *)
Fixpoint readWindows (fuel : nat) (buf : list Z) (offset : Z) (maxBytes : option Z) (limit reserve : Z) : option (list Z) :=
  match fuel with
  | O => None
  | S fuel =>
      match windowContent buf (Some offset) maxBytes limit reserve with
      | None => None
      | Some w => match cw_next w with Some next => app (cw_content w) <$> readWindows fuel buf next maxBytes limit reserve | None => Some (cw_content w) end
      end
  end.
End Windows.

Inductive Keep := KeepStart | KeepEnd.
(** [fitSerializedWindow] on a text of [n] characters: which of them are kept. *)
Fixpoint fitKept (fuel : nat) (size : list Z -> Z) (keep : Keep) (limit : Z) (kept : list Z) : option (list Z) :=
  match fuel with
  | O => None
  | S fuel =>
      if (0 <? blen kept) && (limit <? size kept) then
        let next := shrink (blen kept) in
        fitKept fuel size keep limit (match keep with KeepStart => subarray kept 0 next | KeepEnd => subarray kept (blen kept - next) (blen kept) end)
      else Some kept
  end.
Definition fitSerializedWindow (size : list Z -> Z) (keep : Keep) (limit : Z) (text : list Z) : option (list Z) :=
  fitKept (S (List.length text)) size keep limit text.

(** ** Cursors read back *)

Fixpoint noBar (s : string) : bool := match s with EmptyString => true | String c s => negb (Ascii.eqb c "|") && noBar s end.

Lemma lastBar_none s : noBar s = true -> lastBar s = None.
Proof. induction s as [|c s IH]; [done|]. cbn. intros [Hc Hs]%andb_true_iff. rewrite (IH Hs). by destruct (Ascii.eqb c "|"). Qed.
Lemma lastBar_split v id : noBar id = true -> lastBar (encodeCursor v id) = Some (v, id).
Proof.
  intros H. unfold encodeCursor. induction v as [|c v IH].
  - change ("" +:+ "|" +:+ id) with (String "|" id). cbn [lastBar]. by rewrite (lastBar_none id H).
  - change (String c v +:+ "|" +:+ id) with (String c (v +:+ "|" +:+ id)). cbn [lastBar]. by rewrite IH.
Qed.
Lemma cursor_reads_back v id : v <> "" -> id <> "" -> noBar id = true -> decodeCursor (Some (encodeCursor v id)) = Some (v, id).
Proof.
  intros Hv Hid Hb. unfold decodeCursor. assert (truthy (Some (encodeCursor v id)) = Some (encodeCursor v id)) as -> by (by destruct v). rewrite (lastBar_split v id Hb).
  by destruct v, id.
Qed.

(** ** Every row once *)

Class SortColumnLaws (V : Type) `{!SortColumn V} : Prop := {
  sc_anti : forall x y, Z.sgn (compareV y x) = - Z.sgn (compareV x y);
  sc_trans : forall x y z, compareV x y <= 0 -> compareV y z <= 0 -> compareV x z <= 0;
  sc_eq : forall x y, compareV x y = 0 -> x = y;
}.

Lemma stringCompare_anti a b : stringCompare b a = - stringCompare a b.
Proof. unfold stringCompare. rewrite String.compare_antisym. by destruct (String.compare a b). Qed.
Lemma stringCompare_eq a b : stringCompare a b = 0 -> a = b.
Proof. unfold stringCompare. destruct (String.compare a b) eqn:E; [|done|done]. intros _. by apply String.compare_eq_iff. Qed.

Section Walks.
Context {V : Type} `{Hl : SortColumnLaws V}.

Lemma compareV_refl x : compareV x x = 0.
Proof. pose proof (sc_anti x x) as H. destruct (compareV x x); cbn in H; lia. Qed.

Lemma compareKey_anti (a b : KeysetRow V) : Z.sgn (compareKey b a) = - Z.sgn (compareKey a b).
Proof.
  unfold compareKey. destruct (rw_value a) as [x|], (rw_value b) as [y|]; try done; [|by rewrite stringCompare_anti, Z.sgn_opp].
  pose proof (sc_anti x y) as H. destruct (Z.eqb_spec (compareV y x) 0), (Z.eqb_spec (compareV x y) 0); try lia. by rewrite stringCompare_anti, Z.sgn_opp.
Qed.
Lemma compareKey_eq (a b : KeysetRow V) : compareKey a b = 0 -> a = b.
Proof.
  destruct a as [[x|] i], b as [[y|] j]; unfold compareKey; cbn; try done; [|by intros ->%stringCompare_eq].
  destruct (Z.eqb_spec (compareV x y) 0) as [E|]; [|done]. intros ->%stringCompare_eq. by rewrite (sc_eq x y E).
Qed.
Lemma compareKey_le (a b : KeysetRow V) : compareKey a b <= 0 <->
  match rw_value a, rw_value b with
  | Some x, Some y => compareV x y < 0 \/ (x = y /\ String.le (rw_id a) (rw_id b))
  | None, None => String.le (rw_id a) (rw_id b)
  | None, Some _ => False
  | Some _, None => True
  end.
Proof.
  unfold compareKey. destruct (rw_value a) as [x|], (rw_value b) as [y|]; [|lia|lia|apply stringCompare_le].
  destruct (Z.eqb_spec (compareV x y) 0) as [E|E]; rewrite ?stringCompare_le.
  - split; [intros H; right; split; [by apply sc_eq|done]|]. by intros [?|[_ ?]]; [lia|].
  - split; [intros H; left; lia|]. intros [?|[-> _]]; [lia|]. by rewrite compareV_refl in E.
Qed.
#[global] Instance compareKey_comparator : Comparator (compareKey (V := V)).
Proof.
  split.
  - intros a b. pose proof (compareKey_anti a b). lia.
  - intros a b c. rewrite !compareKey_le. destruct (rw_value a) as [x|], (rw_value b) as [y|], (rw_value c) as [z|]; try done; [|by intros; etransitivity].
    intros [H|[-> H]] [H'|[-> H']]; [|by left|by left|right; split; [done|by etransitivity]]. left.
    pose proof (sc_trans x y z (Z.lt_le_incl _ _ H) (Z.lt_le_incl _ _ H')) as Hle. destruct (Z.eq_dec (compareV x z) 0) as [E|]; [|lia]. apply sc_eq in E. subst z.
    pose proof (sc_anti x y). lia.
Qed.
#[global] Instance keysetOrderBy_comparator dir : Comparator (keysetOrderBy (V := V) dir).
Proof.
  destruct dir; [apply compareKey_comparator|]. split; cbn.
  - intros a b. destruct (cmp_total compareKey a b); auto.
  - intros a b c H1 H2. exact (cmp_trans compareKey c b a H2 H1).
Qed.
Lemma order_anti dir (a b : KeysetRow V) : keysetOrderBy dir a b <= 0 -> a <> b -> keysetOrderBy dir a b < 0 /\ 0 < keysetOrderBy dir b a.
Proof.
  intros H Hne. assert (keysetOrderBy dir a b <> 0) as H0.
  { intros E. apply Hne. unfold keysetOrderBy in E. destruct dir; [by apply compareKey_eq|symmetry; by apply compareKey_eq]. }
  pose proof (compareKey_anti a b). unfold keysetOrderBy in *. destruct dir; lia.
Qed.
Lemma order_refl dir (a : KeysetRow V) : keysetOrderBy dir a a = 0.
Proof. pose proof (compareKey_anti a a) as H. unfold keysetOrderBy. destruct dir; lia. Qed.

(** A row whose cursor leads back to it. *)
Record pageable (row : KeysetRow V) : Prop := {
  pa_value : exists v, rw_value row = Some v /\ castV (showV v) = Some v /\ showV v <> "";
  pa_id : rw_id row <> "" /\ noBar (rw_id row) = true;
}.

Section Table.
Context (dir : Direction) (table : list (KeysetRow V)) (limit : nat) (Hlim : (1 <= limit)%nat).
Context (Hids : NoDup (List.map rw_id table)) (Hok : List.Forall pageable table).
Local Notation sorted := (js_sort (keysetOrderBy dir) table).

Lemma rows_distinct x y : In x table -> In y table -> rw_id x = rw_id y -> x = y.
Proof. exact (NoDup_fmap_In rw_id table x y Hids). Qed.

(** The rows after the cursor of a row are those after it in the order. *)
Lemma after_row l1 x l2 : sorted = l1 ++ x :: l2 -> exists v, rw_value x = Some v /\ decodeCursor (Some (rowCursor x)) = Some (showV v, rw_id x) /\ castV (showV v) = Some v /\
  js_sort (keysetOrderBy dir) (List.filter (keysetPredicate dir (Some (v, rw_id x))) table) = l2.
Proof.
  intros E. assert (In x table) as Hx by (apply (js_sort_In (keysetOrderBy dir)); rewrite E; apply in_app_iff; right; by left).
  destruct (proj1 (List.Forall_forall _ _) Hok x Hx) as [(v & Ev & Hc & Hv) [Hid Hb]]. exists v. split; [done|]. split; [|split; [done|]].
  { unfold rowCursor. rewrite Ev. by apply cursor_reads_back. }
  rewrite js_sort_filter, E by apply keysetOrderBy_comparator. assert (forall y, In y (l1 ++ x :: l2) -> keysetPredicate dir (Some (v, rw_id x)) y = (keysetOrderBy dir x y <? 0)) as Hp.
  { intros y Hy. rewrite <- E in Hy. apply js_sort_In in Hy. destruct (proj1 (List.Forall_forall _ _) Hok y Hy) as [(w & Ew & _) _]. unfold keysetPredicate. rewrite Ew.
    destruct x as [xv xi]. cbn in *. by rewrite Ev. }
  assert (NoDup (l1 ++ x :: l2)) as Hnd.
  { rewrite <- E, <- (js_sort_perm (keysetOrderBy dir) table). exact (NoDup_fmap_1 rw_id table Hids). }
  pose proof (js_sort_sorted (keysetOrderBy dir) table) as Hs. rewrite E in Hs. clear E Hids Hok.
  induction l1 as [|y l1 IH]; cbn [app List.filter] in *.
  - rewrite (Hp x (or_introl eq_refl)), order_refl. change (0 <? 0) with false. cbn iota. inversion_clear Hs as [|? ? _ Hx2]. inversion_clear Hnd as [|? ? Hnx _]. clear -Hp Hx2 Hnx Hl.
    induction l2 as [|z l2 IH]; [done|]. cbn [List.filter]. inversion_clear Hx2 as [|? ? Hz Hr]. apply not_elem_of_cons in Hnx as [Hne Hnx].
    rewrite (Hp z) by (right; by left). destruct (order_anti dir x z Hz Hne) as [Hlt _]. rewrite (proj2 (Z.ltb_lt _ _) Hlt). f_equal. apply IH; [|done|done].
    intros y [-> |Hy]; apply Hp; [by left|right; by right].
  - inversion_clear Hs as [|? ? Hs' Hy]. inversion_clear Hnd as [|? ? Hny Hnd'].
    assert (y <> x) as Hne by (intros ->; apply Hny, list_elem_of_In, in_app_iff; right; by left).
    assert (keysetOrderBy dir y x <= 0) as Hle by (apply (proj1 (List.Forall_forall _ _) Hy); apply in_app_iff; right; by left).
    destruct (order_anti dir y x Hle Hne) as [_ Hgt]. rewrite (Hp y (or_introl eq_refl)), (proj2 (Z.ltb_ge _ _)) by lia.
    apply IH; [|done|done]. intros z Hz. apply Hp. by right.
Qed.

Lemma page_of l : (List.length l <= limit)%nat /\ pagedList (take (S limit) l) limit = mkPage l None false \/
  exists l0 y l1, l = l0 ++ y :: l1 /\ List.length (l0 ++ [y]) = limit /\ pagedList (take (S limit) l) limit = mkPage (l0 ++ [y]) (Some (rowCursor (V := V) y)) true.
Proof.
  destruct (le_lt_dec (List.length l) limit) as [H|H].
  - left. split; [done|]. unfold pagedList, buildCursorPage. rewrite take_ge by lia. by rewrite (proj2 (Nat.ltb_ge _ _) H).
  - right. destruct limit as [|n]; [lia|]. destruct (lookup_lt_is_Some_2 l n) as [y Hy]; [lia|]. exists (take n l), y, (drop (S n) l).
    assert (take (S n) l = take n l ++ [y]) as Et by (by apply take_S_r). split; [by rewrite take_drop_middle|]. rewrite <- Et.
    assert (List.length (take (S n) l) = S n) as El by (rewrite length_take; lia). split; [done|].
    unfold pagedList, buildCursorPage. rewrite length_take, (proj2 (Nat.ltb_lt _ _)) by lia. rewrite take_take, Nat.min_l by lia. rewrite El. cbn [pred].
    rewrite lookup_take_lt by lia. by rewrite Hy.
Qed.

Lemma walk_rest fuel : forall l1 x l2, sorted = l1 ++ x :: l2 -> (List.length l2 < fuel)%nat -> walk fuel dir limit table (Some (rowCursor x)) = Some l2.
Proof.
  induction fuel as [|fuel IH]; intros l1 x l2 E Hf; [lia|]. cbn [walk]. unfold listPage. destruct (after_row l1 x l2 E) as (v & Ev & -> & -> & ->).
  destruct (page_of l2) as [[_ ->]|(l0 & y & l3 & -> & _ & ->)]; [done|]. cbn [pg_more pg_next pg_items].
  rewrite (IH (l1 ++ x :: l0) y l3); [cbn; by rewrite <- app_assoc| |rewrite length_app in Hf; cbn in Hf; lia]. by rewrite E, <- app_assoc.
Qed.
Lemma walk_all : walk (S (List.length table)) dir limit table None = Some sorted.
Proof.
  cbn [walk]. unfold listPage. change (decodeCursor None) with (@None (string * string)). cbn iota.
  assert (List.filter (keysetPredicate dir None) table = table) as -> by (clear; induction table as [|r l IH]; [done|]; cbn; by rewrite IH).
  pose proof (Permutation_length (js_sort_perm (keysetOrderBy dir) table)) as Hlen.
  destruct (page_of sorted) as [[_ ->]|(l0 & y & l3 & E & _ & ->)]; [done|]. cbn [pg_more pg_next pg_items]. rewrite E in Hlen. rewrite length_app in Hlen. cbn in Hlen.
  rewrite (walk_rest (List.length table) l0 y l3 E) by lia. cbn. by rewrite E, <- app_assoc.
Qed.
End Table.
End Walks.

(** C36. Following the cursors of a list to its end gives every row of it once, in its order, whatever
    the size of the pages - where ids are unique and a sort value comes back from a cursor as it
    went in. *)
Theorem pages_cover_every_row {V} `{SortColumnLaws V} dir limit (table : list (KeysetRow V)) :
  (1 <= limit)%nat -> NoDup (List.map rw_id table) -> List.Forall pageable table ->
  exists rows, walk (S (List.length table)) dir limit table None = Some rows /\ Permutation table rows /\
    StronglySorted (fun a b => keysetOrderBy dir a b <= 0) rows.
Proof.
  intros Hlim Hids Hok. exists (js_sort (keysetOrderBy dir) table). split; [by apply walk_all|]. split; [apply js_sort_perm|apply js_sort_sorted, keysetOrderBy_comparator].
Qed.

(** ** Columns *)

#[export] Instance timestamp_laws iso cast : @SortColumnLaws Z (timestampColumn iso cast).
Proof. split; cbn; intros; lia. Qed.

(** A collation orders text and tells different texts apart. *)
Lemma text_laws collate : (forall x y, Z.sgn (collate y x) = - Z.sgn (collate x y)) ->
  (forall x y z, collate x y <= 0 -> collate y z <= 0 -> collate x z <= 0) -> (forall x y, collate x y = 0 -> x = y) -> @SortColumnLaws string (textColumn collate).
Proof. by split. Qed.

(** ** Windows fit and tile the text *)

Definition boundary (buf : list Z) (b : nat) : Prop := b = O \/ match nth_error buf b with Some x => isContinuation x = false | None => True end.

Lemma floorFrom_spec buf e : (floorFrom buf e <= e)%nat /\ boundary buf (floorFrom buf e) /\ forall b, boundary buf b -> (b <= e)%nat -> (b <= floorFrom buf e)%nat.
Proof.
  induction e as [|e IH]; cbn [floorFrom]; [split_and!; [lia|by left|lia]|]. destruct (nth_error buf (S e)) as [x|] eqn:E.
  - destruct (isContinuation x) eqn:Ec.
    + destruct IH as (H1 & H2 & H3). split_and!; [lia|done|]. intros b Hb Hle. destruct (decide (b = S e)) as [->|]; [|apply H3; [done|lia]].
      destruct Hb as [|Hb]; [lia|]. rewrite E in Hb. congruence.
    + split_and!; [lia|right; by rewrite E|lia].
  - split_and!; [lia|right; by rewrite E|lia].
Qed.
Lemma utf8Floor_spec buf e : 0 <= e -> exists f : nat, utf8FloorBoundary buf e = Z.of_nat f /\ Z.of_nat f <= Z.min e (blen buf) /\ boundary buf f /\
  forall b : nat, boundary buf b -> Z.of_nat b <= Z.min e (blen buf) -> (b <= f)%nat.
Proof.
  intros He. unfold utf8FloorBoundary. destruct (floorFrom_spec buf (Z.to_nat (Z.max 0 (Z.min e (blen buf))))) as (H1 & H2 & H3). pose proof (blen_nonneg buf).
  eexists. split; [done|]. split_and!; [lia|done|]. intros b Hb Hle. apply H3; [done|lia].
Qed.
Lemma utf8Floor_id buf (b : nat) : boundary buf b -> Z.of_nat b <= blen buf -> utf8FloorBoundary buf (Z.of_nat b) = Z.of_nat b.
Proof. intros Hb Hle. destruct (utf8Floor_spec buf (Z.of_nat b) ltac:(lia)) as (f & -> & H1 & _ & H2). specialize (H2 b Hb ltac:(lia)). lia. Qed.

Section Fit.
Context (size : ContentWindow -> Z) (buf : list Z) (limit : Z) (s : nat) (Hs : boundary buf s) (Hle : Z.of_nat s <= blen buf).
Local Notation start := (Z.of_nat s).

(** The window that is returned. *)
Lemma fitWindow_spec fuel : forall budget, 0 <= budget -> (Z.to_nat budget < fuel)%nat ->
  exists e : nat, fitWindow size fuel buf limit start budget = Some (shape buf start (Z.of_nat e)) /\ boundary buf e /\ (s <= e)%nat /\ Z.of_nat e <= Z.min (start + budget) (blen buf) /\
    (size (shape buf start (Z.of_nat e)) <= limit \/ e = s).
Proof.
  induction fuel as [|fuel IH]; intros budget Hb Hf; [lia|]. cbn [fitWindow]. destruct (utf8Floor_spec buf (start + budget) ltac:(lia)) as (e & -> & H1 & H2 & H3).
  pose proof (H3 s Hs ltac:(lia)) as Hse. destruct (Z.ltb_spec start (Z.of_nat e)) as [Hlt|Hge]; cbn [andb]; [|exists e; split_and!; [done..|right; lia]].
  destruct (Z.ltb_spec limit (size (shape buf start (Z.of_nat e)))) as [Hbig|Hfit]; [|exists e; split_and!; [done..|by left]].
  assert (0 <= shrink budget < budget) as Hsh by (unfold shrink; pose proof (Z.div_mod (9 * budget) 10 ltac:(lia)); pose proof (Z.mod_pos_bound (9 * budget) 10 ltac:(lia)); lia).
  destruct (IH (shrink budget) ltac:(lia) ltac:(lia)) as (e' & E & H4 & H5 & H6 & H7). exists e'. split_and!; [done..|lia|done].
Qed.

(** It takes a character when small windows fit, however often the budget shrinks. *)
Lemma fitWindow_advances fuel n : (forall e, Z.of_nat e - start <= 5 -> size (shape buf start (Z.of_nat e)) <= limit) ->
  boundary buf n -> (s < n <= s + 4)%nat -> Z.of_nat n <= blen buf ->
  forall budget, 4 <= budget -> (Z.to_nat budget < fuel)%nat -> exists e : nat, fitWindow size fuel buf limit start budget = Some (shape buf start (Z.of_nat e)) /\ (n <= e)%nat.
Proof.
  intros Hsmall Hn Hns Hnl. induction fuel as [|fuel IH]; intros budget Hb Hf; [lia|]. cbn [fitWindow].
  destruct (utf8Floor_spec buf (start + budget) ltac:(lia)) as (e & -> & H1 & H2 & H3). pose proof (H3 n Hn ltac:(lia)) as Hne.
  destruct ((start <? Z.of_nat e) && _) eqn:E; [|by exists e]. apply andb_true_iff in E as [_ Hbig%Z.ltb_lt].
  assert (6 <= budget) as H6 by (destruct (Z_le_gt_dec 6 budget); [done|]; specialize (Hsmall e ltac:(lia)); lia).
  assert (4 <= shrink budget < budget) as Hsh by (unfold shrink; pose proof (Z.div_mod (9 * budget) 10 ltac:(lia)); pose proof (Z.mod_pos_bound (9 * budget) 10 ltac:(lia)); lia).
  apply IH; lia.
Qed.
End Fit.

(** A window always comes back; it starts and ends between characters, and it fits the limit unless
    it is empty. *)
Theorem window_fits size buf offset maxBytes limit reserve : 0 <= default limit maxBytes -> reserve <= limit ->
  exists s e : nat, windowContent size buf offset maxBytes limit reserve = Some (shape buf (Z.of_nat s) (Z.of_nat e)) /\
    boundary buf s /\ boundary buf e /\ (s <= e)%nat /\ Z.of_nat e <= blen buf /\ (size (shape buf (Z.of_nat s) (Z.of_nat e)) <= limit \/ e = s).
Proof.
  intros Hm Hr. unfold windowContent. destruct (utf8Floor_spec buf (Z.max 0 (Z.min (default 0 offset) (blen buf))) ltac:(lia)) as (s & -> & H1 & H2 & _).
  destruct (fitWindow_spec size buf limit s H2 ltac:(lia) (S (Z.to_nat (Z.min (default limit maxBytes) (limit - reserve)))) (Z.min (default limit maxBytes) (limit - reserve)))
    as (e & E & H3 & H4 & H5 & H6); [lia|lia|]. exists s, e. split_and!; [done..|lia|done].
Qed.

(** A text whose characters are of at most four bytes. *)
Definition utf8Text (buf : list Z) : Prop := forall b : nat, boundary buf b -> Z.of_nat b < blen buf -> exists n : nat, boundary buf n /\ (b < n <= b + 4)%nat /\ Z.of_nat n <= blen buf.

(** Following [next_offset] to the end gives the whole text, byte for byte, when a window has room
    for a character. *)
Theorem windows_tile_text size buf maxBytes limit reserve : utf8Text buf -> 4 <= Z.min (default limit maxBytes) (limit - reserve) ->
  (forall s e : nat, Z.of_nat e - Z.of_nat s <= 5 -> size (shape buf (Z.of_nat s) (Z.of_nat e)) <= limit) ->
  readWindows size (S (List.length buf)) buf 0 maxBytes limit reserve = Some buf.
Proof.
  intros Hu Hb Hsmall. enough (forall fuel s : nat, boundary buf s -> Z.of_nat s <= blen buf -> (List.length buf < fuel + s)%nat ->
    readWindows size fuel buf (Z.of_nat s) maxBytes limit reserve = Some (drop s buf)) as H by (apply (H _ 0%nat); [by left|unfold blen; lia|lia]).
  induction fuel as [|fuel IH]; intros s Hs Hle Hf; [unfold blen in Hle; lia|]. cbn [readWindows]. unfold windowContent. cbn [default].
  rewrite (Z.min_l (Z.of_nat s)), (Z.max_r 0), utf8Floor_id by (done || lia).
  destruct (fitWindow_spec size buf limit s Hs Hle (S (Z.to_nat (Z.min (default limit maxBytes) (limit - reserve)))) (Z.min (default limit maxBytes) (limit - reserve)))
    as (e & E & H3 & H4 & H5 & _); [lia|lia|].
  assert (Z.of_nat s < blen buf -> (s < e)%nat) as Hadv.
  { intros Hlt. destruct (Hu s Hs Hlt) as (n & Hn & Hsn & Hnl).
    destruct (fitWindow_advances size buf limit s (S (Z.to_nat (Z.min (default limit maxBytes) (limit - reserve)))) n (fun e => Hsmall s e) Hn Hsn Hnl
      (Z.min (default limit maxBytes) (limit - reserve)) ltac:(lia) ltac:(lia)) as (e' & E' & He'). rewrite E in E'. injection E' as E'. unfold shape in E'. lia. }
  rewrite E. cbn [shape cw_next cw_content]. rewrite subarray_in by lia. unfold bslice. rewrite Nat2Z.id.
  destruct (Z.ltb_spec (Z.of_nat e) (blen buf)) as [Hlt|Hge].
  - rewrite IH by (done || lia). cbn. f_equal. replace (Z.to_nat (Z.of_nat e - Z.of_nat s)) with (e - s)%nat by lia.
    replace e with (s + (e - s))%nat at 2 by lia. rewrite <- drop_drop. apply take_drop.
  - f_equal. apply take_ge. rewrite length_drop. unfold blen in *. lia.
Qed.

(** The kept part of a text always comes back: an end of it, and one that fits unless it is empty. *)
Theorem kept_window_fits size keep limit text :
  exists kept, fitSerializedWindow size keep limit text = Some kept /\ (size kept <= limit \/ kept = []) /\
    match keep with KeepStart => exists rest, text = kept ++ rest | KeepEnd => exists rest, text = rest ++ kept end.
Proof.
  unfold fitSerializedWindow. enough (forall fuel k, (List.length k < fuel)%nat -> exists kept, fitKept fuel size keep limit k = Some kept /\ (size kept <= limit \/ kept = []) /\
    match keep with KeepStart => exists rest, k = kept ++ rest | KeepEnd => exists rest, k = rest ++ kept end) as H by (apply H; lia).
  induction fuel as [|fuel IH]; intros k Hf; [lia|]. cbn [fitKept].
  assert (match keep with KeepStart => exists rest, k = k ++ rest | KeepEnd => exists rest, k = rest ++ k end) as Hself by (destruct keep; exists []; [by rewrite app_nil_r|done]).
  destruct (Z.ltb_spec 0 (blen k)) as [Hpos|Hz]; cbn [andb]; [|exists k; split_and!; [done|right; by destruct k|done]].
  destruct (Z.ltb_spec limit (size k)) as [Hbig|Hfit]; [|exists k; split_and!; [done|by left|done]].
  assert (0 <= shrink (blen k) < blen k) as Hsh
    by (unfold shrink; pose proof (Z.div_mod (9 * blen k) 10 ltac:(lia)); pose proof (Z.mod_pos_bound (9 * blen k) 10 ltac:(lia)); lia).
  set (next := shrink (blen k)) in *. unfold blen in *. destruct keep.
  - rewrite subarray_in by (unfold blen; lia). set (k' := bslice k 0 next). assert (k = k' ++ drop (Z.to_nat next) k) as Ek.
    { unfold k', bslice. rewrite drop_0, Z.sub_0_r. symmetry. apply take_drop. }
    destruct (IH k') as (kept & E & Hk & rest & Er); [unfold k', bslice; rewrite length_take, length_drop; lia|]. exists kept. split_and!; [done|done|].
    exists (rest ++ drop (Z.to_nat next) k). by rewrite app_assoc, <- Er.
  - rewrite subarray_in by (unfold blen; lia). set (k' := bslice k _ _). assert (k = take (Z.to_nat (Z.of_nat (List.length k) - next)) k ++ k') as Ek.
    { unfold k', bslice. rewrite (take_ge (drop _ k)) by (rewrite length_drop; lia). symmetry. apply take_drop. }
    destruct (IH k') as (kept & E & Hk & rest & Er); [unfold k', bslice; rewrite length_take, length_drop; lia|]. exists kept. split_and!; [done|done|].
    exists (take (Z.to_nat (Z.of_nat (List.length k) - next)) k ++ rest). by rewrite <- app_assoc, <- Er.
Qed.

(** ** Concrete lists *)

(** Milliseconds as digits. *)
Definition demo_column : SortColumn Z := timestampColumn (toString 10) (fun s => Z.mul 1000 <$> Number s).
Definition demo_rows : list (KeysetRow Z) := [mkRow (Some 7000) "a"; mkRow (Some 9000) "b"; mkRow (Some 7000) "c"].

Lemma demo_pageable us id : castV (SortColumn := demo_column) (showV (SortColumn := demo_column) us) = Some us -> showV (SortColumn := demo_column) us <> "" ->
  id <> "" -> noBar id = true -> pageable (SortColumn0 := demo_column) (mkRow (Some us) id).
Proof. intros H1 H2 H3 H4. split; [exists us|]; done. Qed.

Lemma pages_cover_every_row_witness : let column := demo_column in
  exists rows, walk (S (List.length demo_rows)) Desc 2 demo_rows None = Some rows /\ Permutation demo_rows rows.
Proof.
  intros column. destruct (pages_cover_every_row (SortColumn0 := column) (H := timestamp_laws _ _) Desc 2 demo_rows) as (rows & Hw & Hp & _).
  - lia.
  - apply (bool_decide_eq_true_1 (NoDup (List.map rw_id demo_rows))). vm_compute. reflexivity.
  - repeat apply List.Forall_cons; [| | |apply List.Forall_nil]; apply demo_pageable; vm_compute; first [reflexivity|discriminate].
  - exists rows. split; [exact Hw|exact Hp].
Defined.

(** A cursor keeps milliseconds: of two rows written in one transaction the second is never
    listed when the page ends between them. *)
Lemma cursor_drops_microseconds : let column := demo_column in
  walk 5 Desc 1 [mkRow (Some 7500) "a"; mkRow (Some 7500) "b"] None = Some [mkRow (Some 7500) "b"].
Proof. vm_compute. reflexivity. Qed.

(** A page that ends at a row without a sort value has a cursor that reads as none: the list starts
    again, without end. *)
Lemma null_cursor_starts_again : let column := demo_column in
  let table := [mkRow None "a"; mkRow (Some 7000) "b"] in
  listPage Desc 1 None table = Some (mkPage [mkRow None "a"] (Some "|a") true) /\ forall fuel, walk fuel Desc 1 table None = None.
Proof.
  intros column table. assert (forall c, c = None \/ c = Some "|a" -> listPage Desc 1 c table = Some (mkPage [mkRow None "a"] (Some "|a") true)) as Hp
    by (intros c [-> | ->]; vm_compute; reflexivity).
  split; [apply Hp; by left|]. intros fuel. enough (forall c, c = None \/ c = Some "|a" -> walk fuel Desc 1 table c = None) as H by (apply H; by left).
  induction fuel as [|fuel IH]; intros c Hc; [done|]. cbn [walk]. rewrite (Hp c Hc). cbn [pg_more pg_next]. by rewrite IH by (by right).
Qed.

(** A window narrower than the next character is empty and names its own start as the next. *)
Lemma narrow_window_never_advances size : windowContent size [195; 169] (Some 0) (Some 1) 1000 10 = Some (mkWindow [] 0 0 2 (Some 0) true).
Proof. unfold windowContent. cbn [default]. vm_compute. reflexivity. Qed.

Lemma window_fits_witness : exists s e : nat,
  windowContent (fun w => blen (cw_content w)) [104; 195; 169; 33] (Some 2) (Some 3) 1000 10 = Some (shape [104; 195; 169; 33] (Z.of_nat s) (Z.of_nat e)) /\ (s <= e)%nat.
Proof.
  destruct (window_fits (fun w => blen (cw_content w)) [104; 195; 169; 33] (Some 2) (Some 3) 1000 10) as (s & e & E & _ & _ & H & _); [cbn; lia|lia|].
  exists s, e. split; [exact E|exact H].
Defined.

Lemma windows_tile_text_witness : readWindows (fun _ => 0) 5 [104; 195; 169; 33] 0 (Some 4) 1000 10 = Some [104; 195; 169; 33].
Proof.
  apply (windows_tile_text (fun _ => 0) [104; 195; 169; 33] (Some 4) 1000 10).
  - intros b _ Hb. unfold blen in *. cbn [List.length] in *. destruct b as [|[|[|[|b]]]]; [exists 1%nat|exists 3%nat|exists 3%nat|exists 4%nat|lia];
      (split; [right; cbn; first [reflexivity|exact Logic.I]|lia]).
  - cbn. lia.
  - intros. cbn. lia.
Defined.
