(* ===== verification/OAuthStore.v ===== *)
(** * OAuth connections and their secrets

    A model of [packages/server/src/services/oauth/connection-store.ts] on the tables
    [secrets], [oauth_connections], [repos] and [mcp_connections]. A transaction runs alone
    and is undone when one of its statements fails; the unique name of a secret and the
    restriction on deleting a referenced one are the ways a statement fails. The
    [updated_at] of a connection is moved by its trigger. Clearing the cache of the vault and
    log lines are left out. *)
From Stdlib Require Import ZArith Lia Ascii String List Bool.
From stdpp Require Import base list strings gmap option.
From S2P Require Import Prelude JsString Bytes Base64 MasterKey Credentials Substitution Wakeups.

Open Scope string_scope.
Open Scope list_scope.
Open Scope Z_scope.

Record SecretRow := mkSecretRow {
  se_id : string; se_name : string; se_value : string; se_hosts : list string; se_all : bool
}.
(** Without the name of the access token, which is joined from its secret. *)
Record OAuthConnectionRow := mkConnection {
  oc_id : string; oc_provider : string; oc_account : string; oc_label : string; oc_access : string; oc_refresh : option string;
  oc_client : option string; oc_scopes : list string; oc_expires : option Z; oc_metadata : Payload; oc_project : option string;
  oc_created : Z; oc_updated : Z
}.
(** A connector's row: the connection it uses and its recorded error. *)
Record McpConnectionRow := mkConnectorRow { cn_id : string; cn_connection : option string; cn_error : option string; cn_updated : Z }.

Record StoreDb := mkStore {
  sd_secrets : list SecretRow; sd_conns : list OAuthConnectionRow; sd_repos : list (string * option string); sd_connectors : list McpConnectionRow
}.

Definition setSecrets (l : list SecretRow) (db : StoreDb) : StoreDb := mkStore l (sd_conns db) (sd_repos db) (sd_connectors db).
Definition setConns (l : list OAuthConnectionRow) (db : StoreDb) : StoreDb := mkStore (sd_secrets db) l (sd_repos db) (sd_connectors db).

Inductive StoreError := MasterKeyLocked | ConnectionNotFound | ConstraintViolated.

(** ** Names *)

(** [s.toUpperCase().replace(/[^A-Z0-9]/g, '_')]; sharp s becomes two letters. *)
Fixpoint secretNamePart (s : string) : string :=
  match s with
  | EmptyString => EmptyString
  | String c s =>
      let n := code c in
      if ((65 <=? n) && (n <=? 90)) || ((48 <=? n) && (n <=? 57)) then String c (secretNamePart s)
      else if (97 <=? n) && (n <=? 122) then String (ascii_of_nat (nat_of_ascii c - 32)) (secretNamePart s)
      else if n =? 223 then "SS" +:+ secretNamePart s
      else String "_" (secretNamePart s)
  end.

(** [s.replace(/-/g, '')] and [toUpperCase] on the digits of a UUID. *)
Fixpoint dropDashes (s : string) : string :=
  match s with
  | EmptyString => EmptyString
  | String c s => if Ascii.eqb c "-" then dropDashes s else String c (dropDashes s)
  end.
Fixpoint upperHex (s : string) : string :=
  match s with
  | EmptyString => EmptyString
  | String c s => String (if (97 <=? code c) && (code c <=? 122) then ascii_of_nat (nat_of_ascii c - 32) else c) (upperHex s)
  end.

Inductive SecretKind := AccessSecret | RefreshSecret | ClientSecret.

Definition oauthSecretName (provider connectionId : string) (kind : SecretKind) : string :=
  "OAUTH_" +:+ secretNamePart provider +:+ "_" +:+ upperHex (take_str 8 (dropDashes connectionId))
  +:+ match kind with AccessSecret => "" | RefreshSecret => "_REFRESH" | ClientSecret => "_CLIENT_SECRET" end.

(** ** Statements *)

Definition hasSecretId (id : string) (s : SecretRow) : bool := String.eqb (se_id s) id.
Definition hasConnId (id : string) (c : OAuthConnectionRow) : bool := String.eqb (oc_id c) id.

(** [INSERT INTO secrets]: the name is unique. *)
Definition insertSecret (id name value : string) (hosts : list string) (db : StoreDb) : option StoreDb :=
  if existsb (fun s => String.eqb (se_name s) name) (sd_secrets db) then None
  else Some (setSecrets (sd_secrets db ++ [mkSecretRow id name value hosts false]) db).

(** [UPDATE secrets SET encrypted_value WHERE id]. *)
Definition writeSecret (id value : string) (db : StoreDb) : StoreDb :=
  setSecrets (List.map (fun s => if hasSecretId id s then mkSecretRow (se_id s) (se_name s) value (se_hosts s) (se_all s) else s)
                (sd_secrets db)) db.

Definition unless (id : string) (r : option string) : option string := if bool_decide (r = Some id) then None else r.

(** [DELETE FROM secrets WHERE id]: refused while a connection's access token is it; other
    references are set to NULL. *)
Definition deleteSecret (now : Z) (id : string) (db : StoreDb) : option StoreDb :=
  if existsb (fun c => String.eqb (oc_access c) id) (sd_conns db) then None
  else Some (mkStore (List.filter (fun s => negb (hasSecretId id s)) (sd_secrets db))
    (List.map (fun c => if bool_decide (oc_refresh c = Some id) || bool_decide (oc_client c = Some id)
                        then mkConnection (oc_id c) (oc_provider c) (oc_account c) (oc_label c) (oc_access c) (unless id (oc_refresh c))
                               (unless id (oc_client c)) (oc_scopes c) (oc_expires c) (oc_metadata c) (oc_project c) (oc_created c) now
                        else c) (sd_conns db)) (sd_repos db) (sd_connectors db)).

Definition updateConn (id : string) (f : OAuthConnectionRow -> OAuthConnectionRow) (db : StoreDb) : StoreDb :=
  setConns (List.map (fun c => if hasConnId id c then f c else c) (sd_conns db)) db.

(** The vectors drawn by the encryptions of an operation, in their order. *)
Definition IvSource : Type := nat -> list Z.

Section Store.
Variable P : Platform.
(** The identifier the database gives a new secret. *)
Variable freshSecret : list SecretRow -> string.

Record CreateConnectionInput := mkCreate {
  ci_provider : string; ci_account : string; ci_label : string; ci_access : string; ci_refresh : option string; ci_client : option string;
  ci_scopes : list string; ci_expires : option Z; ci_metadata : Payload; ci_hosts : list string; ci_project : option string
}.

(** The insert of an optional token: its identifier, or none. *)
Definition insertToken (iv : list Z) (key : Key) (name : string) (token : option string) (hosts : list string) (db : StoreDb)
    : option (StoreDb * option string) :=
  match truthy token with
  | None => Some (db, None)
  | Some t =>
      let id := freshSecret (sd_secrets db) in
      (fun db => (db, Some id)) <$> insertSecret id name (encrypt P iv t key) hosts db
  end.

(** The row of [ON CONFLICT]: the same account in the same scope. *)
Definition sameAccount (input : CreateConnectionInput) (c : OAuthConnectionRow) : bool :=
  String.eqb (oc_provider c) (ci_provider input) && String.eqb (oc_account c) (ci_account input)
  && bool_decide (oc_project c = truthy (ci_project input)).

Definition reconnected (now : Z) (input : CreateConnectionInput) (access : string) (refresh client : option string) (c : OAuthConnectionRow)
    : OAuthConnectionRow :=
  mkConnection (oc_id c) (oc_provider c) (oc_account c) (ci_label input) access refresh client (ci_scopes input) (ci_expires input)
    (ci_metadata input) (oc_project c) (oc_created c) now.

Definition upsertConnection (now : Z) (connectionId : string) (input : CreateConnectionInput) (access : string)
    (refresh client : option string) (db : StoreDb) : StoreDb * OAuthConnectionRow :=
  match List.find (sameAccount input) (sd_conns db) with
  | Some c => (updateConn (oc_id c) (reconnected now input access refresh client) db, reconnected now input access refresh client c)
  | None =>
      let c := mkConnection connectionId (ci_provider input) (ci_account input) (ci_label input) access refresh client (ci_scopes input)
                 (ci_expires input) (ci_metadata input) (truthy (ci_project input)) now now in
      (setConns (sd_conns db ++ [c]) db, c)
  end.

(** The body of the transaction. *)
Definition insertConnection (now : Z) (ivs : IvSource) (key : Key) (connectionId : string) (input : CreateConnectionInput) (db : StoreDb)
    : option (StoreDb * OAuthConnectionRow) :=
  let name := oauthSecretName (ci_provider input) connectionId in
  let accessId := freshSecret (sd_secrets db) in
  db ← insertSecret accessId (name AccessSecret) (encrypt P (ivs 0%nat) (ci_access input) key) (ci_hosts input) db;
  '(db, refresh) ← insertToken (ivs 1%nat) key (name RefreshSecret) (ci_refresh input) (ci_hosts input) db;
  '(db, client) ← insertToken (ivs 2%nat) key (name ClientSecret) (ci_client input) [] db;
  Some (upsertConnection now connectionId input accessId refresh client db).

Definition createConnection (now : Z) (ivs : IvSource) (key : option Key) (connectionId : string) (input : CreateConnectionInput) (db : StoreDb)
    : StoreDb * result StoreError OAuthConnectionRow :=
  match key with
  | None => (db, Throw MasterKeyLocked)
  | Some key => match insertConnection now ivs key connectionId input db with
                | None => (db, Throw ConstraintViolated)
                | Some (db, c) => (db, Ok c)
                end
  end.

(** The join drops a connection whose access token has no row. *)
Definition getConnection (id : string) (db : StoreDb) : option OAuthConnectionRow :=
  c ← List.find (hasConnId id) (sd_conns db);
  if existsb (hasSecretId (oc_access c)) (sd_secrets db) then Some c else None.

Definition findConnectionByAccount (provider account : string) (projectId : option string) (db : StoreDb) : option OAuthConnectionRow :=
  List.find (fun c => String.eqb (oc_provider c) provider && String.eqb (oc_account c) account && bool_decide (oc_project c = projectId)
                      && existsb (hasSecretId (oc_access c)) (sd_secrets db)) (sd_conns db).

(** [ORDER BY (project_id IS NULL), created_at DESC]. *)
Definition ownFirst (a b : OAuthConnectionRow) : Z :=
  match oc_project a, oc_project b with
  | Some _, None => -1
  | None, Some _ => 1
  | _, _ => oc_created b - oc_created a
  end.
Definition newestConn (a b : OAuthConnectionRow) : Z := oc_created b - oc_created a.
Definition listConnections (projectId : option string) (db : StoreDb) : list OAuthConnectionRow :=
  let joined := List.filter (fun c => existsb (hasSecretId (oc_access c)) (sd_secrets db)) (sd_conns db) in
  match projectId with
  | Some p => js_sort ownFirst (List.filter (fun c => bool_decide (oc_project c = Some p) || bool_decide (oc_project c = None)) joined)
  | None => js_sort newestConn joined
  end.

(** The statements of a delete, for a connection that is there. *)
Definition dropConnection (now : Z) (c : OAuthConnectionRow) (db : StoreDb) : option StoreDb :=
  let id := oc_id c in
  let db := mkStore (sd_secrets db) (List.filter (fun x => negb (hasConnId id x)) (sd_conns db))
              (List.map (fun r => (fst r, unless id (snd r))) (sd_repos db))
              (List.map (fun m => if bool_decide (cn_connection m = Some id) then mkConnectorRow (cn_id m) None (cn_error m) now else m)
                 (sd_connectors db)) in
  db ← deleteSecret now (oc_access c) db;
  db ← match oc_refresh c with Some r => deleteSecret now r db | None => Some db end;
  match oc_client c with Some s => deleteSecret now s db | None => Some db end.

Definition deleteConnection (now : Z) (connectionId : string) (db : StoreDb) : StoreDb * result StoreError bool :=
  match List.find (hasConnId connectionId) (sd_conns db) with
  | None => (db, Ok false)
  | Some c => match dropConnection now c db with
              | None => (db, Throw ConstraintViolated)
              | Some db => (db, Ok true)
              end
  end.

(** A delete that throws ends the loop. *)
Fixpoint deleteAll (now : Z) (ids : list string) (db : StoreDb) : StoreDb * result StoreError unit :=
  match ids with
  | [] => (db, Ok tt)
  | id :: ids => match deleteConnection now id db with
                 | (db, Throw e) => (db, Throw e)
                 | (db, Ok _) => deleteAll now ids db
                 end
  end.
Definition deleteProjectConnections (now : Z) (projectId : string) (db : StoreDb) : StoreDb * result StoreError Z :=
  let ids := List.map oc_id (List.filter (fun c => bool_decide (oc_project c = Some projectId)) (sd_conns db)) in
  match deleteAll now ids db with
  | (db, Ok _) => (db, Ok (Z.of_nat (List.length ids)))
  | (db, Throw e) => (db, Throw e)
  end.

Definition setExpires (now : Z) (expires : option Z) (c : OAuthConnectionRow) : OAuthConnectionRow :=
  mkConnection (oc_id c) (oc_provider c) (oc_account c) (oc_label c) (oc_access c) (oc_refresh c) (oc_client c) (oc_scopes c) expires
    (oc_metadata c) (oc_project c) (oc_created c) now.
Definition setRefresh (now : Z) (refresh : string) (c : OAuthConnectionRow) : OAuthConnectionRow :=
  mkConnection (oc_id c) (oc_provider c) (oc_account c) (oc_label c) (oc_access c) (Some refresh) (oc_client c) (oc_scopes c) (oc_expires c)
    (oc_metadata c) (oc_project c) (oc_created c) now.

(** The refresh token of an update: written over the stored one, or stored beside the access
    token with its hosts. *)
Definition writeRefresh (now : Z) (iv : list Z) (key : Key) (c : OAuthConnectionRow) (refresh : option string) (db : StoreDb)
    : option StoreDb :=
  match truthy refresh, truthy (oc_refresh c) with
  | None, _ => Some db
  | Some token, Some id => Some (writeSecret id (encrypt P iv token key) db)
  | Some token, None =>
      match List.find (hasSecretId (oc_access c)) (sd_secrets db) with
      | None => None
      | Some access =>
          let id := freshSecret (sd_secrets db) in
          if existsb (fun s => String.eqb (se_name s) (oauthSecretName (oc_provider c) (oc_id c) RefreshSecret)) (sd_secrets db) then None
          else Some (updateConn (oc_id c) (setRefresh now id)
                 (setSecrets (sd_secrets db ++ [mkSecretRow id (oauthSecretName (oc_provider c) (oc_id c) RefreshSecret)
                                                  (encrypt P iv token key) (se_hosts access) (se_all access)]) db))
      end
  end.

Definition updateTokens (now : Z) (ivs : IvSource) (key : option Key) (connectionId accessToken : string) (refreshToken : option string)
    (expiresAt : option Z) (db : StoreDb) : StoreDb * result StoreError unit :=
  match key with
  | None => (db, Throw MasterKeyLocked)
  | Some key =>
      match getConnection connectionId db with
      | None => (db, Throw ConnectionNotFound)
      | Some c =>
          match writeRefresh now (ivs 1%nat) key c refreshToken (writeSecret (oc_access c) (encrypt P (ivs 0%nat) accessToken key) db) with
          | None => (db, Throw ConstraintViolated)
          | Some db' => (updateConn (oc_id c) (setExpires now expiresAt) db', Ok tt)
          end
      end
  end.

(** [loadSecretValue]. *)
Definition loadSecretValue (key : option Key) (id : string) (db : StoreDb) : option (result CryptoError string) :=
  key ← key; s ← List.find (hasSecretId id) (sd_secrets db); Some (decrypt P (se_value s) key).
End Store.

(** ** The vault of the connections *)

Definition refs (c : OAuthConnectionRow) : list string := oc_access c :: option_list (oc_refresh c) ++ option_list (oc_client c).

Record store_inv (db : StoreDb) : Prop := {
  si_secrets : NoDup (List.map se_id (sd_secrets db));
  si_conns : NoDup (List.map oc_id (sd_conns db));
  si_refs : forall c x, In c (sd_conns db) -> In x (refs c) -> In x (List.map se_id (sd_secrets db));
  si_roles : forall c, In c (sd_conns db) -> NoDup (refs c);
  si_owner : forall c d x, In c (sd_conns db) -> In d (sd_conns db) -> In x (refs c) -> In x (refs d) -> c = d;
  si_client : forall c s, In c (sd_conns db) -> In s (sd_secrets db) -> oc_client c = Some (se_id s) -> se_hosts s = [] /\ se_all s = false;
}.

(** A change of the secrets that keeps their identifiers and scopes. *)
Definition sameScopes (l l' : list SecretRow) : Prop :=
  List.map se_id l' = List.map se_id l /\
  forall s', In s' l' -> exists s, In s l /\ se_id s = se_id s' /\ se_hosts s = se_hosts s' /\ se_all s = se_all s'.

Lemma inv_rescope db l : sameScopes (sd_secrets db) l -> store_inv db -> store_inv (setSecrets l db).
Proof.
  intros [Hids Hs] [H1 H2 H3 H4 H5 H6]. split; cbn [setSecrets sd_secrets sd_conns]; try rewrite Hids; auto.
  intros c s' Hc Hin E. destruct (Hs s' Hin) as (s & Hs' & Hid & <- & <-). apply (H6 c s); [done|done|congruence].
Qed.

Lemma writeSecret_scopes id v db : sameScopes (sd_secrets db) (sd_secrets (writeSecret id v db)).
Proof.
  unfold writeSecret. cbn [setSecrets sd_secrets]. split.
  - rewrite List.map_map. apply List.map_ext. intros s. by destruct (hasSecretId id s).
  - intros s' (s & <- & Hin)%in_map_iff. exists s. destruct (hasSecretId id s); by split_and!.
Qed.

Lemma inv_add db s : ~ In (se_id s) (List.map se_id (sd_secrets db)) -> store_inv db -> store_inv (setSecrets (sd_secrets db ++ [s]) db).
Proof.
  intros Hnew [H1 H2 H3 H4 H5 H6]. split; cbn [setSecrets sd_secrets sd_conns]; rewrite ?List.map_app; auto.
  - apply list.NoDup_app. split_and!; [done| |apply NoDup_singleton]. intros x Hx%list_elem_of_In [->|[]%elem_of_nil]%elem_of_cons. done.
  - intros c x Hc Hx. apply in_app_iff. left. by apply (H3 c).
  - intros c s' Hc [Hin|[<-|[]]]%in_app_iff E; [by apply (H6 c)|]. exfalso. apply Hnew, (H3 c); [done|].
    right. apply in_app_iff. right. rewrite E. by left.
Qed.

Lemma insertSecret_spec id name v hosts db db' : insertSecret id name v hosts db = Some db' ->
  db' = setSecrets (sd_secrets db ++ [mkSecretRow id name v hosts false]) db.
Proof. unfold insertSecret. destruct (existsb _ _); congruence. Qed.

(** A row that is written keeps its identifier and takes references nothing else has. *)
Lemma inv_put db c c' : store_inv db -> In c (sd_conns db) -> oc_id c' = oc_id c -> NoDup (refs c') ->
  (forall x, In x (refs c') -> In x (List.map se_id (sd_secrets db))) ->
  (forall d x, In d (sd_conns db) -> In x (refs c') -> In x (refs d) -> d = c) ->
  (forall s, In s (sd_secrets db) -> oc_client c' = Some (se_id s) -> se_hosts s = [] /\ se_all s = false) ->
  store_inv (updateConn (oc_id c) (fun _ => c') db).
Proof.
  intros [H1 H2 H3 H4 H5 H6] Hc Hid Hnd Hin Hown Hcl.
  assert (forall d, In d (sd_conns db) -> hasConnId (oc_id c) d = true -> d = c) as Hone.
  { intros d Hd E%String.eqb_eq. by apply (NoDup_fmap_In oc_id (sd_conns db)). }
  assert (forall d, In d (List.map (fun d => if hasConnId (oc_id c) d then c' else d) (sd_conns db)) ->
    d = c' \/ (In d (sd_conns db) /\ d <> c)) as Hcases.
  { intros d (d0 & <- & Hd)%in_map_iff. destruct (hasConnId (oc_id c) d0) eqn:E; [by left|right]. split; [done|].
    intros ->. unfold hasConnId in E. by rewrite String.eqb_refl in E. }
  split; cbn [updateConn setConns sd_secrets sd_conns]; auto.
  - rewrite List.map_map. erewrite List.map_ext_in; [exact H2|]. intros d Hd. cbn.
    destruct (hasConnId (oc_id c) d) eqn:E; [|done]. by rewrite (Hone d Hd E).
  - intros d x [->|[Hd _]]%Hcases; [apply Hin|by apply H3].
  - intros d [->|[Hd _]]%Hcases; [done|by apply H4].
  - intros d e x [->|[Hd Hdc]]%Hcases [->|[He Hec]]%Hcases Hx Hx'; [done| | |by apply (H5 d e x)].
    + by destruct (Hec (Hown e x He Hx Hx')).
    + by destruct (Hdc (Hown d x Hd Hx' Hx)).
  - intros d s [->|[Hd _]]%Hcases; [apply Hcl|by apply H6].
Qed.

Lemma updateConn_const db c f : store_inv db -> In c (sd_conns db) -> updateConn (oc_id c) f db = updateConn (oc_id c) (fun _ => f c) db.
Proof.
  intros Hinv Hc. unfold updateConn. f_equal. apply List.map_ext_in. intros d Hd. destruct (hasConnId (oc_id c) d) eqn:E; [|done].
  apply String.eqb_eq in E. by rewrite (NoDup_fmap_In oc_id (sd_conns db) d c (si_conns db Hinv) Hd Hc E).
Qed.

(** The references a new or rewritten row takes: present, distinct, used by nothing else. *)
Record newRefs (db : StoreDb) (c : OAuthConnectionRow) : Prop := {
  nr_distinct : NoDup (refs c);
  nr_present : forall x, In x (refs c) -> In x (List.map se_id (sd_secrets db));
  nr_unused : forall d x, In d (sd_conns db) -> In x (refs c) -> ~ In x (refs d);
  nr_client : forall s, In s (sd_secrets db) -> oc_client c = Some (se_id s) -> se_hosts s = [] /\ se_all s = false;
}.

Lemma inv_append db c : store_inv db -> ~ In (oc_id c) (List.map oc_id (sd_conns db)) -> newRefs db c ->
  store_inv (setConns (sd_conns db ++ [c]) db).
Proof.
  intros [H1 H2 H3 H4 H5 H6] Hnew [N1 N2 N3 N4]. split; cbn [setConns sd_secrets sd_conns]; auto.
  - rewrite List.map_app. apply list.NoDup_app. split_and!; [done| |apply NoDup_singleton].
    intros x Hx%list_elem_of_In [->|[]%elem_of_nil]%elem_of_cons. done.
  - intros d x [Hd|[<-|[]]]%in_app_iff; [by apply H3|apply N2].
  - intros d [Hd|[<-|[]]]%in_app_iff; [by apply H4|done].
  - intros d e x [Hd|[<-|[]]]%in_app_iff [He|[<-|[]]]%in_app_iff Hx Hx'; [by apply (H5 d e x)| | |done].
    + by destruct (N3 d x Hd Hx').
    + by destruct (N3 e x He Hx).
  - intros d s [Hd|[<-|[]]]%in_app_iff; [by apply H6|apply N4].
Qed.

Lemma inv_replace db c c' : store_inv db -> In c (sd_conns db) -> oc_id c' = oc_id c -> newRefs db c' ->
  store_inv (updateConn (oc_id c) (fun _ => c') db).
Proof.
  intros Hinv Hc Hid [N1 N2 N3 N4]. apply inv_put; try done. intros d x Hd Hx Hx'. by destruct (N3 d x Hd Hx).
Qed.

Section StoreLaws.
Variable P : Platform.
Variable freshSecret : list SecretRow -> string.
Hypothesis fresh_new : forall l, ~ In (freshSecret l) (List.map se_id l).

Notation insertToken := (insertToken P freshSecret).
Notation insertConnection := (insertConnection P freshSecret).
Notation createConnection := (createConnection P freshSecret).
Notation updateTokens := (updateTokens P freshSecret).

Lemma insertToken_spec iv key name token hosts db db' r : insertToken iv key name token hosts db = Some (db', r) ->
  match r with
  | None => db' = db
  | Some id => ~ In id (List.map se_id (sd_secrets db)) /\ exists v, db' = setSecrets (sd_secrets db ++ [mkSecretRow id name v hosts false]) db
  end.
Proof.
  unfold OAuthStore.insertToken. destruct (truthy token) as [t|]; [|by intros [= <- <-]].
  destruct (insertSecret _ _ _ _ _) as [db1|] eqn:E; [|done]. intros [= <- <-]. split; [apply fresh_new|].
  apply insertSecret_spec in E. by eexists.
Qed.

Lemma upsertConnection_inv now connectionId input access refresh client db : store_inv db ->
  ~ In connectionId (List.map oc_id (sd_conns db)) ->
  (forall c, oc_access c = access -> oc_refresh c = refresh -> oc_client c = client -> newRefs db c) ->
  store_inv (fst (upsertConnection now connectionId input access refresh client db)).
Proof.
  intros Hinv Hnew Hrefs. unfold upsertConnection. destruct (List.find _ _) as [c|] eqn:E; cbn [fst].
  - apply find_some in E as [Hc _]. rewrite (updateConn_const db c _ Hinv Hc). apply inv_replace; try done. by apply Hrefs.
  - apply inv_append; try done. by apply Hrefs.
Qed.

Lemma newRefs_three db c access refresh client n1 v1 h1 l2 l3 :
  store_inv db -> oc_access c = access -> oc_refresh c = refresh -> oc_client c = client ->
  ~ In access (List.map se_id (sd_secrets db)) ->
  let s1 := sd_secrets db ++ [mkSecretRow access n1 v1 h1 false] in
  match refresh with
  | None => l2 = []
  | Some r => ~ In r (List.map se_id s1) /\ exists n v h, l2 = [mkSecretRow r n v h false]
  end ->
  match client with
  | None => l3 = []
  | Some k => ~ In k (List.map se_id (s1 ++ l2)) /\ exists n v, l3 = [mkSecretRow k n v [] false]
  end ->
  newRefs (setSecrets (s1 ++ l2 ++ l3) db) c.
Proof.
  intros Hinv Ha Hr Hk Hna s1 H2 H3.
  assert (forall x, In x (refs c) -> ~ In x (List.map se_id (sd_secrets db))) as Hout.
  { intros x. unfold refs. rewrite Ha, Hr, Hk. intros [<-|[Hx|Hx]%in_app_iff] Hin; [done| |].
    - destruct refresh as [r|]; [|done]. destruct Hx as [<-|[]]. destruct H2 as [H2 _]. apply H2. unfold s1. rewrite List.map_app, in_app_iff. by left.
    - destruct client as [k|]; [|done]. destruct Hx as [<-|[]]. destruct H3 as [H3 _]. apply H3. unfold s1.
      rewrite !List.map_app, !in_app_iff. tauto. }
  assert (In access (List.map se_id s1)) as Hacc by (unfold s1; rewrite List.map_app, in_app_iff; right; by left).
  split; cbn [setSecrets sd_secrets sd_conns].
  - unfold refs. rewrite Ha, Hr, Hk. destruct refresh as [r|], client as [k|]; cbn [option_list app].
    + destruct H2 as [H2 (n & v & h & ->)], H3 as [H3 _]. rewrite List.map_app, in_app_iff in H3. cbn in H3.
      repeat constructor; rewrite ?list_elem_of_In; cbn; intuition congruence.
    + destruct H2 as [H2 _]. repeat constructor; rewrite ?list_elem_of_In; cbn; intuition congruence.
    + destruct H3 as [H3 _]. subst l2. rewrite app_nil_r in H3. repeat constructor; rewrite ?list_elem_of_In; cbn; intuition congruence.
    + repeat constructor; rewrite ?list_elem_of_In; cbn; tauto.
  - intros x. unfold refs. rewrite Ha, Hr, Hk, !List.map_app, !in_app_iff. intros [<-|[Hx|Hx]%in_app_iff]; [by left| |].
    + destruct refresh as [r|]; [|done]. destruct Hx as [<-|[]], H2 as [_ (n & v & h & ->)]. right. left. by left.
    + destruct client as [k|]; [|done]. destruct Hx as [<-|[]], H3 as [_ (n & v & ->)]. right. right. by left.
  - intros d x Hd Hx Hx'. apply (Hout x Hx). by apply (si_refs db Hinv d).
  - intros s Hs E. rewrite Hk in E. destruct client as [k|]; [|done]. injection E as ->. destruct H3 as [H3 (n & v & ->)].
    rewrite app_assoc, in_app_iff in Hs. destruct Hs as [Hs|[<-|[]]]; [|done]. exfalso. apply H3. by apply in_map.
Qed.

Lemma insertConnection_inv now ivs key connectionId input db db' c : insertConnection now ivs key connectionId input db = Some (db', c) ->
  store_inv db -> ~ In connectionId (List.map oc_id (sd_conns db)) -> store_inv db'.
Proof.
  intros H Hinv Hnew. unfold OAuthStore.insertConnection in H.
  destruct (insertSecret _ _ _ _ db) as [db1|] eqn:E1; [|done]. cbn in H. apply insertSecret_spec in E1.
  destruct (insertToken _ _ _ (ci_refresh input) _ db1) as [[db2 refresh]|] eqn:E2; [|done]. cbn in H. apply insertToken_spec in E2.
  destruct (insertToken _ _ _ (ci_client input) _ db2) as [[db3 client]|] eqn:E3; [|done]. cbn in H. apply insertToken_spec in E3.
  injection H as H. pose proof (f_equal fst H) as Hdb. cbn [fst] in Hdb. subst db'.
  pose proof (fresh_new (sd_secrets db)) as Hf. set (a := freshSecret (sd_secrets db)) in *.
  assert (store_inv db1) as I1 by (subst db1; by apply inv_add).
  assert (store_inv db2) as I2 by (destruct refresh; [destruct E2 as [? [? ->]]; by apply inv_add|by subst db2]).
  assert (store_inv db3) as I3 by (destruct client; [destruct E3 as [? [? ->]]; by apply inv_add|by subst db3]).
  assert (exists l2 l3, db3 = setSecrets ((sd_secrets db ++ [mkSecretRow a (oauthSecretName (ci_provider input) connectionId AccessSecret)
      (encrypt P (ivs 0%nat) (ci_access input) key) (ci_hosts input) false]) ++ l2 ++ l3) db /\
    match refresh with
    | None => l2 = []
    | Some r => ~ In r (List.map se_id (sd_secrets db1)) /\ exists n v h, l2 = [mkSecretRow r n v h false]
    end /\
    match client with
    | None => l3 = []
    | Some k => ~ In k (List.map se_id (sd_secrets db1 ++ l2)) /\ exists n v, l3 = [mkSecretRow k n v [] false]
    end) as (l2 & l3 & -> & Hl2 & Hl3).
  { destruct refresh as [r|], client as [k|].
    - destruct E2 as [Hr [v2 ->]], E3 as [Hk [v3 ->]]. subst db1. do 2 eexists. split_and!; [|done|by eauto|exact Hk|by eauto].
      cbn [setSecrets sd_secrets]. unfold setSecrets. cbn. by rewrite <- !app_assoc.
    - destruct E2 as [Hr [v2 ->]]. subst db3 db1. eexists _, []. split_and!; [|done|by eauto|done]. unfold setSecrets. cbn. by rewrite <- !app_assoc.
    - destruct E3 as [Hk [v3 ->]]. subst db2 db1. eexists [], _. split_and!; [|done|rewrite app_nil_r; exact Hk|by eauto]. unfold setSecrets. cbn. by rewrite <- !app_assoc.
    - subst db3 db2 db1. exists [], []. split_and!; [|done|done]. unfold setSecrets. cbn. by rewrite !app_nil_r. }
  subst db1. cbn [setSecrets sd_secrets] in Hl2, Hl3.
  apply upsertConnection_inv; [done|done|]. intros d Hd1 Hd2 Hd3.
  by apply (newRefs_three db d a refresh client _ _ _ l2 l3 Hinv Hd1 Hd2 Hd3 Hf Hl2 Hl3).
Qed.

Lemma inv_put_same db c c' : store_inv db -> In c (sd_conns db) -> oc_id c' = oc_id c -> refs c' = refs c -> oc_client c' = oc_client c ->
  store_inv (updateConn (oc_id c) (fun _ => c') db).
Proof.
  intros Hinv Hc Hid Hr Hcl. apply inv_put; rewrite ?Hr, ?Hcl; try done.
  - by apply (si_roles db Hinv).
  - intros x. by apply (si_refs db Hinv).
  - intros d x Hd Hx Hx'. by apply (si_owner db Hinv d c x).
  - intros s. by apply (si_client db Hinv).
Qed.

Lemma writeSecret_inv id v db : store_inv db -> store_inv (writeSecret id v db).
Proof. intros Hinv. apply inv_rescope; [apply writeSecret_scopes|done]. Qed.

(** A refresh token stored for the first time. *)
Lemma setRefresh_inv now id c s db : store_inv db -> In c (sd_conns db) -> oc_refresh c = None \/ oc_refresh c = Some "" ->
  se_id s = id -> ~ In id (List.map se_id (sd_secrets db)) ->
  store_inv (updateConn (oc_id c) (setRefresh now id) (setSecrets (sd_secrets db ++ [s]) db)).
Proof.
  intros Hinv Hc Hnone Hs Hnew. assert (store_inv (setSecrets (sd_secrets db ++ [s]) db)) as Hinv' by (apply inv_add; by rewrite ?Hs).
  rewrite (updateConn_const _ c _ Hinv') by done.
  assert (forall x, In x (refs (setRefresh now id c)) -> x = id \/ In x (refs c)) as Hrefs.
  { intros x [<-|[<-|Hx]]; [right; by left|by left|]. right. right. apply in_app_iff. by right. }
  assert (forall d, In d (sd_conns db) -> ~ In id (refs d)) as Hun by (intros d Hd Hx; by apply Hnew, (si_refs db Hinv d)).
  apply inv_put; try done.
  - pose proof (si_roles db Hinv c Hc) as Hnd. unfold refs in *. cbn [setRefresh oc_access oc_refresh oc_client option_list app].
    assert (NoDup (oc_access c :: option_list (oc_client c))) as Hnd'.
    { destruct Hnone as [E|E]; rewrite E in Hnd; cbn [option_list app] in Hnd; [done|]. inversion Hnd as [|? ? Ha Hr]; subst. inversion Hr; subst.
      constructor; [set_solver|done]. }
    specialize (Hun c Hc). unfold refs in Hun. inversion Hnd' as [|? ? Ha Hr]; subst. constructor; [|constructor; [|done]].
    + intros [E|Hx]%elem_of_cons; [|done]. apply Hun. left. done.
    + intros Hx%list_elem_of_In. apply Hun. right. apply in_app_iff. by right.
  - intros x [->|Hx]%Hrefs; cbn [setSecrets sd_secrets]; rewrite List.map_app, in_app_iff; [right; left; done|left]. by apply (si_refs db Hinv c).
  - intros d x Hd [->|Hx]%Hrefs Hx'; [by destruct (Hun d Hd)|]. by apply (si_owner db Hinv d c x).
  - intros s' Hs' E. by apply (si_client _ Hinv' c s').
Qed.

Lemma writeRefresh_inv now iv key c refresh db db' : store_inv db -> In c (sd_conns db) ->
  writeRefresh P freshSecret now iv key c refresh db = Some db' ->
  store_inv db' /\ exists c', In c' (sd_conns db') /\ oc_id c' = oc_id c.
Proof.
  intros Hinv Hc. unfold writeRefresh. destruct (truthy refresh) as [token|]; [|intros [= <-]; split; [done|by exists c]].
  destruct (truthy (oc_refresh c)) as [id|] eqn:Er.
  - intros [= <-]. split; [by apply writeSecret_inv|by exists c].
  - destruct (List.find _ _) as [access|]; [|done]. destruct (existsb _ _); [done|]. intros [= <-]. split.
    + apply setRefresh_inv; [done|done| |done|apply fresh_new]. destruct (oc_refresh c) as [[|]|]; [by right|done|by left].
    + exists (setRefresh now (freshSecret (sd_secrets db)) c). split; [|done]. apply in_map_iff. exists c. split; [|done].
      unfold hasConnId. by rewrite String.eqb_refl.
Qed.

Lemma updateTokens_inv now iv key id access refresh expires db :
  store_inv db -> store_inv (fst (updateTokens now iv key id access refresh expires db)).
Proof.
  intros Hinv. unfold OAuthStore.updateTokens. destruct key as [key|]; [|done]. destruct (getConnection id db) as [c|] eqn:Eg; [|done].
  unfold getConnection in Eg. destruct (List.find _ _) as [c0|] eqn:Ef; [|done]. cbn in Eg. destruct (existsb _ _); [|done]. injection Eg as ->.
  apply find_some in Ef as [Hc _]. destruct (writeRefresh _ _ _ _ _ _ _ _) as [db'|] eqn:Ew; [|done]. cbn [fst].
  apply writeRefresh_inv in Ew as (Hinv' & c' & Hc' & Hid); [|by apply writeSecret_inv|done].
  rewrite <- Hid, (updateConn_const _ c' _ Hinv' Hc'). by apply inv_put_same.
Qed.
End StoreLaws.

(** ** Deleting a connection *)

Definition purged (c : OAuthConnectionRow) (s : SecretRow) : bool := negb (bool_decide (se_id s ∈ refs c)).

Lemma deleteSecret_unused now id db : (forall d, In d (sd_conns db) -> ~ In id (refs d)) ->
  deleteSecret now id db = Some (setSecrets (List.filter (fun s => negb (hasSecretId id s)) (sd_secrets db)) db).
Proof.
  intros H. unfold deleteSecret. rewrite (proj2 (existsb_false_iff _ _)).
  - f_equal. unfold setSecrets. f_equal. erewrite List.map_ext_in; [apply List.map_id|]. intros d Hd. cbn.
    assert (forall r, In r (option_list (oc_refresh d) ++ option_list (oc_client d)) -> r <> id) as Hr.
    { intros r Hr ->. apply (H d Hd). by right. }
    rewrite !bool_decide_false; [done| |]; intros E; (eapply Hr; [|reflexivity]); rewrite E; apply in_app_iff; [right|left]; by left.
  - intros d Hd. apply String.eqb_neq. intros E. apply (H d Hd). by left.
Qed.

Lemma filter_purged c l : List.filter (purged c) l =
  List.filter (fun s => match oc_client c with Some k => negb (hasSecretId k s) | None => true end)
    (List.filter (fun s => match oc_refresh c with Some r => negb (hasSecretId r s) | None => true end)
       (List.filter (fun s => negb (hasSecretId (oc_access c) s)) l)).
Proof.
  rewrite !filter_filter_and. apply List.filter_ext. intros s. unfold purged, refs, hasSecretId.
  destruct (oc_refresh c) as [r|], (oc_client c) as [k|]; cbn [option_list app]; rewrite ?andb_true_r;
    repeat match goal with |- context [String.eqb ?x ?y] => destruct (String.eqb_spec x y) end; cbn;
    first [rewrite bool_decide_true by set_solver; done|rewrite bool_decide_false by set_solver; done].
Qed.

Lemma dropConnection_spec now c db : store_inv db -> In c (sd_conns db) -> exists db', dropConnection now c db = Some db' /\
  sd_secrets db' = List.filter (purged c) (sd_secrets db) /\ sd_conns db' = List.filter (fun x => negb (hasConnId (oc_id c) x)) (sd_conns db).
Proof.
  intros Hinv Hc. unfold dropConnection. set (db0 := mkStore _ _ _ _).
  assert (forall x d, In x (refs c) -> In d (sd_conns db0) -> ~ In x (refs d)) as Hun.
  { intros x d Hx [Hd Hne]%filter_In Hx'. rewrite (si_owner db Hinv d c x Hd Hc Hx' Hx) in Hne. unfold hasConnId in Hne. by rewrite String.eqb_refl in Hne. }
  rewrite deleteSecret_unused; [|intros d; apply Hun; by left]. cbn [mbind option_bind].
  assert (forall o l, (forall r, o = Some r -> In r (refs c)) ->
    match o with Some r => deleteSecret now r (setSecrets l db0) | None => Some (setSecrets l db0) end =
    Some (setSecrets (List.filter (fun s => match o with Some r => negb (hasSecretId r s) | None => true end) l) db0)) as Hdel.
  { intros [r|] l Hr.
    - rewrite deleteSecret_unused; [done|]. intros d. apply Hun. by apply Hr.
    - do 2 f_equal. symmetry. by induction l as [|y l IH]; cbn; [|rewrite IH]. }
  rewrite Hdel by (intros r E; right; apply in_app_iff; left; rewrite E; by left). cbn [mbind option_bind].
  rewrite Hdel by (intros r E; right; apply in_app_iff; right; rewrite E; by left).
  eexists. split_and!; [done| |done]. cbn [setSecrets sd_secrets db0]. by rewrite filter_purged.
Qed.

Lemma delete_inv c db db' : store_inv db -> In c (sd_conns db) -> sd_secrets db' = List.filter (purged c) (sd_secrets db) ->
  sd_conns db' = List.filter (fun x => negb (hasConnId (oc_id c) x)) (sd_conns db) -> store_inv db'.
Proof.
  intros Hinv Hc Hs Hd. pose proof Hinv as [H1 H2 H3 H4 H5 H6].
  assert (forall d, In d (sd_conns db') -> In d (sd_conns db) /\ d <> c) as Hin.
  { intros d. rewrite Hd. intros [Hd' E]%filter_In. split; [done|]. intros ->. unfold hasConnId in E. by rewrite String.eqb_refl in E. }
  split.
  - rewrite Hs. by apply NoDup_map_filter.
  - rewrite Hd. by apply NoDup_map_filter.
  - intros d x [Hd' Hne]%Hin Hx. destruct (proj1 (in_map_iff se_id _ x) (H3 d x Hd' Hx)) as (s & <- & Hs'). apply in_map_iff. exists s. split; [done|].
    rewrite Hs. apply filter_In. split; [done|]. unfold purged. rewrite bool_decide_false; [done|]. rewrite list_elem_of_In. intros Hx'.
    by destruct (Hne (H5 d c (se_id s) Hd' Hc Hx Hx')).
  - intros d [Hd' _]%Hin. by apply H4.
  - intros d e x [Hd' _]%Hin [He _]%Hin. by apply H5.
  - intros d s [Hd' _]%Hin. rewrite Hs. intros [Hs' _]%filter_In. by apply H6.
Qed.

Lemma deleteConnection_spec now id db : store_inv db ->
  match List.find (hasConnId id) (sd_conns db) with
  | None => deleteConnection now id db = (db, Ok false)
  | Some c => exists db', deleteConnection now id db = (db', Ok true) /\ store_inv db' /\
      sd_secrets db' = List.filter (purged c) (sd_secrets db) /\ sd_conns db' = List.filter (fun x => negb (hasConnId id x)) (sd_conns db)
  end.
Proof.
  intros Hinv. unfold deleteConnection. destruct (List.find _ _) as [c|] eqn:E; [|done]. apply find_some in E as [Hc Hid].
  apply String.eqb_eq in Hid. subst id. destruct (dropConnection_spec now c db Hinv Hc) as (db' & -> & Hs & Hd). exists db'.
  split_and!; try done. by apply (delete_inv c db db').
Qed.

Lemma deleteAll_inv now ids db : store_inv db -> store_inv (fst (deleteAll now ids db)).
Proof.
  revert db. induction ids as [|id ids IH]; intros db Hinv; [done|]. cbn [deleteAll]. pose proof (deleteConnection_spec now id db Hinv) as H.
  destruct (List.find _ _) as [c|]; [destruct H as (db' & -> & Hinv' & _)|rewrite H]; by apply IH.
Qed.

(** ** Histories of the store *)

Section Histories.
Variable P : Platform.
Variable freshSecret : list SecretRow -> string.

Inductive StoreEvent :=
| Create (ivs : IvSource) (connectionId : string) (input : CreateConnectionInput)
| Refreshed (ivs : IvSource) (connectionId accessToken : string) (refreshToken : option string) (expiresAt : option Z)
| Delete (connectionId : string)
| DeleteProject (projectId : string).

Definition storeStep (now : Z) (key : option Key) (e : StoreEvent) (db : StoreDb) : StoreDb :=
  match e with
  | Create ivs id input => fst (createConnection P freshSecret now ivs key id input db)
  | Refreshed ivs id access refresh expires => fst (updateTokens P freshSecret now ivs key id access refresh expires db)
  | Delete id => fst (deleteConnection now id db)
  | DeleteProject p => fst (deleteProjectConnections now p db)
  end.

(** A new connection has an identifier of its own. *)
Definition freshEvent (e : StoreEvent) (db : StoreDb) : Prop :=
  match e with Create _ id _ => ~ In id (List.map oc_id (sd_conns db)) | _ => True end.

(** From a store with no connection, whatever other secrets it holds. *)
Inductive store_reach : StoreDb -> Prop :=
| store_start secrets repos connectors : NoDup (List.map se_id secrets) -> store_reach (mkStore secrets [] repos connectors)
| store_step now key e db : store_reach db -> freshEvent e db -> store_reach (storeStep now key e db).

Hypothesis fresh_new : forall l, ~ In (freshSecret l) (List.map se_id l).

Lemma storeStep_inv now key e db : store_inv db -> freshEvent e db -> store_inv (storeStep now key e db).
Proof.
  intros Hinv Hf. destruct e as [iv id input|iv id access refresh expires|id|p]; cbn [storeStep].
  - unfold createConnection. destruct key as [key|]; [|done].
    destruct (insertConnection _ _ _ _ _ _ _ _) as [[db' c]|] eqn:E; [|done]. by eapply insertConnection_inv.
  - by apply updateTokens_inv.
  - pose proof (deleteConnection_spec now id db Hinv) as H.
    destruct (List.find _ _); [destruct H as (db' & -> & Hinv' & _); done|by rewrite H].
  - unfold deleteProjectConnections. pose proof (deleteAll_inv now (List.map oc_id (List.filter (fun c => bool_decide (oc_project c = Some p)) (sd_conns db))) db Hinv) as H.
    destruct (deleteAll _ _ _) as [db' [u|e]]; exact H.
Qed.

Lemma store_reach_inv db : store_reach db -> store_inv db.
Proof. induction 1 as [secrets repos connectors H|now key e db _ IH Hf]; [by split; cbn; try done; constructor|by apply storeStep_inv]. Qed.

(** A row of the vault as the egress proxy resolves it. *)
Definition resolved (text : string) (inBody : bool) (s : SecretRow) : ResolvedSecret := mkSecret (se_name s) text (se_hosts s) (se_all s) inBody.

(** C15. The client secret of a connection is refused to every host the egress proxy may be asked
    for, whatever connections are made, refreshed, reconnected and deleted. *)
Theorem client_secret_never_leaves db c s host text inBody : store_reach db -> In c (sd_conns db) -> In s (sd_secrets db) ->
  oc_client c = Some (se_id s) -> permitted host (resolved text inBody s) = false.
Proof.
  intros Hr Hc Hs E. destruct (si_client db (store_reach_inv db Hr) c s Hc Hs E) as [Hh Ha]. unfold permitted, resolved.
  cbn [allowedHosts allowAllHosts]. by rewrite Hh, Ha.
Qed.

(** Deleting a connection succeeds and takes its tokens and its client secret out of the vault,
    leaving every other secret and every other connection as it was. *)
Theorem delete_purges_connection now id db c : store_reach db -> List.find (hasConnId id) (sd_conns db) = Some c ->
  exists db', deleteConnection now id db = (db', Ok true) /\
  (forall s, In s (sd_secrets db') <-> In s (sd_secrets db) /\ ~ In (se_id s) (refs c)) /\
  (forall d, In d (sd_conns db') <-> In d (sd_conns db) /\ oc_id d <> id) /\
  (forall d x, In d (sd_conns db') -> In x (refs d) -> In x (List.map se_id (sd_secrets db'))).
Proof.
  intros Hr Hf. pose proof (deleteConnection_spec now id db (store_reach_inv db Hr)) as H. rewrite Hf in H.
  destruct H as (db' & H1 & H2 & H3 & H4). exists db'. split_and!; [done| | |by apply (si_refs db' H2)].
  - intros s. rewrite H3, filter_In. unfold purged. pose proof (list_elem_of_In (refs c) (se_id s)) as Hel.
    destruct (bool_decide _) eqn:E; [apply bool_decide_eq_true in E|apply bool_decide_eq_false in E]; cbn [negb]; intuition congruence.
  - intros d. rewrite H4, filter_In. unfold hasConnId. destruct (String.eqb_spec (oc_id d) id); cbn; intuition congruence.
Qed.
End Histories.

(** ** Concrete connections *)

Definition demo_freshId (l : list SecretRow) : string := fold_right (fun s acc => se_id s +:+ acc) "x" l.
Lemma demo_freshId_long l s : In s l -> (String.length (se_id s) < String.length (demo_freshId l))%nat.
Proof.
  assert (forall a b : string, String.length (a +:+ b) = (String.length a + String.length b)%nat) as Happ.
  { intros a b. induction a as [|c a IH]; [done|]. rewrite app_str_cons. cbn. by rewrite IH. }
  assert (forall t l, demo_freshId (t :: l) = se_id t +:+ demo_freshId l) as Hstep by done.
  assert (forall l, (0 < String.length (demo_freshId l))%nat) as Hpos.
  { intros l0. induction l0 as [|t l0 IH]; [cbn; lia|]. rewrite Hstep, Happ. lia. }
  induction l as [|t l IH]; [done|]. rewrite Hstep, Happ.
  intros [->|H]; [pose proof (Hpos l); lia|]. specialize (IH H). lia.
Qed.
Lemma demo_freshId_new l : ~ In (demo_freshId l) (List.map se_id l).
Proof. intros (s & E & H%demo_freshId_long)%in_map_iff. rewrite E in H. lia. Qed.

Definition demo_ivs : IvSource := fun _ => demo_iv.
Definition demo_google (project : option string) : CreateConnectionInput :=
  mkCreate "google" "acct" "me@example.com" "access-1" (Some "refresh-1") (Some "client-1") [] (Some 1000) ∅ ["www.googleapis.com"] project.
Definition demo_key : option Key := Some [1; 2; 3].
Definition demo_connected : StoreDb :=
  storeStep demo_platform demo_freshId 10 demo_key (Create demo_ivs "c1" (demo_google None)) (mkStore [] [] [] []).

Lemma demo_connected_reach : store_reach demo_platform demo_freshId demo_connected.
Proof. apply store_step; [apply store_start; constructor|]. by intros []. Qed.

Definition demo_conn : OAuthConnectionRow :=
  mkConnection "c1" "google" "acct" "me@example.com" "x" (Some "xx") (Some "xxxx") [] (Some 1000) ∅ None 10 10.

Lemma client_secret_never_leaves_witness : exists s, In s (sd_secrets demo_connected) /\ oc_client demo_conn = Some (se_id s) /\
  permitted "www.googleapis.com" (resolved "client-1" true s) = false.
Proof.
  assert (In demo_conn (sd_conns demo_connected)) as Hc by (left; vm_compute; reflexivity).
  destruct (sd_secrets demo_connected) as [|s1 [|s2 [|s3 [|]]]] eqn:Es; try (vm_compute in Es; discriminate Es).
  assert (se_id s3 = "xxxx") as Hid by (vm_compute in Es; injection Es as _ _ <-; reflexivity).
  assert (In s3 (sd_secrets demo_connected)) as Hs by (rewrite Es; cbn; tauto).
  exists s3. rewrite Hid. split; [cbn; tauto|]. split; [reflexivity|].
  apply (client_secret_never_leaves demo_platform demo_freshId demo_freshId_new demo_connected demo_conn s3 "www.googleapis.com" "client-1" true
           demo_connected_reach Hc Hs). by rewrite Hid.
Defined.

Lemma delete_purges_connection_witness : exists db', deleteConnection 20 "c1" demo_connected = (db', Ok true) /\ sd_secrets db' = [].
Proof.
  assert (List.find (hasConnId "c1") (sd_conns demo_connected) = Some demo_conn) as Hf by (vm_compute; reflexivity).
  destruct (delete_purges_connection demo_platform demo_freshId demo_freshId_new 20 "c1" demo_connected demo_conn demo_connected_reach Hf)
    as (db' & H1 & _). exists db'. split; [exact H1|].
  pose proof (f_equal fst H1) as H2. cbn [fst] in H2. rewrite <- H2. vm_compute. reflexivity.
Defined.

(** Reconnecting an account writes new secrets and points the connection at them; the tokens it
    replaced stay in the vault, allowed on their hosts, and deleting the connection leaves them. *)
Lemma reconnect_leaves_tokens :
  let again := storeStep demo_platform demo_freshId 30 demo_key (Create demo_ivs "c2" (demo_google None)) demo_connected in
  let gone := storeStep demo_platform demo_freshId 40 demo_key (Delete "c1") again in
  List.map oc_id (sd_conns again) = ["c1"] /\ sd_conns gone = [] /\
  List.map se_name (sd_secrets gone) = ["OAUTH_GOOGLE_C1"; "OAUTH_GOOGLE_C1_REFRESH"; "OAUTH_GOOGLE_C1_CLIENT_SECRET"] /\
  List.map (fun s => permitted "www.googleapis.com" (resolved "token" false s)) (sd_secrets gone) = [true; true; false].
Proof. vm_compute. done. Qed.
