(* ===== verification/TokenRefresh.v ===== *)
(** * Refreshing OAuth tokens

    A model of [packages/server/src/services/oauth/token-resolver.ts] on the store of
    connections: which connections a sweep picks, the coalescing of concurrent refreshes, a
    refresh cut at its awaits ([RefreshStage]), and the backoff and parking of failures. The
    provider's answers are arguments; anything may happen between two steps of a refresh. *)
From Stdlib Require Import ZArith Lia Ascii String List Bool Permutation Sorted.
From stdpp Require Import base list strings gmap option.
From S2P Require Import Prelude JsString Bytes Base64 MasterKey Wakeups OAuthStore.

Open Scope string_scope.
Open Scope list_scope.
Open Scope Z_scope.

Definition REFRESH_WINDOW_MS : Z := 60000.
Definition REFRESH_BACKOFF_BASE_MS : Z := 30000.
Definition REFRESH_BACKOFF_MAX_MS : Z := 15 * 60000.
Definition CONNECTOR_HEALTH_BATCH_LIMIT : nat := 25.
Definition CONNECTOR_HEALTH_CONCURRENCY : nat := 5.
Definition CONNECTOR_HEALTH_HORIZON_MS : Z := 10 * 60000.

(** [rf_next] is [None] for an attempt that never comes. *)
Record RefreshFailure := mkFailure { rf_attempts : Z; rf_next : option Z; rf_parked : option Z }.

Definition PERMANENT_MARKS : list string := ["invalid_grant"; "invalid_client"; "unauthorized_client"; "needs token_url + client_id"].
Definition isPermanentRefreshFailure (message : string) : bool := existsb (includes (toLowerCase message)) PERMANENT_MARKS.

Definition backoffDelay (attempts : Z) : Z := Z.min (REFRESH_BACKOFF_BASE_MS * 2 ^ (attempts - 1)) REFRESH_BACKOFF_MAX_MS.

Record RefreshResult := mkRefreshResult { rt_access : string; rt_refresh : option string; rt_expires : option Z }.

Inductive RefreshStage :=
| Reading
| LoadingSecret (c : OAuthConnectionRow) (bespoke : bool)
| Calling (c : OAuthConnectionRow) (token : string)
| Storing (c : OAuthConnectionRow) (r : RefreshResult)
| Settled.
Record RefreshOp := mkOp { op_conn : string; op_stage : RefreshStage }.

(** [rs_fns] and [rs_generic] are the refresh functions registered; [rs_ops] the refreshes
    started, of which [rs_inflight] names the one of each connection that has not settled. *)
Record Resolver := mkResolver {
  rs_store : StoreDb; rs_key : option Key; rs_fns : list string; rs_generic : bool; rs_failures : gmap string RefreshFailure;
  rs_inflight : gmap string nat; rs_ops : list RefreshOp
}.

Definition putStore (db : StoreDb) (s : Resolver) : Resolver :=
  mkResolver db (rs_key s) (rs_fns s) (rs_generic s) (rs_failures s) (rs_inflight s) (rs_ops s).
Definition putFailures (f : gmap string RefreshFailure) (s : Resolver) : Resolver :=
  mkResolver (rs_store s) (rs_key s) (rs_fns s) (rs_generic s) f (rs_inflight s) (rs_ops s).
Definition putKey (k : option Key) (s : Resolver) : Resolver :=
  mkResolver (rs_store s) k (rs_fns s) (rs_generic s) (rs_failures s) (rs_inflight s) (rs_ops s).

Definition refreshable (provider : string) (s : Resolver) : bool := bool_decide (provider ∈ rs_fns s) || rs_generic s.

(** ** The sweep *)

Record RefreshSweepOptions := mkSweep { sw_horizon : option Z; sw_limit : option nat; sw_concurrency : option nat }.

Definition byExpiry (a b : OAuthConnectionRow) : Z := default 0 (oc_expires a) - default 0 (oc_expires b).
Definition expiring (cutoff : Z) (c : OAuthConnectionRow) : bool :=
  match oc_expires c with Some e => e <=? cutoff | None => false end && match oc_refresh c with Some _ => true | None => false end.
Definition refreshCandidates (opts : RefreshSweepOptions) (now : Z) (s : Resolver) : list OAuthConnectionRow :=
  let all := js_sort byExpiry (List.filter (expiring (now + default REFRESH_WINDOW_MS (sw_horizon opts))) (sd_conns (rs_store s))) in
  match sw_limit opts with Some n => take n all | None => all end.

(** The row was written since the connection was parked. *)
Definition unparked (f : RefreshFailure) (c : OAuthConnectionRow) : bool :=
  match rf_parked f with Some v => negb (oc_updated c =? v) | None => false end.

(** The second filter: whether the connection is taken, and its failure forgotten. *)
Definition attemptDue (now : Z) (failures : gmap string RefreshFailure) (c : OAuthConnectionRow) : bool :=
  match failures !! oc_id c with
  | None => true
  | Some f => unparked f c || match rf_next f with Some n => n <=? now | None => false end
  end.
Definition forgetUnparked (failures : gmap string RefreshFailure) (c : OAuthConnectionRow) : gmap string RefreshFailure :=
  match failures !! oc_id c with
  | Some f => if unparked f c then delete (oc_id c) failures else failures
  | None => failures
  end.

Fixpoint filterDue (now : Z) (failures : gmap string RefreshFailure) (l : list OAuthConnectionRow)
    : list OAuthConnectionRow * gmap string RefreshFailure :=
  match l with
  | [] => ([], failures)
  | c :: l => let '(due, failures') := filterDue now (forgetUnparked failures c) l in
              (if attemptDue now failures c then c :: due else due, failures')
  end.

Definition dueConnections (opts : RefreshSweepOptions) (now : Z) (s : Resolver) : list string * Resolver :=
  let '(due, failures) := filterDue now (rs_failures s) (List.filter (fun c => refreshable (oc_provider c) s) (refreshCandidates opts now s)) in
  (List.map oc_id due, putFailures failures s).

(** [due.slice(i, i + concurrency)] for [i] from 0 in steps of it. *)
Fixpoint chunksFuel (fuel n : nat) (l : list string) : list (list string) :=
  match fuel, l with
  | O, _ | _, [] => []
  | S fuel, _ => take n l :: chunksFuel fuel n (drop n l)
  end.
Definition chunks (opts : RefreshSweepOptions) (due : list string) : list (list string) :=
  chunksFuel (List.length due) (Nat.max 1 (default (List.length due) (sw_concurrency opts))) due.

(** ** One refresh *)

(** A call: the refresh in flight is shared. *)
Definition refreshConnection (connectionId : string) (s : Resolver) : Resolver :=
  match rs_inflight s !! connectionId with
  | Some _ => s
  | None =>
      mkResolver (rs_store s) (rs_key s) (rs_fns s) (rs_generic s) (rs_failures s)
        (<[connectionId := List.length (rs_ops s)]> (rs_inflight s)) (rs_ops s ++ [mkOp connectionId Reading])
  end.
Definition refreshChunk (ids : list string) (s : Resolver) : Resolver := fold_left (fun s id => refreshConnection id s) ids s.

Definition setStage (i : nat) (id : string) (st : RefreshStage) (s : Resolver) : Resolver :=
  mkResolver (rs_store s) (rs_key s) (rs_fns s) (rs_generic s) (rs_failures s) (rs_inflight s) (<[i := mkOp id st]> (rs_ops s)).
(** The promise settles. *)
Definition settleOp (i : nat) (id : string) (s : Resolver) : Resolver :=
  let s := setStage i id Settled s in
  mkResolver (rs_store s) (rs_key s) (rs_fns s) (rs_generic s) (rs_failures s) (delete id (rs_inflight s)) (rs_ops s).

Definition recordFailure (connectionId : string) (now : Z) (failures : gmap string RefreshFailure) : RefreshFailure :=
  let attempts := match failures !! connectionId with Some f => rf_attempts f | None => 0 end + 1 in
  mkFailure attempts (Some (now + backoffDelay attempts)) None.

Definition setConnectorErrors (now : Z) (connectionId : string) (reason : option string) (db : StoreDb) : StoreDb :=
  mkStore (sd_secrets db) (sd_conns db) (sd_repos db)
    (List.map (fun m => if bool_decide (cn_connection m = Some connectionId) && negb (bool_decide (cn_error m = reason))
                        then mkConnectorRow (cn_id m) (cn_connection m) reason now else m) (sd_connectors db)).
Definition recordConnectorAuthError (now : Z) (connectionId reason : string) : StoreDb -> StoreDb := setConnectorErrors now connectionId (Some reason).
Definition clearConnectorAuthError (now : Z) (connectionId : string) : StoreDb -> StoreDb := setConnectorErrors now connectionId None.
(** The same by the connector's own identifier. *)
Definition setConnectorAuthError (now : Z) (connectorId : string) (reason : option string) (db : StoreDb) : StoreDb :=
  mkStore (sd_secrets db) (sd_conns db) (sd_repos db)
    (List.map (fun m => if String.eqb (cn_id m) connectorId && negb (bool_decide (cn_error m = reason))
                        then mkConnectorRow (cn_id m) (cn_connection m) reason now else m) (sd_connectors db)).

(** The [catch] of a refresh. *)
Definition refreshFailed (now : Z) (c : OAuthConnectionRow) (message : string) (s : Resolver) : Resolver :=
  let state := recordFailure (oc_id c) now (rs_failures s) in
  let state := if isPermanentRefreshFailure message then mkFailure (rf_attempts state) None (Some (oc_updated c)) else state in
  putStore (recordConnectorAuthError now (oc_id c) ("token refresh: " +:+ message) (rs_store s))
    (putFailures (<[oc_id c := state]> (rs_failures s)) s).

Definition storeErrorMessage (connectionId : string) (e : StoreError) : string :=
  match e with
  | MasterKeyLocked => "Master key is locked"
  | ConnectionNotFound => "oauth_connection " +:+ connectionId +:+ " not found"
  | ConstraintViolated => "duplicate key value violates unique constraint"
  end.

Section Refresh.
Variable P : Platform.
Variable freshSecret : list SecretRow -> string.

Inductive RefreshEvent :=
| CallRefresh (connectionId : string)
| StartChunk (ids : list string)
| Sweep (opts : RefreshSweepOptions)
| ResumeOp (i : nat) (ivs : IvSource) (answer : result string RefreshResult)
| StoreChanges (db : StoreDb)
| KeyChanges (key : option Key)
| ClearRefreshFns.

(** An operation resumes; the provider's answer counts where it was called. The refresh
    function of the connection's provider is looked up before its token is read, the fallback
    again after. *)
Definition resumeOp (now : Z) (i : nat) (ivs : IvSource) (answer : result string RefreshResult) (s : Resolver) : Resolver :=
  match rs_ops s !! i with
  | None => s
  | Some op =>
      let id := op_conn op in
      match op_stage op with
      | Reading =>
          match getConnection id (rs_store s) with
          | None => settleOp i id s
          | Some c => if refreshable (oc_provider c) s && negb (bool_decide (truthy (oc_refresh c) = None))
                      then setStage i id (LoadingSecret c (bool_decide (oc_provider c ∈ rs_fns s))) s else settleOp i id s
          end
      | LoadingSecret c bespoke =>
          match loadSecretValue P (rs_key s) (default "" (oc_refresh c)) (rs_store s) with
          | Some (Ok token) => if negb (String.eqb token "") && (bespoke || rs_generic s) then setStage i id (Calling c token) s else settleOp i id s
          | _ => settleOp i id s
          end
      | Calling c token =>
          match answer with
          | Ok r => setStage i id (Storing c r) s
          | Throw message => settleOp i id (refreshFailed now c message s)
          end
      | Storing c r =>
          match updateTokens P freshSecret now ivs (rs_key s) (oc_id c) (rt_access r) (rt_refresh r) (rt_expires r) (rs_store s) with
          | (db, Ok _) =>
              settleOp i id (putStore (clearConnectorAuthError now (oc_id c) db) (putFailures (delete (oc_id c) (rs_failures s)) s))
          | (db, Throw e) => settleOp i id (refreshFailed now c (storeErrorMessage (oc_id c) e) (putStore db s))
          end
      | Settled => s
      end
  end.

Definition refreshStep (now : Z) (e : RefreshEvent) (s : Resolver) : Resolver :=
  match e with
  | CallRefresh id => refreshConnection id s
  | StartChunk ids => refreshChunk ids s
  | Sweep opts => snd (dueConnections opts now s)
  | ResumeOp i ivs answer => resumeOp now i ivs answer s
  | StoreChanges db => putStore db s
  | KeyChanges key => putKey key s
  | ClearRefreshFns => mkResolver (rs_store s) (rs_key s) [] false ∅ (rs_inflight s) (rs_ops s)
  end.
End Refresh.

(** ** One refresh of a connection at a time *)

Definition liveOp (op : RefreshOp) : Prop := op_stage op <> Settled.

Record flight_inv (s : Resolver) : Prop := {
  fl_known : forall i op, rs_ops s !! i = Some op -> liveOp op -> rs_inflight s !! op_conn op = Some i;
  fl_live : forall id i, rs_inflight s !! id = Some i -> exists op, rs_ops s !! i = Some op /\ op_conn op = id /\ liveOp op;
}.

Lemma refreshConnection_flight id s : flight_inv s -> flight_inv (refreshConnection id s).
Proof.
  intros [H1 H2]. unfold refreshConnection. destruct (rs_inflight s !! id) as [n|] eqn:E; [done|].
  split; cbn [rs_ops rs_inflight].
  - intros i op Hi Hl. apply lookup_snoc_Some in Hi as [[Hi Hop]|[-> <-]]; [|by rewrite lookup_insert_eq].
    specialize (H1 i op Hop Hl). rewrite lookup_insert_ne; [done|]. congruence.
  - intros id' i [[<- <-]|[Hne Hi]]%lookup_insert_Some.
    + exists (mkOp id Reading). split_and!; [by apply list_lookup_middle|done|done].
    + destruct (H2 id' i Hi) as (op & Hop & Hid & Hl). exists op. split_and!; [by apply lookup_app_l_Some|done|done].
Qed.

Lemma refreshChunk_flight ids s : flight_inv s -> flight_inv (refreshChunk ids s).
Proof. revert s. induction ids as [|id ids IH]; intros s Hs; [done|]. apply IH. by apply refreshConnection_flight. Qed.

Lemma setStage_flight i op st s : flight_inv s -> rs_ops s !! i = Some op -> liveOp op -> st <> Settled -> flight_inv (setStage i (op_conn op) st s).
Proof.
  intros [H1 H2] Hi Hl Hst. split; cbn [setStage rs_ops rs_inflight].
  - intros j op' Hj Hl'. apply list_lookup_insert_Some in Hj as [(<- & <- & _)|[_ Hj]]; [by apply (H1 i op)|by apply H1].
  - intros id j (op' & Hj & <- & Hl')%H2. destruct (decide (i = j)) as [<-|Hne].
    + exists (mkOp (op_conn op) st). rewrite list_lookup_insert_eq by (by eapply lookup_lt_Some). split_and!; [done| |done]. rewrite Hi in Hj. by injection Hj as ->.
    + exists op'. by rewrite list_lookup_insert_ne.
Qed.

Lemma settleOp_flight i op s : flight_inv s -> rs_ops s !! i = Some op -> liveOp op -> flight_inv (settleOp i (op_conn op) s).
Proof.
  intros [H1 H2] Hi Hl. split; cbn [settleOp setStage rs_ops rs_inflight].
  - intros j op' Hj Hl'. apply list_lookup_insert_Some in Hj as [(_ & <- & _)|[Hne Hj]]; [by destruct Hl'|].
    specialize (H1 j op' Hj Hl') as Hj'. rewrite lookup_delete_ne; [done|]. intros E. pose proof (H1 i op Hi Hl) as Hi'. rewrite E in Hi'. congruence.
  - intros id j [Hne Hj]%lookup_delete_Some. destruct (H2 id j Hj) as (op' & Hj' & <- & Hl'). exists op'. split_and!; [|done|done].
    rewrite list_lookup_insert_ne; [done|]. intros ->. congruence.
Qed.

(** Steps that touch neither the refreshes nor the map of those in flight. *)
Lemma same_flight s s' : rs_ops s' = rs_ops s -> rs_inflight s' = rs_inflight s -> flight_inv s -> flight_inv s'.
Proof. intros Ho Hi [H1 H2]. split; rewrite Ho, Hi; done. Qed.

Section FlightLaws.
Variable P : Platform.
Variable freshSecret : list SecretRow -> string.

Lemma resumeOp_flight now i iv answer s : flight_inv s -> flight_inv (resumeOp P freshSecret now i iv answer s).
Proof.
  intros Hs. unfold resumeOp. destruct (rs_ops s !! i) as [op|] eqn:E; [|done].
  destruct (op_stage op) as [|c b|c token|c r|] eqn:Est; [| | | |done].
  all: assert (liveOp op) as Hl by (unfold liveOp; by rewrite Est).
  - destruct (getConnection _ _) as [c|]; [|by apply settleOp_flight]. destruct (_ && _); [by apply setStage_flight|by apply settleOp_flight].
  - destruct (loadSecretValue _ _ _ _) as [[token|e]|]; try by apply settleOp_flight.
    destruct (negb _ && _); [by apply setStage_flight|by apply settleOp_flight].
  - destruct answer as [r|m]; [by apply setStage_flight|]. apply (settleOp_flight i op); [by apply (same_flight s)|done|done].
  - destruct (updateTokens _ _ _ _ _ _ _ _ _ _) as [db [u|e]]; apply (settleOp_flight i op); try done; by apply (same_flight s).
Qed.

Lemma refreshStep_flight now e s : flight_inv s -> flight_inv (refreshStep P freshSecret now e s).
Proof.
  intros Hs. destruct e; cbn [refreshStep]; try by apply (same_flight s).
  - by apply refreshConnection_flight.
  - by apply refreshChunk_flight.
  - unfold dueConnections. destruct (filterDue _ _ _) as [due f]. by apply (same_flight s).
  - by apply resumeOp_flight.
Qed.

Lemma run_flight es s : flight_inv s -> flight_inv (fold_left (fun s e => refreshStep P freshSecret (fst e) (snd e) s) es s).
Proof. revert s. induction es as [|e es IH]; intros s Hs; [done|]. apply IH. by apply refreshStep_flight. Qed.

Definition idleResolver (db : StoreDb) (key : option Key) (fns : list string) (generic : bool) : Resolver :=
  mkResolver db key fns generic ∅ ∅ [].

Lemma idle_flight db key fns generic : flight_inv (idleResolver db key fns generic).
Proof. by split. Qed.

(** However sweeps, proxied requests and the provider's answers interleave, and whatever else
    happens to the connections meanwhile, no connection has two refreshes under way. *)
Theorem one_refresh_at_a_time db key fns generic es i j p q :
  let s := fold_left (fun s e => refreshStep P freshSecret (fst e) (snd e) s) es (idleResolver db key fns generic) in
  rs_ops s !! i = Some p -> rs_ops s !! j = Some q -> liveOp p -> liveOp q -> op_conn p = op_conn q -> i = j.
Proof.
  intros s Hi Hj Hp Hq E. pose proof (run_flight es _ (idle_flight db key fns generic)) as [H _]. fold s in H.
  pose proof (H i p Hi Hp) as H1. pose proof (H j q Hj Hq) as H2. rewrite E in H1. congruence.
Qed.
End FlightLaws.

(** ** Rotating refresh tokens *)

Section Rotation.
Variable P : Platform.
Context `{!PlatformLaws P}.
Variable freshSecret : list SecretRow -> string.
Variable k : Key.

Local Notation load := (loadSecretValue P (Some k)).
Local Notation conn id db := (List.find (hasConnId id) (sd_conns db)).

Lemma load_write_other r id v db : r <> id -> load r (writeSecret id v db) = load r db.
Proof.
  intros Hne. unfold loadSecretValue. cbn [mbind option_bind writeSecret setSecrets sd_secrets].
  assert (forall l, List.find (hasSecretId r) (List.map (fun s => if hasSecretId id s then mkSecretRow (se_id s) (se_name s) v (se_hosts s) (se_all s) else s) l)
    = List.find (hasSecretId r) l) as Hl; [|by rewrite Hl].
  induction l as [|s l IH]; [done|]. cbn [List.map List.find]. rewrite IH.
  destruct (hasSecretId id s) eqn:E; [|done]. apply String.eqb_eq in E.
  change (hasSecretId r (mkSecretRow _ _ _ _ _)) with (String.eqb (se_id s) r). change (hasSecretId r s) with (String.eqb (se_id s) r).
  rewrite (proj2 (String.eqb_neq _ _)); [done|congruence].
Qed.

Lemma load_write_same iv t id db : blen iv = IV_LENGTH -> wf_bytes iv -> In id (List.map se_id (sd_secrets db)) ->
  load id (writeSecret id (encrypt P iv t k) db) = Some (Ok t).
Proof.
  intros Hiv Hwf Hin. unfold loadSecretValue. cbn [mbind option_bind writeSecret setSecrets sd_secrets].
  induction (sd_secrets db) as [|s l IH]; [done|]. cbn [List.map List.find]. destruct (hasSecretId id s) eqn:E.
  - change (hasSecretId id (mkSecretRow _ _ _ _ _)) with (hasSecretId id s). rewrite E. cbn [mbind option_bind se_value].
    by rewrite decrypt_encrypt.
  - rewrite E. apply IH. destruct Hin as [Hs|Hin]; [|done]. unfold hasSecretId in E. by rewrite Hs, String.eqb_refl in E.
Qed.

Lemma find_updateConn id id' f db : (forall c, oc_id (f c) = oc_id c) ->
  conn id' (updateConn id f db) = (fun c => if hasConnId id c then f c else c) <$> conn id' db.
Proof.
  intros Hf. cbn [updateConn setConns sd_conns]. induction (sd_conns db) as [|c l IH]; [done|]. cbn [List.map List.find].
  assert (hasConnId id' (if hasConnId id c then f c else c) = hasConnId id' c) as ->.
  { destruct (hasConnId id c); [|done]. unfold hasConnId. by rewrite Hf. }
  by destruct (hasConnId id' c).
Qed.

Lemma conn_spec id db c : conn id db = Some c -> In c (sd_conns db) /\ oc_id c = id.
Proof. intros [Hc Hid]%find_some. split; [done|]. by apply String.eqb_eq. Qed.

Definition goodIvs (ivs : IvSource) : Prop := forall n, blen (ivs n) = IV_LENGTH /\ wf_bytes (ivs n).

(** A connection's references stay while its tokens are written, and so do the refresh tokens
    of the others. *)
Lemma updateTokens_writes now ivs access refresh expires id db c r :
  store_inv db -> goodIvs ivs -> conn id db = Some c -> truthy (oc_refresh c) = Some r ->
  exists db', updateTokens P freshSecret now ivs (Some k) id access refresh expires db = (db', Ok tt) /\
  (forall id', oc_refresh <$> conn id' db' = oc_refresh <$> conn id' db) /\
  (forall id' c' r', conn id' db = Some c' -> truthy (oc_refresh c') = Some r' ->
     load r' db' = match truthy refresh with Some t => if String.eqb id' id then Some (Ok t) else load r' db | None => load r' db end).
Proof.
  intros Hinv Hivs Hc Hr. destruct (conn_spec id db c Hc) as [Hin Hid].
  assert (forall d x, truthy (oc_refresh d) = Some x -> oc_refresh d = Some x) as Htr by (intros d x; destruct (oc_refresh d) as [[|]|]; done).
  assert (In r (refs c)) as Hrc by (right; apply in_app_iff; left; rewrite (Htr c r Hr); by left).
  unfold updateTokens, getConnection. rewrite Hc. cbn [mbind option_bind].
  rewrite (proj2 (existsb_exists _ _)).
  2:{ destruct (proj1 (in_map_iff se_id _ _) (si_refs db Hinv c (oc_access c) Hin (or_introl eq_refl))) as (s & E & Hs).
      exists s. split; [done|]. by apply String.eqb_eq. }
  assert (forall d x, In d (sd_conns db) -> In x (refs d) -> (x = r \/ x = oc_access c) -> d = c) as Hown.
  { intros d x Hd Hx [->| ->]; [by apply (si_owner db Hinv d c r)|]. apply (si_owner db Hinv d c (oc_access c)); try done. by left. }
  assert (r <> oc_access c) as Hra.
  { intros ->. pose proof (si_roles db Hinv c Hin) as Hnd. unfold refs in Hnd. apply list.NoDup_cons in Hnd as [Hnd _]. apply Hnd.
    apply list_elem_of_In, in_app_iff. left. rewrite (Htr c _ Hr). by left. }
  set (db1 := writeSecret (oc_access c) _ db).
  assert (forall id' c' r', conn id' db = Some c' -> truthy (oc_refresh c') = Some r' -> load r' db1 = load r' db) as Hacc.
  { intros id' c' r' Hc' Hr'. apply load_write_other. intros E. apply conn_spec in Hc' as [Hin' _].
    assert (In r' (refs c')) as Hx by (right; apply in_app_iff; left; rewrite (Htr c' r' Hr'); by left).
    assert (c' = c) as -> by (apply (Hown c' r'); auto). congruence. }
  assert (In r (List.map se_id (sd_secrets db1))) as Hr1.
  { pose proof (writeSecret_scopes (oc_access c) (encrypt P (ivs 0%nat) access k) db) as [E _]. fold db1 in E. rewrite E. by apply (si_refs db Hinv c). }
  unfold writeRefresh. rewrite Hr. destruct (truthy refresh) as [t|]; eexists; (split; [reflexivity|]).
  all: split; [intros id'; rewrite find_updateConn by done; cbn [writeSecret setSecrets sd_conns db1];
    destruct (conn id' db) as [d|]; [cbn; by destruct (hasConnId _ d)|done]|].
  - intros id' c' r' Hc' Hr'. change (load r' (writeSecret r (encrypt P (ivs 1%nat) t k) db1) =
      (if String.eqb id' id then Some (Ok t) else load r' db)).
    destruct (String.eqb_spec id' id) as [->|Hne].
    + assert (r' = r) as -> by congruence. destruct (Hivs 1%nat). by apply load_write_same.
    + rewrite load_write_other; [by apply (Hacc id' c')|]. intros ->. apply Hne. apply conn_spec in Hc' as [Hin' <-].
      rewrite (Hown c' r Hin'); [done| |by left]. right. apply in_app_iff. left. rewrite (Htr c' r Hr'). by left.
  - intros id' c' r' Hc' Hr'. exact (Hacc id' c' r' Hc' Hr').
Qed.

(** The token the provider accepts for each connection: an answer that carries a token replaces it. *)
Definition providerStep (e : RefreshEvent) (s : Resolver) (prov : gmap string string) : gmap string string :=
  match e with
  | ResumeOp i _ (Ok r) =>
      match rs_ops s !! i, truthy (rt_refresh r) with
      | Some (mkOp id (Calling _ _)), Some t => <[id := t]> prov
      | _, _ => prov
      end
  | _ => prov
  end.

(** The key stays, and the connections are not written by others. *)
Definition refreshOnly (e : RefreshEvent) : Prop :=
  match e with
  | CallRefresh _ | StartChunk _ | Sweep _ | ClearRefreshFns => True
  | ResumeOp _ ivs _ => goodIvs ivs
  | StoreChanges _ | KeyChanges _ => False
  end.

(** The stored refresh token is the provider's. *)
Definition inSync (prov : gmap string string) (db : StoreDb) (id : string) : Prop :=
  forall c r, conn id db = Some c -> truthy (oc_refresh c) = Some r -> exists t, load r db = Some (Ok t) /\ prov !! id = Some t.

(** The row a refresh read still names the stored token. *)
Definition held (db : StoreDb) (id : string) (c : OAuthConnectionRow) : Prop :=
  oc_id c = id /\ oc_refresh <$> conn id db = Some (oc_refresh c) /\ truthy (oc_refresh c) <> None.

Definition opSound (prov : gmap string string) (db : StoreDb) (op : RefreshOp) : Prop :=
  match op_stage op with
  | Reading | Settled => True
  | LoadingSecret c _ => held db (op_conn op) c
  | Calling c token => held db (op_conn op) c /\ prov !! op_conn op = Some token
  | Storing c r => held db (op_conn op) c /\ forall t, truthy (rt_refresh r) = Some t -> prov !! op_conn op = Some t
  end.

(** The provider has rotated the token and it is not stored yet. *)
Definition ahead (s : Resolver) (id : string) : Prop :=
  exists i op c r t, rs_ops s !! i = Some op /\ op_conn op = id /\ op_stage op = Storing c r /\ truthy (rt_refresh r) = Some t.

Record rotation_inv (prov : gmap string string) (s : Resolver) : Prop := {
  ro_store : store_inv (rs_store s);
  ro_key : rs_key s = Some k;
  ro_flight : flight_inv s;
  ro_ops : forall i op, rs_ops s !! i = Some op -> opSound prov (rs_store s) op;
  ro_sync : forall id, inSync prov (rs_store s) id \/ ahead s id;
}.

(** What an operation relies on: its connection's references and the provider's token. *)
Definition sameConn (id : string) (prov prov' : gmap string string) (db db' : StoreDb) : Prop :=
  oc_refresh <$> conn id db' = oc_refresh <$> conn id db /\ prov' !! id = prov !! id.

Lemma opSound_same prov prov' db db' op : sameConn (op_conn op) prov prov' db db' -> opSound prov db op -> opSound prov' db' op.
Proof. intros [H1 H2]. unfold opSound, held. by rewrite H1, H2. Qed.

Lemma inSync_same prov prov' db db' id : sameConn id prov prov' db db' ->
  (forall c r, conn id db = Some c -> truthy (oc_refresh c) = Some r -> load r db' = load r db) ->
  inSync prov db id -> inSync prov' db' id.
Proof.
  intros [H1 H2] Hl H c' r Hc' Hr. rewrite Hc' in H1. destruct (conn id db) as [c|] eqn:Hc; [|done]. injection H1 as E.
  rewrite E in Hr. rewrite (Hl c r eq_refl Hr), H2. by apply (H c).
Qed.

(** Only the operation itself is live on its connection. *)
Lemma other_ops_sound prov db s i op j op' : flight_inv s -> rs_ops s !! i = Some op -> liveOp op ->
  j <> i -> rs_ops s !! j = Some op' -> op_conn op' = op_conn op -> opSound prov db op'.
Proof.
  intros [H _] Hi Hl Hne Hj E. unfold opSound. destruct (op_stage op') eqn:Es; try done.
  all: exfalso; apply Hne; assert (liveOp op') as Hl' by (unfold liveOp; by rewrite Es);
    pose proof (H j op' Hj Hl') as Hj'; rewrite E, (H i op Hi Hl) in Hj'; congruence.
Qed.

(** A change of one operation, of its connection's tokens at most. *)
Lemma rotation_change prov prov' s s' i op :
  rotation_inv prov s -> flight_inv s' -> store_inv (rs_store s') -> rs_key s' = rs_key s ->
  rs_ops s !! i = Some op -> liveOp op ->
  (forall j, j <> i -> rs_ops s' !! j = rs_ops s !! j) ->
  (forall op', rs_ops s' !! i = Some op' -> opSound prov' (rs_store s') op') ->
  (forall id, id <> op_conn op -> sameConn id prov prov' (rs_store s) (rs_store s')) ->
  (forall id c r, id <> op_conn op -> conn id (rs_store s) = Some c -> truthy (oc_refresh c) = Some r -> load r (rs_store s') = load r (rs_store s)) ->
  (inSync prov' (rs_store s') (op_conn op) \/ ahead s' (op_conn op)) ->
  rotation_inv prov' s'.
Proof.
  intros [H1 H2 H3 H4 H5] Hf Hst Hk Hop Hl Hops Hi Hsame Hload Hsync. split; [done|by rewrite Hk|done| |].
  - intros j op' Hj. destruct (decide (j = i)) as [->|Hne]; [by apply Hi|]. rewrite (Hops j Hne) in Hj.
    destruct (decide (op_conn op' = op_conn op)) as [E|E]; [by apply (other_ops_sound _ _ s i op j)|]. eapply opSound_same; [by apply Hsame|by apply (H4 j)].
  - intros id. destruct (decide (id = op_conn op)) as [->|Hne]; [done|].
    destruct (H5 id) as [Hs|(j & op' & c & r & t & Hj & Hid & Hst' & Ht)]; [left|right].
    + apply (inSync_same prov _ (rs_store s)); [by apply Hsame|intros c r Hc Hr; by apply (Hload id c r)|done].
    + exists j, op', c, r, t. rewrite Hops; [done|]. intros ->. congruence.
Qed.

(** The connection of a live operation that does not store has nothing pending. *)
Lemma in_sync_now prov s i op : rotation_inv prov s -> rs_ops s !! i = Some op -> liveOp op ->
  (forall c r, op_stage op <> Storing c r) -> inSync prov (rs_store s) (op_conn op).
Proof.
  intros [H1 H2 [H3 _] H4 H5] Hi Hl Hns. destruct (H5 (op_conn op)) as [H|(j & op' & c & r & t & Hj & E & Es & _)]; [done|].
  assert (liveOp op') as Hl' by (unfold liveOp; by rewrite Es).
  pose proof (H3 j op' Hj Hl') as H. rewrite E, (H3 i op Hi Hl) in H. injection H as ->. rewrite Hi in Hj. injection Hj as ->. by destruct (Hns c r).
Qed.

Lemma sameConn_refl id prov db : sameConn id prov prov db db.
Proof. done. Qed.

(** The steps that write no token. *)
Lemma rotation_stage prov s i op st : rotation_inv prov s -> rs_ops s !! i = Some op -> liveOp op -> st <> Settled ->
  (forall c r, op_stage op <> Storing c r) -> opSound prov (rs_store s) (mkOp (op_conn op) st) -> rotation_inv prov (setStage i (op_conn op) st s).
Proof.
  intros Hr Hi Hl Hst Hns Hsound. apply (rotation_change prov prov s _ i op); try done; try apply Hr.
  - apply setStage_flight; [apply Hr|done|done|done].
  - intros j Hne. cbn [setStage rs_ops]. by rewrite list_lookup_insert_ne.
  - intros op'. cbn [setStage rs_ops]. rewrite list_lookup_insert_eq by (by eapply lookup_lt_Some). by intros [= <-].
  - left. by apply (in_sync_now prov s i).
Qed.

Lemma rotation_settle prov s s' i op : rotation_inv prov s -> rs_ops s !! i = Some op -> liveOp op ->
  (forall c r, op_stage op <> Storing c r) ->
  sd_secrets (rs_store s') = sd_secrets (rs_store s) -> sd_conns (rs_store s') = sd_conns (rs_store s) ->
  rs_key s' = rs_key s -> rs_ops s' = rs_ops s -> rs_inflight s' = rs_inflight s -> rotation_inv prov (settleOp i (op_conn op) s').
Proof.
  intros Hr Hi Hl Hns Hse Hco Hk Ho Hin.
  assert (forall r, load r (rs_store s') = load r (rs_store s)) as Hload by (intros r; unfold loadSecretValue; by rewrite Hse).
  apply (rotation_change prov prov s _ i op); try done.
  - apply settleOp_flight; [by apply (same_flight s); [..|apply Hr]|by rewrite Ho|done].
  - destruct (ro_store prov s Hr) as [H1 H2 H3 H4 H5 H6]. by split; cbn [settleOp setStage rs_store]; rewrite ?Hse, ?Hco.
  - intros j Hne. cbn [settleOp setStage rs_ops]. by rewrite Ho, list_lookup_insert_ne.
  - intros op'. cbn [settleOp setStage rs_ops]. rewrite Ho, list_lookup_insert_eq by (by eapply lookup_lt_Some). by intros [= <-].
  - intros id _. split; [cbn [settleOp setStage rs_store]; by rewrite Hco|done].
  - left. apply (inSync_same prov _ (rs_store s)); [split; [cbn [settleOp setStage rs_store]; by rewrite Hco|done]|intros c r _ _; apply Hload|].
    by apply (in_sync_now prov s i).
Qed.

(** The provider answers: it may have rotated the token. *)
Lemma rotation_answer prov s i op c token r : rotation_inv prov s -> rs_ops s !! i = Some op -> op_stage op = Calling c token ->
  rotation_inv (match truthy (rt_refresh r) with Some t => <[op_conn op := t]> prov | None => prov end)
    (setStage i (op_conn op) (Storing c r) s).
Proof.
  intros Hr Hi Hst. assert (liveOp op) as Hl by (unfold liveOp; by rewrite Hst).
  pose proof (ro_ops prov s Hr i op Hi) as Hsound. unfold opSound in Hsound. rewrite Hst in Hsound. destruct Hsound as [Hheld _].
  destruct (truthy (rt_refresh r)) as [t|] eqn:Et.
  2:{ apply rotation_stage; try done; [by rewrite Hst|]. by split; [|intros t; rewrite Et]. }
  assert (rs_ops (setStage i (op_conn op) (Storing c r) s) !! i = Some (mkOp (op_conn op) (Storing c r))) as Hi'.
  { cbn [setStage rs_ops]. by rewrite list_lookup_insert_eq by (by eapply lookup_lt_Some). }
  apply (rotation_change prov _ s _ i op); try done; try apply Hr.
  - apply setStage_flight; [apply Hr|done|done|done].
  - intros j Hne. cbn [setStage rs_ops]. by rewrite list_lookup_insert_ne.
  - rewrite Hi'. intros op' [= <-]. split; [done|]. intros t'. rewrite Et. intros [= <-]. by rewrite lookup_insert_eq.
  - intros id Hne. split; [done|]. by rewrite lookup_insert_ne.
  - right. exists i, (mkOp (op_conn op) (Storing c r)), c, r, t. done.
Qed.

(** ... and its answer is stored. *)
Lemma rotation_store prov s i op c r now ivs : rotation_inv prov s -> rs_ops s !! i = Some op -> op_stage op = Storing c r -> goodIvs ivs ->
  (forall l, ~ In (freshSecret l) (List.map se_id l)) ->
  exists db', updateTokens P freshSecret now ivs (Some k) (oc_id c) (rt_access r) (rt_refresh r) (rt_expires r) (rs_store s) = (db', Ok tt) /\
  rotation_inv prov (settleOp i (op_conn op) (putStore (clearConnectorAuthError now (oc_id c) db') (putFailures (delete (oc_id c) (rs_failures s)) s))).
Proof.
  intros Hr Hi Hst Hivs Hfresh. assert (liveOp op) as Hl by (unfold liveOp; by rewrite Hst).
  pose proof (ro_ops prov s Hr i op Hi) as Hsound. unfold opSound in Hsound. rewrite Hst in Hsound. destruct Hsound as [(Hid & Hc & Htr) Hprov].
  destruct (conn (op_conn op) (rs_store s)) as [c0|] eqn:Hc0; [|done]. injection Hc as E0. destruct (truthy (oc_refresh c)) as [x|] eqn:Ex; [|done].
  rewrite <- E0 in Ex. rewrite <- Hid in Hc0.
  destruct (updateTokens_writes now ivs (rt_access r) (rt_refresh r) (rt_expires r) _ _ c0 x (ro_store _ _ Hr) Hivs Hc0 Ex) as (db' & Hu & Hsame & Hload).
  exists db'. split; [done|]. rewrite Hid in *.
  pose proof (updateTokens_inv P freshSecret Hfresh now ivs (Some k) (op_conn op) (rt_access r) (rt_refresh r) (rt_expires r) _ (ro_store _ _ Hr)) as Hinv.
  rewrite Hu in Hinv. cbn [fst] in Hinv.
  set (s' := settleOp _ _ _).
  assert (sd_conns (rs_store s') = sd_conns db' /\ forall y, load y (rs_store s') = load y db') as [Hco Hlo] by done.
  apply (rotation_change prov prov s s' i op); try done.
  - apply (settleOp_flight i op); [|done|done]. apply (same_flight s); [done|done|apply Hr].
  - destruct Hinv as [H1 H2 H3 H4 H5 H6]. by split.
  - intros j Hne. cbn [s' settleOp setStage rs_ops putStore putFailures]. by rewrite list_lookup_insert_ne.
  - intros op'. cbn [s' settleOp setStage rs_ops putStore putFailures]. rewrite list_lookup_insert_eq by (by eapply lookup_lt_Some). by intros [= <-].
  - intros id d y Hne Hd Hy. rewrite Hlo, (Hload id d y Hd Hy). rewrite (proj2 (String.eqb_neq id (op_conn op)) Hne). by destruct (truthy (rt_refresh r)).
  - left. intros d y Hd Hy. rewrite Hco in Hd. pose proof (Hsame (op_conn op)) as E. rewrite Hd, Hc0 in E. injection E as E. rewrite E in Hy.
    rewrite Hlo, (Hload _ c0 y Hc0 Hy), String.eqb_refl. destruct (truthy (rt_refresh r)) as [t|] eqn:Et; [by exists t; split; [|apply Hprov]|].
    destruct (ro_sync prov s Hr (op_conn op)) as [Hs|(j & op' & c' & r' & t & Hj & E1 & E2 & E3)]; [by apply (Hs c0)|].
    assert (liveOp op') as Hl' by (unfold liveOp; by rewrite E2). pose proof (ro_flight _ _ Hr) as [Hf _].
    pose proof (Hf j op' Hj Hl') as Hj'. rewrite E1, (Hf i op Hi Hl) in Hj'. injection Hj' as ->. rewrite Hi in Hj. injection Hj as ->. congruence.
Qed.

Lemma same_rotation prov s s' : rs_store s' = rs_store s -> rs_key s' = rs_key s -> rs_ops s' = rs_ops s -> rs_inflight s' = rs_inflight s ->
  rotation_inv prov s -> rotation_inv prov s'.
Proof.
  intros E1 E2 E3 E4 [H1 H2 H3 H4 H5]. split; rewrite ?E1, ?E2, ?E3; try done; [by apply (same_flight s)|].
  intros id. unfold ahead. rewrite E3. apply H5.
Qed.

Lemma rotation_call prov s id : rotation_inv prov s -> rotation_inv prov (refreshConnection id s).
Proof.
  intros Hr. pose proof (refreshConnection_flight id s (ro_flight _ _ Hr)) as Hf. unfold refreshConnection in *.
  destruct (rs_inflight s !! id); [done|]. destruct Hr as [H1 H2 H3 H4 H5]. split; try done; cbn [rs_ops rs_store].
  - intros i op [[_ Hop]|[_ <-]]%lookup_snoc_Some; [by apply (H4 i)|done].
  - intros id'. destruct (H5 id') as [H|(i & op & c & r & t & Hi & Hrest)]; [by left|right]. exists i, op, c, r, t.
    split; [by apply lookup_app_l_Some|done].
Qed.
Lemma rotation_chunk prov ids s : rotation_inv prov s -> rotation_inv prov (refreshChunk ids s).
Proof. revert s. induction ids as [|id ids IH]; intros s Hs; [done|]. apply IH. by apply rotation_call. Qed.

Hypothesis fresh_new : forall l, ~ In (freshSecret l) (List.map se_id l).

Lemma providerStep_idle prov s i ivs answer : (forall op c token, rs_ops s !! i = Some op -> op_stage op <> Calling c token) ->
  providerStep (ResumeOp i ivs answer) s prov = prov.
Proof.
  intros H. cbn [providerStep]. destruct answer as [r|m]; [|done]. destruct (rs_ops s !! i) as [[id [| |c token| |]]|]; try done.
  by destruct (H _ c token eq_refl).
Qed.

Lemma rotation_resume prov s now i ivs answer : rotation_inv prov s -> goodIvs ivs ->
  rotation_inv (providerStep (ResumeOp i ivs answer) s prov) (resumeOp P freshSecret now i ivs answer s).
Proof.
  intros Hr Hivs. unfold resumeOp. destruct (rs_ops s !! i) as [op|] eqn:Hi; [|by rewrite providerStep_idle by (by rewrite Hi)].
  pose proof (ro_ops prov s Hr i op Hi) as Hsound. unfold opSound in Hsound.
  destruct (op_stage op) as [|c b|c token|c r|] eqn:Est; [| | | |rewrite providerStep_idle; [done|congruence]].
  all: assert (liveOp op) as Hl by (unfold liveOp; by rewrite Est).
  - rewrite providerStep_idle by congruence.
    destruct (getConnection (op_conn op) (rs_store s)) as [c|] eqn:Eg; [|apply (rotation_settle prov s); try done; congruence].
    destruct (refreshable _ _ && _) eqn:Eb; [|apply (rotation_settle prov s); try done; congruence].
    apply rotation_stage; try done; try congruence. apply andb_true_iff in Eb as [_ Eb]. unfold getConnection in Eg.
    destruct (conn (op_conn op) (rs_store s)) as [c'|] eqn:Ec; [|done]. cbn in Eg. destruct (existsb _ _); [|done]. injection Eg as ->.
    split; [by apply (conn_spec _ (rs_store s))|]. cbn [op_conn]. rewrite Ec. split; [done|]. by apply negb_true_iff, bool_decide_eq_false in Eb.
  - rewrite providerStep_idle by congruence. rewrite (ro_key _ _ Hr).
    destruct (load _ _) as [[token|e]|] eqn:Eload; try (apply (rotation_settle prov s); try done; congruence).
    destruct (negb _ && _); [|apply (rotation_settle prov s); try done; congruence]. apply rotation_stage; try done; try congruence.
    split; [done|]. cbn [op_conn]. destruct Hsound as (_ & Hc & Htr). destruct (conn _ _) as [c'|] eqn:Ec; [|done]. injection Hc as E.
    destruct (oc_refresh c) as [[|a x]|]; [done| |done].
    destruct (in_sync_now prov s i op Hr Hi Hl ltac:(congruence) c' (String a x) Ec) as (t & Ht & Hp); [by rewrite E|]. pose proof (eq_trans (eq_sym Ht) Eload) as Et. by injection Et as ->.
  - destruct answer as [r|m].
    + pose proof (rotation_answer prov s i op c token r Hr Hi Est) as H. cbn [providerStep]. rewrite Hi. destruct op as [id st]. cbn [op_stage] in Est. by subst st.
    + cbn [providerStep]. apply (rotation_settle prov s); try done; congruence.
  - rewrite providerStep_idle by congruence. rewrite (ro_key _ _ Hr).
    by destruct (rotation_store prov s i op c r now ivs Hr Hi Est Hivs fresh_new) as (db' & -> & H).
Qed.

Lemma rotation_step prov s now e : rotation_inv prov s -> refreshOnly e -> rotation_inv (providerStep e s prov) (refreshStep P freshSecret now e s).
Proof.
  intros Hr He. destruct e as [id|ids|opts|i ivs answer|db|key|]; cbn [refreshStep]; try done.
  - by apply rotation_call.
  - by apply rotation_chunk.
  - unfold dueConnections. destruct (filterDue _ _ _) as [due f]. by apply (same_rotation prov s).
  - by apply rotation_resume.
  - by apply (same_rotation prov s).
Qed.

(** A history of refreshes, with the provider's tokens. *)
Definition rotate (now : Z) (e : RefreshEvent) (ps : gmap string string * Resolver) : gmap string string * Resolver :=
  (providerStep e (snd ps) (fst ps), refreshStep P freshSecret now e (snd ps)).

Lemma rotation_run es ps : rotation_inv (fst ps) (snd ps) -> List.Forall (fun e => refreshOnly (snd e)) es ->
  let ps' := fold_left (fun ps e => rotate (fst e) (snd e) ps) es ps in rotation_inv (fst ps') (snd ps').
Proof.
  intros Hr Hes. revert ps Hr. induction Hes as [|e es He _ IH]; intros ps Hr; [done|]. apply IH. by apply rotation_step.
Qed.

Lemma rotation_start prov db fns generic : store_inv db -> (forall id, inSync prov db id) -> rotation_inv prov (idleResolver db (Some k) fns generic).
Proof. intros H1 H2. split; try done. intros id. by left. Qed.

(** C8. However sweeps and proxied requests interleave, and whichever calls fail, every refresh
    presents the provider the token it last issued, and when nothing is being stored each
    connection's stored token is that one: rotated tokens are never lost or replayed. *)
Theorem rotated_token_presented prov db fns generic es :
  store_reach P freshSecret db -> (forall id, inSync prov db id) -> List.Forall (fun e => refreshOnly (snd e)) es ->
  let '(prov', s) := fold_left (fun ps e => rotate (fst e) (snd e) ps) es (prov, idleResolver db (Some k) fns generic) in
  (forall i op c token, rs_ops s !! i = Some op -> op_stage op = Calling c token -> prov' !! op_conn op = Some token) /\
  (forall id, rs_inflight s !! id = None -> inSync prov' (rs_store s) id).
Proof.
  intros Hdb Hs Hes. pose proof (rotation_run es (prov, idleResolver db (Some k) fns generic)) as H.
  destruct (fold_left _ es _) as [prov' s]. destruct H as [H1 H2 H3 H4 H5]; [|done|].
  { apply rotation_start; [|done]. by apply (store_reach_inv P freshSecret fresh_new). }
  cbn [fst snd] in *. split.
  - intros i op c token Hi Est. specialize (H4 i op Hi). unfold opSound in H4. rewrite Est in H4. apply H4.
  - intros id Hid. destruct (H5 id) as [H|(i & op & c & r & t & Hi & E & Est & _)]; [done|].
    destruct H3 as [H3 _]. specialize (H3 i op Hi). unfold liveOp in H3. rewrite Est, E, Hid in H3. by specialize (H3 ltac:(done)).
Qed.
End Rotation.

(** ** Backing off *)

Lemma backoff_bounds attempts : 1 <= attempts -> REFRESH_BACKOFF_BASE_MS <= backoffDelay attempts <= REFRESH_BACKOFF_MAX_MS.
Proof.
  intros H. unfold backoffDelay, REFRESH_BACKOFF_MAX_MS, REFRESH_BACKOFF_BASE_MS.
  pose proof (Z.pow_le_mono_r 2 0 (attempts - 1) ltac:(lia) ltac:(lia)) as Hp. rewrite Z.pow_0_r in Hp. lia.
Qed.

Lemma backoff_doubles attempts : 1 <= attempts -> backoffDelay (attempts + 1) = Z.min (2 * backoffDelay attempts) REFRESH_BACKOFF_MAX_MS.
Proof.
  intros H. unfold backoffDelay, REFRESH_BACKOFF_MAX_MS, REFRESH_BACKOFF_BASE_MS.
  replace (attempts + 1 - 1) with (Z.succ (attempts - 1)) by lia. rewrite Z.pow_succ_r by lia. lia.
Qed.

Lemma forget_other failures c id : id <> oc_id c -> forgetUnparked failures c !! id = failures !! id.
Proof.
  intros Hne. unfold forgetUnparked. destruct (failures !! oc_id c) as [f|]; [|done]. destruct (unparked f c); [|done].
  by rewrite lookup_delete_ne.
Qed.

(** With one row per connection, forgetting a failure affects no other row's turn. *)
Lemma filterDue_filter now failures l : NoDup (List.map oc_id l) -> fst (filterDue now failures l) = List.filter (attemptDue now failures) l.
Proof.
  revert failures. induction l as [|c l IH]; intros failures Hnd; [done|]. cbn [filterDue List.filter].
  apply list.NoDup_cons in Hnd as [Hnew Hnd].
  specialize (IH (forgetUnparked failures c) Hnd). destruct (filterDue _ _ _) as [due f']. cbn [fst] in IH. subst due.
  assert (List.filter (attemptDue now (forgetUnparked failures c)) l = List.filter (attemptDue now failures) l) as ->.
  { apply filter_ext_in. intros d Hd. unfold attemptDue. rewrite forget_other; [done|]. intros E. apply Hnew. rewrite <- E.
    apply list_elem_of_In, in_map_iff. by exists d. }
  by destruct (attemptDue now failures c).
Qed.

Lemma NoDup_map_take {A B} (f : A -> B) n l : NoDup (List.map f l) -> NoDup (List.map f (take n l)).
Proof. rewrite <- (take_drop n l) at 1. rewrite List.map_app. by intros [H _]%list.NoDup_app. Qed.

Lemma refreshCandidates_distinct opts now s : NoDup (List.map oc_id (sd_conns (rs_store s))) -> NoDup (List.map oc_id (refreshCandidates opts now s)).
Proof.
  intros H. assert (forall l, NoDup (List.map oc_id l) -> NoDup (List.map oc_id (js_sort byExpiry l))) as Hs.
  { intros l Hl. by rewrite <- (js_sort_perm byExpiry l). }
  unfold refreshCandidates. destruct (sw_limit opts); [apply NoDup_map_take|]; apply Hs; by apply NoDup_map_filter.
Qed.

Lemma refreshCandidates_rows opts now s c : In c (refreshCandidates opts now s) -> In c (sd_conns (rs_store s)).
Proof.
  assert (forall x, In x (js_sort byExpiry (List.filter (expiring (now + default REFRESH_WINDOW_MS (sw_horizon opts))) (sd_conns (rs_store s)))) ->
    In x (sd_conns (rs_store s))) as H by (intros x Hx; by apply js_sort_In, filter_In in Hx as [Hx _]).
  unfold refreshCandidates. destruct (sw_limit opts); [|apply H]. intros Hc. apply H. rewrite <- (take_drop n). apply in_app_iff. by left.
Qed.

(** The rows a sweep takes. *)
Lemma due_spec opts now s c : NoDup (List.map oc_id (sd_conns (rs_store s))) -> In c (sd_conns (rs_store s)) ->
  In (oc_id c) (fst (dueConnections opts now s)) <->
  In c (refreshCandidates opts now s) /\ refreshable (oc_provider c) s = true /\ attemptDue now (rs_failures s) c = true.
Proof.
  intros Hnd Hc. unfold dueConnections. set (l := List.filter _ (refreshCandidates opts now s)).
  assert (NoDup (List.map oc_id l)) as Hl by (apply NoDup_map_filter; by apply refreshCandidates_distinct).
  pose proof (filterDue_filter now (rs_failures s) l Hl) as E. destruct (filterDue _ _ _) as [due f']. cbn [fst] in *. subst due.
  rewrite in_map_iff. setoid_rewrite filter_In. unfold l. setoid_rewrite filter_In. split.
  - intros (d & E & (Hd & Hr) & Ha). assert (d = c) as ->; [|done]. apply (NoDup_fmap_In oc_id (sd_conns (rs_store s))); try done. by eapply refreshCandidates_rows.
  - intros (H1 & H2 & H3). by exists c.
Qed.

(** Expiring within the horizon of an unlimited sweep, with a refresh function. *)
Definition sweepable (opts : RefreshSweepOptions) (now : Z) (s : Resolver) (c : OAuthConnectionRow) : Prop :=
  sw_limit opts = None /\ expiring (now + default REFRESH_WINDOW_MS (sw_horizon opts)) c = true /\ refreshable (oc_provider c) s = true.

Lemma sweepable_candidate opts now s c : sweepable opts now s c -> In c (sd_conns (rs_store s)) -> In c (refreshCandidates opts now s).
Proof. intros (E & He & _) Hc. unfold refreshCandidates. rewrite E. by apply js_sort_In, filter_In. Qed.

Definition attemptsOf (s : Resolver) (id : string) : Z := match rs_failures s !! id with Some f => rf_attempts f | None => 0 end.

(** A connection whose refresh failed is left out of every sweep for between thirty seconds
    and fifteen minutes, twice as long after each failure, and taken again from then on; one
    whose failure is permanent is left out at any time until its row is written. *)
Theorem failed_refresh_backs_off now c message s later opts :
  0 <= attemptsOf s (oc_id c) -> NoDup (List.map oc_id (sd_conns (rs_store s))) -> In c (sd_conns (rs_store s)) ->
  let s' := refreshFailed now c message s in
  let delay := backoffDelay (attemptsOf s (oc_id c) + 1) in
  let due := In (oc_id c) (fst (dueConnections opts later s')) in
  30000 <= delay <= 900000 /\
  (if isPermanentRefreshFailure message
   then ~ due /\ forall d, oc_id d = oc_id c -> oc_updated d <> oc_updated c -> attemptDue later (rs_failures s') d = true
   else (later < now + delay -> ~ due) /\ (now + delay <= later -> sweepable opts later s c -> due)).
Proof.
  intros Ha Hnd Hc s' delay due. split; [apply backoff_bounds; lia|].
  pose proof (due_spec opts later s' c Hnd Hc) as Hspec.
  assert (rs_failures s' !! oc_id c = Some (if isPermanentRefreshFailure message
    then mkFailure (attemptsOf s (oc_id c) + 1) None (Some (oc_updated c)) else mkFailure (attemptsOf s (oc_id c) + 1) (Some (now + delay)) None)) as Hf.
  { unfold s', refreshFailed. cbn [putStore putFailures rs_failures]. rewrite lookup_insert_eq. by destruct (isPermanentRefreshFailure message). }
  unfold attemptDue in *. rewrite Hf in Hspec. destruct (isPermanentRefreshFailure message).
  - split.
    + unfold due. rewrite Hspec. intros (_ & _ & H). unfold unparked in H. cbn [rf_parked rf_next] in H. by rewrite Z.eqb_refl in H.
    + intros d Hd Hne. rewrite Hd, Hf. unfold unparked. cbn [rf_parked]. by rewrite (proj2 (Z.eqb_neq _ _) Hne).
  - cbn [unparked rf_parked rf_next orb] in Hspec. split.
    + unfold due. rewrite Hspec. intros Hlt (_ & _ & H). apply Z.leb_le in H. lia.
    + intros Hge Hsw. apply Hspec. split; [|split; [apply Hsw|by apply Z.leb_le]].
      apply (sweepable_candidate opts later s' c); [|done]. exact Hsw.
Qed.

(** ** Concrete refreshes *)

Definition demo_resolver : Resolver := idleResolver demo_connected demo_key ["google"] false.
Definition demo_answer : result string RefreshResult := Ok (mkRefreshResult "access-2" (Some "refresh-2") (Some 3600000)).
Definition demo_refreshes : list (Z * RefreshEvent) :=
  [(20, CallRefresh "c1"); (20, CallRefresh "c1"); (21, ResumeOp 0 demo_ivs demo_answer); (22, ResumeOp 0 demo_ivs demo_answer);
   (23, ResumeOp 0 demo_ivs demo_answer); (24, CallRefresh "c1"); (25, ResumeOp 0 demo_ivs demo_answer); (26, CallRefresh "c1");
   (27, ResumeOp 1 demo_ivs demo_answer); (28, ResumeOp 1 demo_ivs demo_answer)].

Lemma one_refresh_at_a_time_witness :
  let s := fold_left (fun s e => refreshStep demo_platform demo_freshId (fst e) (snd e) s) (take 2 demo_refreshes) demo_resolver in
  rs_ops s = [mkOp "c1" Reading] /\ (0 = 0)%nat.
Proof.
  split; [vm_compute; reflexivity|].
  apply (one_refresh_at_a_time demo_platform demo_freshId demo_connected demo_key ["google"] false (take 2 demo_refreshes) 0%nat 0%nat
           (mkOp "c1" Reading) (mkOp "c1" Reading)); first [reflexivity|discriminate].
Defined.

Lemma rotated_token_presented_witness :
  let '(prov, s) := fold_left (fun ps e => rotate demo_platform demo_freshId (fst e) (snd e) ps) demo_refreshes
                      ({["c1" := "refresh-1"]}, demo_resolver) in
  exists op c, rs_ops s !! 1%nat = Some op /\ op_stage op = Calling c "refresh-2" /\ prov !! "c1" = Some "refresh-2".
Proof.
  assert (forall id, inSync demo_platform [1; 2; 3] {["c1" := "refresh-1"]} demo_connected id) as Hsync.
  { intros id c r Hc Hr. apply conn_spec in Hc as [Hin <-]. assert (sd_conns demo_connected = [demo_conn]) as E by (vm_compute; reflexivity).
    rewrite E in Hin. destruct Hin as [<-|[]]. injection Hr as <-. exists "refresh-1". split; vm_compute; reflexivity. }
  assert (List.Forall (fun e => refreshOnly (snd e)) demo_refreshes) as Hes.
  { repeat (constructor; [first [exact Logic.I|intros n; split; [reflexivity|apply (bool_decide_unpack _); vm_compute; exact Logic.I]]|]). constructor. }
  pose proof (rotated_token_presented demo_platform (PlatformLaws0 := demo_platform_laws) demo_freshId [1; 2; 3] demo_freshId_new
    {["c1" := "refresh-1"]} demo_connected ["google"] false demo_refreshes demo_connected_reach Hsync Hes) as H.
  change (Some [1; 2; 3]) with demo_key in H. fold demo_resolver in H. destruct (fold_left _ demo_refreshes _) as [prov s] eqn:E.
  destruct H as [H _]. destruct (rs_ops s !! 1%nat) as [op|] eqn:Eop.
  2:{ pose proof (f_equal (fun ps => rs_ops (snd ps) !! 1%nat) E) as Ex. cbn [snd] in Ex. rewrite Eop in Ex. vm_compute in Ex. discriminate Ex. }
  assert (op_conn op = "c1" /\ exists c, op_stage op = Calling c "refresh-2") as [Hid (c & Hst)].
  { pose proof (f_equal (fun ps => rs_ops (snd ps) !! 1%nat) E) as Ex. cbn [snd] in Ex. rewrite Eop in Ex. vm_compute in Ex. injection Ex as <-.
    split; [reflexivity|]. eexists. reflexivity. }
  exists op, c. split; [reflexivity|]. split; [exact Hst|]. rewrite <- Hid. exact (H 1%nat op c "refresh-2" Eop Hst).
Defined.

Lemma failed_refresh_backs_off_witness :
  let s := refreshFailed 5000 demo_conn "503 from the token endpoint" demo_resolver in
  ~ In "c1" (fst (dueConnections (mkSweep None None None) 34999 s)) /\ In "c1" (fst (dueConnections (mkSweep None None None) 35000 s)).
Proof.
  assert (In demo_conn (sd_conns demo_connected)) as Hc by (left; vm_compute; reflexivity).
  assert (NoDup (List.map oc_id (sd_conns demo_connected))) as Hnd by (apply (bool_decide_unpack _); vm_compute; exact Logic.I).
  destruct (failed_refresh_backs_off 5000 demo_conn "503 from the token endpoint" demo_resolver 34999 (mkSweep None None None)
              ltac:(vm_compute; discriminate) Hnd Hc) as (_ & H1 & _).
  destruct (failed_refresh_backs_off 5000 demo_conn "503 from the token endpoint" demo_resolver 35000 (mkSweep None None None)
              ltac:(vm_compute; discriminate) Hnd Hc) as (_ & _ & H2).
  split; [apply H1; vm_compute; reflexivity|]. apply H2; [vm_compute; discriminate|]. split; [reflexivity|]. split; vm_compute; reflexivity.
Defined.

(** *** A limited sweep *)

(** Twenty-five connections whose grants were revoked, and one that expires in five minutes. *)
Definition demo_row (n : nat) (expires : Z) : OAuthConnectionRow :=
  mkConnection (String (ascii_of_nat (65 + n)) "") "google" "acct" "label" "a" (Some "r") None [] (Some expires) ∅ None 0 0.
Definition demo_healthy : OAuthConnectionRow := demo_row 25 301000.
Definition demo_crowded : Resolver :=
  fold_left (fun s n => refreshFailed 0 (demo_row n 500) "invalid_grant" s) (seq 0 25)
    (mkResolver (mkStore [] (demo_healthy :: List.map (fun n => demo_row n 500) (seq 0 25)) [] []) None ["google"] false ∅ ∅ []).
Definition healthSweep (limit : option nat) : RefreshSweepOptions :=
  mkSweep (Some CONNECTOR_HEALTH_HORIZON_MS) limit (Some CONNECTOR_HEALTH_CONCURRENCY).

(** Parked connections keep the earliest expiry dates, so they fill the limit of every health
    sweep, and a connection behind them is not refreshed before it expires, or after. *)
Lemma parked_connections_fill_the_sweep :
  List.map (fun now => fst (dueConnections (healthSweep (Some CONNECTOR_HEALTH_BATCH_LIMIT)) now demo_crowded)) [1000; 301000; 86400000] = [[]; []; []] /\
  fst (dueConnections (healthSweep None) 1000 demo_crowded) = [oc_id demo_healthy].
Proof. vm_compute. done. Qed.
