(* ===== verification/Dependencies.v ===== *)
(** * Task dependencies

    A model of [packages/server/src/lib/dependencies.ts] with [recordStatusChange] of
    [services/task-events.ts]: tasks, dependency edges, the wakeup table of [Wakeups.v], the
    runs in flight and the status comments written, as one state; every function as the
    queries it runs, alone. The recursive query of [wouldCreateCycle] is its semi-naive
    evaluation: a working table joined with the edges until it yields nothing new. *)
From Stdlib Require Import ZArith Lia Ascii String List Bool.
From stdpp Require Import base list strings gmap option relations.
From S2P Require Import Prelude JsString Sql Wakeups.

Open Scope string_scope.
Open Scope list_scope.
Open Scope Z_scope.

Inductive TaskStatus := Backlog | InProgress | Blocked | Done | Cancelled_.
#[export] Instance TaskStatus_eq_dec : EqDecision TaskStatus.
Proof. solve_decision. Defined.

Definition TERMINAL_TASK_STATUSES : list TaskStatus := [Done; Cancelled_].
Definition taskTerminal (s : TaskStatus) : bool := bool_decide (s ∈ TERMINAL_TASK_STATUSES).

Record Task := mkTask {
  t_id : string; t_status : TaskStatus; t_assignee : option string; t_team : string;
  t_identifier : string; t_project_slug : string
}.

(** [(task_id, blocked_by_task_id)]. *)
Notation Deps := (list (string * string)).

Record CascadeContext := mkCascade { triggeredByTaskId : string; triggeredByIdentifier : string; triggeredByProjectSlug : string }.

Record StatusComment := mkComment {
  c_task : string; c_author : option string; c_apiKey : option string; c_from : TaskStatus; c_to : TaskStatus;
  c_cascade : option (CascadeContext * option string)
}.

(** The queued and running runs, by agent and task. *)
Record World := mkWorld {
  tasks : list Task; deps : Deps; wakes : list Wakeup; activeRuns : list (string * string);
  agents : list string; comments : list StatusComment; nextId : nat
}.

Definition with_tasks (ts : list Task) (W : World) : World :=
  mkWorld ts (deps W) (wakes W) (activeRuns W) (agents W) (comments W) (nextId W).
Definition with_wakes (ws : list Wakeup) (n : nat) (W : World) : World :=
  mkWorld (tasks W) (deps W) ws (activeRuns W) (agents W) (comments W) n.
Definition with_comment (c : StatusComment) (W : World) : World :=
  mkWorld (tasks W) (deps W) (wakes W) (activeRuns W) (agents W) (comments W ++ [c]) (nextId W).

Definition isTask (id : string) (t : Task) : bool := String.eqb (t_id t) id.
Definition taskOf (id : string) (W : World) : option Task := List.find (isTask id) (tasks W).

Definition GATED_WAKEUP_SOURCES : list WakeupSource := [Assignment; Heartbeat; Timer].

Definition openBlocker (ts : list Task) (id : string) : bool :=
  existsb (fun t => isTask id t && negb (taskTerminal (t_status t))) ts.

Definition hasOpenBlockers (W : World) (taskId : string) : bool :=
  existsb (fun d => String.eqb (fst d) taskId && openBlocker (tasks W) (snd d)) (deps W).

Definition shouldDeferWakeupForBlockers (W : World) (source : WakeupSource) (taskId : option string) : bool :=
  if negb (bool_decide (source ∈ GATED_WAKEUP_SOURCES)) then false
  else match truthy taskId with
       | None => false
       | Some id =>
           match taskOf id W with
           | Some t => if taskTerminal (t_status t) then false else hasOpenBlockers W id
           | None => hasOpenBlockers W id
           end
       end.

(** ** Cycles *)

Definition blockersOf (ds : Deps) (working : list string) : list string :=
  remove_dups (List.map snd (List.filter (fun d => bool_decide (fst d ∈ working)) ds)).

(** [None] when the fuel runs out; [wouldCreateCycle_total] shows it does not. *)
Fixpoint chain (fuel : nat) (ds : Deps) (seen working : list string) : option (list string) :=
  match working with
  | [] => Some seen
  | _ => match fuel with
         | O => None
         | S fuel =>
             let fresh := List.filter (fun x => bool_decide (x ∉ seen)) (blockersOf ds working) in
             chain fuel ds (seen ++ fresh) fresh
         end
  end.

Definition wouldCreateCycle (ds : Deps) (taskId blockerId : string) : option bool :=
  if String.eqb taskId blockerId then Some true
  else
    let base := blockersOf ds [blockerId] in
    reach ← chain (S (length ds)) ds base base;
    Some (bool_decide (taskId ∈ reach)).

(** ** Statuses *)

Definition coerceTargetStatusForBlockers (W : World) (taskId : string) (requested : TaskStatus) : TaskStatus :=
  if taskTerminal requested then requested
  else if hasOpenBlockers W taskId then Blocked
  else if bool_decide (requested = Blocked) then Backlog
  else requested.

Definition setTaskStatus (id : string) (s : TaskStatus) (ts : list Task) : list Task :=
  List.map (fun t => if isTask id t
    then mkTask (t_id t) s (t_assignee t) (t_team t) (t_identifier t) (t_project_slug t) else t) ts.

Definition recordStatusChange (taskId : string) (oldStatus newStatus : TaskStatus) (actor apiKey : option string)
    (cascade : option CascadeContext) (W : World) : World :=
  if bool_decide (oldStatus = newStatus) then W
  else match cascade with
       | Some c => with_comment (mkComment taskId None None oldStatus newStatus (Some (c, actor))) W
       | None => with_comment (mkComment taskId actor apiKey oldStatus newStatus None) W
       end.

Definition reconcileBlockedStatus (taskId : string) (actor : option string) (cascade : option CascadeContext) (W : World)
    : World * option TaskStatus :=
  match taskOf taskId W with
  | None => (W, None)
  | Some t =>
      if taskTerminal (t_status t) then (W, None)
      else
        let blocked := hasOpenBlockers W taskId in
        let target := if blocked && negb (bool_decide (t_status t = Blocked)) then Some Blocked
                      else if negb blocked && bool_decide (t_status t = Blocked) then Some Backlog
                      else None in
        match target with
        | None => (W, None)
        | Some s =>
            let W := with_tasks (setTaskStatus taskId s (tasks W)) W in
            let effectiveCascade := if bool_decide (s = Backlog) then cascade else None in
            (recordStatusChange taskId (t_status t) s actor None effectiveCascade W, Some s)
        end
  end.

Section Wake.
Variable render : Json -> string.
Variable uuid : nat -> string.

Definition requeue (now : Z) (run : option string) (w : Wakeup) : Wakeup :=
  mkWakeup (w_id w) (w_member w) (w_team w) (w_source w) (w_payload w) Queued (w_key w) (coalesce run (w_run w)) now
    (w_count w) None (w_skipped w) (w_reason w) (w_not_before w) (w_held w) (w_completed w).

Definition parkedOn (memberId taskId : string) (w : Wakeup) : bool :=
  String.eqb (w_member w) memberId && bool_decide (w_status w = Deferred)
  && bool_decide (text render (w_payload w) "task_id" = Some taskId)
  && bool_decide (text render (w_payload w) "reason" = Some "blocked").

Definition wakeIfReady (now : Z) (taskId : string) (createdByRunId : option string) (W : World) : World :=
  if hasOpenBlockers W taskId then W
  else
    match taskOf taskId W with
    | None => W
    | Some t =>
        match truthy (t_assignee t) with
        | None => W
        | Some a =>
            if negb (bool_decide (a ∈ agents W)) then W
            else if existsb (parkedOn a taskId) (wakes W) then
              with_wakes (update (parkedOn a taskId) (requeue now createdByRunId) (wakes W)) (nextId W) W
            else if bool_decide ((a, taskId) ∈ activeRuns W) then W
            else
              with_wakes (fst (createWakeup render quiet now (uuid (nextId W)) a (t_team t) Assignment
                   (<["task_id" := Some (JStr taskId)]> {["reason" := Some (JStr "unblocked")]})
                   (Some ("unblock:" +:+ taskId)) createdByRunId (wakes W))) (S (nextId W)) W
        end
    end.

Definition downstreamOf (ds : Deps) (blocker : string) : list string :=
  remove_dups (List.map fst (List.filter (fun d => String.eqb (snd d) blocker) ds)).

Definition cascadeOf (W : World) (blocker : string) : option CascadeContext :=
  match taskOf blocker W with
  | Some t => if taskTerminal (t_status t) then Some (mkCascade blocker (t_identifier t) (t_project_slug t)) else None
  | None => None
  end.

Definition recomputeDownstreamReadiness (now : Z) (blocker : string) (actor : option string)
    (createdByRunId : option string) (W : World) : World :=
  let cascade := cascadeOf W blocker in
  fold_left (fun W id =>
      let '(W, s) := reconcileBlockedStatus id actor cascade W in
      match s with
      | Some Backlog | None => wakeIfReady now id createdByRunId W
      | _ => W
      end) (downstreamOf (deps W) blocker) W.
End Wake.

(** ** The blocker chain is reachability *)

Definition edge (ds : Deps) (a b : string) : Prop := (a, b) ∈ ds.
Definition acyclic (ds : Deps) : Prop := forall x, ~ tc (edge ds) x x.

Lemma blockersOf_elem ds l x : x ∈ blockersOf ds l <-> exists y, y ∈ l /\ edge ds y x.
Proof.
  unfold blockersOf, edge. rewrite elem_of_remove_dups, list_elem_of_In, in_map_iff. split.
  - intros ([a b] & <- & [Hin Hd]%filter_In). apply bool_decide_eq_true in Hd.
    exists a. split; [exact Hd|]. by apply list_elem_of_In.
  - intros (y & Hy & Hin). exists (y, x). split; [done|]. apply filter_In. rewrite <- list_elem_of_In. split; [done|].
    by apply bool_decide_eq_true.
Qed.

Lemma fresh_elem ds (seen l : list string) x :
  x ∈ List.filter (fun x => bool_decide (x ∉ seen)) (blockersOf ds l) <-> x ∉ seen /\ x ∈ blockersOf ds l.
Proof. rewrite !list_elem_of_In, filter_In, bool_decide_eq_true, <- !list_elem_of_In. tauto. Qed.

(** What holds of the tables between two rounds of the recursive query. *)
Record chain_inv (ds : Deps) (b : string) (seen working : list string) : Prop := {
  ci_sound : forall x, x ∈ seen -> tc (edge ds) b x;
  ci_base : forall x, edge ds b x -> x ∈ seen;
  ci_working : forall x, x ∈ working -> x ∈ seen;
  ci_closed : forall x y, x ∈ seen -> edge ds x y -> y ∈ seen \/ x ∈ working;
  ci_nodup : NoDup seen
}.

Lemma chain_round ds b seen working : chain_inv ds b seen working ->
  let fresh := List.filter (fun x => bool_decide (x ∉ seen)) (blockersOf ds working) in
  chain_inv ds b (seen ++ fresh) fresh.
Proof.
  intros [Hs Hb Hw Hc Hn] fresh.
  assert (forall x, x ∈ fresh <-> x ∉ seen /\ x ∈ blockersOf ds working) as Hf by apply fresh_elem.
  assert (NoDup fresh) as Hnf by (apply NoDup_ListNoDup, List.NoDup_filter, NoDup_ListNoDup, NoDup_remove_dups).
  clearbody fresh. split.
  - intros x [Hx|Hx]%elem_of_app; [by apply Hs|]. apply Hf in Hx as [_ (y & Hy & He)%blockersOf_elem].
    eapply tc_r; [apply Hs, Hw, Hy|exact He].
  - intros x Hx. apply elem_of_app. left. by apply Hb.
  - intros x Hx. apply elem_of_app. by right.
  - intros x y [Hx|Hx]%elem_of_app He; [|by right]. left. apply elem_of_app.
    destruct (Hc x y Hx He) as [?|Hwx]; [by left|]. destruct (decide (y ∈ seen)) as [?|Hny]; [by left|].
    right. apply Hf. split; [done|]. apply blockersOf_elem. eauto.
  - apply NoDup_app. split_and!; [done| |done]. intros x Hx Hx'. by apply Hf in Hx' as [? _].
Qed.

Lemma chain_base ds b : chain_inv ds b (blockersOf ds [b]) (blockersOf ds [b]).
Proof.
  assert (forall x, x ∈ blockersOf ds [b] <-> edge ds b x) as Hb.
  { intros x. rewrite blockersOf_elem. setoid_rewrite list_elem_of_singleton. naive_solver. }
  split; [|by intros; apply Hb|done|by right|apply NoDup_remove_dups].
  intros x Hx. apply tc_once. by apply Hb.
Qed.

(** Every name in the tables is a blocker of some edge. *)
Lemma tc_edge_target ds a b : tc (edge ds) a b -> b ∈ List.map snd ds.
Proof.
  induction 1 as [x y H|]; [|done]. rewrite list_elem_of_In, in_map_iff. exists (x, y). by rewrite <- list_elem_of_In.
Qed.

Lemma chain_inv_length ds b seen working : chain_inv ds b seen working -> (length seen <= length ds)%nat.
Proof.
  intros [Hs _ _ _ Hn]. rewrite <- (length_map snd ds). apply submseteq_length, NoDup_submseteq; [done|].
  intros x Hx. by apply (tc_edge_target ds b), Hs.
Qed.

Lemma closed_is_tc ds b seen : chain_inv ds b seen [] -> forall x, x ∈ seen <-> tc (edge ds) b x.
Proof.
  intros [Hs Hb _ Hc _] x. split; [apply Hs|]. revert x. apply tc_ind_r; [apply Hb|]. intros y z _ He IH.
  destruct (Hc y z IH He) as [?|Hn]; [done|]. by apply not_elem_of_nil in Hn.
Qed.

Lemma chain_spec ds b : forall fuel seen working, chain_inv ds b seen working ->
  (length ds < fuel + length seen)%nat \/ working = [] ->
  exists reach, chain fuel ds seen working = Some reach /\ forall x, x ∈ reach <-> tc (edge ds) b x.
Proof.
  induction fuel as [|fuel IH]; intros seen working Hi Hf.
  - destruct working as [|w working].
    + exists seen. split; [done|]. by apply closed_is_tc.
    + pose proof (chain_inv_length _ _ _ _ Hi). destruct Hf; [lia|done].
  - destruct working as [|w working]; [exists seen; split; [done|]; by apply closed_is_tc|].
    cbn [chain]. set (fresh := List.filter _ _). pose proof (chain_round _ _ _ _ Hi) as Hi'. fold fresh in Hi'.
    apply IH; [done|]. destruct fresh as [|f fresh']; [by right|left]. rewrite length_app. cbn. destruct Hf; [lia|done].
Qed.

(** ** Adding an edge *)

Lemma tc_added ds a b x y : tc (edge ((a, b) :: ds)) x y ->
  tc (edge ds) x y \/ (rtc (edge ds) x a /\ rtc (edge ds) b y).
Proof.
  assert (forall u v, edge ((a, b) :: ds) u v -> (u = a /\ v = b) \/ edge ds u v) as Hcase.
  { intros u v H. unfold edge in H. apply elem_of_cons in H as [[= -> ->]|H]; [by left|by right]. }
  induction 1 as [x y H|x z y H _ IH].
  - destruct (Hcase x y H) as [[-> ->]|H']; [right; split; apply rtc_refl|left; by apply tc_once].
  - destruct (Hcase x z H) as [[-> ->]|H'].
    + right. split; [apply rtc_refl|]. destruct IH as [IH|[_ IH]]; [by apply tc_rtc|done].
    + destruct IH as [IH|[IH1 IH2]]; [left; by eapply tc_l|right; split; [by eapply rtc_l|done]].
Qed.

Lemma wouldCreateCycle_reach ds task blocker : exists r, wouldCreateCycle ds task blocker = Some r /\
  (r = true <-> rtc (edge ds) blocker task).
Proof.
  unfold wouldCreateCycle. destruct (String.eqb_spec task blocker) as [-> |Hne].
  - exists true. split; [done|]. split; [intros _; apply rtc_refl|done].
  - destruct (chain_spec ds blocker (S (length ds)) _ _ (chain_base ds blocker)) as (reach & Hr & Hx); [left; lia|].
    exists (bool_decide (task ∈ reach)). rewrite Hr. split; [done|]. rewrite bool_decide_eq_true, Hx, rtc_tc. naive_solver.
Qed.

(** The dependency check is exact and always answers: on an acyclic graph it refuses an
    edge exactly when adding it would close a cycle, so a graph grown only through the check
    stays acyclic, and no edge that is safe is ever refused. *)
Theorem wouldCreateCycle_exact ds task blocker : acyclic ds ->
  exists r, wouldCreateCycle ds task blocker = Some r /\ (r = false <-> acyclic ((task, blocker) :: ds)).
Proof.
  intros Ha. destruct (wouldCreateCycle_reach ds task blocker) as (r & Hr & Hiff). exists r. split; [done|]. split.
  - intros -> x [H|[H1 H2]]%tc_added; [by apply (Ha x)|]. cut (false = true); [done|]. apply Hiff. by etransitivity.
  - intros Hn. destruct r; [|done]. exfalso. apply (Hn task). destruct Hiff as [Hiff _]. specialize (Hiff eq_refl).
    assert (edge ((task, blocker) :: ds) task blocker) as Hnew by (unfold edge; set_solver).
    eapply tc_rtc_r; [apply tc_once, Hnew|]. eapply rtc_subrel; [|exact Hiff].
    intros u v H. unfold edge in *. set_solver.
Qed.

Lemma wouldCreateCycle_exact_witness :
  let ds := [("b", "a"); ("c", "b")] in
  acyclic ds /\ wouldCreateCycle ds "a" "c" = Some true /\ ~ acyclic (("a", "c") :: ds).
Proof.
  assert (acyclic [("b", "a"); ("c", "b")]) as Ha.
  { assert (acyclic []) as H0 by (intros x H; induction H as [x y H|]; [by apply not_elem_of_nil in H|done]).
    destruct (wouldCreateCycle_exact [] "c" "b" H0) as (r & Hr & Hiff). vm_compute in Hr. injection Hr as <-.
    pose proof (proj1 Hiff eq_refl) as H1.
    destruct (wouldCreateCycle_exact [("c", "b")] "b" "a" H1) as (r & Hr & Hiff2). vm_compute in Hr. injection Hr as <-.
    exact (proj1 Hiff2 eq_refl). }
  split; [exact Ha|]. split; [vm_compute; reflexivity|]. intros Hn.
  destruct (wouldCreateCycle_exact _ "a" "c" Ha) as (r & Hr & Hiff). apply Hiff in Hn. subst r. vm_compute in Hr. discriminate.
Defined.

(** ** Blocked is derived *)

(** What an open-blocker test reads of the tasks. *)
Definition shape (ts : list Task) : list (string * bool) := List.map (fun t => (t_id t, taskTerminal (t_status t))) ts.

Definition derived_at (W : World) (t : Task) : Prop :=
  taskTerminal (t_status t) = false -> (t_status t = Blocked <-> hasOpenBlockers W (t_id t) = true).
Definition derived (W : World) : Prop := forall t, In t (tasks W) -> derived_at W t.
Definition unique_tasks (W : World) : Prop := NoDup (List.map t_id (tasks W)).

Lemma openBlocker_shape ts id : openBlocker ts id = existsb (fun p => String.eqb (fst p) id && negb (snd p)) (shape ts).
Proof. unfold openBlocker, shape. induction ts as [|t ts IH]; [done|]. cbn. by rewrite IH. Qed.

Lemma hasOpenBlockers_shape W W' id : deps W' = deps W -> shape (tasks W') = shape (tasks W) ->
  hasOpenBlockers W' id = hasOpenBlockers W id.
Proof.
  intros Hd Hs. unfold hasOpenBlockers. rewrite Hd. clear Hd. induction (deps W) as [|d ds IH]; [done|]. cbn [existsb].
  rewrite IH. f_equal. f_equal. by rewrite !openBlocker_shape, Hs.
Qed.

Lemma shape_ids ts : List.map t_id ts = List.map fst (shape ts).
Proof. unfold shape. by rewrite List.map_map. Qed.

(** The rest of the state a status pass may touch. *)
Definition same_graph (W W' : World) : Prop := deps W' = deps W /\ shape (tasks W') = shape (tasks W).

Lemma same_graph_trans W1 W2 W3 : same_graph W1 W2 -> same_graph W2 W3 -> same_graph W1 W3.
Proof. intros [H1 H2] [H3 H4]. split; congruence. Qed.

Lemma wakeIfReady_tasks render uuid now id run W :
  tasks (wakeIfReady render uuid now id run W) = tasks W /\ deps (wakeIfReady render uuid now id run W) = deps W.
Proof. unfold wakeIfReady. by repeat (case_match; try done). Qed.

Lemma find_task W id t : unique_tasks W -> In t (tasks W) -> t_id t = id -> taskOf id W = Some t.
Proof.
  intros Hu Hin Hid. unfold taskOf. destruct (List.find (isTask id) (tasks W)) as [t'|] eqn:E.
  - apply find_some in E as [Hin' Hid']. unfold isTask in Hid'. apply String.eqb_eq in Hid'. f_equal.
    eapply NoDup_fmap_In; [exact Hu|done|done|congruence].
  - apply (find_none _ _ E) in Hin. unfold isTask in Hin. by rewrite Hid, String.eqb_refl in Hin.
Qed.

Lemma recordStatusChange_graph id o n a k c W : tasks (recordStatusChange id o n a k c W) = tasks W /\
  deps (recordStatusChange id o n a k c W) = deps W.
Proof. unfold recordStatusChange. by repeat (case_match; try done). Qed.

Lemma setTaskStatus_shape id s W t : unique_tasks W -> taskOf id W = Some t ->
  taskTerminal (t_status t) = taskTerminal s -> shape (setTaskStatus id s (tasks W)) = shape (tasks W).
Proof.
  intros Hu Ht Hs. unfold shape, setTaskStatus. rewrite List.map_map. apply List.map_ext_in. intros t' Hin.
  destruct (isTask id t') eqn:E; [|done]. cbn. f_equal. rewrite <- Hs. apply String.eqb_eq in E.
  rewrite (find_task W id t' Hu Hin E) in Ht. by injection Ht as ->.
Qed.

Lemma reconcile_changed id s t0 o a k c W : unique_tasks W -> taskOf id W = Some t0 ->
  taskTerminal (t_status t0) = false -> taskTerminal s = false -> (s = Blocked <-> hasOpenBlockers W id = true) ->
  let W' := recordStatusChange id o s a k c (with_tasks (setTaskStatus id s (tasks W)) W) in
  same_graph W W' /\ forall t, In t (tasks W') -> (t_id t = id -> derived_at W' t) /\ (t_id t <> id -> In t (tasks W)).
Proof.
  intros Hu E0 Et Es Hiff. set (W1 := with_tasks _ W). cbn zeta.
  destruct (recordStatusChange_graph id o s a k c W1) as [Ht Hd]. set (W' := recordStatusChange id o s a k c W1) in *.
  assert (same_graph W W') as Hg.
  { split; [exact Hd|]. rewrite Ht. apply (setTaskStatus_shape id _ W t0); [done|done|congruence]. }
  split; [exact Hg|]. intros t Hin. rewrite Ht in Hin. apply in_map_iff in Hin as (t' & <- & Hin').
  destruct (isTask id t') eqn:Ei; unfold isTask in Ei; [apply String.eqb_eq in Ei|by apply String.eqb_neq in Ei].
  split; [|done]. intros _ _. cbn. rewrite Ei, (hasOpenBlockers_shape W W' id) by apply Hg. done.
Qed.

(** One reconciliation: the graph stays, other tasks stay, and the task becomes derived. *)
Lemma reconcile_spec id actor cascade W : unique_tasks W ->
  let W' := fst (reconcileBlockedStatus id actor cascade W) in
  same_graph W W' /\ forall t, In t (tasks W') -> (t_id t = id -> derived_at W' t) /\ (t_id t <> id -> In t (tasks W)).
Proof.
  intros Hu. unfold reconcileBlockedStatus.
  destruct (taskOf id W) as [t0|] eqn:E0.
  2:{ cbn. split; [done|]. intros t Hin. split; [|done]. intros Hid. by rewrite (find_task W id t) in E0. }
  assert (forall t, In t (tasks W) -> t_id t = id -> t = t0) as H0.
  { intros t Hin Hid. rewrite (find_task W id t Hu Hin Hid) in E0. by injection E0. }
  destruct (taskTerminal (t_status t0)) eqn:Et.
  { cbn. split; [done|]. intros t Hin. split; [|done]. intros Hid. rewrite (H0 t Hin Hid). intros Hnt. congruence. }
  destruct (hasOpenBlockers W id && negb (bool_decide (t_status t0 = Blocked))) eqn:E1;
    [|destruct (negb (hasOpenBlockers W id) && bool_decide (t_status t0 = Blocked)) eqn:E2].
  3:{ cbn. split; [done|]. intros t Hin. split; [|done]. intros Hid. pose proof (H0 t Hin Hid) as ->. intros _. rewrite Hid.
      destruct (hasOpenBlockers W id), (bool_decide_reflect (t_status t0 = Blocked)); cbn in *; done. }
  - apply (reconcile_changed id Blocked t0); try done. by apply andb_true_iff in E1 as [-> _].
  - apply (reconcile_changed id Backlog t0); try done. apply andb_true_iff in E2 as [E2 _]. by destruct (hasOpenBlockers W id).
Qed.

Lemma same_graph_unique W W' : same_graph W W' -> unique_tasks W -> unique_tasks W'.
Proof. intros [_ Hs] Hu. unfold unique_tasks. rewrite shape_ids, Hs, <- shape_ids. exact Hu. Qed.

Lemma derived_at_graph W W' t : same_graph W W' -> derived_at W t -> derived_at W' t.
Proof. intros [Hd Hs] H Hnt. rewrite (hasOpenBlockers_shape W W') by done. by apply H. Qed.

Section Pass.
Variable render : Json -> string.
Variable uuid : nat -> string.

Definition passStep (now : Z) (actor run : option string) (cascade : option CascadeContext) (W : World) (id : string) : World :=
  let '(W, s) := reconcileBlockedStatus id actor cascade W in
  match s with Some Backlog | None => wakeIfReady render uuid now id run W | _ => W end.

Lemma passStep_spec now actor run cascade W id : unique_tasks W ->
  let W' := passStep now actor run cascade W id in
  same_graph W W' /\ forall t, In t (tasks W') -> (t_id t = id -> derived_at W' t) /\ (t_id t <> id -> In t (tasks W)).
Proof.
  intros Hu. pose proof (reconcile_spec id actor cascade W Hu) as H. unfold passStep.
  destruct (reconcileBlockedStatus id actor cascade W) as [W1 s]. cbn [fst] in H.
  assert (forall W2, tasks W2 = tasks W1 /\ deps W2 = deps W1 -> same_graph W W2 /\
    forall t, In t (tasks W2) -> (t_id t = id -> derived_at W2 t) /\ (t_id t <> id -> In t (tasks W))) as Hsame.
  { intros W2 [Ht Hd]. destruct H as [Hg H]. assert (same_graph W1 W2) as Hg2 by (split; congruence).
    split; [by eapply same_graph_trans|]. intros t Hin. rewrite Ht in Hin. destruct (H t Hin) as [Ha Hb].
    split; [|done]. intros Hid. eapply derived_at_graph; eauto. }
  destruct s as [[]|]; apply Hsame; try done; apply wakeIfReady_tasks.
Qed.

Lemma pass_spec now actor run cascade : forall l W, unique_tasks W ->
  let W' := fold_left (passStep now actor run cascade) l W in
  same_graph W W' /\ forall t, In t (tasks W') -> (t_id t ∈ l -> derived_at W' t) /\ (t_id t ∉ l -> In t (tasks W)).
Proof.
  induction l as [|id l IH]; intros W Hu; cbn [fold_left].
  - split; [done|]. intros t Hin. split; [|done]. by intros ?%not_elem_of_nil.
  - destruct (passStep_spec now actor run cascade W id Hu) as [Hg H]. set (W1 := passStep now actor run cascade W id) in *.
    destruct (IH W1 (same_graph_unique _ _ Hg Hu)) as [Hg' H']. set (W' := fold_left _ l W1) in *.
    split; [by eapply same_graph_trans|]. intros t Hin. destruct (H' t Hin) as [Ha Hb].
    destruct (decide (t_id t ∈ l)) as [Hl|Hl].
    + split; [intros _; by apply Ha|]. intros Hn. exfalso. apply Hn. by constructor.
    + destruct (H t (Hb Hl)) as [Hc Hd]. split.
      * intros [Hid|?]%elem_of_cons; [|done]. eapply derived_at_graph; [exact Hg'|]. by apply Hc.
      * intros [Hne _]%not_elem_of_cons. by apply Hd.
Qed.

Lemma recompute_pass now blocker actor run W :
  recomputeDownstreamReadiness render uuid now blocker actor run W
  = fold_left (passStep now actor run (cascadeOf W blocker)) (downstreamOf (deps W) blocker) W.
Proof. reflexivity. Qed.

Lemma downstreamOf_elem ds b x : x ∈ downstreamOf ds b <-> (x, b) ∈ ds.
Proof.
  unfold downstreamOf. rewrite elem_of_remove_dups, list_elem_of_In, in_map_iff. split.
  - intros ([u v] & <- & [Hin E]%filter_In). apply String.eqb_eq in E. cbn in *. subst. by apply list_elem_of_In.
  - intros Hin. exists (x, b). split; [done|]. apply filter_In. rewrite <- list_elem_of_In. split; [done|]. apply String.eqb_refl.
Qed.

Lemma setTaskStatus_open x s ts id : id <> x -> openBlocker (setTaskStatus x s ts) id = openBlocker ts id.
Proof.
  intros Hne. unfold openBlocker. induction ts as [|t ts IH]; [done|]. cbn [setTaskStatus List.map existsb].
  fold (setTaskStatus x s ts). rewrite IH. f_equal. unfold isTask. destruct (String.eqb_spec (t_id t) x) as [E|]; [|done].
  cbn. destruct (String.eqb_spec (t_id t) id); [congruence|done].
Qed.

Lemma upstream_only x s W id : id ∉ downstreamOf (deps W) x ->
  hasOpenBlockers (with_tasks (setTaskStatus x s (tasks W)) W) id = hasOpenBlockers W id.
Proof.
  rewrite downstreamOf_elem. intros Hn. unfold hasOpenBlockers. cbn [deps tasks with_tasks].
  induction (deps W) as [|d ds IH]; [done|]. apply not_elem_of_cons in Hn as [Hd Hn]. cbn [existsb].
  rewrite (IH Hn). f_equal. destruct (String.eqb_spec (fst d) id) as [E|]; [|done]. cbn.
  apply setTaskStatus_open. intros E'. apply Hd. destruct d. cbn in *. congruence.
Qed.

Lemma coerce_derived W x requested : taskTerminal (coerceTargetStatusForBlockers W x requested) = false ->
  (coerceTargetStatusForBlockers W x requested = Blocked <-> hasOpenBlockers W x = true).
Proof.
  unfold coerceTargetStatusForBlockers. destruct (taskTerminal requested) eqn:E; [congruence|].
  destruct (hasOpenBlockers W x); [done|]. destruct (bool_decide_reflect (requested = Blocked)); done.
Qed.

End Pass.

(** Blocked is purely derived: if before a task's status is set every unfinished task is
    blocked exactly when it has an unfinished blocker, then after the requested status is
    coerced, stored, and the task's dependents recomputed, the same holds of every task, and
    neither the graph nor whether any other task is finished changed. *)
Theorem status_change_keeps_blocked_derived render uuid W task requested now actor run :
  unique_tasks W -> derived W ->
  let stored := with_tasks (setTaskStatus task (coerceTargetStatusForBlockers W task requested) (tasks W)) W in
  let W' := recomputeDownstreamReadiness render uuid now task actor run stored in
  derived W' /\ deps W' = deps W /\ shape (tasks W') = shape (tasks stored).
Proof.
  intros Hu Hd stored. cbn zeta. rewrite recompute_pass.
  assert (unique_tasks stored) as Hu'.
  { unfold unique_tasks, stored, setTaskStatus. cbn [tasks with_tasks]. rewrite List.map_map.
    erewrite List.map_ext; [exact Hu|]. intros t. by destruct (isTask task t). }
  destruct (pass_spec render uuid now actor run (cascadeOf stored task) (downstreamOf (deps stored) task) stored Hu')
    as [[Hg1 Hg2] H]. set (W' := fold_left _ _ _) in *. split; [|split; [exact Hg1|exact Hg2]].
  intros t Hin. destruct (H t Hin) as [Ha Hb]. destruct (decide (t_id t ∈ downstreamOf (deps stored) task)) as [Hl|Hl]; [by apply Ha|].
  intros Hnt. rewrite (hasOpenBlockers_shape stored W') by done. unfold stored. rewrite upstream_only by done.
  specialize (Hb Hl). unfold stored in Hb. cbn [tasks with_tasks] in Hb.
  apply in_map_iff in Hb as (t' & <- & Hin'). destruct (isTask task t') eqn:Ei; [|by apply Hd].
  apply String.eqb_eq in Ei. cbn in *. rewrite Ei. by apply coerce_derived.
Qed.

(** ** Waking a ready task *)

Definition wakesFor (render : Json -> string) (member task : string) (w : Wakeup) : Prop :=
  w_status w = Queued /\ w_member w = member /\ text render (w_payload w) "task_id" = Some task.

Lemma carried_task render task extra run w : carries (<["task_id" := Some (JStr task)]> extra) run w ->
  text render (w_payload w) "task_id" = Some task.
Proof.
  intros H. destruct (H "task_id" (JStr task)) as (s & Hs & [-> |(a & b & [=] & _)]); [by rewrite lookup_insert_eq|done|].
  unfold text. by rewrite Hs.
Qed.

(** A task that becomes ready wakes its agent: when no open blocker is left and the
    assignee is an agent, then after [wakeIfReady] a wakeup for that agent and task is queued,
    unless a run of that agent on the task is already in flight - as long as the queued
    wakeup under the task's unblock key, if there is one, is that agent's for that task; and
    when a blocker is still open nothing changes. *)
Theorem ready_task_is_woken render uuid now task run W t a :
  taskOf task W = Some t -> t_assignee t = Some a -> a <> "" -> a ∈ agents W -> NoDup (List.map w_id (wakes W)) ->
  (forall w, In w (wakes W) -> w_key w = Some ("unblock:" +:+ task) -> w_status w = Queued -> wakesFor render a task w) ->
  let W' := wakeIfReady render uuid now task run W in
  if hasOpenBlockers W task then W' = W
  else (a, task) ∈ activeRuns W \/ exists w, In w (wakes W') /\ wakesFor render a task w.
Proof.
  intros Ht Ha Hne Hag Hnd Hkey. unfold wakeIfReady. destruct (hasOpenBlockers W task); [done|].
  rewrite Ht, Ha. assert (truthy (Some a) = Some a) as -> by (destruct a; done).
  rewrite bool_decide_true by done. cbn [negb].
  destruct (existsb _ _) eqn:Ep.
  - right. apply existsb_exists in Ep as (w & Hin & Hp). exists (requeue now run w). split; [by apply update_In|].
    unfold parkedOn in Hp. rewrite !andb_true_iff, String.eqb_eq, !bool_decide_eq_true in Hp.
    destruct Hp as (((Hm & _) & Htask) & _). by repeat split.
  - destruct (bool_decide_reflect ((a, task) ∈ activeRuns W)) as [Hr|_]; [by left|]. right. cbn [wakes with_wakes].
    set (p := <["task_id" := _]> _).
    assert (guarantees (after_select quiet)) as Hq.
    { intros t0 Hnd0 w w' Hin Hin' Hid. rewrite (NoDup_fmap_In w_id t0 w w' Hnd0 Hin Hin' Hid). split; auto. }
    pose proof (createWakeup_row render quiet now (uuid (nextId W)) a (t_team t) Assignment p
      (Some ("unblock:" +:+ task)) run (wakes W) Hq Hnd) as H.
    destruct (createWakeup _ _ _ _ _ _ _ _ _ _ _) as [t' id]. cbn [fst].
    destruct H as [(k & w & Hk & Hin & Hwk & Hs & Hid & Ht')|(w & Hin & _ & Hs & Hm & _ & Hc)].
    + cbn in Hk. injection Hk as <-. pose proof (Hkey w Hin Hwk Hs) as Hw. destruct Ht' as [-> |[r ->]]; [by exists w|].
      exists (credit r w). split; [|exact Hw]. apply update_In; [done|]. unfold hasId. by rewrite Hid, String.eqb_refl.
    + exists w. split; [done|]. split; [done|]. split; [done|]. by eapply carried_task.
Qed.

(** A design task blocking a build task that waits, parked, for an agent. *)
Definition demo_world : World :=
  mkWorld [mkTask "design" InProgress None "team" "HZ-1" "app"; mkTask "build" Blocked (Some "ada") "team" "HZ-2" "app"]
    [("build", "design")]
    [mkWakeup "w0" "ada" "team" Assignment (<["task_id" := JStr "build"]> {["reason" := JStr "blocked"]}) Deferred None None 1 0
       None None None None None None]
    [] ["ada"] [] 1%nat.

Lemma status_change_keeps_blocked_derived_witness :
  let stored := with_tasks (setTaskStatus "design" (coerceTargetStatusForBlockers demo_world "design" Done) (tasks demo_world))
                  demo_world in
  let W' := recomputeDownstreamReadiness (fun _ => "") (fun _ => "new") 50 "design" None None stored in
  derived W' /\ List.map t_status (tasks W') = [Done; Backlog] /\ List.map w_status (wakes W') = [Queued].
Proof.
  assert (derived demo_world) as Hd.
  { intros t Hin. cbn in Hin. destruct Hin as [<-|[<-|[]]]; intros _; vm_compute; split; intros H; try discriminate H; reflexivity. }
  assert (unique_tasks demo_world) as Hu by (repeat constructor; set_solver).
  split; [exact (proj1 (status_change_keeps_blocked_derived (fun _ => "") (fun _ => "new") demo_world "design" Done 50 None None Hu Hd))|].
  split; vm_compute; reflexivity.
Defined.

Definition demo_ready : World := with_tasks (setTaskStatus "design" Done (tasks demo_world)) demo_world.

Lemma ready_task_is_woken_witness :
  hasOpenBlockers demo_ready "build" = false /\
  (("ada", "build") ∈ activeRuns demo_ready \/
   exists w, In w (wakes (wakeIfReady (fun _ => "") (fun _ => "new") 50 "build" None demo_ready)) /\
             wakesFor (fun _ => "") "ada" "build" w).
Proof.
  split; [reflexivity|].
  apply (ready_task_is_woken (fun _ => "") (fun _ => "new") 50 "build" None demo_ready
    (mkTask "build" Blocked (Some "ada") "team" "HZ-2" "app") "ada");
    [reflexivity|reflexivity|discriminate|cbn; set_solver|cbn; repeat constructor; set_solver|].
  intros w Hin Hk. cbn in Hin. destruct Hin as [<-|[]]. discriminate Hk.
Defined.

(** The unblock key names the task and not the agent: a wakeup still queued under it for the
    previous assignee swallows the one of the agent the task was handed to. *)
Example unblock_key_of_previous_assignee :
  let W := mkWorld [mkTask "build" Backlog (Some "bob") "team" "HZ-2" "app"] []
    [mkWakeup "w0" "ada" "team" Assignment (<["task_id" := JStr "build"]> {["reason" := JStr "unblocked"]}) Queued
       (Some "unblock:build") None 1 0 None None None None None None]
    [] ["ada"; "bob"] [] 1%nat in
  List.map w_member (wakes (wakeIfReady (fun _ => "") (fun _ => "new") 50 "build" None W)) = ["ada"].
Proof. vm_compute. reflexivity. Qed.
