(* ===== verification/TaskTree.v ===== *)
(** * The tree of sub-tasks

    A model of [packages/server/src/lib/task-relationships.ts]: where a task may be nested, and
    whether its sub-tasks are closed. A task is a row of [Dependencies.v] with the columns the
    hierarchy uses beside it. The recursive queries of [measureParentPlacement] are their levels,
    as many as the walk limit allows. A move checks and writes in one transaction; a creation
    checks first and inserts later, with other writes in between. Tasks are not deleted. *)
From Stdlib Require Import ZArith Lia Ascii String List Bool.
From stdpp Require Import base list strings gmap option relations.
From S2P Require Import Prelude JsString Sql Wakeups Dependencies.

Open Scope string_scope.
Open Scope list_scope.
Open Scope Z_scope.

Definition MAX_SUB_TASK_DEPTH : Z := 3.
Definition TREE_WALK_LIMIT : nat := 5.

Record TaskInfo := mkInfo { ti_project : string; ti_parent : option string; ti_created : Z; ti_labels : list string; ti_description : string }.
Record TreeDb := mkTreeDb { td_world : World; td_info : gmap string TaskInfo }.

Definition parentId (db : TreeDb) (id : string) : option string := td_info db !! id ≫= ti_parent.
Definition projectId (db : TreeDb) (id : string) : option string := ti_project <$> td_info db !! id.
Definition inTeam (teamId : string) (t : Task) : bool := String.eqb (t_team t) teamId.

(** ** References *)

Definition isHexDigit (c : ascii) : bool :=
  let n := code (lower_ascii c) in ((48 <=? n) && (n <=? 57)) || ((97 <=? n) && (n <=? 102)).
(** [n] hexadecimal digits, then [k] on the rest. *)
Fixpoint hexThen (n : nat) (k : string -> bool) (s : string) : bool :=
  match n, s with
  | O, _ => k s
  | S n, String c s => isHexDigit c && hexThen n k s
  | S _, EmptyString => false
  end.
Definition dashThen (k : string -> bool) (s : string) : bool := match s with String c s => Ascii.eqb c "-" && k s | EmptyString => false end.
(** [UUID_RE]. *)
Definition isUuid (s : string) : bool :=
  hexThen 8 (dashThen (hexThen 4 (dashThen (hexThen 4 (dashThen (hexThen 4 (dashThen (hexThen 12 (String.eqb "")))))))))  s.

Definition resolveTaskId (db : TreeDb) (teamId raw : string) : option string :=
  if isUuid raw then Some raw
  else t_id <$> List.find (fun t => inTeam teamId t && String.eqb (toLowerCase (t_identifier t)) (toLowerCase raw)) (tasks (td_world db)).

(** ** Measuring a placement *)

Record ParentPlacement := mkPlacement {
  pp_found : bool; pp_projectId : option string; pp_identifier : option string; pp_status : option TaskStatus;
  pp_depth : Z; pp_height : Z; pp_inSubtree : bool
}.

Definition seed (db : TreeDb) (teamId id : string) : list Task := List.filter (fun t => isTask id t && inTeam teamId t) (tasks (td_world db)).
(** One round of the ancestor walk and of the descendant walk. *)
Definition levelUp (db : TreeDb) (teamId : string) (level : list Task) : list Task :=
  List.concat (List.map (fun a => match parentId db (t_id a) with Some p => seed db teamId p | None => [] end) level).
Definition levelDown (db : TreeDb) (teamId : string) (level : list Task) : list Task :=
  List.concat (List.map (fun d => List.filter (fun c => bool_decide (parentId db (t_id c) = Some (t_id d)) && inTeam teamId c) (tasks (td_world db))) level).
Fixpoint levels (step : list Task -> list Task) (n : nat) (level : list Task) : list (list Task) :=
  level :: match n with O => [] | S n => levels step n (step level) end.
(** [max(depth)]. *)
Fixpoint maxLevel (k : Z) (ls : list (list Task)) : option Z :=
  match ls with
  | [] => None
  | l :: ls => match maxLevel (k + 1) ls with Some d => Some d | None => match l with [] => None | _ => Some k end end
  end.

Definition measureParentPlacement (db : TreeDb) (teamId parentTaskId : string) (movingTaskId : option string) : ParentPlacement :=
  let parent := seed db teamId parentTaskId in
  let ancestors := levels (levelUp db teamId) TREE_WALK_LIMIT parent in
  let descendants := levels (levelDown db teamId) TREE_WALK_LIMIT (match movingTaskId with Some m => seed db teamId m | None => [] end) in
  mkPlacement (match parent with [] => false | _ => true end)
    (head parent ≫= fun t => projectId db (t_id t)) (t_identifier <$> head parent) (t_status <$> head parent)
    (default 0 (maxLevel 0 ancestors)) (default 0 (maxLevel 0 descendants)) (existsb (isTask parentTaskId) (List.concat descendants)).

(** ** Checks *)

Definition depthFits (p : ParentPlacement) : bool := pp_depth p + 1 + pp_height p <=? MAX_SUB_TASK_DEPTH.

Inductive ParentProblem :=
| ParentNotFound (ref : string)
| OwnParent
| OtherProject
| InsideSubtree (identifier : option string)
| TooDeep
| ClosedParent (identifier : option string) (status : TaskStatus).

Definition assertChildDepthAllowed (db : TreeDb) (teamId parentTaskId : string) : result ParentProblem unit :=
  let p := measureParentPlacement db teamId parentTaskId None in
  if negb (pp_found p) then Throw (ParentNotFound parentTaskId)
  else if negb (depthFits p) then Throw TooDeep
  else Ok tt.

Record ReparentSubject := mkSubject { rs_taskId : string; rs_projectId : string; rs_currentParent : option string; rs_status : TaskStatus }.

(** The parent the task gets, and whether that changes it. *)
Definition resolveParentAssignment (db : TreeDb) (teamId : string) (subject : ReparentSubject) (rawParent : option string)
    : result ParentProblem (option string * bool) :=
  let trimmed := match rawParent with Some s => trim s | None => "" end in
  if String.eqb trimmed "" then Ok (None, bool_decide (rs_currentParent subject <> None))
  else
    match resolveTaskId db teamId trimmed with
    | None => Throw (ParentNotFound trimmed)
    | Some parentTaskId =>
        if String.eqb parentTaskId (rs_taskId subject) then Throw OwnParent
        else if bool_decide (rs_currentParent subject = Some parentTaskId) then Ok (Some parentTaskId, false)
        else
          let p := measureParentPlacement db teamId parentTaskId (Some (rs_taskId subject)) in
          if negb (pp_found p) then Throw (ParentNotFound trimmed)
          else if negb (bool_decide (pp_projectId p = Some (rs_projectId subject))) then Throw OtherProject
          else if pp_inSubtree p then Throw (InsideSubtree (pp_identifier p))
          else if negb (depthFits p) then Throw TooDeep
          else
            match pp_status p with
            | Some s => if taskTerminal s && negb (taskTerminal (rs_status subject)) then Throw (ClosedParent (pp_identifier p) s)
                        else Ok (Some parentTaskId, true)
            | None => Ok (Some parentTaskId, true)
            end
    end.

Definition OPEN_CHILD_STATUSES : list TaskStatus := [Backlog; InProgress; Blocked].
Definition oldestTask (db : TreeDb) (a b : Task) : Z :=
  default 0 (ti_created <$> td_info db !! t_id a) - default 0 (ti_created <$> td_info db !! t_id b).
Definition openChildren (db : TreeDb) (teamId taskId : string) : list Task :=
  List.filter (fun c => bool_decide (parentId db (t_id c) = Some taskId) && inTeam teamId c && bool_decide (t_status c ∈ OPEN_CHILD_STATUSES))
    (tasks (td_world db)).
(** The sub-tasks the refusal names. *)
Definition assertChildrenAllClosed (db : TreeDb) (teamId taskId : string) : result (list (string * TaskStatus)) unit :=
  match take 3 (js_sort (oldestTask db) (openChildren db teamId taskId)) with
  | [] => Ok tt
  | l => Throw (List.map (fun c => (t_identifier c, t_status c)) l)
  end.

(** ** Writes *)

Definition setParent (id : string) (parent : option string) (db : TreeDb) : TreeDb :=
  mkTreeDb (td_world db) (alter (fun i => mkInfo (ti_project i) parent (ti_created i) (ti_labels i) (ti_description i)) id (td_info db)).
Definition insertTask (t : Task) (i : TaskInfo) (db : TreeDb) : TreeDb :=
  mkTreeDb (with_tasks (tasks (td_world db) ++ [t]) (td_world db)) (<[t_id t := i]> (td_info db)).

(** The parent of a task about to be created: what [createTask] settles before its transaction. *)
Definition createParent (db : TreeDb) (teamId : string) (rawParent : option string) : result ParentProblem (option string) :=
  match truthy rawParent with
  | None => Ok None
  | Some raw =>
      match resolveTaskId db teamId raw with
      | None => Throw (ParentNotFound raw)
      | Some id => let! _ := assertChildDepthAllowed db teamId id in Ok (Some id)
      end
  end.

Definition subjectOf (db : TreeDb) (t : Task) : ReparentSubject :=
  mkSubject (t_id t) (default "" (projectId db (t_id t))) (parentId db (t_id t)) (t_status t).
(** The parent half of an update: the row is read, checked and written in one transaction. *)
Definition updateParent (teamId taskId : string) (rawParent : option string) (db : TreeDb) : result ParentProblem TreeDb :=
  match head (seed db teamId taskId) with
  | None => Throw (ParentNotFound taskId)
  | Some t =>
      let! r := resolveParentAssignment db teamId (subjectOf db t) rawParent in
      Ok (if snd r then setParent taskId (fst r) db else db)
  end.

(** Creations whose parent was checked and whose row is not there yet, and the steps of creations
    and moves in any order. *)
Record TreeState := mkTreeState { ts_db : TreeDb; ts_checked : list (string * option string) }.
Inductive TreeEvent :=
| CheckCreate (teamId : string) (rawParent : option string)
| InsertCreate (j : nat) (t : Task) (i : TaskInfo)
| Create (t : Task) (i : TaskInfo) (rawParent : option string)
| Reparent (teamId taskId : string) (rawParent : option string).

Definition insertChecked (team : string) (parent : option string) (t : Task) (i : TaskInfo) (db : TreeDb) : TreeDb :=
  if existsb (isTask (t_id t)) (tasks (td_world db)) then db
  else insertTask (mkTask (t_id t) (t_status t) (t_assignee t) team (t_identifier t) (t_project_slug t))
         (mkInfo (ti_project i) parent (ti_created i) (ti_labels i) (ti_description i)) db.

Definition treeStep (s : TreeState) (e : TreeEvent) : TreeState :=
  match e with
  | CheckCreate team raw =>
      match createParent (ts_db s) team raw with
      | Ok parent => mkTreeState (ts_db s) (ts_checked s ++ [(team, parent)])
      | Throw _ => s
      end
  | InsertCreate j t i =>
      match ts_checked s !! j with
      | Some (team, parent) => mkTreeState (insertChecked team parent t i (ts_db s)) (delete j (ts_checked s))
      | None => s
      end
  | Create t i raw =>
      match createParent (ts_db s) (t_team t) raw with
      | Ok parent => mkTreeState (insertChecked (t_team t) parent t i (ts_db s)) (ts_checked s)
      | Throw _ => s
      end
  | Reparent team id raw =>
      match updateParent team id raw (ts_db s) with
      | Ok db => mkTreeState db (ts_checked s)
      | Throw _ => s
      end
  end.

(** ** Paths to the root *)

(** The ancestor [n] edges above a task. *)
Fixpoint up (p : string -> option string) (n : nat) (x : string) : option string :=
  match n with O => Some x | S n => p x ≫= up p n end.

Lemma up_add p m : forall n x, up p (m + n) x = up p m x ≫= up p n.
Proof. induction m as [|m IH]; intros n x; [done|]. cbn. destruct (p x) as [y|]; [|done]. cbn. apply IH. Qed.
Lemma up_S p n x : up p (S n) x = up p n x ≫= p.
Proof. replace (S n) with (n + 1)%nat by lia. rewrite up_add. destruct (up p n x) as [y|]; [|done]. cbn. by destruct (p y). Qed.
Lemma up_none p n m x : (n <= m)%nat -> up p n x = None -> up p m x = None.
Proof. intros H E. replace m with (n + (m - n))%nat by lia. by rewrite up_add, E. Qed.

Section Moves.
Context (p p' : string -> option string) (m : string) (Hagree : forall x, x <> m -> p' x = p x).

Lemma up_outside n : forall x, (forall k, (k < n)%nat -> up p k x <> Some m) -> up p' n x = up p n x.
Proof.
  induction n as [|n IH]; intros x H; [done|]. cbn. assert (x <> m) as Hx by (intros ->; by apply (H 0%nat); [lia|]).
  rewrite (Hagree x Hx). destruct (p x) as [y|] eqn:E; [|done]. cbn. apply IH. intros k Hk Hy. apply (H (S k)); [lia|]. cbn. by rewrite E.
Qed.

Lemma first_visit n x : (forall k, (k < n)%nat -> up p k x <> Some m) \/
  exists k, (k < n)%nat /\ up p k x = Some m /\ forall j, (j < k)%nat -> up p j x <> Some m.
Proof.
  induction n as [|n [IH|(k & Hk & Hu & Hj)]]; [left; lia| |right; exists k; split; [lia|done]].
  destruct (decide (up p n x = Some m)) as [E|E]; [right; exists n; split; [lia|done]|]. left. intros k Hk.
  destruct (decide (k = n)) as [->|]; [done|]. apply IH. lia.
Qed.

(** After a task moved under [q], no path is longer than the measured depth and height allow. *)
Lemma move_bounded q depth height D x : p' m = Some q -> (forall j, up p j q <> Some m) -> (forall k, (depth < k)%nat -> up p k q = None) ->
  (forall k, up p k x = Some m -> (k <= height)%nat) -> (depth + 1 + height <= D)%nat -> up p (S D) x = None -> up p' (S D) x = None.
Proof.
  intros Hm Hq Hd Hh HD Hx. destruct (first_visit (S D) x) as [H|(k & Hk & Hu & Hj)]; [by rewrite up_outside|].
  replace (S D) with (k + S (D - k))%nat by lia. rewrite up_add, (up_outside k x Hj), Hu. cbn [mbind option_bind up]. rewrite Hm. cbn [mbind option_bind].
  rewrite up_outside by (intros; apply Hq). apply Hd. specialize (Hh k Hu). lia.
Qed.

Lemma promote_bounded n : p' m = None -> forall x, up p n x = None -> up p' n x = None.
Proof.
  intros Hm. induction n as [|n IH]; intros x; [done|]. cbn. destruct (decide (x = m)) as [->|Hx]; [by rewrite Hm|].
  rewrite (Hagree x Hx). destruct (p x) as [y|]; [|done]. apply IH.
Qed.
End Moves.

(** ** What is measured *)

Record tree_ok (db : TreeDb) : Prop := {
  to_unique : NoDup (List.map t_id (tasks (td_world db)));
  to_parent : forall t y, In t (tasks (td_world db)) -> parentId db (t_id t) = Some y ->
    exists u, In u (tasks (td_world db)) /\ t_id u = y /\ t_team u = t_team t;
}.
Definition shallow (D : nat) (db : TreeDb) : Prop := forall t, In t (tasks (td_world db)) -> up (parentId db) (S D) (t_id t) = None.

Lemma in_seed db team id u : In u (seed db team id) <-> In u (tasks (td_world db)) /\ t_id u = id /\ t_team u = team.
Proof. unfold seed, isTask, inTeam. rewrite filter_In, andb_true_iff, !String.eqb_eq. done. Qed.

Lemma levels_lookup step n : forall level k, (k <= n)%nat -> levels step n level !! k = Some (Nat.iter k step level).
Proof.
  induction n as [|n IH]; intros level [|k] H; [done|lia|done|]. cbn [levels]. rewrite Nat.iter_succ_r. cbn [lookup list_lookup]. by apply IH; lia.
Qed.
Lemma levels_length step n : forall level, List.length (levels step n level) = S n.
Proof. induction n as [|n IH]; intros level; [done|]. cbn [levels List.length]. by rewrite IH. Qed.

(** [maxLevel] is the last level that is not empty. *)
Lemma maxLevel_spec ls : forall k, match maxLevel k ls with
  | None => forall i l, ls !! i = Some l -> l = []
  | Some d => exists i : nat, d = k + Z.of_nat i /\ (exists l, ls !! i = Some l /\ l <> []) /\ forall j l, (i < j)%nat -> ls !! j = Some l -> l = []
  end.
Proof.
  induction ls as [|l ls IH]; intros k; cbn [maxLevel]; [done|]. specialize (IH (k + 1)). destruct (maxLevel (k + 1) ls) as [d|].
  - destruct IH as (i & -> & Hl & Hj). exists (S i). split; [lia|]. split; [done|]. intros [|j] l' H; [lia|]. apply Hj. lia.
  - destruct l as [|t l].
    + intros [|i] l'; [by intros [= <-]|apply IH].
    + exists 0%nat. split; [lia|]. split; [by eexists|]. intros [|j] l' H; [lia|]. cbn. apply IH.
Qed.
Lemma measured step n level : level <> [] -> exists d : nat, default 0 (maxLevel 0 (levels step n level)) = Z.of_nat d /\ (d <= n)%nat /\
  Nat.iter d step level <> [] /\ forall k, (d < k <= n)%nat -> Nat.iter k step level = [].
Proof.
  intros Hl. pose proof (maxLevel_spec (levels step n level) 0) as H. destruct (maxLevel 0 (levels step n level)) as [d|].
  - destruct H as (i & -> & (l & Hi & Hne) & Hj). pose proof (lookup_lt_Some _ _ _ Hi) as Hlt. rewrite levels_length in Hlt.
    rewrite levels_lookup in Hi by lia. injection Hi as <-. exists i. split; [cbn; lia|]. split; [lia|]. split; [done|].
    intros k Hk. apply (Hj k); [lia|]. by rewrite levels_lookup by lia.
  - destruct Hl. apply (H 0%nat). by rewrite levels_lookup by lia.
Qed.

Section Measures.
Context (db : TreeDb) (Hok : tree_ok db) (team : string).
Local Notation p := (parentId db).
Local Notation isRow u := (In u (tasks (td_world db))).

Lemma same_row u v : isRow u -> isRow v -> t_id u = t_id v -> u = v.
Proof. exact (NoDup_fmap_In t_id _ u v (to_unique db Hok)). Qed.

Lemma path_row k : forall t y, isRow t -> t_team t = team -> up p k (t_id t) = Some y -> exists u, isRow u /\ t_id u = y /\ t_team u = team.
Proof.
  induction k as [|k IH]; intros t y Ht Hteam; cbn.
  - intros [= <-]. by exists t.
  - destruct (p (t_id t)) as [z|] eqn:E; [|done]. cbn. destruct (to_parent db Hok t z Ht E) as (u & Hu & <- & Hut). apply IH; [done|congruence].
Qed.

Lemma in_levelUp level u : In u (levelUp db team level) <-> exists a, In a level /\ p (t_id a) = Some (t_id u) /\ isRow u /\ t_team u = team.
Proof.
  unfold levelUp. rewrite in_concat. split.
  - intros (l & (a & <- & Ha)%in_map_iff & Hu). destruct (p (t_id a)) as [z|] eqn:E; [|done]. apply in_seed in Hu as (Hr & <- & Ht). by exists a.
  - intros (a & Ha & E & Hr & Ht). exists (seed db team (t_id u)). split; [apply in_map_iff; exists a; by rewrite E|by apply in_seed].
Qed.
Lemma in_levelDown level c : In c (levelDown db team level) <-> exists d, In d level /\ p (t_id c) = Some (t_id d) /\ isRow c /\ t_team c = team.
Proof.
  unfold levelDown, inTeam. rewrite in_concat. split.
  - intros (l & (d & <- & Hd)%in_map_iff & Hc). apply filter_In in Hc as [Hr [E%bool_decide_eq_true Ht%String.eqb_eq]%andb_true_iff]. by exists d.
  - intros (d & Hd & E & Hr & Ht). eexists. split; [apply in_map_iff; by exists d|]. apply filter_In. split; [done|].
    rewrite bool_decide_true, Ht, String.eqb_refl by done. done.
Qed.

Lemma in_ancestors k q u : isRow q -> t_team q = team ->
  In u (Nat.iter k (levelUp db team) (seed db team (t_id q))) <-> isRow u /\ t_team u = team /\ up p k (t_id q) = Some (t_id u).
Proof.
  intros Hq Hteam. revert u. induction k as [|k IH]; intros u.
  - cbn [Nat.iter nat_rect up]. rewrite in_seed. split; [intros (H1 & H2 & H3); by rewrite H2|intros (H1 & H2 & [= H3]); done].
  - rewrite Nat.iter_succ, in_levelUp, up_S. split.
    + intros (a & Ha & E & Hr & Ht). apply IH in Ha as (_ & _ & Ha). by rewrite Ha.
    + intros (Hr & Ht & E). destruct (up p k (t_id q)) as [y|] eqn:Ey; [|done]. destruct (path_row k q y Hq Hteam Ey) as (a & Ha & <- & Hat).
      exists a. split; [by apply IH|done].
Qed.
Lemma in_descendants k m c : In c (Nat.iter k (levelDown db team) (seed db team m)) <-> isRow c /\ t_team c = team /\ up p k (t_id c) = Some m.
Proof.
  revert c. induction k as [|k IH]; intros c.
  - cbn [Nat.iter nat_rect up]. rewrite in_seed. split; [intros (H1 & H2 & H3); by rewrite H2|intros (H1 & H2 & [= H3]); done].
  - rewrite Nat.iter_succ, in_levelDown. cbn [up]. split.
    + intros (d & Hd & E & Hr & Ht). apply IH in Hd as (_ & _ & Hd). by rewrite E.
    + intros (Hr & Ht & E). destruct (p (t_id c)) as [y|] eqn:Ey; [|done]. destruct (to_parent db Hok c y Hr Ey) as (d & Hd & <- & Hdt).
      exists d. split; [apply IH; split_and!; [done|congruence|done]|done].
Qed.

(** The depth and the height that the walks measure are those of the tree. *)
Lemma depth_measured D q : (D < TREE_WALK_LIMIT)%nat -> shallow D db -> isRow q -> t_team q = team ->
  exists d : nat, default 0 (maxLevel 0 (levels (levelUp db team) TREE_WALK_LIMIT (seed db team (t_id q)))) = Z.of_nat d /\
    up p d (t_id q) <> None /\ forall k, (d < k)%nat -> up p k (t_id q) = None.
Proof.
  intros HD Hs Hq Hteam. destruct (measured (levelUp db team) TREE_WALK_LIMIT (seed db team (t_id q))) as (d & -> & Hd & Hne & Hk).
  { intros E. apply (in_nil (a := q)). rewrite <- E. by apply in_seed. }
  exists d. split; [done|]. split.
  - destruct (Nat.iter d (levelUp db team) (seed db team (t_id q))) as [|u l] eqn:E; [done|].
    assert (In u (Nat.iter d (levelUp db team) (seed db team (t_id q)))) as Hu by (rewrite E; by left).
    apply (in_ancestors d q u Hq Hteam) in Hu as (_ & _ & ->). done.
  - intros k Hdk. destruct (decide (k <= TREE_WALK_LIMIT)%nat) as [Hle|Hgt]; [|apply (up_none _ (S D)); [lia|by apply Hs]].
    destruct (up p k (t_id q)) as [y|] eqn:E; [|done]. destruct (path_row k q y Hq Hteam E) as (u & Hu & <- & Hut).
    assert (In u (Nat.iter k (levelUp db team) (seed db team (t_id q)))) as Hin by (by apply in_ancestors). by rewrite Hk in Hin by lia.
Qed.
Lemma height_measured D m : (D < TREE_WALK_LIMIT)%nat -> shallow D db -> isRow m -> t_team m = team ->
  exists h : nat, default 0 (maxLevel 0 (levels (levelDown db team) TREE_WALK_LIMIT (seed db team (t_id m)))) = Z.of_nat h /\
    (exists c, isRow c /\ t_team c = team /\ up p h (t_id c) = Some (t_id m)) /\
    forall k c, isRow c -> t_team c = team -> up p k (t_id c) = Some (t_id m) -> (k <= h)%nat.
Proof.
  intros HD Hs Hm Hteam. destruct (measured (levelDown db team) TREE_WALK_LIMIT (seed db team (t_id m))) as (h & -> & Hh & Hne & Hk).
  { intros E. apply (in_nil (a := m)). rewrite <- E. by apply in_seed. }
  exists h. split; [done|]. split.
  - destruct (Nat.iter h (levelDown db team) (seed db team (t_id m))) as [|c l] eqn:E; [done|]. exists c. apply in_descendants. rewrite E. by left.
  - intros k c Hc Hct E. destruct (decide (k <= h)%nat) as [|Hgt]; [done|].
    destruct (decide (k <= TREE_WALK_LIMIT)%nat) as [Hle|]; [|by rewrite (up_none _ (S D)) in E by (lia || by apply Hs)].
    assert (In c (Nat.iter k (levelDown db team) (seed db team (t_id m)))) as Hin by (by apply in_descendants). by rewrite Hk in Hin by lia.
Qed.
Lemma subtree_measured D q m : (D < TREE_WALK_LIMIT)%nat -> shallow D db -> isRow q -> t_team q = team ->
  existsb (isTask (t_id q)) (List.concat (levels (levelDown db team) TREE_WALK_LIMIT (seed db team m))) = true <->
  exists k, up p k (t_id q) = Some m.
Proof.
  intros HD Hs Hq Hteam. rewrite existsb_exists. split.
  - intros (c & (l & Hl & Hc)%in_concat & E%String.eqb_eq). apply list_elem_of_In, list_elem_of_lookup_1 in Hl as [k Hk].
    pose proof (lookup_lt_Some _ _ _ Hk) as Hlt. rewrite levels_length in Hlt. rewrite levels_lookup in Hk by lia. injection Hk as <-.
    apply in_descendants in Hc as (Hr & Ht & Hu). exists k. by rewrite <- E.
  - intros [k Hk]. assert (k <= TREE_WALK_LIMIT)%nat as Hle.
    { destruct (decide (k <= TREE_WALK_LIMIT)%nat) as [|Hgt]; [done|]. by rewrite (up_none _ (S D)) in Hk by (lia || by apply Hs). }
    exists q. split; [|apply String.eqb_refl]. apply in_concat. exists (Nat.iter k (levelDown db team) (seed db team m)). split; [|by apply in_descendants].
    apply list_elem_of_In, (list_elem_of_lookup_2 _ k). by apply levels_lookup.
Qed.
End Measures.

(** ** The tree stays shallow *)

Record tree_inv (D : nat) (s : TreeState) : Prop := {
  tn_ok : tree_ok (ts_db s);
  tn_shallow : shallow D (ts_db s);
  tn_checked : forall team q, In (team, Some q) (ts_checked s) ->
    exists u, In u (tasks (td_world (ts_db s))) /\ t_id u = q /\ t_team u = team /\ up (parentId (ts_db s)) D q = None;
}.

Lemma no_cycle D db t k : shallow D db -> In t (tasks (td_world db)) -> (0 < k)%nat -> up (parentId db) k (t_id t) <> Some (t_id t).
Proof.
  intros Hs Ht Hk E. assert (forall n, up (parentId db) (n * k) (t_id t) = Some (t_id t)) as Hn.
  { induction n as [|n IH]; [done|]. cbn [Nat.mul]. by rewrite up_add, E. }
  specialize (Hn (S D)). by rewrite (up_none _ (S D)) in Hn by (nia || by apply Hs).
Qed.

Lemma parent_after_insert t i db x : parentId (insertTask t i db) x = if decide (x = t_id t) then ti_parent i else parentId db x.
Proof. unfold parentId, insertTask. cbn. case_decide as E; [subst; by rewrite lookup_insert_eq|by rewrite lookup_insert_ne]. Qed.
Lemma parent_after_set m q db x : x <> m -> parentId (setParent m q db) x = parentId db x.
Proof. intros H. unfold parentId, setParent. cbn. by rewrite lookup_alter_ne. Qed.

Lemma insert_tree_inv D team parent t i s : tree_inv D s ->
  match parent with Some q => exists u, In u (tasks (td_world (ts_db s))) /\ t_id u = q /\ t_team u = team /\ up (parentId (ts_db s)) D q = None | None => True end ->
  tree_inv D (mkTreeState (insertChecked team parent t i (ts_db s)) (ts_checked s)).
Proof.
  intros [[Hu Hp] Hs Hc] Hq. unfold insertChecked. destruct (existsb (isTask (t_id t)) (tasks (td_world (ts_db s)))) eqn:Ex; [by split|].
  set (db := ts_db s) in *. set (t' := mkTask (t_id t) (t_status t) (t_assignee t) team (t_identifier t) (t_project_slug t)). set (i' := mkInfo _ parent _ _ _).
  assert (forall u, In u (tasks (td_world db)) -> t_id u <> t_id t) as Hfresh.
  { intros u Hin E. assert (existsb (isTask (t_id t)) (tasks (td_world db)) = true) as Hy; [|by rewrite Hy in Ex].
    apply existsb_exists. exists u. split; [done|]. unfold isTask. by rewrite E, String.eqb_refl. }
  assert (forall x, x <> t_id t -> parentId (insertTask t' i' db) x = parentId db x) as Hagree.
  { intros x Hx. rewrite parent_after_insert. by rewrite decide_False. }
  assert (forall n u, In u (tasks (td_world db)) -> up (parentId (insertTask t' i' db)) n (t_id u) = up (parentId db) n (t_id u)) as Hold.
  { intros n u Hin. apply (up_outside _ _ (t_id t) Hagree). intros k _ E.
    destruct (path_row db (Build_tree_ok _ Hu Hp) (t_team u) k u (t_id t) Hin eq_refl E) as (v & Hv & Ev & _). by apply (Hfresh v). }
  assert (forall u, In u (tasks (td_world (insertTask t' i' db))) <-> In u (tasks (td_world db)) \/ u = t') as Hrows.
  { intros u. cbn. rewrite in_app_iff. cbn. intuition congruence. }
  split; [split| |].
  - cbn. rewrite List.map_app. cbn. apply list.NoDup_app. split; [exact Hu|]. split; [|apply NoDup_singleton].
    intros x (u & <- & Hin)%list_elem_of_In%in_map_iff E%list_elem_of_singleton. by apply (Hfresh u).
  - cbn [ts_db]. intros u y [Hin| ->]%Hrows Hy.
    + rewrite Hagree in Hy by (by apply Hfresh). destruct (Hp u y Hin Hy) as (v & Hv & Ev). exists v. split; [apply Hrows; by left|done].
    + rewrite parent_after_insert, decide_True in Hy by done. cbn in Hy. subst parent. destruct Hq as (v & Hv & Ev & Et & _). exists v. split; [apply Hrows; by left|done].
  - intros u [Hin| ->]%Hrows; [cbn [ts_db]; rewrite Hold by done; by apply Hs|]. cbn [ts_db up]. rewrite parent_after_insert, decide_True by done.
    cbn [ti_parent i']. destruct parent as [q|]; [|done]. cbn [mbind option_bind]. destruct Hq as (v & Hv & <- & _ & Hd). by rewrite Hold.
  - intros team' q Hin. destruct (Hc team' q Hin) as (v & Hv & <- & Et & Hd). exists v. split; [apply Hrows; by left|]. cbn [ts_db]. by rewrite Hold.
Qed.

Lemma createParent_ok D db team raw q : (D < TREE_WALK_LIMIT)%nat -> tree_ok db -> shallow D db -> createParent db team raw = Ok (Some q) ->
  exists u, In u (tasks (td_world db)) /\ t_id u = q /\ t_team u = team /\ up (parentId db) 3 q = None.
Proof.
  intros HD Hok Hs. unfold createParent. destruct (truthy raw) as [r|]; [|done]. destruct (resolveTaskId db team r) as [id|]; [|done].
  unfold assertChildDepthAllowed, depthFits, measureParentPlacement. cbn [pp_found pp_depth pp_height].
  destruct (seed db team id) as [|u l] eqn:Es; [done|]. cbn [negb]. assert (In u (seed db team id)) as (Hu & <- & Ht)%in_seed by (rewrite Es; by left).
  rewrite <- Es. destruct (depth_measured db Hok team D u HD Hs Hu Ht) as (d & -> & _ & Hd).
  destruct (_ <=? MAX_SUB_TASK_DEPTH) eqn:El; [|done]. cbn [negb bind_result]. intros [= <-]. exists u. split_and!; [done..|]. apply Hd.
  change (default 0 (maxLevel 0 (levels (levelDown db team) TREE_WALK_LIMIT []))) with 0 in El. unfold MAX_SUB_TASK_DEPTH in El. lia.
Qed.

(** What an accepted move has checked. *)
Record move_checked (db : TreeDb) (team m q : string) : Prop := {
  mc_parent : exists u, In u (tasks (td_world db)) /\ t_id u = q /\ t_team u = team;
  mc_outside : forall j, up (parentId db) j q <> Some m;
  mc_fits : exists d h : nat, (forall k, (d < k)%nat -> up (parentId db) k q = None) /\
    (forall k c, In c (tasks (td_world db)) -> t_team c = team -> up (parentId db) k (t_id c) = Some m -> (k <= h)%nat) /\ (d + 1 + h <= 3)%nat;
}.

Lemma resolve_checked D db team t raw q : (D < TREE_WALK_LIMIT)%nat -> tree_ok db -> shallow D db -> In t (tasks (td_world db)) -> t_team t = team ->
  resolveParentAssignment db team (subjectOf db t) raw = Ok (Some q, true) -> move_checked db team (t_id t) q.
Proof.
  intros HD Hok Hs Ht Hteam. unfold resolveParentAssignment. destruct (String.eqb _ ""); [done|].
  destruct (resolveTaskId db team _) as [id|]; [|done]. destruct (String.eqb id _); [done|]. case_bool_decide; [done|].
  unfold depthFits, measureParentPlacement. cbn [pp_found pp_projectId pp_inSubtree pp_depth pp_height pp_status rs_taskId subjectOf].
  destruct (seed db team id) as [|u l] eqn:Es; [done|]. cbn [negb]. assert (In u (seed db team id)) as (Hu & <- & Hut)%in_seed by (rewrite Es; by left).
  rewrite <- Es. destruct (negb (bool_decide _)); [done|].
  destruct (existsb _ _) eqn:Ein; [done|]. destruct (depth_measured db Hok team D u HD Hs Hu Hut) as (d & -> & _ & Hd).
  destruct (height_measured db Hok team D t HD Hs Ht Hteam) as (h & -> & _ & Hh). destruct (Z.leb_spec (Z.of_nat d + 1 + Z.of_nat h) MAX_SUB_TASK_DEPTH) as [Hfit|]; [|done].
  cbn [negb]. intros Hr. assert (q = t_id u) as ->.
  { destruct (t_status <$> head (seed db team (t_id u))) as [st|]; [destruct (_ && _); [done|]|]; by injection Hr. }
  split; [by exists u| |].
  - intros j E. assert (existsb (isTask (t_id u)) (List.concat (levels (levelDown db team) TREE_WALK_LIMIT (seed db team (t_id t)))) = true) as Hy; [|by rewrite Hy in Ein].
    apply (subtree_measured db Hok team D); [done|done|done|done|]. by exists j.
  - exists d, h. split_and!; [done|done|]. unfold MAX_SUB_TASK_DEPTH in Hfit. lia.
Qed.

Lemma rows_same db x y : In x (tasks (td_world db)) -> In y (tasks (td_world db)) -> tree_ok db -> t_id x = t_id y -> t_team x = t_team y.
Proof. intros Hx Hy Hok E. by rewrite (same_row db Hok x y Hx Hy E). Qed.

Lemma parent_of_set m q db : is_Some (td_info db !! m) -> parentId (setParent m q db) m = q.
Proof. intros [i Hi]. unfold parentId, setParent. cbn. by rewrite lookup_alter_eq, Hi. Qed.

Lemma setParent_bounded db team t parent E x : tree_ok db -> In t (tasks (td_world db)) -> t_team t = team ->
  match parent with Some q => move_checked db team (t_id t) q | None => True end -> (3 <= E)%nat ->
  In x (tasks (td_world db)) -> up (parentId db) (S E) (t_id x) = None -> up (parentId (setParent (t_id t) parent db)) (S E) (t_id x) = None.
Proof.
  intros Hok Ht Hteam Hm HE Hx Hn. assert (forall y, y <> t_id t -> parentId (setParent (t_id t) parent db) y = parentId db y) as Hagree
    by (intros; by apply parent_after_set).
  destruct (td_info db !! t_id t) as [i|] eqn:Ei.
  - assert (parentId (setParent (t_id t) parent db) (t_id t) = parent) as Hpar by (apply parent_of_set; by eexists).
    destruct parent as [q|]; [|by eapply promote_bounded]. destruct Hm as [_ Hout (d & h & Hd & Hh & Hfit)].
    eapply (move_bounded _ _ (t_id t) Hagree q d h E); [done..| |lia|done]. intros k Hk.
    destruct (path_row db Hok (t_team x) k x (t_id t) Hx eq_refl Hk) as (v & Hv & Ev & Evt). apply (Hh k x Hx); [|done].
    rewrite <- Evt, <- Hteam. by apply (rows_same db).
  - eapply (promote_bounded (parentId db)); [done| |done]. unfold parentId, setParent. cbn. by rewrite lookup_alter_eq, Ei.
Qed.

Lemma setParent_inv D team t parent s : (3 <= D)%nat -> ts_checked s = [] \/ (4 <= D)%nat -> tree_inv D s ->
  In t (tasks (td_world (ts_db s))) -> t_team t = team ->
  match parent with Some q => move_checked (ts_db s) team (t_id t) q | None => True end ->
  tree_inv D (mkTreeState (setParent (t_id t) parent (ts_db s)) (ts_checked s)).
Proof.
  intros HD Hcalm [Hok Hs Hc] Ht Hteam Hm. set (db := ts_db s) in *. split; cbn [ts_db ts_checked].
  - destruct Hok as [Hu Hp]. split; [exact Hu|]. intros u y Hin Hy. destruct (decide (t_id u = t_id t)) as [E|E].
    + assert (u = t) as -> by (by apply (NoDup_fmap_In t_id _ u t Hu)). destruct (td_info db !! t_id t) as [i|] eqn:Ei.
      * rewrite parent_of_set in Hy by (by eexists). subst parent. destruct (mc_parent _ _ _ _ Hm) as (v & Hv & Ev & Et). exists v. by rewrite Hteam.
      * unfold parentId, setParent in Hy. cbn in Hy. by rewrite lookup_alter_eq, Ei in Hy.
    + rewrite parent_after_set in Hy by done. by apply Hp.
  - intros x Hx. apply (setParent_bounded db team t parent D x Hok Ht Hteam Hm HD Hx). by apply Hs.
  - intros team' q Hin. destruct (Hc team' q Hin) as (u & Hu & <- & Et & Hd). exists u. split_and!; [done..|].
    destruct Hcalm as [E|H4]; [by rewrite E in Hin|]. destruct D as [|D]; [lia|].
    apply (setParent_bounded db team t parent D u Hok Ht Hteam Hm ltac:(lia) Hu Hd).
Qed.

Lemma updateParent_inv D team id raw s db' : (3 <= D < TREE_WALK_LIMIT)%nat -> ts_checked s = [] \/ (4 <= D)%nat -> tree_inv D s ->
  updateParent team id raw (ts_db s) = Ok db' -> tree_inv D (mkTreeState db' (ts_checked s)).
Proof.
  intros HD Hcalm Hinv. unfold updateParent. destruct (seed (ts_db s) team id) as [|t l] eqn:Es; [done|]. cbn [head].
  assert (In t (seed (ts_db s) team id)) as (Ht & Hid & Hteam)%in_seed by (rewrite Es; by left).
  destruct (resolveParentAssignment (ts_db s) team (subjectOf (ts_db s) t) raw) as [[parent []]|] eqn:Er; [| |done]; cbn [bind_result fst snd]; intros [= <-];
    [|by destruct s].
  rewrite <- Hid. destruct HD as [HD1 HD2]. apply (setParent_inv D team); [done..|]. destruct parent as [q|]; [|done].
  by apply (resolve_checked D (ts_db s) team t raw q HD2 (tn_ok D s Hinv) (tn_shallow D s Hinv)).
Qed.

(** Creations that check and insert in one go. *)
Definition isAtomic (e : TreeEvent) : bool := match e with CheckCreate _ _ | InsertCreate _ _ _ => false | _ => true end.

Lemma treeStep_inv D s e : (3 <= D < TREE_WALK_LIMIT)%nat -> (ts_checked s = [] /\ isAtomic e = true) \/ (4 <= D)%nat -> tree_inv D s -> tree_inv D (treeStep s e).
Proof.
  intros HD Hcalm Hinv. pose proof Hinv as [Hok Hs Hc]. assert (D < TREE_WALK_LIMIT)%nat as HD2 by lia.
  assert (forall team raw q, createParent (ts_db s) team raw = Ok (Some q) ->
    exists u, In u (tasks (td_world (ts_db s))) /\ t_id u = q /\ t_team u = team /\ up (parentId (ts_db s)) D q = None) as Hcreate.
  { intros team raw q E. destruct (createParent_ok D _ team raw q HD2 Hok Hs E) as (u & H1 & H2 & H3 & H4). exists u. split_and!; [done..|].
    apply (up_none _ 3); [lia|done]. }
  destruct e as [team raw|j t i|t i raw|team id raw]; cbn [treeStep].
  - destruct (createParent (ts_db s) team raw) as [parent|] eqn:E; [|done]. split; cbn [ts_db ts_checked]; [done|done|].
    intros team' q [Hin|[Heq|[]]]%in_app_iff; [by apply Hc|]. injection Heq as -> ->. by apply (Hcreate _ raw).
  - destruct (ts_checked s !! j) as [[team parent]|] eqn:Ej; [|done].
    assert (tree_inv D (mkTreeState (ts_db s) (delete j (ts_checked s)))) as Hd.
    { split; cbn [ts_db ts_checked]; [done|done|]. intros team' q Hin. apply Hc. apply list_elem_of_In. apply list_elem_of_In in Hin.
      by apply list_elem_of_delete_inv in Hin. }
    apply (insert_tree_inv D team parent t i _ Hd). destruct parent as [q|]; [|done]. cbn [ts_db]. apply Hc. apply list_elem_of_In.
    by apply (list_elem_of_lookup_2 _ j).
  - destruct (createParent (ts_db s) (t_team t) raw) as [parent|] eqn:E; [|done]. apply insert_tree_inv; [done|]. destruct parent as [q|]; [|done].
    by apply (Hcreate _ raw).
  - destruct (updateParent team id raw (ts_db s)) as [db'|] eqn:E; [|done]. eapply updateParent_inv; [done| |done|done]. destruct Hcalm as [[]|]; [by left|by right].
Qed.

Definition emptyTree : TreeState := mkTreeState (mkTreeDb (mkWorld [] [] [] [] [] [] 0) ∅) [].

Lemma tree_history D evs : (3 <= D < TREE_WALK_LIMIT)%nat -> (4 <= D)%nat \/ forallb isAtomic evs = true -> forall s, tree_inv D s -> ts_checked s = [] \/ (4 <= D)%nat ->
  tree_inv D (fold_left treeStep evs s).
Proof.
  intros HD. induction evs as [|e evs IH]; intros Ha s Hinv Hc; [done|]. cbn [fold_left forallb] in *.
  assert ((4 <= D)%nat \/ isAtomic e = true /\ forallb isAtomic evs = true) as Ha' by (destruct Ha as [|Ha]; [by left|right; by apply andb_true_iff]).
  apply IH.
  - destruct Ha' as [|[]]; auto.
  - apply treeStep_inv; [done| |done]. destruct Ha' as [|[He _]]; [by right|]. destruct Hc as [Hc|]; [by left|by right].
  - destruct Ha' as [|[He _]]; [by right|]. destruct Hc as [Hc|]; [|by right]. left. destruct e as [| |t i raw|team id raw]; [done|done| |]; cbn [treeStep].
    + by destruct (createParent (ts_db s) (t_team t) raw).
    + by destruct (updateParent team id raw (ts_db s)).
Qed.

(** C25. However creations and moves of tasks interleave, the sub-tasks form trees: no task is
    above itself, a parent is of the same team, and no task is more than one level deeper than
    the cap. Where no other write comes between the check of a creation and its insertion, none
    is deeper than the cap. *)
Theorem subtask_trees_stay_shallow evs : let db := ts_db (fold_left treeStep evs emptyTree) in
  (forall t, In t (tasks (td_world db)) ->
     up (parentId db) (Z.to_nat MAX_SUB_TASK_DEPTH + 2) (t_id t) = None /\
     (forall k, (0 < k)%nat -> up (parentId db) k (t_id t) <> Some (t_id t)) /\
     (forall y, parentId db (t_id t) = Some y -> exists u, In u (tasks (td_world db)) /\ t_id u = y /\ t_team u = t_team t)) /\
  (forallb isAtomic evs = true -> forall t, In t (tasks (td_world db)) -> up (parentId db) (Z.to_nat MAX_SUB_TASK_DEPTH + 1) (t_id t) = None).
Proof.
  intros db. assert (forall D, tree_inv D emptyTree) as H0 by (intros D; split; [split; [constructor|done]|done|done]). split.
  - intros t Ht. destruct (tree_history 4 evs ltac:(unfold TREE_WALK_LIMIT; lia) (or_introl (le_n 4)) emptyTree (H0 4%nat) (or_introl eq_refl)) as [Hok Hs _].
    split_and!; [by apply Hs|intros k; by apply (no_cycle 4)|intros y; by apply (to_parent _ Hok)].
  - intros Ha t Ht. destruct (tree_history 3 evs ltac:(unfold TREE_WALK_LIMIT; lia) (or_intror Ha) emptyTree (H0 3%nat) (or_introl eq_refl)) as [_ Hs _]. by apply Hs.
Qed.

(** Where a task may be moved: another task of its team and project, not below it, such that no
    path through the new edge is longer than the cap, and not a closed one for an open task. *)
Record nestable (db : TreeDb) (team : string) (t u : Task) : Prop := {
  ne_row : In u (tasks (td_world db)) /\ t_team u = team;
  ne_other : t_id u <> t_id t /\ parentId db (t_id t) <> Some (t_id u);
  ne_project : projectId db (t_id u) = Some (default "" (projectId db (t_id t)));
  ne_outside : forall k, up (parentId db) k (t_id u) <> Some (t_id t);
  ne_fits : forall a b c, up (parentId db) a (t_id u) <> None -> In c (tasks (td_world db)) -> up (parentId db) b (t_id c) = Some (t_id t) ->
    Z.of_nat a + 1 + Z.of_nat b <= MAX_SUB_TASK_DEPTH;
  ne_open : taskTerminal (t_status u) = true -> taskTerminal (t_status t) = true;
}.

Lemma head_seed db team u : tree_ok db -> In u (tasks (td_world db)) -> t_team u = team -> head (seed db team (t_id u)) = Some u.
Proof.
  intros Hok Hu Ht. destruct (seed db team (t_id u)) as [|v l] eqn:E.
  - destruct (in_nil (a := u)). rewrite <- E. by apply in_seed.
  - assert (In v (seed db team (t_id u))) as (Hv & Hid & _)%in_seed by (rewrite E; by left). cbn. f_equal. by apply (same_row db).
Qed.

(** C26. A requested parent is accepted exactly when the task may be nested there: the two bounded
    walks decide the rules of the whole tree. *)
Theorem parent_assignment_exact db team t raw q : tree_ok db -> shallow 4 db -> In t (tasks (td_world db)) -> t_team t = team -> trim raw <> "" ->
  resolveParentAssignment db team (subjectOf db t) (Some raw) = Ok (Some q, true) <->
  resolveTaskId db team (trim raw) = Some q /\ exists u, t_id u = q /\ nestable db team t u.
Proof.
  intros Hok Hs Ht Hteam Hraw. assert (4 < TREE_WALK_LIMIT)%nat as HD by (unfold TREE_WALK_LIMIT; lia).
  unfold resolveParentAssignment. rewrite (proj2 (String.eqb_neq _ _) Hraw). destruct (resolveTaskId db team (trim raw)) as [id|]; [|by split; [|intros [? _]]].
  cbn [rs_taskId rs_currentParent rs_projectId rs_status subjectOf].
  destruct (height_measured db Hok team 4 t HD Hs Ht Hteam) as (h & Eh & (c0 & Hc0 & Hc0t & Hc0u) & Hh).
  assert (seed db team id = [] \/ exists u, In u (tasks (td_world db)) /\ t_id u = id /\ t_team u = team) as [Es|(u & Hu & <- & Hut)].
  { destruct (seed db team id) as [|u l] eqn:E; [by left|]. right. exists u. apply in_seed. rewrite E. by left. }
  { unfold measureParentPlacement. rewrite Es. cbn [pp_found negb]. split.
       - destruct (String.eqb id _); [done|]. by case_bool_decide.
       - intros ([= <-] & u & Eu & [[Hu Hut] _ _ _ _ _]). destruct (in_nil (a := u)). rewrite <- Es. by apply in_seed. }
  destruct (depth_measured db Hok team 4 u HD Hs Hu Hut) as (d & Ed & Hdn & Hd). pose proof (subtree_measured db Hok team 4 u (t_id t) HD Hs Hu Hut) as Hin.
  unfold depthFits, measureParentPlacement. cbn [pp_found pp_projectId pp_inSubtree pp_depth pp_height pp_status]. rewrite (head_seed db team u Hok Hu Hut), Eh, Ed.
  cbn [mbind option_bind fmap option_fmap option_map].
  assert (match seed db team (t_id u) with [] => false | _ => true end = true) as -> by (pose proof (head_seed db team u Hok Hu Hut); by destruct (seed db team (t_id u))).
  cbn [negb]. split.
  - destruct (String.eqb_spec (t_id u) (t_id t)) as [|Hne]; [done|]. case_bool_decide as Hcur; [done|]. case_bool_decide as Hproj; [|done]. cbn [negb].
    destruct (existsb _ _) eqn:Ein; [done|]. destruct (Z.leb_spec (Z.of_nat d + 1 + Z.of_nat h) MAX_SUB_TASK_DEPTH) as [Hfit|]; [|done]. cbn [negb].
    destruct (taskTerminal (t_status u) && negb (taskTerminal (t_status t))) eqn:Ec; [done|]. intros [= <-]. split; [done|]. exists u. split; [done|].
    split; [done|done|done| | |].
    + intros k E. discriminate (proj2 Hin (ex_intro _ k E)).
    + intros a b c Ha Hc Hb. assert (a <= d)%nat by (destruct (decide (a <= d)%nat) as [|n]; [done|]; destruct Ha; apply Hd; lia).
      assert (b <= h)%nat; [|lia]. apply (Hh b c Hc); [|done].
      destruct (path_row db Hok (t_team c) b c (t_id t) Hc eq_refl Hb) as (v & Hv & Ev & Evt). rewrite <- Evt, <- Hteam. by apply (rows_same db).
    + intros E. rewrite E in Ec. by apply negb_false_iff in Ec.
  - intros ([= <-] & v & Ev & [[Hv Hvt] [Hne Hcur] Hproj Hout Hfit Hopen]). rewrite Ev in *.
    assert (v = u) as -> by (by apply (same_row db)). rewrite (proj2 (String.eqb_neq _ _) Hne), (bool_decide_false _ Hcur), (bool_decide_true _ Hproj). cbn [negb].
    destruct (existsb _ _) eqn:Ein; [destruct (proj1 Hin eq_refl) as [k Hk]; by apply Hout in Hk|].
    rewrite (proj2 (Z.leb_le _ _) (Hfit d h c0 Hdn Hc0 Hc0u)). cbn [negb]. destruct (taskTerminal (t_status u)); [by rewrite Hopen|done].
Qed.

(** ** Concrete trees *)

Definition demo_task (id identifier : string) (s : TaskStatus) : Task := mkTask id s None "team" identifier "proj".
Definition demo_info (created : Z) : TaskInfo := mkInfo "P" None created [] "".
Definition demo_create (id identifier : string) (parent : option string) : TreeEvent := Create (demo_task id identifier Backlog) (demo_info 0) parent.
(** BE-1 with BE-2 below it, and BE-3 with BE-4 below it and BE-5 below that. *)
Definition demo_tree : TreeState := fold_left treeStep
  [demo_create "a" "BE-1" None; demo_create "b" "BE-2" (Some "be-1"); demo_create "c" "BE-3" None; demo_create "d" "BE-4" (Some "BE-3");
   demo_create "e" "BE-5" (Some "BE-4")] emptyTree.

Lemma demo_tree_ok : tree_inv 4 demo_tree.
Proof.
  apply tree_history; [unfold TREE_WALK_LIMIT; lia|left; lia| |by left]. split; [split; [constructor|done]|done|done].
Qed.

Lemma parent_assignment_exact_witness : exists t, In t (tasks (td_world (ts_db demo_tree))) /\
  resolveTaskId (ts_db demo_tree) "team" (trim " BE-1 ") = Some "a" /\ exists u, t_id u = "a" /\ nestable (ts_db demo_tree) "team" t u.
Proof.
  exists (demo_task "d" "BE-4" Backlog). assert (In (demo_task "d" "BE-4" Backlog) (tasks (td_world (ts_db demo_tree)))) as Ht by (vm_compute; tauto).
  split; [exact Ht|]. apply (parent_assignment_exact (ts_db demo_tree) "team" (demo_task "d" "BE-4" Backlog) " BE-1 " "a" (tn_ok 4 _ demo_tree_ok) (tn_shallow 4 _ demo_tree_ok) Ht eq_refl).
  - vm_compute. discriminate.
  - vm_compute. reflexivity.
Defined.

(** A creation checked before its parent moves lands a level below the cap. *)
Lemma late_insert_exceeds_cap :
  let s := fold_left treeStep [CheckCreate "team" (Some "BE-1"); Reparent "team" "a" (Some "BE-5"); Reparent "team" "b" None;
    Reparent "team" "a" (Some "BE-5"); InsertCreate 0 (demo_task "f" "BE-6" Backlog) (demo_info 0)] demo_tree in
  up (parentId (ts_db s)) 4 "f" = Some "c".
Proof. vm_compute. reflexivity. Qed.
