(* ===== verification/RunRows.v ===== *)
(** * Rows of runs, comments and people

    The tables the dispatch rules read: [heartbeat_runs], [task_comments], [admin_mentions],
    [member_users], [member_agents] and the team of each task, with the enumerations of
    [packages/shared/src/types/common.ts] and [constants.ts] they hold. Instants are
    microseconds; a nullable column is an [option]. A UUID is its text. *)
From Stdlib Require Import ZArith Lia Ascii String List Bool.
From stdpp Require Import base list strings gmap option.
From S2P Require Import Prelude Sql JsString Wakeups.

Open Scope string_scope.
Open Scope list_scope.
Open Scope Z_scope.

Inductive HeartbeatRunStatus := RunQueued | RunRunning | RunSucceeded | RunFailed | RunCancelled | RunTimedOut.
Inductive HeartbeatRunKind := KindTask | KindProgressUpdate | KindRetrospective.
Inductive RunCancelReason := OperatorTerminated | WorkWithdrawn | HandedBack | Abandoned.
Inductive CommentContentType :=
| TextComment | Preview | SystemComment | RunComment | ActionComment | CredentialRequest | ConnectRequired
| AssetDeletionRequest.

#[export] Instance HeartbeatRunStatus_eq_dec : EqDecision HeartbeatRunStatus.
Proof. solve_decision. Defined.
#[export] Instance HeartbeatRunKind_eq_dec : EqDecision HeartbeatRunKind.
Proof. solve_decision. Defined.
#[export] Instance RunCancelReason_eq_dec : EqDecision RunCancelReason.
Proof. solve_decision. Defined.
#[export] Instance CommentContentType_eq_dec : EqDecision CommentContentType.
Proof. solve_decision. Defined.

Record HeartbeatRun := mkHeartbeatRun {
  hr_id : string; hr_member : string; hr_team : string; hr_task : option string; hr_wakeup : option string;
  hr_kind : HeartbeatRunKind; hr_status : HeartbeatRunStatus; hr_created : Z; hr_started : option Z;
  hr_finished : option Z; hr_no_work : bool; hr_cancel : option RunCancelReason; hr_stop : option string;
  hr_input : Z; hr_output : Z; hr_retries : Z; hr_error : option string; hr_exit : option Z;
  hr_retry_of : option string
}.

(** [tc_chosen] says whether [chosen_option] is set; [tc_kind] is [content->>'kind']. *)
Record TaskComment := mkTaskComment {
  tc_id : string; tc_task : string; tc_created : Z; tc_run : option string; tc_member : option string;
  tc_user : option string; tc_api_key : option string; tc_chosen_at : option Z; tc_chosen_by : option string;
  tc_chosen : bool; tc_type : CommentContentType; tc_kind : option string
}.

(** [member_users] joined to [members]: a person's seat in a team. *)
Record MemberUser := mkMemberUser { mu_id : string; mu_user : string; mu_team : string; mu_admin : bool }.

Record AgentHandle := mkAgentHandle { ag_id : string; ag_slug : string; ag_interval : Z }.

(** [db_choice_from] is the [system_meta] value under the choice-attribution key. *)
Record TaskDb := mkTaskDb {
  db_runs : list HeartbeatRun; db_comments : list TaskComment; db_wakes : Table;
  db_mentions : list (string * string); db_task_team : list (string * string); db_superusers : list string;
  db_users : list MemberUser; db_agents : list AgentHandle; db_choice_from : option Z
}.

Definition with_runs (rs : list HeartbeatRun) (db : TaskDb) : TaskDb :=
  mkTaskDb rs (db_comments db) (db_wakes db) (db_mentions db) (db_task_team db) (db_superusers db) (db_users db)
    (db_agents db) (db_choice_from db).
Definition with_comments (cs : list TaskComment) (db : TaskDb) : TaskDb :=
  mkTaskDb (db_runs db) cs (db_wakes db) (db_mentions db) (db_task_team db) (db_superusers db) (db_users db)
    (db_agents db) (db_choice_from db).
Definition with_wakeups (ws : Table) (db : TaskDb) : TaskDb :=
  mkTaskDb (db_runs db) (db_comments db) ws (db_mentions db) (db_task_team db) (db_superusers db) (db_users db)
    (db_agents db) (db_choice_from db).
Definition with_mentions (ms : list (string * string)) (db : TaskDb) : TaskDb :=
  mkTaskDb (db_runs db) (db_comments db) (db_wakes db) ms (db_task_team db) (db_superusers db) (db_users db)
    (db_agents db) (db_choice_from db).

(** [SELECT team_id FROM tasks WHERE id = $1]. *)
Definition teamOfTask (db : TaskDb) (task : string) : option string :=
  snd <$> List.find (fun p => String.eqb (fst p) task) (db_task_team db).

(** [x = $1] for a nullable column. *)
Definition equals (a : option string) (s : string) : bool := bool_decide (a = Some s).

Definition wakeupOf (db : TaskDb) (id : option string) : option Wakeup :=
  match id with None => None | Some i => List.find (hasId i) (db_wakes db) end.
