(* ===== verification/LogCompaction.v ===== *)
(** * Compacting the logs of old runs

    A model of [packages/server/src/services/log-compaction.ts]: the compacted form of a log, a
    batch, the markers of a pass and one tick of the drain. The stored size of a text, the
    outcome of a rewrite and the figures of the disk are parameters. A tick runs to its end:
    the runs it takes are finished and nothing else writes their logs. What the tables hold may
    be any text, which by the rules of the database has no NUL. *)
From Stdlib Require Import ZArith Lia Ascii String List Bool Permutation Sorted.
From stdpp Require Import base list strings gmap option.
From S2P Require Import Prelude JsString RunRows JsonText LogBuffer RunLogChunks.

Open Scope string_scope.
Open Scope list_scope.
Open Scope Z_scope.

Definition DEFAULT_LOG_COMPACTION_RETENTION_DAYS : Z := 30.
Definition LOG_COMPACTION_RETENTION_MIN_DAYS : Z := 1.
Definition LOG_COMPACTION_RETENTION_MAX_DAYS : Z := 365.
Definition TOAST_THRESHOLD_BYTES : Z := 2000.
Definition REWRITE_ATTEMPTS : nat := 5.
Definition US_PER_DAY : Z := 86400 * US_PER_SEC.

(** [None] is a value that is not finite; [Some (n, d)] is [n / d] with [0 < d]. [Math.round]
    rounds halves up. *)
Definition clampRetentionDays (value : option (Z * Z)) : Z :=
  match value with
  | None => DEFAULT_LOG_COMPACTION_RETENTION_DAYS
  | Some (n, d) => Z.min LOG_COMPACTION_RETENTION_MAX_DAYS (Z.max LOG_COMPACTION_RETENTION_MIN_DAYS ((2 * n + d) / (2 * d)))
  end.

(** ** The compacted form *)

Definition BAR : text := List.repeat 9552 60.
Definition COMPACTED_NOTICE (date : text) (hadCommand : bool) : text :=
  joinLines
    [BAR;
     units "  " ++ [9432] ++ units " THIS RUN LOG HAS BEEN COMPACTED";
     units "  The full step-by-step output was trimmed on " ++ date ++ units " to reduce";
     units "  database size. Kept below:" ++ (if hadCommand then units " the command that launched this run," else []);
     (if hadCommand then units "  and the final portion of the log (the run's summary and" else units "  the final portion of the log (the run's summary and");
     units "  outcome). The trimmed detail cannot be recovered.";
     BAR].

(** [s.trim()]. *)
Definition isTrimUnit (u : Z) : bool :=
  ((9 <=? u) && (u <=? 13)) || bool_decide (u ∈ [32; 160; 5760; 8232; 8233; 8239; 8287; 12288; 65279]) || ((8192 <=? u) && (u <=? 8202)).
Fixpoint dropSpace (s : text) : text :=
  match s with
  | [] => []
  | u :: r => if isTrimUnit u then dropSpace r else s
  end.
Definition trimUnits (s : text) : text := rev (dropSpace (rev (dropSpace s))).

(** [s.indexOf('\n')]. *)
Fixpoint indexOfBreak (s : text) : option nat :=
  match s with
  | [] => None
  | u :: r => if u =? LF then Some O else S <$> indexOfBreak r
  end.

(** The end of the log, from a line boundary on. *)
Definition alignedTail (preserved : Z) (s : text) : text :=
  let tail := sliceOf (tlen s - preserved) s in
  match indexOfBreak tail with
  | Some n => if Z.of_nat n <? tlen tail - 1 then drop (S n) tail else tail
  | None => tail
  end.

Definition computeCompactedLog (logText : text) (invocationCommand : option text) (preserved : Z) (date : text) (originalLength : option Z) : text :=
  if default (tlen logText) originalLength <=? preserved then logText
  else
    let command := match invocationCommand with Some c => trimUnits c | None => [] end in
    let hadCommand := negb (isEmptyText command) in
    let blocks := [COMPACTED_NOTICE date hadCommand] ++ (if hadCommand then [units "$ " ++ command] else []) ++ [alignedTail preserved logText] in
    let compacted := List.concat (List.map (fun b => b ++ [LF; LF]) (List.removelast blocks)) ++ List.last blocks [] in
    match originalLength with
    | Some _ => compacted
    | None => if tlen compacted <? tlen logText then compacted else logText
    end.

(** ** Batches *)

Record CompactRun := mkCompactRun {
  cr_id : string; cr_status : HeartbeatRunStatus; cr_created : Z; cr_compacted : option Z; cr_command : option text
}.
Record CompactDb := mkCompactDb { cp_logs : LogDb; cp_runs : list CompactRun }.

Definition isTerminalRun (s : HeartbeatRunStatus) : bool := bool_decide (s ∈ [RunSucceeded; RunFailed; RunCancelled; RunTimedOut]).

Section Compaction.
(** [pg_column_size]: the stored size of a text, compressed. *)
Variable columnSize : list Z -> Z.
Variable preservedBytes : Z.

Definition storedBytes (run : string) (db : CompactDb) : Z := sumZ (fun c => columnSize (ck_content c)) (runChunks run (cp_logs db)).
Definition compactable (now olderThanDays : Z) (db : CompactDb) (r : CompactRun) : bool :=
  bool_decide (cr_compacted r = None) && isTerminalRun (cr_status r) && (TOAST_THRESHOLD_BYTES <? storedBytes (cr_id r) db)
  && (cr_created r <? now - olderThanDays * US_PER_DAY).
Definition countCompactableRuns (now olderThanDays : Z) (db : CompactDb) : Z := Z.of_nat (List.length (List.filter (compactable now olderThanDays db) (cp_runs db))).

Definition oldestRun (a b : CompactRun) : Z := cr_created a - cr_created b.
Definition batchRows (now olderThanDays limit : Z) (db : CompactDb) : list (CompactRun * Z) :=
  List.map (fun r => (r, runLogLength (cr_id r) (cp_logs db)))
    (take (Z.to_nat limit) (js_sort oldestRun (List.filter (compactable now olderThanDays db) (cp_runs db)))).

Definition stampCompacted (now : Z) (id : string) (db : CompactDb) : CompactDb :=
  mkCompactDb (cp_logs db)
    (List.map (fun r => if String.eqb (cr_id r) id then mkCompactRun (cr_id r) (cr_status r) (cr_created r) (Some now) (cr_command r) else r) (cp_runs db)).

(** One run: its compacted log and the bytes that saves; [None] when the write is refused. *)
Definition compactRun (now : Z) (date : text) (row : CompactRun * Z) (db : CompactDb) : option (CompactDb * Z) :=
  let '(r, logLength) := row in
  tail ← readRunLogTail (cr_id r) preservedBytes (cp_logs db);
  let compacted := computeCompactedLog (ta_text tail) (cr_command r) preservedBytes date (Some logLength) in
  logs ← replaceRunLog (cr_id r) compacted (cp_logs db);
  Some (stampCompacted now (cr_id r) (mkCompactDb logs (cp_runs db)), Z.max 0 (logLength - tlen compacted)).

Fixpoint compactRows (now : Z) (date : text) (rows : list (CompactRun * Z)) (db : CompactDb) : CompactDb * option Z :=
  match rows with
  | [] => (db, Some 0)
  | row :: rows =>
      match compactRun now date row db with
      | None => (db, None)
      | Some (db, n) => match compactRows now date rows db with
                        | (db, Some m) => (db, Some (n + m))
                        | (db, None) => (db, None)
                        end
      end
  end.

(** The rows processed and the bytes saved; [None] when it throws, with the runs before it done. *)
Definition compactRunLogsBatch (now : Z) (date : text) (olderThanDays limit : Z) (db : CompactDb) : CompactDb * option (Z * Z) :=
  let rows := batchRows now olderThanDays limit db in
  let '(db, bytes) := compactRows now date rows db in
  (db, (fun n => (Z.of_nat (List.length rows), n)) <$> bytes).

(** ** A pass *)

Inductive RunLogPassPhase := Trimming | Rewriting.
Inductive RewriteFailureReason := Busy | NotOwner | RewriteFailed.
Record RunLogRewriteFailure := mkRewriteFailure { rw_reason : RewriteFailureReason; rw_table : string; rw_message : option text }.
Record RunLogUsageFigures := mkFigures { uf_database : option Z; uf_runLog : Z; uf_runs : Z }.

(** The active marker: of a compaction, or of a rewrite alone. *)
Inductive CompactionState :=
| CompactPass (phase : RunLogPassPhase) (startedAt olderThanDays total processed trimmedBytes : Z) (usage : option RunLogUsageFigures)
| ReclaimPass (startedAt : Z) (usage : option RunLogUsageFigures).
(** ... and the marker of an earlier release. *)
Inductive StoredMarker := CurrentMarker (s : CompactionState) | PreKindMarker (startedAt olderThanDays total processed bytesReclaimed : Z).

Inductive LastCompaction :=
| FinishedCompact (finishedAt olderThanDays processed : Z) (trimmedBytes diskBytesFreed : option Z) (failure : option RunLogRewriteFailure)
| FinishedReclaim (finishedAt : Z) (diskBytesFreed : option Z) (failure : option RunLogRewriteFailure).
Inductive StoredLast := CurrentLast (l : LastCompaction) | PreKindLast (finishedAt olderThanDays processed bytesReclaimed : Z).

Record PassDb := mkPassDb { ps_db : CompactDb; ps_active : option StoredMarker; ps_last : option StoredLast }.
Inductive StorageBackend := Embedded | External.

Definition getActiveCompaction (db : PassDb) : option CompactionState :=
  match ps_active db with
  | None => None
  | Some (CurrentMarker s) => Some s
  | Some (PreKindMarker startedAt days total processed bytes) => Some (CompactPass Trimming startedAt days total processed bytes None)
  end.
Definition getLastCompaction (backend : StorageBackend) (db : PassDb) : option LastCompaction :=
  match ps_last db with
  | None => None
  | Some (CurrentLast l) => Some l
  | Some (PreKindLast finishedAt days processed bytes) =>
      Some match backend with
           | Embedded => FinishedCompact finishedAt days processed None (Some bytes) None
           | External => FinishedCompact finishedAt days processed (Some bytes) None None
           end
  end.

Definition writeActive (s : CompactionState) (db : PassDb) : PassDb := mkPassDb (ps_db db) (Some (CurrentMarker s)) (ps_last db).
Definition startCompaction (now olderThanDays : Z) (db : PassDb) : PassDb :=
  writeActive (CompactPass Trimming now olderThanDays (countCompactableRuns now olderThanDays (ps_db db)) 0 0 None) db.

(** The figures read from the catalog, and what the rewrite of each table comes to at each
    attempt: rewritten, skipped (and whether the user owns the table), or an error. *)
Inductive VacuumOutcome := Rewritten | Skipped (mayRewrite : bool) | VacuumError (message : text).
Variable figures : PassDb -> RunLogUsageFigures.

Definition startSpaceReclaim (now : Z) (db : PassDb) : PassDb := writeActive (ReclaimPass now (Some (figures db))) db.

Fixpoint rewriteTable (attempts : nat) (table : string) (outcomes : nat -> VacuumOutcome) : option RunLogRewriteFailure :=
  match attempts with
  | O => Some (mkRewriteFailure Busy table None)
  | S rest =>
      match outcomes (REWRITE_ATTEMPTS - attempts)%nat with
      | VacuumError m => Some (mkRewriteFailure RewriteFailed table (Some m))
      | Rewritten => None
      | Skipped false => Some (mkRewriteFailure NotOwner table None)
      | Skipped true => rewriteTable rest table outcomes
      end
  end.

Definition RUN_LOG_TABLES : list string := ["heartbeat_run_log_chunks"; "heartbeat_runs"].
Fixpoint rewriteTables (tables : list string) (outcomes : string -> nat -> VacuumOutcome) : option RunLogRewriteFailure :=
  match tables with
  | [] => None
  | t :: tables => match rewriteTable REWRITE_ATTEMPTS t (outcomes t) with Some f => Some f | None => rewriteTables tables outcomes end
  end.
Record RunLogRewriteResult := mkRewriteResult { rr_diskBytesFreed : Z; rr_failure : option RunLogRewriteFailure }.
Definition rewriteRunLogTables (before after : Z) (outcomes : string -> nat -> VacuumOutcome) : RunLogRewriteResult :=
  mkRewriteResult (Z.max 0 (before - after)) (rewriteTables RUN_LOG_TABLES outcomes).

Definition finishPass (now : Z) (s : CompactionState) (rewrite : option RunLogRewriteResult) (db : PassDb) : PassDb :=
  let freed := rr_diskBytesFreed <$> rewrite in
  let failure := rewrite ≫= rr_failure in
  mkPassDb (ps_db db) None
    (Some (CurrentLast match s with
                       | CompactPass _ _ days _ processed trimmed _ => FinishedCompact now days processed (Some trimmed) freed failure
                       | ReclaimPass _ _ => FinishedReclaim now freed failure
                       end)).

(** The trimming loop of a tick. [inr] when it stops without an error: the state, and whether
    the backlog is drained. *)
Fixpoint trimLoop (fuel : nat) (now : Z) (date : text) (batchSize maxRunsPerTick done_ : Z) (phase : RunLogPassPhase)
    (startedAt days total processed trimmed : Z) (usage : option RunLogUsageFigures) (db : PassDb) : PassDb * option (CompactionState * bool) :=
  let s := CompactPass phase startedAt days total processed trimmed usage in
  match fuel with
  | O => (db, None)
  | S fuel =>
      if done_ <? maxRunsPerTick then
        match compactRunLogsBatch now date days batchSize (ps_db db) with
        | (cdb, None) => (mkPassDb cdb (ps_active db) (ps_last db), None)
        | (cdb, Some (n, bytes)) =>
            let db := mkPassDb cdb (ps_active db) (ps_last db) in
            if n =? 0 then (db, Some (s, true))
            else
              let s := CompactPass phase startedAt days total (processed + n) (trimmed + bytes) usage in
              trimLoop fuel now date batchSize maxRunsPerTick (done_ + n) phase startedAt days total (processed + n) (trimmed + bytes) usage
                (writeActive s db)
        end
      else (db, Some (s, false))
  end.

Definition rewriteAndFinish (now : Z) (before after : Z) (outcomes : string -> nat -> VacuumOutcome) (s : CompactionState) (db : PassDb) : PassDb :=
  finishPass now s (Some (rewriteRunLogTables before after outcomes)) db.

(** A tick, with fuel for the batches it may take. *)
Definition runLogCompactionTick (now : Z) (date : text) (backend : StorageBackend) (batchSize maxRunsPerTick before after : Z)
    (outcomes : string -> nat -> VacuumOutcome) (db : PassDb) : PassDb :=
  match getActiveCompaction db with
  | None => db
  | Some (CompactPass Trimming startedAt days total processed trimmed usage) =>
      match trimLoop (S (List.length (cp_runs (ps_db db)))) now date batchSize maxRunsPerTick 0 Trimming startedAt days total processed trimmed usage db with
      | (db, None) => db
      | (db, Some (s, false)) => db
      | (db, Some (s, true)) =>
          match backend, s with
          | External, _ => finishPass now s None db
          | Embedded, CompactPass _ startedAt days total processed trimmed _ =>
              let s := CompactPass Rewriting startedAt days total processed trimmed (Some (figures db)) in
              rewriteAndFinish now before after outcomes s (writeActive s db)
          | Embedded, ReclaimPass _ _ => db
          end
      end
  | Some s => rewriteAndFinish now before after outcomes s db
  end.
End Compaction.

(** ** The compacted form of a log *)

Lemma break_bound s n : indexOfBreak s = Some n -> (n < List.length s)%nat.
Proof.
  revert n. induction s as [|u s IH]; intros n; [done|]. cbn [indexOfBreak]. destruct (u =? LF); [intros [= <-]; cbn; lia|].
  destruct (indexOfBreak s) as [m|]; [|done]. intros [= <-]. specialize (IH m eq_refl). cbn. lia.
Qed.

Lemma alignedTail_suffix preserved s : exists pre, s = pre ++ alignedTail preserved s.
Proof.
  unfold alignedTail. set (k := Z.to_nat (tlen s - preserved)). change (sliceOf (tlen s - preserved) s) with (drop k s).
  assert (exists pre, s = pre ++ drop k s) as Hd by (exists (take k s); by rewrite take_drop).
  destruct (indexOfBreak (drop k s)) as [n|]; [|done]. destruct (_ <? _); [|done].
  rewrite drop_drop. exists (take (k + S n) s). by rewrite take_drop.
Qed.
Lemma alignedTail_bound preserved s : 0 <= preserved -> tlen (alignedTail preserved s) <= preserved.
Proof.
  intros H. unfold alignedTail, sliceOf, tlen. assert (Z.of_nat (List.length (drop (Z.to_nat (Z.of_nat (List.length s) - preserved)) s)) <= preserved) as Hl.
  { rewrite length_drop. lia. }
  destruct (indexOfBreak _) as [n|]; [|done]. destruct (_ <? _); [|done]. rewrite length_drop. lia.
Qed.

(** A text without a NUL, which the database can hold. *)
Definition nulFree (s : list Z) : Prop := List.Forall (fun u => u <> 0) s.

Lemma storable_nul l : storable l = true <-> nulFree l.
Proof.
  unfold storable, nulFree. rewrite negb_true_iff, existsb_false_iff, List.Forall_forall. split; intros H u Hu; specialize (H u Hu).
  - by apply Z.eqb_neq, not_eq_sym in H.
  - by apply Z.eqb_neq, not_eq_sym.
Qed.
Lemma nul_app s t : nulFree (s ++ t) <-> nulFree s /\ nulFree t.
Proof. apply List.Forall_app. Qed.
Lemma nul_check s : forallb (fun u => negb (u =? 0)) s = true -> nulFree s.
Proof. intros H. apply List.Forall_forall. intros u Hu. rewrite forallb_forall in H. specialize (H u Hu). lia. Qed.

(** Sending a text and reading it back bring in no NUL. *)
Lemma nul_sent s : nulFree s -> nulFree (toCodePoints s).
Proof.
  enough (forall n s, (List.length s < n)%nat -> nulFree s -> nulFree (toCodePoints s)) as H by (apply (H (S (List.length s))); lia).
  induction n as [|n IH]; [lia|]. clear s. intros [|u s] Hl Hs; [constructor|]. apply List.Forall_cons_iff in Hs as [Hu Hs].
  cbn [toCodePoints List.length] in *. destruct (isHigh u) eqn:Eh.
  - destruct s as [|v s]; [by repeat constructor|]. destruct (isLow v) eqn:El.
    + apply List.Forall_cons_iff in Hs as [_ Hs]. constructor; [unfold isHigh, isLow in *; lia|]. apply IH; [cbn in Hl; lia|done].
    + constructor; [done|]. apply IH; [lia|done].
  - constructor; [by destruct (isLow u)|]. apply IH; [lia|done].
Qed.
Lemma nul_read l : nulFree l -> nulFree (fromCodePoints l).
Proof.
  induction 1 as [|c l Hc _ IH]; [constructor|]. change (nulFree (unitsOf c ++ fromCodePoints l)). apply nul_app. split; [|done].
  unfold unitsOf. destruct (Z.ltb_spec c 65536) as [H|H]; [by repeat constructor|].
  pose proof (Z.div_pos (c - 65536) 1024 ltac:(lia) ltac:(lia)). pose proof (Z.mod_pos_bound (c - 65536) 1024 ltac:(lia)).
  repeat constructor; lia.
Qed.

Lemma nul_suffix s pre t : s = pre ++ t -> nulFree s -> nulFree t.
Proof. intros -> H. by apply nul_app in H as [_ H]. Qed.
Lemma dropSpace_suffix s : exists pre, s = pre ++ dropSpace s.
Proof.
  induction s as [|u s [pre IH]]; [by exists []|]. cbn [dropSpace]. destruct (isTrimUnit u); [|by exists []]. exists (u :: pre). by rewrite IH at 1.
Qed.
Lemma nul_rev s : nulFree s -> nulFree (rev s).
Proof. intros H. unfold nulFree in *. rewrite List.Forall_forall in *. intros u Hu%in_rev. by apply H. Qed.
Lemma trim_nul s : nulFree s -> nulFree (trimUnits s).
Proof.
  intros H. unfold trimUnits. apply nul_rev. destruct (dropSpace_suffix (rev (dropSpace s))) as [pre E]. eapply nul_suffix; [exact E|].
  apply nul_rev. destruct (dropSpace_suffix s) as [pre' E']. by eapply nul_suffix.
Qed.

Lemma join_nul l : List.Forall nulFree l -> nulFree (joinLines l).
Proof.
  induction 1 as [|s l Hs Hl IH]; [constructor|]. cbn [joinLines]. destruct l as [|t l]; [done|]. apply nul_app. split; [done|].
  constructor; [done|done].
Qed.
Lemma notice_nul date had : nulFree date -> nulFree (COMPACTED_NOTICE date had).
Proof.
  intros Hd. apply join_nul. assert (nulFree (units "  The full step-by-step output was trimmed on " ++ date ++ units " to reduce")) as Hl.
  { apply nul_app. split; [by apply nul_check|]. apply nul_app. split; [done|by apply nul_check]. }
  destruct had; do 2 (apply List.Forall_cons; [by apply nul_check|]); (apply List.Forall_cons; [done|]);
    do 4 (apply List.Forall_cons; [by apply nul_check|]); constructor.
Qed.

Lemma blocks_nul blocks : List.Forall nulFree blocks ->
  nulFree (List.concat (List.map (fun b => b ++ [LF; LF]) (List.removelast blocks)) ++ List.last blocks []).
Proof.
  induction 1 as [|s l Hs Hl IH]; [constructor|]. destruct l as [|t l]; [done|].
  change (List.removelast (s :: t :: l)) with (s :: List.removelast (t :: l)). change (List.last (s :: t :: l) []) with (List.last (t :: l) []).
  cbn [List.map List.concat]. rewrite <- !app_assoc. apply nul_app. split; [done|]. apply nul_app. split; [by apply nul_check|done].
Qed.

Lemma compacted_nul s cmd preserved date len : nulFree s -> (forall c, cmd = Some c -> nulFree c) -> nulFree date ->
  nulFree (computeCompactedLog s cmd preserved date len).
Proof.
  intros Hs Hc Hd. unfold computeCompactedLog. destruct (_ <=? _); [done|].
  set (command := match cmd with Some c => trimUnits c | None => [] end).
  assert (nulFree command) as Hcmd by (unfold command; destruct cmd as [c|]; [apply trim_nul; by apply Hc|constructor]).
  assert (nulFree (alignedTail preserved s)) as Ht by (destruct (alignedTail_suffix preserved s) as [pre E]; by eapply nul_suffix).
  set (compacted := _ ++ _). assert (nulFree compacted) as H; [|destruct len; [done|by destruct (_ <? _)]].
  apply blocks_nul. pose proof (notice_nul date (negb (isEmptyText command)) Hd) as Hn.
  apply List.Forall_app. split; [by apply List.Forall_cons|]. apply List.Forall_app. split; [|by apply List.Forall_cons].
  destruct (negb (isEmptyText command)); [|constructor]. apply List.Forall_cons; [|constructor]. apply nul_app. split; [by apply nul_check|done].
Qed.

(** What is kept: the log itself when it is short, or a notice and the end of it. *)
Lemma compacted_shape s cmd preserved date len : computeCompactedLog s cmd preserved date len = s \/
  exists pre, computeCompactedLog s cmd preserved date len = pre ++ alignedTail preserved s.
Proof.
  unfold computeCompactedLog. destruct (_ <=? _); [by left|]. set (command := match cmd with Some c => trimUnits c | None => [] end).
  set (compacted := _ ++ _). assert (exists pre, compacted = pre ++ alignedTail preserved s) as H.
  { unfold compacted. destruct (negb (isEmptyText command)); cbn [app List.last]; by eexists. }
  destruct len; [by right|]. destruct (_ <? _); [by right|by left].
Qed.

(** ** A pass *)

Section PassLaws.
Variable columnSize : list Z -> Z.
Variable preservedBytes : Z.
Variable date : text.
Hypothesis preserved_pos : 0 <= preservedBytes.
Hypothesis date_nul : nulFree date.

Local Notation compactRun := (compactRun preservedBytes).
Local Notation compactRows := (compactRows preservedBytes).
Local Notation compactable := (compactable columnSize).
Local Notation storedOf id db := (storedText id (cp_logs db)).

(** What the tables keep of themselves: the chunks of a run in the order of their numbers, no
    text with a NUL, and one row per run. *)
Record pass_ok (db : CompactDb) : Prop := {
  po_chunks : chunk_inv (cp_logs db);
  po_nul : forall id, nulFree (storedText id (cp_logs db));
  po_ids : NoDup (List.map cr_id (cp_runs db));
  po_commands : forall r c, In r (cp_runs db) -> cr_command r = Some c -> nulFree c;
}.

(** The compacted form of a log [s] of so many characters: its last units when it is short, and
    else a notice, the command and its end from a line boundary on. *)
Definition compactedForm (r : CompactRun) (chars : Z) (s : text) : text :=
  let command := match cr_command r with Some c => trimUnits c | None => [] end in
  if chars <=? preservedBytes then lastOf preservedBytes s
  else COMPACTED_NOTICE date (negb (isEmptyText command)) ++ LF :: LF ::
       (if isEmptyText command then [] else units "$ " ++ command ++ [LF; LF]) ++ alignedTail preservedBytes s.
(** The characters that are stored of a run's log once it is compacted. *)
Definition compactedStore (r : CompactRun) (l : list Z) : list Z := toCodePoints (compactedForm r (tlen l) (fromCodePoints l)).

Lemma lastOf_nul n s : nulFree s -> nulFree (lastOf n s).
Proof.
  intros H. unfold lastOf, sliceOf. destruct (_ <? _); [|done]. by apply (nul_suffix s (take (Z.to_nat (tlen s - n)) s)); [rewrite take_drop|].
Qed.

Lemma alignedTail_last s : alignedTail preservedBytes (lastOf preservedBytes s) = alignedTail preservedBytes s.
Proof.
  unfold alignedTail. assert (sliceOf (tlen (lastOf preservedBytes s) - preservedBytes) (lastOf preservedBytes s) = sliceOf (tlen s - preservedBytes) s) as ->; [|done].
  unfold lastOf. destruct (Z.ltb_spec preservedBytes (tlen s)) as [H|H]; [|done]. rewrite sliceOf_neg; [done|].
  unfold tlen, sliceOf in *. rewrite length_drop. lia.
Qed.
Lemma form_spec r n s : computeCompactedLog (lastOf preservedBytes s) (cr_command r) preservedBytes date (Some n) = compactedForm r n s.
Proof.
  unfold computeCompactedLog, compactedForm. cbn [default id]. destruct (n <=? preservedBytes); [done|]. rewrite alignedTail_last.
  set (command := match cr_command r with Some c => trimUnits c | None => [] end). destruct (isEmptyText command); cbn [negb app List.removelast List.map List.concat List.last];
    rewrite ?app_nil_r, <- ?app_assoc; done.
Qed.

Lemma form_nul r n s : nulFree s -> (forall c, cr_command r = Some c -> nulFree c) -> nulFree (compactedForm r n s).
Proof. intros Hs Hc. rewrite <- form_spec. apply compacted_nul; [by apply lastOf_nul|done|done]. Qed.

Lemma stamp_ids now id db : List.map cr_id (cp_runs (stampCompacted now id db)) = List.map cr_id (cp_runs db).
Proof. cbn. rewrite List.map_map. apply List.map_ext. intros r. by destruct (String.eqb (cr_id r) id). Qed.

(** The stamps of a list of runs. *)
Definition stampedRow (now : Z) (ids : list string) (r : CompactRun) : CompactRun :=
  if bool_decide (cr_id r ∈ ids) then mkCompactRun (cr_id r) (cr_status r) (cr_created r) (Some now) (cr_command r) else r.

Record compacted_to (now : Z) (ids : list string) (db db' : CompactDb) : Prop := {
  ct_ok : pass_ok db';
  ct_runs : cp_runs db' = List.map (stampedRow now ids) (cp_runs db);
  ct_form : forall r, In r (cp_runs db) -> cr_id r ∈ ids -> storedOf (cr_id r) db' = compactedStore r (storedOf (cr_id r) db);
  ct_rest : forall id, id ∉ ids -> runChunks id (cp_logs db') = runChunks id (cp_logs db);
}.

Lemma chunks_text id db db' : runChunks id (cp_logs db') = runChunks id (cp_logs db) -> storedOf id db' = storedOf id db.
Proof. intros E. unfold storedText. by rewrite E. Qed.

Lemma compactRun_spec now r db : pass_ok db -> In r (cp_runs db) ->
  exists db' n, compactRun now date (r, runLogLength (cr_id r) (cp_logs db)) db = Some (db', n) /\ compacted_to now [cr_id r] db db'.
Proof.
  intros [H1 H2 H3 H4] Hr. unfold LogCompaction.compactRun. rewrite tail_any by done. cbn [mbind option_bind ta_text].
  unfold readRunLogText. rewrite length_text. set (l := storedOf (cr_id r) db).
  assert (nulFree (compactedStore r l)) as Hf by (apply nul_sent, form_nul; [apply nul_read, H2|intros c; by apply H4]).
  destruct (replace_any (cr_id r) (compactedForm r (tlen l) (fromCodePoints l)) (cp_logs db) H1 (proj2 (storable_nul _) Hf))
    as (logs & E & Hinv & Hrest & Htext). rewrite form_spec, E.
  cbn [mbind option_bind]. do 2 eexists. split; [reflexivity|]. split.
  - split; [done| | |].
    + intros id. cbn [stampCompacted cp_logs]. rewrite Htext. destruct (String.eqb id (cr_id r)); [done|apply H2].
    + by rewrite stamp_ids.
    + intros x c Hx. cbn [stampCompacted cp_runs] in Hx. apply in_map_iff in Hx as (y & <- & Hy). destruct (String.eqb (cr_id y) (cr_id r)); exact (H4 y c Hy).
  - cbn [stampCompacted cp_runs]. apply List.map_ext. intros x. unfold stampedRow. destruct (String.eqb_spec (cr_id x) (cr_id r)) as [Ex|Ex].
    + rewrite bool_decide_true; [done|]. set_solver.
    + rewrite bool_decide_false; [done|]. set_solver.
  - intros x Hx Hid%list_elem_of_singleton. assert (x = r) as -> by (by apply (NoDup_fmap_In cr_id (cp_runs db))).
    cbn [stampCompacted cp_logs]. by rewrite Htext, String.eqb_refl.
  - intros id Hid. apply Hrest. set_solver.
Qed.

Lemma stampedRow_id now ids r : cr_id (stampedRow now ids r) = cr_id r.
Proof. unfold stampedRow. by destruct (bool_decide _). Qed.
Lemma stampedRow_command now ids r : cr_command (stampedRow now ids r) = cr_command r.
Proof. unfold stampedRow. by destruct (bool_decide _). Qed.

Lemma compacted_trans now ids ids' db db1 db2 : NoDup (ids ++ ids') -> compacted_to now ids db db1 -> compacted_to now ids' db1 db2 -> compacted_to now (ids ++ ids') db db2.
Proof.
  intros Hnd [A1 A2 A3 A4] [B1 B2 B3 B4]. apply list.NoDup_app in Hnd as (_ & Hdis & _). split; [done| | |].
  - rewrite B2, A2, List.map_map. apply List.map_ext. intros r. unfold stampedRow at 1 3. rewrite stampedRow_id. unfold stampedRow.
    repeat case_bool_decide; try done; exfalso; set_solver.
  - intros r Hr [Hid|Hid]%elem_of_app.
    + rewrite (chunks_text _ db1 db2) by (apply B4; by apply Hdis). by apply A3.
    + assert (cr_id r ∉ ids) as Hn by (intros H; by apply (Hdis _ H)).
      assert (In (stampedRow now ids r) (cp_runs db1)) as Hin by (rewrite A2; by apply in_map). specialize (B3 _ Hin).
      rewrite stampedRow_id in B3. rewrite (B3 Hid). unfold compactedStore, compactedForm. rewrite stampedRow_command.
      by rewrite (chunks_text _ db db1) by (by apply A4).
  - intros id Hid. rewrite B4, A4; [done|set_solver|set_solver].
Qed.

Lemma compactRows_spec now rs : forall db, pass_ok db -> NoDup (List.map cr_id rs) -> (forall r, In r rs -> In r (cp_runs db)) ->
  exists db' n, compactRows now date (List.map (fun r => (r, runLogLength (cr_id r) (cp_logs db))) rs) db = (db', Some n) /\
  compacted_to now (List.map cr_id rs) db db'.
Proof.
  induction rs as [|r rs IH]; intros db Hok Hnd Hin.
  - exists db, 0. split; [done|]. split; [done| |set_solver|done]. rewrite <- (List.map_id (cp_runs db)) at 1. apply List.map_ext. done.
  - cbn [List.map LogCompaction.compactRows]. destruct (compactRun_spec now r db Hok (Hin r (or_introl eq_refl))) as (db1 & n & -> & H1).
    pose proof Hnd as Hnd0. apply list.NoDup_cons in Hnd as [Hnew Hnd].
    assert (forall x, In x rs -> cr_id x ∉ [cr_id r]) as Hother.
    { intros x Hx Hid%list_elem_of_singleton. apply Hnew. rewrite <- Hid. apply list_elem_of_In. by apply in_map. }
    destruct (IH db1 (ct_ok _ _ _ _ H1) Hnd) as (db2 & m & E & H2).
    { intros x Hx. rewrite (ct_runs _ _ _ _ H1). apply in_map_iff. exists x. split; [|apply Hin; by right]. unfold stampedRow.
      rewrite bool_decide_false; [done|]. by apply Hother. }
    assert (List.map (fun r => (r, runLogLength (cr_id r) (cp_logs db))) rs = List.map (fun r => (r, runLogLength (cr_id r) (cp_logs db1))) rs) as ->.
    { apply List.map_ext_in. intros x Hx. unfold runLogLength. rewrite (ct_rest _ _ _ _ H1); [done|by apply Hother]. }
    rewrite E. do 2 eexists. split; [reflexivity|]. by apply (compacted_trans now [cr_id r] (List.map cr_id rs) db db1 db2).
Qed.

Local Notation count := (countCompactableRuns columnSize).

(** The runs a batch takes. *)
Definition batchRuns (now days limit : Z) (db : CompactDb) : list CompactRun :=
  take (Z.to_nat limit) (js_sort oldestRun (List.filter (compactable now days db) (cp_runs db))).

Lemma batchRuns_in now days limit db r : In r (batchRuns now days limit db) -> In r (cp_runs db) /\ compactable now days db r = true.
Proof.
  intros H. apply filter_In, (js_sort_In oldestRun). rewrite <- (take_drop (Z.to_nat limit)). apply in_app_iff. by left.
Qed.
Lemma sorted_ids now days db : NoDup (List.map cr_id (cp_runs db)) ->
  NoDup (List.map cr_id (js_sort oldestRun (List.filter (compactable now days db) (cp_runs db)))).
Proof. intros H. rewrite <- (js_sort_perm oldestRun). by apply NoDup_map_filter. Qed.

Lemma batch_count now days limit db db' : pass_ok db -> compacted_to now (List.map cr_id (batchRuns now days limit db)) db db' ->
  count now days db' = count now days db - Z.of_nat (List.length (batchRuns now days limit db)).
Proof.
  intros [_ _ Hids _] [_ Hruns _ Hrest]. unfold countCompactableRuns. set (rs := batchRuns now days limit db) in *.
  set (rest := drop (Z.to_nat limit) (js_sort oldestRun (List.filter (compactable now days db) (cp_runs db)))).
  assert (js_sort oldestRun (List.filter (compactable now days db) (cp_runs db)) = rs ++ rest) as Hsort by (symmetry; apply take_drop).
  pose proof (sorted_ids now days db Hids) as Hnd. rewrite Hsort, List.map_app in Hnd. apply list.NoDup_app in Hnd as (_ & Hdis & _).
  pose proof (js_sort_perm oldestRun (List.filter (compactable now days db) (cp_runs db))) as Hperm. rewrite Hsort in Hperm.
  assert (List.length (List.filter (compactable now days db) (cp_runs db)) = (List.length rs + List.length rest)%nat) as Hlen.
  { rewrite (Permutation_length Hperm). apply length_app. }
  assert (List.length (List.filter (compactable now days db') (cp_runs db')) = List.length rest) as Hrem; [|lia].
  rewrite Hruns, filter_map, List.length_map.
  rewrite (List.filter_ext _ (fun r => compactable now days db r && negb (bool_decide (cr_id r ∈ List.map cr_id rs)))).
  - rewrite <- filter_filter_and. rewrite (Permutation_length (Permutation_filter_bool _ _ _ Hperm)), List.filter_app.
    rewrite (proj2 (filter_nil_iff _ rs)), filter_all; [done| |].
    + intros r Hr. rewrite bool_decide_false; [done|]. intros H. apply (Hdis _ H). apply list_elem_of_In. by apply in_map.
    + intros r Hr. rewrite bool_decide_true; [done|]. apply list_elem_of_In. by apply in_map.
  - intros r. unfold stampedRow. case_bool_decide as Hid; cbn [negb]; [by rewrite andb_false_r|]. rewrite andb_true_r.
    unfold LogCompaction.compactable, storedBytes. by rewrite Hrest.
Qed.

Lemma batch_spec now days limit db : pass_ok db -> exists db' n,
  compactRunLogsBatch columnSize preservedBytes now date days limit db = (db', Some (Z.of_nat (List.length (batchRuns now days limit db)), n)) /\
  compacted_to now (List.map cr_id (batchRuns now days limit db)) db db'.
Proof.
  intros Hok. destruct (compactRows_spec now (batchRuns now days limit db) db Hok) as (db' & n & E & H).
  - pose proof (sorted_ids now days db (po_ids db Hok)) as Hnd. rewrite <- (take_drop (Z.to_nat limit) (js_sort _ _)), List.map_app in Hnd.
    by apply list.NoDup_app in Hnd as [Hnd _].
  - intros r Hr. by apply (batchRuns_in now days limit).
  - exists db', n. split; [|done]. unfold compactRunLogsBatch, batchRows. fold (batchRuns now days limit db). rewrite E. cbn. by rewrite List.length_map.
Qed.

(** Every run of the window is compacted and stamped, and every other log and row is left. *)
Definition stampedIf (now : Z) (b : bool) (r : CompactRun) : CompactRun :=
  if b then mkCompactRun (cr_id r) (cr_status r) (cr_created r) (Some now) (cr_command r) else r.

Record drained (now days : Z) (db db' : CompactDb) : Prop := {
  dr_ok : pass_ok db';
  dr_form : forall r, In r (cp_runs db) -> compactable now days db r = true -> storedOf (cr_id r) db' = compactedStore r (storedOf (cr_id r) db);
  dr_rest : forall id, (forall r, In r (cp_runs db) -> compactable now days db r = true -> cr_id r <> id) -> storedOf id db' = storedOf id db;
  dr_runs : cp_runs db' = List.map (fun r => stampedIf now (compactable now days db r) r) (cp_runs db);
  dr_none : count now days db' = 0;
}.

Lemma drained_step now days limit db db1 db2 : pass_ok db -> compacted_to now (List.map cr_id (batchRuns now days limit db)) db db1 ->
  drained now days db1 db2 -> drained now days db db2.
Proof.
  intros Hok [A1 A2 A3 A4] [B1 B2 B3 B5 B4]. set (ids := List.map cr_id (batchRuns now days limit db)) in *.
  assert (forall r, cr_id r ∉ ids -> compactable now days db1 r = compactable now days db r) as Hsame.
  { intros r Hid. unfold LogCompaction.compactable, storedBytes. by rewrite A4. }
  assert (forall r1, In r1 (cp_runs db1) -> compactable now days db1 r1 = true -> cr_id r1 ∉ ids /\ In r1 (cp_runs db) /\ compactable now days db r1 = true) as Hback.
  { intros r1 Hr1 Hc. rewrite A2 in Hr1. apply in_map_iff in Hr1 as (r & <- & Hr). unfold stampedRow in *. case_bool_decide as Hid; [done|].
    by rewrite Hsame in Hc. }
  split; [done| | | |done].
  - intros r Hr Hc. destruct (decide (cr_id r ∈ ids)) as [Hid|Hid].
    + rewrite B3; [by apply A3|]. intros r1 Hr1 Hc1 E. destruct (Hback r1 Hr1 Hc1) as [Hn _]. by rewrite E in Hn.
    + rewrite (B2 r); [by rewrite (chunks_text _ db db1) by (by apply A4)| |by rewrite Hsame].
      rewrite A2. apply in_map_iff. exists r. split; [|done]. unfold stampedRow. by rewrite bool_decide_false.
  - intros id Hid. rewrite B3; [apply chunks_text, A4|].
    + intros (r & <- & Hr)%list_elem_of_In%in_map_iff. apply batchRuns_in in Hr as [Hr Hc]. by destruct (Hid r Hr Hc).
    + intros r1 Hr1 Hc1. destruct (Hback r1 Hr1 Hc1) as (_ & Hr & Hc). by apply Hid.
  - rewrite B5, A2, List.map_map. apply List.map_ext_in. intros r Hr. unfold stampedRow. case_bool_decide as Hid.
    + assert (compactable now days db r = true) as ->.
      { apply list_elem_of_In, in_map_iff in Hid as (x & E & Hx). apply batchRuns_in in Hx as [Hx Hc].
        by rewrite <- (NoDup_fmap_In cr_id (cp_runs db) x r (po_ids db Hok) Hx Hr E). }
      unfold stampedIf. unfold LogCompaction.compactable at 1. cbn [cr_compacted]. rewrite bool_decide_false by done. done.
    + by rewrite Hsame.
Qed.

Lemma count_nonneg now days db : 0 <= count now days db.
Proof. unfold countCompactableRuns. lia. Qed.

Lemma batch_some now days limit db : 0 < limit -> count now days db <> 0 -> (0 < List.length (batchRuns now days limit db))%nat.
Proof.
  intros Hl Hc. unfold batchRuns, countCompactableRuns in *. rewrite length_take. rewrite <- (Permutation_length (js_sort_perm oldestRun _)). lia.
Qed.
Lemma batch_none now days limit db : batchRuns now days limit db = [] -> 0 < limit -> forall r, In r (cp_runs db) -> compactable now days db r = false.
Proof.
  intros E Hl r Hr. destruct (compactable now days db r) eqn:Hc; [|done]. exfalso.
  assert (count now days db <> 0) as Hn.
  { unfold countCompactableRuns. assert (In r (List.filter (compactable now days db) (cp_runs db))) as Hin by (by apply filter_In).
    destruct (List.filter _ _); [done|]. cbn. lia. }
  apply (batch_some now days limit db Hl) in Hn. rewrite E in Hn. cbn in Hn. lia.
Qed.

Lemma trim_spec fuel : forall now batchSize maxRuns done_ phase startedAt days total processed trimmed usage db,
  pass_ok (ps_db db) -> 0 < batchSize -> count now days (ps_db db) < Z.of_nat fuel -> count now days (ps_db db) + done_ < maxRuns ->
  exists db' trimmed', trimLoop columnSize preservedBytes fuel now date batchSize maxRuns done_ phase startedAt days total processed trimmed usage db =
    (db', Some (CompactPass phase startedAt days total (processed + count now days (ps_db db)) trimmed' usage, true)) /\
  drained now days (ps_db db) (ps_db db').
Proof.
  induction fuel as [|fuel IH]; intros now batchSize maxRuns done_ phase startedAt days total processed trimmed usage db Hok Hb Hf Hm;
    pose proof (count_nonneg now days (ps_db db)) as Hn; [lia|]. cbn [trimLoop]. rewrite (proj2 (Z.ltb_lt done_ maxRuns)) by lia.
  destruct (batch_spec now days batchSize (ps_db db) Hok) as (cdb & n & -> & Hc). pose proof (batch_count now days batchSize _ _ Hok Hc) as Hcount.
  destruct (Z.eqb_spec (Z.of_nat (List.length (batchRuns now days batchSize (ps_db db)))) 0) as [E|E].
  - assert (batchRuns now days batchSize (ps_db db) = []) as Enil by (destruct (batchRuns _ _ _ _); [done|cbn in E; lia]).
    pose proof (batch_none now days batchSize _ Enil Hb) as Hno.
    assert (count now days (ps_db db) = 0) as E0.
    { unfold countCompactableRuns. by rewrite (proj2 (filter_nil_iff _ _) Hno). }
    do 2 eexists. rewrite E0, Z.add_0_r. split; [reflexivity|]. cbn [ps_db]. rewrite Enil in Hc. destruct Hc as [A1 A2 A3 A4]. split; [done| | | |lia].
    + intros r Hr. by rewrite (Hno r Hr).
    + intros id _. apply chunks_text, A4. set_solver.
    + rewrite A2. apply List.map_ext_in. intros r Hr. by rewrite (Hno r Hr).
  - destruct (IH now batchSize maxRuns (done_ + Z.of_nat (List.length (batchRuns now days batchSize (ps_db db)))) phase startedAt days total
      (processed + Z.of_nat (List.length (batchRuns now days batchSize (ps_db db)))) (trimmed + n) usage
      (writeActive (CompactPass phase startedAt days total (processed + Z.of_nat (List.length (batchRuns now days batchSize (ps_db db)))) (trimmed + n) usage)
         (mkPassDb cdb (ps_active db) (ps_last db)))) as (db' & t' & Hloop & Hd); cbn [writeActive ps_db] in *; [apply Hc|done|lia|lia|].
    exists db', t'. split; [|by apply (drained_step now days batchSize _ cdb)]. refine (eq_trans Hloop _). do 4 f_equal. lia.
Qed.

Variable figures : PassDb -> RunLogUsageFigures.

End PassLaws.

(** *** Concrete passes *)

Definition demo_runLog (s : text) : LogDb := writeStep (WriteLog "r" s None) emptyLogs.
Definition demo_pass (s : text) : PassDb :=
  startCompaction (fun c => 100 * tlen c) US_PER_DAY 0 (mkPassDb (mkCompactDb (demo_runLog s) [mkCompactRun "r" RunSucceeded 0 None None]) None None).
Definition demo_tick (s : text) : PassDb :=
  runLogCompactionTick (fun c => 100 * tlen c) 10 (fun _ => mkFigures None 0 0) US_PER_DAY (units "2026-01-02") External 50 500 0 0
    (fun _ _ => Rewritten) (demo_pass s).
Definition demo_long : text := units "line one" ++ LF :: units "line two" ++ LF :: units "[done] ok".

(** The tables are so after any writes of any texts. *)
Lemma writes_nul ws id : nulFree (storedText id (fold_left (fun db w => writeStep w db) ws emptyLogs)).
Proof.
  rewrite (proj2 (writes_spec ws emptyLogs ltac:(intros r; constructor))). change (storedText id emptyLogs) with (@nil Z).
  assert (nulFree []) as H by constructor. revert H. generalize (@nil Z). induction ws as [|w ws IH]; intros l H; [done|]. cbn [fold_left]. apply IH.
  destruct w as [r t u|r t]; cbn [logAfter]; destruct (String.eqb id r); cbn [andb]; try done.
  - destruct (accepted t) eqn:Ea; [|done]. apply nul_app. split; [done|]. unfold accepted, sent in *. rewrite forallb_forall in Ea.
    apply List.Forall_forall. intros c (k & Hk & Hc)%in_concat. specialize (Ea k Hk). apply storable_nul in Ea.
    by apply (proj1 (List.Forall_forall _ _) Ea).
  - destruct (storable (toCodePoints t)) eqn:Es; [|done]. by apply storable_nul.
Qed.
Lemma writes_pass_ok ws runs : NoDup (List.map cr_id runs) -> (forall r c, In r runs -> cr_command r = Some c -> nulFree c) ->
  pass_ok (mkCompactDb (fold_left (fun db w => writeStep w db) ws emptyLogs) runs).
Proof. intros Hids Hc. split; [apply (writes_spec ws emptyLogs); intros r; constructor|intros id; apply writes_nul|done|done]. Qed.

Lemma demo_pass_ok s : pass_ok (ps_db (demo_pass s)).
Proof.
  apply (writes_pass_ok [WriteLog "r" s None]); [apply (bool_decide_unpack _); vm_compute; exact Logic.I|]. intros r c [<-|[]]. done.
Qed.


(** A log of twelve characters beyond the basic plane has twenty-four units. With twelve to
    preserve it counts as short, and its first half is dropped with no notice. *)
Lemma short_log_cut_without_notice :
  let faces := List.concat (List.repeat [55357; 56832] 12) in
  let db := runLogCompactionTick (fun c => 1000 * tlen c) 12 (fun _ => mkFigures None 0 0) US_PER_DAY (units "2026-01-02") External 50 500 0 0
    (fun _ _ => Rewritten) (startCompaction (fun c => 1000 * tlen c) US_PER_DAY 0
      (mkPassDb (mkCompactDb (demo_runLog faces) [mkCompactRun "r" RunSucceeded 0 None None]) None None)) in
  tlen faces = 24 /\ runLogLength "r" (demo_runLog faces) = 12 /\ readRunLogText "r" (cp_logs (ps_db db)) = sliceOf 12 faces /\
  List.map cr_compacted (cp_runs (ps_db db)) = [Some US_PER_DAY].
Proof. vm_compute. done. Qed.
