(* ===== verification/Holds.v ===== *)
(** * Dispatch holds

    A model of [packages/server/src/services/no-work-backoff.ts]: which wakeups are exempt
    from dispatch suppression, the four soft holds, and the three hard stops that weigh one
    read of a task's spend; of [lib/admin-sql.ts] and the ask predicate of
    [lib/task-sort.ts] they use. Every query is a function of the rows it reads. *)
From Stdlib Require Import ZArith Lia Ascii String List Bool Permutation Sorted.
From stdpp Require Import base list strings gmap option.
From S2P Require Import Prelude Sql JsString Wakeups RunRows.

Open Scope string_scope.
Open Scope list_scope.
Open Scope Z_scope.

Definition US_PER_MIN : Z := 60 * US_PER_SEC.
Definition US_PER_HOUR : Z := 60 * US_PER_MIN.

Definition CONVERSATIONAL_SOURCES : list WakeupSource := [Mention; Comment; Reply].
Definition DECISION_SOURCES : list WakeupSource := [CredentialProvided; AssetDeletionResolved; ApprovalResolved].
Definition conversationalSource (s : WakeupSource) : bool := bool_decide (s ∈ CONVERSATIONAL_SOURCES).
Definition decisionSource (s : WakeupSource) : bool := bool_decide (s ∈ DECISION_SOURCES).

(** ** Who spoke *)

Definition isAdminUserSql (db : TaskDb) (user team : option string) : bool :=
  match user with
  | None => false
  | Some u => existsb (String.eqb u) (db_superusers db)
              || existsb (fun m => String.eqb (mu_user m) u && mu_admin m && bool_decide (team = Some (mu_team m)))
                   (db_users db)
  end.

Definition personCommentSql (c : TaskComment) : bool := notNull (tc_user c) || notNull (tc_api_key c).

Definition adminCommentSql (db : TaskDb) (team : option string) (c : TaskComment) : bool :=
  notNull (tc_api_key c) || (notNull (tc_user c) && isAdminUserSql db (tc_user c) team).

Definition preAttributionChoiceSql (db : TaskDb) (c : TaskComment) : bool :=
  match tc_chosen_at c, db_choice_from db with Some t, Some from => t <? from | _, _ => false end.

Definition personChoiceSql (db : TaskDb) (c : TaskComment) : bool :=
  notNull (tc_chosen_by c) || preAttributionChoiceSql db c.

Definition adminChoiceSql (db : TaskDb) (team : option string) (c : TaskComment) : bool :=
  (notNull (tc_chosen_by c) && isAdminUserSql db (tc_chosen_by c) team) || preAttributionChoiceSql db c.

Definition onTask (task : string) (c : TaskComment) : bool := String.eqb (tc_task c) task.
Definition when (b : bool) (at_ : option Z) : option Z := if b then at_ else None.

Definition personSpokeAtSql (db : TaskDb) (task : string) : option Z :=
  maxO (List.map (fun c => greatest (when (personCommentSql c) (Some (tc_created c)))
                                    (when (personChoiceSql db c) (tc_chosen_at c)))
          (List.filter (fun c => onTask task c && (personCommentSql c || personChoiceSql db c)) (db_comments db))).

(** [before] as the optional second argument: [None] leaves the instants unbounded. *)
Definition adminSpokeAtSql (db : TaskDb) (task : string) (before : option Z) : option Z :=
  match teamOfTask db task with
  | None => None
  | Some team =>
      let inTime at_ := match before, at_ with None, _ => true | Some b, Some a => a <? b | Some _, None => false end in
      maxO (List.map (fun c => greatest
                        (when (adminCommentSql db (Some team) c && inTime (Some (tc_created c))) (Some (tc_created c)))
                        (when (adminChoiceSql db (Some team) c && inTime (tc_chosen_at c)) (tc_chosen_at c)))
              (List.filter (fun c => onTask task c && (personCommentSql c || personChoiceSql db c)) (db_comments db)))
  end.

(** [team] as the optional third argument: a person, or the admin of that team. *)
Definition spokeSinceSql (db : TaskDb) (task : option string) (since : option Z) (team : option (option string)) : bool :=
  let comment c := match team with None => personCommentSql c | Some t => adminCommentSql db t c end in
  let choice c := match team with None => personChoiceSql db c | Some t => adminChoiceSql db t c end in
  match task with
  | None => false
  | Some task => existsb (fun c => onTask task c && ((comment c && after (tc_created c) since)
                                                     || (choice c && later since (tc_chosen_at c)))) (db_comments db)
  end.

(** ** Who acted *)
Section Actors.
Variable render : Json -> string.

(** [actor->>'key']. *)
Definition actorText (actor : option Json) (key : string) : option string :=
  match actor with
  | Some (JObj fields) =>
      match snd <$> List.find (fun p => String.eqb (fst p) key) fields with
      | None | Some JNull => None
      | Some (JStr s) => Some s
      | Some j => Some (render j)
      end
  | _ => None
  end.

(** [jsonb_typeof(actor) = 'object']. *)
Definition isObject (actor : option Json) : option bool :=
  match actor with None => None | Some (JObj _) => Some true | Some _ => Some false end.

Definition actorUser (actor : option Json) : option string := nullIfEmpty (actorText actor "user_id").
Definition actorKey (actor : option Json) : option string := nullIfEmpty (actorText actor "api_key_id").

Definition legacyActorSql (db : TaskDb) (actor : option Json) (team : option (option string)) : option bool :=
  and3 (and3 (and3 (isObject actor) (Some (isNull (actorUser actor)))) (Some (isNull (actorKey actor))))
    (Some (existsb (fun m => bool_decide (nullIfEmpty (actorText actor "member_id") = Some (mu_id m))
                             && match team with None => true | Some t => isAdminUserSql db (Some (mu_user m)) t end)
             (db_users db))).

Definition actorIsPersonSql (db : TaskDb) (actor : option Json) : option bool :=
  or3 (and3 (isObject actor) (Some (notNull (actorUser actor) || notNull (actorKey actor))))
    (legacyActorSql db actor None).

Definition actorIsAdminSql (db : TaskDb) (actor : option Json) (team : option string) : option bool :=
  or3 (and3 (isObject actor) (Some (notNull (actorKey actor) || isAdminUserSql db (actorUser actor) team)))
    (legacyActorSql db actor (Some team)).

Definition adminTriggeredSql (db : TaskDb) (payload : Payload) (team : option string) : option bool :=
  actorIsAdminSql db (payload !! "triggered_by") team.

(** ** Exemptions *)

Record SuppressionExemption := mkExemption { byPerson : bool; byAdmin : bool }.
Definition FULL_EXEMPTION : SuppressionExemption := mkExemption true true.
Definition NO_EXEMPTION : SuppressionExemption := mkExemption false false.

Definition isPlainObject (j : option Json) : bool := match j with Some (JObj _) => true | _ => false end.

Inductive WakeMode := Triggered | Decision | Conversational.

(** When the agent last ran on the task, a handed-back run apart. *)
Definition lastRanAt (db : TaskDb) (memberId : string) (taskId : option string) : option Z :=
  maxO (List.map hr_started (List.filter (fun r => bool_decide (taskId <> None) && bool_decide (hr_task r = taskId)
                                                   && String.eqb (hr_member r) memberId
                                                   && negb (bool_decide (hr_cancel r = Some HandedBack))) (db_runs db))).

Definition dispatchSuppressionExempt (db : TaskDb) (memberId teamId : string) (taskId : option string)
    (source : WakeupSource) (payload : Payload) (wakeupId : option string) : SuppressionExemption :=
  let triggered := isPlainObject (payload !! "triggered_by") in
  let decision := decisionSource source in
  let conversational := conversationalSource source in
  if negb triggered && negb decision && negb conversational then NO_EXEMPTION
  else if isNull (truthy taskId) && negb triggered && negb decision then NO_EXEMPTION
  else
    let since := lastRanAt db memberId taskId in
    let team := Some (default teamId (taskId ≫= teamOfTask db)) in
    let run := wakeupOf db wakeupId ≫= w_run in
    let kind := if triggered then Triggered else if decision && isNull run then Decision else Conversational in
    mkExemption
      match kind with
      | Triggered => isTrue (actorIsPersonSql db (payload !! "triggered_by"))
      | Decision => isTrue (actorIsPersonSql db (payload !! "decided_by"))
      | Conversational => isNull run || spokeSinceSql db taskId since None
      end
      match kind with
      | Triggered => isTrue (actorIsAdminSql db (payload !! "triggered_by") team)
      | Decision => isTrue (actorIsAdminSql db (payload !! "decided_by") team)
      | Conversational => spokeSinceSql db taskId since (Some team)
      end.

(** ** The soft holds *)

Definition runOf (memberId task : string) (r : HeartbeatRun) : bool :=
  String.eqb (hr_member r) memberId && equals (hr_task r) task.

Definition finishedAt (r : HeartbeatRun) : Z := default 0 (hr_finished r).

Definition noWorkCooldownActive (db : TaskDb) (now floorMin : Z) (memberId : string) (taskId : option string)
    (exempt : bool) : bool :=
  match truthy taskId with
  | None => false
  | Some task =>
      if exempt then false else
      match newest finishedAt 1 (List.filter (fun r => runOf memberId task r && notNull (hr_finished r)) (db_runs db)),
            List.find (fun a => String.eqb (ag_id a) memberId) (db_agents db) with
      | lr :: _, Some agent =>
          hr_no_work lr
          && (now <? finishedAt lr + Z.max (ag_interval agent) floorMin * US_PER_MIN)
          && negb (existsb (fun c => onTask task c && (finishedAt lr <? tc_created c)
                                     && negb (equals (tc_run c) (hr_id lr))) (db_comments db))
          && negb (existsb (fun c => onTask task c && later (hr_finished lr) (tc_chosen_at c)) (db_comments db))
      | _, _ => false
      end
  end.

Definition PENDING_ASK_CONTENT_TYPES : list CommentContentType := [ActionComment; CredentialRequest; AssetDeletionRequest].

Definition outstandingAdminAskExistsSql (db : TaskDb) (c : TaskComment) : bool :=
  existsb (fun m => String.eqb (fst m) (tc_id c)) (db_mentions db)
  || (negb (tc_chosen c) && bool_decide (tc_type c ∈ PENDING_ASK_CONTENT_TYPES)).

Definition parkedOnAdminAsk (db : TaskDb) (memberId : string) (taskId : option string) (exempt : bool) : bool :=
  match truthy taskId with
  | None => false
  | Some task =>
      if exempt then false else
      let other c := negb (equals (tc_member c) memberId) in
      let newestOther := maxO (List.map (fun c => greatest (when (other c) (Some (tc_created c))) (tc_chosen_at c))
                           (List.filter (fun c => onTask task c && (other c || notNull (tc_chosen_at c))) (db_comments db))) in
      existsb (fun ask => onTask task ask && after (tc_created ask) newestOther && outstandingAdminAskExistsSql db ask)
        (db_comments db)
  end.

Definition MAX_TASK_ATTEMPT_GIVEUPS : Z := 6.
Definition TASK_ATTEMPT_WINDOW_HOURS : Z := 24.
Definition UNPRODUCTIVE_CANCEL_REASONS : list RunCancelReason := [HandedBack; Abandoned].

Definition unproductive (r : HeartbeatRun) : bool :=
  bool_decide (hr_status r ∈ [RunFailed; RunTimedOut])
  || (bool_decide (hr_status r = RunCancelled)
      && match hr_cancel r with Some c => bool_decide (c ∈ UNPRODUCTIVE_CANCEL_REASONS) | None => false end).

Definition attemptsOnTask (db : TaskDb) (now : Z) (memberId task : string) : Z :=
  let lastSuccess := maxO (List.map hr_finished (List.filter (fun r => runOf memberId task r
                                                      && bool_decide (hr_status r = RunSucceeded)) (db_runs db))) in
  countZ (fun r => runOf memberId task r
                   && match hr_finished r with
                      | None => false
                      | Some f => (now - TASK_ATTEMPT_WINDOW_HOURS * US_PER_HOUR <? f) && after f lastSuccess
                      end
                   && unproductive r) (db_runs db).

Definition attemptsExhaustedOnTask (db : TaskDb) (now : Z) (memberId : string) (taskId : option string) (exempt : bool)
    : bool :=
  match truthy taskId with
  | None => false
  | Some task => if exempt then false else MAX_TASK_ATTEMPT_GIVEUPS <=? attemptsOnTask db now memberId task
  end.

Definition writtenByKind (db : TaskDb) (kind : HeartbeatRunKind) (c : TaskComment) : bool :=
  existsb (fun r => equals (tc_run c) (hr_id r) && bool_decide (hr_kind r = kind)) (db_runs db).

Definition retrospectiveHoldActive (db : TaskDb) (taskId : option string) (exempt : bool) : bool :=
  match truthy taskId with
  | None => false
  | Some task =>
      if exempt then false else
      match maxO (List.map (fun c => Some (tc_created c))
                    (List.filter (fun c => onTask task c && writtenByKind db KindRetrospective c) (db_comments db))) with
      | None => false
      | Some finding => orElse (le3 (personSpokeAtSql db task) (Some finding)) true
      end
  end.

(** ** The hard stops *)

Definition HANDOFF_ROUND_LIMIT : Z := 8.
Definition HANDOFF_SCAN_RUNS : nat := Z.to_nat (HANDOFF_ROUND_LIMIT * 8).
Definition TASK_TOKEN_CEILING : Z := 100000000.
Definition RUN_SIZE_STOP_REASONS : list string := ["token_ceiling"; "tool_call_ceiling"].
Definition isRunSizeStopReason (reason : option string) : bool :=
  match reason with None => false | Some r => bool_decide (r ∈ RUN_SIZE_STOP_REASONS) end.

Definition runTokens (r : HeartbeatRun) : Z := hr_input r + hr_output r.
Definition startedAt (r : HeartbeatRun) : Z := default 0 (hr_started r).

(** The [handoff] column: the run's wakeup was raised by an agent's comment, mention or reply,
    and carries no admin's press. *)
Definition isHandoff (db : TaskDb) (task : string) (r : HeartbeatRun) : bool :=
  match wakeupOf db (hr_wakeup r) with
  | None => false
  | Some w => orElse (and3 (Some (conversationalSource (w_source w) && notNull (w_run w)))
                        (not3 (adminTriggeredSql db (w_payload w) (teamOfTask db task)))) false
  end.

Definition sinceAdmin (db : TaskDb) (task : string) (r : HeartbeatRun) : bool :=
  match hr_started r with None => false | Some s => after s (adminSpokeAtSql db task None) end.

Definition recentRuns (db : TaskDb) (task : string) : list HeartbeatRun :=
  newest startedAt HANDOFF_SCAN_RUNS
    (List.filter (fun r => equals (hr_task r) task && notNull (hr_started r) && sinceAdmin db task r
                           && negb (bool_decide (hr_cancel r = Some HandedBack))) (db_runs db)).

Definition handoffChain (db : TaskDb) (task : string) : list HeartbeatRun :=
  let recent := recentRuns db task in
  let breaker := maxO (List.map hr_started (List.filter (fun r => negb (isHandoff db task r)) recent)) in
  List.filter (fun r => isHandoff db task r && after (startedAt r) breaker) recent.

Record TaskSpend := mkTaskSpend {
  sp_runs : Z; sp_tokens : Z; sp_adminAt : option Z; sp_sinceRuns : Z; sp_sinceTokens : Z;
  sp_sizeStops : Z; sp_sizeStopsSince : option Z;
  sp_rounds : Z; sp_chainTokens : Z; sp_chainSlugs : list string; sp_newest : option Z
}.

(** [count(DISTINCT wakeup_id)] and [array_agg(DISTINCT slug)]. *)
Definition distinctWakeups (l : list HeartbeatRun) : list string := remove_dups (omap hr_wakeup l).
Definition chainSlugs (db : TaskDb) (l : list HeartbeatRun) : list string :=
  remove_dups (omap (fun r => ag_slug <$> List.find (fun a => String.eqb (ag_id a) (hr_member r)) (db_agents db)) l).

Definition startedOn (db : TaskDb) (task : string) : list HeartbeatRun :=
  List.filter (fun r => equals (hr_task r) task && notNull (hr_started r)) (db_runs db).

(** When a run the admin pressed for last started on the task. *)
Definition adminRunAt (db : TaskDb) (task : string) : option Z :=
  maxO (List.map hr_started
          (List.filter (fun r => match wakeupOf db (hr_wakeup r) with
                                 | None => false
                                 | Some w => isTrue (adminTriggeredSql db (w_payload w) (teamOfTask db task))
                                 end) (startedOn db task))).

Definition loadTaskSpend (db : TaskDb) (task : string) : TaskSpend :=
  let runs := startedOn db task in
  let adminAt := adminSpokeAtSql db task None in
  let adminRun := adminRunAt db task in
  let chain := handoffChain db task in
  mkTaskSpend (Z.of_nat (length runs)) (sumZ runTokens runs) adminAt
    (countZ (sinceAdmin db task) runs) (sumZ runTokens (List.filter (sinceAdmin db task) runs))
    (countZ (fun r => sinceAdmin db task r
                      && match adminRun with None => true | Some a => a <=? startedAt r end
                      && isRunSizeStopReason (hr_stop r)) runs)
    (greatest adminAt adminRun)
    (Z.of_nat (length (distinctWakeups chain))) (sumZ runTokens chain) (chainSlugs db chain)
    (maxO (List.map hr_started chain)).

Record HandoffRounds := mkHandoffRounds {
  ho_rounds : Z; ho_tokens : Z; ho_agentSlugs : list string; ho_noticeSince : Z
}.
Definition handoffHold (spend : TaskSpend) : option HandoffRounds :=
  match sp_newest spend with
  | None => None
  | Some newest =>
      if sp_rounds spend <? HANDOFF_ROUND_LIMIT then None
      else Some (mkHandoffRounds (sp_rounds spend) (sp_chainTokens spend) (sp_chainSlugs spend) newest)
  end.

Record RunSizeStops := mkRunSizeStops { rs_stops : Z; rs_noticeSince : option Z }.
Definition runSizeStopHold (spend : TaskSpend) : option RunSizeStops :=
  if sp_sizeStops spend =? 0 then None else Some (mkRunSizeStops (sp_sizeStops spend) (sp_sizeStopsSince spend)).

Record TaskTokenUsage := mkTaskTokenUsage { tu_tokens : Z; tu_noticeSince : option Z }.
Definition tokenCeilingHold (spend : TaskSpend) : option TaskTokenUsage :=
  if sp_sinceTokens spend <? TASK_TOKEN_CEILING then None
  else Some (mkTaskTokenUsage (sp_sinceTokens spend) (sp_adminAt spend)).

Record TaskUsageSoFar := mkTaskUsage {
  us_runs : Z; us_tokens : Z; us_sinceAdminReply : option (Z * Z); us_handoffRounds : Z
}.
Definition loadTaskUsageSoFar (db : TaskDb) (task : string) : TaskUsageSoFar :=
  let spend := loadTaskSpend db task in
  mkTaskUsage (sp_runs spend) (sp_tokens spend)
    (match sp_adminAt spend with Some _ => Some (sp_sinceRuns spend, sp_sinceTokens spend) | None => None end)
    (sp_rounds spend).
End Actors.

(** ** The chain is the leading run of handoffs *)

(** The longest prefix whose elements satisfy [p]. *)
Fixpoint leading {A} (p : A -> bool) (l : list A) : list A :=
  match l with
  | [] => []
  | x :: l => if p x then x :: leading p l else []
  end.

Lemma leading_prefix {A} (p : A -> bool) l1 l2 : exists k, leading p (l1 ++ l2) = leading p l1 ++ k.
Proof.
  induction l1 as [|x l1 [k IH]]; simpl; [by exists (leading p l2)|].
  destruct (p x); [|by exists []]. rewrite IH. by exists k.
Qed.

Lemma leading_map {A B} (f : A -> B) (p : B -> bool) l : leading p (List.map f l) = List.map f (leading (fun x => p (f x)) l).
Proof. induction l as [|x l IH]; simpl; [done|]. destruct (p (f x)); simpl; congruence. Qed.

Lemma leading_ext {A} (p q : A -> bool) l : (forall x, In x l -> p x = q x) -> leading p l = leading q l.
Proof.
  induction l as [|x l IH]; intros H; simpl; [done|].
  rewrite (H x) by (by left). rewrite IH by (intros; apply H; by right). done.
Qed.

Section Chain.
Context {A : Type} (at_ : A -> Z) (p : A -> bool).

Lemma chain_leading l : StronglySorted (fun a b => at_ b < at_ a) l ->
  List.filter (fun x => p x && after (at_ x) (maxO (List.map (fun y => Some (at_ y)) (List.filter (fun y => negb (p y)) l)))) l
  = leading p l.
Proof.
  induction 1 as [|x l Hs IH Hx]; [done|]. rewrite List.Forall_forall in Hx. simpl.
  destruct (p x) eqn:Hp; simpl.
  - replace (after (at_ x) _) with true; [by rewrite IH|].
    symmetry. apply after_maxO. intros y [z [[= <-] Hz]]%in_map_iff. apply filter_In in Hz as [Hz _]. by apply Hx.
  - apply filter_nil_iff. intros y Hy. apply andb_false_iff. right. apply not_true_iff_false. intros Ha.
    assert (at_ x < at_ y) as Hlt by (apply (proj1 (after_maxO _ _) Ha); by left).
    apply Hx in Hy. lia.
Qed.

(** A threshold cuts a descending list to a prefix. *)
Lemma threshold_prefix (bound : option Z) l : StronglySorted (fun a b => at_ b <= at_ a) l ->
  exists k, l = List.filter (fun x => after (at_ x) bound) l ++ k.
Proof.
  induction 1 as [|x l Hs [k IH] Hx]; [by exists []|]. rewrite List.Forall_forall in Hx. simpl.
  destruct (after (at_ x) bound) eqn:E; [exists k; simpl; by f_equal|].
  exists (x :: l). rewrite (proj2 (filter_nil_iff _ _)); [done|].
  intros y Hy. destruct bound as [b|]; simpl in *; [|done]. apply Hx in Hy.
  apply Z.ltb_ge in E. apply Z.ltb_ge. lia.
Qed.
End Chain.

Lemma newest_sorted {A} (at_ : A -> Z) n l : StronglySorted (fun a b => at_ b <= at_ a) (newest at_ n l).
Proof.
  unfold newest. pose proof (js_sort_sorted (descending at_) l) as H. revert n.
  induction H as [|x l' Hs IH Hx]; intros [|n]; simpl; try constructor; [apply IH|].
  apply List.Forall_forall. rewrite List.Forall_forall in Hx. intros y Hy.
  assert (In y l') as Hin by (rewrite <- (take_drop n l'); apply in_app_iff; by left).
  specialize (Hx y Hin). unfold descending in Hx. lia.
Qed.

Lemma sorted_strict {A} (at_ : A -> Z) l : StronglySorted (fun a b => at_ b <= at_ a) l -> NoDup (List.map at_ l) ->
  StronglySorted (fun a b => at_ b < at_ a) l.
Proof.
  induction 1 as [|x l Hs IH Hx]; intros Hnd; constructor; inversion_clear Hnd; [by apply IH|].
  rewrite List.Forall_forall in *. intros y Hy. specialize (Hx y Hy).
  assert (at_ x <> at_ y); [|lia]. intros E. apply H. rewrite E. apply list_elem_of_In, in_map_iff. by exists y.
Qed.

(** ** When the admin spoke *)

(** The admin of [team] said something on the task at [t]: a comment, or an answered card. *)
Definition adminWord (db : TaskDb) (task team : string) (t : Z) : Prop :=
  exists c, In c (db_comments db) /\ tc_task c = task /\
    ((adminCommentSql db (Some team) c = true /\ t = tc_created c)
     \/ (adminChoiceSql db (Some team) c = true /\ tc_chosen_at c = Some t)).

Lemma adminComment_person db team c : adminCommentSql db team c = true -> personCommentSql c = true.
Proof. unfold adminCommentSql, personCommentSql. intros [->|[-> _]%andb_true_iff]%orb_true_iff; [apply orb_true_r|done]. Qed.

Lemma adminChoice_person db team c : adminChoiceSql db team c = true -> personChoiceSql db c = true.
Proof. unfold adminChoiceSql, personChoiceSql. intros [[-> _]%andb_true_iff| ->]%orb_true_iff; [done|apply orb_true_r]. Qed.

Lemma adminSpoke_before db task team x : teamOfTask db task = Some team ->
  after x (adminSpokeAtSql db task None) = true <-> forall t, adminWord db task team t -> t < x.
Proof.
  intros Hteam. unfold adminSpokeAtSql. rewrite Hteam, after_maxO. split.
  - intros H t (c & Hc & Ht & Hw).
    set (v := greatest (when (adminCommentSql db (Some team) c && true) (Some (tc_created c)))
                       (when (adminChoiceSql db (Some team) c && true) (tc_chosen_at c))).
    assert (exists m, v = Some m /\ t <= m) as (m & Hm & Hle).
    { subst v. rewrite !andb_true_r. destruct Hw as [[-> ->]|[-> ->]]; simpl.
      - destruct (when _ _); simpl; eexists; (split; [done|lia]).
      - destruct (when _ _); simpl; eexists; (split; [done|lia]). }
    enough (m < x) by lia. apply H. apply in_map_iff. exists c. split; [done|]. apply filter_In. split; [done|].
    unfold onTask. rewrite Ht, String.eqb_refl. simpl. apply orb_true_iff.
    destruct Hw as [[Hw _]|[Hw _]]; [left; by eapply adminComment_person|right; by eapply adminChoice_person].
  - intros H y (c & Hy & [Hc [Ht _]%andb_true_iff]%filter_In)%in_map_iff. apply String.eqb_eq in Ht.
    apply H. exists c. do 2 (split; [done|]). rewrite !andb_true_r in Hy.
    apply greatest_spec in Hy as [[Hy _]|[Hy _]].
    + left. unfold when in Hy. destruct (adminCommentSql _ _ c); by simplify_eq.
    + right. unfold when in Hy. destruct (adminChoiceSql _ _ c); [|done]. by simplify_eq.
Qed.

(** ** A bound on the rounds *)
Section Rounds.
Variable render : Json -> string.
Variable task : string.

Notation rounds db := (sp_rounds (loadTaskSpend render db task)).

(** Runs the scan counts, before it orders and cuts them. *)
Definition counted (db : TaskDb) (r : HeartbeatRun) : bool :=
  equals (hr_task r) task && notNull (hr_started r) && sinceAdmin db task r
  && negb (bool_decide (hr_cancel r = Some HandedBack)).

Definition distinct_starts (db : TaskDb) : Prop := NoDup (List.map startedAt (startedOn db task)).

Lemma counted_started db r : counted db r = true -> hr_started r = Some (startedAt r).
Proof. unfold counted, notNull, startedAt. intros H. brefl. by destruct (hr_started r). Qed.

Lemma recent_strict db n : distinct_starts db ->
  StronglySorted (fun a b => startedAt b < startedAt a) (newest startedAt n (List.filter (counted db) (db_runs db))).
Proof.
  intros Hd. apply sorted_strict; [apply newest_sorted|]. unfold newest.
  assert (NoDup (List.map startedAt (js_sort (descending startedAt) (List.filter (counted db) (db_runs db))))) as Hn.
  { rewrite <- (js_sort_perm (descending startedAt)).
    replace (List.filter (counted db) (db_runs db)) with (List.filter (counted db) (startedOn db task));
      [by apply NoDup_map_filter|].
    unfold startedOn. rewrite filter_filter_and. apply filter_ext. intros r. unfold counted.
    destruct (equals (hr_task r) task), (notNull (hr_started r)); done. }
  revert Hn. generalize (js_sort (descending startedAt) (List.filter (counted db) (db_runs db))) as l. intros l Hn.
  rewrite <- (take_drop n l) in Hn. rewrite List.map_app in Hn. by apply list.NoDup_app in Hn as [Hn _].
Qed.

Lemma handoffChain_leading db : distinct_starts db ->
  handoffChain render db task = leading (isHandoff render db task) (recentRuns db task).
Proof.
  intros Hd. unfold handoffChain. cbv zeta. rewrite <- (chain_leading startedAt); [|by apply recent_strict].
  erewrite (List.map_ext_in hr_started); [done|].
  intros r [Hr _]%filter_In. apply newest_In, filter_In in Hr as [_ Hr]. by apply (counted_started db).
Qed.

Lemma distinct_incl (l k : list HeartbeatRun) : (forall r, In r l -> In r k) ->
  (length (distinctWakeups l) <= length (distinctWakeups k))%nat.
Proof.
  intros H. unfold distinctWakeups. apply submseteq_length, NoDup_submseteq; [apply NoDup_remove_dups|].
  intros x. rewrite !elem_of_remove_dups, !list_elem_of_omap. intros (r & Hr & E). exists r. split; [|done].
  apply list_elem_of_In, H. by apply list_elem_of_In.
Qed.

Lemma omap_cons_eq {A B} (g : A -> option B) x l :
  omap g (x :: l) = match g x with Some y => y :: omap g l | None => omap g l end.
Proof. done. Qed.

Lemma distinct_cons r l : (length (distinctWakeups (r :: l)) <= S (length (distinctWakeups l)))%nat.
Proof.
  unfold distinctWakeups. rewrite omap_cons_eq.
  destruct (hr_wakeup r) as [w|]; [|lia]. cbn [remove_dups]. destruct (decide_rel _ _ _); cbn [length]; lia.
Qed.

Lemma leading_incl {A} (p : A -> bool) l k x : In x (leading p l) -> In x (leading p (l ++ k)).
Proof. destruct (leading_prefix p l k) as [k' ->]. intros H. apply in_app_iff. by left. Qed.

Lemma rounds_leading db : distinct_starts db ->
  rounds db = Z.of_nat (length (distinctWakeups (leading (isHandoff render db task) (recentRuns db task)))).
Proof. intros Hd. unfold loadTaskSpend. cbn [sp_rounds]. by rewrite handoffChain_leading. Qed.

(** No hold means fewer rounds than the limit. *)
Lemma not_held db : handoffHold (loadTaskSpend render db task) = None -> rounds db < HANDOFF_ROUND_LIMIT.
Proof.
  unfold handoffHold. destruct (sp_newest _) as [n|] eqn:E.
  - destruct (Z.ltb_spec (rounds db) HANDOFF_ROUND_LIMIT); [done|discriminate].
  - intros _. unfold loadTaskSpend in *. cbn [sp_newest sp_rounds] in *. rewrite maxO_none in E.
    assert (handoffChain render db task = []) as ->; [|done].
    destruct (handoffChain render db task) as [|r l] eqn:Hc; [done|]. exfalso. apply (E (startedAt r)).
    left. apply (counted_started db).
    assert (In r (handoffChain render db task)) as [Hr _]%filter_In by (rewrite Hc; by left).
    by apply newest_In, filter_In in Hr as [_ Hr].
Qed.

(** ** Steps of a task's history

    Runs start one at a time, each later than the ones before and only when the handoff
    limit does not hold the task; a run's row is written while it runs; people and agents
    comment and answer cards; wakeups come and go, but a row a run was dispatched from keeps
    its source, its attribution and its payload's actor. *)

Definition sameShape (r r' : HeartbeatRun) : Prop :=
  hr_task r' = hr_task r /\ hr_started r' = hr_started r /\ hr_wakeup r' = hr_wakeup r
  /\ bool_decide (hr_cancel r' = Some HandedBack) = bool_decide (hr_cancel r = Some HandedBack).

Definition answer (at_ : Z) (user : option string) (c : TaskComment) : TaskComment :=
  mkTaskComment (tc_id c) (tc_task c) (tc_created c) (tc_run c) (tc_member c) (tc_user c) (tc_api_key c)
    (Some at_) user true (tc_type c) (tc_kind c).

Inductive history_step : TaskDb -> TaskDb -> Prop :=
| step_start db r s : hr_started r = Some s -> (forall r', In r' (startedOn db task) -> startedAt r' < s) ->
    handoffHold (loadTaskSpend render db task) = None ->
    history_step db (with_runs (db_runs db ++ [r]) db)
| step_run db (f : HeartbeatRun -> HeartbeatRun) : (forall r, sameShape r (f r)) ->
    history_step db (with_runs (List.map f (db_runs db)) db)
| step_comment db c : history_step db (with_comments (db_comments db ++ [c]) db)
| step_answer db id at_ user :
    history_step db (with_comments (List.map (fun c => if String.eqb (tc_id c) id && isNull (tc_chosen_at c)
                                                       then answer at_ user c else c) (db_comments db)) db)
| step_wakeups db ws :
    (forall r, In r (startedOn db task) -> isHandoff render (with_wakeups ws db) task r = isHandoff render db task r) ->
    history_step db (with_wakeups ws db).

Lemma sameShape_started r r' : sameShape r r' -> startedAt r' = startedAt r.
Proof. unfold startedAt. by intros (_ & -> & _). Qed.

Lemma start_distinct db r s : hr_started r = Some s -> (forall r', In r' (startedOn db task) -> startedAt r' < s) ->
  distinct_starts db -> distinct_starts (with_runs (db_runs db ++ [r]) db).
Proof.
  intros Hs Hlt Hd. unfold distinct_starts, startedOn in *. cbn [db_runs with_runs].
  rewrite List.filter_app, List.map_app. apply list.NoDup_app. split_and!; [done| |].
  - intros x Hx%list_elem_of_In Hy%list_elem_of_In. apply in_map_iff in Hx as (r' & <- & Hr'), Hy as (y & Hy & Hin).
    specialize (Hlt r' Hr'). apply filter_In in Hin as [[<-|[]] _].
    unfold startedAt in Hy, Hlt at 1. rewrite Hs in Hy. simpl in Hy. unfold startedAt in Hy. lia.
  - simpl. destruct (_ && _); simpl; repeat constructor; set_solver.
Qed.

Lemma start_rounds db r s : hr_started r = Some s -> (forall r', In r' (startedOn db task) -> startedAt r' < s) ->
  distinct_starts db -> handoffHold (loadTaskSpend render db task) = None ->
  rounds (with_runs (db_runs db ++ [r]) db) <= HANDOFF_ROUND_LIMIT.
Proof.
  intros Hs Hlt Hd Hfree. set (db' := with_runs (db_runs db ++ [r]) db).
  rewrite rounds_leading by (by eapply start_distinct). apply not_held in Hfree. rewrite rounds_leading in Hfree by done.
  change (isHandoff render db' task) with (isHandoff render db task).
  set (S := js_sort (descending startedAt) (List.filter (counted db) (db_runs db))).
  assert (recentRuns db' task = recentRuns db task \/ recentRuns db' task = r :: take 63 S) as [->| ->].
  { unfold recentRuns. fold (counted db) (counted db'). change (counted db') with (counted db). cbn [db_runs with_runs db'].
    rewrite List.filter_app. simpl. destruct (counted db r) eqn:Hc; [right|left; by rewrite app_nil_r].
    unfold newest. rewrite js_sort_front; [done|]. intros y [Hy Hcy]%filter_In. unfold descending.
    assert (startedAt y < s) as Hlt'.
    { apply Hlt. apply filter_In. split; [done|]. by apply andb_true_iff in Hcy as [[Hcy _]%andb_true_iff _]. }
    unfold startedAt at 1. rewrite Hs. simpl. lia. }
  { unfold HANDOFF_ROUND_LIMIT in *. lia. }
  simpl leading. destruct (isHandoff render db task r); [|cbn; unfold HANDOFF_ROUND_LIMIT; lia].
  pose proof (distinct_cons r (leading (isHandoff render db task) (take 63 S))).
  pose proof (distinct_incl (leading (isHandoff render db task) (take 63 S))
                (leading (isHandoff render db task) (recentRuns db task))) as Hin.
  specialize (Hin ltac:(intros x Hx; change (recentRuns db task) with (take 64 S);
    rewrite <- (take_drop 63 (take 64 S)), take_take; by apply leading_incl)).
  unfold HANDOFF_ROUND_LIMIT in *. lia.
Qed.

Lemma run_rounds db f : (forall r, sameShape r (f r)) -> distinct_starts db ->
  distinct_starts (with_runs (List.map f (db_runs db)) db)
  /\ rounds (with_runs (List.map f (db_runs db)) db) = rounds db.
Proof.
  intros Hf Hd. set (db' := with_runs (List.map f (db_runs db)) db).
  assert (startedOn db' task = List.map f (startedOn db task)) as Hon.
  { unfold startedOn. cbn [db_runs with_runs db']. rewrite filter_map. f_equal. apply filter_ext. intros r.
    destruct (Hf r) as (-> & -> & _). done. }
  assert (distinct_starts db') as Hd'.
  { unfold distinct_starts. rewrite Hon, List.map_map. erewrite List.map_ext; [exact Hd|].
    intros r. by apply sameShape_started. }
  split; [done|]. rewrite !rounds_leading by done.
  assert (recentRuns db' task = List.map f (recentRuns db task)) as ->.
  { unfold recentRuns. cbn [db_runs with_runs db']. rewrite filter_map.
    rewrite (filter_ext _ (counted db)).
    - unfold newest. rewrite js_sort_map; [by rewrite firstn_map|].
      intros x y. unfold descending. by rewrite !(sameShape_started _ _ (Hf _)).
    - intros r. unfold counted, sinceAdmin. destruct (Hf r) as (-> & -> & _ & ->). done. }
  change (isHandoff render db' task) with (isHandoff render db task). rewrite leading_map.
  rewrite (leading_ext _ (isHandoff render db task)).
  - do 2 f_equal. unfold distinctWakeups. f_equal. generalize (leading (isHandoff render db task) (recentRuns db task)) as l.
    induction l as [|r l IH]; [done|]. cbn [List.map]. rewrite !omap_cons_eq, IH. by destruct (Hf r) as (_ & _ & -> & _).
  - intros r _. unfold isHandoff. by destruct (Hf r) as (_ & _ & -> & _).
Qed.

Lemma spoken_rounds db cs : (forall team t, adminWord db task team t -> adminWord (with_comments cs db) task team t) ->
  distinct_starts db -> rounds (with_comments cs db) <= rounds db.
Proof.
  intros Hmore Hd. set (db' := with_comments cs db). rewrite !rounds_leading by done.
  change (isHandoff render db' task) with (isHandoff render db task).
  set (L := List.filter (counted db) (db_runs db)).
  assert (recentRuns db' task = newest startedAt HANDOFF_SCAN_RUNS
            (List.filter (fun r => after (startedAt r) (adminSpokeAtSql db' task None)) L)) as ->.
  { unfold recentRuns, L. cbn [db_runs with_comments db']. rewrite filter_filter_and. f_equal. apply filter_ext. intros r.
    unfold counted, sinceAdmin, startedAt. destruct (hr_started r) as [s|]; simpl; [|by rewrite andb_false_r].
    destruct (equals _ _); simpl; [|done]. destruct (after s (adminSpokeAtSql db' task None)) eqn:E'; simpl.
    - assert (after s (adminSpokeAtSql db task None) = true) as ->; [|by rewrite andb_true_r].
      destruct (teamOfTask db task) as [team|] eqn:Ht; [|unfold adminSpokeAtSql; by rewrite Ht].
      apply (adminSpoke_before db task team s Ht). intros t Hw.
      apply (proj1 (adminSpoke_before db' task team s Ht) E'). by apply Hmore.
    - by rewrite !andb_false_r. }
  apply inj_le, distinct_incl. unfold newest. rewrite js_sort_filter by apply _.
  destruct (threshold_prefix startedAt (adminSpokeAtSql db' task None) (js_sort (descending startedAt) L)) as [k Hk].
  { pose proof (newest_sorted startedAt (length (js_sort (descending startedAt) L)) L) as Hs. unfold newest in Hs.
    by rewrite firstn_all in Hs. }
  intros r Hr. change (recentRuns db task) with (take HANDOFF_SCAN_RUNS (js_sort (descending startedAt) L)).
  rewrite Hk, take_app. by apply leading_incl.
Qed.

Lemma comment_more db c team t : adminWord db task team t -> adminWord (with_comments (db_comments db ++ [c]) db) task team t.
Proof. intros (c' & Hc & H). exists c'. split; [apply in_app_iff; by left|done]. Qed.

Lemma answer_more db id at_ user team t : adminWord db task team t ->
  adminWord (with_comments (List.map (fun c => if String.eqb (tc_id c) id && isNull (tc_chosen_at c)
                                               then answer at_ user c else c) (db_comments db)) db) task team t.
Proof.
  intros (c & Hc & Ht & H). exists (if String.eqb (tc_id c) id && isNull (tc_chosen_at c) then answer at_ user c else c).
  split; [apply in_map_iff; by exists c|]. destruct (_ && _) eqn:E; [|done].
  split; [done|]. left. destruct H as [[H1 H2]|[_ H2]]; [done|].
  apply andb_true_iff in E as [_ E]. by rewrite H2 in E.
Qed.

Lemma wakeups_rounds db ws :
  (forall r, In r (startedOn db task) -> isHandoff render (with_wakeups ws db) task r = isHandoff render db task r) ->
  distinct_starts db -> rounds (with_wakeups ws db) = rounds db.
Proof.
  intros Hw Hd. rewrite !rounds_leading by done. change (recentRuns (with_wakeups ws db) task) with (recentRuns db task).
  rewrite (leading_ext _ (isHandoff render db task)); [done|]. intros r [Hr Hc]%newest_In%filter_In. apply Hw, filter_In.
  split; [done|]. by apply andb_true_iff in Hc as [[Hc _]%andb_true_iff _].
Qed.

Lemma history_invariant db db' : history_step db db' -> distinct_starts db /\ rounds db <= HANDOFF_ROUND_LIMIT ->
  distinct_starts db' /\ rounds db' <= HANDOFF_ROUND_LIMIT.
Proof.
  intros Hs [Hd Hr]. destruct Hs as [db r s Hst Hlt Hfree|db f Hf|db c|db id at_ user|db ws Hw].
  - split; [by eapply start_distinct|by eapply start_rounds].
  - destruct (run_rounds db f Hf Hd) as [Hd' E]. by rewrite E.
  - split; [done|]. etransitivity; [apply spoken_rounds; [apply comment_more|done]|done].
  - split; [done|]. etransitivity; [apply spoken_rounds; [intros; by apply answer_more|done]|done].
  - split; [done|]. by rewrite wakeups_rounds.
Qed.
End Rounds.

(** A person said something on the task at [t]: a comment, or an answered card. *)
Definition personWord (db : TaskDb) (task : string) (t : Z) : Prop :=
  exists c, In c (db_comments db) /\ tc_task c = task /\
    ((personCommentSql c = true /\ t = tc_created c) \/ (personChoiceSql db c = true /\ tc_chosen_at c = Some t)).

Lemma spokeSince_person db task since : spokeSinceSql db (Some task) since None = true <->
  exists t, personWord db task t /\ after t since = true.
Proof.
  unfold spokeSinceSql. rewrite existsb_exists. split.
  - intros (c & Hc & [Ht%String.eqb_eq [[Hp Ha]%andb_true_iff|[Hp Ha]%andb_true_iff]%orb_true_iff]%andb_true_iff).
    + exists (tc_created c). split; [|done]. exists c. eauto.
    + destruct (tc_chosen_at c) as [t|] eqn:E; [|done]. exists t. split; [|done]. exists c. eauto.
  - intros (t & (c & Hc & Ht & H) & Ha). exists c. split; [done|]. unfold onTask. rewrite Ht, String.eqb_refl. simpl.
    destruct H as [[-> ->]|[-> ->]]; simpl; rewrite Ha; [done|apply orb_true_r].
Qed.

Lemma spokeSince_admin db task since team : spokeSinceSql db (Some task) since (Some (Some team)) = true <->
  exists t, adminWord db task team t /\ after t since = true.
Proof.
  unfold spokeSinceSql. rewrite existsb_exists. split.
  - intros (c & Hc & [Ht%String.eqb_eq [[Hp Ha]%andb_true_iff|[Hp Ha]%andb_true_iff]%orb_true_iff]%andb_true_iff).
    + exists (tc_created c). split; [|done]. exists c. eauto.
    + destruct (tc_chosen_at c) as [t|] eqn:E; [|done]. exists t. split; [|done]. exists c. eauto.
  - intros (t & (c & Hc & Ht & H) & Ha). exists c. split; [done|]. unfold onTask. rewrite Ht, String.eqb_refl. simpl.
    destruct H as [[-> ->]|[-> ->]]; simpl; rewrite Ha; [done|apply orb_true_r].
Qed.

Lemma adminWord_person db task team t : adminWord db task team t -> personWord db task t.
Proof.
  intros (c & Hc & Ht & H). exists c. do 2 (split; [done|]).
  destruct H as [[H ->]|[H ->]]; [left; split; [by eapply adminComment_person|done]|right; split; [by eapply adminChoice_person|done]].
Qed.

Lemma lastRan_before db memberId task t : (forall r, In r (startedOn db task) -> startedAt r < t) ->
  after t (lastRanAt db memberId (Some task)) = true.
Proof.
  intros H. unfold lastRanAt. apply after_maxO. intros y (r & Hy & [Hr Hp]%filter_In)%in_map_iff. brefl.
  assert (startedAt r = y) as <- by (unfold startedAt; by rewrite Hy). apply H, filter_In. split; [done|].
  apply andb_true_iff. split; [by apply bool_decide_eq_true|]. unfold notNull. by rewrite Hy.
Qed.

(** The shape of an exemption for a conversational wakeup on a task. *)
Lemma conversational_exemption render db memberId teamId task source payload wakeupId :
  task <> "" -> conversationalSource source = true -> isPlainObject (payload !! "triggered_by") = false ->
  let run := wakeupOf db wakeupId ≫= w_run in
  let since := lastRanAt db memberId (Some task) in
  dispatchSuppressionExempt render db memberId teamId (Some task) source payload wakeupId
  = mkExemption (isNull run || spokeSinceSql db (Some task) since None)
      (spokeSinceSql db (Some task) since (Some (Some (default teamId (teamOfTask db task))))).
Proof.
  intros Hne Hc Ht run since. unfold dispatchSuppressionExempt. rewrite Hc, Ht.
  replace (decisionSource source) with false by (destruct source; done).
  assert (truthy (Some task) = Some task) as -> by (by destruct task). done.
Qed.

Lemma isNull_since db task team t r : teamOfTask db task = Some team -> adminWord db task team t ->
  startedAt r < t -> sinceAdmin db task r = false.
Proof.
  intros Hteam Hw Hlt. unfold sinceAdmin. destruct (hr_started r) as [s|] eqn:E; [|done].
  apply not_true_iff_false. rewrite (adminSpoke_before _ _ team) by done. intros H. specialize (H t Hw).
  unfold startedAt in Hlt. rewrite E in Hlt. simpl in Hlt. lia.
Qed.

Lemma countZ_none {A} (p : A -> bool) l : (forall x, In x l -> p x = false) -> countZ p l = 0.
Proof.
  induction l as [|x l IH]; intros H; [done|]. rewrite countZ_cons, (H x) by (by left).
  rewrite IH by (intros; apply H; by right). done.
Qed.

(** A word of the admin after every run exempts a conversational wakeup from everything. *)
Lemma admin_word_exempts render db task team t memberId teamId source payload wakeupId :
  teamOfTask db task = Some team -> task <> "" -> adminWord db task team t ->
  (forall r, In r (startedOn db task) -> startedAt r < t) ->
  conversationalSource source = true -> isPlainObject (payload !! "triggered_by") = false ->
  dispatchSuppressionExempt render db memberId teamId (Some task) source payload wakeupId = FULL_EXEMPTION.
Proof.
  intros Hteam Hne Hw Hlt Hc Ht. rewrite conversational_exemption by done. rewrite Hteam. cbn [default id].
  pose proof (lastRan_before db memberId task t Hlt) as Ha.
  rewrite (proj2 (spokeSince_admin db task _ team)) by eauto.
  rewrite (proj2 (spokeSince_person db task _)) by eauto using adminWord_person. by rewrite orb_true_r.
Qed.

(** The admin's last word before an instant. *)
Lemma adminSpoke_until db task team b x : teamOfTask db task = Some team ->
  (forall t, adminWord db task team t -> t < b -> t < x) -> after x (adminSpokeAtSql db task (Some b)) = true.
Proof.
  intros Hteam H. unfold adminSpokeAtSql. rewrite Hteam, after_maxO.
  intros y (c & Hy & [Hc [Ht _]%andb_true_iff]%filter_In)%in_map_iff. apply String.eqb_eq in Ht.
  apply greatest_spec in Hy as [[Hy _]|[Hy _]]; unfold when in Hy.
  - destruct (adminCommentSql db (Some team) c && _) eqn:E; [|done]. apply andb_true_iff in E as [E Hlt%Z.ltb_lt].
    injection Hy as <-. apply H; [|done]. exists c. do 2 (split; [done|]). by left.
  - destruct (adminChoiceSql db (Some team) c && _) eqn:E; [|done]. apply andb_true_iff in E as [E Hlt]. rewrite Hy in Hlt.
    apply Z.ltb_lt in Hlt. apply H; [|done]. exists c. do 2 (split; [done|]). by right.
Qed.

(** ** What the holds promise *)

(** The handoff limit ends every agent-to-agent loop. However runs start (one at a time,
    each let through by the limit), whatever is written to them, and whatever comments,
    answers and wakeups arrive, a task that starts within the limit never counts more than
    [HANDOFF_ROUND_LIMIT] rounds, and at the limit it is held. *)
Theorem handoff_loop_bounded render task db db' :
  distinct_starts task db -> sp_rounds (loadTaskSpend render db task) <= HANDOFF_ROUND_LIMIT ->
  rtc (history_step render task) db db' ->
  sp_rounds (loadTaskSpend render db' task) <= HANDOFF_ROUND_LIMIT
  /\ (sp_rounds (loadTaskSpend render db' task) = HANDOFF_ROUND_LIMIT ->
      exists h, handoffHold (loadTaskSpend render db' task) = Some h).
Proof.
  intros Hd Hr Hs. assert (distinct_starts task db' /\ sp_rounds (loadTaskSpend render db' task) <= HANDOFF_ROUND_LIMIT) as [_ Hle].
  { revert Hd Hr. induction Hs as [|x y z Hxy _ IH]; [done|]. intros Hd Hr.
    destruct (history_invariant _ _ _ _ Hxy (conj Hd Hr)) as [? ?]. by apply IH. }
  split; [done|]. intros E. destruct (handoffHold _) as [h|] eqn:Eh; [by exists h|]. apply not_held in Eh. lia.
Qed.

(** The run was started for a mention, a comment or a reply that another run raised, and not
    for a press of the admin's. *)
Definition agentRaised (render : Json -> string) (db : TaskDb) (task : string) (r : HeartbeatRun) : Prop :=
  exists id w run, hr_wakeup r = Some id /\ List.find (hasId id) (db_wakes db) = Some w
    /\ (w_source w = Mention \/ w_source w = Comment \/ w_source w = Reply) /\ w_run w = Some run
    /\ adminTriggeredSql render db (w_payload w) (teamOfTask db task) = Some false.

Lemma agentRaised_spec render db task r : isHandoff render db task r = true <-> agentRaised render db task r.
Proof.
  unfold isHandoff, agentRaised, wakeupOf. split.
  - destruct (hr_wakeup r) as [id|]; [|done]. destruct (List.find _ _) as [w|] eqn:Ef; [|done]. intros H. exists id, w.
    assert (conversationalSource (w_source w) = true /\ notNull (w_run w) = true
            /\ adminTriggeredSql render db (w_payload w) (teamOfTask db task) = Some false) as (Hs & Hr & Ha)
      by (destruct (conversationalSource _), (notNull _), (adminTriggeredSql _ _ _ _) as [[]|]; done).
    destruct (w_run w) as [run|]; [|done]. exists run. split_and!; try done.
    destruct (w_source w); try discriminate Hs; auto.
  - intros (id & w & run & -> & -> & Hs & -> & ->).
    assert (conversationalSource (w_source w) = true) as ->
      by (destruct Hs as [->|[->| ->]]; reflexivity). done.
Qed.

Lemma leading_all {A} (p : A -> bool) l : Forall (fun x => p x = true) (leading p l).
Proof. induction l as [|x l IH]; cbn; [constructor|]. destruct (p x) eqn:E; by constructor. Qed.

Lemma leading_rest {A} (p : A -> bool) l : exists k, l = leading p l ++ k /\ match k with x :: _ => p x = false | [] => True end.
Proof.
  induction l as [|x l (k & E & Hk)]; [by exists []|]. cbn. destruct (p x) eqn:Ep; [|by exists (x :: l)].
  exists k. split; [cbn; by f_equal|done].
Qed.

Lemma leading_front {A} (p : A -> bool) l k : Forall (fun x => p x = true) l -> exists k', leading p (l ++ k) = l ++ k'.
Proof. induction 1 as [|x l Hx _ [k' IH]]; [by exists (leading p k)|]. exists k'. cbn. by rewrite Hx, IH. Qed.

(** The newest start of the front of the scan is that of its first run. *)
Lemma chain_newest task db (p : HeartbeatRun -> bool) n : distinct_starts task db ->
  maxO (List.map hr_started (leading p (newest startedAt 64 (List.filter (counted task db) (db_runs db))))) = Some n ->
  exists r, hd_error (leading p (newest startedAt 64 (List.filter (counted task db) (db_runs db)))) = Some r /\ n = startedAt r.
Proof.
  intros Hd. pose proof (recent_strict task db 64 Hd) as Hs.
  assert (forall r, In r (newest startedAt 64 (List.filter (counted task db) (db_runs db))) -> hr_started r = Some (startedAt r)) as Hst
    by (intros r Hr; apply newest_In, filter_In in Hr as [_ Hr]; by apply (counted_started task db)).
  revert Hs Hst. generalize (newest startedAt 64 (List.filter (counted task db) (db_runs db))) as l.
  intros [|r l] Hs Hst; [done|]. cbn [leading]. destruct (p r); [|done]. intros [Hin Hmax]%maxO_some. exists r. split; [done|].
  inversion Hs as [|? ? _ Hx]; subst. rewrite List.Forall_forall in Hx.
  assert (startedAt r <= n) by (apply Hmax; left; apply Hst; by left).
  destruct Hin as [Hn|(x & Hn & Hx')%in_map_iff]; [rewrite Hst in Hn by (by left); by simplify_eq|].
  assert (In x l) as Hl by (destruct (leading_rest p l) as (k & -> & _); apply in_app_iff; by left).
  specialize (Hx x Hl). rewrite Hst in Hn by (by right). simplify_eq. lia.
Qed.

(** C18. What the handoff limit counts. With distinct start instants, of the newest 64 runs of
    a task that started since the admin last spoke on it, handed-back ones apart: the task is
    held exactly when the newest of them in a row, eight different wakeups at least, were all
    started for what an agent's run raised; the hold gives the number of those wakeups, the
    tokens of those runs and the start of the newest. *)
Theorem handoff_limit_exact render db task : distinct_starts task db ->
  let recent := newest startedAt 64 (List.filter (counted task db) (db_runs db)) in
  (forall h, handoffHold (loadTaskSpend render db task) = Some h ->
     exists front rest, recent = front ++ rest /\ Forall (agentRaised render db task) front
       /\ match rest with r :: _ => ~ agentRaised render db task r | [] => True end
       /\ ho_rounds h = Z.of_nat (length (distinctWakeups front)) /\ 8 <= ho_rounds h
       /\ ho_tokens h = sumZ runTokens front /\ (exists r, hd_error front = Some r /\ ho_noticeSince h = startedAt r))
  /\ (forall front rest, recent = front ++ rest -> Forall (agentRaised render db task) front ->
        8 <= Z.of_nat (length (distinctWakeups front)) -> exists h, handoffHold (loadTaskSpend render db task) = Some h).
Proof.
  intros Hd recent. pose proof (handoffChain_leading render task db Hd) as Hc.
  change (recentRuns db task) with recent in Hc. split.
  - intros h Hh. destruct (leading_rest (isHandoff render db task) recent) as (rest & E & Hrest).
    exists (leading (isHandoff render db task) recent), rest. split; [done|].
    unfold handoffHold, loadTaskSpend in Hh. cbn [sp_newest sp_rounds sp_chainTokens sp_chainSlugs] in Hh. rewrite Hc in Hh.
    destruct (maxO _) as [n|] eqn:En; [|done]. destruct (Z.ltb_spec (Z.of_nat (length (distinctWakeups (leading (isHandoff render db task) recent)))) HANDOFF_ROUND_LIMIT); [done|].
    injection Hh as <-. cbn [ho_rounds ho_tokens ho_noticeSince]. split_and!; try done.
    + eapply List.Forall_impl; [|apply leading_all]. intros r. apply agentRaised_spec.
    + destruct rest as [|r rest]; [done|]. by rewrite <- agentRaised_spec, not_true_iff_false.
    + by apply (chain_newest task db (isHandoff render db task)).
  - intros front rest E Hf H8. destruct (handoffHold _) as [h|] eqn:Eh; [by exists h|]. exfalso. apply not_held in Eh.
    unfold loadTaskSpend in Eh. cbn [sp_rounds] in Eh. rewrite Hc, E in Eh.
    destruct (leading_front (isHandoff render db task) front rest) as [k Hk].
    { eapply List.Forall_impl; [|exact Hf]. intros r. apply agentRaised_spec. }
    rewrite Hk in Eh. pose proof (distinct_incl front (front ++ k)) as Hin.
    specialize (Hin ltac:(intros x Hx; apply in_app_iff; by left)). unfold HANDOFF_ROUND_LIMIT in Eh. lia.
Qed.

(** The count the limit reads is the leading run of handoffs: with distinct start
    instants, the chain the query returns is exactly the handoff runs at the front of the
    task's newest [HANDOFF_SCAN_RUNS] runs since the admin spoke, handed-back runs apart. *)
Theorem handoff_chain_is_leading render db task : distinct_starts task db ->
  handoffChain render db task
  = leading (isHandoff render db task) (newest startedAt HANDOFF_SCAN_RUNS (List.filter (counted task db) (db_runs db))).
Proof. apply handoffChain_leading. Qed.

(** No hard stop holds a task whose runs all started before the admin's word. *)
Lemma held_lifted render db task team t :
  teamOfTask db task = Some team -> task <> "" -> adminWord db task team t ->
  (forall r, In r (startedOn db task) -> startedAt r < t) ->
  handoffHold (loadTaskSpend render db task) = None
  /\ tokenCeilingHold (loadTaskSpend render db task) = None
  /\ runSizeStopHold (loadTaskSpend render db task) = None.
Proof.
  intros Hteam Hne Hw Hlt.
  assert (forall r, In r (startedOn db task) -> sinceAdmin db task r = false) as Hs
    by (intros r Hr; eapply isNull_since; eauto).
  assert (handoffChain render db task = []) as Hchain.
  { unfold handoffChain, recentRuns. cbv zeta.
    assert (List.filter (counted task db) (db_runs db) = []) as Hf; [|unfold counted in Hf; by rewrite Hf].
    apply filter_nil_iff. intros r Hr. destruct (counted task db r) eqn:E; [|done].
    apply andb_true_iff in E as [[E1 E2]%andb_true_iff _]. rewrite Hs in E2; [done|]. by apply filter_In. }
  unfold handoffHold, tokenCeilingHold, runSizeStopHold, loadTaskSpend. cbn [sp_newest sp_sinceTokens sp_sizeStops].
  rewrite Hchain. rewrite (proj2 (filter_nil_iff (sinceAdmin db task) (startedOn db task)) Hs).
  rewrite !countZ_none by (intros r Hr; by rewrite (Hs r Hr)). by split_and!.
Qed.

(** The admin's word lifts every hard stop. Once the admin has spoken on a task after all
    its runs started, none of the handoff limit, the token ceiling and the size stop holds it,
    and every conversational wakeup on it is exempt from every suppression. *)
Theorem admin_reply_lifts_holds render db task team t :
  teamOfTask db task = Some team -> task <> "" -> adminWord db task team t ->
  (forall r, In r (startedOn db task) -> startedAt r < t) ->
  handoffHold (loadTaskSpend render db task) = None
  /\ tokenCeilingHold (loadTaskSpend render db task) = None
  /\ runSizeStopHold (loadTaskSpend render db task) = None
  /\ (forall memberId teamId source payload wakeupId,
        conversationalSource source = true -> isPlainObject (payload !! "triggered_by") = false ->
        dispatchSuppressionExempt render db memberId teamId (Some task) source payload wakeupId = FULL_EXEMPTION).
Proof.
  intros Hteam Hne Hw Hlt. destruct (held_lifted render db task team t) as (H1 & H2 & H3); try done. split_and!; try done.
  intros memberId teamId source payload wakeupId Hc Ht. by eapply admin_word_exempts.
Qed.

(** An agent cannot talk its way past a hold. A comment, mention or reply an agent's run
    raised, on a task no person has spoken on since the woken agent last ran there, is exempt
    from nothing. *)
Theorem agent_mention_skips_nothing render db memberId teamId task source payload wakeupId w run :
  task <> "" -> conversationalSource source = true -> isPlainObject (payload !! "triggered_by") = false ->
  wakeupOf db (Some wakeupId) = Some w -> w_run w = Some run ->
  (forall t, personWord db task t -> exists last, lastRanAt db memberId (Some task) = Some last /\ t <= last) ->
  dispatchSuppressionExempt render db memberId teamId (Some task) source payload (Some wakeupId) = NO_EXEMPTION.
Proof.
  intros Hne Hc Ht Hw Hrun Hsilent. rewrite conversational_exemption by done. rewrite Hw. cbn [mbind option_bind]. rewrite Hrun.
  assert (forall t, personWord db task t -> after t (lastRanAt db memberId (Some task)) = false) as Hno.
  { intros t Hp. destruct (Hsilent t Hp) as (last & -> & Hle). simpl. apply Z.ltb_ge. lia. }
  unfold NO_EXEMPTION. f_equal; cbn [isNull orb].
  - apply not_true_iff_false. rewrite spokeSince_person. intros (t & Hp & Ha). by rewrite Hno in Ha.
  - apply not_true_iff_false. rewrite spokeSince_admin. intros (t & Hp%adminWord_person & Ha). by rewrite Hno in Ha.
Qed.

(** ** A task two agents hand to each other *)

Definition demo_wake (id : string) (source : WakeupSource) (run : option string) : Wakeup :=
  mkWakeup id "dev" "team" source ∅ Completed None run 0 0 None None None None None None.
Definition demo_hrun (id member wake : string) (at_ : Z) : HeartbeatRun :=
  mkHeartbeatRun id member "team" (Some "T") (Some wake) KindTask RunSucceeded at_ (Some at_) (Some (at_ + 5)) false None
    None 1000 200 0 None (Some 0) None.
Definition demo_ccomment (at_ : Z) (user : option string) : TaskComment :=
  mkTaskComment "c1" "T" at_ None None user None None None false TextComment None.

Definition demo_taskdb : TaskDb :=
  mkTaskDb [demo_hrun "r1" "dev" "w1" 10; demo_hrun "r2" "qa" "w2" 20] [demo_ccomment 5 (Some "boss")]
    [demo_wake "w1" Heartbeat None; demo_wake "w2" Mention (Some "r1"); demo_wake "w3" Reply (Some "r2")]
    [] [("T", "team")] ["root"] [mkMemberUser "m-boss" "boss" "team" true]
    [mkAgentHandle "dev" "dev" 60; mkAgentHandle "qa" "qa" 60] None.

Definition demo_next : TaskDb := with_runs (db_runs demo_taskdb ++ [demo_hrun "r3" "dev" "w3" 30]) demo_taskdb.

Lemma handoff_loop_bounded_witness :
  sp_rounds (loadTaskSpend (fun _ => "") demo_taskdb "T") = 1
  /\ sp_rounds (loadTaskSpend (fun _ => "") demo_next "T") <= HANDOFF_ROUND_LIMIT.
Proof.
  split; [reflexivity|].
  refine (proj1 (handoff_loop_bounded (fun _ => "") "T" demo_taskdb demo_next _ _ _)).
  - unfold distinct_starts. cbn. repeat constructor; set_solver.
  - vm_compute. congruence.
  - apply rtc_once. apply (step_start _ _ _ _ 30); [reflexivity| |reflexivity].
    cbn. intros r' [<-|[<-|[]]]; cbn; lia.
Defined.

(** Eight rounds: the run of a heartbeat, then each agent replying to the run before. *)
Definition demo_loop : TaskDb :=
  let name := fun n => String (ascii_of_nat (48 + n)%nat) EmptyString in
  with_wakeups (demo_wake "w0" Heartbeat None :: List.map (fun n => demo_wake ("w" +:+ name n) Reply (Some ("r" +:+ name (pred n)))) (seq 1 8))
    (with_runs (List.map (fun n => demo_hrun ("r" +:+ name n) "dev" ("w" +:+ name n) (10 + 10 * Z.of_nat n)) (seq 0 9)) demo_taskdb).

Lemma handoff_limit_exact_witness :
  (exists h, handoffHold (loadTaskSpend (fun _ => "") demo_loop "T") = Some h)
  /\ handoffHold (loadTaskSpend (fun _ => "") (with_runs (List.firstn 8 (db_runs demo_loop)) demo_loop) "T") = None.
Proof.
  split; [|vm_compute; reflexivity].
  refine (proj2 (handoff_limit_exact (fun _ => "") demo_loop "T" _) (List.rev (List.skipn 1 (db_runs demo_loop))) (List.firstn 1 (db_runs demo_loop)) _ _ _).
  - unfold distinct_starts. apply (bool_decide_unpack _). vm_compute. exact I.
  - vm_compute. reflexivity.
  - apply List.Forall_forall. intros r Hr. apply agentRaised_spec. revert r Hr. apply List.forallb_forall. vm_compute. reflexivity.
  - vm_compute. discriminate.
Defined.

Lemma handoff_chain_is_leading_witness :
  handoffChain (fun _ => "") demo_next "T" = [demo_hrun "r3" "dev" "w3" 30; demo_hrun "r2" "qa" "w2" 20].
Proof.
  rewrite (handoff_chain_is_leading (fun _ => "") demo_next "T"); [reflexivity|].
  unfold distinct_starts. cbn. repeat constructor; set_solver.
Defined.

Definition demo_answered : TaskDb := with_comments (db_comments demo_next ++ [demo_ccomment 40 (Some "boss")]) demo_next.

Lemma admin_reply_lifts_holds_witness :
  handoffHold (loadTaskSpend (fun _ => "") demo_answered "T") = None
  /\ dispatchSuppressionExempt (fun _ => "") demo_answered "dev" "team" (Some "T") Comment ∅ (Some "w3") = FULL_EXEMPTION.
Proof.
  destruct (admin_reply_lifts_holds (fun _ => "") demo_answered "T" "team" 40) as (H1 & _ & _ & H4).
  - reflexivity.
  - discriminate.
  - exists (demo_ccomment 40 (Some "boss")). split; [cbn; tauto|]. split; [reflexivity|]. left. split; reflexivity.
  - cbn. intros r [<-|[<-|[<-|[]]]]; cbn; lia.
  - split; [exact H1|]. apply H4; reflexivity.
Defined.

Lemma agent_mention_skips_nothing_witness :
  dispatchSuppressionExempt (fun _ => "") demo_taskdb "dev" "team" (Some "T") Reply ∅ (Some "w3") = NO_EXEMPTION.
Proof.
  apply (agent_mention_skips_nothing (fun _ => "") demo_taskdb "dev" "team" "T" Reply ∅ "w3"
           (demo_wake "w3" Reply (Some "r2")) "r2"); try reflexivity; [discriminate|].
  intros t (c & [<-|[]] & _ & [[_ ->]|[_ [=]]]). exists 10. split; [reflexivity|]. cbn. lia.
Defined.
