(* ===== verification/TokenBudget.v ===== *)
(** * Budget enforcement

    A model of [packages/server/src/services/budget.ts] (what an agent and a project used,
    the gate that stops a run, the status the pages show, the usage row of a run) and of
    [services/agent-runtime-status.ts] (pausing an agent for a budget, lifting the pause, the
    idle flip). Sums are exact: a double holds every token count below 2^53.

    [None] as the outer result of the gate is the hours statement raising on a sum that does
    not fit its integer. Broadcasts and log lines are left out. *)
From Stdlib Require Import ZArith Lia Ascii String List Bool.
From stdpp Require Import base list strings gmap option.
From S2P Require Import Prelude Sql JsString Calendar Budget UptimeLedger ContainerHours RunRows.

Open Scope string_scope.
Open Scope list_scope.
Open Scope Z_scope.

Record UsageEntry := mkUsage {
  ue_member : string; ue_task : option string; ue_project : option string; ue_input : Z; ue_output : Z;
  ue_created : Z; ue_description : string; ue_config : option string; ue_provider : option string
}.

Inductive AgentRuntimeStatus := Active | Idle | OutOfAgentBudget | OutOfProjectBudget.
#[export] Instance AgentRuntimeStatus_eq_dec : EqDecision AgentRuntimeStatus.
Proof. solve_decision. Defined.
Definition BUDGET_PAUSE_STATUSES : list AgentRuntimeStatus := [OutOfAgentBudget; OutOfProjectBudget].

Record BudgetAgent := mkBudgetAgent {
  ba_id : string; ba_slug : string; ba_limits : BudgetWindowsTokens; ba_runtime : AgentRuntimeStatus;
  ba_heartbeat : option Z; ba_notices : gmap string Z
}.
Record BudgetProject := mkBudgetProject {
  bp_id : string; bp_limits : BudgetWindowsTokens; bp_hours : BudgetWindowsContainerSeconds
}.

(** [bd_now] and [bd_jsNow] are the clocks of the database and of the process; [bd_counted] is
    the instant budgets began counting tokens, [bd_anchor] and [bd_since] the deployer's
    container-hours window. *)
Record BudgetDb := mkBudgetDb {
  bd_usage : list UsageEntry; bd_agents : list BudgetAgent; bd_projects : list BudgetProject; bd_ledger : Ledger;
  bd_counted : option Z; bd_anchor : option Z; bd_since : option Z; bd_now : Z; bd_jsNow : Z
}.

(** ** Usage *)

Definition entryTokens (e : UsageEntry) : Z := ue_input e + ue_output e.

(** [USAGE_WINDOW_FLOOR_SQL]. *)
Definition aboveFloor (db : BudgetDb) (e : UsageEntry) : bool :=
  (Z.min (utcWindowStartSql Week_ (bd_now db)) (utcWindowStartSql Month_ (bd_now db)) <=? ue_created e)
  && match bd_counted db with None => true | Some from => from <=? ue_created e end.

Definition windowSum (db : BudgetDb) (b : HoursBucket) (rows : list UsageEntry) : Z :=
  sumZ entryTokens (List.filter (fun e => utcWindowStartSql b (bd_now db) <=? ue_created e) rows).

Inductive BudgetEntity := AgentEntity | ProjectEntity.
Definition ofEntity (entity : BudgetEntity) (id : string) (e : UsageEntry) : bool :=
  match entity with AgentEntity => String.eqb (ue_member e) id | ProjectEntity => equals (ue_project e) id end.

Definition getUsageByColumn (db : BudgetDb) (entity : BudgetEntity) (id : string) : BudgetWindows :=
  let rows := List.filter (fun e => ofEntity entity id e && aboveFloor db e) (bd_usage db) in
  mkWindows (windowSum db Day_ rows) (windowSum db Week_ rows) (windowSum db Month_ rows).

Record WindowStatus := mkWindowStatus { ws_used : Z; ws_limit : Z; ws_over : bool }.
Definition windowStatus (used limit : Z) : WindowStatus := mkWindowStatus used limit ((limit >? 0) && (used >=? limit)).

Record EntityBudgetStatus := mkEntityStatus { es_daily : WindowStatus; es_weekly : WindowStatus; es_monthly : WindowStatus; es_over : bool }.
Definition toEntityBudgetStatus (usage limits : BudgetWindows) : EntityBudgetStatus :=
  let d := windowStatus (Budget.daily usage) (Budget.daily limits) in
  let w := windowStatus (Budget.weekly usage) (Budget.weekly limits) in
  let m := windowStatus (Budget.monthly usage) (Budget.monthly limits) in
  mkEntityStatus d w m (ws_over d || ws_over w || ws_over m).

Definition NO_LIMITS : BudgetWindows := mkWindows 0 0 0.
Definition agentOf (db : BudgetDb) (id : string) : option BudgetAgent := List.find (fun a => String.eqb (ba_id a) id) (bd_agents db).
Definition readProjectLimits (db : BudgetDb) (id : string) : option BudgetProject :=
  List.find (fun p => String.eqb (bp_id p) id) (bd_projects db).
Definition readLimits (db : BudgetDb) (entity : BudgetEntity) (id : string) : BudgetWindows :=
  match entity with
  | AgentEntity => match agentOf db id with Some a => tokenWindows (ba_limits a) | None => NO_LIMITS end
  | ProjectEntity => match readProjectLimits db id with Some p => tokenWindows (bp_limits p) | None => NO_LIMITS end
  end.

Definition entityBudgetStatus (db : BudgetDb) (entity : BudgetEntity) (id : string) : EntityBudgetStatus :=
  toEntityBudgetStatus (getUsageByColumn db entity id) (readLimits db entity id).
Definition getAgentBudgetStatus (db : BudgetDb) (id : string) : EntityBudgetStatus := entityBudgetStatus db AgentEntity id.
Definition getProjectBudgetStatus (db : BudgetDb) (id : string) : EntityBudgetStatus := entityBudgetStatus db ProjectEntity id.

(** ** The gate *)

Inductive BudgetPeriod := Daily | Weekly | Monthly.
Inductive BudgetResource := Tokens | ContainerHoursResource.
Record OverBudgetBlock := mkBlock {
  bl_scope : BudgetEntity; bl_period : BudgetPeriod; bl_resource : BudgetResource; bl_used : Z; bl_limit : Z
}.

Definition WINDOW_ORDER : list BudgetPeriod := [Daily; Weekly; Monthly].
Definition windowAt (p : BudgetPeriod) (w : BudgetWindows) : Z :=
  match p with Daily => Budget.daily w | Weekly => Budget.weekly w | Monthly => Budget.monthly w end.

Definition isOver (used limit : Z) : bool := (limit >? 0) && (used >=? limit).

Definition toBlock (scope : BudgetEntity) (resource : BudgetResource) (used limits : BudgetWindows) : option OverBudgetBlock :=
  (fun p => mkBlock scope p resource (windowAt p used) (windowAt p limits))
    <$> List.find (fun p => isOver (windowAt p used) (windowAt p limits)) WINDOW_ORDER.

Definition unlimited (limits : BudgetWindows) : bool := forallb (fun p => windowAt p limits <=? 0) WINDOW_ORDER.

Definition entityBlock (db : BudgetDb) (entity : BudgetEntity) (id : string) (limits : BudgetWindows) : option OverBudgetBlock :=
  if unlimited limits then None else toBlock entity Tokens (getUsageByColumn db entity id) limits.

Definition projectHoursUsed (db : BudgetDb) (id : string) : option BudgetWindows :=
  (fun s => mkWindows (ContainerHours.daily s) (ContainerHours.weekly s) (ContainerHours.monthly s))
    <$> projectBudgetWindowSeconds (bd_now db) (bd_jsNow db) (bd_anchor db) (bd_since db) id (bd_ledger db).

Definition hoursBlock (db : BudgetDb) (id : string) (stored : BudgetWindowsContainerSeconds) : option (option OverBudgetBlock) :=
  let limits := containerSecondsWindows stored in
  if unlimited limits then Some None
  else (fun used => toBlock ProjectEntity ContainerHoursResource used limits) <$> projectHoursUsed db id.

Definition checkOverBudget (db : BudgetDb) (memberId : string) (projectId : option string) : option (option OverBudgetBlock) :=
  match entityBlock db AgentEntity memberId (readLimits db AgentEntity memberId) with
  | Some b => Some (Some b)
  | None =>
      match projectId with
      | None => Some None
      | Some p =>
          match readProjectLimits db p with
          | None => Some None
          | Some limits =>
              match entityBlock db ProjectEntity p (tokenWindows (bp_limits limits)) with
              | Some b => Some (Some b)
              | None => hoursBlock db p (bp_hours limits)
              end
          end
      end
  end.

Definition isProjectOverHoursBudget (db : BudgetDb) (id : string) : option bool :=
  match readProjectLimits db id with
  | None => Some false
  | Some limits => notNull <$> hoursBlock db id (bp_hours limits)
  end.

Definition hoursWindowStatus (used limit : Z) : WindowStatus := mkWindowStatus used limit (isOver used limit).
Definition getProjectHoursBudgetStatus (db : BudgetDb) (id : string) : option EntityBudgetStatus :=
  let limits := match readProjectLimits db id with Some p => containerSecondsWindows (bp_hours p) | None => NO_LIMITS end in
  (fun used =>
    let d := hoursWindowStatus (Budget.daily used) (Budget.daily limits) in
    let w := hoursWindowStatus (Budget.weekly used) (Budget.weekly limits) in
    let m := hoursWindowStatus (Budget.monthly used) (Budget.monthly limits) in
    mkEntityStatus d w m (ws_over d || ws_over w || ws_over m)) <$> projectHoursUsed db id.

(** [Math.max(0, Math.round(x))] on counts that are whole. *)
Definition recordUsage (db : BudgetDb) (e : UsageEntry) (occurredAt : option Z) : BudgetDb * option UsageEntry :=
  if (ue_input e <=? 0) && (ue_output e <=? 0) then (db, None)
  else
    let row := mkUsage (ue_member e) (ue_task e) (ue_project e) (Z.max 0 (ue_input e)) (Z.max 0 (ue_output e))
                 (default (bd_now db) occurredAt) (ue_description e) (ue_config e) (ue_provider e) in
    (mkBudgetDb (bd_usage db ++ [row]) (bd_agents db) (bd_projects db) (bd_ledger db) (bd_counted db) (bd_anchor db)
       (bd_since db) (bd_now db) (bd_jsNow db), Some row).

(** ** Pausing *)

Definition budgetPauseStatus (b : OverBudgetBlock) : AgentRuntimeStatus :=
  match bl_scope b with ProjectEntity => OutOfProjectBudget | AgentEntity => OutOfAgentBudget end.

Definition periodName (p : BudgetPeriod) : string := match p with Daily => "daily" | Weekly => "weekly" | Monthly => "monthly" end.
Definition bucketOf (p : BudgetPeriod) : HoursBucket := match p with Daily => Day_ | Weekly => Week_ | Monthly => Month_ end.

Definition scopeKey (b : OverBudgetBlock) (projectId : option string) : string :=
  match bl_resource b with
  | Tokens => (match bl_scope b with ProjectEntity => "project:" +:+ default "" projectId | AgentEntity => "agent" end)
              +:+ ":" +:+ periodName (bl_period b)
  | ContainerHoursResource => "project-hours:" +:+ default "" projectId +:+ ":" +:+ periodName (bl_period b)
  end.

Definition noticeWindowStart (db : BudgetDb) (b : OverBudgetBlock) : Z :=
  match bl_resource b, bl_period b with
  | ContainerHoursResource, Monthly => fst (currentContainerHoursWindow (bd_anchor db) (bd_since db) (bd_jsNow db)) * US_PER_MS
  | _, p => utcWindowStartSql (bucketOf p) (bd_now db)
  end.

Definition with_agents (l : list BudgetAgent) (db : BudgetDb) : BudgetDb :=
  mkBudgetDb (bd_usage db) l (bd_projects db) (bd_ledger db) (bd_counted db) (bd_anchor db) (bd_since db) (bd_now db) (bd_jsNow db).
Definition updateAgent (id : string) (f : BudgetAgent -> BudgetAgent) (db : BudgetDb) : BudgetDb :=
  with_agents (List.map (fun a => if String.eqb (ba_id a) id then f a else a) (bd_agents db)) db.
Definition set_runtime (s : AgentRuntimeStatus) (a : BudgetAgent) : BudgetAgent :=
  mkBudgetAgent (ba_id a) (ba_slug a) (ba_limits a) s (ba_heartbeat a) (ba_notices a).
Definition set_notices (n : gmap string Z) (a : BudgetAgent) : BudgetAgent :=
  mkBudgetAgent (ba_id a) (ba_slug a) (ba_limits a) (ba_runtime a) (ba_heartbeat a) n.
Definition set_heartbeat (t : Z) (a : BudgetAgent) : BudgetAgent :=
  mkBudgetAgent (ba_id a) (ba_slug a) (ba_limits a) (ba_runtime a) (Some t) (ba_notices a).

(** [target] is the task the notice goes on ([budgetNoticeTask]) and [posts] whether posting it
    succeeds. Returns the state and whether a notice was posted. *)
Definition pauseAgentForBudget (db : BudgetDb) (memberId : string) (block : OverBudgetBlock) (target : option string)
    (projectId : option string) (posts : bool) : BudgetDb * bool :=
  let status := budgetPauseStatus block in
  match agentOf db memberId with
  | None => (db, false)
  | Some a =>
      if bool_decide (ba_runtime a = status) then (db, false)
      else
        let db := updateAgent memberId (set_runtime status) db in
        match target with
        | None => (db, false)
        | Some _ =>
            let key := scopeKey block projectId in
            let start := noticeWindowStart db block in
            if bool_decide (ba_notices a !! key = Some start) then (db, false)
            else if posts then (updateAgent memberId (fun a => set_notices (<[key := start]> (ba_notices a)) a) db, true)
            else (updateAgent memberId (fun a => set_notices (delete key (ba_notices a)) a) db, false)
        end
  end.

(** Returns the state and the new status when it changed. *)
Definition reconcileBudgetPause (db : BudgetDb) (memberId : string) (projectId : option string)
    : option (BudgetDb * option AgentRuntimeStatus) :=
  (fun block =>
    let next := match block with Some b => budgetPauseStatus b | None => Idle end in
    match agentOf db memberId with
    | Some a => if bool_decide (ba_runtime a ∈ BUDGET_PAUSE_STATUSES) && negb (bool_decide (ba_runtime a = next))
                then (updateAgent memberId (set_runtime next) db, Some next) else (db, None)
    | None => (db, None)
    end) <$> checkOverBudget db memberId projectId.

Definition activeStatus (s : HeartbeatRunStatus) : bool := bool_decide (s ∈ [RunQueued; RunRunning]).

(** Returns the state and whether the agent went from active to idle. *)
Definition setAgentIdleIfNoActiveRuns (runs : list HeartbeatRun) (memberId : string) (excludeRunId : option string)
    (db : BudgetDb) : BudgetDb * bool :=
  if existsb (fun r => String.eqb (hr_member r) memberId && activeStatus (hr_status r)
                       && match excludeRunId with None => true | Some x => negb (String.eqb (hr_id r) x) end) runs
  then (db, false)
  else
    let db := updateAgent memberId (set_heartbeat (bd_now db)) db in
    match agentOf db memberId with
    | Some a => if bool_decide (ba_runtime a = Active) then (updateAgent memberId (set_runtime Idle) db, true) else (db, false)
    | None => (db, false)
    end.

(** ** The gate is the first window over its limit *)

(** What an entity spent in a window: every entry from the window's start, counted ones only. *)
Definition spent (db : BudgetDb) (entity : BudgetEntity) (id : string) (p : BudgetPeriod) : Z :=
  sumZ entryTokens (List.filter (fun e => ofEntity entity id e
                                 && (utcWindowStartSql (bucketOf p) (bd_now db) <=? ue_created e)
                                 && match bd_counted db with None => true | Some from => from <=? ue_created e end)
                      (bd_usage db)).

Lemma window_above_floor now p : Z.min (utcWindowStartSql Week_ now) (utcWindowStartSql Month_ now) <= utcWindowStartSql (bucketOf p) now.
Proof.
  destruct p; cbn [bucketOf]; [|lia|lia]. unfold utcWindowStartSql, dateTrunc.
  pose proof (Z.mod_pos_bound (now / US_PER_DAY + 3) 7 ltac:(lia)). unfold US_PER_DAY, MS_PER_DAY, US_PER_MS in *. lia.
Qed.

Lemma usage_spent db entity id p : windowAt p (getUsageByColumn db entity id) = spent db entity id p.
Proof.
  unfold getUsageByColumn, spent. cbn zeta.
  assert (windowAt p (mkWindows
    (windowSum db Day_ (List.filter (fun e => ofEntity entity id e && aboveFloor db e) (bd_usage db)))
    (windowSum db Week_ (List.filter (fun e => ofEntity entity id e && aboveFloor db e) (bd_usage db)))
    (windowSum db Month_ (List.filter (fun e => ofEntity entity id e && aboveFloor db e) (bd_usage db))))
    = windowSum db (bucketOf p) (List.filter (fun e => ofEntity entity id e && aboveFloor db e) (bd_usage db))) as ->
    by (by destruct p).
  unfold windowSum. rewrite filter_filter_and. f_equal. apply filter_ext. intros e.
  pose proof (window_above_floor (bd_now db) p). unfold aboveFloor.
  destruct (ofEntity entity id e); cbn [andb]; [|done].
  destruct (Z.leb_spec (utcWindowStartSql (bucketOf p) (bd_now db)) (ue_created e)); [|by rewrite !andb_false_r].
  rewrite (proj2 (Z.leb_le _ _)) by lia. cbn [andb]. by rewrite andb_true_r.
Qed.

(** The nine windows the gate reads, in the order it reports them. *)
Definition gateWindows (db : BudgetDb) (memberId projectId : string) (limits : BudgetProject) (hours : BudgetWindows)
    : list OverBudgetBlock :=
  List.map (fun p => mkBlock AgentEntity p Tokens (spent db AgentEntity memberId p)
                       (windowAt p (readLimits db AgentEntity memberId))) WINDOW_ORDER
  ++ List.map (fun p => mkBlock ProjectEntity p Tokens (spent db ProjectEntity projectId p)
                          (windowAt p (tokenWindows (bp_limits limits)))) WINDOW_ORDER
  ++ List.map (fun p => mkBlock ProjectEntity p ContainerHoursResource (windowAt p hours)
                          (windowAt p (containerSecondsWindows (bp_hours limits)))) WINDOW_ORDER.

Definition blocks (b : OverBudgetBlock) : bool := isOver (bl_used b) (bl_limit b).

Lemma toBlock_find scope resource used limits :
  toBlock scope resource used limits
  = List.find blocks (List.map (fun p => mkBlock scope p resource (windowAt p used) (windowAt p limits)) WINDOW_ORDER).
Proof.
  unfold toBlock, WINDOW_ORDER, blocks. cbn [List.map List.find bl_used bl_limit].
  by repeat match goal with |- context [isOver ?a ?b] => destruct (isOver a b) eqn:?; cbn end.
Qed.

Lemma unlimited_none used limits scope resource : unlimited limits = true -> toBlock scope resource used limits = None.
Proof.
  intros H. rewrite toBlock_find. apply find_none_iff. intros b (p & <- & Hp)%in_map_iff.
  unfold unlimited in H. rewrite forallb_forall in H. specialize (H p Hp). unfold blocks, isOver. cbn.
  apply andb_false_iff. left. rewrite Z.gtb_ltb. apply Z.ltb_ge. by apply Z.leb_le in H.
Qed.

Lemma entityBlock_find db entity id limits :
  entityBlock db entity id limits
  = List.find blocks (List.map (fun p => mkBlock entity p Tokens (spent db entity id p) (windowAt p limits)) WINDOW_ORDER).
Proof.
  unfold entityBlock. destruct (unlimited limits) eqn:E.
  - rewrite <- (unlimited_none (getUsageByColumn db entity id) limits entity Tokens E), toBlock_find.
    f_equal. apply List.map_ext. intros p. by rewrite usage_spent.
  - rewrite toBlock_find. f_equal. apply List.map_ext. intros p. by rewrite usage_spent.
Qed.

Lemma find_app {A} (f : A -> bool) l1 l2 :
  List.find f (l1 ++ l2) = match List.find f l1 with Some x => Some x | None => List.find f l2 end.
Proof. induction l1 as [|x l1 IH]; [done|]. simpl. by destruct (f x). Qed.

Lemma status_over used limits :
  es_over (toEntityBudgetStatus used limits) = existsb (fun p => isOver (windowAt p used) (windowAt p limits)) WINDOW_ORDER.
Proof. unfold toEntityBudgetStatus, windowStatus, isOver. cbn. by rewrite orb_false_r, orb_assoc. Qed.

Lemma find_existsb {A} (f : A -> bool) l : List.find f l = None <-> existsb f l = false.
Proof. by rewrite find_none_iff, existsb_false_iff. Qed.

Lemma hoursBlock_find db id stored used : projectHoursUsed db id = Some used ->
  hoursBlock db id stored
  = Some (List.find blocks (List.map (fun p => mkBlock ProjectEntity p ContainerHoursResource (windowAt p used)
                                                 (windowAt p (containerSecondsWindows stored))) WINDOW_ORDER)).
Proof.
  intros Hu. unfold hoursBlock. rewrite Hu, <- toBlock_find. destruct (unlimited _) eqn:E; [|done].
  by rewrite unlimited_none.
Qed.

Lemma gate_first db memberId projectId limits hours :
  readProjectLimits db projectId = Some limits -> projectHoursUsed db projectId = Some hours ->
  checkOverBudget db memberId (Some projectId) = Some (List.find blocks (gateWindows db memberId projectId limits hours)).
Proof.
  intros Hl Hh. unfold checkOverBudget, gateWindows. rewrite !entityBlock_find, !find_app, Hl.
  destruct (List.find blocks _); [done|]. rewrite entityBlock_find. destruct (List.find blocks _); [done|].
  by apply hoursBlock_find.
Qed.

(** The budget gate is exact. It stops a run at the first window that is over its limit,
    in the order agent tokens, project tokens, project hours and shortest window first, and
    lets it through when none is; each token window counts every counted entry since the
    window opened, though the query reads only from the later of the week's or month's floor
    and skips the sums of an entity without limits. *)
Theorem gate_is_first_over db memberId projectId limits hours :
  readProjectLimits db projectId = Some limits -> projectHoursUsed db projectId = Some hours ->
  checkOverBudget db memberId (Some projectId)
  = Some (List.find (fun b => isOver (bl_used b) (bl_limit b)) (gateWindows db memberId projectId limits hours)).
Proof.
  apply gate_first.
Qed.

(** What the budget pages show agrees with the gate: a run is let through exactly when the
    agent's, the project's and the project's hours status all say they are within budget. *)
Theorem pages_agree_with_gate db memberId projectId limits hours st :
  readProjectLimits db projectId = Some limits -> projectHoursUsed db projectId = Some hours ->
  getProjectHoursBudgetStatus db projectId = Some st ->
  (checkOverBudget db memberId (Some projectId) = Some None <->
   es_over (getAgentBudgetStatus db memberId) = false /\ es_over (getProjectBudgetStatus db projectId) = false
   /\ es_over st = false).
Proof.
  intros Hl Hh Hst. unfold getProjectHoursBudgetStatus in Hst. rewrite Hl, Hh in Hst. injection Hst as <-.
  rewrite (gate_first db memberId projectId limits hours) by done.
  transitivity (List.find blocks (gateWindows db memberId projectId limits hours) = None); [split; congruence|].
  unfold gateWindows. rewrite !find_existsb, !existsb_app, !orb_false_iff.
  unfold getAgentBudgetStatus, getProjectBudgetStatus, entityBudgetStatus. rewrite !status_over.
  unfold readLimits at 3. rewrite Hl. unfold blocks, WINDOW_ORDER. cbn [List.map existsb bl_used bl_limit].
  rewrite !usage_spent. cbn [es_over ws_over hoursWindowStatus windowAt]. by rewrite !orb_false_r, !orb_assoc.
Qed.

(** ** Pauses and their notices *)

Lemma agentOf_update db id f a : agentOf db id = Some a -> (forall a, ba_id (f a) = ba_id a) ->
  agentOf (updateAgent id f db) id = Some (f a).
Proof.
  intros Ha Hf. unfold agentOf, updateAgent in *. cbn [bd_agents with_agents]. revert Ha. induction (bd_agents db) as [|x l IH]; [done|].
  cbn [List.map List.find]. destruct (String.eqb (ba_id x) id) eqn:E; [|by rewrite E].
  intros [= ->]. by rewrite Hf, E.
Qed.

Lemma agentOf_id db id a : agentOf db id = Some a -> ba_id a = id.
Proof. intros [_ E]%find_some. by apply String.eqb_eq in E. Qed.

Lemma agentOf_update_other db id id' f : id <> id' -> (forall a, ba_id (f a) = ba_id a) ->
  agentOf (updateAgent id f db) id' = agentOf db id'.
Proof.
  intros Hne Hf. unfold agentOf, updateAgent. cbn [bd_agents with_agents]. induction (bd_agents db) as [|x l IH]; [done|].
  cbn [List.map List.find]. destruct (String.eqb_spec (ba_id x) id) as [E|E]; [|by rewrite IH].
  rewrite Hf, E, (proj2 (String.eqb_neq id id') Hne). exact IH.
Qed.

(** What happens to budgets and agents: a pause attempt for a block, or any other change that
    keeps the record of notices (a status flip, a lifted pause, usage, limits, the clocks). *)
Inductive BudgetEvent :=
| EvPause (memberId : string) (block : OverBudgetBlock) (target projectId : option string) (posts : bool)
| EvOther (f : BudgetDb -> BudgetDb).

Definition keeps_notices (f : BudgetDb -> BudgetDb) : Prop :=
  forall db id, ba_notices <$> agentOf (f db) id = ba_notices <$> agentOf db id.

(** Runs the events and counts the notices posted for one agent under one key. *)
Fixpoint runBudget (member key : string) (evs : list BudgetEvent) (db : BudgetDb) : BudgetDb * Z :=
  match evs with
  | [] => (db, 0)
  | EvOther f :: evs => runBudget member key evs (f db)
  | EvPause m b t p posts :: evs =>
      let '(db', posted) := pauseAgentForBudget db m b t p posts in
      let '(db'', n) := runBudget member key evs db' in
      (db'', (if posted && String.eqb m member && String.eqb (scopeKey b p) key then 1 else 0) + n)
  end.

(** Every attempt under the key falls in the window that opened at [start]. *)
Fixpoint within (member key : string) (start : Z) (evs : list BudgetEvent) (db : BudgetDb) : Prop :=
  match evs with
  | [] => True
  | EvOther f :: evs => keeps_notices f /\ within member key start evs (f db)
  | EvPause m b t p posts :: evs =>
      (m = member -> scopeKey b p = key -> noticeWindowStart db b = start)
      /\ within member key start evs (fst (pauseAgentForBudget db m b t p posts))
  end.

Definition recorded (db : BudgetDb) (member key : string) (start : Z) : Prop :=
  exists a, agentOf db member = Some a /\ ba_notices a !! key = Some start.

Lemma recorded_update db id f member key start : (forall a, ba_id (f a) = ba_id a) ->
  (forall a, id = member -> ba_notices a !! key = Some start -> ba_notices (f a) !! key = Some start) ->
  recorded db member key start -> recorded (updateAgent id f db) member key start.
Proof.
  intros Hid Hf (a & Ha & Hk). destruct (decide (id = member)) as [->|Hne].
  - exists (f a). split; [by apply agentOf_update|by apply Hf].
  - exists a. by rewrite agentOf_update_other.
Qed.

(** One pause attempt: a recorded window stays recorded and posts nothing; a post records it. *)
Lemma pause_notice db m b t p posts member key start :
  (m = member -> scopeKey b p = key -> noticeWindowStart db b = start) ->
  let r := pauseAgentForBudget db m b t p posts in
  (recorded db member key start ->
     recorded (fst r) member key start /\ snd r && String.eqb m member && String.eqb (scopeKey b p) key = false)
  /\ (snd r && String.eqb m member && String.eqb (scopeKey b p) key = true -> recorded (fst r) member key start).
Proof.
  intros Hstart. cbn zeta. unfold pauseAgentForBudget. destruct (agentOf db m) as [a|] eqn:Ha; [|by split].
  case_bool_decide; [by split|]. destruct t as [t|]; [|split; [|done]; intros Hr; split; [|done]; by apply recorded_update].
  change (noticeWindowStart (updateAgent m (set_runtime (budgetPauseStatus b)) db) b) with (noticeWindowStart db b).
  case_bool_decide as Hk; [split; [|done]; intros Hr; split; [|done]; by apply recorded_update|].
  assert (recorded db member key start -> m = member -> scopeKey b p <> key) as Hother.
  { intros (a' & Ha' & Hk') -> E. simplify_eq. apply Hk. by rewrite Hk', Hstart. }
  destruct posts; cbn [fst snd].
  - split.
    + intros Hr. split.
      * apply recorded_update; [done| |by apply recorded_update]. intros x E Hx. cbn.
        rewrite lookup_insert_ne; [done|]. by apply Hother.
      * cbn [andb]. destruct (String.eqb_spec m member); [|done]. apply String.eqb_neq. by apply Hother.
    + cbn [andb]. intros [E1%String.eqb_eq E2%String.eqb_eq]%andb_true_iff. subst m.
      assert (agentOf (updateAgent member (set_runtime (budgetPauseStatus b)) db) member = Some (set_runtime (budgetPauseStatus b) a)) as Ha'
        by (by apply agentOf_update).
      eexists. split; [by apply agentOf_update|]. cbn. rewrite E2, lookup_insert_eq. f_equal. by apply Hstart.
  - split; [|done]. intros Hr. split; [|done]. apply recorded_update; [done| |by apply recorded_update].
    intros x E Hx. cbn. rewrite lookup_delete_ne; [done|]. by apply Hother.
Qed.

Lemma runBudget_notices member key start evs : forall db, within member key start evs db ->
  (recorded db member key start -> snd (runBudget member key evs db) = 0)
  /\ 0 <= snd (runBudget member key evs db) <= 1.
Proof.
  induction evs as [|ev evs IH]; intros db Hw; [by split|]. destruct ev as [m b t p posts|f]; cbn [runBudget within] in *.
  - destruct Hw as [Hs Hw]. pose proof (pause_notice db m b t p posts member key start Hs) as [Hkeep Hpost].
    destruct (pauseAgentForBudget db m b t p posts) as [db' posted] eqn:E. cbn [fst snd] in *.
    specialize (IH db' Hw). destruct (runBudget member key evs db') as [db'' n] eqn:En. cbn [snd] in *.
    destruct IH as [IH0 IHb]. split.
    + intros Hr. destruct (Hkeep Hr) as [Hr' ->]. rewrite (IH0 Hr'). done.
    + destruct (posted && String.eqb m member && String.eqb (scopeKey b p) key) eqn:Ep; [|lia].
      rewrite (IH0 (Hpost eq_refl)). lia.
  - destruct Hw as [Hf Hw]. destruct (IH (f db) Hw) as [IH0 IHb]. split; [|done]. intros (a & Ha & Hk). apply IH0.
    specialize (Hf db member). rewrite Ha in Hf. destruct (agentOf (f db) member) as [a'|] eqn:Ea; [|done].
    exists a'. split; [done|]. cbn in Hf. congruence.
Qed.

(** An admin is told once per budget window. However often an agent is paused, resumed and
    paused again within one window of one budget, at most one notice is posted for that agent,
    scope, resource and window. *)
Theorem one_notice_per_window member key start evs db :
  within member key start evs db -> 0 <= snd (runBudget member key evs db) <= 1.
Proof. intros H. by apply (runBudget_notices member key start evs db). Qed.

(** A pause is lifted exactly when the gate lets the agent through, and only a budget pause is
    ever changed. *)
Lemma reconcile_lifts db memberId projectId db' s a :
  agentOf db memberId = Some a -> reconcileBudgetPause db memberId projectId = Some (db', s) ->
  exists a', agentOf db' memberId = Some a' /\
    (if bool_decide (ba_runtime a ∈ BUDGET_PAUSE_STATUSES)
     then (ba_runtime a' = Idle <-> checkOverBudget db memberId projectId = Some None) else a' = a).
Proof.
  intros Ha. unfold reconcileBudgetPause. destruct (checkOverBudget db memberId projectId) as [blk|]; [|done].
  cbn [fmap option_fmap option_map]. rewrite Ha. case_bool_decide as Hp; cbn [andb].
  - case_bool_decide as Hn; cbn [negb]; intros [= <- <-].
    + exists a. split; [done|]. rewrite Hn. destruct blk as [b|]; [|done].
      split; [|done]. unfold budgetPauseStatus. by destruct (bl_scope b).
    + eexists. split; [by apply agentOf_update|]. cbn. destruct blk as [b|]; [|done].
      split; [|done]. unfold budgetPauseStatus. by destruct (bl_scope b).
  - intros [= <- <-]. by exists a.
Qed.

(** ** Witnesses *)

Definition demo_limits (d w m : Z) : BudgetWindowsTokens := mkTokens d w m.
Definition demo_bagent : BudgetAgent := mkBudgetAgent "dev" "dev" (demo_limits 0 1000 0) Idle None ∅.
Definition demo_budgetdb : BudgetDb :=
  mkBudgetDb [mkUsage "dev" None (Some "P") 900 200 (dateUTC 2026 2 18 * US_PER_MS) "Agent run" None None]
    [demo_bagent] [mkBudgetProject "P" (demo_limits 0 0 5000) (mkSeconds 0 0 0)] [] None None None
    ((dateUTC 2026 2 18 + 3600000) * US_PER_MS) (dateUTC 2026 2 18 + 3600000).
Definition demo_block : OverBudgetBlock := mkBlock AgentEntity Weekly Tokens 1100 1000.

Lemma gate_is_first_over_witness : checkOverBudget demo_budgetdb "dev" (Some "P") = Some (Some demo_block).
Proof.
  rewrite (gate_is_first_over demo_budgetdb "dev" "P" (mkBudgetProject "P" (demo_limits 0 0 5000) (mkSeconds 0 0 0)) (mkWindows 0 0 0));
    reflexivity.
Defined.

Lemma pages_agree_with_gate_witness : es_over (getAgentBudgetStatus demo_budgetdb "dev") = true
  /\ checkOverBudget demo_budgetdb "dev" (Some "P") <> Some None.
Proof.
  assert (es_over (getAgentBudgetStatus demo_budgetdb "dev") = true) as E by reflexivity.
  split; [exact E|]. intros H.
  apply (pages_agree_with_gate demo_budgetdb "dev" "P" (mkBudgetProject "P" (demo_limits 0 0 5000) (mkSeconds 0 0 0)) (mkWindows 0 0 0)
           (mkEntityStatus (hoursWindowStatus 0 0) (hoursWindowStatus 0 0) (hoursWindowStatus 0 0) false)) in H;
    [|reflexivity|reflexivity|reflexivity].
  destruct H as [H _]. congruence.
Defined.

Definition demo_resume : BudgetDb -> BudgetDb := updateAgent "dev" (set_runtime Idle).
Definition demo_events : list BudgetEvent :=
  [EvPause "dev" demo_block (Some "T") (Some "P") true; EvOther demo_resume; EvPause "dev" demo_block (Some "T") (Some "P") true].

Lemma demo_resume_keeps : keeps_notices demo_resume.
Proof.
  intros db id. unfold demo_resume. destruct (decide ("dev" = id)) as [<-|Hne]; [|by rewrite agentOf_update_other].
  destruct (agentOf db "dev") as [a|] eqn:E.
  - by rewrite (agentOf_update db "dev" (set_runtime Idle) a).
  - unfold agentOf, updateAgent in *. cbn [bd_agents with_agents]. rewrite find_none_iff in E.
    assert (List.find (fun a => String.eqb (ba_id a) "dev") (List.map (fun a => if String.eqb (ba_id a) "dev" then set_runtime Idle a else a)
      (bd_agents db)) = None) as ->; [|done].
    apply find_none_iff. intros x (y & <- & Hy)%in_map_iff. rewrite (E y Hy). by apply E.
Qed.

Lemma one_notice_per_window_witness : 0 <= snd (runBudget "dev" "agent:weekly" demo_events demo_budgetdb) <= 1
  /\ snd (runBudget "dev" "agent:weekly" demo_events demo_budgetdb) = 1.
Proof.
  split; [|reflexivity].
  apply (one_notice_per_window "dev" "agent:weekly" (utcWindowStartSql Week_ (bd_now demo_budgetdb)) demo_events demo_budgetdb).
  cbn [within demo_events]. split; [reflexivity|]. split; [apply demo_resume_keeps|]. split; [reflexivity|exact I].
Defined.
