(* ===== verification/DispatchGuards.v ===== *)
(** * Dispatch guards of the job manager

    The in-memory half of [packages/server/src/services/job-manager.ts]: the registry of
    launched runs, the guards a dispatch takes synchronously (the task set, the run count and
    the pending-start count of each project), the registry of live runs, and the three ways an
    entry leaves: its promise settles, the stale sweep reaps it, or the manager shuts down.

    A [RunningTask] is an entry of an append-only list, so that two launches under one key are
    two objects, as [===] sees them; the registry maps a key to the index of its entry. A
    history is any sequence of events: a dispatch on a task that is marked already and a sweep
    that writes an entry after it settled are among them, since the source awaits between its
    checks and both. The
    dispatch tail of [activateAgent] and of [launchTaskLessRun] has no [await] between taking
    the guards and the answer of [launchTask], so each is one operation. *)
From Stdlib Require Import ZArith Lia Ascii String List Bool.
From stdpp Require Import base list strings gmap fin_maps option.
From S2P Require Import Prelude JsString.

Open Scope string_scope.
Open Scope list_scope.
Open Scope Z_scope.

(** [e_task] is the run context's task; a task-less run is launched without a context and
    releases its project itself. [e_settled]: the promise has settled. *)
Record RunningTask := mkRunning {
  e_key : string; e_member : string; e_task : option string; e_project : string; e_pending : bool;
  e_settled : bool; e_reaped : bool
}.

Record LiveRun := mkLiveRun {
  lr_run : string; lr_member : string; lr_task : option string; lr_project : string; lr_team : string;
  lr_key : string; lr_container : option string
}.

Record JobManager := mkJobManager {
  entries : list RunningTask; runningTasks : gmap string nat; draining : bool;
  activeTaskRuns : gset string; activeProjectRuns : gmap string Z; pendingContainerStarts : gmap string Z;
  liveRuns : gmap string LiveRun; aborted : list string
}.

Definition initial : JobManager := mkJobManager [] ∅ false ∅ ∅ ∅ ∅ [].

(** ** Reference counts *)

Definition acquire (p : string) (m : gmap string Z) : gmap string Z := <[p := default 0 (m !! p) + 1]> m.
Definition release (p : string) (m : gmap string Z) : gmap string Z :=
  let next := default 0 (m !! p) - 1 in if 0 <? next then <[p := next]> m else delete p m.
Arguments acquire : simpl never.
Arguments release : simpl never.

Definition acquireProjectRun (p : string) (J : JobManager) : JobManager :=
  mkJobManager (entries J) (runningTasks J) (draining J) (activeTaskRuns J) (acquire p (activeProjectRuns J))
    (pendingContainerStarts J) (liveRuns J) (aborted J).
Definition releaseProjectRun (p : string) (J : JobManager) : JobManager :=
  mkJobManager (entries J) (runningTasks J) (draining J) (activeTaskRuns J) (release p (activeProjectRuns J))
    (pendingContainerStarts J) (liveRuns J) (aborted J).
Definition acquirePendingContainerStart (p : string) (J : JobManager) : JobManager :=
  mkJobManager (entries J) (runningTasks J) (draining J) (activeTaskRuns J) (activeProjectRuns J)
    (acquire p (pendingContainerStarts J)) (liveRuns J) (aborted J).
Definition releasePendingContainerStart (p : string) (J : JobManager) : JobManager :=
  mkJobManager (entries J) (runningTasks J) (draining J) (activeTaskRuns J) (activeProjectRuns J)
    (release p (pendingContainerStarts J)) (liveRuns J) (aborted J).
Definition set_tasks (ts : gset string) (J : JobManager) : JobManager :=
  mkJobManager (entries J) (runningTasks J) (draining J) ts (activeProjectRuns J) (pendingContainerStarts J)
    (liveRuns J) (aborted J).
Definition set_running (es : list RunningTask) (m : gmap string nat) (J : JobManager) : JobManager :=
  mkJobManager es m (draining J) (activeTaskRuns J) (activeProjectRuns J) (pendingContainerStarts J) (liveRuns J)
    (aborted J).
Definition set_live (m : gmap string LiveRun) (J : JobManager) : JobManager :=
  mkJobManager (entries J) (runningTasks J) (draining J) (activeTaskRuns J) (activeProjectRuns J)
    (pendingContainerStarts J) m (aborted J).

(** The guards one run holds: its task's slot, its project's count and, for a run that will
    start a container, its pending start. *)
Definition takeGuards (e : RunningTask) (J : JobManager) : JobManager :=
  let J := match e_task e with Some t => set_tasks ({[t]} ∪ activeTaskRuns J) J | None => J end in
  let J := acquireProjectRun (e_project e) J in
  if e_pending e then acquirePendingContainerStart (e_project e) J else J.

Definition releaseRunDispatch (e : RunningTask) (J : JobManager) : JobManager :=
  let J := match e_task e with Some t => set_tasks (activeTaskRuns J ∖ {[t]}) J | None => J end in
  let J := releaseProjectRun (e_project e) J in
  if e_pending e then releasePendingContainerStart (e_project e) J else J.

(** ** Launching and ending runs *)

Definition launchTask (e : RunningTask) (J : JobManager) : JobManager * bool :=
  if draining J then (J, false)
  else match runningTasks J !! e_key e with
       | Some _ => (J, false)
       | None => (set_running (entries J ++ [e]) (<[e_key e := length (entries J)]> (runningTasks J)) J, true)
       end.

(** The tail of [activateAgent], and of [launchTaskLessRun] when [e_task] is absent: take the
    guards, launch, and undo them when the launch is refused. *)
Definition dispatch (e : RunningTask) (J : JobManager) : JobManager * bool :=
  let '(J', launched) := launchTask e (takeGuards e J) in
  if launched then (J', true) else (releaseRunDispatch e J', false).

Definition taskRun (memberId taskId projectId : string) (pending : bool) : RunningTask :=
  mkRunning (memberId +:+ ":" +:+ projectId) memberId (Some taskId) projectId pending false false.
Definition taskLessRun (memberId projectId suffix : string) (pending : bool) : RunningTask :=
  mkRunning (memberId +:+ ":" +:+ projectId +:+ ":" +:+ suffix) memberId None projectId pending false false.

Definition markSettled (e : RunningTask) : RunningTask :=
  mkRunning (e_key e) (e_member e) (e_task e) (e_project e) (e_pending e) true (e_reaped e).
Definition markReaped (e : RunningTask) : RunningTask :=
  mkRunning (e_key e) (e_member e) (e_task e) (e_project e) (e_pending e) (e_settled e) true.

(** [if (this.runningTasks.get(key) === entry) this.runningTasks.delete(key)]. *)
Definition forget (i : nat) (e : RunningTask) (m : gmap string nat) : gmap string nat :=
  if bool_decide (m !! e_key e = Some i) then delete (e_key e) m else m.

(** The settle handler of [launchTask], with the [finally] of a task-less run's own function. *)
Definition settle (i : nat) (J : JobManager) : JobManager :=
  match entries J !! i with
  | None => J
  | Some e =>
      let J := set_running (<[i := markSettled e]> (entries J)) (forget i e (runningTasks J)) J in
      if e_reaped e then J else releaseRunDispatch e J
  end.

(** The writes of [sweepStaleDispatches] for one entry it found stale. *)
Definition reap (i : nat) (J : JobManager) : JobManager :=
  match entries J !! i with
  | None => J
  | Some e =>
      match e_task e with
      | None => J
      | Some _ =>
          if e_reaped e then J else
          let J := set_running (<[i := markReaped e]> (entries J)) (forget i e (runningTasks J)) J in
          let J := releaseRunDispatch e J in
          set_live (filter (fun p => lr_key p.2 <> e_key e) (liveRuns J)) J
      end
  end.

Definition stopAcceptingWork (J : JobManager) : JobManager :=
  mkJobManager (entries J) (runningTasks J) true (activeTaskRuns J) (activeProjectRuns J) (pendingContainerStarts J)
    (liveRuns J) (aborted J).

Definition cancelTask (key : string) (J : JobManager) : JobManager * bool :=
  match runningTasks J !! key with
  | None => (J, false)
  | Some _ => (mkJobManager (entries J) (runningTasks J) (draining J) (activeTaskRuns J) (activeProjectRuns J)
                 (pendingContainerStarts J) (liveRuns J) (aborted J ++ [key]), true)
  end.

Definition shutdown (J : JobManager) : JobManager :=
  mkJobManager (entries J) ∅ (draining J) (activeTaskRuns J) (activeProjectRuns J) (pendingContainerStarts J) ∅
    (aborted J ++ (map_to_list (runningTasks J)).*1).

(** ** Questions the dispatcher asks *)

Definition isTaskRunning (key : string) (J : JobManager) : bool := bool_decide (is_Some (runningTasks J !! key)).

Definition keyMatches (prefix key : string) : bool := String.eqb key prefix || startsWith key (prefix +:+ ":").
Definition hasRunningTaskWithPrefix (prefix : string) (J : JobManager) : bool :=
  existsb (keyMatches prefix) ((map_to_list (runningTasks J)).*1).
Definition isMemberRunning (memberId : string) (J : JobManager) : bool := hasRunningTaskWithPrefix memberId J.
Definition inFlightRunCount (J : JobManager) : Z := Z.of_nat (size (runningTasks J)).

(** ** Live runs *)

Definition registerLiveRun (r : LiveRun) (J : JobManager) : JobManager := set_live (<[lr_run r := r]> (liveRuns J)) J.
Definition unregisterLiveRun (id : string) (J : JobManager) : JobManager := set_live (delete id (liveRuns J)) J.
Definition attachLiveRunContainer (id container : string) (J : JobManager) : JobManager :=
  set_live (alter (fun r => mkLiveRun (lr_run r) (lr_member r) (lr_task r) (lr_project r) (lr_team r) (lr_key r)
                              (Some container)) id (liveRuns J)) J.
Definition getLiveRunsForProject (projectId : string) (J : JobManager) : list LiveRun :=
  List.filter (fun r => String.eqb (lr_project r) projectId) ((map_to_list (liveRuns J)).*2).

Definition cancelLiveRun (id : string) (J : JobManager) : JobManager * bool :=
  match liveRuns J !! id with
  | None => (J, false)
  | Some r => (unregisterLiveRun id (fst (cancelTask (lr_key r) J)), true)
  end.

Definition cancelLiveRunsForContainer (projectId containerId : string) (J : JobManager) : JobManager * Z :=
  let runs := List.filter (fun r => bool_decide (lr_container r = Some containerId)) (getLiveRunsForProject projectId J) in
  (fold_left (fun J r => unregisterLiveRun (lr_run r) (fst (cancelTask (lr_key r) J))) runs J, Z.of_nat (length runs)).

(** Compute the fields of a state built by the operations. *)
Ltac jm :=
  unfold set_tasks, set_running, set_live, acquireProjectRun, releaseProjectRun, acquirePendingContainerStart,
    releasePendingContainerStart; cbn [entries runningTasks draining activeTaskRuns activeProjectRuns
    pendingContainerStarts liveRuns aborted].

(** ** Counts are exact *)

Definition positive (m : gmap string Z) : Prop := forall p c, m !! p = Some c -> 0 < c.
Definition countOf (m : gmap string Z) (p : string) : Z := default 0 (m !! p).

Lemma countOf_acquire p q m : countOf (acquire p m) q = countOf m q + (if bool_decide (p = q) then 1 else 0).
Proof.
  unfold countOf, acquire. case_bool_decide; [subst; by rewrite lookup_insert_eq|]. rewrite lookup_insert_ne by done. lia.
Qed.

Lemma positive_acquire p m : positive m -> positive (acquire p m).
Proof.
  intros H q c. unfold acquire. destruct (decide (p = q)) as [->|Hne].
  - rewrite lookup_insert_eq. intros [= <-]. destruct (m !! q) as [x|] eqn:E; simpl; [|lia]. specialize (H q x E). lia.
  - rewrite lookup_insert_ne by done. apply H.
Qed.

Lemma countOf_nonneg m p : positive m -> 0 <= countOf m p.
Proof. intros H. unfold countOf. destruct (m !! p) as [c|] eqn:E; cbn; [|done]. specialize (H p c E). lia. Qed.

Lemma countOf_release p q m : countOf (release p m) q = if bool_decide (p = q) then Z.max 0 (countOf m q - 1) else countOf m q.
Proof.
  unfold release, countOf. case_bool_decide as E; [subst|].
  - destruct (Z.ltb_spec 0 (default 0 (m !! q) - 1)); [rewrite lookup_insert_eq|rewrite lookup_delete_eq]; cbn; lia.
  - by destruct (0 <? _); [rewrite lookup_insert_ne|rewrite lookup_delete_ne].
Qed.

Lemma positive_release p m : positive m -> positive (release p m).
Proof.
  intros H q c. unfold release. destruct (Z.ltb_spec 0 (default 0 (m !! p) - 1)) as [Hlt|Hge].
  - destruct (decide (p = q)) as [->|Hne]; [rewrite lookup_insert_eq; intros [= <-]; done|].
    rewrite lookup_insert_ne by done. apply H.
  - destruct (decide (p = q)) as [->|Hne]; [by rewrite lookup_delete_eq|]. rewrite lookup_delete_ne by done. apply H.
Qed.

Lemma release_acquire p m : positive m -> release p (acquire p m) = m.
Proof.
  intros H. unfold release, acquire. rewrite lookup_insert_eq. cbn [default id].
  destruct (m !! p) as [c|] eqn:E; cbn [default id].
  - replace (c + 1 - 1) with c by lia. rewrite (proj2 (Z.ltb_lt _ _) (H p c E)). by rewrite insert_insert_eq, insert_id.
  - simpl. by rewrite delete_insert_id.
Qed.

Definition holding (e : RunningTask) : bool := negb (e_settled e) && negb (e_reaped e).
Definition onProject (p : string) (e : RunningTask) : bool := holding e && String.eqb (e_project e) p.
Definition startsOn (p : string) (e : RunningTask) : bool := onProject p e && e_pending e.

(** ** Histories *)

(** What may happen to the manager, each event one stretch of code without an [await]: a
    dispatch reaches its launch, a promise settles, the sweep comes back from its query to an
    entry it decided on before, a run is cancelled, the manager drains or shuts down, and live
    runs are registered. Nothing is asked of the order: a dispatch may reach a task another
    run holds by then, and the sweep an entry whose promise settled during the query. *)
Inductive guardEvent :=
| EvTaskRun (memberId taskId projectId : string) (pending : bool)
| EvTaskLessRun (memberId projectId suffix : string) (pending : bool)
| EvSettle (i : nat) | EvReap (i : nat) | EvCancel (key : string) | EvDrain | EvShutdown
| EvRegister (r : LiveRun) | EvUnregister (id : string) | EvAttach (id container : string).

(** A promise settles once. *)
Definition guardStep (J : JobManager) (ev : guardEvent) : JobManager :=
  match ev with
  | EvTaskRun m t p pending => fst (dispatch (taskRun m t p pending) J)
  | EvTaskLessRun m p suffix pending => fst (dispatch (taskLessRun m p suffix pending) J)
  | EvSettle i => match entries J !! i with Some e => if e_settled e then J else settle i J | None => J end
  | EvReap i => reap i J
  | EvCancel key => fst (cancelTask key J)
  | EvDrain => stopAcceptingWork J
  | EvShutdown => shutdown J
  | EvRegister r => registerLiveRun r J
  | EvUnregister id => unregisterLiveRun id J
  | EvAttach id container => attachLiveRunContainer id container J
  end.

Definition runGuards (evs : list guardEvent) (J : JobManager) : JobManager := fold_left guardStep evs J.

(** The entry a reap writes although its promise has settled and released it already. *)
Definition lateReap (J : JobManager) (ev : guardEvent) : option RunningTask :=
  match ev with
  | EvReap i =>
      match entries J !! i with
      | Some e => if e_settled e && negb (e_reaped e) && bool_decide (is_Some (e_task e)) then Some e else None
      | None => None
      end
  | _ => None
  end.

Definition lateOn (p : string) (J : JobManager) (ev : guardEvent) : Z :=
  match lateReap J ev with Some e => if String.eqb (e_project e) p then 1 else 0 | None => 0 end.
Definition lateStart (p : string) (J : JobManager) (ev : guardEvent) : Z :=
  match lateReap J ev with Some e => if String.eqb (e_project e) p && e_pending e then 1 else 0 | None => 0 end.

(** The events that can take a task's mark from a run that holds it: a dispatch of the task
    while it is marked, and a late reap of a run of it. *)
Definition contends (t : string) (J : JobManager) (ev : guardEvent) : bool :=
  match ev with
  | EvTaskRun _ t' _ _ => String.eqb t' t && bool_decide (t ∈ activeTaskRuns J)
  | _ => match lateReap J ev with Some e => bool_decide (e_task e = Some t) | None => false end
  end.

Fixpoint lateReaps (p : string) (evs : list guardEvent) (J : JobManager) : Z :=
  match evs with [] => 0 | ev :: evs => lateOn p J ev + lateReaps p evs (guardStep J ev) end.
Fixpoint lateStarts (p : string) (evs : list guardEvent) (J : JobManager) : Z :=
  match evs with [] => 0 | ev :: evs => lateStart p J ev + lateStarts p evs (guardStep J ev) end.
Fixpoint contended (t : string) (evs : list guardEvent) (J : JobManager) : bool :=
  match evs with [] => false | ev :: evs => contends t J ev || contended t evs (guardStep J ev) end.
Definition isShutdown (ev : guardEvent) : bool := match ev with EvShutdown => true | _ => false end.

Definition holds_task (t : string) (J : JobManager) (i : nat) (e : RunningTask) : Prop :=
  entries J !! i = Some e /\ holding e = true /\ e_task e = Some t.

(** The state after a history with [late] releases too many on a project, [starts] too many
    pending starts, [spoilt] tasks contended, and a shutdown when [down]. *)
Record guards_inv (late starts : string -> Z) (spoilt : string -> bool) (down : bool) (J : JobManager) : Prop := {
  gi_running : forall k i, runningTasks J !! k = Some i ->
    exists e, entries J !! i = Some e /\ e_key e = k /\ holding e = true;
  gi_registered : down = false -> forall i e, entries J !! i = Some e -> holding e = true -> runningTasks J !! e_key e = Some i;
  gi_projects : forall p, countZ (onProject p) (entries J) - late p <= countOf (activeProjectRuns J) p <= countZ (onProject p) (entries J);
  gi_pending : forall p, countZ (startsOn p) (entries J) - starts p <= countOf (pendingContainerStarts J) p <= countZ (startsOn p) (entries J);
  gi_pos : positive (activeProjectRuns J) /\ positive (pendingContainerStarts J);
  gi_tasks : forall t, t ∈ activeTaskRuns J -> exists i e, holds_task t J i e;
  gi_marked : forall t i e, spoilt t = false -> holds_task t J i e -> t ∈ activeTaskRuns J;
  gi_unique : forall t i j e e', spoilt t = false -> holds_task t J i e -> holds_task t J j e' -> i = j
}.

(** ** The fields an operation writes *)

Lemma take_fields e J :
  entries (takeGuards e J) = entries J /\ runningTasks (takeGuards e J) = runningTasks J
  /\ draining (takeGuards e J) = draining J
  /\ activeProjectRuns (takeGuards e J) = acquire (e_project e) (activeProjectRuns J)
  /\ pendingContainerStarts (takeGuards e J)
     = (if e_pending e then acquire (e_project e) (pendingContainerStarts J) else pendingContainerStarts J)
  /\ activeTaskRuns (takeGuards e J) = (match e_task e with Some t => {[t]} ∪ activeTaskRuns J | None => activeTaskRuns J end).
Proof. unfold takeGuards. by destruct (e_task e), (e_pending e). Qed.

Lemma release_fields e J :
  entries (releaseRunDispatch e J) = entries J /\ runningTasks (releaseRunDispatch e J) = runningTasks J
  /\ activeProjectRuns (releaseRunDispatch e J) = release (e_project e) (activeProjectRuns J)
  /\ pendingContainerStarts (releaseRunDispatch e J)
     = (if e_pending e then release (e_project e) (pendingContainerStarts J) else pendingContainerStarts J)
  /\ activeTaskRuns (releaseRunDispatch e J) = (match e_task e with Some t => activeTaskRuns J ∖ {[t]} | None => activeTaskRuns J end).
Proof. unfold releaseRunDispatch. by destruct (e_task e), (e_pending e). Qed.

(** An entry after it ended, by settling or by being reaped. *)
Definition ended (e e' : RunningTask) : Prop :=
  e_key e' = e_key e /\ e_task e' = e_task e /\ e_project e' = e_project e /\ e_pending e' = e_pending e /\ holding e' = false.

Lemma insert_cases {A} (l : list A) i j (x y : A) : <[i := x]> l !! j = Some y -> (i = j /\ y = x) \/ (i <> j /\ l !! j = Some y).
Proof. intros H. apply list_lookup_insert_Some in H as [(-> & -> & _)|[? ?]]; [by left|by right]. Qed.

Lemma forget_spec i e m k j : forget i e m !! k = Some j -> m !! k = Some j /\ (j = i -> k <> e_key e).
Proof.
  unfold forget. case_bool_decide as H.
  - destruct (decide (e_key e = k)) as [<-|Hne]; [by rewrite lookup_delete_eq|]. rewrite lookup_delete_ne by done.
    intros Hk. split; [done|]. by intros _ ->.
  - intros Hk. split; [done|]. intros -> ->. done.
Qed.

Lemma forget_keeps i e m k j : m !! k = Some j -> j <> i -> forget i e m !! k = Some j.
Proof.
  intros Hk Hne. unfold forget. case_bool_decide as H; [|done]. rewrite lookup_delete_ne; [done|].
  intros <-. rewrite Hk in H. by simplify_eq.
Qed.

Section Ending.
Context (late starts : string -> Z) (spoilt : string -> bool) (down : bool) (J : JobManager) (i : nat) (e e' : RunningTask).
Context (HJ : guards_inv late starts spoilt down J) (Hi : entries J !! i = Some e) (He : ended e e').

Let J' := set_running (<[i := e']> (entries J)) (forget i e (runningTasks J)) J.

Lemma ended_entry j x : <[i := e']> (entries J) !! j = Some x -> holding x = true -> entries J !! j = Some x /\ j <> i.
Proof.
  destruct He as (_ & _ & _ & _ & Hh'). intros [[-> ->]|[Hne Hj]]%insert_cases Hx; [congruence|]. by split.
Qed.

Lemma ended_running k j : forget i e (runningTasks J) !! k = Some j ->
  exists x, <[i := e']> (entries J) !! j = Some x /\ e_key x = k /\ holding x = true.
Proof.
  intros [Hk Hne]%forget_spec. destruct (gi_running _ _ _ _ _ HJ k j Hk) as (x & Hx & Hkx & Hh).
  destruct (decide (j = i)) as [->|Hji].
  - exfalso. rewrite Hi in Hx. injection Hx as <-. by apply (Hne eq_refl).
  - exists x. by rewrite list_lookup_insert_ne.
Qed.

Lemma ended_registered : down = false -> forall j x, <[i := e']> (entries J) !! j = Some x -> holding x = true ->
  forget i e (runningTasks J) !! e_key x = Some j.
Proof.
  intros Hd j x Hj Hx. destruct (ended_entry j x Hj Hx) as [Hj' Hne]. apply forget_keeps; [|done].
  by apply (gi_registered _ _ _ _ _ HJ).
Qed.

Lemma ended_counts p :
  countZ (onProject p) (<[i := e']> (entries J))
    = countZ (onProject p) (entries J) - (if holding e && String.eqb (e_project e) p then 1 else 0)
  /\ countZ (startsOn p) (<[i := e']> (entries J))
    = countZ (startsOn p) (entries J) - (if holding e && String.eqb (e_project e) p && e_pending e then 1 else 0).
Proof.
  destruct He as (_ & _ & Hp & Hpd & Hh'). rewrite !(countZ_insert _ _ i e e') by done.
  unfold startsOn, onProject. rewrite Hh', Hp, Hpd. simpl. split; lia.
Qed.

(** A run that ends without releasing held nothing, and the books stay as they are. *)
Lemma quiet_inv : holding e = false -> guards_inv late starts spoilt down J'.
Proof.
  intros Hh. pose proof ended_counts as Hc. pose proof ended_entry as Hent. rewrite Hh in Hc.
  assert (forall t j x, holds_task t J' j x <-> holds_task t J j x) as Hholds.
  { intros t j x. unfold holds_task, J'. jm. split; intros (Hj & Hx & Ht); repeat split; try done; [by apply Hent|].
    rewrite list_lookup_insert_ne; [done|]. intros ->. congruence. }
  destruct HJ as [_ _ Hproj Hpend Hpos Htask Hmark Huniq]. subst J'. split; jm.
  - exact ended_running.
  - exact ended_registered.
  - intros p. rewrite (proj1 (Hc p)). specialize (Hproj p). simpl. lia.
  - intros p. rewrite (proj2 (Hc p)). specialize (Hpend p). simpl. lia.
  - exact Hpos.
  - intros t (j & x & Hx)%Htask. exists j, x. by apply Hholds.
  - intros t j x Hs Hx%Hholds. by eapply Hmark.
  - intros t j k x y Hs Hx%Hholds Hy%Hholds. by eapply Huniq.
Qed.

(** A run that ends and releases gives back what it held; one that held nothing any more takes
    it from the others. *)
Lemma guard_released :
  guards_inv (fun p => late p + (if negb (holding e) && String.eqb (e_project e) p then 1 else 0))
    (fun p => starts p + (if negb (holding e) && (String.eqb (e_project e) p && e_pending e) then 1 else 0))
    (fun t => spoilt t || (negb (holding e) && bool_decide (e_task e = Some t))) down (releaseRunDispatch e J').
Proof.
  pose proof ended_counts as Hc. pose proof ended_entry as Hent. pose proof ended_running as Hrun. pose proof ended_registered as Hreg.
  assert (forall t j x, holds_task t J' j x -> holds_task t J j x /\ j <> i) as Hholds.
  { intros t j x (Hj & Hx & Ht). destruct (Hent j x Hj Hx). done. }
  destruct (release_fields e J') as (Een & Ert & Epr & Epe & Eta). subst J'. jm. revert Een Ert Epr Epe Eta Hholds. jm.
  intros Een Ert Epr Epe Eta Hholds. destruct HJ as [_ _ Hproj Hpend [Hp Hq] Htask Hmark Huniq].
  split; unfold holds_task; rewrite ?Een, ?Ert, ?Epr, ?Epe; try exact Hrun; try exact Hreg.
  - intros p. rewrite (proj1 (Hc p)), countOf_release. specialize (Hproj p). pose proof (countOf_nonneg _ p Hp).
    destruct (String.eqb_spec (e_project e) p) as [<-|Hne]; [rewrite bool_decide_true by done|rewrite bool_decide_false, !andb_false_r by done; lia].
    destruct (holding e) eqn:Hh; simpl; [|lia].
    assert (0 < countZ (onProject (e_project e)) (entries J)); [|lia].
    eapply countZ_lookup; [exact Hi|]. unfold onProject. by rewrite Hh, String.eqb_refl.
  - intros p. rewrite (proj2 (Hc p)). specialize (Hpend p). pose proof (countOf_nonneg _ p Hq).
    destruct (e_pending e) eqn:Ep; rewrite ?andb_false_r, ?andb_true_r; [|lia]. rewrite countOf_release.
    destruct (String.eqb_spec (e_project e) p) as [<-|Hne]; [rewrite bool_decide_true by done|rewrite bool_decide_false, !andb_false_r by done; lia].
    destruct (holding e) eqn:Hh; simpl; [|lia].
    assert (0 < countZ (startsOn (e_project e)) (entries J)); [|lia].
    eapply countZ_lookup; [exact Hi|]. unfold startsOn, onProject. by rewrite Hh, String.eqb_refl, Ep.
  - split; [|destruct (e_pending e); [|done]]; by apply positive_release.
  - intros t Ht. assert (t ∈ activeTaskRuns J /\ e_task e <> Some t) as [Hin Hne] by (rewrite Eta in Ht; destruct (e_task e); set_solver).
    destruct (Htask t Hin) as (j & x & Hj & Hx & Htx). exists j, x. rewrite list_lookup_insert_ne; [done|]. intros ->. congruence.
  - intros t j x [Hs Hs']%orb_false_iff Hx. destruct (Hholds t j x Hx) as [Hx' Hne].
    assert (t ∈ activeTaskRuns J) as Hin by (by eapply Hmark). assert (e_task e <> Some t).
    { intros E. rewrite bool_decide_true, andb_true_r in Hs' by done. apply negb_false_iff in Hs'. apply Hne. by eapply (Huniq t j i x e). }
    rewrite Eta. destruct (e_task e); set_solver.
  - intros t j k x y [Hs _]%orb_false_iff [Hx _]%Hholds [Hy _]%Hholds. by eapply Huniq.
Qed.
End Ending.

Section Launching.
Context (late starts : string -> Z) (spoilt : string -> bool) (down : bool) (J : JobManager) (e : RunningTask).
Context (HJ : guards_inv late starts spoilt down J) (Hh : holding e = true).

Definition taken (t : string) : bool := bool_decide (e_task e = Some t) && bool_decide (t ∈ activeTaskRuns J).

(** A refused launch undoes its guards; the mark of a task another run holds goes with them. *)
Lemma refused_inv : guards_inv late starts (fun t => spoilt t || taken t) down (releaseRunDispatch e (takeGuards e J)).
Proof.
  destruct HJ as [Hrun Hreg Hproj Hpend [Hp Hq] Htask Hmark Huniq].
  destruct (release_fields e (takeGuards e J)) as (Een & Ert & Epr & Epe & Eta).
  destruct (take_fields e J) as (Een' & Ert' & _ & Epr' & Epe' & Eta'). rewrite Een' in Een. rewrite Ert' in Ert.
  rewrite Epr', release_acquire in Epr by done.
  assert (pendingContainerStarts (releaseRunDispatch e (takeGuards e J)) = pendingContainerStarts J) as Epe2
    by (rewrite Epe, Epe'; destruct (e_pending e); [by apply release_acquire|done]).
  assert (forall t, t ∈ activeTaskRuns (releaseRunDispatch e (takeGuards e J)) <-> t ∈ activeTaskRuns J /\ e_task e <> Some t) as Hmarks.
  { intros t. rewrite Eta, Eta'. destruct (e_task e); set_solver. }
  split; unfold holds_task; rewrite ?Een, ?Ert, ?Epr, ?Epe2; try done.
  - intros t [Ht _]%Hmarks. by apply Htask.
  - intros t j x [Hs Ht]%orb_false_iff Hx. apply Hmarks. assert (t ∈ activeTaskRuns J) as Hin by (by eapply Hmark).
    split; [done|]. intros E. unfold taken in Ht. by rewrite !bool_decide_true in Ht.
  - intros t j k x y [Hs _]%orb_false_iff. by apply Huniq.
Qed.

Lemma launched_inv : runningTasks J !! e_key e = None ->
  guards_inv late starts (fun t => spoilt t || taken t) down
    (set_running (entries J ++ [e]) (<[e_key e := length (entries J)]> (runningTasks J)) (takeGuards e J)).
Proof.
  intros Hk. destruct HJ as [Hrun Hreg Hproj Hpend [Hp Hq] Htask Hmark Huniq].
  destruct (take_fields e J) as (_ & _ & _ & Epr & Epe & Eta).
  assert (forall j x, (entries J ++ [e]) !! j = Some x -> entries J !! j = Some x \/ j = length (entries J) /\ x = e) as Hsplit.
  { intros j x [H|[Hle H]]%lookup_app_Some; [by left|right].
    apply list_lookup_singleton_Some in H as [H ->]. split; [lia|done]. }
  assert (forall j x, entries J !! j = Some x -> (entries J ++ [e]) !! j = Some x) as Hold by (intros; by apply lookup_app_l_Some).
  assert ((entries J ++ [e]) !! length (entries J) = Some e) as Hnew by (by apply list_lookup_middle).
  split; jm; unfold holds_task; jm; rewrite ?Epr, ?Epe.
  - intros k j. destruct (decide (e_key e = k)) as [<-|Hne].
    + rewrite lookup_insert_eq. intros [= <-]. by exists e.
    + rewrite lookup_insert_ne by done. intros (x & H1 & H2)%Hrun. eauto.
  - intros Hd j x [Hj|[-> ->]]%Hsplit Hx; [|by rewrite lookup_insert_eq]. specialize (Hreg Hd j x Hj Hx).
    rewrite lookup_insert_ne; [done|]. intros E. by rewrite E, Hreg in Hk.
  - intros p. rewrite countZ_app, countZ_cons, countZ_nil, countOf_acquire. specialize (Hproj p). unfold onProject at 2 4. rewrite Hh.
    destruct (String.eqb_spec (e_project e) p); [rewrite bool_decide_true by done|rewrite bool_decide_false by done]; simpl; lia.
  - intros p. rewrite countZ_app, countZ_cons, countZ_nil. specialize (Hpend p). unfold startsOn at 2 4, onProject. rewrite Hh.
    destruct (e_pending e); rewrite ?countOf_acquire;
      (destruct (String.eqb_spec (e_project e) p); [rewrite ?bool_decide_true by done|rewrite ?bool_decide_false by done]); simpl; lia.
  - split; [|destruct (e_pending e); [|done]]; by apply positive_acquire.
  - intros t Ht. assert (e_task e = Some t \/ t ∈ activeTaskRuns J) as [E|Hin] by (rewrite Eta in Ht; destruct (e_task e); set_solver).
    + by exists (length (entries J)), e.
    + destruct (Htask t Hin) as (j & x & Hj & ?). exists j, x. split; [by apply Hold|done].
  - intros t j x [Hs _]%orb_false_iff (Hj & Hx & Ht). rewrite Eta. destruct (Hsplit j x Hj) as [Hj'|[-> ->]]; [|rewrite Ht; set_solver].
    assert (t ∈ activeTaskRuns J) by (by eapply Hmark). destruct (e_task e); set_solver.
  - intros t j k x y [Hs Ht]%orb_false_iff (Hj & Hx & Htx) (Hk' & Hy & Hty).
    assert (forall a z, holds_task t J a z -> e_task e <> Some t) as Hfree.
    { intros a z Hz E. unfold taken in Ht. rewrite !bool_decide_true in Ht; [done|by eapply Hmark|done]. }
    destruct (Hsplit j x Hj) as [Hj'|[-> ->]], (Hsplit k y Hk') as [Hk''|[-> ->]]; [|exfalso|exfalso|done].
    + by apply (Huniq t j k x y).
    + by apply (Hfree j x).
    + by apply (Hfree k y).
Qed.

Lemma dispatch_inv : guards_inv late starts (fun t => spoilt t || taken t) down (fst (dispatch e J)).
Proof.
  unfold dispatch, launchTask. destruct (take_fields e J) as (Een & Ert & Edr & _). rewrite Edr, Ert, Een.
  destruct (draining J); [apply refused_inv|]. destruct (runningTasks J !! e_key e) eqn:Ek; [apply refused_inv|by apply launched_inv].
Qed.
End Launching.

(** ** Histories keep the books *)

Lemma guards_inv_ext l l' s s' d d' down J : (forall p, l p = l' p) -> (forall p, s p = s' p) -> (forall t, d t = d' t) ->
  guards_inv l s d down J -> guards_inv l' s' d' down J.
Proof.
  intros Hl Hs Hd [H1 H2 H3 H4 H5 H6 H7 H8]. split; try done; intros *; rewrite <- ?Hl, <- ?Hs, <- ?Hd; eauto.
Qed.

Lemma guard_settled l s d down J i e : guards_inv l s d down J -> entries J !! i = Some e -> e_settled e = false ->
  guards_inv l s d down (settle i J).
Proof.
  intros HJ Hi Hse. unfold settle. rewrite Hi. assert (ended e (markSettled e)) as Hend by (by repeat split).
  destruct (e_reaped e) eqn:Er; [apply quiet_inv; try done; unfold holding; by rewrite Er, andb_false_r|].
  eapply guards_inv_ext; [| | |by apply guard_released]; unfold holding; rewrite Hse, Er; simpl; intros; rewrite ?orb_false_r; lia || done.
Qed.

Lemma reap_inv l s d down J i : guards_inv l s d down J ->
  guards_inv (fun p => l p + lateOn p J (EvReap i)) (fun p => s p + lateStart p J (EvReap i))
    (fun t => d t || contends t J (EvReap i)) down (reap i J).
Proof.
  intros HJ. unfold lateOn, lateStart, contends, lateReap, reap.
  assert (guards_inv (fun p => l p + 0) (fun p => s p + 0) (fun t => d t || false) down J) as Hsame
    by (eapply guards_inv_ext; [| | |exact HJ]; intros; rewrite ?orb_false_r; lia || done).
  destruct (entries J !! i) as [e|] eqn:Hi; [|done]. destruct (e_task e) as [t|] eqn:Et; [|by rewrite bool_decide_false, andb_false_r by (by intros [? ?])].
  rewrite bool_decide_true, andb_true_r by eauto. destruct (e_reaped e) eqn:Er; [by rewrite andb_false_r|].
  rewrite andb_true_r. assert (ended e (markReaped e)) as Hend by (repeat split; unfold holding; simpl; apply andb_false_r).
  assert (holding e = negb (e_settled e)) as Hh by (unfold holding; by rewrite Er, andb_true_r).
  destruct (guard_released l s d down J i e (markReaped e) HJ Hi Hend) as [H1 H2 H3 H4 H5 H6 H7 H8].
  rewrite Hh, negb_involutive in H3, H4. setoid_rewrite Hh in H7. setoid_rewrite Hh in H8. setoid_rewrite negb_involutive in H7.
  setoid_rewrite negb_involutive in H8. destruct (e_settled e); simpl in *; by split.
Qed.

Lemma guardStep_inv l s d down J ev : guards_inv l s d down J ->
  guards_inv (fun p => l p + lateOn p J ev) (fun p => s p + lateStart p J ev) (fun t => d t || contends t J ev)
    (down || isShutdown ev) (guardStep J ev).
Proof.
  intros HJ. destruct ev as [m t p pd|m p suf pd|i|i|key| | |r|id|id c]; cbn [isShutdown]; rewrite ?orb_false_r;
    cbn [guardStep].
  all: try (assert (guards_inv (fun p => l p + 0) (fun p => s p + 0) (fun t => d t || false) down J) as Hsame
    by (eapply guards_inv_ext; [| | |exact HJ]; intros; rewrite ?orb_false_r; lia || done)).
  - refine (guards_inv_ext _ _ _ _ _ _ _ _ _ _ _ (dispatch_inv l s d down J (taskRun m t p pd) HJ eq_refl));
      [intros p'; cbn; lia|intros p'; cbn; lia|].
    intros t'. unfold taken, contends. cbn [e_task taskRun]. destruct (String.eqb_spec t t') as [->|Hne].
    + by rewrite (bool_decide_true (Some t' = Some t')).
    + rewrite (bool_decide_false (Some t = Some t')); [done|]. by intros [= ->].
  - refine (guards_inv_ext _ _ _ _ _ _ _ _ _ _ _ (dispatch_inv l s d down J (taskLessRun m p suf pd) HJ eq_refl));
      [intros p'; cbn; lia|intros p'; cbn; lia|done].
  - destruct (entries J !! i) as [e|] eqn:Hi; [|done]. destruct (e_settled e) eqn:Es; [done|]. by eapply guard_settled.
  - by apply reap_inv.
  - unfold cancelTask. destruct (runningTasks J !! key); [|done]. by destruct Hsame; split.
  - by destruct Hsame; split.
  - rewrite orb_true_r. by destruct Hsame; split.
  - by destruct Hsame; split.
  - by destruct Hsame; split.
  - by destruct Hsame; split.
Qed.

Lemma runGuards_inv evs : forall l s d down J, guards_inv l s d down J ->
  guards_inv (fun p => l p + lateReaps p evs J) (fun p => s p + lateStarts p evs J) (fun t => d t || contended t evs J)
    (down || existsb isShutdown evs) (runGuards evs J).
Proof.
  induction evs as [|ev evs IH]; intros l s d down J HJ; cbn.
  - rewrite orb_false_r. eapply guards_inv_ext; [| | |exact HJ]; intros; rewrite ?orb_false_r; lia || done.
  - apply (guardStep_inv _ _ _ _ _ ev), IH in HJ. rewrite orb_assoc.
    eapply guards_inv_ext; [| | |exact HJ]; intros; cbn; rewrite ?orb_assoc; lia || done.
Qed.

Lemma initial_inv : guards_inv (fun _ => 0) (fun _ => 0) (fun _ => false) false initial.
Proof.
  assert (positive ∅) as Hp by (intros p c; by rewrite lookup_empty).
  split; [done|done|done|done|by split| | |].
  - by intros t ?%not_elem_of_empty.
  - by intros t i e _ (H & _).
  - by intros t i j e e' _ (H & _).
Qed.

Lemma history_inv evs : guards_inv (fun p => lateReaps p evs initial) (fun p => lateStarts p evs initial)
  (fun t => contended t evs initial) (existsb isShutdown evs) (runGuards evs initial).
Proof. exact (runGuards_inv evs _ _ _ _ _ initial_inv). Qed.

(** ** What the guards promise *)

(** C19. What the dispatch guards are worth after any history of the manager, races included.
    A project's run count and its pending starts never exceed the runs that took them and have
    neither settled nor been reaped, and fall short of them by at most one for each entry the
    sweep wrote after its promise had settled; a task is marked busy only while such a run of
    it is going, and exactly then, for one run, when no dispatch reached it marked and no such
    late write was of it; and a registered key is always that of such a run, every such run
    being registered until a shutdown. *)
Theorem dispatch_guards_exact evs :
  let J := runGuards evs initial in
  (forall p, countZ (onProject p) (entries J) - lateReaps p evs initial <= countOf (activeProjectRuns J) p
             <= countZ (onProject p) (entries J))
  /\ (forall p, countZ (startsOn p) (entries J) - lateStarts p evs initial <= countOf (pendingContainerStarts J) p
               <= countZ (startsOn p) (entries J))
  /\ (forall t, t ∈ activeTaskRuns J -> exists i e, holds_task t J i e)
  /\ (forall t, contended t evs initial = false ->
        (t ∈ activeTaskRuns J <-> exists i e, holds_task t J i e)
        /\ (forall i j e e', holds_task t J i e -> holds_task t J j e' -> i = j))
  /\ (forall k i, runningTasks J !! k = Some i -> exists e, entries J !! i = Some e /\ e_key e = k /\ holding e = true)
  /\ (existsb isShutdown evs = false -> forall i e, entries J !! i = Some e -> holding e = true -> runningTasks J !! e_key e = Some i).
Proof.
  cbn zeta. destruct (history_inv evs) as [H1 H2 H3 H4 H5 H6 H7 H8].
  split; [done|]. split; [done|]. split; [done|]. split; [|by split].
  intros t Hc. split; [|by intros i j e e'; apply H8]. split; [by apply H6|]. intros (i & e & He). by eapply H7.
Qed.

(** The races do happen: the bound is reached by a sweep that awaits its query while the entry
    it decided on settles, and the run another agent started in the same project meanwhile is
    no longer counted. *)
Lemma reap_after_settle_releases_twice :
  let evs := [EvTaskRun "dev" "T" "P" true; EvTaskRun "qa" "U" "P" false; EvSettle 0; EvReap 0] in
  let J := runGuards evs initial in
  countOf (activeProjectRuns J) "P" = 0 /\ countZ (onProject "P") (entries J) = 1 /\ lateReaps "P" evs initial = 1.
Proof. repeat split; reflexivity. Qed.

(** [isTaskBusy] is asked several awaits before the guards are taken: two agents dispatched
    onto one task at once both launch, and the first to settle clears the slot of the other. *)
Lemma concurrent_dispatches_share_a_task :
  let evs := [EvTaskRun "dev" "T" "P" true; EvTaskRun "qa" "T" "P" false] in
  let J := runGuards (evs ++ [EvSettle 0]) initial in
  size (runningTasks (runGuards evs initial)) = 2%nat /\ "T" ∉ activeTaskRuns J /\ countZ (onProject "P") (entries J) = 1
  /\ contended "T" evs initial = true.
Proof. split; [reflexivity|]. split; [|split; reflexivity]. cbn. set_solver. Qed.

(** ** The busy question *)

(** A launch key leads with the agent and the project, ids without a colon. *)
Definition well_keyed (e : RunningTask) : Prop :=
  has_char ":" (e_member e) = false /\ has_char ":" (e_project e) = false
  /\ (e_key e = e_member e +:+ ":" +:+ e_project e \/ exists suffix, e_key e = e_member e +:+ ":" +:+ e_project e +:+ ":" +:+ suffix).

Lemma hasPrefix_spec prefix J : hasRunningTaskWithPrefix prefix J = true <->
  exists k i, runningTasks J !! k = Some i /\ keyMatches prefix k = true.
Proof.
  unfold hasRunningTaskWithPrefix. rewrite existsb_exists. split.
  - intros (k & Hk & Hm). apply list_elem_of_In, list_elem_of_fmap in Hk as ([k' i] & -> & Hin).
    apply elem_of_map_to_list in Hin. by exists k', i.
  - intros (k & i & Hk & Hm). exists k. split; [|done]. apply list_elem_of_In, list_elem_of_fmap. exists (k, i).
    split; [done|by apply elem_of_map_to_list].
Qed.

(** A key of an agent's run matches the agent's id exactly, and no other. *)
Lemma member_key_matches m e : has_char ":" m = false -> well_keyed e -> keyMatches m (e_key e) = true <-> e_member e = m.
Proof.
  intros Hm (Hme & Hpe & Hk).
  assert (exists r, e_key e = e_member e +:+ String ":" r) as [r Hr] by (destruct Hk as [->|[suf ->]]; eexists; reflexivity).
  unfold keyMatches. rewrite Hr, orb_true_iff. split.
  - intros [E%String.eqb_eq|(s & E)%startsWith_inv].
    + exfalso. rewrite <- E, has_char_app in Hm. simpl in Hm. by rewrite orb_true_r in Hm.
    + rewrite string_app_assoc in E. by apply first_char_inj in E as [E _].
  - intros <-. right. change (String ":" r) with (":" +:+ r). rewrite <- string_app_assoc. apply startsWith_app.
Qed.

Lemma project_key_matches m p e : has_char ":" m = false -> has_char ":" p = false -> well_keyed e ->
  keyMatches (m +:+ ":" +:+ p) (e_key e) = true <-> e_member e = m /\ e_project e = p.
Proof.
  intros Hm Hp (Hme & Hpe & Hk). unfold keyMatches. rewrite orb_true_iff. split.
  - assert (forall s s', has_char ":" s = false -> s +:+ "" = s' +:+ String ":" "" -> False) as Hno.
    { intros s s' Hs E. rewrite string_app_nil_r in E. rewrite E, has_char_app in Hs. simpl in Hs. by rewrite orb_true_r in Hs. }
    intros [E%String.eqb_eq|(s & E)%startsWith_inv]; destruct Hk as [Hk|[suf Hk]]; rewrite Hk in E.
    + apply first_char_inj in E as [-> ->]; done.
    + apply first_char_inj in E as [_ E]; [|done|done]. rewrite <- E, has_char_app in Hp. simpl in Hp. by rewrite orb_true_r in Hp.
    + rewrite !string_app_assoc in E. apply first_char_inj in E as [_ E]; [|done|done].
      rewrite E, has_char_app in Hpe. simpl in Hpe. by rewrite orb_true_r in Hpe.
    + rewrite !string_app_assoc in E. apply first_char_inj in E as [-> E]; [|done|done].
      by apply first_char_inj in E as [-> _].
  - intros [<- <-]. destruct Hk as [->|[suf ->]]; [left; apply String.eqb_refl|right].
    assert (e_member e +:+ ":" +:+ e_project e +:+ ":" +:+ suf = ((e_member e +:+ ":" +:+ e_project e) +:+ ":") +:+ suf) as ->
      by (rewrite !string_app_assoc; reflexivity).
    apply startsWith_app.
Qed.

(** The busy checks see exactly the agent's own runs. With ids free of colons, the
    dispatcher's prefix test on launch keys finds an agent busy in a project exactly when one
    of that agent's runs in that project is registered, task-less runs included, and finds it
    busy at all exactly when one of its runs is. *)
Theorem busy_check_exact evs m p : let J := runGuards evs initial in has_char ":" m = false -> has_char ":" p = false ->
  (forall i e, entries J !! i = Some e -> well_keyed e) ->
  (hasRunningTaskWithPrefix (m +:+ ":" +:+ p) J = true <->
    exists k i e, runningTasks J !! k = Some i /\ entries J !! i = Some e /\ e_member e = m /\ e_project e = p)
  /\ (isMemberRunning m J = true <->
    exists k i e, runningTasks J !! k = Some i /\ entries J !! i = Some e /\ e_member e = m).
Proof.
  intros J Hm Hp Hkeyed. pose proof (gi_running _ _ _ _ _ (history_inv evs)) as Hrun. fold J in Hrun. clearbody J.
  unfold isMemberRunning. rewrite !hasPrefix_spec. split; split.
  - intros (k & i & Hk & Hmatch). destruct (Hrun k i Hk) as (e & He & <- & _).
    apply project_key_matches in Hmatch as [? ?]; eauto 10.
  - intros (k & i & e & Hk & He & Hme & Hpe). destruct (Hrun k i Hk) as (e' & He' & <- & _). simplify_eq.
    exists (e_key e), i. split; [done|]. apply project_key_matches; eauto.
  - intros (k & i & Hk & Hmatch). destruct (Hrun k i Hk) as (e & He & <- & _).
    apply member_key_matches in Hmatch; eauto 10.
  - intros (k & i & e & Hk & He & Hme). destruct (Hrun k i Hk) as (e' & He' & <- & _). simplify_eq.
    exists (e_key e), i. split; [done|]. apply member_key_matches; eauto.
Qed.

Lemma busy_check_exact_witness :
  let J := runGuards [EvTaskLessRun "dev" "P" "retrospective" false] initial in
  hasRunningTaskWithPrefix "dev:P" J = true /\ isMemberRunning "de" J = false.
Proof.
  set (e := taskLessRun "dev" "P" "retrospective" false). set (evs := [EvTaskLessRun "dev" "P" "retrospective" false]).
  set (J := runGuards evs initial).
  assert (forall i x, entries J !! i = Some x -> well_keyed x) as Hk.
  { intros [|i] x H; [|by destruct i]. injection H as <-. repeat split. right. exists "retrospective". reflexivity. }
  split.
  - apply (proj1 (busy_check_exact evs "dev" "P" eq_refl eq_refl Hk)). exists (e_key e), 0%nat, e. repeat split; reflexivity.
  - apply not_true_iff_false. intros (k & i & x & _ & Hx & Hm)%(proj2 (busy_check_exact evs "de" "P" eq_refl eq_refl Hk)).
    destruct i as [|i]; [|by destruct i]. injection Hx as <-. discriminate.
Defined.

(** ** Dead containers *)

(** A container's death ends the live runs on it and leaves the others registered. *)
Lemma container_death_spares_others projectId containerId J id r :
  liveRuns J !! id = Some r -> lr_run r = id -> lr_container r <> Some containerId ->
  (forall k x, liveRuns J !! k = Some x -> lr_run x = k) ->
  liveRuns (fst (cancelLiveRunsForContainer projectId containerId J)) !! id = Some r.
Proof.
  intros Hr Hid Hc Hkeys. unfold cancelLiveRunsForContainer. cbn [fst].
  assert (forall x, In x (List.filter (fun r => bool_decide (lr_container r = Some containerId)) (getLiveRunsForProject projectId J)) ->
            lr_run x <> id) as Hne.
  { intros x [Hx Hcx%bool_decide_eq_true]%filter_In E. apply filter_In in Hx as [Hx _].
    apply list_elem_of_In, list_elem_of_fmap in Hx as ([k x'] & -> & Hin). apply elem_of_map_to_list in Hin. simpl in *.
    rewrite (Hkeys _ _ Hin) in E. subst k. by simplify_eq. }
  revert Hne. generalize (List.filter (fun r => bool_decide (lr_container r = Some containerId)) (getLiveRunsForProject projectId J)).
  clear Hkeys. intros runs. revert J Hr. induction runs as [|x runs IH]; intros J0 Hr0 Hne; [done|]. cbn [fold_left]. apply IH.
  - unfold unregisterLiveRun. jm. rewrite lookup_delete_ne by (apply Hne; by left).
    unfold cancelTask. by destruct (runningTasks J0 !! lr_key x).
  - intros y Hy. apply Hne. by right.
Qed.
