(* ===== verification/Orphans.v ===== *)
(** * Lost runs

    A model of [packages/server/src/services/orphan-detector.ts] and of [run-handback.ts],
    with the lineage a replacement run inherits ([extractReplacedRun] and the row
    [createHeartbeatRun] writes, in [agent-runner.ts]): the pass that reaps runs nothing
    drives any more and puts their work back, and the pass that heals the state a finished
    run left behind.

    Statements run one after another; where the pass awaits between reading a run and
    claiming it, and between settling its work and recording the outcome, what other writers
    do is an argument ([Gap]). The kill of a container's process tree and the broadcasts are
    left out. *)
From Stdlib Require Import ZArith Lia Ascii String List Bool Permutation Sorted.
From stdpp Require Import base list strings gmap option.
From S2P Require Import Prelude Sql JsString Wakeups RunRows TokenBudget.

Open Scope string_scope.
Open Scope list_scope.
Open Scope Z_scope.

Definition MAX_RETRIES : Z := 3.
Definition SAFETY_WINDOW_SECONDS : Z := 30.
Definition ORPHAN_LOG_TAIL_CHARS : nat := 1000.
Definition MAX_ORPHANS_PER_PASS : nat := 50.
Definition STALE_STATE_GRACE_SECONDS : Z := 120.
Definition ORPHAN_ERROR_TAIL_CHARS : nat := 400.

Inductive ApprovalType :=
| Hire | ProjectCreation | Strategy | PlanReview | DeployProduction | DesignatedRepoRequest | SkillProposal
| GoalSuggestion | RoleUpdate | TaskSuggestion.
Inductive ApprovalStatus := Pending | Approved | Denied.

#[export] Instance ApprovalType_eq_dec : EqDecision ApprovalType.
Proof. solve_decision. Defined.
#[export] Instance ApprovalStatus_eq_dec : EqDecision ApprovalStatus.
Proof. solve_decision. Defined.

Record Approval := mkApproval {
  ap_team : string; ap_type : ApprovalType; ap_member : string; ap_status : ApprovalStatus; ap_payload : Payload
}.

Record ExecutionLock := mkLock {
  el_id : string; el_task : string; el_member : string; el_locked : Z; el_released : option Z
}.

(** [od_budget] holds the agents and the clock; [od_notices] the abandoned-run notices, each
    a task and the run it names. *)
Record OrphanDb := mkOrphanDb {
  od_runs : list HeartbeatRun; od_wakes : Table; od_locks : list ExecutionLock; od_budget : BudgetDb;
  od_approvals : list Approval; od_notices : list (string * string)
}.

Definition od_now (db : OrphanDb) : Z := bd_now (od_budget db).
Definition set_runs (l : list HeartbeatRun) (db : OrphanDb) : OrphanDb :=
  mkOrphanDb l (od_wakes db) (od_locks db) (od_budget db) (od_approvals db) (od_notices db).
Definition set_wakes (t : Table) (db : OrphanDb) : OrphanDb :=
  mkOrphanDb (od_runs db) t (od_locks db) (od_budget db) (od_approvals db) (od_notices db).
Definition set_locks (l : list ExecutionLock) (db : OrphanDb) : OrphanDb :=
  mkOrphanDb (od_runs db) (od_wakes db) l (od_budget db) (od_approvals db) (od_notices db).
Definition set_budget (b : BudgetDb) (db : OrphanDb) : OrphanDb :=
  mkOrphanDb (od_runs db) (od_wakes db) (od_locks db) b (od_approvals db) (od_notices db).
Definition add_approval (a : Approval) (db : OrphanDb) : OrphanDb :=
  mkOrphanDb (od_runs db) (od_wakes db) (od_locks db) (od_budget db) (od_approvals db ++ [a]) (od_notices db).
Definition add_notice (n : string * string) (db : OrphanDb) : OrphanDb :=
  mkOrphanDb (od_runs db) (od_wakes db) (od_locks db) (od_budget db) (od_approvals db) (od_notices db ++ [n]).

Definition runHasId (id : string) (r : HeartbeatRun) : bool := String.eqb (hr_id r) id.
Definition updateRuns (p : HeartbeatRun -> bool) (f : HeartbeatRun -> HeartbeatRun) (db : OrphanDb) : OrphanDb :=
  set_runs (List.map (fun r => if p r then f r else r) (od_runs db)) db.

(** ** The verdict and the outcome on a run's row *)

Inductive OrphanArm := NeverStarted | Orphaned.
Inductive HandbackOutcome := WasRequeued | WasReplaced | WasEscalated | WasAbandoned.

#[export] Instance HandbackOutcome_eq_dec : EqDecision HandbackOutcome.
Proof. solve_decision. Defined.

Definition HANDBACK_OUTCOME_COPY (o : HandbackOutcome) : string :=
  match o with
  | WasRequeued => "The work is back in the queue and will be picked up automatically."
  | WasReplaced => "A fresh run has been queued to pick this work back up."
  | WasEscalated => "Hezo has stopped retrying this and asked for a human. There is a pending item in your Inbox."
  | WasAbandoned => "Nothing was left to put back on the queue, so this will not restart on its own. Use Retry to run it again."
  end.

Definition OUTCOME_CANCEL_REASON (o : HandbackOutcome) : option RunCancelReason :=
  match o with WasRequeued | WasReplaced => Some HandedBack | WasEscalated => None | WasAbandoned => Some Abandoned end.

Definition ORPHAN_VERDICT (a : OrphanArm) : string :=
  match a with
  | NeverStarted => "Never started: this run was queued but never began, so no work was done."
  | Orphaned => "Orphaned: nothing was driving this run any more, so no result was ever recorded. A restart, a crash or a wedged dispatch - not the agent failing."
  end.

(** [s.slice(-n)]. *)
Definition slice_last (n : nat) (s : string) : string := slice_from (String.length s - n) s.
Definition newline : string := String (ascii_of_nat 10) "".

Definition orphanErrorMessage (arm : OrphanArm) (outcome : HandbackOutcome) (logTail : string) : string :=
  let verdict := ORPHAN_VERDICT arm +:+ " " +:+ HANDBACK_OUTCOME_COPY outcome in
  let excerpt := trim (slice_last ORPHAN_ERROR_TAIL_CHARS (trim logTail)) in
  match truthy (Some excerpt) with
  | Some e => verdict +:+ newline +:+ newline +:+ "Last log output:" +:+ newline +:+ e
  | None => verdict
  end.

Definition setOutcome (error : option string) (outcome : HandbackOutcome) (r : HeartbeatRun) : HeartbeatRun :=
  mkHeartbeatRun (hr_id r) (hr_member r) (hr_team r) (hr_task r) (hr_wakeup r) (hr_kind r) (hr_status r) (hr_created r)
    (hr_started r) (hr_finished r) (hr_no_work r) (coalesce (hr_cancel r) (OUTCOME_CANCEL_REASON outcome)) (hr_stop r)
    (hr_input r) (hr_output r) (hr_retries r)
    (coalesce error (Some (btrim (default "" (hr_error r) +:+ " " +:+ HANDBACK_OUTCOME_COPY outcome)))) (hr_exit r)
    (hr_retry_of r).

(** Returns whether the guarded write applied. *)
Definition recordHandbackOutcome (runId : string) (taskId : option string) (terminalStatus : HeartbeatRunStatus)
    (outcome : HandbackOutcome) (error : option string) (db : OrphanDb) : OrphanDb * bool :=
  let p r := runHasId runId r && bool_decide (hr_status r = terminalStatus) && isNull (hr_cancel r) in
  if existsb p (od_runs db) then
    let db := updateRuns p (setOutcome error outcome) db in
    match outcome, truthy taskId with
    | WasAbandoned, Some task => (add_notice (task, runId) db, true)
    | _, _ => (db, true)
    end
  else (db, false).

(** ** Putting the work back *)
Section Orphans.
Variable render : Json -> string.
(** The identifier the database gives a new row. *)
Variable fresh : Table -> string.

(** [jsonb_strip_nulls]: null fields of objects go, at every depth; null array elements stay. *)
Fixpoint stripNulls (j : Json) : Json :=
  match j with
  | JArr l => JArr (List.map stripNulls l)
  | JObj fields => JObj ((fix go l := match l with
                                      | [] => []
                                      | (_, JNull) :: l => go l
                                      | (k, v) :: l => (k, stripNulls v) :: go l
                                      end) fields)
  | _ => j
  end.

(** The [attribution] column: the stripped object of [triggered_by] and [decided_by]. *)
Definition attributed (key : string) (p : Payload) : JsPayload :=
  match p !! key with None | Some JNull => ∅ | Some v => {[key := Some (stripNulls v)]} end.
Definition attribution (p : Payload) : JsPayload := attributed "triggered_by" p ∪ attributed "decided_by" p.

Definition agentError (memberId : string) (a : Approval) : bool :=
  bool_decide (ap_status a = Pending)
  && bool_decide (text render (ap_payload a) "type" = Some "agent_error")
  && bool_decide (text render (ap_payload a) "member_id" = Some memberId).

Definition standingError (memberId teamId : string) (a : Approval) : bool :=
  String.eqb (ap_team a) teamId && bool_decide (ap_type a = Strategy) && agentError memberId a.

Definition nullable (s : option string) : Json := match s with Some s => JStr s | None => JNull end.

Definition ceilingMessage : string := "Agent has failed 3 consecutive times. Manual intervention required.".

Definition fileLostRunApproval (runId : option string) (memberId teamId : string) (taskId : option string)
    (knownLogTail : option string) (message : string) (db : OrphanDb) : OrphanDb :=
  if existsb (standingError memberId teamId) (od_approvals db) then db
  else add_approval (mkApproval teamId Strategy memberId Pending
    (<["type" := JStr "agent_error"]> (<["member_id" := JStr memberId]> (<["run_id" := nullable runId]>
     (<["task_id" := nullable taskId]>
     (<["last_error" := nullable (truthy ((fun s => slice_last ORPHAN_LOG_TAIL_CHARS (trim s)) <$> knownLogTail))]>
     {["message" := JStr message]})))))) db.

Definition create (memberId teamId : string) (source : WakeupSource) (payload : JsPayload) (run : option string)
    (db : OrphanDb) : OrphanDb :=
  set_wakes (fst (createWakeup render quiet (od_now db) (fresh (od_wakes db)) memberId teamId source payload None run
                    (od_wakes db))) db.

Definition addRetry (n : Z) (r : HeartbeatRun) : HeartbeatRun :=
  mkHeartbeatRun (hr_id r) (hr_member r) (hr_team r) (hr_task r) (hr_wakeup r) (hr_kind r) (hr_status r) (hr_created r)
    (hr_started r) (hr_finished r) (hr_no_work r) (hr_cancel r) (hr_stop r) (hr_input r) (hr_output r) (hr_retries r + n)
    (hr_error r) (hr_exit r) (hr_retry_of r).

Definition neverStartedPayload (run : HeartbeatRun) (task : string) (original : option Wakeup) : JsPayload :=
  match original with Some w => attribution (w_payload w) | None => ∅ end
  ∪ <["reason" := Some (JStr "never_started_retry")]> (<["task_id" := Some (JStr task)]>
     (<["retry_count" := Some (JNum (hr_retries run + 1))]> (<["max_retries" := Some (JNum MAX_RETRIES)]>
     {["previous_failure" := Some (JObj [("run_id", JStr (hr_id run))])]}))).

(** The second rung, once the original wakeup could not be handed back: a replacement that names
    the task, up to the ceiling. *)
Definition replaceNeverStarted (run : HeartbeatRun) (original : option Wakeup) (db : OrphanDb) : OrphanDb * HandbackOutcome :=
  match truthy (hr_task run) with
  | None => (fileLostRunApproval (Some (hr_id run)) (hr_member run) (hr_team run) None None
               "A run could not be started and there was no task to retry it against. Manual intervention required." db,
             WasAbandoned)
  | Some task =>
      if MAX_RETRIES <=? hr_retries run + 1
      then (fileLostRunApproval (Some (hr_id run)) (hr_member run) (hr_team run) (Some task) None ceilingMessage db,
            WasAbandoned)
      else
        let db := updateRuns (runHasId (hr_id run)) (addRetry 1) db in
        (create (hr_member run) (hr_team run) (match original with Some w => w_source w | None => Timer end)
           (neverStartedPayload run task original) (original ≫= w_run) db, WasReplaced)
  end.

Definition handBackNeverStartedWork (run : HeartbeatRun) (db : OrphanDb) : OrphanDb * HandbackOutcome :=
  match truthy (hr_wakeup run) with
  | None => replaceNeverStarted run None db
  | Some id =>
      let original := List.find (hasId id) (od_wakes db) in
      let '(wakes, settled) :=
        settleWakeupForRun (od_now db) (Some id) (Handback (OtherHold "run_never_started" None)) (od_wakes db) in
      let db := set_wakes wakes db in
      match settled with Requeued => (db, WasRequeued) | _ => replaceNeverStarted run original db end
  end.

Definition retryPayload (runId : string) (taskId : option string) (priorRetries : Z) (exit : option Z) (tail : string)
    (origin : option Wakeup) : JsPayload :=
  match origin with Some w => attribution (w_payload w) | None => ∅ end
  ∪ match truthy taskId with Some t => {["task_id" := Some (JStr t)]} | None => ∅ end
  ∪ <["reason" := Some (JStr "orphan_retry")]> (<["retry_count" := Some (JNum (priorRetries + 1))]>
     (<["max_retries" := Some (JNum MAX_RETRIES)]>
     {["previous_failure" := Some (JObj [("run_id", JStr runId);
        ("exit_code", match exit with Some n => JNum n | None => JNull end);
        ("log_tail", nullable (truthy (Some tail)))])]})).

(** [true] for [retried], [false] for [escalated]. *)
Definition retryOrEscalateLostRun (runId memberId teamId : string) (taskId : option string) (priorRetries : Z)
    (tail : string) (db : OrphanDb) : OrphanDb * bool :=
  if priorRetries + 1 <? MAX_RETRIES then
    let row := List.find (runHasId runId) (od_runs db) in
    let origin := (row ≫= hr_wakeup) ≫= (fun id => List.find (hasId id) (od_wakes db)) in
    (create memberId teamId Timer (retryPayload runId taskId priorRetries (row ≫= hr_exit) tail origin)
       (origin ≫= w_run) db, true)
  else (fileLostRunApproval (Some runId) memberId teamId taskId (Some tail) ceilingMessage db, false).

(** ** The pass *)

Definition ago (now seconds : Z) (at_ : Z) : bool := at_ <? now - seconds * US_PER_SEC.

Definition stranded (now : Z) (r : HeartbeatRun) : bool :=
  (bool_decide (hr_status r = RunRunning)
   && match hr_started r with Some s => ago now SAFETY_WINDOW_SECONDS s | None => false end)
  || (bool_decide (hr_status r = RunQueued) && ago now STALE_STATE_GRACE_SECONDS (hr_created r)).

Definition byCreated (a b : HeartbeatRun) : Z := hr_created a - hr_created b.
Definition strandedRuns (db : OrphanDb) : list HeartbeatRun :=
  take MAX_ORPHANS_PER_PASS (js_sort byCreated (List.filter (stranded (od_now db)) (od_runs db))).

Definition armOf (r : HeartbeatRun) : OrphanArm := if bool_decide (hr_status r = RunQueued) then NeverStarted else Orphaned.
Definition terminalStatusOf (r : HeartbeatRun) : HeartbeatRunStatus :=
  match armOf r with NeverStarted => RunCancelled | Orphaned => RunFailed end.

(** The reap [UPDATE]: the verdict alone, and a strike for a run that had started. *)
Definition reaped (now : Z) (arm : OrphanArm) (r : HeartbeatRun) : HeartbeatRun :=
  mkHeartbeatRun (hr_id r) (hr_member r) (hr_team r) (hr_task r) (hr_wakeup r) (hr_kind r)
    (match arm with NeverStarted => RunCancelled | Orphaned => RunFailed end) (hr_created r) (hr_started r) (Some now)
    (hr_no_work r) (hr_cancel r) (hr_stop r) (hr_input r) (hr_output r)
    (hr_retries r + match arm with NeverStarted => 0 | Orphaned => 1 end) (Some (ORPHAN_VERDICT arm)) (hr_exit r)
    (hr_retry_of r).

Definition releaseLocksOf (memberId : string) (now : Z) (l : list ExecutionLock) : list ExecutionLock :=
  List.map (fun k => if String.eqb (el_member k) memberId && isNull (el_released k)
                     then mkLock (el_id k) (el_task k) (el_member k) (el_locked k) (Some now) else k) l.

Definition settleLostWork (run : HeartbeatRun) (tail : string) (db : OrphanDb) : OrphanDb * HandbackOutcome :=
  match armOf run with
  | NeverStarted => handBackNeverStartedWork run db
  | Orphaned =>
      let '(db, retried) := retryOrEscalateLostRun (hr_id run) (hr_member run) (hr_team run) (hr_task run)
                              (hr_retries run) tail db in
      (db, if retried then WasReplaced else WasEscalated)
  end.

Record Gap := mkGap { before_claim : OrphanDb -> OrphanDb; before_record : OrphanDb -> OrphanDb }.
Definition no_gap : Gap := mkGap (fun db => db) (fun db => db).

(** The loop body, for a run the scan returned. *)
Definition reapRun (live : list string) (tail : string -> string) (gap : Gap) (run : HeartbeatRun) (db : OrphanDb)
    : OrphanDb * bool :=
  if bool_decide (hr_id run ∈ live) then (db, false)
  else
    let db := before_claim gap db in
    let active r := runHasId (hr_id run) r && activeStatus (hr_status r) in
    if existsb active (od_runs db) then
      let db := updateRuns active (reaped (od_now db) (armOf run)) db in
      let db := set_locks (releaseLocksOf (hr_member run) (od_now db) (od_locks db)) db in
      let db := set_budget (fst (setAgentIdleIfNoActiveRuns (od_runs db) (hr_member run) (Some (hr_id run)) (od_budget db))) db in
      let '(db, outcome) := settleLostWork run (tail (hr_id run)) db in
      let db := before_record gap db in
      (fst (recordHandbackOutcome (hr_id run) (hr_task run) (terminalStatusOf run) outcome
              (Some (orphanErrorMessage (armOf run) outcome (tail (hr_id run)))) db), true)
    else (db, false).

Definition detectOrphans (live : list string) (tail : string -> string) (gap : Gap) (db : OrphanDb) : OrphanDb * Z :=
  fold_left (fun acc run => let '(db, n) := acc in
                            let '(db, counted) := reapRun live tail gap run db in (db, if counted then n + 1 else n))
    (strandedRuns db) (db, 0).

Definition PROVIDER_REFUSAL_GIVEUP_MIN : Z := 120.
Definition fileProviderRefusalApproval (runId memberId teamId : string) (taskId : option string) (reason : string)
    (db : OrphanDb) : OrphanDb :=
  fileLostRunApproval (Some runId) memberId teamId taskId None
    ("The model provider has been refusing this agent's runs for over 120 minutes, so Hezo has stopped retrying. "
     +:+ reason +:+ " Switch the agent or task to another model, or wait for the provider to recover and press Retry.") db.
End Orphans.

(** ** Healing *)

Definition activeRunOf (p : HeartbeatRun -> bool) (db : OrphanDb) : bool :=
  existsb (fun r => p r && activeStatus (hr_status r)) (od_runs db).

Definition staleLock (db : OrphanDb) (k : ExecutionLock) : bool :=
  isNull (el_released k) && ago (od_now db) STALE_STATE_GRACE_SECONDS (el_locked k)
  && negb (activeRunOf (fun r => String.eqb (hr_member r) (el_member k) && equals (hr_task r) (el_task k)) db).

Definition healLocks (db : OrphanDb) : OrphanDb :=
  set_locks (List.map (fun k => if staleLock db k
                                then mkLock (el_id k) (el_task k) (el_member k) (el_locked k) (Some (od_now db)) else k)
               (od_locks db)) db.

(** [updatedAt] is the [updated_at] column of [member_agents]. *)
Definition stuckAgent (updatedAt : string -> Z) (db : OrphanDb) (a : BudgetAgent) : bool :=
  bool_decide (ba_runtime a = Active) && ago (od_now db) STALE_STATE_GRACE_SECONDS (updatedAt (ba_id a))
  && negb (activeRunOf (fun r => String.eqb (hr_member r) (ba_id a)) db).

Definition healAgents (updatedAt : string -> Z) (db : OrphanDb) : OrphanDb :=
  fold_left (fun db a => set_budget (fst (setAgentIdleIfNoActiveRuns (od_runs db) (ba_id a) None (od_budget db))) db)
    (List.filter (stuckAgent updatedAt db) (bd_agents (od_budget db))) db.

Definition dispatchedFrom (w : Wakeup) (r : HeartbeatRun) : bool := equals (hr_wakeup r) (w_id w).
Definition stuckWakeup (db : OrphanDb) (w : Wakeup) : bool :=
  bool_decide (w_status w = Claimed)
  && match w_claimed w with Some t => ago (od_now db) STALE_STATE_GRACE_SECONDS t | None => false end
  && negb (activeRunOf (dispatchedFrom w) db).

(** The status of the newest run of the wakeup. *)
Definition lastRunStatus (db : OrphanDb) (w : Wakeup) : option HeartbeatRunStatus :=
  hr_status <$> head (newest hr_created 1 (List.filter (dispatchedFrom w) (od_runs db))).

Definition unclaim (w : Wakeup) : Wakeup :=
  mkWakeup (w_id w) (w_member w) (w_team w) (w_source w) (w_payload w) Queued (w_key w) (w_run w) (w_created w)
    (w_count w) None (w_skipped w) (w_reason w) (w_not_before w) (w_held w) (w_completed w).

Definition resolveStuck (db : OrphanDb) (w : Wakeup) : Wakeup :=
  match lastRunStatus db w with
  | Some RunSucceeded => finish (od_now db) Completed w
  | Some _ => finish (od_now db) Failed w
  | None => unclaim w
  end.

Definition healWakeups (db : OrphanDb) : OrphanDb :=
  set_wakes (List.map (fun w => if stuckWakeup db w then resolveStuck db w else w) (od_wakes db)) db.

Definition healStaleRunState (updatedAt : string -> Z) (db : OrphanDb) : OrphanDb :=
  healWakeups (healAgents updatedAt (healLocks db)).

(** ** The run a replacement run inherits from *)

Record ReplacedRun := mkReplaced { rp_run : string; rp_inherits : bool }.

Definition field (key : string) (j : option Json) : option Json :=
  match j with Some (JObj l) => snd <$> List.find (fun p => String.eqb (fst p) key) l | _ => None end.

Definition RUN_LINEAGE_SOURCES : list ((Payload -> option Json) * bool) :=
  [(fun p => field "run_id" (p !! "previous_failure"), true);
   (fun p => p !! "previous_run_id", false);
   (fun p => p !! "source_run_id", false)].

Fixpoint firstLineage (sources : list ((Payload -> option Json) * bool)) (p : Payload) : option ReplacedRun :=
  match sources with
  | [] => None
  | (read, inherits) :: rest =>
      match read p with Some (JStr id) => Some (mkReplaced id inherits) | _ => firstLineage rest p end
  end.
Definition extractReplacedRun (payload : option Payload) : option ReplacedRun := payload ≫= firstLineage RUN_LINEAGE_SOURCES.

(** The row [createHeartbeatRun] inserts. *)
Definition createHeartbeatRun (id memberId teamId : string) (taskId : option string) (wakeupId : string)
    (kind : HeartbeatRunKind) (replaces : option ReplacedRun) (db : OrphanDb) : OrphanDb :=
  let inherited := match replaces with
    | Some (mkReplaced prior true) => default 0 (hr_retries <$> List.find (runHasId prior) (od_runs db))
    | _ => 0
    end in
  set_runs (od_runs db ++ [mkHeartbeatRun id memberId teamId taskId (Some wakeupId) kind RunQueued (od_now db) None None
                             false None None 0 0 inherited None None (rp_run <$> replaces)]) db.

(** ** What carries the work of a reaped run *)
Section Carried.
Variable render : Json -> string.
Variable fresh : Table -> string.
Hypothesis fresh_new : forall t, ~ In (fresh t) (List.map w_id t).

(** A queued wakeup: the run's own, or one of its agent for its task. *)
Definition waiting (db : OrphanDb) (r : HeartbeatRun) : Prop :=
  exists w, In w (od_wakes db) /\ w_status w = Queued /\
    (hr_wakeup r = Some (w_id w) \/ (w_member w = hr_member r /\ text render (w_payload w) "task_id" = hr_task r)).

(** A pending notice that the agent needs a person. *)
Definition asked (db : OrphanDb) (r : HeartbeatRun) : Prop :=
  existsb (standingError render (hr_member r) (hr_team r)) (od_approvals db) = true.

Definition told (db : OrphanDb) (r : HeartbeatRun) : Prop :=
  forall task, hr_task r = Some task -> In (task, hr_id r) (od_notices db).

(** What later statements of the pass keep. *)
Record keeps (db db' : OrphanDb) : Prop := {
  keeps_ids : NoDup (List.map w_id (od_wakes db')); keeps_waiting : forall r, waiting db r -> waiting db' r;
  keeps_asked : forall r, asked db r -> asked db' r; keeps_notices : forall n, In n (od_notices db) -> In n (od_notices db')
}.

Lemma keeps_trans db db1 db2 : keeps db db1 -> keeps db1 db2 -> keeps db db2.
Proof. intros [] []. constructor; auto. Qed.

Lemma keeps_same db db' : NoDup (List.map w_id (od_wakes db)) -> od_wakes db' = od_wakes db ->
  od_approvals db' = od_approvals db -> (forall n, In n (od_notices db) -> In n (od_notices db')) -> keeps db db'.
Proof. intros Hnd Hw Ha Hn. constructor; unfold waiting, asked; rewrite ?Hw, ?Ha; auto. Qed.

Lemma keeps_refl db : NoDup (List.map w_id (od_wakes db)) -> keeps db db.
Proof. intros Hnd. by apply keeps_same. Qed.

(** The handback: it requeues the claimed row, and no queued row moves. *)
Lemma handback_keeps db id cause : NoDup (List.map w_id (od_wakes db)) ->
  keeps db (set_wakes (fst (settleWakeupForRun (od_now db) (Some id) (Handback cause) (od_wakes db))) db).
Proof.
  intros Hnd. unfold settleWakeupForRun. destruct (truthy (Some id)) as [i|]; [|by apply keeps_same]. cbn [fst].
  constructor; [cbn [set_wakes od_wakes]; by rewrite update_ids| |auto|auto].
  intros r (w & Hin & Hq & Hr). exists w. split_and!; try done. apply update_other; [done|]. by rewrite Hq, andb_false_r.
Qed.

Lemma handback_requeues db r id cause t : hr_wakeup r = Some id ->
  settleWakeupForRun (od_now db) (Some id) (Handback cause) (od_wakes db) = (t, Requeued) ->
  waiting (set_wakes t db) r.
Proof.
  intros Hr. unfold settleWakeupForRun. destruct (truthy (Some id)) as [i|] eqn:E; [|done].
  assert (i = id) as -> by (destruct id; cbn in E; congruence).
  destruct (existsb _ _) eqn:Ex; [|done]. intros [= <-]. apply existsb_exists in Ex as (w & Hin & Hp).
  exists (handBack (od_now db) cause w). split_and!; [by apply update_In|done|].
  left. apply andb_true_iff in Hp as [Hid%String.eqb_eq _]. rewrite Hr. cbn. by rewrite Hid.
Qed.

Lemma create_keeps db m team source payload task run : NoDup (List.map w_id (od_wakes db)) -> names_task payload task ->
  keeps db (create render fresh m team source payload run db).
Proof.
  intros Hnd Hp. constructor; [| |auto|auto].
  - cbn [create set_wakes od_wakes]. by apply createWakeup_ids.
  - intros r (w & Hin & Hq & Hr).
    destruct (createWakeup_keeps render (od_now db) (fresh (od_wakes db)) m team source payload task run _ w Hp Hnd Hin Hq)
      as (w' & Hin' & Hid & Hq' & Hm & Ht).
    exists w'. split_and!; try done. rewrite Hid, Hm, Ht. exact Hr.
Qed.

Lemma quiet_guarantees : guarantees (after_select quiet).
Proof.
  intros t Hnd w w' Hin Hin' Hid. assert (w = w') as -> by (by apply (NoDup_fmap_In w_id t)). done.
Qed.

(** A minted wakeup carries its agent's task. *)
Lemma create_waiting db r team source payload run : NoDup (List.map w_id (od_wakes db)) -> names_task payload (hr_task r) ->
  waiting (create render fresh (hr_member r) team source payload run db) r.
Proof.
  intros Hnd Hp. unfold create, waiting. cbn [set_wakes od_wakes].
  pose proof (createWakeup_target render (od_now db) (fresh (od_wakes db)) (hr_member r) team source payload
                (hr_task r) run (od_wakes db) Hp) as (w & Hin & Hq & Hm & Ht). exists w. eauto 6.
Qed.

Lemma file_standing db run m team task tail message :
  existsb (standingError render m team) (od_approvals (fileLostRunApproval render run m team task tail message db)) = true.
Proof.
  unfold fileLostRunApproval. destruct (existsb _ (od_approvals db)) eqn:E; [done|].
  cbn [add_approval od_approvals]. apply existsb_exists. eexists. split; [apply in_app_iff; right; by left|].
  unfold standingError, agentError, text. cbn [ap_team ap_type ap_status ap_payload].
  rewrite String.eqb_refl, (lookup_insert_ne _ "type" "member_id"), !lookup_insert_eq by done.
  by rewrite !bool_decide_true.
Qed.

Lemma file_asked db run r task tail message :
  asked (fileLostRunApproval render run (hr_member r) (hr_team r) task tail message db) r.
Proof. apply file_standing. Qed.

Lemma file_keeps db run m team task tail message : NoDup (List.map w_id (od_wakes db)) ->
  keeps db (fileLostRunApproval render run m team task tail message db).
Proof.
  intros Hnd. unfold fileLostRunApproval. destruct (existsb _ _) eqn:E; [by apply keeps_refl|].
  constructor; auto. intros r H. unfold asked in *. cbn [add_approval od_approvals]. rewrite existsb_app. by rewrite H.
Qed.

(** ** Settling the work *)

Lemma attribution_task p : attribution p !! "task_id" = None.
Proof.
  unfold attribution, attributed. apply lookup_union_None.
  split; [destruct (p !! "triggered_by") as [[]|]|destruct (p !! "decided_by") as [[]|]]; done.
Qed.

Lemma origin_task (o : option Wakeup) (q : JsPayload) :
  (match o with Some w => attribution (w_payload w) | None => ∅ end ∪ q) !! "task_id" = q !! "task_id".
Proof.
  rewrite lookup_union. destruct o; [rewrite attribution_task|rewrite lookup_empty]; by destruct (q !! "task_id").
Qed.

Lemma neverStarted_names run task o : names_task (neverStartedPayload run task o) (Some task).
Proof.
  unfold names_task, neverStartedPayload. rewrite origin_task.
  by rewrite lookup_insert_ne, lookup_insert_eq.
Qed.

Lemma retry_names id task n exit tail o : task <> Some "" -> names_task (retryPayload id task n exit tail o) task.
Proof.
  intros Ht. unfold names_task, retryPayload. rewrite <- (assoc_L (∪)), origin_task.
  assert (truthy task = task) as -> by (destruct task as [[]|]; done).
  rewrite lookup_union. destruct task as [t|].
  - rewrite lookup_singleton_eq. by rewrite union_Some_l.
  - rewrite lookup_empty. rewrite !lookup_insert_ne by done. by rewrite lookup_singleton_ne.
Qed.

Definition carried (db : OrphanDb) (r : HeartbeatRun) (o : HandbackOutcome) : Prop :=
  match o with WasRequeued | WasReplaced => waiting db r | WasEscalated | WasAbandoned => asked db r end.

Lemma updateRuns_keeps db p f : NoDup (List.map w_id (od_wakes db)) -> keeps db (updateRuns p f db).
Proof. intros Hnd. by apply keeps_same. Qed.

Lemma replace_carried run original db : NoDup (List.map w_id (od_wakes db)) ->
  let '(db', o) := replaceNeverStarted render fresh run original db in
  keeps db db' /\ carried db' run o /\ o <> WasEscalated.
Proof.
  intros Hnd. unfold replaceNeverStarted. destruct (truthy (hr_task run)) as [task|] eqn:Et.
  - assert (hr_task run = Some task) as Htask by (destruct (hr_task run) as [[]|]; cbn in Et; congruence).
    destruct (MAX_RETRIES <=? hr_retries run + 1); split_and!; try done.
    + by apply file_keeps.
    + apply file_asked.
    + eapply keeps_trans; [by apply updateRuns_keeps|]. eapply create_keeps; [done|apply neverStarted_names].
    + apply create_waiting; [done|]. rewrite Htask. apply neverStarted_names.
  - split_and!; [by apply file_keeps|apply file_asked|done].
Qed.

Lemma handBack_carried run db : NoDup (List.map w_id (od_wakes db)) ->
  let '(db', o) := handBackNeverStartedWork render fresh run db in
  keeps db db' /\ carried db' run o /\ o <> WasEscalated.
Proof.
  intros Hnd. unfold handBackNeverStartedWork.
  destruct (truthy (hr_wakeup run)) as [id|] eqn:E; [|by apply replace_carried].
  assert (hr_wakeup run = Some id) as Hid by (destruct (hr_wakeup run) as [[]|]; cbn in E; congruence).
  pose proof (handback_keeps db id (OtherHold "run_never_started" None) Hnd) as Hk.
  pose proof (handback_requeues db run id (OtherHold "run_never_started" None)) as Hw.
  destruct (settleWakeupForRun _ _ _ _) as [wakes s]. cbn [fst] in Hk. pose proof (keeps_ids _ _ Hk) as Hnd'.
  pose proof (replace_carried run (List.find (hasId id) (od_wakes db)) (set_wakes wakes db) Hnd') as Hr.
  destruct (replaceNeverStarted _ _ _ _ _) as [db' o]. destruct Hr as (Hk' & Hc & Ho).
  pose proof (keeps_trans _ _ _ Hk Hk').
  destruct s; [split_and!; [done|by apply Hw|done]|by split_and!..].
Qed.

Lemma settle_carried run tail db : NoDup (List.map w_id (od_wakes db)) -> hr_task run <> Some "" ->
  let '(db', o) := settleLostWork render fresh run tail db in
  keeps db db' /\ carried db' run o /\ (o = WasEscalated -> armOf run = Orphaned) /\ (o = WasAbandoned -> armOf run = NeverStarted).
Proof.
  intros Hnd Ht. unfold settleLostWork. destruct (armOf run) eqn:Harm.
  - pose proof (handBack_carried run db Hnd) as H. destruct (handBackNeverStartedWork _ _ _ _) as [db' o].
    destruct H as (Hk & Hc & Ho). by split_and!.
  - unfold retryOrEscalateLostRun. destruct (hr_retries run + 1 <? MAX_RETRIES); split_and!; try done.
    + eapply create_keeps; [done|by apply retry_names].
    + apply create_waiting; [done|by apply retry_names].
    + by apply file_keeps.
    + apply file_asked.
Qed.

(** ** The row of the run *)

Definition rowOf (id : string) (db : OrphanDb) : option HeartbeatRun := List.find (runHasId id) (od_runs db).

Lemma rowOf_update id p f db : (forall r, hr_id (f r) = hr_id r) ->
  rowOf id (updateRuns p f db) = (fun r => if p r then f r else r) <$> rowOf id db.
Proof.
  intros Hf. unfold rowOf. cbn [updateRuns set_runs od_runs]. induction (od_runs db) as [|r l IH]; [done|].
  cbn [List.map List.find]. assert (runHasId id (if p r then f r else r) = runHasId id r) as ->
    by (unfold runHasId; destruct (p r); by rewrite ?Hf).
  by destruct (runHasId id r).
Qed.

Lemma rowOf_active id db r q : rowOf id db = Some r -> q r = true ->
  existsb (fun r => runHasId id r && q r) (od_runs db) = true.
Proof.
  intros [Hin Hid]%find_some Hq. apply existsb_exists. exists r. by rewrite Hid, Hq.
Qed.

Lemma file_runs db run m team task tail message :
  od_runs (fileLostRunApproval render run m team task tail message db) = od_runs db.
Proof. unfold fileLostRunApproval. by destruct (existsb _ _). Qed.

(** Settling the work writes at most a strike on the run's own row. *)
Lemma settle_rows run tail db :
  od_runs (fst (settleLostWork render fresh run tail db)) = od_runs db \/
  od_runs (fst (settleLostWork render fresh run tail db)) = od_runs (updateRuns (runHasId (hr_id run)) (addRetry 1) db).
Proof.
  unfold settleLostWork, handBackNeverStartedWork, replaceNeverStarted, retryOrEscalateLostRun.
  destruct (armOf run); [|destruct (_ <? _); left; [done|apply file_runs]].
  destruct (truthy (hr_wakeup run)) as [id|]; [destruct (settleWakeupForRun _ _ _ _) as [wakes []]|];
    try (by left); (destruct (truthy (hr_task run)) as [task|]; [destruct (_ <=? _)|]; cbn [fst];
    [left; by rewrite file_runs|by right|left; by rewrite file_runs]).
Qed.

Definition rewritten (run r : HeartbeatRun) : Prop :=
  hr_id r = hr_id run /\ hr_status r = terminalStatusOf run /\ hr_cancel r = hr_cancel run.

Lemma settle_row run tail db r : rowOf (hr_id run) db = Some r -> rewritten run r ->
  exists r', rowOf (hr_id run) (fst (settleLostWork render fresh run tail db)) = Some r' /\ rewritten run r'.
Proof.
  intros Hr Hw. destruct (settle_rows run tail db) as [H|H].
  - exists r. split; [|done]. unfold rowOf. by rewrite H.
  - unfold rowOf. rewrite H. pose proof (rowOf_update (hr_id run) (runHasId (hr_id run)) (addRetry 1) db ltac:(done)) as Hu.
    unfold rowOf in Hu, Hr. rewrite Hu, Hr. cbn [fmap option_fmap option_map]. eexists. split; [done|].
    by destruct (runHasId (hr_id run) r).
Qed.

Lemma update_other_row p f id db : (forall r, hr_id (f r) = hr_id r) -> (forall r, p r = true -> hr_id r <> id) ->
  rowOf id (updateRuns p f db) = rowOf id db.
Proof.
  intros Hf Hp. rewrite rowOf_update by done. destruct (rowOf id db) as [r|] eqn:E; [|done]. cbn. f_equal.
  apply find_some in E as [_ E%String.eqb_eq]. destruct (p r) eqn:Hpr; [|done]. exfalso. by apply (Hp r).
Qed.

Lemma settle_other run tail db id : id <> hr_id run ->
  rowOf id (fst (settleLostWork render fresh run tail db)) = rowOf id db.
Proof.
  intros Hne. destruct (settle_rows run tail db) as [H|H]; unfold rowOf; rewrite H; [done|].
  apply update_other_row; [done|]. intros r Hr%String.eqb_eq. congruence.
Qed.

(** The claim of the loop body. *)
Definition claimRow (run : HeartbeatRun) (db : OrphanDb) : OrphanDb :=
  updateRuns (fun r => runHasId (hr_id run) r && activeStatus (hr_status r)) (reaped (od_now db) (armOf run)) db.

Lemma claim_row run db : rowOf (hr_id run) db = Some run -> activeStatus (hr_status run) = true ->
  exists r, rowOf (hr_id run) (claimRow run db) = Some r /\ rewritten run r.
Proof.
  intros Hr Ha. unfold claimRow. rewrite rowOf_update by done. rewrite Hr. cbn. eexists. split; [done|].
  unfold runHasId. rewrite String.eqb_refl, Ha. cbn. by split_and!.
Qed.

(** What the row of a reaped run says is what carries its work. *)
Definition accounted (db : OrphanDb) (r : HeartbeatRun) : Prop :=
  exists r', rowOf (hr_id r) db = Some r' /\ hr_status r' = terminalStatusOf r /\
    match hr_cancel r' with
    | Some HandedBack => waiting db r
    | Some Abandoned => asked db r /\ told db r
    | Some _ => False
    | None => hr_status r' = RunFailed /\ asked db r
    end.

Lemma record_accounted run o error db r : rowOf (hr_id run) db = Some r -> rewritten run r -> hr_cancel run = None ->
  hr_task run <> Some "" -> carried db run o -> (o = WasEscalated -> armOf run = Orphaned) ->
  accounted (fst (recordHandbackOutcome (hr_id run) (hr_task run) (terminalStatusOf run) o (Some error) db)) run.
Proof.
  intros Hr (Hid & Hs & Hc) Hnone Ht Hcar Hesc. rewrite Hnone in Hc. unfold recordHandbackOutcome.
  set (p := fun r => runHasId (hr_id run) r && _ && _).
  assert (p r = true) as Hp.
  { subst p. cbv beta. unfold runHasId. by rewrite Hid, String.eqb_refl, Hs, bool_decide_true, Hc. }
  assert (existsb p (od_runs db) = true) as ->.
  { apply existsb_exists. exists r. split; [|done]. by apply find_some in Hr as [Hr _]. }
  assert (rowOf (hr_id run) (updateRuns p (setOutcome (Some error) o) db) = Some (setOutcome (Some error) o r)) as Hrow.
  { rewrite rowOf_update by done. rewrite Hr. cbn. by rewrite Hp. }
  assert (hr_cancel (setOutcome (Some error) o r) = OUTCOME_CANCEL_REASON o) as Hcr by (cbn; by rewrite Hc).
  assert (hr_status (setOutcome (Some error) o r) = terminalStatusOf run) as Hst by exact Hs.
  exists (setOutcome (Some error) o r). rewrite Hcr, Hst.
  destruct o; cbn [fst OUTCOME_CANCEL_REASON]; (split; [destruct (truthy (hr_task run)); exact Hrow|]); (split; [done|]).
  - exact Hcar.
  - exact Hcar.
  - split; [|exact Hcar]. unfold terminalStatusOf. by rewrite (Hesc eq_refl).
  - split; [by destruct (truthy (hr_task run))|]. intros task Htask. rewrite Htask.
    destruct task; [by rewrite Htask in Ht|]. cbn. apply in_app_iff. right. by left.
Qed.

Lemma accounted_keeps db db' r : keeps db db' -> rowOf (hr_id r) db' = rowOf (hr_id r) db -> accounted db r -> accounted db' r.
Proof.
  intros [_ Hw Ha Hn] Hr (r' & Hrow & Hs & Hc). exists r'. rewrite Hr. split_and!; try done.
  destruct (hr_cancel r') as [[]|]; try done; [by apply Hw| |by split; [|apply Ha]; destruct Hc].
  destruct Hc as [Hask Htold]. split; [by apply Ha|]. intros task Htask. by apply Hn, Htold.
Qed.

Lemma record_keeps id task s o error db : NoDup (List.map w_id (od_wakes db)) ->
  keeps db (fst (recordHandbackOutcome id task s o error db)).
Proof.
  intros Hnd. unfold recordHandbackOutcome. destruct (existsb _ _); [|by apply keeps_refl].
  destruct o, (truthy task); cbn [fst]; apply keeps_same; auto. intros n Hn. cbn. apply in_app_iff. by left.
Qed.

Lemma record_other id task s o error db id' : id' <> id ->
  rowOf id' (fst (recordHandbackOutcome id task s o error db)) = rowOf id' db.
Proof.
  intros Hne. unfold recordHandbackOutcome. set (p := fun r => _).
  assert (rowOf id' (updateRuns p (setOutcome error o) db) = rowOf id' db) as H.
  { apply update_other_row; [done|]. intros r [[Hr%String.eqb_eq _]%andb_true_iff _]%andb_true_iff. congruence. }
  destruct (existsb _ _); [|done]. destruct o, (truthy task); exact H.
Qed.

Section Pass.
Variable live : list string.
Variable tail : string -> string.

Lemma reap_step run db : NoDup (List.map w_id (od_wakes db)) -> hr_task run <> Some "" ->
  let '(db', counted) := reapRun render fresh live tail no_gap run db in
  keeps db db' /\ (forall id, id <> hr_id run -> rowOf id db' = rowOf id db) /\
  (rowOf (hr_id run) db = Some run -> activeStatus (hr_status run) = true -> hr_cancel run = None ->
     counted = negb (bool_decide (hr_id run ∈ live)) /\ (hr_id run ∉ live -> accounted db' run)).
Proof.
  intros Hnd Ht. unfold reapRun. destruct (bool_decide_reflect (hr_id run ∈ live)) as [Hl|Hl].
  { split_and!; [by apply keeps_refl|done|]. by intros. }
  cbn [no_gap before_claim before_record]. fold (claimRow run db).
  destruct (existsb _ _) eqn:Ex.
  2:{ split_and!; [by apply keeps_refl|done|]. intros Hr Ha _. by rewrite (rowOf_active _ _ _ (fun r => activeStatus (hr_status r)) Hr Ha) in Ex. }
  set (db1 := set_locks _ (claimRow run db)). set (db2 := set_budget _ db1).
  assert (keeps db db2) as Hk by (by apply keeps_same).
  assert (forall id, rowOf id db2 = rowOf id (claimRow run db)) as Hrow by done.
  pose proof (settle_carried run (tail (hr_id run)) db2 (keeps_ids _ _ Hk) Ht) as Hs.
  pose proof (settle_row run (tail (hr_id run)) db2) as Hsr.
  pose proof (fun id => settle_other run (tail (hr_id run)) db2 id) as Hso.
  destruct (settleLostWork _ _ _ _ _) as [db3 o]. cbn [fst] in Hsr, Hso. destruct Hs as (Hk3 & Hcar & Hesc & _).
  split_and!.
  - eapply keeps_trans; [exact Hk|]. eapply keeps_trans; [exact Hk3|]. apply record_keeps, (keeps_ids _ _ Hk3).
  - intros id Hne. rewrite record_other, Hso, Hrow by done. unfold claimRow. apply update_other_row; [done|].
    intros r [Hr%String.eqb_eq _]%andb_true_iff. congruence.
  - intros Hr Ha Hc. split; [done|]. intros _. destruct (claim_row run db Hr Ha) as (r & Hr1 & Hw1).
    rewrite <- Hrow in Hr1. destruct (Hsr r Hr1 Hw1) as (r' & Hr' & Hw').
    by apply (record_accounted run o _ db3 r').
Qed.

Notation step := (fun (acc : OrphanDb * Z) run => let '(db, n) := acc in
   let '(db, counted) := reapRun render fresh live tail no_gap run db in (db, if counted then n + 1 else n)).

Lemma reap_all runs : forall db n, NoDup (List.map w_id (od_wakes db)) -> NoDup (List.map hr_id runs) ->
  (forall r, In r runs -> rowOf (hr_id r) db = Some r /\ activeStatus (hr_status r) = true /\ hr_cancel r = None /\
     hr_task r <> Some "") ->
  let '(db', n') := fold_left step runs (db, n) in
  keeps db db' /\ (forall id, ~ In id (List.map hr_id runs) -> rowOf id db' = rowOf id db) /\
  n' = n + countZ (fun r => negb (bool_decide (hr_id r ∈ live))) runs /\
  (forall r, In r runs -> hr_id r ∉ live -> accounted db' r).
Proof.
  induction runs as [|run runs IH]; intros db n Hnd Hids Hruns.
  { cbn. split_and!; [by apply keeps_refl|done|unfold countZ, sumZ; simpl; lia|done]. }
  cbn [fold_left]. destruct (Hruns run (or_introl eq_refl)) as (Hrow & Ha & Hc & Ht).
  pose proof (reap_step run db Hnd Ht) as Hstep.
  destruct (reapRun _ _ _ _ _ run db) as [db1 counted]. destruct Hstep as (Hk & Ho & Hself).
  destruct (Hself Hrow Ha Hc) as [-> Hacc]. cbn in Hids. inversion_clear Hids as [|? ? Hnew Hids'].
  assert (forall r, In r runs -> hr_id r <> hr_id run) as Hne.
  { intros r Hr E. apply Hnew. rewrite <- E. apply list_elem_of_In, in_map_iff. eauto. }
  match goal with |- context [fold_left _ runs (db1, ?k)] => pose proof (IH db1 k (keeps_ids _ _ Hk) Hids') as H end.
  destruct (fold_left _ runs _) as [db2 n2]. destruct H as (Hk2 & Ho2 & Hn2 & Hacc2).
  { intros r Hr. destruct (Hruns r (or_intror Hr)) as (? & ? & ? & ?). rewrite Ho by (by apply Hne). done. }
  split_and!.
  - by eapply keeps_trans.
  - intros id Hid. cbn in Hid. rewrite Ho2, Ho; [done| |]; intros H; apply Hid; auto.
  - rewrite Hn2. rewrite countZ_cons. destruct (bool_decide _); cbn [negb]; lia.
  - intros r [<-|Hr] Hl; [|by apply Hacc2]. eapply accounted_keeps; [exact Hk2| |by apply Hacc].
    apply Ho2. intros Hin. apply in_map_iff in Hin as (r & E & Hr). by apply (Hne r).
Qed.
End Pass.

Lemma rowOf_In db r : NoDup (List.map hr_id (od_runs db)) -> In r (od_runs db) -> rowOf (hr_id r) db = Some r.
Proof.
  intros Hnd Hin. unfold rowOf. destruct (List.find _ _) as [r'|] eqn:E.
  - apply find_some in E as [Hin' Hid%String.eqb_eq]. f_equal. by apply (NoDup_fmap_In hr_id (od_runs db)).
  - exfalso. apply (find_none _ _ E r) in Hin. unfold runHasId in Hin. by rewrite String.eqb_refl in Hin.
Qed.

Lemma stranded_active now r : stranded now r = true -> activeStatus (hr_status r) = true.
Proof.
  unfold stranded, activeStatus. intros [[H _]%andb_true_iff|[H _]%andb_true_iff]%orb_true_iff;
    apply bool_decide_eq_true in H; by rewrite H.
Qed.

Lemma strandedRuns_In db r : In r (strandedRuns db) -> In r (od_runs db) /\ activeStatus (hr_status r) = true.
Proof.
  unfold strandedRuns. intros H.
  assert (In r (js_sort byCreated (List.filter (stranded (od_now db)) (od_runs db)))) as Hs
    by (rewrite <- (take_drop MAX_ORPHANS_PER_PASS (js_sort _ _)); apply in_app_iff; by left).
  apply js_sort_In, filter_In in Hs as [Hin Hst]. split; [done|by eapply stranded_active].
Qed.

Lemma strandedRuns_NoDup db : NoDup (List.map hr_id (od_runs db)) -> NoDup (List.map hr_id (strandedRuns db)).
Proof.
  intros Hnd. unfold strandedRuns.
  assert (NoDup (List.map hr_id (js_sort byCreated (List.filter (stranded (od_now db)) (od_runs db))))) as H.
  { rewrite <- (js_sort_perm byCreated). by apply NoDup_map_filter. }
  rewrite <- (take_drop MAX_ORPHANS_PER_PASS (js_sort _ _)), List.map_app in H. by apply list.NoDup_app in H as [H _].
Qed.

(** C13. No work of a reaped run is lost. After a pass every stranded run it scanned that no
    driver claims is terminal, cancelled when it never started and failed otherwise, and its
    row says what became of its work: handed back means a queued wakeup holds it, its own or
    one of its agent for its task; abandoned means an item waits for a person and the thread
    was told; failed without more means the item waits. Every other run's row is as it was,
    and the count returned is the number reaped. *)
Theorem reaped_work_is_carried live tail db :
  NoDup (List.map hr_id (od_runs db)) -> NoDup (List.map w_id (od_wakes db)) ->
  (forall r, In r (od_runs db) -> activeStatus (hr_status r) = true -> hr_cancel r = None /\ hr_task r <> Some "") ->
  let '(db', n) := detectOrphans render fresh live tail no_gap db in
  n = countZ (fun r => negb (bool_decide (hr_id r ∈ live))) (strandedRuns db) /\
  (forall r, In r (strandedRuns db) -> hr_id r ∉ live -> accounted db' r) /\
  (forall id, ~ In id (List.map hr_id (strandedRuns db)) -> rowOf id db' = rowOf id db).
Proof.
  intros Hruns Hwakes Hactive. unfold detectOrphans.
  pose proof (reap_all live tail (strandedRuns db) db 0 Hwakes (strandedRuns_NoDup db Hruns)) as H.
  destruct (fold_left _ _ _) as [db' n]. destruct H as (_ & Ho & Hn & Hacc); [|by split_and!].
  intros r [Hin Ha]%strandedRuns_In. destruct (Hactive r Hin Ha). split_and!; try done. by apply rowOf_In.
Qed.
End Carried.

(** ** Healing leaves nothing stuck *)

Lemma updateAgent_In id f db y : In y (bd_agents (updateAgent id f db)) ->
  exists x, In x (bd_agents db) /\ y = (if String.eqb (ba_id x) id then f x else x).
Proof. cbn. intros (x & <- & Hx)%in_map_iff. eauto. Qed.

Lemma agentOf_In db a : NoDup (List.map ba_id (bd_agents db)) -> In a (bd_agents db) -> agentOf db (ba_id a) = Some a.
Proof.
  intros Hnd Hin. unfold agentOf. destruct (List.find _ _) as [a'|] eqn:E.
  - apply find_some in E as [Hin' Hid%String.eqb_eq]. f_equal. by apply (NoDup_fmap_In ba_id (bd_agents db)).
  - exfalso. apply (find_none _ _ E a) in Hin. by rewrite String.eqb_refl in Hin.
Qed.

Lemma updateAgent_ids id f db : (forall a, ba_id (f a) = ba_id a) ->
  List.map ba_id (bd_agents (updateAgent id f db)) = List.map ba_id (bd_agents db).
Proof. intros Hf. cbn. rewrite List.map_map. apply List.map_ext. intros a. by destruct (String.eqb _ _). Qed.

(** Resetting an agent that drives no run leaves it not active, and no other agent is made active. *)
Lemma idle_agents runs m db y : NoDup (List.map ba_id (bd_agents db)) ->
  existsb (fun r => String.eqb (hr_member r) m && activeStatus (hr_status r)) runs = false ->
  In y (bd_agents (fst (setAgentIdleIfNoActiveRuns runs m None db))) ->
  exists x, In x (bd_agents db) /\ ba_id y = ba_id x /\ (ba_runtime y = Active -> ba_runtime x = Active /\ ba_id x <> m).
Proof.
  intros Hnd Hnone. unfold setAgentIdleIfNoActiveRuns.
  assert (existsb (fun r => String.eqb (hr_member r) m && activeStatus (hr_status r) && true) runs = false) as ->.
  { rewrite existsb_false_iff in Hnone |- *. intros r Hr. by rewrite andb_true_r, Hnone. }
  set (db1 := updateAgent m _ db).
  assert (NoDup (List.map ba_id (bd_agents db1))) as Hnd1 by (subst db1; by rewrite updateAgent_ids).
  assert (forall y1, In y1 (bd_agents db1) -> exists x, In x (bd_agents db) /\ ba_id y1 = ba_id x /\ ba_runtime y1 = ba_runtime x) as Hx.
  { intros y1 (x & Hin & ->)%updateAgent_In. exists x. split; [done|]. by destruct (String.eqb _ _). }
  destruct (agentOf db1 m) as [a|] eqn:Ea.
  - destruct (bool_decide_reflect (ba_runtime a = Active)) as [Hact|Hact]; cbn [fst]; intros Hy.
    + apply updateAgent_In in Hy as (y1 & Hy1 & ->). destruct (Hx y1 Hy1) as (x & Hin & Hid & Hrt). exists x.
      destruct (String.eqb_spec (ba_id y1) m) as [E|E]; split_and!; try done. intros H. split; congruence.
    + destruct (Hx y Hy) as (x & Hin & Hid & Hrt). exists x. split_and!; try done. intros H. split; [congruence|].
      intros E. rewrite <- E, <- Hid, (agentOf_In db1 y) in Ea by done. congruence.
  - cbn [fst]. intros Hy. destruct (Hx y Hy) as (x & Hin & Hid & Hrt). exists x. split_and!; try done. intros H.
    split; [congruence|]. intros E. rewrite <- E, <- Hid, (agentOf_In db1 y) in Ea by done. congruence.
Qed.

Lemma idle_frame runs m db : bd_now (fst (setAgentIdleIfNoActiveRuns runs m None db)) = bd_now db /\
  List.map ba_id (bd_agents (fst (setAgentIdleIfNoActiveRuns runs m None db))) = List.map ba_id (bd_agents db).
Proof.
  unfold setAgentIdleIfNoActiveRuns. destruct (existsb _ _); [done|].
  destruct (agentOf _ m) as [a|]; [destruct (bool_decide _)|]; cbn [fst]; split; rewrite ?updateAgent_ids; done.
Qed.

Section Heal.
Variable updatedAt : string -> Z.

Notation idle_all := (fold_left (fun db a =>
  set_budget (fst (setAgentIdleIfNoActiveRuns (od_runs db) (ba_id a) None (od_budget db))) db)).

Lemma idle_all_spec l : forall db, NoDup (List.map ba_id (bd_agents (od_budget db))) ->
  (forall a, In a l -> activeRunOf (fun r => String.eqb (hr_member r) (ba_id a)) db = false) ->
  let db' := idle_all l db in
  od_runs db' = od_runs db /\ od_wakes db' = od_wakes db /\ od_locks db' = od_locks db /\ od_now db' = od_now db /\
  (forall y, In y (bd_agents (od_budget db')) -> ba_runtime y = Active ->
     exists x, In x (bd_agents (od_budget db)) /\ ba_id y = ba_id x /\ ba_runtime x = Active /\ ~ In (ba_id x) (List.map ba_id l)).
Proof.
  induction l as [|a l IH]; intros db Hnd Hl; [cbn; split_and!; try done; intros y Hy Hrt; exists y; auto|].
  cbn [fold_left]. set (db1 := set_budget _ db). destruct (idle_frame (od_runs db) (ba_id a) (od_budget db)) as [Hnow Hids].
  assert (NoDup (List.map ba_id (bd_agents (od_budget db1)))) as Hnd1 by (subst db1; cbn [set_budget od_budget]; by rewrite Hids).
  destruct (IH db1 Hnd1) as (Hr & Hw & Hk & Hn & Hy); [intros a' Ha'; apply Hl; by right|].
  split_and!; [done..|by rewrite Hn|]. intros y Hin Hrt.
  destruct (Hy y Hin Hrt) as (x1 & Hin1 & Hid1 & Hrt1 & Hnot).
  destruct (idle_agents (od_runs db) (ba_id a) (od_budget db) x1 Hnd (Hl a (or_introl eq_refl)) Hin1) as (x & Hx & Hid & Hact).
  destruct (Hact Hrt1) as [Hxa Hne]. exists x. split_and!; [done|congruence|done|]. cbn. intros [E|E]; [by apply Hne|].
  apply Hnot. by rewrite Hid.
Qed.

Lemma map_fix {A} (p : A -> bool) (f : A -> A) l : (forall x, In x l -> p x = false) ->
  List.map (fun x => if p x then f x else x) l = l.
Proof. intros H. rewrite <- (List.map_id l) at 2. apply List.map_ext_in. intros x Hx. by rewrite H. Qed.

Lemma resolved_not_stuck db w : stuckWakeup db (resolveStuck db w) = false.
Proof. unfold stuckWakeup, resolveStuck. by destruct (lastRunStatus db w) as [[]|]. Qed.

Definition nothing_stuck (db : OrphanDb) : Prop :=
  (forall k, In k (od_locks db) -> staleLock db k = false) /\
  (forall a, In a (bd_agents (od_budget db)) -> stuckAgent updatedAt db a = false) /\
  (forall w, In w (od_wakes db) -> stuckWakeup db w = false).

Lemma nothing_stuck_fixed db : nothing_stuck db -> healStaleRunState updatedAt db = db.
Proof.
  intros (Hl & Ha & Hw). unfold healStaleRunState.
  assert (healLocks db = db) as -> by (unfold healLocks; rewrite map_fix by done; by destruct db).
  assert (healAgents updatedAt db = db) as ->.
  { unfold healAgents. by rewrite (proj2 (filter_nil_iff _ _)). }
  unfold healWakeups. rewrite map_fix by done. by destruct db.
Qed.

Lemma heal_unsticks db : NoDup (List.map ba_id (bd_agents (od_budget db))) -> nothing_stuck (healStaleRunState updatedAt db).
Proof.
  intros Hnd. unfold healStaleRunState, healAgents. set (db1 := healLocks db).
  set (l := List.filter (stuckAgent updatedAt db1) _).
  destruct (idle_all_spec l db1 Hnd) as (Hr & Hw & Hk & Hn & Hact).
  { intros a [_ Ha]%filter_In. apply andb_true_iff in Ha as [_ Ha]. by apply negb_true_iff. }
  set (db2 := fold_left _ l db1) in *. change (od_runs db1) with (od_runs db) in *.
  change (od_now db1) with (od_now db) in *. change (od_budget db1) with (od_budget db) in *.
  assert (forall p, activeRunOf p (healWakeups db2) = activeRunOf p db1) as Hactive
    by (intros p; unfold activeRunOf; cbn [healWakeups set_wakes od_runs]; by rewrite Hr).
  split_and!.
  - change (od_locks (healWakeups db2)) with (od_locks db2). rewrite Hk. intros k (k0 & <- & Hin)%in_map_iff.
    destruct (staleLock db k0) eqn:E; [done|]. unfold staleLock in *. rewrite Hactive.
    change (od_now (healWakeups db2)) with (od_now db2). by rewrite Hn.
  - change (od_budget (healWakeups db2)) with (od_budget db2). intros y Hy. apply not_true_iff_false. intros Hs.
    unfold stuckAgent in Hs. rewrite Hactive in Hs. change (od_now (healWakeups db2)) with (od_now db2) in Hs. rewrite Hn in Hs.
    apply andb_true_iff in Hs as [[Hrt Hage]%andb_true_iff Hno]. apply bool_decide_eq_true in Hrt.
    destruct (Hact y Hy Hrt) as (x & Hx & Hid & Hrx & Hnot). apply Hnot. apply in_map_iff. exists x. split; [done|].
    apply filter_In. split; [done|]. unfold stuckAgent. rewrite Hrx, bool_decide_true by done. rewrite <- Hid.
    change (od_now db1) with (od_now db). by rewrite Hage, Hno.
  - intros w (w0 & <- & Hin)%in_map_iff. change (stuckWakeup (healWakeups db2)) with (stuckWakeup db2).
    destruct (stuckWakeup db2 w0) eqn:E; [|done]. apply resolved_not_stuck.
Qed.
End Heal.

(** One healing pass is enough: after it no lock is held past the grace without a run, no
    agent stands active without one, no wakeup stays claimed past the grace without one, and
    running the pass again changes nothing. *)
Theorem heal_leaves_nothing_stuck updatedAt db : NoDup (List.map ba_id (bd_agents (od_budget db))) ->
  nothing_stuck updatedAt (healStaleRunState updatedAt db) /\
  healStaleRunState updatedAt (healStaleRunState updatedAt db) = healStaleRunState updatedAt db.
Proof. intros Hnd. pose proof (heal_unsticks updatedAt db Hnd). split; [done|by apply nothing_stuck_fixed]. Qed.

(** ** The retry ceiling *)

(** The run whose loss count a run dispatched from this payload inherits. *)
Definition inheritsFrom (p : Payload) : option string :=
  match extractReplacedRun (Some p) with Some (mkReplaced id true) => Some id | _ => None end.

Lemma inheritsFrom_failure p id rest : p !! "previous_failure" = Some (JObj (("run_id", JStr id) :: rest)) ->
  inheritsFrom p = Some id.
Proof. intros H. unfold inheritsFrom, extractReplacedRun. cbn [mbind option_bind RUN_LINEAGE_SOURCES firstLineage]. by rewrite H. Qed.

(** Every lineage of [t'] is one of [t], or names [id] where [ok] holds. *)
Definition lineages (t t' : Table) (id : string) (ok : Prop) : Prop :=
  forall w', In w' t' -> (exists w, In w t /\ inheritsFrom (w_payload w') = inheritsFrom (w_payload w)) \/
                         (inheritsFrom (w_payload w') = Some id /\ ok).

Lemma lineages_refl t id ok : lineages t t id ok.
Proof. intros w Hw. left. eauto. Qed.

Lemma lineages_weaken t t' id (P Q : Prop) : (P -> Q) -> lineages t t' id P -> lineages t t' id Q.
Proof. intros HPQ H w Hw. destruct (H w Hw) as [?|[? ?]]; [by left|right; auto]. Qed.

Lemma lineages_trans t t1 t2 id ok : lineages t t1 id ok -> lineages t1 t2 id ok -> lineages t t2 id ok.
Proof.
  intros H1 H2 w Hw. destruct (H2 w Hw) as [(w1 & Hw1 & E)|H]; [|by right].
  destruct (H1 w1 Hw1) as [(w0 & Hw0 & E0)|[E0 Hok]]; [left; exists w0; split; [done|congruence]|right; split; [congruence|done]].
Qed.

Lemma lineages_update t p f id ok : (forall w, w_payload (f w) = w_payload w) -> lineages t (update p f t) id ok.
Proof. intros Hf w' (w & <- & Hw)%in_map_iff. left. exists w. split; [done|]. by destruct (p w); rewrite ?Hf. Qed.

Section Ceiling.
Variable render : Json -> string.
Variable fresh : Table -> string.

Lemma create_lineages db m team source payload run id rest :
  payload !! "previous_failure" = Some (Some (JObj (("run_id", JStr id) :: rest))) ->
  lineages (od_wakes db) (od_wakes (create render fresh m team source payload run db)) id True.
Proof.
  intros Hp w'. cbn [create set_wakes od_wakes]. unfold createWakeup. cbn [truthy quiet after_lookup after_select after_merge].
  assert (forall now k, In w' (fst (insertWakeup now k m team source payload None run (od_wakes db))) ->
    (exists w, In w (od_wakes db) /\ inheritsFrom (w_payload w') = inheritsFrom (w_payload w)) \/
    (inheritsFrom (w_payload w') = Some id /\ True)) as Hins.
  { intros now k [Hw|[<-|[]]]%in_app_iff; [left; eauto|]. right. split; [|done]. apply (inheritsFrom_failure _ id rest).
    cbn [w_payload]. unfold stringify. by rewrite lookup_omap, Hp. }
  destruct (js_sort _ _) as [|e es]; [apply Hins|]. destruct (existsb _ _); [|apply Hins]. cbn [fst].
  intros (w & <- & Hw)%in_map_iff. destruct (hasId _ w && _); [|left; eauto]. right. split; [|done].
  apply (inheritsFrom_failure _ id rest). cbn [absorb w_payload]. unfold mergedPayload, mergePayloads.
  assert (merge mergeValue (w_payload e) payload !! "previous_failure" = Some (JObj (("run_id", JStr id) :: rest))) as Hm.
  { rewrite lookup_merge, Hp. by destruct (w_payload e !! "previous_failure") as [[]|]. }
  destruct (truthy run); [by rewrite lookup_delete_ne|done].
Qed.

Lemma attribution_failure (o : option Wakeup) (q : JsPayload) :
  (match o with Some w => attribution (w_payload w) | None => ∅ end ∪ q) !! "previous_failure" = q !! "previous_failure".
Proof.
  rewrite lookup_union.
  assert (match o with Some w => attribution (w_payload w) | None => ∅ end !! "previous_failure" = None) as ->;
    [|by destruct (q !! _)].
  destruct o as [w|]; [|done]. unfold attribution, attributed. apply lookup_union_None.
  split; [destruct (w_payload w !! "triggered_by") as [[]|]|destruct (w_payload w !! "decided_by") as [[]|]]; done.
Qed.

Lemma file_wakes db run m team task tail message :
  od_wakes (fileLostRunApproval render run m team task tail message db) = od_wakes db.
Proof. unfold fileLostRunApproval. by destruct (existsb _ _). Qed.

Definition spentBy (run : HeartbeatRun) : Z := match armOf run with NeverStarted => 0 | Orphaned => 1 end.

(** Settling the work of [run], whose claimed row is [r]: the row spends at most one strike, and
    a wakeup that names the run is minted only below the ceiling. *)
Definition lineage_kept (run r : HeartbeatRun) (db db' : OrphanDb) : Prop :=
  exists r', rowOf (hr_id run) db' = Some r' /\ hr_status r' = hr_status r /\
    hr_retries r <= hr_retries r' <= hr_retries run + 1 /\
    lineages (od_wakes db) (od_wakes db') (hr_id run) (hr_retries r' < MAX_RETRIES).

Lemma replace_lineage run original db r : rowOf (hr_id run) db = Some r -> hr_retries r = hr_retries run ->
  lineage_kept run r db (fst (replaceNeverStarted render fresh run original db)).
Proof.
  intros Hr Hret. unfold replaceNeverStarted.
  assert (forall run' m team task tail message,
    lineage_kept run r db (fileLostRunApproval render run' m team task tail message db)) as Hfile.
  { intros. exists r. unfold rowOf. rewrite file_runs, file_wakes. split_and!; try done; [lia..|apply lineages_refl]. }
  destruct (truthy (hr_task run)) as [task|]; [|apply Hfile].
  destruct (MAX_RETRIES <=? hr_retries run + 1) eqn:E; [apply Hfile|]. apply Z.leb_gt in E. cbn [fst].
  exists (addRetry 1 r). split_and!; try (cbn; lia); try done.
  - change (rowOf (hr_id run) (updateRuns (runHasId (hr_id run)) (addRetry 1) db) = Some (addRetry 1 r)).
    rewrite rowOf_update, Hr by done. cbn. by apply find_some in Hr as [_ ->].
  - eapply lineages_weaken; [|eapply (create_lineages (updateRuns (runHasId (hr_id run)) (addRetry 1) db))].
    + intros _. cbn. lia.
    + unfold neverStartedPayload. rewrite attribution_failure. by rewrite !lookup_insert_ne.
Qed.

Lemma settle_lineage run tail db r : rowOf (hr_id run) db = Some r -> hr_retries r = hr_retries run + spentBy run ->
  lineage_kept run r db (fst (settleLostWork render fresh run tail db)).
Proof.
  intros Hr Hret. unfold settleLostWork. unfold spentBy in Hret. destruct (armOf run).
  - rewrite Z.add_0_r in Hret. unfold handBackNeverStartedWork.
    destruct (truthy (hr_wakeup run)) as [id|]; [|by apply replace_lineage].
    destruct (settleWakeupForRun _ _ _ _) as [wakes s] eqn:Es.
    assert (lineages (od_wakes db) wakes (hr_id run) False) as Hl.
    { unfold settleWakeupForRun in Es. destruct (truthy (Some id)); [|simplify_eq; apply lineages_refl].
      injection Es as <- _. by apply lineages_update. }
    assert (rowOf (hr_id run) (set_wakes wakes db) = Some r) as Hr' by done.
    destruct (replace_lineage run (List.find (hasId id) (od_wakes db)) _ r Hr' Hret) as (r' & H1 & H2 & H3 & H4).
    assert (lineage_kept run r db (fst (replaceNeverStarted render fresh run (List.find (hasId id) (od_wakes db)) (set_wakes wakes db)))) as Hrep.
    { exists r'. split_and!; try done; try lia. eapply lineages_trans; [|exact H4]. by eapply lineages_weaken; [|exact Hl]. }
    destruct s; [|exact Hrep..]. exists r. split_and!; try done; try lia. by eapply lineages_weaken; [|exact Hl].
  - unfold retryOrEscalateLostRun. destruct (hr_retries run + 1 <? MAX_RETRIES) eqn:E; cbn [fst].
    + apply Z.ltb_lt in E. exists r. split_and!; try done; try lia. eapply lineages_weaken; [|eapply create_lineages].
      * intros _. lia.
      * unfold retryPayload. rewrite <- (assoc_L (∪)), attribution_failure, lookup_union_r.
        -- by rewrite !lookup_insert_ne.
        -- by destruct (truthy (hr_task run)).
    + exists r. unfold rowOf. rewrite file_runs, file_wakes. split_and!; try done; try lia. apply lineages_refl.
Qed.

(** Every loss count is at most the ceiling, below it while the run is active, and every wakeup
    that would hand a count on names a finished run below it. *)
Definition below_ceiling (db : OrphanDb) : Prop :=
  (forall id r, rowOf id db = Some r -> hr_retries r <= MAX_RETRIES /\
     (activeStatus (hr_status r) = true -> hr_retries r < MAX_RETRIES)) /\
  (forall w id, In w (od_wakes db) -> inheritsFrom (w_payload w) = Some id ->
     exists r, rowOf id db = Some r /\ activeStatus (hr_status r) = false /\ hr_retries r < MAX_RETRIES).

(** Dispatches create runs from wakeups, runs start and end, the pass reaps stranded runs, time
    passes and agents change, and other writers change the queue without naming a lost run of
    their own. *)
Inductive lineage_step : OrphanDb -> OrphanDb -> Prop :=
| step_dispatch db id m team task w kind : In w (od_wakes db) -> rowOf id db = None ->
    lineage_step db (createHeartbeatRun id m team task (w_id w) kind (extractReplacedRun (Some (w_payload w))) db)
| step_reap db live tail run : rowOf (hr_id run) db = Some run -> stranded (od_now db) run = true ->
    lineage_step db (fst (reapRun render fresh live tail no_gap run db))
| step_write db p f : (forall r, hr_id (f r) = hr_id r /\ hr_retries (f r) = hr_retries r /\
      (activeStatus (hr_status (f r)) = true -> activeStatus (hr_status r) = true)) ->
    lineage_step db (updateRuns p f db)
| step_agents db b : lineage_step db (set_budget b db)
| step_queue db t : (forall w', In w' t -> inheritsFrom (w_payload w') = None \/
      exists w, In w (od_wakes db) /\ inheritsFrom (w_payload w') = inheritsFrom (w_payload w)) ->
    lineage_step db (set_wakes t db).

Lemma find_app_one {A} (p : A -> bool) l x : List.find p (l ++ [x]) =
  match List.find p l with Some y => Some y | None => if p x then Some x else None end.
Proof. induction l as [|y l IH]; [done|]. cbn. by destruct (p y). Qed.

Lemma dispatch_below db id m team task w kind : In w (od_wakes db) -> rowOf id db = None -> below_ceiling db ->
  below_ceiling (createHeartbeatRun id m team task (w_id w) kind (extractReplacedRun (Some (w_payload w))) db).
Proof.
  intros Hw Hnew [Hrows Hnames]. unfold createHeartbeatRun. set (count := match extractReplacedRun _ with Some _ => _ | None => 0 end).
  assert (count < MAX_RETRIES) as Hcount.
  { subst count. destruct (extractReplacedRun (Some (w_payload w))) as [[prior []]|] eqn:E; try done.
    destruct (Hnames w prior Hw) as (r & Hr & _ & Hlt); [by unfold inheritsFrom; rewrite E|].
    unfold rowOf in Hr. rewrite Hr. exact Hlt. }
  split.
  - intros i r. unfold rowOf. cbn [set_runs od_runs]. rewrite find_app_one.
    destruct (List.find (runHasId i) (od_runs db)) as [y|] eqn:E; [intros [= <-]; by apply (Hrows i)|].
    destruct (runHasId i _); [|done]. intros [= <-]. cbn [hr_retries]. split; [lia|done].
  - intros w' i Hw' Hi. destruct (Hnames w' i Hw' Hi) as (r & Hr & Ha & Hlt). exists r. split; [|done].
    unfold rowOf in *. cbn [set_runs od_runs]. by rewrite find_app_one, Hr.
Qed.

Lemma reap_below db live tail run : rowOf (hr_id run) db = Some run -> stranded (od_now db) run = true ->
  below_ceiling db -> below_ceiling (fst (reapRun render fresh live tail no_gap run db)).
Proof.
  intros Hrun Hst Hb. pose proof (stranded_active _ _ Hst) as Ha. unfold reapRun.
  destruct (bool_decide _); [done|]. cbn [no_gap before_claim before_record]. fold (claimRow run db).
  rewrite (rowOf_active _ _ _ (fun r => activeStatus (hr_status r)) Hrun Ha). destruct Hb as [Hrows Hnames].
  destruct (Hrows _ _ Hrun) as [_ Hlt]. specialize (Hlt Ha).
  set (db2 := set_budget _ (set_locks _ (claimRow run db))).
  assert (rowOf (hr_id run) db2 = Some (reaped (od_now db) (armOf run) run)) as Hr2.
  { change (rowOf (hr_id run) db2) with (rowOf (hr_id run) (claimRow run db)). unfold claimRow.
    rewrite rowOf_update, Hrun by done. cbn. unfold runHasId. by rewrite String.eqb_refl, Ha. }
  assert (forall id, id <> hr_id run -> rowOf id db2 = rowOf id db) as Ho2.
  { intros id Hne. change (rowOf id db2) with (rowOf id (claimRow run db)). unfold claimRow. apply update_other_row; [done|].
    intros r [Hr%String.eqb_eq _]%andb_true_iff. congruence. }
  destruct (settle_lineage run (tail (hr_id run)) db2 _ Hr2 ltac:(unfold spentBy; by destruct (armOf run)))
    as (r' & Hr' & Hs' & Hret & Hlin).
  pose proof (settle_other render fresh run (tail (hr_id run)) db2) as Hso.
  destruct (settleLostWork _ _ _ _ _) as [db3 o]. cbn [fst] in *.
  set (final := fst (recordHandbackOutcome _ _ _ _ _ db3)).
  assert (activeStatus (hr_status r') = false) as Hdead by (rewrite Hs'; cbn; by destruct (armOf run)).
  assert (exists r'', rowOf (hr_id run) final = Some r'' /\ activeStatus (hr_status r'') = false /\ hr_retries r'' = hr_retries r')
    as (r'' & Hr'' & Hdead'' & Hret'').
  { subst final. unfold recordHandbackOutcome. set (p := fun r => runHasId _ r && _ && _).
    set (f := setOutcome _ o).
    assert (rowOf (hr_id run) (updateRuns p f db3) = Some (if p r' then f r' else r')) as Hu by (by rewrite rowOf_update, Hr').
    destruct (existsb p _); [|by exists r']. exists (if p r' then f r' else r').
    destruct o, (truthy (hr_task run)); (split; [exact Hu|]); by destruct (p r'). }
  assert (forall id, id <> hr_id run -> rowOf id final = rowOf id db) as Hof.
  { intros id Hne. subst final. rewrite record_other, Hso by done. by apply Ho2. }
  assert (od_wakes final = od_wakes db3) as Hwf.
  { subst final. unfold recordHandbackOutcome. destruct (existsb _ _); [|done]. by destruct o, (truthy (hr_task run)). }
  split.
  - intros id r. destruct (decide (id = hr_id run)) as [->|Hne]; [|rewrite Hof by done; apply Hrows].
    rewrite Hr''. intros [= <-]. rewrite Hdead'', Hret''. split; [lia|done].
  - intros w id Hw Hi. rewrite Hwf in Hw. destruct (Hlin w Hw) as [(w0 & Hw0 & E)|[E Hok]].
    + destruct (Hnames w0 id Hw0 ltac:(congruence)) as (r & Hr & Hdr & Hltr). exists r. split; [|done].
      destruct (decide (id = hr_id run)) as [->|Hne]; [congruence|by rewrite Hof].
    + rewrite E in Hi. injection Hi as <-. exists r''. split_and!; [done..|by rewrite Hret''].
Qed.

Lemma lineage_step_below db db' : lineage_step db db' -> below_ceiling db -> below_ceiling db'.
Proof.
  intros [db0 id m team task w kind Hw Hnew|db0 live tail run Hr Hst|db0 p f Hf|db0 b|db0 t Ht] Hb.
  - by apply dispatch_below.
  - by apply reap_below.
  - destruct Hb as [Hrows Hnames]. split.
    + intros id r. rewrite rowOf_update by (intros r0; apply Hf). destruct (rowOf id db0) as [r0|] eqn:E; [|done].
      intros [= <-]. destruct (Hrows id r0 E) as [H1 H2], (Hf r0) as (_ & Hr & Ha). destruct (p r0); [|done].
      rewrite Hr. auto.
    + intros w id Hw Hi. destruct (Hnames w id Hw Hi) as (r & Hr & Hd & Hlt). rewrite rowOf_update by (intros r0; apply Hf).
      rewrite Hr. cbn. eexists. split; [done|]. destruct (Hf r) as (_ & Hre & Ha). destruct (p r); [|done].
      rewrite Hre. split; [|done]. apply not_true_iff_false. intros H. apply Ha in H. congruence.
  - exact Hb.
  - destruct Hb as [Hrows Hnames]. split; [exact Hrows|]. intros w' id Hw' Hi.
    destruct (Ht w' Hw') as [E|(w & Hw & E)]; [congruence|]. apply (Hnames w id Hw). congruence.
Qed.
End Ceiling.

(** Retries of lost work end: over every history of dispatches, runs, reaps and queue
    writes, a run's loss count never passes three and a run that is still queued or running
    has not spent it; and no wakeup hands on the count of a run that has spent it or that may
    still be running. *)
Theorem retry_ceiling_holds render fresh db db' : below_ceiling db -> rtc (lineage_step render fresh) db db' ->
  (forall r id, rowOf id db' = Some r -> hr_retries r <= 3 /\ (activeStatus (hr_status r) = true -> hr_retries r < 3)) /\
  (forall w id, In w (od_wakes db') -> inheritsFrom (w_payload w) = Some id ->
     exists r, rowOf id db' = Some r /\ activeStatus (hr_status r) = false /\ hr_retries r < 3).
Proof.
  intros Hb Hr. assert (below_ceiling db') as [H1 H2].
  { induction Hr as [|x y z Hxy _ IH]; [done|]. apply IH. by eapply lineage_step_below. }
  split; [intros r id; apply H1|exact H2].
Qed.

(** ** Concrete passes *)

(** An identifier no row has: longer than all of them together. *)
Definition freshId (t : Table) : string := fold_right (fun w s => w_id w +:+ s) "x" t.

Lemma string_length_app s1 s2 : String.length (s1 +:+ s2) = (String.length s1 + String.length s2)%nat.
Proof. induction s1 as [|c s1 IH]; [done|]. simpl. f_equal. exact IH. Qed.

Lemma freshId_longer w t : In w t -> (String.length (w_id w) < String.length (freshId t))%nat.
Proof.
  assert (forall t, (0 < String.length (freshId t))%nat) as Hpos.
  { intros l. induction l as [|v l IH]; [cbn; lia|]. change (freshId (v :: l)) with (w_id v +:+ freshId l).
    rewrite string_length_app. lia. }
  induction t as [|v t IH]; [done|]. change (freshId (v :: t)) with (w_id v +:+ freshId t). rewrite string_length_app.
  intros [->|Hin]; [specialize (Hpos t); lia|]. specialize (IH Hin). lia.
Qed.

Lemma freshId_new t : ~ In (freshId t) (List.map w_id t).
Proof. intros (w & E & Hin)%in_map_iff. apply freshId_longer in Hin. rewrite E in Hin. lia. Qed.

Definition demo_min (n : Z) : Z := n * 60 * US_PER_SEC.
Definition demo_agents (now : Z) : BudgetDb :=
  mkBudgetDb [] [mkBudgetAgent "dev" "dev" (demo_limits 0 0 0) Active None ∅] [] [] None None None now now.
Definition demo_orun (id : string) (status : HeartbeatRunStatus) (wake : string) (count : Z) : HeartbeatRun :=
  mkHeartbeatRun id "dev" "team" (Some "T") (Some wake) KindTask status 0 (if bool_decide (status = RunQueued) then None else Some 0)
    None false None None 0 0 count None None None.
Definition demo_claim (id : string) (status : WakeupStatus) (p : Payload) : Wakeup :=
  mkWakeup id "dev" "team" Mention p status None None 0 0 (Some 0) None None None None None.
(** One run never started, its wakeup still claimed; one lost mid-flight, its wakeup gone. *)
Definition demo_lost : OrphanDb :=
  mkOrphanDb [demo_orun "r1" RunQueued "w1" 0; demo_orun "r2" RunRunning "w2" 0]
    [demo_claim "w1" Claimed {["task_id" := JStr "T"]}; demo_claim "w2" Completed ∅]
    [mkLock "k1" "T" "dev" 0 None] (demo_agents (demo_min 5)) [] [].

Lemma reaped_work_is_carried_witness :
  let '(db', n) := detectOrphans (fun _ => "") freshId [] (fun _ => "") no_gap demo_lost in
  n = 2 /\ accounted (fun _ => "") db' (demo_orun "r2" RunRunning "w2" 0).
Proof.
  assert (strandedRuns demo_lost = [demo_orun "r1" RunQueued "w1" 0; demo_orun "r2" RunRunning "w2" 0]) as Hs by reflexivity.
  pose proof (reaped_work_is_carried (fun _ => "") freshId freshId_new [] (fun _ => "") demo_lost) as H.
  rewrite Hs in H. destruct (detectOrphans _ _ _ _ _ _) as [db' n].
  destruct H as (Hn & Hacc & _); [repeat constructor; set_solver|repeat constructor; set_solver| |].
  - intros r [<-|[<-|[]]] _; by split.
  - split; [exact Hn|]. apply Hacc; [right; left; reflexivity|set_solver].
Defined.

(** A run lost mid-flight and replaced ends failed, and is stamped handed back all the same. *)
Lemma lost_run_is_stamped_handed_back :
  (fun r => (hr_status r, hr_cancel r)) <$> rowOf "r2" (fst (detectOrphans (fun _ => "") freshId [] (fun _ => "") no_gap demo_lost))
  = Some (RunFailed, Some HandedBack).
Proof. reflexivity. Qed.

Definition demo_old (_ : string) : Z := 0.
Lemma heal_leaves_nothing_stuck_witness :
  let db := set_runs [demo_orun "r2" RunFailed "w2" 1] demo_lost in
  nothing_stuck demo_old (healStaleRunState demo_old db) /\
  healStaleRunState demo_old (healStaleRunState demo_old db) = healStaleRunState demo_old db /\
  List.map w_status (od_wakes (healStaleRunState demo_old db)) = [Queued; Completed].
Proof.
  intros db. destruct (heal_leaves_nothing_stuck demo_old db) as [H1 H2]; [repeat constructor; set_solver|].
  split_and!; [exact H1|exact H2|reflexivity].
Defined.

(** A wakeup handed back by one run and claimed again for another that never came to be: the
    heal reads the first run's row and fails the wakeup instead of queueing it. *)
Lemma heal_fails_a_reclaimed_wakeup :
  List.map w_status (od_wakes (healStaleRunState demo_old
    (set_runs [setOutcome None WasRequeued (reaped 0 NeverStarted (demo_orun "r1" RunQueued "w1" 0))] demo_lost)))
  = [Failed; Completed].
Proof. reflexivity. Qed.

Lemma retry_ceiling_holds_witness :
  let db1 := fst (reapRun (fun _ => "") freshId [] (fun _ => "") no_gap (demo_orun "r2" RunRunning "w2" 0) demo_lost) in
  hr_retries <$> rowOf "r2" db1 = Some 1 /\
  (forall r id, rowOf id db1 = Some r -> hr_retries r <= 3 /\ (activeStatus (hr_status r) = true -> hr_retries r < 3)).
Proof.
  intros db1. split; [reflexivity|]. refine (proj1 (retry_ceiling_holds (fun _ => "") freshId demo_lost db1 _ _)).
  - split.
    + intros id r (Hin & _)%find_some. destruct Hin as [<-|[<-|[]]]; cbn; unfold MAX_RETRIES; split; lia.
    + intros w id [<-|[<-|[]]] Hi; vm_compute in Hi; discriminate.
  - apply rtc_once. apply step_reap; reflexivity.
Defined.
