(* ===== verification/Dispatcher.v ===== *)
(** * The dispatcher

    A model of the part of [packages/server/src/services/job-manager.ts] that turns queued
    wakeups into runs: the gates, [dispatchSuppression], [activateAgent], [processWakeups],
    [dispatchWakeupNow], and [postAdminNotice] and [resumeHeldTaskOnAdminReply] of
    [comment-wakeups.ts]. It composes the holds, the budget gate, container admission, task
    dependencies, wakeups and the in-memory guards. Each function's statements run alone.

    The progress update of the Captain and the retrospective of the Coach, which a wakeup that
    names no task tries first, are an argument, and so is the Coach's sweep for unreviewed
    tasks. Broadcasts, log lines and the [last_skipped_blocker_task_id] column are left out. *)
From Stdlib Require Import ZArith Lia Ascii String List Bool Permutation Sorted.
From stdpp Require Import base list strings gmap option.
From S2P Require Import Prelude Sql JsString Calendar Budget UptimeLedger ContainerHours Admission Wakeups.
From S2P Require Import Dependencies RunRows Holds TokenBudget DispatchGuards Orphans.

Open Scope string_scope.
Open Scope list_scope.
Open Scope Z_scope.

Inductive TaskPriority := Urgent | High | Medium | Low.
Definition priorityRank (p : TaskPriority) : Z := match p with Urgent => 0 | High => 1 | Medium => 2 | Low => 3 end.

Record TaskRow := mkTaskRow {
  tk_id : string; tk_project : string; tk_team : string; tk_assignee : option string; tk_status : TaskStatus;
  tk_priority : TaskPriority; tk_created : Z
}.
Record AgentRow := mkAgentRow {
  ar_id : string; ar_slug : string; ar_enabled : bool; ar_touches_code : bool
}.
(** A project's row: the columns admission reads, and the dispatcher's own. *)
Record ProjectState := mkProjectState {
  ps_row : ProjectRow; ps_archived : bool; ps_repo : option string; ps_creating : bool
}.

Record DispatchDb := mkDispatch {
  dd_task : TaskDb; dd_locks : list ExecutionLock; dd_budget : BudgetDb; dd_agents : list AgentRow;
  dd_projects : list ProjectState; dd_tasks : list TaskRow; dd_deps : Deps; dd_instance : Instance_; dd_jobs : JobManager
}.

Definition dd_now (db : DispatchDb) : Z := bd_now (dd_budget db).
Definition dd_wakes (db : DispatchDb) : Table := db_wakes (dd_task db).
Definition put_task (d : TaskDb) (db : DispatchDb) : DispatchDb :=
  mkDispatch d (dd_locks db) (dd_budget db) (dd_agents db) (dd_projects db) (dd_tasks db) (dd_deps db) (dd_instance db)
    (dd_jobs db).
Definition put_locks (l : list ExecutionLock) (db : DispatchDb) : DispatchDb :=
  mkDispatch (dd_task db) l (dd_budget db) (dd_agents db) (dd_projects db) (dd_tasks db) (dd_deps db) (dd_instance db)
    (dd_jobs db).
Definition put_budget (b : BudgetDb) (db : DispatchDb) : DispatchDb :=
  mkDispatch (dd_task db) (dd_locks db) b (dd_agents db) (dd_projects db) (dd_tasks db) (dd_deps db) (dd_instance db)
    (dd_jobs db).
Definition put_jobs (j : JobManager) (db : DispatchDb) : DispatchDb :=
  mkDispatch (dd_task db) (dd_locks db) (dd_budget db) (dd_agents db) (dd_projects db) (dd_tasks db) (dd_deps db)
    (dd_instance db) j.
Definition put_wakes (t : Table) (db : DispatchDb) : DispatchDb := put_task (with_wakeups t (dd_task db)) db.
Definition updateWakeup (id : string) (f : Wakeup -> Wakeup) (db : DispatchDb) : DispatchDb :=
  put_wakes (update (hasId id) f (dd_wakes db)) db.

(** ** What the other components read *)

Definition runRow (r : HeartbeatRun) : Admission.RunRow :=
  mkRunRow (hr_member r) (hr_task r) (hr_team r) (activeStatus (hr_status r)).

(** The tables admission reads, with the projects, tasks and runs of this state. *)
Definition gateView (db : DispatchDb) : Instance_ :=
  let I := dd_instance db in
  mkInstance (List.map ps_row (dd_projects db)) (members I) (List.map runRow (db_runs (dd_task db)))
    (List.map (fun t => (tk_id t, tk_project t)) (dd_tasks db)) (configuredBudget I) (defaultCap I) (capPinned I) (ledger I)
    (monthlyContainerHours I) (anchorDay I) (countedSince I).

Definition dependencyView (db : DispatchDb) : World :=
  mkWorld (List.map (fun t => mkTask (tk_id t) (tk_status t) (tk_assignee t) (tk_team t) "" "") (dd_tasks db)) (dd_deps db)
    (dd_wakes db) [] [] [] 0.

Definition servedView (db : DispatchDb) : list Wakeups.RunRow :=
  omap (fun r => (fun t => mkRun (hr_member r) t (match hr_status r with RunSucceeded => "succeeded" | _ => "" end) (hr_started r))
                 <$> hr_task r) (db_runs (dd_task db)).

(** ** Gates *)

Definition payloadTaskId (p : Payload) : option string :=
  match p !! "task_id" with Some (JStr s) => truthy (Some s) | _ => None end.

Definition isTaskBusy (taskId : option string) (db : DispatchDb) : bool :=
  match truthy taskId with
  | None => false
  | Some t => bool_decide (t ∈ activeTaskRuns (dd_jobs db)) || isTaskBusyInDb (gateView db) t
  end.

Record CapacityVerdict := mkCapacity { cv_blocked : bool; cv_spare : bool; cv_hours : bool }.

(** [None] when a query fails. *)
Definition isContainerCapacityBlocked (projectId : option string) (db : DispatchDb) : option CapacityVerdict :=
  let I := gateView db in
  active ← getActiveContainers I (bd_now (dd_budget db)) (bd_jsNow (dd_budget db));
  let spare := match projectId with Some p => bool_decide (p ∈ projectsWithSpareContainer active) | None => false end in
  if spare then Some (mkCapacity false true false)
  else if hoursExhausted active then Some (mkCapacity true false true)
  else if match truthy projectId with
          | Some p => bool_decide (is_Some (pendingContainerStarts (dd_jobs db) !! p)) | None => false end
  then Some (mkCapacity false false false)
  else
    let pendingIds := List.filter (fun id => negb (bool_decide (id ∈ projectsWithSpareContainer active)))
                        ((map_to_list (pendingContainerStarts (dd_jobs db))).*1) in
    let pendingGb := sumProjectContainerMemoryGb I pendingIds in
    let requestGb := match truthy projectId with Some p => projectContainerMemoryGb I p | None => defaultCap I end in
    let headroomGb := budgetGb active + reclaimableForOthers active projectId in
    Some (mkCapacity (headroomGb <? usedMemoryGb active + pendingGb + requestGb) false false).

Definition isAgentBusyInProject (memberId projectId : string) (db : DispatchDb) : bool :=
  hasRunningTaskWithPrefix (memberId +:+ ":" +:+ projectId) (dd_jobs db)
  || existsb (fun r => String.eqb (run_member r) memberId && runInProjectSql (gateView db) projectId r && run_active r)
       (runs (gateView db)).

Definition CREDENTIAL_HOLD_REASONS : list string := ["provider_usage_limit"; "provider_allowance_pace"].

Definition stampSkipped (now : Z) (reason : string) (w : Wakeup) : Wakeup :=
  mkWakeup (w_id w) (w_member w) (w_team w) (w_source w) (w_payload w) (w_status w) (w_key w) (w_run w) (w_created w)
    (w_count w) (w_claimed w) (Some now)
    (if match w_reason w, w_not_before w with
        | Some r, Some n => bool_decide (r ∈ CREDENTIAL_HOLD_REASONS) && (now <? n) | _, _ => false end
     then w_reason w else Some reason)
    (w_not_before w) (w_held w) (w_completed w).

Definition markWakeupSkipped (wakeupId reason : string) (db : DispatchDb) : DispatchDb :=
  updateWakeup wakeupId (stampSkipped (dd_now db) reason) db.

Definition requeueWakeup (wakeupId : string) (db : DispatchDb) : DispatchDb :=
  match truthy (Some wakeupId) with None => db | Some id => updateWakeup id unclaim db end.

Definition resolveProjectForTask (taskId : string) (db : DispatchDb) : option string :=
  t ← List.find (fun t => String.eqb (tk_id t) taskId) (dd_tasks db);
  p ← List.find (fun p => String.eqb (pr_id (ps_row p)) (tk_project t)) (dd_projects db);
  Some (pr_id (ps_row p)).

Definition DEFERRAL_RELEASE_LIMIT : nat := 20.

Section Dispatcher.
Variable render : Json -> string.
(** [heartbeatIntervalFloorMin()] and [jobs.wakeupCoalescingMs], in microseconds. *)
Variables floorMin coalescing : Z.
(** Identifiers the database gives to new rows. *)
Variable freshComment : list TaskComment -> string.
Variable freshLock : list ExecutionLock -> string.

(** The task-less dispatches an agent without a named task tries first. *)
Inductive TaskLessResult := Dispatched | NotDispatched (reason : string).
Variable taskLess : AgentRow -> string -> DispatchDb -> DispatchDb * TaskLessResult.
(** The Coach's sweep for finished tasks it never reviewed. *)
Variable missedReview : string -> DispatchDb -> option TaskRow.

Definition byCreatedAt (a b : Wakeup) : Z := w_created a - w_created b.

Definition release (now : Z) (w : Wakeup) : Wakeup :=
  mkWakeup (w_id w) (w_member w) (w_team w) (w_source w) (w_payload w) Queued (w_key w) (w_run w) now (w_count w) None
    (w_skipped w) (w_reason w) (w_not_before w) (w_held w) (w_completed w).

Definition designated (taskId : option string) (db : DispatchDb) : bool :=
  existsb (fun t => equals taskId (tk_id t)
                    && existsb (fun p => String.eqb (pr_id (ps_row p)) (tk_project t) && notNull (ps_repo p)) (dd_projects db))
    (dd_tasks db).

Definition releaseSatisfiedDeferrals (db : DispatchDb) : DispatchDb :=
  let parked := take DEFERRAL_RELEASE_LIMIT (js_sort byCreatedAt (List.filter (fun w =>
      bool_decide (w_status w = Deferred) && bool_decide (text render (w_payload w) "reason" = Some "awaiting_repo_setup"))
      (dd_wakes db))) in
  put_wakes (update (fun w => existsb (hasId (w_id w)) parked && designated (text render (w_payload w) "task_id") db)
               (release (dd_now db)) (dd_wakes db)) db.

(** ** Suppression *)

Definition HANDOFF_LIMIT_COMMENT_KIND : string := "handoff_limit".
Definition TASK_TOKEN_CEILING_COMMENT_KIND : string := "task_token_ceiling".
Definition RUN_SIZE_STOP_COMMENT_KIND : string := "run_size_stop".
Definition ADMIN_HOLD_NOTICE_KINDS : list string :=
  [HANDOFF_LIMIT_COMMENT_KIND; TASK_TOKEN_CEILING_COMMENT_KIND; RUN_SIZE_STOP_COMMENT_KIND].

(** Why a task is held, and the kind of the notice it is held with and since when one stands. *)
Record Suppression := mkSuppression { su_reason : string; su_notice : option (string * option Z) }.

Definition dispatchSuppression (memberId task : string) (exemption : SuppressionExemption) (db : DispatchDb)
    : option Suppression :=
  let d := dd_task db in
  let exempt := byPerson exemption in
  if noWorkCooldownActive d (dd_now db) floorMin memberId (Some task) exempt then Some (mkSuppression "no_work_cooldown" None)
  else if parkedOnAdminAsk d memberId (Some task) exempt then Some (mkSuppression "parked_on_admin" None)
  else if attemptsExhaustedOnTask d (dd_now db) memberId (Some task) exempt then Some (mkSuppression "attempts_exhausted" None)
  else if retrospectiveHoldActive d (Some task) exempt then Some (mkSuppression "retrospective_hold" None)
  else if byAdmin exemption then None
  else
    let spend := loadTaskSpend render d task in
    match handoffHold spend with
    | Some h => Some (mkSuppression "handoff_rounds_exhausted" (Some (HANDOFF_LIMIT_COMMENT_KIND, Some (ho_noticeSince h))))
    | None =>
        match tokenCeilingHold spend with
        | Some u => Some (mkSuppression "task_token_ceiling" (Some (TASK_TOKEN_CEILING_COMMENT_KIND, tu_noticeSince u)))
        | None =>
            match runSizeStopHold spend with
            | Some s => Some (mkSuppression "run_size_stop" (Some (RUN_SIZE_STOP_COMMENT_KIND, rs_noticeSince s)))
            | None => None
            end
        end
    end.

(** Every admin of the team, and every superuser, but the author. *)
Definition adminsOf (d : TaskDb) (teamId : string) (author : option string) : list string :=
  List.filter (fun u => isAdminUserSql d (Some u) (Some teamId) && negb (equals author u))
    (remove_dups (List.map mu_user (List.filter (fun m => String.eqb (mu_team m) teamId) (db_users d)) ++ db_superusers d)).

Definition insertAdminMentions (teamId commentId : string) (author : option string) (d : TaskDb) : TaskDb :=
  with_mentions (db_mentions d ++ List.filter (fun m => negb (bool_decide (m ∈ db_mentions d)))
                   (List.map (fun u => (commentId, u)) (adminsOf d teamId author))) d.

Definition standingNotice (taskId kind : string) (since : option Z) (c : TaskComment) : bool :=
  onTask taskId c && bool_decide (tc_type c = SystemComment) && equals (tc_kind c) kind && after (tc_created c) since.

(** [unlessPostedSince] given, as every hold gives it. Returns whether the notice was posted. *)
Definition postAdminNotice (now : Z) (teamId taskId kind : string) (unlessPostedSince : option Z) (d : TaskDb)
    : TaskDb * bool :=
  if existsb (standingNotice taskId kind unlessPostedSince) (db_comments d) then (d, false)
  else
    let id := freshComment (db_comments d) in
    let c := mkTaskComment id taskId now None None None None None None false SystemComment (Some kind) in
    (insertAdminMentions teamId id None (with_comments (db_comments d ++ [c]) d), true).

Definition COACH_REVIEW_TRIGGER : string := "task_done".
Definition CAPTAIN_AGENT_SLUG : string := "captain".
Definition COACH_AGENT_SLUG : string := "coach".
Definition CEO_AGENT_SLUG : string := "ceo".
Definition INSTANCE_AGENT_SLUGS : list string := [CEO_AGENT_SLUG; COACH_AGENT_SLUG].
Definition HEARTBEAT_TASK_CANDIDATES : nat := 3.

(** The loop over the candidates: the first that is not held, or the first hold met. A held
    task's notice goes on its own team. *)
Fixpoint chooseTask (memberId : string) (exemptionOf : TaskRow -> DispatchDb -> SuppressionExemption)
    (candidates : list TaskRow) (db : DispatchDb) : DispatchDb * (TaskRow + option Suppression) :=
  match candidates with
  | [] => (db, inr None)
  | c :: rest =>
      match dispatchSuppression memberId (tk_id c) (exemptionOf c db) db with
      | None => (db, inl c)
      | Some held =>
          let db := match su_notice held with
                    | Some (kind, since) =>
                        put_task (fst (postAdminNotice (dd_now db) (tk_team c) (tk_id c) kind since (dd_task db))) db
                    | None => db
                    end in
          let '(db, r) := chooseTask memberId exemptionOf rest db in
          (db, match r with inl t => inl t | inr _ => inr (Some held) end)
      end
  end.

(** ** Activation *)

(** [HeldBy] is the [held] field of an [ActivationOutcome]; the source tells [Launched] and
    [Returned] apart only by their effects. [Threw]: a query failed. *)
Inductive Activation := Launched | HeldBy (reason : string) | Returned | Threw.

Definition finishWakeup (id : string) (s : WakeupStatus) (db : DispatchDb) : DispatchDb :=
  updateWakeup id (finish (dd_now db) s) db.
Definition stampHeartbeat (memberId : string) (db : DispatchDb) : DispatchDb :=
  put_budget (updateAgent memberId (set_heartbeat (dd_now db)) (dd_budget db)) db.

(** [payload || jsonb]. *)
Definition extend (fields : Payload) (w : Wakeup) : Wakeup :=
  mkWakeup (w_id w) (w_member w) (w_team w) (w_source w) (fields ∪ w_payload w) (w_status w) (w_key w) (w_run w) (w_created w)
    (w_count w) (w_claimed w) (w_skipped w) (w_reason w) (w_not_before w) (w_held w) (w_completed w).
Definition deferWakeup (id : string) (fields : Payload) (db : DispatchDb) : DispatchDb :=
  updateWakeup id (fun w => setStatus Deferred (extend fields w)) db.

Definition conversational (s : WakeupSource) : bool := bool_decide (s ∈ [Mention; Comment; Reply]).

Definition holdsLock (memberId taskId : string) (db : DispatchDb) : bool :=
  existsb (fun k => String.eqb (el_task k) taskId && String.eqb (el_member k) memberId && isNull (el_released k)) (dd_locks db).

Definition releaseLock (memberId taskId : string) (db : DispatchDb) : DispatchDb :=
  put_locks (List.map (fun k => if String.eqb (el_task k) taskId && String.eqb (el_member k) memberId && isNull (el_released k)
                                then mkLock (el_id k) (el_task k) (el_member k) (el_locked k) (Some (dd_now db)) else k)
               (dd_locks db)) db.

(** The tail: the guards, the launch, and the wakeups it serves. *)
Definition launchRun (a : AgentRow) (wakeupId : string) (t : TaskRow) (projectId : string) (spare : bool) (db : DispatchDb)
    : DispatchDb * Activation :=
  let db := put_locks (dd_locks db ++ [mkLock (freshLock (dd_locks db)) (tk_id t) (ar_id a) (dd_now db) None]) db in
  let db := put_budget (updateAgent (ar_id a) (set_runtime Active) (dd_budget db)) db in
  let '(jobs, launched) := dispatch (taskRun (ar_id a) (tk_id t) projectId (negb spare)) (dd_jobs db) in
  let db := put_jobs jobs db in
  if launched
  then (put_wakes (fst (absorbQueuedTaskWakeups render (ar_id a) (tk_id t) wakeupId (dd_wakes db))) db, Launched)
  else
    let db := releaseLock (ar_id a) (tk_id t) db in
    let db := put_budget (fst (setAgentIdleIfNoActiveRuns (db_runs (dd_task db)) (ar_id a) None (dd_budget db))) db in
    (requeueWakeup wakeupId db, Returned).

(** [posts]: the budget notice can be posted on the task. *)
Definition runTask (a : AgentRow) (wakeupId : string) (source : WakeupSource) (t : TaskRow) (posts : bool) (db : DispatchDb)
    : DispatchDb * Activation :=
  if isTaskBusy (Some (tk_id t)) db then (requeueWakeup wakeupId db, Returned)
  else match isContainerCapacityBlocked (Some (tk_project t)) db with
  | None => (db, Threw)
  | Some capacity =>
      if cv_blocked capacity then (requeueWakeup wakeupId db, Returned)
      else if isAgentBusyInProject (ar_id a) (tk_project t) db then (requeueWakeup wakeupId db, Returned)
      else match List.find (fun p => String.eqb (pr_id (ps_row p)) (tk_project t)) (dd_projects db) with
      | None => (updateWakeup wakeupId (setStatus Failed) db, Returned)
      | Some p =>
          match checkOverBudget (dd_budget db) (ar_id a) (Some (pr_id (ps_row p))) with
          | None => (db, Threw)
          | Some (Some block) =>
              let db := put_budget (fst (pauseAgentForBudget (dd_budget db) (ar_id a) block (Some (tk_id t))
                                           (Some (pr_id (ps_row p))) posts)) db in
              (markWakeupSkipped wakeupId "over_budget" db, HeldBy "over_budget")
          | Some None =>
              if negb (conversational source) && isNull (truthy (ps_repo p)) && ar_touches_code a
              then (deferWakeup wakeupId (<["reason" := JStr "awaiting_repo_setup"]> (<["project_id" := JStr (pr_id (ps_row p))]>
                      {["task_id" := JStr (tk_id t)]})) db, Returned)
              else if isNull (truthy (pr_container (ps_row p))) && ps_creating p then (requeueWakeup wakeupId db, Returned)
              else if holdsLock (ar_id a) (tk_id t) db then (updateWakeup wakeupId (setStatus Deferred) db, Returned)
              else launchRun a wakeupId t (pr_id (ps_row p)) (cv_spare capacity) db
          end
      end
  end.

Definition archived (projectId : string) (db : DispatchDb) : bool :=
  negb (existsb (fun p => String.eqb (pr_id (ps_row p)) projectId && negb (ps_archived p)) (dd_projects db)).

Definition payloadTaskRow (instanceAgent : bool) (teamId taskId : string) (db : DispatchDb) : option TaskRow :=
  List.find (fun t => String.eqb (tk_id t) taskId && negb (archived (tk_project t) db)
                      && (instanceAgent || String.eqb (tk_team t) teamId)) (dd_tasks db).

(** [ORDER BY priority, created_at]. *)
Definition byPriority (a b : TaskRow) : Z :=
  if priorityRank (tk_priority a) =? priorityRank (tk_priority b) then tk_created a - tk_created b
  else priorityRank (tk_priority a) - priorityRank (tk_priority b).

Definition actionableTasks (memberId teamId : string) (instanceAgent : bool) (db : DispatchDb) : list TaskRow :=
  take HEARTBEAT_TASK_CANDIDATES (js_sort byPriority (List.filter (fun t =>
    negb (archived (tk_project t) db) && equals (tk_assignee t) memberId && (instanceAgent || String.eqb (tk_team t) teamId)
    && negb (taskTerminal (tk_status t)) && negb (hasOpenBlockers (dependencyView db) (tk_id t))) (dd_tasks db))).

(** From the candidates on. [review]: the run is the Coach's review of a finished task. *)
Definition dispatchCandidates (a : AgentRow) (teamId wakeupId : string) (payload : Payload) (source : WakeupSource)
    (review : bool) (posts : bool) (candidates : list TaskRow) (db : DispatchDb) : DispatchDb * Activation :=
  let exemptionOf c db := if review then FULL_EXEMPTION
    else dispatchSuppressionExempt render (dd_task db) (ar_id a) teamId (Some (tk_id c)) source payload (Some wakeupId) in
  match chooseTask (ar_id a) exemptionOf candidates db with
  | (db, inl t) => runTask a wakeupId source t posts db
  | (db, inr (Some held)) =>
      let db := markWakeupSkipped wakeupId (su_reason held) db in
      let db := stampHeartbeat (ar_id a) db in
      (finishWakeup wakeupId Completed db, HeldBy (su_reason held))
  | (db, inr None) => (db, Returned)
  end.

(** [payload?.trigger === t]. *)
Definition triggered (payload : Payload) (t : string) : bool :=
  match payload !! "trigger" with Some (JStr s) => String.eqb s t | _ => false end.
Definition coachReview (a : AgentRow) (payload : Payload) : bool :=
  String.eqb (ar_slug a) COACH_AGENT_SLUG && triggered payload COACH_REVIEW_TRIGGER.

(** The outcome of a task-less attempt for a wakeup that asked for a progress update and nothing else. *)
Definition settleProgressNow (wakeupId reason : string) (db : DispatchDb) : DispatchDb :=
  if bool_decide (reason ∈ ["agent_busy"; "instance_at_capacity"; "hours_exhausted"])
  then updateWakeup wakeupId (fun w =>
         mkWakeup (w_id w) (w_member w) (w_team w) (w_source w) (w_payload w) Queued (w_key w) (w_run w) (w_created w)
           (w_count w) None (Some (dd_now db))
           (Some (if String.eqb reason "instance_at_capacity" then "instance_at_capacity"
                  else if String.eqb reason "hours_exhausted" then "hours_exhausted" else "agent_running"))
           (w_not_before w) (w_held w) (w_completed w)) db
  else finishWakeup wakeupId Completed db.

(** The task an agent picks for itself. *)
Definition activateSelected (a : AgentRow) (teamId wakeupId : string) (payload : Payload) (source : WakeupSource)
    (posts : bool) (db : DispatchDb) : DispatchDb * Activation :=
  match if String.eqb (ar_slug a) COACH_AGENT_SLUG then missedReview (ar_id a) db else None with
  | Some t => dispatchCandidates a teamId wakeupId payload source true posts [t] db
  | None =>
      match actionableTasks (ar_id a) teamId (bool_decide (ar_slug a ∈ INSTANCE_AGENT_SLUGS)) db with
      | [] => (finishWakeup wakeupId Completed (stampHeartbeat (ar_id a) db), Returned)
      | ts => dispatchCandidates a teamId wakeupId payload source (coachReview a payload) posts ts db
      end
  end.

(** The branch of a wakeup that names no task. *)
Definition activateUntargeted (a : AgentRow) (teamId wakeupId : string) (payload : Payload) (source : WakeupSource)
    (posts : bool) (db : DispatchDb) : DispatchDb * Activation :=
  let '(db, attempt) := if bool_decide (ar_slug a ∈ [CAPTAIN_AGENT_SLUG; COACH_AGENT_SLUG])
                        then (fun r => (fst r, Some (snd r))) (taskLess a wakeupId db) else (db, None) in
  let progressNow := triggered payload "progress_update_now" in
  match attempt with
  | Some Dispatched | Some (NotDispatched "launch_conflict") => (db, Returned)
  | Some (NotDispatched reason) =>
      if progressNow then (settleProgressNow wakeupId reason db, Returned)
      else activateSelected a teamId wakeupId payload source posts db
  | None => activateSelected a teamId wakeupId payload source posts db
  end.

Definition activateAgent (memberId teamId wakeupId : string) (payload : Payload) (source : WakeupSource) (posts : bool)
    (db : DispatchDb) : DispatchDb * Activation :=
  match List.find (fun a => String.eqb (ar_id a) memberId) (dd_agents db) with
  | None => (updateWakeup wakeupId (setStatus Skipped) db, Returned)
  | Some a =>
      if negb (ar_enabled a) then (updateWakeup wakeupId (setStatus Skipped) db, Returned) else
      match payloadTaskId payload with
      | Some taskId =>
          match payloadTaskRow (bool_decide (ar_slug a ∈ INSTANCE_AGENT_SLUGS)) teamId taskId db with
          | None => (finishWakeup wakeupId Completed db, Returned)
          | Some t =>
              dispatchCandidates a teamId wakeupId payload source (coachReview a payload) posts [t] db
          end
      | None => activateUntargeted a teamId wakeupId payload source posts db
      end
  end.

(** ** The queue *)

(** The claim of [processWakeups] and of [dispatchWakeupNow]. *)
Definition claim (now : Z) (w : Wakeup) : Wakeup :=
  mkWakeup (w_id w) (w_member w) (w_team w) (w_source w) (w_payload w) Claimed (w_key w) (w_run w) (w_created w)
    (w_count w) (Some now) None None None None (w_completed w).

Definition claimable (now : Z) (w : Wakeup) : bool :=
  isQueued w && (w_created w <? now - coalescing) && holdElapsed now w.

Definition WAKEUP_BATCH : nat := 10.
Definition claimableWakeups (db : DispatchDb) : list Wakeup :=
  take WAKEUP_BATCH (js_sort byCreatedAt (List.filter (claimable (dd_now db)) (dd_wakes db))).

(** Activate a claimed wakeup; an activation that throws fails it. *)
Definition activateClaimed (w : Wakeup) (posts : bool) (db : DispatchDb) : DispatchDb * Activation :=
  let '(db, r) := activateAgent (w_member w) (w_team w) (w_id w) (w_payload w) (w_source w) posts
                    (updateWakeup (w_id w) (claim (dd_now db)) db) in
  match r with Threw => (updateWakeup (w_id w) (setStatus Failed) db, Threw) | _ => (db, r) end.

(** The loop body of [processWakeups], for a row of its scan. [None] when a gate's query fails. *)
Definition considerWakeup (posts : bool) (w : Wakeup) (db : DispatchDb) : option (DispatchDb * option Activation) :=
  let taskId := payloadTaskId (w_payload w) in
  skipped ← match taskId with
    | Some t =>
        if isTaskBusy (Some t) db then Some (Some "task_busy")
        else
          let project := resolveProjectForTask t db in
          capacity ← isContainerCapacityBlocked project db;
          if cv_blocked capacity then Some (Some "instance_at_capacity")
          else if match project with Some p => isAgentBusyInProject (w_member w) p db | None => false end
          then Some (Some "agent_running") else Some None
    | None => if isMemberRunning (w_member w) (dd_jobs db) then Some (Some "agent_running") else Some None
    end;
  match skipped with
  | Some reason => Some (markWakeupSkipped (w_id w) reason db, None)
  | None =>
      if match taskId with
         | Some t => bool_decide (w_source w = Assignment)
                     && assignmentWakeupAlreadyServed (w_member w) t (w_created w) (servedView db)
         | None => false
         end
      then Some (updateWakeup (w_id w) (setStatus Coalesced) db, None)
      else if shouldDeferWakeupForBlockers (dependencyView db) (w_source w) taskId
      then Some (deferWakeup (w_id w) {["reason" := JStr "blocked"]} db, None)
      else let '(db, r) := activateClaimed w posts db in Some (db, Some r)
  end.

(** A failed query ends the pass where it stands. *)
Fixpoint considerAll (posts : bool) (ws : list Wakeup) (db : DispatchDb) : DispatchDb :=
  match ws with
  | [] => db
  | w :: ws => match considerWakeup posts w db with
               | Some (db, _) => considerAll posts ws db
               | None => db
               end
  end.

Definition processWakeups (posts : bool) (db : DispatchDb) : DispatchDb :=
  let db := releaseSatisfiedDeferrals db in considerAll posts (claimableWakeups db) db.

Inductive DispatchNowResult := NowDispatched | NowRefused (reason : string) | NowThrew.

Definition dispatchWakeupNow (posts : bool) (wakeupId : string) (db : DispatchDb) : DispatchDb * DispatchNowResult :=
  match List.find (hasId wakeupId) (dd_wakes db) with
  | None => (db, NowRefused "not_found")
  | Some w =>
      if negb (isQueued w) then (db, NowRefused "not_queued")
      else
        let activate db :=
          match activateClaimed w posts db with
          | (db, HeldBy reason) => (db, NowRefused (if String.eqb reason "over_budget" then "over_budget" else "held"))
          | (db, Threw) => (db, NowThrew)
          | (db, _) => (db, NowDispatched)
          end in
        match payloadTaskId (w_payload w) with
        | None => activate db
        | Some t =>
            if isTaskBusy (Some t) db then (markWakeupSkipped wakeupId "task_busy" db, NowRefused "task_busy")
            else
              let project := resolveProjectForTask t db in
              match isContainerCapacityBlocked project db with
              | None => (db, NowThrew)
              | Some capacity =>
                  if cv_blocked capacity
                  then let reason := if cv_hours capacity then "hours_exhausted" else "instance_at_capacity" in
                       (markWakeupSkipped wakeupId reason db, NowRefused reason)
                  else if match project with Some p => isAgentBusyInProject (w_member w) p db | None => false end
                  then (markWakeupSkipped wakeupId "agent_running" db, NowRefused "agent_busy")
                  else if shouldDeferWakeupForBlockers (dependencyView db) (w_source w) (Some t)
                  then (deferWakeup wakeupId {["reason" := JStr "blocked"]} db, NowRefused "blocked")
                  else activate db
              end
        end
  end.
End Dispatcher.

(** ** The two capacity checks *)

Lemma sumProject_nonneg I ids : 0 <= defaultCap I -> (forall p, In p (projects I) -> forall m, memory_limit p = Some m -> 0 <= m) ->
  0 <= sumProjectContainerMemoryGb I ids.
Proof.
  intros Hd Hp. unfold sumProjectContainerMemoryGb. rewrite fold_left_sumZ. rewrite Z.add_0_l. apply sumZ_nonneg.
  intros id _. unfold projectContainerFigure, memoryCapOf.
  destruct (List.find _ _) as [p|] eqn:E; [|lia]. apply find_some in E as [Hin _].
  destruct (memory_limit p) as [m|] eqn:Em; [|lia]. specialize (Hp p Hin m Em). destruct (capPinned I); lia.
Qed.

(** The dispatcher's capacity check and the stateless one the routes ask agree. With no
    container start pending they give one verdict for every project; with starts pending for
    other projects the dispatcher's is never the laxer, since it also charges those. *)
Theorem capacity_twins_agree p db : p <> "" ->
  let I := gateView db in
  let db_says := containerCapacityVerdictInDb I (bd_now (dd_budget db)) (bd_jsNow (dd_budget db)) p in
  let here := isContainerCapacityBlocked (Some p) db in
  (pendingContainerStarts (dd_jobs db) = ∅ ->
     (fun v => (cv_blocked v, cv_hours v)) <$> here = (fun v => (v_blocked v, v_hoursExhausted v)) <$> db_says) /\
  (pendingContainerStarts (dd_jobs db) !! p = None -> 0 <= defaultCap I ->
     (forall q, In q (projects I) -> forall m, memory_limit q = Some m -> 0 <= m) ->
     v_blocked <$> db_says = Some true -> cv_blocked <$> here = Some true).
Proof.
  intros Hp I db_says here. subst db_says here. unfold isContainerCapacityBlocked, containerCapacityVerdictInDb. fold I.
  assert (truthy (Some p) = Some p) as -> by (by destruct p).
  destruct (getActiveContainers I _ _) as [active|]; [|done]. cbn [mbind option_bind].
  destruct (bool_decide (p ∈ projectsWithSpareContainer active)); [done|].
  destruct (hoursExhausted active); [done|]. split.
  - intros ->. rewrite lookup_empty, map_to_list_empty, bool_decide_false by (by intros [? [=]]).
    unfold sumProjectContainerMemoryGb. cbn. rewrite Z.add_0_r. done.
  - intros Hnone Hd Hm. rewrite Hnone, bool_decide_false by (by intros [? [=]]).
    set (ids := List.filter _ _). pose proof (sumProject_nonneg I ids Hd Hm).
    cbn [fmap option_fmap option_map v_blocked cv_blocked]. intros [= Hlt%Z.ltb_lt]. f_equal. apply Z.ltb_lt. lia.
Qed.

(** Everything the activation of a wakeup that names a task asks for. *)
Record gates_open (render : Json -> string) (floorMin : Z) (memberId teamId wakeupId : string) (payload : Payload)
    (source : WakeupSource) (taskId : string) (db : DispatchDb) (a : AgentRow) (t : TaskRow) (p : ProjectState)
    (v : CapacityVerdict) : Prop := {
  go_agent : List.find (fun a => String.eqb (ar_id a) memberId) (dd_agents db) = Some a;
  go_enabled : ar_enabled a = true;
  go_task : payloadTaskRow (bool_decide (ar_slug a ∈ INSTANCE_AGENT_SLUGS)) teamId taskId db = Some t;
  go_free : dispatchSuppression render floorMin (ar_id a) (tk_id t)
    (if coachReview a payload then FULL_EXEMPTION
     else dispatchSuppressionExempt render (dd_task db) (ar_id a) teamId (Some (tk_id t)) source payload (Some wakeupId)) db = None;
  go_idle_task : isTaskBusy (Some (tk_id t)) db = false;
  go_capacity : isContainerCapacityBlocked (Some (tk_project t)) db = Some v /\ cv_blocked v = false;
  go_idle_agent : isAgentBusyInProject (ar_id a) (tk_project t) db = false;
  go_project : List.find (fun p => String.eqb (pr_id (ps_row p)) (tk_project t)) (dd_projects db) = Some p;
  go_budget : checkOverBudget (dd_budget db) (ar_id a) (Some (pr_id (ps_row p))) = Some None;
  go_repo : negb (conversational source) && isNull (truthy (ps_repo p)) && ar_touches_code a = false;
  go_container : isNull (truthy (pr_container (ps_row p))) && ps_creating p = false;
  go_lock : holdsLock (ar_id a) (tk_id t) db = false;
  go_accepting : draining (dd_jobs db) = false;
  go_slot : runningTasks (dd_jobs db) !! (ar_id a +:+ ":" +:+ pr_id (ps_row p)) = None
}.

Lemma takeGuards_frame e J : draining (takeGuards e J) = draining J /\ runningTasks (takeGuards e J) = runningTasks J.
Proof. unfold takeGuards. destruct (e_task e), (e_pending e); done. Qed.

Lemma dispatch_launched e J : snd (dispatch e J) = true <-> draining J = false /\ runningTasks J !! e_key e = None.
Proof.
  unfold dispatch, launchTask. destruct (takeGuards_frame e J) as [-> ->].
  destruct (draining J); [split; [done|by intros []]|]. destruct (runningTasks J !! e_key e); split; try done. by intros [].
Qed.

Section Activation.
Variable render : Json -> string.
Variables floorMin coalescing : Z.
Variable freshComment : list TaskComment -> string.
Variable freshLock : list ExecutionLock -> string.
Variable taskLess : AgentRow -> string -> DispatchDb -> DispatchDb * TaskLessResult.
Variable missedReview : string -> DispatchDb -> option TaskRow.

Lemma launchRun_launched a w t p spare db :
  snd (launchRun render freshLock a w t p spare db) = Launched <->
  draining (dd_jobs db) = false /\ runningTasks (dd_jobs db) !! (ar_id a +:+ ":" +:+ p) = None.
Proof.
  unfold launchRun. set (e := taskRun _ _ _ _). change (ar_id a +:+ ":" +:+ p) with (e_key e).
  rewrite <- (dispatch_launched e (dd_jobs db)). cbn [put_budget put_locks dd_jobs].
  destruct (dispatch e (dd_jobs db)) as [J []]; split; done.
Qed.

Notation activate := (activateAgent render floorMin freshComment freshLock taskLess missedReview).

Lemma runTask_launched a wakeupId source t posts db : snd (runTask render freshLock a wakeupId source t posts db) = Launched <->
  isTaskBusy (Some (tk_id t)) db = false /\
  (exists v, isContainerCapacityBlocked (Some (tk_project t)) db = Some v /\ cv_blocked v = false) /\
  isAgentBusyInProject (ar_id a) (tk_project t) db = false /\
  exists p, List.find (fun p => String.eqb (pr_id (ps_row p)) (tk_project t)) (dd_projects db) = Some p /\
    checkOverBudget (dd_budget db) (ar_id a) (Some (pr_id (ps_row p))) = Some None /\
    negb (conversational source) && isNull (truthy (ps_repo p)) && ar_touches_code a = false /\
    isNull (truthy (pr_container (ps_row p))) && ps_creating p = false /\ holdsLock (ar_id a) (tk_id t) db = false /\
    draining (dd_jobs db) = false /\ runningTasks (dd_jobs db) !! (ar_id a +:+ ":" +:+ pr_id (ps_row p)) = None.
Proof.
  unfold runTask. destruct (isTaskBusy _ _); [split; [done|by intros []]|].
  destruct (isContainerCapacityBlocked _ _) as [v|]; [|split; [done|by intros (_ & (v & [=] & _) & _)]].
  destruct (cv_blocked v) eqn:Ev; [split; [done|intros (_ & (v' & [= <-] & Hv) & _); congruence]|].
  destruct (isAgentBusyInProject _ _ _); [split; [done|by intros (_ & _ & [=] & _)]|].
  destruct (List.find _ _) as [p|]; [|split; [done|by intros (_ & _ & _ & p & [=] & _)]].
  destruct (checkOverBudget _ _ _) as [[b|]|] eqn:Eb;
    [split; [done|intros (_ & _ & _ & p' & [= <-] & Hb & _); congruence]| |
     split; [done|intros (_ & _ & _ & p' & [= <-] & Hb & _); congruence]].
  destruct (negb (conversational source) && _ && _) eqn:Er;
    [split; [done|intros (_ & _ & _ & p' & [= <-] & _ & Hr & _); congruence]|].
  destruct (isNull (truthy (pr_container (ps_row p))) && ps_creating p) eqn:Ec;
    [split; [done|intros (_ & _ & _ & p' & [= <-] & _ & _ & Hc & _); congruence]|].
  destruct (holdsLock _ _ _); [split; [done|by intros (_ & _ & _ & p' & _ & _ & _ & _ & [=] & _)]|].
  rewrite launchRun_launched. split.
  - intros [Hd Hk]. split_and!; [done|by exists v|done|]. by exists p.
  - intros (_ & _ & _ & p' & [= <-] & _ & _ & _ & _ & H). done.
Qed.

Lemma activation_iff memberId teamId wakeupId payload source posts taskId db : payloadTaskId payload = Some taskId ->
  snd (activate memberId teamId wakeupId payload source posts db) = Launched <->
  exists a t p v, gates_open render floorMin memberId teamId wakeupId payload source taskId db a t p v.
Proof.
  intros Hpay. unfold activateAgent. split.
  - destruct (List.find _ (dd_agents db)) as [a|] eqn:Ea; [|done]. destruct (ar_enabled a) eqn:Een; [|done]. cbn [negb].
    rewrite Hpay. destruct (payloadTaskRow _ _ _ _) as [t|] eqn:Et; [|done].
    unfold dispatchCandidates. cbn [chooseTask]. destruct (dispatchSuppression _ _ _ _ _ _) as [held|] eqn:Eh;
      [by destruct (su_notice held) as [[]|]|].
    intros (Hb & (v & Hv & Hvb) & Hab & p & Hp & Hbud & Hr & Hc & Hl & Hd & Hk)%runTask_launched.
    exists a, t, p, v. by constructor.
  - intros (a & t & p & v & [Ha He Ht Hs Hb [Hv Hvb] Hab Hp Hbud Hr Hc Hl Hd Hk]). rewrite Ha, He. cbn [negb].
    rewrite Hpay, Ht. unfold dispatchCandidates. cbn [chooseTask]. rewrite Hs. apply runTask_launched.
    split_and!; [done|by exists v|done|]. by exists p.
Qed.

(** ** What a launch leaves *)

Lemma dispatch_slot e J t : e_task e = Some t -> snd (dispatch e J) = true -> t ∈ activeTaskRuns (fst (dispatch e J)).
Proof.
  intros He H. apply dispatch_launched in H as [Hd Hk]. unfold dispatch, launchTask.
  destruct (takeGuards_frame e J) as [-> ->]. rewrite Hd, Hk. cbn [fst set_running activeTaskRuns].
  unfold takeGuards. rewrite He. destruct (e_pending e); cbn; by apply elem_of_union_l, elem_of_singleton.
Qed.

(** The task is taken and locked for the agent, and no other wakeup of the agent on the task is
    left in the queue. *)
Definition launched_on (memberId wakeupId : string) (t : TaskRow) (db : DispatchDb) : Prop :=
  tk_id t ∈ activeTaskRuns (dd_jobs db) /\ holdsLock memberId (tk_id t) db = true /\
  (forall w, In w (dd_wakes db) -> w_member w = memberId -> w_status w = Queued ->
     text render (w_payload w) "task_id" = Some (tk_id t) -> w_id w = wakeupId).

Lemma runTask_effect a wakeupId source t posts db : snd (runTask render freshLock a wakeupId source t posts db) = Launched ->
  launched_on (ar_id a) wakeupId t (fst (runTask render freshLock a wakeupId source t posts db)).
Proof.
  intros H. pose proof H as (Hb & (v & Hv & Hvb) & Hab & p & Hp & Hbud & Hr & Hc & Hl & Hd & Hk)%runTask_launched.
  revert H. unfold runTask. rewrite Hb, Hv, Hvb, Hab, Hp, Hbud, Hr, Hc, Hl. unfold launchRun.
  set (e := taskRun _ _ _ _). cbn [put_budget put_locks dd_jobs].
  pose proof (dispatch_slot e (dd_jobs db) (tk_id t) eq_refl) as Hslot.
  destruct (dispatch e (dd_jobs db)) as [J []]; [|done]. intros _. split_and!.
  - by apply Hslot.
  - unfold holdsLock. cbn [fst put_wakes put_task put_jobs put_budget put_locks dd_locks]. apply existsb_exists. eexists.
    split; [apply in_app_iff; right; by left|]. cbn. by rewrite !String.eqb_refl.
  - intros w Hw Hm Hq Ht. by apply (absorb_leaves_driver render (ar_id a) (tk_id t) wakeupId (dd_wakes db) w).
Qed.
End Activation.

(** C3. A wakeup that names a task becomes a run exactly when every gate is open: the agent
    exists and is enabled, the task is in a project that is not archived and within the agent's
    reach, no hold applies that the wakeup is not exempt from, neither the task nor the agent
    in that project is busy, the instance has room, no budget window is spent, the project has
    its repository (or the wakeup is conversational, or the agent writes no code), its
    container is not being made, and neither a lock nor a launch of the pair stands. A launch
    takes the task's slot and its lock and leaves no other wakeup of the agent for the task
    in the queue. *)
Theorem activation_iff_gates_open render floorMin freshComment freshLock taskLess missedReview memberId teamId wakeupId payload
    source posts taskId db :
  payloadTaskId payload = Some taskId ->
  let '(db', r) := activateAgent render floorMin freshComment freshLock taskLess missedReview memberId teamId wakeupId payload
                     source posts db in
  (r = Launched <-> exists a t p v, gates_open render floorMin memberId teamId wakeupId payload source taskId db a t p v) /\
  (r = Launched -> exists a t p v, gates_open render floorMin memberId teamId wakeupId payload source taskId db a t p v /\
     launched_on render (ar_id a) wakeupId t db').
Proof.
  intros Hpay.
  pose proof (activation_iff render floorMin freshComment freshLock taskLess missedReview memberId teamId wakeupId payload
                source posts taskId db Hpay) as Hiff.
  destruct (activateAgent _ _ _ _ _ _ _ _ _ _ _ _ _) as [db' r] eqn:E. cbn [snd] in Hiff. split; [exact Hiff|].
  intros ->. destruct (proj1 Hiff eq_refl) as (a & t & p & v & G). exists a, t, p, v. split; [exact G|].
  destruct G. revert E. unfold activateAgent. rewrite go_agent0, go_enabled0. cbn [negb]. rewrite Hpay, go_task0.
  unfold dispatchCandidates. cbn [chooseTask]. rewrite go_free0. intros E.
  pose proof (runTask_effect render freshLock a wakeupId source t posts db) as Heff. rewrite E in Heff. by apply Heff.
Qed.

(** ** An operator's press *)

Lemma full_exemption_not_held render floorMin memberId task db :
  dispatchSuppression render floorMin memberId task FULL_EXEMPTION db = None.
Proof.
  unfold dispatchSuppression, noWorkCooldownActive, parkedOnAdminAsk, attemptsExhaustedOnTask, retrospectiveHoldActive.
  cbn [byPerson byAdmin FULL_EXEMPTION]. by destruct (truthy (Some task)).
Qed.

Lemma admin_press_exempt render d memberId teamId taskId source payload wakeupId :
  isTrue (adminTriggeredSql render d payload (Some (default teamId (taskId ≫= teamOfTask d)))) = true ->
  dispatchSuppressionExempt render d memberId teamId taskId source payload wakeupId = FULL_EXEMPTION.
Proof.
  unfold adminTriggeredSql, dispatchSuppressionExempt. intros H.
  destruct (payload !! "triggered_by") as [[| | | | |fields]|] eqn:E; try done;
    [|unfold actorIsAdminSql, legacyActorSql in H; cbn in H; by destruct (existsb _ (db_users d))].
  cbn [isPlainObject negb andb]. rewrite andb_false_r. cbn [andb]. unfold FULL_EXEMPTION. rewrite H. f_equal.
  revert H. unfold actorIsAdminSql, actorIsPersonSql, legacyActorSql. cbn [isObject].
  set (user := actorUser _ _). set (key := actorKey _ _). intros H.
  destruct key as [k|]; [by rewrite orb_true_r|]. destruct user as [u|]; [done|].
  cbn [isAdminUserSql notNull isNull negb orb and3] in *. unfold isTrue in *. apply bool_decide_eq_true in H.
  apply bool_decide_eq_true. destruct (existsb _ (db_users d)) eqn:Ex in H; [|done]. clear H.
  apply existsb_exists in Ex as (m & Hm & [Hid _]%andb_true_iff).
  assert (existsb (fun m => bool_decide (nullIfEmpty (actorText render (Some (JObj fields)) "member_id") = Some (mu_id m)) && true) (db_users d) = true) as ->; [|done].
  apply existsb_exists. exists m. by rewrite Hid.
Qed.

Definition wakeupStatus (id : string) (db : DispatchDb) : option WakeupStatus := w_status <$> List.find (hasId id) (dd_wakes db).

Lemma find_update id p f t : (forall w, w_id (f w) = w_id w) ->
  List.find (hasId id) (update p f t) = (fun w => if p w then f w else w) <$> List.find (hasId id) t.
Proof.
  intros Hf. induction t as [|w t IH]; [done|]. cbn [update List.map List.find].
  assert (hasId id (if p w then f w else w) = hasId id w) as -> by (unfold hasId; destruct (p w); by rewrite ?Hf).
  by destruct (hasId id w).
Qed.

Lemma status_update id f db : (forall w, w_id (f w) = w_id w) ->
  wakeupStatus id (updateWakeup id f db) = (fun w => w_status (f w)) <$> List.find (hasId id) (dd_wakes db).
Proof.
  intros Hf. unfold wakeupStatus. cbn [updateWakeup put_wakes put_task dd_wakes dd_task with_wakeups db_wakes].
  rewrite find_update by done. destruct (List.find _ _) as [w|] eqn:E; [|done]. apply find_some in E as [_ E]. cbn. by rewrite E.
Qed.

Lemma status_set id f s db s0 : (forall w, w_id (f w) = w_id w) -> (forall w, w_status (f w) = s) ->
  wakeupStatus id db = Some s0 -> wakeupStatus id (updateWakeup id f db) = Some s.
Proof.
  intros Hf Hs H. rewrite status_update by done. unfold wakeupStatus in H.
  destruct (List.find _ _); [|done]. cbn. by rewrite Hs.
Qed.

Lemma status_same id f db : (forall w, w_id (f w) = w_id w) -> (forall w, w_status (f w) = w_status w) ->
  wakeupStatus id (updateWakeup id f db) = wakeupStatus id db.
Proof.
  intros Hf Hs. rewrite status_update by done. unfold wakeupStatus. destruct (List.find _ _); [|done]. cbn. by rewrite Hs.
Qed.

(** The work is running, waiting, or parked on something that releases it. *)
Definition still_owed (id : string) (db : DispatchDb) : Prop :=
  wakeupStatus id db = Some Claimed \/ wakeupStatus id db = Some Queued \/ wakeupStatus id db = Some Deferred.

Lemma requeue_owed id db s : id <> "" -> wakeupStatus id db = Some s -> wakeupStatus id (requeueWakeup id db) = Some Queued.
Proof.
  intros Hid H. unfold requeueWakeup. destruct (truthy (Some id)) as [i|] eqn:E; [|by destruct id].
  assert (i = id) as -> by (destruct id; cbn in E; congruence). by eapply status_set.
Qed.

Lemma absorb_status render m task id t : w_status <$> List.find (hasId id) (fst (absorbQueuedTaskWakeups render m task id t))
  = w_status <$> List.find (hasId id) t.
Proof.
  cbn [absorbQueuedTaskWakeups fst]. rewrite find_update by done. destruct (List.find _ _) as [w|] eqn:E; [|done]. cbn.
  apply find_some in E as [_ E]. unfold absorbable. by rewrite E, andb_false_r.
Qed.

Definition answered (id : string) (r : DispatchDb * Activation) : Prop :=
  still_owed id (fst r) /\ snd r <> Threw /\ (forall reason, snd r = HeldBy reason -> reason = "over_budget").

Lemma runTask_owed render freshLock a id source t posts db : id <> "" -> wakeupStatus id db = Some Claimed ->
  isContainerCapacityBlocked (Some (tk_project t)) db <> None -> archived (tk_project t) db = false ->
  (forall p, checkOverBudget (dd_budget db) (ar_id a) (Some p) <> None) ->
  answered id (runTask render freshLock a id source t posts db).
Proof.
  intros Hid Hs Hcap Harch Hbud.
  assert (forall db', dd_wakes db' = dd_wakes db -> answered id (requeueWakeup id db', Returned)) as Hreq.
  { intros db' Hw. split_and!; [|done|done]. right. left. eapply requeue_owed; [done|]. unfold wakeupStatus in *. by rewrite Hw. }
  assert (forall f, (forall w, w_id (f w) = w_id w) -> (forall w, w_status (f w) = Deferred) ->
    answered id (updateWakeup id f db, Returned)) as Hdef.
  { intros f H1 H2. split_and!; [|done|done]. right. right. by eapply status_set. }
  unfold runTask. destruct (isTaskBusy _ _); [by apply Hreq|].
  destruct (isContainerCapacityBlocked _ _) as [v|]; [|done]. destruct (cv_blocked v); [by apply Hreq|].
  destruct (isAgentBusyInProject _ _ _); [by apply Hreq|].
  destruct (List.find _ _) as [p|] eqn:Ep.
  2:{ exfalso. unfold archived in Harch. apply negb_false_iff, existsb_exists in Harch as (p & Hp & [He _]%andb_true_iff).
      apply (find_none _ _ Ep) in Hp. congruence. }
  specialize (Hbud (pr_id (ps_row p))). destruct (checkOverBudget _ _ _) as [[b|]|]; [| |done].
  { split_and!; [|done|by intros reason [= <-]]. left. cbn [fst]. unfold markWakeupSkipped. rewrite status_same by done. exact Hs. }
  destruct (negb _ && _ && _); [by apply Hdef|]. destruct (_ && _); [by apply Hreq|].
  destruct (holdsLock _ _ _); [by apply Hdef|]. unfold launchRun.
  destruct (dispatch _ _) as [J []]; [split_and!; [left|done|done]|by apply Hreq].
  cbn [fst]. unfold wakeupStatus in *. cbn [put_wakes put_task put_jobs put_budget put_locks dd_wakes dd_task with_wakeups db_wakes].
  rewrite absorb_status. exact Hs.
Qed.

(** C10. An admin's Run now on live work is never dropped: pressed on a queued wakeup that
    names a task of a project that is not archived, for an enabled agent within whose reach it
    is, it is refused or dispatched, but the wakeup ends claimed, queued or parked, and never
    finished, failed or skipped; and no hold refuses it. Queries are taken to answer. *)
Theorem run_now_never_dropped render floorMin freshComment freshLock taskLess missedReview posts w a t taskId db :
  List.find (hasId (w_id w)) (dd_wakes db) = Some w -> w_status w = Queued -> w_id w <> "" ->
  payloadTaskId (w_payload w) = Some taskId ->
  isTrue (adminTriggeredSql render (dd_task db) (w_payload w) (Some (default (w_team w) (teamOfTask (dd_task db) (tk_id t))))) = true ->
  List.find (fun a => String.eqb (ar_id a) (w_member w)) (dd_agents db) = Some a -> ar_enabled a = true ->
  payloadTaskRow (bool_decide (ar_slug a ∈ INSTANCE_AGENT_SLUGS)) (w_team w) taskId db = Some t ->
  isContainerCapacityBlocked (Some (tk_project t)) db <> None ->
  (forall p, checkOverBudget (dd_budget db) (ar_id a) (Some p) <> None) ->
  let '(db', r) := dispatchWakeupNow render floorMin freshComment freshLock taskLess missedReview posts (w_id w) db in
  still_owed (w_id w) db' /\ r <> NowRefused "held".
Proof.
  intros Hw Hq Hid Hpay Hpress Ha Hen Ht Hcap Hbud.
  assert (wakeupStatus (w_id w) db = Some Queued) as Hs by (unfold wakeupStatus; rewrite Hw; cbn; by rewrite Hq).
  assert (forall reason, still_owed (w_id w) (markWakeupSkipped (w_id w) reason db)) as Hskip.
  { intros reason. right. left. unfold markWakeupSkipped. by rewrite status_same. }
  unfold dispatchWakeupNow. rewrite Hw. unfold isQueued. rewrite Hq, bool_decide_true by done. cbn [negb]. rewrite Hpay.
  destruct (isTaskBusy (Some taskId) db); [by split; [apply Hskip|]|].
  destruct (isContainerCapacityBlocked (resolveProjectForTask taskId db) db) as [v|]; [|split; [by right; left|done]].
  destruct (cv_blocked v); [split; [apply Hskip|by destruct (cv_hours v)]|].
  destruct (match resolveProjectForTask taskId db with Some p => _ | None => false end); [by split; [apply Hskip|]|].
  destruct (shouldDeferWakeupForBlockers _ _ _).
  { split; [|done]. right. right. by eapply status_set. }
  unfold activateClaimed, activateAgent. cbn [updateWakeup put_wakes put_task dd_agents]. rewrite Ha, Hen. cbn [negb].
  rewrite Hpay. set (db1 := updateWakeup (w_id w) (claim (dd_now db)) db).
  change (payloadTaskRow (bool_decide (ar_slug a ∈ INSTANCE_AGENT_SLUGS)) (w_team w) taskId db1)
    with (payloadTaskRow (bool_decide (ar_slug a ∈ INSTANCE_AGENT_SLUGS)) (w_team w) taskId db). rewrite Ht.
  unfold dispatchCandidates. cbn [chooseTask].
  assert ((if coachReview a (w_payload w) then FULL_EXEMPTION
    else dispatchSuppressionExempt render (dd_task db1) (ar_id a) (w_team w) (Some (tk_id t)) (w_source w) (w_payload w)
           (Some (w_id w))) = FULL_EXEMPTION) as ->.
  { destruct (coachReview a (w_payload w)); [done|]. apply admin_press_exempt. exact Hpress. }
  rewrite full_exemption_not_held.
  assert (wakeupStatus (w_id w) db1 = Some Claimed) as Hs1 by (by eapply status_set).
  assert (archived (tk_project t) db1 = false) as Harch.
  { unfold payloadTaskRow in Ht. apply find_some in Ht as [_ Ht]. apply andb_true_iff in Ht as [[_ Ht]%andb_true_iff _].
    by apply negb_true_iff in Ht. }
  pose proof (runTask_owed render freshLock a (w_id w) (w_source w) t posts db1 Hid Hs1 Hcap Harch Hbud) as Howed.
  destruct (runTask _ _ _ _ _ _ _ db1) as [db2 r]. destruct Howed as (Howed & Hthrew & Hheld). cbn [fst snd] in *.
  destruct r as [|reason| |]; [by split| |by split|done]. rewrite (Hheld reason eq_refl). by split.
Qed.

(** ** The admin's answer to a hold *)
Section Resume.
Variable render : Json -> string.
Variable fresh : Table -> string.

Definition answeredAt (c : TaskComment) : Z := default (tc_created c) (tc_chosen_at c).

(** The row of the query: the assignee and its slug. *)
Definition heldTarget (commentId : string) (db : DispatchDb) : option (string * string) :=
  let d := dd_task db in
  c ← List.find (fun c => String.eqb (tc_id c) commentId) (db_comments d);
  t ← List.find (fun t => String.eqb (tk_id t) (tc_task c)) (dd_tasks db);
  a ← List.find (fun a => equals (tk_assignee t) (ar_id a)) (dd_agents db);
  if (adminCommentSql d (Some (tk_team t)) c || adminChoiceSql d (Some (tk_team t)) c)
     && existsb (fun n => onTask (tk_id t) n && bool_decide (tc_type n = SystemComment)
                          && match tc_kind n with Some k => bool_decide (k ∈ ADMIN_HOLD_NOTICE_KINDS) | None => false end
                          && (tc_created n <=? answeredAt c)
                          && after (tc_created n) (adminSpokeAtSql d (tk_id t) (Some (answeredAt c)))) (db_comments d)
  then Some (ar_id a, ar_slug a) else None.

(** Returns the slug woken. *)
Definition resumeHeldTaskOnAdminReply (taskId teamId commentId : string) (alreadyWoken : list string) (effort : JsPayload)
    (db : DispatchDb) : DispatchDb * option string :=
  match heldTarget commentId db with
  | None => (db, None)
  | Some (assignee, slug) =>
      if bool_decide (assignee ∈ alreadyWoken) then (db, None)
      else (put_wakes (fst (createWakeup render quiet (dd_now db) (fresh (dd_wakes db)) assignee teamId Comment
                              (effort ∪ <["source" := Some (JStr "comment")]> (<["task_id" := Some (JStr taskId)]>
                                 {["comment_id" := Some (JStr commentId)]}))
                              (Some ("resume:" +:+ taskId +:+ ":" +:+ commentId)) None (dd_wakes db))) db, Some slug)
  end.
End Resume.

(** A hold notice stands on the task since the admin last spoke before [b]. *)
Definition notice_stands (db : DispatchDb) (task team : string) (b : Z) : Prop :=
  exists n k, In n (db_comments (dd_task db)) /\ tc_task n = task /\ tc_type n = SystemComment /\ tc_kind n = Some k /\
    k ∈ ADMIN_HOLD_NOTICE_KINDS /\ tc_created n <= b /\
    (forall t, adminWord (dd_task db) task team t -> t < b -> t < tc_created n).

Lemma heldTarget_found db c t a : List.find (fun c' => String.eqb (tc_id c') (tc_id c)) (db_comments (dd_task db)) = Some c ->
  List.find (fun t => String.eqb (tk_id t) (tc_task c)) (dd_tasks db) = Some t ->
  List.find (fun a => equals (tk_assignee t) (ar_id a)) (dd_agents db) = Some a ->
  adminCommentSql (dd_task db) (Some (tk_team t)) c = true -> teamOfTask (dd_task db) (tk_id t) = Some (tk_team t) ->
  notice_stands db (tk_id t) (tk_team t) (answeredAt c) ->
  heldTarget (tc_id c) db = Some (ar_id a, ar_slug a).
Proof.
  intros Hc Ht Ha Hadmin Hteam (n & k & Hn & Htask & Htype & Hkind & Hk & Hle & Hlast).
  unfold heldTarget. rewrite Hc. cbn [mbind option_bind]. rewrite Ht. cbn [mbind option_bind]. rewrite Ha. cbn [mbind option_bind].
  rewrite Hadmin. cbn [orb andb].
  assert (existsb (fun n => onTask (tk_id t) n && bool_decide (tc_type n = SystemComment)
            && match tc_kind n with Some k => bool_decide (k ∈ ADMIN_HOLD_NOTICE_KINDS) | None => false end
            && (tc_created n <=? answeredAt c)
            && after (tc_created n) (adminSpokeAtSql (dd_task db) (tk_id t) (Some (answeredAt c)))) (db_comments (dd_task db)) = true)
    as ->; [|done].
  apply existsb_exists. exists n. split; [done|]. unfold onTask.
  rewrite Htask, String.eqb_refl, Htype, Hkind, !bool_decide_true, (adminSpoke_until _ _ (tk_team t)) by done.
  rewrite (proj2 (Z.leb_le _ _)) by done. done.
Qed.

(** The suppressions that are no hard stop: none of them posts a notice to the admin. *)
Definition SOFT_HOLDS : list string := ["no_work_cooldown"; "parked_on_admin"; "attempts_exhausted"; "retrospective_hold"].

Lemma soft_only render floorMin memberId task exemption db s :
  handoffHold (loadTaskSpend render (dd_task db) task) = None -> tokenCeilingHold (loadTaskSpend render (dd_task db) task) = None ->
  runSizeStopHold (loadTaskSpend render (dd_task db) task) = None ->
  dispatchSuppression render floorMin memberId task exemption db = Some s -> su_reason s ∈ SOFT_HOLDS.
Proof.
  intros H1 H2 H3. unfold dispatchSuppression. cbv zeta. rewrite H1, H2, H3.
  repeat match goal with |- context [if ?b then _ else _] => destruct b; [intros [= <-]; cbn; set_solver || done|] end.
  by destruct (byAdmin exemption).
Qed.

(** A queued wakeup the reply is folded into leaves it the exemption of the admin's word: one
    that is no press of run now and no decision, and carries no press. *)
Definition keepsExemption (e : Wakeup) : Prop :=
  w_source e <> OnDemand /\ decisionSource (w_source e) = false /\ isPlainObject (w_payload e !! "triggered_by") = false.

Lemma folded_conversational e : keepsExemption e ->
  conversationalSource (if promoteSource Comment (w_source e) then Comment else w_source e) = true.
Proof. intros (H1 & H2 & _). by destruct (w_source e). Qed.

(** C38. A held task moves again when the admin answers. When a notice asked the admin and the
    admin comments on the task after all its runs, a queued wakeup of the assignee carries the
    task and the comment; from then on none of the hard stops that ask the admin - the handoff
    limit, the token ceiling, the size stop - holds any wakeup on the task; and no suppression at
    all holds the wakeup that carries the reply, provided that a queued wakeup of the assignee on
    the task that it was folded into, if there was one, is no press of run now and no decision
    and carries no press: such a row keeps its own source, and with it the soft holds. *)
Theorem admin_reply_resumes_task render fresh floorMin db c t a teamId alreadyWoken effort :
  List.find (fun c' => String.eqb (tc_id c') (tc_id c)) (db_comments (dd_task db)) = Some c ->
  List.find (fun t => String.eqb (tk_id t) (tc_task c)) (dd_tasks db) = Some t ->
  List.find (fun a => equals (tk_assignee t) (ar_id a)) (dd_agents db) = Some a ->
  adminCommentSql (dd_task db) (Some (tk_team t)) c = true -> tc_chosen_at c = None -> tc_task c <> "" ->
  teamOfTask (dd_task db) (tk_id t) = Some (tk_team t) -> notice_stands db (tk_id t) (tk_team t) (tc_created c) ->
  (forall r, In r (startedOn (dd_task db) (tk_id t)) -> startedAt r < tc_created c) ->
  ar_id a ∉ alreadyWoken -> effort !! "task_id" = None -> effort !! "comment_id" = None -> effort !! "triggered_by" = None ->
  NoDup (List.map w_id (dd_wakes db)) ->
  (forall w, In w (dd_wakes db) -> w_key w <> Some ("resume:" +:+ tk_id t +:+ ":" +:+ tc_id c)) ->
  let '(db', woken) := resumeHeldTaskOnAdminReply render fresh (tk_id t) teamId (tc_id c) alreadyWoken effort db in
  woken = Some (ar_slug a) /\
  (exists w, In w (dd_wakes db') /\ w_status w = Queued /\ w_member w = ar_id a /\
     w_payload w !! "task_id" = Some (JStr (tk_id t)) /\ w_payload w !! "comment_id" = Some (JStr (tc_id c)) /\
     ((forall e, In e (dd_wakes db) -> coalescable render (ar_id a) (Some (tk_id t)) e = true -> keepsExemption e) ->
      dispatchSuppression render floorMin (ar_id a) (tk_id t)
        (dispatchSuppressionExempt render (dd_task db') (ar_id a) teamId (Some (tk_id t)) (w_source w) (w_payload w) (Some (w_id w))) db' = None)) /\
  (forall memberId exemption s, dispatchSuppression render floorMin memberId (tk_id t) exemption db' = Some s -> su_reason s ∈ SOFT_HOLDS).
Proof.
  intros Hc Ht Ha Hadmin Hchosen Hne Hteam Hnotice Hruns Hnew He1 He2 He3 Hnd Hkey.
  assert (answeredAt c = tc_created c) as Hat by (unfold answeredAt; by rewrite Hchosen).
  assert (tk_id t = tc_task c) as Htc by (by apply find_some in Ht as [_ Ht%String.eqb_eq]).
  unfold resumeHeldTaskOnAdminReply. rewrite (heldTarget_found db c t a) by (try done; by rewrite Hat).
  rewrite bool_decide_false by done. set (payload := effort ∪ _). set (key := Some ("resume:" +:+ _)).
  assert (payload !! "task_id" = Some (Some (JStr (tk_id t))) /\ payload !! "comment_id" = Some (Some (JStr (tc_id c)))
          /\ payload !! "triggered_by" = None) as (P1 & P2 & P3).
  { subst payload. split_and!; rewrite lookup_union_r by done; [by rewrite lookup_insert_ne, lookup_insert_eq| |];
      rewrite !lookup_insert_ne by done; by rewrite ?lookup_singleton_eq, ?lookup_singleton_ne. }
  pose proof (createWakeup_origin render (dd_now db) (fresh (dd_wakes db)) (ar_id a) teamId Comment payload key None (dd_wakes db) Hnd) as Ho.
  specialize (Ho ltac:(intros w k Hw E; rewrite <- E; by apply Hkey)). destruct Ho as (w & Hin & Hq & Hm & Horigin).
  set (t' := fst (createWakeup _ _ _ _ _ _ _ _ _ _ _)) in *. set (db' := put_wakes t' db).
  assert (adminWord (dd_task db') (tk_id t) (tk_team t) (tc_created c)) as Hword
    by (exists c; split_and!; [by apply find_some in Hc as [Hc _]|done|by left]).
  assert (tk_id t <> "") as Hne' by (by rewrite Htc).
  split_and!; [done| |].
  - exists w. split; [exact Hin|]. split; [done|]. split; [done|].
    assert (carries payload None w) as Hcar
      by (destruct Horigin as [[_ Hp]|(e & _ & _ & _ & Hp)]; [by apply stringify_carries|by apply (mergedPayload_carries e)]).
    split_and!.
    + destruct (Hcar "task_id" (JStr (tk_id t)) P1) as (s & Hs & [->|(x & y & [=] & _)]); done.
    + destruct (Hcar "comment_id" (JStr (tc_id c)) P2) as (s & Hs & [->|(x & y & [=] & _)]); done.
    + intros Hrows. rewrite (admin_word_exempts render _ (tk_id t) (tk_team t) (tc_created c)); try done; [apply full_exemption_not_held| |].
      * destruct Horigin as [[-> _]|(e & He & Hco & -> & _)]; [done|]. apply folded_conversational, (Hrows e He).
        unfold payloadTask in Hco. by rewrite P1 in Hco.
      * destruct Horigin as [[_ ->]|(e & He & Hco & _ & ->)].
        -- unfold stringify. by rewrite lookup_omap, P3.
        -- unfold mergedPayload, mergePayloads. cbn [truthy]. rewrite lookup_merge, P3. unfold payloadTask in Hco. rewrite P1 in Hco.
           destruct (Hrows e He Hco) as (_ & _ & Hp). by destruct (w_payload e !! "triggered_by") as [[]|].
  - intros memberId exemption s.
    destruct (held_lifted render (dd_task db') (tk_id t) (tk_team t) (tc_created c)) as (H1 & H2 & H3); try done. by apply soft_only.
Qed.

(** ** Concrete dispatches *)

Definition demo_now : Z := 1000 * US_PER_SEC.
Definition demo_press : Json := JObj [("api_key_id", JStr "key")].
Definition demo_request (status : WakeupStatus) : Wakeup :=
  mkWakeup "w1" "dev" "team" Mention (<["task_id" := JStr "T"]> {["triggered_by" := demo_press]}) status None None 0 0 None None
    None None None None.
Definition demo_mention : Wakeup :=
  mkWakeup "w2" "dev" "team" Mention {["task_id" := JStr "T"]} Queued None None 0 0 None None None None None None.
Definition demo_taskrow : TaskRow := mkTaskRow "T" "P" "team" (Some "dev") InProgress Medium 0.
Definition demo_arow : AgentRow := mkAgentRow "dev" "engineer" true true.
Definition demo_project (repo : option string) : ProjectState :=
  mkProjectState (mkProjectRow "P" "team" None false None) false repo false.
Definition demo_limit (weekly : Z) : BudgetDb :=
  mkBudgetDb [mkUsage "dev" None (Some "P") 600 500 demo_now "run" None None] [mkBudgetAgent "dev" "dev" (demo_limits 0 weekly 0) Idle None ∅]
    [] [] None None None demo_now (demo_now / 1000).

Definition demo_dispatch (wakes : Table) (comments : list TaskComment) (locks : list ExecutionLock) (budget : BudgetDb)
    (repo : option string) : DispatchDb :=
  mkDispatch (mkTaskDb [] comments wakes [] [("T", "team")] ["boss"] [] [] None) locks budget [demo_arow] [demo_project repo]
    [demo_taskrow] [] demo_instance initial.

Notation demo_activate := (activateAgent (fun _ => "") 60 (fun _ => "c9") (fun _ => "k9") (fun _ _ db => (db, Dispatched))
  (fun _ _ => None)).
Notation demo_now_dispatch := (dispatchWakeupNow (fun _ => "") 60 (fun _ => "c9") (fun _ => "k9")
  (fun _ _ db => (db, Dispatched)) (fun _ _ => None)).

Definition demo_open : DispatchDb := demo_dispatch [demo_request Claimed; demo_mention] [] [] (demo_limit 0) (Some "repo").

Lemma activation_iff_gates_open_witness :
  let '(db', r) := demo_activate "dev" "team" "w1" (w_payload (demo_request Claimed)) Mention true demo_open in
  r = Launched /\ exists a t p v,
    gates_open (fun _ => "") 60 "dev" "team" "w1" (w_payload (demo_request Claimed)) Mention "T" demo_open a t p v /\
    launched_on (fun _ => "") (ar_id a) "w1" t db'.
Proof.
  assert (snd (demo_activate "dev" "team" "w1" (w_payload (demo_request Claimed)) Mention true demo_open) = Launched) as Hr by reflexivity.
  pose proof (activation_iff_gates_open (fun _ => "") 60 (fun _ => "c9") (fun _ => "k9") (fun _ _ db => (db, Dispatched))
                (fun _ _ => None) "dev" "team" "w1" (w_payload (demo_request Claimed)) Mention true "T" demo_open eq_refl) as H.
  destruct (activateAgent _ _ _ _ _ _ _ _ _ _ _ _ _) as [db' r]. cbn [snd] in Hr. destruct H as [_ H]. split; [exact Hr|].
  by apply H.
Defined.

Definition demo_queue : DispatchDb := demo_dispatch [demo_request Queued] [] [] (demo_limit 0) None.

Lemma run_now_never_dropped_witness :
  let '(db', r) := demo_now_dispatch true "w1" demo_queue in still_owed "w1" db' /\ r <> NowRefused "held".
Proof.
  apply (run_now_never_dropped (fun _ => "") 60 (fun _ => "c9") (fun _ => "k9") (fun _ _ db => (db, Dispatched))
           (fun _ _ => None) true (demo_request Queued) demo_arow demo_taskrow "T" demo_queue);
    try reflexivity; try discriminate.
Defined.

Definition demo_notice : TaskComment := mkTaskComment "n1" "T" 50 None None None None None None false SystemComment (Some "handoff_limit").
Definition demo_reply : TaskComment := mkTaskComment "c1" "T" 90 None None (Some "boss") None None None false TextComment None.
Definition demo_heldtask : DispatchDb := demo_dispatch [] [demo_notice; demo_reply] [] (demo_limit 0) None.

Lemma admin_reply_resumes_task_witness :
  let '(db', woken) := resumeHeldTaskOnAdminReply (fun _ => "") (fun _ => "w7") "T" "team" "c1" [] ∅ demo_heldtask in
  woken = Some "engineer" /\ exists w, In w (dd_wakes db') /\ w_status w = Queued /\ w_member w = "dev".
Proof.
  pose proof (admin_reply_resumes_task (fun _ => "") (fun _ => "w7") 60 demo_heldtask demo_reply demo_taskrow demo_arow "team"
                [] ∅) as H.
  cbn [tk_id demo_taskrow tc_id demo_reply] in H.
  destruct (resumeHeldTaskOnAdminReply _ _ _ _ _ _ _ _) as [db' woken].
  assert (notice_stands demo_heldtask "T" "team" 90) as Hn.
  { exists demo_notice, "handoff_limit". split; [by left|]. do 3 (split; [reflexivity|]). split; [by left|]. split; [done|].
    intros t (c & [<-|[<-|[]]] & _ & [[Ha ->]|[Ha Hc]]) Hlt; done. }
  destruct H as (Hw & (w & Hin & Hq & Hm & _) & _);
    [reflexivity|reflexivity|reflexivity|reflexivity|reflexivity|discriminate|reflexivity|exact Hn|by intros r []|
     by apply not_elem_of_nil|reflexivity|reflexivity|reflexivity|constructor|by intros w []|].
  split; [exact Hw|]. exists w. by split_and!.
Defined.

Lemma capacity_twins_agree_witness : (fun v => (cv_blocked v, cv_hours v)) <$> isContainerCapacityBlocked (Some "P") demo_open
  = (fun v => (v_blocked v, v_hoursExhausted v))
    <$> containerCapacityVerdictInDb (gateView demo_open) (bd_now (dd_budget demo_open)) (bd_jsNow (dd_budget demo_open)) "P".
Proof. apply (capacity_twins_agree "P" demo_open); [discriminate|reflexivity]. Defined.

(** A lock a finished run left behind: no run is active, the wakeup is parked with no reason a
    release looks for, and it is still parked once the lock has been healed. *)
Definition demo_locked : DispatchDb :=
  demo_dispatch [demo_request Queued] [] [mkLock "k1" "T" "dev" 0 None] (demo_limit 0) (Some "repo").
Lemma stale_lock_strands_wakeup :
  let db := fst (demo_now_dispatch true "w1" demo_locked) in
  let healed := healStaleRunState (fun _ => 0) (mkOrphanDb [] (dd_wakes db) (dd_locks db) (dd_budget db) [] []) in
  wakeupStatus "w1" db = Some Deferred /\
  List.map el_released (od_locks healed) = [Some demo_now] /\
  List.map w_status (od_wakes healed) = [Deferred] /\
  wakeupStatus "w1" (releaseSatisfiedDeferrals (fun _ => "") (put_wakes (od_wakes healed) db)) = Some Deferred /\
  existsb (parkedOn (fun _ => "") "dev" "T") (od_wakes healed) = false.
Proof. repeat split; reflexivity. Qed.

(** Run now answers that it dispatched a wakeup it parked on the missing repository. *)
Definition demo_norepo : DispatchDb :=
  demo_dispatch [mkWakeup "w1" "dev" "team" OnDemand (<["task_id" := JStr "T"]> {["triggered_by" := demo_press]}) Queued None None
                   0 0 None None None None None None] [] [] (demo_limit 0) None.
Lemma run_now_reports_a_parked_wakeup :
  snd (demo_now_dispatch true "w1" demo_norepo) = NowDispatched /\
  wakeupStatus "w1" (fst (demo_now_dispatch true "w1" demo_norepo)) = Some Deferred /\
  size (runningTasks (dd_jobs (fst (demo_now_dispatch true "w1" demo_norepo)))) = 0%nat.
Proof. repeat split; reflexivity. Qed.

(** A wakeup met over budget stays claimed, and the healing pass puts it back in the queue two
    minutes later, to meet the same gate again. *)
Definition demo_spent : DispatchDb := demo_dispatch [demo_request Queued] [] [] (demo_limit 1000) (Some "repo").
Lemma over_budget_wakeup_comes_back :
  let '(db, r) := demo_now_dispatch true "w1" demo_spent in
  let later := mkBudgetDb [] (bd_agents (dd_budget db)) [] [] None None None (demo_now + 121 * US_PER_SEC) 0 in
  r = NowRefused "over_budget" /\ wakeupStatus "w1" db = Some Claimed /\
  List.map w_status (od_wakes (healStaleRunState (fun _ => 0) (mkOrphanDb [] (dd_wakes db) (dd_locks db) later [] []))) = [Queued].
Proof. vm_compute. done. Qed.
