(* ===== verification/TaskWrites.v ===== *)
(** * Writes to tasks

    A model of the update routes of a task and of what follows them: [PATCH] and the dependency
    routes of [packages/server/src/routes/tasks.ts], [update_task], [add_task_blocker] and
    [remove_task_blocker] of [mcp/tools.ts], [services/tasks.ts] (creation, one task or a batch),
    [services/task-automation.ts], [lib/assignment-hierarchy.ts], [lib/reassign-guard.ts],
    [lib/run-scope.ts] and the gates on closing of [lib/task-relationships.ts]. The state is the
    tree of [TaskTree.v] with the agents, members, comments and approvals the gates read. A write
    is one step; work it starts in the background runs where it is started. Columns that no rule
    reads (title, priority, rules), the goals, the broadcasts, the chat receipts, worktrees and the
    termination of runs are left out. *)
From Stdlib Require Import ZArith Lia Ascii String List Bool.
From stdpp Require Import base list strings gmap option relations.
From S2P Require Import Dispatcher.
From S2P Require Import Prelude JsString JsNumber Sql Wakeups Dependencies RunRows Holds TaskTree.

Open Scope string_scope.
Open Scope list_scope.
Open Scope Z_scope.

Definition DEFAULT_TEAM_ID : string := "00000000-0000-0000-0000-000000000001".
Definition OAUTH_VERIFICATION_LABEL : string := "oauth-verification".
Definition COHERENCE_LABEL : string := "team-coherence-review".
Definition PING_WAKEUP_SOURCES : list WakeupSource := [Mention; Comment; Reply].
Definition ACTIVE_WAKEUP_STATUSES : list WakeupStatus := [Queued; Claimed; Deferred].

(** ** The state *)

(** The columns of [member_agents] beside the ids [World] has. *)
Record AgentInfo := mkAgentInfo {
  an_slug : string; an_humanSlug : option string; an_reportsTo : option string; an_enabled : bool; an_setupReview : option string
}.
(** [ap_task] is [payload->>'task_id']. *)
Record TaskApproval := mkTaskApproval {
  ap_id : string; ap_team : string; ap_task : option string; ap_pending : bool; ap_suggestion : bool; ap_byApiKey : bool
}.

(** [bd_members] are the members with their teams. Of [bd_talk] the comments, the mentions and the
    start of attributed choices are read; [bd_cards] are comments with the approval they show, and
    [bd_texts] the text of those posted here. *)
Record Board := mkBoard {
  bd_tree : TreeDb; bd_agents : gmap string AgentInfo; bd_members : list (string * string); bd_talk : TaskDb;
  bd_cards : list (string * string); bd_approvals : list TaskApproval; bd_texts : list (string * string)
}.
Definition bw (b : Board) : World := td_world (bd_tree b).
Definition onTree (f : TreeDb -> TreeDb) (b : Board) : Board :=
  mkBoard (f (bd_tree b)) (bd_agents b) (bd_members b) (bd_talk b) (bd_cards b) (bd_approvals b) (bd_texts b).
Definition onTreeWorld (f : World -> World) (db : TreeDb) : TreeDb := mkTreeDb (f (td_world db)) (td_info db).
Definition onWorld (f : World -> World) : Board -> Board := onTree (onTreeWorld f).
Definition with_deps (ds : list (string * string)) (W : World) : World :=
  Dependencies.mkWorld (tasks W) ds (wakes W) (activeRuns W) (agents W) (comments W) (nextId W).

Definition isAgent (W : World) (id : string) : bool := bool_decide (id ∈ agents W).
(** A row of [member_agents]. *)
Definition agentRow (b : Board) (id : string) : option AgentInfo := if isAgent (bw b) id then bd_agents b !! id else None.
Definition memberTeam (b : Board) (id : string) : option string := snd <$> List.find (fun m => String.eqb (fst m) id) (bd_members b).
(** The first agent, in the order of the table, of which [p] holds. *)
Definition findAgent (p : string -> AgentInfo -> bool) (b : Board) : option string :=
  List.find (fun id => match agentRow b id with Some i => p id i | None => false end) (agents (bw b)).

Inductive Caller := AgentCaller (memberId : string) (runId taskId : option string) | AdminCaller | ApiKeyCaller (keyId : string).
Definition callerMember (c : Caller) : option string := match c with AgentCaller m _ _ => Some m | _ => None end.
Definition callerRun (c : Caller) : option string := match c with AgentCaller _ r _ => r | _ => None end.
Definition callerApiKey (c : Caller) : option string := match c with ApiKeyCaller k => Some k | _ => None end.

Inductive WriteError :=
| TaskNotFound
| InvalidInput
| SqlError
| OpenSubTasks (named : list (string * TaskStatus))
| OutstandingActivity
| UnansweredAdmin
| PendingSuggestions
| ReopenDenied
| OutOfScope
| AssigneeNull
| AssigneeRequired
| AssigneeNotFound
| OutsideTeam
| NotSubordinate (slug : string)
| BlockingRun
| ParentRefused (p : ParentProblem)
| BlockerNotFound
| BlocksItself
| Cycle
| DependencyExists
| DependencyNotFound
| BadBatchReference.

Definition check (b : bool) (e : WriteError) : result WriteError unit := if b then Ok tt else Throw e.
Definition parentCheck {A} (r : result ParentProblem A) : result WriteError A := match r with Ok a => Ok a | Throw p => Throw (ParentRefused p) end.

(** ** Gates *)

Definition isOutsideTeam (b : Board) (agentMemberId teamId : string) : bool :=
  match memberTeam b agentMemberId with Some t => negb (String.eqb t teamId) | None => false end.

Definition assertSubordinateAssignee (b : Board) (callerMemberId assigneeId taskTeamId : string) : result WriteError unit :=
  if String.eqb callerMemberId assigneeId then Ok tt
  else
    match agentRow b assigneeId with
    | None => Ok tt
    | Some row =>
        if bool_decide (an_reportsTo row = Some callerMemberId) then Ok tt
        else if negb (String.eqb taskTeamId "") && isOutsideTeam b callerMemberId taskTeamId then Throw OutsideTeam
        else Throw (NotSubordinate (an_slug row))
    end.

(** [IS DISTINCT FROM] a member that may be unknown. *)
Definition distinctFrom (m : string) (other : option string) : bool := negb (bool_decide (other = Some m)).

Definition assertNoBlockingRun (b : Board) (taskId : string) (callerMemberId incomingAssigneeId : option string) : bool :=
  negb (existsb (fun r => String.eqb (snd r) taskId && notNull (memberTeam b (fst r))
                          && distinctFrom (fst r) callerMemberId && distinctFrom (fst r) incomingAssigneeId) (activeRuns (bw b))).

Section Writes.
Variable render : Json -> string.
Variable uuid : nat -> string.

Definition pingOn (taskId : string) (callerMemberId : option string) (w : Wakeup) : bool :=
  bool_decide (text render (w_payload w) "task_id" = Some taskId) && distinctFrom (w_member w) callerMemberId
  && bool_decide (w_source w ∈ PING_WAKEUP_SOURCES) && bool_decide (w_status w ∈ ACTIVE_WAKEUP_STATUSES).
Definition assertNoOutstandingActivity (W : World) (taskId : string) (callerMemberId : option string) : bool :=
  negb (existsb (fun r => String.eqb (snd r) taskId && distinctFrom (fst r) callerMemberId) (activeRuns W))
  && negb (existsb (pingOn taskId callerMemberId) (wakes W)).

(** An approval an API key decided, shown on the card. *)
Definition cardByApiKey (b : Board) (card : TaskComment) : bool :=
  existsb (fun p => String.eqb (fst p) (tc_id card) && existsb (fun a => String.eqb (ap_id a) (snd p) && ap_byApiKey a) (bd_approvals b)) (bd_cards b).
Definition textReply (ask reply : TaskComment) : bool :=
  bool_decide (tc_type reply = TextComment) && negb (notNull (tc_member reply)) && (tc_created ask <? tc_created reply).
Definition cardAnswer (b : Board) (ask card : TaskComment) : bool :=
  match tc_chosen_at card with Some at_ => tc_created ask <? at_ | None => false end && (personChoiceSql (bd_talk b) card || cardByApiKey b card).
Definition unansweredAsk (b : Board) (taskId : string) (ask : TaskComment) : bool :=
  onTask taskId ask && existsb (fun m => String.eqb (fst m) (tc_id ask)) (db_mentions (bd_talk b)) && bool_decide (tc_type ask = TextComment)
  && negb (existsb (fun c => onTask taskId c && textReply ask c) (db_comments (bd_talk b)))
  && negb (existsb (fun c => onTask taskId c && cardAnswer b ask c) (db_comments (bd_talk b))).
Definition assertNoUnansweredAdminMentions (b : Board) (taskId : string) : bool := negb (existsb (unansweredAsk b taskId) (db_comments (bd_talk b))).

Definition pendingSuggestion (W : World) (taskId : string) (a : TaskApproval) : bool :=
  existsb (fun t => isTask taskId t && String.eqb (t_team t) (ap_team a)) (tasks W) && ap_pending a && ap_suggestion a && bool_decide (ap_task a = Some taskId).
Definition assertNoPendingTaskSuggestions (b : Board) (taskId : string) : bool := negb (existsb (pendingSuggestion (bw b) taskId) (bd_approvals b)).

Definition assertRunTaskScope (c : Caller) (targetTaskId : string) (nextStatus : option TaskStatus) : bool :=
  match c with
  | AgentCaller _ _ taskId =>
      if negb (bool_decide (nextStatus = Some InProgress)) then true
      else match truthy taskId with None => true | Some id => String.eqb id targetTaskId end
  | _ => true
  end.

(** ** Automation *)

Definition wakeRow (now : Z) (memberId teamId : string) (source : WakeupSource) (payload : JsPayload) (key run : option string) (W : World) : World :=
  with_wakes (fst (createWakeup render quiet now (uuid (nextId W)) memberId teamId source payload key run (wakes W))) (S (nextId W)) W.
Definition wakeAssigned (now : Z) (assigneeId : option string) (teamId taskId : string) (source : WakeupSource) (extra : JsPayload) (run : option string)
    (W : World) : World :=
  with_wakes (wakeAgentIfAssigned render (agents W) quiet now (uuid (nextId W)) assigneeId teamId taskId source extra run (wakes W)) (S (nextId W)) W.

Definition childrenClosed (teamId taskId : string) (db : TreeDb) : bool :=
  match assertChildrenAllClosed db teamId taskId with Ok _ => true | Throw _ => false end.

Definition wakeTaskIfChildrenClosed (now : Z) (teamId parentTaskId : string) (run : option string) (db : TreeDb) : TreeDb :=
  if negb (childrenClosed teamId parentTaskId db) then db
  else
    match taskOf parentTaskId (td_world db) with
    | None => db
    | Some p =>
        match truthy (t_assignee p) with
        | None => db
        | Some a =>
            if negb (isAgent (td_world db) a) then db
            else onTreeWorld (wakeRow now a (t_team p) Assignment
                   (<["task_id" := Some (JStr parentTaskId)]> {["reason" := Some (JStr "children_closed")]}) (Some ("children-closed:" +:+ parentTaskId)) run) db
        end
    end.
Definition wakeParentIfChildrenClosed (now : Z) (teamId taskId : string) (run : option string) (db : TreeDb) : TreeDb :=
  match head (seed db teamId taskId) with
  | None => db
  | Some t => match truthy (parentId db (t_id t)) with Some p => wakeTaskIfChildrenClosed now teamId p run db | None => db end
  end.

Definition markerChar (c : ascii) : bool :=
  let n := code c in ((97 <=? n) && (n <=? 122)) || isDigit c || Ascii.eqb c "_" || Ascii.eqb c "-".
Fixpoint takeMarker (s : string) : string :=
  match s with String c s => if markerChar c then String c (takeMarker s) else "" | EmptyString => "" end.
Fixpoint dropChars (n : nat) (s : string) : string := match n, s with S n, String _ s => dropChars n s | _, _ => s end.
Definition OAUTH_MARKER : string := "oauth-verify platform=".
(** [OAUTH_MARKER_RE]: the first place where the marker is followed by a name. *)
Fixpoint matchMarker (s : string) : option string :=
  let here := if startsWith s OAUTH_MARKER then truthy (Some (takeMarker (dropChars (String.length OAUTH_MARKER) s))) else None in
  match here, s with
  | Some p, _ => Some p
  | None, String _ s => matchMarker s
  | None, EmptyString => None
  end.

(** The last two are what an object literal inherits. *)
Definition platformNames : list (string * string) :=
  [("github", "GitHub"); ("gmail", "Gmail"); ("gitlab", "GitLab"); ("stripe", "Stripe"); ("posthog", "PostHog"); ("railway", "Railway");
   ("vercel", "Vercel"); ("digitalocean", "DigitalOcean"); ("x", "X"); ("anthropic", "Anthropic"); ("openai", "OpenAI"); ("google", "Google");
   ("constructor", "function Object() { [native code] }"); ("__proto__", "[object Object]")].
Definition platformDisplayName (platform : string) : string :=
  default platform (snd <$> List.find (fun p => String.eqb (fst p) platform) platformNames).

(** A text comment, under an id of the database. *)
Definition postComment (now : Z) (taskId : string) (author : option string) (body : string) (b : Board) : Board :=
  let id := uuid (nextId (bw b)) in
  let c := mkTaskComment id taskId now None author None None None None false TextComment None in
  let b := onWorld (fun W => with_wakes (wakes W) (S (nextId W)) W) b in
  mkBoard (bd_tree b) (bd_agents b) (bd_members b) (with_comments (db_comments (bd_talk b) ++ [c]) (bd_talk b)) (bd_cards b) (bd_approvals b) ((id, body) :: bd_texts b).

Definition notifyParentOfOAuthVerification (now : Z) (teamId taskId : string) (run : option string) (b : Board) : Board :=
  match head (seed (bd_tree b) teamId taskId) with
  | None => b
  | Some t =>
      match td_info (bd_tree b) !! t_id t with
      | None => b
      | Some row =>
          match truthy (ti_parent row) with
          | None => b
          | Some parent =>
              if negb (bool_decide (OAUTH_VERIFICATION_LABEL ∈ ti_labels row)) then b
              else
                let platform := default "external" (matchMarker (ti_description row)) in
                let captain := findAgent (fun id i => bool_decide (memberTeam b id = Some teamId) && String.eqb (an_slug i) CAPTAIN_AGENT_SLUG && an_enabled i) b in
                let b := postComment now parent captain
                           (platformDisplayName platform +:+ " connector is set up and verified. You can resume work here.") b in
                match truthy captain with
                | None => b
                | Some c => onWorld (wakeRow now c teamId Automation
                              (<["task_id" := Some (JStr parent)]> {["trigger" := Some (JStr "oauth_verified")]}) None run) b
                end
          end
      end
  end.

(** [coachReviewsTaskSql] on the row of the task. *)
Definition coachReviews (b : Board) (taskId : string) : bool :=
  match taskOf taskId (bw b), td_info (bd_tree b) !! taskId with
  | Some _, Some i => negb (bool_decide (COHERENCE_LABEL ∈ ti_labels i))
  | _, _ => false
  end.
Definition wakeCoach (now : Z) (teamId taskId : string) (run : option string) (b : Board) : Board :=
  match findAgent (fun _ i => String.eqb (an_slug i) COACH_AGENT_SLUG && an_enabled i && coachReviews b taskId) b with
  | None => b
  | Some coach => onWorld (wakeRow now coach teamId Automation
                    (<["task_id" := Some (JStr taskId)]> {["trigger" := Some (JStr COACH_REVIEW_TRIGGER)]}) None run) b
  end.

Definition triggerStatusAutomations (now : Z) (teamId taskId : string) (oldStatus newStatus : TaskStatus) (actor apiKey run : option string) (b : Board)
    : Board :=
  let b := onWorld (recordStatusChange taskId oldStatus newStatus actor apiKey None) b in
  let b := if Bool.eqb (taskTerminal oldStatus) (taskTerminal newStatus) then b
           else onWorld (recomputeDownstreamReadiness render uuid now taskId actor run) b in
  let b := if taskTerminal newStatus then onTree (wakeParentIfChildrenClosed now teamId taskId run) b else b in
  if bool_decide (newStatus = Done) then notifyParentOfOAuthVerification now teamId taskId run (wakeCoach now teamId taskId run b) else b.

(** ** Updates *)

(** The requested columns; [None] is a field that was not sent. *)
Record TaskPatch := mkPatch { up_status : option TaskStatus; up_assignee : option (option string); up_parent : option (option string) }.
Record TaskChange := mkChange { ch_before : Task; ch_after : Task; ch_parentBefore : option string; ch_parentAfter : option string }.

Definition setAssignee (id : string) (a : option string) (ts : list Task) : list Task :=
  List.map (fun t => if isTask id t then mkTask (t_id t) (t_status t) a (t_team t) (t_identifier t) (t_project_slug t) else t) ts.
(** The three columns of one [UPDATE]; the assignee is a member, or the statement fails. *)
Definition storeTask (t : Task) (status : TaskStatus) (assignee : option string) (parent : option (option string)) (b : Board)
    : result WriteError (TaskChange * Board) :=
  if match assignee with Some a => negb (bool_decide (t_assignee t = Some a)) && negb (notNull (memberTeam b a)) | None => false end then Throw SqlError
  else
    let db := bd_tree b in
    let W := with_tasks (setAssignee (t_id t) assignee (setTaskStatus (t_id t) status (tasks (td_world db)))) (td_world db) in
    let db' := mkTreeDb W (td_info db) in
    let db' := match parent with Some p => setParent (t_id t) p db' | None => db' end in
    Ok (mkChange t (mkTask (t_id t) status assignee (t_team t) (t_identifier t) (t_project_slug t)) (parentId db (t_id t))
          (default (parentId db (t_id t)) parent), onTree (fun _ => db') b).

Definition childrenGate (teamId taskId : string) (db : TreeDb) : result WriteError unit :=
  match assertChildrenAllClosed db teamId taskId with Ok _ => Ok tt | Throw l => Throw (OpenSubTasks l) end.
Definition requestedParent (teamId : string) (t : Task) (raw : option (option string)) (db : TreeDb) : result WriteError (option (option string)) :=
  match raw with
  | None => Ok None
  | Some raw => let! r := parentCheck (resolveParentAssignment db teamId (subjectOf db t) raw) in Ok (if snd r then Some (fst r) else None)
  end.
Definition requestedStatus (W : World) (t : Task) (status : option TaskStatus) : TaskStatus :=
  match status with Some s => coerceTargetStatusForBlockers W (t_id t) s | None => t_status t end.

(** The transaction of [PATCH]. *)
Definition patchRow (teamId taskId : string) (u : TaskPatch) (b : Board) : result WriteError (TaskChange * Board) :=
  match head (seed (bd_tree b) teamId taskId) with
  | None => Throw TaskNotFound
  | Some t =>
      let closing := bool_decide (up_status u = Some Done) && negb (bool_decide (t_status t = Done)) in
      let! _ := if closing then childrenGate teamId taskId (bd_tree b) else Ok tt in
      let! _ := if closing then check (assertNoOutstandingActivity (bw b) taskId None) OutstandingActivity else Ok tt in
      let! parent := requestedParent teamId t (up_parent u) (bd_tree b) in
      let! assignee := match up_assignee u with
                       | None => Ok (t_assignee t)
                       | Some None => Throw AssigneeNull
                       | Some (Some a) =>
                           let! _ := if bool_decide (t_assignee t = Some a) then Ok tt else check (assertNoBlockingRun b taskId None (Some a)) BlockingRun in
                           Ok (Some a)
                       end in
      storeTask t (requestedStatus (bw b) t (up_status u)) assignee parent b
  end.

Definition formerParentWoken (now : Z) (teamId : string) (ch : TaskChange) (run : option string) (b : Board) : Board :=
  if bool_decide (ch_parentBefore ch = ch_parentAfter ch) then b
  else match truthy (ch_parentBefore ch) with Some p => onTree (wakeTaskIfChildrenClosed now teamId p run) b | None => b end.
Definition statusAutomated (now : Z) (teamId : string) (ch : TaskChange) (actor apiKey run : option string) (b : Board) : Board :=
  let s := t_status (ch_before ch) in let s' := t_status (ch_after ch) in
  if bool_decide (s = s') then b else triggerStatusAutomations now teamId (t_id (ch_after ch)) s s' actor apiKey run b.

Definition afterPatch (now : Z) (teamId : string) (ch : TaskChange) (actor apiKey : option string) (b : Board) : Board :=
  let before := ch_before ch in let after := ch_after ch in
  let b := if notNull (truthy (t_assignee after)) && negb (bool_decide (t_assignee after = t_assignee before))
           then onWorld (wakeAssigned now (t_assignee after) teamId (t_id after) Assignment ∅ None) b else b in
  let b := if negb (bool_decide (t_status before = t_status after)) && taskTerminal (t_status before) && negb (taskTerminal (t_status after))
           then onWorld (wakeAssigned now (t_assignee before) teamId (t_id after) Automation {["trigger" := Some (JStr "task_reopened")]} None) b else b in
  statusAutomated now teamId ch actor apiKey None (formerParentWoken now teamId ch None b).

(** [PATCH] of a task. *)
Definition patchTask (now : Z) (teamId rawTask : string) (u : TaskPatch) (actor apiKey : option string) (b : Board) : result WriteError Board :=
  match resolveTaskId (bd_tree b) teamId rawTask with
  | None => Throw TaskNotFound
  | Some taskId => let! r := patchRow teamId taskId u b in Ok (afterPatch now teamId (fst r) actor apiKey (snd r))
  end.

(** [resolveTaskScope] once its project is known. *)
Definition findProjectTask (db : TreeDb) (teamId project raw : string) : option Task :=
  match resolveTaskId db teamId raw with
  | None => None
  | Some id => match head (seed db teamId id) with
               | Some t => if bool_decide (projectId db (t_id t) = Some project) then Some t else None
               | None => None
               end
  end.

Definition betterAgent (b : Board) (teamId raw : string) (x y : string) : Z :=
  let rank id := (if bool_decide (memberTeam b id = Some teamId) then 0 else 2)
                 + (if match agentRow b id with Some i => String.eqb (an_slug i) raw | None => false end then 0 else 1) in
  rank x - rank y.
Definition answersTo (b : Board) (teamId raw id : string) : bool :=
  match agentRow b id, memberTeam b id with
  | Some i, Some team => (if isUuid raw then String.eqb id raw else String.eqb (an_slug i) raw || bool_decide (an_humanSlug i = Some raw))
                         && (String.eqb team teamId || String.eqb team DEFAULT_TEAM_ID)
  | _, _ => false
  end.
Definition resolveAgentId (b : Board) (teamId raw : string) : option string :=
  head (js_sort (betterAgent b teamId raw) (List.filter (answersTo b teamId raw) (agents (bw b)))).
Definition resolveAssigneeId (b : Board) (teamId raw : string) : option string := if isUuid raw then Some raw else resolveAgentId b teamId raw.

(** The transaction of [update_task]; an empty assignee passes the checks and fails the
    statement. *)
Definition updateRow (teamId : string) (c : Caller) (t : Task) (u : TaskPatch) (assignee : option string) (b : Board) : result WriteError (TaskChange * Board) :=
  let taskId := t_id t in
  let fromAgent := notNull (callerMember c) in
  let changing := notNull (up_status u) && negb (bool_decide (up_status u = Some (t_status t))) in
  let closing := bool_decide (up_status u = Some Done) && negb (bool_decide (t_status t = Done)) in
  let! _ := check (negb (changing && fromAgent && taskTerminal (t_status t))) ReopenDenied in
  let! _ := if closing then childrenGate teamId taskId (bd_tree b) else Ok tt in
  let! _ := check (negb closing || assertNoOutstandingActivity (bw b) taskId (callerMember c)) OutstandingActivity in
  let! _ := check (negb (closing && fromAgent) || assertNoUnansweredAdminMentions b taskId) UnansweredAdmin in
  let terminalAsked := match up_status u with Some s => taskTerminal s | None => false end in
  let! _ := check (negb (fromAgent && changing && terminalAsked) || assertNoPendingTaskSuggestions b taskId) PendingSuggestions in
  let! _ := match truthy assignee with
            | Some a =>
                if bool_decide (t_assignee t = Some a) then Ok tt
                else
                  let! _ := check (assertNoBlockingRun b taskId (callerMember c) (Some a)) BlockingRun in
                  match callerMember c with Some m => assertSubordinateAssignee b m a teamId | None => Ok tt end
            | None => Ok tt
            end in
  let! parent := requestedParent teamId t (up_parent u) (bd_tree b) in
  storeTask t (requestedStatus (bw b) t (up_status u)) (match assignee with Some a => Some a | None => t_assignee t end) parent b.

Definition afterUpdate (now : Z) (teamId : string) (c : Caller) (ch : TaskChange) (assignee : option string) (b : Board) : Board :=
  let b := formerParentWoken now teamId ch (callerRun c) b in
  let b := match truthy assignee with
           | Some a => if bool_decide (t_assignee (ch_before ch) = Some a) then b
                       else onWorld (wakeAssigned now (Some a) teamId (t_id (ch_after ch)) Assignment ∅ (callerRun c)) b
           | None => b
           end in
  statusAutomated now teamId ch (callerMember c) (callerApiKey c) (callerRun c) b.

(** [update_task], in the project of its scope. *)
Definition updateTask (now : Z) (teamId project rawTask : string) (c : Caller) (u : TaskPatch) (b : Board) : result WriteError Board :=
  match findProjectTask (bd_tree b) teamId project rawTask with
  | None => Throw TaskNotFound
  | Some t =>
      let! _ := check (assertRunTaskScope c (t_id t) (up_status u)) OutOfScope in
      let! assignee := match up_assignee u with
                       | None => Ok None
                       | Some None => Throw InvalidInput
                       | Some (Some "") => Ok (Some "")
                       | Some (Some raw) => match resolveAssigneeId b teamId raw with Some a => Ok (Some a) | None => Throw AssigneeNotFound end
                       end in
      let! r := updateRow teamId c t u assignee b in
      Ok (afterUpdate now teamId c (fst r) assignee (snd r))
  end.

(** ** Blockers *)

(** [INSERT ... ON CONFLICT DO NOTHING]: whether a row was added. *)
Definition insertEdge (taskId blockerId : string) (W : World) : result WriteError (bool * World) :=
  if negb (existsb (isTask taskId) (tasks W) && existsb (isTask blockerId) (tasks W)) then Throw SqlError
  else if bool_decide ((taskId, blockerId) ∈ deps W) then Ok (false, W)
  else Ok (true, with_deps ((taskId, blockerId) :: deps W) W).
Definition cycleFree (W : World) (taskId blockerId : string) : bool := bool_decide (wouldCreateCycle (deps W) taskId blockerId = Some false).

(** What both ways to add a blocker do once the task is known. *)
Definition addBlocker (teamId taskId rawBlocker : string) (actor : option string) (b : Board) : result WriteError Board :=
  match resolveTaskId (bd_tree b) teamId rawBlocker with
  | None => Throw BlockerNotFound
  | Some blockerId =>
      if String.eqb blockerId taskId then Throw BlocksItself
      else if negb (cycleFree (bw b) taskId blockerId) then Throw Cycle
      else
        let! r := insertEdge taskId blockerId (bw b) in
        if fst r then Ok (onWorld (fun _ => fst (reconcileBlockedStatus taskId actor None (snd r))) b) else Throw DependencyExists
  end.
(** [POST .../dependencies]. *)
Definition postDependency (teamId rawTask rawBlocker : string) (actor : option string) (b : Board) : result WriteError Board :=
  match resolveTaskId (bd_tree b) teamId rawTask with
  | None => Throw TaskNotFound
  | Some taskId => let! _ := check (negb (String.eqb rawBlocker "")) InvalidInput in addBlocker teamId taskId rawBlocker actor b
  end.
(** [add_task_blocker]. *)
Definition addTaskBlocker (teamId project rawTask rawBlocker : string) (c : Caller) (b : Board) : result WriteError Board :=
  match findProjectTask (bd_tree b) teamId project rawTask with
  | None => Throw TaskNotFound
  | Some t => addBlocker teamId (t_id t) rawBlocker (callerMember c) b
  end.

Definition isEdge (taskId blockerId : string) (d : string * string) : bool := String.eqb (fst d) taskId && String.eqb (snd d) blockerId.
Definition dropEdge (now : Z) (taskId blockerId : string) (actor run : option string) (b : Board) : result WriteError Board :=
  if negb (existsb (isEdge taskId blockerId) (deps (bw b))) then Throw DependencyNotFound
  else
    Ok (onWorld (fun W =>
          let W := with_deps (List.filter (fun d => negb (isEdge taskId blockerId d)) (deps W)) W in
          wakeIfReady render uuid now taskId run (fst (reconcileBlockedStatus taskId actor None W))) b).
(** [DELETE .../dependencies/:depId], the dependency named by its two tasks. *)
Definition deleteDependency (now : Z) (teamId rawTask blockerId : string) (actor : option string) (b : Board) : result WriteError Board :=
  match resolveTaskId (bd_tree b) teamId rawTask with
  | None => Throw TaskNotFound
  | Some taskId =>
      match seed (bd_tree b) teamId taskId with
      | [] => Throw DependencyNotFound
      | _ => dropEdge now taskId blockerId actor None b
      end
  end.
(** [remove_task_blocker]. *)
Definition removeTaskBlocker (now : Z) (teamId project rawTask rawBlocker : string) (c : Caller) (b : Board) : result WriteError Board :=
  match findProjectTask (bd_tree b) teamId project rawTask with
  | None => Throw TaskNotFound
  | Some t => match resolveTaskId (bd_tree b) teamId rawBlocker with
              | None => Throw BlockerNotFound
              | Some blockerId => dropEdge now (t_id t) blockerId (callerMember c) (callerRun c) b
              end
  end.

(** ** Creation *)

Record NewTask := mkNewTask {
  nt_project : string; nt_title : string; nt_description : string; nt_assigneeId : option string; nt_assigneeSlug : option string;
  nt_parent : option string; nt_labels : list string; nt_blockers : list string
}.
(** What the database and the project supply: the id, the identifier allocated, the slug. *)
Record NewRow := mkNewRow { nr_id : string; nr_identifier : string; nr_projectSlug : string }.
Record CreateTaskCaller := mkCreator { cc_actor : option string; cc_agent : option string; cc_run : option string }.

Definition newAssignee (b : Board) (teamId : string) (input : NewTask) (caller : CreateTaskCaller) : result WriteError string :=
  match truthy (nt_assigneeId input), truthy (nt_assigneeSlug input) with
  | Some a, _ => Ok a
  | None, Some slug =>
      match findAgent (fun id i => String.eqb (an_slug i) slug && bool_decide (memberTeam b id = Some teamId)) b with
      | Some a => Ok a
      | None => Throw AssigneeNotFound
      end
  | None, None => Throw (match cc_agent caller with Some m => if isOutsideTeam b m teamId then OutsideTeam else AssigneeRequired | None => AssigneeRequired end)
  end.

Definition pendingSetupReviewBlockerId (b : Board) (memberAgentId : string) : option string :=
  match agentRow b memberAgentId ≫= an_setupReview with
  | None => None
  | Some review => match taskOf review (bw b) with
                   | Some t => if taskTerminal (t_status t) then None else Some (t_id t)
                   | None => None
                   end
  end.

Fixpoint attachBlockers (teamId taskId : string) (seen rawIds : list string) (db : TreeDb) : result WriteError TreeDb :=
  match rawIds with
  | [] => Ok db
  | raw :: rawIds =>
      if String.eqb (trim raw) "" then attachBlockers teamId taskId seen rawIds db
      else
        match resolveTaskId db teamId (trim raw) with
        | None => Throw BlockerNotFound
        | Some blockerId =>
            if String.eqb blockerId taskId then Throw BlocksItself
            else if bool_decide (blockerId ∈ seen) then attachBlockers teamId taskId seen rawIds db
            else if negb (cycleFree (td_world db) taskId blockerId) then Throw Cycle
            else
              let! r := insertEdge taskId blockerId (td_world db) in
              attachBlockers teamId taskId (blockerId :: seen) rawIds (mkTreeDb (snd r) (td_info db))
        end
  end.

(** The transaction of [createTask]. *)
Definition insertRow (now : Z) (row : NewRow) (teamId : string) (input : NewTask) (parent : option string) (assignee : string) (setupBlocker : option string)
    (b : Board) : result WriteError TreeDb :=
  let! _ := check (notNull (memberTeam b assignee) && negb (existsb (isTask (nr_id row)) (tasks (bw b)))) SqlError in
  let t := mkTask (nr_id row) Backlog (Some assignee) teamId (nr_identifier row) (nr_projectSlug row) in
  let db := insertChecked teamId parent t (mkInfo (nt_project input) parent now (nt_labels input) (nt_description input)) (bd_tree b) in
  let! db := attachBlockers teamId (nr_id row) [] (nt_blockers input) db in
  let! db := match truthy setupBlocker with
             | None => Ok db
             | Some s => let! r := insertEdge (nr_id row) s (td_world db) in Ok (mkTreeDb (snd r) (td_info db))
             end in
  Ok (match nt_blockers input, truthy setupBlocker with
      | [], None => db
      | _, _ => if hasOpenBlockers (td_world db) (nr_id row) then onTreeWorld (fun W => with_tasks (setTaskStatus (nr_id row) Blocked (tasks W)) W) db else db
      end).

Definition createTask (now : Z) (row : NewRow) (teamId : string) (input : NewTask) (caller : CreateTaskCaller) (b : Board) : result WriteError Board :=
  let! _ := check (negb (String.eqb (nt_project input) "" || String.eqb (trim (nt_title input)) "")) InvalidInput in
  let! parent := parentCheck (createParent (bd_tree b) teamId (nt_parent input)) in
  let! assignee := newAssignee b teamId input caller in
  let! _ := match truthy (cc_agent caller) with Some m => assertSubordinateAssignee b m assignee teamId | None => Ok tt end in
  let! db := insertRow now row teamId input parent assignee (pendingSetupReviewBlockerId b assignee) b in
  let b := onTree (fun _ => db) b in
  Ok (if isAgent (bw b) assignee
      then onWorld (wakeRow now assignee teamId Assignment {["task_id" := Some (JStr (nr_id row))]} None (cc_run caller)) b else b).

(** [BATCH_INDEX_TOKEN_RE], and the number it captures. *)
Definition batchIndex (s : string) : option Z :=
  match s with
  | String "#" "0" => Some 0
  | String "#" (String d _ as n) => if Ascii.eqb d "0" then None else Number n
  | _ => None
  end.
Definition resolveBatchIndexRef (trimmed : string) (index : nat) (createdIds : list (option string)) : result WriteError string :=
  match batchIndex trimmed with
  | None => Throw BadBatchReference
  | Some ref =>
      if ref >=? Z.of_nat index then Throw BadBatchReference
      else match truthy (default None (createdIds !! Z.to_nat ref)) with Some id => Ok id | None => Throw BadBatchReference end
  end.
Definition resolveBatchRef (raw : string) (index : nat) (createdIds : list (option string)) : result WriteError string :=
  if startsWith (trim raw) "#" then resolveBatchIndexRef (trim raw) index createdIds else Ok raw.
Fixpoint resolveBatchBlockerRefs (rawIds : list string) (index : nat) (createdIds : list (option string)) : result WriteError (list string) :=
  match rawIds with
  | [] => Ok []
  | raw :: rawIds => let! r := resolveBatchRef raw index createdIds in let! l := resolveBatchBlockerRefs rawIds index createdIds in Ok (r :: l)
  end.
Definition resolveBatchParentRef (raw : option string) (index : nat) (createdIds : list (option string)) : result WriteError (option string) :=
  match raw with None => Ok None | Some raw => let! r := resolveBatchRef raw index createdIds in Ok (Some r) end.

Definition createBatchItem (now : Z) (row : NewRow) (teamId : string) (index : nat) (createdIds : list (option string)) (item : NewTask)
    (caller : CreateTaskCaller) (b : Board) : result WriteError Board :=
  let! blockers := resolveBatchBlockerRefs (nt_blockers item) index createdIds in
  let! parent := resolveBatchParentRef (nt_parent item) index createdIds in
  createTask now row teamId (mkNewTask (nt_project item) (nt_title item) (nt_description item) (nt_assigneeId item) (nt_assigneeSlug item) parent
    (nt_labels item) blockers) caller b.
(** The ids of the items so far, [None] for a failed one, grow as the loop goes. *)
Fixpoint createItems (now : Z) (teamId : string) (items : list (NewRow * NewTask)) (caller : CreateTaskCaller) (createdIds : list (option string)) (b : Board)
    : list (option string) * Board :=
  match items with
  | [] => (createdIds, b)
  | (row, item) :: items =>
      match createBatchItem now row teamId (List.length createdIds) createdIds item caller b with
      | Ok b => createItems now teamId items caller (createdIds ++ [Some (nr_id row)]) b
      | Throw _ => createItems now teamId items caller (createdIds ++ [None]) b
      end
  end.
Definition createTaskBatch (now : Z) (teamId : string) (items : list (NewRow * NewTask)) (caller : CreateTaskCaller) (b : Board) : list (option string) * Board :=
  createItems now teamId items caller [] b.

(** ** Sequences of writes *)

Inductive WriteEvent :=
| Patch (now : Z) (teamId rawTask : string) (u : TaskPatch) (actor apiKey : option string)
| Update (now : Z) (teamId project rawTask : string) (c : Caller) (u : TaskPatch)
| PostDependency (teamId rawTask rawBlocker : string) (actor : option string)
| AddTaskBlocker (teamId project rawTask rawBlocker : string) (c : Caller)
| DeleteDependency (now : Z) (teamId rawTask blockerId : string) (actor : option string)
| RemoveTaskBlocker (now : Z) (teamId project rawTask rawBlocker : string) (c : Caller)
| CreateTask (now : Z) (row : NewRow) (teamId : string) (input : NewTask) (caller : CreateTaskCaller)
| CreateTaskBatch (now : Z) (teamId : string) (items : list (NewRow * NewTask)) (caller : CreateTaskCaller).

(** A refused write changes nothing. *)
Definition orKeep (b : Board) (r : result WriteError Board) : Board := match r with Ok b' => b' | Throw _ => b end.
Definition writeStep (b : Board) (e : WriteEvent) : Board :=
  match e with
  | Patch now team raw u actor key => orKeep b (patchTask now team raw u actor key b)
  | Update now team project raw c u => orKeep b (updateTask now team project raw c u b)
  | PostDependency team raw blocker actor => orKeep b (postDependency team raw blocker actor b)
  | AddTaskBlocker team project raw blocker c => orKeep b (addTaskBlocker team project raw blocker c b)
  | DeleteDependency now team raw blocker actor => orKeep b (deleteDependency now team raw blocker actor b)
  | RemoveTaskBlocker now team project raw blocker c => orKeep b (removeTaskBlocker now team project raw blocker c b)
  | CreateTask now row team input caller => orKeep b (createTask now row team input caller b)
  | CreateTaskBatch now team items caller => snd (createTaskBatch now team items caller b)
  end.

End Writes.

(** ** What a write leaves alone *)

(** Wakeups, comments and counters change; tasks and dependencies do not. *)
Definition calm (b b' : Board) : Prop := tasks (bw b') = tasks (bw b) /\ deps (bw b') = deps (bw b) /\ td_info (bd_tree b') = td_info (bd_tree b).
#[export] Instance calm_preorder : PreOrder calm.
Proof. split; [by intros b|]. intros a b c (H1 & H2 & H3) (H4 & H5 & H6). split_and!; congruence. Qed.

Lemma calm_world f b : tasks (f (bw b)) = tasks (bw b) -> deps (f (bw b)) = deps (bw b) -> calm b (onWorld f b).
Proof. done. Qed.

Section Calm.
Variable render : Json -> string.
Variable uuid : nat -> string.

Lemma wakeTask_calm now team p run b : calm b (onTree (wakeTaskIfChildrenClosed render uuid now team p run) b).
Proof. unfold calm, bw, onTree, wakeTaskIfChildrenClosed. cbn. by repeat (case_match; try done). Qed.
Lemma wakeParent_calm now team t run b : calm b (onTree (wakeParentIfChildrenClosed render uuid now team t run) b).
Proof.
  pose proof (wakeTask_calm now team) as H. unfold calm, bw, onTree, wakeParentIfChildrenClosed in *. cbn in *.
  destruct (head _) as [x|]; [|done]. destruct (truthy _) as [p|]; [apply (H p)|done].
Qed.
Lemma coach_calm now team t run b : calm b (wakeCoach render uuid now team t run b).
Proof. unfold wakeCoach. by destruct (findAgent _ b). Qed.
Lemma post_calm now t a body b : calm b (postComment uuid now t a body b).
Proof. done. Qed.
Lemma notify_calm now team t run b : calm b (notifyParentOfOAuthVerification render uuid now team t run b).
Proof. unfold notifyParentOfOAuthVerification. by repeat (case_match; try done). Qed.
Lemma former_calm now team ch run b : calm b (formerParentWoken render uuid now team ch run b).
Proof. unfold formerParentWoken. repeat (case_match; try done). apply wakeTask_calm. Qed.
End Calm.

(** Tasks by id and status, with the edges: what [derived] reads. *)
Definition statuses (W : World) : list (string * TaskStatus) := List.map (fun t => (t_id t, t_status t)) (tasks W).
Definition derived_but (l : list string) (W : World) : Prop := forall t, In t (tasks W) -> t_id t ∉ l -> derived_at W t.

Lemma statuses_shape W : shape (tasks W) = List.map (fun p => (fst p, taskTerminal (snd p))) (statuses W).
Proof. unfold shape, statuses. by rewrite List.map_map. Qed.
Lemma statuses_unique W W' : statuses W' = statuses W -> unique_tasks W -> unique_tasks W'.
Proof. intros E. unfold unique_tasks. by rewrite !shape_ids, !statuses_shape, E. Qed.

Lemma derived_but_same l W W' : statuses W' = statuses W -> deps W' = deps W -> derived_but l W -> derived_but l W'.
Proof.
  intros Hs Hd H t Hin Hl. assert (In (t_id t, t_status t) (statuses W)) as (t0 & E & Hin0)%in_map_iff by (rewrite <- Hs; apply in_map_iff; by exists t).
  injection E as E1 E2. intros Hn. rewrite (hasOpenBlockers_shape W W') by (rewrite ?statuses_shape; congruence). rewrite <- E1, <- E2 in *. by apply H.
Qed.
Lemma derived_but_nil W : derived_but [] W <-> derived W.
Proof. unfold derived_but, derived. split; intros H t Hin; [apply H; [done|apply not_elem_of_nil]|intros _; by apply H]. Qed.

(** Edges that leave other tasks do not matter to a task. *)
Lemma open_same_edges W W' x : tasks W' = tasks W -> (forall y, (x, y) ∈ deps W' <-> (x, y) ∈ deps W) -> hasOpenBlockers W' x = hasOpenBlockers W x.
Proof.
  intros Ht He. unfold hasOpenBlockers. rewrite Ht. apply Bool.eq_iff_eq_true. rewrite !existsb_exists.
  split; intros ([u v] & Hin & [E%String.eqb_eq Ho]%andb_true_iff); cbn in E; subst u; exists (x, v); cbn [fst snd] in *; rewrite String.eqb_refl;
    (split; [apply list_elem_of_In, He, list_elem_of_In; done|done]).
Qed.
Lemma derived_but_edges x W W' : tasks W' = tasks W -> (forall u y, u <> x -> (u, y) ∈ deps W' <-> (u, y) ∈ deps W) -> derived W -> derived_but [x] W'.
Proof.
  intros Ht He Hd t Hin Hx Hn. rewrite (open_same_edges W W') by (done || (intros y; apply He; set_solver)). apply Hd; [by rewrite <- Ht|done].
Qed.

Lemma reconcile_derives x actor cascade W : unique_tasks W -> derived_but [x] W ->
  let W' := fst (reconcileBlockedStatus x actor cascade W) in derived W' /\ deps W' = deps W.
Proof.
  intros Hu Hd. destruct (reconcile_spec x actor cascade W Hu) as [Hg H]. cbn zeta in *. split; [|apply Hg]. intros t Hin.
  destruct (H t Hin) as [Ha Hb]. destruct (decide (t_id t = x)) as [E|E]; [by apply Ha|]. eapply derived_at_graph; [exact Hg|]. apply Hd; [by apply Hb|set_solver].
Qed.
Lemma recompute_derives render uuid now x actor run W : unique_tasks W -> derived_but (downstreamOf (deps W) x) W ->
  let W' := recomputeDownstreamReadiness render uuid now x actor run W in derived W' /\ deps W' = deps W.
Proof.
  intros Hu Hd. rewrite recompute_pass. destruct (pass_spec render uuid now actor run (cascadeOf W x) (downstreamOf (deps W) x) W Hu) as [Hg H].
  cbn zeta. split; [|apply Hg]. intros t Hin. destruct (H t Hin) as [Ha Hb]. destruct (decide (t_id t ∈ downstreamOf (deps W) x)) as [E|E]; [by apply Ha|].
  eapply derived_at_graph; [exact Hg|]. apply Hd; [by apply Hb|done].
Qed.

(** A stored status is derived, and wrong at most for the tasks it blocks; for none if the task is
    as closed as before. *)
Lemma stored_derived W t s : unique_tasks W -> derived W -> In t (tasks W) -> s = requestedStatus W t None \/ (exists r, s = coerceTargetStatusForBlockers W (t_id t) r) ->
  let W' := with_tasks (setTaskStatus (t_id t) s (tasks W)) W in
  derived_but (downstreamOf (deps W) (t_id t)) W' /\ (taskTerminal (t_status t) = taskTerminal s -> derived W').
Proof.
  intros Hu Hd Hin Hs W'.
  assert (forall u, In u (tasks W') -> hasOpenBlockers W' (t_id u) = hasOpenBlockers W (t_id u) -> derived_at W' u) as Hkey.
  { intros u Hu' Ho Hn. rewrite Ho. apply in_map_iff in Hu' as (v & <- & Hv). destruct (isTask (t_id t) v) eqn:E; [|by apply Hd].
    apply String.eqb_eq in E. cbn in *. rewrite E. destruct Hs as [-> |[r ->]]; [|by apply coerce_derived].
    cbn in *. rewrite <- E. assert (v = t) as -> by (by apply (NoDup_fmap_In t_id _ v t Hu)). by apply Hd. }
  split.
  - intros u Hu' Hl. apply Hkey; [done|]. by apply upstream_only.
  - intros Ht u Hu'. apply Hkey; [done|]. apply hasOpenBlockers_shape; [done|]. by apply (setTaskStatus_shape _ _ W t); [|apply find_task|].
Qed.

(** Tasks by id and team: what the tree reads. *)
Definition rows (W : World) : list (string * string) := List.map (fun t => (t_id t, t_team t)) (tasks W).
Lemma rows_in W W' t : rows W' = rows W -> In t (tasks W') -> exists u, In u (tasks W) /\ t_id u = t_id t /\ t_team u = t_team t.
Proof.
  intros E Hin. assert (In (t_id t, t_team t) (rows W)) as (u & [= E1 E2] & Hu)%in_map_iff; [|by exists u]. rewrite <- E. apply in_map_iff. by exists t.
Qed.
Lemma tree_same D db db' : rows (td_world db') = rows (td_world db) -> td_info db' = td_info db ->
  tree_inv D (mkTreeState db []) -> tree_inv D (mkTreeState db' []).
Proof.
  intros Hr Hi [[Hu Hp] Hs _]. assert (forall x, parentId db' x = parentId db x) as Hpar by (intros x; unfold parentId; by rewrite Hi).
  split; cbn [ts_db ts_checked] in *; [split| |done].
  - assert (List.map t_id (tasks (td_world db')) = List.map t_id (tasks (td_world db))) as ->; [|done].
    pose proof (f_equal (List.map fst) Hr) as H. unfold rows in H. by rewrite !List.map_map in H.
  - intros t y Hin Hy. rewrite Hpar in Hy. destruct (rows_in _ _ _ Hr Hin) as (u & Hu' & E1 & E2). rewrite <- E1 in Hy.
    destruct (Hp u y Hu' Hy) as (v & Hv & Ev & Et). destruct (rows_in _ _ v (eq_sym Hr) Hv) as (v' & Hv' & E3 & E4). exists v'. split_and!; congruence.
  - intros t Hin. destruct (rows_in _ _ _ Hr Hin) as (u & Hu' & E1 & _). rewrite <- E1. specialize (Hs u Hu').
    assert (forall n x, up (parentId db') n x = up (parentId db) n x) as Hup; [|by rewrite Hup].
    induction n as [|n IH]; intros x; [done|]. cbn. rewrite Hpar. destruct (parentId db x); [apply IH|done].
Qed.
Lemma setTaskStatus_rows id s W : rows (with_tasks (setTaskStatus id s (tasks W)) W) = rows W.
Proof. unfold rows, setTaskStatus. cbn. rewrite List.map_map. apply List.map_ext. intros t. by destruct (isTask id t). Qed.
Lemma reconcile_rows x actor cascade W : rows (fst (reconcileBlockedStatus x actor cascade W)) = rows W.
Proof.
  unfold reconcileBlockedStatus. repeat (case_match; try done); cbn [fst]; unfold rows;
    match goal with |- context [recordStatusChange ?a ?b ?c ?d ?e ?f ?g] => rewrite (proj1 (recordStatusChange_graph a b c d e f g)) end; apply setTaskStatus_rows.
Qed.

(** ** The invariant *)

Definition endpoints (W : World) : Prop := forall x y, (x, y) ∈ deps W -> In x (List.map t_id (tasks W)) /\ In y (List.map t_id (tasks W)).
Record frame_ok (b : Board) : Prop := {
  fo_tree : tree_inv 3 (mkTreeState (bd_tree b) []);
  fo_acyclic : acyclic (deps (bw b));
  fo_edges : endpoints (bw b);
}.
Record board_ok (b : Board) : Prop := { bo_frame : frame_ok b; bo_derived : derived (bw b) }.

Lemma frame_unique b : frame_ok b -> unique_tasks (bw b).
Proof. intros [[[Hu _] _ _] _ _]. exact Hu. Qed.
Lemma rows_ids W W' : rows W' = rows W -> List.map t_id (tasks W') = List.map t_id (tasks W).
Proof. intros H. apply (f_equal (List.map fst)) in H. unfold rows in H. by rewrite !List.map_map in H. Qed.

Lemma frame_same b b' : rows (bw b') = rows (bw b) -> deps (bw b') = deps (bw b) -> td_info (bd_tree b') = td_info (bd_tree b) -> frame_ok b -> frame_ok b'.
Proof.
  intros Hr Hd Hi [Ht Ha He]. split; [by apply (tree_same 3 (bd_tree b))|by rewrite Hd|]. intros x y. rewrite Hd, (rows_ids _ _ Hr). apply He.
Qed.
Lemma calm_frame b b' : calm b b' -> frame_ok b -> frame_ok b'.
Proof. intros (Ht & Hd & Hi). apply frame_same; [|done|done]. unfold rows. by rewrite Ht. Qed.
Lemma calm_derived l b b' : calm b b' -> derived_but l (bw b) -> derived_but l (bw b').
Proof. intros (Ht & Hd & _). apply derived_but_same; [|done]. unfold statuses. by rewrite Ht. Qed.
Lemma calm_ok b b' : calm b b' -> board_ok b -> board_ok b'.
Proof. intros H [Hf Hd]. split; [by apply (calm_frame b)|]. apply derived_but_nil, (calm_derived _ b); [done|by apply derived_but_nil]. Qed.

(** A status stored for [x] whose dependents may not have been told yet. *)
Record stored_ok (x : string) (s s' : TaskStatus) (b : Board) : Prop := {
  so_frame : frame_ok b;
  so_but : derived_but (downstreamOf (deps (bw b)) x) (bw b);
  so_same : taskTerminal s = taskTerminal s' -> derived (bw b);
}.
Lemma calm_stored x s s' b b' : calm b b' -> stored_ok x s s' b -> stored_ok x s s' b'.
Proof.
  intros H [Hf Hb Hs]. pose proof H as (_ & Hd & _). split; [by apply (calm_frame b)|rewrite Hd; by apply (calm_derived _ b)|].
  intros E. apply derived_but_nil, (calm_derived _ b); [done|]. by apply derived_but_nil, Hs.
Qed.

Section Kept.
Variable render : Json -> string.
Variable uuid : nat -> string.

Lemma recompute_rows now x actor run W : rows (recomputeDownstreamReadiness render uuid now x actor run W) = rows W.
Proof.
  rewrite recompute_pass. generalize (cascadeOf W x), (downstreamOf (deps W) x). intros cascade l. revert W. induction l as [|id l IH]; intros W; [done|].
  cbn [fold_left]. rewrite IH. unfold passStep. pose proof (reconcile_rows id actor cascade W) as H. destruct (reconcileBlockedStatus id actor cascade W) as [W1 r].
  cbn [fst] in H. rewrite <- H. destruct r as [[]|]; try done; unfold rows; by rewrite (proj1 (wakeIfReady_tasks render uuid now id run W1)).
Qed.

Lemma automated_ok now team x s s' actor key run b : stored_ok x s s' b -> s <> s' -> board_ok (triggerStatusAutomations render uuid now team x s s' actor key run b).
Proof.
  intros Hs Hne. unfold triggerStatusAutomations. set (b1 := onWorld (recordStatusChange _ _ _ _ _ _) b).
  assert (calm b b1) as H1 by (apply calm_world; apply recordStatusChange_graph). apply (calm_stored x s s' b b1 H1) in Hs as [Hf Hb Hd]. clearbody b1.
  set (b2 := if Bool.eqb _ _ then b1 else _). assert (board_ok b2) as H2.
  { unfold b2. destruct (Bool.eqb _ _) eqn:E; [apply eqb_prop in E; split; auto|].
    destruct (recompute_derives render uuid now x actor run (bw b1) (frame_unique b1 Hf) Hb) as [Hd2 He2].
    split; [|exact Hd2]. apply (frame_same b1); [apply recompute_rows|exact He2|done|done]. }
  clearbody b2. set (b3 := if taskTerminal s' then _ else b2). assert (board_ok b3) as H3.
  { unfold b3. destruct (taskTerminal s'); [|done]. by apply (calm_ok b2); [apply wakeParent_calm|]. }
  clearbody b3. case_bool_decide; [|done]. eapply calm_ok; [apply notify_calm|]. by eapply calm_ok; [apply coach_calm|].
Qed.

Lemma setAssignee_view id a W : let W' := with_tasks (setAssignee id a (tasks W)) W in statuses W' = statuses W /\ rows W' = rows W.
Proof. unfold statuses, rows, setAssignee. cbn. rewrite !List.map_map. split; apply List.map_ext; intros t; by destruct (isTask id t). Qed.

Lemma storeTask_ok team t s a parent b ch b' : board_ok b -> In t (tasks (bw b)) -> t_team t = team ->
  s = t_status t \/ (exists r, s = coerceTargetStatusForBlockers (bw b) (t_id t) r) ->
  match parent with Some (Some q) => move_checked (bd_tree b) team (t_id t) q | _ => True end ->
  storeTask t s a parent b = Ok (ch, b') -> stored_ok (t_id t) (t_status t) s b' /\ ch_before ch = t /\
    ch_after ch = mkTask (t_id t) s a (t_team t) (t_identifier t) (t_project_slug t).
Proof.
  intros [Hf Hd] Hin Hteam Hs Hp. unfold storeTask. destruct (match a with Some _ => _ | None => false end); [done|]. intros [= <- <-]. split; [|done].
  destruct (stored_derived (bw b) t s (frame_unique b Hf) Hd Hin) as [H1 H2]; [destruct Hs as [-> |]; [by left|by right]|].
  set (W1 := with_tasks (setTaskStatus (t_id t) s (tasks (bw b))) (bw b)) in *. destruct (setAssignee_view (t_id t) a W1) as [Hv Hr].
  set (W2 := with_tasks (setAssignee (t_id t) a (tasks W1)) W1) in *.
  set (db' := match parent with Some p => _ | None => _ end).
  assert (td_world db' = W2) as EW by (unfold db'; by destruct parent).
  assert (rows W2 = rows (bw b)) as Hrows by (rewrite Hr; apply setTaskStatus_rows).
  assert (bw (onTree (fun _ => db') b) = W2) as Ebw by exact EW.
  split; [split| |]; rewrite ?Ebw.
  - cbn [onTree bd_tree]. destruct Hf as [Ht _ _]. destruct parent as [p|]; [|by apply (tree_same 3 (bd_tree b))].
    apply (tree_same 3 (setParent (t_id t) p (bd_tree b))); [exact Hrows|done|].
    apply (setParent_inv 3 team t p (mkTreeState (bd_tree b) [])); [lia|by left|done|done|done|]. by destruct p.
  - apply Hf.
  - intros x y. rewrite (rows_ids _ _ Hrows). apply Hf.
  - by apply (derived_but_same _ W1).
  - intros E. apply derived_but_nil, (derived_but_same _ W1); [done|done|]. by apply derived_but_nil, H2.
Qed.

Lemma statusAutomated_ok now team t ch actor key run b : ch_before ch = t -> t_id (ch_after ch) = t_id t ->
  stored_ok (t_id t) (t_status t) (t_status (ch_after ch)) b -> board_ok (statusAutomated render uuid now team ch actor key run b).
Proof.
  intros <- Eid Hs. unfold statusAutomated. rewrite Eid. case_bool_decide as E; [|by apply automated_ok]. destruct Hs as [Hf _ Hd]. split; [done|]. apply Hd. by rewrite E.
Qed.

Lemma requestedParent_ok team t raw b r : board_ok b -> In t (tasks (bw b)) -> t_team t = team -> requestedParent team t raw (bd_tree b) = Ok r ->
  match r with Some (Some q) => move_checked (bd_tree b) team (t_id t) q | _ => True end.
Proof.
  intros [[Ht _ _] _] Hin Hteam. unfold requestedParent, parentCheck. destruct raw as [raw|]; [|by intros [= <-]].
  destruct (resolveParentAssignment _ _ _ _) as [[q []]|] eqn:E; [| |done]; cbn; intros [= <-]; [|done]. destruct q as [q|]; [|done].
  destruct Ht as [Hok Hsh _]. apply (resolve_checked 3 (bd_tree b) team t raw q); [unfold TREE_WALK_LIMIT; lia|done..].
Qed.
Lemma requestedStatus_ok W t s : requestedStatus W t s = t_status t \/ exists r, requestedStatus W t s = coerceTargetStatusForBlockers W (t_id t) r.
Proof. destruct s; [right; by eexists|by left]. Qed.

Lemma head_in_seed db team id t : head (seed db team id) = Some t -> In t (tasks (td_world db)) /\ t_id t = id /\ t_team t = team.
Proof. intros E. apply in_seed. destruct (seed db team id) as [|u l]; [done|]. injection E as ->. by left. Qed.

(** Both transactions end in [storeTask] of the row they read. *)
Definition stores (b : Board) (team : string) (t : Task) (r : result WriteError (TaskChange * Board)) : Prop :=
  forall ch b', r = Ok (ch, b') -> stored_ok (t_id t) (t_status t) (t_status (ch_after ch)) b' /\ ch_before ch = t /\ t_id (ch_after ch) = t_id t.
Lemma stores_throw b team t e : stores b team t (Throw e).
Proof. done. Qed.
Lemma stores_bind {A} b team t (r : result WriteError A) k : (forall a, r = Ok a -> stores b team t (k a)) -> stores b team t (bind_result r k).
Proof. destruct r as [a|e]; [|done]. intros H. by apply H. Qed.
Lemma stores_store b team t status a parent raw : board_ok b -> In t (tasks (bw b)) -> t_team t = team -> requestedParent team t raw (bd_tree b) = Ok parent ->
  stores b team t (storeTask t (requestedStatus (bw b) t status) a parent b).
Proof.
  intros Hb Hin Hteam Hp ch b' E. pose proof (requestedParent_ok team t raw b parent Hb Hin Hteam Hp) as Hm.
  destruct (storeTask_ok team t _ a parent b ch b' Hb Hin Hteam (requestedStatus_ok _ _ _) Hm E) as (H1 & H2 & ->). done.
Qed.

Lemma patchTask_ok now team raw u actor key b b' : board_ok b -> patchTask render uuid now team raw u actor key b = Ok b' -> board_ok b'.
Proof.
  intros Hb. unfold patchTask. destruct (resolveTaskId _ _ _) as [id|]; [|done]. unfold patchRow. destruct (head _) as [t|] eqn:Eh; [|done].
  apply head_in_seed in Eh as (Hin & Hid & Hteam).
  match goal with |- bind_result ?r _ = _ -> _ => assert (stores b team t r) as Hst end.
  { repeat (apply stores_bind; intros ? ?). by eapply stores_store. }
  destruct (bind_result _ _) as [[ch b1]|]; [|done]. destruct (Hst ch b1 eq_refl) as (Hs & Eb & Ea). cbn [bind_result fst snd]. intros [= <-].
  unfold afterPatch. apply (statusAutomated_ok _ _ t); [done|done|]. eapply calm_stored; [apply former_calm|].
  set (b2 := if notNull _ && _ then _ else b1). assert (calm b1 b2) as H2 by (unfold b2; by destruct (notNull _ && _)).
  apply (calm_stored _ _ _ b1 b2 H2) in Hs. clearbody b2. eapply calm_stored; [|exact Hs]. by destruct (_ && negb (taskTerminal _)).
Qed.

Lemma updateTask_ok now team project raw c u b b' : board_ok b -> updateTask render uuid now team project raw c u b = Ok b' -> board_ok b'.
Proof.
  intros Hb. unfold updateTask, findProjectTask. destruct (resolveTaskId _ _ _) as [id|]; [|done]. destruct (head _) as [t|] eqn:Eh; [|done].
  apply head_in_seed in Eh as (Hin & Hid & Hteam). case_bool_decide; [|done]. destruct (check _ _) as [[]|]; [|done]. cbn [bind_result].
  destruct (match up_assignee u with None => _ | Some _ => _ end) as [who|]; [|done]. cbn [bind_result].
  assert (stores b team t (updateRow render team c t u who b)) as Hst.
  { unfold updateRow. repeat (apply stores_bind; intros ? ?). by eapply stores_store. }
  destruct (updateRow _ _ _ _ _ _) as [[ch b1]|]; [|done]. destruct (Hst ch b1 eq_refl) as (Hs & Eb & Ea). cbn [bind_result fst snd]. intros [= <-].
  unfold afterUpdate. apply (statusAutomated_ok _ _ t); [done|done|]. set (b2 := formerParentWoken _ _ _ _ _ _ _).
  assert (stored_ok (t_id t) (t_status t) (t_status (ch_after ch)) b2) as H2 by (eapply calm_stored; [apply former_calm|done]). clearbody b2.
  eapply calm_stored; [|exact H2]. destruct (truthy who); [|done]. by case_bool_decide.
Qed.

Lemma existsb_task x W : existsb (isTask x) (tasks W) = true <-> In x (List.map t_id (tasks W)).
Proof. rewrite existsb_exists, in_map_iff. unfold isTask. split; intros (t & H1 & H2); exists t; [apply String.eqb_eq in H2|rewrite H1, String.eqb_refl]; done. Qed.

(** What an insertion leaves, whether or not the edge was there. *)
Lemma insertEdge_spec x y W added W' : insertEdge x y W = Ok (added, W') ->
  In x (List.map t_id (tasks W)) /\ In y (List.map t_id (tasks W)) /\ tasks W' = tasks W /\ (forall e, e ∈ deps W' <-> e = (x, y) \/ e ∈ deps W).
Proof.
  unfold insertEdge. destruct (existsb (isTask x) (tasks W) && existsb (isTask y) (tasks W)) eqn:E; [|done]. apply andb_true_iff in E as [Hx Hy].
  apply existsb_task in Hx, Hy. cbn [negb]. case_bool_decide as Hd; intros [= <- <-]; split_and!; try done; intros e; cbn [deps with_deps]; [|apply elem_of_cons].
  split; [by right|]. by intros [-> |].
Qed.

Lemma tc_mono ds ds' x y : (forall e, e ∈ ds' -> e ∈ ds) -> tc (edge ds') x y -> tc (edge ds) x y.
Proof. intros H. induction 1 as [x y Hxy|x y z Hxy _ IH]; [by apply tc_once, H|]. eapply tc_l; [|exact IH]. by apply H. Qed.
Lemma acyclic_equiv ds ds' : (forall e, e ∈ ds' <-> e ∈ ds) -> acyclic ds -> acyclic ds'.
Proof. intros H Ha x Hx. apply (Ha x), (tc_mono ds ds'); [|done]. intros e. by rewrite H. Qed.
Lemma acyclic_add ds x y : acyclic ds -> ~ rtc (edge ds) y x -> acyclic ((x, y) :: ds).
Proof. intros Ha Hn z [H|[H1 H2]]%tc_added; [by apply (Ha z)|]. apply Hn. by etransitivity. Qed.

Lemma insertEdge_frame x y W added W' : insertEdge x y W = Ok (added, W') -> acyclic (deps W) -> endpoints W -> ~ rtc (edge (deps W)) y x ->
  acyclic (deps W') /\ endpoints W'.
Proof.
  intros (Hx & Hy & Ht & He)%insertEdge_spec Ha Hp Hn. split.
  - apply (acyclic_equiv ((x, y) :: deps W)); [|by apply acyclic_add]. intros e. by rewrite He, elem_of_cons.
  - intros u v Huv. rewrite Ht. apply He in Huv as [[= -> ->]|Huv]; [done|by apply Hp].
Qed.
Lemma cycleFree_spec W x y : cycleFree W x y = true -> ~ rtc (edge (deps W)) y x.
Proof.
  unfold cycleFree. intros E%bool_decide_eq_true. destruct (wouldCreateCycle_reach (deps W) x y) as (r & Hr & Hiff). rewrite E in Hr. injection Hr as <-. by intros ?%Hiff.
Qed.

Lemma addBlocker_ok team x raw actor b b' : board_ok b -> addBlocker team x raw actor b = Ok b' -> board_ok b'.
Proof.
  intros [Hf Hd]. unfold addBlocker. destruct (resolveTaskId _ _ _) as [y|]; [|done]. destruct (String.eqb y x); [done|].
  destruct (cycleFree (bw b) x y) eqn:Ec; [|done]. cbn [negb]. destruct (insertEdge x y (bw b)) as [[[] W1]|] eqn:Ei; [| |done]; [|done].
  cbn [bind_result fst snd]. intros [= <-]. pose proof Hf as [Ht Ha He]. destruct (insertEdge_frame x y (bw b) true W1 Ei Ha He (cycleFree_spec _ _ _ Ec)) as [Ha' He'].
  apply insertEdge_spec in Ei as (_ & _ & Et & Hin).
  assert (unique_tasks W1) as Hu by (unfold unique_tasks; rewrite Et; apply (frame_unique b Hf)).
  assert (derived_but [x] W1) as Hb.
  { apply (derived_but_edges x (bw b)); [done| |done]. intros u v Hne. rewrite Hin. split; [by intros [[= -> ->]|]|by right]. }
  destruct (reconcile_derives x actor None W1 Hu Hb) as [Hd' Hdeps].
  pose proof (reconcile_rows x actor None W1) as Hr. split; [|exact Hd']. apply (frame_same (onWorld (fun _ => W1) b)); [exact Hr|exact Hdeps|done|].
  split; [|exact Ha'|exact He']. apply (tree_same 3 (bd_tree b)); [|done|done]. unfold rows. cbn. by rewrite Et.
Qed.

Lemma dropEdge_ok now x y actor run b b' : board_ok b -> dropEdge render uuid now x y actor run b = Ok b' -> board_ok b'.
Proof.
  intros [Hf Hd]. unfold dropEdge. destruct (existsb _ _); [|done]. cbn [negb]. intros [= <-]. set (W1 := with_deps (List.filter (fun d => negb (isEdge x y d)) (deps (bw b))) (bw b)).
  assert (forall e, e ∈ deps W1 -> e ∈ deps (bw b)) as Hsub by (intros e; cbn [W1 deps with_deps]; rewrite !list_elem_of_In, filter_In; tauto).
  assert (derived_but [x] W1) as Hb.
  { apply (derived_but_edges x (bw b)); [done| |done]. intros u v Hne. cbn [W1 deps with_deps]. rewrite !list_elem_of_In, filter_In. unfold isEdge. cbn [fst].
    rewrite (proj2 (String.eqb_neq u x) Hne). tauto. }
  destruct (reconcile_derives x actor None W1 (frame_unique b Hf) Hb) as [Hd' Hdeps]. pose proof (reconcile_rows x actor None W1) as Hr.
  set (W2 := fst (reconcileBlockedStatus x actor None W1)) in *. destruct (wakeIfReady_tasks render uuid now x run W2) as [Ht Hde].
  apply (calm_ok (onWorld (fun _ => W2) b)); [split_and!; [exact Ht|exact Hde|done]|]. split; [|exact Hd'].
  apply (frame_same (onWorld (fun _ => W1) b)); [exact Hr|exact Hdeps|done|]. destruct Hf as [Htree Ha He]. split; [by apply (tree_same 3 (bd_tree b))| |].
  - intros z Hz. apply (Ha z). by eapply tc_mono.
  - intros u v Huv. apply He. by apply Hsub.
Qed.

(** ** A new task *)

Lemma existsb_eq_in {A} (f g : A -> bool) l : (forall x, In x l -> f x = g x) -> existsb f l = existsb g l.
Proof. induction l as [|x l IH]; intros H; [done|]. cbn. rewrite (H x) by (by left). f_equal. apply IH. intros y Hy. apply H. by right. Qed.

(** While its blockers are attached only the new task may have a status of its own. *)
Record new_ok (id : string) (b0 : Board) (db : TreeDb) : Prop := {
  no_frame : frame_ok (onTree (fun _ => db) b0);
  no_but : derived_but [id] (td_world db);
  no_dependents : forall z, (z, id) ∉ deps (td_world db);
  no_status : exists t, In t (tasks (td_world db)) /\ t_id t = id /\ t_status t = Backlog;
}.

Lemma new_edge id y b0 db added W' : new_ok id b0 db -> insertEdge id y (td_world db) = Ok (added, W') -> ~ rtc (edge (deps (td_world db))) y id ->
  y <> id -> new_ok id b0 (mkTreeDb W' (td_info db)).
Proof.
  intros [[Ht Ha He] Hb Hn Hst] Ei Hr Hne. destruct (insertEdge_frame _ _ _ _ _ Ei Ha He Hr) as [Ha' He']. apply insertEdge_spec in Ei as (_ & _ & Et & Hin).
  split; cbn [td_world].
  - split; [|exact Ha'|exact He']. apply (tree_same 3 db); [|done|done]. unfold rows. cbn. by rewrite Et.
  - intros t Hint Hid Hnt. rewrite (open_same_edges (td_world db)); [|done|].
    + apply Hb; [by rewrite <- Et|done|done].
    + intros v. rewrite Hin. split; [|by right]. intros [[= E _]|]; [|done]. set_solver.
  - intros z [[= _ E]|Hz]%Hin; [done|]. by apply (Hn z).
  - by rewrite Et.
Qed.

Lemma attach_ok team id b0 : forall raws seen db db', new_ok id b0 db -> attachBlockers team id seen raws db = Ok db' -> new_ok id b0 db'.
Proof.
  induction raws as [|raw raws IH]; intros seen db db' Hn; cbn [attachBlockers]; [by intros [= <-]|].
  destruct (String.eqb (trim raw) ""); [by apply IH|]. destruct (resolveTaskId _ _ _) as [y|]; [|done]. destruct (String.eqb_spec y id) as [|Hne]; [done|].
  case_bool_decide; [by apply IH|]. destruct (cycleFree _ _ _) eqn:Ec; [|done]. cbn [negb]. destruct (insertEdge _ _ _) as [[added W1]|] eqn:Ei; [|done].
  cbn [bind_result snd]. apply IH. by apply (new_edge id y b0 db added W1 Hn Ei (cycleFree_spec _ _ _ Ec)).
Qed.

Lemma inserted_new id row team t i parent b : board_ok b -> t_id t = id -> t_status t = Backlog -> existsb (isTask id) (tasks (bw b)) = false ->
  createParent (bd_tree b) team row = Ok parent -> let db := insertChecked team parent t i (bd_tree b) in
  new_ok id b db /\ derived (td_world db) /\ deps (td_world db) = deps (bw b).
Proof.
  intros [Hf Hd] Hid Hst Hfresh Hp db. pose proof Hf as [[Hok Hsh _] Ha He]. subst id.
  assert (tree_inv 3 (mkTreeState db [])) as Htree.
  { apply (insert_tree_inv 3 team parent t i (mkTreeState (bd_tree b) [])); [apply Hf|]. destruct parent as [q|]; [|done].
    apply (createParent_ok 3 _ team row q ltac:(unfold TREE_WALK_LIMIT; lia) Hok Hsh Hp). }
  assert (exists t', t_id t' = t_id t /\ t_status t' = Backlog /\ tasks (td_world db) = tasks (bw b) ++ [t'] /\ deps (td_world db) = deps (bw b)) as (t' & Et & Es & Etasks & Edeps).
  { unfold db, insertChecked. fold (bw b). rewrite Hfresh. eexists. split_and!; [| |reflexivity|reflexivity]; done. }
  assert (forall y, In y (List.map t_id (tasks (bw b))) -> y <> t_id t) as Hold by (intros y Hy ->; apply existsb_task in Hy; congruence).
  assert (forall x, hasOpenBlockers (td_world db) x = hasOpenBlockers (bw b) x) as Hopen.
  { intros x. unfold hasOpenBlockers. rewrite Edeps, Etasks. apply existsb_eq_in. intros [u v] Hin. cbn [fst snd]. f_equal.
    destruct (He u v) as [_ Hv%Hold]; [by apply list_elem_of_In|]. unfold openBlocker. rewrite existsb_app. cbn. unfold isTask at 2.
    rewrite Et, (proj2 (String.eqb_neq (t_id t) v)) by done. by rewrite !orb_false_r. }
  assert (derived (td_world db)) as Hder.
  { intros u Hu Hn. rewrite Etasks in Hu. rewrite Hopen. apply in_app_iff in Hu as [Hu|[<-|[]]]; [by apply Hd|]. rewrite Es, Et. split; [done|]. intros (d & Hin & H)%existsb_exists.
    apply andb_true_iff in H as [E%String.eqb_eq _]. destruct d as [u v]. cbn in E. subst u. destruct (He (t_id t) v) as [Hx _]; [by apply list_elem_of_In|]. by apply Hold in Hx. }
  split; [|done]. split.
  - split; [exact Htree| |]; change (bw (onTree (fun _ => db) b)) with (td_world db); [by rewrite Edeps|]. intros u v. rewrite Edeps, Etasks, List.map_app, !in_app_iff. intros [H1 H2]%He. tauto.
  - intros u Hu _. by apply Hder.
  - intros z. rewrite Edeps. intros [_ Hz]%He. by apply Hold in Hz.
  - exists t'. split; [|done]. rewrite Etasks. apply in_app_iff. right. by left.
Qed.

(** The status it ends with: blocked exactly if one of its blockers is open. *)
Definition settleNew (id : string) (db : TreeDb) : TreeDb :=
  if hasOpenBlockers (td_world db) id then onTreeWorld (fun W => with_tasks (setTaskStatus id Blocked (tasks W)) W) db else db.
Lemma settleNew_ok id b db : new_ok id b db -> board_ok (onTree (fun _ => settleNew id db) b).
Proof.
  intros [Hf Hb _ (t & Hin & Hid & Hst)]. unfold settleNew. pose proof (frame_unique _ Hf) as Hu. change (bw (onTree _ b)) with (td_world db) in Hu.
  assert (forall u, In u (tasks (td_world db)) -> t_id u = id -> u = t) as Honly by (intros u Hu' E; apply (NoDup_fmap_In t_id _ u t Hu); congruence).
  destruct (hasOpenBlockers (td_world db) id) eqn:Eo.
  - split; [apply (frame_same (onTree (fun _ => db) b)); [apply setTaskStatus_rows|done..]|]. intros u Hu' Hn.
    change (bw (onTree _ b)) with (with_tasks (setTaskStatus id Blocked (tasks (td_world db))) (td_world db)) in *.
    rewrite (hasOpenBlockers_shape (td_world db)); [|done|by apply (setTaskStatus_shape _ _ (td_world db) t); [|apply find_task|rewrite Hst]].
    apply in_map_iff in Hu' as (v & <- & Hv). destruct (isTask id v) eqn:E; unfold isTask in E; [apply String.eqb_eq in E; cbn; by rewrite E|].
    apply Hb; [done| |done]. apply String.eqb_neq in E. set_solver.
  - split; [done|]. intros u Hu' Hn. destruct (decide (t_id u = id)) as [E|E]; [|apply Hb; [done|set_solver|done]].
    rewrite (Honly u Hu' E) in *. change (bw (onTree _ b)) with (td_world db). rewrite Hst, Hid, Eo. done.
Qed.

Lemma insertRow_ok now row team input raw parent assignee setup b db : board_ok b -> createParent (bd_tree b) team raw = Ok parent ->
  (forall s, setup = Some s -> In s (List.map t_id (tasks (bw b)))) -> insertRow now row team input parent assignee setup b = Ok db -> board_ok (onTree (fun _ => db) b).
Proof.
  intros Hb Hp Hse. unfold insertRow, check. destruct (notNull _ && negb (existsb (isTask (nr_id row)) (tasks (bw b)))) eqn:E; [|done]. cbn [bind_result].
  apply andb_true_iff in E as [_ Hfresh%negb_true_iff]. set (t := mkTask _ _ _ _ _ _). set (i := mkInfo _ _ _ _ _).
  destruct (inserted_new (nr_id row) raw team t i parent b Hb eq_refl eq_refl Hfresh Hp) as (Hn0 & Hd0 & _). set (db0 := insertChecked team parent t i (bd_tree b)) in *.
  destruct (attachBlockers _ _ _ _ db0) as [db1|] eqn:Eat; [|done]. cbn [bind_result]. pose proof (attach_ok _ _ _ _ _ _ _ Hn0 Eat) as Hn1.
  destruct (truthy setup) as [s|] eqn:Ese.
  - destruct (insertEdge (nr_id row) s (td_world db1)) as [[added W2]|] eqn:Ei; [|done]. cbn [bind_result snd]. intros [= <-].
    assert (setup = Some s) as Hs by (destruct setup as [[]|]; [done|exact Ese|done]).
    assert (s <> nr_id row) as Hne by (intros ->; apply Hse, existsb_task in Hs; congruence).
    assert (new_ok (nr_id row) b (mkTreeDb W2 (td_info db1))) as Hn2.
    { apply (new_edge _ s b db1 added W2 Hn1 Ei); [|done]. intros [-> |H]%rtc_tc; [done|]. apply tc_edge_target, list_elem_of_In, in_map_iff in H as ([u v] & E & H).
      cbn in E. subst v. apply (no_dependents _ _ _ Hn1 u). by apply list_elem_of_In. }
    destruct (nt_blockers input); exact (settleNew_ok (nr_id row) b _ Hn2).
  - cbn [bind_result]. destruct (nt_blockers input) as [|r l] eqn:Er; intros [= <-]; [|exact (settleNew_ok (nr_id row) b _ Hn1)].
    cbn in Eat. injection Eat as <-. split; [apply Hn0|done].
Qed.

Lemma createTask_ok now row team input caller b b' : board_ok b -> createTask render uuid now row team input caller b = Ok b' -> board_ok b'.
Proof.
  intros Hb. unfold createTask. destruct (check _ _) as [[]|]; [|done]. cbn [bind_result]. unfold parentCheck.
  destruct (createParent _ _ _) as [parent|] eqn:Ep; [|done]. cbn [bind_result]. destruct (newAssignee _ _ _ _) as [a|]; [|done]. cbn [bind_result].
  destruct (match truthy (cc_agent caller) with Some _ => _ | None => _ end) as [[]|]; [|done]. cbn [bind_result].
  destruct (insertRow _ _ _ _ _ _ _ _) as [db|] eqn:Ei; [|done]. cbn [bind_result]. intros [= <-].
  assert (board_ok (onTree (fun _ => db) b)) as H1.
  { apply (insertRow_ok _ _ _ _ _ _ _ _ _ _ Hb Ep) in Ei; [done|]. intros s. unfold pendingSetupReviewBlockerId. destruct (_ ≫= _) as [r|]; [|done].
    destruct (taskOf r (bw b)) as [t|] eqn:Et; [|done]. destruct (taskTerminal _); [done|]. intros [= <-]. apply find_some in Et as [Ht _]. apply in_map_iff. by exists t. }
  destruct (isAgent _ _); [|done]. by apply (calm_ok (onTree (fun _ => db) b)).
Qed.
Lemma createItems_ok now team caller : forall items ids b, board_ok b -> board_ok (snd (createItems render uuid now team items caller ids b)).
Proof.
  induction items as [|[row item] items IH]; intros ids b Hb; [done|]. cbn [createItems]. destruct (createBatchItem _ _ _ _ _ _ _ _ _ _) as [b1|] eqn:E; [|by apply IH].
  apply IH. revert E. unfold createBatchItem. destruct (resolveBatchBlockerRefs _ _ _); [|done]. cbn [bind_result]. destruct (resolveBatchParentRef _ _ _); [|done].
  cbn [bind_result]. by apply createTask_ok.
Qed.

Lemma writeStep_ok b e : board_ok b -> board_ok (writeStep render uuid b e).
Proof.
  intros Hb. assert (forall r, (forall b', r = Ok b' -> board_ok b') -> board_ok (orKeep b r)) as H by (intros [b'|]; cbn; auto).
  destruct e; cbn [writeStep]; try apply H; try intros b'.
  - by apply patchTask_ok.
  - by apply updateTask_ok.
  - unfold postDependency. destruct (resolveTaskId _ _ _); [|done]. destruct (check _ _) as [[]|]; [|done]. by apply addBlocker_ok.
  - unfold addTaskBlocker. destruct (findProjectTask _ _ _ _); [|done]. by apply addBlocker_ok.
  - unfold deleteDependency. destruct (resolveTaskId _ _ _) as [id|]; [|done]. destruct (seed _ _ id); [done|]. by apply dropEdge_ok.
  - unfold removeTaskBlocker. destruct (findProjectTask _ _ _ _); [|done]. destruct (resolveTaskId _ _ _); [|done]. by apply dropEdge_ok.
  - by apply createTask_ok.
  - by apply createItems_ok.
Qed.
Lemma writes_ok evs : forall b, board_ok b -> board_ok (fold_left (writeStep render uuid) evs b).
Proof. induction evs as [|e evs IH]; intros b Hb; [done|]. apply IH. by apply writeStep_ok. Qed.
End Kept.

(** A board without tasks. *)
Definition startBoard (staff : list (string * AgentInfo)) (members : list (string * string)) (talk : TaskDb) (cards : list (string * string))
    (approvals : list TaskApproval) (ws : list Wakeup) (runs : list (string * string)) : Board :=
  mkBoard (mkTreeDb (Dependencies.mkWorld [] [] ws runs (List.map fst staff) [] 0) ∅) (list_to_map staff) members talk cards approvals [].
Lemma start_ok staff members talk cards approvals ws runs : board_ok (startBoard staff members talk cards approvals ws runs).
Proof.
  split; [|done]. split; [split; [split; [constructor|done]|done|done]| |].
  - intros x H. induction H as [x y H|]; [by apply not_elem_of_nil in H|done].
  - intros x y H. by apply not_elem_of_nil in H.
Qed.

(** C22. Whatever updates, creations and changes of blockers follow one another, by people, agents
    and API keys: no task waits on itself through its blockers, every blocker is a task, an
    unfinished task is blocked exactly when one of its blockers is unfinished, and sub-tasks form
    trees of one team within the cap. *)
Theorem writes_keep_task_graph render uuid staff members talk cards approvals ws runs evs :
  let b := fold_left (writeStep render uuid) evs (startBoard staff members talk cards approvals ws runs) in
  acyclic (deps (bw b)) /\
  (forall x y, (x, y) ∈ deps (bw b) -> exists t u, In t (tasks (bw b)) /\ In u (tasks (bw b)) /\ t_id t = x /\ t_id u = y) /\
  (forall t, In t (tasks (bw b)) -> taskTerminal (t_status t) = false -> t_status t = Blocked <->
     exists u, In u (tasks (bw b)) /\ (t_id t, t_id u) ∈ deps (bw b) /\ taskTerminal (t_status u) = false) /\
  (forall t, In t (tasks (bw b)) -> up (parentId (bd_tree b)) (Z.to_nat MAX_SUB_TASK_DEPTH + 1) (t_id t) = None /\
     (forall y, parentId (bd_tree b) (t_id t) = Some y -> exists u, In u (tasks (bw b)) /\ t_id u = y /\ t_team u = t_team t)).
Proof.
  intros b. destruct (writes_ok render uuid evs _ (start_ok staff members talk cards approvals ws runs)) as [[[Hok Hs _] Ha He] Hd]. fold b in Hok, Hs, Ha, He, Hd.
  split_and!; [done| | |].
  - intros x y [(t & Et & Ht)%in_map_iff (u & Eu & Hu)%in_map_iff]%He. by exists t, u.
  - intros t Ht Hn. rewrite (Hd t Ht Hn). unfold hasOpenBlockers, openBlocker. rewrite existsb_exists. split.
    + intros ([x y] & Hin & [E%String.eqb_eq (u & Hu & [Eu%String.eqb_eq Hu']%andb_true_iff)%existsb_exists]%andb_true_iff). cbn in E, Eu. subst. exists u.
      split_and!; [done|by apply list_elem_of_In|by apply negb_true_iff].
    + intros (u & Hu & Hin & Hu'). exists (t_id t, t_id u). split; [by apply list_elem_of_In|]. cbn. rewrite String.eqb_refl. cbn. apply existsb_exists. exists u.
      split; [done|]. unfold isTask. by rewrite String.eqb_refl, Hu'.
  - intros t Ht. split; [by apply Hs|]. intros y. by apply (to_parent _ Hok).
Qed.

(** ** Agents and closed work *)

Lemma children_gate_spec team id db : childrenGate team id db = Ok tt ->
  forall c, In c (tasks (td_world db)) -> parentId db (t_id c) = Some id -> t_team c = team -> taskTerminal (t_status c) = true.
Proof.
  unfold childrenGate, assertChildrenAllClosed. destruct (openChildren db team id) as [|x l] eqn:E.
  - intros _ c Hc Hp Ht. destruct (taskTerminal (t_status c)) eqn:Et; [done|]. exfalso. apply (in_nil (a := c)). rewrite <- E. apply filter_In. split; [done|].
    unfold inTeam. rewrite Hp, Ht, bool_decide_true, String.eqb_refl by done. apply bool_decide_true. unfold OPEN_CHILD_STATUSES. destruct (t_status c); set_solver.
  - intros H. pose proof (Permutation_length (js_sort_perm (oldestTask db) (x :: l))) as Hl. destruct (js_sort _ _) as [|y l']; [done|]. done.
Qed.

Lemma check_ok c e : check c e = Ok tt -> c = true.
Proof. by destruct c. Qed.
Lemma bind_ok {A B} (r : result WriteError A) (k : A -> result WriteError B) x : bind_result r k = Ok x -> exists a, r = Ok a /\ k a = Ok x.
Proof. destruct r as [a|]; [|done]. by exists a. Qed.
Lemma distinct_false m c : distinctFrom m (Some c) = false -> m = c.
Proof. unfold distinctFrom. rewrite negb_false_iff, bool_decide_eq_true. by intros [= ->]. Qed.
Lemma existsb_none {A} (f : A -> bool) l x : existsb f l = false -> In x l -> f x = false.
Proof. intros E Hx. destruct (f x) eqn:Ef; [|done]. assert (existsb f l = true); [apply existsb_exists; eauto|congruence]. Qed.

Section Gates.
Variable render : Json -> string.
Variable uuid : nat -> string.

(** The gates of [update_task] before it stores anything. *)
Lemma updateRow_gates team m run task t u who b ch b' : updateRow render team (AgentCaller m run task) t u who b = Ok (ch, b') ->
  (taskTerminal (t_status t) = true -> forall s, up_status u = Some s -> s = t_status t) /\
  (up_status u = Some Done -> t_status t <> Done -> childrenGate team (t_id t) (bd_tree b) = Ok tt /\
     assertNoOutstandingActivity render (bw b) (t_id t) (Some m) = true /\ assertNoUnansweredAdminMentions b (t_id t) = true) /\
  (forall s, up_status u = Some s -> taskTerminal s = true -> s <> t_status t -> assertNoPendingTaskSuggestions b (t_id t) = true) /\
  (forall a, truthy who = Some a -> t_assignee t <> Some a -> assertSubordinateAssignee b m a team = Ok tt) /\
  exists parent a, storeTask t (requestedStatus (bw b) t (up_status u)) a parent b = Ok (ch, b').
Proof.
  unfold updateRow. cbn [callerMember notNull]. intros ([] & H1%check_ok & H)%bind_ok. apply bind_ok in H as (x2 & H2 & H). apply bind_ok in H as ([] & H3%check_ok & H).
  apply bind_ok in H as ([] & H4%check_ok & H). apply bind_ok in H as ([] & H5%check_ok & H). apply bind_ok in H as ([] & H6 & H). apply bind_ok in H as (parent & _ & H).
  split_and!.
  - intros Ht s Es. rewrite Es, Ht in H1. cbn in H1. rewrite andb_true_r, andb_true_r, negb_involutive in H1. apply bool_decide_eq_true in H1. by injection H1.
  - intros Es Hne. rewrite Es in H2, H3, H4. rewrite bool_decide_true, bool_decide_false in * by done. cbn in H2, H3, H4. destruct x2. done.
  - intros s Es Ht Hne. rewrite Es, Ht in H5. rewrite bool_decide_false in H5 by congruence. done.
  - intros a Ea Hne. rewrite Ea, bool_decide_false in H6 by done. by apply bind_ok in H6 as (_ & _ & H6).
  - by eexists _, _.
Qed.

(** C23. The status an agent's [update_task] asks for is accepted only on work that is settled. A
    run bound to a task puts no other task in progress; a closed task is asked for no other
    status, though its assignee and parent may still be changed; a task is marked done only when
    every sub-task of the team is closed, no other agent runs on it or is about to answer on it,
    and every question to the admin has an answer; a task is closed only when no suggestion waits
    there; and an agent named as the new assignee is the caller or reports to it. *)
Theorem agent_closes_only_settled_work now team project raw m run task u b b' :
  updateTask render uuid now team project raw (AgentCaller m run task) u b = Ok b' ->
  exists t, findProjectTask (bd_tree b) team project raw = Some t /\
  (up_status u = Some InProgress -> forall own, truthy task = Some own -> own = t_id t) /\
  (taskTerminal (t_status t) = true -> forall s, up_status u = Some s -> s = t_status t) /\
  (up_status u = Some Done -> t_status t <> Done ->
    (forall c, In c (tasks (bw b)) -> parentId (bd_tree b) (t_id c) = Some (t_id t) -> t_team c = team -> taskTerminal (t_status c) = true) /\
    (forall r, In r (activeRuns (bw b)) -> snd r = t_id t -> fst r = m) /\
    (forall w, In w (wakes (bw b)) -> text render (w_payload w) "task_id" = Some (t_id t) -> w_source w ∈ PING_WAKEUP_SOURCES ->
       w_status w ∈ ACTIVE_WAKEUP_STATUSES -> w_member w = m) /\
    (forall ask user, In ask (db_comments (bd_talk b)) -> In (tc_id ask, user) (db_mentions (bd_talk b)) -> tc_task ask = t_id t -> tc_type ask = TextComment ->
       exists c, In c (db_comments (bd_talk b)) /\ tc_task c = t_id t /\ (textReply ask c = true \/ cardAnswer b ask c = true))) /\
  (forall s, up_status u = Some s -> taskTerminal s = true -> s <> t_status t -> forall a, In a (bd_approvals b) -> pendingSuggestion (bw b) (t_id t) a = false) /\
  (forall rawWho who, up_assignee u = Some (Some rawWho) -> rawWho <> "" -> resolveAssigneeId b team rawWho = Some who -> who <> "" -> t_assignee t <> Some who ->
    who = m \/ agentRow b who = None \/ exists i, agentRow b who = Some i /\ an_reportsTo i = Some m).
Proof.
  unfold updateTask. destruct (findProjectTask _ _ _ _) as [t|]; [|done]. intros ([] & Hsc%check_ok & H)%bind_ok. apply bind_ok in H as (who & Hwho & H).
  apply bind_ok in H as ([ch b1] & H & _). apply updateRow_gates in H as (H1 & H2 & H3 & H4 & _). exists t. split_and!; [done| |done| | |].
  - intros E own Eo. unfold assertRunTaskScope in Hsc. rewrite E, Eo in Hsc. cbn in Hsc. by apply String.eqb_eq in Hsc.
  - intros E Hne. destruct (H2 E Hne) as (Hc & Ha & Hm). unfold assertNoOutstandingActivity in Ha. apply andb_true_iff in Ha as [Ha1%negb_true_iff Ha2%negb_true_iff].
    unfold assertNoUnansweredAdminMentions in Hm. apply negb_true_iff in Hm. split_and!; [by apply children_gate_spec| | |].
    + intros r Hr Er. pose proof (existsb_none _ _ r Ha1 Hr) as Hf. cbn in Hf. rewrite Er, String.eqb_refl in Hf. by apply distinct_false.
    + intros w Hw Et Es Est. pose proof (existsb_none _ _ w Ha2 Hw) as Hf. unfold pingOn in Hf. rewrite !bool_decide_true in Hf by done. rewrite !andb_true_r in Hf.
      by apply distinct_false.
    + intros ask user Hask Hmen Et Ety. pose proof (existsb_none _ _ ask Hm Hask) as Hf. unfold unansweredAsk in Hf.
      assert (onTask (t_id t) ask = true) as Hon by (unfold onTask; by rewrite Et, String.eqb_refl).
      assert (existsb (fun p => String.eqb (fst p) (tc_id ask)) (db_mentions (bd_talk b)) = true) as Hex.
      { apply existsb_exists. exists (tc_id ask, user). split; [done|]. apply String.eqb_refl. }
      rewrite Hon, Hex, bool_decide_true in Hf by done. cbn [andb] in Hf.
      apply andb_false_iff in Hf as [Hf|Hf]; apply negb_false_iff, existsb_exists in Hf as (c & Hc' & [Ho%String.eqb_eq Hr]%andb_true_iff); exists c; auto.
  - intros s E Ht Hne a Ha. pose proof (H3 s E Ht Hne) as Hs. unfold assertNoPendingTaskSuggestions in Hs. apply negb_true_iff in Hs. by apply (existsb_none _ _ a Hs).
  - intros rw w E Hrw Er Hw Hne. rewrite E in Hwho. destruct rw as [|ch0 rw]; [done|]. rewrite Er in Hwho. injection Hwho as <-.
    specialize (H4 w). destruct w as [|wc w]; [done|]. specialize (H4 eq_refl Hne). unfold assertSubordinateAssignee in H4.
    destruct (String.eqb_spec m (String wc w)) as [->|]; [by left|]. right. destruct (agentRow b (String wc w)) as [i|]; [|by left]. right. exists i. split; [done|].
    case_bool_decide as Hr; [done|]. by destruct (_ && _).
Qed.
End Gates.

(** Closed tasks keep their status. *)
Definition keeps (W W' : World) : Prop := forall t, In t (tasks W) -> taskTerminal (t_status t) = true ->
  exists t', In t' (tasks W') /\ t_id t' = t_id t /\ t_status t' = t_status t.
#[export] Instance keeps_preorder : PreOrder keeps.
Proof.
  split; [intros W t; by exists t|]. intros W1 W2 W3 H1 H2 t Hin Ht. destruct (H1 t Hin Ht) as (t' & Hin' & E1 & E2).
  destruct (H2 t' Hin') as (t'' & Hin'' & E3 & E4); [by rewrite E2|]. exists t''. split_and!; congruence.
Qed.
Lemma keeps_tasks W W' : tasks W' = tasks W -> keeps W W'.
Proof. intros E t Hin _. exists t. by rewrite E. Qed.
Lemma calm_keeps b b' : calm b b' -> keeps (bw b) (bw b').
Proof. intros (E & _). by apply keeps_tasks. Qed.
Lemma setTaskStatus_keeps W t s : unique_tasks W -> In t (tasks W) -> (taskTerminal (t_status t) = true -> s = t_status t) ->
  keeps W (with_tasks (setTaskStatus (t_id t) s (tasks W)) W).
Proof.
  intros Hu Hin Hs u Hu' Ht. destruct (String.eqb_spec (t_id u) (t_id t)) as [E|E].
  - assert (u = t) as -> by (by apply (NoDup_fmap_In t_id _ u t Hu)). eexists. split; [apply in_map_iff; exists t; by split|].
    unfold isTask. rewrite String.eqb_refl. cbn. auto.
  - exists u. split; [|done]. apply in_map_iff. exists u. split; [|done]. unfold isTask. by rewrite (proj2 (String.eqb_neq _ _) E).
Qed.
Lemma setAssignee_keeps id a W : keeps W (with_tasks (setAssignee id a (tasks W)) W).
Proof.
  intros t Hin _. eexists. split; [apply in_map_iff; exists t; by split|]. by destruct (isTask id t).
Qed.

Lemma reconcile_keeps x actor cascade W : unique_tasks W -> keeps W (fst (reconcileBlockedStatus x actor cascade W)).
Proof.
  intros Hu. unfold reconcileBlockedStatus. destruct (taskOf x W) as [t|] eqn:Et; [|done]. apply find_some in Et as [Hin E%String.eqb_eq].
  destruct (taskTerminal (t_status t)) eqn:Ht; [done|]. destruct (if _ && negb _ then _ else _) as [s|]; [|done]. cbn [fst].
  set (W1 := with_tasks _ W). transitivity W1; [|by apply keeps_tasks, recordStatusChange_graph]. unfold W1. rewrite <- E. apply setTaskStatus_keeps; [done|done|congruence].
Qed.

Section Closed.
Variable render : Json -> string.
Variable uuid : nat -> string.

Lemma pass_keeps now actor run cascade l : forall W, unique_tasks W -> keeps W (fold_left (passStep render uuid now actor run cascade) l W).
Proof.
  induction l as [|x l IH]; intros W Hu; [done|]. cbn [fold_left]. destruct (passStep_spec render uuid now actor run cascade W x Hu) as [Hg _].
  transitivity (passStep render uuid now actor run cascade W x); [|apply IH; by apply (same_graph_unique W)]. unfold passStep.
  pose proof (reconcile_keeps x actor cascade W Hu) as H. destruct (reconcileBlockedStatus x actor cascade W) as [W1 s]. cbn [fst] in H.
  destruct s as [[]|]; try exact H; (etransitivity; [exact H|]); apply keeps_tasks, wakeIfReady_tasks.
Qed.
Lemma automated_keeps now team x s s' actor key run b : unique_tasks (bw b) -> keeps (bw b) (bw (triggerStatusAutomations render uuid now team x s s' actor key run b)).
Proof.
  intros Hu. unfold triggerStatusAutomations. set (b1 := onWorld (recordStatusChange _ _ _ _ _ _) b).
  assert (calm b b1) as H1 by (apply calm_world; apply recordStatusChange_graph). transitivity (bw b1); [by apply calm_keeps|].
  assert (unique_tasks (bw b1)) as Hu1 by (unfold unique_tasks; by rewrite (proj1 H1)). clearbody b1.
  set (b2 := if Bool.eqb _ _ then b1 else _). transitivity (bw b2); [unfold b2; destruct (Bool.eqb _ _); [done|apply (pass_keeps now actor run _ _ (bw b1) Hu1)]|]. clearbody b2.
  set (b3 := if taskTerminal s' then _ else b2). transitivity (bw b3); [unfold b3; destruct (taskTerminal s'); [apply calm_keeps, wakeParent_calm|done]|]. clearbody b3.
  case_bool_decide; [|done]. apply calm_keeps. etransitivity; [apply coach_calm|apply notify_calm].
Qed.

Lemma store_keeps t s a parent b ch b' : unique_tasks (bw b) -> In t (tasks (bw b)) -> (taskTerminal (t_status t) = true -> s = t_status t) ->
  storeTask t s a parent b = Ok (ch, b') -> keeps (bw b) (bw b').
Proof.
  intros Hu Hin Hs. unfold storeTask. destruct (match a with Some _ => _ | None => false end); [done|]. intros [= _ <-].
  transitivity (with_tasks (setTaskStatus (t_id t) s (tasks (bw b))) (bw b)); [by apply setTaskStatus_keeps|].
  etransitivity; [apply (setAssignee_keeps (t_id t) a)|]. apply keeps_tasks. by destruct parent.
Qed.

Lemma agent_update_keeps now team project raw m run task u b b' : board_ok b ->
  updateTask render uuid now team project raw (AgentCaller m run task) u b = Ok b' -> keeps (bw b) (bw b').
Proof.
  intros Hb. unfold updateTask, findProjectTask. destruct (resolveTaskId _ _ _) as [id|]; [|done]. destruct (head _) as [t|] eqn:Eh; [|done].
  apply head_in_seed in Eh as (Hin & _ & Hteam). case_bool_decide as Hproj; [|done]. intros (_ & _ & H)%bind_ok. apply bind_ok in H as (who & _ & H).
  apply bind_ok in H as ([ch b1] & H & E). assert (stores b team t (updateRow render team (AgentCaller m run task) t u who b)) as Hst.
  { unfold updateRow. repeat (apply stores_bind; intros ? ?). by eapply stores_store. }
  destruct (Hst ch b1 H) as (Hs & Eb & Ea). apply updateRow_gates in H as (H1 & _ & _ & _ & parent & a & H). injection E as <-. cbn [fst snd].
  pose proof (frame_unique b (bo_frame b Hb)) as Hu. transitivity (bw b1).
  { apply (store_keeps _ _ _ _ _ _ _ Hu Hin) in H; [done|]. intros Ht. destruct (up_status u) as [s|] eqn:Es; [|done]. cbn. rewrite (H1 Ht s eq_refl).
    unfold coerceTargetStatusForBlockers. by rewrite Ht. }
  unfold afterUpdate, statusAutomated. set (b2 := formerParentWoken _ _ _ _ _ _ _). assert (calm b1 b2) as H2 by apply former_calm. clearbody b2.
  set (b3 := match truthy who with Some _ => _ | None => b2 end).
  assert (calm b1 b3) as H3 by (transitivity b2; [done|]; unfold b3; destruct (truthy who); [|done]; by case_bool_decide). clearbody b3.
  transitivity (bw b3); [by apply calm_keeps|]. case_bool_decide; [done|]. apply automated_keeps, frame_unique. apply (calm_frame b1 b3 H3). apply Hs.
Qed.

Lemma addBlocker_keeps team x raw actor b b' : board_ok b -> addBlocker team x raw actor b = Ok b' -> keeps (bw b) (bw b').
Proof.
  intros [Hf _]. unfold addBlocker. destruct (resolveTaskId _ _ _) as [y|]; [|done]. destruct (String.eqb y x); [done|]. destruct (cycleFree _ _ _); [|done]. cbn [negb].
  destruct (insertEdge x y (bw b)) as [[[] W1]|] eqn:Ei; [|done|done]. cbn [bind_result fst snd]. intros [= <-]. apply insertEdge_spec in Ei as (_ & _ & Et & _).
  transitivity W1; [by apply keeps_tasks|]. apply reconcile_keeps. unfold unique_tasks. rewrite Et. apply (frame_unique b Hf).
Qed.
Lemma dropEdge_keeps now x y actor run b b' : board_ok b -> dropEdge render uuid now x y actor run b = Ok b' -> keeps (bw b) (bw b').
Proof.
  intros [Hf _]. unfold dropEdge. destruct (existsb _ _); [|done]. cbn [negb]. intros [= <-].
  set (W1 := with_deps (List.filter (fun d => negb (isEdge x y d)) (deps (bw b))) (bw b)).
  transitivity W1; [by apply keeps_tasks|]. etransitivity; [apply (reconcile_keeps x actor None W1); apply (frame_unique b Hf)|]. apply keeps_tasks, wakeIfReady_tasks.
Qed.

Lemma attach_tasks team id : forall raws seen db db', attachBlockers team id seen raws db = Ok db' -> tasks (td_world db') = tasks (td_world db).
Proof.
  induction raws as [|raw raws IH]; intros seen db db'; cbn [attachBlockers]; [by intros [= <-]|]. destruct (String.eqb (trim raw) ""); [apply IH|].
  destruct (resolveTaskId _ _ _) as [y|]; [|done]. destruct (String.eqb y id); [done|]. case_bool_decide as Hseen; [apply IH|]. destruct (cycleFree _ _ _); [|done]. cbn [negb].
  destruct (insertEdge _ _ _) as [[added W1]|] eqn:Ei; [|done]. cbn [bind_result snd]. intros H%IH. rewrite H. apply insertEdge_spec in Ei as (_ & _ & Et & _). exact Et.
Qed.
Lemma createTask_keeps now row team input caller b b' : createTask render uuid now row team input caller b = Ok b' -> keeps (bw b) (bw b').
Proof.
  unfold createTask. intros (_ & _ & H)%bind_ok. apply bind_ok in H as (parent & _ & H). apply bind_ok in H as (a & _ & H). apply bind_ok in H as (_ & _ & H).
  apply bind_ok in H as (db & H & E). injection E as <-. transitivity (td_world db); [|apply keeps_tasks; by destruct (isAgent _ _)]. revert H. unfold insertRow.
  intros ([] & [_ Hfresh%negb_true_iff]%check_ok%andb_true_iff & H)%bind_ok. apply bind_ok in H as (db1 & Eat & H). apply bind_ok in H as (db2 & Ese & E).
  apply attach_tasks in Eat. unfold insertChecked in Eat. fold (bw b) in Eat. cbn [t_id] in Eat. rewrite Hfresh in Eat. cbn [insertTask td_world with_tasks tasks] in Eat.
  assert (tasks (td_world db2) = tasks (td_world db1)) as E2.
  { destruct (truthy _); [|by injection Ese as <-]. apply bind_ok in Ese as ([added W2] & Ei & E3). injection E3 as <-. by apply insertEdge_spec in Ei as (_ & _ & Et & _). }
  intros t Hin Ht. assert (In t (tasks (td_world db2))) as Hin2 by (rewrite E2, Eat; apply in_app_iff; by left).
  assert (t_id t <> nr_id row) as Hne.
  { intros E4. assert (In (nr_id row) (List.map t_id (tasks (bw b)))) as H3 by (rewrite <- E4; apply in_map_iff; by exists t). apply existsb_task in H3. congruence. }
  assert (In t (tasks (td_world (settleNew (nr_id row) db2)))) as Hin3.
  { unfold settleNew. destruct (hasOpenBlockers _ _); [|done]. apply in_map_iff. exists t. unfold isTask. by rewrite (proj2 (String.eqb_neq _ _) Hne). }
  exists t. split; [|done]. injection E as <-. destruct (nt_blockers input), (truthy _); first [exact Hin3|exact Hin2].
Qed.

Lemma createItems_keeps now team caller items : forall ids b, keeps (bw b) (bw (snd (createItems render uuid now team items caller ids b))).
Proof.
  induction items as [|[row item] items IH]; intros ids b; [by apply keeps_tasks|]. cbn [createItems].
  destruct (createBatchItem _ _ _ _ _ _ _ _ _ _) as [b1|] eqn:E; [|apply IH]. apply (transitivity (y := bw b1)); [|apply IH]. revert E. unfold createBatchItem.
  intros (? & _ & E)%bind_ok. apply bind_ok in E as (? & _ & E). by apply createTask_keeps in E.
Qed.

(** Writes that agents can make. *)
Definition byAgent (e : WriteEvent) : bool :=
  match e with
  | Update _ _ _ _ c _ => notNull (callerMember c)
  | AddTaskBlocker _ _ _ _ _ | RemoveTaskBlocker _ _ _ _ _ _ | CreateTask _ _ _ _ _ | CreateTaskBatch _ _ _ _ => true
  | Patch _ _ _ _ _ _ | PostDependency _ _ _ _ | DeleteDependency _ _ _ _ _ => false
  end.
Lemma agent_step_keeps b e : board_ok b -> byAgent e = true -> keeps (bw b) (bw (writeStep render uuid b e)).
Proof.
  intros Hb. assert (forall r, (forall b', r = Ok b' -> keeps (bw b) (bw b')) -> keeps (bw b) (bw (orKeep b r))) as H by (intros [b'|] Hr; [by apply Hr|done]).
  destruct e; cbn [byAgent writeStep]; try done; intros He; try apply H; try intros b'.
  - destruct c; [|done|done]. by apply agent_update_keeps.
  - unfold addTaskBlocker. destruct (findProjectTask _ _ _ _); [|done]. by apply addBlocker_keeps.
  - unfold removeTaskBlocker. destruct (findProjectTask _ _ _ _); [|done]. destruct (resolveTaskId _ _ _); [|done]. by apply dropEdge_keeps.
  - by apply createTask_keeps.
  - apply createItems_keeps.
Qed.

(** C24. Only people re-open work: through any writes agents make - updates, blockers, new tasks -
    a task that is done or cancelled keeps that status. *)
Theorem agents_never_reopen b evs t : board_ok b -> forallb byAgent evs = true -> In t (tasks (bw b)) -> taskTerminal (t_status t) = true ->
  exists t', In t' (tasks (bw (fold_left (writeStep render uuid) evs b))) /\ t_id t' = t_id t /\ t_status t' = t_status t.
Proof.
  intros Hb Ha Hin Ht. enough (keeps (bw b) (bw (fold_left (writeStep render uuid) evs b))) as H by (by apply H). clear t Hin Ht. revert b Hb.
  induction evs as [|e evs IH]; intros b Hb; [done|]. cbn [fold_left forallb] in *. apply andb_true_iff in Ha as [He Ha].
  etransitivity; [by apply agent_step_keeps|]. apply IH; [done|]. by apply writeStep_ok.
Qed.
End Closed.

(** ** The parent is woken *)

(** When the last open sub-task of a task closes or moves away, the agent of the task has a queued
    wakeup for it - as long as the queued wakeup under its key, if there is one, is that agent's
    for that task; while a sub-task is open nothing changes. *)
Theorem closed_children_wake_parent render uuid now team p run db t a :
  taskOf p (td_world db) = Some t -> t_assignee t = Some a -> a <> "" -> a ∈ agents (td_world db) -> NoDup (List.map w_id (wakes (td_world db))) ->
  (forall w, In w (wakes (td_world db)) -> w_key w = Some ("children-closed:" +:+ p) -> w_status w = Queued -> wakesFor render a p w) ->
  let db' := wakeTaskIfChildrenClosed render uuid now team p run db in
  if childrenClosed team p db then exists w, In w (wakes (td_world db')) /\ wakesFor render a p w else db' = db.
Proof.
  intros Ht Ha Hne Hag Hnd Hkey. unfold wakeTaskIfChildrenClosed, isAgent. destruct (childrenClosed team p db); [|done]. cbn [negb].
  rewrite Ht, Ha. assert (truthy (Some a) = Some a) as -> by (destruct a; done). rewrite bool_decide_true by done. cbn [negb onTreeWorld td_world].
  unfold wakeRow. cbn [wakes with_wakes]. set (W := td_world db) in *. set (payload := <["task_id" := _]> _).
  assert (guarantees (after_select quiet)) as Hq.
  { intros t0 Hnd0 w w' Hin Hin' Hid. rewrite (NoDup_fmap_In w_id t0 w w' Hnd0 Hin Hin' Hid). split; auto. }
  pose proof (createWakeup_row render quiet now (uuid (nextId W)) a (t_team t) Assignment payload (Some ("children-closed:" +:+ p)) run (wakes W) Hq Hnd) as H.
  destruct (createWakeup _ _ _ _ _ _ _ _ _ _ _) as [t' id]. cbn [fst].
  destruct H as [(k & w & Hk & Hin & Hwk & Hs & Hid & Ht')|(w & Hin & _ & Hs & Hm & _ & Hc)].
  - cbn in Hk. injection Hk as <-. pose proof (Hkey w Hin Hwk Hs) as Hw. destruct Ht' as [-> |[r ->]]; [by exists w|].
    exists (credit r w). split; [|exact Hw]. apply update_In; [done|]. unfold hasId. by rewrite Hid, String.eqb_refl.
  - exists w. split; [done|]. split; [done|]. split; [done|]. by eapply carried_task.
Qed.

(** ** Concrete boards *)

Definition demo_render (_ : Json) : string := "".
Definition demo_uuid (n : nat) : string := "w" +:+ String (ascii_of_nat (65 + n)) "".
Notation demo_write := (writeStep demo_render demo_uuid).
Definition demo_talk (cs : list TaskComment) (mentions : list (string * string)) : TaskDb := mkTaskDb [] cs [] mentions [] [] [] [] None.
Definition demo_staff : list (string * AgentInfo) :=
  [("cap", mkAgentInfo "captain" None None true None); ("eng", mkAgentInfo "engineer" None (Some "cap") true None); ("qa", mkAgentInfo "tester" None (Some "cap") true None)].
Definition demo_new (project assignee : string) (parent : option string) (labels blockers : list string) : NewTask :=
  mkNewTask project "A task" "" (Some assignee) None parent labels blockers.
Definition demo_add (id identifier assignee : string) (parent : option string) (labels blockers : list string) : WriteEvent :=
  CreateTask 0 (mkNewRow id identifier "proj") "team" (demo_new "P" assignee parent labels blockers) (mkCreator None None None).
Definition set_status (s : TaskStatus) : TaskPatch := mkPatch (Some s) None None.
Definition by_admin (raw : string) (u : TaskPatch) : WriteEvent := Patch 0 "team" raw u None None.

(** BE-1 with BE-2 below it, and BE-3 that waits for BE-2; the engineer runs on BE-2. *)
Definition demo_filed (talk : TaskDb) (staff : list (string * AgentInfo)) (runs : list (string * string)) : Board := fold_left demo_write
  [demo_add "t1" "BE-1" "cap" None [] []; demo_add "t2" "BE-2" "eng" (Some "BE-1") [OAUTH_VERIFICATION_LABEL] []; demo_add "t3" "BE-3" "qa" None [] ["be-2"]]
  (startBoard staff [("cap", "team"); ("eng", "team"); ("qa", "team"); ("riv", "rivals")] talk [] [] [] runs).
Definition demo_office : Board := demo_filed (demo_talk [] []) demo_staff [("eng", "t2")].
Definition demo_idle : Board := demo_filed (demo_talk [] []) demo_staff [].
Definition status_of (b : Board) (id : string) : option TaskStatus := t_status <$> taskOf id (bw b).
Definition woken (b : Board) (member task : string) : bool :=
  existsb (fun w => isQueued w && String.eqb (w_member w) member && bool_decide (text demo_render (w_payload w) "task_id" = Some task)) (wakes (bw b)).

(** The engineer closes BE-2: its dependent is ready and the agents of the parent and of the
    dependent are woken. *)
Example demo_close :
  let b := demo_write demo_office (Update 1 "team" "P" "BE-2" (AgentCaller "eng" (Some "r1") (Some "t2")) (set_status Done)) in
  status_of demo_office "t3" = Some Blocked /\ status_of b "t2" = Some Done /\ status_of b "t3" = Some Backlog /\ woken b "cap" "t1" = true /\ woken b "qa" "t3" = true.
Proof. vm_compute. done. Qed.

Lemma agent_closes_only_settled_work_witness : exists b' t,
  updateTask demo_render demo_uuid 1 "team" "P" "BE-2" (AgentCaller "eng" (Some "r1") (Some "t2")) (set_status Done) demo_office = Ok b' /\
  findProjectTask (bd_tree demo_office) "team" "P" "BE-2" = Some t /\
  forall r, In r (activeRuns (bw demo_office)) -> snd r = t_id t -> fst r = "eng".
Proof.
  assert (exists b', updateTask demo_render demo_uuid 1 "team" "P" "BE-2" (AgentCaller "eng" (Some "r1") (Some "t2")) (set_status Done) demo_office = Ok b') as [b' E]
    by (eexists; vm_compute; reflexivity).
  exists b'. destruct (agent_closes_only_settled_work demo_render demo_uuid 1 "team" "P" "BE-2" "eng" (Some "r1") (Some "t2") (set_status Done) demo_office b' E)
    as (t & Ht & _ & _ & Hd & _). exists t. split; [exact E|]. split; [exact Ht|]. apply Hd; [reflexivity|].
  intros Hs. assert (option_map t_status (findProjectTask (bd_tree demo_office) "team" "P" "BE-2") = Some InProgress \/
    option_map t_status (findProjectTask (bd_tree demo_office) "team" "P" "BE-2") = Some Backlog) as [H|H] by (right; vm_compute; reflexivity);
    rewrite Ht in H; cbn in H; congruence.
Defined.

Lemma agents_never_reopen_witness : let b := demo_write demo_office (by_admin "BE-1" (set_status Cancelled_)) in
  exists t', In t' (tasks (bw (fold_left demo_write [Update 2 "team" "P" "BE-1" (AgentCaller "eng" (Some "r1") None) (set_status InProgress);
    AddTaskBlocker "team" "P" "BE-1" "BE-3" (AgentCaller "eng" (Some "r1") None)] b))) /\ t_id t' = "t1" /\ t_status t' = Cancelled_.
Proof.
  intros b. apply (agents_never_reopen demo_render demo_uuid b _ (mkTask "t1" Cancelled_ (Some "cap") "team" "BE-1" "proj")).
  - apply writeStep_ok, writes_ok, start_ok.
  - vm_compute. reflexivity.
  - vm_compute. tauto.
  - vm_compute. reflexivity.
Defined.

(** ** Behaviour that differs from its documentation *)

(** Cancelling checks no sub-tasks, so a cancelled task can have open ones. *)
Lemma cancelled_parent_keeps_open_child :
  let b := demo_write demo_office (by_admin "BE-1" (set_status Cancelled_)) in
  status_of b "t1" = Some Cancelled_ /\ status_of b "t2" = Some Backlog /\ parentId (bd_tree b) "t2" = Some "t1".
Proof. vm_compute. done. Qed.

(** A move that also re-opens the task is judged by the status before it, and leaves an open task
    under a closed one. *)
Lemma reopened_task_nested_under_closed :
  let b := fold_left demo_write [by_admin "BE-2" (set_status Done); by_admin "BE-3" (set_status Done); by_admin "BE-1" (set_status Done);
    by_admin "BE-3" (mkPatch (Some Backlog) None (Some (Some "BE-1")))] demo_idle in
  status_of b "t1" = Some Done /\ status_of b "t3" = Some Backlog /\ parentId (bd_tree b) "t3" = Some "t1".
Proof. vm_compute. done. Qed.

(** Re-opening a task and assigning it anew in one request tells the previous assignee that it was
    re-opened. *)
Lemma reopen_wakes_previous_assignee :
  let b := fold_left demo_write [by_admin "BE-3" (set_status Cancelled_); by_admin "BE-3" (mkPatch (Some Backlog) (Some (Some "eng")) None)] demo_idle in
  (taskOf "t3" (bw b) ≫= t_assignee) = Some "eng" /\
  existsb (fun w => String.eqb (w_member w) "qa" && bool_decide (text demo_render (w_payload w) "trigger" = Some "task_reopened")) (wakes (bw b)) = true.
Proof. vm_compute. done. Qed.

(** The notice that a connector is verified has no author when the Captain is disabled, and then
    counts as the admin's answer to a question on the task. *)
Lemma unowned_notice_answers_admin :
  let ask := mkTaskComment "c0" "t1" 0 None (Some "eng") None None None None false TextComment None in
  let b := demo_filed (demo_talk [ask] [("c0", "u1")]) [("cap", mkAgentInfo "captain" None None false None); ("eng", mkAgentInfo "engineer" None (Some "cap") true None)]
             [("eng", "t2")] in
  let b' := demo_write b (Update 1 "team" "P" "BE-2" (AgentCaller "eng" (Some "r1") (Some "t2")) (set_status Done)) in
  assertNoUnansweredAdminMentions b "t1" = false /\ assertNoUnansweredAdminMentions b' "t1" = true.
Proof. vm_compute. done. Qed.

Definition demo_foreign : string := "aaaaaaaa-aaaa-aaaa-aaaa-aaaaaaaaaaaa".
(** A dependency posted in one project can name a task of another team by its id, and blocks it. *)
Lemma dependency_crosses_teams :
  let b := demo_write demo_office (CreateTask 0 (mkNewRow demo_foreign "RV-1" "rival") "rivals" (demo_new "Q" "riv" None [] []) (mkCreator None None None)) in
  let b' := demo_write b (PostDependency "team" demo_foreign "BE-2" None) in
  status_of b demo_foreign = Some Backlog /\ status_of b' demo_foreign = Some Blocked.
Proof. vm_compute. done. Qed.

(** The cycle check and the insertion are two statements: two blockers added at the same time can
    close a cycle. *)
Lemma concurrent_blockers_close_a_cycle :
  let W := bw demo_office in
  cycleFree W "t1" "t3" = true /\ cycleFree W "t3" "t1" = true /\
  exists W1 W2, insertEdge "t1" "t3" W = Ok (true, W1) /\ insertEdge "t3" "t1" W1 = Ok (true, W2) /\ ~ acyclic (deps W2).
Proof.
  split; [vm_compute; done|]. split; [vm_compute; done|]. eexists _, _. split; [vm_compute; reflexivity|]. split; [vm_compute; reflexivity|].
  intros H. apply (H "t1"). apply (tc_l _ _ "t3"); [|apply tc_once]; unfold edge; apply list_elem_of_In; cbn; tauto.
Qed.

Lemma closed_children_wake_parent_witness :
  let db := bd_tree (fold_left demo_write [by_admin "BE-2" (set_status Done)] demo_idle) in
  exists w, In w (wakes (td_world (wakeTaskIfChildrenClosed demo_render demo_uuid 2 "team" "t1" None db))) /\ wakesFor demo_render "cap" "t1" w.
Proof.
  intros db. refine (closed_children_wake_parent demo_render demo_uuid 2 "team" "t1" None db (mkTask "t1" Backlog (Some "cap") "team" "BE-1" "proj") "cap" _ _ _ _ _ _).
  - vm_compute. reflexivity.
  - reflexivity.
  - discriminate.
  - apply list_elem_of_In. vm_compute. tauto.
  - apply (bool_decide_eq_true_1 (NoDup (List.map w_id (wakes (td_world db))))). vm_compute. reflexivity.
  - intros w Hin Hk _. exfalso. vm_compute in Hin. repeat (destruct Hin as [<-|Hin]; [vm_compute in Hk; discriminate|]). exact Hin.
Defined.
