(* ===== verification/Completion.v ===== *)
(** * The end of a run, and scheduled heartbeats

    A model of the part of [packages/server/src/services/job-manager.ts] that closes a run:
    [onAgentComplete] with the continuation of a run that timed out, the settlement of its
    wakeup, the failure notice and the chain to the agent's next task, and
    [finalizeThrownRun]; and of the sweep that wakes agents on their interval
    ([processScheduledHeartbeats]) with the countdown the pages show
    ([heartbeat-schedule.ts]). Each function's statements run alone; an insert that fails is
    an argument. Broadcasts and log lines are left out. *)
From Stdlib Require Import ZArith Lia Ascii String List Bool Permutation Sorted.
From stdpp Require Import base list strings gmap option.
From S2P Require Import Prelude Sql JsString Budget ContainerHours Admission Wakeups Dependencies RunRows Holds TokenBudget.
From S2P Require Import DispatchGuards Orphans Dispatcher.

Open Scope string_scope.
Open Scope list_scope.
Open Scope Z_scope.

(** The content of a [run_failed] notice. *)
Record FailurePing := mkPing {
  fp_comment : string; fp_task : string; fp_run : string; fp_status : HeartbeatRunStatus; fp_error : option string;
  fp_member : string
}.

(** [cd_teams] is the [team_id] of each agent's member row. *)
Record CompletionDb := mkCompletion {
  cd_dispatch : DispatchDb; cd_approvals : list Approval; cd_notices : list (string * string);
  cd_pings : list FailurePing; cd_teams : list (string * string)
}.

Definition cd_now (c : CompletionDb) : Z := dd_now (cd_dispatch c).
Definition cd_runs (c : CompletionDb) : list HeartbeatRun := db_runs (dd_task (cd_dispatch c)).
Definition cd_wakes (c : CompletionDb) : Table := dd_wakes (cd_dispatch c).
Definition onDispatch (f : DispatchDb -> DispatchDb) (c : CompletionDb) : CompletionDb :=
  mkCompletion (f (cd_dispatch c)) (cd_approvals c) (cd_notices c) (cd_pings c) (cd_teams c).

(** The tables the handback and the approvals of lost runs are written on. *)
Definition asOrphans (c : CompletionDb) : OrphanDb :=
  mkOrphanDb (cd_runs c) (cd_wakes c) (dd_locks (cd_dispatch c)) (dd_budget (cd_dispatch c)) (cd_approvals c) (cd_notices c).
Definition fromOrphans (o : OrphanDb) (c : CompletionDb) : CompletionDb :=
  let d := cd_dispatch c in
  mkCompletion (put_budget (od_budget o) (put_locks (od_locks o)
                  (put_task (with_runs (od_runs o) (with_wakeups (od_wakes o) (dd_task d))) d)))
    (od_approvals o) (od_notices o) (cd_pings c) (cd_teams c).
Definition onOrphans (f : OrphanDb -> OrphanDb) (c : CompletionDb) : CompletionDb := fromOrphans (f (asOrphans c)) c.

Definition MAX_CONSECUTIVE_FAILURE_PINGS : nat := 3.
Definition FAILURE_PING_ERROR_MAX_LEN : nat := 500.
Definition NON_PINGING_STATUSES : list HeartbeatRunStatus := [RunSucceeded; RunCancelled].
Definition FAILURE_TERMINAL_STATUSES : list HeartbeatRunStatus := [RunFailed; RunTimedOut].

(** What the runner reports: [rr_requeue] is the cause of a handback. *)
Record RunResult := mkRunResult {
  rr_success : bool; rr_timedOut : bool; rr_requeue : option HandbackCause; rr_run : option string; rr_stderr : option string
}.

Section Completion.
Variable render : Json -> string.
(** [heartbeatIntervalFloorMin()]. *)
Variable floorMin : Z.
Variable fresh : Table -> string.
Variable freshComment : list TaskComment -> string.

(** ** Settling the wakeup *)

Definition intentOf (result : RunResult) : SettlementIntent :=
  match rr_requeue result with
  | Some cause => Handback cause
  | None => if rr_success result then Complete else Fail_
  end.

(** [JobManager.settleWakeupForRun]: whether the work is back on the queue. *)
Definition settleRun (wakeupId : option string) (result : RunResult) (taskId : option string) (c : CompletionDb)
    : CompletionDb * bool :=
  let '(t, settled) := settleWakeupForRun (cd_now c) wakeupId (intentOf result) (cd_wakes c) in
  let c := onDispatch (put_wakes t) c in
  let requeued := match settled with Requeued => true | _ => false end in
  match rr_requeue result, truthy (rr_run result) with
  | Some _, Some runId =>
      (onOrphans (fun o => fst (recordHandbackOutcome runId taskId RunCancelled
                                  (if requeued then WasRequeued else WasAbandoned) None o)) c, requeued)
  | _, _ => (c, requeued)
  end.

(** ** A run that hit its time limit *)

Inductive Continuation := ContinuationQueued | AttemptsExhausted | ContinuationFailed.

Definition continuationPayload (taskId : string) : JsPayload :=
  <["task_id" := Some (JStr taskId)]> {["reason" := Some (JStr "timeout_continuation")]}.

(** [inserts]: the insert of the wakeup succeeds. *)
Definition queueTimeoutContinuation (inserts : bool) (memberId taskId teamId : string) (c : CompletionDb)
    : CompletionDb * Continuation :=
  if attemptsExhaustedOnTask (dd_task (cd_dispatch c)) (cd_now c) memberId (Some taskId) false then (c, AttemptsExhausted)
  else if inserts
       then (onOrphans (create render fresh memberId teamId Timer (continuationPayload taskId) None) c, ContinuationQueued)
       else (c, ContinuationFailed).

Definition exhaustedMessage : string :=
  "This agent has given up on this task 6 times in the last 24 hours without finishing it, so Hezo has stopped dispatching onto it. Each attempt spends a full run's model allowance, so retrying unchanged will not converge. Narrow the task, raise the agent's run time limit, or press Retry once you have changed something.".

Definition fileExhaustedAttemptsApproval (runId memberId teamId : string) (taskId : option string) : OrphanDb -> OrphanDb :=
  fileLostRunApproval render (Some runId) memberId teamId taskId None exhaustedMessage.

(** ** The failure notice *)

(** [ORDER BY started_at DESC NULLS LAST]. *)
Definition latestStarted (a b : HeartbeatRun) : Z :=
  match hr_started a, hr_started b with
  | Some x, Some y => y - x
  | Some _, None => -1
  | None, Some _ => 1
  | None, None => 0
  end.

Definition decidedRuns (memberId taskId : string) (runs : list HeartbeatRun) : list HeartbeatRun :=
  List.filter (fun r => String.eqb (hr_member r) memberId && equals (hr_task r) taskId
                        && bool_decide (hr_status r ∈ [RunSucceeded; RunFailed; RunTimedOut])) runs.
Definition lastDecidedRuns (memberId taskId : string) (runs : list HeartbeatRun) : list HeartbeatRun :=
  take MAX_CONSECUTIVE_FAILURE_PINGS (js_sort latestStarted (decidedRuns memberId taskId runs)).

Definition failedRun (r : HeartbeatRun) : bool := bool_decide (hr_status r ∈ FAILURE_TERMINAL_STATUSES).
Definition failureStreak (memberId taskId : string) (runs : list HeartbeatRun) : bool :=
  let recent := lastDecidedRuns memberId taskId runs in
  (MAX_CONSECUTIVE_FAILURE_PINGS <=? List.length recent)%nat && forallb failedRun recent.

Definition truncateError (raw : option string) : option string :=
  match truthy raw with
  | None => None
  | Some e => Some (if (FAILURE_PING_ERROR_MAX_LEN <? String.length e)%nat
                    then String.substring 0 FAILURE_PING_ERROR_MAX_LEN e +:+ "…" else e)
  end.

Definition addPing (taskId runId memberId : string) (status : HeartbeatRunStatus) (error : option string) (c : CompletionDb)
    : CompletionDb :=
  let d := dd_task (cd_dispatch c) in
  let id := freshComment (db_comments d) in
  let comment := mkTaskComment id taskId (cd_now c) None None None None None None false SystemComment (Some "run_failed") in
  let c := onDispatch (put_task (with_comments (db_comments d ++ [comment]) d)) c in
  mkCompletion (cd_dispatch c) (cd_approvals c) (cd_notices c) (cd_pings c ++ [mkPing id taskId runId status error memberId])
    (cd_teams c).

Definition postFailurePing (memberId taskId runId : string) (fallbackError : option string) (c : CompletionDb) : CompletionDb :=
  match List.find (runHasId runId) (cd_runs c) with
  | None => c
  | Some run =>
      if bool_decide (hr_status run ∈ NON_PINGING_STATUSES) then c
      else
        let status := if bool_decide (hr_status run ∈ FAILURE_TERMINAL_STATUSES) then hr_status run else RunFailed in
        if failureStreak memberId taskId (cd_runs c) then c
        else addPing taskId runId memberId status (truncateError (coalesce (hr_error run) fallbackError)) c
  end.

(** ** The next task *)

Definition intervalOf (memberId : string) (c : CompletionDb) : option Z :=
  ag_interval <$> List.find (fun a => String.eqb (ag_id a) memberId) (db_agents (dd_task (cd_dispatch c))).
Definition chainCooldownMin (memberId : string) (c : CompletionDb) : Z := Z.max (default floorMin (intervalOf memberId c)) floorMin.

Definition hasActiveRun (memberId taskId : string) (c : CompletionDb) : bool :=
  existsb (fun r => equals (hr_task r) taskId && String.eqb (hr_member r) memberId && activeStatus (hr_status r)) (cd_runs c).
Definition hasLiveWakeup (memberId taskId : string) (c : CompletionDb) : bool :=
  existsb (fun w => String.eqb (w_member w) memberId && bool_decide (w_status w ∈ [Queued; Claimed])
                    && equals (text render (w_payload w) "task_id") taskId) (cd_wakes c).
Definition ranLately (memberId taskId : string) (minutes : Z) (c : CompletionDb) : bool :=
  existsb (fun r => equals (hr_task r) taskId && String.eqb (hr_member r) memberId && bool_decide (hr_status r = RunSucceeded)
                    && match hr_finished r with Some f => cd_now c - minutes * US_PER_MIN <? f | None => false end) (cd_runs c).

Definition chainable (memberId agentSlug justCompletedTaskId teamId : string) (c : CompletionDb) (t : TaskRow) : bool :=
  equals (tk_assignee t) memberId
  && (bool_decide (agentSlug ∈ INSTANCE_AGENT_SLUGS) || String.eqb (tk_team t) teamId)
  && negb (String.eqb (tk_id t) justCompletedTaskId)
  && negb (taskTerminal (tk_status t))
  && negb (hasOpenBlockers (dependencyView (cd_dispatch c)) (tk_id t))
  && negb (hasActiveRun memberId (tk_id t) c)
  && negb (hasLiveWakeup memberId (tk_id t) c)
  && negb (ranLately memberId (tk_id t) (chainCooldownMin memberId c) c).

Definition nextTask (memberId agentSlug justCompletedTaskId teamId : string) (c : CompletionDb) : option TaskRow :=
  head (js_sort byPriority (List.filter (chainable memberId agentSlug justCompletedTaskId teamId c) (dd_tasks (cd_dispatch c)))).

Definition chainPayload (taskId : string) : JsPayload :=
  <["task_id" := Some (JStr taskId)]> {["reason" := Some (JStr "chain_after_completion")]}.

Definition chainNextTaskWakeup (inserts : bool) (memberId agentSlug justCompletedTaskId teamId : string)
    (finishedRunId : option string) (c : CompletionDb) : CompletionDb :=
  match nextTask memberId agentSlug justCompletedTaskId teamId c with
  | None => c
  | Some t => if inserts then onOrphans (create render fresh memberId teamId Timer (chainPayload (tk_id t)) finishedRunId) c else c
  end.

(** ** Completion *)

Definition settleIdle (memberId : string) (runId : option string) (c : CompletionDb) : CompletionDb :=
  onDispatch (fun d => put_budget (fst (setAgentIdleIfNoActiveRuns (db_runs (dd_task d)) memberId (truthy runId) (dd_budget d))) d) c.

(** The rest of the completion once the work is not back on the queue. *)
Definition reportAndChain (inserts : bool) (memberId agentSlug taskId teamId : string) (result : RunResult) (c : CompletionDb)
    : CompletionDb :=
  let c := match truthy (rr_run result) with
           | Some runId => if rr_success result then c
                           else postFailurePing memberId taskId runId (truthy (trim <$> rr_stderr result)) c
           | None => c
           end in
  chainNextTaskWakeup inserts memberId agentSlug taskId teamId (rr_run result) c.

(** The continuation of a run that timed out, before that. *)
Definition continueOrReport (inserts : bool) (memberId agentSlug taskId teamId : string) (result : RunResult) (c : CompletionDb)
    : CompletionDb :=
  if rr_timedOut result then
    match queueTimeoutContinuation inserts memberId taskId teamId c with
    | (c, ContinuationQueued) => c
    | (c, AttemptsExhausted) =>
        let c := match truthy (rr_run result) with
                 | Some runId => onOrphans (fileExhaustedAttemptsApproval runId memberId teamId (Some taskId)) c
                 | None => c
                 end in
        reportAndChain inserts memberId agentSlug taskId teamId result c
    | (c, ContinuationFailed) => reportAndChain inserts memberId agentSlug taskId teamId result c
    end
  else reportAndChain inserts memberId agentSlug taskId teamId result c.

Definition onAgentComplete (inserts : bool) (memberId agentSlug taskId teamId : string) (wakeupId : option string)
    (result : RunResult) (c : CompletionDb) : CompletionDb :=
  let c := onDispatch (releaseLock memberId taskId) c in
  let c := settleIdle memberId (rr_run result) c in
  let '(c, requeued) := settleRun wakeupId result (Some taskId) c in
  if requeued then c else continueOrReport inserts memberId agentSlug taskId teamId result c.

(** A run whose driver threw. *)
Definition thrown (now : Z) (message : string) (r : HeartbeatRun) : HeartbeatRun :=
  mkHeartbeatRun (hr_id r) (hr_member r) (hr_team r) (hr_task r) (hr_wakeup r) (hr_kind r) RunFailed (hr_created r)
    (coalesce (hr_started r) (Some now)) (Some now) (hr_no_work r) (hr_cancel r) (hr_stop r) (hr_input r) (hr_output r)
    (hr_retries r) (coalesce (hr_error r) (Some message)) (coalesce (hr_exit r) (Some (-1))) (hr_retry_of r).
Definition finalizeThrownRun (runId message : string) (c : CompletionDb) : CompletionDb :=
  onOrphans (updateRuns (fun r => runHasId runId r && activeStatus (hr_status r)) (thrown (cd_now c) message)) c.

(** The catch of the launched run, with its id once it registered one. *)
Definition completeThrownRun (inserts : bool) (memberId agentSlug taskId teamId : string) (wakeupId : option string)
    (runId : option string) (message : string) (c : CompletionDb) : CompletionDb :=
  let c := match truthy runId with Some id => finalizeThrownRun id message c | None => c end in
  onAgentComplete inserts memberId agentSlug taskId teamId wakeupId (mkRunResult false false None runId (Some message)) c.
End Completion.

(** ** Scheduled heartbeats *)

Definition HEARTBEAT_BATCH : nat := 5.

Section Heartbeats.
Variable render : Json -> string.
Variables floorMin coalescing cooldownSec : Z.
Variable fresh : Table -> string.
Variable freshComment : list TaskComment -> string.
Variable freshLock : list ExecutionLock -> string.
Variable taskLess : AgentRow -> string -> DispatchDb -> DispatchDb * TaskLessResult.
Variable missedReview : string -> DispatchDb -> option TaskRow.

(** [last_heartbeat_at + GREATEST(interval, floor)]. *)
Definition nextBeat (interval at_ : Z) : Z := at_ + Z.max interval floorMin * US_PER_MIN.

Definition onSchedule (a : AgentRow) (b : BudgetAgent) : bool :=
  ar_enabled a && negb (bool_decide (ba_runtime b ∈ BUDGET_PAUSE_STATUSES)).

Definition cooling (memberId : string) (c : CompletionDb) : bool :=
  existsb (fun r => String.eqb (hr_member r) memberId
                    && match hr_finished r with Some f => cd_now c - cooldownSec * US_PER_SEC <? f | None => false end) (cd_runs c).
Definition waitsOutHold (memberId : string) (c : CompletionDb) : bool :=
  existsb (fun w => String.eqb (w_member w) memberId && isQueued w
                    && match w_not_before w with Some n => cd_now c <? n | None => false end) (cd_wakes c).

(** A row of [member_agents] joined to its interval. *)
Definition scheduleRow (a : AgentRow) (c : CompletionDb) : option (BudgetAgent * Z) :=
  b ← agentOf (dd_budget (cd_dispatch c)) (ar_id a); i ← intervalOf (ar_id a) c; Some (b, i).

Definition dueAgent (c : CompletionDb) (a : AgentRow) : bool :=
  match scheduleRow a c with
  | None => false
  | Some (b, interval) =>
      onSchedule a b
      && match ba_heartbeat b with None => true | Some at_ => nextBeat interval at_ <? cd_now c end
      && negb (cooling (ar_id a) c) && negb (waitsOutHold (ar_id a) c)
  end.

(** [ORDER BY last_heartbeat_at NULLS FIRST]. *)
Definition lastBeat (c : CompletionDb) (a : AgentRow) : option Z := agentOf (dd_budget (cd_dispatch c)) (ar_id a) ≫= ba_heartbeat.
Definition longestWaiting (c : CompletionDb) (a b : AgentRow) : Z :=
  match lastBeat c a, lastBeat c b with
  | Some x, Some y => x - y
  | Some _, None => 1
  | None, Some _ => -1
  | None, None => 0
  end.
Definition dueAgents (c : CompletionDb) : list AgentRow :=
  take HEARTBEAT_BATCH (js_sort (longestWaiting c) (List.filter (dueAgent c) (dd_agents (cd_dispatch c)))).

Definition heartbeatPayload : JsPayload := {["reason" := Some (JStr "scheduled_heartbeat")]}.
Definition heartbeatJson : Payload := {["reason" := JStr "scheduled_heartbeat"]}.

Definition claimBeat (now : Z) (w : Wakeup) : Wakeup :=
  mkWakeup (w_id w) (w_member w) (w_team w) (w_source w) (w_payload w) Claimed (w_key w) (w_run w) (w_created w)
    (w_count w) (Some now) (w_skipped w) (w_reason w) None None (w_completed w).

Definition teamOfMember (memberId : string) (c : CompletionDb) : option string :=
  snd <$> List.find (fun p => String.eqb (fst p) memberId) (cd_teams c).

(** The loop body; the activation's verdict when there was one. *)
Definition beat (posts : bool) (a : AgentRow) (c : CompletionDb) : CompletionDb * option Activation :=
  if isMemberRunning (ar_id a) (dd_jobs (cd_dispatch c)) then (c, None)
  else
    let team := default "" (teamOfMember (ar_id a) c) in
    let '(t, wakeupId) := createWakeup render quiet (cd_now c) (fresh (cd_wakes c)) (ar_id a) team Heartbeat heartbeatPayload
                            None None (cd_wakes c) in
    let c := onDispatch (put_wakes t) c in
    let p := fun w => hasId wakeupId w && isQueued w && holdElapsed (cd_now c) w in
    if existsb p t then
      let c := onDispatch (put_wakes (update p (claimBeat (cd_now c)) t)) c in
      let '(d, r) := activateAgent render floorMin freshComment freshLock taskLess missedReview (ar_id a) team wakeupId heartbeatJson
                       Heartbeat posts (cd_dispatch c) in
      (onDispatch (fun _ => d) c, Some r)
    else (onDispatch (stampHeartbeat (ar_id a)) c, None).

(** An activation that throws ends the sweep. *)
Fixpoint beats (posts : bool) (l : list AgentRow) (c : CompletionDb) : CompletionDb :=
  match l with
  | [] => c
  | a :: l => match beat posts a c with
              | (c, Some Threw) => c
              | (c, _) => beats posts l c
              end
  end.
Definition processScheduledHeartbeats (posts : bool) (c : CompletionDb) : CompletionDb := beats posts (dueAgents c) c.

(** [nextHeartbeatAtSql] and [HAS_ACTIONABLE_WORK_SQL]. *)
Definition nextHeartbeatAt (c : CompletionDb) (a : AgentRow) : option Z :=
  match scheduleRow a c with
  | None => None
  | Some (b, interval) =>
      if onSchedule a b then Some (match ba_heartbeat b with None => cd_now c | Some at_ => nextBeat interval at_ end) else None
  end.
Definition hasActionableWork (c : CompletionDb) (memberId : string) : bool :=
  existsb (fun t => equals (tk_assignee t) memberId && negb (taskTerminal (tk_status t))
                    && negb (hasOpenBlockers (dependencyView (cd_dispatch c)) (tk_id t))) (dd_tasks (cd_dispatch c)).
End Heartbeats.

(** ** A completed run leaves nothing held *)

Section CompletionLaws.
Variable render : Json -> string.
Variable floorMin : Z.
Variable fresh : Table -> string.
Variable freshComment : list TaskComment -> string.

(** The tables a step of the completion may not touch once the run is settled, and no wakeup
    becomes claimed. *)
Definition settledFrame (c c' : CompletionDb) : Prop :=
  dd_locks (cd_dispatch c') = dd_locks (cd_dispatch c) /\ dd_budget (cd_dispatch c') = dd_budget (cd_dispatch c) /\
  (forall w, In w (cd_wakes c') -> w_status w = Claimed -> In w (cd_wakes c)).

Lemma frame_refl c : settledFrame c c.
Proof. done. Qed.

Lemma frame_trans c1 c2 c3 : settledFrame c1 c2 -> settledFrame c2 c3 -> settledFrame c1 c3.
Proof.
  intros (H1 & H2 & H3) (H4 & H5 & H6). split_and!; [congruence|congruence|]. intros w Hin Hc. by apply H3; [apply H6|].
Qed.

Lemma onOrphans_frame f c : od_locks (f (asOrphans c)) = od_locks (asOrphans c) ->
  od_budget (f (asOrphans c)) = od_budget (asOrphans c) ->
  (forall w, In w (od_wakes (f (asOrphans c))) -> w_status w = Claimed -> In w (cd_wakes c)) -> settledFrame c (onOrphans f c).
Proof. intros Hl Hb Hw. by split_and!. Qed.

(** A created wakeup is queued, and what it merges into is too. *)
Lemma createWakeup_claimed now newId m team source payload run t w :
  In w (fst (createWakeup render quiet now newId m team source payload None run t)) -> w_status w = Claimed -> In w t.
Proof.
  unfold createWakeup. cbn [truthy quiet after_lookup after_select after_merge].
  assert (forall k, In w (fst (insertWakeup now k m team source payload None run t)) -> w_status w = Claimed -> In w t) as Hins.
  { intros k [Hin|[<-|[]]]%in_app_iff; [done|]. by cbn. }
  destruct (js_sort _ _) as [|e rest]; [apply Hins|]. destruct (existsb _ _); [|apply Hins].
  intros (w0 & Hw & Hin)%in_map_iff Hc. destruct (hasId _ _ && isQueued w0) eqn:E; [|by subst].
  exfalso. subst w. cbn in Hc. apply andb_true_iff in E as [_ E]. apply bool_decide_eq_true in E. congruence.
Qed.

Lemma create_frame m team source payload run c :
  settledFrame c (onOrphans (create render fresh m team source payload run) c).
Proof. apply onOrphans_frame; [done|done|]. intros w. apply createWakeup_claimed. Qed.

Lemma file_frame run m team task tail message c :
  settledFrame c (onOrphans (fileLostRunApproval render run m team task tail message) c).
Proof.
  assert (forall o, let o' := fileLostRunApproval render run m team task tail message o in
    od_locks o' = od_locks o /\ od_budget o' = od_budget o /\ od_wakes o' = od_wakes o) as H.
  { intros o. unfold fileLostRunApproval. by destruct (existsb _ _). }
  destruct (H (asOrphans c)) as (H1 & H2 & H3). apply onOrphans_frame; [done|done|]. intros w. by rewrite H3.
Qed.

Lemma record_same runId task st outcome error o : let o' := fst (recordHandbackOutcome runId task st outcome error o) in
  od_locks o' = od_locks o /\ od_budget o' = od_budget o /\ od_wakes o' = od_wakes o /\ od_approvals o' = od_approvals o.
Proof. unfold recordHandbackOutcome. destruct (existsb _ _); [|done]. by destruct outcome, (truthy task). Qed.

Lemma record_frame runId task st outcome error c :
  settledFrame c (onOrphans (fun o => fst (recordHandbackOutcome runId task st outcome error o)) c).
Proof.
  destruct (record_same runId task st outcome error (asOrphans c)) as (H1 & H2 & H3 & _).
  apply onOrphans_frame; [done|done|]. intros w. by rewrite H3.
Qed.

Lemma ping_frame m task runId err c : settledFrame c (postFailurePing freshComment m task runId err c).
Proof. unfold postFailurePing. destruct (List.find _ _); [|done]. by repeat case_match. Qed.

Lemma chain_frame inserts m slug task team run c :
  settledFrame c (chainNextTaskWakeup render floorMin fresh inserts m slug task team run c).
Proof.
  unfold chainNextTaskWakeup. destruct (nextTask _ _ _ _ _ _ _); [|done]. destruct inserts; [apply create_frame|done].
Qed.

Lemma report_frame inserts m slug task team result c :
  settledFrame c (reportAndChain render floorMin fresh freshComment inserts m slug task team result c).
Proof.
  unfold reportAndChain. eapply frame_trans; [|apply chain_frame].
  destruct (truthy _); [|done]. destruct (rr_success result); [done|apply ping_frame].
Qed.

Lemma continue_frame inserts m slug task team result c :
  settledFrame c (continueOrReport render floorMin fresh freshComment inserts m slug task team result c).
Proof.
  unfold continueOrReport. destruct (rr_timedOut result); [|apply report_frame]. unfold queueTimeoutContinuation.
  destruct (attemptsExhaustedOnTask _ _ _ _ _).
  - eapply frame_trans; [|apply report_frame]. destruct (truthy _); [apply file_frame|done].
  - destruct inserts; [apply create_frame|apply report_frame].
Qed.

Lemma settleRun_frame wid result task c : let c' := fst (settleRun wid result task c) in
  dd_locks (cd_dispatch c') = dd_locks (cd_dispatch c) /\ dd_budget (cd_dispatch c') = dd_budget (cd_dispatch c).
Proof.
  unfold settleRun. destruct (settleWakeupForRun _ _ _ _) as [t settled]. destruct (rr_requeue result); [|done].
  destruct (truthy (rr_run result)) as [id|]; [|done]. cbn [fst].
  destruct (record_frame id task RunCancelled (if match settled with Requeued => true | _ => false end then WasRequeued else WasAbandoned)
              None (onDispatch (put_wakes t) c)) as (H1 & H2 & _). by split.
Qed.

Lemma settleRun_wakes wid result task c :
  cd_wakes (fst (settleRun wid result task c)) = fst (settleWakeupForRun (cd_now c) wid (intentOf result) (cd_wakes c)).
Proof.
  unfold settleRun. destruct (settleWakeupForRun _ _ _ _) as [t settled]. destruct (rr_requeue result); [|done].
  destruct (truthy (rr_run result)) as [id|]; [|done]. cbn [fst].
  exact (proj1 (proj2 (proj2 (record_same id task RunCancelled _ None (asOrphans (onDispatch (put_wakes t) c)))))).
Qed.

(** No row of the run's wakeup is still claimed once it is settled. *)
Lemma settle_unclaims now wid id intent t w : truthy wid = Some id ->
  In w (fst (settleWakeupForRun now wid intent t)) -> w_id w = id -> w_status w <> Claimed.
Proof.
  intros Hid Hin Hw. unfold settleWakeupForRun in Hin. rewrite Hid in Hin.
  assert (forall (p : Wakeup -> bool) f, In w (update p f t) -> (forall x, In x t -> p x = true -> w_status (f x) <> Claimed) ->
    (forall x, In x t -> w_id x = id -> p x = false -> w_status x <> Claimed) -> w_status w <> Claimed) as Hup.
  { intros p f (x & <- & Hx)%in_map_iff H1 H2. destruct (p x) eqn:E; [by apply H1|by apply (H2 x)]. }
  assert (forall x, w_id x = id -> hasId id x = true) as Hhas by (intros x <-; unfold hasId; apply String.eqb_refl).
  destruct intent as [cause| | |]; cbn [fst] in Hin.
  1: { eapply Hup; [exact Hin|by intros; cbn|]. intros x _ Hx E. cbv beta in E. rewrite (Hhas x Hx) in E. cbn in E.
       by apply bool_decide_eq_false in E. }
  all: destruct (existsb _ _) eqn:Ex; cbn [fst] in Hin;
    [eapply Hup; [exact Hin|by intros; cbn|]; intros x _ Hx E; cbv beta in E; rewrite (Hhas x Hx) in E; cbn in E; by destruct (w_status x)
    |rewrite existsb_false_iff in Ex; specialize (Ex w Hin); rewrite (Hhas w Hw) in Ex; cbn in Ex; by destruct (w_status w)].
Qed.

Lemma releaseLock_free m task d : holdsLock m task (releaseLock m task d) = false.
Proof.
  unfold holdsLock, releaseLock. cbn [put_locks dd_locks]. apply existsb_false_iff. intros k (k0 & <- & _)%in_map_iff.
  destruct (String.eqb (el_task k0) task && _ && _) eqn:E; [|exact E]. cbn [el_released isNull]. by rewrite andb_false_r.
Qed.

(** An agent that is still active after it was settled has another run going. *)
Lemma idle_unless_running runs m exclude db a :
  agentOf (fst (setAgentIdleIfNoActiveRuns runs m exclude db)) m = Some a -> ba_runtime a = Active ->
  exists r, In r runs /\ hr_member r = m /\ activeStatus (hr_status r) = true /\ exclude <> Some (hr_id r).
Proof.
  unfold setAgentIdleIfNoActiveRuns. destruct (existsb _ runs) eqn:E.
  - intros _ _. apply existsb_exists in E as (r & Hin & [[Hm Ha]%andb_true_iff Hx]%andb_true_iff). exists r. split_and!; try done.
    + by apply String.eqb_eq.
    + intros ->. by rewrite String.eqb_refl in Hx.
  - destruct (agentOf (updateAgent m _ db) m) as [b|] eqn:Eb; [|cbn [fst]; rewrite Eb; congruence].
    destruct (bool_decide _) eqn:Er; cbn [fst].
    + rewrite (agentOf_update _ _ _ _ Eb) by done. intros [= <-]. by cbn.
    + rewrite Eb. intros [= <-] Hact. by apply bool_decide_eq_false in Er.
Qed.

(** C39. However a run ends, its agent's lock on the task is released, its wakeup is no longer
    claimed, and its agent reads active only when another of its runs is going. *)
Theorem completion_releases_everything inserts m slug task team wid result c :
  let c' := onAgentComplete render floorMin fresh freshComment inserts m slug task team wid result c in
  holdsLock m task (cd_dispatch c') = false /\
  (forall w, In w (cd_wakes c') -> truthy wid = Some (w_id w) -> w_status w <> Claimed) /\
  (forall a, agentOf (dd_budget (cd_dispatch c')) m = Some a -> ba_runtime a = Active ->
     exists r, In r (cd_runs c) /\ hr_member r = m /\ activeStatus (hr_status r) = true /\ truthy (rr_run result) <> Some (hr_id r)).
Proof.
  unfold onAgentComplete.
  set (c0 := settleIdle m (rr_run result) (onDispatch (releaseLock m task) c)).
  pose proof (settleRun_frame wid result (Some task) c0) as [Hl Hb].
  pose proof (settleRun_wakes wid result (Some task) c0) as Hw.
  destruct (settleRun wid result (Some task) c0) as [c1 requeued] eqn:E1. cbn [fst] in Hl, Hb, Hw.
  assert (forall c', settledFrame c1 c' -> holdsLock m task (cd_dispatch c') = false /\
    (forall w, In w (cd_wakes c') -> truthy wid = Some (w_id w) -> w_status w <> Claimed) /\
    (forall a, agentOf (dd_budget (cd_dispatch c')) m = Some a -> ba_runtime a = Active ->
     exists r, In r (cd_runs c) /\ hr_member r = m /\ activeStatus (hr_status r) = true /\ truthy (rr_run result) <> Some (hr_id r))) as H.
  { intros c' (Hl' & Hb' & Hw'). split_and!.
    - unfold holdsLock. rewrite Hl', Hl. exact (releaseLock_free m task (cd_dispatch c)).
    - intros w Hin Hid Hc. specialize (Hw' w Hin Hc). rewrite Hw in Hw'. by apply (settle_unclaims _ _ _ _ _ w Hid Hw').
    - intros a. rewrite Hb', Hb. exact (idle_unless_running (cd_runs c) m (truthy (rr_run result)) (dd_budget (cd_dispatch c)) a). }
  destruct requeued; [apply H, frame_refl|]. apply H. apply continue_frame.
Qed.

(** ** No failed run is silent *)

(** The run's wakeup is claimed and the runner asked for it to go back. *)
Definition handsBack (wid : option string) (result : RunResult) (c : CompletionDb) : bool :=
  match rr_requeue result, truthy wid with
  | Some _, Some id => existsb (fun w => hasId id w && bool_decide (w_status w = Claimed)) (cd_wakes c)
  | _, _ => false
  end.

(** A continuation is queued for a run that timed out. *)
Definition continues (inserts : bool) (m task : string) (result : RunResult) (c : CompletionDb) : bool :=
  rr_timedOut result && inserts && negb (attemptsExhaustedOnTask (dd_task (cd_dispatch c)) (cd_now c) m (Some task) false).

Definition pings_run (m task runId : string) (p : FailurePing) : Prop :=
  fp_task p = task /\ fp_run p = runId /\ fp_member p = m /\ fp_status p ∈ FAILURE_TERMINAL_STATUSES.

Lemma settleRun_requeued wid result task c : snd (settleRun wid result task c) = handsBack wid result c.
Proof.
  unfold settleRun, handsBack, intentOf, settleWakeupForRun.
  destruct (rr_requeue result) as [cause|], (truthy wid) as [id|].
  - destruct (existsb _ _); by destruct (truthy (rr_run result)).
  - by destruct (truthy (rr_run result)).
  - destruct (rr_success result); cbn [SETTLEMENT_TERMINAL_STATUS]; by destruct (existsb _ _); [|destruct (List.find (hasId id) (cd_wakes c))].
  - done.
Qed.

Lemma settleRun_pings wid result task c : cd_pings (fst (settleRun wid result task c)) = cd_pings c.
Proof.
  unfold settleRun. destruct (settleWakeupForRun _ _ _ _) as [t settled]. destruct (rr_requeue result); [|done].
  by destruct (truthy _).
Qed.

Lemma chain_pings inserts m slug task team run c :
  cd_pings (chainNextTaskWakeup render floorMin fresh inserts m slug task team run c) = cd_pings c.
Proof. unfold chainNextTaskWakeup. destruct (nextTask _ _ _ _ _ _ _); [|done]. by destruct inserts. Qed.

Lemma chain_reports inserts m slug task team run c :
  cd_approvals (chainNextTaskWakeup render floorMin fresh inserts m slug task team run c) = cd_approvals c /\
  cd_notices (chainNextTaskWakeup render floorMin fresh inserts m slug task team run c) = cd_notices c.
Proof. unfold chainNextTaskWakeup. destruct (nextTask _ _ _ _ _ _ _); [|done]. by destruct inserts. Qed.

Lemma ping_reports m task runId err c :
  cd_approvals (postFailurePing freshComment m task runId err c) = cd_approvals c /\
  cd_notices (postFailurePing freshComment m task runId err c) = cd_notices c.
Proof. unfold postFailurePing. destruct (List.find _ _); [|done]. by repeat case_match. Qed.

Lemma report_reports inserts m slug task team result c :
  cd_approvals (reportAndChain render floorMin fresh freshComment inserts m slug task team result c) = cd_approvals c /\
  cd_notices (reportAndChain render floorMin fresh freshComment inserts m slug task team result c) = cd_notices c.
Proof.
  unfold reportAndChain. destruct (chain_reports inserts m slug task team (rr_run result)
    match truthy (rr_run result) with
    | Some runId => if rr_success result then c else postFailurePing freshComment m task runId (truthy (trim <$> rr_stderr result)) c
    | None => c
    end) as [-> ->].
  destruct (truthy _); [|done]. destruct (rr_success result); [done|apply ping_reports].
Qed.

Lemma find_runs runs r : NoDup (List.map hr_id runs) -> In r runs -> List.find (runHasId (hr_id r)) runs = Some r.
Proof.
  intros Hnd Hin. destruct (List.find (runHasId (hr_id r)) runs) as [r'|] eqn:E.
  - apply find_some in E as [Hin' Hid]. apply String.eqb_eq in Hid. f_equal. by apply (NoDup_fmap_In hr_id runs).
  - apply (find_none_iff _ runs) with (x := r) in E; [|done]. unfold runHasId in E. by rewrite String.eqb_refl in E.
Qed.

(** The notice of a failed run: posted unless the run's row says success or cancelled, or the
    agent's last three decided runs of the task all failed. *)
Lemma report_pings inserts m slug task team result r c : rr_success result = false ->
  truthy (rr_run result) = Some (hr_id r) -> List.find (runHasId (hr_id r)) (cd_runs c) = Some r ->
  let c' := reportAndChain render floorMin fresh freshComment inserts m slug task team result c in
  if bool_decide (hr_status r ∈ NON_PINGING_STATUSES) || failureStreak m task (cd_runs c) then cd_pings c' = cd_pings c
  else exists p, cd_pings c' = cd_pings c ++ [p] /\ pings_run m task (hr_id r) p.
Proof.
  intros Hs Hr Hf. unfold reportAndChain. rewrite Hr, Hs, chain_pings. unfold postFailurePing. rewrite Hf.
  destruct (bool_decide (hr_status r ∈ _)); [done|]. destruct (failureStreak _ _ _); [done|].
  cbn [orb addPing cd_pings]. eexists. split; [done|]. split_and!; try done. cbn [fp_status].
  destruct (bool_decide (hr_status r ∈ FAILURE_TERMINAL_STATUSES)) eqn:E; [by apply bool_decide_eq_true in E|set_solver].
Qed.

Lemma idle_now runs m x db : bd_now (fst (setAgentIdleIfNoActiveRuns runs m x db)) = bd_now db.
Proof. unfold setAgentIdleIfNoActiveRuns. by repeat case_match. Qed.

(** The row a handback labels: one the runner finished as cancelled without a reason. *)
Definition unlabelled (r : HeartbeatRun) : bool := bool_decide (hr_status r = RunCancelled) && isNull (hr_cancel r).

(** A handback has nothing to label, when none was asked for or the row has its outcome. *)
Definition keepsRow (result : RunResult) (r : HeartbeatRun) : Prop := rr_requeue result = None \/ unlabelled r = false.

Lemma onlyRow runs r (p : HeartbeatRun -> bool) : NoDup (List.map hr_id runs) -> In r runs ->
  existsb (fun x => runHasId (hr_id r) x && p x) runs = p r.
Proof.
  intros Hnd Hin. destruct (p r) eqn:Ep.
  - apply existsb_exists. exists r. unfold runHasId. by rewrite String.eqb_refl.
  - apply existsb_false_iff. intros x Hx. destruct (runHasId (hr_id r) x) eqn:Ei; [|done]. apply String.eqb_eq in Ei.
    by rewrite (NoDup_fmap_In hr_id runs x r).
Qed.

Lemma settleRun_kept wid result task r c : NoDup (List.map hr_id (cd_runs c)) -> In r (cd_runs c) ->
  truthy (rr_run result) = Some (hr_id r) -> keepsRow result r ->
  let c' := fst (settleRun wid result task c) in
  cd_runs c' = cd_runs c /\
  attemptsExhaustedOnTask (dd_task (cd_dispatch c')) (cd_now c') = attemptsExhaustedOnTask (dd_task (cd_dispatch c)) (cd_now c).
Proof.
  unfold keepsRow. intros Hnd Hin Hrun Hk. unfold settleRun. destruct (settleWakeupForRun _ _ _ _) as [t settled]. rewrite Hrun.
  destruct (rr_requeue result); [|done]. destruct Hk as [Hk|Hk]; [discriminate|]. cbn [fst].
  unfold onOrphans, recordHandbackOutcome. cbn [asOrphans od_runs cd_runs onDispatch cd_dispatch put_wakes put_task dd_task with_wakeups db_runs].
  assert (existsb (fun x => runHasId (hr_id r) x && bool_decide (hr_status x = RunCancelled) && isNull (hr_cancel x)) (db_runs (dd_task (cd_dispatch c))) = false) as ->.
  { pose proof (onlyRow (cd_runs c) r unlabelled Hnd Hin) as E. rewrite Hk, existsb_false_iff in E. apply existsb_false_iff.
    intros x Hx. rewrite <- andb_assoc. exact (E x Hx). }
  done.
Qed.

(** A handback that found its wakeup settled leaves the notice on the task. *)
Lemma settleRun_abandons wid result task r c : NoDup (List.map hr_id (cd_runs c)) -> In r (cd_runs c) -> task <> "" ->
  truthy (rr_run result) = Some (hr_id r) -> rr_requeue result <> None -> handsBack wid result c = false ->
  hr_status r = RunCancelled -> hr_cancel r = None -> In (task, hr_id r) (cd_notices (fst (settleRun wid result (Some task) c))).
Proof.
  intros Hnd Hin Ht Hrun Hrq Hh Hs Hc. rewrite <- (settleRun_requeued wid result (Some task) c) in Hh. revert Hh. unfold settleRun.
  destruct (settleWakeupForRun _ _ _ _) as [t settled]. destruct (rr_requeue result); [|done]. rewrite Hrun. cbn [fst snd]. intros ->.
  unfold onOrphans, recordHandbackOutcome. cbn [asOrphans od_runs cd_runs onDispatch cd_dispatch put_wakes put_task dd_task with_wakeups db_runs].
  destruct (existsb _ _) eqn:E.
  - unfold truthy. destruct task; [done|]. cbn. apply in_app_iff. right. by left.
  - exfalso. rewrite existsb_false_iff in E. specialize (E r Hin). unfold runHasId in E.
    rewrite String.eqb_refl, Hs, Hc in E. by cbn in E.
Qed.

Lemma settleRun_handed wid result task c : handsBack wid result c = true -> exists w cause,
  In w (cd_wakes (fst (settleRun wid result task c))) /\ truthy wid = Some (w_id w) /\ rr_requeue result = Some cause /\
  w_status w = Queued /\ w_reason w = Some (causeReason cause) /\ w_not_before w = causeNotBefore cause.
Proof.
  intros H. rewrite settleRun_wakes. unfold handsBack in H. unfold intentOf.
  destruct (rr_requeue result) as [cause|]; [|done]. unfold settleWakeupForRun. destruct (truthy wid) as [id|]; [|done]. cbn [fst].
  apply existsb_exists in H as (w & Hin & Hp). exists (handBack (cd_now c) cause w), cause. split_and!; try done.
  - apply in_map_iff. exists w. by rewrite Hp.
  - apply andb_true_iff in Hp as [Hid _]. apply String.eqb_eq in Hid. by rewrite <- Hid.
Qed.

Lemma continue_waits inserts m slug task team result c : continues inserts m task result c = true ->
  let c' := continueOrReport render floorMin fresh freshComment inserts m slug task team result c in
  cd_pings c' = cd_pings c /\ exists w,
    In w (cd_wakes c') /\ w_status w = Queued /\ w_member w = m /\ text render (w_payload w) "task_id" = Some task.
Proof.
  intros [[Hto Hi]%andb_true_iff He%negb_true_iff]%andb_true_iff. unfold continueOrReport, queueTimeoutContinuation.
  rewrite Hto, He, Hi. split; [done|].
  apply (createWakeup_target render (cd_now c) (fresh (cd_wakes c)) m team Timer (continuationPayload task) (Some task) None (cd_wakes c)).
  unfold names_task, continuationPayload. by rewrite lookup_insert_eq.
Qed.

Lemma continue_pings inserts m slug task team result r c : rr_success result = false ->
  truthy (rr_run result) = Some (hr_id r) -> List.find (runHasId (hr_id r)) (cd_runs c) = Some r ->
  continues inserts m task result c = false ->
  let c' := continueOrReport render floorMin fresh freshComment inserts m slug task team result c in
  (if bool_decide (hr_status r ∈ NON_PINGING_STATUSES) || failureStreak m task (cd_runs c) then cd_pings c' = cd_pings c
   else exists p, cd_pings c' = cd_pings c ++ [p] /\ pings_run m task (hr_id r) p) /\
  (rr_timedOut result = true -> attemptsExhaustedOnTask (dd_task (cd_dispatch c)) (cd_now c) m (Some task) false = true ->
   existsb (standingError render m team) (cd_approvals c') = true).
Proof.
  intros Hs Htr Hf Hc. unfold continues in Hc. unfold continueOrReport.
  destruct (rr_timedOut result); [|split; [by apply report_pings|done]]. unfold queueTimeoutContinuation.
  destruct (attemptsExhaustedOnTask _ _ _ _ _) eqn:Ex.
  - rewrite Htr. set (c1 := onOrphans (fileExhaustedAttemptsApproval render (hr_id r) m team (Some task)) c).
    assert (cd_runs c1 = cd_runs c) as Hr by (exact (file_runs render (asOrphans c) _ _ _ _ _ _)).
    pose proof (report_pings inserts m slug task team result r c1 Hs Htr) as H. rewrite Hr in H.
    split; [exact (H Hf)|]. intros _ _.
    destruct (report_reports inserts m slug task team result c1) as [-> _].
    exact (file_standing render (asOrphans c) (Some (hr_id r)) m team (Some task) None exhaustedMessage).
  - destruct inserts; [done|]. split; [by apply report_pings|done].
Qed.

Lemma continue_notices inserts m slug task team result c :
  cd_notices (continueOrReport render floorMin fresh freshComment inserts m slug task team result c) = cd_notices c.
Proof.
  assert (forall c2, cd_notices (reportAndChain render floorMin fresh freshComment inserts m slug task team result c2) = cd_notices c2)
    as Hrep by (intros c2; apply report_reports).
  unfold continueOrReport. destruct (rr_timedOut result); [|apply Hrep]. unfold queueTimeoutContinuation.
  destruct (attemptsExhaustedOnTask _ _ _ _ _); [rewrite Hrep|by destruct inserts; [|rewrite Hrep]].
  destruct (truthy _); [|done]. unfold onOrphans, fromOrphans, fileExhaustedAttemptsApproval, fileLostRunApproval. by destruct (existsb _ _).
Qed.

(** A row labelled as abandoned was cancelled, so it is reported by its notice alone. *)
Lemma settleRun_labelled wid result task r c : NoDup (List.map hr_id (cd_runs c)) -> In r (cd_runs c) ->
  hr_status r = RunCancelled -> exists r', hr_id r' = hr_id r /\ hr_status r' = RunCancelled /\
  List.find (runHasId (hr_id r)) (cd_runs (fst (settleRun wid result task c))) = Some r'.
Proof.
  intros Hnd Hin Hs. pose proof (find_runs _ _ Hnd Hin) as Hf. unfold settleRun.
  destruct (settleWakeupForRun _ _ _ _) as [t settled].
  assert (exists r', hr_id r' = hr_id r /\ hr_status r' = RunCancelled /\ List.find (runHasId (hr_id r)) (cd_runs c) = Some r') as Hsame by eauto.
  destruct (rr_requeue result); [|done]. destruct (truthy (rr_run result)) as [runId|]; [|done]. cbn [fst].
  unfold onOrphans, recordHandbackOutcome. cbn [asOrphans od_runs cd_runs onDispatch cd_dispatch put_wakes put_task dd_task with_wakeups db_runs].
  destruct (existsb _ _); [|done].
  set (p := fun x => runHasId runId x && bool_decide (hr_status x = RunCancelled) && isNull (hr_cancel x)).
  assert (forall outcome, exists r', hr_id r' = hr_id r /\ hr_status r' = RunCancelled /\
    List.find (runHasId (hr_id r)) (List.map (fun x => if p x then setOutcome None outcome x else x) (cd_runs c)) = Some r') as Hmap.
  { intros outcome. exists (if p r then setOutcome None outcome r else r). split_and!; try by destruct (p r).
    clear Hnd Hin Hsame. induction (cd_runs c) as [|x l IH]; [done|]. cbn [List.map List.find] in *.
    assert (runHasId (hr_id r) (if p x then setOutcome None outcome x else x) = runHasId (hr_id r) x) as -> by (by destruct (p x)).
    destruct (runHasId (hr_id r) x); [by simplify_eq|auto]. }
  destruct settled; cbn [fst]; try exact (Hmap _); by destruct (truthy task); exact (Hmap _).
Qed.

End CompletionLaws.

(** ** The next task of an agent *)

#[export] Instance byPriority_comparator : Comparator byPriority.
Proof.
  split; intros *; unfold byPriority; repeat match goal with |- context [?x =? ?y] => destruct (Z.eqb_spec x y) end; lia.
Qed.

Section ChainLaws.
Variable render : Json -> string.
Variable floorMin : Z.
Variable fresh : Table -> string.

Notation chainable := (chainable render floorMin).
Notation nextTask := (nextTask render floorMin).
Notation chainNextTaskWakeup := (chainNextTaskWakeup render floorMin fresh).

Lemma nextTask_least m slug done_ team c t : nextTask m slug done_ team c = Some t ->
  In t (dd_tasks (cd_dispatch c)) /\ chainable m slug done_ team c t = true /\
  forall t', In t' (dd_tasks (cd_dispatch c)) -> chainable m slug done_ team c t' = true -> byPriority t t' <= 0.
Proof.
  unfold Completion.nextTask. set (l := List.filter _ _). intros H.
  pose proof (js_sort_sorted byPriority l) as Hs. pose proof (js_sort_In byPriority l) as Hin.
  destruct (js_sort byPriority l) as [|x rest]; [done|]. injection H as ->.
  assert (In t l) as [Ht Hc]%filter_In by (apply Hin; by left). split_and!; [done|done|]. intros t' Ht' Hc'.
  assert (In t' l) as [<-|Hr]%Hin by (by apply filter_In).
  - unfold byPriority. rewrite Z.eqb_refl. lia.
  - apply StronglySorted_inv in Hs as [_ Hs]. rewrite List.Forall_forall in Hs. by apply Hs.
Qed.

(** After a run its agent is woken for the first, by priority and then by age, of its tasks
    that are ready and that nothing already covers: no active run, no wakeup waiting, no
    success within its interval. A task chained once is not chained again while its wakeup
    waits, and with no such task nothing is written. *)
Theorem chain_takes_the_next_task m slug done_ team run c :
  let c' := chainNextTaskWakeup true m slug done_ team run c in
  match nextTask m slug done_ team c with
  | None => c' = c /\ forall t, In t (dd_tasks (cd_dispatch c)) -> chainable m slug done_ team c t = false
  | Some t =>
      In t (dd_tasks (cd_dispatch c)) /\ chainable m slug done_ team c t = true /\
      (forall t', In t' (dd_tasks (cd_dispatch c)) -> chainable m slug done_ team c t' = true -> byPriority t t' <= 0) /\
      (exists w, In w (cd_wakes c') /\ w_status w = Queued /\ w_member w = m /\ text render (w_payload w) "task_id" = Some (tk_id t)) /\
      (forall t', nextTask m slug done_ team c' = Some t' -> tk_id t' <> tk_id t)
  end.
Proof.
  unfold Completion.chainNextTaskWakeup. destruct (nextTask m slug done_ team c) as [t|] eqn:E.
  - destruct (nextTask_least m slug done_ team c t E) as (H1 & H2 & H3).
    set (c' := onOrphans _ c).
    assert (exists w, In w (cd_wakes c') /\ w_status w = Queued /\ w_member w = m /\ text render (w_payload w) "task_id" = Some (tk_id t))
      as Hw.
    { apply (createWakeup_target render (cd_now c) (fresh (cd_wakes c)) m team Timer (chainPayload (tk_id t)) (Some (tk_id t)) run (cd_wakes c)).
      unfold names_task, chainPayload. by rewrite lookup_insert_eq. }
    split_and!; [done|done|done|done|]. intros t' Hn Hid. apply nextTask_least in Hn as (_ & Hc & _).
    destruct Hw as (w & Hin & Hq & Hm & Htx). unfold Completion.chainable in Hc.
    assert (hasLiveWakeup render m (tk_id t') c' = true) as Hl.
    { apply existsb_exists. exists w. split; [done|]. rewrite Hm, String.eqb_refl, Hq, Htx, Hid.
      unfold equals. by rewrite !bool_decide_true by set_solver. }
    by rewrite Hl, !andb_false_r in Hc.
  - split; [done|]. intros t Ht. destruct (chainable m slug done_ team c t) eqn:Hc; [|done]. exfalso.
    unfold Completion.nextTask in E. pose proof (js_sort_In byPriority (List.filter (chainable m slug done_ team c) (dd_tasks (cd_dispatch c))) t) as Hin.
    destruct (js_sort _ _); [|done]. apply Hin. by apply filter_In.
Qed.
End ChainLaws.

(** ** Heartbeats *)

Section HeartbeatLaws.
Variable render : Json -> string.
Variables floorMin cooldownSec : Z.
Variable fresh : Table -> string.
Variable freshComment : list TaskComment -> string.
Variable freshLock : list ExecutionLock -> string.
Variable taskLess : AgentRow -> string -> DispatchDb -> DispatchDb * TaskLessResult.
Variable missedReview : string -> DispatchDb -> option TaskRow.

Notation beat := (beat render floorMin fresh freshComment freshLock taskLess missedReview).
Notation activateAgent := (activateAgent render floorMin freshComment freshLock taskLess missedReview).

Lemma actionable_nil m team instance d :
  (forall t, In t (dd_tasks d) -> equals (tk_assignee t) m = true -> taskTerminal (tk_status t) = false ->
     hasOpenBlockers (dependencyView d) (tk_id t) = true) -> actionableTasks m team instance d = [].
Proof.
  intros H. unfold actionableTasks. rewrite (proj2 (filter_nil_iff _ (dd_tasks d))); [done|]. intros t Hin.
  destruct (equals (tk_assignee t) m) eqn:Ea; [|by rewrite andb_false_r].
  destruct (taskTerminal (tk_status t)) eqn:Et; [by rewrite !andb_false_r|]. rewrite (H t Hin Ea Et). by rewrite !andb_false_r.
Qed.

(** With nothing to act on, an activation stamps the clock and completes the wakeup. *)
Lemma idle_activation a team wid posts d : List.find (fun x => String.eqb (ar_id x) (ar_id a)) (dd_agents d) = Some a ->
  ar_enabled a = true -> ar_slug a ∉ [CAPTAIN_AGENT_SLUG; COACH_AGENT_SLUG] ->
  actionableTasks (ar_id a) team (bool_decide (ar_slug a ∈ INSTANCE_AGENT_SLUGS)) d = [] ->
  activateAgent (ar_id a) team wid heartbeatJson Heartbeat posts d = (finishWakeup wid Completed (stampHeartbeat (ar_id a) d), Returned).
Proof.
  intros Hf He Hs Hn. unfold Dispatcher.activateAgent. rewrite Hf, He. cbn [negb].
  change (payloadTaskId heartbeatJson) with (@None string). unfold activateUntargeted. rewrite bool_decide_false by done.
  unfold activateSelected. destruct (String.eqb_spec (ar_slug a) COACH_AGENT_SLUG) as [E|E]; [exfalso; apply Hs; rewrite E; set_solver|].
  by rewrite Hn.
Qed.

(** A stamped agent shows its next heartbeat an interval away. *)
Lemma stamped_schedule a b interval c c' : agentOf (dd_budget (cd_dispatch c)) (ar_id a) = Some b -> intervalOf (ar_id a) c = Some interval ->
  onSchedule a b = true ->
  dd_budget (cd_dispatch c') = updateAgent (ar_id a) (set_heartbeat (cd_now c)) (dd_budget (cd_dispatch c)) ->
  intervalOf (ar_id a) c' = intervalOf (ar_id a) c ->
  lastBeat c' a = Some (cd_now c) /\ nextHeartbeatAt floorMin c' a = Some (nextBeat floorMin interval (cd_now c)).
Proof.
  intros Hb Hi Hon Hbud Hint. unfold lastBeat, nextHeartbeatAt, scheduleRow.
  rewrite Hbud, Hint, (agentOf_update _ _ _ _ Hb), Hi by done. cbn. unfold onSchedule in *. cbn [set_heartbeat ba_runtime]. by rewrite Hon.
Qed.

(** Until that instant the agent is not due, whatever else happens. *)
Lemma not_due_before a interval at_ c : lastBeat c a = Some at_ -> intervalOf (ar_id a) c = Some interval ->
  cd_now c <= nextBeat floorMin interval at_ -> dueAgent floorMin cooldownSec c a = false.
Proof.
  intros Hl Hi Hn. unfold dueAgent, scheduleRow. unfold lastBeat in Hl.
  destruct (agentOf _ _) as [b|]; [|done]. cbn in Hl |- *. rewrite Hi. cbn. rewrite Hl.
  rewrite (proj2 (Z.ltb_ge _ _) Hn). by rewrite andb_false_r.
Qed.

(** A heartbeat that finds its agent without actionable work launches nothing, and the
    countdown then shows an instant an interval away before which the agent is not due,
    whatever other runs and wakeups come and go. *)
Theorem idle_heartbeat_waits_an_interval posts a c : 0 <= floorMin ->
  List.find (fun x => String.eqb (ar_id x) (ar_id a)) (dd_agents (cd_dispatch c)) = Some a ->
  ar_slug a ∉ [CAPTAIN_AGENT_SLUG; COACH_AGENT_SLUG] -> dueAgent floorMin cooldownSec c a = true ->
  isMemberRunning (ar_id a) (dd_jobs (cd_dispatch c)) = false -> hasActionableWork c (ar_id a) = false ->
  let '(c', r) := beat posts a c in
  r <> Some Launched /\ dd_jobs (cd_dispatch c') = dd_jobs (cd_dispatch c) /\ dd_locks (cd_dispatch c') = dd_locks (cd_dispatch c) /\
  cd_runs c' = cd_runs c /\
  exists next, nextHeartbeatAt floorMin c' a = Some next /\ cd_now c + floorMin * US_PER_MIN <= next /\
    forall c2, lastBeat c2 a = lastBeat c' a -> intervalOf (ar_id a) c2 = intervalOf (ar_id a) c' -> cd_now c2 <= next ->
      dueAgent floorMin cooldownSec c2 a = false.
Proof.
  intros Hfl Hf Hs Hdue Hrun Hwork. unfold dueAgent, scheduleRow in Hdue.
  destruct (agentOf _ _) as [b|] eqn:Hb; [|done]. destruct (intervalOf (ar_id a) c) as [interval|] eqn:Hi; [|done]. cbn in Hdue.
  apply andb_true_iff in Hdue as [[[Hon _]%andb_true_iff _]%andb_true_iff _]. unfold Completion.beat. rewrite Hrun.
  destruct (createWakeup _ _ _ _ _ _ _ _ _ _ _) as [t wid]. cbn [fst].
  assert (forall c', dd_jobs (cd_dispatch c') = dd_jobs (cd_dispatch c) -> dd_locks (cd_dispatch c') = dd_locks (cd_dispatch c) ->
    cd_runs c' = cd_runs c -> dd_budget (cd_dispatch c') = updateAgent (ar_id a) (set_heartbeat (cd_now c)) (dd_budget (cd_dispatch c)) ->
    intervalOf (ar_id a) c' = intervalOf (ar_id a) c -> forall r, r <> Some Launched ->
    r <> Some Launched /\ dd_jobs (cd_dispatch c') = dd_jobs (cd_dispatch c) /\ dd_locks (cd_dispatch c') = dd_locks (cd_dispatch c) /\
    cd_runs c' = cd_runs c /\
    exists next, nextHeartbeatAt floorMin c' a = Some next /\ cd_now c + floorMin * US_PER_MIN <= next /\
    forall c2, lastBeat c2 a = lastBeat c' a -> intervalOf (ar_id a) c2 = intervalOf (ar_id a) c' -> cd_now c2 <= next ->
      dueAgent floorMin cooldownSec c2 a = false) as Hend.
  { intros c' H1 H2 H3 H4 H5 r Hr. destruct (stamped_schedule a b interval c c' Hb Hi Hon H4 H5) as [Hl Hn]. split_and!; try done.
    exists (nextBeat floorMin interval (cd_now c)). split_and!; [done|unfold nextBeat, US_PER_MIN, US_PER_SEC; lia|].
    intros c2 E1 E2 Hle. rewrite Hl in E1. rewrite H5, Hi in E2. by apply (not_due_before a interval (cd_now c)). }
  set (c1 := onDispatch (put_wakes t) c). destruct (existsb _ t).
  - rewrite idle_activation; [by apply Hend|exact Hf| |done|].
    + unfold onSchedule in Hon. by apply andb_true_iff in Hon as [Hon _].
    + apply actionable_nil. intros x Hx Ha Ht. unfold hasActionableWork in Hwork. rewrite existsb_false_iff in Hwork.
      specialize (Hwork x Hx). rewrite Ha, Ht in Hwork. cbn in Hwork. by apply negb_false_iff in Hwork.
  - by apply Hend.
Qed.
End HeartbeatLaws.

(** ** Concrete completions *)

Definition demo_beatAgent (id : string) (at_ : option Z) : BudgetAgent := mkBudgetAgent id id (demo_limits 0 0 0) Idle at_ ∅.
Definition demo_run (id : string) (s : HeartbeatRunStatus) : HeartbeatRun :=
  mkHeartbeatRun id "dev" "team" (Some "T") (Some "w1") KindTask s 0 (Some 10) (Some 20) false None None 0 0 0 (Some "boom") (Some 1) None.

Definition demo_completion (runs : list HeartbeatRun) (wakes : Table) (agents : list AgentRow) (budget : list BudgetAgent)
    (tasks : list TaskRow) (projects : list ProjectState) (jobs : JobManager) : CompletionDb :=
  mkCompletion (mkDispatch (mkTaskDb runs [] wakes [] [("T", "team")] [] [] (List.map (fun a => mkAgentHandle (ar_id a) (ar_slug a) 60) agents) None)
                  [mkLock "k1" "T" "dev" 0 None]
                  (mkBudgetDb [] budget [] [] None None None demo_now (demo_now / 1000)) agents projects tasks [] demo_instance jobs)
    [] [] [] (List.map (fun a => (ar_id a, "team")) agents).

Definition demo_failed : CompletionDb :=
  demo_completion [demo_run "r1" RunFailed] [demo_request Claimed] [demo_arow] [demo_beatAgent "dev" None] [demo_taskrow]
    [demo_project None] initial.
Notation demo_complete := (onAgentComplete (fun _ => "") 60 (fun _ => "w9") (fun _ => "c9") true "dev" "engineer" "T" "team" (Some "w1")).


Definition demo_resting : CompletionDb :=
  demo_completion [] [] [demo_arow] [demo_beatAgent "dev" None] [mkTaskRow "T" "P" "team" (Some "dev") Done Medium 0] [demo_project None] initial.
Notation demo_beat := (beat (fun _ => "") 60 (fun _ => "w9") (fun _ => "c9") (fun _ => "k9") (fun _ _ db => (db, Dispatched)) (fun _ _ => None)).

Lemma idle_heartbeat_waits_an_interval_witness : let '(c', r) := demo_beat true demo_arow demo_resting in
  r <> Some Launched /\ exists next, nextHeartbeatAt 60 c' demo_arow = Some next /\ demo_now + 60 * US_PER_MIN <= next.
Proof.
  pose proof (idle_heartbeat_waits_an_interval (fun _ => "") 60 60 (fun _ => "w9") (fun _ => "c9") (fun _ => "k9")
    (fun _ _ db => (db, Dispatched)) (fun _ _ => None) true demo_arow demo_resting ltac:(lia) eq_refl
    ltac:(apply (bool_decide_unpack _); vm_compute; exact I) eq_refl eq_refl eq_refl) as H.
  destruct (demo_beat true demo_arow demo_resting) as [c' r]. destruct H as (H1 & _ & _ & _ & next & H2 & H3 & _).
  split; [exact H1|]. exists next. split; [exact H2|exact H3].
Defined.

(** ** Where the code and its comments part *)

(** The sweep takes the five agents that have waited longest, so that a slow agent is not
    crowded out; five agents in the middle of long runs fill it, and a sixth that is due is
    never reached while they run. *)
Definition demo_long (id : string) : AgentRow := mkAgentRow id "engineer" true true.
Definition demo_crowd : CompletionDb :=
  let ids := ["a1"; "a2"; "a3"; "a4"; "a5"] in
  demo_completion [] [] (List.map demo_long ids ++ [demo_arow])
    (List.map (fun id => demo_beatAgent id None) ids ++ [demo_beatAgent "dev" (Some (- 100 * US_PER_HOUR))]) [demo_taskrow] [demo_project None]
    (fold_left (fun J id => fst (dispatch (taskRun id id "P" false) J)) ids initial).

Lemma long_runs_crowd_out_heartbeats :
  dueAgent 60 60 demo_crowd demo_arow = true /\ isMemberRunning "dev" (dd_jobs (cd_dispatch demo_crowd)) = false /\
  processScheduledHeartbeats (fun _ => "") 60 60 (fun _ => "w9") (fun _ => "c9") (fun _ => "k9") (fun _ _ db => (db, Dispatched))
    (fun _ _ => None) true demo_crowd = demo_crowd.
Proof. split_and!; vm_compute; reflexivity. Qed.

(** The chain does not look at whether a task's project is archived, as the activation does:
    an instance agent is woken for such a task ahead of live work, and the wakeup ends with no
    run. *)
Definition demo_ceo : AgentRow := mkAgentRow "dev" "ceo" true true.
Definition demo_archive : CompletionDb :=
  demo_completion [demo_run "r1" RunSucceeded] [] [demo_ceo] [demo_beatAgent "dev" None]
    [demo_taskrow; mkTaskRow "old" "Q" "other" (Some "dev") InProgress Medium 1; mkTaskRow "live" "P" "team" (Some "dev") InProgress Medium 2]
    [demo_project None; mkProjectState (mkProjectRow "Q" "other" None false None) true None false] initial.

Lemma chain_stops_at_archived_task :
  let c' := chainNextTaskWakeup (fun _ => "") 60 (fun _ => "w9") true "dev" "ceo" "T" "team" (Some "r1") demo_archive in
  tk_id <$> nextTask (fun _ => "") 60 "dev" "ceo" "T" "team" demo_archive = Some "old" /\
  List.map (fun w => (w_id w, payloadTaskId (w_payload w))) (cd_wakes c') = [("w9", Some "old")] /\
  let '(d, r) := demo_activate "dev" "team" "w9" {["task_id" := JStr "old"]} Timer true (cd_dispatch c') in
  r = Returned /\ List.map w_status (dd_wakes d) = [Completed] /\ dd_jobs d = dd_jobs (cd_dispatch demo_archive).
Proof. split; [|split]; vm_compute; repeat split. Qed.

(** The flag behind the countdown counts a task of an archived project, and one of another
    team, which the selection of a heartbeat leaves out. *)
Lemma countdown_shown_without_work :
  let c := demo_completion [] [] [demo_arow] [demo_beatAgent "dev" None]
             [mkTaskRow "old" "Q" "team" (Some "dev") InProgress Medium 1; mkTaskRow "far" "P" "other" (Some "dev") InProgress Medium 1]
             [demo_project None; mkProjectState (mkProjectRow "Q" "team" None false None) true None false] initial in
  hasActionableWork c "dev" = true /\ actionableTasks "dev" "team" false (cd_dispatch c) = [].
Proof. split; vm_compute; reflexivity. Qed.
